(* ===== verification/_CoqProject ===== *)
-Q . S2P
Prelude.v
Crypto.v
Errors.v
Position.v
Accumulator.v
Verifier.v
Ledger.v
ConsensusTypes.v
Blocks.v
Storage.v
SafetyRules.v
SafetyLemmas.v
Replica.v
Bft.v
Simulation.v
Agreement.v
SafetyProps.v
PendingVotes.v
RoundProps.v
LedgerProps.v
PositionLemmas.v
AccumulatorLemmas.v
AccumulatorProps.v
StateProofs.v
StateProps.v
TransactionProofs.v
TransactionLemmas.v
TransactionProps.v
AccumulatorStore.v
AccumulatorStoreLemmas.v
AccumulatorStoreProps.v
SchemaDb.v
LedgerSchemas.v
LedgerDb.v
TransactionStore.v
EventStore.v
StateStore.v
AptosDb.v
SchemaLemmas.v
LedgerDbLemmas.v
LedgerDbWrites.v
LedgerDbExample.v
LedgerDbProps.v
EpochSync.v
EpochSyncProps.v
BlockTree.v
ConsensusDb.v
LivenessStorage.v
BlockStore.v
ConsensusDbLemmas.v
BlockTreeLemmas.v
BlockStoreLemmas.v
Recovery.v
SyncManager.v
SyncLemmas.v
BlockStoreRun.v
BlockStoreExample.v
BlockStoreProps.v
SyncProps.v
RecoveryProps.v
MempoolIndex.v
MempoolIndexLemmas.v
MempoolStore.v
MempoolSpec.v
MempoolSteps.v
Mempool.v
MempoolRun.v
MempoolProps.v
MempoolNetwork.v
SharedMempool.v
SharedMempoolLemmas.v
SharedMempoolRun.v
SharedMempoolProps.v
LeaderElection.v
LeaderElectionProps.v
ProposalGenerator.v
ProposalProps.v
RoundManager.v
RoundManagerLemmas.v
RoundManagerProps.v
