(* ===== verification/Prelude.v ===== *)
(** * A verification library for the core of aptos-core

    Aptos validators order blocks with a two-chain protocol, and clients follow
    the ledger through proofs against it.  The parts modelled here, bottom up:

    - validator sets and quorums (src/types/src/validator_verifier.rs);
    - Merkle accumulators over tree positions, and the proofs checked against them
      (src/types/src/proof);
    - ledger infos, epochs, waypoints and the light client's trusted state
      (src/types/src);
    - votes, certificates, blocks and messages (src/consensus/consensus-types);
    - safety rules, the part of a validator that holds the consensus key and decides
      what it may sign, on its persistent storage (src/consensus/safety-rules,
      src/secure/storage);
    - the collection of votes into certificates and the rounds they open
      (src/consensus/src/pending_votes.rs, src/consensus/src/liveness/round_state.rs);
    - the ledger database: typed tables over RocksDB, the stores of transactions,
      events, ledger infos and buffered state, saving, and what is served to clients
      (src/storage/schemadb, src/storage/accumulator, src/storage/aptosdb);
    - the block store: the tree of blocks a validator keeps, what is inserted, committed
      and pruned, block retrieval and catching up, and the consensus database it
      recovers from (src/consensus/src/block_storage, src/consensus/src/consensusdb,
      src/consensus/src/persistent_liveness_storage.rs);
    - the election of leaders, the proposals they make, and the round manager that drives
      all of the above with the events of a round (src/consensus/src/liveness,
      src/consensus/src/round_manager.rs);
    - core mempool: the transactions that wait for a block, with the indexes from which
      blocks are filled and transactions are broadcast (src/mempool/src/core_mempool);
    - shared mempool: submissions of clients and peers, broadcasts to upstream peers and
      their acknowledgements, and the coordinator that handles all events of mempool
      (src/mempool/src/shared_mempool).

    ** Files

    - Prelude: outcomes of Rust code ([Ok], [Err], [Panic]), the state monad of
      [&mut self] methods, u64 arithmetic with overflow as [Panic], ordered maps and
      sums of weights, the tactics and hints that the other files use.
    - Crypto: [HashValue], and the interfaces to third-party cryptography as classes.
      Errors: [VerifyError] and [anyhow] errors.
    - Position, Accumulator: types/src/proof/position, types/src/proof/accumulator and
      the accumulator proofs of types/src/proof/definition.rs.  PositionLemmas,
      AccumulatorLemmas: arithmetic of (level, index) pairs and the reference Merkle
      tree.  AccumulatorProps: the theorems of both.
    - Verifier: [ValidatorVerifier] and its theorems.
    - Ledger: [BlockInfo], [LedgerInfo], [EpochState], [Waypoint], [EpochChangeProof],
      [TransactionAccumulatorSummary], [TrustedState]; LedgerProps: their theorems.
    - ConsensusTypes, Blocks: the data of consensus/consensus-types with every check
      on it.
    - Storage: the key/value store as a class with its contract, [InMemoryStorage] as
      an instance, and [PersistentSafetyStorage] with its cache.
    - SafetyRules: safety_rules.rs, safety_rules_2chain.rs and the dispatch of
      serializer.rs; one definition per method, over any storage.  SafetyLemmas: what
      each request does to memory and disk.
    - Replica: one validator's safety rules as a state machine of requests, restarts
      and storage failures, with the log of what it has released.  Bft: a system of
      replicas under an adversary.  Simulation: an executable form of that system and
      a four-validator network.  Agreement, SafetyProps: the theorems.
    - PendingVotes: [PendingVotes] and [RoundState]; RoundProps: their theorems.
    - StateProofs: sparse Merkle proofs and range proofs of
      types/src/proof/definition.rs, and the tree they are about; StateProps: their
      theorems.
    - TransactionProofs: accumulator range proofs, transaction infos with proofs, and
      the transactions, outputs and account transactions of types/src/transaction that
      are verified against a ledger info.  TransactionLemmas: proofs of any depth
      against a Merkle root; TransactionProps: the theorems.
    - AccumulatorStore: storage/accumulator over any reader of frozen nodes;
      AccumulatorStoreLemmas, AccumulatorStoreProps: a reader that holds the frozen
      nodes of a list of leaves, and the theorems.
    - SchemaDb: RocksDB as a class ([RocksDb]) and schemadb on it.  LedgerSchemas: keys
      and values of the tables.  LedgerDb, TransactionStore, EventStore, StateStore,
      AptosDb: ledger_store, transaction_store, event_store, state_store with the
      buffered state, aptosdb/src/lib.rs and the ledger pruner.  SchemaLemmas: reads after
      writes, seeks and scans by table.  LedgerDbLemmas, LedgerDbWrites: [db_holds], when a
      database holds a ledger from which versions may be pruned, and what a save and a
      round of the pruner ([prune_holds]) make of it.  LedgerDbExample, LedgerDbProps: an
      in-memory database that fulfils the laws, a small ledger in it, and the
      theorems.  EpochSync, EpochSyncProps: chains of epochs in the database and the
      clients that follow them.
    - BlockTree: block_tree.rs with executed_block.rs.  ConsensusDb: consensusdb and the
      recovery data of persistent_liveness_storage.rs.  LivenessStorage: the trait
      PersistentLivenessStorage as a class, StorageWriteProxy as its instance.
      BlockStore: block_store.rs over any state computer and storage.  SyncManager:
      sync_manager.rs and block_retrieval.rs over any network.
    - BlockTreeLemmas: [descends], [tree_ok] and what each tree operation does.
      BlockStoreLemmas, SyncLemmas: a program logic ([safe]: no panic, and an invariant
      also on errors) and the triples of the store's and the synchroniser's operations.
      BlockStoreRun: the blocks of an epoch of a BFT execution, and the store as a state
      machine of events.  BlockStoreExample, BlockStoreProps, SyncProps: a
      session on concrete blocks and the theorems.
    - ConsensusDbLemmas: what a consensus database holds.  Recovery: what is recovered
      from it and the block store built on that; RecoveryProps: the theorems.
    - MempoolIndex: transaction.rs, index.rs and ttl_cache.rs.  MempoolStore:
      transaction_store.rs.  Mempool: mempool.rs.  MempoolSpec: the store as one map from
      pointers to transactions with three marks ([Pool], [represents]).
      MempoolIndexLemmas, MempoolSteps: what each operation does to that map.  MempoolRun:
      the operations as steps of a state machine, and the batches.  MempoolProps: the
      theorems.
    - MempoolNetwork: network.rs and types.rs of shared mempool.  SharedMempool: tasks.rs
      and coordinator.rs, one step per event.  SharedMempoolLemmas: the timeline as peers
      read it, and what a broadcast does to the state kept of a peer.  SharedMempoolRun: the
      coordinator as a state machine, for any invariant of the peers ([NetInvariant]).
      SharedMempoolProps: two such invariants and the theorems.
    - LeaderElection: the five elections of consensus/src/liveness, the trait as a class, and
      the election that epoch_manager.rs creates from the on-chain configuration.
      LeaderElectionProps: the class [Elects] of elections that agree on the leader of a
      round, its instances, and the theorems.
    - ProposalGenerator: proposal_generator.rs, payload_manager.rs and
      direct_mempool_quorum_store.rs.  ProposalProps: the class [PayloadManagerLaws], that
      shared mempool behind the quorum store fulfils it, and the theorems.
    - RoundManager: round_manager.rs and metrics_safety_rules.rs, one definition per event,
      on the block store, the round state, the election, the proposal generator and safety
      rules; and how epoch_manager.rs starts a round manager.  RoundManagerLemmas: which
      certificates reach the block store and the collection of votes, and safety rules that
      initialise themselves as requests of a replica.  RoundManagerProps: a system of nodes,
      its simulation by the system of replicas, three rounds of a network, the theorems.

    ** How the code is represented

    A record of the source is a [Record], an enum an [Inductive], a function a
    [Definition] or [Fixpoint] of the same name in a [Module] named after its type.
    Unsigned integers are [N] with the bounds of a u64 written out; overflow panics,
    as the workspace compiles every profile with overflow checks.  A [BTreeMap] is a
    [gmap] iterated in key order.  A method on [&mut self] is a [method], a function
    from the state to an outcome and the state it leaves, also on errors.  Hashes,
    keys and addresses are numbers.

    Parameters: the hash of a structure ([CryptoHash], [MerkleHasher]), signatures
    ([Signable]), the clock, the random choice of an evicted account, the log level,
    the round durations (floating point), the
    storage backend ([KVStorage]), RocksDB ([RocksDb]), serialisation ([Bcs]), the order
    in which hash sets are iterated ([HashOrder]), the state computer ([StateComputer])
    and the peers ([ConsensusNetwork]); SHA-3 and the block events in the database
    ([BlockEventReader]) for leader reputation; for mempool the answers of the VM and of the database
    ([Env]).  Hypotheses on them are named where a theorem
    needs one: [CollisionFree] and [Inj2] (no hash collisions), [SignatureCorrect],
    [KVStorageLaws] (a failed write changes nothing, a read returns what was written),
    [KVStorageReliable] (neither fails),
    [RocksDbLaws] (iterators yield the rows in key order, batches are atomic),
    [RocksDbReliable] (no I/O errors), [LedgerBcsLaws] (decoding inverts encoding),
    [StateComputerLaws], [LivenessStorageLaws], [NetworkLaws] (no answer has a block on which
    its own checks overflow or panic, [block_fits]), [BatchBcs], [CallsBack] and
    [StorageKeeps].

    ** What the theorems show

    - Agreement.  In every reachable state of a system whose honest validators run
      safety rules, with voting power of the others at most total minus quorum, two
      ledger infos with a quorum of signatures are on one chain ([agreement]), and a
      round has one certified block ([one_certificate_per_round]).  This system is what
      nodes with round managers do: their runs, with messages, timeouts, failures and
      restarts, are simulated by it ([nodes_refine_replicas]), so that a node votes once in
      a round and nodes agree ([nodes_vote_once], [nodes_agree]).  The adversary
      chooses requests, restarts and storage failures, within what [allowed] admits:
      signatures of honest validators in a certificate come from their logs, a timeout
      certificate handed to safety rules is of the epoch of the block, a commit vote keeps
      the data hash of the ordered ledger info and is asked for in its epoch, and a replica
      is initialised with the validator sets of the chain.  Safety rules do not check these
      ([safe_vote_granted] shows it for the timeout certificate).  That the callers do is
      shown for the round manager; for commit votes, whose callers are not modelled, the
      steps of a node assume it.
    - Safety rules.  No equivocation across restarts, timeouts that vouch for earlier
      votes, monotone safety data, the exact meaning of a released vote, timeout and
      commit vote, that every vote the rules allow is granted ([safe_vote_granted]), no
      trace of failed requests, initialisation.
    - Quorums.  The voting power check against its specification, quorum
      intersection, equivalence of batch and one-by-one verification.
    - Vote collection and rounds.  Certificates formed from verified votes verify, no
      author counts twice, no failure; rounds only move forward and
      are computed as intended.
    - Light clients.  Chains of trust from a trusted epoch or a waypoint, binding of
      waypoints, and consistency proofs: an accepted one extends the leaves the client
      has seen.
    - Accumulators and positions.  Appending leaves or subtrees computes the Merkle
      root of the documented tree; inclusion and extension proofs are sound and
      complete; navigation, post-order numbering and the iterators over frozen
      subtrees agree with the tree.
    - State and transactions.  A sparse Merkle proof is accepted exactly for the value,
      or the absence, of its key; a range proof covers every key up to the last known
      one.  An accepted list of transactions, or user transaction, is the ledger's at
      those versions; a list that overlaps a ledger it does not extend is refused; and
      a list is also accepted at versions past the end of the ledger.
    - The ledger database.  Saving transactions extends the abstract ledger that the
      database holds, or leaves it alone ([save_transactions_refines]); the lists,
      proofs and epoch changes it serves are accepted by the verifiers above, also after
      pruning, where exactly the requests that start at a version still there are served
      ([served_transactions_verify]); a client that follows them catches up
      ([client_catches_up]).  The startup
      information exists only where the last checkpoint is at the commit.
    - The block store.  In every reachable state of the BFT system, whatever blocks,
      certificates and callbacks arrive in whatever order, the store does not panic, its
      tree stays well-formed and its roots only move down the chain
      ([block_store_safe]); this rests on [agreement], from which BlockStoreRun derives
      the assumptions on certificates.  A commit prunes exactly the excluded blocks.
      Every request for blocks of the tree is answered with them, and they verify
      ([served_blocks_verify]); retrieval of a certified block ends, and one peer that has
      it is enough ([retrieve_certified_total]); four defects of retrieval and pruning.
    - Recovery.  The writes of the block store refine the abstract content of the
      consensus database ([storage_refines]), and a restart rebuilds the tree of the
      blocks that were saved ([restart_recovers_tree]).
    - Mempool.  In every run of additions, commits, rejections and garbage collections
      the operations return, the five indexes fit the stored transactions, the pool stays
      within its capacity, and each operation does to the map of transactions what its
      specification says ([mempool_refines]).  A batch has no transaction twice, none
      that consensus has, each one after its predecessor, and leaves out only what may
      not go in.  No transaction of an account with sequence numbers is forgotten; three
      defects: accounts with nonces, parked transactions that are not broadcast again,
      and entries of the cache that are never collected.
    - Broadcasts.  In every run of shared mempool the coordinator does not panic, every
      upstream peer has a broadcast scheduled, and what a peer has got past was sent to it
      ([broadcasts_reach_peers]); a peer that answers gets everything
      ([broadcasts_catch_up]); and a defect that stops broadcasts to a peer.
    - Leaders and proposals.  A leader is elected with the weight that the documentation of
      the heuristic gives it, from a history that is read in the wrong order, so that with
      the default configuration the newest votes do not count
      ([newest_votes_do_not_count]); a second
      proposal of a round is refused; and a generated proposal is one that the other
      validators accept, without a transaction that is already on its way
      ([generated_proposal_correct]).

    Witnesses evaluate the definitions on concrete data: a four-validator network
    that votes, times out and commits, also with complete round managers that exchange their
    messages, small accumulators, epoch changes.

    ** Bounds and fuel

    Loops of the source that do not recurse on a list are given fuel; exhausted fuel is
    [Panic], so theorems that return [Ok] include termination.

    - Iterators of frozen subtrees: 65 and 130 steps; [append_subtrees]: 64 per loop;
      the stored accumulator's [freeze_up] and [get_hash_at]: 64, the height of the
      tree.  Proved enough for every size up to [MAX_ACCUMULATOR_LEAVES].
    - The range proof's loop: the number of hashes and siblings, which every iteration
      decreases ([range_verify_total]).
    - The binary search by timestamp: 64 halvings of a u64; the search for a block's
      metadata: [MAX_VERSIONS_TO_SEARCH], as in the source.
    - Scans of a table: a fuel argument, at least the number of rows scanned in the
      theorems that need a result.
    - Paths, pruning and serving in the block tree: the number of its blocks, proved
      enough for well-formed trees; retrieval from peers: the number of blocks asked for
      plus the number of peers, since each attempt gets a block or uses up a peer;
      fetching the ancestors of a certificate: its round, which falls with each block.
    - Promotion of an account's transactions: their number, since each step passes one;
      transactions that a batch skipped: their number, since each step takes one.  The
      operations of mempool are proved to return, so both are enough.
    - The search for a leader's share: the number of validators plus one; polls of the
      quorum store: the poll count of the client; failed authors: the number of rounds
      between parent and block.  The initialisations of safety rules within a request are
      bounded by an argument ([re_fuel]).

    All other recursion is structural.

    ** What is not modelled

    I/O, logging, metrics, serialisation formats (only that they are codecs),
    asynchronous event loops, the Move VM and everything that depends on it, the secure
    storage backends on disk and in the network, the Jellyfish Merkle tree and the state
    values read from it, the state pruner, the threads of pruners and committers,
    networking, state synchronisation, the execution pipeline that asks safety rules for
    commit votes, and of the epoch manager all but the start of a round manager and the
    creation of its election. *)

From stdpp Require Export base option list numbers gmap strings sorting.
From Stdlib Require Export Lia.

#[global] Set Warnings "-clear-no-such-hyp".
#[global] Set Default Goal Selector "!".

Declare Scope rust_scope.
Delimit Scope rust_scope with rust.
#[global] Open Scope N_scope.

(** ** Outcomes of Rust code

    A fallible Rust function returns [Ok] or [Err]; besides, any function may
    panic ([expect], [assert!], [todo!], and the arithmetic operators, since the
    workspace builds every profile with overflow checks on). *)
Inductive outcome (E A : Type) : Type :=
  | Ok (a : A)
  | Err (e : E)
  | Panic.
Arguments Ok {E A} a.
Arguments Err {E A} e.
Arguments Panic {E A}.

#[global] Instance outcome_ret {E} : MRet (outcome E) := fun A a => Ok a.
#[global] Instance outcome_bind {E} : MBind (outcome E) := fun A B f m =>
  match m with Ok a => f a | Err e => Err e | Panic => Panic end.
#[global] Instance outcome_fmap {E} : FMap (outcome E) := fun A B f m =>
  match m with Ok a => Ok (f a) | Err e => Err e | Panic => Panic end.

#[global] Instance outcome_eq_dec {E A} `{EqDecision E, EqDecision A} :
  EqDecision (outcome E A).
Proof. solve_decision. Defined.

(** [map_err] of [std::result::Result]. *)
Definition map_err {E F A} (f : E -> F) (m : outcome E A) : outcome F A :=
  match m with Ok a => Ok a | Err e => Err (f e) | Panic => Panic end.

(** [ensure!] of the [anyhow] crate, and a bare [if .. { return Err(..) }]. *)
Definition ensure {E} (b : bool) (e : E) : outcome E unit :=
  if b then Ok tt else Err e.

(** [assert!]. *)
Definition assert_ {E} (b : bool) : outcome E unit :=
  if b then Ok tt else Panic.

(** [Option::ok_or] and [Option::expect]. *)
Definition ok_or {E A} (o : option A) (e : E) : outcome E A :=
  match o with Some a => Ok a | None => Err e end.
Definition expect {E A} (o : option A) : outcome E A :=
  match o with Some a => Ok a | None => Panic end.

(** ** [u64] arithmetic *)
Definition u64_max : N := 2 ^ 64 - 1.

Definition checked_add (a b : N) : option N :=
  if a + b <=? u64_max then Some (a + b) else None.
Definition checked_sub (a b : N) : option N :=
  if b <=? a then Some (a - b) else None.
Definition saturating_add (a b : N) : N := N.min (a + b) u64_max.

(** The checked operators [+], [-] and [*]. *)
Definition add64 {E} (a b : N) : outcome E N := expect (checked_add a b).
Definition sub64 {E} (a b : N) : outcome E N := expect (checked_sub a b).
Definition mul64 {E} (a b : N) : outcome E N :=
  if a * b <=? u64_max then Ok (a * b) else Panic.

Definition u32_max : N := 2 ^ 32 - 1.
Definition add32 {E} (a b : N) : outcome E N := if a + b <=? u32_max then Ok (a + b) else Panic.
Definition mul32 {E} (a b : N) : outcome E N := if a * b <=? u32_max then Ok (a * b) else Panic.

(** ** Ranges and loops *)

(** [k] consecutive numbers from [a] on. *)
Fixpoint count_from (a : N) (k : nat) : list N :=
  match k with O => [] | S k => a :: count_from (a + 1) k end.

Lemma count_from_app a k k' : count_from a (k + k') = count_from a k ++ count_from (a + N.of_nat k) k'.
Proof.
  revert a. induction k as [|k IH]; intros a; simpl; [by rewrite N.add_0_r|].
  rewrite IH. by replace (a + 1 + N.of_nat k) with (a + N.of_nat (S k)) by lia.
Qed.

(** The range [a..b]. *)
Definition range64 (a b : N) : list N := count_from a (N.to_nat (b - a)).

Lemma elem_of_count_from a k x : x ∈ count_from a k <-> a <= x < a + N.of_nat k.
Proof.
  revert a. induction k as [|k IH]; intros a; cbn [count_from]; [rewrite elem_of_nil; lia|].
  rewrite elem_of_cons, IH. lia.
Qed.
Lemma elem_of_range64 a b x : x ∈ range64 a b <-> a <= x < b.
Proof. unfold range64. rewrite elem_of_count_from. lia. Qed.

(** [try_for_each] and [collect] into a [Result]: the first error ends the loop. *)
Fixpoint try_fold {E A S} (f : A -> S -> outcome E S) (l : list A) (s : S) : outcome E S :=
  match l with
  | [] => Ok s
  | a :: l => s ← f a s; try_fold f l s
  end.
Fixpoint collect {E A B} (f : A -> outcome E B) (l : list A) : outcome E (list B) :=
  match l with
  | [] => Ok []
  | a :: l => b ← f a; bs ← collect f l; Ok (b :: bs)
  end.

(** Two thirds, rounded down, plus one. *)
Lemma two_thirds_lt n : 2 * n < 3 * (n * 2 / 3 + 1).
Proof.
  pose proof (N.div_mod (n * 2) 3 ltac:(done)) as Hd. pose proof (N.mod_lt (n * 2) 3 ltac:(done)) as Hm.
  revert Hd Hm. generalize (n * 2 / 3), (n * 2 mod 3). intros; lia.
Qed.

Lemma two_thirds_le n : n <> 0 -> n * 2 / 3 + 1 <= n.
Proof.
  pose proof (N.div_mod (n * 2) 3 ltac:(done)) as Hd. revert Hd.
  generalize (n * 2 / 3), (n * 2 mod 3). intros; lia.
Qed.

(** ** State and errors together

    A method on [&mut self] that returns a [Result] keeps the changes it made
    to [self] before it returned an error. *)
Definition method (S E A : Type) : Type := S -> outcome E A * S.

#[global] Instance method_ret {S E} : MRet (method S E) := fun A a s => (Ok a, s).
#[global] Instance method_bind {S E} : MBind (method S E) := fun A B f m s =>
  match m s with
  | (Ok a, s') => f a s'
  | (Err e, s') => (Err e, s')
  | (Panic, s') => (Panic, s')
  end.

(** A computation that does not touch the state ([&self], or pure code). *)
Definition lift {S E A} (m : outcome E A) : method S E A := fun s => (m, s).
Definition gets {S E A} (f : S -> outcome E A) : method S E A := fun s => (f s, s).
Definition puts {S E} (f : S -> S) : method S E unit := fun s => (Ok tt, f s).
(** A method of a part of the state. *)
Definition on {S T E A} (get : S -> T) (set : T -> S -> S) (m : method T E A) : method S E A := fun s =>
  let '(r, t) := m (get s) in (r, set t s).

(** ** Inversion of successful runs *)
Section outcome_lemmas.
Context {E : Type}.

Lemma bind_Ok {A B} (m : outcome E A) (f : A -> outcome E B) (b : B) :
  m ≫= f = Ok b <-> exists a, m = Ok a /\ f a = Ok b.
Proof. destruct m as [a|e|]; simpl; naive_solver. Qed.

Lemma fmap_Ok {A B} (m : outcome E A) (f : A -> B) (b : B) :
  f <$> m = Ok b <-> exists a, m = Ok a /\ b = f a.
Proof. destruct m as [a'|e|]; simpl; naive_solver. Qed.

Lemma map_err_Ok {F A} (f : E -> F) (m : outcome E A) (a : A) :
  map_err f m = Ok a <-> m = Ok a.
Proof. destruct m as [a'|e|]; simpl; naive_solver. Qed.

Lemma ensure_Ok (b : bool) (e : E) (u : unit) : ensure b e = Ok u <-> b = true.
Proof. destruct b, u; simpl; naive_solver. Qed.

Lemma assert_Ok (b : bool) (u : unit) : @assert_ E b = Ok u <-> b = true.
Proof. destruct b, u; simpl; naive_solver. Qed.

Lemma ok_or_Ok {A} (o : option A) (e : E) (a : A) : ok_or o e = Ok a <-> o = Some a.
Proof. destruct o; simpl; naive_solver. Qed.

Lemma expect_Ok {A} (o : option A) (a : A) : @expect E A o = Ok a <-> o = Some a.
Proof. destruct o; simpl; naive_solver. Qed.

Lemma add64_Ok a b c : @add64 E a b = Ok c <-> c = a + b /\ a + b <= u64_max.
Proof.
  unfold add64, checked_add. destruct (N.leb_spec (a + b) u64_max); simpl;
    naive_solver lia.
Qed.

Lemma sub64_Ok a b c : @sub64 E a b = Ok c <-> c = a - b /\ b <= a.
Proof.
  unfold sub64, checked_sub. destruct (N.leb_spec b a); simpl; naive_solver lia.
Qed.

Lemma mul64_Ok a b c : @mul64 E a b = Ok c <-> c = a * b /\ a * b <= u64_max.
Proof.
  unfold mul64. destruct (N.leb_spec (a * b) u64_max); simpl; naive_solver lia.
Qed.
End outcome_lemmas.

Lemma method_bind_Ok {S E A B} (m : method S E A) (f : A -> method S E B) s b s' :
  (m ≫= f) s = (Ok b, s') <-> exists a t, m s = (Ok a, t) /\ f a t = (Ok b, s').
Proof.
  unfold mbind, method_bind. destruct (m s) as [[a|e|] t]; split; naive_solver.
Qed.

(** How a sequence ends: its first part failed, or its second part ran. *)
Lemma method_bind_inv {S E A B} (m : method S E A) (f : A -> method S E B) s r s' :
  (m ≫= f) s = (r, s') ->
  (exists a t, m s = (Ok a, t) /\ f a t = (r, s')) \/
  (exists q, m s = (q, s') /\ (forall a, q <> Ok a) /\ (forall b, r <> Ok b) /\
     (forall e, q = Err e <-> r = Err e)).
Proof.
  unfold mbind, method_bind. destruct (m s) as [[a|e|] t]; intros H; simplify_eq.
  - left. eauto.
  - right. eexists. split_and!; naive_solver.
  - right. eexists. split_and!; naive_solver.
Qed.

Lemma lift_Ok {S E A} (m : outcome E A) (s s' : S) a :
  lift m s = (Ok a, s') <-> m = Ok a /\ s' = s.
Proof. unfold lift. split; [intros [= -> ->]; done | intros [-> ->]; done]. Qed.

Lemma gets_Ok {S E A} (f : S -> outcome E A) (s s' : S) a :
  gets f s = (Ok a, s') <-> f s = Ok a /\ s' = s.
Proof. unfold gets. split; [intros [= -> ->]; done | intros [-> ->]; done]. Qed.

Lemma puts_Ok {S E} (f : S -> S) (s s' : S) u :
  @puts S E f s = (Ok u, s') <-> s' = f s.
Proof. unfold puts. destruct u. split; [by intros [=] | by intros ->]. Qed.

Lemma ret_Ok {S E A} (a a' : A) (s s' : S) :
  @mret (method S E) _ A a s = (Ok a', s') <-> a' = a /\ s' = s.
Proof. unfold mret, method_ret. split; [by intros [= -> ->] | by intros [-> ->]]. Qed.

Lemma ret_inv {S E A} (a : A) r (s s' : S) :
  @mret (method S E) _ A a s = (r, s') -> r = Ok a /\ s' = s.
Proof. by intros [= <- <-]. Qed.

(** A first part that leaves the state alone. *)
Lemma lift_bind_inv {S E A B} (m : outcome E A) (f : A -> method S E B) s r s' :
  (lift m ≫= f) s = (r, s') ->
  (exists a, m = Ok a /\ f a s = (r, s')) \/ (s' = s /\ forall b, r <> Ok b).
Proof.
  intros [(a & t & [-> ->]%lift_Ok & Hr)|(q & [= _ <-] & _ & ? & _)]%method_bind_inv; eauto.
Qed.

Lemma gets_bind_inv {S E A B} (g : S -> outcome E A) (f : A -> method S E B) s r s' :
  (gets g ≫= f) s = (r, s') ->
  (exists a, g s = Ok a /\ f a s = (r, s')) \/ (s' = s /\ forall b, r <> Ok b).
Proof.
  intros [(a & t & [? ->]%gets_Ok & Hr)|(q & [= _ <-] & _ & ? & _)]%method_bind_inv; eauto.
Qed.

(** ** Runs that do not panic

    From state [s] the method does not panic, [Q] holds if it succeeds and [I] if it
    returns an error. *)
Section safe.
Context {S E : Type} (I : S -> Prop).

Definition safe {A} (m : method S E A) (Q : A -> S -> Prop) (s : S) : Prop :=
  match m s with
  | (Ok a, s') => Q a s'
  | (Err _, s') => I s'
  | (Panic, _) => False
  end.

Lemma safe_bind {A B} (m : method S E A) (f : A -> method S E B) Q s :
  safe m (fun a s' => safe (f a) Q s') s -> safe (m ≫= f) Q s.
Proof. unfold safe, mbind, method_bind. by destruct (m s) as [[a|e|] s']. Qed.
Lemma safe_ret {A} (a : A) (Q : A -> S -> Prop) s : Q a s -> safe (mret a) Q s.
Proof. done. Qed.
Lemma safe_gets {A} (f : S -> outcome E A) (Q : A -> S -> Prop) s :
  match f s with Ok a => Q a s | Err _ => I s | Panic => False end -> safe (gets f) Q s.
Proof. unfold safe, gets. done. Qed.
Lemma safe_lift {A} (o : outcome E A) (Q : A -> S -> Prop) s :
  match o with Ok a => Q a s | Err _ => I s | Panic => False end -> safe (lift o) Q s.
Proof. unfold safe, lift. done. Qed.
Lemma safe_puts f (Q : unit -> S -> Prop) s : Q tt (f s) -> safe (puts f) Q s.
Proof. done. Qed.
Lemma safe_mono {A} (m : method S E A) (Q Q' : A -> S -> Prop) s :
  safe m Q s -> (forall a s', Q a s' -> Q' a s') -> safe m Q' s.
Proof. unfold safe. destruct (m s) as [[a|e|] s']; auto. Qed.
Lemma safe_Ok {A} (m : method S E A) (Q : A -> S -> Prop) s :
  safe m Q s -> (forall s', ~ I s') -> exists a s', m s = (Ok a, s') /\ Q a s'.
Proof. unfold safe. destruct (m s) as [[a|e|] s']; [eauto|intros Hi HI; by apply HI in Hi|done]. Qed.
End safe.

Lemma safe_on {S T E A} (I : T -> Prop) (J : S -> Prop) get set (m : method T E A) (Q : A -> S -> Prop) s :
  safe I m (fun a t => Q a (set t s)) (get s) -> (forall t, I t -> J (set t s)) -> safe J (on get set m) Q s.
Proof. unfold safe, on. destruct (m (get s)) as [[a|e|] t]; auto. Qed.

(** [run_ok]: decompose every hypothesis that says a computation returned [Ok]. *)
Ltac run_ok_step :=
  match goal with
  | H : mbind _ _ _ = (Ok _, _) |- _ =>
      apply method_bind_Ok in H as (?&?&?&H)
  | H : mbind _ _ = Ok _ |- _ => apply bind_Ok in H as (?&?&H)
  | H : fmap _ _ = Ok _ |- _ => apply fmap_Ok in H as (?&?&?)
  | H : map_err _ _ = Ok _ |- _ => apply map_err_Ok in H
  | H : ensure _ _ = Ok _ |- _ => apply ensure_Ok in H
  | H : assert_ _ = Ok _ |- _ => apply assert_Ok in H
  | H : ok_or _ _ = Ok _ |- _ => apply ok_or_Ok in H
  | H : expect _ = Ok _ |- _ => apply expect_Ok in H
  | H : add64 _ _ = Ok _ |- _ => apply add64_Ok in H as [??]
  | H : sub64 _ _ = Ok _ |- _ => apply sub64_Ok in H as [??]
  | H : mul64 _ _ = Ok _ |- _ => apply mul64_Ok in H as [??]
  | H : lift _ _ = (Ok _, _) |- _ => apply lift_Ok in H as [??]
  | H : gets _ _ = (Ok _, _) |- _ => apply gets_Ok in H as [??]
  | H : puts _ _ = (Ok _, _) |- _ => apply puts_Ok in H
  | H : mret _ _ = (Ok _, _) |- _ => apply ret_Ok in H as [??]
  | H : mret _ = Ok _ |- _ => injection H as H
  | H : Ok _ = Ok _ |- _ => injection H as H
  | H : Err _ = Ok _ |- _ => discriminate H
  | H : Panic = Ok _ |- _ => discriminate H
  | H : (_, _) = (_, _) |- _ => injection H as ??
  | H : unit |- _ => destruct H
  end.
Ltac run_ok := repeat (run_ok_step; subst).

(** [breflect]: boolean tests of the code as propositions. *)
Ltac breflect :=
  repeat match goal with
  | H : (_ && _) = true |- _ => apply andb_prop in H as [??]
  | H : (_ || _) = false |- _ => apply orb_false_iff in H as [??]
  | H : negb _ = true |- _ => apply negb_true_iff in H
  | H : negb _ = false |- _ => apply negb_false_iff in H
  | H : bool_decide _ = true |- _ => apply bool_decide_eq_true in H
  | H : bool_decide _ = false |- _ => apply bool_decide_eq_false in H
  | H : (_ <=? _) = true |- _ => apply N.leb_le in H
  | H : (_ <=? _) = false |- _ => apply N.leb_gt in H
  | H : (_ <? _) = true |- _ => apply N.ltb_lt in H
  | H : (_ <? _) = false |- _ => apply N.ltb_ge in H
  | H : (_ =? _) = true |- _ => apply N.eqb_eq in H
  | H : (_ =? _) = false |- _ => apply N.eqb_neq in H
  end.

(** ** [BTreeMap]: a finite map iterated in the order of its keys *)
Section btree.
Context {A : Type}.

Definition key_le (p q : N * A) : Prop := p.1 <= q.1.
#[global] Instance key_le_dec : RelDecision key_le.
Proof. intros p q. unfold key_le. apply _. Defined.
#[global] Instance key_le_trans : Transitive key_le.
Proof. intros p q r. unfold key_le. lia. Qed.
#[global] Instance key_le_total : Total key_le.
Proof. intros p q. unfold key_le. lia. Qed.

Definition btree_iter (m : gmap N A) : list (N * A) := merge_sort key_le (map_to_list m).
Definition btree_keys (m : gmap N A) : list N := (btree_iter m).*1.
Definition btree_values (m : gmap N A) : list A := (btree_iter m).*2.

Lemma btree_iter_perm m : btree_iter m ≡ₚ map_to_list m.
Proof. apply merge_sort_Permutation. Qed.

Lemma elem_of_btree_iter m k a : (k, a) ∈ btree_iter m <-> m !! k = Some a.
Proof. rewrite btree_iter_perm. apply elem_of_map_to_list. Qed.

Lemma NoDup_btree_keys m : NoDup (btree_keys m).
Proof. unfold btree_keys. rewrite btree_iter_perm. apply NoDup_fst_map_to_list. Qed.

Lemma elem_of_btree_keys m k : k ∈ btree_keys m <-> is_Some (m !! k).
Proof.
  unfold btree_keys. rewrite list_elem_of_fmap. split.
  - intros ([k' a] & -> & H). apply elem_of_btree_iter in H. by exists a.
  - intros [a H]. exists (k, a). by rewrite elem_of_btree_iter.
Qed.

Lemma btree_keys_sorted m : StronglySorted N.le (btree_keys m).
Proof.
  unfold btree_keys, btree_iter.
  assert (StronglySorted key_le (merge_sort key_le (map_to_list m))) as H
    by apply (StronglySorted_merge_sort _).
  induction H as [|x l H IH Hall]; simpl; constructor; [done|].
  rewrite Forall_fmap. eapply Forall_impl; [exact Hall|]. done.
Qed.
End btree.

(** ** Weights of finite sets of keys *)
Section weight.
Implicit Types (f : N -> N) (X Y : gset N).

Definition weight_list f (l : list N) : N := foldr (fun a acc => f a + acc) 0 l.
Definition weight f X : N := weight_list f (elements X).

Lemma weight_list_perm f l k : l ≡ₚ k -> weight_list f l = weight_list f k.
Proof. induction 1; simpl; lia. Qed.

Lemma weight_list_app f l k : weight_list f (l ++ k) = weight_list f l + weight_list f k.
Proof. induction l; simpl; lia. Qed.

Lemma weight_list_to_set f l : NoDup l -> weight f (list_to_set l) = weight_list f l.
Proof. intros Hl. apply weight_list_perm. by apply elements_list_to_set. Qed.

Lemma weight_union_disj f X Y : X ## Y -> weight f (X ∪ Y) = weight f X + weight f Y.
Proof.
  intros HXY. unfold weight.
  rewrite (weight_list_perm _ _ _ (elements_disj_union X Y HXY)).
  apply weight_list_app.
Qed.

Lemma weight_split f X Y : weight f X = weight f (X ∩ Y) + weight f (X ∖ Y).
Proof.
  rewrite <-weight_union_disj by set_solver. f_equal.
  apply set_eq. intros a. destruct (decide (a ∈ Y)); set_solver.
Qed.

Lemma weight_mono f X Y : X ⊆ Y -> weight f X <= weight f Y.
Proof.
  intros HXY. rewrite (weight_split f Y X).
  replace (Y ∩ X) with X by set_solver. lia.
Qed.

(** Two sets inside [T] overlap at least in what their weights exceed [T] by. *)
Lemma weight_overlap f X Y T :
  X ⊆ T -> Y ⊆ T -> weight f X + weight f Y <= weight f T + weight f (X ∩ Y).
Proof.
  intros HX HY. rewrite (weight_split f X Y).
  assert (weight f (X ∖ Y) + weight f Y <= weight f T); [|lia].
  rewrite <-weight_union_disj by set_solver. apply weight_mono.
  intros a. destruct (decide (a ∈ Y)); set_solver.
Qed.

Lemma weight_pos_elem f X : 0 < weight f X -> exists a, a ∈ X /\ 0 < f a.
Proof.
  unfold weight. setoid_rewrite <-elem_of_elements.
  induction (elements X) as [|a l IH]; simpl; [lia|].
  intros H. destruct (decide (0 < f a)) as [Ha|Ha].
  - exists a. split; [left|done].
  - destruct IH as (b & ? & ?); [lia|]. exists b. split; [by right|done].
Qed.
End weight.

Create HintDb aptos.
#[export] Hint Resolve elem_of_btree_iter elem_of_btree_keys NoDup_btree_keys : aptos.
