(* ===== verification/Crypto.v ===== *)
(** * Hashes, keys and signatures (crates/aptos-crypto)

    [HashValue] with its bit-level accessors (crates/aptos-crypto/src/hash.rs),
    and the interfaces through which the rest of the program sees cryptography:
    the hash of a structure ([CryptoHash]) and BLS signatures over a structure
    ([Signable]).  SHA-3 and BLS12-381 themselves are third-party code: every
    definition that uses them takes them as a parameter, as instances of the
    classes below, and the theorems that need one of their documented properties
    name it ([CollisionFree], [SignatureCorrect]). *)

From S2P Require Import Prelude.

(** 32 bytes, read as a big-endian number. *)
Abbreviation HashValue := N (only parsing).
Abbreviation AccountAddress := N (only parsing).
Abbreviation PublicKey := N (only parsing).
Abbreviation PrivateKey := N (only parsing).
Abbreviation Signature := N (only parsing).

Module Hash.
Definition LENGTH : N := 32.
Definition LENGTH_IN_BITS : N := LENGTH * 8.

Definition zero : HashValue := 0.

(** The byte [self.hash[pos]]. *)
Definition byte (h : HashValue) (pos : N) : N :=
  N.land (N.shiftr h (8 * (LENGTH - 1 - pos))) 255.

Definition bit (h : HashValue) (index : N) : bool :=
  let pos := index / 8 in
  let bit := 7 - index mod 8 in
  negb (N.land (N.shiftr (byte h pos) bit) 1 =? 0).

Definition nibble (h : HashValue) (index : N) : N :=
  let pos := index / 2 in
  let shift := if index mod 2 =? 0 then 4 else 0 in
  N.land (N.shiftr (byte h pos) shift) 15.

Definition iter_bits (h : HashValue) : list bool :=
  bit h <$> (N.of_nat <$> seq 0 (N.to_nat LENGTH_IN_BITS)).

Fixpoint common_prefix_len (l k : list bool) : N :=
  match l, k with
  | x :: l, y :: k => if eqb x y then 1 + common_prefix_len l k else 0
  | _, _ => 0
  end.
Definition common_prefix_bits_len (h other : HashValue) : N :=
  common_prefix_len (iter_bits h) (iter_bits other).

(** [buf[i / 8] |= 1 << (7 - i % 8)] sets bit [255 - i] of the number. *)
Fixpoint set_bits (buf : HashValue) (i : N) (bits : list bool) : HashValue :=
  match bits with
  | [] => buf
  | b :: bits =>
      set_bits (if b then N.lor buf (N.shiftl (N.shiftl 1 (7 - i mod 8)) (8 * (LENGTH - 1 - i / 8)))
                else buf) (i + 1) bits
  end.
Definition from_bit_iter (bits : list bool) : outcome unit HashValue :=
  if negb (N.of_nat (length bits) =? LENGTH_IN_BITS) then Err tt
  else Ok (set_bits 0 0 bits).

(** The bytes of [word] followed by zeros, up to 32 bytes. *)
Fixpoint be_bytes (acc : N) (n : nat) (l : list N) : N :=
  match n with
  | O => acc
  | S n => match l with
           | [] => be_bytes (acc * 256) n []
           | b :: l => be_bytes (acc * 256 + b) n l
           end
  end.
Definition string_bytes (s : string) : list N :=
  Ascii.N_of_ascii <$> String.list_ascii_of_string s.
Definition create_literal_hash (word : string) : outcome unit HashValue :=
  let s := string_bytes word in
  _ ← assert_ (N.of_nat (length s) <=? LENGTH);
  Ok (be_bytes 0 (N.to_nat LENGTH) s).
End Hash.

Definition literal_hash (word : string) : HashValue :=
  match Hash.create_literal_hash word with Ok h => h | _ => 0 end.

Definition ACCUMULATOR_PLACEHOLDER_HASH : HashValue :=
  Eval vm_compute in literal_hash "ACCUMULATOR_PLACEHOLDER_HASH".
Definition SPARSE_MERKLE_PLACEHOLDER_HASH : HashValue :=
  Eval vm_compute in literal_hash "SPARSE_MERKLE_PLACEHOLDER_HASH".

(** ** Interfaces *)

(** [aptos_crypto::hash::CryptoHash] *)
Class CryptoHash (T : Type) : Type := hash : T -> HashValue.

(** No two values have the same hash. *)
Class CollisionFree (T : Type) `{CryptoHash T} : Prop :=
  hash_inj : forall x y : T, hash x = hash y -> x = y.

(** A key pair scheme; [bls12381::PrivateKey::public_key]. *)
Class KeyPair : Type := public_key : PrivateKey -> PublicKey.

(** [SigningKey::sign] and [PublicKey::verify_struct_signature] for messages of
    type [T]. *)
Class Signable (T : Type) : Type := {
  sign_struct : PrivateKey -> T -> Signature;
  verify_struct_signature : PublicKey -> T -> Signature -> bool;
}.

Class SignatureCorrect (T : Type) `{KeyPair, Signable T} : Prop :=
  sign_verify : forall sk m,
    verify_struct_signature (public_key sk) m (sign_struct sk m) = true.

(** The default [Signature::batch_verify] of crates/aptos-crypto/src/traits.rs,
    which the BLS signature type inherits: one verification per signature. *)
Fixpoint batch_verify `{Signable T} (message : T)
    (keys_and_signatures : list (PublicKey * Signature)) : bool :=
  match keys_and_signatures with
  | [] => true
  | (key, signature) :: rest =>
      if verify_struct_signature key message signature
      then batch_verify message rest else false
  end.

Lemma batch_verify_true `{Signable T} (m : T) l :
  batch_verify m l = true <->
  Forall (fun ks => verify_struct_signature ks.1 m ks.2 = true) l.
Proof.
  induction l as [|[k s] l IH]; simpl; [by split|].
  rewrite Forall_cons. simpl. destruct (verify_struct_signature k m s); naive_solver.
Qed.
