(* ===== verification/Errors.v ===== *)
(** * Error values

    [VerifyError] (types/src/validator_verifier.rs), [AptosDbError] and [anyhow::Error], the
    error type most of the program's checks return.  An [anyhow] error is kept
    as the constant part of its message, the typed error it was converted from
    with [?], or a context wrapped around a cause; the numbers and hashes that
    are formatted into messages are not. *)

From S2P Require Import Prelude.

Inductive VerifyError : Type :=
  | UnknownAuthor
  | TooLittleVotingPower (voting_power expected_voting_power : N)
  | TooManySignatures (num_of_signatures num_of_authors : N)
  | InvalidSignature
  | InconsistentBlockInfo.
#[global] Instance VerifyError_eq_dec : EqDecision VerifyError.
Proof. solve_decision. Defined.

(** [AptosDbError] (storage/aptosdb/src/errors.rs), what is missing without its number. *)
Inductive AptosDbError : Type :=
  | NotFound (what : string)
  | TooManyRequested (requested max_allowed : N).
#[global] Instance AptosDbError_eq_dec : EqDecision AptosDbError.
Proof. solve_decision. Defined.

Inductive AnyError : Type :=
  | Msg (message : string)
  | FromVerifyError (e : VerifyError)
  | FromAptosDbError (e : AptosDbError)
  | Context (context : string) (cause : AnyError).
#[global] Instance AnyError_eq_dec : EqDecision AnyError.
Proof. solve_decision. Defined.

(** [anyhow::Result]. *)
Abbreviation result := (outcome AnyError) (only parsing).

(** [?] on a [Result<_, VerifyError>] in a function that returns [anyhow::Result]. *)
Definition try_verify {A} : outcome VerifyError A -> result A := map_err FromVerifyError.

(** [anyhow::Context::context] and [with_context]. *)
Definition with_context {A} (c : string) : result A -> result A := map_err (Context c).

Lemma try_verify_Ok {A} (m : outcome VerifyError A) a : try_verify m = Ok a <-> m = Ok a.
Proof. apply map_err_Ok. Qed.

Lemma with_context_Ok {A} c (m : result A) a : with_context c m = Ok a <-> m = Ok a.
Proof. apply map_err_Ok. Qed.

Ltac run_any_step :=
  match goal with
  | H : try_verify _ = Ok _ |- _ => apply try_verify_Ok in H
  | H : with_context _ _ = Ok _ |- _ => apply with_context_Ok in H
  end.
(** [run]: [run_ok] that also looks through error conversions. *)
Ltac run := repeat first [progress run_ok | run_any_step].
