(* ===== verification/Position.v ===== *)
(** * Node positions in a binary tree (types/src/proof/position/mod.rs)

    A [Position] is the in-order index of a node of a perfect binary tree, in a
    u64.  The code navigates with bit tricks; here they are translated as they
    stand, on [N] with the 64-bit width written out, and proved equal to the
    arithmetic of (level, index from the left). *)

From S2P Require Import Prelude Errors.

(** ** u64 bit operations *)
Definition not64 (v : N) : N := N.lnot v 64.
Definition shl64 (v n : N) : N := N.land (N.shiftl v n) u64_max.

Fixpoint pos_trailing_zeros (p : positive) : N :=
  match p with xO p => 1 + pos_trailing_zeros p | _ => 0 end.
Definition trailing_zeros (v : N) : N :=
  match v with 0 => 64 | Npos p => pos_trailing_zeros p end.
Definition leading_zeros (v : N) : N := 64 - N.size v.

Fixpoint pos_count_ones (p : positive) : N :=
  match p with xO p => pos_count_ones p | xI p => 1 + pos_count_ones p | xH => 1 end.
Definition count_ones (v : N) : N :=
  match v with 0 => 0 | Npos p => pos_count_ones p end.

Abbreviation LeafCount := N (only parsing).
Definition MAX_ACCUMULATOR_PROOF_DEPTH : N := 63.
Definition MAX_ACCUMULATOR_LEAVES : LeafCount := N.shiftl 1 MAX_ACCUMULATOR_PROOF_DEPTH.

(** ** Helper functions *)
Definition smear_ones_for_u64 (v : N) : N :=
  let n := v in
  let n := N.lor n (N.shiftr n 1) in
  let n := N.lor n (N.shiftr n 2) in
  let n := N.lor n (N.shiftr n 4) in
  let n := N.lor n (N.shiftr n 8) in
  let n := N.lor n (N.shiftr n 16) in
  let n := N.lor n (N.shiftr n 32) in
  n.

Definition turn_off_right_most_n_bits (v n : N) : N := shl64 (N.shiftr v n) n.

(** [!v & v.overflowing_add(1).0] *)
Definition isolate_rightmost_zero_bit (v : N) : N :=
  N.land (not64 v) (N.land (v + 1) u64_max).

Abbreviation Position := N (only parsing).

Inductive NodeDirection : Type := Left | Right.

Module Position.
Definition level (self : Position) : N := trailing_zeros (not64 self).
Definition is_leaf (self : Position) : bool := N.land self 1 =? 0.
Definition pos_counting_from_left (self : Position) : N := N.shiftr self (level self + 1).

(** The body of [from_level_and_pos] for a level the shift accepts. *)
Definition from_level_and_pos_unchecked (level pos : N) : Position :=
  let level_one_bits := shl64 1 level - 1 in
  let shifted_pos := if level =? 63 then 0 else shl64 pos (level + 1) in
  N.lor shifted_pos level_one_bits.
Definition from_level_and_pos {E} (level pos : N) : outcome E Position :=
  _ ← assert_ (level <? 64);
  Ok (from_level_and_pos_unchecked level pos).

Definition from_inorder_index (index : N) : Position := index.
Definition to_inorder_index (self : Position) : N := self.

Definition parent (self : Position) : Position :=
  N.land (N.lor self (isolate_rightmost_zero_bit self))
         (not64 (shl64 (isolate_rightmost_zero_bit self) 1)).

(** [checked_precondition!(!self.is_leaf())] panics on a leaf. *)
Definition child {E} (self : Position) (dir : NodeDirection) : outcome E Position :=
  _ ← assert_ (negb (is_leaf self));
  let direction_bit :=
    match dir with Left => 0 | Right => isolate_rightmost_zero_bit self end in
  Ok (N.land (N.lor self direction_bit)
             (not64 (N.shiftr (isolate_rightmost_zero_bit self) 1))).
Definition left_child {E} (self : Position) : outcome E Position :=
  _ ← assert_ (negb (is_leaf self)); child self Left.
Definition right_child {E} (self : Position) : outcome E Position :=
  _ ← assert_ (negb (is_leaf self)); child self Right.

Definition is_left_child (self : Position) : bool :=
  N.land self (shl64 (isolate_rightmost_zero_bit self) 1) =? 0.
Definition is_right_child (self : Position) : bool := negb (is_left_child self).

Definition from_leaf_index (leaf_index : N) : Position :=
  from_level_and_pos_unchecked 0 leaf_index.

Definition sibling (self : Position) : Position :=
  N.lxor self (shl64 (isolate_rightmost_zero_bit self) 1).

Definition root_from_leaf_index (leaf_index : N) : Position :=
  N.shiftr (smear_ones_for_u64 (from_leaf_index leaf_index)) 1.

Definition root_from_leaf_count {E} (leaf_count : LeafCount) : outcome E Position :=
  _ ← assert_ (0 <? leaf_count);
  Ok (root_from_leaf_index (leaf_count - 1)).

Definition root_level_from_leaf_count {E} (leaf_count : LeafCount) : outcome E N :=
  _ ← assert_ (0 <? leaf_count);
  let index := leaf_count - 1 in
  Ok (MAX_ACCUMULATOR_PROOF_DEPTH + 1 - leading_zeros index).

(** [1_u64 << level] panics for [level >= 64]; [+] and [-] are checked. *)
Definition right_most_child {E} (self : Position) : outcome E Position :=
  let level := level self in
  _ ← assert_ (level <? 64);
  s ← add64 self (shl64 1 level);
  sub64 s 1.

Definition left_most_child {E} (self : Position) : outcome E Position :=
  let level := level self in
  _ ← assert_ (level <? 64);
  Ok (turn_off_right_most_n_bits self level).

Definition is_freezable {E} (self : Position) (leaf_index : N) : outcome E bool :=
  let leaf := from_leaf_index leaf_index in
  right_most_child ← right_most_child self;
  Ok (right_most_child <=? leaf).

Definition is_placeholder {E} (self : Position) (leaf_index : N) : outcome E bool :=
  let leaf := from_leaf_index leaf_index in
  if self <=? leaf then Ok false
  else
    left_most_child ← left_most_child self;
    if left_most_child <=? leaf then Ok false else Ok true.
End Position.

(** ** Iterators: the state and its [next] *)
Module AncestorSiblingIterator.
Definition next (position : Position) : Position * Position :=
  let current_sibling_position := Position.sibling position in
  (current_sibling_position, Position.parent position).

(** [.take(n)] of the (endless) iterator. *)
Fixpoint take (n : nat) (position : Position) : list Position :=
  match n with
  | O => []
  | S n => let '(item, position') := next position in item :: take n position'
  end.
End AncestorSiblingIterator.

Module AncestorIterator.
Definition next (position : Position) : Position * Position :=
  let current_position := position in
  (current_position, Position.parent position).

Fixpoint take (n : nat) (position : Position) : list Position :=
  match n with
  | O => []
  | S n => let '(item, position') := next position in item :: take n position'
  end.
End AncestorIterator.

Module FrozenSubTreeIterator.
Record state : Type := mk { bitmap : N; seen_leaves : N }.

Definition new (num_leaves : LeafCount) : state := mk num_leaves 0.

Definition next {E} (self : state) : outcome E (option (Position * state)) :=
  if bitmap self =? 0 then Ok None
  else
    let root_offset := N.shiftr (smear_ones_for_u64 (bitmap self)) 1 in
    num_leaves ← add64 root_offset 1;
    let leftmost_leaf := Position.from_leaf_index (seen_leaves self) in
    root ← add64 (Position.to_inorder_index leftmost_leaf) root_offset;
    let bitmap' := N.land (bitmap self) (not64 num_leaves) in
    seen' ← add64 (seen_leaves self) num_leaves;
    Ok (Some (Position.from_inorder_index root, mk bitmap' seen')).

(** Run the iterator to its end; each step clears a bit of [bitmap], so 64
    steps and the final [None] are enough (see [frozen_collect] of PositionLemmas). *)
Fixpoint collect {E} (fuel : nat) (self : state) : outcome E (list Position) :=
  match fuel with
  | O => Panic
  | S fuel =>
      r ← next self;
      match r with
      | None => Ok []
      | Some (p, self') => ps ← collect fuel self'; Ok (p :: ps)
      end
  end.
End FrozenSubTreeIterator.

Module FrozenSubtreeSiblingIterator.
Record state : Type := mk { current_num_leaves : LeafCount; remaining_new_leaves : LeafCount }.

Definition new {E} (current new_num_leaves : LeafCount) : outcome E state :=
  _ ← assert_ (new_num_leaves <=? MAX_ACCUMULATOR_LEAVES);
  _ ← assert_ (current <=? new_num_leaves);
  remaining ← sub64 new_num_leaves current;
  Ok (mk current remaining).

(** [MAX_ACCUMULATOR_PROOF_DEPTH - zeros as usize] underflows at [zeros = 64]. *)
Definition next_new_leaf_batch {E} (self : state) : outcome E LeafCount :=
  let zeros := leading_zeros (remaining_new_leaves self) in
  s ← sub64 MAX_ACCUMULATOR_PROOF_DEPTH zeros;
  Ok (shl64 1 s).

Definition next {E} (self : state) : outcome E (option (Position * state)) :=
  if remaining_new_leaves self =? 0 then Ok None
  else
    next_subtree_leaves ←
      (if 0 <? current_num_leaves self then
         let rightmost_frozen_subtree_leaves :=
           shl64 1 (trailing_zeros (current_num_leaves self)) in
         if rightmost_frozen_subtree_leaves <=? remaining_new_leaves self
         then Ok rightmost_frozen_subtree_leaves
         else next_new_leaf_batch self
       else next_new_leaf_batch self);
    let first_leaf_index := current_num_leaves self in
    s ← add64 first_leaf_index next_subtree_leaves;
    last_leaf_index ← sub64 s 1;
    current' ← add64 (current_num_leaves self) next_subtree_leaves;
    remaining' ← sub64 (remaining_new_leaves self) next_subtree_leaves;
    p ← add64 first_leaf_index last_leaf_index;
    Ok (Some (Position.from_inorder_index p, mk current' remaining')).

(** Run the iterator to its end: at most 64 growing and 64 shrinking subtrees
    (see [sibling_collect] of PositionLemmas). *)
Fixpoint collect {E} (fuel : nat) (self : state) : outcome E (list Position) :=
  match fuel with
  | O => Panic
  | S fuel =>
      r ← next self;
      match r with
      | None => Ok []
      | Some (p, self') => ps ← collect fuel self'; Ok (p :: ps)
      end
  end.
End FrozenSubtreeSiblingIterator.

(** ** In-order and post-order indices *)
Definition children_of_node {E} (node : N) : outcome E N :=
  sub64 (shl64 (isolate_rightmost_zero_bit node) 1) 2.

Definition nodes_to_left_of {E} (node : N) : outcome E N :=
  ones_up_to_level ← sub64 (isolate_rightmost_zero_bit node) 1;
  let unset_level_zeros := N.lxor node ones_up_to_level in
  sub64 unset_level_zeros (count_ones unset_level_zeros).

Definition inorder_to_postorder {E} (node : N) : outcome E N :=
  children ← children_of_node node;
  left_nodes ← nodes_to_left_of node;
  add64 children left_nodes.

(** The loop [for i in (0..64).rev()]: the state is (node, full_binary_size, bitmap). *)
Fixpoint postorder_loop (i : nat) (node full_binary_size bitmap : N) : N * N :=
  match i with
  | O => (node, bitmap)
  | S i =>
      let '(node', bitmap') :=
        if full_binary_size <=? node
        then (node - full_binary_size, N.lor bitmap (shl64 1 (N.of_nat i)))
        else (node, bitmap) in
      postorder_loop i node' (N.shiftr full_binary_size 1) bitmap'
  end.

Definition postorder_to_inorder {E} (node : N) : outcome E N :=
  let '(node, bitmap) := postorder_loop 64 node (not64 0) 0 in
  let level := node mod 2 ^ 32 in
  _ ← assert_ (level <? 64);
  let pos := N.shiftr bitmap level in
  p ← Position.from_level_and_pos level pos;
  Ok (Position.to_inorder_index p).

Definition from_postorder_index (index : N) : result Position :=
  _ ← ensure (index <? not64 0) (Msg "node index is invalid (equal to 2^64 - 1)");
  postorder_to_inorder index.

Definition to_postorder_index {E} (self : Position) : outcome E N :=
  inorder_to_postorder (Position.to_inorder_index self).

(** ** Worked examples, the trees drawn in the source *)
Example postorder_examples :
  (@inorder_to_postorder unit <$> [0; 1; 2; 3; 4; 5; 6]) =
    [Ok 0; Ok 2; Ok 1; Ok 6; Ok 3; Ok 5; Ok 4] /\
  (@postorder_to_inorder unit <$> [0; 1; 2; 3; 4; 5; 6]) =
    [Ok 0; Ok 2; Ok 1; Ok 4; Ok 6; Ok 5; Ok 3].
Proof. vm_compute. done. Qed.

Example frozen_examples :
  @FrozenSubTreeIterator.collect unit 65 (FrozenSubTreeIterator.new 5) = Ok [3; 8] /\
  (st ← FrozenSubtreeSiblingIterator.new 10 21;
   @FrozenSubtreeSiblingIterator.collect unit 65 st) = Ok [21; 27; 35; 40].
Proof. vm_compute. done. Qed.
