(* ===== verification/Accumulator.v ===== *)
(** * Merkle accumulators and their proofs (types/src/proof)

    [InMemoryAccumulator] (types/src/proof/accumulator/mod.rs), the proofs of
    types/src/proof/definition.rs that are checked against one, and the node
    hash of types/src/proof/mod.rs.  The hasher is a parameter ([MerkleHasher]). *)

From S2P Require Import Prelude Crypto Errors Position.

(** [MerkleTreeInternalNode::<H>::new(left, right).hash()] *)
Class MerkleHasher : Type := hash_internal : HashValue -> HashValue -> HashValue.

(** [Vec::pop] *)
Definition vec_pop {A} (v : list A) : option (list A * A) :=
  match reverse v with
  | [] => None
  | x :: r => Some (reverse r, x)
  end.

Record InMemoryAccumulator : Type := mkAccumulator {
  frozen_subtree_roots : list HashValue;
  num_leaves : LeafCount;
  root_hash : HashValue;
}.
#[global] Instance InMemoryAccumulator_eq_dec : EqDecision InMemoryAccumulator.
Proof. solve_decision. Defined.

Module Acc.
Section acc.
Context `{MerkleHasher}.

(** The loop [while bitmap > 0] of [compute_root_hash]; the bits of [bitmap]
    are consumed from the lowest, [iter] is [frozen_subtree_roots] reversed. *)
Fixpoint root_loop {E} (bitmap : positive) (iter : list HashValue) (current_hash : HashValue)
    : outcome E HashValue :=
  match bitmap with
  | xO bitmap =>
      root_loop bitmap iter (hash_internal current_hash ACCUMULATOR_PLACEHOLDER_HASH)
  | xI bitmap =>
      match iter with
      | [] => Panic
      | h :: iter => root_loop bitmap iter (hash_internal h current_hash)
      end
  | xH =>
      match iter with
      | [] => Panic
      | h :: iter => Ok (hash_internal h current_hash)
      end
  end.

(** [num_leaves >> 64] panics: two roots of an accumulator without leaves. *)
Definition compute_root_hash {E} (roots : list HashValue) (num_leaves : LeafCount)
    : outcome E HashValue :=
  match roots with
  | [] => Ok ACCUMULATOR_PLACEHOLDER_HASH
  | [h] => Ok h
  | _ =>
      match N.shiftr num_leaves (trailing_zeros num_leaves) with
      | 0 => Panic
      | Npos bitmap => root_loop bitmap (reverse roots) ACCUMULATOR_PLACEHOLDER_HASH
      end
  end.

Definition new (roots : list HashValue) (num_leaves : LeafCount)
    : result InMemoryAccumulator :=
  _ ← ensure (N.of_nat (length roots) =? count_ones num_leaves)
        (Msg "The number of frozen subtrees does not match the number of leaves.");
  root_hash ← compute_root_hash roots num_leaves;
  Ok (mkAccumulator roots num_leaves root_hash).

Definition new_empty : InMemoryAccumulator :=
  mkAccumulator [] 0 ACCUMULATOR_PLACEHOLDER_HASH.

(** [for _i in 0..num_trailing_ones]: merge the last two subtrees. *)
Fixpoint merge_last {E} (n : nat) (roots : list HashValue) : outcome E (list HashValue) :=
  match n with
  | O => Ok roots
  | S n =>
      r ← expect (vec_pop roots); let '(roots, right_hash) := r in
      l ← expect (vec_pop roots); let '(roots, left_hash) := l in
      merge_last n (roots ++ [hash_internal left_hash right_hash])
  end.

Definition append_one {E} (roots : list HashValue) (num_existing_leaves : LeafCount)
    (leaf : HashValue) : outcome E (list HashValue) :=
  let roots := roots ++ [leaf] in
  let num_trailing_ones := trailing_zeros (not64 num_existing_leaves) in
  merge_last (N.to_nat num_trailing_ones) roots.

Fixpoint append_all {E} (roots : list HashValue) (num_leaves : LeafCount)
    (leaves : list HashValue) : outcome E (list HashValue * LeafCount) :=
  match leaves with
  | [] => Ok (roots, num_leaves)
  | leaf :: leaves =>
      roots ← append_one roots num_leaves leaf;
      num_leaves ← add64 num_leaves 1;
      append_all roots num_leaves leaves
  end.

(** [Self::new(..).expect(..)]: an error becomes a panic. *)
Definition append {E} (self : InMemoryAccumulator) (leaves : list HashValue)
    : outcome E InMemoryAccumulator :=
  r ← append_all (frozen_subtree_roots self) (num_leaves self) leaves;
  match new r.1 r.2 with Ok acc => Ok acc | _ => Panic end.

Definition default {E} : outcome E InMemoryAccumulator :=
  match new [] 0 with Ok acc => Ok acc | _ => Panic end.

Definition from_leaves {E} (leaves : list HashValue) : outcome E InMemoryAccumulator :=
  acc ← default; append acc leaves.

(** The inner loop of [append_subtrees]: carry while [current_num_leaves & mask != 0].
    [mask] doubles, so 64 iterations clear it. *)
Fixpoint carry (fuel : nat) (roots : list HashValue) (current_num_leaves mask : N)
    (current_hash : HashValue) : result (list HashValue * N * HashValue) :=
  if N.land current_num_leaves mask =? 0 then Ok (roots, mask, current_hash)
  else
    match fuel with
    | O => Panic
    | S fuel =>
        l ← expect (vec_pop roots); let '(roots, left_hash) := l in
        carry fuel roots current_num_leaves (shl64 mask 1) (hash_internal left_hash current_hash)
    end.

(** The outer loop [while remaining_new_leaves >= rightmost_frozen_subtree_size]. *)
Fixpoint combine (fuel : nat) (roots : list HashValue)
    (current_num_leaves remaining size : N) (iter : list HashValue)
    : result (list HashValue * N * N * list HashValue) :=
  if negb (size <=? remaining) then Ok (roots, current_num_leaves, remaining, iter)
  else
    match fuel with
    | O => Panic
    | S fuel =>
        match iter with
        | [] => Err (Msg "Too few subtrees.")
        | current_hash :: iter =>
            c ← carry 64 roots current_num_leaves size current_hash;
            let '(roots, mask, current_hash) := c in
            current_num_leaves ← add64 current_num_leaves size;
            remaining ← sub64 remaining size;
            combine fuel (roots ++ [current_hash]) current_num_leaves remaining mask iter
        end
    end.

Definition append_subtrees (self : InMemoryAccumulator) (subtrees : list HashValue)
    (num_new_leaves : LeafCount) : result InMemoryAccumulator :=
  room ← sub64 MAX_ACCUMULATOR_LEAVES (num_leaves self);
  _ ← ensure (num_new_leaves <=? room) (Msg "Too many new leaves.");
  if num_leaves self =? 0 then new subtrees num_new_leaves
  else
    let size := shl64 1 (trailing_zeros (num_leaves self)) in
    c ← combine 64 (frozen_subtree_roots self) (num_leaves self) num_new_leaves size subtrees;
    let '(roots, current_num_leaves, remaining, iter) := c in
    current_num_leaves ← add64 current_num_leaves remaining;
    new (roots ++ iter) current_num_leaves.

Definition version (self : InMemoryAccumulator) : N :=
  if num_leaves self =? 0 then 0 else num_leaves self - 1.

Definition is_empty (self : InMemoryAccumulator) : bool := num_leaves self =? 0.
End acc.
End Acc.

(** ** Proofs *)
Record AccumulatorProof : Type := mkAccumulatorProof { siblings : list HashValue }.
#[global] Instance AccumulatorProof_eq_dec : EqDecision AccumulatorProof.
Proof. solve_decision. Defined.

Section proofs.
Context `{MerkleHasher}.

(** The fold of [AccumulatorProof::verify]. *)
Definition fold_sibling (s : HashValue * N) (sibling_hash : HashValue) : HashValue * N :=
  let '(hash, index) := s in
  (if index mod 2 =? 0 then hash_internal hash sibling_hash
   else hash_internal sibling_hash hash,
   index / 2).

Definition AccumulatorProof_verify (self : AccumulatorProof) (expected_root_hash : HashValue)
    (element_hash : HashValue) (element_index : N) : result unit :=
  _ ← ensure (N.of_nat (length (siblings self)) <=? MAX_ACCUMULATOR_PROOF_DEPTH)
        (Msg "Accumulator proof has too many siblings.");
  let actual_root_hash := (foldl fold_sibling (element_hash, element_index) (siblings self)).1 in
  ensure (actual_root_hash =? expected_root_hash) (Msg "Root hashes do not match.").
End proofs.

Record AccumulatorExtensionProof : Type := mkAccumulatorExtensionProof {
  aep_frozen_subtree_roots : list HashValue;
  aep_num_leaves : LeafCount;
  aep_leaves : list HashValue;
}.
#[global] Instance AccumulatorExtensionProof_eq_dec : EqDecision AccumulatorExtensionProof.
Proof. solve_decision. Defined.

Definition AccumulatorExtensionProof_verify `{MerkleHasher} (self : AccumulatorExtensionProof)
    (original_root : HashValue) : result InMemoryAccumulator :=
  original_tree ← Acc.new (aep_frozen_subtree_roots self) (aep_num_leaves self);
  _ ← ensure (root_hash original_tree =? original_root) (Msg "Root hashes do not match.");
  Acc.append original_tree (aep_leaves self).

Record AccumulatorConsistencyProof : Type := mkAccumulatorConsistencyProof {
  acp_subtrees : list HashValue;
}.
