(* ===== verification/Verifier.v ===== *)
(** * Validator sets and quorums (types/src/validator_verifier.rs)

    [ValidatorVerifier] maps the validators of an epoch to their public keys and
    voting powers, and decides whether a set of signatures carries a quorum. *)

From S2P Require Import Prelude Crypto Errors.

Record ValidatorConsensusInfo : Type := mkValidatorConsensusInfo {
  vci_public_key : PublicKey;
  vci_voting_power : N;
}.
#[global] Instance ValidatorConsensusInfo_eq_dec : EqDecision ValidatorConsensusInfo.
Proof. solve_decision. Defined.

Record ValidatorVerifier : Type := mkValidatorVerifier {
  address_to_validator_info : gmap N ValidatorConsensusInfo;
  quorum_voting_power : N;
  total_voting_power : N;
}.
#[global] Instance ValidatorVerifier_eq_dec : EqDecision ValidatorVerifier.
Proof. solve_decision. Defined.

(** [values().fold(0, |sum, x| sum.checked_add(x.voting_power).expect(..))] *)
Fixpoint sum_voting_power_values {E} (sum : N) (infos : list ValidatorConsensusInfo)
    : outcome E N :=
  match infos with
  | [] => Ok sum
  | x :: infos =>
      sum' ← expect (checked_add sum (vci_voting_power x));
      sum_voting_power_values sum' infos
  end.
Definition sum_voting_power {E} (m : gmap N ValidatorConsensusInfo) : outcome E N :=
  sum_voting_power_values 0 (btree_values m).

Module Verifier.
Definition new {E} (m : gmap N ValidatorConsensusInfo) : outcome E ValidatorVerifier :=
  total ← sum_voting_power m;
  quorum ← (if bool_decide (m = ∅) then Ok 0
            else twice ← mul64 total 2; add64 (twice / 3) 1);
  Ok (mkValidatorVerifier m quorum total).

Definition new_single {E} (author : AccountAddress) (pk : PublicKey)
    : outcome E ValidatorVerifier :=
  new {[ author := mkValidatorConsensusInfo pk 1 ]}.

(** One step of [From<&ValidatorSet>]: [payload] lists the validators as
    (address, consensus key, voting power). *)
Definition from_validator_set {E} (payload : list (AccountAddress * (PublicKey * N)))
    : outcome E ValidatorVerifier :=
  new (foldl (fun map validator =>
         <[ validator.1 := mkValidatorConsensusInfo validator.2.1 validator.2.2 ]> map)
       ∅ payload).

Section ops.
Context (self : ValidatorVerifier).

Definition get_public_key (author : AccountAddress) : option PublicKey :=
  vci_public_key <$> address_to_validator_info self !! author.

Definition get_voting_power (author : AccountAddress) : option N :=
  vci_voting_power <$> address_to_validator_info self !! author.

Definition get_ordered_account_addresses_iter : list AccountAddress :=
  btree_keys (address_to_validator_info self).

Definition len : N := N.of_nat (size (address_to_validator_info self)).
Definition is_empty : bool := len =? 0.

(** The loop of [check_voting_power], from the power collected so far. *)
Fixpoint add_voting_power (aggregated : N) (authors : list AccountAddress)
    : outcome VerifyError N :=
  match authors with
  | [] => Ok aggregated
  | account_address :: authors =>
      match get_voting_power account_address with
      | Some voting_power =>
          aggregated' ← add64 aggregated voting_power;
          add_voting_power aggregated' authors
      | None => Err UnknownAuthor
      end
  end.

Definition check_voting_power (authors : list AccountAddress) : outcome VerifyError unit :=
  aggregated_voting_power ← add_voting_power 0 authors;
  ensure (negb (aggregated_voting_power <? quorum_voting_power self))
    (TooLittleVotingPower aggregated_voting_power (quorum_voting_power self)).

Definition check_num_of_signatures (sigs : gmap N Signature) : outcome VerifyError unit :=
  let num_of_signatures := N.of_nat (size sigs) in
  ensure (negb (len <? num_of_signatures)) (TooManySignatures num_of_signatures len).

Context `{Signable T}.

Definition verify (author : AccountAddress) (message : T) (signature : Signature)
    : outcome VerifyError unit :=
  match get_public_key author with
  | Some public_key =>
      ensure (verify_struct_signature public_key message signature) InvalidSignature
  | None => Err UnknownAuthor
  end.

Fixpoint verify_each (message : T) (sigs : list (AccountAddress * Signature))
    : outcome VerifyError unit :=
  match sigs with
  | [] => Ok tt
  | (author, signature) :: sigs =>
      _ ← verify author message signature; verify_each message sigs
  end.

Definition verify_aggregated_struct_signature (message : T) (sigs : gmap N Signature)
    : outcome VerifyError unit :=
  _ ← check_num_of_signatures sigs;
  _ ← check_voting_power (btree_keys sigs);
  verify_each message (btree_iter sigs).

Definition keys_and_signatures (sigs : gmap N Signature) : list (PublicKey * Signature) :=
  omap (fun '(address, signature) =>
          (fun pub_key => (pub_key, signature)) <$> get_public_key address)
       (btree_iter sigs).

Definition batch_verify_aggregated_signatures (message : T) (sigs : gmap N Signature)
    : outcome VerifyError unit :=
  _ ← check_num_of_signatures sigs;
  _ ← check_voting_power (btree_keys sigs);
  if negb (batch_verify message (keys_and_signatures sigs))
  then verify_aggregated_struct_signature message sigs
  else Ok tt.
End ops.
End Verifier.

(** ** Well-formed verifiers: what [ValidatorVerifier::new] establishes *)
Definition power_of (self : ValidatorVerifier) (a : AccountAddress) : N :=
  default 0 (Verifier.get_voting_power self a).

Definition validators (self : ValidatorVerifier) : gset N :=
  dom (address_to_validator_info self).

Record verifier_wf (self : ValidatorVerifier) : Prop := {
  wf_total : total_voting_power self = weight (power_of self) (validators self);
  wf_total_u64 : total_voting_power self <= u64_max;
  wf_quorum :
    if bool_decide (address_to_validator_info self = ∅) then quorum_voting_power self = 0
    else quorum_voting_power self = total_voting_power self * 2 / 3 + 1;
}.

Lemma sum_voting_power_values_Ok {E} infos sum r :
  @sum_voting_power_values E sum infos = Ok r <->
  r = sum + foldr (fun x acc => vci_voting_power x + acc) 0 infos /\
  (r <= u64_max \/ infos = []).
Proof.
  revert sum. induction infos as [|x infos IH]; intros sum; simpl.
  { split; [intros [= ->]; split; [lia|by right] | intros [-> _]; f_equal; lia]. }
  rewrite bind_Ok. split.
  - intros (a & Ha & Hr). apply expect_Ok in Ha. unfold checked_add in Ha.
    destruct (N.leb_spec (sum + vci_voting_power x) u64_max); simplify_eq.
    apply IH in Hr as [-> [?| ->]]; simpl in *; split; lia.
  - intros [-> [?|?]]; [|done]. exists (sum + vci_voting_power x). split.
    + apply expect_Ok. unfold checked_add. destruct (N.leb_spec (sum + vci_voting_power x) u64_max); [done|lia].
    + apply IH. split; lia.
Qed.

Lemma power_of_lookup self a i :
  address_to_validator_info self !! a = Some i -> power_of self a = vci_voting_power i.
Proof. intros H. unfold power_of, Verifier.get_voting_power. by rewrite H. Qed.

Lemma get_voting_power_None self a :
  Verifier.get_voting_power self a = None <-> a ∉ validators self.
Proof.
  unfold Verifier.get_voting_power, validators. rewrite not_elem_of_dom, fmap_None. done.
Qed.

Lemma get_voting_power_Some self a :
  a ∈ validators self -> Verifier.get_voting_power self a = Some (power_of self a).
Proof.
  unfold validators. rewrite elem_of_dom. intros [i Hi].
  rewrite (power_of_lookup _ _ _ Hi). unfold Verifier.get_voting_power. by rewrite Hi.
Qed.

(** The sum over the map's values is the weight of its key set. *)
Lemma sum_values_weight self :
  foldr (fun x acc => vci_voting_power x + acc) 0 (btree_values (address_to_validator_info self)) =
  weight (power_of self) (validators self).
Proof.
  unfold weight, validators, btree_values.
  transitivity (weight_list (power_of self) (btree_keys (address_to_validator_info self))).
  - unfold btree_keys.
    assert (Forall (fun p => power_of self p.1 = vci_voting_power p.2)
              (btree_iter (address_to_validator_info self))) as Hall.
    { apply Forall_forall. intros [k i] Hk%elem_of_btree_iter. by apply power_of_lookup. }
    induction Hall as [|[k i] l H Hall IH]; [done|].
    simpl in *. f_equal; [by symmetry | exact IH].
  - apply weight_list_perm. apply NoDup_Permutation; [apply NoDup_btree_keys | apply NoDup_elements |].
    intros a. rewrite elem_of_btree_keys, elem_of_elements, elem_of_dom. done.
Qed.

Lemma new_wf {E} m self : @Verifier.new E m = Ok self -> verifier_wf self.
Proof.
  unfold Verifier.new. intros H. run_ok.
  match goal with H : sum_voting_power _ = _ |- _ =>
    apply sum_voting_power_values_Ok in H as [Ht Hu] end.
  match goal with |- verifier_wf ?v => pose proof (sum_values_weight v) as Hw end.
  simpl in Hw. rewrite Hw in Ht. split; simpl.
  - lia.
  - destruct Hu as [?|Hnil]; [done|]. rewrite Hnil in Hw. simpl in Hw.
    unfold u64_max. lia.
  - case_bool_decide; simplify_eq; [done|]. run_ok. done.
Qed.

(** What [check_voting_power] decides, on a list of distinct known or unknown
    authors. *)
Lemma add_voting_power_Ok self agg authors r :
  Verifier.add_voting_power self agg authors = Ok r ->
  r = agg + weight_list (power_of self) authors /\
  Forall (fun a => a ∈ validators self) authors.
Proof.
  revert agg. induction authors as [|a authors IH]; intros agg; simpl.
  { intros [= ->]. split; [lia|done]. }
  destruct (Verifier.get_voting_power self a) as [p|] eqn:Hp; [|done].
  intros H. run_ok. apply IH in H as [-> ?].
  assert (a ∈ validators self) as Ha.
  { destruct (decide (a ∈ validators self)) as [|Hn]; [done|].
    apply get_voting_power_None in Hn. congruence. }
  rewrite (get_voting_power_Some _ _ Ha) in Hp. simplify_eq.
  split; [lia|by constructor].
Qed.

Lemma add_voting_power_total self agg authors :
  agg + weight_list (power_of self) authors <= u64_max ->
  Forall (fun a => a ∈ validators self) authors ->
  Verifier.add_voting_power self agg authors =
    Ok (agg + weight_list (power_of self) authors).
Proof.
  intros Hle Hall. revert agg Hle. induction Hall as [|a l Ha Hall IH]; simpl; intros agg Hle.
  { f_equal. lia. }
  rewrite (get_voting_power_Some _ _ Ha). unfold add64, checked_add.
  destruct (N.leb_spec (agg + power_of self a) u64_max); [simpl|lia].
  rewrite IH by lia. f_equal. lia.
Qed.

Lemma weight_list_validators self l :
  NoDup l -> Forall (fun a => a ∈ validators self) l ->
  weight_list (power_of self) l <= weight (power_of self) (validators self).
Proof.
  intros Hnd Hall. rewrite <-weight_list_to_set by done. apply weight_mono.
  intros a. rewrite elem_of_list_to_set. rewrite Forall_forall in Hall. auto.
Qed.

(** A quorum: distinct validators that together hold the quorum voting power. *)
Definition is_quorum (self : ValidatorVerifier) (Q : gset N) : Prop :=
  Q ⊆ validators self /\ quorum_voting_power self <= weight (power_of self) Q.

Lemma check_voting_power_Ok self l u :
  NoDup l -> Verifier.check_voting_power self l = Ok u ->
  is_quorum self (list_to_set l).
Proof.
  intros Hnd H. unfold Verifier.check_voting_power in H. run_ok. breflect.
  match goal with H : Verifier.add_voting_power _ _ _ = _ |- _ =>
    apply add_voting_power_Ok in H as [-> Hall] end.
  split.
  - intros a. rewrite elem_of_list_to_set. rewrite Forall_forall in Hall. auto.
  - rewrite weight_list_to_set by done. lia.
Qed.

(** [check_voting_power] on the distinct authors of a well-formed verifier never
    panics, and is exactly the quorum test. *)
Definition check_voting_power_spec (self : ValidatorVerifier) (l : list AccountAddress)
    : outcome VerifyError unit :=
  if bool_decide (Forall (fun a => a ∈ validators self) l) then
    let p := weight_list (power_of self) l in
    if quorum_voting_power self <=? p then Ok tt
    else Err (TooLittleVotingPower p (quorum_voting_power self))
  else Err UnknownAuthor.

Lemma add_voting_power_unknown self agg l :
  ~ Forall (fun a => a ∈ validators self) l -> NoDup l ->
  agg + weight (power_of self) (validators self ∩ list_to_set l) <= u64_max ->
  Verifier.add_voting_power self agg l = Err UnknownAuthor.
Proof.
  revert agg. induction l as [|a l IH]; intros agg Hn Hnd Hle; [by destruct Hn|].
  apply NoDup_cons in Hnd as [Ha Hnd]. simpl in *.
  destruct (decide (a ∈ validators self)) as [Hin|Hin].
  2: { rewrite <-get_voting_power_None in Hin. by rewrite Hin. }
  rewrite (get_voting_power_Some _ _ Hin).
  assert (weight (power_of self) (validators self ∩ ({[a]} ∪ list_to_set l)) =
          power_of self a + weight (power_of self) (validators self ∩ list_to_set l)) as Hw.
  { replace (validators self ∩ ({[a]} ∪ list_to_set l))
      with ({[a]} ∪ (validators self ∩ list_to_set l)) by set_solver.
    rewrite weight_union_disj by (rewrite disjoint_singleton_l, elem_of_intersection, elem_of_list_to_set; tauto).
    f_equal. unfold weight. rewrite elements_singleton. simpl. lia. }
  unfold add64, checked_add.
  destruct (N.leb_spec (agg + power_of self a) u64_max); [simpl|lia].
  apply IH; [|done|lia]. intros Hall. by apply Hn; constructor.
Qed.

Lemma check_voting_power_eq (self : ValidatorVerifier) (l : list AccountAddress) :
  verifier_wf self -> NoDup l ->
  Verifier.check_voting_power self l = check_voting_power_spec self l.
Proof.
  intros [Ht Hu _] Hnd.
  unfold Verifier.check_voting_power, check_voting_power_spec.
  case_bool_decide as Hall.
  - pose proof (weight_list_validators _ _ Hnd Hall).
    rewrite add_voting_power_total by (done || lia).
    rewrite N.add_0_l. simpl. unfold ensure.
    destruct (N.leb_spec (quorum_voting_power self) (weight_list (power_of self) l));
      destruct (N.ltb_spec (weight_list (power_of self) l) (quorum_voting_power self));
      simpl; done || lia.
  - rewrite add_voting_power_unknown; [done..|].
    assert (weight (power_of self) (validators self ∩ list_to_set l) <=
            weight (power_of self) (validators self)) by (apply weight_mono; set_solver).
    lia.
Qed.

(** [q > 2T/3] leaves room for a correct validator in two quorums. *)
Lemma quorums_overlap self faulty Q1 Q2 :
  2 * total_voting_power self < 3 * quorum_voting_power self ->
  total_voting_power self = weight (power_of self) (validators self) ->
  weight (power_of self) faulty <= total_voting_power self - quorum_voting_power self ->
  is_quorum self Q1 -> is_quorum self Q2 ->
  exists a, a ∈ Q1 /\ a ∈ Q2 /\ a ∉ faulty.
Proof.
  intros Hq Ht Hf [Hs1 Hw1] [Hs2 Hw2].
  pose proof (weight_overlap (power_of self) Q1 Q2 _ Hs1 Hs2) as Ho.
  assert (weight (power_of self) Q1 <= weight (power_of self) (validators self))
    by by apply weight_mono.
  rewrite (weight_split _ (Q1 ∩ Q2) faulty) in Ho.
  assert (weight (power_of self) (Q1 ∩ Q2 ∩ faulty) <= weight (power_of self) faulty)
    by (apply weight_mono; set_solver).
  destruct (weight_pos_elem (power_of self) ((Q1 ∩ Q2) ∖ faulty)) as (a & Ha & _); [lia|].
  exists a. set_solver.
Qed.

(** If every signer is known and the batch verifies, each signature verifies. *)
Lemma verify_each_batch `{Signable T} self (m : T) (sigs : gmap N Signature) :
  batch_verify m (Verifier.keys_and_signatures self sigs) = true ->
  list_to_set (btree_keys sigs) ⊆ validators self ->
  Verifier.verify_each self m (btree_iter sigs) = Ok tt.
Proof.
  unfold Verifier.keys_and_signatures, btree_keys.
  induction (btree_iter sigs) as [|[a s] l IH]; simpl; [done|].
  intros Hb Hin.
  assert (a ∈ validators self) as Ha by set_solver.
  unfold validators in Ha. apply elem_of_dom in Ha as [i Hi].
  unfold Verifier.verify, Verifier.get_public_key in *. rewrite Hi in *. simpl in *.
  destruct (verify_struct_signature (vci_public_key i) m s); [simpl|done].
  apply IH; [done|set_solver].
Qed.

(** Conversely, what a successful check says of every signer. *)
Lemma verify_each_Ok `{Signable T} self (m : T) l :
  Verifier.verify_each self m l = Ok tt ->
  Forall (fun p => Verifier.verify self p.1 m p.2 = Ok tt) l.
Proof.
  induction l as [|[a s] l IH]; simpl; [done|]. intros Hv. run_ok. constructor; auto.
Qed.

(** The batched check and the one-by-one check agree. *)
Lemma batch_verify_eq `{Signable T} (self : ValidatorVerifier) (message : T)
    (sigs : gmap N Signature) :
  Verifier.batch_verify_aggregated_signatures self message sigs =
  Verifier.verify_aggregated_struct_signature self message sigs.
Proof.
  unfold Verifier.batch_verify_aggregated_signatures, Verifier.verify_aggregated_struct_signature.
  destruct (Verifier.check_num_of_signatures self sigs) as [[]|e|] eqn:Hn; [simpl|done..].
  destruct (Verifier.check_voting_power self (btree_keys sigs)) as [[]|e|] eqn:Hp; [simpl|done..].
  destruct (batch_verify message (Verifier.keys_and_signatures self sigs)) eqn:Hb; [simpl|done].
  symmetry. apply verify_each_batch; [done|].
  by apply check_voting_power_Ok in Hp as [? _]; [|apply NoDup_btree_keys].
Qed.

Lemma list_to_set_btree_keys {A} (m : gmap N A) : list_to_set (btree_keys m) =@{gset N} dom m.
Proof.
  apply set_eq. intros a. by rewrite elem_of_list_to_set, elem_of_btree_keys, elem_of_dom.
Qed.

Lemma check_voting_power_dom {A} self (m : gmap N A) :
  Verifier.check_voting_power self (btree_keys m) = Ok tt -> is_quorum self (dom m).
Proof.
  intros Hc. apply check_voting_power_Ok in Hc; [|apply NoDup_btree_keys].
  by rewrite list_to_set_btree_keys in Hc.
Qed.

(** A certificate that passes the check carries verified signatures of a quorum. *)
Lemma batch_verify_sound `{Signable T} (self : ValidatorVerifier) (message : T)
    (sigs : gmap N Signature) :
  Verifier.batch_verify_aggregated_signatures self message sigs = Ok tt ->
  is_quorum self (dom sigs) /\
  forall a s, sigs !! a = Some s -> Verifier.verify self a message s = Ok tt.
Proof.
  rewrite batch_verify_eq. unfold Verifier.verify_aggregated_struct_signature. intros Hv. run_ok.
  split; [by apply check_voting_power_dom|]. intros a s Ha.
  apply verify_each_Ok in Hv. rewrite Forall_forall in Hv.
  apply (Hv (a, s)). by apply elem_of_btree_iter.
Qed.

Lemma verify_each_total `{Signable T} self (m : T) l :
  Forall (fun p => Verifier.verify self p.1 m p.2 = Ok tt) l -> Verifier.verify_each self m l = Ok tt.
Proof. induction 1 as [|[a s] l Hv _ IH]; simpl; [done|]. simpl in Hv. by rewrite Hv. Qed.

(** Verified signatures whose signers have enough power pass the check. *)
Lemma batch_verify_complete `{Signable T} (self : ValidatorVerifier) (message : T)
    (sigs : gmap N Signature) :
  Verifier.check_voting_power self (btree_keys sigs) = Ok tt ->
  (forall a s, sigs !! a = Some s -> Verifier.verify self a message s = Ok tt) ->
  Verifier.batch_verify_aggregated_signatures self message sigs = Ok tt.
Proof.
  intros Hp Hs. rewrite batch_verify_eq. unfold Verifier.verify_aggregated_struct_signature.
  assert (Verifier.check_num_of_signatures self sigs = Ok tt) as ->.
  { apply ensure_Ok. apply negb_true_iff, N.ltb_ge. unfold Verifier.len.
    apply check_voting_power_dom in Hp as [Hsub _]. unfold validators in Hsub.
    rewrite <-!size_dom. apply subseteq_size in Hsub. lia. }
  simpl. rewrite Hp. simpl. apply verify_each_total.
  apply Forall_forall. intros [a s] Ha%elem_of_btree_iter. by apply Hs.
Qed.

(** More than two thirds, in integers. *)
Lemma quorum_two_thirds self :
  verifier_wf self -> address_to_validator_info self <> ∅ ->
  2 * total_voting_power self < 3 * quorum_voting_power self.
Proof.
  intros [_ _ Hq] Hm. rewrite bool_decide_eq_false_2 in Hq by done. rewrite Hq. apply two_thirds_lt.
Qed.

Module VerifierProps.
(** On a verifier built by [ValidatorVerifier::new] and a list of distinct
    authors, [check_voting_power] never panics (its running sum cannot overflow
    a u64): it reports an unknown author if there is one, and otherwise accepts
    exactly the lists whose total voting power reaches the quorum. *)
Theorem check_voting_power_correct (m : gmap N ValidatorConsensusInfo)
    (self : ValidatorVerifier) (l : list AccountAddress) :
  @Verifier.new unit m = Ok self -> NoDup l ->
  Verifier.check_voting_power self l = check_voting_power_spec self l.
Proof. intros Hnew%new_wf Hnd. by apply check_voting_power_eq. Qed.

Definition four_validators : gmap N ValidatorConsensusInfo :=
  list_to_map ((fun i => (i, mkValidatorConsensusInfo (100 + i) 1)) <$> [1; 2; 3; 4]).
Definition four_verifier : ValidatorVerifier := mkValidatorVerifier four_validators 3 4.

Lemma check_voting_power_correct_witness :
  Verifier.check_voting_power four_verifier [1; 2; 3] = Ok tt.
Proof.
  rewrite (check_voting_power_correct four_validators four_verifier [1; 2; 3]).
  - vm_compute. reflexivity.
  - vm_compute. reflexivity.
  - apply (bool_decide_unpack _). vm_compute. exact I.
Defined.

(** C18: quorum intersection.  In a verifier built by [ValidatorVerifier::new]
    with at least one validator, two lists of distinct authors that both pass
    [check_voting_power] share a validator outside any set of faulty validators
    whose power is at most total minus quorum (the tolerated "f"). *)
Theorem quorum_intersection (m : gmap N ValidatorConsensusInfo)
    (self : ValidatorVerifier) (faulty : gset N) (l1 l2 : list AccountAddress) :
  @Verifier.new unit m = Ok self -> m <> ∅ ->
  weight (power_of self) faulty <= total_voting_power self - quorum_voting_power self ->
  NoDup l1 -> NoDup l2 ->
  Verifier.check_voting_power self l1 = Ok tt ->
  Verifier.check_voting_power self l2 = Ok tt ->
  exists a, a ∈ l1 /\ a ∈ l2 /\ a ∈ validators self /\ a ∉ faulty.
Proof.
  intros Hnew Hm Hf Hnd1 Hnd2 H1 H2.
  assert (address_to_validator_info self = m) as Hmap.
  { unfold Verifier.new in Hnew. run_ok. done. }
  pose proof (new_wf _ _ Hnew) as Hwf.
  apply check_voting_power_Ok in H1; [|done]. apply check_voting_power_Ok in H2; [|done].
  destruct (quorums_overlap self faulty (list_to_set l1) (list_to_set l2)) as (a & Ha);
    [apply quorum_two_thirds; congruence | apply Hwf | done..|].
  exists a. rewrite !elem_of_list_to_set in Ha. destruct Ha as (? & ? & ?).
  split_and!; [done..| |done]. apply H1. by apply elem_of_list_to_set.
Qed.

Lemma quorum_intersection_witness :
  exists a, a ∈ [1; 2; 3] /\ a ∈ [2; 3; 4] /\ a ∈ validators four_verifier /\ a ∉ ({[ 2 ]} : gset N).
Proof.
  apply (quorum_intersection four_validators four_verifier {[ 2 ]} [1; 2; 3] [2; 3; 4]).
  - vm_compute. reflexivity.
  - intros H. apply (f_equal (lookup 1)) in H. vm_compute in H. discriminate H.
  - vm_compute. discriminate.
  - apply (bool_decide_unpack _). vm_compute. exact I.
  - apply (bool_decide_unpack _). vm_compute. exact I.
  - vm_compute. reflexivity.
  - vm_compute. reflexivity.
Defined.

(** [batch_verify_aggregated_signatures], the routine every quorum
    certificate is checked with, returns in every case, errors and panics
    included, what the one-by-one [verify_aggregated_struct_signature] returns. *)
Theorem batch_verify_equivalent `{Signable T} (self : ValidatorVerifier) (message : T)
    (sigs : gmap N Signature) :
  Verifier.batch_verify_aggregated_signatures self message sigs =
  Verifier.verify_aggregated_struct_signature self message sigs.
Proof. apply batch_verify_eq. Qed.
End VerifierProps.
