(* ===== verification/Ledger.v ===== *)
(** * Ledger infos, epochs, waypoints and trusted states (types/src)

    [BlockInfo] (block_info.rs), [LedgerInfo] and its signed form
    (ledger_info.rs), [EpochState] (epoch_state.rs), [Waypoint] (waypoint.rs),
    [EpochChangeProof] (epoch_change.rs), [TransactionAccumulatorSummary]
    (proof/definition.rs) and the light client's [TrustedState]
    (trusted_state.rs). *)

From S2P Require Import Prelude Crypto Errors Position Accumulator Verifier.

Abbreviation Round := N (only parsing).
Abbreviation Version := N (only parsing).

Definition GENESIS_EPOCH : N := 0.
Definition GENESIS_ROUND : Round := 0.
Definition GENESIS_VERSION : Version := 0.
Definition GENESIS_TIMESTAMP_USECS : N := 0.

Record EpochState : Type := mkEpochState {
  es_epoch : N;
  es_verifier : ValidatorVerifier;
}.
#[global] Instance EpochState_eq_dec : EqDecision EpochState.
Proof. solve_decision. Defined.

(** ** BlockInfo *)
Record BlockInfo : Type := mkBlockInfo {
  bi_epoch : N;
  bi_round : Round;
  bi_id : HashValue;
  bi_executed_state_id : HashValue;
  bi_version : Version;
  bi_timestamp_usecs : N;
  bi_next_epoch_state : option EpochState;
}.
#[global] Instance BlockInfo_eq_dec : EqDecision BlockInfo.
Proof. solve_decision. Defined.

Module BlockInfo.
Definition empty : BlockInfo := mkBlockInfo 0 0 Hash.zero Hash.zero 0 0 None.

Definition genesis {E} (genesis_state_root_hash : HashValue)
    (validator_set : list (AccountAddress * (PublicKey * N))) : outcome E BlockInfo :=
  verifier ← Verifier.from_validator_set validator_set;
  Ok (mkBlockInfo GENESIS_EPOCH GENESIS_ROUND Hash.zero genesis_state_root_hash
        GENESIS_VERSION GENESIS_TIMESTAMP_USECS (Some (mkEpochState 1 verifier))).

Section ops.
Context (self : BlockInfo).

Definition has_reconfiguration : bool := bool_decide (is_Some (bi_next_epoch_state self)).

Definition next_block_epoch : N :=
  from_option es_epoch (bi_epoch self) (bi_next_epoch_state self).

Definition allow_timestamp_change (timestamp : N) : bool :=
  has_reconfiguration && (timestamp <=? bi_timestamp_usecs self).

Definition change_timestamp {E} (timestamp : N) : outcome E BlockInfo :=
  _ ← assert_ (allow_timestamp_change timestamp);
  Ok (mkBlockInfo (bi_epoch self) (bi_round self) (bi_id self) (bi_executed_state_id self)
        (bi_version self) timestamp (bi_next_epoch_state self)).
End ops.

Definition match_ordered_only (self executed_block_info : BlockInfo) : bool :=
  (bi_epoch self =? bi_epoch executed_block_info)
  && (bi_round self =? bi_round executed_block_info)
  && (bi_id self =? bi_id executed_block_info)
  && ((bi_timestamp_usecs self =? bi_timestamp_usecs executed_block_info)
      || ((bi_timestamp_usecs executed_block_info <? bi_timestamp_usecs self)
          && has_reconfiguration executed_block_info)).

Definition is_ordered_only (self : BlockInfo) : bool :=
  bool_decide (self <> empty)
  && bool_decide (bi_next_epoch_state self = None)
  && (bi_executed_state_id self =? ACCUMULATOR_PLACEHOLDER_HASH)
  && (bi_version self =? 0).
End BlockInfo.

(** ** LedgerInfo *)
Record LedgerInfo : Type := mkLedgerInfo {
  li_commit_info : BlockInfo;
  li_consensus_data_hash : HashValue;
}.
#[global] Instance LedgerInfo_eq_dec : EqDecision LedgerInfo.
Proof. solve_decision. Defined.

Module LedgerInfo.
Definition genesis {E} (genesis_state_root_hash : HashValue)
    (validator_set : list (AccountAddress * (PublicKey * N))) : outcome E LedgerInfo :=
  b ← BlockInfo.genesis genesis_state_root_hash validator_set;
  Ok (mkLedgerInfo b Hash.zero).

Section ops.
Context (self : LedgerInfo).
Definition epoch : N := bi_epoch (li_commit_info self).
Definition next_block_epoch : N := BlockInfo.next_block_epoch (li_commit_info self).
Definition round : Round := bi_round (li_commit_info self).
Definition consensus_block_id : HashValue := bi_id (li_commit_info self).
Definition transaction_accumulator_hash : HashValue :=
  bi_executed_state_id (li_commit_info self).
Definition version : Version := bi_version (li_commit_info self).
Definition timestamp_usecs : N := bi_timestamp_usecs (li_commit_info self).
Definition next_epoch_state : option EpochState := bi_next_epoch_state (li_commit_info self).
Definition ends_epoch : bool := bool_decide (is_Some next_epoch_state).
Definition set_consensus_data_hash (h : HashValue) : LedgerInfo :=
  mkLedgerInfo (li_commit_info self) h.
End ops.
End LedgerInfo.

(** [LedgerInfoWithSignatures::V0(LedgerInfoWithV0)]: the enum has one variant and
    dereferences to it. *)
Record LedgerInfoWithSignatures : Type := mkLedgerInfoWithSignatures {
  lis_ledger_info : LedgerInfo;
  lis_signatures : gmap N Signature;
}.
#[global] Instance LedgerInfoWithSignatures_eq_dec : EqDecision LedgerInfoWithSignatures.
Proof. solve_decision. Defined.

Module LedgerInfoWithSignatures.
Definition genesis {E} (genesis_state_root_hash : HashValue)
    (validator_set : list (AccountAddress * (PublicKey * N)))
    : outcome E LedgerInfoWithSignatures :=
  li ← LedgerInfo.genesis genesis_state_root_hash validator_set;
  Ok (mkLedgerInfoWithSignatures li ∅).

(** [self.signatures.entry(validator).or_insert(signature)] *)
Definition add_signature (self : LedgerInfoWithSignatures) (validator : AccountAddress)
    (signature : Signature) : LedgerInfoWithSignatures :=
  mkLedgerInfoWithSignatures (lis_ledger_info self)
    (match lis_signatures self !! validator with
     | Some _ => lis_signatures self
     | None => <[ validator := signature ]> (lis_signatures self)
     end).

Definition remove_signature (self : LedgerInfoWithSignatures) (validator : AccountAddress)
    : LedgerInfoWithSignatures :=
  mkLedgerInfoWithSignatures (lis_ledger_info self) (delete validator (lis_signatures self)).

Definition verify_signatures `{Signable LedgerInfo} (self : LedgerInfoWithSignatures)
    (validator : ValidatorVerifier) : outcome VerifyError unit :=
  Verifier.batch_verify_aggregated_signatures validator (lis_ledger_info self)
    (lis_signatures self).

Definition check_voting_power (self : LedgerInfoWithSignatures) (validator : ValidatorVerifier)
    : outcome VerifyError unit :=
  Verifier.check_voting_power validator (btree_keys (lis_signatures self)).
End LedgerInfoWithSignatures.

(** ** The [Verifier] trait (types/src/epoch_change.rs) *)
Class TVerifier (V : Type) : Type := {
  tv_verify : V -> LedgerInfoWithSignatures -> result unit;
  epoch_change_verification_required : V -> N -> bool;
  is_ledger_info_stale : V -> LedgerInfo -> bool;
}.

Module EpochState.
Definition empty {E} : outcome E EpochState :=
  verifier ← Verifier.new ∅; Ok (mkEpochState 0 verifier).

Definition verify `{Signable LedgerInfo} (self : EpochState)
    (ledger_info : LedgerInfoWithSignatures) : result unit :=
  _ ← ensure (es_epoch self =? LedgerInfo.epoch (lis_ledger_info ledger_info))
        (Msg "LedgerInfo has unexpected epoch");
  try_verify (LedgerInfoWithSignatures.verify_signatures ledger_info (es_verifier self)).
End EpochState.

#[global] Instance EpochState_TVerifier `{Signable LedgerInfo} : TVerifier EpochState := {|
  tv_verify := EpochState.verify;
  epoch_change_verification_required := fun self epoch => es_epoch self <? epoch;
  is_ledger_info_stale := fun self li => LedgerInfo.epoch li <? es_epoch self;
|}.

(** ** Waypoints *)
Record Ledger2WaypointConverter : Type := mkLedger2WaypointConverter {
  l2w_epoch : N;
  l2w_root_hash : HashValue;
  l2w_version : Version;
  l2w_timestamp_usecs : N;
  l2w_next_epoch_state : option EpochState;
}.

Definition Ledger2WaypointConverter_new (li : LedgerInfo) : Ledger2WaypointConverter :=
  mkLedger2WaypointConverter (LedgerInfo.epoch li) (LedgerInfo.transaction_accumulator_hash li)
    (LedgerInfo.version li) (LedgerInfo.timestamp_usecs li) (LedgerInfo.next_epoch_state li).

Record Waypoint : Type := mkWaypoint { wp_version : Version; wp_value : HashValue }.
#[global] Instance Waypoint_eq_dec : EqDecision Waypoint.
Proof. solve_decision. Defined.

Module Waypoint.
Section ops.
Context `{CryptoHash Ledger2WaypointConverter}.

Definition new_any (li : LedgerInfo) : Waypoint :=
  mkWaypoint (LedgerInfo.version li) (hash (Ledger2WaypointConverter_new li)).

Definition new_epoch_boundary (li : LedgerInfo) : result Waypoint :=
  _ ← ensure (LedgerInfo.ends_epoch li) (Msg "No validator set");
  Ok (new_any li).

Definition verify (self : Waypoint) (li : LedgerInfo) : result unit :=
  _ ← ensure (LedgerInfo.version li =? wp_version self) (Msg "Waypoint version mismatch");
  ensure (hash (Ledger2WaypointConverter_new li) =? wp_value self)
    (Msg "Waypoint value mismatch").
End ops.
End Waypoint.

#[global] Instance Waypoint_TVerifier `{CryptoHash Ledger2WaypointConverter} :
    TVerifier Waypoint := {|
  tv_verify := fun self li => Waypoint.verify self (lis_ledger_info li);
  epoch_change_verification_required := fun _ _ => true;
  is_ledger_info_stale := fun self li => LedgerInfo.version li <? wp_version self;
|}.

(** ** Epoch change proofs *)
Record EpochChangeProof : Type := mkEpochChangeProof {
  ledger_info_with_sigs : list LedgerInfoWithSignatures;
  more : bool;
}.

Module EpochChangeProof.
Definition epoch (self : EpochChangeProof) : result N :=
  ok_or ((fun li => LedgerInfo.epoch (lis_ledger_info li)) <$> head (ledger_info_with_sigs self))
    (Msg "Empty EpochChangeProof").

Fixpoint skip_while {A} (p : A -> bool) (l : list A) : list A :=
  match l with
  | [] => []
  | x :: l' => if p x then skip_while p l' else l
  end.

Section verify.
Context `{Signable LedgerInfo}.

(** The loop: [verify] is the current [verifier_ref.verify]. *)
Fixpoint verify_chain (verify : LedgerInfoWithSignatures -> result unit)
    (lis : list LedgerInfoWithSignatures) : result unit :=
  match lis with
  | [] => Ok tt
  | li :: lis =>
      _ ← verify li;
      es ← ok_or (LedgerInfo.next_epoch_state (lis_ledger_info li))
             (Msg "LedgerInfo doesn't carry a ValidatorSet");
      verify_chain (EpochState.verify es) lis
  end.

Definition verify `{TVerifier V} (self : EpochChangeProof) (verifier : V)
    : result LedgerInfoWithSignatures :=
  match last (ledger_info_with_sigs self) with
  | None => Err (Msg "The EpochChangeProof is empty")
  | Some last_li =>
      _ ← ensure (negb (is_ledger_info_stale verifier (lis_ledger_info last_li)))
            (Msg "The EpochChangeProof is stale");
      _ ← verify_chain (tv_verify verifier)
            (skip_while (fun li => is_ledger_info_stale verifier (lis_ledger_info li))
               (ledger_info_with_sigs self));
      Ok last_li
  end.
End verify.
End EpochChangeProof.

(** ** Accumulator summaries of light clients *)
Module TransactionAccumulatorSummary.
Section ops.
Context `{MerkleHasher}.

Definition new (accumulator : InMemoryAccumulator) : result InMemoryAccumulator :=
  _ ← ensure (negb (Acc.is_empty accumulator)) (Msg "empty accumulator");
  Ok accumulator.

Definition verify_consistency (self : InMemoryAccumulator) (li : LedgerInfo) : result unit :=
  _ ← ensure (LedgerInfo.version li =? Acc.version self)
        (Msg "ledger info and accumulator must be at the same version");
  ensure (LedgerInfo.transaction_accumulator_hash li =? root_hash self)
    (Msg "ledger info root hash and accumulator root hash must match").

Definition try_from_genesis_proof (genesis_proof : AccumulatorConsistencyProof)
    (target_version : Version) : result InMemoryAccumulator :=
  let num_txns := saturating_add target_version 1 in
  Acc.new (acp_subtrees genesis_proof) num_txns.

Definition try_extend_with_proof (self : InMemoryAccumulator)
    (consistency_proof : AccumulatorConsistencyProof) (target_li : LedgerInfo)
    : result InMemoryAccumulator :=
  _ ← ensure (Acc.version self <=? LedgerInfo.version target_li)
        (Msg "target ledger info version must be newer than our current accumulator summary version");
  num_new_txns ← sub64 (LedgerInfo.version target_li) (Acc.version self);
  new_accumulator ← Acc.append_subtrees self (acp_subtrees consistency_proof) num_new_txns;
  _ ← with_context
        "accumulator is not consistent with the target ledger info after applying consistency proof"
        (verify_consistency new_accumulator target_li);
  Ok new_accumulator.
End ops.
End TransactionAccumulatorSummary.

(** ** Trusted states *)
Inductive TrustedState : Type :=
  | TSEpochWaypoint (waypoint : Waypoint)
  | TSEpochState (waypoint : Waypoint) (epoch_state : EpochState).

Inductive TrustedStateChange : Type :=
  | TSCVersion (new_state : TrustedState)
  | TSCEpoch (new_state : TrustedState) (latest_epoch_change_li : LedgerInfoWithSignatures)
  | TSCNoChange.

Module TrustedState.
Definition waypoint (self : TrustedState) : Waypoint :=
  match self with TSEpochWaypoint w => w | TSEpochState w _ => w end.
Definition version (self : TrustedState) : Version := wp_version (waypoint self).
Definition is_epoch_waypoint (self : TrustedState) : bool :=
  match self with TSEpochWaypoint _ => true | _ => false end.

Section ops.
Context `{Signable LedgerInfo} `{CryptoHash Ledger2WaypointConverter}.

#[global] Instance TrustedState_TVerifier : TVerifier TrustedState := {|
  tv_verify := fun self li =>
    match self with
    | TSEpochWaypoint w => tv_verify w li
    | TSEpochState _ es => tv_verify es li
    end;
  epoch_change_verification_required := fun self epoch =>
    match self with
    | TSEpochWaypoint w => epoch_change_verification_required w epoch
    | TSEpochState _ es => epoch_change_verification_required es epoch
    end;
  is_ledger_info_stale := fun self li =>
    match self with
    | TSEpochWaypoint w => is_ledger_info_stale w li
    | TSEpochState _ es => is_ledger_info_stale es li
    end;
|}.

Definition try_from_epoch_change_li (epoch_change_li : LedgerInfo)
    (accumulator : InMemoryAccumulator) : result TrustedState :=
  _ ← TransactionAccumulatorSummary.verify_consistency accumulator epoch_change_li;
  epoch_state ← ok_or (LedgerInfo.next_epoch_state epoch_change_li)
    (Msg "No EpochState in LedgerInfo; it must not be on an epoch boundary");
  waypoint ← Waypoint.new_epoch_boundary epoch_change_li;
  Ok (TSEpochState waypoint epoch_state).

Definition verify_and_ratchet_inner (self : TrustedState)
    (latest_li : LedgerInfoWithSignatures) (epoch_change_proof : EpochChangeProof)
    : result TrustedStateChange :=
  let curr_version := version self in
  let target_version := LedgerInfo.version (lis_ledger_info latest_li) in
  _ ← ensure (curr_version <=? target_version)
        (Msg "The target latest ledger info version is stale");
  if epoch_change_verification_required self
       (LedgerInfo.next_block_epoch (lis_ledger_info latest_li))
  then
    epoch_change_li ← EpochChangeProof.verify epoch_change_proof self;
    new_epoch_state ← ok_or (LedgerInfo.next_epoch_state (lis_ledger_info epoch_change_li))
      (Msg "A valid EpochChangeProof will never return a non-epoch change ledger info");
    let new_epoch := es_epoch new_epoch_state in
    verified_ledger_info ←
      (if bool_decide (epoch_change_li = latest_li) then Ok latest_li
       else if LedgerInfo.epoch (lis_ledger_info latest_li) =? new_epoch then
         _ ← EpochState.verify new_epoch_state latest_li; Ok latest_li
       else if (new_epoch <? LedgerInfo.epoch (lis_ledger_info latest_li))
               && more epoch_change_proof then Ok epoch_change_li
       else Err (Msg "Inconsistent epoch change proof and latest ledger info"));
    let new_waypoint := Waypoint.new_any (lis_ledger_info verified_ledger_info) in
    Ok (TSCEpoch (TSEpochState new_waypoint new_epoch_state) epoch_change_li)
  else
    match self with
    | TSEpochWaypoint _ =>
        Err (Msg "EpochWaypoint can only verify an epoch change ledger info")
    | TSEpochState curr_waypoint curr_epoch_state =>
        let new_waypoint := Waypoint.new_any (lis_ledger_info latest_li) in
        if wp_version new_waypoint =? wp_version curr_waypoint then
          _ ← ensure (bool_decide (new_waypoint = curr_waypoint))
                (Msg "LedgerInfo doesn't match verified state");
          Ok TSCNoChange
        else
          _ ← EpochState.verify curr_epoch_state latest_li;
          Ok (TSCVersion (TSEpochState new_waypoint curr_epoch_state))
    end.
End ops.
End TrustedState.

Definition TrustedStateChange_new_state (self : TrustedStateChange) : option TrustedState :=
  match self with
  | TSCVersion new_state | TSCEpoch new_state _ => Some new_state
  | TSCNoChange => None
  end.
