(* ===== verification/ConsensusTypes.v ===== *)
(** * Consensus messages (consensus/consensus-types/src)

    Votes, quorum certificates, timeouts, blocks and the messages that carry
    them, with the well-formedness and signature checks every replica performs
    on them.  Wall-clock time is a parameter of the one check that reads it. *)

From S2P Require Import Prelude Crypto Errors Position Accumulator Verifier Ledger.

Abbreviation Author := N (only parsing).

(** ** Payloads (common.rs) *)

(** [RawTransaction] and [SignedTransaction] (types/src/transaction/mod.rs); the payload
    and the authenticator are opaque here. *)
Record RawTransaction : Type := mkRawTransaction {
  raw_sender : AccountAddress;
  raw_sequence_number : N;
  raw_payload : N;
  raw_max_gas_amount : N;
  raw_gas_unit_price : N;
  raw_expiration_timestamp_secs : N;
  raw_chain_id : N;
}.
#[global] Instance RawTransaction_eq_dec : EqDecision RawTransaction.
Proof. solve_decision. Defined.
Record SignedTransaction : Type := mkSignedTransaction {
  raw_txn : RawTransaction;
  authenticator : N;
}.
#[global] Instance SignedTransaction_eq_dec : EqDecision SignedTransaction.
Proof. solve_decision. Defined.
Definition txn_sender (self : SignedTransaction) : AccountAddress := raw_sender (raw_txn self).
Definition txn_sequence_number (self : SignedTransaction) : N := raw_sequence_number (raw_txn self).
Definition txn_payload (self : SignedTransaction) : N := raw_payload (raw_txn self).
Definition txn_max_gas_amount (self : SignedTransaction) : N := raw_max_gas_amount (raw_txn self).
Definition txn_gas_unit_price (self : SignedTransaction) : N := raw_gas_unit_price (raw_txn self).
Definition txn_expiration_timestamp_secs (self : SignedTransaction) : N := raw_expiration_timestamp_secs (raw_txn self).

Record TransactionSummary : Type := mkTransactionSummary {
  ts_sender : AccountAddress;
  ts_sequence_number : N;
}.

Record ProofOfStore : Type := mkProofOfStore { placeholder : N }.
#[global] Instance ProofOfStore_eq_dec : EqDecision ProofOfStore.
Proof. solve_decision. Defined.

Inductive Payload : Type :=
  | DirectMempool (txns : list SignedTransaction)
  | InQuorumStore (poavs : list ProofOfStore).
#[global] Instance Payload_eq_dec : EqDecision Payload.
Proof. solve_decision. Defined.

Inductive PayloadFilter : Type :=
  | FilterDirectMempool (excluded : list TransactionSummary)
  | FilterInQuorumStore (poavs : list ProofOfStore).

Module Payload.
Definition new_empty : Payload := DirectMempool [].

(** [todo!()] for the quorum store variant. *)
Definition len {E} (self : Payload) : outcome E N :=
  match self with
  | DirectMempool txns => Ok (N.of_nat (length txns))
  | InQuorumStore _ => Panic
  end.
Definition is_empty {E} (self : Payload) : outcome E bool :=
  match self with
  | DirectMempool txns => Ok (bool_decide (txns = []))
  | InQuorumStore _ => Panic
  end.
Definition into_iter {E} (self : Payload) : outcome E (list SignedTransaction) :=
  match self with
  | DirectMempool txns => Ok txns
  | InQuorumStore _ => Panic
  end.

Definition summaries (payload : Payload) : list TransactionSummary :=
  match payload with
  | DirectMempool txns =>
      (fun txn => mkTransactionSummary (txn_sender txn) (txn_sequence_number txn)) <$> txns
  | InQuorumStore _ => []
  end.
Definition filter_from {E} (exclude_payloads : list Payload) : outcome E PayloadFilter :=
  match exclude_payloads with
  | [] => Ok (FilterDirectMempool [])
  | DirectMempool _ :: _ =>
      Ok (FilterDirectMempool (mjoin (summaries <$> exclude_payloads)))
  | InQuorumStore _ :: _ => Panic
  end.
End Payload.

(** ** VoteData (vote_data.rs) *)
Record VoteData : Type := mkVoteData { vd_proposed : BlockInfo; vd_parent : BlockInfo }.
#[global] Instance VoteData_eq_dec : EqDecision VoteData.
Proof. solve_decision. Defined.

Module VoteData.
Definition verify (self : VoteData) : result unit :=
  _ ← ensure (bi_epoch (vd_parent self) =? bi_epoch (vd_proposed self))
        (Msg "Parent and proposed epochs do not match");
  _ ← ensure (bi_round (vd_parent self) <? bi_round (vd_proposed self))
        (Msg "Proposed round is less than parent round");
  _ ← ensure (bi_timestamp_usecs (vd_parent self) <=? bi_timestamp_usecs (vd_proposed self))
        (Msg "Proposed happened before parent");
  ensure ((bi_version (vd_proposed self) =? 0)
          || (bi_version (vd_parent self) <=? bi_version (vd_proposed self)))
    (Msg "Proposed version is less than parent version").

Definition is_for_nil (self : VoteData) : bool :=
  bi_timestamp_usecs (vd_proposed self) =? bi_timestamp_usecs (vd_parent self).
End VoteData.

(** ** QuorumCert (quorum_cert.rs) *)
Record QuorumCert : Type := mkQuorumCert {
  qc_vote_data : VoteData;
  qc_signed_ledger_info : LedgerInfoWithSignatures;
}.
#[global] Instance QuorumCert_eq_dec : EqDecision QuorumCert.
Proof. solve_decision. Defined.

Module QuorumCert.
Section ops.
Context (self : QuorumCert).

Definition certified_block : BlockInfo := vd_proposed (qc_vote_data self).
Definition parent_block : BlockInfo := vd_parent (qc_vote_data self).
Definition ledger_info : LedgerInfo := lis_ledger_info (qc_signed_ledger_info self).
Definition commit_info : BlockInfo := li_commit_info ledger_info.
Definition ends_epoch : bool := LedgerInfo.ends_epoch ledger_info.

Context `{CryptoHash VoteData} `{Signable LedgerInfo}.

Definition verify (validator : ValidatorVerifier) : result unit :=
  let vote_hash := hash (qc_vote_data self) in
  _ ← ensure (li_consensus_data_hash ledger_info =? vote_hash)
        (Msg "Quorum Cert's hash mismatch LedgerInfo");
  if bi_round certified_block =? 0 then
    _ ← ensure (bool_decide (parent_block = certified_block))
          (Msg "Genesis QC has inconsistent parent block with certified block");
    _ ← ensure (bool_decide (certified_block = commit_info))
          (Msg "Genesis QC has inconsistent commit block with certified block");
    ensure (bool_decide (lis_signatures (qc_signed_ledger_info self) = ∅))
      (Msg "Genesis QC should not carry signatures")
  else
    _ ← with_context "Fail to verify QuorumCert"
          (try_verify (LedgerInfoWithSignatures.verify_signatures
                         (qc_signed_ledger_info self) validator));
    VoteData.verify (qc_vote_data self).

Definition create_merged_with_executed_state (executed_ledger_info : LedgerInfoWithSignatures)
    : result QuorumCert :=
  _ ← ensure (BlockInfo.match_ordered_only commit_info
                (li_commit_info (lis_ledger_info executed_ledger_info)))
        (Msg "Block info from QC and executed LI need to match");
  Ok (mkQuorumCert (qc_vote_data self) executed_ledger_info).
End ops.

Definition certificate_for_genesis_from_ledger_info {E} `{CryptoHash VoteData}
    (li : LedgerInfo) (genesis_id : HashValue) : outcome E QuorumCert :=
  epoch ← expect (checked_add (LedgerInfo.epoch li) 1);
  let ancestor := mkBlockInfo epoch 0 genesis_id (LedgerInfo.transaction_accumulator_hash li)
                    (LedgerInfo.version li) (LedgerInfo.timestamp_usecs li) None in
  let vote_data := mkVoteData ancestor ancestor in
  let li := mkLedgerInfo ancestor (hash vote_data) in
  Ok (mkQuorumCert vote_data (mkLedgerInfoWithSignatures li ∅)).
End QuorumCert.

(** ** Timeouts (timeout_2chain.rs) *)
Record TwoChainTimeout : Type := mkTwoChainTimeout {
  to_epoch : N;
  to_round : Round;
  to_quorum_cert : QuorumCert;
}.
#[global] Instance TwoChainTimeout_eq_dec : EqDecision TwoChainTimeout.
Proof. solve_decision. Defined.

Record TimeoutSigningRepr : Type := mkTimeoutSigningRepr {
  tsr_epoch : N;
  tsr_round : Round;
  tsr_hqc_round : Round;
}.
#[global] Instance TimeoutSigningRepr_eq_dec : EqDecision TimeoutSigningRepr.
Proof. solve_decision. Defined.

Module TwoChainTimeout.
Section ops.
Context (self : TwoChainTimeout).

Definition hqc_round : Round := bi_round (QuorumCert.certified_block (to_quorum_cert self)).

Definition signing_format : TimeoutSigningRepr :=
  mkTimeoutSigningRepr (to_epoch self) (to_round self) hqc_round.

Context `{CryptoHash VoteData} `{Signable LedgerInfo}.

Definition verify (validators : ValidatorVerifier) : result unit :=
  _ ← ensure (hqc_round <? to_round self)
        (Msg "Timeout round should be larger than the QC round");
  QuorumCert.verify (to_quorum_cert self) validators.
End ops.
End TwoChainTimeout.

Record TwoChainTimeoutCertificate : Type := mkTwoChainTimeoutCertificate {
  tc_timeout : TwoChainTimeout;
  tc_signatures : gmap N (Round * Signature);
}.
#[global] Instance TwoChainTimeoutCertificate_eq_dec : EqDecision TwoChainTimeoutCertificate.
Proof. solve_decision. Defined.

Module TwoChainTimeoutCertificate.
Definition new (timeout : TwoChainTimeout) : TwoChainTimeoutCertificate :=
  mkTwoChainTimeoutCertificate timeout ∅.

Section ops.
Context (self : TwoChainTimeoutCertificate).

Definition epoch : N := to_epoch (tc_timeout self).
Definition round : Round := to_round (tc_timeout self).
Definition highest_hqc_round : Round := TwoChainTimeout.hqc_round (tc_timeout self).
Definition signers : list Author := btree_keys (tc_signatures self).

Context `{CryptoHash VoteData} `{Signable LedgerInfo} `{Signable TimeoutSigningRepr}.

(** The loop of [verify]: check every signature, return the highest signed round. *)
Fixpoint verify_signed_rounds (validators : ValidatorVerifier) (signed_round : Round)
    (sigs : list (Author * (Round * Signature))) : result Round :=
  match sigs with
  | [] => Ok signed_round
  | (author, (qc_round, signature)) :: sigs =>
      let t := mkTimeoutSigningRepr epoch round qc_round in
      _ ← with_context "Failed to verify TimeoutSigningRepr"
            (try_verify (Verifier.verify validators author t signature));
      verify_signed_rounds validators (N.max signed_round qc_round) sigs
  end.

Definition verify (validators : ValidatorVerifier) : result unit :=
  _ ← TwoChainTimeout.verify (tc_timeout self) validators;
  let hqc_round := TwoChainTimeout.hqc_round (tc_timeout self) in
  _ ← try_verify (Verifier.check_voting_power validators (btree_keys (tc_signatures self)));
  signed_round ← verify_signed_rounds validators 0 (btree_iter (tc_signatures self));
  ensure (hqc_round =? signed_round) (Msg "Inconsistent hqc round").

(** The equality of epochs and rounds is only a [debug_assert]. *)
Definition add (author : Author) (timeout : TwoChainTimeout) (signature : Signature)
    : TwoChainTimeoutCertificate :=
  let hqc_round := TwoChainTimeout.hqc_round timeout in
  let timeout' :=
    if TwoChainTimeout.hqc_round (tc_timeout self) <? TwoChainTimeout.hqc_round timeout
    then timeout else tc_timeout self in
  mkTwoChainTimeoutCertificate timeout'
    (<[ author := (hqc_round, signature) ]> (tc_signatures self)).
End ops.
End TwoChainTimeoutCertificate.

(** ** Votes (vote.rs) *)
Record Vote : Type := mkVote {
  v_vote_data : VoteData;
  v_author : Author;
  v_ledger_info : LedgerInfo;
  v_signature : Signature;
  v_two_chain_timeout : option (TwoChainTimeout * Signature);
}.
#[global] Instance Vote_eq_dec : EqDecision Vote.
Proof. solve_decision. Defined.

(** [ValidatorSigner] (types/src/validator_signer.rs) *)
Record ValidatorSigner : Type := mkValidatorSigner {
  vs_author : AccountAddress;
  vs_private_key : PrivateKey;
}.
#[global] Instance ValidatorSigner_eq_dec : EqDecision ValidatorSigner.
Proof. solve_decision. Defined.

Module ValidatorSigner.
Definition sign `{Signable T} (self : ValidatorSigner) (message : T) : Signature :=
  sign_struct (vs_private_key self) message.
Definition public_key `{KeyPair} (self : ValidatorSigner) : PublicKey :=
  public_key (vs_private_key self).
End ValidatorSigner.

Module Vote.
Definition new_with_signature (vote_data : VoteData) (author : Author)
    (ledger_info : LedgerInfo) (signature : Signature) : Vote :=
  mkVote vote_data author ledger_info signature None.

Section ops.
Context (self : Vote).

Definition epoch : N := bi_epoch (vd_proposed (v_vote_data self)).
Definition is_timeout : bool := bool_decide (is_Some (v_two_chain_timeout self)).
Definition add_2chain_timeout (timeout : TwoChainTimeout) (signature : Signature) : Vote :=
  mkVote (v_vote_data self) (v_author self) (v_ledger_info self) (v_signature self)
    (Some (timeout, signature)).
Definition generate_2chain_timeout (qc : QuorumCert) : TwoChainTimeout :=
  mkTwoChainTimeout (bi_epoch (vd_proposed (v_vote_data self)))
    (bi_round (vd_proposed (v_vote_data self))) qc.
End ops.

Section crypto.
Context `{CryptoHash VoteData} `{Signable LedgerInfo} `{Signable TimeoutSigningRepr}.

Definition new (vote_data : VoteData) (author : Author) (ledger_info_placeholder : LedgerInfo)
    (validator_signer : ValidatorSigner) : Vote :=
  let li := LedgerInfo.set_consensus_data_hash ledger_info_placeholder (hash vote_data) in
  let signature := ValidatorSigner.sign validator_signer li in
  new_with_signature vote_data author li signature.

Definition verify (self : Vote) (validator : ValidatorVerifier) : result unit :=
  _ ← ensure (li_consensus_data_hash (v_ledger_info self) =? hash (v_vote_data self))
        (Msg "Vote's hash mismatch with LedgerInfo");
  _ ← with_context "Failed to verify Vote"
        (try_verify (Verifier.verify validator (v_author self) (v_ledger_info self)
                       (v_signature self)));
  _ ← match v_two_chain_timeout self with
      | Some (timeout, signature) =>
          _ ← ensure ((to_epoch timeout =? epoch self)
                      && (to_round timeout =? bi_round (vd_proposed (v_vote_data self))))
                (Msg "2-chain timeout has different (epoch, round) than Vote");
          _ ← TwoChainTimeout.verify timeout validator;
          with_context "Failed to verify 2-chain timeout signature"
            (try_verify (Verifier.verify validator (v_author self)
                           (TwoChainTimeout.signing_format timeout) signature))
      | None => Ok tt
      end;
  VoteData.verify (v_vote_data self).
End crypto.
End Vote.

(** ** SafetyData (safety_data.rs) *)
Record SafetyData : Type := mkSafetyData {
  sd_epoch : N;
  sd_last_voted_round : N;
  sd_preferred_round : N;
  sd_one_chain_round : N;
  sd_last_vote : option Vote;
}.
#[global] Instance SafetyData_eq_dec : EqDecision SafetyData.
Proof. solve_decision. Defined.
