(* ===== verification/Blocks.v ===== *)
(** * Blocks and the messages that carry them (consensus/consensus-types/src)

    [BlockData] (block_data.rs), [Block] (block.rs), [VoteProposal]
    (vote_proposal.rs), [SyncInfo] (sync_info.rs), [ProposalMsg]
    (proposal_msg.rs) and [VoteMsg] (vote_msg.rs). *)

From S2P Require Import Prelude Crypto Errors Position Accumulator Verifier Ledger ConsensusTypes.

Inductive BlockType : Type :=
  | Proposal (payload : Payload) (author : Author) (failed_authors : list (Round * Author))
  | NilBlock (failed_authors : list (Round * Author))
  | Genesis.
#[global] Instance BlockType_eq_dec : EqDecision BlockType.
Proof. solve_decision. Defined.

Record BlockData : Type := mkBlockData {
  bd_epoch : N;
  bd_round : Round;
  bd_timestamp_usecs : N;
  bd_quorum_cert : QuorumCert;
  bd_block_type : BlockType;
}.
#[global] Instance BlockData_eq_dec : EqDecision BlockData.
Proof. solve_decision. Defined.

Module BlockData.
Section ops.
Context (self : BlockData).

Definition author : option Author :=
  match bd_block_type self with Proposal _ author _ => Some author | _ => None end.
Definition parent_id : HashValue :=
  bi_id (QuorumCert.certified_block (bd_quorum_cert self)).
Definition payload : option Payload :=
  match bd_block_type self with Proposal payload _ _ => Some payload | _ => None end.
Definition is_genesis_block : bool :=
  match bd_block_type self with Genesis => true | _ => false end.
Definition is_nil_block : bool :=
  match bd_block_type self with NilBlock _ => true | _ => false end.
Definition failed_authors : option (list (Round * Author)) :=
  match bd_block_type self with
  | Proposal _ _ failed_authors => Some failed_authors
  | NilBlock failed_authors => Some failed_authors
  | Genesis => None
  end.
Definition is_reconfiguration_suffix : bool :=
  BlockInfo.has_reconfiguration (QuorumCert.certified_block (bd_quorum_cert self)).
End ops.

Definition new_genesis {E} (timestamp_usecs : N) (quorum_cert : QuorumCert)
    : outcome E BlockData :=
  epoch ← add64 (bi_epoch (QuorumCert.certified_block quorum_cert)) 1;
  Ok (mkBlockData epoch 0 timestamp_usecs quorum_cert Genesis).

Definition new_genesis_from_ledger_info {E} (li : LedgerInfo) : outcome E BlockData :=
  _ ← assert_ (LedgerInfo.ends_epoch li);
  let ancestor := mkBlockInfo (LedgerInfo.epoch li) 0 Hash.zero
                    (LedgerInfo.transaction_accumulator_hash li) (LedgerInfo.version li)
                    (LedgerInfo.timestamp_usecs li) None in
  let genesis_quorum_cert :=
    mkQuorumCert (mkVoteData ancestor ancestor)
      (mkLedgerInfoWithSignatures (mkLedgerInfo ancestor Hash.zero) ∅) in
  new_genesis (LedgerInfo.timestamp_usecs li) genesis_quorum_cert.

Definition new_nil (round : Round) (quorum_cert : QuorumCert)
    (failed_authors : list (Round * Author)) : BlockData :=
  mkBlockData (bi_epoch (QuorumCert.certified_block quorum_cert)) round
    (bi_timestamp_usecs (QuorumCert.certified_block quorum_cert)) quorum_cert
    (NilBlock failed_authors).

Definition new_proposal (payload : Payload) (author : Author)
    (failed_authors : list (Round * Author)) (round : Round) (timestamp_usecs : N)
    (quorum_cert : QuorumCert) : BlockData :=
  mkBlockData (bi_epoch (QuorumCert.certified_block quorum_cert)) round timestamp_usecs
    quorum_cert (Proposal payload author failed_authors).
End BlockData.

Record Block : Type := mkBlock {
  b_id : HashValue;
  b_block_data : BlockData;
  b_signature : option Signature;
}.
#[global] Instance Block_eq_dec : EqDecision Block.
Proof. solve_decision. Defined.

(** [BlockMetadata] (types/src/block_metadata.rs) and [Transaction]
    (types/src/transaction/mod.rs). *)
Record BlockMetadata : Type := mkBlockMetadata {
  bm_id : HashValue;
  bm_epoch : N;
  bm_round : N;
  bm_previous_block_votes : list bool;
  bm_proposer : AccountAddress;
  bm_failed_proposer_indices : list N;
  bm_timestamp_usecs : N;
}.

(** The write set of a genesis transaction is kept as its identity. *)
Inductive Transaction : Type :=
  | UserTransaction (txn : SignedTransaction)
  | GenesisTransaction (write_set : N)
  | BlockMetadataTransaction (metadata : BlockMetadata)
  | StateCheckpoint (id : HashValue).
#[global] Instance BlockMetadata_eq_dec : EqDecision BlockMetadata.
Proof. solve_decision. Defined.
#[global] Instance Transaction_eq_dec : EqDecision Transaction.
Proof. solve_decision. Defined.

Module Block.
Section accessors.
Context (self : Block).
Definition author : option Author := BlockData.author (b_block_data self).
Definition epoch : N := bd_epoch (b_block_data self).
Definition quorum_cert : QuorumCert := bd_quorum_cert (b_block_data self).
Definition parent_id : HashValue := bi_id (QuorumCert.certified_block quorum_cert).
Definition payload : option Payload := BlockData.payload (b_block_data self).
Definition round : Round := bd_round (b_block_data self).
Definition timestamp_usecs : N := bd_timestamp_usecs (b_block_data self).
Definition is_genesis_block : bool := BlockData.is_genesis_block (b_block_data self).
Definition is_nil_block : bool := BlockData.is_nil_block (b_block_data self).

Definition gen_block_info (executed_state_id : HashValue) (version : Version)
    (next_epoch_state : option EpochState) : BlockInfo :=
  mkBlockInfo epoch round (b_id self) executed_state_id version timestamp_usecs
    next_epoch_state.
End accessors.

Section constructors.
Context `{CryptoHash BlockData} `{Signable BlockData}.

Definition make_genesis_block_from_ledger_info {E} (li : LedgerInfo) : outcome E Block :=
  block_data ← BlockData.new_genesis_from_ledger_info li;
  Ok (mkBlock (hash block_data) block_data None).

Definition new_nil (round : Round) (quorum_cert : QuorumCert)
    (failed_authors : list (Round * Author)) : Block :=
  let block_data := BlockData.new_nil round quorum_cert failed_authors in
  mkBlock (hash block_data) block_data None.

Definition new_proposal_from_block_data_and_signature (block_data : BlockData)
    (signature : Signature) : Block :=
  mkBlock (hash block_data) block_data (Some signature).

Definition new_proposal_from_block_data (block_data : BlockData)
    (validator_signer : ValidatorSigner) : Block :=
  let signature := ValidatorSigner.sign validator_signer block_data in
  new_proposal_from_block_data_and_signature block_data signature.

Definition new_proposal (payload : Payload) (round : Round) (timestamp_usecs : N)
    (quorum_cert : QuorumCert) (validator_signer : ValidatorSigner)
    (failed_authors : list (Round * Author)) : Block :=
  let block_data := BlockData.new_proposal payload (vs_author validator_signer)
                      failed_authors round timestamp_usecs quorum_cert in
  new_proposal_from_block_data block_data validator_signer.

(** [Deserialize]: the id is recomputed, never read. *)
Definition deserialize (block_data : BlockData) (signature : option Signature) : Block :=
  mkBlock (hash block_data) block_data signature.
End constructors.

Section checks.
Context `{CryptoHash VoteData} `{Signable LedgerInfo} `{Signable BlockData}.

Definition validate_signature (self : Block) (validator : ValidatorVerifier) : result unit :=
  match bd_block_type (b_block_data self) with
  | Genesis => Err (Msg "We should not accept genesis from others")
  | NilBlock _ => QuorumCert.verify (quorum_cert self) validator
  | Proposal _ author _ =>
      signature ← ok_or (b_signature self) (Msg "Missing signature in Proposal");
      _ ← try_verify (Verifier.verify validator author (b_block_data self) signature);
      QuorumCert.verify (quorum_cert self) validator
  end.
End checks.

(** The loop over the failed authors, from [bound = parent.round()]. *)
Fixpoint check_failed_authors (bound succ_round : Round) (failed_authors : list (Round * Author))
    : result unit :=
  match failed_authors with
  | [] => Ok tt
  | (round, _) :: failed_authors =>
      _ ← ensure ((bound <? round) && (round <? succ_round))
            (Msg "Incorrect round in failed authors");
      check_failed_authors round succ_round failed_authors
  end.

Definition TIMEBOUND : N := 300000000.

(** [now] is [duration_since_epoch().as_micros() as u64]. *)
Definition verify_well_formed (self : Block) (now : N) : result unit :=
  _ ← ensure (negb (is_genesis_block self)) (Msg "We must not accept genesis from others");
  let parent := QuorumCert.certified_block (quorum_cert self) in
  _ ← ensure (bi_round parent <? round self)
        (Msg "Block must have a greater round than parent's block");
  _ ← ensure (bi_epoch parent =? epoch self)
        (Msg "block's parent should be in the same epoch");
  _ ← (if BlockInfo.has_reconfiguration parent then
         empty ← match payload self with None => Ok true | Some p => Payload.is_empty p end;
         ensure empty (Msg "Reconfiguration suffix should not carry payload")
       else Ok tt);
  _ ← match BlockData.failed_authors (b_block_data self) with
      | Some failed_authors =>
          succ_round ← add64 (round self) (if is_nil_block self then 1 else 0);
          next_parent ← add64 (bi_round parent) 1;
          match checked_sub succ_round next_parent with
          | None => Err (Msg "Block round is smaller than block's parent round")
          | Some skipped_rounds =>
              _ ← ensure (N.of_nat (length failed_authors) <=? skipped_rounds)
                    (Msg "Block has more failed authors than missed rounds");
              check_failed_authors (bi_round parent) succ_round failed_authors
          end
      | None => Ok tt
      end;
  _ ← (if is_nil_block self || BlockInfo.has_reconfiguration parent then
         ensure (timestamp_usecs self =? bi_timestamp_usecs parent)
           (Msg "Nil/reconfig suffix block must have same timestamp as parent")
       else
         _ ← ensure (bi_timestamp_usecs parent <? timestamp_usecs self)
               (Msg "Blocks must have strictly increasing timestamps");
         ensure (timestamp_usecs self <=? saturating_add now TIMEBOUND)
           (Msg "Blocks must not be too far in the future"));
  ensure (negb (QuorumCert.ends_epoch (quorum_cert self)))
    (Msg "Block cannot be proposed in an epoch that has ended").

(** ** Execution input *)
Definition voters_to_bitmap {A} (validators : list AccountAddress) (voters : gmap N A)
    : list bool :=
  (fun address => bool_decide (is_Some (voters !! address))) <$> validators.

Fixpoint failed_authors_to_indices {E} (validators : list AccountAddress)
    (failed_authors : list (Round * Author)) : outcome E (list N) :=
  match failed_authors with
  | [] => Ok []
  | (_, failed_author) :: failed_authors =>
      index ← expect (fst <$> list_find (eq failed_author) validators);
      _ ← assert_ (N.of_nat index <? 2 ^ 32);
      indices ← failed_authors_to_indices validators failed_authors;
      Ok (N.of_nat index :: indices)
  end.

Definition new_block_metadata {E} (self : Block) (validators : list AccountAddress)
    : outcome E BlockMetadata :=
  indices ← match BlockData.failed_authors (b_block_data self) with
            | None => Ok []
            | Some failed_authors => failed_authors_to_indices validators failed_authors
            end;
  Ok (mkBlockMetadata (b_id self) (epoch self) (round self)
        (voters_to_bitmap validators (lis_signatures (qc_signed_ledger_info (quorum_cert self))))
        (default 0 (author self)) indices (timestamp_usecs self)).

Definition transactions_to_execute {E} (self : Block) (validators : list AccountAddress)
    : outcome E (list Transaction) :=
  metadata ← new_block_metadata self validators;
  txns ← Payload.into_iter (default Payload.new_empty (payload self));
  Ok ([BlockMetadataTransaction metadata] ++ (UserTransaction <$> txns)
      ++ [StateCheckpoint (b_id self)]).
End Block.

(** ** VoteProposal *)
Record VoteProposal : Type := mkVoteProposal {
  vp_accumulator_extension_proof : AccumulatorExtensionProof;
  vp_block : Block;
  vp_next_epoch_state : option EpochState;
  vp_decoupled_execution : bool;
}.

Module VoteProposal.
Section ops.
Context (self : VoteProposal).

Definition vote_data_ordering_only : VoteData :=
  mkVoteData
    (Block.gen_block_info (vp_block self) ACCUMULATOR_PLACEHOLDER_HASH 0
       (vp_next_epoch_state self))
    (QuorumCert.certified_block (Block.quorum_cert (vp_block self))).

Definition vote_data_with_extension_proof (new_tree : InMemoryAccumulator) : VoteData :=
  mkVoteData
    (Block.gen_block_info (vp_block self) (root_hash new_tree) (Acc.version new_tree)
       (vp_next_epoch_state self))
    (QuorumCert.certified_block (Block.quorum_cert (vp_block self))).

Definition gen_vote_data `{MerkleHasher} : result VoteData :=
  if vp_decoupled_execution self then Ok vote_data_ordering_only
  else
    new_tree ← AccumulatorExtensionProof_verify (vp_accumulator_extension_proof self)
      (bi_executed_state_id (QuorumCert.certified_block (Block.quorum_cert (vp_block self))));
    Ok (vote_data_with_extension_proof new_tree).
End ops.
End VoteProposal.

(** ** SyncInfo *)
Record SyncInfo : Type := mkSyncInfo {
  si_highest_quorum_cert : QuorumCert;
  si_highest_ordered_cert : option QuorumCert;
  si_highest_commit_cert : QuorumCert;
  si_highest_2chain_timeout_cert : option TwoChainTimeoutCertificate;
}.

Module SyncInfo.
Definition new_decoupled (highest_quorum_cert highest_ordered_cert highest_commit_cert : QuorumCert)
    (highest_2chain_timeout_cert : option TwoChainTimeoutCertificate) : SyncInfo :=
  let highest_2chain_timeout_cert :=
    tc ← highest_2chain_timeout_cert;
    if bi_round (QuorumCert.certified_block highest_quorum_cert) <? TwoChainTimeoutCertificate.round tc
    then Some tc else None in
  let highest_ordered_cert :=
    if bool_decide (highest_ordered_cert <> highest_quorum_cert)
    then Some highest_ordered_cert else None in
  mkSyncInfo highest_quorum_cert highest_ordered_cert highest_commit_cert
    highest_2chain_timeout_cert.

Definition new (highest_quorum_cert highest_ordered_cert : QuorumCert)
    (highest_2chain_timeout_cert : option TwoChainTimeoutCertificate) : SyncInfo :=
  let highest_commit_cert := highest_ordered_cert in
  new_decoupled highest_quorum_cert highest_ordered_cert highest_commit_cert
    highest_2chain_timeout_cert.

Section ops.
Context (self : SyncInfo).

Definition highest_ordered_cert : QuorumCert :=
  default (si_highest_quorum_cert self) (si_highest_ordered_cert self).
Definition highest_certified_round : Round :=
  bi_round (QuorumCert.certified_block (si_highest_quorum_cert self)).
Definition highest_timeout_round : Round :=
  from_option TwoChainTimeoutCertificate.round 0 (si_highest_2chain_timeout_cert self).
Definition highest_ordered_round : Round :=
  bi_round (QuorumCert.commit_info highest_ordered_cert).
Definition highest_commit_round : Round :=
  bi_round (QuorumCert.commit_info (si_highest_commit_cert self)).
Definition highest_round : Round := N.max highest_certified_round highest_timeout_round.
Definition epoch : N := bi_epoch (QuorumCert.certified_block (si_highest_quorum_cert self)).

Context `{CryptoHash VoteData} `{Signable LedgerInfo} `{Signable TimeoutSigningRepr}.

Definition verify (validator : ValidatorVerifier) : result unit :=
  let epoch := bi_epoch (QuorumCert.certified_block (si_highest_quorum_cert self)) in
  _ ← ensure (epoch =? bi_epoch (QuorumCert.certified_block highest_ordered_cert))
        (Msg "Multi epoch in SyncInfo - HOC and HQC");
  _ ← match si_highest_2chain_timeout_cert self with
      | Some tc => ensure (epoch =? TwoChainTimeoutCertificate.epoch tc)
                     (Msg "Multi epoch in SyncInfo - TC and HQC")
      | None => Ok tt
      end;
  _ ← ensure (bi_round (QuorumCert.certified_block highest_ordered_cert)
              <=? bi_round (QuorumCert.certified_block (si_highest_quorum_cert self)))
        (Msg "HQC has lower round than HOC");
  _ ← ensure (highest_commit_round <=? bi_round (QuorumCert.certified_block highest_ordered_cert))
        (Msg "HOC has lower round than HLI");
  _ ← ensure (bool_decide (QuorumCert.commit_info highest_ordered_cert <> BlockInfo.empty))
        (Msg "HOC has no committed block");
  _ ← ensure (bool_decide (QuorumCert.commit_info (si_highest_commit_cert self) <> BlockInfo.empty))
        (Msg "HLI has empty commit info");
  with_context "Fail to verify SyncInfo"
    (_ ← QuorumCert.verify (si_highest_quorum_cert self) validator;
     _ ← match si_highest_ordered_cert self with
         | Some cert => QuorumCert.verify cert validator
         | None => Ok tt
         end;
     _ ← (if 0 <? bi_round (QuorumCert.commit_info (si_highest_commit_cert self))
          then QuorumCert.verify (si_highest_commit_cert self) validator else Ok tt);
     match si_highest_2chain_timeout_cert self with
     | Some tc => TwoChainTimeoutCertificate.verify tc validator
     | None => Ok tt
     end).
End ops.

Definition has_newer_certificates (self other : SyncInfo) : bool :=
  (highest_certified_round other <? highest_certified_round self)
  || (highest_timeout_round other <? highest_timeout_round self)
  || (highest_ordered_round other <? highest_ordered_round self)
  || (highest_commit_round other <? highest_commit_round self).
End SyncInfo.

(** ** ProposalMsg *)
Record ProposalMsg : Type := mkProposalMsg { pm_proposal : Block; pm_sync_info : SyncInfo }.

Module ProposalMsg.
Definition epoch (self : ProposalMsg) : N := Block.epoch (pm_proposal self).

Definition verify_well_formed (self : ProposalMsg) (now : N) : result unit :=
  let proposal := pm_proposal self in
  let sync_info := pm_sync_info self in
  _ ← ensure (negb (Block.is_nil_block proposal)) (Msg "Proposal for a NIL block");
  _ ← with_context "Fail to verify ProposalMsg's block" (Block.verify_well_formed proposal now);
  _ ← ensure (0 <? Block.round proposal) (Msg "Proposal has an incorrect round of 0");
  _ ← ensure (Block.epoch proposal =? SyncInfo.epoch sync_info)
        (Msg "ProposalMsg has different epoch number from SyncInfo");
  _ ← ensure (Block.parent_id proposal
              =? bi_id (QuorumCert.certified_block (si_highest_quorum_cert sync_info)))
        (Msg "Proposal HQC in SyncInfo certifies another block than the parent");
  previous_round ← ok_or (checked_sub (Block.round proposal) 1) (Msg "proposal round overflowed!");
  let highest_certified_round :=
    N.max (bi_round (QuorumCert.certified_block (Block.quorum_cert proposal)))
          (SyncInfo.highest_timeout_round sync_info) in
  _ ← ensure (previous_round =? highest_certified_round)
        (Msg "Proposal does not have a certified round");
  ensure (bool_decide (is_Some (Block.author proposal))) (Msg "Proposal does not define an author").

Definition verify `{CryptoHash VoteData} `{Signable LedgerInfo} `{Signable BlockData}
    `{Signable TimeoutSigningRepr} (self : ProposalMsg) (validator : ValidatorVerifier) (now : N)
    : result unit :=
  _ ← Block.validate_signature (pm_proposal self) validator;
  _ ← match si_highest_2chain_timeout_cert (pm_sync_info self) with
      | Some tc => TwoChainTimeoutCertificate.verify tc validator
      | None => Ok tt
      end;
  verify_well_formed self now.

Definition proposer {E} (self : ProposalMsg) : outcome E Author :=
  expect (Block.author (pm_proposal self)).
End ProposalMsg.

(** ** VoteMsg *)
Record VoteMsg : Type := mkVoteMsg { vm_vote : Vote; vm_sync_info : SyncInfo }.

Module VoteMsg.
Definition epoch (self : VoteMsg) : N := Vote.epoch (vm_vote self).
Definition proposed_block_id (self : VoteMsg) : HashValue :=
  bi_id (vd_proposed (v_vote_data (vm_vote self))).

Definition verify `{CryptoHash VoteData} `{Signable LedgerInfo} `{Signable TimeoutSigningRepr}
    (self : VoteMsg) (validator : ValidatorVerifier) : result unit :=
  let vote := vm_vote self in
  let sync_info := vm_sync_info self in
  _ ← ensure (Vote.epoch vote =? SyncInfo.epoch sync_info) (Msg "VoteMsg has different epoch");
  _ ← ensure (SyncInfo.highest_round sync_info <? bi_round (vd_proposed (v_vote_data vote)))
        (Msg "Vote Round should be higher than SyncInfo");
  _ ← match v_two_chain_timeout vote with
      | Some (timeout, _) =>
          ensure (TwoChainTimeout.hqc_round timeout <=? SyncInfo.highest_certified_round sync_info)
            (Msg "2-chain Timeout hqc should be less or equal than the sync info hqc")
      | None => Ok tt
      end;
  Vote.verify vote validator.
End VoteMsg.
