(* ===== verification/Storage.v ===== *)
(** * The persisted state of safety rules

    The key-value storage interface of secure/storage (the [KVStorage] trait,
    the in-memory engine that implements it), and [PersistentSafetyStorage]
    (consensus/safety-rules/src/persistent_safety_storage.rs) on top of it. *)

From S2P Require Import Prelude Crypto Errors Position Accumulator Verifier Ledger ConsensusTypes.

(** ** Secure storage *)
Inductive StorageError : Type :=
  | EntropyError (error : string)
  | StorageInternalError (error : string)
  | KeyAlreadyExists (key : string)
  | KeyNotSet (key : string)
  | PermissionDenied
  | StorageSerializationError (error : string)
  | KeyVersionNotFound (key version : string).
#[global] Instance StorageError_eq_dec : EqDecision StorageError.
Proof. solve_decision. Defined.

(** The keys safety rules uses. *)
Inductive StorageKey : Type := SAFETY_DATA | WAYPOINT | OWNER_ACCOUNT | CONSENSUS_KEY.
#[global] Instance StorageKey_eq_dec : EqDecision StorageKey.
Proof. solve_decision. Defined.

Definition key_name (key : StorageKey) : string :=
  match key with
  | SAFETY_DATA => "safety_data"
  | WAYPOINT => "waypoint"
  | OWNER_ACCOUNT => "owner_account"
  | CONSENSUS_KEY => "consensus"
  end.

(** A serialized value: the JSON document of one of the types that are stored. *)
Inductive StoredValue : Type :=
  | StoredSafetyData (data : SafetyData)
  | StoredWaypoint (waypoint : Waypoint)
  | StoredAccount (account : AccountAddress)
  | StoredPrivateKey (key : PrivateKey).
#[global] Instance StoredValue_eq_dec : EqDecision StoredValue.
Proof. solve_decision. Defined.

(** [serde_json::from_slice::<T>]: [None] when the document is not one of a [T]. *)
Class Deserialize (T : Type) : Type := deserialize : StoredValue -> option T.
#[global] Instance deserialize_safety_data : Deserialize SafetyData := fun v =>
  match v with StoredSafetyData data => Some data | _ => None end.
#[global] Instance deserialize_waypoint : Deserialize Waypoint := fun v =>
  match v with StoredWaypoint waypoint => Some waypoint | _ => None end.
Definition deserialize_account : Deserialize AccountAddress := fun v =>
  match v with StoredAccount account => Some account | _ => None end.
Definition deserialize_private_key : Deserialize PrivateKey := fun v =>
  match v with StoredPrivateKey key => Some key | _ => None end.
(** A [Result] is an object with the single field ["Ok"] or ["Err"]; the document
    of a [SafetyData] has the fields of the struct, and the other stored values
    are strings. *)
#[global] Instance deserialize_result {E A} : Deserialize (outcome E A) := fun _ => None.

Class KVStorage (Store : Type) : Type := {
  kv_get : Store -> StorageKey -> outcome StorageError StoredValue;
  kv_set : Store -> StorageKey -> StoredValue -> outcome StorageError unit * Store;
}.

(** What a storage engine promises: the values of a ghost content are the only
    ones [get] ever returns, a successful [set] changes its own key, and a failed
    one changes nothing.  Either may fail at any time. *)
Class KVStorageLaws (Store : Type) `{KVStorage Store} : Type := {
  content : Store -> StorageKey -> option StoredValue;
  get_content s k v : kv_get s k = Ok v -> content s k = Some v;
  set_content s s' k v u :
    kv_set s k v = (Ok u, s') ->
    content s' k = Some v /\ forall k', k' <> k -> content s' k' = content s k';
  set_failed s s' k v r :
    kv_set s k v = (r, s') -> r <> Ok tt -> forall k', content s' k' = content s k';
}.

(** An engine that does not fail. *)
Class KVStorageReliable (Store : Type) `{KVStorageLaws Store} : Prop := {
  get_reliable s k v : content s k = Some v -> kv_get s k = Ok v;
  set_reliable s k v : (kv_set s k v).1 = Ok tt;
}.

(** [get::<T>] with its deserialization. *)
Definition get `{KVStorage Store} {T} (de : Deserialize T) (self : Store) (key : StorageKey)
    : outcome StorageError T :=
  v ← kv_get self key; ok_or (de v) (StorageSerializationError (key_name key)).

(** *** [InMemoryStorage] (secure/storage/src/in_memory.rs) *)
Record InMemoryStorage : Type := mkInMemoryStorage { data : gmap string StoredValue }.

Module InMemoryStorage.
Definition new : InMemoryStorage := mkInMemoryStorage ∅.
Definition get (self : InMemoryStorage) (key : StorageKey) : outcome StorageError StoredValue :=
  ok_or (data self !! key_name key) (KeyNotSet (key_name key)).
Definition set (self : InMemoryStorage) (key : StorageKey) (value : StoredValue)
    : outcome StorageError unit * InMemoryStorage :=
  (Ok tt, mkInMemoryStorage (<[ key_name key := value ]> (data self))).
End InMemoryStorage.

#[global] Instance InMemoryStorage_KVStorage : KVStorage InMemoryStorage := {|
  kv_get := InMemoryStorage.get;
  kv_set := InMemoryStorage.set;
|}.

Lemma key_name_inj k k' : key_name k = key_name k' -> k = k'.
Proof. by destruct k, k'. Qed.

#[global] Program Instance InMemoryStorage_laws : KVStorageLaws InMemoryStorage := {|
  content := fun s k => data s !! key_name k;
|}.
Next Obligation. intros s k v. apply ok_or_Ok. Qed.
Next Obligation.
  intros s s' k v u [= <- <-]. simpl. split; [apply lookup_insert_eq|].
  intros k' Hk. apply lookup_insert_ne. intros He%key_name_inj. congruence.
Qed.
Next Obligation. intros s s' k v r [= <- <-]. done. Qed.
#[global] Instance InMemoryStorage_reliable : KVStorageReliable InMemoryStorage.
Proof. split; [|done]. intros s k v. apply ok_or_Ok. Qed.

(** ** Errors of safety rules (consensus/safety-rules/src/error.rs)

    The rendered causes are kept as the errors they render. *)
Inductive Cause : Type :=
  | CauseAny (e : AnyError)
  | CauseStorage (e : StorageError)
  | CauseLedgerInfo (li : LedgerInfo)
  | CauseBlockInfo (bi : BlockInfo)
  | CauseAccount (account : AccountAddress).
#[global] Instance Cause_eq_dec : EqDecision Cause.
Proof. solve_decision. Defined.

Inductive Error : Type :=
  | IncorrectEpoch (epoch expected : N)
  | IncorrectRound (round : N)
  | IncorrectLastVotedRound (round last_voted_round : N)
  | IncorrectPreferredRound (round preferred_round : N)
  | InvalidAccumulatorExtension (cause : Cause)
  | InvalidEpochChangeProof (cause : Cause)
  | InternalError (cause : Cause)
  | InvalidLedgerInfo
  | InvalidProposal (cause : Cause)
  | InvalidQuorumCertificate (cause : Cause)
  | NotInitialized (what : string)
  | SecureStorageMissingDataError (cause : Cause)
  | SecureStorageUnexpectedError (cause : Cause)
  | SerializationError (cause : Cause)
  | ValidatorKeyNotFound (cause : Cause)
  | ValidatorNotInSet (cause : Cause)
  | VoteProposalSignatureNotFound
  | NotSafeToVote (round qc_round tc_round hqc_round : N)
  | NotSafeToTimeout (round qc_round tc_round one_chain_round : N)
  | InvalidTimeoutCertificate (cause : Cause)
  | InconsistentExecutionResult (ordered executed : Cause)
  | InvalidOrderedLedgerInfo (cause : Cause)
  | WaypointOutOfDate (previous updated current_epoch provided_epoch : N)
  | InvalidTimeout (cause : Cause).
#[global] Instance Error_eq_dec : EqDecision Error.
Proof. solve_decision. Defined.

(** [From<aptos_secure_storage::Error>], which panics on a permission error. *)
Definition from_storage_error {A} (error : StorageError) : outcome Error A :=
  match error with
  | PermissionDenied => Panic
  | KeyVersionNotFound _ _ | KeyNotSet _ => Err (SecureStorageMissingDataError (CauseStorage error))
  | _ => Err (SecureStorageUnexpectedError (CauseStorage error))
  end.

(** [?] on a storage result. *)
Definition try_storage {A} (m : outcome StorageError A) : outcome Error A :=
  match m with Ok a => Ok a | Err e => from_storage_error e | Panic => Panic end.

Lemma try_storage_Ok {A} (m : outcome StorageError A) a : try_storage m = Ok a <-> m = Ok a.
Proof. destruct m as [|[]|]; simpl; naive_solver. Qed.

(** ** [PersistentSafetyStorage] *)
Record PersistentSafetyStorage (Store : Type) : Type := mkPersistentSafetyStorage {
  enable_cached_safety_data : bool;
  cached_safety_data : option SafetyData;
  internal_store : Store;
}.
Arguments mkPersistentSafetyStorage {Store}.
Arguments enable_cached_safety_data {Store}.
Arguments cached_safety_data {Store}.
Arguments internal_store {Store}.

Module PersistentSafetyStorage.
Section ops.
Context `{KVStorage Store} `{KeyPair}.
Abbreviation PSS := (PersistentSafetyStorage Store) (only parsing).

Definition set_cache (self : PSS) (c : option SafetyData) : PSS :=
  mkPersistentSafetyStorage (enable_cached_safety_data self) c (internal_store self).
Definition set_store (self : PSS) (s : Store) : PSS :=
  mkPersistentSafetyStorage (enable_cached_safety_data self) (cached_safety_data self) s.

Definition new (internal_store : Store) (enable_cached_safety_data : bool) : PSS :=
  mkPersistentSafetyStorage enable_cached_safety_data None internal_store.

Definition author (self : PSS) : outcome Error Author :=
  try_storage (get deserialize_account (internal_store self) OWNER_ACCOUNT).

Definition consensus_key_for_version (version : PublicKey) (self : PSS)
    : outcome Error PrivateKey :=
  key ← try_storage (get deserialize_private_key (internal_store self) CONSENSUS_KEY);
  if negb (public_key key =? version)
  then Err (SecureStorageMissingDataError (CauseAny (Msg "PrivateKey not found")))
  else Ok key.

(** Without the cache, [return store.get(SAFETY_DATA).map(|v| v.value)?] reads the
    value at the type the function returns, a [Result]. *)
Definition safety_data : method PSS Error SafetyData := fun self =>
  if negb (enable_cached_safety_data self) then
    (match try_storage (get (@deserialize_result Error SafetyData)
                          (internal_store self) SAFETY_DATA) with
     | Ok r => r
     | Err e => Err e
     | Panic => Panic
     end, self)
  else
    match cached_safety_data self with
    | Some cached_safety_data => (Ok cached_safety_data, self)
    | None =>
        match try_storage (get deserialize_safety_data (internal_store self) SAFETY_DATA) with
        | Ok safety_data => (Ok safety_data, set_cache self (Some safety_data))
        | Err e => (Err e, self)
        | Panic => (Panic, self)
        end
    end.

Definition set_safety_data (data : SafetyData) : method PSS Error unit := fun self =>
  match kv_set (internal_store self) SAFETY_DATA (StoredSafetyData data) with
  | (Ok _, s) => (Ok tt, set_cache (set_store self s) (Some data))
  | (Err error, s) =>
      (Err (SecureStorageUnexpectedError (CauseStorage error)), set_cache (set_store self s) None)
  | (Panic, s) => (Panic, set_store self s)
  end.

Definition waypoint (self : PSS) : outcome Error Waypoint :=
  try_storage (get deserialize_waypoint (internal_store self) WAYPOINT).

Definition set_waypoint (waypoint : Waypoint) : method PSS Error unit := fun self =>
  let '(r, s) := kv_set (internal_store self) WAYPOINT (StoredWaypoint waypoint) in
  (try_storage r, set_store self s).

Definition initialize_keys_and_accounts (author : Author) (consensus_private_key : PrivateKey)
    : method Store Error unit := fun internal_store =>
  let '(result, s) := kv_set internal_store CONSENSUS_KEY (StoredPrivateKey consensus_private_key) in
  match result with
  | Err (KeyAlreadyExists _) => (Ok tt, s)
  | Panic => (Panic, s)
  | _ =>
      let '(r, s') := kv_set s OWNER_ACCOUNT (StoredAccount author) in
      (try_storage r, s')
  end.

(** [expect] on a [Result]: an error is a panic. *)
Definition expect_ok {S A} (m : method S Error A) : method S Error A := fun s =>
  match m s with (Err _, s') => (Panic, s') | r => r end.

Definition initialize (internal_store : Store) (author : Author)
    (consensus_private_key : PrivateKey) (waypoint : Waypoint)
    (enable_cached_safety_data : bool) : outcome Error PSS :=
  match expect_ok (initialize_keys_and_accounts author consensus_private_key) internal_store with
  | (Ok _, s) =>
      let safety_data := mkSafetyData 1 0 0 0 None in
      let self := mkPersistentSafetyStorage enable_cached_safety_data (Some safety_data) s in
      match (_ ← expect_ok (set_safety_data safety_data); expect_ok (set_waypoint waypoint)) self with
      | (Ok _, self) => Ok self
      | (Err e, _) => Err e
      | (Panic, _) => Panic
      end
  | (Err e, _) => Err e
  | (Panic, _) => Panic
  end.
End ops.
End PersistentSafetyStorage.

(** ** The cache is coherent *)
Section coherence.
Context `{KVStorageLaws Store} `{KeyPair}.
Abbreviation PSS := (PersistentSafetyStorage Store) (only parsing).

(** The safety data that survive a crash. *)
Definition persisted (self : PSS) : option SafetyData :=
  v ← content (internal_store self) SAFETY_DATA; deserialize_safety_data v.

(** What is cached is what is persisted. *)
Definition coherent (self : PSS) : Prop :=
  forall sd, cached_safety_data self = Some sd -> persisted self = Some sd.

Lemma new_coherent s b : coherent (PersistentSafetyStorage.new s b).
Proof. by intros sd. Qed.

(** Reading returns the persisted safety data, and changes none. *)
Lemma safety_data_spec (self self' : PSS) r :
  coherent self -> PersistentSafetyStorage.safety_data self = (r, self') ->
  coherent self' /\ persisted self' = persisted self /\
  internal_store self' = internal_store self /\
  (forall sd, r = Ok sd -> persisted self = Some sd).
Proof.
  unfold PersistentSafetyStorage.safety_data. intros Hco.
  destruct (enable_cached_safety_data self); simpl.
  2: { intros [= <- <-]. split_and!; [done..|]. unfold get.
       destruct (kv_get _ _) as [v|[]|]; simpl; done. }
  destruct (cached_safety_data self) as [sd|] eqn:Hc.
  { intros [= <- <-]. naive_solver. }
  unfold get. destruct (kv_get _ _) as [v|e|] eqn:Hg; simpl.
  - assert (persisted self = deserialize_safety_data v) as Hp.
    { unfold persisted. by rewrite (get_content _ _ _ Hg). }
    destruct (deserialize_safety_data v) as [sd|] eqn:Hd; simpl.
    + intros [= <- <-]. split_and!; [|done|done|naive_solver].
      intros sd'. simpl. intros [= ->]. exact Hp.
    + intros [= <- <-]. split_and!; done.
  - destruct e; intros [= <- <-]; done.
  - intros [= <- <-]. done.
Qed.

Lemma persisted_after_set (s s' : Store) v u b c :
  kv_set s SAFETY_DATA (StoredSafetyData v) = (Ok u, s') ->
  persisted (mkPersistentSafetyStorage b c s') = Some v.
Proof.
  intros Hs. apply set_content in Hs as [Hs _].
  unfold persisted. simpl. by rewrite Hs.
Qed.

Lemma set_safety_data_spec (self self' : PSS) sd r :
  coherent self -> PersistentSafetyStorage.set_safety_data sd self = (r, self') ->
  coherent self' /\
  (forall u, r = Ok u -> persisted self' = Some sd) /\
  (r <> Ok tt -> persisted self' = persisted self) /\
  (forall k, k <> SAFETY_DATA ->
     content (internal_store self') k = content (internal_store self) k).
Proof.
  unfold PersistentSafetyStorage.set_safety_data. intros Hco.
  destruct (kv_set _ _ _) as [[u|e|] s] eqn:Hs; intros [= <- <-]; simpl.
  - split_and!.
    + intros sd' [= ->]. by eapply persisted_after_set.
    + intros _ _. by eapply persisted_after_set.
    + done.
    + apply set_content in Hs as [_ Hs]. done.
  - pose proof (set_failed _ _ _ _ _ Hs) as Hf.
    split_and!; [done..| |intros; by apply Hf]. intros _. unfold persisted. simpl. by rewrite Hf.
  - pose proof (set_failed _ _ _ _ _ Hs) as Hf.
    assert (persisted (PersistentSafetyStorage.set_store self s) = persisted self) as Hp
      by (unfold persisted; simpl; by rewrite Hf).
    split_and!; [|done|done|intros; by apply Hf].
    intros sd' Hc. rewrite Hp. by apply Hco.
Qed.

Lemma set_waypoint_spec (self self' : PSS) w r :
  coherent self -> PersistentSafetyStorage.set_waypoint w self = (r, self') ->
  coherent self' /\ persisted self' = persisted self.
Proof.
  unfold PersistentSafetyStorage.set_waypoint. intros Hco.
  destruct (kv_set _ _ _) as [r' s] eqn:Hs. intros [= <- <-].
  assert (persisted (PersistentSafetyStorage.set_store self s) = persisted self) as Hp.
  { unfold persisted. simpl. destruct r' as [u|e|].
    - apply set_content in Hs as [_ Hs]. by rewrite Hs.
    - by rewrite (set_failed _ _ _ _ _ Hs).
    - by rewrite (set_failed _ _ _ _ _ Hs). }
  split; [|exact Hp]. intros sd Hc. rewrite Hp. by apply Hco.
Qed.
End coherence.
