(* ===== verification/SafetyRules.v ===== *)
(** * Safety rules (consensus/safety-rules/src)

    The only component that holds the consensus private key.  [SafetyRules]
    decides whether to sign votes, timeouts, proposals and commit votes, and
    persists what it must remember (safety_rules.rs, safety_rules_2chain.rs,
    consensus_state.rs). *)

From S2P Require Import Prelude Crypto Errors Position Accumulator Verifier Ledger ConsensusTypes Blocks Storage.

Record ConsensusState : Type := mkConsensusState {
  cs_safety_data : SafetyData;
  cs_waypoint : Waypoint;
  in_validator_set : bool;
}.

Record SafetyRules (Store : Type) : Type := mkSafetyRules {
  persistent_storage : PersistentSafetyStorage Store;
  validator_signer : option ValidatorSigner;
  epoch_state : option EpochState;
}.
Arguments mkSafetyRules {Store}.
Arguments persistent_storage {Store}.
Arguments validator_signer {Store}.
Arguments epoch_state {Store}.

(** The cryptography safety rules relies on, as one bundle. *)
Class ConsensusCrypto : Type := {
  #[global] cc_key_pair :: KeyPair;
  #[global] cc_merkle :: MerkleHasher;
  #[global] cc_hash_vote_data :: CryptoHash VoteData;
  #[global] cc_hash_waypoint :: CryptoHash Ledger2WaypointConverter;
  #[global] cc_sign_ledger_info :: Signable LedgerInfo;
  #[global] cc_sign_block_data :: Signable BlockData;
  #[global] cc_sign_timeout :: Signable TimeoutSigningRepr;
}.

Definition next_round (round : Round) : outcome Error Round :=
  ok_or (checked_add round 1) (IncorrectRound round).

Inductive SafetyRulesInput : Type :=
  | InConsensusState
  | InInitialize (proof : EpochChangeProof)
  | InSignProposal (block_data : BlockData)
  | InSignTimeoutWithQC (timeout : TwoChainTimeout) (maybe_tc : option TwoChainTimeoutCertificate)
  | InConstructAndSignVoteTwoChain (vote_proposal : VoteProposal)
      (maybe_tc : option TwoChainTimeoutCertificate)
  | InSignCommitVote (ledger_info : LedgerInfoWithSignatures) (new_ledger_info : LedgerInfo).

Inductive SafetyRulesOutput : Type :=
  | OutConsensusState (state : ConsensusState)
  | OutUnit
  | OutSignature (signature : Signature)
  | OutVote (vote : Vote).

Module SafetyRules.
Section ops.
Context `{KVStorage Store} `{ConsensusCrypto}.
Abbreviation SR := (SafetyRules Store) (only parsing).

Definition new (persistent_storage : PersistentSafetyStorage Store) : SR :=
  mkSafetyRules persistent_storage None None.

(** A method of [self.persistent_storage]. *)
Definition on_storage {A} (m : method (PersistentSafetyStorage Store) Error A)
    : method SR Error A := fun self =>
  let '(r, ps) := m (persistent_storage self) in
  (r, mkSafetyRules ps (validator_signer self) (epoch_state self)).
Definition read_storage {A} (f : PersistentSafetyStorage Store -> outcome Error A)
    : method SR Error A := gets (fun self => f (persistent_storage self)).

Definition set_validator_signer (s : option ValidatorSigner) (self : SR) : SR :=
  mkSafetyRules (persistent_storage self) s (epoch_state self).
Definition set_epoch_state (es : option EpochState) (self : SR) : SR :=
  mkSafetyRules (persistent_storage self) (validator_signer self) es.

Definition signer (self : SR) : outcome Error ValidatorSigner :=
  ok_or (validator_signer self) (NotInitialized "validator_signer").

Definition get_epoch_state (self : SR) : outcome Error EpochState :=
  ok_or (epoch_state self) (NotInitialized "epoch_state").

Definition sign `{Signable T} (message : T) (self : SR) : outcome Error Signature :=
  signer ← signer self; Ok (ValidatorSigner.sign signer message).

(** The mutable [safety_data] argument is passed in and out. *)
Definition observe_qc (qc : QuorumCert) (safety_data : SafetyData) : bool * SafetyData :=
  let one_chain := bi_round (QuorumCert.certified_block qc) in
  let two_chain := bi_round (QuorumCert.parent_block qc) in
  let '(updated, safety_data) :=
    if sd_one_chain_round safety_data <? one_chain
    then (true, mkSafetyData (sd_epoch safety_data) (sd_last_voted_round safety_data)
                  (sd_preferred_round safety_data) one_chain (sd_last_vote safety_data))
    else (false, safety_data) in
  if sd_preferred_round safety_data <? two_chain
  then (true, mkSafetyData (sd_epoch safety_data) (sd_last_voted_round safety_data)
                two_chain (sd_one_chain_round safety_data) (sd_last_vote safety_data))
  else (updated, safety_data).

Definition verify_and_update_preferred_round (quorum_cert : QuorumCert)
    (safety_data : SafetyData) : outcome Error (bool * SafetyData) :=
  let preferred_round := sd_preferred_round safety_data in
  let one_chain_round := bi_round (QuorumCert.certified_block quorum_cert) in
  _ ← ensure (negb (one_chain_round <? preferred_round))
        (IncorrectPreferredRound one_chain_round preferred_round);
  Ok (observe_qc quorum_cert safety_data).

Definition verify_author (author : option Author) (self : SR) : outcome Error unit :=
  signer ← signer self;
  author ← ok_or author (InvalidProposal (CauseAny (Msg "No author found in the proposal")));
  ensure (vs_author signer =? author)
    (InvalidProposal (CauseAny (Msg "Proposal author is not validator signer!"))).

Definition verify_epoch (epoch : N) (safety_data : SafetyData) : outcome Error unit :=
  ensure (epoch =? sd_epoch safety_data) (IncorrectEpoch epoch (sd_epoch safety_data)).

Definition verify_and_update_last_vote_round (round : Round) (safety_data : SafetyData)
    : outcome Error SafetyData :=
  _ ← ensure (negb (round <=? sd_last_voted_round safety_data))
        (IncorrectLastVotedRound round (sd_last_voted_round safety_data));
  Ok (mkSafetyData (sd_epoch safety_data) round (sd_preferred_round safety_data)
        (sd_one_chain_round safety_data) (sd_last_vote safety_data)).

Definition verify_qc (qc : QuorumCert) (self : SR) : outcome Error unit :=
  epoch_state ← get_epoch_state self;
  map_err (fun e => InvalidQuorumCertificate (CauseAny e))
    (QuorumCert.verify qc (es_verifier epoch_state)).

Definition verify_tc (tc : TwoChainTimeoutCertificate) (self : SR) : outcome Error unit :=
  epoch_state ← get_epoch_state self;
  map_err (fun e => InvalidTimeoutCertificate (CauseAny e))
    (TwoChainTimeoutCertificate.verify tc (es_verifier epoch_state)).

Definition verify_optional_tc (timeout_cert : option TwoChainTimeoutCertificate) (self : SR)
    : outcome Error unit :=
  match timeout_cert with Some tc => verify_tc tc self | None => Ok tt end.

(** [now] is the wall clock [Block::verify_well_formed] reads. *)
Definition verify_proposal (now : N) (vote_proposal : VoteProposal)
    : method SR Error VoteData :=
  let proposed_block := vp_block vote_proposal in
  safety_data ← on_storage PersistentSafetyStorage.safety_data;
  _ ← lift (verify_epoch (Block.epoch proposed_block) safety_data);
  _ ← gets (verify_qc (Block.quorum_cert proposed_block));
  epoch_state ← gets get_epoch_state;
  _ ← lift (map_err (fun e => InvalidProposal (CauseAny e))
              (Block.validate_signature proposed_block (es_verifier epoch_state)));
  _ ← lift (map_err (fun e => InvalidProposal (CauseAny e))
              (Block.verify_well_formed proposed_block now));
  lift (map_err (fun e => InvalidAccumulatorExtension (CauseAny e))
          (VoteProposal.gen_vote_data vote_proposal)).

(** ** Two-chain rules (safety_rules_2chain.rs) *)

(** [a? == r || b? == r && c]: the second operand is evaluated only when the
    first is false. *)
Definition safe_to_timeout (timeout : TwoChainTimeout)
    (maybe_tc : option TwoChainTimeoutCertificate) (safety_data : SafetyData)
    : outcome Error unit :=
  let round := to_round timeout in
  let qc_round := TwoChainTimeout.hqc_round timeout in
  let tc_round := from_option TwoChainTimeoutCertificate.round 0 maybe_tc in
  next_qc ← next_round qc_round;
  follows ← (if round =? next_qc then Ok true
             else next_tc ← next_round tc_round; Ok (round =? next_tc));
  ensure (follows && (sd_one_chain_round safety_data <=? qc_round))
    (NotSafeToTimeout round qc_round tc_round (sd_one_chain_round safety_data)).

Definition safe_to_vote (block : Block) (maybe_tc : option TwoChainTimeoutCertificate)
    : outcome Error unit :=
  let round := Block.round block in
  let qc_round := bi_round (QuorumCert.certified_block (Block.quorum_cert block)) in
  let tc_round := from_option TwoChainTimeoutCertificate.round 0 maybe_tc in
  let hqc_round := from_option TwoChainTimeoutCertificate.highest_hqc_round 0 maybe_tc in
  next_qc ← next_round qc_round;
  safe ← (if round =? next_qc then Ok true
          else next_tc ← next_round tc_round;
               Ok ((round =? next_tc) && (hqc_round <=? qc_round)));
  ensure safe (NotSafeToVote round qc_round tc_round hqc_round).

Definition construct_ledger_info_2chain (proposed_block : Block)
    (consensus_data_hash : HashValue) : outcome Error LedgerInfo :=
  let block1 := Block.round proposed_block in
  let certified := QuorumCert.certified_block (Block.quorum_cert proposed_block) in
  next_block0 ← next_round (bi_round certified);
  let commit := next_block0 =? block1 in
  let commit_info := if commit then certified else BlockInfo.empty in
  Ok (mkLedgerInfo commit_info consensus_data_hash).

Definition guarded_sign_timeout_with_qc (timeout : TwoChainTimeout)
    (timeout_cert : option TwoChainTimeoutCertificate) : method SR Error Signature :=
  _ ← gets signer;
  safety_data ← on_storage PersistentSafetyStorage.safety_data;
  _ ← lift (verify_epoch (to_epoch timeout) safety_data);
  epoch_state ← gets get_epoch_state;
  _ ← lift (map_err (fun e => InvalidTimeout (CauseAny e))
              (TwoChainTimeout.verify timeout (es_verifier epoch_state)));
  _ ← gets (verify_optional_tc timeout_cert);
  _ ← lift (safe_to_timeout timeout timeout_cert safety_data);
  _ ← lift (ensure (negb (to_round timeout <? sd_last_voted_round safety_data))
              (IncorrectLastVotedRound (to_round timeout) (sd_last_voted_round safety_data)));
  _ ← (if sd_last_voted_round safety_data <? to_round timeout then
         safety_data ← lift (verify_and_update_last_vote_round (to_round timeout) safety_data);
         on_storage (PersistentSafetyStorage.set_safety_data safety_data)
       else mret tt);
  gets (sign (TwoChainTimeout.signing_format timeout)).

(** The vote already cast in [round], if any. *)
Definition previous_vote (round : Round) (safety_data : SafetyData) : option Vote :=
  vote ← sd_last_vote safety_data;
  if bi_round (vd_proposed (v_vote_data vote)) =? round then Some vote else None.

(** Its second half: the two voting rules, the new vote and its recording. *)
Definition cast_vote (proposed_block : Block) (timeout_cert : option TwoChainTimeoutCertificate)
    (vote_data : VoteData) (safety_data : SafetyData) : method SR Error Vote :=
  safety_data ← lift (verify_and_update_last_vote_round
                        (bd_round (b_block_data proposed_block)) safety_data);
  _ ← lift (safe_to_vote proposed_block timeout_cert);
  let '(_, safety_data) := observe_qc (Block.quorum_cert proposed_block) safety_data in
  signer ← gets signer;
  let author := vs_author signer in
  ledger_info ← lift (construct_ledger_info_2chain proposed_block (hash vote_data));
  signature ← gets (sign ledger_info);
  let vote := Vote.new_with_signature vote_data author ledger_info signature in
  let safety_data := mkSafetyData (sd_epoch safety_data) (sd_last_voted_round safety_data)
                       (sd_preferred_round safety_data) (sd_one_chain_round safety_data)
                       (Some vote) in
  _ ← on_storage (PersistentSafetyStorage.set_safety_data safety_data);
  mret vote.

Definition guarded_construct_and_sign_vote_two_chain (now : N) (vote_proposal : VoteProposal)
    (timeout_cert : option TwoChainTimeoutCertificate) : method SR Error Vote :=
  _ ← gets signer;
  vote_data ← verify_proposal now vote_proposal;
  _ ← gets (verify_optional_tc timeout_cert);
  let proposed_block := vp_block vote_proposal in
  safety_data ← on_storage PersistentSafetyStorage.safety_data;
  match previous_vote (Block.round proposed_block) safety_data with
  | Some vote => mret vote
  | None => cast_vote proposed_block timeout_cert vote_data safety_data
  end.

(** ** The other entry points (safety_rules.rs) *)

(** The log line reads the author only when the info level is enabled. *)
Definition guarded_consensus_state (info_enabled : bool) : method SR Error ConsensusState :=
  waypoint ← read_storage PersistentSafetyStorage.waypoint;
  safety_data ← on_storage PersistentSafetyStorage.safety_data;
  _ ← (if info_enabled then _ ← read_storage PersistentSafetyStorage.author; mret tt
       else mret tt);
  safety_data ← on_storage PersistentSafetyStorage.safety_data;
  waypoint ← read_storage PersistentSafetyStorage.waypoint;
  self ← gets Ok;
  mret (mkConsensusState safety_data waypoint
          (match signer self with Ok _ => true | _ => false end)).

(** The key reconciliation of [initialize]: [initialize_result]. *)
Definition reconcile_key (author : Author) (epoch_state : EpochState)
    : method SR Error unit := fun self =>
  match Verifier.get_public_key (es_verifier epoch_state) author with
  | None => (Err (ValidatorNotInSet (CauseAccount author)), self)
  | Some expected_key =>
      let current_key := ValidatorSigner.public_key <$> validator_signer self in
      if bool_decide (current_key = Some expected_key) then (Ok tt, self)
      else
        match PersistentSafetyStorage.consensus_key_for_version expected_key
                (persistent_storage self) with
        | Ok consensus_key =>
            (Ok tt, set_validator_signer (Some (mkValidatorSigner author consensus_key)) self)
        | Err (SecureStorageMissingDataError error) => (Err (ValidatorKeyNotFound error), self)
        | Err error => (Err error, self)
        | Panic => (Panic, self)
        end
  end.

(** [initialize_result.map_err(|error| { self.validator_signer = None; error })] *)
Definition clear_signer_on_error {A} (m : method SR Error A) : method SR Error A := fun self =>
  match m self with
  | (Err error, self) => (Err error, set_validator_signer None self)
  | r => r
  end.

Definition guarded_initialize (proof : EpochChangeProof) : method SR Error unit :=
  waypoint ← read_storage PersistentSafetyStorage.waypoint;
  last_li ← lift (map_err (fun e => InvalidEpochChangeProof (CauseAny e))
                    (EpochChangeProof.verify proof waypoint));
  let ledger_info := lis_ledger_info last_li in
  epoch_state ← lift (ok_or (LedgerInfo.next_epoch_state ledger_info) InvalidLedgerInfo);
  new_waypoint ← lift (map_err (fun e => InternalError (CauseAny e))
                         (Waypoint.new_epoch_boundary ledger_info));
  _ ← (if wp_version waypoint <? wp_version new_waypoint
       then on_storage (PersistentSafetyStorage.set_waypoint new_waypoint) else mret tt);
  safety_data ← on_storage PersistentSafetyStorage.safety_data;
  let current_epoch := sd_epoch safety_data in
  _ ← match current_epoch ?= es_epoch epoch_state with
      | Gt => lift (Err (WaypointOutOfDate (wp_version waypoint) (wp_version new_waypoint)
                           current_epoch (es_epoch epoch_state)))
      | Lt => on_storage (PersistentSafetyStorage.set_safety_data
                            (mkSafetyData (es_epoch epoch_state) 0 0 0 None))
      | Eq => mret tt
      end;
  _ ← puts (set_epoch_state (Some epoch_state));
  author ← read_storage PersistentSafetyStorage.author;
  clear_signer_on_error (reconcile_key author epoch_state).

Definition guarded_sign_proposal (block_data : BlockData) : method SR Error Signature :=
  _ ← gets signer;
  _ ← gets (verify_author (BlockData.author block_data));
  safety_data ← on_storage PersistentSafetyStorage.safety_data;
  _ ← lift (verify_epoch (bd_epoch block_data) safety_data);
  _ ← lift (ensure (negb (bd_round block_data <=? sd_last_voted_round safety_data))
              (InvalidProposal
                 (CauseAny (Msg "Proposed round is not higher than last voted round"))));
  _ ← gets (verify_qc (bd_quorum_cert block_data));
  _ ← lift (verify_and_update_preferred_round (bd_quorum_cert block_data) safety_data);
  gets (sign block_data).

Definition guarded_sign_commit_vote (ledger_info : LedgerInfoWithSignatures)
    (new_ledger_info : LedgerInfo) : method SR Error Signature :=
  _ ← gets signer;
  let old_ledger_info := lis_ledger_info ledger_info in
  _ ← lift (ensure (BlockInfo.is_ordered_only (li_commit_info old_ledger_info))
              (InvalidOrderedLedgerInfo (CauseLedgerInfo old_ledger_info)));
  _ ← lift (ensure (BlockInfo.match_ordered_only (li_commit_info old_ledger_info)
                      (li_commit_info new_ledger_info))
              (InconsistentExecutionResult (CauseBlockInfo (li_commit_info old_ledger_info))
                 (CauseBlockInfo (li_commit_info new_ledger_info))));
  epoch_state ← gets get_epoch_state;
  _ ← lift (map_err (fun e => InvalidQuorumCertificate (CauseAny (FromVerifyError e)))
              (LedgerInfoWithSignatures.verify_signatures ledger_info (es_verifier epoch_state)));
  gets (sign new_ledger_info).

(** ** The service in front of safety rules (serializer.rs)

    The requests and responses travel as JSON documents of these types; the
    environment of a request is the wall clock and whether logging is on. *)
Definition handle_message (now : N) (info_enabled : bool) (input : SafetyRulesInput)
    : method SR Error SafetyRulesOutput :=
  match input with
  | InConsensusState =>
      state ← guarded_consensus_state info_enabled; mret (OutConsensusState state)
  | InInitialize li => _ ← guarded_initialize li; mret OutUnit
  | InSignProposal block_data =>
      signature ← guarded_sign_proposal block_data; mret (OutSignature signature)
  | InSignTimeoutWithQC timeout maybe_tc =>
      signature ← guarded_sign_timeout_with_qc timeout maybe_tc; mret (OutSignature signature)
  | InConstructAndSignVoteTwoChain vote_proposal maybe_tc =>
      vote ← guarded_construct_and_sign_vote_two_chain now vote_proposal maybe_tc;
      mret (OutVote vote)
  | InSignCommitVote ledger_info new_ledger_info =>
      signature ← guarded_sign_commit_vote ledger_info new_ledger_info;
      mret (OutSignature signature)
  end.
End ops.
End SafetyRules.
