(* ===== verification/SafetyLemmas.v ===== *)
(** * What safety rules persists and signs

    Lemmas on the operations of SafetyRules.v over any storage engine that keeps
    the promises of [KVStorageLaws]: which operations leave the persisted safety
    data alone, and what a successful signing operation checked and recorded. *)

From S2P Require Import Prelude Crypto Errors Position Accumulator Verifier Ledger ConsensusTypes Blocks Storage SafetyRules.

Section lemmas.
Context `{KVStorageLaws Store} `{ConsensusCrypto}.
Abbreviation SR := (SafetyRules Store) (only parsing).

Definition sr_coherent (self : SR) : Prop := coherent (persistent_storage self).
(** The safety data on disk. *)
Definition on_disk (self : SR) : option SafetyData := persisted (persistent_storage self).

(** Nothing that matters to a later request has changed. *)
Record same (self self' : SR) : Prop := {
  same_coherent : sr_coherent self -> sr_coherent self';
  same_disk : sr_coherent self -> on_disk self' = on_disk self;
  same_signer : validator_signer self' = validator_signer self;
  same_epoch_state : epoch_state self' = epoch_state self;
}.

#[local] Instance same_refl : Reflexive same.
Proof. by split. Qed.
#[local] Instance same_trans : Transitive same.
Proof.
  intros a b c [Hc1 Hd1 Hs1 He1] [Hc2 Hd2 Hs2 He2]. split; [by auto| |congruence..].
  intros Ha. rewrite Hd2, Hd1; auto.
Qed.

(** A method that, whatever it returns, changes nothing that matters. *)
Definition quiet {A} (m : method SR Error A) : Prop :=
  forall self r self', m self = (r, self') -> same self self'.

Lemma quiet_bind {A B} (m : method SR Error A) (f : A -> method SR Error B) :
  quiet m -> (forall a, quiet (f a)) -> quiet (m ≫= f).
Proof.
  intros Hm Hf self r self' Hr. apply method_bind_inv in Hr as [(a & t & Ha & Hr)|(q & Hq & _)].
  - transitivity t; [by eapply Hm | by eapply Hf].
  - by eapply Hm.
Qed.

Lemma quiet_lift {A} (m : outcome Error A) : quiet (lift m).
Proof. by intros self r self' [= _ <-]. Qed.
Lemma quiet_gets {A} (f : SR -> outcome Error A) : quiet (gets f).
Proof. by intros self r self' [= _ <-]. Qed.
Lemma quiet_ret {A} (a : A) : quiet (mret a).
Proof. by intros self r self' [= _ <-]. Qed.

Lemma quiet_safety_data : quiet (SafetyRules.on_storage PersistentSafetyStorage.safety_data).
Proof.
  intros self r self'. unfold SafetyRules.on_storage.
  destruct (PersistentSafetyStorage.safety_data (persistent_storage self)) as [q ps] eqn:Hq.
  intros [= <- <-]. split; [| |done..]; intros Hc;
    apply (safety_data_spec _ _ _ Hc) in Hq as (Hc' & Hp & _); done.
Qed.

Ltac quiet :=
  repeat first
    [ apply quiet_bind; [|intros ?] | apply quiet_lift | apply quiet_gets | apply quiet_ret
    | apply quiet_safety_data | progress simpl | case_match ].

Lemma quiet_verify_proposal now vp : quiet (SafetyRules.verify_proposal now vp).
Proof. unfold SafetyRules.verify_proposal. quiet. Qed.
Lemma quiet_sign_proposal bd : quiet (SafetyRules.guarded_sign_proposal bd).
Proof. unfold SafetyRules.guarded_sign_proposal. quiet. Qed.
Lemma quiet_sign_commit_vote li li' : quiet (SafetyRules.guarded_sign_commit_vote li li').
Proof. unfold SafetyRules.guarded_sign_commit_vote. quiet. Qed.
Lemma quiet_consensus_state b : quiet (SafetyRules.guarded_consensus_state b).
Proof. unfold SafetyRules.guarded_consensus_state, SafetyRules.read_storage. quiet. Qed.

(** Reading the safety data returns what is on disk. *)
Lemma safety_data_Ok (self self' : SR) sd :
  sr_coherent self ->
  SafetyRules.on_storage PersistentSafetyStorage.safety_data self = (Ok sd, self') ->
  on_disk self = Some sd /\ same self self'.
Proof.
  intros Hc Hr. split; [|by eapply quiet_safety_data].
  unfold SafetyRules.on_storage in Hr.
  destruct (PersistentSafetyStorage.safety_data (persistent_storage self)) as [q ps] eqn:Hq.
  simplify_eq. by eapply (safety_data_spec _ _ _ Hc).
Qed.

Lemma set_safety_data_inv (self self' : SR) sd r :
  sr_coherent self ->
  SafetyRules.on_storage (PersistentSafetyStorage.set_safety_data sd) self = (r, self') ->
  sr_coherent self' /\ validator_signer self' = validator_signer self /\
  epoch_state self' = epoch_state self /\
  ((r = Ok tt /\ on_disk self' = Some sd) \/ (r <> Ok tt /\ on_disk self' = on_disk self)).
Proof.
  unfold SafetyRules.on_storage. intros Hc.
  destruct (PersistentSafetyStorage.set_safety_data sd (persistent_storage self)) as [q ps] eqn:Hq.
  intros [= <- <-]. apply (set_safety_data_spec _ _ _ _ Hc) in Hq as (Hc' & Hok & Herr & _).
  split_and!; [done..|]. destruct (decide (q = Ok tt)) as [->|Hn]; [left|right]; split; auto.
  by apply (Hok tt).
Qed.

Lemma signer_Ok (self : SR) s : SafetyRules.signer self = Ok s -> validator_signer self = Some s.
Proof. apply ok_or_Ok. Qed.

(** What [verify_proposal] has checked when it returns. *)
Record proposal_verified (sd : SafetyData) (es : EpochState) (now : N) (vp : VoteProposal)
    (vd : VoteData) : Prop := {
  pv_epoch : Block.epoch (vp_block vp) = sd_epoch sd;
  pv_qc : QuorumCert.verify (Block.quorum_cert (vp_block vp)) (es_verifier es) = Ok tt;
  pv_signature : Block.validate_signature (vp_block vp) (es_verifier es) = Ok tt;
  pv_well_formed : Block.verify_well_formed (vp_block vp) now = Ok tt;
  pv_vote_data : VoteProposal.gen_vote_data vp = Ok vd;
}.

Lemma verify_qc_Ok (self : SR) es qc :
  epoch_state self = Some es -> SafetyRules.verify_qc qc self = Ok tt ->
  QuorumCert.verify qc (es_verifier es) = Ok tt.
Proof.
  intros Hes Hv. unfold SafetyRules.verify_qc, SafetyRules.get_epoch_state in Hv.
  rewrite Hes in Hv. simpl in Hv. by run_ok.
Qed.

Lemma verify_tc_Ok (self : SR) es tc :
  epoch_state self = Some es -> SafetyRules.verify_tc tc self = Ok tt ->
  TwoChainTimeoutCertificate.verify tc (es_verifier es) = Ok tt.
Proof.
  intros Hes Hv. unfold SafetyRules.verify_tc, SafetyRules.get_epoch_state in Hv.
  rewrite Hes in Hv. simpl in Hv. by run_ok.
Qed.

Lemma verify_proposal_Ok (self self' : SR) now vp vd :
  sr_coherent self -> SafetyRules.verify_proposal now vp self = (Ok vd, self') ->
  exists sd es, on_disk self = Some sd /\ epoch_state self = Some es /\ same self self' /\
    proposal_verified sd es now vp vd.
Proof.
  intros Hc Hr. pose proof (quiet_verify_proposal _ _ _ _ _ Hr) as Hsame.
  unfold SafetyRules.verify_proposal, SafetyRules.verify_epoch in Hr. run_ok. breflect.
  match goal with H : SafetyRules.on_storage _ _ = _ |- _ =>
    apply safety_data_Ok in H as [Hd Hs]; [|done] end.
  match goal with H : SafetyRules.get_epoch_state _ = Ok ?es |- _ =>
    apply ok_or_Ok in H; pose proof H as Hes; rewrite (same_epoch_state _ _ Hs) in Hes;
    match goal with Hq : SafetyRules.verify_qc _ _ = _ |- _ =>
      apply (verify_qc_Ok _ _ _ H) in Hq end end.
  eexists _, _. split_and!; [done..|]. split; done.
Qed.

(** ** Votes *)

(** The vote data of a proposal name its block and its certified parent. *)
Lemma gen_vote_data_Ok vp vd :
  VoteProposal.gen_vote_data vp = Ok vd ->
  bi_epoch (vd_proposed vd) = Block.epoch (vp_block vp) /\
  bi_round (vd_proposed vd) = Block.round (vp_block vp) /\
  bi_id (vd_proposed vd) = b_id (vp_block vp) /\
  vd_parent vd = QuorumCert.certified_block (Block.quorum_cert (vp_block vp)).
Proof. unfold VoteProposal.gen_vote_data. intros Hr. case_match; run_ok; done. Qed.

(** [observe_qc] raises both rounds to those of the certificate. *)
Lemma observe_qc_max qc sd :
  (SafetyRules.observe_qc qc sd).2 =
  mkSafetyData (sd_epoch sd) (sd_last_voted_round sd)
    (N.max (sd_preferred_round sd) (bi_round (QuorumCert.parent_block qc)))
    (N.max (sd_one_chain_round sd) (bi_round (QuorumCert.certified_block qc)))
    (sd_last_vote sd).
Proof.
  unfold SafetyRules.observe_qc. destruct sd as [e l p o v]; simpl.
  destruct (N.ltb_spec o (bi_round (QuorumCert.certified_block qc))); simpl;
    destruct (N.ltb_spec p (bi_round (QuorumCert.parent_block qc))); simpl; f_equal; lia.
Qed.

(** The safety data after a new vote. *)
Definition after_vote (sd : SafetyData) (b : Block) (vote : Vote) : SafetyData :=
  mkSafetyData (sd_epoch sd) (Block.round b)
    (N.max (sd_preferred_round sd) (bi_round (QuorumCert.parent_block (Block.quorum_cert b))))
    (N.max (sd_one_chain_round sd) (bi_round (QuorumCert.certified_block (Block.quorum_cert b))))
    (Some vote).

(** The vote for a verified proposal: the commit rule picks the ledger info. *)
Definition vote_ledger_info (b : Block) (vd : VoteData) : LedgerInfo :=
  let parent := QuorumCert.certified_block (Block.quorum_cert b) in
  mkLedgerInfo (if bi_round parent + 1 =? Block.round b then parent else BlockInfo.empty) (hash vd).
Definition new_vote (s : ValidatorSigner) (b : Block) (vd : VoteData) : Vote :=
  Vote.new_with_signature vd (vs_author s) (vote_ledger_info b vd)
    (ValidatorSigner.sign s (vote_ledger_info b vd)).

Lemma next_round_Ok r n : next_round r = Ok n <-> n = r + 1 /\ r + 1 <= u64_max.
Proof.
  unfold next_round. rewrite ok_or_Ok. unfold checked_add.
  destruct (N.leb_spec (r + 1) u64_max); naive_solver lia.
Qed.

Lemma construct_ledger_info_Ok b vd li :
  SafetyRules.construct_ledger_info_2chain b (hash vd) = Ok li -> li = vote_ledger_info b vd.
Proof.
  unfold SafetyRules.construct_ledger_info_2chain. intros Hr. run_ok.
  match goal with H : next_round _ = _ |- _ => apply next_round_Ok in H as [-> _] end. done.
Qed.

(** [cast_vote] returns a vote only once it is on disk; if it fails, the disk is
    as before. *)
Lemma cast_vote_inv (self self' : SR) b tc vd sd r :
  sr_coherent self -> SafetyRules.cast_vote b tc vd sd self = (r, self') ->
  sr_coherent self' /\ validator_signer self' = validator_signer self /\
  epoch_state self' = epoch_state self /\
  ((exists s, validator_signer self = Some s /\ r = Ok (new_vote s b vd) /\
      sd_last_voted_round sd < Block.round b /\ SafetyRules.safe_to_vote b tc = Ok tt /\
      on_disk self' = Some (after_vote sd b (new_vote s b vd))) \/
   ((forall v, r <> Ok v) /\ on_disk self' = on_disk self)).
Proof.
  intros Hc Hr. unfold SafetyRules.cast_vote in Hr.
  apply lift_bind_inv in Hr as [(sd' & Hl & Hr)|[-> ?]]; [|by auto 6].
  apply lift_bind_inv in Hr as [([] & Hsafe & Hr)|[-> ?]]; [|by auto 6].
  pose proof (observe_qc_max (Block.quorum_cert b) sd') as Hobs.
  destruct (SafetyRules.observe_qc (Block.quorum_cert b) sd') as [u sd'']. simpl in Hobs. subst sd''.
  apply gets_bind_inv in Hr as [(s & Hs & Hr)|[-> ?]]; [|by auto 6].
  apply lift_bind_inv in Hr as [(li & ->%construct_ledger_info_Ok & Hr)|[-> ?]]; [|by auto 6].
  apply gets_bind_inv in Hr as [(sg & Hsg & Hr)|[-> ?]]; [|by auto 6].
  unfold SafetyRules.sign in Hsg. rewrite Hs in Hsg. simpl in Hsg. injection Hsg as <-.
  apply signer_Ok in Hs. unfold SafetyRules.verify_and_update_last_vote_round in Hl.
  run_ok. breflect.
  apply method_bind_inv in Hr as [([] & self1 & Hset & Hr)|(q & Hset & Hq & ? & _)];
    apply set_safety_data_inv in Hset as (? & ? & ? & [[? Hd]|[? Hd]]); try done.
  - apply ret_inv in Hr as [-> ->]. split_and!; [done..|]. left. by exists s.
  - by destruct (Hq tt).
  - by auto 6.
Qed.

(** A successful request for a vote: the vote of this round is sent again, or a
    new vote is on disk before it is released. *)
Lemma vote_Ok (self self' : SR) now vp tc vote :
  sr_coherent self ->
  SafetyRules.guarded_construct_and_sign_vote_two_chain now vp tc self = (Ok vote, self') ->
  exists sd es s vd, on_disk self = Some sd /\ epoch_state self = Some es /\
    validator_signer self = Some s /\ proposal_verified sd es now vp vd /\
    (forall c, tc = Some c -> TwoChainTimeoutCertificate.verify c (es_verifier es) = Ok tt) /\
    ((SafetyRules.previous_vote (Block.round (vp_block vp)) sd = Some vote /\
      on_disk self' = on_disk self) \/
     (SafetyRules.previous_vote (Block.round (vp_block vp)) sd = None /\
      sd_last_voted_round sd < Block.round (vp_block vp) /\
      SafetyRules.safe_to_vote (vp_block vp) tc = Ok tt /\
      vote = new_vote s (vp_block vp) vd /\
      on_disk self' = Some (after_vote sd (vp_block vp) vote))).
Proof.
  intros Hc Hr. unfold SafetyRules.guarded_construct_and_sign_vote_two_chain in Hr. run_ok.
  match goal with H : SafetyRules.signer _ = _ |- _ => apply signer_Ok in H as Hsig end.
  match goal with H : SafetyRules.verify_proposal _ _ _ = _ |- _ =>
    apply verify_proposal_Ok in H as (sd & es & Hd & Hes & Hs1 & Hpv); [|done] end.
  match goal with H : SafetyRules.on_storage _ _ = _ |- _ =>
    apply safety_data_Ok in H as [Hd' Hs2]; [|by eapply same_coherent] end.
  rewrite (same_disk _ _ Hs1 Hc) in Hd'. simplify_eq.
  pose proof (transitivity Hs1 Hs2) as Hs.
  eexists _, _, _, _. split_and!; [done..| |].
  { intros c ->. eapply verify_tc_Ok; [|done]. by rewrite (same_epoch_state _ _ Hs1). }
  destruct (SafetyRules.previous_vote _ _) as [v|] eqn:Hpv'.
  - apply ret_Ok in Hr as [-> ->]. left. split; [done|]. by apply same_disk.
  - right. apply cast_vote_inv in Hr as (_ & _ & _ & [(s & Hsg & [= ->] & ?)|[Hn _]]);
      [|by destruct (Hn vote)|by eapply same_coherent].
    rewrite (same_signer _ _ Hs), Hsig in Hsg. injection Hsg as <-. by destruct_and!.
Qed.

(** ** Requests that are granted, if the storage works *)
Section granted.
Context `{!KVStorageReliable Store}.
Implicit Types (self : SafetyRules Store).

Lemma read_safety_data self sd :
  sr_coherent self -> enable_cached_safety_data (persistent_storage self) = true -> on_disk self = Some sd ->
  exists self', SafetyRules.on_storage PersistentSafetyStorage.safety_data self = (Ok sd, self') /\ same self self' /\
    enable_cached_safety_data (persistent_storage self') = true.
Proof.
  intros Hc Hen Hd.
  assert (exists ps, PersistentSafetyStorage.safety_data (persistent_storage self) = (Ok sd, ps) /\
    enable_cached_safety_data ps = true) as (ps & Hps & Hen').
  { unfold PersistentSafetyStorage.safety_data. rewrite Hen. cbn [negb].
    destruct (cached_safety_data (persistent_storage self)) as [sd'|] eqn:Hcache.
    - pose proof (Hc _ Hcache) as Hp. unfold on_disk in Hd. exists (persistent_storage self). split; [congruence|done].
    - unfold on_disk, persisted in Hd. destruct (content (internal_store (persistent_storage self)) SAFETY_DATA) as [v|] eqn:Hv; [|done].
      unfold get. rewrite (get_reliable _ _ _ Hv). cbn in Hd |- *. rewrite Hd. cbn. eexists. by split. }
  eexists. unfold SafetyRules.on_storage. rewrite Hps. split; [done|]. split; [|done].
  eapply quiet_safety_data. unfold SafetyRules.on_storage. by rewrite Hps.
Qed.

Lemma write_safety_data self sd : sr_coherent self ->
  exists self', SafetyRules.on_storage (PersistentSafetyStorage.set_safety_data sd) self = (Ok tt, self') /\ on_disk self' = Some sd.
Proof.
  intros Hc. destruct (SafetyRules.on_storage (PersistentSafetyStorage.set_safety_data sd) self) as [r self'] eqn:Hset.
  exists self'. pose proof (set_safety_data_inv _ _ _ _ Hc Hset) as (_ & _ & _ & [[-> ?]|[Hne _]]); [done|].
  destruct Hne. unfold SafetyRules.on_storage, PersistentSafetyStorage.set_safety_data in Hset.
  pose proof (set_reliable (internal_store (persistent_storage self)) SAFETY_DATA (StoredSafetyData sd)) as Hok.
  destruct (kv_set _ _ _) as [q st]. cbn in Hok. subst q. by injection Hset as <- _.
Qed.

Lemma verify_proposal_granted self now vp vd sd es :
  sr_coherent self -> enable_cached_safety_data (persistent_storage self) = true -> on_disk self = Some sd ->
  epoch_state self = Some es -> proposal_verified sd es now vp vd ->
  exists self', SafetyRules.verify_proposal now vp self = (Ok vd, self') /\ same self self' /\
    enable_cached_safety_data (persistent_storage self') = true.
Proof.
  intros Hc Hen Hd Hes [Hep Hqc Hsig Hwf Hvd]. destruct (read_safety_data self sd Hc Hen Hd) as (self1 & Hr & Hs & Hen1).
  exists self1. split; [|done]. unfold SafetyRules.verify_proposal, mbind, method_bind, lift, gets. rewrite Hr.
  unfold SafetyRules.verify_epoch, SafetyRules.verify_qc, SafetyRules.get_epoch_state.
  rewrite Hep, N.eqb_refl, (same_epoch_state _ _ Hs), Hes. cbn [ensure ok_or mbind outcome_bind].
  by rewrite Hqc, Hsig, Hwf, Hvd.
Qed.

Lemma cast_vote_granted self b tc vd sd s :
  sr_coherent self -> validator_signer self = Some s -> Block.round b <= u64_max -> sd_last_voted_round sd < Block.round b ->
  (let parent := bi_round (QuorumCert.certified_block (Block.quorum_cert b)) in
   parent + 1 = Block.round b \/ exists c, tc = Some c /\ TwoChainTimeoutCertificate.round c + 1 = Block.round b /\
     TwoChainTimeoutCertificate.highest_hqc_round c <= parent) ->
  bi_round (QuorumCert.certified_block (Block.quorum_cert b)) < Block.round b ->
  let request := SafetyRules.cast_vote b tc vd sd self in
  request.1 = Ok (new_vote s b vd) /\ on_disk request.2 = Some (after_vote sd b (new_vote s b vd)).
Proof.
  intros Hc Hs Hmax Hlast Hrule Hparent request. set (parent := bi_round _) in *.
  assert (SafetyRules.verify_and_update_last_vote_round (bd_round (b_block_data b)) sd =
    Ok (mkSafetyData (sd_epoch sd) (Block.round b) (sd_preferred_round sd) (sd_one_chain_round sd) (sd_last_vote sd))) as Hlv.
  { unfold SafetyRules.verify_and_update_last_vote_round. unfold Block.round in Hlast. by rewrite (proj2 (N.leb_gt _ _) Hlast). }
  assert (next_round parent = Ok (parent + 1)) as Hnext by (apply next_round_Ok; lia).
  assert (SafetyRules.safe_to_vote b tc = Ok tt) as Hsafe.
  { unfold SafetyRules.safe_to_vote. fold parent. rewrite Hnext. cbn [mbind outcome_bind].
    destruct (N.eqb_spec (Block.round b) (parent + 1)); [done|]. destruct Hrule as [|(c & -> & Hn & Hle)]; [congruence|].
    cbn [from_option]. rewrite (proj2 (next_round_Ok _ (TwoChainTimeoutCertificate.round c + 1))) by (split; [done|lia]).
    cbn [mbind outcome_bind]. by rewrite Hn, N.eqb_refl, (proj2 (N.leb_le _ _) Hle). }
  assert (SafetyRules.construct_ledger_info_2chain b (hash vd) = Ok (vote_ledger_info b vd)) as Hli.
  { unfold SafetyRules.construct_ledger_info_2chain. fold parent. by rewrite Hnext. }
  destruct (write_safety_data self (after_vote sd b (new_vote s b vd)) Hc) as (self' & Hw & Hd).
  assert (request = (Ok (new_vote s b vd), self')) as ->; [|done].
  unfold request, SafetyRules.cast_vote, mbind, method_bind, lift, gets. rewrite Hlv, Hsafe.
  pose proof (observe_qc_max (Block.quorum_cert b) (mkSafetyData (sd_epoch sd) (Block.round b) (sd_preferred_round sd)
    (sd_one_chain_round sd) (sd_last_vote sd))) as Hobs.
  destruct (SafetyRules.observe_qc _ _) as [u sd']. cbn in Hobs. subst sd'.
  unfold SafetyRules.sign, SafetyRules.signer. rewrite Hs. cbn [ok_or mbind outcome_bind]. rewrite Hli.
  unfold new_vote, after_vote in Hw |- *. cbn. by rewrite Hw.
Qed.
End granted.

(** Whatever a request for a vote returns, what stays in memory stays the same,
    and the disk changes only with a new vote. *)
Lemma vote_inv (self self' : SR) now vp tc r :
  sr_coherent self ->
  SafetyRules.guarded_construct_and_sign_vote_two_chain now vp tc self = (r, self') ->
  sr_coherent self' /\ validator_signer self' = validator_signer self /\
  epoch_state self' = epoch_state self /\
  (on_disk self' = on_disk self \/ exists vote, r = Ok vote).
Proof.
  intros Hc Hr. unfold SafetyRules.guarded_construct_and_sign_vote_two_chain in Hr.
  apply gets_bind_inv in Hr as [(s & Hs & Hr)|[-> ?]]; [|by auto 8].
  apply method_bind_inv in Hr as [(vd & self1 & Hs1%quiet_verify_proposal & Hr)
                                 |(q & Hs1%quiet_verify_proposal & _)].
  2: { destruct Hs1. by auto 8. }
  apply gets_bind_inv in Hr as [([] & Htc & Hr)|[-> ?]].
  2: { destruct Hs1. by auto 8. }
  apply method_bind_inv in Hr as [(sd & self2 & Hs2%quiet_safety_data & Hr)
                                 |(q & Hs2%quiet_safety_data & _)].
  2: { destruct (transitivity Hs1 Hs2). by auto 8. }
  destruct (transitivity Hs1 Hs2) as [Hc2 Hd2 Hsg2 He2]. case_match.
  - apply ret_inv in Hr as [-> ->]. by auto 8.
  - apply cast_vote_inv in Hr as (? & ? & ? & [(s' & _ & -> & _)|[_ Hd]]); [| |by auto].
    + split_and!; [done|congruence|congruence|]. eauto.
    + split_and!; [done|congruence|congruence|]. left. rewrite Hd. by apply Hd2.
Qed.

(** ** Timeouts *)
Definition after_timeout (sd : SafetyData) (round : Round) : SafetyData :=
  mkSafetyData (sd_epoch sd) round (sd_preferred_round sd) (sd_one_chain_round sd)
    (sd_last_vote sd).

Lemma after_timeout_id sd : after_timeout sd (sd_last_voted_round sd) = sd.
Proof. by destruct sd. Qed.

(** The end of a request to sign a timeout: record the round, then sign. *)
Lemma record_timeout_inv (self self' : SR) sd s t r :
  sr_coherent self -> on_disk self = Some sd -> validator_signer self = Some s ->
  sd_last_voted_round sd <= to_round t ->
  (_ ← (if sd_last_voted_round sd <? to_round t then
          sd' ← lift (SafetyRules.verify_and_update_last_vote_round (to_round t) sd);
          SafetyRules.on_storage (PersistentSafetyStorage.set_safety_data sd')
        else mret tt);
   gets (SafetyRules.sign (TwoChainTimeout.signing_format t))) self = (r, self') ->
  sr_coherent self' /\ validator_signer self' = validator_signer self /\
  epoch_state self' = epoch_state self /\
  ((r = Ok (ValidatorSigner.sign s (TwoChainTimeout.signing_format t)) /\
    on_disk self' = Some (after_timeout sd (to_round t))) \/
   (on_disk self' = on_disk self /\ forall sg, r <> Ok sg)).
Proof.
  intros Hc Hd Hs Hle Hr.
  assert (forall self1 : SR, validator_signer self1 = validator_signer self ->
    SafetyRules.sign (TwoChainTimeout.signing_format t) self1 =
      Ok (ValidatorSigner.sign s (TwoChainTimeout.signing_format t))) as Hsign.
  { intros self1 H1s. unfold SafetyRules.sign, SafetyRules.signer. by rewrite H1s, Hs. }
  unfold SafetyRules.verify_and_update_last_vote_round in Hr.
  destruct (N.ltb_spec (sd_last_voted_round sd) (to_round t)) as [Hlt|Hge].
  - destruct (N.leb_spec (to_round t) (sd_last_voted_round sd)) as [?|_]; [lia|]. simpl in Hr.
    apply method_bind_inv in Hr as [([] & self1 & Hset & Hr)|(q & Hset & Hq & ? & _)];
      apply set_safety_data_inv in Hset as (? & ? & ? & [[? Hd']|[? Hd']]); try done.
    + injection Hr as <- <-. rewrite Hsign by done. by auto 8.
    + by destruct (Hq tt).
    + by auto 8.
  - injection Hr as <- <-. split_and!; [done..|]. left. rewrite Hd, Hsign by done. split; [done|].
    replace (to_round t) with (sd_last_voted_round sd) by lia. by rewrite after_timeout_id.
Qed.

(** The checks of a request to sign a timeout. *)
Record timeout_verified (sd : SafetyData) (es : EpochState) (t : TwoChainTimeout)
    (tc : option TwoChainTimeoutCertificate) : Prop := {
  tv_epoch : to_epoch t = sd_epoch sd;
  tv_timeout : TwoChainTimeout.verify t (es_verifier es) = Ok tt;
  tv_tc : forall c, tc = Some c -> TwoChainTimeoutCertificate.verify c (es_verifier es) = Ok tt;
  tv_safe : SafetyRules.safe_to_timeout t tc sd = Ok tt;
  tv_round : sd_last_voted_round sd <= to_round t;
}.

(** Whatever the request returns, the disk changes only to record the round of a
    timeout that passed every check; a signature is returned only after that. *)
Lemma timeout_inv (self self' : SR) t tc r :
  sr_coherent self -> SafetyRules.guarded_sign_timeout_with_qc t tc self = (r, self') ->
  sr_coherent self' /\ validator_signer self' = validator_signer self /\
  epoch_state self' = epoch_state self /\
  ((exists sd es s, on_disk self = Some sd /\ epoch_state self = Some es /\
      validator_signer self = Some s /\ timeout_verified sd es t tc /\
      r = Ok (ValidatorSigner.sign s (TwoChainTimeout.signing_format t)) /\
      on_disk self' = Some (after_timeout sd (to_round t))) \/
   (on_disk self' = on_disk self /\ forall sg, r <> Ok sg)).
Proof.
  intros Hc Hr. unfold SafetyRules.guarded_sign_timeout_with_qc in Hr.
  apply gets_bind_inv in Hr as [(s & Hs & Hr)|[-> ?]]; [|by auto 8].
  apply method_bind_inv in Hr as [(sd & self1 & Hs1 & Hr)|(q & Hs1%quiet_safety_data & _ & ? & _)].
  2: { destruct Hs1. by auto 8. }
  apply safety_data_Ok in Hs1 as [Hd [Hc1 Hd1 Hsg1 He1]]; [|done].
  specialize (Hc1 Hc). specialize (Hd1 Hc).
  apply lift_bind_inv in Hr as [([] & Hep & Hr)|[-> ?]]; [|by auto 8].
  apply gets_bind_inv in Hr as [(es & Hes%ok_or_Ok & Hr)|[-> ?]]; [|by auto 8].
  apply lift_bind_inv in Hr as [([] & Htv & Hr)|[-> ?]]; [|by auto 8].
  apply gets_bind_inv in Hr as [([] & Htc & Hr)|[-> ?]]; [|by auto 8].
  apply lift_bind_inv in Hr as [([] & Hsafe & Hr)|[-> ?]]; [|by auto 8].
  apply lift_bind_inv in Hr as [([] & Hge & Hr)|[-> ?]]; [|by auto 8].
  unfold SafetyRules.verify_epoch in Hep. run_ok. breflect.
  apply signer_Ok in Hs.
  apply record_timeout_inv with (sd := sd) (s := s) in Hr as (? & ? & ? & Hor);
    [|done|by rewrite Hd1|congruence|lia].
  split_and!; [done|congruence|congruence|]. destruct Hor as [[-> Hd']|[Hd' ?]].
  - left. exists sd, es, s. split_and!; [done|congruence|done| |done..]. split; [done..| |done|lia].
    intros c ->. by eapply verify_tc_Ok.
  - right. split; [congruence|done].
Qed.

(** ** Commit votes and proposals *)
Lemma commit_vote_Ok (self self' : SR) li new_li sg :
  SafetyRules.guarded_sign_commit_vote li new_li self = (Ok sg, self') ->
  exists es s, epoch_state self = Some es /\ validator_signer self = Some s /\
    BlockInfo.is_ordered_only (li_commit_info (lis_ledger_info li)) = true /\
    BlockInfo.match_ordered_only (li_commit_info (lis_ledger_info li)) (li_commit_info new_li) = true /\
    LedgerInfoWithSignatures.verify_signatures li (es_verifier es) = Ok tt /\
    sg = ValidatorSigner.sign s new_li.
Proof.
  unfold SafetyRules.guarded_sign_commit_vote, SafetyRules.sign, SafetyRules.get_epoch_state,
    SafetyRules.signer.
  intros Hr. run_ok. by eexists _, _.
Qed.

(** ** Initialization *)

(** A new epoch starts only forward, and with fresh safety data. *)
Definition epoch_started (self self' : SR) (e : N) : Prop :=
  exists sd, on_disk self = Some sd /\ sd_epoch sd < e /\
    on_disk self' = Some (mkSafetyData e 0 0 0 None).

Lemma on_storage_set_waypoint (self self' : SR) w r :
  SafetyRules.on_storage (PersistentSafetyStorage.set_waypoint w) self = (r, self') ->
  same self self'.
Proof.
  unfold SafetyRules.on_storage.
  destruct (PersistentSafetyStorage.set_waypoint w (persistent_storage self)) as [q ps] eqn:Hq.
  intros [= <- <-]. split; [| |done..]; intros Hc;
    apply (set_waypoint_spec _ _ _ _ Hc) in Hq as [Hc' Hp]; done.
Qed.

Lemma clear_signer_reconcile (self self' : SR) author es r :
  SafetyRules.clear_signer_on_error (SafetyRules.reconcile_key author es) self = (r, self') ->
  persistent_storage self' = persistent_storage self /\ epoch_state self' = epoch_state self.
Proof.
  unfold SafetyRules.clear_signer_on_error, SafetyRules.reconcile_key.
  intros Hr. repeat (case_match; simplify_eq/=); done.
Qed.

(** The in-memory epoch is the one on disk. *)
Definition epoch_matches (self : SR) : Prop :=
  forall es sd, epoch_state self = Some es -> on_disk self = Some sd -> es_epoch es = sd_epoch sd.

Lemma same_epoch_matches (self self' : SR) :
  sr_coherent self -> same self self' -> epoch_matches self -> epoch_matches self'.
Proof.
  intros Hc [_ Hd _ He] Hm es sd. rewrite He, (Hd Hc). apply Hm.
Qed.

Lemma start_epoch_inv (self self' : SR) sd es (error : Error) r :
  sr_coherent self -> on_disk self = Some sd ->
  (match sd_epoch sd ?= es_epoch es with
   | Gt => lift (Err error)
   | Lt => SafetyRules.on_storage (PersistentSafetyStorage.set_safety_data
                                     (mkSafetyData (es_epoch es) 0 0 0 None))
   | Eq => mret tt
   end) self = (r, self') ->
  sr_coherent self' /\ epoch_state self' = epoch_state self /\
  ((r <> Ok tt /\ on_disk self' = on_disk self) \/
   (r = Ok tt /\ sd_epoch sd = es_epoch es /\ on_disk self' = on_disk self) \/
   (r = Ok tt /\ epoch_started self self' (es_epoch es))).
Proof.
  intros Hc Hd. destruct (N.compare_spec (sd_epoch sd) (es_epoch es)) as [He|He|He].
  - intros [-> ->]%ret_inv. by auto 8.
  - intros (? & ? & ? & [[-> Hd']|[? Hd']])%set_safety_data_inv; [|by auto 8|done].
    split_and!; [done..|]. right. right. split; [done|]. by exists sd.
  - intros [= <- <-]. by auto 8.
Qed.

Lemma initialize_inv (self self' : SR) proof r :
  sr_coherent self -> epoch_matches self ->
  SafetyRules.guarded_initialize proof self = (r, self') ->
  sr_coherent self' /\ epoch_matches self' /\
  (on_disk self' = on_disk self \/ exists e, epoch_started self self' e) /\
  (epoch_state self' = epoch_state self \/
   exists w li es, EpochChangeProof.verify proof w = Ok li /\
     LedgerInfo.next_epoch_state (lis_ledger_info li) = Some es /\ epoch_state self' = Some es).
Proof.
  intros Hc Hm Hr. unfold SafetyRules.guarded_initialize in Hr.
  apply gets_bind_inv in Hr as [(w & Hw & Hr)|[-> ?]]; [|by auto 8].
  apply lift_bind_inv in Hr as [(li & Hli & Hr)|[-> ?]]; [|by auto 8].
  apply lift_bind_inv in Hr as [(es & Hes & Hr)|[-> ?]]; [|by auto 8].
  apply lift_bind_inv in Hr as [(nw & Hnw & Hr)|[-> ?]]; [|by auto 8].
  run_ok.
  assert (forall q self1, (if wp_version w <? wp_version nw
     then SafetyRules.on_storage (PersistentSafetyStorage.set_waypoint nw) else mret tt) self
     = (q, self1) -> same self self1) as Hset.
  { intros q self1. case_match; [apply on_storage_set_waypoint | by intros [-> ->]%ret_inv]. }
  apply method_bind_inv in Hr as [(? & self1 & Hs1%Hset & Hr)|(q & Hs1%Hset & _)].
  2: { pose proof (same_epoch_matches _ _ Hc Hs1 Hm). destruct Hs1. by auto 8. }
  pose proof (same_coherent _ _ Hs1 Hc) as Hc1.
  apply method_bind_inv in Hr as [(sd & self2 & Hs2 & Hr)|(q & Hs2%quiet_safety_data & _)].
  2: { pose proof (transitivity Hs1 Hs2) as Hs.
       pose proof (same_epoch_matches _ _ Hc Hs Hm). destruct Hs. by auto 8. }
  apply safety_data_Ok in Hs2 as [Hd1 Hs2]; [|done].
  pose proof (transitivity Hs1 Hs2) as Hs. pose proof (same_coherent _ _ Hs Hc) as Hc2.
  pose proof (same_disk _ _ Hs Hc) as Hd2. rewrite (same_disk _ _ Hs1 Hc) in Hd1.
  assert (forall self3, epoch_started self2 self3 (es_epoch es) ->
            epoch_started self self3 (es_epoch es)) as Hst.
  { intros self3 (sd' & Hsd' & ?). exists sd'. by rewrite <-Hd2. }
  apply method_bind_inv in Hr as [([] & self3 & Hs3 & Hr)|(q & Hs3 & Hq & ? & _)];
    apply start_epoch_inv in Hs3 as (Hc3 & He3 & Hor); [|done|by rewrite Hd2| |done|by rewrite Hd2].
  2: { destruct Hor as [[_ Hd3]|[[-> _]|[-> _]]]; [|by destruct (Hq tt)..].
       rewrite Hd2 in Hd3. rewrite (same_epoch_state _ _ Hs) in He3. split_and!; [done| |by auto..].
       intros es' sd'. rewrite He3, Hd3. apply Hm. }
  assert (epoch_matches (SafetyRules.set_epoch_state (Some es) self3)) as Hm3.
  { intros es' sd' [= <-]. change (on_disk (SafetyRules.set_epoch_state (Some es) self3)) with (on_disk self3).
    destruct Hor as [[? _]|[(_ & He & ->)|(_ & ? & _ & _ & ->)]]; [done| |by intros [= <-]].
    rewrite Hd2, Hd1. by intros [= <-]. }
  assert (on_disk self3 = on_disk self \/ exists e, epoch_started self self3 e) as Hdisk.
  { destruct Hor as [[? _]|[(_ & _ & ->)|[_ ?]]]; [done|by eauto..]. }
  apply method_bind_inv in Hr as [(? & self4 & [= <- <-] & Hr)|(q & [= <- <-] & Hq & _)].
  2: { by destruct (Hq tt). }
  apply gets_bind_inv in Hr as [(a & Ha & Hr)|[-> ?]].
  - apply clear_signer_reconcile in Hr as [Hp He].
    assert (on_disk self' = on_disk self3) as Hd4 by (unfold on_disk; by rewrite Hp).
    split_and!.
    + unfold sr_coherent. by rewrite Hp.
    + intros es' sd'. rewrite He, Hd4. apply Hm3.
    + unfold epoch_started in *. by rewrite Hd4.
    + right. by eexists _, _, _.
  - split_and!; [done..|]. right. by eexists _, _, _.
Qed.
End lemmas.
