(* ===== verification/Replica.v ===== *)
(** * A replica's safety rules over time

    One replica as a state machine: the requests it serves, its crashes and
    restarts, and the failures of its storage, with the list of everything it
    has released under its consensus key.  The invariant below is what the rest
    of the protocol relies on. *)

From S2P Require Import Prelude Crypto Errors Position Accumulator Verifier Ledger ConsensusTypes Blocks Storage SafetyRules SafetyLemmas.

(** What leaves safety rules with a signature on it. *)
Inductive Released : Type :=
  | RVote (vote : Vote)
  | RTimeout (timeout : TimeoutSigningRepr)
  | RProposal (block_data : BlockData)
  | RCommit (ledger_info : LedgerInfo).

#[global] Instance Released_eq_dec : EqDecision Released.
Proof. solve_decision. Defined.

Definition released (input : SafetyRulesInput) (r : outcome Error SafetyRulesOutput)
    : list Released :=
  match input, r with
  | InConstructAndSignVoteTwoChain _ _, Ok (OutVote vote) => [RVote vote]
  | InSignTimeoutWithQC timeout _, Ok (OutSignature _) =>
      [RTimeout (TwoChainTimeout.signing_format timeout)]
  | InSignProposal block_data, Ok (OutSignature _) => [RProposal block_data]
  | InSignCommitVote _ new_ledger_info, Ok (OutSignature _) => [RCommit new_ledger_info]
  | _, _ => []
  end.

Definition vote_epoch (v : Vote) : N := bi_epoch (vd_proposed (v_vote_data v)).
Definition vote_round (v : Vote) : Round := bi_round (vd_proposed (v_vote_data v)).
Definition parent_round (v : Vote) : Round := bi_round (vd_parent (v_vote_data v)).

Section replica.
Context `{KVStorageLaws Store} `{ConsensusCrypto}.
Abbreviation SR := (SafetyRules Store) (only parsing).

Record Replica : Type := mkReplica { r_rules : SR; r_released : list Released }.

Inductive Event : Type :=
  | Request (now : N) (info_enabled : bool) (input : SafetyRulesInput)
  | Restart (enable_cached_safety_data : bool)
  | StorageChange (s : Store).

(** The process comes back with what its storage holds and nothing else. *)
Definition restarted (self : SR) (b : bool) : SR :=
  SafetyRules.new (PersistentSafetyStorage.new (internal_store (persistent_storage self)) b).

(** The storage engine may become unavailable or available again. *)
Definition with_store (self : SR) (s : Store) : SR :=
  mkSafetyRules (PersistentSafetyStorage.set_store (persistent_storage self) s)
    (validator_signer self) (epoch_state self).

Inductive replica_step : Replica -> Event -> Replica -> Prop :=
  | step_request self log now info input r self' :
      SafetyRules.handle_message now info input self = (r, self') ->
      replica_step (mkReplica self log) (Request now info input)
        (mkReplica self' (released input r ++ log))
  | step_restart self log b :
      replica_step (mkReplica self log) (Restart b) (mkReplica (restarted self b) log)
  | step_storage self log s :
      (forall k, content s k = content (internal_store (persistent_storage self)) k) ->
      replica_step (mkReplica self log) (StorageChange s) (mkReplica (with_store self s) log).

(** A replica before its first request: its storage has safety data without a vote. *)
Definition replica_init (self : SR) : Prop :=
  sr_coherent self /\ epoch_state self = None /\
  exists sd, on_disk self = Some sd /\ sd_last_vote sd = None.

Inductive replica_reachable : Replica -> Prop :=
  | reachable_init self : replica_init self -> replica_reachable (mkReplica self [])
  | reachable_step n e n' : replica_reachable n -> replica_step n e n' -> replica_reachable n'.

(** ** The invariant *)

(** The released votes and timeouts are consistent with the safety data and with
    each other. *)
Record log_ok (sd : SafetyData) (log : list Released) : Prop := {
  lo_last_vote v : sd_last_vote sd = Some v -> RVote v ∈ log;
  lo_vote v : RVote v ∈ log ->
    vote_epoch v < sd_epoch sd \/
    (vote_epoch v = sd_epoch sd /\ vote_round v <= sd_last_voted_round sd /\
     parent_round v <= sd_one_chain_round sd);
  lo_timeout t : RTimeout t ∈ log ->
    tsr_epoch t < sd_epoch sd \/
    (tsr_epoch t = sd_epoch sd /\ tsr_round t <= sd_last_voted_round sd);
  lo_unique v v' : RVote v ∈ log -> RVote v' ∈ log ->
    vote_epoch v = vote_epoch v' -> vote_round v = vote_round v' -> v = v';
  lo_vote_timeout v t : RVote v ∈ log -> RTimeout t ∈ log ->
    vote_epoch v = tsr_epoch t -> vote_round v <= tsr_round t ->
    parent_round v <= tsr_hqc_round t;
}.

Record replica_ok (n : Replica) : Prop := {
  ro_coherent : sr_coherent (r_rules n);
  ro_epoch : epoch_matches (r_rules n);
  ro_log : exists sd, on_disk (r_rules n) = Some sd /\ log_ok sd (r_released n);
}.

Lemma log_ok_nil sd : sd_last_vote sd = None -> log_ok sd [].
Proof. intros Hl. split; [congruence | set_solver..]. Qed.

(** Entries other than votes and timeouts do not matter. *)
Lemma log_ok_other sd x log :
  (forall v, x <> RVote v) -> (forall t, x <> RTimeout t) -> log_ok sd log -> log_ok sd (x :: log).
Proof.
  intros Hv Ht [L1 L2 L3 L4 L5].
  assert (forall v, RVote v ∈ x :: log -> RVote v ∈ log) as Hv'.
  { intros v [?|?]%elem_of_cons; [naive_solver|done]. }
  assert (forall t, RTimeout t ∈ x :: log -> RTimeout t ∈ log) as Ht'.
  { intros t [?|?]%elem_of_cons; [naive_solver|done]. }
  split; eauto. intros v Hl. apply elem_of_cons. eauto.
Qed.

(** Sending the same vote again. *)
Lemma log_ok_resend sd v log : RVote v ∈ log -> log_ok sd log -> log_ok sd (RVote v :: log).
Proof.
  intros Hin [L1 L2 L3 L4 L5].
  assert (forall w, RVote w ∈ RVote v :: log -> RVote w ∈ log) as Hv'.
  { intros w [[= ->]|?]%elem_of_cons; done. }
  assert (forall t, RTimeout t ∈ RVote v :: log -> RTimeout t ∈ log) as Ht'.
  { intros t [?|?]%elem_of_cons; done. }
  split; eauto. intros w Hl. apply elem_of_cons. eauto.
Qed.

(** A new vote is in a round above everything released before. *)
Lemma log_ok_vote sd sd' v log :
  log_ok sd log -> sd_epoch sd' = sd_epoch sd -> sd_last_vote sd' = Some v ->
  vote_epoch v = sd_epoch sd -> sd_last_voted_round sd < vote_round v ->
  sd_last_voted_round sd' = vote_round v ->
  sd_one_chain_round sd' = N.max (sd_one_chain_round sd) (parent_round v) ->
  log_ok sd' (RVote v :: log).
Proof.
  intros [L1 L2 L3 L4 L5] He Hl Hve Hlt Hl' Ho.
  assert (forall w, RVote w ∈ log -> vote_epoch v = vote_epoch w -> vote_round w < vote_round v) as Hnew.
  { intros w Hw ?. destruct (L2 _ Hw) as [?|?]; lia. }
  split.
  - intros w Hw. rewrite Hl in Hw. injection Hw as <-. left.
  - intros w [[= ->]|Hw]%elem_of_cons; [lia|]. destruct (L2 _ Hw); lia.
  - intros t [?|Ht]%elem_of_cons; [done|]. destruct (L3 _ Ht); lia.
  - intros w w' [[= ->]|Hw]%elem_of_cons [[= ->]|Hw']%elem_of_cons ??; [done|..|by auto].
    + specialize (Hnew _ Hw'). lia.
    + specialize (Hnew _ Hw). lia.
  - intros w t [[= ->]|Hw]%elem_of_cons [?|Ht]%elem_of_cons ??; [done|..|done|by eauto].
    destruct (L3 _ Ht); lia.
Qed.

(** A timeout is in a round no older than the last vote, and vouches for a
    certificate at least as recent as the parent of every vote so far. *)
Lemma log_ok_timeout sd t log :
  log_ok sd log -> tsr_epoch t = sd_epoch sd -> sd_last_voted_round sd <= tsr_round t ->
  sd_one_chain_round sd <= tsr_hqc_round t ->
  log_ok (after_timeout sd (tsr_round t)) (RTimeout t :: log).
Proof.
  intros [L1 L2 L3 L4 L5] He Hle Ho. unfold after_timeout.
  assert (forall v, RVote v ∈ RTimeout t :: log -> RVote v ∈ log) as Hv'.
  { intros v [?|?]%elem_of_cons; done. }
  split; simpl; eauto.
  - intros v Hl. apply elem_of_cons. eauto.
  - intros v Hv%Hv'. destruct (L2 _ Hv); lia.
  - intros u [[= ->]|Hu]%elem_of_cons; [lia|]. destruct (L3 _ Hu); lia.
  - intros v u Hv%Hv' [[= ->]|Hu]%elem_of_cons ??; [|by eauto]. destruct (L2 _ Hv); lia.
Qed.

Lemma log_ok_epoch sd log e :
  log_ok sd log -> sd_epoch sd < e -> log_ok (mkSafetyData e 0 0 0 None) log.
Proof.
  intros [L1 L2 L3 L4 L5] Hlt. split; simpl; eauto; [done|..].
  - intros v Hv. destruct (L2 _ Hv); lia.
  - intros t Ht. destruct (L3 _ Ht); lia.
Qed.

(** ** Every step keeps the invariant *)

Lemma quiet_ok {A} (m : method SR Error A) self self' r log :
  quiet m -> m self = (r, self') -> replica_ok (mkReplica self log) -> replica_ok (mkReplica self' log).
Proof.
  intros Hq Hs%Hq [Hc He (sd & Hd & Hl)]. simpl in *.
  split; simpl; [by eapply same_coherent | by eapply same_epoch_matches |].
  exists sd. by rewrite (same_disk _ _ Hs Hc).
Qed.

Lemma replica_ok_other self log x :
  (forall v, x <> RVote v) -> (forall t, x <> RTimeout t) ->
  replica_ok (mkReplica self log) -> replica_ok (mkReplica self (x :: log)).
Proof.
  intros Hv Ht [Hc He (sd & Hd & Hl)]. split; [done..|]. exists sd. split; [done|].
  by apply log_ok_other.
Qed.

Lemma vote_ok self self' log now vp tc r :
  replica_ok (mkReplica self log) ->
  SafetyRules.guarded_construct_and_sign_vote_two_chain now vp tc self = (r, self') ->
  replica_ok (mkReplica self' (match r with Ok v => RVote v :: log | _ => log end)).
Proof.
  intros [Hc He (sd & Hd & Hl)] Hr. simpl in *.
  destruct (vote_inv _ _ _ _ _ _ Hc Hr) as (Hc' & _ & He' & Hor).
  assert (forall sd', on_disk self' = Some sd' -> sd_epoch sd' = sd_epoch sd -> epoch_matches self') as Hm.
  { intros sd' Hd' Hs es sd'' Hes Hd''. rewrite He' in Hes. rewrite Hd' in Hd''. simplify_eq.
    rewrite Hs. by apply He. }
  destruct r as [v|e|].
  2,3: destruct Hor as [Hd'|[? ?]]; [|done]; rewrite Hd in Hd'; split; simpl; eauto.
  apply vote_Ok in Hr as (sd1 & es & s & vd & Hd1 & Hes & Hsg & Hpv & _ & Hcase); [|done].
  rewrite Hd in Hd1. injection Hd1 as <-.
  destruct Hcase as [[Hprev Hd']|(_ & Hlt & _ & -> & Hd')].
  - rewrite Hd in Hd'. split; simpl; [done|by eauto|]. exists sd. split; [done|].
    apply log_ok_resend; [|done]. unfold SafetyRules.previous_vote in Hprev.
    destruct (sd_last_vote sd) as [w|] eqn:Hw; simpl in Hprev; [|done].
    case_match; simplify_eq. by eapply lo_last_vote.
  - destruct (gen_vote_data_Ok _ _ (pv_vote_data _ _ _ _ _ Hpv)) as (Hge & Hgr & _ & Hgp).
    split; simpl; [done|by eauto|]. eexists. split; [done|].
    eapply log_ok_vote; [done..| | | |]; unfold vote_epoch, vote_round, parent_round; simpl.
    + rewrite Hge. apply (pv_epoch _ _ _ _ _ Hpv).
    + by rewrite Hgr.
    + by rewrite Hgr.
    + by rewrite Hgp.
Qed.

Lemma timeout_ok self self' log t tc r :
  replica_ok (mkReplica self log) ->
  SafetyRules.guarded_sign_timeout_with_qc t tc self = (r, self') ->
  replica_ok (mkReplica self'
    (match r with Ok _ => RTimeout (TwoChainTimeout.signing_format t) :: log | _ => log end)).
Proof.
  intros [Hc He (sd & Hd & Hl)] Hr. simpl in *.
  apply timeout_inv in Hr as (Hc' & _ & He' & Hor); [|done].
  destruct Hor as [(sd1 & es & s & Hd1 & Hes & _ & [Hep _ _ Hsafe Hround] & -> & Hd')|[Hd' Hn]].
  - rewrite Hd in Hd1. injection Hd1 as <-.
    assert (epoch_matches self') as Hm.
    { intros es' sd'. rewrite He', Hd'. intros Hes' [= <-]. simpl. by apply He. }
    unfold SafetyRules.safe_to_timeout in Hsafe. run_ok. breflect.
    split; simpl; [done..|]. eexists. split; [done|].
    by apply (log_ok_timeout sd (TwoChainTimeout.signing_format t)).
  - rewrite Hd in Hd'. destruct r as [sg|e|]; [by destruct (Hn sg)|..].
    all: split; simpl; [done| |by eauto]; intros es' sd'; rewrite He', Hd'; intros ? [= <-]; by apply He.
Qed.

Lemma initialize_ok self self' log proof r :
  replica_ok (mkReplica self log) ->
  SafetyRules.guarded_initialize proof self = (r, self') -> replica_ok (mkReplica self' log).
Proof.
  intros [Hc He (sd & Hd & Hl)] Hr. simpl in *.
  apply initialize_inv in Hr as (Hc' & Hm' & Hor & _); [|done..].
  split; simpl; [done..|]. destruct Hor as [Hd'|(e & sd1 & Hd1 & Hlt & Hd')].
  - exists sd. by rewrite Hd'.
  - rewrite Hd in Hd1. injection Hd1 as <-. eexists. split; [done|]. by eapply log_ok_epoch.
Qed.

(** A response that wraps the result of an operation. *)
Lemma response_inv {A} (m : method SR Error A) (f : A -> SafetyRulesOutput) self r self' :
  (a ← m; mret (f a)) self = (r, self') ->
  exists q, m self = (q, self') /\ r = (match q with Ok a => Ok (f a) | Err e => Err e | Panic => Panic end).
Proof.
  unfold mbind, method_bind. destruct (m self) as [[a|e|] t]; intros [= <- <-]; eauto.
Qed.

Lemma request_ok self self' log now info input r :
  replica_ok (mkReplica self log) ->
  SafetyRules.handle_message now info input self = (r, self') ->
  replica_ok (mkReplica self' (released input r ++ log)).
Proof.
  intros Hok Hr. destruct input; simpl in Hr; apply response_inv in Hr as (q & Hq & ->).
  - eapply quiet_ok in Hq; [|apply quiet_consensus_state|done]. by destruct q.
  - eapply initialize_ok in Hq; [|done]. by destruct q.
  - eapply quiet_ok in Hq; [|apply quiet_sign_proposal|done]. destruct q; [by apply replica_ok_other|done..].
  - eapply timeout_ok in Hq; [|done]. by destruct q.
  - eapply vote_ok in Hq; [|done]. by destruct q.
  - eapply quiet_ok in Hq; [|apply quiet_sign_commit_vote|done]. destruct q; [by apply replica_ok_other|done..].
Qed.

Lemma replica_step_ok n e n' : replica_ok n -> replica_step n e n' -> replica_ok n'.
Proof.
  intros Hok Hs. destruct Hs as [self log now info input r self' Hr|self log b|self log s Hs].
  - by eapply request_ok.
  - destruct Hok as [Hc He Hl]. split; simpl in *; [apply new_coherent|by intros es sd|].
    destruct Hl as (sd & Hd & Hl). by exists sd.
  - destruct Hok as [Hc He (sd & Hd & Hl)]. simpl in *.
    assert (on_disk (with_store self s) = on_disk self) as Hd'.
    { unfold on_disk, persisted. simpl. by rewrite Hs. }
    split; simpl.
    + intros sd' Hc'. fold (on_disk (with_store self s)). rewrite Hd'. by apply Hc.
    + intros es sd'. rewrite Hd'. apply He.
    + exists sd. by rewrite Hd'.
Qed.

(** ** The safety data only move forward *)
Definition safety_data_le (sd sd' : SafetyData) : Prop :=
  sd_epoch sd < sd_epoch sd' \/
  (sd_epoch sd = sd_epoch sd' /\ sd_last_voted_round sd <= sd_last_voted_round sd' /\
   sd_preferred_round sd <= sd_preferred_round sd' /\
   sd_one_chain_round sd <= sd_one_chain_round sd').

#[local] Instance safety_data_le_refl : Reflexive safety_data_le.
Proof. intros sd. right. lia. Qed.
#[local] Instance safety_data_le_trans : Transitive safety_data_le.
Proof. intros a b c [?|?] [?|?]; [left; lia..|right; lia]. Qed.

Lemma request_monotone (self self' : SR) now info input r sd sd' :
  sr_coherent self -> epoch_matches self ->
  SafetyRules.handle_message now info input self = (r, self') ->
  on_disk self = Some sd -> on_disk self' = Some sd' -> safety_data_le sd sd'.
Proof.
  intros Hc Hm Hr Hd Hd'.
  assert (on_disk self' = on_disk self -> safety_data_le sd sd') as Heq.
  { intros He. rewrite He, Hd in Hd'. by injection Hd' as <-. }
  destruct input; simpl in Hr; apply response_inv in Hr as (q & Hq & ->).
  - apply quiet_consensus_state in Hq as [_ Hs _ _]. auto.
  - apply initialize_inv in Hq as (_ & _ & [?|(e & sd1 & Hd1 & Hlt & Hd1')] & _); [by auto| |done..].
    rewrite Hd in Hd1. rewrite Hd' in Hd1'. simplify_eq. left. done.
  - apply quiet_sign_proposal in Hq as [_ Hs _ _]. auto.
  - apply timeout_inv in Hq as (_ & _ & _ & [(sd1 & es & s & Hd1 & _ & _ & [] & _ & Hd1')|[? _]]); [|by auto|done].
    rewrite Hd in Hd1. rewrite Hd' in Hd1'. simplify_eq. right. simpl. lia.
  - pose proof (vote_inv _ _ _ _ _ _ Hc Hq) as (_ & _ & _ & [?|[v ->]]); [by auto|].
    apply vote_Ok in Hq as (sd1 & es & s & vd & Hd1 & _ & _ & _ & _ & [[_ ?]|(_ & Hlt & _ & _ & Hd1')]); [by auto| |done].
    rewrite Hd in Hd1. rewrite Hd' in Hd1'. simplify_eq. right. simpl. lia.
  - apply quiet_sign_commit_vote in Hq as [_ Hs _ _]. auto.
Qed.

Lemma replica_reachable_ok n : replica_reachable n -> replica_ok n.
Proof.
  induction 1 as [self (Hc & He & sd & Hd & Hl)|n e n' _ IH Hs].
  - split; simpl; [done|by intros es sd'; rewrite He|]. exists sd. split; [done|]. by apply log_ok_nil.
  - by eapply replica_step_ok.
Qed.
End replica.

Arguments Replica Store : clear implicits.
Arguments Event Store : clear implicits.
Arguments mkReplica {Store} _ _.
Arguments r_rules {Store} _.
Arguments r_released {Store} _.
Arguments Request {Store} _ _ _.
Arguments Restart {Store} _.
Arguments StorageChange {Store} _.
