(* ===== verification/Bft.v ===== *)
(** * Agreement of the two-chain protocol

    A system of replicas, each running safety rules, under an adversary that
    controls the network, every request made to safety rules, the crashes of the
    replicas, and all keys outside the set of honest validators.  The adversary
    cannot forge signatures of honest validators.  The theorems show that what
    safety rules signs can never commit two conflicting blocks. *)

From S2P Require Import Prelude Crypto Errors Position Accumulator Verifier Ledger ConsensusTypes Blocks Storage SafetyRules SafetyLemmas Replica.

(** ** Checked certificates *)
Section certificates.
Context `{ConsensusCrypto}.

Lemma verify_signed_rounds_Ok tc vs acc l m :
  TwoChainTimeoutCertificate.verify_signed_rounds tc vs acc l = Ok m ->
  acc <= m /\
  Forall (fun p => p.2.1 <= m /\
            Verifier.verify vs p.1
              (mkTimeoutSigningRepr (TwoChainTimeoutCertificate.epoch tc)
                 (TwoChainTimeoutCertificate.round tc) p.2.1) p.2.2 = Ok tt) l.
Proof.
  revert acc. induction l as [|[a [q s]] l IH]; intros acc; simpl.
  { intros [= ->]. split; [lia|done]. }
  intros Hv. run. apply IH in Hv as [? Hall]. split; [lia|].
  constructor; [simpl; split; [lia|done]|done].
Qed.

(** A valid timeout certificate: a quorum signed timeouts of its epoch and round,
    none of them for a certificate above the one it carries. *)
Lemma tc_verify_Ok tc vs :
  TwoChainTimeoutCertificate.verify tc vs = Ok tt ->
  is_quorum vs (dom (tc_signatures tc)) /\
  forall a q s, tc_signatures tc !! a = Some (q, s) ->
    q <= TwoChainTimeoutCertificate.highest_hqc_round tc /\
    Verifier.verify vs a
      (mkTimeoutSigningRepr (TwoChainTimeoutCertificate.epoch tc)
         (TwoChainTimeoutCertificate.round tc) q) s = Ok tt.
Proof.
  unfold TwoChainTimeoutCertificate.verify. intros Hv. run. breflect.
  split; [by apply check_voting_power_dom|]. intros a q s Ha.
  match goal with H : TwoChainTimeoutCertificate.verify_signed_rounds _ _ _ _ = _ |- _ =>
    apply verify_signed_rounds_Ok in H as [_ Hall] end.
  rewrite Forall_forall in Hall. unfold TwoChainTimeoutCertificate.highest_hqc_round. rewrite Hv.
  apply (Hall (a, (q, s))). by apply elem_of_btree_iter.
Qed.

(** A valid quorum certificate above round 0: a quorum signed a ledger info that
    carries the hash of its vote data. *)
Lemma qc_verify_Ok qc vs :
  QuorumCert.verify qc vs = Ok tt -> bi_round (QuorumCert.certified_block qc) <> 0 ->
  li_consensus_data_hash (QuorumCert.ledger_info qc) = hash (qc_vote_data qc) /\
  is_quorum vs (dom (lis_signatures (qc_signed_ledger_info qc))) /\
  (forall a s, lis_signatures (qc_signed_ledger_info qc) !! a = Some s ->
     Verifier.verify vs a (QuorumCert.ledger_info qc) s = Ok tt) /\
  VoteData.verify (qc_vote_data qc) = Ok tt.
Proof.
  unfold QuorumCert.verify. intros Hv Hr. run. breflect.
  rewrite (proj2 (N.eqb_neq _ _) Hr) in Hv. run.
  match goal with H : LedgerInfoWithSignatures.verify_signatures _ _ = _ |- _ =>
    apply batch_verify_sound in H as [??] end.
  done.
Qed.
End certificates.

(** ** The system *)
Section bft.
Context `{KVStorageLaws Store} `{ConsensusCrypto} `{!CollisionFree VoteData}.

(** The validators of each epoch, and those that run this code. *)
Context (V : N -> ValidatorVerifier) (honest : gset N).

Abbreviation System := (gmap N (Replica Store)) (only parsing).
Implicit Types (g : gmap N (Replica Store)).

Definition in_log g (a : N) (x : Released) : Prop :=
  exists n, g !! a = Some n /\ x ∈ r_released n.

Definition signed_ledger_info g (a : N) (li : LedgerInfo) : Prop :=
  (exists v, in_log g a (RVote v) /\ v_ledger_info v = li) \/ in_log g a (RCommit li).

(** Unforgeability: a signature that verifies under an honest validator's key was
    released by that validator's safety rules. *)
Definition unforged_li g (lis : LedgerInfoWithSignatures) : Prop :=
  forall e a s, a ∈ honest -> lis_signatures lis !! a = Some s ->
    Verifier.verify (V e) a (lis_ledger_info lis) s = Ok tt ->
    signed_ledger_info g a (lis_ledger_info lis).
Definition unforged_tc g (tc : TwoChainTimeoutCertificate) : Prop :=
  forall e a q s, a ∈ honest -> tc_signatures tc !! a = Some (q, s) ->
    let t := mkTimeoutSigningRepr (TwoChainTimeoutCertificate.epoch tc)
               (TwoChainTimeoutCertificate.round tc) q in
    Verifier.verify (V e) a t s = Ok tt -> in_log g a (RTimeout t).

(** What the callers of safety rules guarantee, besides unforgeability, and safety rules
    do not check: the timeout certificate is of the block's epoch (checked by
    [SyncInfo::verify]), a commit vote keeps the consensus data hash of the ordered
    ledger info and is requested in the epoch of that ledger info, and epoch change
    proofs lead to the validator sets of the chain.  RoundManagerProps.v shows that the
    round manager does its part; the callers that ask for commit votes are not modelled,
    so that for these it is an assumption. *)
Definition allowed g (n n' : Replica Store) (e : Event Store) : Prop :=
  match e with
  | Request _ _ (InConstructAndSignVoteTwoChain vp tc) =>
      unforged_li g (qc_signed_ledger_info (Block.quorum_cert (vp_block vp))) /\
      forall c, tc = Some c ->
        unforged_tc g c /\ TwoChainTimeoutCertificate.epoch c = Block.epoch (vp_block vp)
  | Request _ _ (InSignCommitVote li new_li) =>
      unforged_li g li /\ li_consensus_data_hash new_li = li_consensus_data_hash (lis_ledger_info li) /\
      forall es, epoch_state (r_rules n) = Some es ->
        es_epoch es = bi_epoch (li_commit_info (lis_ledger_info li))
  | Request _ _ (InInitialize _) =>
      forall es, epoch_state (r_rules n') = Some es -> es_verifier es = V (es_epoch es)
  | _ => True
  end.

Inductive system_step : gmap N (Replica Store) -> gmap N (Replica Store) -> Prop :=
  | system_replica_step g a n e n' :
      g !! a = Some n -> replica_step n e n' -> allowed g n n' e ->
      system_step g (<[ a := n' ]> g).

Definition system_init g : Prop :=
  dom g = honest /\
  forall a n, g !! a = Some n -> replica_init (r_rules n) /\ r_released n = [].

Inductive system_reachable : gmap N (Replica Store) -> Prop :=
  | system_start g : system_init g -> system_reachable g
  | system_next g g' : system_reachable g -> system_step g g' -> system_reachable g'.

(** ** What a quorum has voted for *)
Definition voted g (a : N) (vd : VoteData) : Prop :=
  exists v, in_log g a (RVote v) /\ v_vote_data v = vd.

Definition certified g (vd : VoteData) : Prop :=
  exists Q, is_quorum (V (bi_epoch (vd_proposed vd))) Q /\
    forall a, a ∈ Q -> a ∈ honest -> voted g a vd.

Definition timeout_quorum g (e round hqc : N) : Prop :=
  exists Q, is_quorum (V e) Q /\
    forall a, a ∈ Q -> a ∈ honest ->
      exists q, q <= hqc /\ in_log g a (RTimeout (mkTimeoutSigningRepr e round q)).

(** Why a vote was cast. *)
Record supported g (v : Vote) : Prop := {
  su_hash : li_consensus_data_hash (v_ledger_info v) = hash (v_vote_data v);
  su_commit : li_commit_info (v_ledger_info v) =
    if parent_round v + 1 =? vote_round v then vd_parent (v_vote_data v) else BlockInfo.empty;
  su_epoch : bi_epoch (vd_parent (v_vote_data v)) = vote_epoch v;
  su_round : parent_round v < vote_round v;
  su_parent : parent_round v = 0 \/
    exists vd, certified g vd /\ vd_proposed vd = vd_parent (v_vote_data v);
  su_rule : parent_round v + 1 = vote_round v \/
    exists round hqc, round + 1 = vote_round v /\ hqc <= parent_round v /\
      timeout_quorum g (vote_epoch v) round hqc;
}.

(** Same block, whatever its execution gave. *)
Definition same_block (b b' : BlockInfo) : Prop :=
  bi_epoch b = bi_epoch b' /\ bi_round b = bi_round b' /\ bi_id b = bi_id b'.

(** A block that a two-chain commits: certified by a block of the next round. *)
Definition two_chain g (vd : VoteData) : Prop :=
  certified g vd /\ bi_round (vd_parent vd) + 1 = bi_round (vd_proposed vd).

Record system_ok g : Prop := {
  so_dom : dom g = honest;
  so_replica a n : g !! a = Some n ->
    replica_ok n /\
    forall es, epoch_state (r_rules n) = Some es -> es_verifier es = V (es_epoch es);
  so_vote a v : in_log g a (RVote v) -> supported g v;
  so_commit a li : in_log g a (RCommit li) ->
    exists vd, two_chain g vd /\ hash vd = li_consensus_data_hash li /\
      same_block (vd_parent vd) (li_commit_info li);
}.

(** *** Logs only grow *)
Definition grows g g' : Prop := forall a x, in_log g a x -> in_log g' a x.

Lemma voted_grows g g' a vd : grows g g' -> voted g a vd -> voted g' a vd.
Proof. intros Hg (v & ? & ?). exists v. auto. Qed.
Lemma certified_grows g g' vd : grows g g' -> certified g vd -> certified g' vd.
Proof. intros Hg (Q & ? & HQ). exists Q. split; [done|]. eauto using voted_grows. Qed.
Lemma timeout_quorum_grows g g' e r h :
  grows g g' -> timeout_quorum g e r h -> timeout_quorum g' e r h.
Proof.
  intros Hg (Q & ? & HQ). exists Q. split; [done|]. intros a Ha Hh.
  destruct (HQ a Ha Hh) as (q & ? & ?). eauto.
Qed.
Lemma supported_grows g g' v : grows g g' -> supported g v -> supported g' v.
Proof.
  intros Hg [S1 S2 S3 Sr S4 S5]. split; [done..| |].
  - destruct S4 as [?|(vd & ? & ?)]; [by left|right]. eauto using certified_grows.
  - destruct S5 as [?|(r & h & ? & ? & ?)]; [by left|right]. eauto 6 using timeout_quorum_grows.
Qed.
Lemma two_chain_grows g g' vd : grows g g' -> two_chain g vd -> two_chain g' vd.
Proof. intros Hg [??]. split; eauto using certified_grows. Qed.

(** *** Certificates speak about the logs *)

(** Either everyone in the list has [P], or someone gives [C]. *)
Lemma all_or {A} (P : A -> Prop) (C : Prop) (l : list A) :
  (forall a, a ∈ l -> P a \/ C) -> (forall a, a ∈ l -> P a) \/ C.
Proof.
  induction l as [|a l IH]; intros Hl; [left; set_solver|].
  destruct (Hl a) as [Ha|?]; [left|..|by right].
  destruct IH as [IH|?]; [|left|by right].
  - intros b Hb. apply Hl. by right.
  - intros b [->|Hb]%elem_of_cons; auto.
Qed.

(** A quorum of signatures on a ledger info with the hash of [vd], by votes or by
    commit votes, means a quorum of votes for [vd]. *)
Lemma li_quorum_certified g Q li vd :
  system_ok g -> is_quorum (V (bi_epoch (vd_proposed vd))) Q ->
  (forall a, a ∈ Q -> a ∈ honest -> signed_ledger_info g a li) ->
  li_consensus_data_hash li = hash vd -> certified g vd.
Proof.
  intros Hok HQ Hs Hh.
  destruct (all_or (fun a => voted g a vd) (certified g vd) (elements (Q ∩ honest))) as [Hall|?].
  - intros a Ha. rewrite elem_of_elements, elem_of_intersection in Ha. destruct Ha as [Ha Hh'].
    destruct (Hs a Ha Hh') as [(v & Hv & <-)|Hc].
    + left. exists v. split; [done|]. apply hash_inj.
      by rewrite <-(su_hash _ _ (so_vote _ Hok _ _ Hv)).
    + right. destruct (so_commit _ Hok _ _ Hc) as (vd' & [Hcert _] & Hh'' & _).
      replace vd with vd'; [done|]. apply hash_inj. congruence.
  - exists Q. split; [done|]. intros a Ha Hh'. apply Hall.
    by rewrite elem_of_elements, elem_of_intersection.
  - done.
Qed.

Lemma qc_certified g e qc :
  system_ok g -> QuorumCert.verify qc (V e) = Ok tt ->
  unforged_li g (qc_signed_ledger_info qc) ->
  bi_epoch (QuorumCert.certified_block qc) = e ->
  bi_round (QuorumCert.certified_block qc) <> 0 -> certified g (qc_vote_data qc).
Proof.
  intros Hok Hv Hu <- Hr. apply qc_verify_Ok in Hv as (Hh & HQ & Hsig & _); [|done].
  eapply li_quorum_certified; [done|exact HQ| |exact Hh].
  intros a [s Hs]%elem_of_dom Ha. eapply Hu; eauto.
Qed.

Lemma tc_timeout_quorum g tc :
  TwoChainTimeoutCertificate.verify tc (V (TwoChainTimeoutCertificate.epoch tc)) = Ok tt ->
  unforged_tc g tc ->
  timeout_quorum g (TwoChainTimeoutCertificate.epoch tc) (TwoChainTimeoutCertificate.round tc)
    (TwoChainTimeoutCertificate.highest_hqc_round tc).
Proof.
  intros [HQ Hs]%tc_verify_Ok Hu. eexists. split; [exact HQ|].
  intros a [[q s] Ha]%elem_of_dom Hh. destruct (Hs _ _ _ Ha) as [??].
  exists q. split; [done|]. by eapply Hu.
Qed.

(** *** New votes are supported *)

(** The voting rule, read as a proposition. *)
Lemma safe_to_vote_Ok b tc :
  SafetyRules.safe_to_vote b tc = Ok tt ->
  let parent := bi_round (QuorumCert.certified_block (Block.quorum_cert b)) in
  parent + 1 = Block.round b \/
  match tc with
  | Some c => TwoChainTimeoutCertificate.round c + 1 = Block.round b /\
              TwoChainTimeoutCertificate.highest_hqc_round c <= parent
  | None => Block.round b = 1
  end.
Proof.
  unfold SafetyRules.safe_to_vote. intros Hs.
  apply bind_Ok in Hs as (n & [-> _]%next_round_Ok & Hs).
  apply bind_Ok in Hs as (s & Hcase & Hs%ensure_Ok). subst s.
  destruct (N.eqb_spec (Block.round b)
    (bi_round (QuorumCert.certified_block (Block.quorum_cert b)) + 1)); [by left|right].
  apply bind_Ok in Hcase as (n' & [-> _]%next_round_Ok & Hcase). injection Hcase as Hcase.
  breflect. destruct tc as [c|]; simpl in *; [split; [congruence|done]|lia].
Qed.

Lemma well_formed_parent b now :
  Block.verify_well_formed b now = Ok tt ->
  let parent := QuorumCert.certified_block (Block.quorum_cert b) in
  bi_epoch parent = Block.epoch b /\ bi_round parent < Block.round b.
Proof.
  unfold Block.verify_well_formed. intros Hw.
  apply bind_Ok in Hw as (? & _ & Hw). apply bind_Ok in Hw as (? & ?%ensure_Ok & Hw).
  apply bind_Ok in Hw as (? & ?%ensure_Ok & Hw). by breflect.
Qed.

Lemma new_vote_supported g es sd s now vp vd tc :
  system_ok g -> es_verifier es = V (es_epoch es) -> es_epoch es = sd_epoch sd ->
  proposal_verified sd es now vp vd ->
  unforged_li g (qc_signed_ledger_info (Block.quorum_cert (vp_block vp))) ->
  (forall c, tc = Some c ->
     TwoChainTimeoutCertificate.verify c (es_verifier es) = Ok tt /\ unforged_tc g c /\
     TwoChainTimeoutCertificate.epoch c = Block.epoch (vp_block vp)) ->
  SafetyRules.safe_to_vote (vp_block vp) tc = Ok tt ->
  supported g (new_vote s (vp_block vp) vd).
Proof.
  intros Hok Hes Hep [Hbe Hqc _ Hwf Hgen] Hu Htc Hsafe.
  apply gen_vote_data_Ok in Hgen as (Hge & Hgr & _ & Hgp).
  apply well_formed_parent in Hwf as [Hpe Hpr]. rewrite Hes, Hep, <-Hbe in Hqc.
  split; unfold parent_round, vote_round, vote_epoch; simpl; rewrite ?Hgp, ?Hge, ?Hgr; [done..| |].
  - destruct (decide (bi_round (QuorumCert.certified_block (Block.quorum_cert (vp_block vp))) = 0));
      [by left|right].
    eexists. split; [|reflexivity]. by eapply qc_certified.
  - apply safe_to_vote_Ok in Hsafe as [?|Hs]; [by left|].
    destruct tc as [c|]; [right|left; lia]. destruct Hs as [Hr Hq].
    destruct (Htc c eq_refl) as (Hv & Huc & Hce).
    eexists _, _. split_and!; [exact Hr|exact Hq|]. rewrite <-Hce. apply tc_timeout_quorum; [|done].
    by rewrite Hce, Hbe, <-Hep, <-Hes.
Qed.

(** ** The fault assumption *)

(** Every epoch's validators outside [honest] have at most [total - quorum] voting
    power, of a validator set built by [ValidatorVerifier::new]. *)
Definition fault_bound : Prop := forall e,
  verifier_wf (V e) /\ address_to_validator_info (V e) <> ∅ /\
  weight (power_of (V e)) (validators (V e) ∖ honest) <=
    total_voting_power (V e) - quorum_voting_power (V e).

Lemma honest_overlap e Q1 Q2 :
  fault_bound -> is_quorum (V e) Q1 -> is_quorum (V e) Q2 ->
  exists a, a ∈ Q1 /\ a ∈ Q2 /\ a ∈ honest.
Proof.
  intros Hb HQ1 HQ2. destruct (Hb e) as (Hwf & Hne & Hf).
  destruct (quorums_overlap _ _ _ _ (quorum_two_thirds _ Hwf Hne) (wf_total _ Hwf) Hf HQ1 HQ2)
    as (a & H1' & H2' & Ha).
  exists a. split_and!; [done..|]. destruct HQ1 as [Hsub _].
  destruct (decide (a ∈ honest)) as [?|Hn]; [done|]. destruct Ha. set_solver.
Qed.

(** What a quorum of signatures on a ledger info says of the block it commits. *)
Lemma committed_two_chain g e lis :
  fault_bound -> system_ok g ->
  LedgerInfoWithSignatures.verify_signatures lis (V e) = Ok tt -> unforged_li g lis ->
  let li := lis_ledger_info lis in
  li_commit_info li <> BlockInfo.empty -> bi_epoch (li_commit_info li) = e ->
  exists vd, two_chain g vd /\ hash vd = li_consensus_data_hash li /\
    same_block (vd_parent vd) (li_commit_info li) /\ bi_epoch (vd_proposed vd) = e.
Proof.
  intros Hb Hok Hv Hu li Hne He. apply batch_verify_sound in Hv as [HQ Hs].
  assert (forall a, a ∈ dom (lis_signatures lis) -> a ∈ honest -> signed_ledger_info g a li) as Hsig.
  { intros a [sg Ha]%elem_of_dom Hh. eapply Hu; eauto. }
  destruct (honest_overlap e _ _ Hb HQ HQ) as (a & Ha & _ & Hh).
  destruct (Hsig a Ha Hh) as [(v & Hv & Hli)|Hc].
  - pose proof (so_vote _ Hok _ _ Hv) as [S1 S2 S3 _ _ _]. rewrite Hli in S1, S2.
    destruct (N.eqb_spec (parent_round v + 1) (vote_round v)) as [Hr|_]; [|done].
    assert (bi_epoch (vd_proposed (v_vote_data v)) = e) as Hve.
    { unfold vote_epoch in S3. by rewrite <-S3, <-S2. }
    exists (v_vote_data v). split_and!; [|done| |done].
    + split; [|exact Hr]. eapply li_quorum_certified; [done|by rewrite Hve|exact Hsig|done].
    + by rewrite S2.
  - destruct (so_commit _ Hok _ _ Hc) as (vd & Htc & Hh' & Hsb).
    exists vd. split_and!; [done..|].
    destruct Htc as [(Q & HQ' & HvQ) _].
    destruct (honest_overlap _ _ _ Hb HQ' HQ') as (b & Hb1 & _ & Hb2).
    destruct (HvQ b Hb1 Hb2) as (w & Hw & <-).
    rewrite <-He. destruct Hsb as [<- _]. by rewrite (su_epoch _ _ (so_vote _ Hok _ _ Hw)).
Qed.

Lemma match_ordered_only_same b b' : BlockInfo.match_ordered_only b b' = true -> same_block b b'.
Proof. unfold BlockInfo.match_ordered_only, same_block. intros Hm. by breflect. Qed.

Lemma same_block_trans a b c : same_block a b -> same_block b c -> same_block a c.
Proof. unfold same_block. intuition congruence. Qed.

(** ** The invariant holds in every reachable state *)

(** Where the entries of a replica's log come from. *)
Lemma new_entry (n n' : Replica Store) e x :
  replica_step n e n' -> x ∈ r_released n' ->
  x ∈ r_released n \/
  exists now info input r, e = Request now info input /\ x ∈ released input r /\
    SafetyRules.handle_message now info input (r_rules n) = (r, r_rules n').
Proof.
  intros Hs. destruct Hs; simpl; [|by left..].
  intros [?|?]%elem_of_app; [right|by left]. by eexists _, _, _, _.
Qed.

Lemma replica_log_grows (n n' : Replica Store) e x :
  replica_step n e n' -> x ∈ r_released n -> x ∈ r_released n'.
Proof. intros Hs. destruct Hs; simpl; [|done..]. rewrite elem_of_app. by right. Qed.

Lemma released_vote input r v :
  RVote v ∈ released input r ->
  exists vp tc, input = InConstructAndSignVoteTwoChain vp tc /\ r = Ok (OutVote v).
Proof.
  destruct input, r as [[]| |]; simpl; intros Hin; apply list_elem_of_singleton in Hin || (by apply elem_of_nil in Hin);
    simplify_eq; eauto.
Qed.

Lemma released_commit input r li :
  RCommit li ∈ released input r ->
  exists lis sg, input = InSignCommitVote lis li /\ r = Ok (OutSignature sg).
Proof.
  destruct input, r as [[]| |]; simpl; intros Hin; apply list_elem_of_singleton in Hin || (by apply elem_of_nil in Hin);
    simplify_eq; eauto.
Qed.

Lemma step_vote_supported g a n e n' v :
  system_ok g -> g !! a = Some n -> replica_step n e n' -> allowed g n n' e ->
  RVote v ∈ r_released n' -> supported g v.
Proof.
  intros Hok Hn Hs Hal Hv.
  destruct (new_entry _ _ _ _ Hs Hv) as [Hold|(now & info & input & r & -> & Hx & Hr)].
  { eapply so_vote; [done|]. by exists n. }
  apply released_vote in Hx as (vp & tc & -> & ->). simpl in Hr, Hal. destruct Hal as [Hu Htc].
  apply response_inv in Hr as (q & Hq & Hr). destruct q as [w| |]; simplify_eq.
  destruct (so_replica _ Hok _ _ Hn) as [[Hc Hm Hl] Hcan].
  apply vote_Ok in Hq as (sd & es & s & vd & Hd & Hes & Hsg & Hpv & Htv & Hcase); [|done].
  destruct Hcase as [[Hprev _]|(_ & _ & Hsafe & -> & _)].
  - destruct Hl as (sd' & Hd' & Hl). rewrite Hd in Hd'. injection Hd' as <-.
    unfold SafetyRules.previous_vote in Hprev.
    destruct (sd_last_vote sd) as [w'|] eqn:Hw; simpl in Hprev; [|done]. case_match; simplify_eq.
    eapply so_vote; [done|]. exists n. split; [done|]. by eapply lo_last_vote.
  - eapply new_vote_supported; [done|by apply Hcan|by eapply Hm|done..| |done].
    intros c Hce. split; [by apply Htv|by apply Htc].
Qed.

Lemma step_commit_ok g a n e n' li :
  fault_bound -> system_ok g -> g !! a = Some n -> replica_step n e n' -> allowed g n n' e ->
  RCommit li ∈ r_released n' ->
  exists vd, two_chain g vd /\ hash vd = li_consensus_data_hash li /\
    same_block (vd_parent vd) (li_commit_info li).
Proof.
  intros Hb Hok Hn Hs Hal Hv.
  destruct (new_entry _ _ _ _ Hs Hv) as [Hold|(now & info & input & r & -> & Hx & Hr)].
  { eapply so_commit; [done|]. by exists n. }
  apply released_commit in Hx as (lis & sg & -> & ->). simpl in Hr, Hal.
  destruct Hal as (Hu & Hh & He).
  apply response_inv in Hr as (q & Hq & Hr). destruct q as [w| |]; simplify_eq.
  apply commit_vote_Ok in Hq as (es & s & Hes & _ & Hord & Hmatch & Hver & _).
  destruct (so_replica _ Hok _ _ Hn) as [_ Hcan].
  rewrite (Hcan _ Hes), (He _ Hes) in Hver. unfold BlockInfo.is_ordered_only in Hord. breflect.
  apply match_ordered_only_same in Hmatch.
  destruct (committed_two_chain g _ lis Hb Hok Hver Hu) as (vd & ? & ? & ? & ?); [done..|].
  exists vd. split_and!; [done|congruence|]. by eapply same_block_trans.
Qed.

Lemma in_log_insert g a n n' e b x :
  g !! a = Some n -> replica_step n e n' -> in_log (<[ a := n' ]> g) b x ->
  in_log g b x \/ (b = a /\ x ∈ r_released n').
Proof.
  intros Hn Hs (m & Hm & Hx). destruct (decide (b = a)) as [->|Hne].
  - rewrite lookup_insert_eq in Hm. injection Hm as <-. by right.
  - rewrite lookup_insert_ne in Hm by congruence. left. by exists m.
Qed.

Lemma grows_insert g a n n' e :
  g !! a = Some n -> replica_step n e n' -> grows g (<[ a := n' ]> g).
Proof.
  intros Hn Hs b x (m & Hm & Hx). unfold in_log. destruct (decide (b = a)) as [->|Hne].
  - rewrite lookup_insert_eq. rewrite Hn in Hm. injection Hm as <-.
    exists n'. split; [done|]. by eapply replica_log_grows.
  - rewrite lookup_insert_ne by congruence. by exists m.
Qed.

(** Only [initialize] changes the epoch state a replica works with, and a restart
    forgets it. *)
Lemma step_epoch_state g n e n' :
  replica_ok n -> replica_step n e n' -> allowed g n n' e ->
  (forall es, epoch_state (r_rules n) = Some es -> es_verifier es = V (es_epoch es)) ->
  forall es, epoch_state (r_rules n') = Some es -> es_verifier es = V (es_epoch es).
Proof.
  intros [Hc _ _] Hs Hal Hcan. destruct Hs as [self log now info input r self' Hr|self log b|self log s Hs];
    simpl in *; [|done|done].
  assert (epoch_state self' = epoch_state self -> forall es, epoch_state self' = Some es ->
            es_verifier es = V (es_epoch es)) as Hsame by (intros ->; done).
  destruct input; simpl in Hr, Hal; apply response_inv in Hr as (q & Hq & ->).
  - apply quiet_consensus_state in Hq as [? ? ? ?]. by apply Hsame.
  - done.
  - apply quiet_sign_proposal in Hq as [? ? ? ?]. by apply Hsame.
  - apply timeout_inv in Hq as (_ & _ & ? & _); [|done]. by apply Hsame.
  - apply vote_inv in Hq as (_ & _ & ? & _); [|done]. by apply Hsame.
  - apply quiet_sign_commit_vote in Hq as [? ? ? ?]. by apply Hsame.
Qed.

Lemma system_step_ok g g' : fault_bound -> system_ok g -> system_step g g' -> system_ok g'.
Proof.
  intros Hb Hok Hs. destruct Hs as [g a n e n' Hn Hs Hal].
  pose proof (grows_insert _ _ _ _ _ Hn Hs) as Hg.
  destruct (so_replica _ Hok _ _ Hn) as [Hro Hcan]. split.
  - rewrite dom_insert_L, <-(so_dom _ Hok). apply elem_of_dom_2 in Hn. set_solver.
  - intros b m Hm. destruct (decide (b = a)) as [->|Hne].
    + rewrite lookup_insert_eq in Hm. injection Hm as <-.
      split; [by eapply replica_step_ok | by eapply step_epoch_state].
    + rewrite lookup_insert_ne in Hm by congruence. by eapply so_replica.
  - intros b v Hv. apply (supported_grows g); [done|].
    destruct (in_log_insert _ _ _ _ _ _ _ Hn Hs Hv) as [?|[-> ?]];
      [by eapply so_vote | by eapply step_vote_supported].
  - intros b li Hli.
    assert (exists vd, two_chain g vd /\ hash vd = li_consensus_data_hash li /\
              same_block (vd_parent vd) (li_commit_info li)) as (vd & ? & ?).
    { destruct (in_log_insert _ _ _ _ _ _ _ Hn Hs Hli) as [?|[-> ?]];
        [by eapply so_commit | by eapply step_commit_ok]. }
    exists vd. split; [by eapply two_chain_grows|done].
Qed.

Lemma system_reachable_ok g : fault_bound -> system_reachable g -> system_ok g.
Proof.
  intros Hb. induction 1 as [g [Hd Hi]|g g' _ IH Hs]; [|by eapply system_step_ok].
  assert (forall a x, ~ in_log g a x) as Hempty.
  { intros a x (n & Hn & Hx). destruct (Hi a n Hn) as [_ He]. rewrite He in Hx.
    by apply elem_of_nil in Hx. }
  split; [done| |naive_solver..].
  intros a n Hn. destruct (Hi a n Hn) as [Hin He]. destruct n as [self log]. simpl in *. subst log.
  split; [by apply replica_reachable_ok, reachable_init|].
  destruct Hin as (_ & Hes & _). by rewrite Hes.
Qed.

(** ** Agreement *)

Lemma voted_log g a vd : voted g a vd -> exists n v, g !! a = Some n /\ RVote v ∈ r_released n /\ v_vote_data v = vd.
Proof. intros (v & (n & ? & ?) & ?). eauto. Qed.

(** One certified block per round. *)
Lemma certified_unique g vd vd' :
  fault_bound -> system_ok g -> certified g vd -> certified g vd' ->
  bi_epoch (vd_proposed vd) = bi_epoch (vd_proposed vd') ->
  bi_round (vd_proposed vd) = bi_round (vd_proposed vd') -> vd = vd'.
Proof.
  intros Hb Hok (Q & HQ & Hv) (Q' & HQ' & Hv') He Hr. rewrite <-He in HQ'.
  destruct (honest_overlap _ _ _ Hb HQ HQ') as (a & Ha & Ha' & Hh).
  destruct (voted_log _ _ _ (Hv a Ha Hh)) as (n & v & Hn & Hin & <-).
  destruct (voted_log _ _ _ (Hv' a Ha' Hh)) as (n' & v' & Hn' & Hin' & <-).
  rewrite Hn in Hn'. injection Hn' as <-.
  destruct (so_replica _ Hok _ _ Hn) as [[_ _ (sd & _ & Hl)] _].
  f_equal. by eapply lo_unique.
Qed.

(** A certified block has an honest voter. *)
Lemma certified_supported g vd :
  fault_bound -> system_ok g -> certified g vd ->
  exists v, supported g v /\ v_vote_data v = vd.
Proof.
  intros Hb Hok (Q & HQ & Hv). destruct (honest_overlap _ _ _ Hb HQ HQ) as (a & Ha & _ & Hh).
  destruct (Hv a Ha Hh) as (v & Hin & <-). exists v. split; [by eapply so_vote|done].
Qed.

(** A voter of the committing block that times out later vouches for it. *)
Lemma timeout_after_vote g vd e round hqc :
  fault_bound -> system_ok g -> certified g vd -> bi_epoch (vd_proposed vd) = e ->
  timeout_quorum g e round hqc -> bi_round (vd_proposed vd) <= round ->
  bi_round (vd_parent vd) <= hqc.
Proof.
  intros Hb Hok (Q & HQ & Hv) He (Q' & HQ' & Ht) Hr. rewrite He in HQ.
  destruct (honest_overlap _ _ _ Hb HQ HQ') as (a & Ha & Ha' & Hh).
  destruct (voted_log _ _ _ (Hv a Ha Hh)) as (n & v & Hn & Hin & <-).
  destruct (Ht a Ha' Hh) as (q & Hq & n' & Hn' & Hin').
  rewrite Hn in Hn'. injection Hn' as <-.
  destruct (so_replica _ Hok _ _ Hn) as [[_ _ (sd & _ & Hl)] _].
  pose proof (lo_vote_timeout _ _ Hl _ _ Hin Hin' He Hr) as Hp. simpl in Hp.
  unfold parent_round in Hp. lia.
Qed.

(** [b'] is reached from [b] through certified blocks, parent to child. *)
Definition extends g : BlockInfo -> BlockInfo -> Prop :=
  rtc (fun p c => exists vd, certified g vd /\ vd_parent vd = p /\ vd_proposed vd = c).

(** The parent of a certified block, if it is not a genesis block, is certified in
    the same epoch. *)
Lemma certified_parent g vd :
  fault_bound -> system_ok g -> certified g vd -> bi_round (vd_parent vd) <> 0 ->
  exists vd', certified g vd' /\ vd_proposed vd' = vd_parent vd /\
    bi_epoch (vd_proposed vd') = bi_epoch (vd_proposed vd).
Proof.
  intros Hb Hok Hc Hr. destruct (certified_supported _ _ Hb Hok Hc) as (v & [_ _ Se _ Sp _] & <-).
  destruct Sp as [?|(vd' & Hc' & Hp)]; [done|]. exists vd'. split_and!; [done..|]. by rewrite Hp.
Qed.

(** Once a block is committed, every certified block at or above its round extends
    it. *)
Lemma two_chain_extends g vd1 vd :
  fault_bound -> system_ok g -> two_chain g vd1 -> bi_round (vd_parent vd1) <> 0 ->
  certified g vd -> bi_epoch (vd_proposed vd) = bi_epoch (vd_proposed vd1) ->
  bi_round (vd_parent vd1) <= bi_round (vd_proposed vd) ->
  extends g (vd_parent vd1) (vd_proposed vd).
Proof.
  intros Hb Hok [Hc1 Hcons] Hr0. remember (bi_round (vd_proposed vd)) as round eqn:Hround.
  revert vd Hround. induction (N.lt_wf_0 round) as [round _ IH]. intros vd Hround Hc He Hle.
  destruct (decide (round = bi_round (vd_parent vd1))) as [Hr|Hr].
  { destruct (certified_parent _ _ Hb Hok Hc1 Hr0) as (vd0 & Hc0 & Hp0 & He0).
    replace vd with vd0; [rewrite Hp0; apply rtc_refl|].
    apply (certified_unique g); try done; [congruence|]. rewrite Hp0. congruence. }
  destruct (decide (round = bi_round (vd_proposed vd1))) as [Hr1|Hr1].
  { replace vd with vd1; [apply rtc_once; by exists vd1|].
    apply (certified_unique g); try done. congruence. }
  assert (bi_round (vd_parent vd1) <= bi_round (vd_parent vd) /\ bi_round (vd_parent vd) < round) as [Hge Hlt].
  { destruct (certified_supported _ _ Hb Hok Hc) as (v & [_ _ Se Slt _ Srule] & Hv).
    unfold parent_round, vote_round, vote_epoch in *. rewrite Hv in *.
    destruct Srule as [?|(tr & hqc & Htr & Hhqc & Htq)]; [lia|].
    rewrite He in Htq.
    pose proof (timeout_after_vote _ _ _ _ _ Hb Hok Hc1 eq_refl Htq). lia. }
  destruct (certified_parent _ _ Hb Hok Hc) as (vd' & Hc' & Hp' & He'); [lia|].
  apply rtc_r with (vd_proposed vd'); [|by exists vd].
  eapply IH; [exact Hlt|by rewrite Hp'|done|congruence|done].
Qed.
End bft.
