(* ===== verification/Simulation.v ===== *)
(** * Running the system

    An executable scheduler for the system of Bft.v: it performs the events of a
    schedule and checks the side conditions of every step, so that concrete
    executions of the whole protocol can be computed.  A run that succeeds is an
    execution of the step relation.  The four-validator network at the end is
    the instance used throughout: in-memory storage, and a transparent (not at
    all secure) signature scheme, with an injective hash. *)

From S2P Require Import Prelude Crypto Errors Position Accumulator Verifier Ledger ConsensusTypes Blocks Storage SafetyRules SafetyLemmas Replica Bft.

Section run.
Context `{ConsensusCrypto}.
Context (V : N -> ValidatorVerifier) (honest : gset N).
Abbreviation System := (gmap N (Replica InMemoryStorage)) (only parsing).
Implicit Types (g : System).

Definition log_of g (a : N) : list Released := from_option r_released [] (g !! a).

Definition released_li (li : LedgerInfo) (x : Released) : bool :=
  match x with
  | RVote v => bool_decide (v_ledger_info v = li)
  | RCommit li' => bool_decide (li' = li)
  | _ => false
  end.
Definition released_timeout (t : TimeoutSigningRepr) (x : Released) : bool :=
  match x with RTimeout t' => bool_decide (t' = t) | _ => false end.

(** Every honest signer of the certificate has released that signature. *)
Definition check_li g (lis : LedgerInfoWithSignatures) : bool :=
  forallb (fun p => bool_decide (p.1 ∉ honest) || existsb (released_li (lis_ledger_info lis)) (log_of g p.1))
    (btree_iter (lis_signatures lis)).
Definition check_tc g (tc : TwoChainTimeoutCertificate) : bool :=
  forallb (fun p => bool_decide (p.1 ∉ honest) ||
             existsb (released_timeout (mkTimeoutSigningRepr (TwoChainTimeoutCertificate.epoch tc)
               (TwoChainTimeoutCertificate.round tc) p.2.1)) (log_of g p.1))
    (btree_iter (tc_signatures tc)).

Lemma existsb_log g a f :
  existsb f (log_of g a) = true -> exists x, in_log g a x /\ f x = true.
Proof.
  unfold log_of. destruct (g !! a) as [n|] eqn:Hn; simpl; [|done].
  intros (x & Hx%list_elem_of_In & Hf)%existsb_exists. exists x. split; [|done]. by exists n.
Qed.

Lemma check_li_sound g lis : check_li g lis = true -> unforged_li V honest g lis.
Proof.
  intros Hc e a s Ha Hs _. unfold check_li in Hc. rewrite forallb_forall in Hc.
  specialize (Hc (a, s)). rewrite <-list_elem_of_In, elem_of_btree_iter in Hc. specialize (Hc Hs).
  apply orb_prop in Hc as [Hc|Hc]; simpl in Hc; breflect; [done|].
  apply existsb_log in Hc as (x & Hx & Hr). destruct x; simpl in Hr; try done; breflect.
  - left. by exists vote.
  - right. by subst.
Qed.

Lemma check_tc_sound g tc : check_tc g tc = true -> unforged_tc V honest g tc.
Proof.
  intros Hc e a q s Ha Hs t _. unfold check_tc in Hc. rewrite forallb_forall in Hc.
  specialize (Hc (a, (q, s))). rewrite <-list_elem_of_In, elem_of_btree_iter in Hc. specialize (Hc Hs).
  apply orb_prop in Hc as [Hc|Hc]; simpl in Hc; breflect; [done|].
  apply existsb_log in Hc as (x & Hx & Hr). destruct x; simpl in Hr; try done; breflect. by subst.
Qed.

Definition check_epoch_state (es : option EpochState) : bool :=
  match es with Some es => bool_decide (es_verifier es = V (es_epoch es)) | None => true end.

Definition check_allowed g (n n' : Replica InMemoryStorage) (input : SafetyRulesInput) : bool :=
  match input with
  | InConstructAndSignVoteTwoChain vp tc =>
      check_li g (qc_signed_ledger_info (Block.quorum_cert (vp_block vp)))
      && match tc with
         | Some c => check_tc g c && (TwoChainTimeoutCertificate.epoch c =? Block.epoch (vp_block vp))
         | None => true
         end
  | InSignCommitVote li new_li =>
      check_li g li
      && (li_consensus_data_hash new_li =? li_consensus_data_hash (lis_ledger_info li))
      && match epoch_state (r_rules n) with
         | Some es => es_epoch es =? bi_epoch (li_commit_info (lis_ledger_info li))
         | None => true
         end
  | InInitialize _ => check_epoch_state (epoch_state (r_rules n'))
  | _ => true
  end.

Lemma check_allowed_sound g n n' now info input :
  check_allowed g n n' input = true -> allowed V honest g n n' (Request now info input).
Proof.
  destruct input; simpl; try done; intros Hc.
  - unfold check_epoch_state in Hc. destruct (epoch_state (r_rules n')); [|done].
    intros es [= <-]. by breflect.
  - breflect. split; [by apply check_li_sound|]. intros c ->. breflect.
    split; [by apply check_tc_sound|done].
  - breflect. split_and!; [by apply check_li_sound|done|]. intros es Hes. rewrite Hes in *. by breflect.
Qed.

(** One request to the safety rules of [a], at time [now]. *)
Definition run_request (now : N) (a : N) (input : SafetyRulesInput) g : option System :=
  n ← g !! a;
  let '(r, self') := SafetyRules.handle_message now true input (r_rules n) in
  let n' := mkReplica self' (released input r ++ r_released n) in
  if check_allowed g n n' input then Some (<[ a := n' ]> g) else None.

Fixpoint run (now : N) (schedule : list (N * SafetyRulesInput)) g : option System :=
  match schedule with
  | [] => Some g
  | (a, input) :: schedule => g' ← run_request now a input g; run now schedule g'
  end.

Lemma run_request_sound now a input g g' :
  run_request now a input g = Some g' -> system_step V honest g g'.
Proof.
  unfold run_request. destruct (g !! a) as [[self log]|] eqn:Hn; simpl; [|done].
  destruct (SafetyRules.handle_message now true input self) as [r self'] eqn:Hr.
  destruct (check_allowed _ _ _ _) eqn:Hc; intros [= <-].
  econstructor; [done|by constructor|]. by apply check_allowed_sound.
Qed.

Lemma run_reachable now schedule g g' :
  system_reachable V honest g -> run now schedule g = Some g' -> system_reachable V honest g'.
Proof.
  revert g. induction schedule as [|[a input] schedule IH]; simpl; intros g Hg Hr; [by simplify_eq|].
  destruct (run_request now a input g) as [g1|] eqn:H1; simpl in Hr; [|done].
  eapply IH; [|exact Hr]. eapply system_next; [done|by eapply run_request_sound].
Qed.
End run.

(** The same for a single replica. *)
Definition run_replica `{ConsensusCrypto} (now : N) (inputs : list SafetyRulesInput)
    (n : Replica InMemoryStorage) : Replica InMemoryStorage :=
  foldl (fun n input =>
    let '(r, self') := SafetyRules.handle_message now true input (r_rules n) in
    mkReplica self' (released input r ++ r_released n)) n inputs.

Lemma run_replica_step `{ConsensusCrypto} now input n :
  replica_step n (Request now true input) (run_replica now [input] n).
Proof.
  destruct n as [self log]. unfold run_replica. simpl.
  destruct (SafetyRules.handle_message now true input self) as [r self'] eqn:Hr.
  by apply (step_request _ _ now true input).
Qed.

Lemma run_replica_reachable `{ConsensusCrypto} now inputs n :
  replica_reachable n -> replica_reachable (run_replica now inputs n).
Proof.
  revert n. induction inputs as [|input inputs IH]; intros n Hn; simpl; [done|].
  apply IH. eapply reachable_step; [done|]. apply (run_replica_step now input n).
Qed.

(** ** A network of four validators *)
Module Net.

(** An injective hash of vote data: its encoding as a number. *)
#[global] Instance ValidatorConsensusInfo_countable : Countable ValidatorConsensusInfo.
Proof.
  apply (inj_countable' (fun i => (vci_public_key i, vci_voting_power i))
           (fun p => mkValidatorConsensusInfo p.1 p.2)). by intros [].
Defined.
#[global] Instance ValidatorVerifier_countable : Countable ValidatorVerifier.
Proof.
  apply (inj_countable' (fun v => (address_to_validator_info v, quorum_voting_power v, total_voting_power v))
           (fun p => mkValidatorVerifier p.1.1 p.1.2 p.2)). by intros [].
Defined.
#[global] Instance EpochState_countable : Countable EpochState.
Proof.
  apply (inj_countable' (fun e => (es_epoch e, es_verifier e)) (fun p => mkEpochState p.1 p.2)). by intros [].
Defined.
(** A block info as a list of numbers, so that encodings stay short. *)
Definition option_number (o : option EpochState) : N :=
  match o with None => 0 | Some es => N.pos (encode es) end.
Definition block_info_numbers (b : BlockInfo) : list N :=
  [bi_epoch b; bi_round b; bi_id b; bi_executed_state_id b; bi_version b; bi_timestamp_usecs b;
   option_number (bi_next_epoch_state b)].

#[global] Instance option_number_inj : Inj (=) (=) option_number.
Proof.
  intros [x|] [y|]; simpl; intros Hn; [|done..]. f_equal. injection Hn as Hn. by apply (inj encode).
Qed.
#[global] Instance block_info_numbers_inj : Inj (=) (=) block_info_numbers.
Proof.
  intros [e r i x v t n] [e' r' i' x' v' t' n']. unfold block_info_numbers. simpl.
  intros [= -> -> -> -> -> -> ->%(inj option_number)]. done.
Qed.
Definition vote_data_numbers (v : VoteData) : list N :=
  block_info_numbers (vd_proposed v) ++ block_info_numbers (vd_parent v).
#[global] Instance vote_data_numbers_inj : Inj (=) (=) vote_data_numbers.
Proof.
  intros [p q] [p' q']. intros Hv.
  apply app_inj_1 in Hv as [Hp Hq]; [|done].
  apply (inj block_info_numbers) in Hp, Hq. simpl in *. congruence.
Qed.

(** A signature is the signer's public key. *)
Definition toy_signable (T : Type) : Signable T :=
  {| sign_struct sk _ := 100 + sk; verify_struct_signature pk _ s := s =? pk |}.

#[global] Instance crypto : ConsensusCrypto := {|
  cc_key_pair sk := 100 + sk;
  cc_merkle l r := l + r;
  cc_hash_vote_data vd := N.pos (encode (vote_data_numbers vd));
  cc_hash_waypoint _ := 0;
  cc_sign_ledger_info := toy_signable LedgerInfo;
  cc_sign_block_data := toy_signable BlockData;
  cc_sign_timeout := toy_signable TimeoutSigningRepr;
|}.

#[global] Instance collision_free : CollisionFree VoteData.
Proof. intros x y Hh. unfold hash, cc_hash_vote_data in Hh. simpl in Hh. injection Hh as Hh. by apply (inj encode), (inj vote_data_numbers) in Hh. Qed.

Definition validators4 : gmap N ValidatorConsensusInfo :=
  list_to_map ((fun i => (i, mkValidatorConsensusInfo (100 + i) 1)) <$> [1; 2; 3; 4]).
Definition verifier4 : ValidatorVerifier := mkValidatorVerifier validators4 3 4.
Definition V (_ : N) : ValidatorVerifier := verifier4.
Definition honest : gset N := {[ 1; 2; 3 ]}.

Lemma verifier4_new : @Verifier.new unit validators4 = Ok verifier4.
Proof. vm_compute. reflexivity. Qed.

Lemma fault_bound4 : fault_bound V honest.
Proof.
  intros e. split_and!; [exact (new_wf _ _ verifier4_new)| |vm_compute; discriminate].
  intros He. apply (f_equal (lookup 1)) in He. vm_compute in He. discriminate He.
Qed.

(** The chain starts from a ledger info that names the first validator set. *)
Definition genesis_li : LedgerInfo :=
  mkLedgerInfo (mkBlockInfo 0 0 7 8 0 0 (Some (mkEpochState 1 verifier4))) 0.
Definition genesis_proof : EpochChangeProof :=
  mkEpochChangeProof [mkLedgerInfoWithSignatures genesis_li ∅] false.
Definition genesis_qc : QuorumCert :=
  match @QuorumCert.certificate_for_genesis_from_ledger_info unit _ genesis_li 9 with
  | Ok qc => qc
  | _ => mkQuorumCert (mkVoteData BlockInfo.empty BlockInfo.empty)
           (mkLedgerInfoWithSignatures genesis_li ∅)
  end.

(** The storage of validator [a] as [PersistentSafetyStorage::initialize] leaves it. *)
Definition rules_of (a : N) : SafetyRules InMemoryStorage :=
  match PersistentSafetyStorage.initialize InMemoryStorage.new a a (Waypoint.new_any genesis_li) true with
  | Ok ps => SafetyRules.new ps
  | _ => SafetyRules.new (PersistentSafetyStorage.new InMemoryStorage.new true)
  end.
Definition start : gmap N (Replica InMemoryStorage) :=
  list_to_map ((fun a => (a, mkReplica (rules_of a) [])) <$> [1; 2; 3]).

(** The proposal of validator [author] in [round] on top of [qc]. *)
Definition proposal (round id author : N) (qc : QuorumCert) : VoteProposal :=
  mkVoteProposal (mkAccumulatorExtensionProof [] 0 [])
    (mkBlock id
       (mkBlockData 1 round round qc (Proposal (DirectMempool []) author [])) (Some (100 + author)))
    None true.
(** The certificate that the votes of 1, 2 and 3 for a proposal form. *)
Definition certify (vp : VoteProposal) : QuorumCert :=
  let vd := VoteProposal.vote_data_ordering_only vp in
  mkQuorumCert vd
    (mkLedgerInfoWithSignatures (vote_ledger_info (vp_block vp) vd)
       {[ 1 := 101; 2 := 102; 3 := 103 ]}).

Definition votes (vp : VoteProposal) (tc : option TwoChainTimeoutCertificate)
    : list (N * SafetyRulesInput) :=
  (fun a => (a, InConstructAndSignVoteTwoChain vp tc)) <$> [1; 2; 3].
Definition all_initialize : list (N * SafetyRulesInput) :=
  (fun a => (a, InInitialize genesis_proof)) <$> [1; 2; 3].

Lemma start_init : system_init honest start.
Proof.
  split.
  - unfold start. rewrite dom_list_to_map_L. apply set_eq. intros a.
    rewrite elem_of_list_to_set. simpl. unfold honest. set_solver.
  - assert (map_Forall (fun _ n => replica_init (r_rules n) /\ r_released n = []) start) as Hall.
    { unfold start. simpl. repeat apply map_Forall_insert_2; [..|apply map_Forall_empty].
      all: split; [|done]; split_and!; [|done|].
      all: try (intros sd [= <-]; vm_compute; reflexivity).
      all: eexists; split; [vm_compute; reflexivity | reflexivity]. }
    intros a n. apply Hall.
Qed.

Lemma rules_of_init a : a ∈ [1; 2; 3] -> replica_reachable (mkReplica (rules_of a) []).
Proof.
  intros Ha. apply reachable_init. destruct start_init as [_ Hall].
  apply (Hall a (mkReplica (rules_of a) [])). unfold start.
  apply elem_of_list_to_map_1; [apply (bool_decide_unpack _); vm_compute; exact I|].
  apply list_elem_of_fmap. by exists a.
Qed.
End Net.
