(* ===== verification/Agreement.v ===== *)
(** * The safety theorems

    The properties of safety rules, of one replica over time, and of the whole
    system, stated on the definitions of the previous files and applied to the
    network of Simulation.v. *)

From S2P Require Import Prelude Crypto Errors Position Accumulator Verifier Ledger ConsensusTypes Blocks Storage SafetyRules SafetyLemmas Replica Bft Simulation.

(** ** An execution with a skipped round

    Rounds 1 and 2 are certified, round 3 times out, rounds 4 and 5 are certified
    on the other side of the timeout certificate. *)
Module Trace.
Import Net.

Definition block1 := proposal 1 11 1 genesis_qc.
Definition qc1 := certify block1.
Definition block2 := proposal 2 22 2 qc1.
Definition qc2 := certify block2.
Definition timeout3 : TwoChainTimeout := mkTwoChainTimeout 1 3 qc2.
Definition tc3 : TwoChainTimeoutCertificate :=
  mkTwoChainTimeoutCertificate timeout3 {[ 1 := (2, 101); 2 := (2, 102); 3 := (2, 103) ]}.
Definition block4 := proposal 4 44 3 qc2.
Definition qc4 := certify block4.
(** The same votes, collected with a signature of the faulty validator instead of
    one of them. *)
Definition qc4' : QuorumCert :=
  mkQuorumCert (qc_vote_data qc4)
    (mkLedgerInfoWithSignatures (QuorumCert.ledger_info qc4) {[ 2 := 102; 3 := 103; 4 := 104 ]}).
Definition block5 := proposal 5 55 1 qc4.
Definition qc5 := certify block5.

Definition schedule : list (N * SafetyRulesInput) :=
  all_initialize ++ votes block1 None ++ votes block2 None ++
  ((fun a => (a, InSignTimeoutWithQC timeout3 None)) <$> [1; 2; 3]) ++
  votes block4 (Some tc3) ++ votes block5 None.

Definition final : gmap N (Replica InMemoryStorage) := default ∅ (run V honest 1000 schedule start).

Lemma final_run : run V honest 1000 schedule start = Some final.
Proof.
  assert (is_Some (run V honest 1000 schedule start)) as [g Hg]
    by (apply (bool_decide_unpack _); vm_compute; exact I).
  unfold final. by rewrite Hg.
Qed.

Lemma final_reachable : system_reachable V honest final.
Proof. eapply run_reachable; [|apply final_run]. apply system_start, start_init. Qed.
End Trace.

(** ** Agreement *)
Section agreement_lemmas.
Context `{KVStorageLaws Store} `{ConsensusCrypto} `{!CollisionFree VoteData}.
Context (V : N -> ValidatorVerifier) (honest : gset N).
Implicit Types (g : gmap N (Replica Store)).

(** A signed ledger info that is not for genesis commits the parent of a two-chain. *)
Lemma verified_commit g e lis :
  fault_bound V honest -> system_ok V honest g ->
  EpochState.verify (mkEpochState e (V e)) lis = Ok tt -> unforged_li V honest g lis ->
  LedgerInfo.round (lis_ledger_info lis) <> 0 ->
  exists vd, two_chain V honest g vd /\ bi_epoch (vd_proposed vd) = e /\
    bi_round (vd_parent vd) <> 0 /\ same_block (vd_parent vd) (li_commit_info (lis_ledger_info lis)).
Proof.
  intros Hb Hok Hv Hu Hr. unfold EpochState.verify in Hv. run. breflect. simpl in *.
  destruct (committed_two_chain V honest g e lis) as (vd & ? & ? & Hs & ?); try done.
  { intros He. unfold LedgerInfo.round in Hr. by rewrite He in Hr. }
  exists vd. split_and!; [done..| |done]. destruct Hs as (_ & -> & _). done.
Qed.

(** Of two committed blocks, the later one extends the earlier one. *)
Lemma two_chains_ordered g vd1 vd2 :
  fault_bound V honest -> system_ok V honest g -> two_chain V honest g vd1 ->
  two_chain V honest g vd2 -> bi_epoch (vd_proposed vd1) = bi_epoch (vd_proposed vd2) ->
  bi_round (vd_parent vd1) <> 0 -> bi_round (vd_parent vd1) <= bi_round (vd_parent vd2) ->
  extends V honest g (vd_parent vd1) (vd_parent vd2).
Proof.
  intros Hb Hok H1' [Hc2 _] He Hr Hle.
  destruct (certified_parent V honest g vd2 Hb Hok Hc2) as (vd' & Hc' & Hp & He'); [lia|].
  rewrite <-Hp. apply two_chain_extends; try done; [congruence|]. by rewrite Hp.
Qed.

Lemma two_chains_same_round g vd1 vd2 :
  fault_bound V honest -> system_ok V honest g -> two_chain V honest g vd1 ->
  two_chain V honest g vd2 -> bi_epoch (vd_proposed vd1) = bi_epoch (vd_proposed vd2) ->
  bi_round (vd_parent vd1) = bi_round (vd_parent vd2) -> vd_parent vd1 = vd_parent vd2.
Proof.
  intros Hb Hok [Hc1 Hr1] [Hc2 Hr2] He Hr. f_equal.
  apply (certified_unique V honest g); try done. congruence.
Qed.
End agreement_lemmas.

Module SystemProps.
(** C1: agreement of the two-chain protocol.  Take a system whose honest validators run
    safety rules, under an adversary that holds all other keys (with voting power at most
    total minus quorum) and schedules crashes, storage failures and requests to safety
    rules.  The requests are any that [allowed] admits, which safety rules do not check
    themselves and rely on their callers for: signatures of honest validators in them are
    genuine; a timeout certificate that comes with a proposal is of the block's epoch; a
    commit vote keeps the consensus data hash of the ordered ledger info and is asked for
    while the epoch of safety rules is the one of that ledger info; and epoch change proofs
    lead to the validator sets [V].  In every reachable state, for any two ledger infos of
    rounds above 0 that carry a verified quorum of signatures of an epoch, those of honest
    validators being genuine, the blocks they commit are on one chain of certified blocks,
    and are the same block if their rounds are equal. *)
Theorem agreement `{KVStorageLaws Store} `{ConsensusCrypto} `{!CollisionFree VoteData}
    (V : N -> ValidatorVerifier) (honest : gset N) (g : gmap N (Replica Store)) (e : N)
    (lis1 lis2 : LedgerInfoWithSignatures) :
  fault_bound V honest -> system_reachable V honest g ->
  EpochState.verify (mkEpochState e (V e)) lis1 = Ok tt -> unforged_li V honest g lis1 ->
  EpochState.verify (mkEpochState e (V e)) lis2 = Ok tt -> unforged_li V honest g lis2 ->
  LedgerInfo.round (lis_ledger_info lis1) <> 0 -> LedgerInfo.round (lis_ledger_info lis2) <> 0 ->
  (exists b1 b2, same_block b1 (li_commit_info (lis_ledger_info lis1)) /\
     same_block b2 (li_commit_info (lis_ledger_info lis2)) /\
     (extends V honest g b1 b2 \/ extends V honest g b2 b1)) /\
  (LedgerInfo.round (lis_ledger_info lis1) = LedgerInfo.round (lis_ledger_info lis2) ->
   LedgerInfo.consensus_block_id (lis_ledger_info lis1) =
   LedgerInfo.consensus_block_id (lis_ledger_info lis2)).
Proof.
  intros Hb Hre Hv1 Hu1 Hv2 Hu2 Hr1 Hr2.
  pose proof (system_reachable_ok V honest g Hb Hre) as Hok.
  destruct (verified_commit V honest g e lis1) as (vd1 & Hc1 & He1 & Hn1 & Hs1); try done.
  destruct (verified_commit V honest g e lis2) as (vd2 & Hc2 & He2 & Hn2 & Hs2); try done.
  split.
  - exists (vd_parent vd1), (vd_parent vd2). split_and!; [done..|].
    destruct (N.le_ge_cases (bi_round (vd_parent vd1)) (bi_round (vd_parent vd2))); [left|right];
      apply two_chains_ordered; first [done | congruence | lia].
  - intros Hr. destruct Hs1 as (_ & Hr1' & Hi1), Hs2 as (_ & Hr2' & Hi2).
    unfold LedgerInfo.consensus_block_id, LedgerInfo.round in *. rewrite <-Hi1, <-Hi2.
    f_equal. apply (two_chains_same_round V honest g); first [done | congruence].
Qed.

(** Rounds 1 and 4 are committed, with a timed-out round in between. *)
Lemma agreement_witness :
  exists b1 b2, same_block b1 (QuorumCert.commit_info Trace.qc2) /\
    same_block b2 (QuorumCert.commit_info Trace.qc5) /\
    (extends Net.V Net.honest Trace.final b1 b2 \/ extends Net.V Net.honest Trace.final b2 b1).
Proof.
  apply (agreement Net.V Net.honest Trace.final 1
           (qc_signed_ledger_info Trace.qc2) (qc_signed_ledger_info Trace.qc5)).
  - exact Net.fault_bound4.
  - exact Trace.final_reachable.
  - vm_compute. reflexivity.
  - apply check_li_sound. vm_compute. reflexivity.
  - vm_compute. reflexivity.
  - apply check_li_sound. vm_compute. reflexivity.
  - vm_compute. discriminate.
  - vm_compute. discriminate.
Defined.

(** C2: one certificate per round.  In every reachable state, two quorum
    certificates of an epoch that pass [QuorumCert::verify] and certify blocks of
    the same round above 0 certify the same block with the same parent. *)
Theorem one_certificate_per_round `{KVStorageLaws Store} `{ConsensusCrypto}
    `{!CollisionFree VoteData} (V : N -> ValidatorVerifier) (honest : gset N)
    (g : gmap N (Replica Store)) (e : N) (qc1 qc2 : QuorumCert) :
  fault_bound V honest -> system_reachable V honest g ->
  QuorumCert.verify qc1 (V e) = Ok tt -> unforged_li V honest g (qc_signed_ledger_info qc1) ->
  QuorumCert.verify qc2 (V e) = Ok tt -> unforged_li V honest g (qc_signed_ledger_info qc2) ->
  bi_epoch (QuorumCert.certified_block qc1) = e -> bi_epoch (QuorumCert.certified_block qc2) = e ->
  bi_round (QuorumCert.certified_block qc1) = bi_round (QuorumCert.certified_block qc2) ->
  bi_round (QuorumCert.certified_block qc1) <> 0 ->
  qc_vote_data qc1 = qc_vote_data qc2.
Proof.
  intros Hb Hre Hv1 Hu1 Hv2 Hu2 He1 He2 Hr Hr0.
  pose proof (system_reachable_ok V honest g Hb Hre) as Hok.
  assert (bi_round (QuorumCert.certified_block qc2) <> 0) as Hr0' by congruence.
  pose proof (qc_certified V honest g e qc1 Hok Hv1 Hu1 He1 Hr0) as Hc1.
  pose proof (qc_certified V honest g e qc2 Hok Hv2 Hu2 He2 Hr0') as Hc2.
  apply (certified_unique V honest g); try done. unfold QuorumCert.certified_block in *. congruence.
Qed.

Lemma one_certificate_per_round_witness :
  qc_vote_data Trace.qc4 = qc_vote_data Trace.qc4'.
Proof.
  apply (one_certificate_per_round Net.V Net.honest Trace.final 1 Trace.qc4 Trace.qc4').
  - exact Net.fault_bound4.
  - exact Trace.final_reachable.
  - vm_compute. reflexivity.
  - apply check_li_sound. vm_compute. reflexivity.
  - vm_compute. reflexivity.
  - apply check_li_sound. vm_compute. reflexivity.
  - vm_compute. reflexivity.
  - vm_compute. reflexivity.
  - vm_compute. reflexivity.
  - vm_compute. discriminate.
Defined.
End SystemProps.
