(* ===== verification/SafetyProps.v ===== *)
(** * Properties of safety rules

    What one validator's safety rules guarantees: the operations on every branch,
    and the whole life of a replica with its restarts and storage failures. *)

From S2P Require Import Prelude Crypto Errors Position Accumulator Verifier Ledger ConsensusTypes Blocks Storage SafetyRules SafetyLemmas Replica Bft Simulation Agreement.

(** Validator 1 initializes, votes in round 1, is asked to vote for a conflicting
    block of that round, votes in round 2, and signs a timeout of round 3. *)
Module Validator1.
Import Net.
Definition init : Replica InMemoryStorage := mkReplica (rules_of 1) [].
Definition block1' : VoteProposal := proposal 1 12 2 genesis_qc.
Definition inputs : list SafetyRulesInput :=
  [InInitialize genesis_proof; InConstructAndSignVoteTwoChain Trace.block1 None;
   InConstructAndSignVoteTwoChain block1' None;
   InConstructAndSignVoteTwoChain Trace.block2 None; InSignTimeoutWithQC Trace.timeout3 None].
Definition ready : Replica InMemoryStorage := run_replica 1000 (take 1 inputs) init.
Definition voted1 : Replica InMemoryStorage := run_replica 1000 (take 2 inputs) init.
Definition later : Replica InMemoryStorage := run_replica 1000 inputs init.
Definition the_vote (n : Replica InMemoryStorage) (vp : VoteProposal) : Vote :=
  match SafetyRules.handle_message 1000 true (InConstructAndSignVoteTwoChain vp None) (r_rules n) with
  | (Ok (OutVote v), _) => v
  | _ => new_vote (mkValidatorSigner 0 0) (vp_block vp) (VoteProposal.vote_data_ordering_only vp)
  end.

Lemma init_reachable : replica_reachable init.
Proof. apply rules_of_init. apply (bool_decide_unpack _). vm_compute. exact I. Qed.
Lemma ready_reachable : replica_reachable ready.
Proof. apply run_replica_reachable, init_reachable. Qed.
Lemma later_reachable : replica_reachable later.
Proof. apply run_replica_reachable, init_reachable. Qed.
End Validator1.

Module ReplicaProps.
(** C12: no equivocation.  Over the whole life of a replica, with restarts from
    storage and storage failures at any point, any two votes its safety rules has
    released for the same epoch and round are the same vote. *)
Theorem no_equivocation `{KVStorageLaws Store} `{ConsensusCrypto} (n : Replica Store) (v v' : Vote) :
  replica_reachable n -> RVote v ∈ r_released n -> RVote v' ∈ r_released n ->
  vote_epoch v = vote_epoch v' -> vote_round v = vote_round v' -> v = v'.
Proof.
  intros Hn%replica_reachable_ok. destruct Hn as [_ _ (sd & _ & Hl)]. apply (lo_unique _ _ Hl).
Qed.

Lemma no_equivocation_witness :
  Validator1.the_vote Validator1.ready Trace.block1 =
  Validator1.the_vote Validator1.voted1 Validator1.block1'.
Proof.
  apply (no_equivocation Validator1.later).
  - exact Validator1.later_reachable.
  - apply (bool_decide_unpack _). vm_compute. exact I.
  - apply (bool_decide_unpack _). vm_compute. exact I.
  - vm_compute. reflexivity.
  - vm_compute. reflexivity.
Defined.

(** C13: a released timeout vouches for the votes before it.  If a replica has
    released a timeout and a vote of the same epoch whose round is not above the
    timeout's, then the certificate round signed in the timeout is at least the
    round of the parent of the block voted for, in whatever order the two were
    requested. *)
Theorem timeout_vouches_for_votes `{KVStorageLaws Store} `{ConsensusCrypto} (n : Replica Store)
    (v : Vote) (t : TimeoutSigningRepr) :
  replica_reachable n -> RVote v ∈ r_released n -> RTimeout t ∈ r_released n ->
  vote_epoch v = tsr_epoch t -> vote_round v <= tsr_round t -> parent_round v <= tsr_hqc_round t.
Proof.
  intros Hn%replica_reachable_ok. destruct Hn as [_ _ (sd & _ & Hl)]. apply (lo_vote_timeout _ _ Hl).
Qed.

Lemma timeout_vouches_for_votes_witness :
  parent_round (Validator1.the_vote Validator1.later Trace.block2) <= 2.
Proof.
  apply (timeout_vouches_for_votes Validator1.later
           (Validator1.the_vote Validator1.later Trace.block2) (mkTimeoutSigningRepr 1 3 2)).
  - exact Validator1.later_reachable.
  - apply (bool_decide_unpack _). vm_compute. exact I.
  - apply (bool_decide_unpack _). vm_compute. exact I.
  - vm_compute. reflexivity.
  - vm_compute. discriminate.
Defined.

(** The persisted safety data only move forward.  Along every step of a
    reachable replica (requests of any kind and outcome, restarts, storage
    changes) the epoch never decreases, and within an epoch neither the last voted
    round, nor the preferred round, nor the one-chain round does. *)
Theorem safety_data_monotone `{KVStorageLaws Store} `{ConsensusCrypto} (n n' : Replica Store)
    (e : Event Store) (sd sd' : SafetyData) :
  replica_reachable n -> replica_step n e n' ->
  on_disk (r_rules n) = Some sd -> on_disk (r_rules n') = Some sd' -> safety_data_le sd sd'.
Proof.
  intros [Hc Hm _]%replica_reachable_ok Hs Hd Hd'.
  destruct Hs as [self log now info input r self' Hr|self log b|self log s Hs]; simpl in *.
  - by eapply request_monotone.
  - assert (Some sd = Some sd') as [= ->] by by rewrite <-Hd, <-Hd'. apply safety_data_le_refl.
  - unfold on_disk, persisted in Hd, Hd'. simpl in Hd'. rewrite Hs, Hd in Hd'.
    injection Hd' as <-. apply safety_data_le_refl.
Qed.

Lemma safety_data_monotone_witness :
  safety_data_le (mkSafetyData 1 0 0 0 None)
    (mkSafetyData 1 1 0 0 (Some (Validator1.the_vote Validator1.ready Trace.block1))).
Proof.
  apply (safety_data_monotone Validator1.ready
    (run_replica 1000 [InConstructAndSignVoteTwoChain Trace.block1 None] Validator1.ready)
    (Request 1000 true (InConstructAndSignVoteTwoChain Trace.block1 None))).
  - exact Validator1.ready_reachable.
  - apply run_replica_step.
  - vm_compute. reflexivity.
  - vm_compute. reflexivity.
Defined.
End ReplicaProps.

Module RulesProps.
(** C14: what a released vote means.  When safety rules (with a coherent cache)
    returns a vote, the proposal's epoch is the persisted one, its quorum
    certificate, signature and form have been verified against the validators of
    the epoch, and so has the timeout certificate if there is one.  Either the vote
    is the one already recorded for that round and nothing changes on disk, or the
    round is above the last voted round and the two-chain voting rule holds; the
    vote is then signed over a ledger info that commits the parent exactly when
    the rounds are consecutive, and the safety data on disk have been replaced by
    ones that record the round, the vote and the raised certificate rounds. *)
Theorem vote_released `{KVStorageLaws Store} `{ConsensusCrypto} (self self' : SafetyRules Store)
    (now : N) (vp : VoteProposal) (tc : option TwoChainTimeoutCertificate) (vote : Vote) :
  sr_coherent self ->
  SafetyRules.guarded_construct_and_sign_vote_two_chain now vp tc self = (Ok vote, self') ->
  exists sd es s vd, on_disk self = Some sd /\ epoch_state self = Some es /\
    validator_signer self = Some s /\ proposal_verified sd es now vp vd /\
    (forall c, tc = Some c -> TwoChainTimeoutCertificate.verify c (es_verifier es) = Ok tt) /\
    ((SafetyRules.previous_vote (Block.round (vp_block vp)) sd = Some vote /\
      on_disk self' = on_disk self) \/
     (sd_last_voted_round sd < Block.round (vp_block vp) /\
      (let parent := bi_round (QuorumCert.certified_block (Block.quorum_cert (vp_block vp))) in
       parent + 1 = Block.round (vp_block vp) \/
       exists c, tc = Some c /\ TwoChainTimeoutCertificate.round c + 1 = Block.round (vp_block vp) /\
         TwoChainTimeoutCertificate.highest_hqc_round c <= parent) /\
      vote = new_vote s (vp_block vp) vd /\
      on_disk self' = Some (after_vote sd (vp_block vp) vote))).
Proof.
  intros Hc Hr. apply vote_Ok in Hr as (sd & es & s & vd & ? & ? & ? & Hpv & ? & Hcase); [|done].
  exists sd, es, s, vd. split_and!; [done..|].
  destruct Hcase as [?|(_ & ? & Hsafe & ? & ?)]; [by left|right]. split_and!; [done| |done..].
  apply safe_to_vote_Ok in Hsafe as [?|Hs]; [by left|]. destruct tc as [c|]; [right; by exists c|left].
  apply pv_well_formed, well_formed_parent in Hpv as [_ ?]. lia.
Qed.

Lemma vote_released_witness :
  exists sd es s vd, on_disk (r_rules Validator1.ready) = Some sd /\
    epoch_state (r_rules Validator1.ready) = Some es /\
    validator_signer (r_rules Validator1.ready) = Some s /\
    proposal_verified sd es 1000 Trace.block1 vd.
Proof.
  destruct (vote_released (r_rules Validator1.ready) (r_rules Validator1.voted1) 1000 Trace.block1
              None (Validator1.the_vote Validator1.ready Trace.block1))
    as (sd & es & s & vd & ? & ? & ? & ? & _).
  - apply (ro_coherent _ (replica_reachable_ok _ Validator1.ready_reachable)).
  - vm_compute. reflexivity.
  - by exists sd, es, s, vd.
Defined.

(** What a released timeout means.  Whatever a request to sign a timeout
    returns, either every check has passed (epoch, the timeout's certificate, the
    timeout certificate, the two-chain timeout rule, and a round not below the
    last voted one), the round is on disk and the signature is over the signing
    format of that timeout; or no signature is returned and the safety data on
    disk are what they were. *)
Theorem timeout_released `{KVStorageLaws Store} `{ConsensusCrypto} (self self' : SafetyRules Store)
    (t : TwoChainTimeout) (tc : option TwoChainTimeoutCertificate) (r : outcome Error Signature) :
  sr_coherent self -> SafetyRules.guarded_sign_timeout_with_qc t tc self = (r, self') ->
  (exists sd es s, on_disk self = Some sd /\ epoch_state self = Some es /\
     validator_signer self = Some s /\ timeout_verified sd es t tc /\
     sd_one_chain_round sd <= TwoChainTimeout.hqc_round t /\
     r = Ok (ValidatorSigner.sign s (TwoChainTimeout.signing_format t)) /\
     on_disk self' = Some (after_timeout sd (to_round t))) \/
  (on_disk self' = on_disk self /\ forall sg, r <> Ok sg).
Proof.
  intros Hc Hr. apply timeout_inv in Hr as (_ & _ & _ & [(sd & es & s & ? & ? & ? & Htv & ? & ?)|?]);
    [left|by right|done].
  exists sd, es, s. split_and!; [done..| |done|done]. destruct Htv as [_ _ _ Hsafe _].
  unfold SafetyRules.safe_to_timeout in Hsafe. run_ok. by breflect.
Qed.

Lemma timeout_released_witness :
  exists sd, on_disk (r_rules Validator1.later) = Some (after_timeout sd 3).
Proof.
  destruct (timeout_released (r_rules (run_replica 1000 (take 4 Validator1.inputs) Validator1.init))
              (r_rules Validator1.later) Trace.timeout3 None (Ok 101))
    as [(sd & es & s & _ & _ & _ & _ & _ & _ & Hd)|[_ Hn]].
  - apply (ro_coherent _ (replica_reachable_ok _
             (run_replica_reachable _ _ _ Validator1.init_reachable))).
  - vm_compute. reflexivity.
  - exists sd. exact Hd.
  - destruct (Hn 101 eq_refl).
Defined.

(** A request that fails leaves no trace.  Any request other than
    [initialize] whose result is an error or a panic leaves the safety data on
    disk as they were, keeps the signer and the epoch state, and keeps the cache
    coherent, so a retry sees the same state. *)
Theorem failed_request_leaves_no_trace `{KVStorageLaws Store} `{ConsensusCrypto}
    (self self' : SafetyRules Store) (now : N) (info : bool) (input : SafetyRulesInput)
    (r : outcome Error SafetyRulesOutput) :
  sr_coherent self -> SafetyRules.handle_message now info input self = (r, self') ->
  (forall o, r <> Ok o) -> (forall proof, input <> InInitialize proof) ->
  sr_coherent self' /\ on_disk self' = on_disk self /\
  validator_signer self' = validator_signer self /\ epoch_state self' = epoch_state self.
Proof.
  intros Hc Hr Hn Hi. destruct input; simpl in Hr; apply response_inv in Hr as (q & Hq & ->).
  - apply quiet_consensus_state in Hq as []. auto.
  - by destruct (Hi proof).
  - apply quiet_sign_proposal in Hq as []. auto.
  - apply timeout_inv in Hq as (? & ? & ? & [(? & ? & ? & _ & _ & _ & _ & -> & _)|[? _]]); [|done..].
    by destruct (Hn _ eq_refl).
  - apply vote_inv in Hq as (? & ? & ? & [?|[v ->]]); [done| |done]. by destruct (Hn _ eq_refl).
  - apply quiet_sign_commit_vote in Hq as []. auto.
Qed.

(** Asking for a vote in round 1 of a replica that has gone on to round 3. *)
Lemma failed_request_leaves_no_trace_witness :
  exists e self',
    SafetyRules.handle_message 1000 true (InConstructAndSignVoteTwoChain Trace.block1 None)
      (r_rules Validator1.later) = (Err e, self') /\
    on_disk self' = on_disk (r_rules Validator1.later).
Proof.
  exists (IncorrectLastVotedRound 1 3), (r_rules Validator1.later). split; [vm_compute; reflexivity|].
  apply (failed_request_leaves_no_trace (r_rules Validator1.later) (r_rules Validator1.later) 1000 true
           (InConstructAndSignVoteTwoChain Trace.block1 None) (Err (IncorrectLastVotedRound 1 3))).
  - apply (ro_coherent _ (replica_reachable_ok _ Validator1.later_reachable)).
  - vm_compute. reflexivity.
  - intros o. discriminate.
  - intros proof. discriminate.
Defined.

(** Initialization.  Whatever [initialize] returns, the safety data on disk
    are unchanged or are fresh ones of a strictly later epoch, the epoch state in
    memory is still the one of the epoch on disk, and it is either unchanged or the
    validator set named by the last ledger info of a proof that verified. *)
Theorem initialize_keeps_epochs `{KVStorageLaws Store} `{ConsensusCrypto}
    (self self' : SafetyRules Store) (proof : EpochChangeProof) (r : outcome Error unit) :
  sr_coherent self -> epoch_matches self ->
  SafetyRules.guarded_initialize proof self = (r, self') ->
  sr_coherent self' /\ epoch_matches self' /\
  (on_disk self' = on_disk self \/ exists e, epoch_started self self' e) /\
  (epoch_state self' = epoch_state self \/
   exists w li es, EpochChangeProof.verify proof w = Ok li /\
     LedgerInfo.next_epoch_state (lis_ledger_info li) = Some es /\ epoch_state self' = Some es).
Proof. apply initialize_inv. Qed.

Lemma initialize_keeps_epochs_witness :
  epoch_matches (r_rules Validator1.ready) /\ epoch_state (r_rules Validator1.ready) <> None.
Proof.
  split; [|vm_compute; discriminate].
  apply (initialize_keeps_epochs (r_rules Validator1.init) (r_rules Validator1.ready)
           Net.genesis_proof (Ok tt)).
  - apply (ro_coherent _ (replica_reachable_ok _ Validator1.init_reachable)).
  - apply (ro_epoch _ (replica_reachable_ok _ Validator1.init_reachable)).
  - vm_compute. reflexivity.
Defined.

(** Commit votes.  A commit vote is signed only for a ledger info whose
    commit block has the epoch, round and id of the block that a quorum of the
    epoch's validators has signed as ordered; the safety data are not involved. *)
Theorem commit_vote_released `{KVStorageLaws Store} `{ConsensusCrypto}
    (self self' : SafetyRules Store) (lis : LedgerInfoWithSignatures) (new_li : LedgerInfo)
    (sg : Signature) :
  SafetyRules.guarded_sign_commit_vote lis new_li self = (Ok sg, self') ->
  exists es s, epoch_state self = Some es /\ validator_signer self = Some s /\
    sg = ValidatorSigner.sign s new_li /\
    same_block (li_commit_info (lis_ledger_info lis)) (li_commit_info new_li) /\
    is_quorum (es_verifier es) (dom (lis_signatures lis)) /\
    (forall a s', lis_signatures lis !! a = Some s' ->
       Verifier.verify (es_verifier es) a (lis_ledger_info lis) s' = Ok tt) /\
    same self self'.
Proof.
  intros Hr. pose proof (quiet_sign_commit_vote _ _ _ _ _ Hr) as Hsame.
  apply commit_vote_Ok in Hr as (es & s & ? & ? & _ & Hm & Hv & ?).
  apply batch_verify_sound in Hv as [??]. exists es, s.
  split_and!; [done..| |done|done|done]. by apply match_ordered_only_same.
Qed.

(** The ordered block of round 1, executed to version 12. *)
Definition executed_li : LedgerInfo :=
  mkLedgerInfo (mkBlockInfo 1 1 11 500 12 1 None) (li_consensus_data_hash (QuorumCert.ledger_info Trace.qc2)).

Lemma commit_vote_released_witness :
  exists es s, epoch_state (r_rules Validator1.ready) = Some es /\
    validator_signer (r_rules Validator1.ready) = Some s /\
    101 = ValidatorSigner.sign s executed_li.
Proof.
  destruct (commit_vote_released (r_rules Validator1.ready) (r_rules Validator1.ready)
              (qc_signed_ledger_info Trace.qc2) executed_li 101) as (es & s & ? & ? & ? & _).
  - vm_compute. reflexivity.
  - by exists es, s.
Defined.

(** Reading safety data without the cache.  With [enable_cached_safety_data]
    off, [PersistentSafetyStorage::safety_data] never succeeds, whatever safety
    data the storage holds: the early return reads the stored value at the type
    [Result<SafetyData, Error>], which a stored [SafetyData] is not a document of. *)
Theorem uncached_safety_data_fails `{KVStorage Store} (self : PersistentSafetyStorage Store)
    (sd : SafetyData) :
  enable_cached_safety_data self = false ->
  kv_get (internal_store self) SAFETY_DATA = Ok (StoredSafetyData sd) ->
  PersistentSafetyStorage.safety_data self =
    (Err (SecureStorageUnexpectedError (CauseStorage (StorageSerializationError "safety_data"))), self).
Proof.
  intros Hc Hg. unfold PersistentSafetyStorage.safety_data. rewrite Hc. simpl.
  unfold get. by rewrite Hg.
Qed.

Definition uncached_storage : PersistentSafetyStorage InMemoryStorage :=
  PersistentSafetyStorage.new
    (internal_store (persistent_storage (r_rules Validator1.ready))) false.

Lemma uncached_safety_data_fails_witness :
  (PersistentSafetyStorage.safety_data uncached_storage).1 =
    Err (SecureStorageUnexpectedError (CauseStorage (StorageSerializationError "safety_data"))).
Proof.
  rewrite (uncached_safety_data_fails uncached_storage (mkSafetyData 1 0 0 0 None)).
  - reflexivity.
  - reflexivity.
  - vm_compute. reflexivity.
Defined.

(** The timeouts of round 3, as a certificate of another epoch. *)
Definition foreign_tc : TwoChainTimeoutCertificate :=
  mkTwoChainTimeoutCertificate (mkTwoChainTimeout 7 3 Trace.qc2) (tc_signatures Trace.tc3).

(** What the replica has on disk before round 4. *)
Definition later_data : SafetyData := default (mkSafetyData 0 0 0 0 None) (on_disk (r_rules Validator1.later)).
Definition later_epoch : EpochState := default (mkEpochState 0 (Net.V 1)) (epoch_state (r_rules Validator1.later)).

(** C36: safety rules grants every vote that the rules allow.  With a storage that works, a
    replica that is initialised for the epoch answers a request for a verified proposal, with
    a timeout certificate that verifies if there is one: with the vote it has recorded for
    that round, or, if the round is above the last voted one and either follows the parent's
    round or follows a timeout certificate whose highest certified round is not above the
    parent's, with a new vote, which is then on disk.  The epoch of the timeout certificate
    is not among the conditions. *)
Theorem safe_vote_granted `{KVStorageReliable Store} `{ConsensusCrypto} (self : SafetyRules Store)
    (now : N) (vp : VoteProposal) (tc : option TwoChainTimeoutCertificate) (sd : SafetyData) (es : EpochState)
    (s : ValidatorSigner) (vd : VoteData) :
  sr_coherent self -> enable_cached_safety_data (persistent_storage self) = true ->
  on_disk self = Some sd -> epoch_state self = Some es -> validator_signer self = Some s ->
  proposal_verified sd es now vp vd -> Block.round (vp_block vp) <= u64_max ->
  (forall c, tc = Some c -> TwoChainTimeoutCertificate.verify c (es_verifier es) = Ok tt) ->
  let parent := bi_round (QuorumCert.certified_block (Block.quorum_cert (vp_block vp))) in
  let request := SafetyRules.guarded_construct_and_sign_vote_two_chain now vp tc self in
  match SafetyRules.previous_vote (Block.round (vp_block vp)) sd with
  | Some vote => request.1 = Ok vote /\ on_disk request.2 = Some sd
  | None =>
      sd_last_voted_round sd < Block.round (vp_block vp) ->
      parent + 1 = Block.round (vp_block vp) \/
      (exists c, tc = Some c /\ TwoChainTimeoutCertificate.round c + 1 = Block.round (vp_block vp) /\
         TwoChainTimeoutCertificate.highest_hqc_round c <= parent) ->
      request.1 = Ok (new_vote s (vp_block vp) vd) /\
      on_disk request.2 = Some (after_vote sd (vp_block vp) (new_vote s (vp_block vp) vd))
  end.
Proof.
  intros Hc Hen Hd Hes Hs Hpv Hmax Htc parent request.
  destruct (verify_proposal_granted self now vp vd sd es Hc Hen Hd Hes Hpv) as (self1 & Hv & Hsame1 & Hen1).
  pose proof (same_coherent _ _ Hsame1 Hc) as Hc1. assert (on_disk self1 = Some sd) as Hd1 by (by rewrite (same_disk _ _ Hsame1)).
  destruct (read_safety_data self1 sd Hc1 Hen1 Hd1) as (self2 & Hr2 & Hsame2 & Hen2).
  assert (request = match SafetyRules.previous_vote (Block.round (vp_block vp)) sd with
    | Some vote => mret vote | None => SafetyRules.cast_vote (vp_block vp) tc vd sd end self2) as ->.
  { unfold request, SafetyRules.guarded_construct_and_sign_vote_two_chain, mbind, method_bind, gets.
    unfold SafetyRules.signer. rewrite Hs. cbn [ok_or]. rewrite Hv.
    assert (SafetyRules.verify_optional_tc tc self1 = Ok tt) as ->.
    { destruct tc as [c|]; [|done]. cbn. unfold SafetyRules.verify_tc, SafetyRules.get_epoch_state.
      rewrite (same_epoch_state _ _ Hsame1), Hes. cbn. by rewrite (Htc c eq_refl). }
    by rewrite Hr2. }
  pose proof (same_coherent _ _ Hsame2 Hc1) as Hc2.
  destruct (SafetyRules.previous_vote _ _) as [vote|]; [split; [done|]; cbn; by rewrite (same_disk _ _ Hsame2)|].
  intros Hlast Hrule. apply cast_vote_granted; try done; [by rewrite (same_signer _ _ Hsame2), (same_signer _ _ Hsame1)|].
  by apply pv_well_formed, well_formed_parent in Hpv as [_ ?].
Qed.

(** A replica of epoch 1 votes for a block of round 4 whose parent is of round 2, given a
    timeout certificate of epoch 7. *)
Lemma safe_vote_granted_witness :
  TwoChainTimeoutCertificate.epoch foreign_tc = 7 /\
  (SafetyRules.guarded_construct_and_sign_vote_two_chain 1000 Trace.block4 (Some foreign_tc) (r_rules Validator1.later)).1 =
    Ok (new_vote (mkValidatorSigner 1 1) (vp_block Trace.block4) (VoteProposal.vote_data_ordering_only Trace.block4)).
Proof.
  split; [reflexivity|].
  pose proof (safe_vote_granted (r_rules Validator1.later) 1000 Trace.block4 (Some foreign_tc) later_data later_epoch
    (mkValidatorSigner 1 1) (VoteProposal.vote_data_ordering_only Trace.block4)) as Hgrant. cbv zeta in Hgrant.
  assert (SafetyRules.previous_vote (Block.round (vp_block Trace.block4)) later_data = None) as Hnew by (vm_compute; reflexivity).
  rewrite Hnew in Hgrant. destruct Hgrant as [Hvote _].
  - apply (ro_coherent _ (replica_reachable_ok _ Validator1.later_reachable)).
  - vm_compute. reflexivity.
  - vm_compute. reflexivity.
  - vm_compute. reflexivity.
  - vm_compute. reflexivity.
  - split; vm_compute; reflexivity.
  - vm_compute. discriminate.
  - intros c [= <-]. vm_compute. reflexivity.
  - vm_compute. reflexivity.
  - right. exists foreign_tc. split; [reflexivity|]. split; [reflexivity|]. vm_compute. discriminate.
  - exact Hvote.
Defined.
End RulesProps.
