(* ===== verification/PendingVotes.v ===== *)
(** * Collecting votes and tracking rounds (consensus/src)

    [PendingVotes] (pending_votes.rs) aggregates the votes of the current round
    into quorum and timeout certificates; [RoundState]
    (liveness/round_state.rs) decides which round is current and keeps its
    deadline. *)

From S2P Require Import Prelude Crypto Errors Position Accumulator Verifier Ledger ConsensusTypes Blocks Bft.

Inductive VoteReceptionResult : Type :=
  | VoteAdded (voting_power : N)
  | DuplicateVote
  | EquivocateVote
  | NewQuorumCertificate (qc : QuorumCert)
  | New2ChainTimeoutCertificate (tc : TwoChainTimeoutCertificate)
  | ErrorAddingVote (e : VerifyError)
  | UnexpectedRound (vote_round current_round : N)
  | EchoTimeout (voting_power : N).

Record PendingVotes : Type := mkPendingVotes {
  li_digest_to_votes : gmap N LedgerInfoWithSignatures;
  maybe_partial_2chain_tc : option TwoChainTimeoutCertificate;
  author_to_vote : gmap N Vote;
  echo_timeout : bool;
}.

Module PendingVotes.
Definition new : PendingVotes := mkPendingVotes ∅ None ∅ false.

Section ops.
Context `{CryptoHash LedgerInfo}.

(** 1. Has the author already voted for this round? *)
Definition check_previous_vote (vote : Vote) (self : PendingVotes) : option VoteReceptionResult :=
  match author_to_vote self !! v_author vote with
  | Some previously_seen_vote =>
      if hash (v_ledger_info vote) =? hash (v_ledger_info previously_seen_vote) then
        let new_timeout_vote := Vote.is_timeout vote && negb (Vote.is_timeout previously_seen_vote) in
        if negb new_timeout_vote then Some DuplicateVote else None
      else Some EquivocateVote
  | None => None
  end.

(** 2 and 3. The ledger info of the vote with the vote's signature added. *)
Definition add_to_ledger_info (vote : Vote) (self : PendingVotes) : LedgerInfoWithSignatures :=
  LedgerInfoWithSignatures.add_signature
    (default (mkLedgerInfoWithSignatures (v_ledger_info vote) ∅)
       (li_digest_to_votes self !! hash (v_ledger_info vote)))
    (v_author vote) (v_signature vote).
Definition store_vote (vote : Vote) (self : PendingVotes) : PendingVotes :=
  mkPendingVotes
    (<[ hash (v_ledger_info vote) := add_to_ledger_info vote self ]> (li_digest_to_votes self))
    (maybe_partial_2chain_tc self)
    (<[ v_author vote := vote ]> (author_to_vote self)) (echo_timeout self).

Definition set_tc (tc : TwoChainTimeoutCertificate) (self : PendingVotes) : PendingVotes :=
  mkPendingVotes (li_digest_to_votes self) (Some tc) (author_to_vote self) (echo_timeout self).
Definition set_echo (self : PendingVotes) : PendingVotes :=
  mkPendingVotes (li_digest_to_votes self) (maybe_partial_2chain_tc self) (author_to_vote self) true.

(** 4. The timeout of the vote, when no quorum certificate is formed. *)
Definition insert_timeout {E} (vote : Vote) (timeout : TwoChainTimeout) (signature : Signature)
    (voting_power : N) (validator_verifier : ValidatorVerifier)
    : method PendingVotes E VoteReceptionResult := fun self =>
  let partial_tc := default (TwoChainTimeoutCertificate.new timeout) (maybe_partial_2chain_tc self) in
  let partial_tc := TwoChainTimeoutCertificate.add partial_tc (v_author vote) timeout signature in
  let self := set_tc partial_tc self in
  match Verifier.check_voting_power validator_verifier (TwoChainTimeoutCertificate.signers partial_tc) with
  | Ok _ => (Ok (New2ChainTimeoutCertificate partial_tc), self)
  | Err (TooLittleVotingPower tc_voting_power _) =>
      if negb (echo_timeout self) then
        match (difference ← sub64 (total_voting_power validator_verifier)
                              (quorum_voting_power validator_verifier);
               add64 difference 1) with
        | Ok f_plus_one =>
            if f_plus_one <=? tc_voting_power then (Ok (EchoTimeout tc_voting_power), set_echo self)
            else (Ok (VoteAdded voting_power), self)
        | Err e => (Err e, self)
        | Panic => (Panic, self)
        end
      else (Ok (VoteAdded voting_power), self)
  | Err error => (Ok (ErrorAddingVote error), self)
  | Panic => (Panic, self)
  end.

Definition insert_vote {E} (vote : Vote) (validator_verifier : ValidatorVerifier)
    : method PendingVotes E VoteReceptionResult := fun self =>
  match check_previous_vote vote self with
  | Some result => (Ok result, self)
  | None =>
      let li_with_sig := add_to_ledger_info vote self in
      let self := store_vote vote self in
      match Verifier.check_voting_power validator_verifier (btree_keys (lis_signatures li_with_sig)) with
      | Ok _ => (Ok (NewQuorumCertificate (mkQuorumCert (v_vote_data vote) li_with_sig)), self)
      | Err (TooLittleVotingPower voting_power _) =>
          match v_two_chain_timeout vote with
          | Some (timeout, signature) =>
              insert_timeout vote timeout signature voting_power validator_verifier self
          | None => (Ok (VoteAdded voting_power), self)
          end
      | Err error => (Ok (ErrorAddingVote error), self)
      | Panic => (Panic, self)
      end
  end.
End ops.
End PendingVotes.

(** ** [RoundState] *)
Inductive NewRoundReason : Type := QCReady | RoundTimeout.

Record NewRoundEvent : Type := mkNewRoundEvent {
  nre_round : Round;
  nre_reason : NewRoundReason;
  nre_timeout : N;
}.

(** The timer task in flight, which sends [round] when it fires; setting a new
    one aborts it.  Times are in nanoseconds since the epoch. *)
Record RoundState : Type := mkRoundState {
  highest_committed_round : Round;
  current_round : Round;
  current_round_deadline : N;
  pending_votes : PendingVotes;
  vote_sent : option Vote;
  timer : option (Round * N);
}.

Module RoundState.
Section ops.
(** The [RoundTimeInterval] in use and the clock. *)
Context (get_round_duration : N -> N) (now : N).

Definition new : RoundState := mkRoundState 0 0 now PendingVotes.new None None.

Definition is_vote_timeout (self : RoundState) : bool :=
  from_option Vote.is_timeout false (vote_sent self).

Definition round_index {E} (self : RoundState) : outcome E N :=
  if highest_committed_round self =? 0 then sub64 (current_round self) 1
  else
    bound ← add64 (highest_committed_round self) 3;
    if current_round self <? bound then Ok 0
    else d ← sub64 (current_round self) (highest_committed_round self); sub64 d 3.

Definition setup_deadline {E} (multiplier : N) : method RoundState E N := fun self =>
  match round_index self with
  | Ok i =>
      let timeout := get_round_duration i * multiplier in
      (Ok timeout,
       mkRoundState (highest_committed_round self) (current_round self) (now + timeout)
         (pending_votes self) (vote_sent self) (timer self))
  | Err e => (Err e, self)
  | Panic => (Panic, self)
  end.

Definition set_timer (timeout : N) (self : RoundState) : RoundState :=
  mkRoundState (highest_committed_round self) (current_round self) (current_round_deadline self)
    (pending_votes self) (vote_sent self) (Some (current_round self, timeout)).

Definition setup_timeout {E} (multiplier : N) : method RoundState E N :=
  timeout ← setup_deadline multiplier;
  _ ← puts (set_timer timeout);
  mret timeout.

Definition setup_leader_timeout {E} : method RoundState E unit :=
  _ ← setup_timeout 2; mret tt.

Definition process_local_timeout {E} (round : Round) : method RoundState E bool := fun self =>
  if negb (round =? current_round self) then (Ok false, self)
  else (_ ← setup_timeout 1; mret true) self.

Definition observe_committed (sync_info : SyncInfo) (self : RoundState) : RoundState :=
  if highest_committed_round self <? SyncInfo.highest_ordered_round sync_info then
    mkRoundState (SyncInfo.highest_ordered_round sync_info) (current_round self)
      (current_round_deadline self) (pending_votes self) (vote_sent self) (timer self)
  else self.

Definition start_round (new_round : Round) (self : RoundState) : RoundState :=
  mkRoundState (highest_committed_round self) new_round (current_round_deadline self)
    PendingVotes.new None (timer self).

Definition process_certificates {E} (sync_info : SyncInfo)
    : method RoundState E (option NewRoundEvent) :=
  _ ← puts (observe_committed sync_info);
  new_round ← lift (add64 (SyncInfo.highest_round sync_info) 1);
  self ← gets Ok;
  if current_round self <? new_round then
    _ ← puts (start_round new_round);
    timeout ← setup_timeout 1;
    next_certified ← lift (add64 (SyncInfo.highest_certified_round sync_info) 1);
    mret (Some (mkNewRoundEvent new_round
                  (if next_certified =? new_round then QCReady else RoundTimeout) timeout))
  else mret None.

Definition insert_vote {E} `{CryptoHash LedgerInfo} (vote : Vote) (verifier : ValidatorVerifier)
    : method RoundState E VoteReceptionResult := fun self =>
  let vote_round := bi_round (vd_proposed (v_vote_data vote)) in
  if vote_round =? current_round self then
    let '(r, votes) := PendingVotes.insert_vote vote verifier (pending_votes self) in
    (r, mkRoundState (highest_committed_round self) (current_round self)
          (current_round_deadline self) votes (vote_sent self) (timer self))
  else (Ok (UnexpectedRound vote_round (current_round self)), self).

Definition record_vote (vote : Vote) (self : RoundState) : RoundState :=
  if bi_round (vd_proposed (v_vote_data vote)) =? current_round self then
    mkRoundState (highest_committed_round self) (current_round self) (current_round_deadline self)
      (pending_votes self) (Some vote) (timer self)
  else self.
End ops.
End RoundState.

(** ** The votes collected in a round *)
Section collected.
Context `{CryptoHash LedgerInfo} `{!CollisionFree LedgerInfo} `{CryptoHash VoteData}.
Context `{Signable LedgerInfo} `{Signable TimeoutSigningRepr}.
Context (V : ValidatorVerifier) (epoch round : N).

(** A verified vote of the round ([VoteMsg::verify] and the round check come first). *)
Record round_vote (v : Vote) : Prop := {
  rv_verified : Vote.verify v V = Ok tt;
  rv_epoch : Vote.epoch v = epoch;
  rv_round : bi_round (vd_proposed (v_vote_data v)) = round;
}.

Inductive collected : PendingVotes -> Prop :=
  | collected_new : collected PendingVotes.new
  | collected_insert self v r self' :
      collected self -> round_vote v ->
      @PendingVotes.insert_vote _ unit v V self = (r, self') -> collected self'.

(** Partial certificates hold verified signatures over one message each. *)
Definition lis_ok (d : N) (lis : LedgerInfoWithSignatures) : Prop :=
  hash (lis_ledger_info lis) = d /\
  forall a s, lis_signatures lis !! a = Some s ->
    Verifier.verify V a (lis_ledger_info lis) s = Ok tt.

Record tc_ok (tc : TwoChainTimeoutCertificate) : Prop := {
  tco_epoch : TwoChainTimeoutCertificate.epoch tc = epoch;
  tco_round : TwoChainTimeoutCertificate.round tc = round;
  tco_timeout : TwoChainTimeout.verify (tc_timeout tc) V = Ok tt;
  tco_signatures a q s : tc_signatures tc !! a = Some (q, s) ->
    q <= TwoChainTimeoutCertificate.highest_hqc_round tc /\
    Verifier.verify V a (mkTimeoutSigningRepr epoch round q) s = Ok tt;
  tco_highest : exists a s,
    tc_signatures tc !! a = Some (TwoChainTimeoutCertificate.highest_hqc_round tc, s);
}.

Record pending_ok (self : PendingVotes) : Prop := {
  po_author d lis a : li_digest_to_votes self !! d = Some lis -> is_Some (lis_signatures lis !! a) ->
    exists v, author_to_vote self !! a = Some v /\ hash (v_ledger_info v) = d;
  po_ledger_infos d lis : li_digest_to_votes self !! d = Some lis -> lis_ok d lis;
  po_tc tc : maybe_partial_2chain_tc self = Some tc -> tc_ok tc;
  po_tc_voted tc a : maybe_partial_2chain_tc self = Some tc -> is_Some (tc_signatures tc !! a) ->
    exists v, author_to_vote self !! a = Some v /\ Vote.is_timeout v = true;
}.

(** What a verified vote carries. *)
Lemma vote_verify_Ok v :
  Vote.verify v V = Ok tt ->
  li_consensus_data_hash (v_ledger_info v) = hash (v_vote_data v) /\
  Verifier.verify V (v_author v) (v_ledger_info v) (v_signature v) = Ok tt /\
  VoteData.verify (v_vote_data v) = Ok tt /\
  forall t s, v_two_chain_timeout v = Some (t, s) ->
    to_epoch t = Vote.epoch v /\ to_round t = bi_round (vd_proposed (v_vote_data v)) /\
    TwoChainTimeout.verify t V = Ok tt /\
    Verifier.verify V (v_author v) (TwoChainTimeout.signing_format t) s = Ok tt.
Proof.
  unfold Vote.verify. intros Hv. run. breflect. split_and!; [done..|].
  intros t s Ht. rewrite Ht in *. run. by breflect.
Qed.

Lemma add_to_ledger_info_ok v self :
  pending_ok self -> round_vote v -> lis_ok (hash (v_ledger_info v)) (PendingVotes.add_to_ledger_info v self)
  /\ lis_ledger_info (PendingVotes.add_to_ledger_info v self) = v_ledger_info v.
Proof.
  intros Hok [Hv _ _]. apply vote_verify_Ok in Hv as (_ & Hsig & _).
  unfold PendingVotes.add_to_ledger_info, LedgerInfoWithSignatures.add_signature.
  destruct (li_digest_to_votes self !! hash (v_ledger_info v)) as [lis|] eqn:Hl; simpl.
  - apply (po_ledger_infos _ Hok) in Hl as [Hh Hs]. pose proof (hash_inj _ _ Hh) as He.
    split; [|done]. split; [done|]. intros a s. simpl.
    destruct (lis_signatures lis !! v_author v) eqn:Ha; [apply Hs|].
    rewrite lookup_insert_Some, He. intros [[<- <-]|[_ Hin]]; [done|]. rewrite <-He. by apply Hs.
  - rewrite lookup_empty. split; [|done]. split; [done|]. intros a s. simpl.
    rewrite lookup_insert_Some, lookup_empty. by intros [[<- <-]|[_ ?]].
Qed.

Lemma new_tc_add t v s :
  to_epoch t = epoch -> to_round t = round -> TwoChainTimeout.verify t V = Ok tt ->
  Verifier.verify V (v_author v) (TwoChainTimeout.signing_format t) s = Ok tt ->
  tc_ok (TwoChainTimeoutCertificate.add (TwoChainTimeoutCertificate.new t) (v_author v) t s).
Proof.
  intros He Hr Ht Hs. unfold TwoChainTimeoutCertificate.add, TwoChainTimeoutCertificate.new. simpl.
  rewrite N.ltb_irrefl. split; simpl; try done.
  - intros a q s'. rewrite lookup_insert_Some, lookup_empty. intros [[<- [= <- <-]]|[_ ?]]; [|done].
    split; [done|]. rewrite <-He, <-Hr. done.
  - exists (v_author v), s. by rewrite lookup_insert_eq.
Qed.

(** Adding the timeout of a validator that is not in the certificate yet. *)
Lemma tc_add tc a t s :
  tc_ok tc -> tc_signatures tc !! a = None ->
  to_epoch t = epoch -> to_round t = round -> TwoChainTimeout.verify t V = Ok tt ->
  Verifier.verify V a (TwoChainTimeout.signing_format t) s = Ok tt ->
  tc_ok (TwoChainTimeoutCertificate.add tc a t s).
Proof.
  intros [Te Tr Tt Ts (a0 & s0 & Th)] Ha He Hr Ht Hs. unfold TwoChainTimeoutCertificate.add.
  unfold TwoChainTimeoutCertificate.highest_hqc_round in *.
  assert (Verifier.verify V a (mkTimeoutSigningRepr epoch round (TwoChainTimeout.hqc_round t)) s = Ok tt) as Hs'
    by (rewrite <-He, <-Hr; done).
  destruct (N.ltb_spec (TwoChainTimeout.hqc_round (tc_timeout tc)) (TwoChainTimeout.hqc_round t));
    split; simpl; try done; unfold TwoChainTimeoutCertificate.highest_hqc_round; simpl.
  - intros b q s'. rewrite lookup_insert_Some. intros [[<- [= <- <-]]|[_ Hb]]; [done|].
    destruct (Ts _ _ _ Hb). split; [lia|done].
  - exists a, s. by rewrite lookup_insert_eq.
  - intros b q s'. rewrite lookup_insert_Some. intros [[<- [= <- <-]]|[_ Hb]]; [done|]. by apply Ts.
  - exists a0, s0. rewrite lookup_insert_ne; [done|]. intros ->. congruence.
Qed.

Lemma not_in_tc v self tc :
  pending_ok self -> PendingVotes.check_previous_vote v self = None ->
  maybe_partial_2chain_tc self = Some tc -> tc_signatures tc !! v_author v = None.
Proof.
  intros Hok Hc Htc. apply eq_None_not_Some. intros Hin.
  destruct (po_tc_voted _ Hok _ _ Htc Hin) as (w & Hw & Hto).
  unfold PendingVotes.check_previous_vote in Hc. rewrite Hw, Hto in Hc.
  rewrite andb_false_r in Hc. by destruct (_ =? _).
Qed.

Lemma add_to_ledger_info_dom v self a :
  is_Some (lis_signatures (PendingVotes.add_to_ledger_info v self) !! a) ->
  a = v_author v \/ exists lis, li_digest_to_votes self !! hash (v_ledger_info v) = Some lis /\
    is_Some (lis_signatures lis !! a).
Proof.
  unfold PendingVotes.add_to_ledger_info, LedgerInfoWithSignatures.add_signature. simpl.
  destruct (decide (a = v_author v)) as [->|Hne]; [by left|]. intros Hin. right.
  destruct (li_digest_to_votes self !! hash (v_ledger_info v)) as [lis|]; simpl in Hin.
  - exists lis. split; [done|]. destruct (lis_signatures lis !! v_author v); [done|].
    by rewrite lookup_insert_ne in Hin by congruence.
  - rewrite lookup_empty, lookup_insert_ne, lookup_empty in Hin by congruence. by destruct Hin.
Qed.

(** An author's earlier vote that is not rejected is for the same ledger info. *)
Lemma previous_vote_digest v w self :
  PendingVotes.check_previous_vote v self = None -> author_to_vote self !! v_author v = Some w ->
  hash (v_ledger_info w) = hash (v_ledger_info v).
Proof.
  unfold PendingVotes.check_previous_vote. intros Hc Hw. rewrite Hw in Hc.
  destruct (N.eqb_spec (hash (v_ledger_info v)) (hash (v_ledger_info w))); done.
Qed.

Lemma store_vote_author v self d lis a :
  pending_ok self -> PendingVotes.check_previous_vote v self = None ->
  li_digest_to_votes (PendingVotes.store_vote v self) !! d = Some lis ->
  is_Some (lis_signatures lis !! a) ->
  exists w, author_to_vote (PendingVotes.store_vote v self) !! a = Some w /\ hash (v_ledger_info w) = d.
Proof.
  intros Hok Hc. simpl. destruct (decide (a = v_author v)) as [->|Hne].
  - rewrite lookup_insert_eq. intros Hl Hin. exists v. split; [done|].
    apply lookup_insert_Some in Hl as [[<- _]|[_ Hl]]; [done|].
    destruct (po_author _ Hok _ _ _ Hl Hin) as (w & Hw & <-). symmetry. by eapply previous_vote_digest.
  - rewrite (lookup_insert_ne (author_to_vote self)) by congruence. intros Hl Hin.
    apply lookup_insert_Some in Hl as [[<- <-]|[_ Hl]]; [|by eapply po_author].
    apply add_to_ledger_info_dom in Hin as [?|(lis' & Hl & Hin)]; [done|]. by eapply po_author.
Qed.

Lemma store_vote_ok v self :
  pending_ok self -> round_vote v -> PendingVotes.check_previous_vote v self = None ->
  pending_ok (PendingVotes.store_vote v self).
Proof.
  intros Hok Hv Hc. pose proof (add_to_ledger_info_ok v self Hok Hv) as [Hli _].
  destruct Hok as [P0 P1 P2 P3] eqn:Heq. split; simpl.
  - intros d lis a Hl Hin. by eapply store_vote_author.
  - intros d lis. rewrite lookup_insert_Some. intros [[<- <-]|[_ Hd]]; [done|by apply P1].
  - apply P2.
  - intros tc a Htc Hin. destruct (decide (a = v_author v)) as [->|Hne].
    + rewrite (not_in_tc v self tc Hok Hc Htc) in Hin. by destruct Hin.
    + rewrite lookup_insert_ne by congruence. by eapply P3.
Qed.

(** The certificate in progress once the timeout of [v] is added. *)
Definition tc_with (v : Vote) (t : TwoChainTimeout) (s : Signature) (self : PendingVotes) :=
  TwoChainTimeoutCertificate.add
    (default (TwoChainTimeoutCertificate.new t) (maybe_partial_2chain_tc self)) (v_author v) t s.

Lemma set_tc_ok v t s self :
  pending_ok self -> round_vote v -> PendingVotes.check_previous_vote v self = None ->
  v_two_chain_timeout v = Some (t, s) ->
  let self' := PendingVotes.set_tc (tc_with v t s (PendingVotes.store_vote v self))
                 (PendingVotes.store_vote v self) in
  pending_ok self' /\ tc_ok (tc_with v t s (PendingVotes.store_vote v self)).
Proof.
  intros Hok Hv Hc Ht self'. pose proof (store_vote_ok v self Hok Hv Hc) as [P0 P1 _ P3].
  destruct Hv as [Hver Hep Hro].
  destruct (vote_verify_Ok v Hver) as (_ & _ & _ & Hto). destruct (Hto t s Ht) as (He & Hr & Htv & Hts).
  rewrite Hep in He. rewrite Hro in Hr.
  assert (tc_ok (tc_with v t s (PendingVotes.store_vote v self))) as Htc.
  { unfold tc_with. simpl. destruct (maybe_partial_2chain_tc self) as [tc|] eqn:Hm; simpl.
    - apply tc_add; try done; [by eapply po_tc|]. by eapply not_in_tc.
    - by apply new_tc_add. }
  split; [|done]. split; simpl; [exact P0|exact P1|by intros tc [= <-]|].
  intros tc a [= <-] Hin. unfold tc_with, TwoChainTimeoutCertificate.add in Hin. simpl in Hin.
  destruct (decide (a = v_author v)) as [->|Hne].
  - exists v. rewrite lookup_insert_eq. split; [done|]. unfold Vote.is_timeout. by rewrite Ht.
  - rewrite lookup_insert_ne in Hin by congruence.
    destruct (maybe_partial_2chain_tc self) as [tc|] eqn:Hm; simpl in Hin.
    + eapply P3; [exact Hm|done].
    + rewrite lookup_empty in Hin. by destruct Hin.
Qed.

Lemma set_echo_ok self : pending_ok self -> pending_ok (PendingVotes.set_echo self).
Proof. by intros [P0 P1 P2 P3]. Qed.

(** The certificates a round's votes form, and the invariant. *)
Lemma insert_vote_inv v self r self' :
  pending_ok self -> round_vote v -> @PendingVotes.insert_vote _ unit v V self = (r, self') ->
  pending_ok self' /\
  (forall qc, r = Ok (NewQuorumCertificate qc) ->
     qc_vote_data qc = v_vote_data v /\ QuorumCert.ledger_info qc = v_ledger_info v /\
     (exists d, lis_ok d (qc_signed_ledger_info qc)) /\
     Verifier.check_voting_power V (btree_keys (lis_signatures (qc_signed_ledger_info qc))) = Ok tt) /\
  (forall tc, r = Ok (New2ChainTimeoutCertificate tc) ->
     tc_ok tc /\ Verifier.check_voting_power V (TwoChainTimeoutCertificate.signers tc) = Ok tt).
Proof.
  intros Hok Hv. unfold PendingVotes.insert_vote.
  destruct (PendingVotes.check_previous_vote v self) as [res|] eqn:Hc.
  { intros [= <- <-]. split_and!; [done|..]; intros ? [= ->];
      unfold PendingVotes.check_previous_vote in Hc; repeat case_match; done. }
  destruct (add_to_ledger_info_ok v self Hok Hv) as [Hli Hle].
  pose proof (store_vote_ok v self Hok Hv Hc) as Hst.
  destruct (Verifier.check_voting_power V (btree_keys _)) as [[]|[]|] eqn:Hp;
    try (intros [= <- <-]; split_and!; done).
  { intros [= <- <-]. split_and!; [done| |done]. intros qc [= <-]. simpl. split_and!; [done..| |done]. by eexists. }
  destruct (v_two_chain_timeout v) as [[t s]|] eqn:Ht; [|intros [= <- <-]; split_and!; done].
  unfold PendingVotes.insert_timeout. fold (tc_with v t s (PendingVotes.store_vote v self)).
  destruct (set_tc_ok v t s self Hok Hv Hc Ht) as [Hst' Htc].
  destruct (Verifier.check_voting_power V (TwoChainTimeoutCertificate.signers _)) as [[]|[]|] eqn:Hq;
    try (intros [= <- <-]; split_and!; naive_solver).
  repeat case_match; intros [= <- <-]; split_and!; try done. by apply set_echo_ok.
Qed.

Lemma collected_ok self : collected self -> pending_ok self.
Proof.
  induction 1 as [|self v r self' _ IH Hv Hr]; [by split|]. by eapply insert_vote_inv.
Qed.

(** *** Formed certificates verify *)
Lemma verify_signed_rounds_total tc acc m l :
  TwoChainTimeoutCertificate.epoch tc = epoch -> TwoChainTimeoutCertificate.round tc = round ->
  acc <= m ->
  Forall (fun p => p.2.1 <= m /\
            Verifier.verify V p.1 (mkTimeoutSigningRepr epoch round p.2.1) p.2.2 = Ok tt) l ->
  (acc = m \/ exists p, p ∈ l /\ p.2.1 = m) ->
  TwoChainTimeoutCertificate.verify_signed_rounds tc V acc l = Ok m.
Proof.
  intros He Hr Hle Hall. revert acc Hle. induction Hall as [|[a [q s]] l [Hq Hv] Hall IH]; intros acc Hle Hm.
  { destruct Hm as [->|(p & Hp & _)]; [done|by apply elem_of_nil in Hp]. }
  simpl in *. rewrite He, Hr, Hv. simpl. apply IH; [lia|].
  destruct Hm as [->|(p & [->|Hp]%elem_of_cons & Hpm)]; [left; lia|left; simpl in *; lia|].
  right. by exists p.
Qed.

Lemma formed_tc_verifies tc :
  tc_ok tc -> Verifier.check_voting_power V (TwoChainTimeoutCertificate.signers tc) = Ok tt ->
  TwoChainTimeoutCertificate.verify tc V = Ok tt.
Proof.
  intros [Te Tr Tt Ts (a & s & Th)] Hp. unfold TwoChainTimeoutCertificate.verify.
  rewrite Tt. simpl. unfold TwoChainTimeoutCertificate.signers in Hp. rewrite Hp. simpl.
  rewrite (verify_signed_rounds_total tc 0 (TwoChainTimeoutCertificate.highest_hqc_round tc)); try done.
  - simpl. unfold TwoChainTimeoutCertificate.highest_hqc_round. by rewrite N.eqb_refl.
  - lia.
  - apply Forall_forall. intros [b [q s']] Hb%elem_of_btree_iter. by apply Ts.
  - right. exists (a, (TwoChainTimeoutCertificate.highest_hqc_round tc, s)).
    by rewrite elem_of_btree_iter.
Qed.

(** A certificate of round 0 is not formed by votes. *)
Lemma formed_qc_verifies v qc :
  round <> 0 -> round_vote v -> qc_vote_data qc = v_vote_data v ->
  QuorumCert.ledger_info qc = v_ledger_info v -> (exists d, lis_ok d (qc_signed_ledger_info qc)) ->
  Verifier.check_voting_power V (btree_keys (lis_signatures (qc_signed_ledger_info qc))) = Ok tt ->
  QuorumCert.verify qc V = Ok tt.
Proof.
  intros Hr0 [Hver _ Hro] Hvd Hli (d & _ & Hs) Hp.
  apply vote_verify_Ok in Hver as (Hh & _ & Hvv & _).
  unfold QuorumCert.verify. rewrite Hli, Hvd, Hh, N.eqb_refl. simpl.
  unfold QuorumCert.certified_block. rewrite Hvd, Hro, (proj2 (N.eqb_neq _ _) Hr0).
  unfold LedgerInfoWithSignatures.verify_signatures.
  by rewrite batch_verify_complete by done.
Qed.
End collected.
