(* ===== verification/RoundProps.v ===== *)
(** * Properties of vote collection and rounds *)

From S2P Require Import Prelude Crypto Errors Position Accumulator Verifier Ledger ConsensusTypes Blocks Storage SafetyRules SafetyLemmas Replica Bft Simulation Agreement PendingVotes.

(** ** Vote collection *)
Section counting.
Context `{CryptoHash LedgerInfo}.

(** The results of inserting votes one after the other. *)
Fixpoint insert_votes (V : ValidatorVerifier) (votes : list Vote) (self : PendingVotes)
    : list (outcome unit VoteReceptionResult) :=
  match votes with
  | [] => []
  | v :: votes =>
      let '(r, self') := PendingVotes.insert_vote v V self in r :: insert_votes V votes self'
  end.

Definition is_echo (r : outcome unit VoteReceptionResult) : bool :=
  match r with Ok (EchoTimeout _) => true | _ => false end.

Lemma insert_timeout_echo v t s p V self r self' :
  @PendingVotes.insert_timeout unit v t s p V self = (r, self') ->
  (is_echo r = false /\ echo_timeout self' = echo_timeout self) \/
  (is_echo r = true /\ echo_timeout self = false /\ echo_timeout self' = true).
Proof.
  unfold PendingVotes.insert_timeout. simpl.
  destruct (Verifier.check_voting_power _ _) as [[]|[]|]; try (intros [= <- <-]; by left).
  destruct (echo_timeout self) eqn:He; simpl; [intros [= <- <-]; by left|].
  repeat case_match; intros [= <- <-]; simpl; by auto.
Qed.

Lemma insert_vote_echo v V self r self' :
  @PendingVotes.insert_vote _ unit v V self = (r, self') ->
  (is_echo r = false /\ echo_timeout self' = echo_timeout self) \/
  (is_echo r = true /\ echo_timeout self = false /\ echo_timeout self' = true).
Proof.
  unfold PendingVotes.insert_vote. unfold PendingVotes.check_previous_vote.
  destruct (author_to_vote self !! v_author v) as [w|]; repeat case_match; simplify_eq;
    try (intros [= <- <-]; by left); intros Hr; by apply insert_timeout_echo in Hr.
Qed.

Lemma echo_once V votes self :
  (length (filter (fun r => is_echo r = true) (insert_votes V votes self)) <=
    if echo_timeout self then 0 else 1)%nat.
Proof.
  revert self. induction votes as [|v votes IH]; intros self; simpl; [lia|].
  destruct (PendingVotes.insert_vote v V self) as [r self'] eqn:Hr.
  specialize (IH self'). rewrite filter_cons.
  apply insert_vote_echo in Hr as [[Hn He]|(Hy & He & He')].
  - rewrite Hn, He in *. rewrite decide_False by done. done.
  - rewrite Hy, He, He' in *. rewrite decide_True by done. simpl. lia.
Qed.
End counting.

(** The threshold of the echo is computable for a validator set with some power. *)
Lemma echo_threshold V :
  verifier_wf V -> total_voting_power V <> 0 ->
  exists f, (d ← @sub64 unit (total_voting_power V) (quorum_voting_power V); add64 d 1) = Ok f.
Proof.
  intros [Ht Hu Hq] Hne.
  assert (quorum_voting_power V <= total_voting_power V) as Hle.
  { case_bool_decide; [lia|]. rewrite Hq. by apply two_thirds_le. }
  exists (total_voting_power V - quorum_voting_power V + 1).
  apply bind_Ok. eexists. split; [by apply sub64_Ok|]. apply add64_Ok. split; [done|].
  case_bool_decide as Hm; [exfalso|revert Hq; generalize (total_voting_power V * 2 / 3); lia].
  apply Hne. rewrite Ht. unfold validators. by rewrite Hm, dom_empty_L.
Qed.

(** A hash of ledger infos for the network of Simulation.v. *)
Module NetHash.
Import Net.
Definition ledger_info_numbers (l : LedgerInfo) : list N :=
  li_consensus_data_hash l :: block_info_numbers (li_commit_info l).
#[global] Instance ledger_info_numbers_inj : Inj (=) (=) ledger_info_numbers.
Proof.
  intros [c h] [c' h'] Hl. pose proof (f_equal tail Hl) as Ht%(inj block_info_numbers).
  pose proof (f_equal head Hl) as Hh. simpl in *. congruence.
Qed.
#[global] Instance hash_ledger_info : CryptoHash LedgerInfo := fun l => N.pos (encode (ledger_info_numbers l)).
#[global] Instance ledger_info_collision_free : CollisionFree LedgerInfo.
Proof.
  intros x y Hh. injection Hh as Hh. by apply (inj encode), (inj ledger_info_numbers) in Hh.
Qed.

(** The votes of the validators in round 2, with a timeout each. *)
Definition vote_of (a : N) : Vote :=
  new_vote (mkValidatorSigner a a) (vp_block Trace.block2) (VoteProposal.vote_data_ordering_only Trace.block2).
Definition timeout_of (a : N) : Vote :=
  Vote.add_2chain_timeout (vote_of a) (mkTwoChainTimeout 1 2 Trace.qc1) (100 + a).

Definition after (votes : list Vote) : PendingVotes :=
  foldl (fun self v => (@PendingVotes.insert_vote _ unit v verifier4 self).2) PendingVotes.new votes.

Lemma after_collected votes :
  Forall (round_vote verifier4 1 2) votes -> collected verifier4 1 2 (after votes).
Proof.
  intros Hall. unfold after.
  assert (forall self, collected verifier4 1 2 self -> collected verifier4 1 2
    (foldl (fun self v => (@PendingVotes.insert_vote _ unit v verifier4 self).2) self votes)) as Hgen.
  { induction Hall as [|v votes Hv Hall IH]; simpl; [done|]. intros self Hs. apply IH.
    eapply collected_insert; [done..|]. apply surjective_pairing. }
  apply Hgen, collected_new.
Qed.

Lemma votes_ok : Forall (round_vote verifier4 1 2) [vote_of 1; timeout_of 2; timeout_of 1; vote_of 3].
Proof. repeat constructor; vm_compute; reflexivity. Qed.
End NetHash.

Module CollectionProps.
(** C33: certificates formed from votes verify.  Starting from an empty
    [PendingVotes] and inserting verified votes of one epoch and round (above 0),
    in any order and number, whenever [insert_vote] reports a new quorum
    certificate, that certificate passes [QuorumCert::verify], and whenever it
    reports a new timeout certificate, that one passes
    [TwoChainTimeoutCertificate::verify] and is of that epoch and round. *)
Theorem formed_certificates_verify `{CryptoHash LedgerInfo} `{!CollisionFree LedgerInfo}
    `{CryptoHash VoteData} `{Signable LedgerInfo} `{Signable TimeoutSigningRepr}
    (V : ValidatorVerifier) (epoch round : N) (self self' : PendingVotes) (v : Vote)
    (r : VoteReceptionResult) :
  collected V epoch round self -> round_vote V epoch round v -> round <> 0 ->
  @PendingVotes.insert_vote _ unit v V self = (Ok r, self') ->
  match r with
  | NewQuorumCertificate qc =>
      QuorumCert.verify qc V = Ok tt /\ qc_vote_data qc = v_vote_data v
  | New2ChainTimeoutCertificate tc =>
      TwoChainTimeoutCertificate.verify tc V = Ok tt /\
      TwoChainTimeoutCertificate.epoch tc = epoch /\ TwoChainTimeoutCertificate.round tc = round
  | _ => True
  end.
Proof.
  intros Hc%collected_ok Hv Hr0 Hr.
  destruct (insert_vote_inv V epoch round v self (Ok r) self' Hc Hv Hr) as (_ & Hqc & Htc).
  destruct r; try done.
  - destruct (Hqc qc eq_refl) as (? & ? & ? & ?). split; [|done]. by eapply formed_qc_verifies.
  - destruct (Htc tc eq_refl) as [Hok ?]. destruct Hok eqn:Hok'. split_and!; [|done..].
    by eapply (formed_tc_verifies V epoch round).
Qed.

Lemma formed_certificates_verify_witness :
  QuorumCert.verify
    (mkQuorumCert (v_vote_data (NetHash.vote_of 3))
       (PendingVotes.add_to_ledger_info (NetHash.vote_of 3)
          (NetHash.after [NetHash.vote_of 1; NetHash.timeout_of 2; NetHash.timeout_of 1])))
    Net.verifier4 = Ok tt.
Proof.
  pose (self := NetHash.after [NetHash.vote_of 1; NetHash.timeout_of 2; NetHash.timeout_of 1]).
  apply (formed_certificates_verify Net.verifier4 1 2 self
    (@PendingVotes.insert_vote _ unit (NetHash.vote_of 3) Net.verifier4 self).2 (NetHash.vote_of 3)
    (NewQuorumCertificate (mkQuorumCert (v_vote_data (NetHash.vote_of 3))
       (PendingVotes.add_to_ledger_info (NetHash.vote_of 3) self)))).
  - apply NetHash.after_collected. exact (Forall_take _ 3%nat _ NetHash.votes_ok).
  - constructor; vm_compute; reflexivity.
  - discriminate.
  - rewrite (surjective_pairing (PendingVotes.insert_vote _ _ _)). f_equal.
Defined.

(** No validator counts twice.  In a [PendingVotes] built from verified votes
    of a round, the signatures of one author are under at most one ledger info,
    the one of the vote recorded for that author; equivocating votes add nothing. *)
Theorem one_ledger_info_per_author `{CryptoHash LedgerInfo} `{!CollisionFree LedgerInfo}
    `{CryptoHash VoteData} `{Signable LedgerInfo} `{Signable TimeoutSigningRepr}
    (V : ValidatorVerifier) (epoch round : N) (self : PendingVotes) (a d d' : N)
    (lis lis' : LedgerInfoWithSignatures) :
  collected V epoch round self ->
  li_digest_to_votes self !! d = Some lis -> is_Some (lis_signatures lis !! a) ->
  li_digest_to_votes self !! d' = Some lis' -> is_Some (lis_signatures lis' !! a) ->
  d = d' /\ exists v, author_to_vote self !! a = Some v /\ v_ledger_info v = lis_ledger_info lis.
Proof.
  intros Hc%collected_ok Hl Ha Hl' Ha'.
  destruct (po_author _ _ _ _ Hc _ _ _ Hl Ha) as (v & Hv & Hd).
  destruct (po_author _ _ _ _ Hc _ _ _ Hl' Ha') as (v' & Hv' & Hd').
  rewrite Hv in Hv'. injection Hv' as <-. split; [congruence|]. exists v. split; [done|].
  destruct (po_ledger_infos _ _ _ _ Hc _ _ Hl) as [Hh _]. apply hash_inj. congruence.
Qed.

Lemma one_ledger_info_per_author_witness :
  exists v, author_to_vote (NetHash.after [NetHash.vote_of 1; NetHash.timeout_of 2]) !! 1 = Some v /\
    v_ledger_info v = v_ledger_info (NetHash.vote_of 1).
Proof.
  pose (d := hash (v_ledger_info (NetHash.vote_of 1))).
  pose (lis := mkLedgerInfoWithSignatures (v_ledger_info (NetHash.vote_of 1)) {[ 1 := 101; 2 := 102 ]}).
  apply (one_ledger_info_per_author Net.verifier4 1 2
           (NetHash.after [NetHash.vote_of 1; NetHash.timeout_of 2]) 1 d d lis lis).
  - apply NetHash.after_collected. exact (Forall_take _ 2%nat _ NetHash.votes_ok).
  - vm_compute. reflexivity.
  - exists 101. vm_compute. reflexivity.
  - vm_compute. reflexivity.
  - exists 101. vm_compute. reflexivity.
Defined.

(** A round's timeouts are echoed at most once: among the results of any
    sequence of votes inserted into a fresh [PendingVotes] there is at most one
    [EchoTimeout]. *)
Theorem echo_at_most_once `{CryptoHash LedgerInfo} (V : ValidatorVerifier) (votes : list Vote) :
  (length (filter (fun r => is_echo r = true) (insert_votes V votes PendingVotes.new)) <= 1)%nat.
Proof. apply (echo_once V votes PendingVotes.new). Qed.

(** Collecting votes never fails.  With a validator set built by
    [ValidatorVerifier::new] that has some voting power, inserting any vote,
    verified or not, into any [PendingVotes] returns a result: no sum overflows
    and the echo threshold does not underflow. *)
Theorem insert_vote_total `{CryptoHash LedgerInfo} (m : gmap N ValidatorConsensusInfo)
    (V : ValidatorVerifier) (v : Vote) (self : PendingVotes) :
  @Verifier.new unit m = Ok V -> total_voting_power V <> 0 ->
  exists r self', @PendingVotes.insert_vote _ unit v V self = (Ok r, self').
Proof.
  intros Hnew%new_wf Ht.
  assert (forall A (sigs : gmap N A), Verifier.check_voting_power V (btree_keys sigs) <> Panic) as Hp.
  { intros A sigs. rewrite check_voting_power_eq by auto using NoDup_btree_keys.
    unfold check_voting_power_spec. by repeat case_match. }
  assert (exists f, (d ← @sub64 unit (total_voting_power V) (quorum_voting_power V); add64 d 1) = Ok f)
    as [f Hf] by by apply echo_threshold.
  unfold PendingVotes.insert_vote, PendingVotes.insert_timeout, TwoChainTimeoutCertificate.signers.
  repeat case_match; try (by eauto); try (by edestruct Hp); simplify_eq/=; congruence.
Qed.

Lemma insert_vote_total_witness :
  exists r self', @PendingVotes.insert_vote _ unit (NetHash.timeout_of 4) Net.verifier4
    (NetHash.after [NetHash.timeout_of 2]) = (Ok r, self').
Proof.
  apply (insert_vote_total Net.validators4 Net.verifier4).
  - vm_compute. reflexivity.
  - discriminate.
Defined.
End CollectionProps.

(** ** Rounds *)
Section rounds.
Context `{CryptoHash LedgerInfo} (get_round_duration : N -> N).

Inductive RoundInput : Type :=
  | ProcessCertificates (sync_info : SyncInfo)
  | ProcessLocalTimeout (round : Round)
  | InsertVote (vote : Vote) (verifier : ValidatorVerifier)
  | RecordVote (vote : Vote)
  | SetupLeaderTimeout.

(** One call, at time [now]; the event is the new round it starts, if any. *)
Definition round_call (now : N) (input : RoundInput)
    : method RoundState unit (option NewRoundEvent) :=
  match input with
  | ProcessCertificates sync_info => RoundState.process_certificates get_round_duration now sync_info
  | ProcessLocalTimeout round =>
      _ ← RoundState.process_local_timeout get_round_duration now round; mret None
  | InsertVote vote verifier => _ ← RoundState.insert_vote vote verifier; mret None
  | RecordVote vote => _ ← puts (RoundState.record_vote vote); mret None
  | SetupLeaderTimeout => _ ← RoundState.setup_leader_timeout get_round_duration now; mret None
  end.

(** Calls in sequence, with the new rounds they start, latest first. *)
Inductive rounds_run : RoundState -> list NewRoundEvent -> Prop :=
  | rounds_new now : rounds_run (RoundState.new now) []
  | rounds_call self events now input e self' :
      rounds_run self events -> round_call now input self = (Ok e, self') ->
      rounds_run self' (option_list e ++ events).

(** Everything the state holds is about the current round. *)
Record round_ok (self : RoundState) : Prop := {
  rdo_timer : match timer self with
              | Some (round, _) => round = current_round self
              | None => current_round self = 0
              end;
  rdo_votes a v : author_to_vote (pending_votes self) !! a = Some v -> vote_round v = current_round self;
  rdo_sent v : vote_sent self = Some v -> vote_round v = current_round self;
}.

Lemma setup_timeout_Ok now m self t self' :
  @RoundState.setup_timeout get_round_duration now unit m self = (Ok t, self') ->
  highest_committed_round self' = highest_committed_round self /\
  current_round self' = current_round self /\ pending_votes self' = pending_votes self /\
  vote_sent self' = vote_sent self /\ timer self' = Some (current_round self, t).
Proof.
  unfold RoundState.setup_timeout, RoundState.setup_deadline. intros Hr.
  apply method_bind_Ok in Hr as (x & self1 & H1 & Hr).
  destruct (RoundState.round_index self); simplify_eq. run_ok. done.
Qed.

Lemma insert_vote_authors v V self r self' a w :
  @PendingVotes.insert_vote _ unit v V self = (r, self') -> author_to_vote self' !! a = Some w ->
  author_to_vote self !! a = Some w \/ w = v.
Proof.
  assert (forall w, author_to_vote (PendingVotes.store_vote v self) !! a = Some w ->
            author_to_vote self !! a = Some w \/ w = v) as Hst.
  { intros w' Hw. simpl in Hw. apply lookup_insert_Some in Hw as [[_ <-]|[_ ?]]; by auto. }
  unfold PendingVotes.insert_vote, PendingVotes.insert_timeout.
  repeat case_match; intros [= <- <-]; simpl; auto.
Qed.

Lemma setup_timeout_round_ok now m self t self' :
  round_ok self -> @RoundState.setup_timeout get_round_duration now unit m self = (Ok t, self') ->
  round_ok self' /\ current_round self' = current_round self.
Proof.
  intros [_ R2 R3] (_ & Hc & Hp & Hs & Ht)%setup_timeout_Ok. split; [|done].
  split; rewrite ?Ht, ?Hp, ?Hs, ?Hc; done.
Qed.

(** What processing certificates does. *)
Lemma process_certificates_Ok now si self e self' :
  @RoundState.process_certificates get_round_duration now unit si self = (Ok e, self') ->
  highest_committed_round self' = N.max (highest_committed_round self) (SyncInfo.highest_ordered_round si) /\
  current_round self' = N.max (current_round self) (SyncInfo.highest_round si + 1) /\
  (if current_round self <? SyncInfo.highest_round si + 1 then
     pending_votes self' = PendingVotes.new /\ vote_sent self' = None /\
     exists t, timer self' = Some (SyncInfo.highest_round si + 1, t) /\
       e = Some (mkNewRoundEvent (SyncInfo.highest_round si + 1)
             (if SyncInfo.highest_timeout_round si <=? SyncInfo.highest_certified_round si
              then QCReady else RoundTimeout) t)
   else e = None /\ pending_votes self' = pending_votes self /\ vote_sent self' = vote_sent self /\
     timer self' = timer self).
Proof.
  unfold RoundState.process_certificates. intros Hr. run_ok.
  set (self1 := RoundState.observe_committed si self) in *.
  assert (highest_committed_round self1 = N.max (highest_committed_round self) (SyncInfo.highest_ordered_round si)
    /\ current_round self1 = current_round self /\ pending_votes self1 = pending_votes self
    /\ vote_sent self1 = vote_sent self /\ timer self1 = timer self) as (Hh & Hc & Hp & Hs & Ht).
  { unfold self1, RoundState.observe_committed.
    destruct (N.ltb_spec (highest_committed_round self) (SyncInfo.highest_ordered_round si)); simpl;
      split_and!; try done; lia. }
  rewrite Hc in Hr. destruct (N.ltb_spec (current_round self) (SyncInfo.highest_round si + 1)).
  - run_ok. match goal with H : RoundState.setup_timeout _ _ _ _ = _ |- _ =>
      apply setup_timeout_Ok in H as (-> & -> & -> & -> & ->) end. simpl.
    split_and!; [done|lia|done..|]. eexists. split; [done|]. do 2 f_equal.
    unfold SyncInfo.highest_round.
    destruct (N.leb_spec (SyncInfo.highest_timeout_round si) (SyncInfo.highest_certified_round si)).
    + by rewrite (proj2 (N.eqb_eq _ _)) by lia.
    + by rewrite (proj2 (N.eqb_neq _ _)) by lia.
  - run_ok. split_and!; try done; lia.
Qed.

(** The effect of one call: the state stays about its round, and the round moves
    forward exactly when an event reports it. *)
Lemma round_call_ok now input self e self' :
  round_ok self -> round_call now input self = (Ok e, self') ->
  round_ok self' /\
  match e with
  | Some ev => current_round self < nre_round ev /\ current_round self' = nre_round ev
  | None => current_round self' = current_round self
  end.
Proof.
  intros Hok Hr. destruct input as [si|round|v V|v|]; simpl in Hr.
  - apply process_certificates_Ok in Hr as (_ & Hc & Hcase). destruct Hok as [R1 R2 R3].
    destruct (N.ltb_spec (current_round self) (SyncInfo.highest_round si + 1)).
    + destruct Hcase as (Hp & Hs & t & Ht & ->). simpl. split; [|lia].
      split; rewrite ?Hp, ?Hs, ?Ht; [lia| |done]. simpl. intros a v. by rewrite lookup_empty.
    + destruct Hcase as (-> & Hp & Hs & Ht). rewrite N.max_l in Hc by lia. split; [|done].
      split; rewrite ?Hp, ?Hs, ?Ht, ?Hc; done.
  - run_ok. unfold RoundState.process_local_timeout in *.
    destruct (negb (round =? current_round self)); [by simplify_eq|].
    run_ok. by eapply setup_timeout_round_ok.
  - run_ok. unfold RoundState.insert_vote in *. destruct Hok as [R1 R2 R3].
    destruct (N.eqb_spec (bi_round (vd_proposed (v_vote_data v))) (current_round self)) as [He|]; [|by simplify_eq].
    destruct (PendingVotes.insert_vote v V (pending_votes self)) as [r votes] eqn:Hi. simplify_eq.
    split; [|done]. split; simpl; [done| |done]. intros a w Hw.
    destruct (insert_vote_authors _ _ _ _ _ _ _ Hi Hw) as [?| ->]; [by eapply R2|done].
  - run_ok. destruct Hok as [R1 R2 R3]. unfold RoundState.record_vote.
    destruct (N.eqb_spec (bi_round (vd_proposed (v_vote_data v))) (current_round self)); [|done].
    split; [|done]. split; simpl; [done..|]. by intros w [= <-].
  - unfold RoundState.setup_leader_timeout in Hr. run_ok. by eapply setup_timeout_round_ok.
Qed.

Lemma rounds_run_ok self events :
  rounds_run self events ->
  round_ok self /\ StronglySorted (fun x y => nre_round y < nre_round x) events /\
  Forall (fun ev => nre_round ev <= current_round self) events.
Proof.
  induction 1 as [now|self events now input e self' _ (Hok & Hs & Hall) Hr].
  { split_and!; [|by constructor..]. split; simpl; [done| |done]. intros a v. by rewrite lookup_empty. }
  apply round_call_ok in Hr as [Hok' He]; [|done]. split; [done|].
  destruct e as [ev|]; simpl; [|by rewrite He]. destruct He as [Hlt ->]. split.
  - constructor; [done|]. eapply Forall_impl; [exact Hall|]. simpl. lia.
  - constructor; [done|]. eapply Forall_impl; [exact Hall|]. simpl. lia.
Qed.
End rounds.

Module RoundStateProps.
(** Rounds only move forward.  Over any sequence of calls on a [RoundState]
    that return, the new-round events are for strictly increasing rounds; and at
    every point the timer that is running, every vote collected and the vote sent
    are of the current round, and a timer is running as soon as a round has
    started. *)
Theorem new_rounds_increase `{CryptoHash LedgerInfo} (get_round_duration : N -> N)
    (self : RoundState) (events : list NewRoundEvent) :
  rounds_run get_round_duration self events ->
  StronglySorted (fun later earlier => nre_round earlier < nre_round later) events /\
  (current_round self <> 0 -> exists t, timer self = Some (current_round self, t)) /\
  (forall a v, author_to_vote (pending_votes self) !! a = Some v -> vote_round v = current_round self) /\
  (forall v, vote_sent self = Some v -> vote_round v = current_round self).
Proof.
  intros ([R1 R2 R3] & Hs & _)%rounds_run_ok. split_and!; [done| |done|done].
  intros Hn. destruct (timer self) as [[r t]|]; [|done]. subst r. by exists t.
Qed.

(** A certificate of round 1 starts round 2; validator 2's vote arrives; the
    timeout certificate of round 3 starts round 4. *)
Definition sync1 : SyncInfo := SyncInfo.new Trace.qc1 Net.genesis_qc None.
Definition sync3 : SyncInfo := SyncInfo.new Trace.qc2 Net.genesis_qc (Some Trace.tc3).
Definition calls : list RoundInput :=
  [ProcessCertificates sync1; InsertVote (NetHash.vote_of 2) Net.verifier4; ProcessLocalTimeout 2;
   ProcessCertificates sync3].
Definition play (inputs : list RoundInput) : RoundState * list NewRoundEvent :=
  foldl (fun '(self, events) input =>
    match round_call (fun i => 1000 + i) 5 input self with
    | (Ok e, self') => (self', option_list e ++ events)
    | _ => (self, events)
    end) (RoundState.new 5, []) inputs.

Lemma play_run inputs : rounds_run (fun i => 1000 + i) (play inputs).1 (play inputs).2.
Proof.
  unfold play. assert (forall p, rounds_run (fun i => 1000 + i) p.1 p.2 ->
    let q := foldl (fun '(self, events) input =>
      match round_call (fun i => 1000 + i) 5 input self with
      | (Ok e, self') => (self', option_list e ++ events)
      | _ => (self, events)
      end) p inputs in rounds_run (fun i => 1000 + i) q.1 q.2) as Hgen.
  { induction inputs as [|input inputs IH]; intros [self events] Hp; simpl; [done|]. apply IH.
    destruct (round_call _ _ _ _) as [[e|err|] self'] eqn:Hr; [|done..]. by eapply rounds_call. }
  apply Hgen. apply rounds_new.
Qed.

Lemma new_rounds_increase_witness :
  (play calls).2 = [mkNewRoundEvent 4 RoundTimeout 1003; mkNewRoundEvent 2 QCReady 1001] /\
  StronglySorted (fun later earlier => nre_round earlier < nre_round later) (play calls).2.
Proof.
  split; [vm_compute; reflexivity|].
  apply (new_rounds_increase (fun i => 1000 + i) (play calls).1 (play calls).2).
  exact (play_run calls).
Defined.

(** Which round comes next.  Processing certificates moves the committed
    round to the maximum of the old one and the certified one, and the current
    round to the maximum of the old one and one above the highest certified or
    timed-out round.  When that is a new round the collected votes and the sent
    vote are dropped, a timer for it is set, and the event gives the quorum
    certificate as the reason exactly when the timeout certificate is not ahead;
    otherwise there is no event and nothing else changes. *)
Theorem process_certificates_spec (get_round_duration : N -> N) (now : N) (si : SyncInfo)
    (self self' : RoundState) (e : option NewRoundEvent) :
  @RoundState.process_certificates get_round_duration now unit si self = (Ok e, self') ->
  highest_committed_round self' = N.max (highest_committed_round self) (SyncInfo.highest_ordered_round si) /\
  current_round self' = N.max (current_round self) (SyncInfo.highest_round si + 1) /\
  (if current_round self <? SyncInfo.highest_round si + 1 then
     pending_votes self' = PendingVotes.new /\ vote_sent self' = None /\
     exists t, timer self' = Some (SyncInfo.highest_round si + 1, t) /\
       e = Some (mkNewRoundEvent (SyncInfo.highest_round si + 1)
             (if SyncInfo.highest_timeout_round si <=? SyncInfo.highest_certified_round si
              then QCReady else RoundTimeout) t)
   else e = None /\ pending_votes self' = pending_votes self /\ vote_sent self' = vote_sent self /\
     timer self' = timer self).
Proof. apply process_certificates_Ok. Qed.

Lemma process_certificates_spec_witness :
  exists self', RoundState.process_certificates (fun i => 1000 + i) 5 sync3 (play (take 3 calls)).1 =
      (@Ok unit _ (Some (mkNewRoundEvent 4 RoundTimeout 1003)), self') /\ current_round self' = 4.
Proof.
  eexists. split; [vm_compute; reflexivity|].
  refine (eq_trans (proj1 (proj2 (process_certificates_spec (fun i => 1000 + i) 5 sync3
            (play (take 3 calls)).1 _ (Some (mkNewRoundEvent 4 RoundTimeout 1003)) _))) _).
  - vm_compute. reflexivity.
  - vm_compute. reflexivity.
Defined.
End RoundStateProps.
