(* ===== verification/LedgerProps.v ===== *)
(** * Properties of waypoints, epoch changes and trusted states *)

From S2P Require Import Prelude Crypto Errors Position Accumulator Verifier Ledger ConsensusTypes Blocks Storage SafetyRules SafetyLemmas Replica Bft Simulation.

(** ** Chains of trust *)
Section trust.
Context `{Signable LedgerInfo}.

(** Each ledger info is signed by a quorum of the validators of its epoch, and
    names the validators of the next one. *)
Inductive trust_chain : EpochState -> list LedgerInfoWithSignatures -> EpochState -> Prop :=
  | trust_nil es : trust_chain es [] es
  | trust_cons es li es' lis es'' :
      EpochState.verify es li = Ok tt ->
      LedgerInfo.next_epoch_state (lis_ledger_info li) = Some es' ->
      trust_chain es' lis es'' -> trust_chain es (li :: lis) es''.

Lemma verify_chain_trust es lis :
  EpochChangeProof.verify_chain (EpochState.verify es) lis = Ok tt ->
  exists es', trust_chain es lis es' /\
    forall li, last lis = Some li -> LedgerInfo.next_epoch_state (lis_ledger_info li) = Some es'.
Proof.
  revert es. induction lis as [|li lis IH]; intros es; simpl.
  { intros _. exists es. split; [constructor|done]. }
  intros Hv. run_ok. apply IH in Hv as (es' & Hc & Hl). exists es'. split; [by econstructor|].
  intros li'. destruct lis as [|li2 lis]; [|by intros ?%Hl].
  simpl. intros [= <-]. inversion Hc; subst. done.
Qed.

Lemma skip_while_suffix {A} (p : A -> bool) l : exists k, l = k ++ EpochChangeProof.skip_while p l.
Proof.
  induction l as [|x l [k IH]]; simpl; [by exists []|]. destruct (p x); [|by exists []].
  exists (x :: k). simpl. by rewrite <-IH.
Qed.

Lemma skip_while_head {A} (p : A -> bool) l x k :
  EpochChangeProof.skip_while p l = x :: k -> p x = false.
Proof. induction l as [|y l IH]; simpl; [done|]. destruct (p y) eqn:Hy; [done|congruence]. Qed.

(** Dropping the stale entries keeps the last one, which is not stale. *)
Lemma skip_while_last {A} (p : A -> bool) l x :
  last l = Some x -> p x = false -> last (EpochChangeProof.skip_while p l) = Some x.
Proof.
  induction l as [|y l IH]; simpl; [done|]. intros Hl Hp. destruct (p y) eqn:Hy; [|done].
  destruct l as [|z l]; [simpl in Hl; congruence|]. by apply IH.
Qed.

(** An accepted epoch change proof, for a client that knows the epoch state. *)
Lemma epoch_change_trust es proof li :
  EpochChangeProof.verify proof es = Ok li ->
  exists lis es', lis `suffix_of` ledger_info_with_sigs proof /\ trust_chain es lis es' /\
    last lis = Some li /\ LedgerInfo.next_epoch_state (lis_ledger_info li) = Some es'.
Proof.
  unfold EpochChangeProof.verify. destruct (last (ledger_info_with_sigs proof)) as [l|] eqn:Hl; [|done].
  intros Hv. run_ok. breflect.
  match goal with H : EpochChangeProof.verify_chain _ _ = _ |- _ =>
    apply verify_chain_trust in H as (es' & Hc & Hlast) end.
  eexists _, es'. split_and!; [apply skip_while_suffix|exact Hc|..].
  - by apply skip_while_last.
  - apply Hlast. by apply skip_while_last.
Qed.

(** The same for a client that knows a waypoint: the first ledger info is the one
    the waypoint pins down. *)
Lemma epoch_change_trust_waypoint `{CryptoHash Ledger2WaypointConverter} w proof li :
  EpochChangeProof.verify proof w = Ok li ->
  exists li0 es0 lis es', (li0 :: lis) `suffix_of` ledger_info_with_sigs proof /\
    Waypoint.verify w (lis_ledger_info li0) = Ok tt /\
    LedgerInfo.next_epoch_state (lis_ledger_info li0) = Some es0 /\ trust_chain es0 lis es' /\
    last (li0 :: lis) = Some li /\ LedgerInfo.next_epoch_state (lis_ledger_info li) = Some es'.
Proof.
  unfold EpochChangeProof.verify. destruct (last (ledger_info_with_sigs proof)) as [l|] eqn:Hl; [|done].
  intros Hv. run_ok. breflect.
  match goal with Hn : is_ledger_info_stale _ _ = false |- _ =>
    pose proof (skip_while_last (fun x => is_ledger_info_stale w (lis_ledger_info x)) _ _ Hl Hn) as Hlast end.
  destruct (skip_while_suffix (fun x => is_ledger_info_stale w (lis_ledger_info x))
              (ledger_info_with_sigs proof)) as [k Hk].
  destruct (EpochChangeProof.skip_while _ _) as [|li0 lis]; [done|]. simpl in *. run_ok.
  match goal with H : EpochChangeProof.verify_chain _ _ = _ |- _ =>
    apply verify_chain_trust in H as (es' & Hc & Hl') end.
  eexists li0, _, lis, es'. split_and!; try done; [by exists k|].
  destruct lis as [|li1 lis]; [|by apply Hl'].
  simpl in Hlast. simplify_eq. by inversion Hc; subst.
Qed.
End trust.

(** ** Ratcheting *)
Section ratchet.
Context `{Signable LedgerInfo} `{CryptoHash Ledger2WaypointConverter}.

(** Where a client that trusts the validators of an epoch may move to: through a
    chain of trust to the validators of a later epoch, with a waypoint at the last
    ledger info of that chain or at one signed by those validators. *)
Definition trusted_from (es : EpochState) (lis : list LedgerInfoWithSignatures)
    (latest : LedgerInfoWithSignatures) (new_state : TrustedState) : Prop :=
  exists es' li, trust_chain es lis es' /\
    new_state = TSEpochState (Waypoint.new_any (lis_ledger_info li)) es' /\
    (last lis = Some li \/ (li = latest /\ EpochState.verify es' latest = Ok tt)).

Lemma ratchet_inv w es latest proof change new_state :
  TrustedState.verify_and_ratchet_inner (TSEpochState w es) latest proof = Ok change ->
  TrustedStateChange_new_state change = Some new_state ->
  exists lis, lis `suffix_of` ledger_info_with_sigs proof /\ trusted_from es lis latest new_state.
Proof.
  unfold TrustedState.verify_and_ratchet_inner. intros Hv Hn. run_ok. breflect.
  destruct (epoch_change_verification_required _ _) eqn:Hreq.
  - run_ok. match goal with H : EpochChangeProof.verify _ _ = Ok ?l |- _ => rename l into eli;
      change (EpochChangeProof.verify proof es = Ok eli) in H;
      apply epoch_change_trust in H as (lis & es' & Hsuf & Hc & Hlast & Hnext) end.
    simpl in Hn. simplify_eq. exists lis. split; [done|].
    repeat case_match; run_ok; breflect; subst; eexists _, _; (split_and!; [done..|]); auto.
  - destruct (wp_version _ =? _); run_ok; [by simplify_eq|]. simpl in Hn. simplify_eq.
    exists []. split; [apply suffix_nil|]. eexists _, _. split_and!; [constructor|done|]. by right.
Qed.
End ratchet.

(** A chain of two epochs on the network of Simulation.v. *)
Module Epochs.
Definition sigs : gmap N Signature := {[ 1 := 101; 2 := 102; 4 := 104 ]}.
Definition es1 : EpochState := mkEpochState 1 Net.verifier4.
Definition es2 : EpochState := mkEpochState 2 Net.verifier4.
Definition end_of_epoch1 : LedgerInfoWithSignatures :=
  mkLedgerInfoWithSignatures (mkLedgerInfo (mkBlockInfo 1 9 90 91 50 7 (Some es2)) 3) sigs.
Definition in_epoch2 : LedgerInfoWithSignatures :=
  mkLedgerInfoWithSignatures (mkLedgerInfo (mkBlockInfo 2 4 95 96 80 9 None) 4) sigs.
Definition proof : EpochChangeProof :=
  mkEpochChangeProof [mkLedgerInfoWithSignatures Net.genesis_li ∅; end_of_epoch1] false.
Definition old_waypoint : Waypoint := mkWaypoint 20 0.
End Epochs.

Module LedgerProps.
(** C34: a ratcheted state is backed by a chain of trust.  When a client that
    trusts the validators of an epoch verifies and ratchets to a new state, there
    are ledger infos in the proof, each signed by a quorum of the validators that
    the previous one named (the first by those the client trusts), that lead to
    the new state's validators; and the new waypoint is the one of the last of
    them, or of the latest ledger info, signed by a quorum of those validators. *)
Theorem ratchet_trust `{Signable LedgerInfo} `{CryptoHash Ledger2WaypointConverter}
    (w : Waypoint) (es : EpochState) (latest : LedgerInfoWithSignatures) (proof : EpochChangeProof)
    (change : TrustedStateChange) (new_state : TrustedState) :
  TrustedState.verify_and_ratchet_inner (TSEpochState w es) latest proof = Ok change ->
  TrustedStateChange_new_state change = Some new_state ->
  exists lis, lis `suffix_of` ledger_info_with_sigs proof /\ trusted_from es lis latest new_state.
Proof. apply ratchet_inv. Qed.

Lemma ratchet_trust_witness :
  exists lis, lis `suffix_of` ledger_info_with_sigs Epochs.proof /\
    trusted_from Epochs.es1 lis Epochs.in_epoch2
      (TSEpochState (Waypoint.new_any (lis_ledger_info Epochs.in_epoch2)) Epochs.es2).
Proof.
  eapply (ratchet_trust Epochs.old_waypoint Epochs.es1 Epochs.in_epoch2 Epochs.proof
            (TSCEpoch (TSEpochState (Waypoint.new_any (lis_ledger_info Epochs.in_epoch2)) Epochs.es2)
               Epochs.end_of_epoch1)).
  - vm_compute. reflexivity.
  - reflexivity.
Defined.

(** Bootstrapping from a waypoint.  An epoch change proof that verifies
    against a waypoint starts, once stale entries are skipped, at a ledger info
    that the waypoint pins down, and goes on as a chain of trust to the epoch state
    of the ledger info it returns. *)
Theorem waypoint_bootstrap `{Signable LedgerInfo} `{CryptoHash Ledger2WaypointConverter}
    (w : Waypoint) (proof : EpochChangeProof) (li : LedgerInfoWithSignatures) :
  EpochChangeProof.verify proof w = Ok li ->
  exists li0 es0 lis es', (li0 :: lis) `suffix_of` ledger_info_with_sigs proof /\
    Waypoint.verify w (lis_ledger_info li0) = Ok tt /\
    LedgerInfo.next_epoch_state (lis_ledger_info li0) = Some es0 /\ trust_chain es0 lis es' /\
    last (li0 :: lis) = Some li /\ LedgerInfo.next_epoch_state (lis_ledger_info li) = Some es'.
Proof. apply epoch_change_trust_waypoint. Qed.

Lemma waypoint_bootstrap_witness :
  exists li0 es0 lis es', (li0 :: lis) `suffix_of` ledger_info_with_sigs Epochs.proof /\
    Waypoint.verify (Waypoint.new_any Net.genesis_li) (lis_ledger_info li0) = Ok tt /\
    LedgerInfo.next_epoch_state (lis_ledger_info li0) = Some es0 /\ trust_chain es0 lis es' /\
    last (li0 :: lis) = Some Epochs.end_of_epoch1 /\
    LedgerInfo.next_epoch_state (lis_ledger_info Epochs.end_of_epoch1) = Some es'.
Proof.
  apply (waypoint_bootstrap (Waypoint.new_any Net.genesis_li) Epochs.proof Epochs.end_of_epoch1).
  vm_compute. reflexivity.
Defined.

(** A waypoint pins down the ledger info it was made of.  With a hash free of
    collisions, a ledger info verifies against the waypoint of another one exactly
    when both agree on the epoch, the root hash, the version, the timestamp and
    the next epoch state. *)
Theorem waypoint_binding `{CryptoHash Ledger2WaypointConverter}
    `{!CollisionFree Ledger2WaypointConverter} (li li' : LedgerInfo) :
  Waypoint.verify (Waypoint.new_any li) li' = Ok tt <->
  Ledger2WaypointConverter_new li' = Ledger2WaypointConverter_new li.
Proof.
  unfold Waypoint.verify, Waypoint.new_any. simpl. split.
  - intros Hv. run_ok. breflect. by apply hash_inj.
  - intros He. pose proof (f_equal l2w_version He) as Hver. simpl in Hver.
    by rewrite Hver, He, !N.eqb_refl.
Qed.

(** An injective hash for the witness: the encoding of the fields. *)
Definition converter_numbers (c : Ledger2WaypointConverter) : list N :=
  [l2w_epoch c; l2w_root_hash c; l2w_version c; l2w_timestamp_usecs c;
   Net.option_number (l2w_next_epoch_state c)].
Definition encoding_hash : CryptoHash Ledger2WaypointConverter :=
  fun c => N.pos (encode (converter_numbers c)).
Lemma encoding_hash_collision_free : @CollisionFree Ledger2WaypointConverter encoding_hash.
Proof.
  intros [e r v t n] [e' r' v' t' n'] Hh. unfold hash, encoding_hash in Hh. injection Hh as Hh.
  apply (inj encode) in Hh. unfold converter_numbers in Hh. simpl in Hh.
  by injection Hh as -> -> -> -> ->%(inj Net.option_number).
Qed.

(** A ledger info that differs only in its consensus data hash. *)
Lemma waypoint_binding_witness :
  @Waypoint.verify encoding_hash (@Waypoint.new_any encoding_hash Net.genesis_li)
    (LedgerInfo.set_consensus_data_hash Net.genesis_li 77) = Ok tt.
Proof.
  apply (@waypoint_binding encoding_hash encoding_hash_collision_free Net.genesis_li
           (LedgerInfo.set_consensus_data_hash Net.genesis_li 77)).
  reflexivity.
Defined.
End LedgerProps.
