(* ===== verification/PositionLemmas.v ===== *)
(** * Positions as (level, index) pairs

    [inorder L p] is the in-order index of the [p]-th node from the left on level
    [L].  Every operation of Position.v is shown to be arithmetic on that pair. *)

From S2P Require Import Prelude Errors Position.

Definition inorder (L p : N) : N := p * 2 ^ (L + 1) + 2 ^ L - 1.

(** The pairs of the tree that a u64 can index. *)
Definition fits (L p : N) : Prop := L < 64 /\ p < 2 ^ (63 - L).

(** ** Bits *)
Lemma u64_max_ones : u64_max = N.ones 64.
Proof. done. Qed.

Lemma testbit_ones n k : N.testbit (N.ones n) k = (k <? n).
Proof.
  destruct (N.ltb_spec k n); [by apply N.ones_spec_low|by apply N.ones_spec_high].
Qed.

Lemma testbit_pow2 n k : N.testbit (2 ^ n) k = (k =? n).
Proof.
  destruct (N.eqb_spec k n) as [->|Hn]; [apply N.pow2_bits_true|]. apply N.pow2_bits_false. congruence.
Qed.

Lemma testbit_1 k : N.testbit 1 k = (k =? 0).
Proof. apply (testbit_pow2 0). Qed.

Lemma testbit_shiftl a n k : N.testbit (N.shiftl a n) k = (n <=? k) && N.testbit a (k - n).
Proof.
  destruct (N.leb_spec n k); [by apply N.shiftl_spec_high'|by apply N.shiftl_spec_low].
Qed.

Lemma testbit_small a n k : a < 2 ^ n -> n <= k -> N.testbit a k = false.
Proof.
  intros Ha Hk. destruct (N.eq_dec a 0) as [->|Hne]; [apply N.bits_0|].
  apply N.bits_above_log2. apply N.log2_lt_pow2; [lia|].
  eapply N.lt_le_trans; [exact Ha|]. apply N.pow_le_mono_r; lia.
Qed.

Lemma testbit_not64 a k : N.testbit (not64 a) k = xorb (N.testbit a k) (k <? 64).
Proof. unfold not64, N.lnot. by rewrite N.lxor_spec, testbit_ones. Qed.

Lemma testbit_shl64 a n k : N.testbit (shl64 a n) k = (n <=? k) && N.testbit a (k - n) && (k <? 64).
Proof. unfold shl64. by rewrite N.land_spec, testbit_shiftl, u64_max_ones, testbit_ones. Qed.

Lemma lor_disjoint a b :
  (forall k, N.testbit a k && N.testbit b k = false) -> N.lor a b = a + b.
Proof.
  intros Hd. assert (N.land a b = 0) as H0.
  { apply N.bits_inj. intros k. by rewrite N.land_spec, N.bits_0. }
  by rewrite N.add_nocarry_lxor, N.lxor_lor.
Qed.

(** Decide every comparison of bit positions. *)
Ltac bit_cases :=
  repeat match goal with
  | |- context [?a <=? ?b] => destruct (N.leb_spec a b); try (exfalso; lia)
  | |- context [?a <? ?b] => destruct (N.ltb_spec a b); try (exfalso; lia)
  | |- context [?a =? ?b] => destruct (N.eqb_spec a b); try (exfalso; lia)
  end; simpl.

(** [L] ones, a zero, and [p] above it. *)
Lemma inorder_lor L p : inorder L p = N.lor (N.shiftl p (L + 1)) (N.ones L).
Proof.
  rewrite lor_disjoint.
  - rewrite N.shiftl_mul_pow2, N.ones_equiv. unfold inorder. pose proof (N.pow_nonzero 2 L). lia.
  - intros k. rewrite testbit_shiftl, testbit_ones. bit_cases; by rewrite ?andb_false_r.
Qed.

Lemma inorder_succ_lor L p : inorder L p + 1 = N.lor (N.shiftl p (L + 1)) (2 ^ L).
Proof.
  rewrite lor_disjoint.
  - rewrite N.shiftl_mul_pow2. unfold inorder. pose proof (N.pow_nonzero 2 L). lia.
  - intros k. rewrite testbit_shiftl, testbit_pow2. bit_cases; by rewrite ?andb_false_r.
Qed.

Lemma testbit_inorder L p k :
  N.testbit (inorder L p) k = (k <? L) || (L + 1 <=? k) && N.testbit p (k - (L + 1)).
Proof. rewrite inorder_lor, N.lor_spec, testbit_shiftl, testbit_ones. apply orb_comm. Qed.

Lemma fits_testbit L p k : fits L p -> 64 <= k -> N.testbit (inorder L p) k = false.
Proof.
  intros [HL Hp] Hk. rewrite testbit_inorder. bit_cases; try done.
  eapply testbit_small; [exact Hp|lia].
Qed.

Lemma fits_lt L p : fits L p -> inorder L p < 2 ^ 64 - 1.
Proof.
  intros [HL Hp]. unfold inorder.
  assert (2 ^ 64 = 2 ^ (63 - L) * 2 ^ (L + 1)) as Hpow by (rewrite <-N.pow_add_r; f_equal; lia).
  rewrite Hpow. assert (2 ^ (L + 1) = 2 * 2 ^ L) as -> by (rewrite N.add_1_r; apply N.pow_succ_r').
  pose proof (N.pow_nonzero 2 L). nia.
Qed.

Lemma odd_part (m : positive) : exists L p, Npos m = 2 ^ L * (2 * p + 1).
Proof.
  induction m as [m _|m (L & p & IH)|].
  - exists 0, (Npos m). lia.
  - exists (L + 1), p. rewrite N.add_1_r, N.pow_succ_r', <-N.mul_assoc, <-IH. lia.
  - exists 0, 0. done.
Qed.

(** Every u64 but the last is a node. *)
Lemma inorder_surj n : n < 2 ^ 64 - 1 -> exists L p, n = inorder L p /\ fits L p.
Proof.
  intros Hn. destruct (odd_part (N.succ_pos n)) as (L & p & Hm). rewrite N.succ_pos_spec in Hm.
  exists L, p. assert (2 ^ (L + 1) = 2 * 2 ^ L) as H2 by (rewrite N.add_1_r; apply N.pow_succ_r').
  split; [unfold inorder; rewrite H2; lia|].
  assert (L < 64) as HL.
  { apply (N.pow_lt_mono_r_iff 2); [lia|]. nia. }
  split; [done|]. apply N.nle_gt. intros Hp.
  assert (2 ^ 64 = 2 ^ (63 - L) * 2 ^ (L + 1)) as Hpow by (rewrite <-N.pow_add_r; f_equal; lia).
  rewrite H2 in Hpow. nia.
Qed.

(** ** The bit tricks *)
Lemma isolate_inorder L p : fits L p -> isolate_rightmost_zero_bit (inorder L p) = 2 ^ L.
Proof.
  intros Hf. apply N.bits_inj. intros k. unfold isolate_rightmost_zero_bit.
  rewrite !N.land_spec, testbit_not64, inorder_succ_lor, N.lor_spec, testbit_shiftl, u64_max_ones,
    testbit_ones, !testbit_pow2, testbit_inorder.
  destruct Hf as [HL _]. bit_cases; rewrite ?andb_false_r, ?orb_false_r; try done.
  by destruct (N.testbit p (k - (L + 1))).
Qed.

Lemma trailing_zeros_spec a k :
  N.testbit a k = true -> (forall i, i < k -> N.testbit a i = false) -> trailing_zeros a = k.
Proof.
  destruct a as [|a]; [by rewrite N.bits_0|]. simpl trailing_zeros.
  revert k. induction a as [a _|a IH|]; intros k Hk Hlow; simpl.
  - destruct (N.eq_dec k 0) as [->|Hne]; [done|].
    specialize (Hlow 0 ltac:(lia)). done.
  - destruct (N.eq_dec k 0) as [->|Hne]; [done|].
    assert (k = N.succ (N.pred k)) as Hs by lia. rewrite Hs in Hk.
    rewrite (IH (N.pred k)); [lia| |].
    + by rewrite <-(N.double_bits_succ (Npos a) (N.pred k)).
    + intros i Hi. rewrite <-(N.double_bits_succ (Npos a) i). apply Hlow. lia.
  - destruct (N.eq_dec k 0) as [->|Hne]; [done|]. specialize (Hlow 0 ltac:(lia)). done.
Qed.

Lemma level_inorder L p : fits L p -> Position.level (inorder L p) = L.
Proof.
  intros Hf. apply trailing_zeros_spec.
  - rewrite testbit_not64, testbit_inorder. destruct Hf. bit_cases; done.
  - intros i Hi. rewrite testbit_not64, testbit_inorder. destruct Hf. bit_cases; done.
Qed.

Lemma shiftr_inorder L p : N.shiftr (inorder L p) (L + 1) = p.
Proof.
  apply N.bits_inj. intros k. rewrite N.shiftr_spec', testbit_inorder. bit_cases.
  by rewrite N.add_sub.
Qed.

Lemma pos_counting_from_left_inorder L p :
  fits L p -> Position.pos_counting_from_left (inorder L p) = p.
Proof.
  intros Hf. unfold Position.pos_counting_from_left. by rewrite level_inorder, shiftr_inorder.
Qed.

(** Two positions of the tree with the same bits are the same. *)
Create Rewrite HintDb bits.
#[export] Hint Rewrite N.land_spec N.lor_spec N.lxor_spec testbit_not64 testbit_shl64 N.shiftr_spec'
  testbit_shiftl testbit_inorder testbit_pow2 testbit_ones testbit_1 N.bits_0 : bits.
Ltac bitwise := apply N.bits_inj; intros ?k; autorewrite with bits.

Lemma fits_high L p i : fits L p -> 63 - L <= i -> N.testbit p i = false.
Proof. intros [_ Hp]. by apply testbit_small. Qed.

Ltac fits_facts Hf :=
  pose proof (proj1 Hf); let Hhi := fresh "Hhi" in
  match type of Hf with fits ?L ?p => pose proof (fun i => fits_high L p i Hf) as Hhi end.

(** What is left is a tautology over the bits of the index. *)
Ltac bit_values :=
  repeat match goal with
  | |- context [N.testbit ?a ?i] =>
      match goal with |- context [N.testbit a ?j] =>
        assert_fails (constr_eq i j); replace j with i by lia end
  | Hp : forall i, _ -> N.testbit ?p i = false |- context [N.testbit ?p ?i] => rewrite (Hp i) by lia
  end;
  repeat match goal with
  | |- context [N.testbit ?a ?i] => destruct (N.testbit a i) eqn:?
  end; done.

Lemma shl64_pow2 L : L < 63 -> shl64 (2 ^ L) 1 = 2 ^ (L + 1).
Proof. intros HL. bitwise. bit_cases; done. Qed.

Lemma testbit_half p k : N.testbit (p / 2) k = N.testbit p (k + 1).
Proof. by rewrite <-N.div2_div, N.div2_spec, N.shiftr_spec'. Qed.

#[export] Hint Rewrite testbit_half : bits.

Lemma parent_inorder L p :
  fits L p -> L < 63 -> Position.parent (inorder L p) = inorder (L + 1) (p / 2).
Proof.
  intros Hf HL. fits_facts Hf. unfold Position.parent. rewrite isolate_inorder, shl64_pow2 by done. bitwise.
  bit_cases; bit_values.
Qed.

Lemma fits_parent L p : fits L p -> L < 63 -> fits (L + 1) (p / 2).
Proof.
  intros [HL Hp] H63. split; [lia|]. apply N.Div0.div_lt_upper_bound.
  rewrite <-N.pow_succ_r'. by replace (N.succ (63 - (L + 1))) with (63 - L) by lia.
Qed.

Lemma sibling_inorder L p :
  fits L p -> L < 63 -> Position.sibling (inorder L p) = inorder L (N.lxor p 1).
Proof.
  intros Hf HL. unfold Position.sibling. rewrite isolate_inorder, shl64_pow2 by done. bitwise.
  bit_cases; bit_values.
Qed.

Lemma is_left_child_inorder L p :
  fits L p -> L < 63 -> Position.is_left_child (inorder L p) = N.even p.
Proof.
  intros Hf HL. unfold Position.is_left_child. rewrite isolate_inorder, shl64_pow2 by done.
  rewrite <-N.negb_odd, <-N.bit0_odd.
  assert (N.land (inorder L p) (2 ^ (L + 1)) = if N.testbit p 0 then 2 ^ (L + 1) else 0) as ->.
  { destruct (N.testbit p 0) eqn:H0; bitwise; bit_cases; try bit_values.
    - subst. replace (L + 1 - (L + 1)) with 0 by lia. by rewrite H0.
    - subst. replace (L + 1 - (L + 1)) with 0 by lia. by rewrite H0. }
  destruct (N.testbit p 0); [|done]. simpl. apply N.eqb_neq, N.pow_nonzero. done.
Qed.

Lemma shiftr_pow2 L : 0 < L -> N.shiftr (2 ^ L) 1 = 2 ^ (L - 1).
Proof. intros HL. bitwise. bit_cases; done. Qed.

Lemma is_leaf_inorder L p : Position.is_leaf (inorder L p) = (L =? 0).
Proof.
  unfold Position.is_leaf.
  assert (N.land (inorder L p) 1 = if L =? 0 then 0 else 1) as ->.
  { destruct (N.eqb_spec L 0); bitwise; bit_cases; bit_values. }
  by destruct (N.eqb_spec L 0).
Qed.

Lemma testbit_double p k : N.testbit (2 * p) k = (1 <=? k) && N.testbit p (k - 1).
Proof.
  destruct (N.eq_dec k 0) as [->|Hk]; [by rewrite N.testbit_even_0|].
  replace k with (N.succ (k - 1)) at 1 by lia. rewrite N.testbit_even_succ by lia. bit_cases; done.
Qed.

Lemma testbit_double1 p k : N.testbit (2 * p + 1) k = (k =? 0) || N.testbit p (k - 1) && (1 <=? k).
Proof.
  destruct (N.eq_dec k 0) as [->|Hk]; [by rewrite N.testbit_odd_0|].
  replace k with (N.succ (k - 1)) at 1 by lia. rewrite N.testbit_odd_succ by lia. bit_cases; bit_values.
Qed.

#[export] Hint Rewrite testbit_double testbit_double1 : bits.

Lemma left_child_inorder {E} L p :
  fits L p -> 0 < L -> @Position.left_child E (inorder L p) = Ok (inorder (L - 1) (2 * p)).
Proof.
  intros Hf HL. unfold Position.left_child, Position.child. rewrite is_leaf_inorder.
  rewrite (proj2 (N.eqb_neq L 0)) by lia. simpl. f_equal.
  rewrite isolate_inorder, shiftr_pow2 by done. fits_facts Hf. bitwise.
  bit_cases; bit_values.
Qed.

Lemma right_child_inorder {E} L p :
  fits L p -> 0 < L -> @Position.right_child E (inorder L p) = Ok (inorder (L - 1) (2 * p + 1)).
Proof.
  intros Hf HL. unfold Position.right_child, Position.child. rewrite is_leaf_inorder.
  rewrite (proj2 (N.eqb_neq L 0)) by lia. simpl. f_equal.
  rewrite isolate_inorder, shiftr_pow2 by done. fits_facts Hf. bitwise.
  bit_cases; bit_values.
Qed.

Lemma from_level_and_pos_inorder {E} L p :
  fits L p -> @Position.from_level_and_pos E L p = Ok (inorder L p).
Proof.
  intros Hf. fits_facts Hf. unfold Position.from_level_and_pos.
  rewrite (proj2 (N.ltb_lt _ _)) by done. simpl. f_equal.
  unfold Position.from_level_and_pos_unchecked. rewrite inorder_lor. f_equal.
  - destruct (N.eqb_spec L 63) as [->|HL]; bitwise; bit_cases; bit_values.
  - assert (shl64 1 L = 2 ^ L) as ->; [|by rewrite N.ones_equiv, N.pred_sub].
    bitwise. bit_cases; bit_values.
Qed.

Lemma right_most_child_inorder {E} L p :
  fits L p -> @Position.right_most_child E (inorder L p) = Ok (inorder 0 ((p + 1) * 2 ^ L - 1)).
Proof.
  intros Hf. fits_facts Hf. unfold Position.right_most_child. rewrite level_inorder by done.
  rewrite (proj2 (N.ltb_lt _ _)) by done. simpl.
  assert (shl64 1 L = 2 ^ L) as -> by (bitwise; bit_cases; bit_values).
  assert (2 ^ 64 = 2 ^ (63 - L) * 2 ^ (L + 1)) as Hpow by (rewrite <-N.pow_add_r; f_equal; lia).
  assert (2 ^ (L + 1) = 2 * 2 ^ L) as H2 by (rewrite N.add_1_r; apply N.pow_succ_r').
  pose proof (N.pow_nonzero 2 L). destruct Hf as [_ Hp]. rewrite H2 in Hpow.
  apply bind_Ok. exists (inorder L p + 2 ^ L). unfold inorder. rewrite H2.
  split; [apply add64_Ok|apply sub64_Ok]; unfold u64_max; simpl; rewrite ?Hpow; split; try nia.
Qed.

Lemma left_most_child_inorder {E} L p :
  fits L p -> @Position.left_most_child E (inorder L p) = Ok (inorder 0 (p * 2 ^ L)).
Proof.
  intros Hf. fits_facts Hf. unfold Position.left_most_child. rewrite level_inorder by done.
  rewrite (proj2 (N.ltb_lt _ _)) by done. simpl. f_equal.
  unfold turn_off_right_most_n_bits. rewrite <-N.shiftl_mul_pow2. bitwise. bit_cases; bit_values.
Qed.

(** ** Smearing ones *)

(** [n] has the bits of [v] and of [v] shifted right by less than [m]. *)
Definition smeared (v n m : N) : Prop :=
  forall k, N.testbit n k = true <-> exists d, d < m /\ N.testbit v (k + d) = true.

Lemma smear_step v n m : smeared v n m -> smeared v (N.lor n (N.shiftr n m)) (2 * m).
Proof.
  intros Hs k. rewrite N.lor_spec, N.shiftr_spec', orb_true_iff, (Hs k), (Hs (k + m)). split.
  - intros [(d & ? & ?)|(d & ? & ?)]; [exists d; split; [lia|done]|].
    exists (m + d). split; [lia|]. by replace (k + (m + d)) with (k + m + d) by lia.
  - intros (d & Hd & Hv). destruct (N.lt_ge_cases d m); [left; by exists d|right].
    exists (d - m). split; [lia|]. by replace (k + m + (d - m)) with (k + d) by lia.
Qed.

Lemma smear_ones_smeared v : smeared v (smear_ones_for_u64 v) 64.
Proof.
  unfold smear_ones_for_u64.
  assert (smeared v v 1) as Hs.
  { intros k. split; [intros Hk; exists 0; rewrite N.add_0_r; split; [lia|done]|].
    intros (d & Hd & Hv). assert (d = 0) as -> by lia. by rewrite N.add_0_r in Hv. }
  by do 6 apply smear_step in Hs.
Qed.

Lemma smear_ones_spec v : v < 2 ^ 64 -> smear_ones_for_u64 v = N.ones (N.size v).
Proof.
  intros Hv. apply N.bits_inj. intros k. rewrite testbit_ones.
  destruct (N.eq_dec v 0) as [->|Hne].
  { by destruct k. }
  rewrite N.size_log2 by done.
  assert (N.log2 v < 64) as Hl by (apply N.log2_lt_pow2; lia).
  destruct (N.ltb_spec k (N.succ (N.log2 v))) as [Hk|Hk].
  - apply smear_ones_smeared. exists (N.log2 v - k). split; [lia|].
    replace (k + (N.log2 v - k)) with (N.log2 v) by lia. by apply N.bit_log2.
  - apply not_true_is_false. intros (d & _ & Hb)%smear_ones_smeared.
    rewrite N.bits_above_log2 in Hb by lia. done.
Qed.

Lemma ones_shiftr n : N.shiftr (N.ones n) 1 = N.ones (n - 1).
Proof. bitwise. bit_cases; done. Qed.

Lemma from_leaf_index_double i : i < 2 ^ 63 -> Position.from_leaf_index i = 2 * i.
Proof.
  intros Hi. assert (fits 0 i) as Hf by (split; [done|by rewrite N.sub_0_r]).
  pose proof (@from_level_and_pos_inorder unit 0 i Hf) as Hp. unfold Position.from_level_and_pos in Hp.
  simpl in Hp. injection Hp as Hp. unfold Position.from_leaf_index. rewrite Hp. unfold inorder. simpl. lia.
Qed.

(** The root of the smallest perfect tree with leaf [i]. *)
Lemma root_from_leaf_index_inorder i :
  i < 2 ^ 63 -> Position.root_from_leaf_index i = inorder (N.size i) 0.
Proof.
  intros Hi. unfold Position.root_from_leaf_index. rewrite from_leaf_index_double by done.
  rewrite smear_ones_spec by lia. rewrite ones_shiftr.
  destruct i as [|i]; [done|].
  replace (N.size (2 * N.pos i) - 1) with (N.size (N.pos i)) by (change (2 * N.pos i) with (N.pos (xO i)); simpl N.size; lia).
  unfold inorder. rewrite N.ones_equiv. pose proof (N.pow_nonzero 2 (N.size (N.pos i))). lia.
Qed.

(** ** Post-order indices *)
Lemma count_ones_double n : count_ones (2 * n) = count_ones n.
Proof. by destruct n. Qed.
Lemma count_ones_double1 n : count_ones (2 * n + 1) = count_ones n + 1.
Proof.
  destruct n as [|p]; [done|]. change (2 * N.pos p + 1) with (N.pos (xI p)). unfold count_ones.
  simpl pos_count_ones. lia.
Qed.

Lemma count_ones_le n : count_ones n <= n.
Proof. destruct n as [|p]; simpl; [lia|]. induction p; simpl in *; lia. Qed.

Lemma pow2_nat_S (m : nat) : 2 ^ N.of_nat (S m) = 2 * 2 ^ N.of_nat m.
Proof. rewrite Nat2N.inj_succ. apply N.pow_succ_r'. Qed.

Lemma count_ones_top (m : nat) n :
  n < 2 ^ N.of_nat m -> count_ones (2 ^ N.of_nat m + n) = 1 + count_ones n.
Proof.
  revert n. induction m as [|m IH]; intros n Hn.
  { simpl in Hn. by assert (n = 0) as -> by lia. }
  rewrite pow2_nat_S in *. pose proof (N.div2_odd n) as Ho.
  destruct (N.odd n); simpl N.b2n in Ho; rewrite Ho.
  - replace (2 * 2 ^ N.of_nat m + (2 * N.div2 n + 1)) with (2 * (2 ^ N.of_nat m + N.div2 n) + 1) by lia.
    rewrite !count_ones_double1, IH by lia. lia.
  - rewrite !N.add_0_r. rewrite <-N.mul_add_distr_l, !count_ones_double. apply IH. lia.
Qed.

(** The post-order index of the node: a full subtree for every set bit of [p], then
    the descendants of the node. *)
Definition postorder (L p : N) : N := p * 2 ^ (L + 1) - count_ones p + (2 ^ (L + 1) - 2).

Lemma inorder_to_postorder_spec {E} L p :
  fits L p -> L < 63 -> @inorder_to_postorder E (inorder L p) = Ok (postorder L p).
Proof.
  intros Hf HL. unfold inorder_to_postorder, children_of_node, nodes_to_left_of.
  rewrite isolate_inorder, shl64_pow2 by done.
  assert (2 ^ (L + 1) = 2 * 2 ^ L) as H2 by (rewrite N.add_1_r; apply N.pow_succ_r').
  pose proof (N.pow_nonzero 2 L ltac:(done)) as Hn.
  pose proof (fits_lt L p Hf) as Hlt. unfold inorder in Hlt. pose proof (count_ones_le p) as Hc.
  assert (N.lxor (inorder L p) (2 ^ L - 1) = p * 2 ^ (L + 1)) as Hx.
  { rewrite N.sub_1_r, <-N.ones_equiv, <-N.shiftl_mul_pow2. bitwise. bit_cases; bit_values. }
  assert (count_ones (p * 2 ^ (L + 1)) = count_ones p) as Hco.
  { replace (L + 1) with (N.of_nat (N.to_nat (L + 1))) by lia.
    generalize (N.to_nat (L + 1)). intros m. induction m as [|m IH]; [by rewrite N.mul_1_r|].
    rewrite pow2_nat_S, N.mul_assoc, (N.mul_comm p 2), <-N.mul_assoc, count_ones_double. exact IH. }
  apply bind_Ok. eexists. split; [apply sub64_Ok; split; [reflexivity|lia]|].
  apply bind_Ok. eexists. split.
  { apply bind_Ok. eexists. split; [apply sub64_Ok; split; [reflexivity|lia]|].
    rewrite Hx, Hco. apply sub64_Ok. split; [reflexivity|nia]. }
  apply add64_Ok. unfold postorder, u64_max. split; [lia|].
  assert ((p + 1) * 2 ^ (L + 1) <= 2 ^ 64) as Hb; [|change (2 ^ 64) with 18446744073709551616 in *; nia].
  replace (2 ^ 64) with (2 ^ (63 - L) * 2 ^ (L + 1)) by (rewrite <-N.pow_add_r; f_equal; lia).
  apply N.mul_le_mono_r.
  destruct Hf. lia.
Qed.

(** The loop over the levels below the node: each one is subtracted. *)
Lemma postorder_loop_low (j : nat) L bm :
  N.of_nat j <= L -> L < 64 ->
  postorder_loop j (2 ^ (N.of_nat j + 1) - 2 + (L - N.of_nat j)) (2 ^ N.of_nat j - 1) bm =
    (L, N.lor bm (N.ones (N.of_nat j))).
Proof.
  revert bm. induction j as [|j IH]; intros bm Hj HL; simpl postorder_loop.
  { rewrite N.lor_0_r. f_equal. lia. }
  pose proof (N.pow_nonzero 2 (N.of_nat j) ltac:(done)) as Hn.
  rewrite N.add_1_r, N.pow_succ_r', pow2_nat_S.
  destruct (N.leb_spec (2 * 2 ^ N.of_nat j - 1) (2 * (2 * 2 ^ N.of_nat j) - 2 + (L - N.of_nat (S j)))) as [_|]; [|lia].
  replace (2 * (2 * 2 ^ N.of_nat j) - 2 + (L - N.of_nat (S j)) - (2 * 2 ^ N.of_nat j - 1))
    with (2 ^ (N.of_nat j + 1) - 2 + (L - N.of_nat j)) by (rewrite N.add_1_r, N.pow_succ_r'; lia).
  replace (N.shiftr (2 * 2 ^ N.of_nat j - 1) 1) with (2 ^ N.of_nat j - 1).
  - rewrite IH by lia. f_equal. bitwise. bit_cases; bit_values.
  - rewrite <-N.pow_succ_r', !N.sub_1_r, <-!N.ones_equiv. bitwise. bit_cases; done.
Qed.

(** A set bit of the index is a full subtree to the left. *)
Lemma postorder_top (m : nat) L p :
  p < 2 ^ N.of_nat m -> postorder L (2 ^ N.of_nat m + p) = 2 ^ (L + N.of_nat m + 1) - 1 + postorder L p.
Proof.
  intros Hp. unfold postorder. rewrite count_ones_top by done. pose proof (count_ones_le p).
  replace (2 ^ (L + N.of_nat m + 1)) with (2 ^ N.of_nat m * 2 ^ (L + 1)) by (rewrite <-N.pow_add_r; f_equal; lia).
  pose proof (N.pow_nonzero 2 (N.of_nat m) ltac:(done)). pose proof (N.pow_nonzero 2 (L + 1) ltac:(done)).
  nia.
Qed.

Lemma postorder_bound (m : nat) L p :
  p < 2 ^ N.of_nat m -> postorder L p < 2 ^ (L + N.of_nat m + 1) - 1.
Proof.
  intros Hp. unfold postorder.
  replace (2 ^ (L + N.of_nat m + 1)) with (2 ^ N.of_nat m * 2 ^ (L + 1)) by (rewrite <-N.pow_add_r; f_equal; lia).
  rewrite N.add_1_r, N.pow_succ_r'. pose proof (N.pow_nonzero 2 L ltac:(done)). nia.
Qed.

(** The loop over the levels above: one bit of the index per level. *)
Lemma postorder_loop_high (m : nat) L p bm :
  p < 2 ^ N.of_nat m -> L + N.of_nat m <= 64 -> L < 64 ->
  postorder_loop (N.to_nat L + m) (postorder L p) (2 ^ (L + N.of_nat m) - 1) bm =
    (L, N.lor bm (N.lor (N.shiftl p L) (N.ones L))).
Proof.
  intros Hp Hm HL. revert p bm Hp. induction m as [|m IH]; intros p bm Hp.
  { assert (p = 0) as -> by (simpl in Hp; lia).
    pose proof (postorder_loop_low (N.to_nat L) L bm) as Hlow. rewrite N2Nat.id in Hlow.
    rewrite Nat.add_0_r, N.add_0_r, N.shiftl_0_l, N.lor_0_l, <-Hlow by lia. f_equal.
    unfold postorder. lia. }
  rewrite Nat.add_succ_r. simpl postorder_loop.
  assert (N.shiftr (2 ^ (L + N.of_nat (S m)) - 1) 1 = 2 ^ (L + N.of_nat m) - 1) as ->.
  { rewrite !N.sub_1_r, <-!N.ones_equiv. bitwise. bit_cases; done. }
  replace (L + N.of_nat (S m)) with (L + N.of_nat m + 1) by lia. rewrite pow2_nat_S in Hp.
  destruct (N.lt_ge_cases p (2 ^ N.of_nat m)) as [Hlt|Hge].
  - pose proof (postorder_bound m L p Hlt).
    destruct (N.leb_spec (2 ^ (L + N.of_nat m + 1) - 1) (postorder L p)); [lia|].
    apply IH; [lia|done].
  - assert (p = 2 ^ N.of_nat m + (p - 2 ^ N.of_nat m)) as Hs by lia.
    set (p' := p - 2 ^ N.of_nat m) in *. clearbody p'. subst p. rewrite postorder_top by lia.
    destruct (N.leb_spec (2 ^ (L + N.of_nat m + 1) - 1) (2 ^ (L + N.of_nat m + 1) - 1 + postorder L p')); [|lia].
    rewrite N.add_comm, N.add_sub, IH by lia. f_equal. rewrite <-N.lor_assoc. f_equal.
    rewrite <-(lor_disjoint (2 ^ N.of_nat m) p').
    + bitwise. bit_cases; bit_values.
    + intros k. rewrite testbit_pow2. bit_cases; [|done]. subst. apply testbit_small with (N.of_nat m); lia.
Qed.

(** Post-order to in-order and back. *)
Lemma postorder_to_inorder_spec {E} L p :
  fits L p -> @postorder_to_inorder E (postorder L p) = Ok (inorder L p).
Proof.
  intros Hf. unfold postorder_to_inorder. fits_facts Hf.
  pose proof (postorder_loop_high (N.to_nat (64 - L)) L p 0) as Hl.
  rewrite N2Nat.id in Hl. replace (N.to_nat L + N.to_nat (64 - L))%nat with 64%nat in Hl by lia.
  replace (L + (64 - L)) with 64 in Hl by lia. change (not64 0) with (2 ^ 64 - 1).
  rewrite Hl; [|destruct Hf as [_ Hp]|lia|done].
  - rewrite N.lor_0_l. rewrite N.mod_small by lia. rewrite (proj2 (N.ltb_lt _ _)) by done. simpl.
    assert (N.shiftr (N.lor (N.shiftl p L) (N.ones L)) L = p) as ->.
    { bitwise. bit_cases. rewrite orb_false_r. f_equal. lia. }
    by rewrite from_level_and_pos_inorder.
  - eapply N.lt_le_trans; [exact Hp|]. apply N.pow_le_mono_r; lia.
Qed.

Lemma land_pow2_testbit c k : (N.land c (2 ^ k) =? 0) = negb (N.testbit c k).
Proof.
  assert (N.land c (2 ^ k) = if N.testbit c k then 2 ^ k else 0) as ->.
  { bitwise. destruct (N.testbit c k) eqn:Hb; autorewrite with bits; bit_cases; subst; rewrite ?Hb; try done;
      by rewrite ?andb_false_r. }
  destruct (N.testbit c k); [|done]. simpl. apply N.eqb_neq, N.pow_nonzero. done.
Qed.

(** ** Frozen subtrees *)

(** The set bits of [n] below [j], highest first. *)
Fixpoint set_bits_below (j : nat) (n : N) : list N :=
  match j with
  | O => []
  | S j => (if N.testbit n (N.of_nat j) then [N.of_nat j] else []) ++ set_bits_below j n
  end.

(** The subtree of [2 ^ k] leaves for the set bit [k] of the number of leaves [n]. *)
Definition frozen_position (n k : N) : N := inorder k (2 * (n / 2 ^ (k + 1))).

Lemma mod_pow2_succ n (j : nat) :
  n mod 2 ^ N.of_nat (S j) =
  (if N.testbit n (N.of_nat j) then 2 ^ N.of_nat j else 0) + n mod 2 ^ N.of_nat j.
Proof.
  assert (forall b : bool, (if b then 2 ^ N.of_nat j else 0) = N.b2n b * 2 ^ N.of_nat j) as Hb
    by (by intros []; simpl N.b2n; lia).
  rewrite Hb, <-N.land_ones, <-(N.land_ones n (N.of_nat j)).
  rewrite <-N.shiftl_mul_pow2, <-lor_disjoint.
  - bitwise. destruct (N.testbit n (N.of_nat j)) eqn:Hj; simpl N.b2n; autorewrite with bits; bit_cases;
      rewrite ?andb_true_r, ?andb_false_r, ?orb_false_r; try done.
    + assert (k = N.of_nat j) as -> by lia. done.
    + assert (k = N.of_nat j) as -> by lia. done.
  - intros k. destruct (N.testbit n (N.of_nat j)); simpl N.b2n; autorewrite with bits; bit_cases;
      by rewrite ?andb_false_r.
Qed.

(** What is left of the tree once the subtrees of the bits from [j] up are gone. *)
Definition frozen_state (n : N) (j : nat) : FrozenSubTreeIterator.state :=
  FrozenSubTreeIterator.mk (n mod 2 ^ N.of_nat j) (n - n mod 2 ^ N.of_nat j).

Lemma clear_top j r : j < 64 -> r < 2 ^ j -> N.land (2 ^ j + r) (not64 (2 ^ j)) = r.
Proof.
  intros Hj Hr. assert (forall i, j <= i -> N.testbit r i = false) as Hhi by (intros; by apply (testbit_small r j)).
  rewrite <-lor_disjoint by (intros k; rewrite testbit_pow2; bit_cases; subst; rewrite ?Hhi; done || lia).
  bitwise. bit_cases; subst; rewrite ?Hhi by lia; try done; by rewrite ?andb_true_r, ?andb_false_r.
Qed.

Lemma frozen_next {E} n (j : nat) :
  n <= 2 ^ 63 -> N.testbit n (N.of_nat j) = true ->
  @FrozenSubTreeIterator.next E (frozen_state n (S j)) =
    Ok (Some (frozen_position n (N.of_nat j), frozen_state n j)).
Proof.
  intros Hn Hb. unfold FrozenSubTreeIterator.next, frozen_state, frozen_position.
  simpl FrozenSubTreeIterator.bitmap. simpl FrozenSubTreeIterator.seen_leaves.
  pose proof (mod_pow2_succ n j) as Hm. rewrite Hb in Hm.
  assert (n mod 2 ^ N.of_nat j < 2 ^ N.of_nat j) as Hlt by (apply N.mod_lt, N.pow_nonzero; lia).
  pose proof (N.Div0.mod_le n (2 ^ N.of_nat (S j))) as Hle.
  pose proof (N.div_mod n (2 ^ N.of_nat (S j))) as Hd.
  rewrite Hm in *. specialize (Hd ltac:(apply N.pow_nonzero; lia)).
  replace (N.of_nat j + 1) with (N.of_nat (S j)) by lia. rewrite pow2_nat_S in *.
  unfold inorder. replace (N.of_nat j + 1) with (N.of_nat (S j)) by lia. rewrite pow2_nat_S.
  generalize dependent (n mod 2 ^ N.of_nat j). intros r Hm Hlt Hle Hd.
  generalize dependent (n / (2 * 2 ^ N.of_nat j)). intros q Hd.
  assert (N.log2 (2 ^ N.of_nat j + r) = N.of_nat j) as Hlog
    by (apply N.log2_unique; [lia|]; rewrite N.pow_succ_r'; lia).
  rewrite (proj2 (N.eqb_neq _ 0)) by lia.
  rewrite smear_ones_spec by (change (2 ^ 64) with (2 * 2 ^ 63); lia).
  rewrite N.size_log2, Hlog, ones_shiftr by lia.
  replace (N.succ (N.of_nat j) - 1) with (N.of_nat j) by lia.
  assert (N.of_nat j < 64) as Hj.
  { destruct (N.lt_ge_cases (N.of_nat j) 64) as [|Hge]; [done|].
    pose proof (N.pow_le_mono_r 2 64 (N.of_nat j) ltac:(done) Hge). change (2 ^ 64) with (2 * 2 ^ 63) in *. lia. }
  pose proof (N.pow_nonzero 2 (N.of_nat j) ltac:(done)) as Hpos.
  assert (u64_max = 2 * 2 ^ 63 - 1) as Hmax by done.
  rewrite N.ones_equiv, <-N.sub_1_r, (proj2 (add64_Ok (_ - 1) 1 (2 ^ N.of_nat j))) by lia.
  simpl. rewrite from_leaf_index_double by lia.
  unfold Position.to_inorder_index, Position.from_inorder_index.
  rewrite (proj2 (add64_Ok (n - _) _ (n - r))) by lia.
  rewrite (proj2 (add64_Ok _ _ _)) by (split; [reflexivity|]; lia).
  simpl. rewrite clear_top by done. do 3 f_equal. lia.
Qed.

Lemma frozen_collect {E} n (j fuel : nat) :
  n <= 2 ^ 63 -> (j < fuel)%nat ->
  @FrozenSubTreeIterator.collect E fuel (frozen_state n j) =
    Ok (frozen_position n <$> set_bits_below j n).
Proof.
  intros Hn. revert fuel. induction j as [|j IH]; intros [|fuel] Hf; [lia| |lia|].
  - unfold frozen_state. change (2 ^ N.of_nat 0) with 1. by rewrite N.mod_1_r.
  - simpl set_bits_below. destruct (N.testbit n (N.of_nat j)) eqn:Hb.
    + simpl. rewrite frozen_next by done. simpl. by rewrite IH by lia.
    + simpl app. rewrite <-(IH (S fuel)) by lia. f_equal. unfold frozen_state.
      by rewrite mod_pow2_succ, Hb, N.add_0_l.
Qed.

(** ** Subtrees that extend a tree *)

(** The subtrees [ps] cover the leaves from [a] to [b], in order and without gaps. *)
Fixpoint tiles (a b : N) (ps : list Position) : Prop :=
  match ps with
  | [] => a = b
  | p :: ps => exists k q, p = inorder k q /\ a = q * 2 ^ k /\ tiles (a + 2 ^ k) b ps
  end.

(** The subtrees that grow a tree of [c] leaves by [r]: first the ones that double
    the last subtree, then the set bits of the rest. *)
Inductive growth : N -> N -> list Position -> Prop :=
| growth_done c : growth c 0 []
| growth_up t q c r ps :
    c = 2 ^ t * (2 * q + 1) -> 2 ^ t <= r -> growth (c + 2 ^ t) (r - 2 ^ t) ps ->
    growth c r (inorder t (2 * q + 1) :: ps)
| growth_down k q c r ps :
    c = q * 2 ^ (k + 1) -> 2 ^ k <= r -> r < 2 ^ (k + 1) -> growth (c + 2 ^ k) (r - 2 ^ k) ps ->
    growth c r (inorder k (2 * q) :: ps).

Lemma growth_tiles c r ps : growth c r ps -> tiles c (c + r) ps.
Proof.
  induction 1 as [c|t q c r ps Hc Hr _ IH|k q c r ps Hc Hr Hr' _ IH]; simpl; [lia|..].
  - exists t, (2 * q + 1). split_and!; [done|lia|].
    by replace (c + r) with (c + 2 ^ t + (r - 2 ^ t)) by lia.
  - exists k, (2 * q). split_and!; [done|rewrite Hc, N.add_1_r, N.pow_succ_r'; lia|].
    by replace (c + r) with (c + 2 ^ k + (r - 2 ^ k)) by lia.
Qed.

Lemma trailing_zeros_odd t q : trailing_zeros (2 ^ t * (2 * q + 1)) = t.
Proof.
  rewrite N.mul_comm, <-N.shiftl_mul_pow2. apply trailing_zeros_spec.
  - rewrite testbit_shiftl, N.sub_diag, N.leb_refl. simpl. apply N.testbit_odd_0.
  - intros i Hi. rewrite testbit_shiftl. by bit_cases.
Qed.

(** The odd part of a number of leaves, and its level. *)
Lemma trailing_zeros_parts c :
  0 < c -> c < 2 ^ 64 ->
  exists t q, trailing_zeros c = t /\ c = 2 ^ t * (2 * q + 1) /\ t < 64 /\ shl64 1 t = 2 ^ t.
Proof.
  intros H0 H64. destruct c as [|m]; [lia|]. destruct (odd_part m) as (t & q & Hm).
  exists t, q. rewrite Hm, trailing_zeros_odd. assert (t < 64) as Ht.
  { apply (N.pow_lt_mono_r_iff 2); [lia|]. nia. }
  repeat split; try done. bitwise. bit_cases; try done. all: destruct (N.eqb_spec (k - t) 0); try done; lia.
Qed.

Lemma level_divides a q c m t : c = a * 2 ^ m -> c = 2 ^ t * (2 * q + 1) -> m <= t.
Proof.
  intros -> Hc. apply N.le_ngt. intros Ht.
  replace m with (t + (1 + (m - t - 1))) in Hc by lia.
  rewrite !N.pow_add_r, N.mul_assoc, (N.mul_comm a), <-N.mul_assoc, N.pow_1_r in Hc.
  apply N.mul_cancel_l in Hc; [lia|]. by apply N.pow_nonzero.
Qed.

Lemma next_new_leaf_batch_spec {E} c r :
  0 < r -> r < 2 ^ 64 ->
  @FrozenSubtreeSiblingIterator.next_new_leaf_batch E (FrozenSubtreeSiblingIterator.mk c r) =
    Ok (2 ^ N.log2 r).
Proof.
  intros H0 H64. unfold FrozenSubtreeSiblingIterator.next_new_leaf_batch, leading_zeros. simpl.
  assert (N.log2 r < 64) as Hl by (apply N.log2_lt_pow2; lia).
  rewrite N.size_log2 by lia. unfold MAX_ACCUMULATOR_PROOF_DEPTH.
  rewrite (proj2 (sub64_Ok _ _ (N.log2 r))) by lia. simpl. f_equal.
  bitwise. bit_cases; try done. all: destruct (N.eqb_spec (k - N.log2 r) 0); try done; lia.
Qed.

(** The size of the next subtree. *)
Definition sibling_size {E} (c r : N) : outcome E LeafCount :=
  if 0 <? c then
    let s := shl64 1 (trailing_zeros c) in
    if s <=? r then Ok s
    else FrozenSubtreeSiblingIterator.next_new_leaf_batch (FrozenSubtreeSiblingIterator.mk c r)
  else FrozenSubtreeSiblingIterator.next_new_leaf_batch (FrozenSubtreeSiblingIterator.mk c r).

Lemma sibling_next {E} c r k q :
  r <> 0 -> c + r <= 2 ^ 63 -> @sibling_size E c r = Ok (2 ^ k) -> c = q * 2 ^ k -> 2 ^ k <= r ->
  @FrozenSubtreeSiblingIterator.next E (FrozenSubtreeSiblingIterator.mk c r) =
    Ok (Some (inorder k q, FrozenSubtreeSiblingIterator.mk (c + 2 ^ k) (r - 2 ^ k))).
Proof.
  intros Hr Hle Hs Hc Hk. unfold FrozenSubtreeSiblingIterator.next. simpl.
  unfold sibling_size in Hs. rewrite Hs, (proj2 (N.eqb_neq r 0)) by done. simpl.
  assert (u64_max = 2 * 2 ^ 63 - 1) as Hmax by done. pose proof (N.pow_nonzero 2 k ltac:(done)).
  rewrite (proj2 (add64_Ok _ _ (c + 2 ^ k))) by lia. simpl.
  rewrite (proj2 (sub64_Ok (c + _) _ (c + 2 ^ k - 1))) by lia. simpl.
  rewrite (proj2 (sub64_Ok _ _ (r - 2 ^ k))) by lia. simpl.
  rewrite (proj2 (add64_Ok _ _ (inorder k q))); [done|].
  unfold inorder. rewrite N.add_1_r, N.pow_succ_r'. lia.
Qed.

(** Once the rest fits below the last subtree, its bits are laid out from the top. *)
Lemma sibling_descend {E} (j fuel : nat) c r q :
  c = q * 2 ^ N.of_nat j -> r < 2 ^ N.of_nat j -> c + r <= 2 ^ 63 -> (j < fuel)%nat ->
  exists ps, @FrozenSubtreeSiblingIterator.collect E fuel (FrozenSubtreeSiblingIterator.mk c r) = Ok ps /\
    growth c r ps.
Proof.
  revert fuel c r q. induction j as [|j IH]; intros [|fuel] c r q Hc Hr Hle Hf; try lia.
  { change (2 ^ N.of_nat 0) with 1 in *. assert (r = 0) as -> by lia. exists []. split; [done|constructor]. }
  destruct (N.eq_dec r 0) as [->|Hr0]; [exists []; split; [done|constructor]|].
  rewrite pow2_nat_S in *.
  destruct (N.lt_ge_cases r (2 ^ N.of_nat j)) as [Hlt|Hge].
  { apply (IH (S fuel) c r (2 * q)); try lia. }
  assert (N.log2 r = N.of_nat j) as Hlog by (apply N.log2_unique; rewrite ?N.pow_succ_r'; lia).
  assert (@sibling_size E c r = Ok (2 ^ N.of_nat j)) as Hs.
  { unfold sibling_size. rewrite next_new_leaf_batch_spec, Hlog by (change (2 ^ 64) with (2 * 2 ^ 63); lia).
    destruct (N.ltb_spec 0 c) as [Hc0|]; [|done].
    destruct (trailing_zeros_parts c) as (t & q' & Ht & Hp & _ & Hs); [done|change (2 ^ 64) with (2 * 2 ^ 63); lia|].
    simpl. rewrite Ht, Hs. rewrite (proj2 (N.leb_gt _ _)); [done|].
    apply (N.lt_le_trans _ (2 * 2 ^ N.of_nat j)); [done|].
    replace (2 * 2 ^ N.of_nat j) with (2 ^ N.of_nat (S j)) in * by apply pow2_nat_S.
    apply N.pow_le_mono_r; [done|]. by apply (level_divides q q' c). }
  destruct (IH fuel (c + 2 ^ N.of_nat j) (r - 2 ^ N.of_nat j) (2 * q + 1)) as (ps & Hps & Ht); try lia.
  exists (inorder (N.of_nat j) (2 * q) :: ps). cbn [FrozenSubtreeSiblingIterator.collect].
  rewrite (sibling_next c r (N.of_nat j) (2 * q)) by (done || lia). simpl. rewrite Hps. split; [done|].
  assert (2 ^ (N.of_nat j + 1) = 2 * 2 ^ N.of_nat j) as Hj by (rewrite N.add_1_r; apply N.pow_succ_r').
  apply growth_down; rewrite ?Hj; done || lia.
Qed.

(** Until then, each subtree doubles the last one. *)
Lemma sibling_ascend {E} (j fuel : nat) c r :
  (exists q, c = q * 2 ^ N.of_nat (64 - j)) -> 0 < c -> c + r <= 2 ^ 63 -> (64 + j < fuel)%nat ->
  exists ps, @FrozenSubtreeSiblingIterator.collect E fuel (FrozenSubtreeSiblingIterator.mk c r) = Ok ps /\
    growth c r ps.
Proof.
  revert fuel c r. induction j as [|j IH]; intros [|fuel] c r [q Hq] Hc Hle Hf; try lia.
  { exfalso. change (2 ^ N.of_nat (64 - 0)) with (2 * 2 ^ 63) in Hq. nia. }
  destruct (N.eq_dec r 0) as [->|Hr0]; [exists []; split; [done|constructor]|].
  destruct (trailing_zeros_parts c) as (t & q' & Ht & Hp & Ht64 & Hs); [done|change (2 ^ 64) with (2 * 2 ^ 63); lia|].
  assert (N.of_nat (64 - S j) <= t) as Hjt by (by apply (level_divides q q' c)).
  destruct (N.lt_ge_cases r (2 ^ t)) as [Hlt|Hge].
  { apply (sibling_descend (N.to_nat t) (S fuel) c r (2 * q' + 1)); rewrite ?N2Nat.id; lia. }
  assert (@sibling_size E c r = Ok (2 ^ t)) as Hsz.
  { unfold sibling_size. rewrite (proj2 (N.ltb_lt 0 c)), Ht, Hs by done. simpl.
    by rewrite (proj2 (N.leb_le _ _)). }
  destruct (IH fuel (c + 2 ^ t) (r - 2 ^ t)) as (ps & Hps & Hts); try lia.
  { exists ((q' + 1) * 2 ^ (t + 1 - N.of_nat (64 - j))).
    rewrite <-N.mul_assoc, <-N.pow_add_r, N.sub_add, (N.add_1_r t), N.pow_succ_r' by lia. lia. }
  exists (inorder t (2 * q' + 1) :: ps). cbn [FrozenSubtreeSiblingIterator.collect].
  rewrite (sibling_next c r t (2 * q' + 1)) by (done || lia). simpl. rewrite Hps. split; [done|].
  by apply growth_up.
Qed.

Lemma sibling_collect {E} c r :
  c + r <= 2 ^ 63 ->
  exists ps, @FrozenSubtreeSiblingIterator.collect E 130 (FrozenSubtreeSiblingIterator.mk c r) = Ok ps /\
    growth c r ps.
Proof.
  intros Hle. destruct (N.eq_dec c 0) as [->|Hc].
  - apply (sibling_descend 64 130 0 r 0); try lia.
  - apply (sibling_ascend 64); try lia. exists c. change (2 ^ N.of_nat (64 - 64)) with 1. lia.
Qed.

(** ** Neighbours of a node *)
Lemma lxor_1_even p : N.even p = true -> N.lxor p 1 = p + 1.
Proof. intros [q ->]%N.even_spec. by destruct q. Qed.

Lemma lxor_1_odd p : N.even p = false -> N.lxor p 1 = p - 1.
Proof.
  rewrite <-N.negb_odd. intros Ho. apply negb_false_iff, N.odd_spec in Ho as [q ->].
  rewrite N.add_sub. by destruct q.
Qed.

Lemma fits_sibling L p : fits L p -> L < 63 -> fits L (N.lxor p 1).
Proof.
  intros [HL Hp] H63. split; [done|].
  assert (2 ^ (63 - L) = 2 * 2 ^ (62 - L)) as Hpow
    by (replace (63 - L) with (N.succ (62 - L)) by lia; apply N.pow_succ_r').
  destruct (N.even p) eqn:He; [rewrite lxor_1_even by done|rewrite lxor_1_odd by done; lia].
  apply N.even_spec in He as [q ->]. lia.
Qed.

Lemma fits_left L p : fits L p -> 0 < L -> fits (L - 1) (2 * p) /\ fits (L - 1) (2 * p + 1).
Proof.
  intros [HL Hp] H0.
  assert (2 ^ (63 - (L - 1)) = 2 * 2 ^ (63 - L)) as Hpow
    by (replace (63 - (L - 1)) with (N.succ (63 - L)) by lia; apply N.pow_succ_r').
  unfold fits. rewrite Hpow. lia.
Qed.

(** The post-order index and back. *)
Lemma postorder_round {E} L p :
  fits L p -> L < 63 ->
  @to_postorder_index E (inorder L p) = Ok (postorder L p) /\
  from_postorder_index (postorder L p) = Ok (inorder L p) /\ postorder L p < 2 ^ 64 - 1.
Proof.
  intros Hf HL. assert (postorder L p < 2 ^ 64 - 1) as Hb.
  { pose proof (postorder_bound (N.to_nat (63 - L)) L p) as Hb. rewrite N2Nat.id in Hb.
    replace (L + (63 - L) + 1) with 64 in Hb by lia. apply Hb, Hf. }
  unfold to_postorder_index, from_postorder_index. change (Position.to_inorder_index) with (fun x : N => x). cbv beta.
  rewrite inorder_to_postorder_spec by done. split_and!; [done| |done].
  rewrite (proj2 (N.ltb_lt _ _)) by exact Hb. by apply postorder_to_inorder_spec.
Qed.

Lemma postorder_right L p : 0 < L -> postorder L p = postorder (L - 1) (2 * p + 1) + 1.
Proof.
  intros HL. unfold postorder. rewrite count_ones_double1, N.sub_add by lia.
  rewrite N.add_1_r, N.pow_succ_r'. replace L with (N.succ (L - 1)) at 1 2 by lia.
  replace (2 ^ L) with (2 * 2 ^ (L - 1)) by (rewrite <-N.pow_succ_r'; f_equal; lia).
  rewrite ?N.pow_succ_r'. pose proof (N.pow_nonzero 2 (L - 1) ltac:(done)). pose proof (count_ones_le p). nia.
Qed.

Lemma postorder_left L p :
  0 < L -> postorder (L - 1) (2 * p + 1) = postorder (L - 1) (2 * p) + (2 ^ L - 1).
Proof.
  intros HL. unfold postorder. rewrite count_ones_double1, count_ones_double, N.sub_add by lia.
  replace (2 ^ L) with (2 * 2 ^ (L - 1)) by (rewrite <-N.pow_succ_r'; f_equal; lia).
  pose proof (N.pow_nonzero 2 (L - 1) ltac:(done)). pose proof (count_ones_le p). nia.
Qed.

Lemma frozen_levels n (j : nat) :
  n <= 2 ^ 63 -> (j <= 64)%nat -> Position.level <$> (frozen_position n <$> set_bits_below j n) = set_bits_below j n.
Proof.
  intros Hn. induction j as [|j IH]; intros Hj; [done|]. simpl.
  destruct (N.testbit n (N.of_nat j)) eqn:Hb; simpl; [|apply IH; lia]. f_equal; [|apply IH; lia].
  unfold frozen_position. apply level_inorder. split; [lia|].
  destruct (N.eq_dec (N.of_nat j) 63) as [->|Hne].
  { rewrite N.div_small by (simpl; lia). done. }
  assert (n <> 2 ^ 63) as Hn63 by (intros ->; rewrite testbit_pow2 in Hb; apply N.eqb_eq in Hb; lia).
  replace (63 - N.of_nat j) with (N.succ (62 - N.of_nat j)) by lia. rewrite N.pow_succ_r'.
  apply N.mul_lt_mono_pos_l; [done|]. apply N.Div0.div_lt_upper_bound. rewrite <-N.pow_add_r.
  replace (N.of_nat j + 1 + (62 - N.of_nat j)) with 63 by lia. lia.
Qed.

(** The frozen subtrees grow the empty tree. *)
Lemma frozen_growth n (j : nat) :
  growth (n - n mod 2 ^ N.of_nat j) (n mod 2 ^ N.of_nat j) (frozen_position n <$> set_bits_below j n).
Proof.
  induction j as [|j IH]; [simpl; rewrite N.mod_1_r; apply growth_done|].
  simpl set_bits_below. pose proof (mod_pow2_succ n j) as Hm.
  pose proof (N.div_mod n (2 ^ N.of_nat (S j)) ltac:(by apply N.pow_nonzero)) as Hd.
  pose proof (N.mod_lt n (2 ^ N.of_nat j) ltac:(by apply N.pow_nonzero)) as Hlt.
  destruct (N.testbit n (N.of_nat j)).
  - simpl. rewrite Hm in *. unfold frozen_position at 1.
    replace (N.of_nat (S j)) with (N.of_nat j + 1) in * by lia.
    rewrite (N.add_1_r (N.of_nat j)), N.pow_succ_r' in *.
    generalize dependent (n / (2 * 2 ^ N.of_nat j)). intros q Hd.
    generalize dependent (n mod 2 ^ N.of_nat j). intros r IH Hm Hlt Hd.
    apply growth_down; rewrite ?N.add_1_r, ?N.pow_succ_r'; [lia..|].
    replace (n - (2 ^ N.of_nat j + r) + 2 ^ N.of_nat j) with (n - r) by lia.
    by replace (2 ^ N.of_nat j + r - 2 ^ N.of_nat j) with r by lia.
  - simpl. by rewrite Hm, N.add_0_l.
Qed.

Lemma frozen_tiles n (j : nat) :
  tiles (n - n mod 2 ^ N.of_nat j) n (frozen_position n <$> set_bits_below j n).
Proof.
  pose proof (growth_tiles _ _ _ (frozen_growth n j)) as Ht.
  pose proof (N.Div0.mod_le n (2 ^ N.of_nat j)). by rewrite N.sub_add in Ht.
Qed.

(** ** Frozen nodes and placeholders *)
Lemma freezable_inorder {E} L p i :
  fits L p -> i < 2 ^ 63 -> @Position.is_freezable E (inorder L p) i = Ok (p * 2 ^ L + 2 ^ L <=? i + 1).
Proof.
  intros Hf Hi. unfold Position.is_freezable.
  rewrite right_most_child_inorder, from_leaf_index_double by done. simpl.
  unfold inorder. change (2 ^ (0 + 1)) with 2. change (2 ^ 0) with 1.
  pose proof (N.pow_nonzero 2 L ltac:(done)). f_equal. apply eq_true_iff_eq. rewrite !N.leb_le. lia.
Qed.

Lemma placeholder_inorder {E} L p i :
  fits L p -> i < 2 ^ 63 -> @Position.is_placeholder E (inorder L p) i = Ok (i <? p * 2 ^ L).
Proof.
  intros Hf Hi. unfold Position.is_placeholder.
  rewrite left_most_child_inorder, from_leaf_index_double by done. simpl.
  unfold inorder. change (2 ^ (0 + 1)) with 2. change (2 ^ 0) with 1.
  pose proof (N.pow_nonzero 2 L ltac:(done)). rewrite (N.add_1_r L), N.pow_succ_r'.
  generalize dependent (2 ^ L). intros s Hs. assert (p * (2 * s) = 2 * (p * s)) as -> by lia.
  destruct (N.leb_spec (2 * (p * s) + s - 1) (2 * i)).
  - f_equal. symmetry. apply N.ltb_ge. lia.
  - destruct (N.leb_spec (p * s * 2 + 1 - 1) (2 * i)); f_equal; symmetry; [apply N.ltb_ge|apply N.ltb_lt]; lia.
Qed.
