(* ===== verification/AccumulatorLemmas.v ===== *)
(** * The Merkle accumulator against its reference

    The reference is the tree of the accumulator's documentation: leaves padded
    to a power of two, a subtree without leaves hashes to the placeholder, any
    other inner node to the hash of its children.  The code keeps the roots of the
    perfect subtrees of the binary representation of the number of leaves. *)

From S2P Require Import Prelude Crypto Errors Position PositionLemmas Accumulator.

Section reference.
Context `{MerkleHasher}.

(** The hash of a subtree of height [k] that holds the leaves [l]. *)
Fixpoint subtree (k : nat) (l : list HashValue) : HashValue :=
  match l with
  | [] => ACCUMULATOR_PLACEHOLDER_HASH
  | x :: _ =>
      match k with
      | O => x
      | S k => hash_internal (subtree k (take (2 ^ k) l)) (subtree k (drop (2 ^ k) l))
      end
  end.

(** The smallest height that holds [n] leaves. *)
Definition height (n : nat) : nat := N.to_nat (N.log2_up (N.of_nat n)).

(** The root of the accumulator of the leaves [l]. *)
Definition merkle_root (l : list HashValue) : HashValue := subtree (height (length l)) l.

Lemma subtree_S k l :
  l <> [] -> subtree (S k) l = hash_internal (subtree k (take (2 ^ k) l)) (subtree k (drop (2 ^ k) l)).
Proof. by destruct l. Qed.

Lemma subtree_nil k : subtree k [] = ACCUMULATOR_PLACEHOLDER_HASH.
Proof. by destruct k. Qed.

Lemma pow2_pos k : (0 < 2 ^ k)%nat.
Proof. induction k; simpl; lia. Qed.

(** Two halves, the left one full. *)
Lemma subtree_app k l1 l2 :
  length l1 = (2 ^ k)%nat -> subtree (S k) (l1 ++ l2) = hash_internal (subtree k l1) (subtree k l2).
Proof.
  intros Hl. rewrite subtree_S.
  - by rewrite take_app_length', drop_app_length' by done.
  - pose proof (pow2_pos k). destruct l1; simpl in *; [lia|done].
Qed.

(** A left half only. *)
Lemma subtree_left k l :
  l <> [] -> (length l <= 2 ^ k)%nat ->
  subtree (S k) l = hash_internal (subtree k l) ACCUMULATOR_PLACEHOLDER_HASH.
Proof.
  intros Hne Hl. rewrite subtree_S by done.
  by rewrite take_ge, drop_ge, subtree_nil by done.
Qed.

(** ** Frozen subtrees

    [frozen k n rr l]: [rr] lists, smallest subtree first, the roots of the perfect
    subtrees that [l] splits into, for [length l = n * 2 ^ k]. *)
Fixpoint frozen_pos (k : nat) (n : positive) (rr l : list HashValue) : Prop :=
  match n with
  | xO n => frozen_pos (S k) n rr l
  | xI n =>
      exists r rr' l1 l2, rr = r :: rr' /\ l = l1 ++ l2 /\ length l2 = (2 ^ k)%nat /\
        r = subtree k l2 /\ frozen_pos (S k) n rr' l1
  | xH => length l = (2 ^ k)%nat /\ rr = [subtree k l]
  end.
Definition frozen (k : nat) (n : N) (rr l : list HashValue) : Prop :=
  match n with 0 => rr = [] /\ l = [] | Npos p => frozen_pos k p rr l end.

Lemma frozen_double k n rr l : frozen k (N.double n) rr l <-> frozen (S k) n rr l.
Proof. by destruct n. Qed.

Lemma frozen_succ_double k n rr l :
  frozen k (N.succ_double n) rr l <->
  exists r rr' l1 l2, rr = r :: rr' /\ l = l1 ++ l2 /\ length l2 = (2 ^ k)%nat /\
    r = subtree k l2 /\ frozen (S k) n rr' l1.
Proof.
  destruct n as [|n]; [|done]. simpl. split.
  - intros [Hl ->]. exists (subtree k l), [], [], l. naive_solver.
  - intros (r & rr' & l1 & l2 & -> & -> & Hl & -> & -> & ->). done.
Qed.

Lemma frozen_pos_length k n rr l :
  frozen_pos k n rr l -> length l = (Pos.to_nat n * 2 ^ k)%nat.
Proof.
  revert k rr l. induction n as [n IH|n IH|]; intros k rr l.
  - intros (r & rr' & l1 & l2 & -> & -> & Hl & -> & Hf). apply IH in Hf.
    rewrite length_app, Hf, Hl, Pos2Nat.inj_xI, Nat.pow_succ_r'. lia.
  - intros Hf%IH. rewrite Hf, Pos2Nat.inj_xO, Nat.pow_succ_r'. lia.
  - intros [-> _]. rewrite Pos2Nat.inj_1. lia.
Qed.

Lemma frozen_length k n rr l : frozen k n rr l -> length l = (N.to_nat n * 2 ^ k)%nat.
Proof. destruct n as [|n]; [by intros [_ ->]|]. apply frozen_pos_length. Qed.

Lemma frozen_count k n rr l : frozen k n rr l -> N.of_nat (length rr) = count_ones n.
Proof.
  destruct n as [|n]; simpl; [by intros [-> _]|].
  revert k rr l. induction n as [n IH|n IH|]; intros k rr l; simpl.
  - intros (r & rr' & l1 & l2 & -> & _ & _ & _ & Hf%IH). simpl. lia.
  - apply IH.
  - by intros [_ ->].
Qed.

(** ** Appending *)

(** The number of ones at the low end. *)
Fixpoint pos_trailing_ones (p : positive) : nat :=
  match p with xI p => S (pos_trailing_ones p) | xO _ => 0 | xH => 1 end.
Definition trailing_ones (n : N) : nat := match n with 0 => 0 | Npos p => pos_trailing_ones p end.

(** The merging loop, on the reversed list. *)
Fixpoint merge_rev {E} (n : nat) (rr : list HashValue) : outcome E (list HashValue) :=
  match n with
  | O => Ok rr
  | S n =>
      match rr with
      | right_hash :: left_hash :: rr => merge_rev n (hash_internal left_hash right_hash :: rr)
      | _ => Panic
      end
  end.

Lemma vec_pop_reverse {A} (l : list A) :
  vec_pop (reverse l) = match l with [] => None | x :: l => Some (reverse l, x) end.
Proof. unfold vec_pop. rewrite reverse_involutive. by destruct l. Qed.

Lemma merge_last_rev {E} n rr :
  @Acc.merge_last _ E n (reverse rr) = (reverse <$> merge_rev n rr).
Proof.
  revert rr. induction n as [|n IH]; intros rr; simpl; [done|].
  rewrite vec_pop_reverse. destruct rr as [|x rr]; simpl; [done|].
  rewrite vec_pop_reverse. destruct rr as [|y rr]; simpl; [done|].
  by rewrite <-reverse_cons, IH.
Qed.

(** Adding one perfect subtree of height [k] is a binary increment. *)
Lemma merge_frozen {E} k n rr l l0 :
  frozen k n rr l -> length l0 = (2 ^ k)%nat ->
  exists rr', @merge_rev E (trailing_ones n) (subtree k l0 :: rr) = Ok rr' /\
    frozen k (n + 1) rr' (l ++ l0).
Proof.
  destruct n as [|n].
  { intros [-> ->] Hl. exists [subtree k l0]. done. }
  revert k rr l l0. induction n as [n IH|n IH|]; intros k rr l l0; simpl.
  - intros (r & rr' & l1 & l2 & -> & -> & Hl & -> & Hf) Hl0.
    rewrite <-subtree_app by done.
    destruct (IH (S k) rr' l1 (l2 ++ l0) Hf) as (rr2 & Hm & Hf2); [rewrite length_app; simpl; lia|].
    exists rr2. rewrite <-app_assoc. split; [exact Hm|]. simpl in Hf2.
    by rewrite Pos.add_1_r in Hf2.
  - intros Hf Hl0. eexists. split; [done|]. by eexists _, _, l, l0.
  - intros [Hl ->] Hl0. rewrite <-subtree_app by done. eexists. split; [done|].
    rewrite length_app. simpl. split; [lia|done].
Qed.

(** The loop of [append_one] runs once per trailing one. *)
Lemma trailing_ones_double1 n : trailing_ones (2 * n + 1) = S (trailing_ones n).
Proof. by destruct n. Qed.

Lemma trailing_ones_inorder (L : nat) p : trailing_ones (inorder (N.of_nat L) p) = L.
Proof.
  induction L as [|L IH].
  - unfold inorder. change (2 ^ (N.of_nat 0 + 1)) with 2. change (2 ^ N.of_nat 0) with 1.
    rewrite N.add_sub, N.mul_comm. by destruct p.
  - rewrite <-IH at 2. rewrite <-trailing_ones_double1. f_equal. unfold inorder.
    rewrite Nat2N.inj_succ, !N.add_1_r, !N.pow_succ_r'. pose proof (N.pow_nonzero 2 (N.of_nat L)). nia.
Qed.

Lemma trailing_zeros_not64 n :
  n < u64_max -> trailing_zeros (not64 n) = N.of_nat (trailing_ones n).
Proof.
  intros Hn. destruct (inorder_surj n Hn) as (L & p & -> & Hf).
  pose proof (level_inorder L p Hf) as Hl. unfold Position.level in Hl. rewrite Hl.
  rewrite <-(N2Nat.id L) at 2. by rewrite trailing_ones_inorder, N2Nat.id.
Qed.

Lemma append_one_frozen {E} n roots l leaf :
  frozen 0 n (reverse roots) l -> n < u64_max ->
  exists roots', @Acc.append_one _ E roots n leaf = Ok roots' /\
    frozen 0 (n + 1) (reverse roots') (l ++ [leaf]).
Proof.
  intros Hf Hn. unfold Acc.append_one. rewrite trailing_zeros_not64, Nat2N.id by done.
  destruct (@merge_frozen E 0 n (reverse roots) l [leaf] Hf) as (rr & Hm & Hf'); [done|].
  exists (reverse rr). rewrite reverse_involutive. split; [|done].
  rewrite <-(reverse_involutive roots) at 1. rewrite <-reverse_cons, merge_last_rev.
  simpl in Hm. by rewrite Hm.
Qed.

Lemma append_all_frozen {E} n roots l leaves :
  frozen 0 n (reverse roots) l -> n + N.of_nat (length leaves) <= u64_max ->
  exists roots', @Acc.append_all _ E roots n leaves = Ok (roots', n + N.of_nat (length leaves)) /\
    frozen 0 (n + N.of_nat (length leaves)) (reverse roots') (l ++ leaves).
Proof.
  revert n roots l. induction leaves as [|x leaves IH]; intros n roots l Hf Hn; cbn [length Acc.append_all].
  - exists roots. by rewrite N.add_0_r, app_nil_r.
  - cbn [length] in Hn. destruct (@append_one_frozen E n roots l x Hf) as (roots1 & -> & Hf1); [lia|]. cbn [mbind outcome_bind].
    rewrite (proj2 (add64_Ok _ _ (n + 1))) by lia. cbn [mbind outcome_bind].
    destruct (IH (n + 1) roots1 (l ++ [x]) Hf1) as (roots2 & -> & Hf2); [lia|].
    exists roots2. rewrite <-app_assoc in Hf2. cbn [app] in Hf2.
    replace (n + N.of_nat (S (length leaves))) with (n + 1 + N.of_nat (length leaves)) by lia. done.
Qed.

(** ** The root hash *)
Lemma root_loop_frozen {E} k p rr l s :
  frozen_pos k p rr l -> (length s <= 2 ^ k)%nat -> s <> [] \/ N.odd (Npos p) = true ->
  @Acc.root_loop _ E p rr (subtree k s) = Ok (subtree (k + Pos.size_nat p) (l ++ s)).
Proof.
  revert k rr l s. induction p as [p IH|p IH|]; intros k rr l s; simpl.
  - intros (r & rr' & l1 & l2 & -> & -> & Hl & -> & Hf) Hs _.
    rewrite <-subtree_app by done. rewrite (IH (S k) rr' l1 (l2 ++ s) Hf).
    + by rewrite <-app_assoc, Nat.add_succ_r.
    + rewrite length_app. simpl. lia.
    + left. pose proof (pow2_pos k). destruct l2; simpl in *; [lia|done].
  - intros Hf Hs [Hne|]; [|done]. rewrite <-subtree_left by done.
    rewrite (IH (S k) rr l s Hf); [by rewrite Nat.add_succ_r|simpl; lia|by left].
  - intros [Hl ->] Hs _. rewrite <-subtree_app by done. by rewrite Nat.add_1_r.
Qed.

Fixpoint odd_bits (p : positive) : positive := match p with xO p => odd_bits p | p => p end.

Lemma shiftr_trailing_zeros p : N.shiftr (Npos p) (pos_trailing_zeros p) = Npos (odd_bits p).
Proof.
  induction p as [p _|p IH|]; try done. simpl pos_trailing_zeros. simpl odd_bits. rewrite <-IH.
  rewrite <-N.shiftr_shiftr. f_equal.
Qed.

Lemma frozen_odd_bits k p rr l :
  frozen_pos k p rr l <-> frozen_pos (k + N.to_nat (pos_trailing_zeros p)) (odd_bits p) rr l.
Proof.
  revert k. induction p as [p _|p IH|]; intros k; simpl pos_trailing_zeros; simpl odd_bits;
    rewrite ?Nat.add_0_r; try done.
  etransitivity; [apply (IH (S k))|]. replace (k + N.to_nat (1 + pos_trailing_zeros p))%nat
    with (S k + N.to_nat (pos_trailing_zeros p))%nat by lia. done.
Qed.

Lemma size_odd_bits p :
  Pos.size_nat p = (N.to_nat (pos_trailing_zeros p) + Pos.size_nat (odd_bits p))%nat.
Proof. induction p as [p _|p IH|]; simpl; lia. Qed.

Lemma odd_bits_odd p : N.odd (Npos (odd_bits p)) = true.
Proof. by induction p. Qed.

Lemma pos_count_ones_pos p : 0 < pos_count_ones p.
Proof. induction p; simpl; lia. Qed.

Lemma count_odd_bits p : pos_count_ones (odd_bits p) = pos_count_ones p.
Proof. induction p; simpl; lia. Qed.

Lemma to_nat_odd_bits p :
  Pos.to_nat p = (Pos.to_nat (odd_bits p) * 2 ^ N.to_nat (pos_trailing_zeros p))%nat.
Proof.
  induction p as [p _|p IH|]; simpl pos_trailing_zeros; simpl odd_bits; rewrite ?Nat.mul_1_r; try done.
  rewrite N.add_1_l, N2Nat.inj_succ, Nat.pow_succ_r', Pos2Nat.inj_xO. lia.
Qed.

(** The height of a tree with one frozen subtree, and with more. *)
Lemma frozen_single k p rr l :
  frozen_pos k p rr l -> length rr = 1%nat ->
  odd_bits p = xH /\ rr = [subtree (k + N.to_nat (pos_trailing_zeros p)) l] .
Proof.
  intros Hf%frozen_odd_bits Hr. pose proof (odd_bits_odd p) as Ho.
  pose proof (frozen_count _ (Npos (odd_bits p)) _ _ Hf) as Hc. rewrite Hr in Hc.
  destruct (odd_bits p) as [q|q|]; [|done|].
  - exfalso. simpl in Hc. pose proof (pos_count_ones_pos q). lia.
  - by destruct Hf as [_ ->].
Qed.

Lemma odd_bits_pow2 p : odd_bits p = xH -> Npos p = 2 ^ pos_trailing_zeros p.
Proof.
  induction p as [p _|p IH|]; simpl pos_trailing_zeros; intros Ho; try done.
  rewrite N.add_1_l, N.pow_succ_r', <-IH by done. done.
Qed.

Lemma count_ones_pow2 b : count_ones (2 ^ b) = 1.
Proof.
  rewrite <-(N2Nat.id b). induction (N.to_nat b) as [|m IH]; [done|].
  by rewrite pow2_nat_S, count_ones_double.
Qed.

Lemma height_single p : odd_bits p = xH -> height (Pos.to_nat p) = N.to_nat (pos_trailing_zeros p).
Proof.
  intros Ho. unfold height. rewrite positive_nat_N, odd_bits_pow2 by done. by rewrite N.log2_up_pow2 by lia.
Qed.

Lemma height_many p : count_ones (Npos p) <> 1 -> height (Pos.to_nat p) = Pos.size_nat p.
Proof.
  intros Hc. unfold height. rewrite positive_nat_N.
  assert (N.size (Npos p) = N.of_nat (Pos.size_nat p)) as Hs by (simpl; clear; induction p; simpl; lia).
  rewrite N.size_log2 in Hs by done.
  pose proof (N.le_log2_log2_up (Npos p)). pose proof (N.le_log2_up_succ_log2 (Npos p)).
  destruct (N.eq_dec (N.log2 (Npos p)) (N.log2_up (Npos p))) as [He|]; [|lia].
  apply N.log2_log2_up_exact in He as [b Hb]; [|done]. rewrite Hb, count_ones_pow2 in Hc. done.
Qed.

Lemma compute_root_hash_frozen {E} n roots l :
  frozen 0 n (reverse roots) l -> @Acc.compute_root_hash _ E roots n = Ok (merkle_root l).
Proof.
  intros Hf. pose proof (frozen_count _ _ _ _ Hf) as Hc. rewrite length_reverse in Hc.
  pose proof (frozen_length _ _ _ _ Hf) as Hl. rewrite Nat.pow_0_r, Nat.mul_1_r in Hl.
  unfold merkle_root. rewrite Hl. unfold Acc.compute_root_hash.
  destruct n as [|p].
  { destruct Hf as [Hr ->]. apply (f_equal reverse) in Hr. rewrite reverse_involutive in Hr. by subst. }
  simpl frozen in Hf. rewrite positive_N_nat.
  destruct roots as [|h [|h' roots]].
  - exfalso. pose proof (pos_count_ones_pos p). simpl in Hc. lia.
  - apply frozen_single in Hf as [Ho Hr]; [|done]. injection Hr as ->. by rewrite height_single.
  - rewrite height_many by (rewrite <-Hc; simpl; lia). simpl trailing_zeros.
    rewrite shiftr_trailing_zeros. apply frozen_odd_bits in Hf. simpl Nat.add in Hf.
    rewrite <-(subtree_nil (N.to_nat (pos_trailing_zeros p))) at 1.
    rewrite (root_loop_frozen _ _ _ l []); [|done|simpl; lia|right; apply odd_bits_odd].
    by rewrite app_nil_r, <-size_odd_bits.
Qed.

(** ** The accumulator of a list of leaves *)
Definition acc_of (l : list HashValue) (acc : InMemoryAccumulator) : Prop :=
  frozen 0 (num_leaves acc) (reverse (frozen_subtree_roots acc)) l /\ root_hash acc = merkle_root l.

Lemma new_frozen n roots l :
  frozen 0 n (reverse roots) l -> Acc.new roots n = Ok (mkAccumulator roots n (merkle_root l)).
Proof.
  intros Hf. unfold Acc.new. pose proof (frozen_count _ _ _ _ Hf) as Hc. rewrite length_reverse in Hc.
  rewrite Hc, N.eqb_refl. simpl. by rewrite (compute_root_hash_frozen n roots l).
Qed.

Lemma acc_of_length l acc : acc_of l acc -> num_leaves acc = N.of_nat (length l).
Proof. intros [Hf _]. apply frozen_length in Hf. simpl in Hf. lia. Qed.

Lemma acc_of_default {E} : exists acc, @Acc.default _ E = Ok acc /\ acc_of [] acc.
Proof. eexists. split; [done|]. done. Qed.

Lemma append_acc_of {E} acc l leaves :
  acc_of l acc -> N.of_nat (length (l ++ leaves)) <= u64_max ->
  exists acc', @Acc.append _ E acc leaves = Ok acc' /\ acc_of (l ++ leaves) acc'.
Proof.
  intros Ha Hn. pose proof (acc_of_length _ _ Ha) as Hl. rewrite length_app in Hn. destruct Ha as [Hf _].
  destruct (@append_all_frozen E _ _ _ leaves Hf) as (roots & Hr & Hf'); [lia|].
  unfold Acc.append. rewrite Hr. cbn [mbind outcome_bind fst snd].
  rewrite (new_frozen _ _ _ Hf'). eexists. split; [done|]. done.
Qed.

Lemma from_leaves_acc_of {E} leaves :
  N.of_nat (length leaves) <= u64_max ->
  exists acc, @Acc.from_leaves _ E leaves = Ok acc /\ acc_of leaves acc.
Proof.
  intros Hn. destruct (@acc_of_default E) as (acc & Hd & Ha). unfold Acc.from_leaves. rewrite Hd.
  by apply (append_acc_of acc [] leaves).
Qed.

(** The leaves determine the accumulator. *)
Lemma frozen_pos_unique k p rr1 rr2 l : frozen_pos k p rr1 l -> frozen_pos k p rr2 l -> rr1 = rr2.
Proof.
  revert k rr1 rr2 l. induction p as [p IH|p IH|]; intros k rr1 rr2 l; simpl.
  - intros (r & rr & l1 & l2 & -> & -> & Hl & -> & Hf) (r' & rr' & l1' & l2' & -> & He & Hl' & -> & Hf').
    apply app_inj_2 in He as [-> ->]; [|lia]. f_equal. by apply (IH (S k) _ _ l1').
  - apply IH.
  - by intros [_ ->] [_ ->].
Qed.

Lemma acc_of_unique l acc acc' : acc_of l acc -> acc_of l acc' -> acc = acc'.
Proof.
  intros Ha Ha'. pose proof (acc_of_length _ _ Ha) as Hn. pose proof (acc_of_length _ _ Ha') as Hn'.
  destruct acc as [rr n h], acc' as [rr' n' h'], Ha as [Hf Hh], Ha' as [Hf' Hh']; simpl in *.
  subst. f_equal. apply (inj reverse). destruct (N.of_nat (length l)) as [|p].
  - by destruct Hf as [-> _], Hf' as [-> _].
  - by apply (frozen_pos_unique 0 p _ _ l).
Qed.

(** ** Inclusion proofs *)

(** The node at level [j] and index [q] of the tree of the leaves [l]. *)
Definition node (l : list HashValue) (j q : nat) : HashValue :=
  subtree j (take (2 ^ j) (drop (q * 2 ^ j) l)).

Lemma node_split l j q :
  (q * 2 ^ S j < length l)%nat -> node l (S j) q = hash_internal (node l j (2 * q)) (node l j (2 * q + 1)).
Proof.
  intros Hq. unfold node. pose proof (pow2_pos j). rewrite subtree_S.
  - f_equal; f_equal.
    + rewrite take_take, Nat.min_l by (simpl; lia). do 2 f_equal. simpl. lia.
    + rewrite skipn_firstn_comm, drop_drop. f_equal; [simpl; lia|]. f_equal. simpl. lia.
  - intros He%(f_equal length). rewrite length_take, length_drop in He. simpl in *. lia.
Qed.

Lemma node_leaf l q x : l !! q = Some x -> node l 0 q = x.
Proof.
  intros Hl. unfold node. rewrite Nat.pow_0_r, Nat.mul_1_r.
  by rewrite (drop_S l x q Hl).
Qed.

Lemma height_le (l : list HashValue) : (length l <= 2 ^ height (length l))%nat.
Proof.
  unfold height. destruct (decide (length l = 0%nat)) as [->|Hne]; [simpl; lia|].
  pose proof (N.log2_up_spec (N.of_nat (length l))) as Hs.
  destruct (decide (length l = 1%nat)) as [->|Hne1]; [simpl; lia|].
  specialize (Hs ltac:(lia)). destruct Hs as [_ Hs].
  pose proof (Nat2N.inj_pow 2 (N.to_nat (N.log2_up (N.of_nat (length l))))) as Hp.
  rewrite N2Nat.id in Hp. simpl N.of_nat in Hp at 2. lia.
Qed.

Lemma node_root l : node l (height (length l)) 0 = merkle_root l.
Proof. unfold node, merkle_root. simpl. by rewrite take_ge by apply height_le. Qed.

(** The siblings on the way from leaf [i] to a root [h] levels up, bottom first. *)
Definition sibling_index (q : nat) : nat := if Nat.even q then q + 1 else q - 1.
Fixpoint path (l : list HashValue) (j q h : nat) : list HashValue :=
  match h with
  | O => []
  | S h => node l j (sibling_index q) :: path l (S j) (q / 2) h
  end.

Lemma fold_sibling_even x m s :
  fold_sibling (x, N.of_nat (2 * m)) s = (hash_internal x s, N.of_nat m).
Proof.
  unfold fold_sibling. replace (N.of_nat (2 * m)) with (2 * N.of_nat m) by lia.
  rewrite N.mul_comm, N.Div0.mod_mul, N.div_mul by done. done.
Qed.

Lemma fold_sibling_odd x m s :
  fold_sibling (x, N.of_nat (2 * m + 1)) s = (hash_internal s x, N.of_nat m).
Proof.
  unfold fold_sibling. replace (N.of_nat (2 * m + 1)) with (1 + N.of_nat m * 2) by lia.
  rewrite N.Div0.mod_add, N.div_add by done. done.
Qed.

Lemma path_step (m : nat) : (2 * m / 2 = m /\ (2 * m + 1) / 2 = m /\
  sibling_index (2 * m) = 2 * m + 1 /\ sibling_index (2 * m + 1) = 2 * m)%nat.
Proof.
  unfold sibling_index. rewrite Nat.even_add, Nat.even_mul. simpl Nat.even. cbn [orb eqb].
  rewrite (Nat.mul_comm 2 m), Nat.div_mul, Nat.div_add_l by done. simpl. lia.
Qed.

Lemma fold_path l j q h :
  (q * 2 ^ j < length l)%nat ->
  foldl fold_sibling (node l j q, N.of_nat q) (path l j q h) =
    (node l (j + h) (q / 2 ^ h), N.of_nat (q / 2 ^ h)).
Proof.
  revert j q. induction h as [|h IH]; intros j q Hq; [by rewrite Nat.add_0_r, Nat.div_1_r|].
  assert (q / 2 ^ S h = q / 2 / 2 ^ h)%nat as -> by (rewrite Nat.pow_succ_r', Nat.Div0.div_div; done).
  rewrite Nat.add_succ_r. cbn [path foldl].
  destruct (Nat.Even_or_Odd q) as [[m ->]|[m ->]]; destruct (path_step m) as (Hd & Hd' & Hs & Hs').
  - rewrite Hs, Hd, fold_sibling_even, <-node_split by (simpl; lia). rewrite IH; [done|simpl; lia].
  - rewrite Hs', Hd', fold_sibling_odd, <-node_split by (simpl; lia). rewrite IH; [done|simpl; lia].
Qed.

Lemma length_path l j q h : length (path l j q h) = h.
Proof. revert j q. induction h as [|h IH]; intros j q; simpl; by rewrite ?IH. Qed.

Lemma height_max (l : list HashValue) :
  N.of_nat (length l) <= MAX_ACCUMULATOR_LEAVES -> N.of_nat (height (length l)) <= MAX_ACCUMULATOR_PROOF_DEPTH.
Proof.
  intros Hl. unfold height. rewrite N2Nat.id. apply N.log2_up_le_mono in Hl.
  by change (N.log2_up MAX_ACCUMULATOR_LEAVES) with 63 in Hl.
Qed.

(** The siblings on the way from a leaf to the root prove the leaf. *)
Lemma path_verifies l i x :
  l !! i = Some x -> N.of_nat (length l) <= MAX_ACCUMULATOR_LEAVES ->
  AccumulatorProof_verify (mkAccumulatorProof (path l 0 i (height (length l))))
    (merkle_root l) x (N.of_nat i) = Ok tt.
Proof.
  intros Hx Hl. unfold AccumulatorProof_verify. cbn [siblings].
  pose proof (lookup_lt_Some _ _ _ Hx) as Hi. pose proof (height_le l) as Hh.
  rewrite length_path, (proj2 (N.leb_le _ _)) by (by apply height_max). cbn [ensure mbind outcome_bind].
  rewrite <-(node_leaf l i x Hx), fold_path by (rewrite Nat.pow_0_r; lia). cbn [fst].
  rewrite Nat.div_small, Nat.add_0_l, node_root by lia. by rewrite N.eqb_refl.
Qed.

(** The bits of the index above the depth of the proof play no part. *)
Lemma fold_sibling_modulo x i ss :
  (foldl fold_sibling (x, i + 2 ^ N.of_nat (length ss)) ss).1 = (foldl fold_sibling (x, i) ss).1.
Proof.
  revert x i. induction ss as [|s ss IH]; intros x i; [done|]. cbn [foldl length].
  rewrite pow2_nat_S. unfold fold_sibling at 2 4.
  rewrite (N.mul_comm 2), N.Div0.mod_add, N.div_add by done. apply IH.
Qed.

(** An injective node hash leaves one element and one path per root. *)
Lemma fold_path_inv l j q y ss :
  Inj2 (=) (=) (=) hash_internal -> (q * 2 ^ j < length l)%nat ->
  (foldl fold_sibling (y, N.of_nat q) ss).1 = node l (j + length ss) (q / 2 ^ length ss) ->
  y = node l j q /\ ss = path l j q (length ss).
Proof.
  intros Hinj. revert j q y. induction ss as [|s ss IH]; intros j q y Hq.
  { cbn [length foldl path fst]. by rewrite Nat.pow_0_r, Nat.add_0_r, Nat.div_1_r. }
  cbn [length foldl path]. rewrite Nat.pow_succ_r', <-Nat.Div0.div_div, Nat.add_succ_r.
  destruct (Nat.Even_or_Odd q) as [[m ->]|[m ->]]; destruct (path_step m) as (Hd & Hd' & Hs & Hs').
  - rewrite Hs, Hd, fold_sibling_even. intros Hf. apply (IH (S j)) in Hf as [Hy Hss]; [|simpl in *; lia].
    rewrite node_split in Hy by (simpl in *; lia). apply (inj2 hash_internal) in Hy as [-> ->].
    by rewrite <-Hss.
  - rewrite Hs', Hd', fold_sibling_odd. intros Hf. apply (IH (S j)) in Hf as [Hy Hss]; [|simpl in *; lia].
    rewrite node_split in Hy by (simpl in *; lia). apply (inj2 hash_internal) in Hy as [-> ->].
    by rewrite <-Hss.
Qed.

(** ** One set of frozen subtrees per root *)
Lemma root_loop_inv {E} k p rr l s cur :
  Inj2 (=) (=) (=) hash_internal ->
  length l = (Pos.to_nat p * 2 ^ k)%nat -> N.of_nat (length rr) = pos_count_ones p ->
  (length s <= 2 ^ k)%nat -> s <> [] \/ N.odd (Npos p) = true ->
  @Acc.root_loop _ E p rr cur = Ok (subtree (k + Pos.size_nat p) (l ++ s)) ->
  cur = subtree k s /\ frozen_pos k p rr l.
Proof.
  intros Hinj. revert k rr l s cur. induction p as [p IH|p IH|]; intros k rr l s cur Hl Hc Hs Ho; simpl in Hc.
  - destruct rr as [|h rr]; [pose proof (pos_count_ones_pos p); simpl in Hc; lia|].
    rewrite Pos2Nat.inj_xI in Hl. simpl. rewrite Nat.add_succ_r.
    rewrite <-(take_drop (Pos.to_nat p * 2 ^ S k) l) at 1. rewrite <-app_assoc.
    assert (length (drop (Pos.to_nat p * 2 ^ S k) l) = 2 ^ k)%nat as Hd
      by (rewrite length_drop, Hl; simpl; lia).
    intros Hr. apply (IH (S k)) in Hr as [Hh Hf].
    + rewrite subtree_app in Hh by done. apply (inj2 hash_internal) in Hh as [-> ->].
      split; [done|]. eexists _, _, _, _. split_and!; try done. by rewrite take_drop.
    + rewrite length_take, Hl. simpl. lia.
    + simpl in Hc. lia.
    + rewrite length_app, Hd. simpl. lia.
    + left. pose proof (pow2_pos k). destruct (drop _ l); simpl in *; [lia|done].
  - destruct Ho as [Hne|]; [|done]. simpl. rewrite Nat.add_succ_r. intros Hr.
    rewrite Pos2Nat.inj_xO in Hl.
    apply (IH (S k)) in Hr as [Hh Hf]; [|simpl; lia|done|simpl; lia|by left].
    rewrite subtree_left in Hh by done. by apply (inj2 hash_internal) in Hh as [-> _].
  - destruct rr as [|h [|h' rr]]; [simpl in Hc; lia| |simpl in Hc; lia].
    cbn [Acc.root_loop Pos.size_nat]. rewrite Nat.add_1_r. intros Hr.
    rewrite Nat.mul_1_l in Hl. rewrite subtree_app in Hr by done. injection Hr as Hr.
    by apply (inj2 hash_internal) in Hr as [-> ->].
Qed.

Lemma compute_root_hash_inv {E} n roots l :
  Inj2 (=) (=) (=) hash_internal ->
  n = N.of_nat (length l) -> N.of_nat (length roots) = count_ones n ->
  @Acc.compute_root_hash _ E roots n = Ok (merkle_root l) -> frozen 0 n (reverse roots) l.
Proof.
  intros Hinj Hn Hc. unfold merkle_root, Acc.compute_root_hash.
  destruct n as [|p]; [destruct l, roots; done|].
  assert (length l = Pos.to_nat p) as Hl by lia. rewrite Hl. simpl frozen. rewrite frozen_odd_bits.
  simpl Nat.add. destruct roots as [|h [|h' roots]].
  - exfalso. pose proof (pos_count_ones_pos p). simpl in Hc. lia.
  - assert (odd_bits p = xH) as Ho.
    { pose proof (count_odd_bits p) as Hb. simpl in Hc. rewrite <-Hc in Hb. pose proof (odd_bits_odd p).
      destruct (odd_bits p) as [q| |]; [|done..]. simpl in Hb. pose proof (pos_count_ones_pos q). lia. }
    pose proof (to_nat_odd_bits p) as Hp. rewrite height_single, Ho in * by done. intros [= ->].
    rewrite Nat.mul_1_l in Hp. simpl. by rewrite Hl.
  - rewrite height_many by (rewrite <-Hc; simpl; lia). simpl trailing_zeros.
    rewrite shiftr_trailing_zeros, size_odd_bits. intros Hr. rewrite <-(app_nil_r l) in Hr.
    apply root_loop_inv in Hr; [by destruct Hr|done|..].
    + rewrite Hl. apply to_nat_odd_bits.
    + by rewrite length_reverse, Hc, count_odd_bits.
    + simpl. lia.
    + right. apply odd_bits_odd.
Qed.

(** ** Appending whole subtrees *)

(** The hash of the node at a position of the tree of [l]. *)
Definition node_at (l : list HashValue) (p : Position) : HashValue :=
  node l (N.to_nat (Position.level p)) (N.to_nat (Position.pos_counting_from_left p)).

Lemma pow2_to_nat k : N.to_nat (2 ^ k) = (2 ^ N.to_nat k)%nat.
Proof. by rewrite N2Nat.inj_pow. Qed.

(** The node over the leaves that follow [l1]. *)
Lemma node_at_middle l1 l2 l3 k q :
  N.of_nat (length l1) = q * 2 ^ k -> N.of_nat (length l2) = 2 ^ k ->
  N.of_nat (length (l1 ++ l2)) <= 2 ^ 63 ->
  node_at (l1 ++ l2 ++ l3) (inorder k q) = subtree (N.to_nat k) l2.
Proof.
  intros H1 H2 Hle. rewrite length_app in Hle.
  assert (k < 64) as Hk.
  { apply (N.pow_lt_mono_r_iff 2); [done|]. change (2 ^ 64) with (2 * 2 ^ 63). lia. }
  assert (fits k q) as Hf.
  { split; [done|]. destruct (N.eq_dec k 63) as [->|Hk63]; [change (2 ^ (63 - 63)) with 1; lia|].
    apply (N.mul_lt_mono_pos_r (2 ^ k)); [apply N.neq_0_lt_0, N.pow_nonzero; done|].
    rewrite <-N.pow_add_r, N.sub_add by lia. pose proof (N.pow_nonzero 2 k ltac:(done)). lia. }
  unfold node_at, node. rewrite level_inorder, pos_counting_from_left_inorder by done.
  rewrite <-pow2_to_nat, <-N2Nat.inj_mul, <-H1, Nat2N.id, drop_app_length.
  rewrite take_app_length'; [done|lia].
Qed.

Lemma frozen_level k (j : nat) q rr l : frozen k (q * 2 ^ N.of_nat j) rr l <-> frozen (k + j) q rr l.
Proof.
  revert k. induction j as [|j IH]; intros k; [by rewrite N.mul_1_r, Nat.add_0_r|].
  rewrite pow2_nat_S. replace (q * (2 * 2 ^ N.of_nat j)) with (N.double (q * 2 ^ N.of_nat j))
    by (rewrite N.double_spec; lia).
  rewrite frozen_double, IH. by rewrite Nat.add_succ_r.
Qed.

(** A smaller subtree goes to the right of the others. *)
Lemma frozen_push k q rr l s :
  frozen 0 (q * 2 ^ (k + 1)) rr l -> N.of_nat (length s) = 2 ^ k ->
  frozen 0 (q * 2 ^ (k + 1) + 2 ^ k) (subtree (N.to_nat k) s :: rr) (l ++ s).
Proof.
  intros Hf Hs. rewrite <-(N2Nat.id k) in Hf |- *. rewrite N2Nat.id in Hf |- *.
  replace (q * 2 ^ (k + 1) + 2 ^ k) with (N.succ_double q * 2 ^ N.of_nat (N.to_nat k))
    by (rewrite N2Nat.id, N.add_1_r, N.pow_succ_r', N.succ_double_spec; lia).
  rewrite frozen_level. simpl. apply frozen_succ_double.
  eexists _, _, _, _. split_and!; [done|done|rewrite <-pow2_to_nat; lia|done|].
  replace (k + 1) with (N.of_nat (S (N.to_nat k))) in Hf by lia. by rewrite frozen_level in Hf.
Qed.

Lemma split_at (l : list HashValue) r x :
  N.of_nat (length l) = r -> x <= r ->
  exists a b, l = a ++ b /\ N.of_nat (length a) = x /\ N.of_nat (length b) = r - x.
Proof.
  intros Hl Hx. exists (take (N.to_nat x) l), (drop (N.to_nat x) l).
  rewrite take_drop, length_take, length_drop. split; [done|]. lia.
Qed.

Lemma growth_down_frozen c r ps rr l l' m q :
  growth c r ps -> c = q * 2 ^ m -> r < 2 ^ m -> frozen 0 c rr l -> N.of_nat (length l') = r ->
  c + r <= 2 ^ 63 -> frozen 0 (c + r) (reverse (node_at (l ++ l') <$> ps) ++ rr) (l ++ l').
Proof.
  intros Hg. revert rr l l' m q.
  induction Hg as [c|t q c r ps Hc Hr _ _|k q c r ps Hc Hr Hr' _ IH]; intros rr l l' m q' Hq Hm Hf Hl Hle.
  - destruct l'; [|simpl in Hl; lia]. by rewrite N.add_0_r, app_nil_r.
  - exfalso. pose proof (level_divides q' q c m t Hq Hc) as Hmt.
    pose proof (N.pow_le_mono_r 2 m t ltac:(done) Hmt). lia.
  - pose proof (frozen_length _ _ _ _ Hf) as Hlen. simpl in Hlen.
    assert (2 ^ (k + 1) = 2 * 2 ^ k) as Hk by (rewrite N.add_1_r; apply N.pow_succ_r').
    destruct (split_at l' r (2 ^ k) Hl Hr) as (a & b & -> & Ha & Hb).
    rewrite fmap_cons, reverse_cons, <-app_assoc. cbn [app].
    rewrite node_at_middle; [|lia|done|rewrite length_app; lia].
    replace (c + r) with (c + 2 ^ k + (r - 2 ^ k)) by lia. rewrite app_assoc.
    apply (IH _ _ _ k (2 * q + 1)); [lia|lia| |done|lia].
    rewrite Hc in *. by apply frozen_push.
Qed.

(** The carry of [append_subtrees] is the merge of [append_one], [k] levels up. *)
Lemma testbit_parts hi lo k : lo < 2 ^ k -> N.testbit (hi * 2 ^ k + lo) k = N.odd hi.
Proof.
  intros Hlo. transitivity (N.testbit (N.shiftr (hi * 2 ^ k + lo) k) 0).
  - rewrite N.shiftr_spec'. by rewrite N.add_0_l.
  - rewrite N.shiftr_div_pow2, N.div_add_l, N.div_small, N.add_0_r by (done || by apply N.pow_nonzero).
    apply N.bit0_odd.
Qed.

Lemma carry_stop fuel roots hi lo k h :
  lo < 2 ^ k -> N.odd hi = false ->
  Acc.carry fuel roots (hi * 2 ^ k + lo) (2 ^ k) h = Ok (roots, 2 ^ k, h).
Proof.
  intros Hlo Ho. destruct fuel; simpl; by rewrite land_pow2_testbit, testbit_parts, Ho by done.
Qed.

Lemma carry_step fuel roots rr h hi lo k cur :
  lo < 2 ^ k -> N.odd hi = true -> k < 63 -> reverse roots = h :: rr ->
  Acc.carry (S fuel) roots (hi * 2 ^ k + lo) (2 ^ k) cur =
  Acc.carry fuel (reverse rr) (hi * 2 ^ k + lo) (2 ^ (k + 1)) (hash_internal h cur).
Proof.
  intros Hlo Ho Hk Hr. cbn [Acc.carry]. rewrite land_pow2_testbit, testbit_parts, Ho by done.
  unfold vec_pop. rewrite Hr. simpl. by rewrite shl64_pow2.
Qed.

Lemma carry_frozen (k : nat) p lo roots l s fuel :
  frozen_pos k p (reverse roots) l -> length s = (2 ^ k)%nat -> lo < 2 ^ N.of_nat k ->
  (k + Pos.size_nat p < 64)%nat -> (Pos.size_nat p <= fuel)%nat ->
  exists roots' h, Acc.carry fuel roots (Npos p * 2 ^ N.of_nat k + lo) (2 ^ N.of_nat k) (subtree k s) =
      Ok (roots', 2 ^ N.of_nat (k + pos_trailing_ones p), h) /\
    frozen_pos k (Pos.succ p) (h :: reverse roots') (l ++ s).
Proof.
  revert k lo roots l s fuel. induction p as [p IH|p IH|]; intros k lo roots l s fuel Hf Hs Hlo Hk Hfu;
    simpl pos_trailing_ones; simpl in Hk, Hfu.
  - destruct fuel as [|fuel]; [lia|].
    destruct Hf as (r & rr & l1 & l2 & Hr & -> & Hl & -> & Hf).
    rewrite (carry_step _ _ rr (subtree k l2)), <-subtree_app by (done || lia).
    replace (N.of_nat k + 1) with (N.of_nat (S k)) by lia.
    replace (N.pos p~1 * 2 ^ N.of_nat k + lo) with (N.pos p * 2 ^ N.of_nat (S k) + (2 ^ N.of_nat k + lo))
      by (rewrite pow2_nat_S; lia).
    destruct (IH (S k) (2 ^ N.of_nat k + lo) (reverse rr) l1 (l2 ++ s) fuel) as (roots' & h & Hc & Hf').
    + by rewrite reverse_involutive.
    + rewrite length_app. simpl. lia.
    + rewrite pow2_nat_S. lia.
    + lia.
    + lia.
    + exists roots', h. rewrite Hc, Nat.add_succ_r. split; [done|]. by rewrite <-app_assoc.
  - rewrite carry_stop, Nat.add_0_r by done. eexists _, _. split; [done|]. by eexists _, _, _, _.
  - destruct fuel as [|fuel]; [lia|]. destruct Hf as [Hl Hr].
    rewrite (carry_step _ _ [] (subtree k l)), <-subtree_app by (done || lia).
    replace (N.of_nat k + 1) with (N.of_nat (S k)) by lia.
    replace (1 * 2 ^ N.of_nat k + lo) with (0 * 2 ^ N.of_nat (S k) + (2 ^ N.of_nat k + lo)) by lia.
    rewrite carry_stop by (done || rewrite pow2_nat_S; lia).
    exists [], (subtree (S k) (l ++ s)). rewrite Nat.add_1_r. split; [done|]. simpl.
    rewrite length_app. split; [lia|done].
Qed.

Lemma trailing_zeros_succ t m :
  m < u64_max -> trailing_zeros (2 ^ t * m + 2 ^ t) = t + N.of_nat (trailing_ones m).
Proof.
  intros Hm. destruct (inorder_surj m Hm) as (L & p & -> & Hf).
  rewrite <-(N2Nat.id L) at 2. rewrite trailing_ones_inorder, N2Nat.id.
  rewrite <-(trailing_zeros_odd (t + L) p). f_equal. unfold inorder.
  rewrite !N.pow_add_r, N.pow_1_r. pose proof (N.pow_nonzero 2 L ltac:(done)). nia.
Qed.

Lemma trailing_zeros_up t q c :
  c = 2 ^ t * (2 * q + 1) -> c + 2 ^ t <= 2 ^ 63 ->
  trailing_zeros (c + 2 ^ t) = t + N.of_nat (trailing_ones (2 * q + 1)) /\ t < trailing_zeros (c + 2 ^ t).
Proof.
  intros -> Hle. pose proof (N.pow_nonzero 2 t ltac:(done)).
  rewrite trailing_zeros_succ by (unfold u64_max; nia). split; [done|].
  rewrite trailing_ones_double1. lia.
Qed.

Lemma size_nat_le p m : Npos p < 2 ^ m -> (Pos.size_nat p <= N.to_nat m)%nat.
Proof.
  intros Hp. assert (N.size (Npos p) = N.of_nat (Pos.size_nat p)) as Hs by (simpl; clear; induction p; simpl; lia).
  rewrite N.size_log2 in Hs by done. pose proof (proj1 (N.log2_lt_pow2 (Npos p) m eq_refl) Hp). lia.
Qed.

(** One round of the outer loop, at a number of leaves with lowest bit [t]. *)
Lemma carry_up t q c roots l a :
  c = 2 ^ t * (2 * q + 1) -> c + 2 ^ t <= 2 ^ 63 -> frozen 0 c (reverse roots) l ->
  N.of_nat (length a) = 2 ^ t ->
  exists roots' h, Acc.carry 64 roots c (2 ^ t) (subtree (N.to_nat t) a) =
      Ok (roots', 2 ^ trailing_zeros (c + 2 ^ t), h) /\
    frozen 0 (c + 2 ^ t) (h :: reverse roots') (l ++ a).
Proof.
  intros Hc Hle Hf Ha. pose proof (N.pow_nonzero 2 t ltac:(done)) as Ht0.
  assert (t < 63) as Ht by (apply (N.pow_lt_mono_r_iff 2); [done|]; nia).
  destruct (2 * q + 1) as [|p] eqn:Hp; [lia|].
  replace c with (Npos p * 2 ^ N.of_nat (N.to_nat t)) in Hf by (rewrite N2Nat.id; lia).
  apply frozen_level in Hf. simpl Nat.add in Hf.
  assert (Npos p < 2 ^ (63 - t)) as Hpt.
  { apply (N.mul_lt_mono_pos_r (2 ^ t)); [lia|]. rewrite <-N.pow_add_r, N.sub_add by lia. lia. }
  apply size_nat_le in Hpt.
  destruct (carry_frozen (N.to_nat t) p 0 roots l a 64) as (roots' & h & Hcar & Hf').
  - done.
  - rewrite <-pow2_to_nat. lia.
  - rewrite N2Nat.id. lia.
  - lia.
  - lia.
  - exists roots', h. rewrite Nat2N.inj_add, N2Nat.id, N.add_0_r in Hcar.
    rewrite (proj1 (trailing_zeros_up t q c ltac:(congruence) Hle)), Hp.
    replace c with (Npos p * 2 ^ t) by lia. split; [exact Hcar|].
    replace (Npos p * 2 ^ t + 2 ^ t) with (Npos (Pos.succ p) * 2 ^ N.of_nat (N.to_nat t))
      by (rewrite N2Nat.id; lia).
    by apply frozen_level.
Qed.

Lemma combine_frozen c r ps :
  growth c r ps -> forall roots l l' fuel,
  0 < c -> c + r <= 2 ^ 63 -> frozen 0 c (reverse roots) l -> N.of_nat (length l') = r ->
  (64 <= N.to_nat (trailing_zeros c) + fuel)%nat ->
  exists roots' c' r' iter,
    Acc.combine fuel roots c r (2 ^ trailing_zeros c) (node_at (l ++ l') <$> ps) =
      Ok (roots', c', r', iter) /\ c' + r' = c + r /\
    frozen 0 (c + r) (reverse (roots' ++ iter)) (l ++ l').
Proof.
  induction 1 as [c|t q c r ps Hc Hr Hg IH|k q c r ps Hc Hr Hr' Hg _];
    intros roots l l' fuel H0 Hle Hf Hl Hfu.
  - exists roots, c, 0, []. destruct l'; [|simpl in Hl; lia]. rewrite !app_nil_r, N.add_0_r.
    split_and!; [|done..]. destruct fuel; simpl; rewrite (proj2 (N.leb_gt _ _)); try done;
      apply N.neq_0_lt_0, N.pow_nonzero; done.
  - destruct (split_at l' r (2 ^ t) Hl Hr) as (a & b & -> & Ha & Hb).
    pose proof (frozen_length _ _ _ _ Hf) as Hlen. simpl in Hlen.
    destruct (carry_up t q c roots l a Hc) as (roots' & h & Hcar & Hf'); [lia|done..|].
    assert (trailing_zeros c = t) as Htz by (rewrite Hc; apply trailing_zeros_odd).
    assert (t < 63) as Ht63.
    { apply (N.pow_lt_mono_r_iff 2); [done|]. pose proof (N.pow_nonzero 2 t ltac:(done)). nia. }
    destruct fuel as [|fuel]; [lia|].
    destruct (IH (roots' ++ [h]) (l ++ a) b fuel) as (roots2 & c2 & r2 & iter & Hcomb & Hsum & Hf2).
    + lia.
    + lia.
    + by rewrite reverse_app.
    + done.
    + pose proof (trailing_zeros_up t q c Hc). lia.
    + exists roots2, c2, r2, iter. rewrite <-app_assoc in Hcomb, Hf2.
      replace (c + 2 ^ t + (r - 2 ^ t)) with (c + r) in Hsum, Hf2 by lia.
      split_and!; [|done..]. rewrite fmap_cons, node_at_middle by (done || rewrite ?length_app; lia).
      cbn [Acc.combine]. rewrite Htz, (proj2 (N.leb_le _ _) Hr). cbn [negb].
      rewrite Hcar. cbn [mbind outcome_bind].
      rewrite (proj2 (add64_Ok _ _ (c + 2 ^ t))) by (unfold u64_max; lia). cbn [mbind outcome_bind].
      by rewrite (proj2 (sub64_Ok _ _ (r - 2 ^ t))).
  - assert (2 ^ (k + 1) <= 2 ^ trailing_zeros c) as Ht.
    { destruct (trailing_zeros_parts c) as (t & q' & -> & Hp & _ & _); [done|change (2 ^ 64) with (2 * 2 ^ 63); lia|].
      apply N.pow_le_mono_r; [done|]. by apply (level_divides q q' c). }
    exists roots, c, r, (node_at (l ++ l') <$> inorder k (2 * q) :: ps).
    split_and!; [|done|].
    + destruct fuel; simpl; rewrite (proj2 (N.leb_gt _ _)); done || lia.
    + rewrite reverse_app. eapply growth_down_frozen; [by apply growth_down|done..].
Qed.

Lemma append_subtrees_acc_of acc l l' ps :
  acc_of l acc -> N.of_nat (length (l ++ l')) <= MAX_ACCUMULATOR_LEAVES ->
  growth (N.of_nat (length l)) (N.of_nat (length l')) ps ->
  exists acc', Acc.append_subtrees acc (node_at (l ++ l') <$> ps) (N.of_nat (length l')) = Ok acc' /\
    acc_of (l ++ l') acc'.
Proof.
  intros Ha Hle Hg. pose proof (acc_of_length _ _ Ha) as Hn. rewrite length_app in Hle.
  change MAX_ACCUMULATOR_LEAVES with (2 ^ 63) in Hle.
  unfold Acc.append_subtrees. change MAX_ACCUMULATOR_LEAVES with (2 ^ 63). rewrite Hn.
  rewrite (proj2 (sub64_Ok _ _ (2 ^ 63 - N.of_nat (length l)))) by lia. cbn [mbind outcome_bind].
  rewrite (proj2 (N.leb_le _ _)) by lia. cbn [ensure mbind outcome_bind].
  destruct Ha as [Hf _]. rewrite Hn in Hf. destruct (N.eqb_spec (N.of_nat (length l)) 0) as [Hz|Hz].
  - destruct l; [|simpl in Hz; lia]. cbn [length app] in *.
    pose proof (growth_down_frozen _ _ _ [] [] l' 64 0 Hg eq_refl) as Hf'. rewrite app_nil_r, N.add_0_l in Hf'.
    erewrite new_frozen by (apply Hf'; (done || lia)). eexists. split; [done|]. split; [|done].
    apply Hf'; done || lia.
  - destruct (combine_frozen _ _ _ Hg (frozen_subtree_roots acc) l l' 64)
      as (roots & c & r & iter & Hc & Hsum & Hf'); [lia|lia|done|done|lia|].
    destruct (trailing_zeros_parts (N.of_nat (length l))) as (t & q & Ht & _ & _ & Hs);
      [lia|change (2 ^ 64) with (2 * 2 ^ 63); lia|].
    rewrite Ht, Hs. rewrite Ht in Hc. rewrite Hc. cbn [mbind outcome_bind].
    rewrite (proj2 (add64_Ok _ _ (c + r))) by (unfold u64_max; lia). cbn [mbind outcome_bind].
    rewrite Hsum. rewrite (new_frozen _ _ _ Hf'). eexists. split; [done|]. done.
Qed.

(** ** Consistency proofs bind the leaves *)
Lemma split_half k (l : list HashValue) :
  length l = (2 ^ S k)%nat ->
  exists a b, l = a ++ b /\ length a = (2 ^ k)%nat /\ length b = (2 ^ k)%nat.
Proof.
  intros Hl. simpl in Hl. exists (take (2 ^ k) l), (drop (2 ^ k) l).
  rewrite take_drop, length_take, length_drop. split; [done|]. lia.
Qed.

Section binding.
Context (hash_inj : Inj2 (=) (=) (=) hash_internal).

Lemma subtree_inj k l1 l2 :
  length l1 = (2 ^ k)%nat -> length l2 = (2 ^ k)%nat -> subtree k l1 = subtree k l2 -> l1 = l2.
Proof.
  revert l1 l2. induction k as [|k IH]; intros l1 l2 H1 H2 He.
  { destruct l1 as [|x [|]], l2 as [|y [|]]; simpl in *; try lia. by subst. }
  destruct (split_half k l1 H1) as (a1 & b1 & -> & Ha1 & Hb1).
  destruct (split_half k l2 H2) as (a2 & b2 & -> & Ha2 & Hb2).
  rewrite !subtree_app in He by done. apply (inj2 hash_internal) in He as [Ht Hd].
  f_equal; by apply IH.
Qed.

Lemma frozen_pos_inj k p rr l l' : frozen_pos k p rr l -> frozen_pos k p rr l' -> l = l'.
Proof.
  revert k rr l l'. induction p as [p IH|p IH|]; intros k rr l l'; simpl.
  - intros (r & rr1 & l1 & l2 & -> & -> & Hl & -> & Hf) (r' & rr1' & l1' & l2' & Hr & -> & Hl' & -> & Hf').
    injection Hr as Hs ->. f_equal; [by apply (IH (S k) rr1')|by apply (subtree_inj k)].
  - apply IH.
  - intros [Hl ->] [Hl' Hr]. injection Hr as Hs. by apply (subtree_inj k).
Qed.

Lemma frozen_inj k n rr l l' : frozen k n rr l -> frozen k n rr l' -> l = l'.
Proof. destruct n; [by intros [_ ->] [_ ->]|]. apply frozen_pos_inj. Qed.

(** What was merged comes apart in one way. *)
Lemma merge_inv {E} k n x rr rr' L :
  @merge_rev E (trailing_ones n) (x :: rr) = Ok rr' -> frozen k (n + 1) rr' L ->
  exists l l0, L = l ++ l0 /\ frozen k n rr l /\ length l0 = (2 ^ k)%nat /\ x = subtree k l0.
Proof.
  destruct n as [|n].
  { simpl. intros [= <-] [Hl Hr]. injection Hr as -> ->. by exists [], L. }
  revert k x rr rr' L. induction n as [n IH|n IH|]; intros k x rr rr' L;
    cbn [trailing_ones pos_trailing_ones merge_rev].
  - destruct rr as [|r rr]; [done|]. intros Hm Hf.
    destruct (IH (S k) _ _ _ L Hm) as (l & l0 & -> & Hfl & Hl0 & Hx);
      [simpl; rewrite Pos.add_1_r; done|].
    destruct (split_half k l0 Hl0) as (a & b & -> & Ha & Hb). rewrite subtree_app in Hx by done.
    apply (inj2 hash_internal) in Hx as [-> ->].
    exists (l ++ a), b. rewrite app_assoc. split_and!; [done| |done..]. by eexists _, _, _, _.
  - intros [= <-] (r & rr1 & l1 & l2 & Hr & -> & Hl & -> & Hf). injection Hr as -> ->.
    by exists l1, l2.
  - destruct rr as [|r rr]; [done|]. intros [= <-] [Hl Hr].
    destruct (split_half k L Hl) as (a & b & -> & Ha & Hb).
    rewrite subtree_app in Hr by done. injection Hr as Hx ->.
    apply (inj2 hash_internal) in Hx as [-> ->]. by exists a, b.
Qed.
End binding.

(** Below a multiple of [2 ^ t], the subtrees of the multiple come first. *)
Lemma frozen_split (t : nat) k q r rr L :
  r < 2 ^ N.of_nat t -> frozen k (q * 2 ^ N.of_nat t + r) rr L ->
  exists rr1 rr2 l l', rr = rr1 ++ rr2 /\ L = l ++ l' /\ frozen k (q * 2 ^ N.of_nat t) rr2 l.
Proof.
  revert k r rr L. induction t as [|t IH]; intros k r rr L Hr Hf.
  { change (2 ^ N.of_nat 0) with 1 in *. assert (r = 0) as -> by lia. rewrite N.add_0_r in Hf.
    exists [], rr, L, []. by rewrite app_nil_r. }
  rewrite pow2_nat_S in *.
  replace (q * (2 * 2 ^ N.of_nat t)) with (N.double (q * 2 ^ N.of_nat t)) in * by (rewrite N.double_spec; lia).
  destruct (N.Even_or_Odd r) as [[r' ->]|[r' ->]].
  - replace (N.double (q * 2 ^ N.of_nat t) + 2 * r') with (N.double (q * 2 ^ N.of_nat t + r')) in Hf
      by (rewrite !N.double_spec; lia).
    apply frozen_double, IH in Hf as (rr1 & rr2 & l & l' & -> & -> & Hf); [|lia].
    exists rr1, rr2, l, l'. by rewrite frozen_double.
  - replace (N.double (q * 2 ^ N.of_nat t) + (2 * r' + 1)) with (N.succ_double (q * 2 ^ N.of_nat t + r')) in Hf
      by (rewrite N.double_spec, N.succ_double_spec; lia).
    apply frozen_succ_double in Hf as (x & rr0 & l1 & l2 & -> & -> & _ & _ & Hf).
    apply IH in Hf as (rr1 & rr2 & l & l' & -> & -> & Hf); [|lia].
    exists (x :: rr1), rr2, l, (l' ++ l2). by rewrite frozen_double, app_assoc.
Qed.

Lemma carry_pops fuel roots hi lo k x res :
  Acc.carry fuel roots (hi * 2 ^ k + lo) (2 ^ k) x = Ok res -> lo < 2 ^ k -> N.odd hi = true ->
  exists fuel' r rr, fuel = S fuel' /\ reverse roots = r :: rr.
Proof.
  intros Hc Hlo Ho. destruct fuel as [|fuel]; cbn [Acc.carry] in Hc;
    rewrite land_pow2_testbit, testbit_parts, Ho in Hc by done; [done|].
  unfold vec_pop in Hc. destruct (reverse roots) as [|r rr]; [done|]. by exists fuel, r, rr.
Qed.

Lemma carry_merge fuel (k : nat) p lo roots x roots' m h :
  (k + Pos.size_nat p < 64)%nat -> lo < 2 ^ N.of_nat k ->
  Acc.carry fuel roots (Npos p * 2 ^ N.of_nat k + lo) (2 ^ N.of_nat k) x = Ok (roots', m, h) ->
  m = 2 ^ N.of_nat (k + pos_trailing_ones p) /\
  @merge_rev AnyError (pos_trailing_ones p) (x :: reverse roots) = Ok (h :: reverse roots').
Proof.
  revert fuel k lo roots x. induction p as [p IH|p IH|]; intros fuel k lo roots x Hk Hlo Hc;
    cbn [pos_trailing_ones merge_rev]; simpl in Hk.
  - destruct (carry_pops _ _ _ _ _ _ _ Hc Hlo eq_refl) as (fuel' & r & rr & -> & Hr).
    rewrite Hr, (carry_step _ _ rr r) in * by (done || lia).
    replace (N.of_nat k + 1) with (N.of_nat (S k)) in Hc by lia.
    replace (N.pos p~1 * 2 ^ N.of_nat k + lo) with (N.pos p * 2 ^ N.of_nat (S k) + (2 ^ N.of_nat k + lo)) in Hc
      by (rewrite pow2_nat_S; lia).
    apply IH in Hc as [Hm Hrev]; [|lia|rewrite pow2_nat_S; lia].
    rewrite reverse_involutive in Hrev. by rewrite Nat.add_succ_r.
  - rewrite carry_stop in Hc by done. injection Hc as <- <- <-. by rewrite Nat.add_0_r.
  - destruct (carry_pops _ _ _ _ _ _ _ Hc Hlo eq_refl) as (fuel' & r & rr & -> & Hr).
    rewrite Hr, (carry_step _ _ rr r) in * by (done || lia).
    replace (N.of_nat k + 1) with (N.of_nat (S k)) in Hc by lia.
    replace (1 * 2 ^ N.of_nat k + lo) with (0 * 2 ^ N.of_nat (S k) + (2 ^ N.of_nat k + lo)) in Hc by lia.
    rewrite carry_stop in Hc by (done || rewrite pow2_nat_S; lia). injection Hc as <- <- <-.
    by rewrite reverse_involutive, Nat.add_1_r.
Qed.

Lemma merge_rev_length {E} n rr rr' :
  @merge_rev E n rr = Ok rr' -> length rr = (length rr' + n)%nat.
Proof.
  revert rr. induction n as [|n IH]; intros rr; simpl; [intros [= ->]; lia|].
  destruct rr as [|x [|y rr]]; [done..|]. intros Hm%IH. simpl in *. lia.
Qed.

Lemma count_ones_succ n : count_ones (n + 1) + N.of_nat (trailing_ones n) = count_ones n + 1.
Proof.
  destruct n as [|p]; [done|]. simpl. rewrite Pos.add_1_r.
  induction p as [p IH|p IH|]; simpl in *; lia.
Qed.

Lemma count_ones_shift m (t : nat) : count_ones (m * 2 ^ N.of_nat t) = count_ones m.
Proof.
  induction t as [|t IH]; [by rewrite N.mul_1_r|].
  rewrite pow2_nat_S. replace (m * (2 * 2 ^ N.of_nat t)) with (2 * (m * 2 ^ N.of_nat t)) by lia.
  by rewrite count_ones_double.
Qed.

Section combine_binding.
Context (hash_inj : Inj2 (=) (=) (=) hash_internal).

(** An accumulator with the root of [L] has the frozen subtrees of [L]. *)
Lemma new_inv roots n acc L :
  Acc.new roots n = Ok acc -> root_hash acc = merkle_root L -> n = N.of_nat (length L) ->
  frozen_subtree_roots acc = roots /\ num_leaves acc = n /\ acc_of L acc.
Proof.
  unfold Acc.new. intros Hnew Hroot Hn. apply bind_Ok in Hnew as (? & Hc%ensure_Ok & Hnew).
  apply N.eqb_eq in Hc. apply bind_Ok in Hnew as (h & Hh & Hnew). injection Hnew as <-.
  cbn [root_hash] in Hroot. rewrite Hroot in Hh. split_and!; [done..|].
  split; [|done]. by apply (compute_root_hash_inv (E := AnyError)).
Qed.

(** One round of the outer loop, taken back. *)
Lemma carry_up_inv t q c roots x roots' m h :
  c = 2 ^ t * (2 * q + 1) -> c + 2 ^ t <= 2 ^ 63 -> N.of_nat (length roots) = count_ones c ->
  Acc.carry 64 roots c (2 ^ t) x = Ok (roots', m, h) ->
  m = 2 ^ trailing_zeros (c + 2 ^ t) /\
  N.of_nat (length (roots' ++ [h])) = count_ones (c + 2 ^ t) /\
  (forall L, frozen 0 (c + 2 ^ t) (reverse (roots' ++ [h])) L ->
   exists l l', L = l ++ l' /\ frozen 0 c (reverse roots) l).
Proof.
  intros Hc Hle Hcount Hcar. pose proof (N.pow_nonzero 2 t ltac:(done)) as Ht0.
  assert (t < 63) as Ht by (apply (N.pow_lt_mono_r_iff 2); [done|]; nia).
  pose proof (proj1 (trailing_zeros_up t q c Hc Hle)) as Htz.
  destruct (2 * q + 1) as [|p] eqn:Hp; [lia|].
  assert (Npos p < 2 ^ (63 - t)) as Hpt.
  { apply (N.mul_lt_mono_pos_r (2 ^ t)); [lia|]. rewrite <-N.pow_add_r, N.sub_add by lia. lia. }
  apply size_nat_le in Hpt.
  assert (c = Npos p * 2 ^ N.of_nat (N.to_nat t)) as Hc' by (rewrite N2Nat.id; lia).
  assert (c + 2 ^ t = (Npos p + 1) * 2 ^ N.of_nat (N.to_nat t)) as Hcs by (rewrite N2Nat.id; lia).
  assert (Acc.carry 64 roots (Npos p * 2 ^ N.of_nat (N.to_nat t) + 0) (2 ^ N.of_nat (N.to_nat t)) x =
    Ok (roots', m, h)) as Hcar' by (by rewrite N.add_0_r, <-Hc', N2Nat.id).
  apply carry_merge in Hcar' as [Hm Hrev]; [|lia|rewrite N2Nat.id; lia].
  rewrite reverse_app. split_and!.
  - rewrite Hm, Htz. f_equal. simpl trailing_ones. lia.
  - apply merge_rev_length in Hrev. pose proof (count_ones_succ (Npos p)) as Hs.
    rewrite Hcs, count_ones_shift. rewrite Hc', count_ones_shift in Hcount.
    rewrite length_app. cbn [length] in *. rewrite !length_reverse in Hrev. simpl trailing_ones in Hs. lia.
  - intros L. rewrite Hcs. intros Hf%frozen_level.
    destruct (merge_inv hash_inj (0 + N.to_nat t) (Npos p) x (reverse roots) _ L Hrev Hf)
      as (l & l0 & -> & Hfl & _ & _).
    exists l, l0. split; [done|]. rewrite Hc'. by apply frozen_level.
Qed.

Lemma combine_stop_inv c r roots iter L :
  0 < c -> c + r <= 2 ^ 63 -> N.of_nat (length roots) = count_ones c -> r < 2 ^ trailing_zeros c ->
  frozen 0 (c + r) (reverse (roots ++ iter)) L ->
  exists l l', L = l ++ l' /\ frozen 0 c (reverse roots) l.
Proof.
  intros H0 Hle Hcount Hr Hf.
  destruct (trailing_zeros_parts c) as (t & q & Ht & Hp & _ & _); [done|change (2 ^ 64) with (2 * 2 ^ 63); lia|].
  rewrite Ht in Hr. rewrite <-(N2Nat.id t) in Hr.
  assert (c = (2 * q + 1) * 2 ^ N.of_nat (N.to_nat t)) as Hc by (rewrite N2Nat.id; lia).
  rewrite Hc in Hf. apply frozen_split in Hf as (rr1 & rr2 & l & l' & Hrr & -> & Hf); [|done].
  rewrite <-Hc in Hf. rewrite reverse_app in Hrr. apply app_inj_2 in Hrr as [_ ->]; [by exists l, l'|].
  apply frozen_count in Hf. rewrite length_reverse. lia.
Qed.

Lemma combine_inv fuel c r roots iter roots' c' r' iter' L :
  0 < c -> c + r <= 2 ^ 63 -> N.of_nat (length roots) = count_ones c ->
  Acc.combine fuel roots c r (2 ^ trailing_zeros c) iter = Ok (roots', c', r', iter') ->
  c' + r' = c + r /\
  (frozen 0 (c + r) (reverse (roots' ++ iter')) L ->
   exists l l', L = l ++ l' /\ frozen 0 c (reverse roots) l).
Proof.
  revert c r roots iter. induction fuel as [|fuel IH]; intros c r roots iter H0 Hle Hcount Hc;
    cbn [Acc.combine] in Hc;
    (destruct (N.leb_spec (2 ^ trailing_zeros c) r) as [Hr|Hlt]; cbn [negb] in Hc;
     [|injection Hc as <- <- <- <-; split; [done|]; intros Hf; by apply (combine_stop_inv c r roots iter)]);
    [done|].
  destruct iter as [|x iter]; [done|].
  destruct (trailing_zeros_parts c) as (t & q & Ht & Hp & _ & _); [done|change (2 ^ 64) with (2 * 2 ^ 63); lia|].
  rewrite Ht in *. apply bind_Ok in Hc as ([[roots1 m] h] & Hcar & Hc).
  apply bind_Ok in Hc as (c1 & [-> _]%add64_Ok & Hc). apply bind_Ok in Hc as (r1 & [-> _]%sub64_Ok & Hc).
  destruct (carry_up_inv t q c roots x roots1 m h Hp) as (-> & Hcount1 & Hinv); [lia|done..|].
  apply IH in Hc as [Hsum Hf]; [|lia|lia|done].
  replace (c + 2 ^ t + (r - 2 ^ t)) with (c + r) in * by lia. split; [done|].
  intros (l1 & l1' & -> & Hf1)%Hf. apply Hinv in Hf1 as (l & l' & -> & Hf1).
  exists l, (l' ++ l1'). by rewrite app_assoc.
Qed.

(** The larger tree extends the one the subtrees were appended to. *)
Lemma append_subtrees_inv acc l subtrees r acc' L :
  acc_of l acc -> N.of_nat (length l) + r = N.of_nat (length L) ->
  Acc.append_subtrees acc subtrees r = Ok acc' -> root_hash acc' = merkle_root L ->
  l `prefix_of` L /\ acc_of L acc'.
Proof.
  intros Ha HL Happ Hroot. pose proof (acc_of_length _ _ Ha) as Hn. destruct Ha as [Hf _].
  unfold Acc.append_subtrees in Happ. assert (MAX_ACCUMULATOR_LEAVES = 2 ^ 63) as Hmax by done. rewrite Hmax in Happ.
  apply bind_Ok in Happ as (room & [-> Hroom]%sub64_Ok & Happ).
  apply bind_Ok in Happ as (? & Hle%ensure_Ok & Happ). apply N.leb_le in Hle.
  destruct (N.eqb_spec (num_leaves acc) 0) as [Hz|Hz].
  - destruct l; [|simpl in *; lia]. split; [apply prefix_nil|].
    apply (new_inv _ _ _ L) in Happ as (_ & _ & HaL); [done..|simpl in HL; lia].
  - apply bind_Ok in Happ as ([[[roots c] r'] iter] & Hc & Happ).
    apply bind_Ok in Happ as (n & [-> _]%add64_Ok & Happ).
    destruct (trailing_zeros_parts (num_leaves acc)) as (t & q & Ht & _ & _ & Hs);
      [lia|change (2 ^ 64) with (2 * 2 ^ 63); lia|].
    rewrite Ht, Hs, <-Ht in Hc.
    pose proof (frozen_count _ _ _ _ Hf) as Hcount. rewrite length_reverse in Hcount.
    destruct (combine_inv 64 (num_leaves acc) r _ _ _ _ _ _ L ltac:(lia) ltac:(lia) Hcount Hc) as [Hsum Hinv].
    rewrite Hsum in Happ. apply (new_inv _ _ _ L) in Happ as (Hroots & Hnum & HaL); [|done|lia].
    split; [|done]. destruct HaL as [HfL _]. rewrite Hroots, Hnum in HfL.
    apply Hinv in HfL as (l1 & l1' & -> & Hf1).
    rewrite (frozen_inj hash_inj _ _ _ _ _ Hf Hf1). by exists l1'.
Qed.

Lemma append_one_inv {E} roots n x roots' L :
  n < u64_max -> @Acc.append_one _ E roots n x = Ok roots' -> frozen 0 (n + 1) (reverse roots') L ->
  exists l, L = l ++ [x] /\ frozen 0 n (reverse roots) l.
Proof.
  intros Hn Ha Hf. unfold Acc.append_one in Ha. rewrite trailing_zeros_not64, Nat2N.id in Ha by done.
  rewrite <-(reverse_involutive roots), <-reverse_cons, merge_last_rev in Ha.
  apply fmap_Ok in Ha as (rr & Hm & ->). rewrite reverse_involutive in Hf.
  destruct (merge_inv hash_inj 0 n x (reverse roots) rr L Hm Hf) as (l & l0 & -> & Hfl & Hl0 & ->).
  destruct l0 as [|y [|]]; simpl in Hl0; try lia. exists l. by split.
Qed.

Lemma append_all_count {E} roots n xs roots' n' :
  @Acc.append_all _ E roots n xs = Ok (roots', n') -> n' = n + N.of_nat (length xs).
Proof.
  revert roots n. induction xs as [|x xs IH]; intros roots n Ha; cbn [Acc.append_all length] in *.
  - injection Ha as <- <-. lia.
  - apply bind_Ok in Ha as (roots1 & _ & Ha). apply bind_Ok in Ha as (n1 & [-> _]%add64_Ok & Ha).
    apply IH in Ha. lia.
Qed.

Lemma append_all_inv {E} roots n xs roots' n' L :
  @Acc.append_all _ E roots n xs = Ok (roots', n') -> frozen 0 n' (reverse roots') L ->
  n' = n + N.of_nat (length xs) /\ exists l, L = l ++ xs /\ frozen 0 n (reverse roots) l.
Proof.
  revert roots n. induction xs as [|x xs IH]; intros roots n Ha Hf; cbn [Acc.append_all length] in *.
  - injection Ha as <- <-. split; [lia|]. exists L. by rewrite app_nil_r.
  - apply bind_Ok in Ha as (roots1 & Ha1 & Ha). apply bind_Ok in Ha as (n1 & [-> Hn]%add64_Ok & Ha).
    destruct (IH _ _ Ha Hf) as (-> & l & -> & Hfl). split; [lia|].
    destruct (append_one_inv roots n x roots1 l ltac:(lia) Ha1 Hfl) as (l1 & -> & Hf1).
    exists l1. by rewrite <-app_assoc.
Qed.
End combine_binding.
End reference.
