(* ===== verification/AccumulatorProps.v ===== *)
(** * Theorems about positions and accumulators *)

From S2P Require Import Prelude Crypto Errors Position Accumulator Verifier Ledger PositionLemmas AccumulatorLemmas.

(** A node is named by its level and its index. *)
Ltac node n :=
  match goal with Hn : n < 2 ^ 64 - 1 |- _ =>
    let L := fresh "L" in let p := fresh "p" in let Hf := fresh "Hf" in
    destruct (inorder_surj n Hn) as (L & p & -> & Hf);
    rewrite ?level_inorder, ?pos_counting_from_left_inorder in * by exact Hf
  end.

Module PositionProps.

(** Every node is the child of its parent on the side [is_left_child] tells,
    the parent is one level up with half the index, the sibling is the other child
    of the same parent and taking it twice comes back, and the level and the index
    from the left give the node back. *)
Theorem navigation_correct (n : Position) :
  n < 2 ^ 64 - 1 -> Position.level n < 63 ->
  let p := Position.parent n in let s := Position.sibling n in
  @Position.from_level_and_pos unit (Position.level n) (Position.pos_counting_from_left n) = Ok n /\
  Position.level p = Position.level n + 1 /\
  Position.pos_counting_from_left p = Position.pos_counting_from_left n / 2 /\
  (if Position.is_left_child n then @Position.left_child unit p else Position.right_child p) = Ok n /\
  Position.sibling s = n /\ Position.parent s = p /\
  Position.is_left_child s = negb (Position.is_left_child n).
Proof.
  intros Hn HL. node n. cbv zeta. pose proof (fits_parent _ _ Hf HL) as Hfp.
  pose proof (fits_sibling _ _ Hf HL) as Hfs.
  rewrite from_level_and_pos_inorder, parent_inorder, level_inorder, pos_counting_from_left_inorder by done.
  rewrite is_left_child_inorder, left_child_inorder, right_child_inorder by (done || lia).
  rewrite !sibling_inorder, parent_inorder, is_left_child_inorder by done.
  rewrite N.lxor_assoc, N.lxor_nilpotent, N.lxor_0_r, N.add_sub.
  pose proof (N.div_mod p 2 ltac:(done)) as Hd. pose proof (N.bit0_mod p) as Hb.
  rewrite N.bit0_odd in Hb. rewrite <-Hb in Hd. rewrite <-!N.negb_odd.
  split_and!; try done.
  - destruct (N.odd p); simpl in *; do 2 f_equal; lia.
  - f_equal. bitwise. bit_cases; by rewrite xorb_false_r.
  - f_equal. rewrite <-!N.bit0_odd, N.lxor_spec. by destruct (N.testbit p 0).
Qed.
Lemma navigation_correct_witness :
  Position.sibling 9 = 13 /\ Position.parent 13 = Position.parent 9 /\
  Position.is_left_child 13 = negb (Position.is_left_child 9).
Proof.
  destruct (navigation_correct 9) as (_ & _ & _ & _ & _ & Hp & Hl); [done..|].
  split; [done|]. by split.
Defined.

(** A subtree is frozen by leaf [i] exactly when all of its leaves are at or
    before [i], and is a placeholder exactly when all of them come after [i]. *)
Theorem freezing_correct (n : Position) (i : N) :
  n < 2 ^ 64 - 1 -> i < 2 ^ 63 ->
  let size := 2 ^ Position.level n in
  let first := Position.pos_counting_from_left n * size in
  @Position.is_freezable unit n i = Ok (first + size <=? i + 1) /\
  @Position.is_placeholder unit n i = Ok (i <? first).
Proof.
  intros Hn Hi. node n. cbv zeta. by rewrite freezable_inorder, placeholder_inorder.
Qed.
Lemma freezing_correct_witness :
  @Position.is_freezable unit 5 3 = Ok true /\ @Position.is_placeholder unit 5 1 = Ok true.
Proof.
  destruct (freezing_correct 5 3) as [Hf _]; [done..|].
  destruct (freezing_correct 5 1) as [_ Hp]; [done..|].
  split; [exact Hf|exact Hp].
Defined.

(** The post-order index is a traversal and is inverted by
    [from_postorder_index].  Every node comes right after its right child, whose
    subtree comes right after the left child. *)
Theorem postorder_correct (n : Position) :
  n < 2 ^ 64 - 1 -> Position.level n < 63 ->
  exists k, @to_postorder_index unit n = Ok k /\ from_postorder_index k = Ok n /\
    (Position.is_leaf n = false ->
     exists l r kl kr, @Position.left_child unit n = Ok l /\ @Position.right_child unit n = Ok r /\
       @to_postorder_index unit l = Ok kl /\ @to_postorder_index unit r = Ok kr /\
       k = kr + 1 /\ kr = kl + (2 ^ Position.level n - 1)).
Proof.
  intros Hn HL. node n. exists (postorder L p). destruct (@postorder_round unit L p Hf HL) as (Hto & Hfrom & _).
  split_and!; [done..|].
  rewrite is_leaf_inorder. intros H0%N.eqb_neq.
  unfold to_postorder_index. change (Position.to_inorder_index) with (fun x : N => x). cbv beta.
  destruct (fits_left L p Hf) as [Hl Hr]; [lia|].
  exists (inorder (L - 1) (2 * p)), (inorder (L - 1) (2 * p + 1)),
      (postorder (L - 1) (2 * p)), (postorder (L - 1) (2 * p + 1)).
  rewrite left_child_inorder, right_child_inorder by (done || lia).
  rewrite !inorder_to_postorder_spec by (done || lia). split_and!; try done.
  - apply postorder_right. lia.
  - apply postorder_left. lia.
Qed.
Lemma postorder_correct_witness :
  exists k, @to_postorder_index unit 9 = Ok k /\ from_postorder_index k = Ok 9.
Proof.
  destruct (postorder_correct 9) as (k & H1 & H2 & _); [done..|]. by exists k.
Defined.

(** The frozen subtrees of an accumulator of [n] leaves are one per set bit of
    [n], largest first, and cover its leaves from the left without gaps; the
    iterator ends. *)
Theorem frozen_subtrees_complete (n : LeafCount) :
  n <= MAX_ACCUMULATOR_LEAVES ->
  exists ps, @FrozenSubTreeIterator.collect unit 65 (FrozenSubTreeIterator.new n) = Ok ps /\
    tiles 0 n ps /\ Position.level <$> ps = set_bits_below 64 n.
Proof.
  intros Hn. change MAX_ACCUMULATOR_LEAVES with (2 ^ 63) in Hn.
  exists (frozen_position n <$> set_bits_below 64 n).
  assert (n mod 2 ^ N.of_nat 64 = n) as Hm
    by (apply N.mod_small; change (2 ^ N.of_nat 64) with (2 * 2 ^ 63); lia).
  pose proof (@frozen_collect unit n 64 65 Hn) as Hc. pose proof (frozen_tiles n 64) as Ht.
  unfold frozen_state in Hc. rewrite Hm, N.sub_diag in *. split; [apply Hc; lia|]. split; [done|].
  by apply frozen_levels.
Qed.
Lemma frozen_subtrees_complete_witness :
  exists ps, @FrozenSubTreeIterator.collect unit 65 (FrozenSubTreeIterator.new 13) = Ok ps /\
    tiles 0 13 ps /\ Position.level <$> ps = [3; 2; 0].
Proof. apply (frozen_subtrees_complete 13). done. Defined.

(** The iterator over the subtrees that grow an accumulator from [c] to [m]
    leaves ends, and the subtrees it yields cover the new leaves in order and
    without gaps. *)
Theorem sibling_subtrees_complete (c m : LeafCount) :
  c <= m -> m <= MAX_ACCUMULATOR_LEAVES ->
  exists st ps, @FrozenSubtreeSiblingIterator.new unit c m = Ok st /\
    @FrozenSubtreeSiblingIterator.collect unit 130 st = Ok ps /\ tiles c m ps.
Proof.
  intros Hle Hm. destruct (@sibling_collect unit c (m - c)) as (ps & Hps & Ht).
  { change MAX_ACCUMULATOR_LEAVES with (2 ^ 63) in Hm. lia. }
  exists (FrozenSubtreeSiblingIterator.mk c (m - c)), ps.
  apply growth_tiles in Ht. replace (c + (m - c)) with m in Ht by lia. split_and!; [|done..].
  unfold FrozenSubtreeSiblingIterator.new.
  rewrite (proj2 (N.leb_le _ _) Hm), (proj2 (N.leb_le _ _) Hle). simpl.
  by rewrite (proj2 (sub64_Ok _ _ (m - c))).
Qed.
Lemma sibling_subtrees_complete_witness :
  exists st ps, @FrozenSubtreeSiblingIterator.new unit 10 21 = Ok st /\
    @FrozenSubtreeSiblingIterator.collect unit 130 st = Ok ps /\ tiles 10 21 ps.
Proof. apply (sibling_subtrees_complete 10 21); done. Defined.
End PositionProps.

(** ** Accumulators, and the proofs checked against them

    An accumulator holds the Merkle root of its leaves however they were added, and
    what a proof shows against that root is true of the leaves. *)
(** A node hash without collisions, for the examples. *)
Module Pairing.
#[global] Instance pairing : MerkleHasher := fun a b => Npos (encode (a, b)).
Lemma pairing_inj : Inj2 (=) (=) (=) (@hash_internal pairing).
Proof. intros a b a' b' He. apply (inj Npos), (inj encode) in He. by simplify_eq. Qed.
End Pairing.
#[local] Existing Instance Pairing.pairing.

Module AccumulatorProps.

(** Appending leaves, in one call or in several, gives the accumulator of all
    leaves in order: its root is the Merkle root and its size their number.  Nothing
    panics up to 2^64 - 1 leaves. *)
Theorem append_correct `{MerkleHasher} (l1 l2 : list HashValue) :
  N.of_nat (length (l1 ++ l2)) <= u64_max ->
  exists acc1 acc, @Acc.from_leaves _ unit l1 = Ok acc1 /\ @Acc.append _ unit acc1 l2 = Ok acc /\
    @Acc.from_leaves _ unit (l1 ++ l2) = Ok acc /\
    root_hash acc1 = merkle_root l1 /\ root_hash acc = merkle_root (l1 ++ l2) /\
    num_leaves acc = N.of_nat (length (l1 ++ l2)).
Proof.
  intros Hl. destruct (@from_leaves_acc_of _ unit l1) as (acc1 & H1 & Ha1); [rewrite length_app in Hl; lia|].
  destruct (@append_acc_of _ unit acc1 l1 l2 Ha1 Hl) as (acc & H2 & Ha).
  destruct (@from_leaves_acc_of _ unit (l1 ++ l2) Hl) as (acc' & H3 & Ha').
  rewrite (acc_of_unique _ _ _ Ha' Ha) in H3. exists acc1, acc.
  split_and!; try done; [apply Ha1|apply Ha|by apply acc_of_length].
Qed.
Lemma append_correct_witness :
  exists acc1 acc, @Acc.from_leaves _ unit [1; 2; 3] = Ok acc1 /\ @Acc.append _ unit acc1 [4; 5] = Ok acc /\
    @Acc.from_leaves _ unit [1; 2; 3; 4; 5] = Ok acc.
Proof.
  destruct (append_correct [1; 2; 3] [4; 5]) as (acc1 & acc & H1 & H2 & H3 & _); [by vm_compute|].
  by exists acc1, acc.
Defined.

(** Growing an accumulator by the subtrees that [FrozenSubtreeSiblingIterator]
    names, with their hashes in the larger tree, gives the same accumulator as
    appending the leaves one by one: a consistency proof built that way is accepted
    and moves the reader to the true root. *)
Theorem append_subtrees_correct `{MerkleHasher} (l l' : list HashValue) :
  N.of_nat (length (l ++ l')) <= MAX_ACCUMULATOR_LEAVES ->
  exists acc acc' st ps,
    @Acc.from_leaves _ AnyError l = Ok acc /\ @Acc.append _ AnyError acc l' = Ok acc' /\
    @FrozenSubtreeSiblingIterator.new AnyError (N.of_nat (length l)) (N.of_nat (length (l ++ l'))) = Ok st /\
    @FrozenSubtreeSiblingIterator.collect AnyError 130 st = Ok ps /\
    Acc.append_subtrees acc (node_at (l ++ l') <$> ps) (N.of_nat (length l')) = Ok acc'.
Proof.
  intros Hl. assert (N.of_nat (length (l ++ l')) <= u64_max) as Hmax
    by (change MAX_ACCUMULATOR_LEAVES with (2 ^ 63) in Hl; unfold u64_max; lia).
  destruct (@from_leaves_acc_of _ AnyError l) as (acc & H1 & Ha); [rewrite length_app in Hmax; lia|].
  destruct (@append_acc_of _ AnyError acc l l' Ha Hmax) as (acc' & H2 & Ha').
  destruct (@sibling_collect AnyError (N.of_nat (length l)) (N.of_nat (length l'))) as (ps & Hps & Hg).
  { rewrite length_app in Hl. change MAX_ACCUMULATOR_LEAVES with (2 ^ 63) in Hl. lia. }
  destruct (append_subtrees_acc_of acc l l' ps Ha Hl Hg) as (acc2 & H3 & Ha2).
  rewrite (acc_of_unique _ _ _ Ha2 Ha') in H3.
  exists acc, acc', (FrozenSubtreeSiblingIterator.mk (N.of_nat (length l)) (N.of_nat (length l'))), ps.
  split_and!; try done. unfold FrozenSubtreeSiblingIterator.new.
  rewrite length_app in Hl |- *. rewrite Nat2N.inj_add in Hl |- *.
  rewrite (proj2 (N.leb_le _ _) Hl), (proj2 (N.leb_le _ (_ + _))) by lia. cbn [assert_ mbind outcome_bind].
  by rewrite (proj2 (sub64_Ok _ _ (N.of_nat (length l')))) by lia.
Qed.
Lemma append_subtrees_correct_witness :
  exists acc acc' st ps,
    @Acc.from_leaves _ AnyError [1; 2; 3] = Ok acc /\ @Acc.append _ AnyError acc [4; 5; 6; 7] = Ok acc' /\
    @FrozenSubtreeSiblingIterator.new AnyError 3 7 = Ok st /\
    @FrozenSubtreeSiblingIterator.collect AnyError 130 st = Ok ps /\
    Acc.append_subtrees acc (node_at [1; 2; 3; 4; 5; 6; 7] <$> ps) 4 = Ok acc'.
Proof. apply (append_subtrees_correct [1; 2; 3] [4; 5; 6; 7]). by vm_compute. Defined.

(** A proof of the depth of the tree that the verifier accepts for an index of
    the tree shows the element at that index, and is the path to it, if the node
    hash has no collisions. *)
Theorem inclusion_sound `{MerkleHasher} (l : list HashValue) (pf : AccumulatorProof) (i : nat) (x : HashValue) :
  Inj2 (=) (=) (=) hash_internal -> (i < length l)%nat ->
  length (siblings pf) = height (length l) ->
  AccumulatorProof_verify pf (merkle_root l) x (N.of_nat i) = Ok tt ->
  l !! i = Some x /\ siblings pf = path l 0 i (height (length l)).
Proof.
  intros Hinj Hi Hlen Hv. unfold AccumulatorProof_verify in Hv. run_ok.
  match goal with He : (_ =? _) = true |- _ => apply N.eqb_eq in He; rename He into Hr end.
  pose proof (height_le l) as Hh. rewrite <-node_root in Hr.
  replace 0%nat with (i / 2 ^ length (siblings pf))%nat in Hr by (rewrite Hlen; apply Nat.div_small; lia).
  rewrite <-Hlen, <-(Nat.add_0_l (length (siblings pf))) in Hr at 1.
  apply fold_path_inv in Hr as [Hx Hp]; [|done|rewrite Nat.pow_0_r; lia].
  rewrite <-Hlen. split; [|done]. destruct (lookup_lt_is_Some_2 l i Hi) as [y Hy].
  by rewrite Hx, (node_leaf l i y Hy).
Qed.
Lemma inclusion_sound_witness :
  [7; 8; 9] !! 2%nat = Some 9 /\ path [7; 8; 9] 0 2 2 = path [7; 8; 9] 0 2 (height 3).
Proof.
  apply (inclusion_sound [7; 8; 9] (mkAccumulatorProof (path [7; 8; 9] 0 2 2)) 2 9);
    [apply Pairing.pairing_inj|simpl; lia|by vm_compute..].
Defined.

(** The verifier reads only as many bits of the index as the proof has
    siblings: what it accepts at [i] it accepts at [i + 2 ^ depth] too. *)
Theorem inclusion_index_modulo `{MerkleHasher} (pf : AccumulatorProof) (root x : HashValue) (i : N) :
  AccumulatorProof_verify pf root x (i + 2 ^ N.of_nat (length (siblings pf))) =
  AccumulatorProof_verify pf root x i.
Proof. unfold AccumulatorProof_verify. by rewrite fold_sibling_modulo. Qed.

(** An extension proof accepted against the root of [l] appends its leaves to
    [l]: the root it returns is the root of both, if the node hash has no collisions. *)
Theorem extension_sound `{MerkleHasher} (l : list HashValue) (pf : AccumulatorExtensionProof)
    (acc : InMemoryAccumulator) :
  Inj2 (=) (=) (=) hash_internal -> aep_num_leaves pf = N.of_nat (length l) ->
  N.of_nat (length (l ++ aep_leaves pf)) <= u64_max ->
  AccumulatorExtensionProof_verify pf (merkle_root l) = Ok acc ->
  root_hash acc = merkle_root (l ++ aep_leaves pf) /\
  num_leaves acc = N.of_nat (length (l ++ aep_leaves pf)).
Proof.
  intros Hinj Hn Hle Hv. unfold AccumulatorExtensionProof_verify in Hv.
  apply bind_Ok in Hv as (orig & Hnew & Hv). apply bind_Ok in Hv as (? & Hroot%ensure_Ok & Happ).
  apply N.eqb_eq in Hroot.
  destruct (new_inv Hinj _ _ _ l Hnew Hroot Hn) as (_ & _ & Ha).
  destruct (@append_acc_of _ AnyError orig l (aep_leaves pf) Ha Hle) as (acc' & Happ' & Ha').
  rewrite Happ in Happ'. injection Happ' as <-. split; [apply Ha'|by apply acc_of_length].
Qed.
Lemma extension_sound_witness :
  exists acc, AccumulatorExtensionProof_verify
      (mkAccumulatorExtensionProof [hash_internal 1 2; 3] 3 [4; 5]) (merkle_root [1; 2; 3]) = Ok acc /\
    root_hash acc = merkle_root [1; 2; 3; 4; 5].
Proof.
  eexists. split; [by vm_compute|].
  apply (extension_sound [1; 2; 3] (mkAccumulatorExtensionProof [hash_internal 1 2; 3] 3 [4; 5]));
    [apply Pairing.pairing_inj|by vm_compute..].
Defined.

(** C30: a light client at the leaves [l] that accepts a consistency proof to a
    ledger info with the root of the leaves [L] has seen a prefix of [L], and ends up
    with the accumulator of [L], if the node hash has no collisions. *)
Theorem consistency_sound `{MerkleHasher} (l L : list HashValue) (acc acc' : InMemoryAccumulator)
    (proof : AccumulatorConsistencyProof) (li : LedgerInfo) :
  Inj2 (=) (=) (=) hash_internal -> l <> [] -> N.of_nat (length l) <= u64_max ->
  @Acc.from_leaves _ AnyError l = Ok acc ->
  TransactionAccumulatorSummary.try_extend_with_proof acc proof li = Ok acc' ->
  LedgerInfo.transaction_accumulator_hash li = merkle_root L ->
  LedgerInfo.version li + 1 = N.of_nat (length L) -> LedgerInfo.version li < u64_max ->
  l `prefix_of` L /\ @Acc.from_leaves _ AnyError L = Ok acc'.
Proof.
  intros Hinj Hne Hl Hacc Hext Hroot Hver Hmax.
  unfold TransactionAccumulatorSummary.try_extend_with_proof in Hext.
  apply bind_Ok in Hext as (? & Hle%ensure_Ok & Hext). apply N.leb_le in Hle.
  apply bind_Ok in Hext as (k & [-> _]%sub64_Ok & Hext).
  apply bind_Ok in Hext as (acc2 & Happ & Hext).
  apply bind_Ok in Hext as (? & Hcons%with_context_Ok & Hext). injection Hext as <-.
  apply bind_Ok in Hcons as (? & _ & Hhash%ensure_Ok). apply N.eqb_eq in Hhash. rewrite Hroot in Hhash.
  destruct (@from_leaves_acc_of _ AnyError l Hl) as (acc0 & Hacc0 & Ha). rewrite Hacc in Hacc0.
  injection Hacc0 as <-. pose proof (acc_of_length _ _ Ha) as Hn.
  assert (0 < length l)%nat as Hpos by (destruct l; [done|simpl; lia]).
  unfold Acc.version in Hle, Happ. rewrite Hn, (proj2 (N.eqb_neq _ _)) in Hle, Happ by lia.
  eapply (append_subtrees_inv Hinj acc l _ _ acc2 L Ha) in Happ as [Hp HaL]; [|lia|done].
  split; [done|]. destruct (@from_leaves_acc_of _ AnyError L) as (accL & -> & HaL'); [lia|].
  by rewrite (acc_of_unique _ _ _ HaL' HaL).
Qed.
Lemma consistency_sound_witness :
  [1; 2; 3] `prefix_of` [1; 2; 3; 4; 5; 6; 7] /\
  exists acc, @Acc.from_leaves _ AnyError [1; 2; 3; 4; 5; 6; 7] = Ok acc.
Proof.
  pose (L := [1; 2; 3; 4; 5; 6; 7]).
  pose (acc := mkAccumulator [hash_internal 1 2; 3] 3 (merkle_root [1; 2; 3])).
  pose (acc' := mkAccumulator [node L 2 0; node L 1 2; 7] 7 (merkle_root L)).
  destruct (consistency_sound [1; 2; 3] L acc acc' (mkAccumulatorConsistencyProof [4; node L 1 2; 7])
    (mkLedgerInfo (mkBlockInfo 1 1 0 (merkle_root L) 6 0 None) 0)) as [Hp Ha];
    [apply Pairing.pairing_inj|by vm_compute..|].
  split; [exact Hp|by exists acc'].
Defined.
End AccumulatorProps.
