(* ===== verification/StateProofs.v ===== *)
(** * Sparse Merkle proofs (types/src/proof/definition.rs)

    [SparseMerkleLeafNode] (types/src/proof/mod.rs), [SparseMerkleProof] and
    [SparseMerkleRangeProof], with the reference tree they are proofs about: the
    bits of the key lead down from the root, a subtree without keys is the
    placeholder, a subtree with one key is that key's leaf. *)

From S2P Require Import Prelude Crypto Errors Position PositionLemmas Accumulator.

Record SparseMerkleLeafNode : Type := mkSparseMerkleLeafNode {
  sml_key : HashValue;
  sml_value_hash : HashValue;
}.
#[global] Instance SparseMerkleLeafNode_eq_dec : EqDecision SparseMerkleLeafNode.
Proof. solve_decision. Defined.
#[global] Instance SparseMerkleLeafNode_countable : Countable SparseMerkleLeafNode.
Proof.
  refine (inj_countable' (fun l => (sml_key l, sml_value_hash l))
    (fun p => mkSparseMerkleLeafNode p.1 p.2) _). by intros [].
Defined.

Record SparseMerkleProof : Type := mkSparseMerkleProof {
  smp_leaf : option SparseMerkleLeafNode;
  smp_siblings : list HashValue;
}.

Record SparseMerkleRangeProof : Type := mkSparseMerkleRangeProof {
  smrp_right_siblings : list HashValue;
}.

(** The last [n] of the bits of [key], from the last one back:
    [key.iter_bits().rev().skip(LENGTH_IN_BITS - n)]. *)
Definition bits_from_bottom (key : HashValue) (n : nat) : list bool :=
  drop (N.to_nat Hash.LENGTH_IN_BITS - n) (reverse (Hash.iter_bits key)).

Section verify.
Context `{MerkleHasher} `{CryptoHash SparseMerkleLeafNode}.

(** The step of the fold over siblings and bits. *)
Definition combine_sibling (hash : HashValue) (p : HashValue * bool) : HashValue :=
  let '(sibling_hash, bit) := p in
  if bit then hash_internal sibling_hash hash else hash_internal hash sibling_hash.

(** The checks that depend on the kind of proof. *)
Definition check_leaf (self : SparseMerkleProof) (element_key : HashValue)
    (element_hash : option HashValue) : result unit :=
  match element_hash, smp_leaf self with
  | Some hash, Some leaf =>
      _ ← ensure (element_key =? sml_key leaf) (Msg "Keys do not match.");
      ensure (hash =? sml_value_hash leaf) (Msg "Value hashes do not match.")
  | Some _, None => Err (Msg "Expected inclusion proof. Found non-inclusion proof.")
  | None, Some leaf =>
      _ ← ensure (negb (element_key =? sml_key leaf))
            (Msg "Expected non-inclusion proof, but key exists in proof.");
      ensure (N.of_nat (length (smp_siblings self)) <=? Hash.common_prefix_bits_len element_key (sml_key leaf))
        (Msg "Key would not have ended up in the subtree where the provided key in proof is the only existing key, if it existed.")
  | None, None => Ok tt
  end.

Definition SparseMerkleProof_verify_by_hash (self : SparseMerkleProof)
    (expected_root_hash element_key : HashValue) (element_hash : option HashValue) : result unit :=
  _ ← ensure (N.of_nat (length (smp_siblings self)) <=? Hash.LENGTH_IN_BITS)
        (Msg "Sparse Merkle Tree proof has too many siblings.");
  _ ← check_leaf self element_key element_hash;
  let current_hash := from_option hash SPARSE_MERKLE_PLACEHOLDER_HASH (smp_leaf self) in
  let actual_root_hash :=
    foldl combine_sibling current_hash
      (zip (smp_siblings self) (bits_from_bottom element_key (length (smp_siblings self)))) in
  ensure (actual_root_hash =? expected_root_hash) (Msg "Root hashes do not match.").

Definition SparseMerkleProof_verify `{CryptoHash V} (self : SparseMerkleProof)
    (expected_root_hash element_key : HashValue) (element_value : option V) : result unit :=
  SparseMerkleProof_verify_by_hash self expected_root_hash element_key (hash <$> element_value).

(** The loop over the bits of the rightmost known leaf. *)
Fixpoint range_loop (bits : list bool) (lefts rights : list HashValue) (current_hash : HashValue)
    : result HashValue :=
  match bits with
  | [] => Ok current_hash
  | bit :: bits =>
      if bit then
        match lefts with
        | [] => Err (Msg "Missing left sibling.")
        | l :: lefts => range_loop bits lefts rights (hash_internal l current_hash)
        end
      else
        match rights with
        | [] => Err (Msg "Missing right sibling.")
        | r :: rights => range_loop bits lefts rights (hash_internal current_hash r)
        end
  end.

(** [LENGTH_IN_BITS - num_siblings] underflows for more than 256 siblings. *)
Definition SparseMerkleRangeProof_verify (self : SparseMerkleRangeProof)
    (expected_root_hash : HashValue) (rightmost_known_leaf : SparseMerkleLeafNode)
    (left_siblings : list HashValue) : result unit :=
  let num_siblings := (length left_siblings + length (smrp_right_siblings self))%nat in
  _ ← sub64 Hash.LENGTH_IN_BITS (N.of_nat num_siblings);
  current_hash ← range_loop (bits_from_bottom (sml_key rightmost_known_leaf) num_siblings)
                   left_siblings (smrp_right_siblings self) (hash rightmost_known_leaf);
  ensure (current_hash =? expected_root_hash) (Msg "Root hashes do not match.").
End verify.

(** ** Bits of a key *)
Lemma bit_testbit h i : i < 256 -> Hash.bit h i = N.testbit h (255 - i).
Proof.
  intros Hi. unfold Hash.bit, Hash.byte. change 1 with (2 ^ 0). rewrite land_pow2_testbit, negb_involutive.
  rewrite N.shiftr_spec', N.land_spec, N.shiftr_spec'. change 255 with (N.ones 8) at 1. rewrite testbit_ones.
  pose proof (N.div_mod i 8 ltac:(done)) as Hd. pose proof (N.mod_lt i 8 ltac:(done)) as Hm.
  generalize dependent (i / 8). generalize dependent (i mod 8). intros r Hr q Hq.
  rewrite (proj2 (N.ltb_lt _ _)) by lia. rewrite andb_true_r. f_equal.
  change (Hash.LENGTH - 2 ^ 0) with 31. lia.
Qed.

Lemma iter_bits_length h : length (Hash.iter_bits h) = 256%nat.
Proof. unfold Hash.iter_bits. by rewrite !length_fmap, length_seq. Qed.

Lemma iter_bits_lookup h (i : nat) :
  (i < 256)%nat -> Hash.iter_bits h !! i = Some (Hash.bit h (N.of_nat i)).
Proof.
  intros Hi. unfold Hash.iter_bits. rewrite !list_lookup_fmap, lookup_seq_lt by done. done.
Qed.

Lemma bits_from_bottom_take key (n : nat) :
  (n <= 256)%nat -> bits_from_bottom key n = reverse (take n (Hash.iter_bits key)).
Proof.
  intros Hn. unfold bits_from_bottom. change (N.to_nat Hash.LENGTH_IN_BITS) with 256%nat.
  rewrite <-(take_drop n (Hash.iter_bits key)) at 1. rewrite reverse_app.
  apply drop_app_length'. rewrite length_reverse, length_drop, iter_bits_length. done.
Qed.

(** ** The reference tree *)
Section reference.
Context `{MerkleHasher} `{CryptoHash SparseMerkleLeafNode}.

(** The keys of a subtree on one side. *)
Definition side (m : gmap N N) (d : N) (b : bool) : gmap N N :=
  filter (fun kv => Hash.bit kv.1 d = b) m.

(** The hash of the subtree at depth [d] with the keys of [m].  Two keys differ in
    one of their 256 bits, so the case of exhausted [fuel] is out of reach. *)
Fixpoint smt (fuel : nat) (d : N) (m : gmap N N) : HashValue :=
  match map_to_list m with
  | [] => SPARSE_MERKLE_PLACEHOLDER_HASH
  | [(k, v)] => hash (mkSparseMerkleLeafNode k v)
  | _ =>
      match fuel with
      | O => hash_internal SPARSE_MERKLE_PLACEHOLDER_HASH SPARSE_MERKLE_PLACEHOLDER_HASH
      | S fuel => hash_internal (smt fuel (d + 1) (side m d false)) (smt fuel (d + 1) (side m d true))
      end
  end.
Definition smt_root (m : gmap N N) : HashValue := smt 256 0 m.

(** The leaf at the end of the path of [key], and the siblings from the top. *)
Fixpoint smt_path (fuel : nat) (d : N) (m : gmap N N) (key : HashValue)
    : option SparseMerkleLeafNode * list HashValue :=
  match map_to_list m with
  | [] => (None, [])
  | [(k, v)] => (Some (mkSparseMerkleLeafNode k v), [])
  | _ =>
      match fuel with
      | O => (None, [])
      | S fuel =>
          let b := Hash.bit key d in
          let '(leaf, ss) := smt_path fuel (d + 1) (side m d b) key in
          (leaf, smt fuel (d + 1) (side m d (negb b)) :: ss)
      end
  end.
Definition smt_proof (m : gmap N N) (key : HashValue) : SparseMerkleProof :=
  let '(leaf, ss) := smt_path 256 0 m key in mkSparseMerkleProof leaf (reverse ss).

(** The root from the bits of a key and the siblings, both from the top. *)
Fixpoint climb (bits : list bool) (ss : list HashValue) (cur : HashValue) : HashValue :=
  match bits, ss with
  | b :: bits, s :: ss => combine_sibling (climb bits ss cur) (s, b)
  | _, _ => cur
  end.

Lemma climb_fold bits ss cur :
  length bits = length ss ->
  foldl combine_sibling cur (zip (reverse ss) (reverse bits)) = climb bits ss cur.
Proof.
  revert ss. induction bits as [|b bits IH]; intros [|s ss] Hl; simpl in *; try lia.
  rewrite !reverse_cons. rewrite zip_with_app by (rewrite !length_reverse; lia).
  rewrite foldl_app. simpl. by rewrite IH by lia.
Qed.

Lemma map_cases (m : gmap N N) :
  m = ∅ \/ (exists k v, m = {[k := v]}) \/
  exists p q l, map_to_list m = p :: q :: l.
Proof.
  destruct (map_to_list m) as [|[k v] [|q l]] eqn:Hm.
  - left. by apply map_to_list_empty_iff.
  - right. left. exists k, v. rewrite <-(list_to_map_to_list m), Hm. simpl. apply insert_empty.
  - right. right. by eexists _, _, _.
Qed.

Lemma side_lookup m d b k v : side m d b !! k = Some v <-> m !! k = Some v /\ Hash.bit k d = b.
Proof. apply map_lookup_filter_Some. Qed.

Lemma smt_empty fuel d : smt fuel d ∅ = SPARSE_MERKLE_PLACEHOLDER_HASH.
Proof. by destruct fuel. Qed.

Lemma smt_singleton fuel d k v : smt fuel d {[k := v]} = hash (mkSparseMerkleLeafNode k v).
Proof. destruct fuel; simpl; by rewrite map_to_list_singleton. Qed.

(** The keys that follow [bits] from depth [d] on. *)
Fixpoint restrict (m : gmap N N) (d : N) (bits : list bool) : gmap N N :=
  match bits with
  | [] => m
  | b :: bits => restrict (side m d b) (d + 1) bits
  end.

Definition follows (k d : N) (bits : list bool) : Prop :=
  forall (i : nat) b, bits !! i = Some b -> Hash.bit k (d + N.of_nat i) = b.

Lemma follows_cons k d b bits : follows k d (b :: bits) <-> Hash.bit k d = b /\ follows k (d + 1) bits.
Proof.
  unfold follows. split.
  - intros Hf. split; [specialize (Hf 0%nat b eq_refl); by rewrite N.add_0_r in Hf|].
    intros i b' Hi. specialize (Hf (S i) b' Hi). by replace (d + 1 + N.of_nat i) with (d + N.of_nat (S i)) by lia.
  - intros [Hb Hf] [|i] b' Hi; [injection Hi as <-; by rewrite N.add_0_r|].
    rewrite <-(Hf i b' Hi). f_equal. lia.
Qed.

Lemma restrict_lookup m d bits k v :
  restrict m d bits !! k = Some v <-> m !! k = Some v /\ follows k d bits.
Proof.
  revert m d. induction bits as [|b bits IH]; intros m d; simpl.
  - split; [intros Hm; split; [done|by intros i b]|by intros [? _]].
  - rewrite IH, side_lookup, follows_cons. naive_solver.
Qed.

(** ** Soundness *)
Section sound.
Context (internal_inj : Inj2 (=) (=) (=) hash_internal) (leaf_inj : CollisionFree SparseMerkleLeafNode).
Context (leaf_internal : forall (l : SparseMerkleLeafNode) a b, hash l <> hash_internal a b).
Context (placeholder_leaf : forall l : SparseMerkleLeafNode, hash l <> SPARSE_MERKLE_PLACEHOLDER_HASH).
Context (placeholder_internal : forall a b, hash_internal a b <> SPARSE_MERKLE_PLACEHOLDER_HASH).

Lemma smt_many fuel d m p q l :
  map_to_list m = p :: q :: l -> exists a b, smt fuel d m = hash_internal a b.
Proof. intros Hm. destruct p, fuel; simpl; rewrite Hm; by eexists _, _. Qed.

Lemma smt_is_placeholder fuel d m : smt fuel d m = SPARSE_MERKLE_PLACEHOLDER_HASH -> m = ∅.
Proof.
  intros Hs. destruct (map_cases m) as [->|[(k & v & ->)|(p & q & l & Hm)]]; [done|..].
  - rewrite smt_singleton in Hs. by apply placeholder_leaf in Hs.
  - destruct (smt_many fuel d m p q l Hm) as (a & b & He). rewrite He in Hs.
    by apply placeholder_internal in Hs.
Qed.

Lemma smt_is_leaf fuel d m leaf : smt fuel d m = hash leaf -> m = {[sml_key leaf := sml_value_hash leaf]}.
Proof.
  intros Hs. destruct (map_cases m) as [->|[(k & v & ->)|(p & q & l & Hm)]].
  - rewrite smt_empty in Hs. symmetry in Hs. by apply placeholder_leaf in Hs.
  - rewrite smt_singleton in Hs. apply leaf_inj in Hs. by subst.
  - destruct (smt_many fuel d m p q l Hm) as (a & b & He). rewrite He in Hs.
    symmetry in Hs. by apply leaf_internal in Hs.
Qed.

Lemma smt_is_internal fuel d m a b :
  smt (S fuel) d m = hash_internal a b ->
  a = smt fuel (d + 1) (side m d false) /\ b = smt fuel (d + 1) (side m d true).
Proof.
  intros Hs. destruct (map_cases m) as [->|[(k & v & ->)|(p & q & l & Hm)]].
  - rewrite smt_empty in Hs. symmetry in Hs. by apply placeholder_internal in Hs.
  - rewrite smt_singleton in Hs. by apply leaf_internal in Hs.
  - simpl in Hs. rewrite Hm in Hs. destruct p. by apply (inj2 hash_internal) in Hs as [-> ->].
Qed.

(** The path from the root leads to the subtree of the keys that share its bits. *)
Lemma climb_sound fuel d m bits ss cur :
  length bits = length ss -> (length bits <= fuel)%nat -> climb bits ss cur = smt fuel d m ->
  cur = smt (fuel - length bits) (d + N.of_nat (length bits)) (restrict m d bits).
Proof.
  revert fuel d m ss. induction bits as [|b bits IH]; intros fuel d m [|s ss] Hl Hf Hc; simpl in *; try lia.
  - by rewrite Nat.sub_0_r, N.add_0_r.
  - destruct fuel as [|fuel]; [lia|].
    replace (d + N.of_nat (S (length bits))) with (d + 1 + N.of_nat (length bits)) by lia.
    rewrite Nat.sub_succ. apply (IH fuel (d + 1) (side m d b) ss); [lia..|].
    destruct b; symmetry in Hc; by apply smt_is_internal in Hc as [-> ->].
Qed.
End sound.

(** ** Completeness *)

(** The keys of [m] are hash values that share their first [d] bits. *)
Definition shares (m : gmap N N) (d : N) : Prop :=
  forall k v k' v', m !! k = Some v -> m !! k' = Some v' ->
    k < 2 ^ 256 /\ forall i, i < d -> Hash.bit k i = Hash.bit k' i.

Lemma shares_side m d b : shares m d -> shares (side m d b) (d + 1).
Proof.
  intros Hs k v k' v' [Hk Hb]%side_lookup [Hk' Hb']%side_lookup.
  destruct (Hs k v k' v' Hk Hk') as [Hlt Hi]. split; [done|]. intros i Hd.
  destruct (N.eq_dec i d) as [->|]; [congruence|]. apply Hi. lia.
Qed.

Lemma bits_inj k k' :
  k < 2 ^ 256 -> k' < 2 ^ 256 -> (forall i, i < 256 -> Hash.bit k i = Hash.bit k' i) -> k = k'.
Proof.
  intros Hk Hk' Hb. apply N.bits_inj. intros i. destruct (N.lt_ge_cases i 256) as [Hi|Hi].
  - specialize (Hb (255 - i)). rewrite !bit_testbit in Hb by lia.
    replace (255 - (255 - i)) with i in Hb by lia. apply Hb. lia.
  - by rewrite (testbit_small k 256), (testbit_small k' 256).
Qed.

Lemma shares_256 m p q l : shares m 256 -> map_to_list m <> p :: q :: l.
Proof.
  intros Hs Hm. destruct p as [k v], q as [k' v'].
  assert (m !! k = Some v /\ m !! k' = Some v') as [Hk Hk'].
  { split; apply elem_of_map_to_list; rewrite Hm; set_solver. }
  destruct (Hs k v k' v' Hk Hk') as [Hlt Hi]. destruct (Hs k' v' k v Hk' Hk) as [Hlt' _].
  assert (k = k') as -> by (by apply bits_inj).
  pose proof (NoDup_fst_map_to_list m) as Hnd. rewrite Hm in Hnd. simpl in Hnd.
  apply NoDup_cons in Hnd as [Hnd _]. set_solver.
Qed.

Lemma smt_path_empty fuel d key : smt_path fuel d ∅ key = (None, []).
Proof. by destruct fuel. Qed.

Lemma smt_path_singleton fuel d k v key :
  smt_path fuel d {[k := v]} key = (Some (mkSparseMerkleLeafNode k v), []).
Proof. destruct fuel; simpl; by rewrite map_to_list_singleton. Qed.

Lemma smt_path_climb fuel d m key :
  (fuel + N.to_nat d = 256)%nat -> shares m d ->
  let '(leaf, ss) := smt_path fuel d m key in
  (length ss <= fuel)%nat /\
  climb (take (length ss) (drop (N.to_nat d) (Hash.iter_bits key))) ss
    (from_option hash SPARSE_MERKLE_PLACEHOLDER_HASH leaf) = smt fuel d m /\
  (forall k v, leaf = Some (mkSparseMerkleLeafNode k v) -> m !! k = Some v /\
     follows k d (take (length ss) (drop (N.to_nat d) (Hash.iter_bits key)))) /\
  (m !! key = None \/ exists v, leaf = Some (mkSparseMerkleLeafNode key v)).
Proof.
  revert d m. induction fuel as [|fuel IH]; intros d m Hd Hs;
    (destruct (map_cases m) as [->|[(k & v & ->)|(p & q & l & Hm)]];
     [rewrite smt_path_empty, smt_empty; split_and!; [simpl; lia|done|done|left; apply lookup_empty]
     |rewrite smt_path_singleton, smt_singleton; split_and!;
      [simpl; lia|done|intros k' v' [= -> ->]; rewrite lookup_singleton_eq; by split|];
      destruct (N.eq_dec k key) as [->|]; [right; by exists v|left; by apply lookup_singleton_ne]|]).
  { assert (d = 256) as -> by lia. by apply shares_256 in Hm. }
  cbn [smt_path smt]. rewrite Hm. destruct p as [pk pv].
  specialize (IH (d + 1) (side m d (Hash.bit key d)) ltac:(lia) (shares_side _ _ _ Hs)).
  destruct (smt_path fuel (d + 1) (side m d (Hash.bit key d)) key) as [leaf ss].
  destruct IH as (Hlen & Hc & Hleaf & Hkey).
  assert (drop (N.to_nat d) (Hash.iter_bits key) = Hash.bit key d :: drop (N.to_nat (d + 1)) (Hash.iter_bits key)) as Hdrop.
  { replace (N.to_nat (d + 1)) with (S (N.to_nat d)) by lia.
    rewrite (drop_S _ (Hash.bit key d) (N.to_nat d)); [done|].
    rewrite iter_bits_lookup by lia. by rewrite N2Nat.id. }
  rewrite Hdrop. cbn [length take climb]. split_and!.
  - lia.
  - rewrite Hc. by destruct (Hash.bit key d).
  - intros k v Hk. destruct (Hleaf k v Hk) as [[Hm' Hb]%side_lookup Hf].
    split; [done|]. by apply follows_cons.
  - destruct Hkey as [Hnone|Hsome]; [left|by right].
    destruct (m !! key) as [v|] eqn:Hv; [|done].
    assert (side m d (Hash.bit key d) !! key = Some v) by (by apply side_lookup). congruence.
Qed.
End reference.
