(* ===== verification/StateProps.v ===== *)
(** * Sparse Merkle proofs prove what the tree holds

    A proof accepted against the root of a map shows what the map holds at the key,
    a value or nothing, and every key of every map has such a proof. *)

From S2P Require Import Prelude Crypto Errors Position PositionLemmas Accumulator StateProofs.

Lemma common_prefix_take l k (n : nat) :
  (n <= length l)%nat -> take n l = take n k -> N.of_nat n <= Hash.common_prefix_len l k.
Proof.
  revert l k. induction n as [|n IH]; intros l k Hn He; [lia|].
  destruct l as [|x l]; [simpl in Hn; lia|]. destruct k as [|y k]; [done|].
  simpl in He. injection He as -> He. simpl. rewrite eqb_reflx.
  apply IH in He; [lia|simpl in Hn; lia].
Qed.

Lemma follows_take k key (n : nat) :
  (n <= 256)%nat -> follows k 0 (take n (Hash.iter_bits key)) ->
  take n (Hash.iter_bits key) = take n (Hash.iter_bits k).
Proof.
  intros Hn Hf. apply list_eq. intros i. destruct (Nat.lt_ge_cases i n) as [Hi|Hi].
  - rewrite !lookup_take_lt by done. rewrite (iter_bits_lookup k) by lia.
    rewrite iter_bits_lookup by lia. f_equal. symmetry. rewrite <-(N.add_0_l (N.of_nat i)) at 1.
    apply Hf. rewrite lookup_take_lt by done. apply iter_bits_lookup. lia.
  - by rewrite !lookup_take_ge.
Qed.

Lemma iter_bits_follows key (n : nat) : (n <= 256)%nat -> follows key 0 (take n (Hash.iter_bits key)).
Proof.
  intros Hn i b Hi. apply lookup_take_Some in Hi as [Hi Hlt].
  rewrite iter_bits_lookup in Hi by lia. by injection Hi as <-.
Qed.

Lemma bit_lt a b j :
  (forall i, j < i -> N.testbit a i = N.testbit b i) -> N.testbit a j = false -> N.testbit b j = true ->
  ~ b < a.
Proof.
  intros Hh Ha Hb Hlt. assert (N.shiftr a (j + 1) = N.shiftr b (j + 1)) as Hs.
  { apply N.bits_inj. intros i. rewrite !N.shiftr_spec'. apply Hh. lia. }
  assert (forall c, N.shiftr c j = 2 * N.shiftr c (j + 1) + N.b2n (N.testbit c j)) as Hc.
  { intros c. rewrite <-N.shiftr_shiftr, <-N.div2_spec. rewrite (N.div2_odd (N.shiftr c j)) at 1.
    rewrite <-N.bit0_odd, N.shiftr_spec', N.add_0_l. done. }
  pose proof (Hc a) as Hca. pose proof (Hc b) as Hcb. rewrite Ha in Hca. rewrite Hb in Hcb. simpl in Hca, Hcb.
  rewrite !N.shiftr_div_pow2 in *. pose proof (N.Div0.div_le_mono b a (2 ^ j) ltac:(lia)). lia.
Qed.

Lemma first_difference (f g : nat -> bool) n :
  (forall i : nat, (i < n)%nat -> f i = g i) \/
  exists i : nat, (i < n)%nat /\ f i <> g i /\ forall i' : nat, (i' < i)%nat -> f i' = g i'.
Proof.
  induction n as [|n [IH|(i & Hi & Hd)]]; [left; lia| |right; exists i; split; [lia|done]].
  destruct (bool_decide_reflect (f n = g n)) as [He|He].
  - left. intros i Hi. destruct (decide (i = n)) as [->|]; [done|]. apply IH. lia.
  - right. exists n. split; [lia|done].
Qed.

(** The first bit in which a smaller key differs is set in the larger one. *)
Lemma lt_first_bit k key :
  k < key -> key < 2 ^ 256 ->
  exists i : nat, (i < 256)%nat /\ Hash.bit key (N.of_nat i) = true /\ Hash.bit k (N.of_nat i) = false /\
    follows k 0 (take i (Hash.iter_bits key)).
Proof.
  intros Hlt Hkey.
  assert (exists i : nat, (i < 256)%nat /\ Hash.bit k (N.of_nat i) <> Hash.bit key (N.of_nat i) /\
    forall i' : nat, (i' < i)%nat -> Hash.bit k (N.of_nat i') = Hash.bit key (N.of_nat i'))
    as (i & Hi & Hd & Hmin).
  { destruct (first_difference (fun i => Hash.bit k (N.of_nat i)) (fun i => Hash.bit key (N.of_nat i)) 256)
      as [He|?]; [|done].
    exfalso. enough (k = key) by lia. apply bits_inj; [lia|done|]. intros i Hi.
    rewrite <-(N2Nat.id i). apply He. lia. }
  assert (Hash.bit k (N.of_nat i) = false /\ Hash.bit key (N.of_nat i) = true) as [Hk Hb].
  { destruct (Hash.bit k (N.of_nat i)) eqn:Hk, (Hash.bit key (N.of_nat i)) eqn:Hb; try done.
    exfalso. apply (bit_lt key k (255 - N.of_nat i)) in Hlt; [done|..].
    - intros j Hj. specialize (Hmin (N.to_nat (255 - j))). rewrite N2Nat.id, !bit_testbit in Hmin by lia.
      destruct (N.lt_ge_cases j 256).
      + replace (255 - (255 - j)) with j in Hmin by lia. symmetry. apply Hmin. lia.
      + rewrite (testbit_small k 256), (testbit_small key 256); [done|lia..].
    - rewrite <-bit_testbit by lia. done.
    - rewrite <-bit_testbit by lia. done. }
  exists i. split_and!; try done. intros j b Hj. apply lookup_take_Some in Hj as [Hj Hji].
  rewrite iter_bits_lookup in Hj by lia. injection Hj as <-. by apply Hmin.
Qed.

(** Hashes without collisions within and between leaves, inner nodes and the
    placeholder: their hashers are seeded with different names. *)
Class SparseHashes `{MerkleHasher} `{CryptoHash SparseMerkleLeafNode} : Prop := {
  sh_internal : Inj2 (=) (=) (=) hash_internal;
  sh_leaf : CollisionFree SparseMerkleLeafNode;
  sh_leaf_internal : forall (l : SparseMerkleLeafNode) a b, hash l <> hash_internal a b;
  sh_leaf_placeholder : forall l : SparseMerkleLeafNode, hash l <> SPARSE_MERKLE_PLACEHOLDER_HASH;
  sh_internal_placeholder : forall a b, hash_internal a b <> SPARSE_MERKLE_PLACEHOLDER_HASH;
}.

Section lemmas.
Context `{SparseHashes}.

(** A path that ends in a leaf or in nothing ends in all that the map holds there. *)
Lemma path_sound m key ss leaf :
  (length ss <= 256)%nat ->
  foldl combine_sibling (from_option hash SPARSE_MERKLE_PLACEHOLDER_HASH leaf)
    (zip ss (bits_from_bottom key (length ss))) = smt_root m ->
  restrict m 0 (take (length ss) (Hash.iter_bits key)) =
    from_option (fun l => {[sml_key l := sml_value_hash l]}) ∅ leaf.
Proof.
  unfold smt_root. intros Hlen Hf. rewrite bits_from_bottom_take in Hf by done.
  assert (length (take (length ss) (Hash.iter_bits key)) = length ss) as Hl
    by (rewrite length_take, iter_bits_length; lia).
  rewrite <-(reverse_involutive ss) in Hf at 1. rewrite climb_fold in Hf by (rewrite length_reverse; done).
  apply (climb_sound sh_internal sh_leaf_internal sh_internal_placeholder) in Hf;
    [|rewrite length_reverse; done|lia].
  destruct leaf as [leaf|]; cbn [from_option] in Hf |- *; symmetry in Hf.
  - by apply (smt_is_leaf sh_leaf sh_leaf_internal sh_leaf_placeholder) in Hf.
  - by apply (smt_is_placeholder sh_leaf_placeholder sh_internal_placeholder) in Hf.
Qed.

Lemma side_self m d k : side m d (Hash.bit k d) !! k = m !! k.
Proof. apply option_eq. intros v. rewrite side_lookup. naive_solver. Qed.

Lemma side_eq m m' d : side m d false = side m' d false -> side m d true = side m' d true -> m = m'.
Proof.
  intros Hf Ht. apply map_eq. intros k. rewrite <-(side_self m d), <-(side_self m' d).
  destruct (Hash.bit k d); congruence.
Qed.

(** The root determines the map. *)
Lemma smt_inj fuel d m m' :
  (fuel + N.to_nat d = 256)%nat -> shares m d -> shares m' d -> smt fuel d m = smt fuel d m' -> m = m'.
Proof.
  revert d m m'. induction fuel as [|fuel IH]; intros d m m' Hd Hm Hm' He;
    (destruct (map_cases m) as [->|[(k & v & ->)|(p & q & l & Hl)]];
     [rewrite smt_empty in He; symmetry in He; symmetry;
      by apply (smt_is_placeholder sh_leaf_placeholder sh_internal_placeholder) in He
     |rewrite smt_singleton in He; symmetry in He; symmetry;
      by apply (smt_is_leaf sh_leaf sh_leaf_internal sh_leaf_placeholder) in He|]).
  { assert (d = 256) as -> by lia. by apply shares_256 in Hl. }
  assert (smt (S fuel) d m = hash_internal (smt fuel (d + 1) (side m d false)) (smt fuel (d + 1) (side m d true)))
    as Hi by (cbn [smt]; rewrite Hl; by destruct p).
  rewrite Hi in He. symmetry in He.
  apply (smt_is_internal sh_internal sh_leaf_internal sh_internal_placeholder) in He as [Hf Ht].
  apply (side_eq m m' d); apply (IH (d + 1)); try done; try lia; by apply shares_side.
Qed.
End lemmas.

(** The hashes of what the map holds to the left of a path, from the top. *)
Fixpoint lefts `{MerkleHasher} `{CryptoHash SparseMerkleLeafNode} (fuel : nat) (d : N) (m : gmap N N)
    (bits : list bool) : list HashValue :=
  match bits, fuel with
  | b :: bits, S fuel =>
      let rest := lefts fuel (d + 1) (side m d b) bits in
      if b then smt fuel (d + 1) (side m d false) :: rest else rest
  | _, _ => []
  end.

(** The siblings on the left of the first [n] nodes of the path of [key]. *)
Definition left_siblings_of `{MerkleHasher} `{CryptoHash SparseMerkleLeafNode} (m : gmap N N) (key : HashValue)
    (n : nat) : list HashValue :=
  reverse (lefts 256 0 m (take n (Hash.iter_bits key))).

Lemma bits_from_bottom_length key (n : nat) : (n <= 256)%nat -> length (bits_from_bottom key n) = n.
Proof.
  intros Hn. rewrite bits_from_bottom_take by done. rewrite length_reverse, length_take, iter_bits_length. lia.
Qed.

(** The siblings where the path turns right. *)
Fixpoint at_rights (bits : list bool) (ss : list HashValue) : list HashValue :=
  match bits, ss with
  | b :: bits, s :: ss => if b then s :: at_rights bits ss else at_rights bits ss
  | _, _ => []
  end.

Lemma at_rights_snoc bits ss b s :
  length bits = length ss ->
  at_rights (bits ++ [b]) (ss ++ [s]) = at_rights bits ss ++ (if b then [s] else []).
Proof.
  revert ss. induction bits as [|b' bits IH]; intros [|s' ss] Hl; simpl in *; try lia; [by destruct b|].
  destruct b'; simpl; by rewrite IH by lia.
Qed.

Lemma at_rights_reverse bits ss :
  length bits = length ss -> at_rights (reverse bits) (reverse ss) = reverse (at_rights bits ss).
Proof.
  revert ss. induction bits as [|b bits IH]; intros [|s ss] Hl; simpl in *; try lia; [done|].
  rewrite !reverse_cons, at_rights_snoc by (rewrite !length_reverse; lia).
  rewrite IH by lia. destruct b; [by rewrite reverse_cons|by rewrite app_nil_r].
Qed.

(** The two lists of siblings, interleaved; the loop takes the left ones in order. *)
Lemma range_loop_siblings `{MerkleHasher} bits lefts rights cur h :
  range_loop bits lefts rights cur = Ok h ->
  exists ss rest, length bits = length ss /\ foldl combine_sibling cur (zip ss bits) = h /\
    lefts = at_rights bits ss ++ rest.
Proof.
  revert lefts rights cur. induction bits as [|b bits IH]; intros lefts rights cur; simpl.
  - intros [= ->]. by exists [], lefts.
  - destruct b; [destruct lefts as [|s lefts]|destruct rights as [|s rights]]; try done;
      (intros (ss & rest & Hl & Hf & Hr)%IH; exists (s :: ss), rest; simpl; split_and!; [lia|done|]);
      [by rewrite Hr|done].
Qed.

Lemma at_rights_length bits ss :
  length bits = length ss -> length (at_rights bits ss) = length (filter (fun b => b = true) bits).
Proof.
  revert ss. induction bits as [|b bits IH]; intros [|s ss] Hl; simpl in *; try lia.
  rewrite filter_cons. destruct b; simpl; rewrite IH by lia; done.
Qed.

Lemma lefts_length `{MerkleHasher} `{CryptoHash SparseMerkleLeafNode} fuel d m bits :
  (length bits <= fuel)%nat -> length (lefts fuel d m bits) = length (filter (fun b => b = true) bits).
Proof.
  revert fuel d m. induction bits as [|b bits IH]; intros [|fuel] d m Hl; simpl in *; try lia.
  rewrite filter_cons. destruct b; simpl; rewrite IH by lia; done.
Qed.

(** On the way down, equal hashes on the left are equal maps on the left. *)
Lemma lefts_agree `{SparseHashes} fuel d m known bits ss cur :
  length bits = length ss -> (length bits <= fuel)%nat -> (fuel + N.to_nat d = 256)%nat ->
  shares m d -> shares known d ->
  climb bits ss cur = smt fuel d m -> at_rights bits ss = lefts fuel d known bits ->
  forall (i : nat) k, bits !! i = Some true -> follows k d (take i bits) -> Hash.bit k (d + N.of_nat i) = false ->
  m !! k = known !! k.
Proof.
  revert fuel d m known ss. induction bits as [|b bits IH]; intros [|fuel] d m known [|s ss] Hl Hf Hd Hm Hk Hc Hr i k Hi Hfol Hb;
    cbn [length] in *; try lia; try done.
  cbn [climb] in Hc. cbn [at_rights lefts] in Hr.
  assert (forall b', climb bits ss cur = smt fuel (d + 1) (side m d b') ->
    at_rights bits ss = lefts fuel (d + 1) (side known d b') bits ->
    b = b' -> i <> 0%nat -> m !! k = known !! k) as Hrec.
  { intros b' Hc' Hr' -> Hi0. destruct i as [|i]; [done|]. cbn [take] in Hfol.
    apply follows_cons in Hfol as [Hbd Hfol].
    assert (side m d b' !! k = side known d b' !! k) as He.
    { apply (IH fuel (d + 1) (side m d b') (side known d b') ss) with (i := i); try done; try lia.
      1, 2: by apply shares_side. by replace (d + 1 + N.of_nat i) with (d + N.of_nat (S i)) by lia. }
    by rewrite <-(side_self m d), <-(side_self known d), Hbd. }
  unfold combine_sibling in Hc. destruct b; symmetry in Hc;
    apply (smt_is_internal sh_internal sh_leaf_internal sh_internal_placeholder) in Hc as [Hcl Hcr].
  - injection Hr as Hs Hr. destruct (decide (i = 0%nat)) as [->|Hi0]; [|by apply (Hrec true)].
    rewrite N.add_0_r in Hb. rewrite Hs in Hcl.
    apply smt_inj in Hcl; [|lia|by apply shares_side..].
    by rewrite <-(side_self m d), <-(side_self known d), Hb, Hcl.
  - destruct i as [|i]; [done|]. by apply (Hrec false).
Qed.

Lemma range_agrees `{SparseHashes} fuel m known key ss leaf rest :
  fuel = 256%nat -> (length ss <= 256)%nat -> shares m 0 -> shares known 0 ->
  foldl combine_sibling (hash (leaf : SparseMerkleLeafNode)) (zip ss (bits_from_bottom key (length ss))) = smt fuel 0 m ->
  reverse (lefts fuel 0 known (take (length ss) (Hash.iter_bits key))) = at_rights (bits_from_bottom key (length ss)) ss ++ rest ->
  forall (i : nat) k, take (length ss) (Hash.iter_bits key) !! i = Some true ->
  follows k 0 (take i (take (length ss) (Hash.iter_bits key))) -> Hash.bit k (N.of_nat i) = false ->
  m !! k = known !! k.
Proof.
  intros Hfuel Hlen Hm Hk Hf Hl i k Hi Hfol Hb.
  rewrite bits_from_bottom_take in Hf, Hl by done.
  set (bits := take (length ss) (Hash.iter_bits key)) in *.
  assert (length bits = length ss) as Hbl by (unfold bits; rewrite length_take, iter_bits_length; lia).
  rewrite <-(reverse_involutive ss) in Hf at 1. rewrite climb_fold in Hf by (rewrite length_reverse; done).
  rewrite <-(reverse_involutive ss) in Hl at 1. rewrite at_rights_reverse in Hl by (rewrite length_reverse; done).
  assert (rest = []) as ->.
  { apply nil_length_inv. apply (f_equal length) in Hl. rewrite length_app, !length_reverse in Hl.
    rewrite lefts_length, at_rights_length in Hl by (rewrite ?length_reverse; lia). lia. }
  rewrite app_nil_r in Hl. apply (inj reverse) in Hl.
  eapply (lefts_agree fuel 0 m known bits (reverse ss)); try done; try (rewrite ?length_reverse; lia).
Qed.

(** Collision-free hashes and a small map, for the examples. *)
Module Toy.
Definition internal : MerkleHasher := fun a b => SPARSE_MERKLE_PLACEHOLDER_HASH + 1 + 2 * Npos (encode (a, b)).
Definition leaf : CryptoHash SparseMerkleLeafNode := fun l => SPARSE_MERKLE_PLACEHOLDER_HASH + 2 * Npos (encode l).
#[local] Existing Instance internal.
#[local] Existing Instance leaf.
Lemma hashes : SparseHashes.
Proof.
  split.
  - intros a b a' b' He. unfold hash_internal, internal in He.
    assert (encode (a, b) = encode (a', b')) as [= -> ->]%(inj encode) by lia. done.
  - intros l l' He. unfold hash, leaf in He. apply (inj encode). lia.
  - unfold hash, leaf, hash_internal, internal. lia.
  - unfold hash, leaf. lia.
  - unfold hash_internal, internal. lia.
Qed.
Definition map3 : gmap N N := {[ 1 := 11; 2 ^ 255 := 12; 2 ^ 254 + 3 := 13 ]}.
End Toy.
#[local] Existing Instance Toy.internal.
#[local] Existing Instance Toy.leaf.
#[local] Existing Instance Toy.hashes.

(** Conversion unfolds the roots before the trees. *)
#[local] Strategy 100 [smt lefts].

Module StateProps.

(** C32: a sparse Merkle proof accepted against the root of a map shows exactly what
    the map holds at the key: that value, or, for a proof of non-inclusion, nothing. *)
Theorem state_proof_sound `{SparseHashes} (m : gmap N N) (pf : SparseMerkleProof) (key : HashValue)
    (value : option HashValue) :
  SparseMerkleProof_verify_by_hash pf (smt_root m) key value = Ok tt -> m !! key = value.
Proof.
  unfold SparseMerkleProof_verify_by_hash. intros Hv.
  apply bind_Ok in Hv as (? & Hlen%ensure_Ok & Hv). apply N.leb_le in Hlen.
  change Hash.LENGTH_IN_BITS with 256 in Hlen.
  apply bind_Ok in Hv as ([] & Hcheck & Hroot%ensure_Ok). apply N.eqb_eq in Hroot.
  apply path_sound in Hroot; [|lia].
  pose proof (iter_bits_follows key (length (smp_siblings pf)) ltac:(lia)) as Hkey.
  unfold check_leaf in Hcheck. destruct value as [h|], (smp_leaf pf) as [leaf|]; simpl in Hroot; try done.
  - apply bind_Ok in Hcheck as (? & Hk%ensure_Ok & Hh%ensure_Ok).
    apply N.eqb_eq in Hk, Hh. subst.
    eapply proj1, restrict_lookup. rewrite Hroot. apply lookup_singleton_eq.
  - apply bind_Ok in Hcheck as (? & Hk%ensure_Ok & _). apply negb_true_iff, N.eqb_neq in Hk.
    destruct (m !! key) as [v|] eqn:Hm; [|done].
    pose proof (proj2 (restrict_lookup m 0 _ key v) (conj Hm Hkey)) as Hr.
    rewrite Hroot in Hr. apply lookup_singleton_Some in Hr as [? _]. congruence.
  - destruct (m !! key) as [v|] eqn:Hm; [|done].
    pose proof (proj2 (restrict_lookup m 0 _ key v) (conj Hm Hkey)) as Hr.
    rewrite Hroot in Hr. by rewrite lookup_empty in Hr.
Qed.
Lemma state_proof_sound_witness :
  Toy.map3 !! (2 ^ 255) = Some 12 /\ Toy.map3 !! 7 = None.
Proof.
  split.
  - apply (state_proof_sound Toy.map3 (smt_proof Toy.map3 (2 ^ 255)) (2 ^ 255) (Some 12)). by vm_compute.
  - apply (state_proof_sound Toy.map3 (smt_proof Toy.map3 7) 7 None). by vm_compute.
Defined.

(** Every map of 256-bit keys has a proof for every key, present or not, that
    the verifier accepts. *)
Theorem state_proof_complete `{MerkleHasher} `{CryptoHash SparseMerkleLeafNode} (m : gmap N N) (key : HashValue) :
  (forall k v, m !! k = Some v -> k < 2 ^ 256) ->
  SparseMerkleProof_verify_by_hash (smt_proof m key) (smt_root m) key (m !! key) = Ok tt.
Proof.
  intros Hm. assert (shares m 0) as Hs by (intros k v k' v' Hk Hk'; split; [by eapply Hm|lia]).
  pose proof (smt_path_climb 256 0 m key eq_refl Hs) as Hp. unfold smt_proof.
  destruct (smt_path 256 0 m key) as [leaf ss]. rewrite drop_0 in Hp. destruct Hp as (Hlen & Hc & Hleaf & Hkey).
  unfold SparseMerkleProof_verify_by_hash, check_leaf. cbn [smp_siblings smp_leaf].
  rewrite length_reverse, bits_from_bottom_take, climb_fold by
    (rewrite ?length_take, ?iter_bits_length; lia).
  rewrite (proj2 (N.leb_le _ _)) by (change Hash.LENGTH_IN_BITS with 256; lia). cbn [ensure mbind outcome_bind].
  rewrite Hc. unfold smt_root. rewrite N.eqb_refl.
  destruct leaf as [[k v]|].
  - destruct (Hleaf k v eq_refl) as [Hk Hf]. cbn [sml_key sml_value_hash].
    destruct (N.eq_dec key k) as [->|Hne].
    + rewrite Hk, !N.eqb_refl. done.
    + destruct Hkey as [->|(v' & [= ? ?])]; [|congruence].
      rewrite (proj2 (N.eqb_neq key k)) by done. cbn [negb ensure mbind outcome_bind].
      rewrite (proj2 (N.leb_le _ _)); [done|]. unfold Hash.common_prefix_bits_len.
      apply common_prefix_take; [rewrite iter_bits_length; lia|]. by apply follows_take.
  - by destruct Hkey as [->|(v' & ?)].
Qed.
Lemma state_proof_complete_witness :
  SparseMerkleProof_verify_by_hash (smt_proof Toy.map3 1) (smt_root Toy.map3) 1 (Some 11) = Ok tt.
Proof.
  apply (state_proof_complete Toy.map3 1). intros k v Hk.
  apply elem_of_map_to_list in Hk. vm_compute in Hk. set_solver.
Defined.

(** A range proof shows the whole left part of a tree: when the left siblings are
    those of the known leaves and the proof is accepted against the root of a map, the
    map holds the rightmost known leaf and, below its key, the known leaves and no
    others. *)
Theorem range_proof_sound `{SparseHashes} (m known : gmap N N) (pf : SparseMerkleRangeProof)
    (leaf : SparseMerkleLeafNode) (n : nat) :
  (forall k v, m !! k = Some v \/ known !! k = Some v -> k < 2 ^ 256) -> sml_key leaf < 2 ^ 256 ->
  restrict known 0 (take n (Hash.iter_bits (sml_key leaf))) = {[sml_key leaf := sml_value_hash leaf]} ->
  n = (length (left_siblings_of known (sml_key leaf) n) + length (smrp_right_siblings pf))%nat ->
  SparseMerkleRangeProof_verify pf (smt_root m) leaf (left_siblings_of known (sml_key leaf) n) = Ok tt ->
  forall k, k <= sml_key leaf -> m !! k = known !! k.
Proof.
  intros Hkeys Hkey Honly Hn Hv k Hk. unfold SparseMerkleRangeProof_verify in Hv. rewrite <-Hn in Hv.
  apply bind_Ok in Hv as (? & [-> Hlen]%sub64_Ok & Hv).
  assert (Hash.LENGTH_IN_BITS = 256) as E by done. rewrite E in Hlen. clear E.
  apply bind_Ok in Hv as (h & Hloop & Hroot%ensure_Ok). apply N.eqb_eq in Hroot. subst h.
  apply range_loop_siblings in Hloop as (ss & rest & Hl & Hf & Hr).
  rewrite bits_from_bottom_length in Hl by lia. subst n. set (n := length ss) in *.
  pose proof (path_sound m (sml_key leaf) ss (Some leaf) ltac:(lia) Hf) as Hm. cbn [from_option] in Hm. fold n in Hm.
  assert (shares m 0 /\ shares known 0) as [Hsm Hsk] by (split; intros ? ? ? ? ? ?; (split; [by eauto|lia])).
  assert (follows k 0 (take n (Hash.iter_bits (sml_key leaf))) -> m !! k = known !! k) as Hend.
  { intros Hfol. apply option_eq. intros v.
    transitivity (restrict known 0 (take n (Hash.iter_bits (sml_key leaf))) !! k = Some v);
      [rewrite Honly, <-Hm|]; rewrite restrict_lookup; naive_solver. }
  destruct (N.eq_dec k (sml_key leaf)) as [->|Hne]; [apply Hend, iter_bits_follows; lia|].
  destruct (lt_first_bit k (sml_key leaf) ltac:(lia) Hkey) as (i & Hi & Hb & Hb' & Hfol).
  destruct (Nat.lt_ge_cases i n) as [Hin|Hin].
  - assert (take n (Hash.iter_bits (sml_key leaf)) !! i = Some true) as Hib
      by (rewrite lookup_take_lt, iter_bits_lookup, Hb by lia; done).
    refine (range_agrees 256 m known (sml_key leaf) ss leaf rest eq_refl _ Hsm Hsk Hf Hr i k Hib _ Hb'); [lia|].
    by rewrite take_take, Nat.min_l by lia.
  - apply Hend. rewrite <-(Nat.min_l n i), <-take_take by lia. intros j b Hj. apply Hfol.
    by apply lookup_take_Some in Hj as [].
Qed.
Lemma range_proof_sound_witness : Toy.map3 !! 2 = ({[1 := 11; 2 ^ 254 + 3 := 13]} : gmap N N) !! 2.
Proof.
  apply (range_proof_sound Toy.map3 {[1 := 11; 2 ^ 254 + 3 := 13]}
    (mkSparseMerkleRangeProof [hash (mkSparseMerkleLeafNode (2 ^ 255) 12)])
    (mkSparseMerkleLeafNode (2 ^ 254 + 3) 13) 2);
    [|done|vm_compute; reflexivity..|done].
  intros k v [Hk|Hk]; apply elem_of_map_to_list in Hk; vm_compute in Hk; set_solver.
Defined.
End StateProps.
