(* ===== verification/TransactionProofs.v ===== *)
(** * Proofs about transactions (types/src/proof/definition.rs, types/src/transaction/mod.rs)

    [AccumulatorRangeProof], the proofs of one transaction info and of a list of
    them, and what clients and state sync check with them: [TransactionWithProof],
    [TransactionListWithProof], [TransactionOutputListWithProof] and
    [AccountTransactionsWithProof].  The hasher of the transaction accumulator is the
    [MerkleHasher] in context, the one of the event accumulator is an argument. *)

From S2P Require Import Prelude Crypto Errors Position Accumulator Verifier Ledger ConsensusTypes Blocks.

(** ** Data *)

(** Locations and status codes of the VM are kept as their identity. *)
Inductive ExecutionStatus : Type :=
  | Success
  | OutOfGas
  | MoveAbort (location code : N)
  | ExecutionFailure (location function code_offset : N)
  | MiscellaneousError (code : option N).
#[global] Instance ExecutionStatus_eq_dec : EqDecision ExecutionStatus.
Proof. solve_decision. Defined.

Inductive TransactionStatus : Type :=
  | Discard (status : N)
  | Keep (status : ExecutionStatus)
  | Retry.
#[global] Instance TransactionStatus_eq_dec : EqDecision TransactionStatus.
Proof. solve_decision. Defined.

Record TransactionInfo : Type := mkTransactionInfo {
  ti_gas_used : N;
  ti_status : ExecutionStatus;
  ti_transaction_hash : HashValue;
  ti_event_root_hash : HashValue;
  ti_state_change_hash : HashValue;
  ti_state_checkpoint_hash : option HashValue;
}.
#[global] Instance TransactionInfo_eq_dec : EqDecision TransactionInfo.
Proof. solve_decision. Defined.

Definition TransactionInfo_is_state_checkpoint (self : TransactionInfo) : bool :=
  match ti_state_checkpoint_hash self with Some _ => true | None => false end.

Definition TransactionInfo_ensure_state_checkpoint_hash (self : TransactionInfo) : result HashValue :=
  ok_or (ti_state_checkpoint_hash self) (Msg "State checkpoint hash not present in TransactionInfo").

(** [EventKey] (types/src/event.rs) and [ContractEvent] (types/src/contract_event.rs).
    A type tag, the data of an event and a write set are kept as their identity. *)
Record EventKey : Type := mkEventKey {
  ek_creation_number : N;
  ek_account_address : AccountAddress;
}.
#[global] Instance EventKey_eq_dec : EqDecision EventKey.
Proof. solve_decision. Defined.

Record ContractEvent : Type := mkContractEvent {
  ce_key : EventKey;
  ce_sequence_number : N;
  ce_type_tag : N;
  ce_event_data : N;
}.
#[global] Instance ContractEvent_eq_dec : EqDecision ContractEvent.
Proof. solve_decision. Defined.

Record TransactionOutput : Type := mkTransactionOutput {
  tout_write_set : N;
  tout_events : list ContractEvent;
  tout_gas_used : N;
  tout_status : TransactionStatus;
}.

Definition as_signed_user_txn (self : Transaction) : result SignedTransaction :=
  match self with
  | UserTransaction txn => Ok txn
  | _ => Err (Msg "Not a user transaction.")
  end.

(** ** Range proofs *)
Record AccumulatorRangeProof : Type := mkAccumulatorRangeProof {
  left_siblings : list HashValue;
  right_siblings : list HashValue;
}.

Section range.
Context `{MerkleHasher}.

(** [chunks_exact(2)] with its remainder. *)
Fixpoint pair_up (l : list HashValue) : list HashValue * list HashValue :=
  match l with
  | x :: y :: l => let '(ps, rest) := pair_up l in (hash_internal x y :: ps, rest)
  | rest => ([], rest)
  end.

(** The parent of a first hash that is a right child, and what is left. *)
Definition range_first (first_pos : Position) (lefts current : list HashValue)
    : result (list HashValue * list HashValue * list HashValue) :=
  if Position.is_right_child first_pos then
    left_hash ← ok_or (head lefts)
                  (Msg "First child is a right child, but missing sibling on the left.");
    right_hash ← expect (head current);
    Ok ([hash_internal left_hash right_hash], tail lefts, tail current)
  else Ok ([], lefts, current).

(** One iteration of the loop: the parents, and what is left of the siblings. *)
Definition range_step (first_pos : Position) (lefts rights current : list HashValue)
    : result (list HashValue * list HashValue * list HashValue) :=
  f ← range_first first_pos lefts current;
  let '(first, lefts, children) := f in
  let '(pairs, remainder) := pair_up children in
  match remainder with
  | [] => Ok (first ++ pairs, lefts, rights)
  | left_hash :: _ =>
      right_hash ← ok_or (head rights)
                     (Msg "Last child is a left child, but missing sibling on the right.");
      Ok (first ++ pairs ++ [hash_internal left_hash right_hash], lefts, tail rights)
  end.

(** The loop.  Each iteration shortens the hashes or the siblings, so as many
    iterations as there are hashes and siblings are enough. *)
Fixpoint range_reduce (fuel : nat) (first_pos : Position) (lefts rights current : list HashValue)
    : result (list HashValue) :=
  if (Nat.ltb 1 (length current)) || negb (bool_decide (lefts = [])) || negb (bool_decide (rights = []))
  then
    match fuel with
    | O => Panic
    | S fuel =>
        s ← range_step first_pos lefts rights current;
        let '(parents, lefts, rights) := s in
        range_reduce fuel (Position.parent first_pos) lefts rights parents
    end
  else Ok current.

Definition AccumulatorRangeProof_verify (self : AccumulatorRangeProof)
    (expected_root_hash : HashValue) (first_leaf_index : option N) (leaf_hashes : list HashValue)
    : result unit :=
  match first_leaf_index with
  | None =>
      _ ← ensure (bool_decide (leaf_hashes = []))
            (Msg "first_leaf_index indicated empty list while leaf_hashes is not empty.");
      ensure (bool_decide (left_siblings self = []) && bool_decide (right_siblings self = []))
        (Msg "No siblings are needed.")
  | Some first_leaf_index =>
      _ ← ensure (N.of_nat (length (left_siblings self)) <=? MAX_ACCUMULATOR_PROOF_DEPTH)
            (Msg "Proof has too many left siblings.");
      _ ← ensure (N.of_nat (length (right_siblings self)) <=? MAX_ACCUMULATOR_PROOF_DEPTH)
            (Msg "Proof has too many right siblings.");
      _ ← ensure (negb (bool_decide (leaf_hashes = [])))
            (Msg "leaf_hashes is empty while first_leaf_index indicated non-empty list.");
      current ← range_reduce
                  (length leaf_hashes + length (left_siblings self) + length (right_siblings self))
                  (Position.from_leaf_index first_leaf_index)
                  (left_siblings self) (right_siblings self) leaf_hashes;
      root ← expect (head current);
      ensure (root =? expected_root_hash) (Msg "Root hashes do not match.")
  end.
End range.

(** ** Transaction infos in the ledger *)
Record TransactionInfoWithProof : Type := mkTransactionInfoWithProof {
  ledger_info_to_transaction_info_proof : AccumulatorProof;
  transaction_info : TransactionInfo;
}.

Record TransactionInfoListWithProof : Type := mkTransactionInfoListWithProof {
  ledger_info_to_transaction_infos_proof : AccumulatorRangeProof;
  transaction_infos : list TransactionInfo;
}.

Section infos.
Context `{MerkleHasher} `{CryptoHash TransactionInfo}.

Definition verify_transaction_info (ledger_info : LedgerInfo) (transaction_version : Version)
    (transaction_info : TransactionInfo) (proof : AccumulatorProof) : result unit :=
  _ ← ensure (transaction_version <=? LedgerInfo.version ledger_info)
        (Msg "Transaction version is newer than LedgerInfo version.");
  AccumulatorProof_verify proof (LedgerInfo.transaction_accumulator_hash ledger_info)
    (hash transaction_info) transaction_version.

Definition TransactionInfoWithProof_verify (self : TransactionInfoWithProof)
    (ledger_info : LedgerInfo) (transaction_version : Version) : result unit :=
  verify_transaction_info ledger_info transaction_version (transaction_info self)
    (ledger_info_to_transaction_info_proof self).

Definition TransactionInfoListWithProof_verify (self : TransactionInfoListWithProof)
    (ledger_info : LedgerInfo) (first_transaction_info_version : option Version) : result unit :=
  AccumulatorRangeProof_verify (ledger_info_to_transaction_infos_proof self)
    (LedgerInfo.transaction_accumulator_hash ledger_info) first_transaction_info_version
    (hash <$> transaction_infos self).

Definition verify_extends_ledger (self : TransactionInfoListWithProof)
    (num_txns_in_ledger : LeafCount) (root : HashValue)
    (first_transaction_info_version : option Version) : result N :=
  match first_transaction_info_version with
  | Some first_version =>
      _ ← ensure (first_version <=? num_txns_in_ledger) (Msg "Transaction list too new.");
      num_overlap_txns ← sub64 num_txns_in_ledger first_version;
      if N.of_nat (length (transaction_infos self)) <? num_overlap_txns
      then Ok (N.of_nat (length (transaction_infos self)))
      else
        let overlap_txn_infos := take (N.to_nat num_overlap_txns) (transaction_infos self) in
        let frozen_subtree_roots_from_proof :=
          reverse (left_siblings (ledger_info_to_transaction_infos_proof self)) in
        accu ← Acc.new frozen_subtree_roots_from_proof first_version;
        accu_from_proof ← Acc.append accu (hash <$> overlap_txn_infos);
        _ ← ensure (root_hash accu_from_proof =? root)
              (Msg "Fork happens because the current synced_trees doesn't match the txn list provided.");
        Ok num_overlap_txns
  | None =>
      _ ← ensure (bool_decide (transaction_infos self = [])) (Msg "Condition failed");
      Ok 0
  end.
End infos.

(** ** Transactions with proofs *)
Record TransactionWithProof : Type := mkTransactionWithProof {
  twp_version : Version;
  twp_transaction : Transaction;
  twp_events : option (list ContractEvent);
  twp_proof : TransactionInfoWithProof;
}.

Record TransactionListWithProof : Type := mkTransactionListWithProof {
  tl_transactions : list Transaction;
  tl_events : option (list (list ContractEvent));
  tl_first_transaction_version : option Version;
  tl_proof : TransactionInfoListWithProof;
}.

Record TransactionOutputListWithProof : Type := mkTransactionOutputListWithProof {
  tol_transactions_and_outputs : list (Transaction * TransactionOutput);
  tol_first_transaction_output_version : option Version;
  tol_proof : TransactionInfoListWithProof;
}.

Abbreviation AccountTransactionsWithProof := (list TransactionWithProof) (only parsing).

Section transactions.
Context `{MerkleHasher} (event_hasher : HashValue -> HashValue -> HashValue).
Context `{CryptoHash TransactionInfo} `{CryptoHash Transaction} `{CryptoHash ContractEvent}.

(** [InMemoryAccumulator::<EventAccumulatorHasher>::from_leaves(&hashes).root_hash()] *)
Definition event_root_hash (events : list ContractEvent) : result HashValue :=
  acc ← @Acc.from_leaves event_hasher AnyError (hash <$> events); Ok (root_hash acc).

Definition verify_events_against_root_hash (events : list ContractEvent)
    (transaction_info : TransactionInfo) : result unit :=
  root ← event_root_hash events;
  ensure (root =? ti_event_root_hash transaction_info)
    (Msg "The event root hash calculated doesn't match that carried on the transaction info!").

Definition verify_user_txn (self : TransactionWithProof) (ledger_info : LedgerInfo)
    (version : Version) (sender : AccountAddress) (sequence_number : N) : result unit :=
  signed_transaction ← as_signed_user_txn (twp_transaction self);
  _ ← ensure (twp_version self =? version) (Msg "Version is not expected.");
  _ ← ensure (txn_sender signed_transaction =? sender) (Msg "Sender not expected.");
  _ ← ensure (txn_sequence_number signed_transaction =? sequence_number)
        (Msg "Sequence number not expected.");
  _ ← ensure (hash (twp_transaction self) =? ti_transaction_hash (transaction_info (twp_proof self)))
        (Msg "Transaction hash not expected.");
  _ ← match twp_events self with
      | Some events =>
          root ← event_root_hash events;
          ensure (root =? ti_event_root_hash (transaction_info (twp_proof self)))
            (Msg "Event root hash not expected.")
      | None => Ok tt
      end;
  TransactionInfoWithProof_verify (twp_proof self) ledger_info version.

(** The hashes of the transactions against the infos, in step. *)
Fixpoint check_transaction_hashes (txns : list Transaction) (infos : list TransactionInfo)
    : result unit :=
  match txns, infos with
  | [], [] => Ok tt
  | txn :: txns, info :: infos =>
      _ ← ensure (hash txn =? ti_transaction_hash info)
            (Msg "The hash of transaction does not match the transaction info in proof.");
      check_transaction_hashes txns infos
  | _, _ => Panic
  end.

Fixpoint check_event_lists (event_lists : list (list ContractEvent)) (infos : list TransactionInfo)
    : result unit :=
  match event_lists, infos with
  | [], [] => Ok tt
  | events :: event_lists, info :: infos =>
      _ ← verify_events_against_root_hash events info; check_event_lists event_lists infos
  | _, _ => Panic
  end.

Definition TransactionListWithProof_verify (self : TransactionListWithProof)
    (ledger_info : LedgerInfo) (first_transaction_version : option Version) : result unit :=
  _ ← ensure (bool_decide (tl_first_transaction_version self = first_transaction_version))
        (Msg "First transaction version doesn't match given version.");
  _ ← ensure (bool_decide (length (transaction_infos (tl_proof self)) = length (tl_transactions self)))
        (Msg "The number of TransactionInfo objects does not match the number of transactions.");
  _ ← check_transaction_hashes (tl_transactions self) (transaction_infos (tl_proof self));
  _ ← TransactionInfoListWithProof_verify (tl_proof self) ledger_info (tl_first_transaction_version self);
  match tl_events self with
  | Some event_lists =>
      _ ← ensure (bool_decide (length event_lists = length (tl_transactions self)))
            (Msg "The length of event_lists does not match the number of transactions.");
      check_event_lists event_lists (transaction_infos (tl_proof self))
  | None => Ok tt
  end.

Definition check_output (txn : Transaction) (output : TransactionOutput) (info : TransactionInfo)
    : result unit :=
  _ ← verify_events_against_root_hash (tout_events output) info;
  _ ← ensure (tout_gas_used output =? ti_gas_used info)
        (Msg "The gas used in transaction output does not match the transaction info in proof.");
  _ ← ensure (bool_decide (tout_status output = Keep (ti_status info)))
        (Msg "The execution status of transaction output does not match the transaction info in proof.");
  ensure (hash txn =? ti_transaction_hash info)
    (Msg "The transaction hash does not match the hash in transaction info.").

Fixpoint check_outputs (outputs : list (Transaction * TransactionOutput)) (infos : list TransactionInfo)
    : result unit :=
  match outputs, infos with
  | [], [] => Ok tt
  | (txn, output) :: outputs, info :: infos =>
      _ ← check_output txn output info; check_outputs outputs infos
  | _, _ => Panic
  end.

Definition TransactionOutputListWithProof_verify (self : TransactionOutputListWithProof)
    (ledger_info : LedgerInfo) (first_transaction_output_version : option Version) : result unit :=
  _ ← ensure (bool_decide (tol_first_transaction_output_version self = first_transaction_output_version))
        (Msg "First transaction and output version doesn't match given version.");
  _ ← ensure (bool_decide (length (transaction_infos (tol_proof self)) =
                           length (tol_transactions_and_outputs self)))
        (Msg "The number of TransactionInfo objects does not match the number of transactions and outputs.");
  _ ← check_outputs (tol_transactions_and_outputs self) (transaction_infos (tol_proof self));
  TransactionInfoListWithProof_verify (tol_proof self) ledger_info
    (tol_first_transaction_output_version self).

(** The [try_for_each] over the transactions with their offsets. *)
Fixpoint check_account_transactions (txns : list TransactionWithProof) (seq_num_offset : N)
    (ledger_info : LedgerInfo) (account : AccountAddress) (start_seq_num : N)
    (include_events : bool) (ledger_version : Version) : result unit :=
  match txns with
  | [] => Ok tt
  | txn :: txns =>
      let expected_seq_num := saturating_add start_seq_num seq_num_offset in
      _ ← ensure (eqb include_events (bool_decide (is_Some (twp_events txn))))
            (Msg "unexpected events or missing events");
      _ ← ensure (twp_version txn <=? ledger_version)
            (Msg "transaction with version greater than requested ledger version");
      _ ← verify_user_txn txn ledger_info (twp_version txn) account expected_seq_num;
      check_account_transactions txns (seq_num_offset + 1) ledger_info account start_seq_num
        include_events ledger_version
  end.

Definition AccountTransactionsWithProof_verify (self : AccountTransactionsWithProof)
    (ledger_info : LedgerInfo) (account : AccountAddress) (start_seq_num limit : N)
    (include_events : bool) (ledger_version : Version) : result unit :=
  _ ← ensure (N.of_nat (length self) <=? limit) (Msg "number of account transactions exceeded limit");
  check_account_transactions self 0 ledger_info account start_seq_num include_events ledger_version.
End transactions.
