(* ===== verification/TransactionLemmas.v ===== *)
(** * What accumulator proofs of any depth show

    When the hashes of leaves, inner nodes and the placeholder cannot be confused, a
    proof accepted against a Merkle root has the depth of the tree: a path or a range
    that climbs to the root from something that looks like a leaf starts at leaves. *)

From S2P Require Import Prelude Crypto Errors Position PositionLemmas Accumulator AccumulatorLemmas TransactionProofs.

(** Neither the placeholder nor the hash of an inner node. *)
Definition leaf_like `{MerkleHasher} (x : HashValue) : Prop :=
  x <> ACCUMULATOR_PLACEHOLDER_HASH /\ forall a b, x <> hash_internal a b.

(** ** The range loop ends *)
Section range_total.
Context `{MerkleHasher}.

Lemma pair_up_length l : length (pair_up l).1 = (length l / 2)%nat /\ length (pair_up l).2 = (length l mod 2)%nat.
Proof.
  assert (forall n l, (length l <= n)%nat -> length l = (2 * length (pair_up l).1 + length (pair_up l).2)%nat /\
    (length (pair_up l).2 <= 1)%nat) as Hp.
  { clear l. induction n as [|n IH]; intros [|x [|y l]] Hl; cbn [length] in Hl; try (simpl; lia).
    destruct (IH l ltac:(lia)) as [He Hr]. cbn [pair_up]. destruct (pair_up l) as [ps rest]; simpl in *. lia. }
  destruct (Hp _ l (le_n _)) as [He Hr]. split; [apply (Nat.div_unique _ 2 _ (length (pair_up l).2))|
    apply (Nat.mod_unique _ 2 (length (pair_up l).1))]; lia.
Qed.

#[local] Arguments pair_up : simpl never.

(** An iteration shortens the hashes and siblings taken together. *)
Lemma range_step_shorter pos lefts rights cur :
  cur <> [] ->
  match range_step pos lefts rights cur with
  | Ok (ps, lefts', rights') =>
      ps <> [] /\ (length ps + length lefts' + length rights' < length cur + length lefts + length rights)%nat
  | Err _ => True
  | Panic => False
  end.
Proof.
  intros Hne. unfold range_step, range_first.
  destruct (Position.is_right_child pos), lefts as [|l lefts], cur as [|c cur]; try done; simpl;
    match goal with |- context [pair_up ?l] => pose proof (pair_up_length l) as [Hp Hr] end;
    destruct (pair_up _) as [ps rest]; simpl in *.
  all: pose proof (Nat.div_mod_eq (length cur) 2); pose proof (Nat.div_mod_eq (S (length cur)) 2).
  all: destruct rest as [|x rest], rights as [|r rights]; simpl in *; try done.
  all: split; [intros E%(f_equal length); revert E|]; rewrite ?length_app; simpl; lia.
Qed.

Lemma range_reduce_total fuel pos lefts rights cur :
  cur <> [] -> (length cur + length lefts + length rights <= fuel)%nat ->
  match range_reduce fuel pos lefts rights cur with Ok res => res <> [] | Err _ => True | Panic => False end.
Proof.
  revert pos lefts rights cur. induction fuel as [|fuel IH]; intros pos lefts rights cur Hne Hf.
  { destruct cur; [done|simpl in Hf; lia]. }
  cbn [range_reduce]. destruct (_ || _ || _); [|done].
  pose proof (range_step_shorter pos lefts rights cur Hne) as Hs.
  destruct (range_step _ _ _ _) as [[[ps lefts'] rights']| |]; [|done..]. destruct Hs as [Hps Hs].
  apply IH; [done|lia].
Qed.

(** The fuel of [range_reduce] is enough and its results are not empty. *)
Lemma range_verify_total pf root first xs : AccumulatorRangeProof_verify pf root first xs <> Panic.
Proof.
  unfold AccumulatorRangeProof_verify. destruct first as [first|]; [|by repeat destruct (bool_decide _)].
  do 2 (destruct (N.of_nat (length (_ pf)) <=? _); [|by simpl; try destruct (_ <=? _)]). simpl.
  destruct (bool_decide (xs = [])) eqn:Hne; [done|]. apply bool_decide_eq_false in Hne. simpl.
  match goal with |- context [range_reduce ?f ?p ?l ?r xs] =>
    pose proof (range_reduce_total f p l r xs Hne ltac:(lia)) as Ht; destruct (range_reduce f p l r xs) as [res| |] end;
    [|done..].
  destruct res as [|h res]; [done|]. simpl. by destruct (_ =? _).
Qed.
#[local] Arguments pair_up : simpl nomatch.
End range_total.

Section nodes.
Context `{MerkleHasher} (internal_inj : Inj2 (=) (=) (=) hash_internal).
Context (placeholder_internal : forall a b, hash_internal a b <> ACCUMULATOR_PLACEHOLDER_HASH).
Context (L : list HashValue) (leaves : Forall leaf_like L).

Lemma node_cases j q :
  node L j q = ACCUMULATOR_PLACEHOLDER_HASH \/
  (j = 0%nat /\ L !! q = Some (node L j q)) \/
  exists j', j = S j' /\ node L j q = hash_internal (node L j' (2 * q)) (node L j' (2 * q + 1)).
Proof.
  destruct (Nat.lt_ge_cases (q * 2 ^ j) (length L)) as [Hlt|Hge].
  - right. destruct j as [|j]; [left|right; exists j; by rewrite node_split].
    rewrite Nat.pow_0_r, Nat.mul_1_r in Hlt. destruct (lookup_lt_is_Some_2 L q Hlt) as [x Hx].
    split; [done|]. by rewrite (node_leaf L q x Hx).
  - left. unfold node. rewrite drop_ge by done. by rewrite take_nil, subtree_nil.
Qed.

Lemma node_internal j q a b :
  node L j q = hash_internal a b ->
  exists j', j = S j' /\ a = node L j' (2 * q) /\ b = node L j' (2 * q + 1).
Proof.
  intros He. destruct (node_cases j q) as [Hp|[[-> Hx]|(j' & -> & Hs)]].
  - exfalso. apply (placeholder_internal a b). congruence.
  - exfalso. rewrite Forall_lookup in leaves. destruct (leaves _ _ Hx) as [_ Hi]. by apply (Hi a b).
  - exists j'. rewrite Hs in He. by apply (inj2 hash_internal) in He as [-> ->].
Qed.

Lemma node_leaf_like j q x : x = node L j q -> leaf_like x -> j = 0%nat /\ L !! q = Some x.
Proof.
  intros -> [Hp Hi]. destruct (node_cases j q) as [He|[[-> Hx]|(j' & -> & Hs)]]; [done|done|].
  by apply Hi in Hs.
Qed.

Lemma mod_pow2_S (i d : nat) : (i mod 2 ^ S d = 2 * (i / 2 mod 2 ^ d) + i mod 2)%nat.
Proof. rewrite Nat.pow_succ_r', Nat.Div0.mod_mul_r. lia. Qed.

(** ** One path *)
Lemma fold_path_any x (i : nat) ss h q :
  (foldl fold_sibling (x, N.of_nat i) ss).1 = node L h q ->
  (length ss <= h)%nat /\
  x = node L (h - length ss) (q * 2 ^ length ss + i mod 2 ^ length ss).
Proof.
  revert x i. induction ss as [|s ss IH]; intros x i Hf.
  { cbn [length foldl fst] in *. rewrite Nat.sub_0_r, Nat.pow_0_r, Nat.mod_1_r, Nat.mul_1_r, Nat.add_0_r.
    split; [lia|done]. }
  cbn [length foldl] in *. rewrite mod_pow2_S.
  assert (exists a b (o : nat), fold_sibling (x, N.of_nat i) s = (hash_internal a b, N.of_nat (i / 2)) /\
    (i mod 2 = o)%nat /\ ((o = 0%nat /\ x = a) \/ (o = 1%nat /\ x = b))) as (a & b & o & Hs & -> & Ho).
  { destruct (Nat.Even_or_Odd i) as [[m ->]|[m ->]]; destruct (path_step m) as (Hd & Hd' & _ & _).
    - rewrite fold_sibling_even, Hd. exists x, s, 0%nat. split_and!; [done|by rewrite Nat.mul_comm, Nat.Div0.mod_mul|by left].
    - rewrite fold_sibling_odd, Hd'. exists s, x, 1%nat. split_and!; [done| |by right].
      rewrite Nat.add_comm, Nat.mul_comm, Nat.Div0.mod_add. done. }
  rewrite Hs in Hf. apply IH in Hf as [Hle Hx]. symmetry in Hx.
  apply node_internal in Hx as (j' & Hj & -> & ->).
  split; [lia|]. replace (h - S (length ss))%nat with j' by lia. rewrite Nat.pow_succ_r'.
  destruct Ho as [[-> ->]|[-> ->]]; f_equal; lia.
Qed.

Lemma inclusion_any_depth pf x (i : nat) :
  leaf_like x -> (i < length L)%nat ->
  AccumulatorProof_verify pf (merkle_root L) x (N.of_nat i) = Ok tt -> L !! i = Some x.
Proof.
  intros Hx Hi Hv. unfold AccumulatorProof_verify in Hv.
  apply bind_Ok in Hv as (? & _ & Hr%ensure_Ok). apply N.eqb_eq in Hr.
  rewrite <-node_root in Hr. apply fold_path_any in Hr as [Hle Hn].
  apply node_leaf_like in Hn as [Hd Hl]; [|done]. simpl in Hl.
  rewrite Nat.mod_small in Hl; [done|]. pose proof (height_le L).
  replace (length (siblings pf)) with (height (length L)) by lia. lia.
Qed.

(** ** Ranges *)

(** The children [full] of the parents [ps], two by two. *)
Fixpoint paired (full ps : list HashValue) : Prop :=
  match full, ps with
  | [], [] => True
  | a :: b :: full, p :: ps => p = hash_internal a b /\ paired full ps
  | _, _ => False
  end.

Lemma paired_app f1 p1 f2 p2 : paired f1 p1 -> paired f2 p2 -> paired (f1 ++ f2) (p1 ++ p2).
Proof.
  revert f1. induction p1 as [|p p1 IH]; intros [|a [|b f1]]; simpl; try done.
  intros [-> Hp] Hp2. split; [done|]. by apply IH.
Qed.

Lemma pair_up_paired l ps rest :
  pair_up l = (ps, rest) -> exists full, l = full ++ rest /\ paired full ps /\ (length rest <= 1)%nat.
Proof.
  revert l. induction ps as [|p ps IH]; intros [|a [|b l]]; simpl; try done.
  - intros [= <-]. exists []. split_and!; [done..|simpl; lia].
  - intros [= <-]. exists []. split_and!; [done..|simpl; lia].
  - by destruct (pair_up l).
  - destruct (pair_up l) as [ps' rest'] eqn:Hl. intros [= <- <- <-].
    destruct (IH l Hl) as (full & -> & Hp & Hr). by exists (a :: b :: full).
Qed.

(** The hashes of a level with the siblings at its ends make up the pairs. *)
Lemma range_step_paired pos lefts rights cur ps lefts' rights' :
  range_step pos lefts rights cur = Ok (ps, lefts', rights') ->
  exists before after, paired (before ++ cur ++ after) ps /\
    length before = (if Position.is_right_child pos then 1 else 0)%nat.
Proof.
  unfold range_step, range_first. intros Hs. apply bind_Ok in Hs as ([[first lefts1] children] & Hfirst & Hs).
  assert (exists before c0, paired (before ++ c0) first /\ cur = c0 ++ children /\
    length before = (if Position.is_right_child pos then 1 else 0)%nat) as (before & c0 & Hp0 & -> & Hb).
  { destruct (Position.is_right_child pos).
    - apply bind_Ok in Hfirst as (l & Hl%ok_or_Ok & Hfirst). apply bind_Ok in Hfirst as (c & Hc%expect_Ok & Hfirst).
      destruct lefts, cur; try done. simpl in *. injection Hl as ->. injection Hc as ->.
      injection Hfirst as <- <- <-. by exists [l], [c].
    - injection Hfirst as <- <- <-. by exists [], []. }
  destruct (pair_up children) as [pairs rest] eqn:Hpu.
  apply pair_up_paired in Hpu as (full & -> & Hpf & Hrest).
  destruct rest as [|x [|]]; [| |simpl in Hrest; lia].
  - injection Hs as <- <- <-. exists before, []. rewrite !app_nil_r, app_assoc. split; [|done].
    by apply paired_app.
  - apply bind_Ok in Hs as (r & _ & Hs). injection Hs as <- <- <-. exists before, [r]. split; [|done].
    replace (before ++ (c0 ++ full ++ [x]) ++ [r]) with ((before ++ c0) ++ full ++ [x; r]) by (by rewrite <-!app_assoc).
    by repeat apply paired_app.
Qed.

(** The loop as a relation, with the number of levels it climbs. *)
Inductive reduces : nat -> Position -> list HashValue -> HashValue -> Prop :=
| reduces_done pos root : reduces 0 pos [root] root
| reduces_step d pos cur before after ps root :
    paired (before ++ cur ++ after) ps ->
    length before = (if Position.is_right_child pos then 1 else 0)%nat ->
    reduces d (Position.parent pos) ps root -> reduces (S d) pos cur root.

Lemma range_reduce_reduces fuel pos lefts rights cur res root :
  range_reduce fuel pos lefts rights cur = Ok res -> head res = Some root -> exists d, reduces d pos cur root.
Proof.
  revert pos lefts rights cur. induction fuel as [|fuel IH]; intros pos lefts rights cur Hr Hh; cbn [range_reduce] in Hr;
    destruct (_ || _ || _) eqn:Hc in Hr; [done| | |].
  1, 3: apply orb_false_iff in Hc as [Hc _]; apply orb_false_iff in Hc as [Hlen%Nat.ltb_ge _];
    injection Hr as <-; destruct cur as [|x [|]]; [done| |simpl in Hlen; lia];
    injection Hh as <-; exists 0%nat; constructor.
  apply bind_Ok in Hr as ([[ps lefts'] rights'] & Hs & Hr).
  apply range_step_paired in Hs as (before & after & Hp & Hb).
  destruct (IH _ _ _ _ Hr Hh) as [d Hd]. exists (S d). by eapply reduces_step.
Qed.

(** The children of nodes next to each other are nodes next to each other. *)
Lemma paired_nodes full ps j q :
  paired full ps -> ps <> [] -> (forall t p, ps !! t = Some p -> p = node L j (q + t)) ->
  exists j', j = S j' /\ forall u x, full !! u = Some x -> x = node L j' (2 * q + u).
Proof.
  intros Hp Hne Hn.
  assert (exists j', j = S j') as [j' ->].
  { destruct ps as [|p ps]; [done|]. destruct full as [|a [|b full]]; try done. destruct Hp as [-> _].
    specialize (Hn 0%nat _ eq_refl). symmetry in Hn. apply node_internal in Hn as (j' & -> & _). by exists j'. }
  exists j'. split; [done|]. clear Hne. revert full q Hp Hn.
  induction ps as [|p ps IH]; intros [|a [|b full]] q Hp Hn; try done.
  destruct Hp as [-> Hp]. pose proof (Hn 0%nat _ eq_refl) as H0. symmetry in H0.
  apply node_internal in H0 as (j1 & [= <-] & Ha & Hb). rewrite Nat.add_0_r in Ha, Hb.
  intros [|[|u]] x Hx; simpl in Hx.
  - injection Hx as <-. by rewrite Nat.add_0_r.
  - injection Hx as <-. done.
  - rewrite (IH full (S q) Hp) with (u := u) (x := x); [f_equal; lia| |done].
    intros t y Ht. rewrite (Hn (S t) y Ht). f_equal. lia.
Qed.

Lemma paired_level full ps j :
  paired full ps -> ps <> [] -> Forall (fun p => exists q, p = node L j q) ps ->
  exists j', j = S j' /\ Forall (fun x => exists q, x = node L j' q) full.
Proof.
  intros Hp Hne Hn.
  assert (exists j', j = S j') as [j' ->].
  { destruct ps as [|p ps]; [done|]. destruct full as [|a [|b full]]; try done. destruct Hp as [-> _].
    apply Forall_cons in Hn as [[q Hq] _]. symmetry in Hq. apply node_internal in Hq as (j' & -> & _). by exists j'. }
  exists j'. split; [done|]. clear Hne. revert full Hp Hn.
  induction ps as [|p ps IH]; intros [|a [|b full]] Hp Hn; try done.
  destruct Hp as [-> Hp]. apply Forall_cons in Hn as [[q Hq] Hn]. symmetry in Hq.
  apply node_internal in Hq as (j1 & [= <-] & -> & ->).
  constructor; [by eexists|]. constructor; [by eexists|]. by apply IH.
Qed.

Lemma paired_nonempty full ps : paired full ps -> full <> [] -> ps <> [].
Proof. by destruct ps, full as [|? []]. Qed.

Lemma reduces_depth d pos cur root h q :
  reduces d pos cur root -> cur <> [] -> root = node L h q ->
  (d <= h)%nat /\ Forall (fun x => exists q, x = node L (h - d) q) cur.
Proof.
  intros Hr. induction Hr as [pos root|d pos cur before after ps root Hp Hb Hr IH]; intros Hne Hroot.
  - split; [lia|]. rewrite Nat.sub_0_r. constructor; [by exists q|constructor].
  - assert (ps <> []) as Hps.
    { apply paired_nonempty in Hp; [done|]. destruct before, cur; done. }
    destruct (IH Hps Hroot) as [Hle Hall].
    apply (paired_level _ _ _ Hp Hps) in Hall as (j' & Hj & Hall).
    apply Forall_app in Hall as [_ Hall]. apply Forall_app in Hall as [Hall _].
    split; [lia|]. by replace (h - S d)%nat with j' by lia.
Qed.

Lemma parity (a : nat) : (if negb (N.even (N.of_nat a)) then 1 else 0)%nat = (a mod 2)%nat.
Proof.
  destruct (Nat.Even_or_Odd a) as [[m ->]|[m ->]].
  - replace (N.of_nat (2 * m)) with (0 + 2 * N.of_nat m) by lia. rewrite N.even_add_mul_2.
    by rewrite Nat.mul_comm, Nat.Div0.mod_mul.
  - replace (N.of_nat (2 * m + 1)) with (1 + 2 * N.of_nat m) by lia. rewrite N.even_add_mul_2.
    by rewrite Nat.add_comm, Nat.mul_comm, Nat.Div0.mod_add.
Qed.

Lemma reduces_nodes d pos cur root h q (s a : nat) :
  reduces d pos cur root -> cur <> [] -> root = node L h q ->
  pos = inorder (N.of_nat s) (N.of_nat a) -> fits (N.of_nat s) (N.of_nat a) -> (s + d <= 63)%nat ->
  forall t x, cur !! t = Some x -> x = node L (h - d) (q * 2 ^ d + a mod 2 ^ d + t).
Proof.
  intros Hr. revert s a. induction Hr as [pos root|d pos cur before after ps root Hp Hb Hr IH];
    intros s a Hne Hroot Hpos Hfits Hs t x Hx.
  - rewrite Nat.sub_0_r, Nat.pow_0_r, Nat.mod_1_r, Nat.mul_1_r, Nat.add_0_r.
    destruct t; [|done]. injection Hx as <-. by rewrite Nat.add_0_r.
  - assert (ps <> []) as Hps.
    { apply paired_nonempty in Hp; [done|]. destruct before, cur; done. }
    rewrite Hpos, parent_inorder in IH by (done || lia).
    assert (forall t p, ps !! t = Some p -> p = node L (h - d) (q * 2 ^ d + (a / 2) mod 2 ^ d + t)) as Hn.
    { apply (IH (S s) (a / 2)%nat Hps Hroot); [| |lia].
      - f_equal; [lia|]. by rewrite Nat2N.inj_div.
      - rewrite Nat2N.inj_succ, <-N.add_1_r, Nat2N.inj_div. by apply fits_parent; [|lia]. }
    destruct (paired_nodes _ _ _ _ Hp Hps Hn) as (j' & Hj & Hfull).
    replace (h - S d)%nat with j' by lia. rewrite mod_pow2_S, Nat.pow_succ_r'.
    assert (length before = a mod 2)%nat as Hb'.
    { rewrite Hb, Hpos. unfold Position.is_right_child. rewrite is_left_child_inorder by (done || lia).
      apply parity. }
    rewrite (Hfull (length before + t)%nat x); [f_equal; lia|].
    rewrite lookup_app_r by lia. replace (length before + t - length before)%nat with t by lia.
    by rewrite lookup_app_l by (by eapply lookup_lt_Some).
Qed.

(** A range of leaf-like hashes accepted against the root is a range of the leaves. *)
Lemma range_any_depth pf xs (i : nat) :
  N.of_nat (length L) <= MAX_ACCUMULATOR_LEAVES -> Forall leaf_like xs -> (i < length L)%nat ->
  AccumulatorRangeProof_verify pf (merkle_root L) (Some (N.of_nat i)) xs = Ok tt ->
  xs = take (length xs) (drop i L).
Proof.
  intros Hmax Hxs Hi Hv. cbn [AccumulatorRangeProof_verify] in Hv.
  apply bind_Ok in Hv as ([] & _ & Hv). apply bind_Ok in Hv as ([] & _ & Hv).
  apply bind_Ok in Hv as ([] & Hne%ensure_Ok & Hv). apply negb_true_iff, bool_decide_eq_false in Hne.
  apply bind_Ok in Hv as (res & Hred & Hv). apply bind_Ok in Hv as (root & Hroot%expect_Ok & Hv%ensure_Ok).
  apply N.eqb_eq in Hv. rewrite <-node_root in Hv. pose proof (height_le L) as Hh. pose proof (height_max L Hmax) as Hm.
  change MAX_ACCUMULATOR_PROOF_DEPTH with 63 in Hm. change MAX_ACCUMULATOR_LEAVES with (2 ^ 63) in Hmax.
  destruct (range_reduce_reduces _ _ _ _ _ _ _ Hred Hroot) as [d Hd].
  destruct (reduces_depth _ _ _ _ _ _ Hd Hne Hv) as [Hle Hall].
  assert (d = height (length L)) as ->.
  { destruct xs as [|x xs]; [done|]. apply Forall_cons in Hall as [[q Hq] _]. apply Forall_cons in Hxs as [Hx _].
    apply node_leaf_like in Hq as [? _]; [lia|done]. }
  assert (forall t x, xs !! t = Some x -> L !! (i + t)%nat = Some x) as Hnodes.
  { intros t x Hx. pose proof (proj1 (Forall_lookup _ _) Hxs t x Hx) as Hlx.
    eapply (reduces_nodes _ _ _ _ _ _ 0 i Hd Hne Hv) in Hx; [| | |lia].
    - apply node_leaf_like in Hx as [_ Hx]; [|done]. simpl in Hx. rewrite Nat.mod_small in Hx by lia. done.
    - rewrite from_leaf_index_double by lia. unfold inorder. simpl. lia.
    - split; [done|]. change (63 - N.of_nat 0) with 63. lia. }
  apply list_eq. intros t. destruct (xs !! t) as [x|] eqn:Hx.
  - rewrite lookup_take_lt by (by eapply lookup_lt_Some). rewrite lookup_drop. symmetry. by apply Hnodes.
  - rewrite lookup_take_ge; [done|]. by apply lookup_ge_None.
Qed.
End nodes.
