(* ===== verification/TransactionProps.v ===== *)
(** * Accepted transaction proofs show the ledger's transactions

    The ledger is a list of transaction infos; a ledger info names its length and the
    Merkle root of their hashes.  What the proofs of TransactionProofs.v accept against
    a ledger info is what that list holds. *)

From S2P Require Import Prelude Crypto Errors Position PositionLemmas Accumulator AccumulatorLemmas Verifier Ledger ConsensusTypes Blocks TransactionProofs TransactionLemmas.

(** Hashes without collisions within and between transaction infos, inner nodes and
    the placeholder: their hashers are seeded with different names. *)
Class LedgerHashes `{MerkleHasher} `{CryptoHash TransactionInfo} : Prop := {
  lh_internal : Inj2 (=) (=) (=) hash_internal;
  lh_placeholder : forall a b, hash_internal a b <> ACCUMULATOR_PLACEHOLDER_HASH;
  lh_info : CollisionFree TransactionInfo;
  lh_leaf : forall t : TransactionInfo, leaf_like (hash t);
}.

(** [li] is a ledger info of the ledger with the transaction infos [infos]. *)
Definition ledger_of `{MerkleHasher} `{CryptoHash TransactionInfo} (li : LedgerInfo)
    (infos : list TransactionInfo) : Prop :=
  LedgerInfo.transaction_accumulator_hash li = merkle_root (hash <$> infos) /\
  LedgerInfo.version li + 1 = N.of_nat (length infos) /\
  N.of_nat (length infos) <= MAX_ACCUMULATOR_LEAVES.

(** [txns] are the transactions that [infos] are about. *)
Definition transactions_of `{CryptoHash Transaction} (infos : list TransactionInfo)
    (txns : list Transaction) : Prop := ti_transaction_hash <$> infos = hash <$> txns.

Section lemmas.
Context `{LedgerHashes}.

Lemma leaves_leaf_like (infos : list TransactionInfo) : Forall leaf_like (hash <$> infos).
Proof. apply Forall_fmap, Forall_true. intros t. apply lh_leaf. Qed.

Lemma info_sound li infos (i : N) info proof :
  ledger_of li infos -> verify_transaction_info li i info proof = Ok tt ->
  infos !! N.to_nat i = Some info.
Proof.
  intros (Hroot & Hver & Hmax) Hv. unfold verify_transaction_info in Hv.
  apply bind_Ok in Hv as ([] & Hle%ensure_Ok & Hv). apply N.leb_le in Hle. rewrite Hroot in Hv.
  rewrite <-(N2Nat.id i) in Hv.
  apply (inclusion_any_depth lh_internal lh_placeholder _ (leaves_leaf_like infos)) in Hv;
    [|apply lh_leaf|rewrite length_fmap; lia].
  rewrite list_lookup_fmap in Hv. apply fmap_Some in Hv as (info' & Hl & He).
  apply lh_info in He. by subst.
Qed.

Lemma info_list_sound li infos (i : N) pf :
  ledger_of li infos -> i <= LedgerInfo.version li ->
  TransactionInfoListWithProof_verify pf li (Some i) = Ok tt ->
  transaction_infos pf = take (length (transaction_infos pf)) (drop (N.to_nat i) infos).
Proof.
  intros (Hroot & Hver & Hmax) Hle Hv. unfold TransactionInfoListWithProof_verify in Hv. rewrite Hroot in Hv.
  rewrite <-(N2Nat.id i) in Hv.
  apply (range_any_depth lh_internal lh_placeholder _ (leaves_leaf_like infos)) in Hv;
    [|by rewrite length_fmap|apply leaves_leaf_like|rewrite length_fmap; lia].
  rewrite length_fmap, <-fmap_drop, <-fmap_take in Hv.
  assert (Inj (=) (=) (hash : TransactionInfo -> HashValue)) by (intros ??; apply lh_info).
  by apply list_fmap_eq_inj in Hv.
Qed.

Lemma check_transaction_hashes_Ok `{CryptoHash Transaction} txns infos :
  check_transaction_hashes txns infos = Ok tt -> transactions_of infos txns.
Proof.
  unfold transactions_of. revert infos. induction txns as [|t txns IH]; intros [|i infos]; simpl; try done.
  intros Hv. apply bind_Ok in Hv as ([] & He%ensure_Ok & Hv). apply N.eqb_eq in He.
  f_equal; [done|by apply IH].
Qed.
End lemmas.

(** Collision-free hashes and a ledger of three transactions, for the examples. *)
Module Ledger3.
Definition status_code (s : ExecutionStatus) : N * N * N * N * option N :=
  match s with
  | Success => (0, 0, 0, 0, None)
  | OutOfGas => (1, 0, 0, 0, None)
  | MoveAbort l c => (2, l, c, 0, None)
  | ExecutionFailure l f o => (3, l, f, o, None)
  | MiscellaneousError c => (4, 0, 0, 0, c)
  end.
Definition info_code (t : TransactionInfo) :=
  (ti_gas_used t, status_code (ti_status t), ti_transaction_hash t, ti_event_root_hash t,
   ti_state_change_hash t, ti_state_checkpoint_hash t).
Lemma info_code_inj t t' : info_code t = info_code t' -> t = t'.
Proof. destruct t as [? []], t' as [? []]; unfold info_code; simpl; congruence. Qed.

Definition transaction_code (t : Transaction) :=
  match t with
  | UserTransaction (mkSignedTransaction (mkRawTransaction s n p g u e c) a) => inl [s; n; p; g; u; e; c; a]
  | GenesisTransaction w => inr (inl w)
  | BlockMetadataTransaction m =>
      inr (inr (inl (bm_id m, bm_epoch m, bm_round m, bm_previous_block_votes m, bm_proposer m,
                     bm_failed_proposer_indices m, bm_timestamp_usecs m)))
  | StateCheckpoint id => inr (inr (inr id))
  end.
Lemma transaction_code_inj t t' : transaction_code t = transaction_code t' -> t = t'.
Proof.
  destruct t as [[[] ?]| |[]|], t' as [[[] ?]| |[]|]; unfold transaction_code; simpl; congruence.
Qed.

Definition internal : MerkleHasher := fun a b => ACCUMULATOR_PLACEHOLDER_HASH + 1 + 2 * Npos (encode (a, b)).
Definition info_hash : CryptoHash TransactionInfo :=
  fun t => ACCUMULATOR_PLACEHOLDER_HASH + 2 * Npos (encode (info_code t)).
Definition transaction_hash : CryptoHash Transaction := fun t => Npos (encode (transaction_code t)).
#[local] Existing Instance internal.
#[local] Existing Instance info_hash.
#[local] Existing Instance transaction_hash.

Lemma ledger_hashes : LedgerHashes.
Proof.
  split.
  - intros a b a' b' He. unfold hash_internal, internal in He.
    assert (encode (a, b) = encode (a', b')) as [= -> ->]%(inj encode) by lia. done.
  - unfold hash_internal, internal. lia.
  - intros t t' He. unfold hash, info_hash in He. apply info_code_inj, (inj encode). lia.
  - intros t. split; [unfold hash, info_hash; lia|]. unfold hash, info_hash, hash_internal, internal. lia.
Qed.
Lemma transaction_collision_free : CollisionFree Transaction.
Proof. intros t t' He. unfold hash, transaction_hash in He. apply transaction_code_inj, (inj encode). lia. Qed.

Definition txns : list Transaction :=
  [GenesisTransaction 1; UserTransaction (mkSignedTransaction (mkRawTransaction 7 0 5 0 0 0 0) 0); StateCheckpoint 9].
Definition infos : list TransactionInfo :=
  (fun t => mkTransactionInfo 2 Success (hash t) ACCUMULATOR_PLACEHOLDER_HASH 0 None) <$> txns.
Definition leaves : list HashValue := hash <$> infos.
Definition li : LedgerInfo := mkLedgerInfo (mkBlockInfo 1 1 0 (merkle_root leaves) 2 0 None) 0.
Lemma li_ledger : ledger_of li infos.
Proof. by vm_compute. Qed.
End Ledger3.
#[local] Existing Instance Ledger3.internal.
#[local] Existing Instance Ledger3.info_hash.
#[local] Existing Instance Ledger3.transaction_hash.
#[local] Existing Instance Ledger3.ledger_hashes.
#[local] Existing Instance Ledger3.transaction_collision_free.

Module TransactionProps.

(** C31: a transaction list accepted from a version of the ledger on is what the
    ledger holds from there: the same transaction infos and the same transactions. *)
Theorem transaction_list_sound `{LedgerHashes} (event_hasher : HashValue -> HashValue -> HashValue) `{CryptoHash Transaction}
    `{!CollisionFree Transaction} `{CryptoHash ContractEvent} (li : LedgerInfo)
    (infos : list TransactionInfo) (txns : list Transaction) (first : Version) (l : TransactionListWithProof) :
  ledger_of li infos -> transactions_of infos txns -> first <= LedgerInfo.version li ->
  TransactionListWithProof_verify event_hasher l li (Some first) = Ok tt ->
  transaction_infos (tl_proof l) = take (length (tl_transactions l)) (drop (N.to_nat first) infos) /\
  tl_transactions l = take (length (tl_transactions l)) (drop (N.to_nat first) txns).
Proof.
  intros Hli Htxns Hle Hv. unfold TransactionListWithProof_verify in Hv.
  apply bind_Ok in Hv as ([] & Hfirst%ensure_Ok & Hv). apply bool_decide_eq_true in Hfirst.
  apply bind_Ok in Hv as ([] & Hlen%ensure_Ok & Hv). apply bool_decide_eq_true in Hlen.
  apply bind_Ok in Hv as ([] & Hcheck & Hv). apply bind_Ok in Hv as ([] & Hinfos & _).
  rewrite Hfirst in Hinfos. apply (info_list_sound li infos first) in Hinfos; [|done..].
  rewrite Hlen in Hinfos. split; [done|].
  apply check_transaction_hashes_Ok in Hcheck. unfold transactions_of in *.
  rewrite Hinfos, fmap_take, fmap_drop, Htxns, <-fmap_drop, <-fmap_take in Hcheck.
  assert (Inj (=) (=) (hash : Transaction -> HashValue)) by (intros ??; apply hash_inj).
  by apply list_fmap_eq_inj in Hcheck.
Qed.
Lemma transaction_list_sound_witness :
  [UserTransaction (mkSignedTransaction (mkRawTransaction 7 0 5 0 0 0 0) 0); StateCheckpoint 9] = take 2 (drop 1 Ledger3.txns).
Proof.
  pose (l := mkTransactionListWithProof [UserTransaction (mkSignedTransaction (mkRawTransaction 7 0 5 0 0 0 0) 0); StateCheckpoint 9]
    None (Some 1) (mkTransactionInfoListWithProof
      (mkAccumulatorRangeProof [node Ledger3.leaves 0 0] [ACCUMULATOR_PLACEHOLDER_HASH])
      (drop 1 Ledger3.infos))).
  destruct (@transaction_list_sound _ _ _ Ledger3.internal _ _ ce_sequence_number Ledger3.li Ledger3.infos Ledger3.txns 1 l)
    as [_ Ht]; [apply Ledger3.li_ledger|by vm_compute..|]. exact Ht.
Defined.

(** A transaction accepted by [verify_user_txn] is the ledger's transaction at
    that version, and is a user transaction of the sender with the sequence number. *)
Theorem user_transaction_sound `{LedgerHashes} (event_hasher : HashValue -> HashValue -> HashValue)
    `{CryptoHash Transaction} `{!CollisionFree Transaction} `{CryptoHash ContractEvent} (li : LedgerInfo)
    (infos : list TransactionInfo) (txns : list Transaction) (t : TransactionWithProof) (version : Version)
    (sender : AccountAddress) (sequence_number : N) :
  ledger_of li infos -> transactions_of infos txns ->
  verify_user_txn event_hasher t li version sender sequence_number = Ok tt ->
  txns !! N.to_nat version = Some (twp_transaction t) /\
  exists st, twp_transaction t = UserTransaction st /\ txn_sender st = sender /\
    txn_sequence_number st = sequence_number.
Proof.
  intros Hli Htxns Hv. unfold verify_user_txn in Hv.
  apply bind_Ok in Hv as (st & Hst & Hv). apply bind_Ok in Hv as ([] & _ & Hv).
  apply bind_Ok in Hv as ([] & Hs%ensure_Ok & Hv). apply N.eqb_eq in Hs.
  apply bind_Ok in Hv as ([] & Hn%ensure_Ok & Hv). apply N.eqb_eq in Hn.
  apply bind_Ok in Hv as ([] & Hh%ensure_Ok & Hv). apply N.eqb_eq in Hh.
  apply bind_Ok in Hv as ([] & _ & Hv). apply (info_sound li infos) in Hv; [|done].
  apply (f_equal (fmap ti_transaction_hash)) in Hv.
  rewrite <-list_lookup_fmap, Htxns, list_lookup_fmap in Hv. simpl in Hv.
  apply fmap_Some in Hv as (t' & Ht' & He). rewrite <-Hh in He. apply hash_inj in He.
  split; [by rewrite He|]. destruct (twp_transaction t) as [st'| | |]; try done.
  injection Hst as <-. exists st'. auto.
Qed.
Lemma user_transaction_sound_witness :
  Ledger3.txns !! 1%nat = Some (UserTransaction (mkSignedTransaction (mkRawTransaction 7 0 5 0 0 0 0) 0)).
Proof.
  pose (t := mkTransactionWithProof 1 (UserTransaction (mkSignedTransaction (mkRawTransaction 7 0 5 0 0 0 0) 0)) (Some [])
    (mkTransactionInfoWithProof (mkAccumulatorProof (path Ledger3.leaves 0 1 2))
       (mkTransactionInfo 2 Success (hash (UserTransaction (mkSignedTransaction (mkRawTransaction 7 0 5 0 0 0 0) 0)))
          ACCUMULATOR_PLACEHOLDER_HASH 0 None))).
  destruct (@user_transaction_sound _ _ _ Ledger3.internal _ _ ce_sequence_number Ledger3.li Ledger3.infos
    Ledger3.txns t 1 7 0) as [Ht _]; [apply Ledger3.li_ledger|by vm_compute..|]. exact Ht.
Defined.

(** Forks are noticed.  When [verify_extends_ledger] accepts a list against the
    root of a ledger, and the list reaches the end of that ledger, the part of the
    list that overlaps the ledger is the end of the ledger. *)
Theorem extends_ledger_sound `{LedgerHashes} (infos : list TransactionInfo)
    (pf : TransactionInfoListWithProof) (first : Version) (n : N) :
  N.of_nat (length infos) - first <= N.of_nat (length (transaction_infos pf)) ->
  verify_extends_ledger pf (N.of_nat (length infos)) (merkle_root (hash <$> infos)) (Some first) = Ok n ->
  n = N.of_nat (length infos) - first /\
  drop (N.to_nat first) infos = take (N.to_nat n) (transaction_infos pf).
Proof.
  intros Hlen Hv. cbn [verify_extends_ledger] in Hv.
  apply bind_Ok in Hv as ([] & Hle%ensure_Ok & Hv). apply N.leb_le in Hle.
  apply bind_Ok in Hv as (k & [-> _]%sub64_Ok & Hv). rewrite (proj2 (N.ltb_ge _ _)) in Hv by done.
  apply bind_Ok in Hv as (acc & Hnew & Hv). apply bind_Ok in Hv as (acc' & Happ & Hv).
  apply bind_Ok in Hv as ([] & Hroot%ensure_Ok & Hv). apply N.eqb_eq in Hroot. injection Hv as <-.
  split; [done|]. unfold Acc.append in Happ. apply bind_Ok in Happ as ([roots k] & Hall & Happ).
  cbn [fst snd] in Happ. destruct (Acc.new roots k) as [acc2| |] eqn:Hnew2; try done. injection Happ as <-.
  assert (num_leaves acc = first) as Hnum.
  { unfold Acc.new in Hnew. apply bind_Ok in Hnew as ([] & _ & Hnew).
    apply bind_Ok in Hnew as (h & _ & Hnew). by injection Hnew as <-. }
  pose proof Hall as Hk. apply append_all_count in Hk. rewrite length_fmap, length_take, Hnum in Hk.
  destruct (new_inv lh_internal _ _ _ _ Hnew2 Hroot) as (Hr & Hn & Hf & _); [rewrite length_fmap; lia|].
  rewrite Hr, Hn in Hf. destruct (append_all_inv lh_internal _ _ _ _ _ _ Hall Hf) as (_ & l & Hl & Hfl).
  apply frozen_length in Hfl. rewrite Hnum, Nat.mul_1_r in Hfl.
  apply (f_equal (drop (N.to_nat first))) in Hl.
  rewrite drop_app_length' in Hl by lia.
  rewrite <-fmap_drop in Hl.
  assert (Inj (=) (=) (hash : TransactionInfo -> HashValue)) by (intros ??; apply lh_info).
  by apply (inj (fmap hash)) in Hl.
Qed.
Lemma extends_ledger_sound_witness :
  drop 1 Ledger3.infos = take 2 (drop 1 Ledger3.infos).
Proof.
  destruct (extends_ledger_sound Ledger3.infos
    (mkTransactionInfoListWithProof (mkAccumulatorRangeProof [node Ledger3.leaves 0 0] [])
       (drop 1 Ledger3.infos)) 1 2) as [_ Hd]; [by vm_compute..|]. exact Hd.
Defined.

(** A list of transactions is also accepted at versions past the end of the
    ledger: against the ledger info of version 2, the transactions of versions 1 and 2
    pass for the ones of versions 5 and 6. *)
Theorem list_past_ledger_accepted :
  LedgerInfo.version Ledger3.li = 2 /\
  exists l, tl_transactions l = [UserTransaction (mkSignedTransaction (mkRawTransaction 7 0 5 0 0 0 0) 0); StateCheckpoint 9] /\
    @TransactionListWithProof_verify _ Ledger3.internal _ _ ce_sequence_number l Ledger3.li (Some 5) = Ok tt.
Proof.
  split; [done|].
  exists (mkTransactionListWithProof [UserTransaction (mkSignedTransaction (mkRawTransaction 7 0 5 0 0 0 0) 0); StateCheckpoint 9]
    None (Some 5) (mkTransactionInfoListWithProof
      (mkAccumulatorRangeProof [node Ledger3.leaves 0 0] [ACCUMULATOR_PLACEHOLDER_HASH])
      (drop 1 Ledger3.infos))).
  by vm_compute.
Qed.
End TransactionProps.
