(* ===== verification/AccumulatorStore.v ===== *)
(** * The accumulator over a store of frozen nodes (storage/accumulator/src/lib.rs)

    [MerkleAccumulator] keeps only frozen nodes, the roots of full subtrees, in a
    store it reads through the trait [HashReader]; appending leaves returns the nodes
    to add, and roots and proofs are computed from the store.  The associated
    functions of [MerkleAccumulator] make a [MerkleAccumulatorView] of the reader and
    the number of leaves and call the method of the same name, so one definition with
    both as arguments stands for the two. *)

From S2P Require Import Prelude Crypto Errors Position Accumulator TransactionProofs.

(** The trait [HashReader]. *)
Class HashReader (R : Type) : Type := reader_get : R -> Position -> result HashValue.

(** A [Node] is a hash at a position. *)
Abbreviation Node := (N * N)%type (only parsing).

Module MerkleAccumulator.
Section view.
Context `{MerkleHasher} `{HashReader R} (reader : R).

(** The sibling on the left: the newest of the new nodes, or read from the store. *)
Definition join_left (left_siblings : list Node) (pos : Position) (hash : HashValue)
    : result (HashValue * list Node) :=
  let sibling := Position.sibling pos in
  match vec_pop left_siblings with
  | Some (left_siblings, (x, left_hash)) =>
      _ ← assert_ (x =? sibling); Ok (hash_internal left_hash hash, left_siblings)
  | None =>
      left_hash ← reader_get reader sibling; Ok (hash_internal left_hash hash, left_siblings)
  end.

(** The loop [while pos.is_right_child()].  Each round goes up one of 64 levels. *)
Fixpoint freeze_up (fuel : nat) (pos : Position) (hash : HashValue) (to_freeze left_siblings : list Node)
    : result (Position * HashValue * list Node * list Node) :=
  if Position.is_right_child pos then
    match fuel with
    | O => Panic
    | S fuel =>
        j ← join_left left_siblings pos hash;
        let '(hash, left_siblings) := j in
        let pos := Position.parent pos in
        freeze_up fuel pos hash (to_freeze ++ [(pos, hash)]) left_siblings
    end
  else Ok (pos, hash, to_freeze, left_siblings).

(** The loop over the new leaves with their offsets. *)
Fixpoint append_leaves (num_leaves : LeafCount) (leaf_offset : N) (new_leaves : list HashValue)
    (to_freeze left_siblings : list Node) : result (list Node * list Node) :=
  match new_leaves with
  | [] => Ok (to_freeze, left_siblings)
  | leaf :: new_leaves =>
      leaf_index ← add64 num_leaves leaf_offset;
      let leaf_pos := Position.from_leaf_index leaf_index in
      f ← freeze_up 64 leaf_pos leaf (to_freeze ++ [(leaf_pos, leaf)]) left_siblings;
      let '(pos, hash, to_freeze, left_siblings) := f in
      append_leaves num_leaves (leaf_offset + 1) new_leaves to_freeze (left_siblings ++ [(pos, hash)])
  end.

(** [for _ in pos.level()..root_level]: up to the root, with placeholders on the right. *)
Fixpoint climb_to_root (n : nat) (pos : Position) (hash : HashValue) (left_siblings : list Node)
    : result (HashValue * list Node) :=
  match n with
  | O => Ok (hash, left_siblings)
  | S n =>
      j ← (if Position.is_left_child pos
           then Ok (hash_internal hash ACCUMULATOR_PLACEHOLDER_HASH, left_siblings)
           else join_left left_siblings pos hash);
      let '(hash, left_siblings) := j in
      climb_to_root n (Position.parent pos) hash left_siblings
  end.

Definition max_to_freeze (num_new_leaves root_level : N) : result N :=
  twice ← mul64 num_new_leaves 2; add64 twice root_level.

Section num_leaves.
Context (num_leaves : LeafCount).

Definition rightmost_leaf_index : result N := sub64 num_leaves 1.

(** A node that is neither a placeholder nor frozen is hashed from its children.  The
    level goes down, from at most 63. *)
Fixpoint get_hash_at (fuel : nat) (position : Position) : result HashValue :=
  idx ← rightmost_leaf_index;
  placeholder ← Position.is_placeholder position idx;
  if placeholder : bool then Ok ACCUMULATOR_PLACEHOLDER_HASH
  else
    freezable ← Position.is_freezable position idx;
    if freezable : bool then reader_get reader position
    else
      match fuel with
      | O => Panic
      | S fuel =>
          left ← Position.left_child position;
          left_hash ← get_hash_at fuel left;
          right ← Position.right_child position;
          right_hash ← get_hash_at fuel right;
          Ok (hash_internal left_hash right_hash)
      end.
Definition get_hash (position : Position) : result HashValue := get_hash_at 64 position.

Definition get_hashes (positions : list Position) : result (list HashValue) := collect get_hash positions.

Definition get_root_hash : result HashValue :=
  root ← Position.root_from_leaf_count num_leaves; get_hash root.

Definition append (new_leaves : list HashValue) : result (HashValue * list Node) :=
  if bool_decide (new_leaves = []) then
    if num_leaves =? 0 then Ok (ACCUMULATOR_PLACEHOLDER_HASH, [])
    else root_hash ← get_root_hash; Ok (root_hash, [])
  else
    let num_new_leaves := N.of_nat (length new_leaves) in
    last_new_leaf_count ← add64 num_leaves num_new_leaves;
    root_level ← Position.root_level_from_leaf_count last_new_leaf_count;
    _ ← max_to_freeze num_new_leaves root_level;
    a ← append_leaves num_leaves 0 new_leaves [] [];
    let '(to_freeze, left_siblings) := a in
    top ← expect (vec_pop left_siblings);
    let '(left_siblings, (pos, hash)) := top in
    c ← climb_to_root (N.to_nat (root_level - Position.level pos)) pos hash left_siblings;
    let '(hash, left_siblings) := c in
    _ ← assert_ (bool_decide (left_siblings = []));
    Ok (hash, to_freeze).

(** The siblings from the leaf up, as far as the root, that pass the filter. *)
Definition get_sibling_positions (leaf_index : N) (filter : Position -> bool) : result (list Position) :=
  root_pos ← Position.root_from_leaf_count num_leaves;
  Ok (List.filter filter
        (AncestorSiblingIterator.take (N.to_nat (Position.level root_pos)) (Position.from_leaf_index leaf_index))).

Definition get_siblings (leaf_index : N) (filter : Position -> bool) : result (list HashValue) :=
  positions ← get_sibling_positions leaf_index filter; get_hashes positions.

Definition get_proof (leaf_index : N) : result AccumulatorProof :=
  _ ← ensure (leaf_index <? num_leaves) (Msg "invalid leaf_index");
  siblings ← get_siblings leaf_index (fun _ => true);
  Ok (mkAccumulatorProof siblings).

Definition get_consistency_proof (sub_acc_leaves : LeafCount) : result AccumulatorConsistencyProof :=
  _ ← ensure (sub_acc_leaves <=? num_leaves)
        (Msg "Can't get accumulator consistency proof for a version newer than the local version.");
  iter ← FrozenSubtreeSiblingIterator.new sub_acc_leaves num_leaves;
  positions ← FrozenSubtreeSiblingIterator.collect 130 iter;
  subtrees ← collect (reader_get reader) positions;
  Ok (mkAccumulatorConsistencyProof subtrees).

Definition get_range_proof_positions (first_leaf_index : option N) (num_range_leaves : LeafCount)
    : result (list Position * list Position) :=
  match first_leaf_index with
  | None =>
      _ ← ensure (num_range_leaves =? 0) (Msg "num_leaves is not zero while first_leaf_index is None.");
      Ok ([], [])
  | Some first_leaf_index =>
      _ ← ensure (0 <? num_range_leaves) (Msg "num_leaves is zero while first_leaf_index is not None.");
      last_leaf_index ← ok_or (checked_add first_leaf_index (num_range_leaves - 1))
                          (Msg "Requesting too many leaves.");
      _ ← ensure (last_leaf_index <? num_leaves) (Msg "Invalid last_leaf_index");
      left_siblings ← get_sibling_positions first_leaf_index Position.is_left_child;
      right_siblings ← get_sibling_positions last_leaf_index Position.is_right_child;
      Ok (left_siblings, right_siblings)
  end.

Definition get_range_proof (first_leaf_index : option N) (num_range_leaves : LeafCount)
    : result AccumulatorRangeProof :=
  p ← get_range_proof_positions first_leaf_index num_range_leaves;
  let '(left_siblings, right_siblings) := p in
  left_hashes ← get_hashes left_siblings;
  right_hashes ← get_hashes right_siblings;
  Ok (mkAccumulatorRangeProof left_hashes right_hashes).

Definition get_frozen_subtree_hashes : result (list HashValue) :=
  positions ← FrozenSubTreeIterator.collect 65 (FrozenSubTreeIterator.new num_leaves);
  collect (reader_get reader) positions.
End num_leaves.
End view.
End MerkleAccumulator.
