(* ===== verification/AccumulatorStoreLemmas.v ===== *)
(** * The store of frozen nodes holds the Merkle tree

    A reader [stores] the leaves when it returns the node of the reference tree
    (AccumulatorLemmas.v) at every position whose subtree is full.  The loops of
    AccumulatorStore.v are followed level by level on such a reader. *)

From S2P Require Import Prelude Crypto Errors Position PositionLemmas Accumulator AccumulatorLemmas TransactionProofs TransactionLemmas AccumulatorStore.

(** The position of node [q] of level [j]. *)
Definition pos_at (j q : nat) : Position := inorder (N.of_nat j) (N.of_nat q).

(** The subtree of the node lies within the first [n] leaves. *)
Definition full (n j q : nat) : Prop := (S q * 2 ^ j <= n)%nat.

Definition stores `{MerkleHasher} `{HashReader R} (r : R) (l : list HashValue) (n : nat) : Prop :=
  forall j q, full n j q -> reader_get r (pos_at j q) = Ok (node l j q).

(** ** Positions as pairs of numbers *)
Lemma of_nat_shift q j : N.of_nat (q * 2 ^ j) = N.of_nat q * 2 ^ N.of_nat j.
Proof. by rewrite Nat2N.inj_mul, Nat2N.inj_pow. Qed.

Lemma pow2_of_nat j : 2 ^ N.of_nat j = N.of_nat (2 ^ j).
Proof. by rewrite Nat2N.inj_pow. Qed.

Lemma fits_node n j q :
  N.of_nat n <= 2 ^ 63 -> (q * 2 ^ j < n)%nat -> (j <= 63)%nat -> fits (N.of_nat j) (N.of_nat q).
Proof.
  intros Hn Hq Hj. split; [lia|]. apply N.lt_nge. intros Hle.
  apply (N.mul_le_mono_r _ _ (2 ^ N.of_nat j)) in Hle. rewrite <-N.pow_add_r in Hle.
  replace (63 - N.of_nat j + N.of_nat j) with 63 in Hle by lia. rewrite <-of_nat_shift in Hle. lia.
Qed.

Lemma full_level n j q : N.of_nat n <= 2 ^ 63 -> full n j q -> (j <= 63)%nat.
Proof.
  intros Hn Hf. unfold full in Hf. assert (2 ^ j <= n)%nat as Hj by (pose proof (pow2_pos j); nia).
  assert (2 ^ N.of_nat j <= 2 ^ 63) as Hp.
  { transitivity (N.of_nat n); [|done]. replace (2 ^ N.of_nat j) with (N.of_nat (1 * 2 ^ j)); [lia|].
    by rewrite of_nat_shift, N.mul_1_l. }
  apply N.pow_le_mono_r_iff in Hp; lia.
Qed.

Lemma full_lt n j q : full n j q -> (q * 2 ^ j < n)%nat.
Proof. unfold full. pose proof (pow2_pos j). nia. Qed.

Lemma even_of_nat q : N.even (N.of_nat q) = Nat.even q.
Proof.
  destruct (Nat.Even_or_Odd q) as [[m ->]|[m ->]].
  - rewrite Nat2N.inj_mul, N.even_mul, Nat.even_mul. done.
  - rewrite Nat2N.inj_add, Nat2N.inj_mul, N.even_add, N.even_mul, Nat.even_add, Nat.even_mul. done.
Qed.

Section positions.
Context (n : nat) (Hn : N.of_nat n <= 2 ^ 63).

Lemma pos_at_leaf i : (i < n)%nat -> Position.from_leaf_index (N.of_nat i) = pos_at 0 i.
Proof.
  intros Hi. rewrite from_leaf_index_double by lia. unfold pos_at, inorder. simpl. lia.
Qed.

Lemma pos_at_level j q : (q * 2 ^ j < n)%nat -> (j <= 63)%nat -> Position.level (pos_at j q) = N.of_nat j.
Proof. intros Hq Hj. apply level_inorder. by apply (fits_node n). Qed.

Lemma pos_at_parent j q :
  (q * 2 ^ j < n)%nat -> (j < 63)%nat -> Position.parent (pos_at j q) = pos_at (S j) (q / 2).
Proof.
  intros Hq Hj. unfold pos_at. rewrite parent_inorder; [|apply (fits_node n); [done|done|lia]|lia].
  rewrite Nat2N.inj_div. f_equal. lia.
Qed.

Lemma pos_at_is_left j q :
  (q * 2 ^ j < n)%nat -> (j <= 63)%nat -> Position.is_left_child (pos_at j q) = Nat.even q.
Proof.
  intros Hq Hj. pose proof (fits_node n j q Hn Hq Hj) as Hf. destruct (decide (j = 63%nat)) as [->|Hne].
  - destruct Hf as [_ Hf]. change (2 ^ (63 - N.of_nat 63)) with 1 in Hf.
    assert (q = 0%nat) as -> by lia. done.
  - unfold pos_at. rewrite is_left_child_inorder by (done || lia).
    apply even_of_nat.
Qed.

Lemma pos_at_is_right j q :
  (q * 2 ^ j < n)%nat -> (j <= 63)%nat -> Position.is_right_child (pos_at j q) = Nat.odd q.
Proof. intros. unfold Position.is_right_child. by rewrite pos_at_is_left. Qed.

Lemma pos_at_sibling_odd j m :
  ((2 * m + 1) * 2 ^ j < n)%nat -> (j < 63)%nat -> Position.sibling (pos_at j (2 * m + 1)) = pos_at j (2 * m).
Proof.
  intros Hq Hj. unfold pos_at. rewrite sibling_inorder; [|apply (fits_node n); [done|done|lia]|lia].
  f_equal. replace (N.of_nat (2 * m + 1)) with (2 * N.of_nat m + 1) by lia.
  rewrite Nat2N.inj_mul. by destruct (N.of_nat m).
Qed.

Lemma pos_at_sibling_even j m :
  (2 * m * 2 ^ j < n)%nat -> (j < 63)%nat -> Position.sibling (pos_at j (2 * m)) = pos_at j (2 * m + 1).
Proof.
  intros Hq Hj. unfold pos_at. rewrite sibling_inorder; [|apply (fits_node n); [done|done|lia]|lia].
  f_equal. replace (N.of_nat (2 * m + 1)) with (2 * N.of_nat m + 1) by lia.
  rewrite Nat2N.inj_mul. by destruct (N.of_nat m).
Qed.
End positions.

(** ** Appending leaves

    [l] is the list of all leaves, old and new; the first [n0] are in the store. *)
Section append.
Context `{MerkleHasher} `{HashReader R} (r : R) (l : list HashValue) (n0 : nat).

(** The stack of new frozen nodes left of node [m] of level [k], the last one first:
    the full subtrees of the first [m * 2 ^ k] leaves, as far as they reach beyond the
    first [n0]. *)
Inductive pending : nat -> nat -> list Node -> Prop :=
| pending_old k m : (m * 2 ^ k <= n0)%nat -> pending k m []
| pending_even k m s : pending (S k) m s -> pending k (2 * m) s
| pending_odd k m s :
    (n0 < (2 * m + 1) * 2 ^ k)%nat -> pending (S k) m s ->
    pending k (2 * m + 1) ((pos_at k (2 * m), node l k (2 * m)) :: s).

Lemma pow2_S k m : (m * 2 ^ S k = 2 * m * 2 ^ k)%nat.
Proof. rewrite Nat.pow_succ_r'. lia. Qed.

Lemma pending_even_inv k m s : pending k (2 * m) s -> pending (S k) m s.
Proof.
  intros Hp. inversion Hp as [? ? Hle|? m' ? Hp' He|? m' ? ? ? He]; subst.
  - apply pending_old. rewrite pow2_S. lia.
  - by replace m with m' by lia.
  - lia.
Qed.

Lemma pending_zero k m s : pending k m s -> m = 0%nat -> s = [].
Proof. induction 1 as [|k m s _ IH|]; intros Hm; [done|apply IH; lia|lia]. Qed.

Lemma pending_up k q s : pending k q s -> pending 0 (q * 2 ^ k) s.
Proof.
  revert q. induction k as [|k IH]; intros q Hp; [by rewrite Nat.mul_1_r|].
  rewrite pow2_S. by apply IH, pending_even.
Qed.

Lemma pending_top k m s :
  pending k m s -> (n0 < m * 2 ^ k)%nat ->
  exists k' m' s', s = (pos_at k' (2 * m'), node l k' (2 * m')) :: s' /\
    ((2 * m' + 1) * 2 ^ k' = m * 2 ^ k)%nat /\ pending k' (2 * m') s'.
Proof.
  induction 1 as [|k m s _ IH|k m s _ Hp _]; intros Hlt; [lia| |].
  - destruct IH as (k' & m' & s' & -> & He & Hp'); [rewrite pow2_S; lia|].
    exists k', m', s'. rewrite He, pow2_S. done.
  - exists k, m, s. split_and!; [done..|]. by apply pending_even.
Qed.
(** The parents frozen with node [q] of level [k], up to the first left child. *)
Inductive chain : nat -> nat -> list Node -> nat -> nat -> Prop :=
| chain_stop k m : chain k (2 * m) [] k (2 * m)
| chain_up k m ns k' q' :
    chain (S k) m ns k' q' -> chain k (2 * m + 1) ((pos_at (S k) m, node l (S k) m) :: ns) k' q'.

Lemma chain_end k q ns k' q' : chain k q ns k' q' -> (S q' * 2 ^ k' = S q * 2 ^ k)%nat.
Proof. induction 1 as [|k m ns k' q' _ IH]; [done|]. rewrite IH, pow2_S. lia. Qed.

Context (Hmax : N.of_nat (length l) <= 2 ^ 63) (Hstore : stores r l n0).

(** The sibling on the left comes from the stack or from the store. *)
Lemma join_left_pending k m s h :
  pending k (2 * m + 1) s -> ((2 * m + 1) * 2 ^ k < length l)%nat -> (k < 63)%nat ->
  exists s', MerkleAccumulator.join_left r (reverse s) (pos_at k (2 * m + 1)) h =
    Ok (hash_internal (node l k (2 * m)) h, reverse s') /\ pending (S k) m s'.
Proof.
  intros Hp Hlt Hk. unfold MerkleAccumulator.join_left.
  rewrite vec_pop_reverse, (pos_at_sibling_odd (length l)) by done.
  inversion Hp as [? ? Hle|? m' ? Hp' He|? m' s' Hle Hp' He]; subst.
  - exists []. rewrite (Hstore k (2 * m)%nat) by (unfold full; lia). split; [done|].
    apply pending_old. rewrite pow2_S. lia.
  - lia.
  - assert (m' = m) as -> by lia. exists s'. simpl. rewrite N.eqb_refl. by split.
Qed.

Lemma full_odd k m : full (length l) k (2 * m + 1) -> full (length l) (S k) m /\ (k < 63)%nat.
Proof.
  unfold full. intros Hf. assert (S m * 2 ^ S k <= length l)%nat as Hf' by (rewrite pow2_S; lia).
  split; [done|]. pose proof (full_level (length l) (S k) m Hmax Hf'). lia.
Qed.

Lemma freeze_up_chain fuel k q s tf :
  pending k q s -> full (length l) k q -> (64 <= k + fuel)%nat ->
  exists ns k' q' s', MerkleAccumulator.freeze_up r fuel (pos_at k q) (node l k q) tf (reverse s) =
      Ok (pos_at k' q', node l k' q', tf ++ ns, reverse s') /\
    chain k q ns k' q' /\ Nat.Even q' /\ pending k' q' s'.
Proof.
  revert k q s tf. induction fuel as [|fuel IH]; intros k q s tf Hp Hf Hfuel.
  { pose proof (full_level _ _ _ Hmax Hf). lia. }
  cbn [MerkleAccumulator.freeze_up].
  rewrite (pos_at_is_right (length l)) by (done || by apply full_lt || by eapply full_level).
  destruct (Nat.Even_or_Odd q) as [[m ->]|[m ->]].
  - rewrite Nat.odd_mul. simpl. eexists [], k, (2 * m)%nat, s. rewrite app_nil_r. split_and!; [done| |by exists m|done].
    apply chain_stop.
  - rewrite Nat.odd_add, Nat.odd_mul. cbn [Nat.odd Nat.even negb andb xorb].
    destruct (full_odd k m Hf) as [Hf' Hk]. pose proof (full_lt _ _ _ Hf) as Hlt.
    destruct (join_left_pending k m s (node l k (2 * m + 1)) Hp Hlt Hk) as (s1 & Hj & Hp1).
    rewrite Hj. cbn [mbind outcome_bind]. rewrite (pos_at_parent (length l)) by done.
    destruct (path_step m) as (_ & -> & _). rewrite <-node_split by (by apply full_lt).
    destruct (IH (S k) m s1 (tf ++ [(pos_at (S k) m, node l (S k) m)]) Hp1 Hf' ltac:(lia))
      as (ns & k' & q' & s' & Hr & Hc & He & Hp').
    exists ((pos_at (S k) m, node l (S k) m) :: ns), k', q', s'. rewrite Hr, <-app_assoc.
    split_and!; [done| |done..]. by apply chain_up.
Qed.

(** All nodes frozen with the leaves from [i] on, in the order they are frozen. *)
Inductive freezes : nat -> list Node -> Prop :=
| freezes_done : freezes (length l) []
| freezes_leaf i ns k q rest :
    (i < length l)%nat -> chain 0 i ns k q -> freezes (S i) rest ->
    freezes i ((pos_at 0 i, node l 0 i) :: ns ++ rest).

Lemma append_leaves_freezes xs pre s tf :
  l = pre ++ xs -> (n0 <= length pre)%nat -> pending 0 (length pre) s ->
  exists ns s', MerkleAccumulator.append_leaves r (N.of_nat n0) (N.of_nat (length pre - n0)) xs tf (reverse s) =
      Ok (tf ++ ns, reverse s') /\ freezes (length pre) ns /\ pending 0 (length l) s'.
Proof.
  revert pre s tf. induction xs as [|x xs IH]; intros pre s tf Hl Hn0 Hp.
  { rewrite app_nil_r in Hl. subst pre. exists [], s. rewrite app_nil_r. split_and!; [done|apply freezes_done|done]. }
  cbn [MerkleAccumulator.append_leaves].
  assert (l !! length pre = Some x) as Hx by (rewrite Hl, list_lookup_middle; done).
  pose proof (lookup_lt_Some _ _ _ Hx) as Hlt.
  rewrite (proj2 (add64_Ok (N.of_nat n0) (N.of_nat (length pre - n0)) (N.of_nat (length pre)))) by
    (unfold u64_max; lia).
  cbn [mbind outcome_bind]. rewrite (pos_at_leaf (length l)) by done. rewrite <-(node_leaf l _ x Hx).
  destruct (freeze_up_chain 64 0 (length pre) s (tf ++ [(pos_at 0 (length pre), node l 0 (length pre))]) Hp)
    as (ns & k & q & s1 & Hr & Hc & [m ->] & Hp1); [unfold full; rewrite Nat.pow_0_r; lia|lia|].
  rewrite Hr. cbn [mbind outcome_bind]. pose proof (chain_end _ _ _ _ _ Hc) as He. rewrite Nat.mul_1_r in He.
  assert (pending 0 (S (length pre)) ((pos_at k (2 * m), node l k (2 * m)) :: s1)) as Hp2.
  { rewrite <-He. apply pending_up. replace (S (2 * m)) with (2 * m + 1)%nat by lia.
    apply pending_odd; [|by apply pending_even_inv]. replace (2 * m + 1)%nat with (S (2 * m)) by lia. lia. }
  destruct (IH (pre ++ [x]) ((pos_at k (2 * m), node l k (2 * m)) :: s1)
    ((tf ++ [(pos_at 0 (length pre), node l 0 (length pre))]) ++ ns)) as (rest & s' & Hr' & Hfr & Hp').
  { by rewrite <-app_assoc. }
  { rewrite length_app. lia. }
  { rewrite length_app. by replace (length pre + length [x])%nat with (S (length pre)) by (simpl; lia). }
  rewrite length_app in Hr', Hfr. replace (length pre + length [x])%nat with (S (length pre)) in Hr', Hfr by (simpl; lia).
  exists ((pos_at 0 (length pre), node l 0 (length pre)) :: ns ++ rest), s'.
  rewrite reverse_cons in Hr'. replace (N.of_nat (length pre - n0) + 1) with (N.of_nat (S (length pre) - n0)) by lia.
  rewrite Hr'. split_and!; [by rewrite <-!app_assoc| |done]. by eapply freezes_leaf.
Qed.

Lemma climb_to_root_node n k q s :
  pending k q s -> (q * 2 ^ k < length l)%nat -> (length l <= S q * 2 ^ k)%nat -> (k + n <= 63)%nat ->
  exists q' s', MerkleAccumulator.climb_to_root r n (pos_at k q) (node l k q) (reverse s) =
      Ok (node l (k + n) q', reverse s') /\ pending (k + n) q' s' /\ (q' * 2 ^ (k + n) < length l)%nat.
Proof.
  revert k q s. induction n as [|n IH]; intros k q s Hp Hlt Hle Hk.
  { exists q, s. rewrite !Nat.add_0_r. done. }
  cbn [MerkleAccumulator.climb_to_root]. rewrite (pos_at_is_left (length l)), (pos_at_parent (length l)) by (done || lia).
  replace (k + S n)%nat with (S k + n)%nat by lia.
  destruct (Nat.Even_or_Odd q) as [[m ->]|[m ->]]; destruct (path_step m) as (Hd & Hd' & _).
  - rewrite Nat.even_mul, Hd. cbn [Nat.even orb mbind outcome_bind].
    assert (node l k (2 * m + 1) = ACCUMULATOR_PLACEHOLDER_HASH) as Hph.
    { unfold node. rewrite drop_ge, take_nil, subtree_nil; [done|]. replace (2 * m + 1)%nat with (S (2 * m)) by lia. lia. }
    rewrite <-Hph, <-node_split by (rewrite pow2_S; lia).
    apply (IH (S k) m s); [by apply pending_even_inv|rewrite pow2_S..|lia]; lia.
  - rewrite Nat.even_add, Nat.even_mul, Hd'. cbn [Nat.even orb eqb].
    destruct (join_left_pending k m s (node l k (2 * m + 1)) Hp Hlt ltac:(lia)) as (s1 & Hj & Hp1).
    rewrite Hj. cbn [mbind outcome_bind]. rewrite <-node_split by (rewrite pow2_S; lia).
    apply (IH (S k) m s1); [done|rewrite pow2_S..|lia]; lia.
Qed.

End append.

(** ** Heights *)
Lemma size_height n : (0 < n)%nat -> N.size (N.of_nat n - 1) = N.of_nat (height n).
Proof.
  intros Hn. unfold height. rewrite N2Nat.id. destruct (decide (n = 1%nat)) as [->|Hne]; [done|].
  rewrite N.size_log2 by lia. rewrite N.log2_up_eqn by lia. by rewrite N.sub_1_r.
Qed.

Lemma height_bound n : N.of_nat n <= 2 ^ 63 -> (height n <= 63)%nat.
Proof.
  intros Hn. unfold height. apply N.log2_up_le_mono in Hn. rewrite N.log2_up_pow2 in Hn by lia. lia.
Qed.

Lemma root_level_height {E} n :
  (0 < n)%nat -> N.of_nat n <= 2 ^ 63 ->
  @Position.root_level_from_leaf_count E (N.of_nat n) = Ok (N.of_nat (height n)).
Proof.
  intros Hn Hmax. unfold Position.root_level_from_leaf_count. rewrite (proj2 (N.ltb_lt _ _)) by lia.
  cbn [assert_ mbind outcome_bind]. unfold leading_zeros. rewrite size_height by done.
  pose proof (height_bound n Hmax). change MAX_ACCUMULATOR_PROOF_DEPTH with 63. f_equal. lia.
Qed.

Lemma root_position {E} n :
  (0 < n)%nat -> N.of_nat n <= 2 ^ 63 ->
  @Position.root_from_leaf_count E (N.of_nat n) = Ok (pos_at (height n) 0).
Proof.
  intros Hn Hmax. unfold Position.root_from_leaf_count. rewrite (proj2 (N.ltb_lt _ _)) by lia.
  cbn [assert_ mbind outcome_bind]. rewrite root_from_leaf_index_inorder, size_height by lia. done.
Qed.

(** ** Hashes of any node *)
Section hashes.
Context `{MerkleHasher} `{HashReader R} (r : R) (l : list HashValue).
Context (Hmax : N.of_nat (length l) <= 2 ^ 63) (Hne : (0 < length l)%nat) (Hstore : stores r l (length l)).

Lemma node_beyond j q : (length l <= q * 2 ^ j)%nat -> node l j q = ACCUMULATOR_PLACEHOLDER_HASH.
Proof. intros Hq. unfold node. by rewrite drop_ge, take_nil, subtree_nil. Qed.

Lemma fits_child j q b :
  fits (N.of_nat (S j)) (N.of_nat q) -> (b <= 1)%nat -> fits (N.of_nat j) (N.of_nat (2 * q + b)).
Proof.
  intros Hf Hb. destruct (fits_left _ _ Hf ltac:(lia)) as [Hl Hr].
  replace (N.of_nat (S j) - 1) with (N.of_nat j) in Hl, Hr by lia.
  destruct b as [|[|]]; [|..|lia].
  - by replace (N.of_nat (2 * q + 0)) with (2 * N.of_nat q) by lia.
  - by replace (N.of_nat (2 * q + 1)) with (2 * N.of_nat q + 1) by lia.
Qed.

Lemma get_hash_at_node fuel j q :
  fits (N.of_nat j) (N.of_nat q) -> (j <= fuel)%nat ->
  MerkleAccumulator.get_hash_at r (N.of_nat (length l)) fuel (pos_at j q) = Ok (node l j q).
Proof.
  revert j q. induction fuel as [|fuel IH]; intros j q Hf Hj; cbn [MerkleAccumulator.get_hash_at];
    unfold MerkleAccumulator.rightmost_leaf_index;
    rewrite (proj2 (sub64_Ok _ 1 (N.of_nat (length l) - 1))) by lia; cbn [mbind outcome_bind];
    unfold pos_at; rewrite placeholder_inorder, freezable_inorder by (done || lia); cbn [mbind outcome_bind];
    rewrite <-of_nat_shift, pow2_of_nat, <-Nat2N.inj_add;
    (destruct (N.ltb_spec (N.of_nat (length l) - 1) (N.of_nat (q * 2 ^ j))) as [Hb|Hb];
      [rewrite node_beyond by lia; done|]);
    (destruct (N.leb_spec (N.of_nat (q * 2 ^ j + 2 ^ j)) (N.of_nat (length l) - 1 + 1)) as [Hfr|Hfr];
      [apply (Hstore j q); unfold full; lia|]).
  - exfalso. assert (j = 0%nat) as -> by lia. rewrite Nat.pow_0_r in *. lia.
  - destruct j as [|j]; [rewrite Nat.pow_0_r in *; lia|].
    rewrite left_child_inorder, right_child_inorder by (done || lia). cbn [mbind outcome_bind].
    pose proof (IH j (2 * q + 0)%nat (fits_child j q 0 Hf ltac:(lia)) ltac:(lia)) as Hl.
    pose proof (IH j (2 * q + 1)%nat (fits_child j q 1 Hf ltac:(lia)) ltac:(lia)) as Hr.
    unfold pos_at in Hl, Hr. replace (N.of_nat (S j) - 1) with (N.of_nat j) by lia.
    replace (2 * N.of_nat q) with (N.of_nat (2 * q + 0)) by lia.
    replace (N.of_nat (2 * q + 0) + 1) with (N.of_nat (2 * q + 1)) by lia.
    rewrite Hl. cbn [mbind outcome_bind]. rewrite Hr. cbn [mbind outcome_bind].
    rewrite Nat.add_0_r, <-node_split by lia. done.
Qed.

Lemma get_hash_node j q :
  fits (N.of_nat j) (N.of_nat q) ->
  MerkleAccumulator.get_hash r (N.of_nat (length l)) (pos_at j q) = Ok (node l j q).
Proof. intros Hf. apply get_hash_at_node; [done|]. destruct Hf. lia. Qed.

Lemma get_root_hash_root : MerkleAccumulator.get_root_hash r (N.of_nat (length l)) = Ok (merkle_root l).
Proof.
  unfold MerkleAccumulator.get_root_hash. rewrite root_position by done. cbn [mbind outcome_bind].
  rewrite get_hash_node, node_root; [done|]. apply (fits_node (length l)); [done|simpl; lia|by apply height_bound].
Qed.

End hashes.

Lemma collect_fmap {E A B C} (f : B -> outcome E C) (g : A -> B) (h : A -> C) (xs : list A) :
  (forall x, x ∈ xs -> f (g x) = Ok (h x)) -> collect f (g <$> xs) = Ok (h <$> xs).
Proof.
  induction xs as [|x xs IH]; intros Hf; [done|]. cbn [fmap list_fmap collect].
  rewrite Hf by set_solver. cbn [mbind outcome_bind]. rewrite IH by set_solver. done.
Qed.

Lemma collect_app {E A B} (f : A -> outcome E B) xs ys bs cs :
  collect f xs = Ok bs -> collect f ys = Ok cs -> collect f (xs ++ ys) = Ok (bs ++ cs).
Proof.
  revert bs. induction xs as [|x xs IH]; intros bs Hb Hc; cbn [collect app] in *.
  - by injection Hb as <-.
  - apply bind_Ok in Hb as (b & -> & Hb). apply bind_Ok in Hb as (bs' & Hbs & Hb). injection Hb as <-.
    cbn [mbind outcome_bind]. by rewrite (IH bs' Hbs Hc).
Qed.

(** ** What an append returns *)
Lemma node_app_full `{MerkleHasher} l l' j q : full (length l) j q -> node (l ++ l') j q = node l j q.
Proof.
  unfold full, node. intros Hf. rewrite drop_app_le, take_app_le; [done|rewrite length_drop|]; lia.
Qed.

Lemma stores_app `{MerkleHasher} `{HashReader R} (r : R) l l' :
  stores r l (length l) -> stores r (l ++ l') (length l).
Proof. intros Hs j q Hf. rewrite node_app_full by done. by apply Hs. Qed.

Section append_spec.
Context `{MerkleHasher} `{HashReader R} (r : R) (l xs : list HashValue).
Context (Hmax : N.of_nat (length (l ++ xs)) <= 2 ^ 63) (Hnew : N.of_nat (length xs) <= 2 ^ 62).
Context (Hstore : stores r l (length l)).

Lemma append_freezes :
  exists ns, MerkleAccumulator.append r (N.of_nat (length l)) xs = Ok (merkle_root (l ++ xs), ns) /\
    freezes (l ++ xs) (length l) ns.
Proof.
  unfold MerkleAccumulator.append. destruct (bool_decide_reflect (xs = [])) as [->|Hne].
  { exists []. rewrite app_nil_r in *. split; [|apply freezes_done]. destruct (decide (length l = 0%nat)) as [Hl|Hl].
    - apply nil_length_inv in Hl as ->. done.
    - rewrite (proj2 (N.eqb_neq _ _)) by lia. rewrite get_root_hash_root by (done || lia). done. }
  assert (0 < length xs)%nat as Hxs by (destruct xs; [done|simpl; lia]). pose proof Hmax as Hmax'. rewrite length_app in Hmax'.
  rewrite (proj2 (add64_Ok _ _ (N.of_nat (length (l ++ xs))))) by (rewrite length_app; unfold u64_max; lia).
  cbn [mbind outcome_bind]. rewrite root_level_height by (rewrite ?length_app; lia). cbn [mbind outcome_bind].
  pose proof (height_bound _ Hmax) as Hh. unfold MerkleAccumulator.max_to_freeze.
  rewrite (proj2 (mul64_Ok _ 2 (N.of_nat (length xs) * 2))) by (unfold u64_max; lia). cbn [mbind outcome_bind].
  rewrite (proj2 (add64_Ok _ (N.of_nat (height _)) (N.of_nat (length xs) * 2 + N.of_nat (height (length (l ++ xs))))))
    by (unfold u64_max; lia).
  cbn [mbind outcome_bind].
  destruct (append_leaves_freezes r (l ++ xs) (length l) Hmax (stores_app r l xs Hstore) xs l [] [])
    as (ns & s & Ha & Hfr & Hp); [done|lia|apply pending_old; rewrite Nat.pow_0_r; lia|].
  rewrite Nat.sub_diag in Ha. change (N.of_nat 0) with 0 in Ha. change (reverse []) with (@nil (N * N)) in Ha. rewrite Ha. cbn [mbind outcome_bind app].
  exists ns. split; [|done].
  destruct (pending_top _ _ _ _ _ Hp) as (k & m & s' & -> & He & Hp'); [rewrite length_app, Nat.pow_0_r; lia|].
  rewrite vec_pop_reverse. cbn [expect mbind outcome_bind].
  rewrite Nat.pow_0_r, Nat.mul_1_r in He. pose proof (pow2_pos k) as Hk0.
  assert (k <= height (length (l ++ xs)))%nat as Hk.
  { apply (Nat.pow_le_mono_r_iff 2); [lia|]. transitivity (length (l ++ xs)); [nia|apply height_le]. }
  assert (2 * m * 2 ^ k < length (l ++ xs))%nat as Hlt by lia.
  rewrite (pos_at_level _ Hmax) by lia.
  replace (N.to_nat (N.of_nat (height (length (l ++ xs))) - N.of_nat k)) with (height (length (l ++ xs)) - k)%nat by lia.
  destruct (climb_to_root_node r (l ++ xs) (length l) Hmax (stores_app r l xs Hstore)
    (height (length (l ++ xs)) - k) k (2 * m) s' Hp' Hlt ltac:(lia) ltac:(lia)) as (q & s1 & Hc & Hp1 & Hq).
  rewrite Hc. cbn [mbind outcome_bind]. rewrite Nat.add_comm, Nat.sub_add in * by done.
  assert (q = 0%nat) as ->. { pose proof (height_le (l ++ xs)). pose proof (pow2_pos (height (length (l ++ xs)))). nia. }
  apply pending_zero in Hp1 as ->; [|done]. by rewrite node_root.
Qed.
End append_spec.

(** ** The frozen nodes are all there and in post-order *)
Section frozen_nodes.
Context `{MerkleHasher} (l : list HashValue).

Definition is_node (p : Node) : Prop :=
  exists j q, full (length l) j q /\ p = (pos_at j q, node l j q).

Lemma chain_nodes k q ns k' q' : chain l k q ns k' q' -> full (length l) k q -> Forall is_node ns.
Proof.
  induction 1 as [|k m ns k' q' _ IH]; intros Hf; [done|].
  assert (full (length l) (S k) m) as Hf' by (unfold full in *; rewrite pow2_S; lia).
  constructor; [by exists (S k), m|by apply IH].
Qed.

Lemma freezes_nodes i ns : freezes l i ns -> Forall is_node ns.
Proof.
  induction 1 as [|i ns k q rest Hi Hc _ IH]; [done|].
  assert (full (length l) 0 i) as Hf by (unfold full; rewrite Nat.pow_0_r; lia).
  constructor; [by exists 0%nat, i|]. apply Forall_app. split; [by eapply chain_nodes|done].
Qed.

Lemma chain_complete k p ns k' q' j q :
  chain l k p ns k' q' -> (k <= j)%nat -> (S q * 2 ^ j = S p * 2 ^ k)%nat ->
  (j = k /\ q = p) \/ (pos_at j q, node l j q) ∈ ns.
Proof.
  intros Hc. revert j q. induction Hc as [k m|k m ns k' q' _ IH]; intros j q Hj He.
  - left. destruct (decide (j = k)) as [->|Hne].
    + pose proof (pow2_pos k). split; [done|nia].
    + exfalso. replace j with (S (j - S k) + k)%nat in He by lia. rewrite Nat.pow_add_r, Nat.mul_assoc in He.
      pose proof (pow2_pos k). apply Nat.mul_cancel_r in He; [|lia]. rewrite Nat.pow_succ_r' in He. lia.
  - destruct (decide (j = k)) as [->|Hne].
    + left. pose proof (pow2_pos k). split; [done|nia].
    + right. destruct (IH j q) as [[-> ->]|Hin]; [lia|rewrite He, pow2_S; lia|set_solver..].
Qed.

Lemma freezes_complete i ns j q :
  freezes l i ns -> full (length l) j q -> (i < S q * 2 ^ j)%nat -> (pos_at j q, node l j q) ∈ ns.
Proof.
  intros Hfr Hf. induction Hfr as [|i ns k p rest Hi Hc _ IH]; intros Hlt; [unfold full in Hf; lia|].
  destruct (decide (S q * 2 ^ j = S i)%nat) as [He|Hne].
  - destruct (chain_complete _ _ _ _ _ j q Hc ltac:(lia)) as [[-> ->]|Hin]; [rewrite Nat.pow_0_r; lia|set_solver..].
  - apply list_elem_of_further, elem_of_app. right. apply IH. lia.
Qed.

(** A reader that has the new nodes besides the old ones stores all leaves. *)
Lemma freezes_stores `{HashReader R} (r' : R) i ns :
  freezes l i ns -> stores r' l i -> (forall p h, (p, h) ∈ ns -> reader_get r' p = Ok h) ->
  stores r' l (length l).
Proof.
  intros Hf Hold Hnew j q Hfull. destruct (decide (S q * 2 ^ j <= i)%nat) as [Hlf|Hlf]; [by apply Hold|].
  apply Hnew, (freezes_complete i); [done..|lia].
Qed.

Definition pos_postorder (j q : nat) : N := postorder (N.of_nat j) (N.of_nat q).

Lemma full_top n j q : N.of_nat n < 2 ^ 63 -> full n j q -> (j < 63)%nat.
Proof.
  intros Hn Hf. pose proof (full_level n j q ltac:(lia) Hf) as Hj.
  destruct (decide (j = 63%nat)) as [->|]; [|lia]. exfalso. unfold full in Hf.
  assert (2 ^ N.of_nat 63 <= N.of_nat n) as Hle; [|change (N.of_nat 63) with 63 in Hle; lia].
  rewrite pow2_of_nat. generalize dependent (2 ^ 63)%nat. intros; nia.
Qed.

Lemma pos_postorder_spec {E} n j q :
  N.of_nat n < 2 ^ 63 -> full n j q -> @to_postorder_index E (pos_at j q) = Ok (pos_postorder j q).
Proof.
  intros Hn Hf. pose proof (full_top n j q Hn Hf) as Hj. pose proof (full_lt _ _ _ Hf) as Hlt.
  apply inorder_to_postorder_spec; [apply (fits_node n); [lia|done|lia]|lia].
Qed.

Lemma pos_postorder_up j m : pos_postorder (S j) m = pos_postorder j (2 * m + 1) + 1.
Proof.
  unfold pos_postorder. rewrite postorder_right by lia. do 2 f_equal; lia.
Qed.

Lemma pos_postorder_next j m i :
  (S (2 * m) * 2 ^ j = S i)%nat -> pos_postorder 0 (S i) = pos_postorder j (2 * m) + 1.
Proof.
  intros He. unfold pos_postorder. rewrite <-He, of_nat_shift. unfold postorder.
  rewrite count_ones_shift. replace (N.of_nat (S (2 * m))) with (2 * N.of_nat m + 1) by lia.
  replace (N.of_nat (2 * m)) with (2 * N.of_nat m) by lia.
  rewrite count_ones_double, count_ones_double1. change (2 ^ (N.of_nat 0 + 1)) with 2.
  pose proof (count_ones_le (N.of_nat m)). rewrite (N.add_1_r (N.of_nat j)), N.pow_succ_r'.
  pose proof (N.pow_nonzero 2 (N.of_nat j) ltac:(done)). nia.
Qed.

Lemma chain_postorder k q ns k' q' :
  N.of_nat (length l) < 2 ^ 63 -> chain l k q ns k' q' -> full (length l) k q ->
  collect (@to_postorder_index AnyError) ns.*1 = Ok (count_from (pos_postorder k q + 1) (length ns)) /\
  pos_postorder k' q' = pos_postorder k q + N.of_nat (length ns) /\ Nat.Even q'.
Proof.
  intros Hl. induction 1 as [k m|k m ns k' q' _ IH]; intros Hf.
  { split_and!; [done|simpl; lia|by exists m]. }
  assert (full (length l) (S k) m) as Hf' by (unfold full in *; rewrite pow2_S; lia).
  destruct (IH Hf') as (Hc & He & Hev). cbn [fmap list_fmap collect fst length].
  rewrite (pos_postorder_spec (length l)) by done. cbn [mbind outcome_bind]. rewrite Hc. cbn [mbind outcome_bind].
  rewrite He, (pos_postorder_up k m). split_and!; [done|lia|done].
Qed.

(** The nodes come in post-order, without gaps. *)
Lemma freezes_postorder i ns :
  N.of_nat (length l) < 2 ^ 63 -> freezes l i ns ->
  collect (@to_postorder_index AnyError) ns.*1 = Ok (count_from (pos_postorder 0 i) (length ns)) /\
  pos_postorder 0 (length l) = pos_postorder 0 i + N.of_nat (length ns).
Proof.
  intros Hl. induction 1 as [|i ns k q rest Hi Hc Hfr [IH IH']]; [split; [done|simpl; lia]|].
  assert (full (length l) 0 i) as Hf by (unfold full; rewrite Nat.pow_0_r; lia).
  destruct (chain_postorder _ _ _ _ _ Hl Hc Hf) as (Hcc & He & [m ->]).
  pose proof (chain_end _ _ _ _ _ _ Hc) as Hend. rewrite Nat.pow_0_r, Nat.mul_1_r in Hend.
  pose proof (pos_postorder_next _ _ _ Hend) as Hnext.
  cbn [fmap list_fmap collect fst]. rewrite (pos_postorder_spec (length l)) by done. cbn [mbind outcome_bind].
  rewrite fmap_app, (collect_app _ _ _ _ _ Hcc IH). cbn [mbind outcome_bind length count_from].
  rewrite length_app, count_from_app, IH', Hnext, He. split; [|lia].
  do 3 f_equal. f_equal. lia.
Qed.
End frozen_nodes.

(** ** Paths *)
Fixpoint sibling_path (j q h : nat) : list (nat * nat) :=
  match h with O => [] | S h => (j, sibling_index q) :: sibling_path (S j) (q / 2) h end.

(** The siblings on the left of a path, and the ones on the right. *)
Fixpoint left_path (j q h : nat) : list (nat * nat) :=
  match h with
  | O => []
  | S h => (if Nat.odd q then [(j, (q - 1)%nat)] else []) ++ left_path (S j) (q / 2) h
  end.
Fixpoint right_path (j q h : nat) : list (nat * nat) :=
  match h with
  | O => []
  | S h => (if Nat.even q then [(j, (q + 1)%nat)] else []) ++ right_path (S j) (q / 2) h
  end.

Definition place (p : nat * nat) : Position := pos_at p.1 p.2.
Definition node_of `{MerkleHasher} (l : list HashValue) (p : nat * nat) : HashValue := node l p.1 p.2.

Lemma half_lt n j q : (q * 2 ^ j < n)%nat -> (q / 2 * 2 ^ S j < n)%nat.
Proof.
  intros Hq. destruct (Nat.Even_or_Odd q) as [[m ->]|[m ->]]; destruct (path_step m) as (Hd & Hd' & _);
    rewrite ?Hd, ?Hd', pow2_S; lia.
Qed.

Section paths.
Context (n : nat) (Hn : N.of_nat n <= 2 ^ 63).

Lemma fits_sibling_index j q :
  (q * 2 ^ j < n)%nat -> (j < 63)%nat -> fits (N.of_nat j) (N.of_nat (sibling_index q)).
Proof.
  intros Hq Hj. pose proof (fits_node n j q Hn Hq ltac:(lia)) as Hf.
  apply fits_sibling in Hf; [|lia]. destruct (Nat.Even_or_Odd q) as [[m ->]|[m ->]]; destruct (path_step m) as (_ & _ & He & Ho).
  - rewrite He. rewrite lxor_1_even in Hf by (rewrite even_of_nat, Nat.even_mul; done).
    by replace (N.of_nat (2 * m + 1)) with (N.of_nat (2 * m) + 1) by lia.
  - rewrite Ho. rewrite lxor_1_odd in Hf by (rewrite even_of_nat, Nat.even_add, Nat.even_mul; done).
    by replace (N.of_nat (2 * m)) with (N.of_nat (2 * m + 1) - 1) by lia.
Qed.

Lemma pos_at_sibling j q :
  (q * 2 ^ j < n)%nat -> (j < 63)%nat -> Position.sibling (pos_at j q) = pos_at j (sibling_index q).
Proof.
  intros Hq Hj. destruct (Nat.Even_or_Odd q) as [[m ->]|[m ->]]; destruct (path_step m) as (_ & _ & He & Ho).
  - rewrite He. by apply (pos_at_sibling_even n).
  - rewrite Ho. by apply (pos_at_sibling_odd n).
Qed.

Lemma take_sibling_path h j q :
  (q * 2 ^ j < n)%nat -> (j + h <= 63)%nat ->
  AncestorSiblingIterator.take h (pos_at j q) = place <$> sibling_path j q h /\
  Forall (fun p => fits (N.of_nat p.1) (N.of_nat p.2)) (sibling_path j q h).
Proof.
  revert j q. induction h as [|h IH]; intros j q Hq Hj; [done|].
  cbn [AncestorSiblingIterator.take AncestorSiblingIterator.next sibling_path fmap list_fmap].
  rewrite pos_at_sibling, (pos_at_parent n) by (done || lia).
  destruct (IH (S j) (q / 2)%nat) as [-> Hf]; [by apply half_lt|lia|]. split; [done|].
  constructor; [apply (fits_sibling_index j q); [done|lia]|done].
Qed.

Lemma filter_sibling_path h j q :
  (q * 2 ^ j < n)%nat -> (j + h <= 63)%nat ->
  List.filter Position.is_left_child (place <$> sibling_path j q h) = place <$> left_path j q h /\
  List.filter Position.is_right_child (place <$> sibling_path j q h) = place <$> right_path j q h.
Proof.
  revert j q. induction h as [|h IH]; intros j q Hq Hj; [done|].
  destruct (IH (S j) (q / 2)%nat) as [Hl Hr]; [by apply half_lt|lia|].
  pose proof (fits_sibling_index j q Hq ltac:(lia)) as Hf.
  assert (Position.is_left_child (place (j, sibling_index q)) = Nat.odd q) as Hside.
  { unfold place, pos_at. cbn [fst snd]. rewrite is_left_child_inorder, even_of_nat by (done || lia).
    destruct (Nat.Even_or_Odd q) as [[m ->]|[m ->]]; destruct (path_step m) as (_ & _ & He & Ho).
    - rewrite He, Nat.even_add, Nat.even_mul, Nat.odd_mul. done.
    - rewrite Ho, Nat.even_mul, Nat.odd_add, Nat.odd_mul. done. }
  cbn [sibling_path left_path right_path fmap list_fmap List.filter]. unfold Position.is_right_child at 1.
  rewrite Hside, !fmap_app, <-Hl, <-Hr, <-(Nat.negb_odd q). unfold sibling_index. rewrite <-(Nat.negb_odd q).
  by destruct (Nat.odd q).
Qed.
End paths.

(** ** Range proofs are accepted *)
Section range.
Context `{MerkleHasher} (l : list HashValue) (Hmax : N.of_nat (length l) <= 2 ^ 63).

Lemma pair_up_nodes j c k rest :
  ((c + k) * 2 ^ S j < length l + 2 ^ S j)%nat ->
  pair_up ((node l j <$> seq (2 * c) (2 * k)) ++ rest) =
    ((node l (S j) <$> seq c k) ++ (pair_up rest).1, (pair_up rest).2).
Proof.
  revert c. induction k as [|k IH]; intros c Hk.
  { rewrite Nat.mul_0_r. cbn [seq fmap list_fmap app]. by destruct (pair_up rest). }
  replace (2 * S k)%nat with (S (S (2 * k))) by lia. cbn [seq fmap list_fmap app pair_up].
  replace (S (S (2 * c))) with (2 * S c)%nat by lia. pose proof (pow2_pos (S j)).
  unfold fmap in IH. rewrite IH by lia.
  replace (S (2 * c)) with (2 * c + 1)%nat by lia. by rewrite <-node_split by nia.
Qed.

(** A first right child is joined with its sibling; the rest starts at a left child. *)
Lemma range_first_nodes h j a b :
  (a <= b)%nat -> (b * 2 ^ j < length l)%nat -> (j < 63)%nat ->
  exists c first,
    range_first (pos_at j a) (node_of l <$> left_path j a (S h)) (node l j <$> seq a (S (b - a))) =
      Ok (first, node_of l <$> left_path (S j) (a / 2) h, node l j <$> seq (2 * c) (b + 1 - 2 * c)) /\
    (2 * c <= b + 1)%nat /\ first ++ (node l (S j) <$> seq c (b / 2 + 1 - c)) =
      node l (S j) <$> seq (a / 2) (S (b / 2 - a / 2)).
Proof.
  intros Hab Hb Hj. pose proof (pow2_pos j) as Hp. unfold range_first.
  assert (a * 2 ^ j < length l)%nat as Ha by nia.
  rewrite (pos_at_is_right (length l)) by (done || lia). cbn [left_path]. rewrite fmap_app.
  destruct (Nat.Even_or_Odd a) as [[m ->]|[m ->]]; destruct (path_step m) as (Hd & Hd' & _ & _).
  - exists m, []. rewrite Nat.odd_mul, Hd. replace (S (b - 2 * m)) with (b + 1 - 2 * m)%nat by lia.
    split_and!; [done|lia|]. cbn [app]. do 2 f_equal.
    destruct (Nat.Even_or_Odd b) as [[t ->]|[t ->]]; destruct (path_step t) as (Ht & Ht' & _); rewrite ?Ht, ?Ht'; lia.
  - exists (S m), [node l (S j) m]. rewrite Nat.odd_add, Nat.odd_mul, Hd'.
    cbn [Nat.odd Nat.even negb andb xorb fmap list_fmap app head ok_or mbind outcome_bind tail seq expect].
    unfold node_of at 1. cbn [fst snd]. replace (2 * m + 1 - 1)%nat with (2 * m)%nat by lia.
    rewrite <-node_split by (rewrite pow2_S; nia). replace (2 * S m)%nat with (S (2 * m + 1)) by lia.
    replace (b + 1 - S (2 * m + 1))%nat with (b - (2 * m + 1))%nat by lia.
    split_and!; [done|lia|]. do 3 f_equal.
    destruct (Nat.Even_or_Odd b) as [[t ->]|[t ->]]; destruct (path_step t) as (Ht & Ht' & _); rewrite ?Ht, ?Ht'; lia.
Qed.

Lemma range_step_nodes h j a b :
  (a <= b)%nat -> (b * 2 ^ j < length l)%nat -> (j < 63)%nat ->
  range_step (pos_at j a) (node_of l <$> left_path j a (S h)) (node_of l <$> right_path j b (S h))
    (node l j <$> seq a (S (b - a))) =
  Ok (node l (S j) <$> seq (a / 2) (S (b / 2 - a / 2)),
      node_of l <$> left_path (S j) (a / 2) h, node_of l <$> right_path (S j) (b / 2) h).
Proof.
  intros Hab Hb Hj. pose proof (pow2_pos j) as Hp. pose proof (half_lt _ _ _ Hb) as Hb2.
  unfold range_step. destruct (range_first_nodes h j a b Hab Hb Hj) as (c & first & -> & Hc & <-).
  cbn [mbind outcome_bind right_path]. rewrite fmap_app.
  destruct (Nat.Even_or_Odd b) as [[t ->]|[t ->]]; destruct (path_step t) as (Ht & Ht' & _ & _).
  - rewrite Nat.even_mul, Ht in *. replace (2 * t + 1 - 2 * c)%nat with (2 * (t - c) + 1)%nat by lia.
    rewrite seq_app, fmap_app. replace (2 * c + 2 * (t - c))%nat with (2 * t)%nat by lia.
    rewrite pair_up_nodes by (rewrite pow2_S in *; nia).
    cbn [Nat.even orb seq fmap list_fmap pair_up fst snd app head ok_or mbind outcome_bind tail].
    unfold node_of at 1. cbn [fst snd]. rewrite app_nil_r, <-node_split by (rewrite pow2_S in *; lia).
    replace (t + 1 - c)%nat with ((t - c) + 1)%nat by lia. rewrite seq_app.
    replace (c + (t - c))%nat with t by lia. by rewrite fmap_app.
  - rewrite Nat.even_add, Nat.even_mul, Ht' in *. replace (2 * t + 1 + 1 - 2 * c)%nat with (2 * (t + 1 - c))%nat by lia.
    rewrite <-(app_nil_r (node l j <$> _)), pair_up_nodes by (replace (c + (t + 1 - c))%nat with (t + 1)%nat by lia; lia).
    cbn [pair_up fst snd Nat.even orb eqb fmap list_fmap app]. by rewrite app_nil_r.
Qed.

Lemma range_reduce_nodes h : forall fuel j a b,
  (a <= b)%nat -> (b * 2 ^ j < length l)%nat -> (j + h <= 63)%nat -> (b < 2 ^ h)%nat ->
  (S (b - a) + length (left_path j a h) + length (right_path j b h) <= fuel)%nat ->
  range_reduce fuel (pos_at j a) (node_of l <$> left_path j a h) (node_of l <$> right_path j b h)
    (node l j <$> seq a (S (b - a))) = Ok [node l (j + h) 0].
Proof.
  induction h as [|h IH]; intros fuel j a b Hab Hb Hj Hh Hfuel.
  { assert (b = 0%nat /\ a = 0%nat) as [-> ->] by (simpl in Hh; lia). rewrite Nat.add_0_r. by destruct fuel. }
  destruct fuel as [|fuel]; [lia|]. cbn [range_reduce].
  match goal with |- (if ?c then _ else _) = _ => assert (c = true) as -> end.
  { rewrite length_fmap, length_seq. destruct (decide (a = b)) as [->|Hne].
    - cbn [left_path right_path]. rewrite <-Nat.negb_odd. destruct (Nat.odd b); simpl; by rewrite ?orb_true_r.
    - rewrite (proj2 (Nat.ltb_lt _ _)) by lia. done. }
  pose proof (range_step_shorter (pos_at j a) (node_of l <$> left_path j a (S h)) (node_of l <$> right_path j b (S h))
    (node l j <$> seq a (S (b - a)))) as Hs.
  specialize (Hs ltac:(by simpl)).
  rewrite range_step_nodes in Hs |- * by (done || lia). destruct Hs as [_ Hs].
  rewrite !length_fmap, !length_seq in Hs. cbn [mbind outcome_bind].
  rewrite (pos_at_parent (length l)) by (done || lia || (pose proof (pow2_pos j); nia)).
  replace (j + S h)%nat with (S j + h)%nat by lia.
  pose proof (Nat.Div0.div_le_mono a b 2 Hab). apply IH; [done|by apply half_lt|lia| |lia].
  apply Nat.Div0.div_lt_upper_bound. rewrite Nat.pow_succ_r' in Hh. lia.
Qed.
End range.

Lemma left_path_length h j q : (length (left_path j q h) <= h)%nat /\ (length (right_path j q h) <= h)%nat.
Proof.
  revert j q. induction h as [|h IH]; intros j q; [simpl; lia|]. cbn [left_path right_path]. rewrite !length_app.
  destruct (IH (S j) (q / 2)%nat). destruct (Nat.odd q), (Nat.even q); cbn [length]; lia.
Qed.

Lemma take_drop_nodes `{MerkleHasher} l i k :
  (i + k <= length l)%nat -> take k (drop i l) = node l 0 <$> seq i k.
Proof.
  revert i. induction k as [|k IH]; intros i Hi; [done|].
  destruct (lookup_lt_is_Some_2 l i ltac:(lia)) as [x Hx]. rewrite (drop_S l x i Hx).
  cbn [take seq fmap list_fmap]. rewrite (node_leaf l i x Hx), IH by lia. done.
Qed.

Lemma range_path_verifies `{MerkleHasher} l i k :
  N.of_nat (length l) <= 2 ^ 63 -> (0 < k)%nat -> (i + k <= length l)%nat ->
  AccumulatorRangeProof_verify
    (mkAccumulatorRangeProof (node_of l <$> left_path 0 i (height (length l)))
       (node_of l <$> right_path 0 (i + k - 1) (height (length l))))
    (merkle_root l) (Some (N.of_nat i)) (take k (drop i l)) = Ok tt.
Proof.
  intros Hmax Hk Hi. pose proof (height_bound _ Hmax) as Hh. pose proof (height_le l) as Hhl.
  destruct (left_path_length (height (length l)) 0 i) as [Hll _].
  destruct (left_path_length (height (length l)) 0 (i + k - 1)) as [_ Hrl].
  rewrite take_drop_nodes by done. cbn [AccumulatorRangeProof_verify left_siblings right_siblings].
  rewrite !length_fmap, length_seq, (proj2 (N.leb_le _ _)), (proj2 (N.leb_le _ _))
    by (change MAX_ACCUMULATOR_PROOF_DEPTH with 63; lia).
  cbn [ensure mbind outcome_bind]. rewrite bool_decide_false by (destruct k; [lia|done]).
  cbn [negb ensure mbind outcome_bind]. rewrite (pos_at_leaf (length l)) by (done || lia).
  pose proof (range_reduce_nodes l Hmax (height (length l)) (k + length (left_path 0 i (height (length l))) +
    length (right_path 0 (i + k - 1) (height (length l)))) 0 i (i + k - 1)) as Hr.
  replace (S (i + k - 1 - i)) with k in Hr by lia. rewrite Hr by (rewrite ?Nat.pow_0_r; lia).
  cbn [mbind outcome_bind head expect]. by rewrite Nat.add_0_l, node_root, N.eqb_refl.
Qed.

(** ** The proofs made from a store *)
Section make_proofs.
Context `{MerkleHasher} `{HashReader R} (r : R) (l : list HashValue).
Context (Hmax : N.of_nat (length l) <= 2 ^ 63) (Hstore : stores r l (length l)).

Lemma get_hashes_nodes ps :
  (0 < length l)%nat -> Forall (fun p => fits (N.of_nat p.1) (N.of_nat p.2)) ps ->
  MerkleAccumulator.get_hashes r (N.of_nat (length l)) (place <$> ps) = Ok (node_of l <$> ps).
Proof.
  intros Hne Hf. rewrite Forall_forall in Hf. apply collect_fmap. intros p Hp. apply get_hash_node; [done..|by apply Hf].
Qed.

Lemma node_sibling_path j q h : node_of l <$> sibling_path j q h = path l j q h.
Proof. revert j q. induction h as [|h IH]; intros j q; [done|]. cbn. f_equal. apply IH. Qed.

Lemma sibling_positions i f :
  (i < length l)%nat ->
  MerkleAccumulator.get_sibling_positions (N.of_nat (length l)) (N.of_nat i) f =
    Ok (List.filter f (place <$> sibling_path 0 i (height (length l)))) /\
  Forall (fun p => fits (N.of_nat p.1) (N.of_nat p.2)) (sibling_path 0 i (height (length l))).
Proof.
  intros Hi. unfold MerkleAccumulator.get_sibling_positions. rewrite root_position by (done || lia).
  cbn [mbind outcome_bind]. pose proof (height_bound _ Hmax).
  rewrite (pos_at_level (length l) Hmax), (pos_at_leaf (length l)) by (simpl; lia || done).
  rewrite Nat2N.id. destruct (take_sibling_path (length l) Hmax (height (length l)) 0 i) as [-> Hf];
    [rewrite Nat.pow_0_r; lia|lia|done].
Qed.

Lemma get_proof_path i :
  (i < length l)%nat ->
  MerkleAccumulator.get_proof r (N.of_nat (length l)) (N.of_nat i) =
    Ok (mkAccumulatorProof (path l 0 i (height (length l)))).
Proof.
  intros Hi. unfold MerkleAccumulator.get_proof, MerkleAccumulator.get_siblings.
  rewrite (proj2 (N.ltb_lt _ _)) by lia. cbn [ensure mbind outcome_bind].
  destruct (sibling_positions i (fun _ => true) Hi) as [-> Hf]. cbn [mbind outcome_bind].
  assert (forall ps : list Position, List.filter (fun _ => true) ps = ps) as Hall
    by (intros ps; induction ps; simpl; congruence).
  rewrite Hall, get_hashes_nodes by (done || lia). by rewrite node_sibling_path.
Qed.

Lemma filtered_fits (f : Position -> bool) ps qs :
  Forall (fun p => fits (N.of_nat p.1) (N.of_nat p.2)) ps ->
  List.filter f (place <$> ps) = place <$> qs -> qs ⊆ ps ->
  Forall (fun p => fits (N.of_nat p.1) (N.of_nat p.2)) qs.
Proof. rewrite !Forall_forall. set_solver. Qed.

Lemma left_path_sub h j q : left_path j q h ⊆ sibling_path j q h /\ right_path j q h ⊆ sibling_path j q h.
Proof.
  revert j q. induction h as [|h IH]; intros j q; [done|]. destruct (IH (S j) (q / 2)%nat) as [Hl Hr].
  cbn [left_path right_path sibling_path]. unfold sibling_index. rewrite <-Nat.negb_odd.
  destruct (Nat.odd q); simpl; set_solver.
Qed.

Lemma get_range_proof_verifies i xs :
  xs <> [] -> (i + length xs <= length l)%nat -> take (length xs) (drop i l) = xs ->
  exists pf, MerkleAccumulator.get_range_proof r (N.of_nat (length l)) (Some (N.of_nat i)) (N.of_nat (length xs)) = Ok pf /\
    AccumulatorRangeProof_verify pf (merkle_root l) (Some (N.of_nat i)) xs = Ok tt.
Proof.
  intros Hne Hi Hxs. assert (0 < length xs)%nat as Hpos by (destruct xs; [done|simpl; lia]).
  pose proof (height_bound _ Hmax) as Hh. set (b := (i + length xs - 1)%nat).
  unfold MerkleAccumulator.get_range_proof, MerkleAccumulator.get_range_proof_positions.
  rewrite (proj2 (N.ltb_lt _ _)) by lia. cbn [ensure mbind outcome_bind]. unfold checked_add.
  rewrite (proj2 (N.leb_le _ _)) by (unfold u64_max; lia). cbn [ok_or mbind outcome_bind].
  replace (N.of_nat i + (N.of_nat (length xs) - 1)) with (N.of_nat b) by lia.
  rewrite (proj2 (N.ltb_lt _ _)) by lia. cbn [ensure mbind outcome_bind].
  destruct (sibling_positions i Position.is_left_child ltac:(lia)) as [-> Hfi].
  destruct (sibling_positions b Position.is_right_child ltac:(lia)) as [-> Hfb]. cbn [mbind outcome_bind].
  destruct (filter_sibling_path (length l) Hmax (height (length l)) 0 i) as [Hl _]; [rewrite Nat.pow_0_r; lia|lia|].
  destruct (filter_sibling_path (length l) Hmax (height (length l)) 0 b) as [_ Hr]; [rewrite Nat.pow_0_r; lia|lia|].
  pose proof (filtered_fits _ _ _ Hfi Hl (proj1 (left_path_sub _ _ _))) as Hfl.
  pose proof (filtered_fits _ _ _ Hfb Hr (proj2 (left_path_sub _ _ _))) as Hfr.
  rewrite Hl, Hr, !get_hashes_nodes by (done || lia). cbn [mbind outcome_bind]. eexists. split; [done|].
  pose proof (range_path_verifies l i (length xs) Hmax Hpos Hi) as Hv. by rewrite Hxs in Hv.
Qed.

(** The roots of subtrees that tile a part of the leaves are in the store. *)
Lemma collect_tiles a b ps :
  tiles a b ps -> b <= N.of_nat (length l) ->
  collect (reader_get r) ps = Ok (node_at l <$> ps).
Proof.
  intros Ht Hb.
  assert (a <= b /\ forall p, p ∈ ps -> exists k q, p = inorder k q /\ (q + 1) * 2 ^ k <= b) as [_ Hin].
  { clear Hb. revert a Ht. induction ps as [|p ps IH]; intros a Ht; simpl in Ht; [split; [lia|set_solver]|].
    destruct Ht as (k & q & -> & -> & Ht). apply IH in Ht as [Hle Hin]. split; [lia|].
    intros p Hp. apply elem_of_cons in Hp as [->|Hp]; [exists k, q; split; [done|lia]|by apply Hin]. }
  rewrite <-(list_fmap_id ps) at 1. apply (collect_fmap _ id). intros p Hp. unfold id.
  destruct (Hin p Hp) as (k & q & -> & Hle).
  assert (full (length l) (N.to_nat k) (N.to_nat q)) as Hf.
  { unfold full. rewrite <-pow2_to_nat. lia. }
  pose proof (Hstore _ _ Hf) as Hg. unfold pos_at in Hg. rewrite !N2Nat.id in Hg. rewrite Hg.
  unfold node_at. pose proof (fits_node _ _ _ Hmax (full_lt _ _ _ Hf) (full_level _ _ _ Hmax Hf)) as Hfit.
  rewrite !N2Nat.id in Hfit. by rewrite level_inorder, pos_counting_from_left_inorder.
Qed.

Lemma get_consistency_proof_growth c :
  (c <= length l)%nat ->
  exists ps, MerkleAccumulator.get_consistency_proof r (N.of_nat (length l)) (N.of_nat c) =
      Ok (mkAccumulatorConsistencyProof (node_at l <$> ps)) /\
    growth (N.of_nat c) (N.of_nat (length l - c)) ps.
Proof.
  intros Hc. unfold MerkleAccumulator.get_consistency_proof. rewrite (proj2 (N.leb_le _ _)) by lia.
  cbn [ensure mbind outcome_bind]. unfold FrozenSubtreeSiblingIterator.new.
  rewrite (proj2 (N.leb_le (N.of_nat (length l)) MAX_ACCUMULATOR_LEAVES)) by done.
  rewrite (proj2 (N.leb_le (N.of_nat c) (N.of_nat (length l)))) by lia. cbn [assert_ mbind outcome_bind].
  rewrite (proj2 (sub64_Ok _ _ (N.of_nat (length l - c)))) by lia. cbn [mbind outcome_bind].
  destruct (@sibling_collect AnyError (N.of_nat c) (N.of_nat (length l - c)) ltac:(lia)) as (ps & -> & Hg).
  exists ps. split; [|done]. cbn [mbind outcome_bind].
  erewrite collect_tiles; [done|by apply growth_tiles|lia].
Qed.

Lemma get_frozen_subtree_hashes_frozen :
  exists roots, MerkleAccumulator.get_frozen_subtree_hashes r (N.of_nat (length l)) = Ok roots /\
    frozen 0 (N.of_nat (length l)) (reverse roots) l.
Proof.
  unfold MerkleAccumulator.get_frozen_subtree_hashes. set (n := N.of_nat (length l)) in *.
  assert (n mod 2 ^ N.of_nat 64 = n) as Hmod by (apply N.mod_small; change (2 ^ N.of_nat 64) with (2 * 2 ^ 63); lia).
  pose proof (frozen_growth n 64) as Hg. rewrite Hmod, N.sub_diag in Hg.
  assert (FrozenSubTreeIterator.new n = frozen_state n 64) as ->
    by (unfold FrozenSubTreeIterator.new, frozen_state; by rewrite Hmod, N.sub_diag).
  rewrite frozen_collect by (done || lia). cbn [mbind outcome_bind].
  erewrite collect_tiles; [|by apply growth_tiles|lia]. eexists. split; [done|].
  pose proof (growth_down_frozen 0 n _ [] [] l 64 0 Hg) as Hfr. rewrite app_nil_r in Hfr. apply Hfr; try done; try lia.
Qed.
End make_proofs.

(** ** Readers that may fail

    A reader that returns less than another, because its reads may fail, gives the same
    results when it gives any. *)
Definition outcome_le {E A} (m m' : outcome E A) : Prop := forall a, m = Ok a -> m' = Ok a.

Lemma outcome_le_refl {E A} (m : outcome E A) : outcome_le m m.
Proof. by intros a. Qed.

Lemma bind_le {E A B} (m m' : outcome E A) (f f' : A -> outcome E B) :
  outcome_le m m' -> (forall a, outcome_le (f a) (f' a)) -> outcome_le (m ≫= f) (m' ≫= f').
Proof. intros Hm Hf b (a & Ha & Hb)%bind_Ok. apply bind_Ok. exists a. split; [by apply Hm|by apply Hf]. Qed.

Lemma collect_le {E A B} (f f' : A -> outcome E B) l :
  (forall a, outcome_le (f a) (f' a)) -> outcome_le (collect f l) (collect f' l).
Proof.
  intros Hf. induction l as [|a l IH]; [apply outcome_le_refl|].
  cbn. apply bind_le; [done|]. intros b. apply bind_le; [done|]. intros bs. apply outcome_le_refl.
Qed.

(** Nodes in a finite map. *)
#[global] Instance map_reader : HashReader (gmap Position HashValue) := fun m p =>
  ok_or (m !! p) (Msg "not found").

Section refines.
Context `{MerkleHasher} `{HashReader R} `{HashReader R'} (r : R) (r' : R').
Context (Hr : forall p, outcome_le (reader_get r p) (reader_get r' p)).

#[local] Ltac le_step :=
  lazymatch goal with
  | |- outcome_le (mbind _ _) (mbind _ _) => apply bind_le; [|intros ?]
  | |- outcome_le (reader_get r _) (reader_get r' _) => apply Hr
  | |- outcome_le (collect _ _) (collect _ _) => apply collect_le; intros ?
  | |- outcome_le ?m ?m => apply outcome_le_refl
  | |- outcome_le (match ?x with _ => _ end) _ => destruct x
  end.

Lemma join_left_le s pos h : outcome_le (MerkleAccumulator.join_left r s pos h) (MerkleAccumulator.join_left r' s pos h).
Proof. unfold MerkleAccumulator.join_left. repeat le_step. Qed.

Lemma freeze_up_le fuel pos h tf s :
  outcome_le (MerkleAccumulator.freeze_up r fuel pos h tf s) (MerkleAccumulator.freeze_up r' fuel pos h tf s).
Proof.
  revert pos h tf s. induction fuel as [|fuel IH]; intros pos h tf s; cbn; repeat le_step; [apply join_left_le|apply IH].
Qed.

Lemma append_leaves_le n off xs tf s :
  outcome_le (MerkleAccumulator.append_leaves r n off xs tf s) (MerkleAccumulator.append_leaves r' n off xs tf s).
Proof.
  revert off tf s. induction xs as [|x xs IH]; intros off tf s; cbn [MerkleAccumulator.append_leaves]; [apply outcome_le_refl|].
  repeat le_step; [apply freeze_up_le|apply IH].
Qed.

Lemma climb_le n pos h s :
  outcome_le (MerkleAccumulator.climb_to_root r n pos h s) (MerkleAccumulator.climb_to_root r' n pos h s).
Proof.
  revert pos h s. induction n as [|n IH]; intros pos h s; cbn; [apply outcome_le_refl|].
  repeat le_step; [apply join_left_le|apply IH].
Qed.

Lemma get_hash_at_le n fuel p :
  outcome_le (MerkleAccumulator.get_hash_at r n fuel p) (MerkleAccumulator.get_hash_at r' n fuel p).
Proof. revert p. induction fuel as [|fuel IH]; intros p; cbn; repeat le_step; apply IH. Qed.

Lemma get_hashes_le n ps : outcome_le (MerkleAccumulator.get_hashes r n ps) (MerkleAccumulator.get_hashes r' n ps).
Proof. apply collect_le. intros p. apply get_hash_at_le. Qed.

Lemma append_le n xs : outcome_le (MerkleAccumulator.append r n xs) (MerkleAccumulator.append r' n xs).
Proof.
  unfold MerkleAccumulator.append, MerkleAccumulator.get_root_hash.
  repeat le_step; [apply get_hash_at_le|apply append_leaves_le|apply climb_le].
Qed.

Lemma get_proof_le n i : outcome_le (MerkleAccumulator.get_proof r n i) (MerkleAccumulator.get_proof r' n i).
Proof.
  unfold MerkleAccumulator.get_proof, MerkleAccumulator.get_siblings. repeat le_step. apply get_hashes_le.
Qed.

Lemma get_range_proof_le n i k :
  outcome_le (MerkleAccumulator.get_range_proof r n i k) (MerkleAccumulator.get_range_proof r' n i k).
Proof. unfold MerkleAccumulator.get_range_proof. repeat le_step; apply get_hashes_le. Qed.

Lemma get_consistency_proof_le n c :
  outcome_le (MerkleAccumulator.get_consistency_proof r n c) (MerkleAccumulator.get_consistency_proof r' n c).
Proof. unfold MerkleAccumulator.get_consistency_proof. repeat le_step. Qed.

Lemma get_root_hash_le n : outcome_le (MerkleAccumulator.get_root_hash r n) (MerkleAccumulator.get_root_hash r' n).
Proof. unfold MerkleAccumulator.get_root_hash. repeat le_step. apply get_hash_at_le. Qed.

Lemma get_frozen_subtree_hashes_le n :
  outcome_le (MerkleAccumulator.get_frozen_subtree_hashes r n) (MerkleAccumulator.get_frozen_subtree_hashes r' n).
Proof. unfold MerkleAccumulator.get_frozen_subtree_hashes. repeat le_step. Qed.
End refines.

(** A store of the leaves is a store of their first [n]. *)
Lemma stores_take `{MerkleHasher} `{HashReader R} (r : R) l n :
  stores r l (length l) -> (n <= length l)%nat -> stores r (take n l) (length (take n l)).
Proof.
  intros Hs Hn j q Hf. rewrite length_take, Nat.min_l in Hf by done.
  rewrite <-(node_app_full (take n l) (drop n l)) by (by rewrite length_take, Nat.min_l).
  rewrite take_drop. apply Hs. unfold full in *. lia.
Qed.
