(* ===== verification/AccumulatorStoreProps.v ===== *)
(** * What the stored accumulator promises

    A store that holds the frozen nodes of the leaves keeps holding them when leaves
    are appended, and the proofs made from it are the ones the verifiers of
    Accumulator.v and TransactionProofs.v accept. *)

From S2P Require Import Prelude Crypto Errors Position PositionLemmas Accumulator AccumulatorLemmas TransactionProofs AccumulatorStore AccumulatorStoreLemmas AccumulatorProps.

(** A store in memory, for the examples. *)
Module MapReader.
(** The frozen nodes of three leaves. *)
Definition three `{MerkleHasher} : gmap Position HashValue :=
  <[0:=7]> (<[2:=8]> (<[1:=hash_internal 7 8]> (<[4:=9]> ∅))).
Lemma three_stores `{MerkleHasher} : stores three [7; 8; 9] 3.
Proof.
  intros [|[|j]] q Hf; unfold full in Hf.
  - destruct q as [|[|[|q]]]; [done..|]. rewrite Nat.pow_0_r in Hf. lia.
  - destruct q as [|q]; [done|]. rewrite Nat.pow_1_r in Hf. lia.
  - pose proof (pow2_pos j). rewrite !Nat.pow_succ_r' in Hf. nia.
Qed.
End MapReader.
#[local] Existing Instance Pairing.pairing.

Module AccumulatorStoreProps.
(** Appending to a store of the leaves [l] returns the Merkle root of all leaves
    and new nodes in consecutive post-order from the next index on; a store that has
    them besides what it had holds the frozen nodes of all leaves. *)
Theorem store_append_correct `{MerkleHasher} `{HashReader R} (r r' : R) (l xs : list HashValue) :
  N.of_nat (length (l ++ xs)) < 2 ^ 63 -> N.of_nat (length xs) <= 2 ^ 62 -> stores r l (length l) ->
  exists ns, MerkleAccumulator.append r (N.of_nat (length l)) xs = Ok (merkle_root (l ++ xs), ns) /\
    collect (@to_postorder_index AnyError) ns.*1 = Ok (count_from (pos_postorder 0 (length l)) (length ns)) /\
    ((forall p h, (p, h) ∈ ns -> reader_get r' p = Ok h) ->
     (forall p h, reader_get r p = Ok h -> reader_get r' p = Ok h) ->
     stores r' (l ++ xs) (length (l ++ xs))).
Proof.
  intros Hl Hxs Hs. destruct (append_freezes r l xs ltac:(lia) Hxs Hs) as (ns & Ha & Hf).
  exists ns. split; [done|]. split; [by apply (freezes_postorder (l ++ xs))|].
  intros Hnew Hold. apply (freezes_stores (l ++ xs) r' (length l) ns Hf); [|done].
  intros j q Hfull. by apply Hold, stores_app.
Qed.

Lemma store_append_correct_witness :
  exists r' : gmap Position HashValue, stores r' [7; 8; 9; 5] 4 /\
    exists ns, MerkleAccumulator.append MapReader.three 3 [5] = Ok (merkle_root [7; 8; 9; 5], ns).
Proof.
  exists (<[6:=5]> (<[5:=hash_internal 9 5]> (<[3:=merkle_root [7; 8; 9; 5]]> MapReader.three))).
  destruct (store_append_correct MapReader.three
    (<[6:=5]> (<[5:=hash_internal 9 5]> (<[3:=merkle_root [7; 8; 9; 5]]> MapReader.three))) [7; 8; 9] [5])
    as (ns & Ha & _ & Hs); [done|done|apply MapReader.three_stores|].
  split; [|by exists ns]. apply Hs.
  - vm_compute in Ha. injection Ha as <-. intros p h Hin.
    repeat (apply elem_of_cons in Hin as [Heq|Hin]; [injection Heq as -> ->; by vm_compute|]).
    by apply elem_of_nil in Hin.
  - intros p h Hr. unfold reader_get, map_reader in *. rewrite !lookup_insert_ne; [done|..]; intros <-; by vm_compute in Hr.
Defined.

(** The proof made from a store of the leaves verifies for every leaf. *)
Theorem served_proof_verifies `{MerkleHasher} `{HashReader R} (r : R) (l : list HashValue) (i : nat) (x : HashValue) :
  N.of_nat (length l) <= 2 ^ 63 -> stores r l (length l) -> l !! i = Some x ->
  exists pf, MerkleAccumulator.get_proof r (N.of_nat (length l)) (N.of_nat i) = Ok pf /\
    AccumulatorProof_verify pf (merkle_root l) x (N.of_nat i) = Ok tt.
Proof.
  intros Hl Hs Hx. eexists. split; [by apply get_proof_path, (lookup_lt_Some _ _ _ Hx)|by apply path_verifies].
Qed.

Lemma served_proof_verifies_witness :
  exists pf, MerkleAccumulator.get_proof MapReader.three 3 2 = Ok pf /\
    AccumulatorProof_verify pf (merkle_root [7; 8; 9]) 9 2 = Ok tt.
Proof. apply (served_proof_verifies MapReader.three [7; 8; 9] 2); [done|apply MapReader.three_stores|done]. Defined.

(** C35: a consistency proof made from a store of the leaves [l ++ l'] takes the
    in-memory accumulator of [l] to the accumulator of [l ++ l'], and the hashes of
    the frozen subtrees rebuild that accumulator from nothing. *)
Theorem served_consistency_correct `{MerkleHasher} `{HashReader R} (r : R) (l l' : list HashValue) :
  N.of_nat (length (l ++ l')) <= 2 ^ 63 -> stores r (l ++ l') (length (l ++ l')) ->
  exists acc acc' pf roots,
    @Acc.from_leaves _ AnyError l = Ok acc /\ @Acc.from_leaves _ AnyError (l ++ l') = Ok acc' /\
    MerkleAccumulator.get_consistency_proof r (N.of_nat (length (l ++ l'))) (N.of_nat (length l)) = Ok pf /\
    Acc.append_subtrees acc (acp_subtrees pf) (N.of_nat (length l')) = Ok acc' /\
    MerkleAccumulator.get_frozen_subtree_hashes r (N.of_nat (length (l ++ l'))) = Ok roots /\
    Acc.new roots (N.of_nat (length (l ++ l'))) = Ok acc'.
Proof.
  intros Hl Hs. pose proof Hl as Hl'. rewrite length_app in Hl'.
  destruct (@from_leaves_acc_of _ AnyError l) as (acc & H1 & Ha); [unfold u64_max; lia|].
  destruct (@from_leaves_acc_of _ AnyError (l ++ l')) as (acc' & H2 & Ha'); [unfold u64_max; lia|].
  destruct (get_consistency_proof_growth r (l ++ l') Hl Hs (length l)) as (ps & Hps & Hg); [rewrite length_app; lia|].
  rewrite length_app, Nat.add_sub_swap, Nat.sub_diag in Hg by done.
  destruct (append_subtrees_acc_of acc l l' ps Ha Hl Hg) as (acc2 & H3 & Ha2).
  rewrite (acc_of_unique _ _ _ Ha2 Ha') in H3.
  destruct (get_frozen_subtree_hashes_frozen r (l ++ l') Hl Hs) as (roots & H4 & Hfr).
  pose proof (new_frozen _ _ _ Hfr) as H5.
  assert (acc' = mkAccumulator roots (N.of_nat (length (l ++ l'))) (merkle_root (l ++ l'))) as He.
  { apply (acc_of_unique (l ++ l')); [done|by split]. }
  exists acc, acc', (mkAccumulatorConsistencyProof (node_at (l ++ l') <$> ps)), roots.
  split_and!; try done. by rewrite He.
Qed.
Lemma served_consistency_correct_witness :
  exists acc acc' pf,
    @Acc.from_leaves _ AnyError [7] = Ok acc /\ @Acc.from_leaves _ AnyError [7; 8; 9] = Ok acc' /\
    MerkleAccumulator.get_consistency_proof MapReader.three 3 1 = Ok pf /\
    Acc.append_subtrees acc (acp_subtrees pf) 2 = Ok acc'.
Proof.
  destruct (served_consistency_correct MapReader.three [7] [8; 9]) as (acc & acc' & pf & _ & H1 & H2 & H3 & H4 & _);
    [done|apply MapReader.three_stores|]. by exists acc, acc', pf.
Defined.
End AccumulatorStoreProps.
