(* ===== verification/SchemaDb.v ===== *)
(** * The schematized database (storage/schemadb/src)

    Typed tables on top of RocksDB.  A [Schema] names a column family and encodes
    keys and values as bytes; [SchemaBatch] gathers writes that are applied together;
    [SchemaIterator] walks a family in the order of the encoded keys.  RocksDB is
    third-party code: [RocksDb] is the part of its interface that is called, and
    [RocksDbLaws] what it documents.  Metrics are left out. *)

From S2P Require Import Prelude Crypto Errors.

(** ** Bytes *)
Abbreviation bytes := (list N) (only parsing).
Abbreviation ColumnFamilyName := string (only parsing).

(** [to_be_bytes] of an integer of [n] bytes, and [read_u64::<BigEndian>]. *)
Fixpoint to_be_bytes (n : nat) (x : N) : bytes :=
  match n with O => [] | S n => N.land (N.shiftr x (8 * N.of_nat n)) 255 :: to_be_bytes n x end.
Definition from_be_bytes (data : bytes) : N := foldl (fun a b => a * 256 + b) 0 data.

(** The bytewise order of the keys of a column family. *)
Fixpoint bytes_le (l k : bytes) : bool :=
  match l, k with
  | [], _ => true
  | _ :: _, [] => false
  | x :: l, y :: k => (x <? y) || (x =? y) && bytes_le l k
  end.
Definition bytes_lt (l k : bytes) : bool := bytes_le l k && negb (bool_decide (l = k)).

(** ** RocksDB *)
Inductive RawWrite : Type :=
  | PutCf (cf : ColumnFamilyName) (key value : bytes)
  | DeleteCf (cf : ColumnFamilyName) (key : bytes)
  | DeleteRangeCf (cf : ColumnFamilyName) (begin end_ : bytes).

Class RocksDb (D It : Type) : Type := {
  (** [rocksdb::DB] *)
  cf_handle : D -> ColumnFamilyName -> bool;
  get_cf : D -> ColumnFamilyName -> bytes -> result (option bytes);
  raw_iterator_cf_opt : D -> ColumnFamilyName -> It;
  write_opt : list RawWrite -> method D AnyError unit;
  (** [rocksdb::DBRawIterator] *)
  it_seek_to_first : It -> It;
  it_seek_to_last : It -> It;
  it_seek : bytes -> It -> It;
  it_seek_for_prev : bytes -> It -> It;
  it_next : It -> It;
  it_prev : It -> It;
  it_valid : It -> bool;
  it_status : It -> result unit;
  it_key : It -> option bytes;
  it_value : It -> option bytes;
}.

(** The rows of a family, and what a batch of writes does to them, in order. *)
Abbreviation Rows := (gmap bytes bytes) (only parsing).
Definition raw_write (op : RawWrite) (rows : ColumnFamilyName -> Rows) : ColumnFamilyName -> Rows :=
  fun cf => match op with
  | PutCf c k v => if bool_decide (c = cf) then <[k:=v]> (rows cf) else rows cf
  | DeleteCf c k => if bool_decide (c = cf) then delete k (rows cf) else rows cf
  | DeleteRangeCf c b e =>
      if bool_decide (c = cf) then filter (fun kv => ~ (bytes_le b kv.1 && bytes_lt kv.1 e)) (rows cf) else rows cf
  end.
Definition raw_writes (ops : list RawWrite) (rows : ColumnFamilyName -> Rows) : ColumnFamilyName -> Rows :=
  foldl (fun rows op => raw_write op rows) rows ops.

(** The least row key that satisfies a condition, and the greatest. *)
Definition least_key (rows : Rows) (P : bytes -> Prop) (o : option bytes) : Prop :=
  match o with
  | Some k => is_Some (rows !! k) /\ P k /\ forall k', is_Some (rows !! k') -> P k' -> bytes_le k k'
  | None => forall k', is_Some (rows !! k') -> ~ P k'
  end.
Definition greatest_key (rows : Rows) (P : bytes -> Prop) (o : option bytes) : Prop :=
  match o with
  | Some k => is_Some (rows !! k) /\ P k /\ forall k', is_Some (rows !! k') -> P k' -> bytes_le k' k
  | None => forall k', is_Some (rows !! k') -> ~ P k'
  end.

(** What RocksDB documents.  A read that succeeds returns what the row holds.  An
    iterator walks the rows the database had when it was made; it stands at a key
    unless it is past the ends, and an iterator that is not valid although it stands at a key
    reports an error.  A batch is applied as a whole or not at all, and it is applied
    if the write succeeds. *)
Class RocksDbLaws (D It : Type) `{RocksDb D It} : Type := {
  db_rows : D -> ColumnFamilyName -> Rows;
  it_rows : It -> Rows;
  it_pos : It -> option bytes;
  get_cf_rows d cf k o : get_cf d cf k = Ok o -> o = db_rows d cf !! k;
  iterator_rows d cf : it_rows (raw_iterator_cf_opt d cf) = db_rows d cf;
  write_cf ops d d' r cf : write_opt ops d = (r, d') -> cf_handle d' cf = cf_handle d cf;
  write_atomic ops d d' r : write_opt ops d = (r, d') ->
    (forall cf, db_rows d' cf = db_rows d cf) \/ (forall cf, db_rows d' cf = raw_writes ops (db_rows d) cf);
  write_applied ops d d' u : write_opt ops d = (Ok u, d') ->
    forall cf, db_rows d' cf = raw_writes ops (db_rows d) cf;
  moves_keep_rows it k :
    it_rows (it_seek_to_first it) = it_rows it /\ it_rows (it_seek_to_last it) = it_rows it /\
    it_rows (it_seek k it) = it_rows it /\ it_rows (it_seek_for_prev k it) = it_rows it /\
    it_rows (it_next it) = it_rows it /\ it_rows (it_prev it) = it_rows it;
  seek_to_first_pos it : least_key (it_rows it) (fun _ => True) (it_pos (it_seek_to_first it));
  seek_to_last_pos it : greatest_key (it_rows it) (fun _ => True) (it_pos (it_seek_to_last it));
  seek_pos it k : least_key (it_rows it) (fun k' => bytes_le k k') (it_pos (it_seek k it));
  seek_for_prev_pos it k : greatest_key (it_rows it) (fun k' => bytes_le k' k) (it_pos (it_seek_for_prev k it));
  next_pos it k : it_pos it = Some k -> least_key (it_rows it) (fun k' => bytes_lt k k') (it_pos (it_next it));
  prev_pos it k : it_pos it = Some k -> greatest_key (it_rows it) (fun k' => bytes_lt k' k) (it_pos (it_prev it));
  valid_pos it : it_valid it = true ->
    exists k v, it_pos it = Some k /\ it_key it = Some k /\ it_value it = Some v /\ it_rows it !! k = Some v;
  invalid_pos it : it_valid it = false -> it_status it = Ok tt -> it_pos it = None;
}.

(** A database whose disk does not fail. *)
Class RocksDbReliable (D It : Type) `{RocksDbLaws D It} : Prop := {
  get_cf_reliable d cf k : exists o, get_cf d cf k = Ok o;
  iterator_reliable it : it_valid it = false -> it_status it = Ok tt;
  write_reliable ops d : (write_opt ops d).1 = Ok tt;
}.

(** ** Schemas *)
Record Schema (K V : Type) : Type := mkSchema {
  COLUMN_FAMILY_NAME : ColumnFamilyName;
  encode_key : K -> result bytes;
  decode_key : bytes -> result K;
  encode_value : V -> result bytes;
  decode_value : bytes -> result V;
}.
Arguments COLUMN_FAMILY_NAME {K V} s.
Arguments encode_key {K V} s k.
Arguments decode_key {K V} s data.
Arguments encode_value {K V} s v.
Arguments decode_value {K V} s data.

(** ** Batches *)
Inductive WriteOp : Type :=
  | Value (key value : bytes)
  | Deletion (key : bytes)
  | DeletionRange (begin end_ : bytes)
  | DeletionRangeInclusive (begin end_ : bytes).

Record SchemaBatch : Type := mkSchemaBatch { sb_rows : gmap ColumnFamilyName (list WriteOp) }.

Module SchemaBatch.
Definition new : SchemaBatch := mkSchemaBatch ∅.
Definition push (self : SchemaBatch) (cf : ColumnFamilyName) (op : WriteOp) : SchemaBatch :=
  mkSchemaBatch (<[cf := default [] (sb_rows self !! cf) ++ [op]]> (sb_rows self)).

Section schema.
Context {K V : Type} (S : Schema K V).

Definition put (k : K) (v : V) (self : SchemaBatch) : result SchemaBatch :=
  key ← encode_key S k; value ← encode_value S v;
  Ok (push self (COLUMN_FAMILY_NAME S) (Value key value)).

Definition delete (k : K) (self : SchemaBatch) : result SchemaBatch :=
  key ← encode_key S k; Ok (push self (COLUMN_FAMILY_NAME S) (Deletion key)).

Definition delete_range (begin end_ : K) (self : SchemaBatch) : result SchemaBatch :=
  b ← encode_key S begin; e ← encode_key S end_;
  Ok (push self (COLUMN_FAMILY_NAME S) (DeletionRange b e)).

Definition delete_range_inclusive (begin end_ : K) (self : SchemaBatch) : result SchemaBatch :=
  b ← encode_key S begin; e ← encode_key S end_;
  Ok (push self (COLUMN_FAMILY_NAME S) (DeletionRangeInclusive b e)).
End schema.
End SchemaBatch.

(** ** Iterators *)
Inductive ScanDirection : Type := Forward | Backward.

Record SchemaIterator (It : Type) : Type := mkSchemaIterator {
  db_iter : It;
  si_direction : ScanDirection;
}.
Arguments mkSchemaIterator {It} _ _.
Arguments db_iter {It} _.
Arguments si_direction {It} _.

Module SchemaIterator.
Section ops.
Context `{RocksDb D It}.

Definition seek_to_first (self : SchemaIterator It) : SchemaIterator It :=
  mkSchemaIterator (it_seek_to_first (db_iter self)) (si_direction self).
Definition seek_to_last (self : SchemaIterator It) : SchemaIterator It :=
  mkSchemaIterator (it_seek_to_last (db_iter self)) (si_direction self).

(** [seek] and [seek_for_prev] with a key that is already encoded. *)
Definition seek_raw (key : bytes) (self : SchemaIterator It) : SchemaIterator It :=
  mkSchemaIterator (it_seek key (db_iter self)) (si_direction self).

Section schema.
Context {K V : Type} (S : Schema K V).

Definition seek (seek_key : K) (self : SchemaIterator It) : result (SchemaIterator It) :=
  key ← encode_key S seek_key; Ok (seek_raw key self).
Definition seek_for_prev (seek_key : K) (self : SchemaIterator It) : result (SchemaIterator It) :=
  key ← encode_key S seek_key;
  Ok (mkSchemaIterator (it_seek_for_prev key (db_iter self)) (si_direction self)).

(** A failed step is returned by every caller, so the iterator it leaves is not kept. *)
Definition next (self : SchemaIterator It) : result (option (K * V) * SchemaIterator It) :=
  if negb (it_valid (db_iter self)) then
    _ ← it_status (db_iter self); Ok (None, self)
  else
    raw_key ← expect (it_key (db_iter self));
    raw_value ← expect (it_value (db_iter self));
    key ← decode_key S raw_key;
    value ← decode_value S raw_value;
    let moved := match si_direction self with
                 | Forward => it_next (db_iter self)
                 | Backward => it_prev (db_iter self)
                 end in
    Ok (Some (key, value), mkSchemaIterator moved (si_direction self)).
End schema.
End ops.
End SchemaIterator.

(** ** The database *)
Module DB.
Section ops.
Context `{RocksDb D It} (self : D).

Definition get_cf_handle (cf_name : ColumnFamilyName) : result unit :=
  ensure (cf_handle self cf_name) (Msg "DB::cf_handle not found for column family name").

Section schema.
Context {K V : Type} (S : Schema K V).

Definition get (schema_key : K) : result (option V) :=
  k ← encode_key S schema_key;
  _ ← get_cf_handle (COLUMN_FAMILY_NAME S);
  r ← get_cf self (COLUMN_FAMILY_NAME S) k;
  match r with
  | Some raw_value => value ← decode_value S raw_value; Ok (Some value)
  | None => Ok None
  end.

Definition iter_with_direction (direction : ScanDirection) : result (SchemaIterator It) :=
  _ ← get_cf_handle (COLUMN_FAMILY_NAME S);
  Ok (mkSchemaIterator (raw_iterator_cf_opt self (COLUMN_FAMILY_NAME S)) direction).
Definition iter : result (SchemaIterator It) := iter_with_direction Forward.
Definition rev_iter : result (SchemaIterator It) := iter_with_direction Backward.
End schema.
End ops.

Section write.
Context `{RocksDb D It}.

Definition raw_ops (cf : ColumnFamilyName) (op : WriteOp) : list RawWrite :=
  match op with
  | Value key value => [PutCf cf key value]
  | Deletion key => [DeleteCf cf key]
  | DeletionRange begin end_ => [DeleteRangeCf cf begin end_]
  | DeletionRangeInclusive begin end_ => [DeleteRangeCf cf begin end_; DeleteCf cf end_]
  end.

(** The loop that fills the [WriteBatch], family by family. *)
Fixpoint fill_batch (self : D) (rows : list (ColumnFamilyName * list WriteOp)) : result (list RawWrite) :=
  match rows with
  | [] => Ok []
  | (cf_name, ops) :: rows =>
      _ ← get_cf_handle self cf_name;
      rest ← fill_batch self rows;
      Ok ((ops ≫= raw_ops cf_name) ++ rest)
  end.

Definition write_schemas (batch : SchemaBatch) : method D AnyError unit :=
  db_batch ← gets (fun self => fill_batch self (map_to_list (sb_rows batch)));
  write_opt db_batch.
End write.
End DB.
