(* ===== verification/LedgerSchemas.v ===== *)
(** * The tables of the ledger database (storage/aptosdb/src/schema)

    One schema per table: the column family, the codec of its keys and the codec of
    its values.  Structures are stored in BCS, a third-party format ([Bcs]); numbers,
    positions and hashes are stored as fixed numbers of big-endian bytes. *)

From S2P Require Import Prelude Crypto Errors Position Accumulator Verifier Ledger ConsensusTypes Blocks TransactionProofs SchemaDb.

(** [bcs::to_bytes] and [bcs::from_bytes] *)
Class Bcs (A : Type) : Type := {
  bcs_to_bytes : A -> result bytes;
  bcs_from_bytes : bytes -> result A;
}.

Definition ensure_slice_len_eq (data : bytes) (len : nat) : result unit :=
  ensure (bool_decide (length data = len)) (Msg "Unexpected data len").

(** ** Codecs *)
Definition encode_u64 (x : N) : result bytes := Ok (to_be_bytes 8 x).
Definition decode_u64 (data : bytes) : result N :=
  _ ← ensure_slice_len_eq data 8; Ok (from_be_bytes data).

Definition encode_u64_pair (x : N * N) : result bytes := Ok (to_be_bytes 8 x.1 ++ to_be_bytes 8 x.2).
Definition decode_u64_pair (data : bytes) : result (N * N) :=
  _ ← ensure_slice_len_eq data 16;
  Ok (from_be_bytes (take 8 data), from_be_bytes (drop 8 data)).

(** [HashValue::to_vec] and [HashValue::from_slice] *)
Definition hash_to_vec (h : HashValue) : result bytes := Ok (to_be_bytes 32 h).
Definition hash_from_slice (data : bytes) : result HashValue :=
  if bool_decide (length data = 32)%nat then Ok (from_be_bytes data) else Err (Msg "HashValueParseError").

(** [Position] as a key of the transaction accumulator and of the event accumulator. *)
Definition encode_position (p : Position) : result bytes :=
  index ← to_postorder_index p; Ok (to_be_bytes 8 index).
Definition decode_position (data : bytes) : result Position :=
  _ ← ensure_slice_len_eq data 8; from_postorder_index (from_be_bytes data).

(** [AccountAddress] is 32 bytes. *)
Definition encode_account_seq (x : AccountAddress * N) : result bytes :=
  Ok (to_be_bytes 32 x.1 ++ to_be_bytes 8 x.2).
Definition decode_account_seq (data : bytes) : result (AccountAddress * N) :=
  _ ← ensure_slice_len_eq data 40;
  Ok (from_be_bytes (take 32 data), from_be_bytes (drop 32 data)).

(** [EventKey] is 40 bytes. *)
Section event_keys.
Context `{Bcs EventKey}.

Definition EventKey_to_bytes (k : EventKey) : result bytes :=
  match bcs_to_bytes k with Ok b => Ok b | _ => Panic end.

Definition encode_event_by_key (x : EventKey * N) : result bytes :=
  k ← EventKey_to_bytes x.1; Ok (k ++ to_be_bytes 8 x.2).
Definition decode_event_by_key (data : bytes) : result (EventKey * N) :=
  _ ← ensure_slice_len_eq data 48;
  event_key ← bcs_from_bytes (take 40 data);
  Ok (event_key, from_be_bytes (drop 40 data)).

Definition encode_event_by_version (x : EventKey * Version * N) : result bytes :=
  k ← EventKey_to_bytes x.1.1; Ok (k ++ to_be_bytes 8 x.1.2 ++ to_be_bytes 8 x.2).
Definition decode_event_by_version (data : bytes) : result (EventKey * Version * N) :=
  _ ← ensure_slice_len_eq data 56;
  event_key ← bcs_from_bytes (take 40 data);
  Ok (event_key, from_be_bytes (take 8 (drop 40 data)), from_be_bytes (drop 48 data)).
End event_keys.

(** ** Schemas *)

(** [LedgerCounters] is a map from counter numbers to values. *)
Abbreviation LedgerCounters := (gmap N N) (only parsing).
Abbreviation WriteSet := N (only parsing).

(** BCS for every structure the ledger database stores. *)
Class LedgerBcs : Type := {
  bcs_transaction :: Bcs Transaction;
  bcs_transaction_info :: Bcs TransactionInfo;
  bcs_ledger_info :: Bcs LedgerInfoWithSignatures;
  bcs_event :: Bcs ContractEvent;
  bcs_event_key :: Bcs EventKey;
  bcs_write_set : Bcs WriteSet;
  bcs_ledger_counters :: Bcs LedgerCounters;
}.

Section schemas.
Context `{LedgerBcs}.

Definition TransactionSchema : Schema Version Transaction :=
  mkSchema _ _ "transaction" encode_u64 decode_u64 bcs_to_bytes bcs_from_bytes.
Definition TransactionInfoSchema : Schema Version TransactionInfo :=
  mkSchema _ _ "transaction_info" encode_u64 decode_u64 bcs_to_bytes bcs_from_bytes.
Definition WriteSetSchema : Schema Version WriteSet :=
  mkSchema _ _ "write_set" encode_u64 decode_u64 (@bcs_to_bytes _ bcs_write_set) (@bcs_from_bytes _ bcs_write_set).
Definition TransactionByAccountSchema : Schema (AccountAddress * N) Version :=
  mkSchema _ _ "transaction_by_account" encode_account_seq decode_account_seq encode_u64 decode_u64.
Definition TransactionByHashSchema : Schema HashValue Version :=
  mkSchema _ _ "transaction_by_hash" hash_to_vec
    (fun data => _ ← ensure_slice_len_eq data 32; hash_from_slice data) encode_u64 decode_u64.
Definition TransactionAccumulatorSchema : Schema Position HashValue :=
  mkSchema _ _ "transaction_accumulator" encode_position decode_position hash_to_vec hash_from_slice.
Definition LedgerInfoSchema : Schema N LedgerInfoWithSignatures :=
  mkSchema _ _ "ledger_info" encode_u64 decode_u64 bcs_to_bytes bcs_from_bytes.
Definition EpochByVersionSchema : Schema Version N :=
  mkSchema _ _ "epoch_by_version" encode_u64 decode_u64 encode_u64 decode_u64.
Definition EventSchema : Schema (Version * N) ContractEvent :=
  mkSchema _ _ "event" encode_u64_pair decode_u64_pair bcs_to_bytes bcs_from_bytes.
(** The position is stored by its in-order index, which is how positions are kept. *)
Definition EventAccumulatorSchema : Schema (Version * Position) HashValue :=
  mkSchema _ _ "event_accumulator" encode_u64_pair decode_u64_pair hash_to_vec hash_from_slice.
Definition EventByKeySchema : Schema (EventKey * N) (Version * N) :=
  mkSchema _ _ "event_by_key" encode_event_by_key decode_event_by_key encode_u64_pair decode_u64_pair.
Definition EventByVersionSchema : Schema (EventKey * Version * N) N :=
  mkSchema _ _ "event_by_version" encode_event_by_version decode_event_by_version encode_u64 decode_u64.
Definition LedgerCountersSchema : Schema Version LedgerCounters :=
  mkSchema _ _ "ledger_counters" encode_u64 decode_u64 bcs_to_bytes bcs_from_bytes.
End schemas.
