(* ===== verification/LedgerDb.v ===== *)
(** * The stores of the ledger database (storage/aptosdb/src)

    [ChangeSet] and the ledger counters (change_set.rs, ledger_counters/mod.rs,
    system_store/mod.rs), [LedgerStore] (ledger_store/mod.rs), [TransactionStore]
    (transaction_store/mod.rs) and [EventStore] (event_store/mod.rs).  The stores share
    one database through an [Arc]; a store that has nothing else is the database.
    Methods that gather writes return the change set they were given with the writes
    added. *)

From S2P Require Import Prelude Crypto Errors Position Accumulator Verifier Ledger ConsensusTypes Blocks TransactionProofs AccumulatorStore SchemaDb LedgerSchemas.

(** ** Counters and change sets *)
Inductive LedgerCounter : Type :=
  | EventsCreated | NewStateLeaves | StaleStateLeaves | NewStateNodes | StaleStateNodes.

Module InnerLedgerCounters.
Definition raw_key (counter : LedgerCounter) : N :=
  match counter with
  | EventsCreated => 101
  | NewStateLeaves => 201
  | StaleStateLeaves => 202
  | NewStateNodes => 301
  | StaleStateNodes => 302
  end.
Definition get (self : LedgerCounters) (counter : LedgerCounter) : N :=
  default 0 (self !! raw_key counter).
Definition raw_inc (key by_ : N) (self : LedgerCounters) : result LedgerCounters :=
  value ← add64 (default 0 (self !! key)) by_; Ok (<[key:=value]> self).
Definition inc (counter : LedgerCounter) (by_ : N) (self : LedgerCounters) : result LedgerCounters :=
  raw_inc (raw_key counter) by_ self.
End InnerLedgerCounters.

(** [LedgerCounters::bump]: the loop over the bumps in the order of their keys. *)
Definition LedgerCounters_bump (bumps : LedgerCounters) (self : LedgerCounters) : result LedgerCounters :=
  try_fold (fun kv => InnerLedgerCounters.raw_inc kv.1 kv.2) (btree_iter bumps) self.

Record ChangeSet : Type := mkChangeSet {
  cs_batch : SchemaBatch;
  cs_counter_bumps : gmap Version LedgerCounters;
}.

Module ChangeSet.
Definition new : ChangeSet := mkChangeSet SchemaBatch.new ∅.
Definition counter_bumps (self : ChangeSet) (version : Version) : LedgerCounters :=
  default ∅ (cs_counter_bumps self !! version).
Definition set_bumps (version : Version) (bumps : LedgerCounters) (self : ChangeSet) : ChangeSet :=
  mkChangeSet (cs_batch self) (<[version:=bumps]> (cs_counter_bumps self)).
(** [cs.batch.put::<S>(key, value)?] *)
Definition put {K V} (S : Schema K V) (k : K) (v : V) (self : ChangeSet) : result ChangeSet :=
  batch ← SchemaBatch.put S k v (cs_batch self); Ok (mkChangeSet batch (cs_counter_bumps self)).
End ChangeSet.

Module SystemStore.
Section store.
Context `{LedgerBcs} `{RocksDb D It} (db : D).

Definition bump_version (v : Version) (s : LedgerCounters * ChangeSet) : result (LedgerCounters * ChangeSet) :=
  let '(counters, cs) := s in
  let bumps := ChangeSet.counter_bumps cs v in
  let cs := ChangeSet.set_bumps v bumps cs in
  counters ← LedgerCounters_bump bumps counters;
  cs ← ChangeSet.put LedgerCountersSchema v counters cs;
  Ok (counters, cs).

Definition bump_ledger_counters (first_version last_version : Version) (cs : ChangeSet)
    : result (LedgerCounters * ChangeSet) :=
  _ ← assert_ (first_version <=? last_version);
  counters ← (if 0 <? first_version
              then stored ← DB.get db LedgerCountersSchema (first_version - 1);
                   Ok (default (∅ : LedgerCounters) stored)
              else Ok ∅);
  try_fold bump_version (range64 first_version (last_version + 1)) (counters, cs).
End store.
End SystemStore.

(** ** LedgerStore *)
Record LedgerStore (D : Type) : Type := mkLedgerStore {
  ls_db : D;
  ls_latest_ledger_info : option LedgerInfoWithSignatures;
}.
Arguments mkLedgerStore {D} _ _.
Arguments ls_db {D} _.
Arguments ls_latest_ledger_info {D} _.

(** [impl HashReader for LedgerStore] *)
#[global] Instance LedgerStore_HashReader `{LedgerBcs} `{RocksDb D It} : HashReader (LedgerStore D) :=
  fun self position =>
    h ← DB.get (ls_db self) TransactionAccumulatorSchema position;
    ok_or h (Msg "position does not exist.").

(** An iterator with the version or epoch it expects next and the one it ends before. *)
Record BoundedIter (It : Type) : Type := mkBoundedIter {
  bi_inner : SchemaIterator It;
  bi_expected_next : N;
  bi_end : N;
}.
Arguments mkBoundedIter {It} _ _ _.
Arguments bi_inner {It} _.
Arguments bi_expected_next {It} _.
Arguments bi_end {It} _.

Module LedgerStore.
Section store.
Context `{LedgerBcs} `{RocksDb D It}.

Definition new (db : D) : result (LedgerStore D) :=
  match iter ← DB.iter db LedgerInfoSchema;
        r ← SchemaIterator.next LedgerInfoSchema (SchemaIterator.seek_to_last iter); Ok r.1 with
  | Ok r => Ok (mkLedgerStore db (snd <$> r))
  | _ => Panic
  end.

Definition get_latest_ledger_info_option (self : LedgerStore D) : option LedgerInfoWithSignatures :=
  ls_latest_ledger_info self.
Definition get_latest_ledger_info (self : LedgerStore D) : result LedgerInfoWithSignatures :=
  ok_or (ls_latest_ledger_info self) (FromAptosDbError (NotFound "Genesis LedgerInfo")).
Definition set_latest_ledger_info (ledger_info_with_sigs : LedgerInfoWithSignatures)
    (self : LedgerStore D) : LedgerStore D :=
  mkLedgerStore (ls_db self) (Some ledger_info_with_sigs).

Section reads.
Context (self : LedgerStore D).

Definition get_epoch (version : Version) : result N :=
  iter ← DB.iter (ls_db self) EpochByVersionSchema;
  iter ← SchemaIterator.seek_for_prev EpochByVersionSchema version iter;
  r ← SchemaIterator.next EpochByVersionSchema iter;
  match r.1 with
  | None => Ok 0
  | Some (epoch_end_version, epoch) =>
      _ ← ensure (epoch_end_version <=? version) (Msg "DB corruption: looking for epoch for version");
      if epoch_end_version <? version then add64 epoch 1 else Ok epoch
  end.

Definition get_epoch_ending_ledger_info (version : Version) : result LedgerInfoWithSignatures :=
  epoch ← get_epoch version;
  li ← DB.get (ls_db self) LedgerInfoSchema epoch;
  li ← ok_or li (FromAptosDbError (NotFound "LedgerInfo for epoch"));
  _ ← ensure (LedgerInfo.version (lis_ledger_info li) =? version) (Msg "Epoch didn't end at version");
  _ ← ok_or (LedgerInfo.next_epoch_state (lis_ledger_info li)) (Msg "Not an epoch change at version");
  Ok li.

Definition get_latest_ledger_info_in_epoch (epoch : N) : result LedgerInfoWithSignatures :=
  li ← DB.get (ls_db self) LedgerInfoSchema epoch;
  ok_or li (FromAptosDbError (NotFound "Last LedgerInfo of epoch")).

Definition get_epoch_state (epoch : N) : result EpochState :=
  _ ← ensure (0 <? epoch) (Msg "EpochState only queryable for epoch >= 1.");
  li ← DB.get (ls_db self) LedgerInfoSchema (epoch - 1);
  li ← ok_or li (FromAptosDbError (NotFound "Last LedgerInfo of epoch"));
  ok_or (LedgerInfo.next_epoch_state (lis_ledger_info li))
    (Msg "Last LedgerInfo in epoch must carry next_epoch_state.").

Definition get_transaction_info (version : Version) : result TransactionInfo :=
  info ← DB.get (ls_db self) TransactionInfoSchema version;
  ok_or info (Msg "No TransactionInfo at version").

Definition get_latest_transaction_info_option : result (option (Version * TransactionInfo)) :=
  iter ← DB.iter (ls_db self) TransactionInfoSchema;
  r ← SchemaIterator.next TransactionInfoSchema (SchemaIterator.seek_to_last iter);
  Ok r.1.

Definition get_latest_transaction_info : result (Version * TransactionInfo) :=
  latest ← get_latest_transaction_info_option;
  ok_or latest (FromAptosDbError (NotFound "Genesis TransactionInfo.")).

Definition get_startup_info
    : result (option (LedgerInfoWithSignatures * option EpochState * option Version)) :=
  match ls_latest_ledger_info self with
  | None => Ok None
  | Some latest_ledger_info =>
      latest_epoch_state_if_not_in_li ←
        match LedgerInfo.next_epoch_state (lis_ledger_info latest_ledger_info) with
        | Some _ => Ok None
        | None => Some <$> get_epoch_state (LedgerInfo.epoch (lis_ledger_info latest_ledger_info))
        end;
      let li_version := LedgerInfo.version (lis_ledger_info latest_ledger_info) in
      latest ← get_latest_transaction_info;
      let latest_version := latest.1 in
      _ ← assert_ (li_version <=? latest_version);
      let synced_version_opt := if latest_version =? li_version then None else Some latest_version in
      Ok (Some (latest_ledger_info, latest_epoch_state_if_not_in_li, synced_version_opt))
  end.

Definition get_transaction_info_iter (start_version : Version) (num_transaction_infos : N)
    : result (BoundedIter It) :=
  iter ← DB.iter (ls_db self) TransactionInfoSchema;
  iter ← SchemaIterator.seek TransactionInfoSchema start_version iter;
  end_version ← ok_or (checked_add start_version num_transaction_infos)
                  (Msg "Too many transaction infos requested.");
  Ok (mkBoundedIter iter start_version end_version).

Definition get_epoch_ending_ledger_info_iter (start_epoch end_epoch : N) : result (BoundedIter It) :=
  iter ← DB.iter (ls_db self) LedgerInfoSchema;
  iter ← SchemaIterator.seek LedgerInfoSchema start_epoch iter;
  Ok (mkBoundedIter iter start_epoch end_epoch).
End reads.

(** *** Proofs from the stored accumulator *)
Section proofs.
Context `{MerkleHasher} (self : LedgerStore D).

Definition get_frozen_subtree_hashes (num_transactions : LeafCount) : result (list HashValue) :=
  MerkleAccumulator.get_frozen_subtree_hashes self num_transactions.

Definition get_transaction_proof (version ledger_version : Version) : result AccumulatorProof :=
  num_leaves ← add64 ledger_version 1; MerkleAccumulator.get_proof self num_leaves version.

Definition get_transaction_info_with_proof (version ledger_version : Version)
    : result TransactionInfoWithProof :=
  proof ← get_transaction_proof version ledger_version;
  info ← get_transaction_info self version;
  Ok (mkTransactionInfoWithProof proof info).

Definition get_transaction_range_proof (start_version : option Version) (num_txns : N)
    (ledger_version : Version) : result AccumulatorRangeProof :=
  num_leaves ← add64 ledger_version 1;
  MerkleAccumulator.get_range_proof self num_leaves start_version num_txns.

Definition get_consistency_proof (client_known_version : option Version) (ledger_version : Version)
    : result AccumulatorConsistencyProof :=
  let client_known_num_leaves :=
    match client_known_version with Some v => saturating_add v 1 | None => 0 end in
  let ledger_num_leaves := saturating_add ledger_version 1 in
  MerkleAccumulator.get_consistency_proof self ledger_num_leaves client_known_num_leaves.

Definition get_root_hash (version : Version) : result HashValue :=
  num_leaves ← add64 version 1; MerkleAccumulator.get_root_hash self num_leaves.

Definition put_transaction_infos `{CryptoHash TransactionInfo} (first_version : Version)
    (txn_infos : list TransactionInfo) (cs : ChangeSet) : result (HashValue * ChangeSet) :=
  end_version ← add64 first_version (N.of_nat (length txn_infos));
  cs ← try_fold (fun p => ChangeSet.put TransactionInfoSchema p.1 p.2)
         (zip (range64 first_version end_version) txn_infos) cs;
  r ← MerkleAccumulator.append self first_version (hash <$> txn_infos);
  let '(root_hash, writes) := r in
  cs ← try_fold (fun w => ChangeSet.put TransactionAccumulatorSchema w.1 w.2) writes cs;
  Ok (root_hash, cs).
End proofs.

Definition put_ledger_info (ledger_info_with_sigs : LedgerInfoWithSignatures) (cs : ChangeSet)
    : result ChangeSet :=
  let ledger_info := lis_ledger_info ledger_info_with_sigs in
  cs ← (if LedgerInfo.ends_epoch ledger_info
        then ChangeSet.put EpochByVersionSchema (LedgerInfo.version ledger_info)
               (LedgerInfo.epoch ledger_info) cs
        else Ok cs);
  ChangeSet.put LedgerInfoSchema (LedgerInfo.epoch ledger_info) ledger_info_with_sigs cs.

Definition prune_ledger_counters (begin end_ : Version) (db_batch : SchemaBatch) : result SchemaBatch :=
  try_fold (SchemaBatch.delete LedgerCountersSchema) (range64 begin end_) db_batch.
End store.
End LedgerStore.

(** [TransactionInfoIter] and [TransactionIter] differ in the schema only. *)
Section version_iter.
Context `{RocksDb D It} {V : Type} (S : Schema Version V) (message : string).

Definition VersionIter_next (self : BoundedIter It) : result (option V * BoundedIter It) :=
  if bi_end self <=? bi_expected_next self then Ok (None, self)
  else
    r ← SchemaIterator.next S (bi_inner self);
    match r with
    | (Some (version, v), inner) =>
        _ ← ensure (version =? bi_expected_next self) (Msg message);
        expected ← add64 (bi_expected_next self) 1;
        Ok (Some v, mkBoundedIter inner expected (bi_end self))
    | (None, inner) => Ok (None, mkBoundedIter inner (bi_expected_next self) (bi_end self))
    end.
End version_iter.

Section iters.
Context `{LedgerBcs} `{RocksDb D It}.

Definition TransactionInfoIter_next : BoundedIter It -> result (option TransactionInfo * BoundedIter It) :=
  VersionIter_next TransactionInfoSchema "Transaction info versions are not consecutive.".
Definition TransactionIter_next : BoundedIter It -> result (option Transaction * BoundedIter It) :=
  VersionIter_next TransactionSchema "Transaction versions are not consecutive.".

Definition EpochEndingLedgerInfoIter_next (self : BoundedIter It)
    : result (option LedgerInfoWithSignatures * BoundedIter It) :=
  if bi_end self <=? bi_expected_next self then Ok (None, self)
  else
    r ← SchemaIterator.next LedgerInfoSchema (bi_inner self);
    match r with
    | (Some (epoch, li), inner) =>
        if negb (LedgerInfo.ends_epoch (lis_ledger_info li))
        then Ok (None, mkBoundedIter inner (bi_expected_next self) (bi_end self))
        else
          _ ← ensure (epoch =? bi_expected_next self) (Msg "Epochs are not consecutive.");
          next_epoch ← add64 (bi_expected_next self) 1;
          Ok (Some li, mkBoundedIter inner next_epoch (bi_end self))
    | (None, inner) => Ok (None, mkBoundedIter inner (bi_expected_next self) (bi_end self))
    end.

(** [collect] of one of these iterators: it ends with the first [None], after at most
    as many items as there are numbers up to the end. *)
Fixpoint collect_steps {A} (next : BoundedIter It -> result (option A * BoundedIter It))
    (n : nat) (self : BoundedIter It) : result (list A) :=
  r ← next self;
  match r with
  | (None, _) => Ok []
  | (Some a, self) =>
      match n with
      | O => Panic
      | S n => rest ← collect_steps next n self; Ok (a :: rest)
      end
  end.
Definition collect_bounded {A} (next : BoundedIter It -> result (option A * BoundedIter It))
    (self : BoundedIter It) : result (list A) :=
  collect_steps next (N.to_nat (bi_end self - bi_expected_next self)) self.
End iters.
