(* ===== verification/TransactionStore.v ===== *)
(** * TransactionStore (storage/aptosdb/src/transaction_store/mod.rs)

    Transactions and write sets by version, the indices by hash and by account, and
    the search for the boundaries of a block. *)

From S2P Require Import Prelude Crypto Errors Position Accumulator Verifier Ledger ConsensusTypes Blocks TransactionProofs AccumulatorStore SchemaDb LedgerSchemas LedgerDb.

Record AccountTransactionVersionIter (It : Type) : Type := mkAccountTransactionVersionIter {
  ai_inner : SchemaIterator It;
  ai_address : AccountAddress;
  ai_expected_next_seq_num : option N;
  ai_end_seq_num : N;
  ai_prev_version : option Version;
  ai_ledger_version : Version;
}.
Arguments mkAccountTransactionVersionIter {It} _ _ _ _ _ _.
Arguments ai_inner {It} _.
Arguments ai_address {It} _.
Arguments ai_expected_next_seq_num {It} _.
Arguments ai_end_seq_num {It} _.
Arguments ai_prev_version {It} _.
Arguments ai_ledger_version {It} _.

Module TransactionStore.
Section reads.
Context `{LedgerBcs} `{RocksDb D It} (db : D).

Definition get_account_transaction_version (address : AccountAddress) (sequence_number : N)
    (ledger_version : Version) : result (option Version) :=
  r ← DB.get db TransactionByAccountSchema (address, sequence_number);
  match r with
  | Some version => Ok (if version <=? ledger_version then Some version else None)
  | None => Ok None
  end.

Definition get_transaction_version_by_hash (hash : HashValue) (ledger_version : Version)
    : result (option Version) :=
  r ← DB.get db TransactionByHashSchema hash;
  match r with
  | Some version => Ok (if version <=? ledger_version then Some version else None)
  | None => Ok None
  end.

Definition get_account_transaction_version_iter (address : AccountAddress)
    (min_seq_num num_versions : N) (ledger_version : Version)
    : result (AccountTransactionVersionIter It) :=
  iter ← DB.iter db TransactionByAccountSchema;
  iter ← SchemaIterator.seek TransactionByAccountSchema (address, min_seq_num) iter;
  end_seq_num ← ok_or (checked_add min_seq_num num_versions) (Msg "too many transactions requested");
  Ok (mkAccountTransactionVersionIter iter address None end_seq_num None ledger_version).

Definition get_transaction (version : Version) : result Transaction :=
  txn ← DB.get db TransactionSchema version;
  ok_or txn (FromAptosDbError (NotFound "Txn")).

Definition get_transaction_iter (start_version : Version) (num_transactions : N)
    : result (BoundedIter It) :=
  iter ← DB.iter db TransactionSchema;
  iter ← SchemaIterator.seek TransactionSchema start_version iter;
  end_version ← ok_or (checked_add start_version num_transactions) (Msg "too many transactions requested");
  Ok (mkBoundedIter iter start_version end_version).

(** The first key of a table keyed by version. *)
Definition first_version_of {V} (S : Schema Version V) : result (option Version) :=
  iter ← DB.iter db S;
  r ← SchemaIterator.next S (SchemaIterator.seek_to_first iter);
  Ok (match r.1 with Some (v, _) => Some v | None => None end).
Definition get_first_txn_version : result (option Version) := first_version_of TransactionSchema.
Definition get_first_write_set_version : result (option Version) := first_version_of WriteSetSchema.

Definition MAX_VERSIONS_TO_SEARCH : N := 1000 * 100.

(** The loop [for res in iter.take(n)] of [get_block_metadata]. *)
Fixpoint find_block_metadata (n : nat) (iter : SchemaIterator It)
    : result (option (Version * BlockMetadata)) :=
  match n with
  | O => Err (FromAptosDbError (NotFound "BlockMetadata preceding version"))
  | S n =>
      r ← SchemaIterator.next TransactionSchema iter;
      match r with
      | (None, _) => Err (FromAptosDbError (NotFound "BlockMetadata preceding version"))
      | (Some (v, BlockMetadataTransaction block_meta), _) => Ok (Some (v, block_meta))
      | (Some (v, _), iter) => if v =? 0 then Ok None else find_block_metadata n iter
      end
  end.
Definition get_block_metadata (version : Version) : result (option (Version * BlockMetadata)) :=
  iter ← DB.rev_iter db TransactionSchema;
  iter ← SchemaIterator.seek TransactionSchema version iter;
  find_block_metadata (N.to_nat MAX_VERSIONS_TO_SEARCH) iter.

(** The two loops of [get_block_boundaries]. *)
Fixpoint find_block_start (n : nat) (iter : SchemaIterator It) : result (option Version) :=
  match n with
  | O => Ok None
  | S n =>
      r ← SchemaIterator.next TransactionSchema iter;
      match r with
      | (None, _) => Ok None
      | (Some (v, GenesisTransaction _), _) | (Some (v, BlockMetadataTransaction _), _) => Ok (Some v)
      | (Some _, iter) => find_block_start n iter
      end
  end.

Fixpoint find_block_end (n : nat) (start_version : option Version) (latest_ledger_version : Version)
    (iter : SchemaIterator It) : result (option Version) :=
  match n with
  | O => Ok None
  | S n =>
      r ← SchemaIterator.next TransactionSchema iter;
      match r with
      | (None, _) => Ok None
      | (Some (v, BlockMetadataTransaction _), iter) =>
          if negb (bool_decide (start_version = Some v))
          then end_version ← sub64 v 1; Ok (Some end_version)
          else find_block_end n start_version latest_ledger_version iter
      | (Some (v, _), iter) =>
          if v =? latest_ledger_version then Ok (Some v)
          else find_block_end n start_version latest_ledger_version iter
      end
  end.

Definition get_block_boundaries (version latest_ledger_version : Version) : result (Version * Version) :=
  if version =? 0 then Ok (0, 0)
  else
    iter ← DB.rev_iter db TransactionSchema;
    iter ← SchemaIterator.seek TransactionSchema version iter;
    start_version ← find_block_start (N.to_nat MAX_VERSIONS_TO_SEARCH) iter;
    iter ← DB.iter db TransactionSchema;
    iter ← SchemaIterator.seek TransactionSchema version iter;
    end_version ← find_block_end (N.to_nat MAX_VERSIONS_TO_SEARCH) start_version latest_ledger_version iter;
    match start_version, end_version with
    | Some start, Some end_ => Ok (start, end_)
    | Some start, None => Ok (start, start)
    | None, _ => Err (FromAptosDbError (NotFound "Block boundaries not found for version"))
    end.

Definition get_write_set (version : Version) : result WriteSet :=
  write_set ← DB.get db WriteSetSchema version;
  ok_or write_set (FromAptosDbError (NotFound "WriteSet at version")).

(** The loop over [begin_version..end_version]. *)
Fixpoint read_write_sets (versions : list Version) (iter : SchemaIterator It) : result (list WriteSet) :=
  match versions with
  | [] => Ok []
  | current_version :: versions =>
      r ← SchemaIterator.next WriteSetSchema iter;
      x ← ok_or r.1 (Msg "Write set missing for version");
      let '(version, write_set) := x in
      _ ← ensure (version =? current_version) (Msg "Write set missing for version, got version");
      rest ← read_write_sets versions r.2;
      Ok (write_set :: rest)
  end.
Definition get_write_sets (begin_version end_version : Version) : result (list WriteSet) :=
  if begin_version =? end_version then Ok []
  else
    _ ← ensure (begin_version <? end_version) (Msg "begin_version >= end_version");
    iter ← DB.iter db WriteSetSchema;
    iter ← SchemaIterator.seek WriteSetSchema begin_version iter;
    read_write_sets (range64 begin_version end_version) iter.
End reads.

(** *** Writes *)
Section writes.
Context `{LedgerBcs} `{CryptoHash Transaction}.

Definition put_transaction (version : Version) (transaction : Transaction) (cs : ChangeSet)
    : result ChangeSet :=
  cs ← match transaction with
       | UserTransaction txn =>
           ChangeSet.put TransactionByAccountSchema (txn_sender txn, txn_sequence_number txn) version cs
       | _ => Ok cs
       end;
  cs ← ChangeSet.put TransactionByHashSchema (hash transaction) version cs;
  ChangeSet.put TransactionSchema version transaction cs.

Definition put_write_set (version : Version) (write_set : WriteSet) (cs : ChangeSet) : result ChangeSet :=
  ChangeSet.put WriteSetSchema version write_set cs.

Definition prune_transaction_by_hash (transactions : list Transaction) (db_batch : SchemaBatch)
    : result SchemaBatch :=
  try_fold (fun transaction => SchemaBatch.delete TransactionByHashSchema (hash transaction))
    transactions db_batch.

Definition prune_transaction_by_account (transactions : list Transaction) (db_batch : SchemaBatch)
    : result SchemaBatch :=
  try_fold (fun transaction db_batch =>
      match transaction with
      | UserTransaction txn =>
          SchemaBatch.delete TransactionByAccountSchema (txn_sender txn, txn_sequence_number txn) db_batch
      | _ => Ok db_batch
      end) transactions db_batch.

Definition prune_transaction_schema (begin end_ : Version) : SchemaBatch -> result SchemaBatch :=
  try_fold (SchemaBatch.delete TransactionSchema) (range64 begin end_).
Definition prune_transaction_info_schema (begin end_ : Version) : SchemaBatch -> result SchemaBatch :=
  try_fold (SchemaBatch.delete TransactionInfoSchema) (range64 begin end_).
Definition prune_write_set (begin end_ : Version) : SchemaBatch -> result SchemaBatch :=
  try_fold (SchemaBatch.delete WriteSetSchema) (range64 begin end_).

Definition get_min_proof_node (leaf_index : N) : result Position :=
  if 0 <? leaf_index
  then Position.left_child (Position.root_from_leaf_index leaf_index)
  else Ok (Position.root_from_leaf_index 0).
End writes.
End TransactionStore.

Section account_iter.
Context `{LedgerBcs} `{RocksDb D It}.

Definition AccountTransactionVersionIter_next (self : AccountTransactionVersionIter It)
    : result (option (N * Version) * AccountTransactionVersionIter It) :=
  r ← SchemaIterator.next TransactionByAccountSchema (ai_inner self);
  let '(item, inner) := r in
  let moved := mkAccountTransactionVersionIter inner (ai_address self) (ai_expected_next_seq_num self)
                 (ai_end_seq_num self) (ai_prev_version self) (ai_ledger_version self) in
  match item with
  | None => Ok (None, moved)
  | Some ((address, seq_num), version) =>
      if negb (address =? ai_address self) then Ok (None, moved)
      else if ai_end_seq_num self <=? seq_num then Ok (None, moved)
      else
        _ ← match ai_expected_next_seq_num self with
            | Some expected_seq_num =>
                ensure (seq_num =? expected_seq_num)
                  (Msg "DB corruption: account transactions sequence numbers are not contiguous")
            | None => Ok tt
            end;
        _ ← match ai_prev_version self with
            | Some prev_version =>
                ensure (prev_version <? version)
                  (Msg "DB corruption: account transaction versions are not strictly increasing")
            | None => Ok tt
            end;
        if ai_ledger_version self <? version then Ok (None, moved)
        else
          next_seq_num ← add64 seq_num 1;
          Ok (Some (seq_num, version),
              mkAccountTransactionVersionIter inner (ai_address self) (Some next_seq_num)
                (ai_end_seq_num self) (Some version) (ai_ledger_version self))
  end.

(** [map] and [collect]: the items have increasing sequence numbers below the end. *)
Fixpoint collect_account_versions {A} (f : N * Version -> result A) (n : nat)
    (self : AccountTransactionVersionIter It) : result (list A) :=
  r ← AccountTransactionVersionIter_next self;
  match r with
  | (None, _) => Ok []
  | (Some x, self) =>
      a ← f x;
      match n with
      | O => Panic
      | S n => rest ← collect_account_versions f n self; Ok (a :: rest)
      end
  end.
End account_iter.
