(* ===== verification/EventStore.v ===== *)
(** * EventStore (storage/aptosdb/src/event_store/mod.rs)

    Events by version, their accumulators, and the indices by event key.  The loops
    over an iterator of events take the number of rows they may read as [fuel].  *)

From S2P Require Import Prelude Crypto Errors Position Accumulator Verifier Ledger ConsensusTypes Blocks TransactionProofs AccumulatorStore SchemaDb LedgerSchemas LedgerDb.

(** [EmptyReader]: [get] is [unreachable!()]. *)
Inductive EmptyReader : Type := mkEmptyReader.
#[global] Instance EmptyReader_HashReader : HashReader EmptyReader := fun _ _ => Panic.

(** [EventHashReader] *)
Record EventHashReader (D : Type) : Type := mkEventHashReader { ehr_store : D; ehr_version : Version }.
Arguments mkEventHashReader {D} _ _.
Arguments ehr_store {D} _.
Arguments ehr_version {D} _.
#[global] Instance EventHashReader_HashReader `{LedgerBcs} `{RocksDb D It} : HashReader (EventHashReader D) :=
  fun self position =>
    h ← DB.get (ehr_store self) EventAccumulatorSchema (ehr_version self, position);
    ok_or h (Msg "Hash at position not found.").

(** [Peekable]: an item that was looked at and not yet taken. *)
Record Peekable (It A : Type) : Type := mkPeekable {
  pk_peeked : option (option A);
  pk_iter : SchemaIterator It;
}.
Arguments mkPeekable {It A} _ _.
Arguments pk_peeked {It A} _.
Arguments pk_iter {It A} _.

Record EventsByVersionIter (It : Type) : Type := mkEventsByVersionIter {
  ei_inner : Peekable It (Version * N * ContractEvent);
  ei_expected_next_version : Version;
  ei_end_version : Version;
}.
Arguments mkEventsByVersionIter {It} _ _ _.
Arguments ei_inner {It} _.
Arguments ei_expected_next_version {It} _.
Arguments ei_end_version {It} _.

Module EventStore.
Section reads.
Context `{LedgerBcs} `{RocksDb D It} (db : D).

(** [while let Some(((ver, index), event)) = iter.next().transpose()?] *)
Fixpoint take_version (fuel : nat) (version : Version) (iter : SchemaIterator It)
    : result (list ContractEvent) :=
  r ← SchemaIterator.next EventSchema iter;
  match r with
  | (None, _) => Ok []
  | (Some ((ver, _), event), iter) =>
      if negb (ver =? version) then Ok []
      else match fuel with
           | O => Panic
           | S fuel => events ← take_version fuel version iter; Ok (event :: events)
           end
  end.

(** The iterator seeks the eight bytes of the version, the start of its keys. *)
Definition get_events_by_version (fuel : nat) (version : Version) : result (list ContractEvent) :=
  iter ← DB.iter db EventSchema;
  take_version fuel version (SchemaIterator.seek_raw (to_be_bytes 8 version) iter).

Definition get_events_by_version_iter (start_version : Version) (num_versions : N)
    : result (EventsByVersionIter It) :=
  iter ← DB.iter db EventSchema;
  let iter := SchemaIterator.seek_raw (to_be_bytes 8 start_version) iter in
  end_version ← ok_or (checked_add start_version num_versions) (Msg "Too many versions requested.");
  Ok (mkEventsByVersionIter (mkPeekable None iter) start_version end_version).

Definition get_event_by_version_and_index (version : Version) (index : N) : result ContractEvent :=
  event ← DB.get db EventSchema (version, index);
  ok_or event (FromAptosDbError (NotFound "Event of Txn")).

Definition get_txn_ver_by_seq_num (event_key : EventKey) (seq_num : N) : result N :=
  r ← DB.get db EventByKeySchema (event_key, seq_num);
  x ← ok_or r (Msg "Index entry should exist for seq_num");
  Ok x.1.

(** The result of [seek_for_prev] is dropped: an error leaves the iterator as it was. *)
Definition get_latest_sequence_number (ledger_version : Version) (event_key : EventKey)
    : result (option N) :=
  iter ← DB.iter db EventByVersionSchema;
  iter ← match SchemaIterator.seek_for_prev EventByVersionSchema (event_key, ledger_version, u64_max) iter with
         | Ok moved => Ok moved
         | Err _ => Ok iter
         | Panic => Panic
         end;
  r ← SchemaIterator.next EventByVersionSchema iter;
  Ok (match r.1 with
      | Some ((key, _, seq), _) => if bool_decide (key = event_key) then Some seq else None
      | None => None
      end).

Definition get_next_sequence_number (ledger_version : Version) (event_key : EventKey) : result N :=
  latest ← get_latest_sequence_number ledger_version event_key;
  match latest with
  | None => Ok 0
  | Some seq => ok_or (checked_add seq 1) (Msg "Seq num overflowed.")
  end.

(** [for res in iter.take(limit)] *)
Fixpoint lookup_loop (limit : nat) (event_key : EventKey) (start_seq_num cur_seq : N)
    (ledger_version : Version) (iter : SchemaIterator It) : result (list (N * Version * N)) :=
  match limit with
  | O => Ok []
  | S limit =>
      r ← SchemaIterator.next EventByKeySchema iter;
      match r with
      | (None, _) => Ok []
      | (Some ((path, seq), (ver, idx)), iter) =>
          if negb (bool_decide (path = event_key)) || (ledger_version <? ver) then Ok []
          else if negb (seq =? cur_seq)
          then Err (Msg (if cur_seq =? start_seq_num then "First requested event is probably pruned."
                         else "DB corruption: Sequence number not continous."))
          else
            next_seq ← add64 cur_seq 1;
            rest ← lookup_loop limit event_key start_seq_num next_seq ledger_version iter;
            Ok ((seq, ver, idx) :: rest)
      end
  end.
Definition lookup_events_by_key (event_key : EventKey) (start_seq_num limit : N)
    (ledger_version : Version) : result (list (N * Version * N)) :=
  iter ← DB.iter db EventByKeySchema;
  iter ← SchemaIterator.seek EventByKeySchema (event_key, start_seq_num) iter;
  lookup_loop (N.to_nat limit) event_key start_seq_num start_seq_num ledger_version iter.

Definition lookup_event_by_key (event_key : EventKey) (seq_num : N) (ledger_version : Version)
    : result (Version * N) :=
  indices ← lookup_events_by_key event_key seq_num 1 ledger_version;
  match indices with
  | [] => Err (FromAptosDbError (NotFound "Event of seq num."))
  | (_, version, index) :: _ => Ok (version, index)
  end.

Definition get_event_by_key (event_key : EventKey) (seq_num : N) (ledger_version : Version)
    : result ContractEvent :=
  x ← lookup_event_by_key event_key seq_num ledger_version;
  get_event_by_version_and_index x.1 x.2.

(** The loop [while count > 0]: [count] halves, from less than 2^64. *)
Fixpoint lower_bound_loop (fuel : nat) (event_key : EventKey) (comp : ContractEvent -> result bool)
    (ledger_version : Version) (begin count : N) : result N :=
  if count =? 0 then Ok begin
  else match fuel with
       | O => Panic
       | S fuel =>
           let step := count / 2 in
           mid ← add64 begin step;
           event ← get_event_by_key event_key mid ledger_version;
           c ← comp event;
           if c : bool
           then begin ← add64 mid 1; lower_bound_loop fuel event_key comp ledger_version begin (count - (step + 1))
           else lower_bound_loop fuel event_key comp ledger_version begin step
       end.
Definition search_for_event_lower_bound (event_key : EventKey) (comp : ContractEvent -> result bool)
    (ledger_version : Version) : result (option N) :=
  latest ← get_latest_sequence_number ledger_version event_key;
  match latest with
  | None => Ok None
  | Some s =>
      end_ ← ok_or (checked_add s 1) (Msg "event sequence number overflew.");
      begin ← lower_bound_loop 64 event_key comp ledger_version 0 end_;
      Ok (if begin =? end_ then None else Some begin)
  end.

(** [new_block_event_key()] and [NewBlockEvent::try_from(event)?.proposed_time()] are
    arguments: their data is decoded from BCS. *)
Definition get_last_version_before_timestamp (new_block_event_key : EventKey)
    (proposed_time : ContractEvent -> result N) (timestamp : N) (ledger_version : Version)
    : result Version :=
  found ← search_for_event_lower_bound new_block_event_key
            (fun event => t ← proposed_time event; Ok (t <? timestamp)) ledger_version;
  seq_at_or_after_ts ← ok_or found (Msg "No new block found beyond timestmap");
  _ ← ensure (0 <? seq_at_or_after_ts) (Msg "First block started at or after timestamp");
  x ← lookup_event_by_key new_block_event_key seq_at_or_after_ts ledger_version;
  ok_or (checked_sub x.1 1) (Msg "A block with non-zero seq num started at version 0.").

(** *** Iterating over versions *)
Definition peek (self : Peekable It (Version * N * ContractEvent))
    : result (option (Version * N * ContractEvent) * Peekable It (Version * N * ContractEvent)) :=
  match pk_peeked self with
  | Some item => Ok (item, self)
  | None =>
      match SchemaIterator.next EventSchema (pk_iter self) with
      | Ok (item, iter) => Ok (item, mkPeekable (Some item) iter)
      | Err _ => Err (Msg "Hit error iterating events")
      | Panic => Panic
      end
  end.

(** [while let Some(res) = self.inner.peek()]; an item that was peeked at is the next. *)
Fixpoint take_peeked (fuel : nat) (version : Version) (inner : Peekable It (Version * N * ContractEvent))
    : result (list ContractEvent * Peekable It (Version * N * ContractEvent)) :=
  r ← peek inner;
  match r with
  | (None, inner) => Ok ([], inner)
  | (Some ((ver, _), event), inner) =>
      if negb (ver =? version) then Ok ([], inner)
      else match fuel with
           | O => Panic
           | S fuel =>
               rest ← take_peeked fuel version (mkPeekable None (pk_iter inner));
               Ok (event :: rest.1, rest.2)
           end
  end.

Definition EventsByVersionIter_next (fuel : nat) (self : EventsByVersionIter It)
    : result (option (list ContractEvent) * EventsByVersionIter It) :=
  if ei_end_version self <=? ei_expected_next_version self then Ok (None, self)
  else
    r ← take_peeked fuel (ei_expected_next_version self) (ei_inner self);
    expected ← ok_or (checked_add (ei_expected_next_version self) 1) (Msg "expected version overflowed.");
    Ok (Some r.1, mkEventsByVersionIter r.2 expected (ei_end_version self)).

(** *** Pruning *)
Definition prune_event_at (current_version : Version) (x : N * ContractEvent) (db_batch : SchemaBatch)
    : result SchemaBatch :=
  let '(current_index, event) := x in
  db_batch ← SchemaBatch.delete EventByVersionSchema
               (ce_key event, current_version, ce_sequence_number event) db_batch;
  db_batch ← SchemaBatch.delete EventByKeySchema (ce_key event, ce_sequence_number event) db_batch;
  SchemaBatch.delete EventSchema (current_version, current_index) db_batch.

(** [n] is the number of versions, which the iterator counts down. *)
Fixpoint prune_event_versions (fuel n : nat) (current_version : Version) (iter : EventsByVersionIter It)
    (db_batch : SchemaBatch) : result SchemaBatch :=
  r ← EventsByVersionIter_next fuel iter;
  match r with
  | (None, _) => Ok db_batch
  | (Some events, iter) =>
      db_batch ← try_fold (prune_event_at current_version)
                   (zip (count_from 0 (length events)) events) db_batch;
      next_version ← add64 current_version 1;
      match n with
      | O => Panic
      | S n => prune_event_versions fuel n next_version iter db_batch
      end
  end.

Fixpoint prune_accumulator_loop (fuel : nat) (end_ : Version) (iter : SchemaIterator It)
    (db_batch : SchemaBatch) : result SchemaBatch :=
  r ← SchemaIterator.next EventAccumulatorSchema iter;
  match r with
  | (None, _) => Ok db_batch
  | (Some ((version, position), _), iter) =>
      if end_ <=? version then Ok db_batch
      else
        db_batch ← SchemaBatch.delete EventAccumulatorSchema (version, position) db_batch;
        match fuel with
        | O => Panic
        | S fuel => prune_accumulator_loop fuel end_ iter db_batch
        end
  end.
Definition prune_event_accumulator (fuel : nat) (begin end_ : Version) (db_batch : SchemaBatch)
    : result SchemaBatch :=
  iter ← DB.iter db EventAccumulatorSchema;
  iter ← SchemaIterator.seek EventAccumulatorSchema (begin, Position.from_inorder_index 0) iter;
  prune_accumulator_loop fuel end_ iter db_batch.

Definition prune_events (fuel : nat) (start end_ : Version) (db_batch : SchemaBatch) : result SchemaBatch :=
  num_versions ← sub64 end_ start;
  iter ← get_events_by_version_iter start num_versions;
  db_batch ← prune_event_versions fuel (N.to_nat num_versions) start iter db_batch;
  prune_event_accumulator fuel start end_ db_batch.
End reads.

(** *** Writes *)
Section writes.
Context `{LedgerBcs} (event_hasher : HashValue -> HashValue -> HashValue) `{CryptoHash ContractEvent}.

Definition put_event (version : Version) (x : N * ContractEvent) (cs : ChangeSet) : result ChangeSet :=
  let '(idx, event) := x in
  cs ← ChangeSet.put EventSchema (version, idx) event cs;
  cs ← ChangeSet.put EventByKeySchema (ce_key event, ce_sequence_number event) (version, idx) cs;
  ChangeSet.put EventByVersionSchema (ce_key event, version, ce_sequence_number event) idx cs.

Definition put_events (version : Version) (events : list ContractEvent) (cs : ChangeSet)
    : result (HashValue * ChangeSet) :=
  bumps ← InnerLedgerCounters.inc EventsCreated (N.of_nat (length events))
            (ChangeSet.counter_bumps cs version);
  let cs := ChangeSet.set_bumps version bumps cs in
  cs ← try_fold (put_event version) (zip (count_from 0 (length events)) events) cs;
  r ← @MerkleAccumulator.append event_hasher EmptyReader _ mkEmptyReader 0 (hash <$> events);
  let '(root_hash, writes) := r in
  cs ← try_fold (fun w => ChangeSet.put EventAccumulatorSchema (version, w.1) w.2) writes cs;
  Ok (root_hash, cs).

Definition put_events_multiple_versions (first_version : Version) (event_vecs : list (list ContractEvent))
    (cs : ChangeSet) : result (list HashValue * ChangeSet) :=
  try_fold (fun x (s : list HashValue * ChangeSet) =>
      version ← ok_or (checked_add first_version x.1) (Msg "version overflow");
      r ← put_events version x.2 s.2;
      Ok (s.1 ++ [r.1], r.2))
    (zip (count_from 0 (length event_vecs)) event_vecs) ([], cs).

Definition prune_event_schema (begin end_ : Version) : SchemaBatch -> result SchemaBatch :=
  SchemaBatch.delete_range EventSchema (begin, 0) (end_, 0).
End writes.
End EventStore.
