(* ===== verification/StateStore.v ===== *)
(** * State values and the buffered state (storage/aptosdb/src/state_store)

    [StateKey] and [StateKeyPrefix] (types/src/state_store), the table of state values
    and how a batch of updates is written to it (state_store/mod.rs), [StateDelta]
    (storage-interface/src/state_delta.rs), and [BufferedState]
    (state_store/buffered_state.rs), which hands checkpoints to the snapshot committer.
    A sparse Merkle tree is kept as its root hash, the only thing that is compared; the
    channel to the committer is the list of messages that were sent. *)

From S2P Require Import Prelude Crypto Errors Position Accumulator Verifier Ledger ConsensusTypes Blocks TransactionProofs SchemaDb LedgerSchemas LedgerDb.

(** ** Keys and values *)
Record AccessPath : Type := mkAccessPath { ap_address : AccountAddress; ap_path : bytes }.
Inductive StateKey : Type :=
  | AccessPathKey (access_path : AccessPath)
  | TableItem (handle : N) (key : bytes)
  | Raw (raw_bytes : bytes).
#[global] Instance AccessPath_eq_dec : EqDecision AccessPath.
Proof. solve_decision. Defined.
#[global] Instance StateKey_eq_dec : EqDecision StateKey.
Proof. solve_decision. Defined.
#[global] Program Instance StateKey_countable : Countable StateKey :=
  inj_countable' (fun k => match k with
      | AccessPathKey p => inl (ap_address p, ap_path p)
      | TableItem h key => inr (inl (h, key))
      | Raw b => inr (inr b)
      end)
    (fun x : (N * bytes) + ((N * bytes) + bytes) => match x with
      | inl (a, p) => AccessPathKey (mkAccessPath a p)
      | inr (inl (h, key)) => TableItem h key
      | inr (inr b) => Raw b
      end) _.
Next Obligation. by intros [[]| |]. Qed.

(** The hash stored next to the bytes is a function of them. *)
Record StateValue : Type := mkStateValue { sv_maybe_bytes : option bytes }.
#[global] Instance StateValue_eq_dec : EqDecision StateValue.
Proof. solve_decision. Defined.

Definition StateKeyTag_AccessPath : N := 0.
Definition StateKeyTag_TableItem : N := 1.
Definition StateKeyTag_Raw : N := 255.

(** [StateKeyDecodeErr] *)
Inductive StateKeyDecodeErr : Type :=
  | EmptyInput
  | UnknownTag (unknown_tag : N)
  | NotEnoughBytes (tag num_bytes : N)
  | BcsError (e : AnyError).

Module StateKey.
Section codec.
Context `{Bcs AccessPath}.

Definition encode (self : StateKey) : result bytes :=
  match self with
  | AccessPathKey access_path => b ← bcs_to_bytes access_path; Ok (StateKeyTag_AccessPath :: b)
  | TableItem handle key => Ok (StateKeyTag_TableItem :: to_be_bytes 16 handle ++ key)
  | Raw raw_bytes => Ok (StateKeyTag_Raw :: raw_bytes)
  end.

Definition decode (val : bytes) : outcome StateKeyDecodeErr StateKey :=
  match val with
  | [] => Err EmptyInput
  | tag :: rest =>
      if tag =? StateKeyTag_AccessPath then AccessPathKey <$> map_err BcsError (bcs_from_bytes rest)
      else if tag =? StateKeyTag_TableItem then
        if N.of_nat (length val) <? 1 + 16 then Err (NotEnoughBytes tag (N.of_nat (length val)))
        else Ok (TableItem (from_be_bytes (take 16 rest)) (drop 16 rest))
      else if tag =? StateKeyTag_Raw then Ok (Raw rest)
      else Err (UnknownTag tag)
  end.
End codec.
End StateKey.

Record StateKeyPrefix : Type := mkStateKeyPrefix { skp_tag : N; skp_bytes : bytes }.
Definition StateKeyPrefix_encode (self : StateKeyPrefix) : bytes := skp_tag self :: skp_bytes self.
Definition StateKeyPrefix_is_prefix `{Bcs AccessPath} (self : StateKeyPrefix) (state_key : StateKey)
    : result bool :=
  encoded_key ← StateKey.encode state_key;
  let encoded_prefix := StateKeyPrefix_encode self in
  if (length encoded_key <? length encoded_prefix)%nat then Ok false
  else Ok (bool_decide (encoded_prefix = take (length encoded_prefix) encoded_key)).

(** ** The table of state values: the newest version of a key comes first. *)
Section state_values.
Context `{Bcs AccessPath} `{Bcs StateValue}.

Definition encode_state_value_key (x : StateKey * Version) : result bytes :=
  k ← StateKey.encode x.1; Ok (k ++ to_be_bytes 8 (not64 x.2)).
Definition decode_state_value_key (data : bytes) : result (StateKey * Version) :=
  _ ← ensure (8 <? length data)%nat (Msg "Unexpected data len");
  let state_key_len := (length data - 8)%nat in
  state_key ← map_err (fun _ => Msg "StateKeyDecodeErr") (StateKey.decode (take state_key_len data));
  Ok (state_key, not64 (from_be_bytes (drop state_key_len data))).
Definition StateValueSchema : Schema (StateKey * Version) StateValue :=
  mkSchema _ _ "state_value" encode_state_value_key decode_state_value_key bcs_to_bytes bcs_from_bytes.

(** [HashMap]s are iterated in an order that does not matter: their keys differ. *)
Abbreviation StateValueBatch := (gmap (StateKey * Version) StateValue) (only parsing).
Definition add_kv_batch (kv_batch : StateValueBatch) (batch : SchemaBatch) : result SchemaBatch :=
  try_fold (fun kv => SchemaBatch.put StateValueSchema kv.1 kv.2) (map_to_list kv_batch) batch.

Definition versioned_updates (version : Version) (kvs : gmap StateKey StateValue)
    : list ((StateKey * Version) * StateValue) :=
  (fun kv => ((kv.1, version), kv.2)) <$> map_to_list kvs.

Definition put_value_sets (value_state_sets : list (gmap StateKey StateValue)) (first_version : Version)
    (cs : ChangeSet) : result ChangeSet :=
  kvs ← collect (fun x => version ← add64 first_version x.1; Ok (versioned_updates version x.2))
          (zip (count_from 0 (length value_state_sets)) value_state_sets);
  batch ← add_kv_batch (list_to_map (concat kvs)) (cs_batch cs);
  Ok (mkChangeSet batch (cs_counter_bumps cs)).
End state_values.

(** ** StateDelta *)
Record StateDelta : Type := mkStateDelta {
  sd_base : HashValue;
  sd_base_version : option Version;
  sd_current : HashValue;
  sd_current_version : option Version;
  sd_updates_since_base : gmap StateKey StateValue;
}.

(** [version.map_or(0, |v| v + 1)] *)
Definition next_version (version : option Version) : result N :=
  match version with Some v => add64 v 1 | None => Ok 0 end.

(** The order of [Option<Version>]: [None] is the least. *)
Definition version_le (a b : option Version) : bool :=
  match a, b with
  | None, _ => true
  | Some _, None => false
  | Some a, Some b => a <=? b
  end.

Module StateDelta.
Definition new (base : HashValue) (base_version : option Version) (current : HashValue)
    (current_version : option Version) (updates_since_base : gmap StateKey StateValue) : result StateDelta :=
  b ← next_version base_version; c ← next_version current_version;
  _ ← assert_ (b <=? c);
  Ok (mkStateDelta base base_version current current_version updates_since_base).
Definition new_at_checkpoint (root_hash : HashValue) (checkpoint_version : option Version) : result StateDelta :=
  new root_hash checkpoint_version root_hash checkpoint_version ∅.
Definition follow (self other : StateDelta) : bool :=
  bool_decide (sd_base_version self = sd_current_version other) && (sd_current other =? sd_base self).
Definition has_same_current_state (self other : StateDelta) : bool :=
  bool_decide (sd_current_version self = sd_current_version other) && (sd_current self =? sd_current other).

(** [extend]: the updates of [other] win. *)
Definition merge (other self : StateDelta) : result StateDelta :=
  _ ← assert_ (follow other self);
  Ok (mkStateDelta (sd_base self) (sd_base_version self) (sd_current other) (sd_current_version other)
        (sd_updates_since_base other ∪ sd_updates_since_base self)).
End StateDelta.

(** ** BufferedState *)
Inductive CommitMessage : Type :=
  | Data (delta : StateDelta)
  | Sync.

Record BufferedState : Type := mkBufferedState {
  state_until_checkpoint : option StateDelta;
  state_after_checkpoint : StateDelta;
  sent_messages : list CommitMessage;
  target_snapshot_size : N;
}.

Module BufferedState.
Definition TARGET_SNAPSHOT_INTERVAL_IN_VERSION : N := 20000.

Definition new (delta : StateDelta) (target_size : N) : BufferedState :=
  mkBufferedState None delta [] target_size.
Definition current_state (self : BufferedState) : StateDelta := state_after_checkpoint self.
Definition current_checkpoint_version (self : BufferedState) : option Version :=
  sd_base_version (state_after_checkpoint self).

Definition send (messages : list CommitMessage) (self : BufferedState) : BufferedState :=
  mkBufferedState None (state_after_checkpoint self) (sent_messages self ++ messages) (target_snapshot_size self).

(** A synchronous commit waits until the committer has answered the last message. *)
Definition maybe_commit (sync_commit : bool) (self : BufferedState) : result BufferedState :=
  if sync_commit then
    Ok (send (match state_until_checkpoint self with Some d => [Data d] | None => [] end ++ [Sync]) self)
  else
    match state_until_checkpoint self with
    | None => Ok self
    | Some delta =>
        take_out_to_commit ←
          (if target_snapshot_size self <=? N.of_nat (size (sd_updates_since_base delta)) then Ok true
           else
             c ← next_version (sd_current_version delta); b ← next_version (sd_base_version delta);
             n ← sub64 c b; Ok (TARGET_SNAPSHOT_INTERVAL_IN_VERSION <=? n));
        if take_out_to_commit : bool then Ok (send [Data delta] self) else Ok self
    end.

(** The method keeps the changes it made before it returned an error. *)
Definition extend_to_checkpoint (updates : gmap StateKey StateValue) (new_state : StateDelta)
    (after : StateDelta) : StateDelta :=
  mkStateDelta (sd_base after) (sd_base_version after) (sd_base new_state) (sd_base_version new_state)
    (updates ∪ sd_updates_since_base after).

Definition update (updates_option : option (gmap StateKey StateValue)) (new_state : StateDelta)
    (sync_commit : bool) : method BufferedState AnyError unit := fun self =>
  let after := state_after_checkpoint self in
  if negb (version_le (sd_base_version after) (sd_base_version new_state)) then
    (Err (Msg "Condition failed"), self)
  else
    match updates_option with
    | Some updates =>
        let until := extend_to_checkpoint updates new_state after in
        let merged := match state_until_checkpoint self with
                      | Some delta => StateDelta.merge until delta
                      | None => Ok until
                      end in
        match merged with
        | Ok delta =>
            let self := mkBufferedState (Some delta) new_state (sent_messages self) (target_snapshot_size self) in
            match maybe_commit sync_commit self with
            | Ok self => (Ok tt, self)
            | Err e => (Err e, self)
            | Panic => (Panic, self)
            end
        | Err e => (Err e, self)
        | Panic => (Panic, self)
        end
    | None =>
        if negb (bool_decide (sd_base_version new_state = sd_base_version after)) then
          (Err (Msg "Condition failed"), self)
        else
          let self := mkBufferedState (state_until_checkpoint self) new_state (sent_messages self)
                        (target_snapshot_size self) in
          match maybe_commit sync_commit self with
          | Ok self => (Ok tt, self)
          | Err e => (Err e, self)
          | Panic => (Panic, self)
          end
    end.
End BufferedState.
