(* ===== verification/AptosDb.v ===== *)
(** * AptosDB (storage/aptosdb/src/lib.rs, backup/restore_utils.rs)

    The database as consensus, state sync and clients see it: saving transactions and
    ledger infos, and the reads of [DbReader] about the ledger.  The state Merkle tree,
    the pruner's threads and the indexer are not part of it: what the pruner's worker
    reports and what the indexer answers are data.  The ledger pruner itself is at the
    end.  [gauged_api], locks and metrics are left out. *)

From S2P Require Import Prelude Crypto Errors Position Accumulator Verifier Ledger ConsensusTypes Blocks TransactionProofs AccumulatorStore SchemaDb LedgerSchemas LedgerDb TransactionStore EventStore StateStore.

Definition MAX_LIMIT : N := 5000.
Definition MAX_NUM_EPOCH_ENDING_LEDGER_INFO : N := 100.

Record TransactionToCommit : Type := mkTransactionToCommit {
  ttc_transaction : Transaction;
  ttc_transaction_info : TransactionInfo;
  ttc_state_updates : gmap StateKey StateValue;
  ttc_write_set : WriteSet;
  ttc_events : list ContractEvent;
  ttc_is_reconfig : bool;
}.
Definition ttc_is_state_checkpoint (self : TransactionToCommit) : bool :=
  TransactionInfo_is_state_checkpoint (ttc_transaction_info self).

Inductive Order : Type := Ascending | Descending.
Record EventWithVersion : Type := mkEventWithVersion {
  ewv_transaction_version : Version;
  ewv_event : ContractEvent;
}.
Record StateProof : Type := mkStateProof {
  sp_latest_li_w_sigs : LedgerInfoWithSignatures;
  sp_epoch_changes : EpochChangeProof;
}.

(** [ExecutedTrees] (storage/storage-interface/src/executed_trees.rs) and [StartupInfo]
    (storage/storage-interface/src/lib.rs) *)
Record ExecutedTrees : Type := mkExecutedTrees {
  et_state : StateDelta;
  et_transaction_accumulator : InMemoryAccumulator;
}.
Module ExecutedTrees.
Definition new (state : StateDelta) (transaction_accumulator : InMemoryAccumulator) : result ExecutedTrees :=
  num_txns ← next_version (sd_current_version state);
  _ ← assert_ (num_txns =? num_leaves transaction_accumulator);
  Ok (mkExecutedTrees state transaction_accumulator).
Definition version (self : ExecutedTrees) : option Version :=
  checked_sub (num_leaves (et_transaction_accumulator self)) 1.
Definition state_id (self : ExecutedTrees) : HashValue := root_hash (et_transaction_accumulator self).
End ExecutedTrees.

Record StartupInfo : Type := mkStartupInfo {
  su_latest_ledger_info : LedgerInfoWithSignatures;
  su_latest_epoch_state : option EpochState;
  su_committed_trees : ExecutedTrees;
  su_synced_trees : option ExecutedTrees;
}.

(** The ledger pruner, if there is one, reports the least version it has kept. *)
Record AptosDB (D : Type) : Type := mkAptosDB {
  adb_ledger_store : LedgerStore D;
  adb_buffered_state : BufferedState;
  adb_pruner : option (option Version);
  adb_indexer : option (Version -> list WriteSet -> result unit);
}.
Arguments mkAptosDB {D} _ _ _ _.
Arguments adb_ledger_store {D} _.
Arguments adb_buffered_state {D} _.
Arguments adb_pruner {D} _.
Arguments adb_indexer {D} _.

Definition error_if_too_many_requested (num_requested max_allowed : N) : result unit :=
  if max_allowed <? num_requested then Err (FromAptosDbError (TooManyRequested num_requested max_allowed))
  else Ok tt.

Definition error_if_version_is_pruned (pruner : option (option Version)) (version : Version) : result unit :=
  match pruner with
  | Some (Some min_readable_version) => ensure (min_readable_version <=? version) (Msg "version is pruned")
  | _ => Ok tt
  end.

Definition get_first_seq_num_and_limit (order : Order) (cursor limit : N) : result (N * N) :=
  _ ← ensure (0 <? limit) (Msg "limit should > 0");
  match order with
  | Ascending => Ok (cursor, limit)
  | Descending =>
      if limit <=? cursor then Ok (cursor - limit + 1, limit)
      else n ← add64 cursor 1; Ok (0, n)
  end.

Definition empty_info_list : TransactionInfoListWithProof :=
  mkTransactionInfoListWithProof (mkAccumulatorRangeProof [] []) [].

Module AptosDB.
(** ** Reads *)
Section reads.
Context `{LedgerBcs} `{RocksDb D It} `{MerkleHasher} (self : AptosDB D).

Definition db : D := ls_db (adb_ledger_store self).

Definition collect_epoch_endings (start_epoch end_epoch : N) : result (list LedgerInfoWithSignatures) :=
  iter ← LedgerStore.get_epoch_ending_ledger_info_iter (adb_ledger_store self) start_epoch end_epoch;
  collect_bounded EpochEndingLedgerInfoIter_next iter.

(** The error message of the second check computes [latest_epoch - 1]. *)
Definition get_epoch_ending_ledger_infos_impl (start_epoch end_epoch limit : N)
    : result (list LedgerInfoWithSignatures * bool) :=
  _ ← ensure (start_epoch <=? end_epoch) (Msg "Bad epoch range");
  latest ← LedgerStore.get_latest_ledger_info (adb_ledger_store self);
  let latest_epoch := LedgerInfo.next_block_epoch (lis_ledger_info latest) in
  _ ← (if end_epoch <=? latest_epoch then Ok tt
       else _ ← sub64 latest_epoch 1;
            Err (Msg "Unable to provide epoch change ledger info for still open epoch."));
  p ← (if limit <? end_epoch - start_epoch
       then paging_epoch ← add64 start_epoch limit; Ok (paging_epoch, true)
       else Ok (end_epoch, false));
  let '(paging_epoch, more) := p in
  lis ← collect_epoch_endings start_epoch paging_epoch;
  _ ← ensure (N.of_nat (length lis) =? paging_epoch - start_epoch)
        (Msg "DB corruption: missing epoch ending ledger info for epoch");
  Ok (lis, more).
Definition get_epoch_ending_ledger_infos (start_epoch end_epoch : N)
    : result (list LedgerInfoWithSignatures * bool) :=
  get_epoch_ending_ledger_infos_impl start_epoch end_epoch MAX_NUM_EPOCH_ENDING_LEDGER_INFO.

Definition get_transaction_with_proof (fuel : nat) (version ledger_version : Version) (fetch_events : bool)
    : result TransactionWithProof :=
  _ ← error_if_version_is_pruned (adb_pruner self) version;
  proof ← LedgerStore.get_transaction_info_with_proof (adb_ledger_store self) version ledger_version;
  transaction ← TransactionStore.get_transaction db version;
  events ← (if fetch_events then Some <$> EventStore.get_events_by_version db fuel version else Ok None);
  Ok (mkTransactionWithProof version transaction events proof).

Definition get_account_transaction (fuel : nat) (address : AccountAddress) (seq_num : N)
    (include_events : bool) (ledger_version : Version) : result (option TransactionWithProof) :=
  v ← TransactionStore.get_account_transaction_version db address seq_num ledger_version;
  match v with
  | Some txn_version => Some <$> get_transaction_with_proof fuel txn_version ledger_version include_events
  | None => Ok None
  end.

Definition get_account_transactions (fuel : nat) (address : AccountAddress) (start_seq_num limit : N)
    (include_events : bool) (ledger_version : Version) : result (list TransactionWithProof) :=
  _ ← error_if_too_many_requested limit MAX_LIMIT;
  iter ← TransactionStore.get_account_transaction_version_iter db address start_seq_num limit ledger_version;
  collect_account_versions (fun x => get_transaction_with_proof fuel x.2 ledger_version include_events)
    (N.to_nat limit) iter.

Definition get_transaction_by_hash (fuel : nat) (hash : HashValue) (ledger_version : Version)
    (fetch_events : bool) : result (option TransactionWithProof) :=
  v ← TransactionStore.get_transaction_version_by_hash db hash ledger_version;
  match v with
  | Some v => Some <$> get_transaction_with_proof fuel v ledger_version fetch_events
  | None => Ok None
  end.

Definition get_transactions (fuel : nat) (start_version limit ledger_version : N) (fetch_events : bool)
    : result TransactionListWithProof :=
  _ ← error_if_too_many_requested limit MAX_LIMIT;
  if (ledger_version <? start_version) || (limit =? 0)
  then Ok (mkTransactionListWithProof [] None None empty_info_list)
  else
    _ ← error_if_version_is_pruned (adb_pruner self) start_version;
    available ← add64 (ledger_version - start_version) 1;
    let limit := N.min limit available in
    end_version ← add64 start_version limit;
    let versions := range64 start_version end_version in
    txns ← collect (TransactionStore.get_transaction db) versions;
    txn_infos ← collect (LedgerStore.get_transaction_info (adb_ledger_store self)) versions;
    events ← (if fetch_events
              then Some <$> collect (EventStore.get_events_by_version db fuel) versions
              else Ok None);
    proof ← LedgerStore.get_transaction_range_proof (adb_ledger_store self) (Some start_version) limit
              ledger_version;
    Ok (mkTransactionListWithProof txns events (Some start_version)
          (mkTransactionInfoListWithProof proof txn_infos)).

Definition get_output_at (fuel : nat) (version : Version)
    : result (TransactionInfo * (Transaction * TransactionOutput)) :=
  txn_info ← LedgerStore.get_transaction_info (adb_ledger_store self) version;
  events ← EventStore.get_events_by_version db fuel version;
  write_set ← TransactionStore.get_write_set db version;
  txn ← TransactionStore.get_transaction db version;
  Ok (txn_info, (txn, mkTransactionOutput write_set events (ti_gas_used txn_info) (Keep (ti_status txn_info)))).

Definition get_transaction_outputs (fuel : nat) (start_version limit ledger_version : N)
    : result TransactionOutputListWithProof :=
  _ ← error_if_too_many_requested limit MAX_LIMIT;
  if (ledger_version <? start_version) || (limit =? 0)
  then Ok (mkTransactionOutputListWithProof [] None empty_info_list)
  else
    _ ← error_if_version_is_pruned (adb_pruner self) start_version;
    available ← add64 (ledger_version - start_version) 1;
    let limit := N.min limit available in
    end_version ← add64 start_version limit;
    outputs ← collect (get_output_at fuel) (range64 start_version end_version);
    proof ← LedgerStore.get_transaction_range_proof (adb_ledger_store self) (Some start_version) limit
              ledger_version;
    Ok (mkTransactionOutputListWithProof outputs.*2 (Some start_version)
          (mkTransactionInfoListWithProof proof outputs.*1)).

Definition get_first_txn_version : result (option Version) :=
  match adb_pruner self with
  | Some min_readable_version => Ok min_readable_version
  | None => TransactionStore.get_first_txn_version db
  end.

Definition get_first_write_set_version : result (option Version) :=
  match adb_pruner self with
  | Some min_readable_version => Ok min_readable_version
  | None => TransactionStore.get_first_write_set_version db
  end.

Definition get_write_sets (begin_version end_version : Version) : result (list WriteSet) :=
  _ ← error_if_version_is_pruned (adb_pruner self) begin_version;
  TransactionStore.get_write_sets db begin_version end_version.

Definition get_state_proof_with_ledger_info (known_version : Version)
    (ledger_info_with_sigs : LedgerInfoWithSignatures) : result StateProof :=
  let ledger_info := lis_ledger_info ledger_info_with_sigs in
  _ ← ensure (known_version <=? LedgerInfo.version ledger_info)
        (Msg "Client known_version larger than ledger version.");
  known_epoch ← LedgerStore.get_epoch (adb_ledger_store self) known_version;
  let end_epoch := LedgerInfo.next_block_epoch ledger_info in
  epoch_change_proof ←
    (if known_epoch <? end_epoch
     then r ← get_epoch_ending_ledger_infos known_epoch end_epoch; Ok (mkEpochChangeProof r.1 r.2)
     else Ok (mkEpochChangeProof [] false));
  Ok (mkStateProof ledger_info_with_sigs epoch_change_proof).

Definition get_state_proof (known_version : Version) : result StateProof :=
  ledger_info_with_sigs ← LedgerStore.get_latest_ledger_info (adb_ledger_store self);
  get_state_proof_with_ledger_info known_version ledger_info_with_sigs.

Definition get_latest_epoch_state : result EpochState :=
  latest_ledger_info ← LedgerStore.get_latest_ledger_info (adb_ledger_store self);
  match LedgerInfo.next_epoch_state (lis_ledger_info latest_ledger_info) with
  | Some epoch_state => Ok epoch_state
  | None => LedgerStore.get_epoch_state (adb_ledger_store self)
              (LedgerInfo.epoch (lis_ledger_info latest_ledger_info))
  end.

Definition get_latest_executed_trees : result ExecutedTrees :=
  num_txns ← next_version (sd_current_version (BufferedState.current_state (adb_buffered_state self)));
  frozen_subtrees ← LedgerStore.get_frozen_subtree_hashes (adb_ledger_store self) num_txns;
  transaction_accumulator ← Acc.new frozen_subtrees num_txns;
  ExecutedTrees.new (BufferedState.current_state (adb_buffered_state self)) transaction_accumulator.

Definition get_startup_info : result (option StartupInfo) :=
  info ← LedgerStore.get_startup_info (adb_ledger_store self);
  match info with
  | None => Ok None
  | Some (latest_ledger_info, latest_epoch_state_if_not_in_li, synced_version_opt) =>
      executed_trees ← get_latest_executed_trees;
      let committed_version := LedgerInfo.version (lis_ledger_info latest_ledger_info) in
      match synced_version_opt with
      | None =>
          _ ← assert_ (bool_decide (Some committed_version = ExecutedTrees.version executed_trees));
          Ok (Some (mkStartupInfo latest_ledger_info latest_epoch_state_if_not_in_li executed_trees None))
      | Some _ =>
          num_txns ← add64 committed_version 1;
          frozen_subtrees ← LedgerStore.get_frozen_subtree_hashes (adb_ledger_store self) num_txns;
          transaction_accumulator ← Acc.new frozen_subtrees num_txns;
          let state := et_state executed_trees in
          committed_state ← StateDelta.new (sd_base state) (sd_base_version state) (sd_base state)
                              (sd_base_version state) ∅;
          committed_trees ← ExecutedTrees.new committed_state transaction_accumulator;
          Ok (Some (mkStartupInfo latest_ledger_info latest_epoch_state_if_not_in_li committed_trees
                      (Some executed_trees)))
      end
  end.

Definition get_block_timestamp (version : Version) : result N :=
  m ← TransactionStore.get_block_metadata db version;
  Ok (match m with Some (_, block_meta) => bm_timestamp_usecs block_meta | None => 0 end).

(** *** Events by key *)
Definition read_indexed_event (x : N * Version * N) : result EventWithVersion :=
  let '(seq, ver, idx) := x in
  event ← EventStore.get_event_by_version_and_index db ver idx;
  _ ← ensure (seq =? ce_sequence_number event) (Msg "Index broken, expected seq");
  Ok (mkEventWithVersion ver event).

Definition get_events_by_event_key (event_key : EventKey) (start_seq_num : N) (order : Order)
    (limit : N) (ledger_version : Version) : result (list EventWithVersion) :=
  _ ← error_if_too_many_requested limit MAX_LIMIT;
  cursor ← match order with
           | Descending =>
               if start_seq_num =? u64_max
               then latest ← EventStore.get_latest_sequence_number db ledger_version event_key;
                    Ok (default 0 latest)
               else Ok start_seq_num
           | Ascending => Ok start_seq_num
           end;
  fl ← get_first_seq_num_and_limit order cursor limit;
  let '(first_seq, real_limit) := fl in
  event_indices ← EventStore.lookup_events_by_key db event_key first_seq real_limit ledger_version;
  let event_indices :=
    match order, last event_indices with
    | Descending, Some (seq_num, _, _) => if seq_num <? cursor then [] else event_indices
    | _, _ => event_indices
    end in
  events_with_version ← collect read_indexed_event event_indices;
  Ok (match order with Descending => reverse events_with_version | Ascending => events_with_version end).

Definition get_events (event_key : EventKey) (start : N) (order : Order) (limit : N)
    : result (list EventWithVersion) :=
  latest ← LedgerStore.get_latest_ledger_info (adb_ledger_store self);
  get_events_by_event_key event_key start order limit (LedgerInfo.version (lis_ledger_info latest)).
End reads.

(** ** Saving transactions *)
Section writes.
Context `{LedgerBcs} `{RocksDb D It} `{MerkleHasher} (event_hasher : HashValue -> HashValue -> HashValue).
Context `{Bcs AccessPath} `{Bcs StateValue}.
Context `{CryptoHash TransactionInfo} `{CryptoHash Transaction} `{CryptoHash ContractEvent}.

Definition seal_change_set (self : AptosDB D) (first_version num_txns : N) (cs : ChangeSet)
    : result (SchemaBatch * option LedgerCounters) :=
  if 0 <? num_txns then
    last ← add64 first_version num_txns; last ← sub64 last 1;
    r ← SystemStore.bump_ledger_counters (db self) first_version last cs;
    Ok (cs_batch r.2, Some r.1)
  else Ok (cs_batch cs, None).

Definition save_transactions_impl (self : AptosDB D) (txns_to_commit : list TransactionToCommit)
    (first_version : Version) (cs : ChangeSet) : result (HashValue * ChangeSet) :=
  end_version ← add64 first_version (N.of_nat (length txns_to_commit));
  last_version ← sub64 end_version 1;
  let versioned := zip (range64 first_version (last_version + 1)) txns_to_commit in
  cs ← put_value_sets (ttc_state_updates <$> txns_to_commit) first_version cs;
  cs ← try_fold (fun x cs => r ← EventStore.put_events event_hasher x.1 (ttc_events x.2) cs; Ok r.2)
         versioned cs;
  cs ← try_fold (fun x cs =>
           cs ← TransactionStore.put_transaction x.1 (ttc_transaction x.2) cs;
           TransactionStore.put_write_set x.1 (ttc_write_set x.2) cs) versioned cs;
  LedgerStore.put_transaction_infos (adb_ledger_store self) first_version
    (ttc_transaction_info <$> txns_to_commit) cs.

(** The checks and the writes before the commit. *)
Definition prepare_transactions (self : AptosDB D) (txns_to_commit : list TransactionToCommit)
    (first_version : Version) (ledger_info_with_sigs : option LedgerInfoWithSignatures)
    (latest_in_memory_state : StateDelta) : result (SchemaBatch * option LedgerCounters) :=
  let num_txns := N.of_nat (length txns_to_commit) in
  _ ← ensure (bool_decide (is_Some ledger_info_with_sigs) || (0 <? num_txns))
        (Msg "txns_to_commit is empty while ledger_info_with_sigs is None.");
  end_version ← add64 first_version num_txns;
  last_version ← sub64 end_version 1;
  _ ← match ledger_info_with_sigs with
      | Some x => ensure (LedgerInfo.version (lis_ledger_info x) =? last_version)
                    (Msg "Transaction batch not applicable")
      | None => Ok tt
      end;
  r ← save_transactions_impl self txns_to_commit first_version ChangeSet.new;
  let '(new_root_hash, cs) := r in
  cs ← match ledger_info_with_sigs with
       | Some x =>
           _ ← ensure (new_root_hash =? LedgerInfo.transaction_accumulator_hash (lis_ledger_info x))
                 (Msg "Root hash calculated doesn't match expected.");
           LedgerStore.put_ledger_info x cs
       | None => Ok cs
       end;
  _ ← (if bool_decide (Some last_version = sd_current_version latest_in_memory_state) then Ok tt
       else _ ← expect (sd_current_version latest_in_memory_state);
            Err (Msg "the last_version to commit doesn't match the current_version in latest_in_memory_state"));
  seal_change_set self first_version num_txns cs.

(** The updates of the transactions up to the new checkpoint, and if it ends an epoch. *)
Definition updates_until_checkpoint (txns_to_commit : list TransactionToCommit) (first_version : Version)
    (latest_in_memory_state : StateDelta) : result (option (gmap StateKey StateValue) * bool) :=
  match sd_base_version latest_in_memory_state with
  | None => Ok (None, false)
  | Some latest_checkpoint_version =>
      if first_version <=? latest_checkpoint_version then
        let idx := N.to_nat (latest_checkpoint_version - first_version) in
        txn ← expect (txns_to_commit !! idx);
        _ ← ensure (ttc_is_state_checkpoint txn)
              (Msg "The new latest snapshot version passed in does not match with the last checkpoint version");
        Ok (Some (foldl (fun m t => ttc_state_updates t ∪ m) ∅ (take (S idx) txns_to_commit)),
            ttc_is_reconfig txn)
      else Ok (None, false)
  end.

Definition commit (batch : SchemaBatch) : method (AptosDB D) AnyError unit := fun self =>
  let '(r, db') := DB.write_schemas batch (db self) in
  (r, mkAptosDB (mkLedgerStore db' (ls_latest_ledger_info (adb_ledger_store self)))
        (adb_buffered_state self) (adb_pruner self) (adb_indexer self)).

Definition update_buffered (updates : option (gmap StateKey StateValue)) (state : StateDelta)
    (sync_commit : bool) : method (AptosDB D) AnyError unit := fun self =>
  let '(r, b) := BufferedState.update updates state sync_commit (adb_buffered_state self) in
  (r, mkAptosDB (adb_ledger_store self) b (adb_pruner self) (adb_indexer self)).

Definition set_latest (li : LedgerInfoWithSignatures) (self : AptosDB D) : AptosDB D :=
  mkAptosDB (LedgerStore.set_latest_ledger_info li (adb_ledger_store self))
    (adb_buffered_state self) (adb_pruner self) (adb_indexer self).

(** The counters are set when there are transactions, so that [expect] never fails. *)
Definition save_transactions (txns_to_commit : list TransactionToCommit) (first_version : Version)
    (base_state_version : option Version) (ledger_info_with_sigs : option LedgerInfoWithSignatures)
    (sync_commit : bool) (latest_in_memory_state : StateDelta) : method (AptosDB D) AnyError unit :=
  p ← gets (fun self => prepare_transactions self txns_to_commit first_version ledger_info_with_sigs
                          latest_in_memory_state);
  let '(sealed_cs, counters) := p in
  _ ← commit sealed_cs;
  _ ← gets (fun self =>
        ensure (bool_decide (base_state_version =
                  sd_base_version (BufferedState.current_state (adb_buffered_state self))))
          (Msg "base_state_version does not equal to the base_version in buffered state"));
  u ← lift (updates_until_checkpoint txns_to_commit first_version latest_in_memory_state);
  let '(updates, end_with_reconfig) := u in
  _ ← update_buffered updates latest_in_memory_state (end_with_reconfig || sync_commit);
  _ ← lift (if 0 <? N.of_nat (length txns_to_commit) then _ ← expect counters; Ok tt else Ok tt);
  _ ← match ledger_info_with_sigs with
      | Some x => puts (set_latest x)
      | None => mret tt
      end;
  gets (fun self =>
    match adb_indexer self with
    | Some index => index first_version (ttc_write_set <$> txns_to_commit)
    | None => Ok tt
    end).

(** ** Restoring (backup/restore_utils.rs) *)
Definition save_ledger_infos (ledger_infos : list LedgerInfoWithSignatures) : method (LedgerStore D) AnyError unit :=
  fun self =>
  match _ ← ensure (negb (bool_decide (ledger_infos = []))) (Msg "No LedgerInfos to save.");
        try_fold LedgerStore.put_ledger_info ledger_infos ChangeSet.new with
  | Ok cs =>
      match DB.write_schemas (cs_batch cs) (ls_db self) with
      | (Ok _, db') =>
          let self := mkLedgerStore db' (ls_latest_ledger_info self) in
          match last ledger_infos with
          | None => (Panic, self)
          | Some newest =>
              let keep := match ls_latest_ledger_info self with
                          | Some li => LedgerInfo.epoch (lis_ledger_info newest) <?
                                       LedgerInfo.epoch (lis_ledger_info li)
                          | None => false
                          end in
              (Ok tt, if keep then self else LedgerStore.set_latest_ledger_info newest self)
          end
      | (Err e, db') => (Err e, mkLedgerStore db' (ls_latest_ledger_info self))
      | (Panic, db') => (Panic, mkLedgerStore db' (ls_latest_ledger_info self))
      end
  | Err e => (Err e, self)
  | Panic => (Panic, self)
  end.

(** A frozen root is put in the batch unless the database has it already. *)
Definition confirm_or_put (db : D) (x : Position * HashValue) (batch : SchemaBatch) : result SchemaBatch :=
  stored ← DB.get db TransactionAccumulatorSchema x.1;
  match stored with
  | Some h => _ ← ensure (x.2 =? h) (Msg "Frozen subtree root does not match that already in DB."); Ok batch
  | None => SchemaBatch.put TransactionAccumulatorSchema x.1 x.2 batch
  end.
Definition confirm_or_save_frozen_subtrees (num_leaves : LeafCount) (frozen_subtrees : list HashValue)
    : method D AnyError unit :=
  batch ← gets (fun db =>
    positions ← FrozenSubTreeIterator.collect 65 (FrozenSubTreeIterator.new num_leaves);
    _ ← ensure (bool_decide (length positions = length frozen_subtrees))
          (Msg "Number of frozen subtree roots not expected.");
    try_fold (confirm_or_put db) (zip positions (reverse frozen_subtrees)) SchemaBatch.new);
  DB.write_schemas batch.

Definition restore_transactions (first_version : Version) (txns : list Transaction)
    (txn_infos : list TransactionInfo) (events : list (list ContractEvent)) : method D AnyError unit :=
  cs ← gets (fun db =>
    cs ← try_fold (fun x cs => version ← add64 first_version x.1; TransactionStore.put_transaction version x.2 cs)
           (zip (count_from 0 (length txns)) txns) ChangeSet.new;
    r ← LedgerStore.put_transaction_infos (mkLedgerStore db None) first_version txn_infos cs;
    r ← EventStore.put_events_multiple_versions event_hasher first_version events r.2;
    Ok r.2);
  DB.write_schemas (cs_batch cs).

Definition save_transaction_outputs (first_version : Version) (transaction_outputs : list TransactionOutput)
    : method D AnyError unit :=
  cs ← lift (try_fold (fun output => TransactionStore.put_write_set first_version (tout_write_set output))
               transaction_outputs ChangeSet.new);
  DB.write_schemas (cs_batch cs).

(** [finalize_state_snapshot], up to [state_store.reset()]. *)
Definition finalize_state_snapshot (version : Version) (output_with_proof : TransactionOutputListWithProof)
    : method D AnyError unit :=
  _ ← lift (ensure (bool_decide (length (tol_transactions_and_outputs output_with_proof) = 1%nat))
              (Msg "Number of transaction outputs should == 1"));
  _ ← lift (ensure (bool_decide (length (transaction_infos (tol_proof output_with_proof)) = 1%nat))
              (Msg "Number of transaction infos should == 1"));
  _ ← confirm_or_save_frozen_subtrees version
        (left_siblings (ledger_info_to_transaction_infos_proof (tol_proof output_with_proof)));
  _ ← restore_transactions version (tol_transactions_and_outputs output_with_proof).*1
        (transaction_infos (tol_proof output_with_proof))
        (tout_events <$> (tol_transactions_and_outputs output_with_proof).*2);
  save_transaction_outputs version (tol_transactions_and_outputs output_with_proof).*2.
End writes.
End AptosDB.

(** ** The ledger pruner (pruner/ledger_store/ledger_store_pruner.rs)

    The pruner shares the database; its sub-pruners only add to the batch. *)
Record LedgerPruner : Type := mkLedgerPruner {
  lp_target_version : Version;
  lp_min_readable_version : Version;
}.

Module LedgerPruner.
Definition is_pruning_pending (self : LedgerPruner) : bool := lp_min_readable_version self <? lp_target_version self.
Definition get_currrent_batch_target (max_versions : N) (self : LedgerPruner) : result Version :=
  limit ← add64 (lp_min_readable_version self) max_versions; Ok (N.min limit (lp_target_version self)).
Definition record_progress (min_readable_version : Version) (self : LedgerPruner) : LedgerPruner :=
  mkLedgerPruner (lp_target_version self) min_readable_version.
Definition set_target_version (target_version : Version) (self : LedgerPruner) : LedgerPruner :=
  mkLedgerPruner target_version (lp_min_readable_version self).

Section pruner.
Context `{LedgerBcs} `{RocksDb D It} `{CryptoHash Transaction}.

Definition get_pruning_candidate_transactions (db : D) (start end_ : Version) : result (list Transaction) :=
  n ← sub64 end_ start;
  iter ← TransactionStore.get_transaction_iter db start n;
  collect_bounded TransactionIter_next iter.

(** [TransactionStorePruner::prune] *)
Definition prune_transactions (db : D) (min_readable_version target_version : Version) (db_batch : SchemaBatch)
    : result SchemaBatch :=
  candidate_transactions ← get_pruning_candidate_transactions db min_readable_version target_version;
  db_batch ← TransactionStore.prune_transaction_by_hash candidate_transactions db_batch;
  db_batch ← TransactionStore.prune_transaction_by_account candidate_transactions db_batch;
  db_batch ← TransactionStore.prune_transaction_schema min_readable_version target_version db_batch;
  TransactionStore.prune_transaction_info_schema min_readable_version target_version db_batch.

(** The four sub-pruners, in order. *)
Definition fill (fuel : nat) (db : D) (min_readable_version target_version : Version) : result SchemaBatch :=
  db_batch ← prune_transactions db min_readable_version target_version SchemaBatch.new;
  db_batch ← TransactionStore.prune_write_set min_readable_version target_version db_batch;
  db_batch ← LedgerStore.prune_ledger_counters min_readable_version target_version db_batch;
  EventStore.prune_events db fuel min_readable_version target_version db_batch.

(** The progress is recorded before the batch is written. *)
Definition prune (fuel : nat) (max_versions : N) : method (LedgerPruner * D) AnyError Version := fun '(self, db) =>
  if negb (is_pruning_pending self) then (Ok (lp_min_readable_version self), (self, db))
  else
    match current_target_version ← get_currrent_batch_target max_versions self;
          db_batch ← fill fuel db (lp_min_readable_version self) current_target_version;
          Ok (current_target_version, db_batch)
    with
    | Ok (current_target_version, db_batch) =>
        let '(r, db) := DB.write_schemas db_batch db in
        (_ ← r; Ok current_target_version, (record_progress current_target_version self, db))
    | Err e => (Err e, (self, db))
    | Panic => (Panic, (self, db))
    end.

Definition initialize_min_readable_version (db : D) : result Version :=
  iter ← DB.iter db TransactionSchema;
  r ← SchemaIterator.next TransactionSchema (SchemaIterator.seek_to_first iter);
  Ok (match r.1 with Some (version, _) => version | None => 0 end).
End pruner.
End LedgerPruner.
