(* ===== verification/SchemaLemmas.v ===== *)
(** * Tables in a column family

    The byte order of encoded keys, the rows a table of typed keys and values has, what
    reads, iterators and batches of writes do to such tables, and a database in memory
    that satisfies the laws of RocksDB. *)

From S2P Require Import Prelude Crypto Errors SchemaDb.

(** ** Big-endian bytes *)
Lemma to_be_bytes_S n x : to_be_bytes (S n) x = x / 256 ^ N.of_nat n mod 256 :: to_be_bytes n x.
Proof.
  cbn [to_be_bytes]. f_equal. change 255 with (N.ones 8). rewrite N.land_ones, N.shiftr_div_pow2.
  replace (2 ^ (8 * N.of_nat n)) with (256 ^ N.of_nat n); [done|].
  change 256 with (2 ^ 8). by rewrite <-N.pow_mul_r.
Qed.

Lemma length_to_be_bytes n x : length (to_be_bytes n x) = n.
Proof. induction n as [|n IH]; [done|]. cbn [to_be_bytes length]. by rewrite IH. Qed.

Lemma mod_256_S x n :
  x mod 256 ^ N.of_nat (S n) = (x / 256 ^ N.of_nat n mod 256) * 256 ^ N.of_nat n + x mod 256 ^ N.of_nat n.
Proof.
  rewrite Nat2N.inj_succ, N.pow_succ_r', (N.mul_comm 256).
  assert (256 ^ N.of_nat n <> 0) by (apply N.pow_nonzero; lia). rewrite N.Div0.mod_mul_r. lia.
Qed.

Lemma fold_be_bytes n x a :
  foldl (fun a b => a * 256 + b) a (to_be_bytes n x) = a * 256 ^ N.of_nat n + x mod 256 ^ N.of_nat n.
Proof.
  revert a. induction n as [|n IH]; intros a.
  - change (256 ^ N.of_nat 0) with 1. rewrite N.mod_1_r. simpl. lia.
  - rewrite to_be_bytes_S. cbn [foldl]. rewrite IH, mod_256_S, Nat2N.inj_succ, N.pow_succ_r'. lia.
Qed.

Lemma from_to_be_bytes n x : x < 256 ^ N.of_nat n -> from_be_bytes (to_be_bytes n x) = x.
Proof. intros Hx. unfold from_be_bytes. rewrite fold_be_bytes, N.mod_small by done. lia. Qed.

(** ** The byte order *)
Lemma bytes_le_refl l : bytes_le l l = true.
Proof. induction l as [|x l IH]; [done|]. simpl. rewrite N.eqb_refl, IH. by rewrite orb_true_r. Qed.

Lemma bytes_le_trans l k m : bytes_le l k = true -> bytes_le k m = true -> bytes_le l m = true.
Proof.
  revert k m. induction l as [|x l IH]; [done|]. intros [|y k] [|z m]; simpl; try done.
  rewrite !orb_true_iff, !andb_true_iff, !N.ltb_lt, !N.eqb_eq.
  intros [?|[-> ?]] [?|[-> ?]]; [left; lia|left; lia|left; lia|right; eauto].
Qed.

Lemma bytes_le_total l k : bytes_le l k = true \/ bytes_le k l = true.
Proof.
  revert k. induction l as [|x l IH]; [by left|]. intros [|y k]; [by right|]. simpl.
  rewrite !orb_true_iff, !andb_true_iff, !N.ltb_lt, !N.eqb_eq.
  destruct (N.lt_trichotomy x y) as [?|[->|?]]; [tauto| |tauto]. destruct (IH k); tauto.
Qed.

Lemma bytes_le_antisym l k : bytes_le l k = true -> bytes_le k l = true -> l = k.
Proof.
  revert k. induction l as [|x l IH]; intros [|y k]; simpl; try done.
  rewrite !orb_true_iff, !andb_true_iff, !N.ltb_lt, !N.eqb_eq.
  intros [?|[-> ?]] [?|[? ?]]; try lia. f_equal. eauto.
Qed.

Lemma bytes_lt_iff l k : bytes_lt l k = true <-> bytes_le k l = false.
Proof.
  unfold bytes_lt. rewrite andb_true_iff, negb_true_iff, bool_decide_eq_false.
  destruct (bytes_le k l) eqn:Hk.
  - split; [|done]. intros [Hl Hne]. by destruct Hne; apply bytes_le_antisym.
  - split; [done|]. intros _. destruct (bytes_le_total l k) as [Hl|Hl]; [|congruence].
    split; [done|]. intros ->. congruence.
Qed.

Lemma bytes_le_app l k l' k' :
  length l = length k -> bytes_le (l ++ l') (k ++ k') = bytes_lt l k || bool_decide (l = k) && bytes_le l' k'.
Proof.
  revert k. induction l as [|x l IH]; intros [|y k] Hlen; try done. simpl in Hlen. injection Hlen as Hlen.
  cbn [app bytes_le]. rewrite (IH k Hlen). unfold bytes_lt. cbn [bytes_le].
  destruct (N.ltb_spec x y) as [Hxy|Hxy].
  - rewrite (bool_decide_eq_false_2 (x :: l = y :: k)) by (intros [=]; lia). done.
  - destruct (N.eqb_spec x y) as [->|Hne].
    + rewrite (bool_decide_ext (y :: l = y :: k) (l = k)) by (split; [by intros [=]|by intros ->]). done.
    + rewrite (bool_decide_eq_false_2 (x :: l = y :: k)) by (intros [=]; lia). done.
Qed.

(** Numbers of the same width are ordered as numbers. *)
Lemma be_bytes_le_mod n x y :
  bytes_le (to_be_bytes n x) (to_be_bytes n y) = (x mod 256 ^ N.of_nat n <=? y mod 256 ^ N.of_nat n).
Proof.
  induction n as [|n IH].
  - change (256 ^ N.of_nat 0) with 1. by rewrite !N.mod_1_r.
  - rewrite !to_be_bytes_S. cbn [bytes_le]. rewrite IH, !mod_256_S.
    assert (256 ^ N.of_nat n <> 0) as Hp by (apply N.pow_nonzero; lia).
    pose proof (N.mod_lt x _ Hp). pose proof (N.mod_lt y _ Hp).
    revert Hp H H0. generalize (x / 256 ^ N.of_nat n mod 256), (y / 256 ^ N.of_nat n mod 256).
    generalize (x mod 256 ^ N.of_nat n), (y mod 256 ^ N.of_nat n). generalize (256 ^ N.of_nat n).
    intros p r s a b Hp Hr Hs. apply eq_iff_eq_true.
    rewrite orb_true_iff, andb_true_iff, N.ltb_lt, N.eqb_eq, !N.leb_le. split.
    + intros [?|[-> ?]]; [|lia]. assert ((a + 1) * p <= b * p) by (apply N.mul_le_mono_r; lia). lia.
    + intros ?. destruct (N.lt_trichotomy a b) as [?|[->|?]]; [by left|right; lia|].
      assert ((b + 1) * p <= a * p) by (apply N.mul_le_mono_r; lia). lia.
Qed.

Lemma be_bytes_le n x y :
  x < 256 ^ N.of_nat n -> y < 256 ^ N.of_nat n ->
  bytes_le (to_be_bytes n x) (to_be_bytes n y) = (x <=? y).
Proof. intros Hx Hy. by rewrite be_bytes_le_mod, !N.mod_small. Qed.

(** ** Tables *)
Section tables.
Context {K V : Type} `{Countable K} (S : Schema K V).

Definition key_row (k : K) (b : bytes) : Prop := encode_key S k = Ok b /\ decode_key S b = Ok k.
Definition value_row (v : V) (w : bytes) : Prop := encode_value S v = Ok w /\ decode_value S w = Ok v.
Definition key_ok (k : K) : Prop := exists b, key_row k b.
Definition value_ok (v : V) : Prop := exists w, value_row v w.

(** The rows are the encodings of the entries of a map. *)
Definition table (rows : Rows) (m : gmap K V) : Prop :=
  (forall k v, m !! k = Some v -> exists b w, key_row k b /\ value_row v w /\ rows !! b = Some w) /\
  (forall b w, rows !! b = Some w -> exists k v, m !! k = Some v /\ key_row k b /\ value_row v w).

Lemma table_empty : table ∅ ∅.
Proof. split; set_solver. Qed.

Lemma table_lookup rows m k b :
  table rows m -> key_row k b ->
  match m !! k with
  | Some v => exists w, rows !! b = Some w /\ value_row v w
  | None => rows !! b = None
  end.
Proof.
  intros [Hm Hr] [He Hd]. destruct (m !! k) as [v|] eqn:Hk.
  - destruct (Hm k v Hk) as (b' & w & [He' _] & Hv & Hb). assert (b' = b) as -> by congruence. by exists w.
  - destruct (rows !! b) as [w|] eqn:Hb; [|done]. destruct (Hr b w Hb) as (k' & v & Hk' & [_ Hd'] & _). congruence.
Qed.

Lemma table_insert rows m k v b w :
  table rows m -> key_row k b -> value_row v w -> table (<[b:=w]> rows) (<[k:=v]> m).
Proof.
  intros [Hm Hr] [He Hd] Hv. split.
  - intros k' v' Hk'. destruct (decide (k' = k)) as [->|Hne].
    + rewrite lookup_insert_eq in Hk'. injection Hk' as <-. exists b, w. by rewrite lookup_insert_eq.
    + rewrite lookup_insert_ne in Hk' by done. destruct (Hm k' v' Hk') as (b' & w' & [He' Hd'] & Hv' & Hb').
      exists b', w'. rewrite lookup_insert_ne by congruence. done.
  - intros b' w' Hb'. destruct (decide (b' = b)) as [->|Hne].
    + rewrite lookup_insert_eq in Hb'. injection Hb' as <-. exists k, v. by rewrite lookup_insert_eq.
    + rewrite lookup_insert_ne in Hb' by done. destruct (Hr b' w' Hb') as (k' & v' & Hk' & [He' Hd'] & Hv').
      exists k', v'. rewrite lookup_insert_ne by congruence. done.
Qed.

Definition insert_all (l : list (K * V)) (m : gmap K V) : gmap K V :=
  foldl (fun m kv => <[kv.1:=kv.2]> m) m l.

(** Writing entries of [f] where [m] differs from it gives [f]. *)
Lemma insert_all_spec (f : K -> option V) l m :
  (forall k v, (k, v) ∈ l -> f k = Some v) -> (forall k, k ∉ l.*1 -> m !! k = f k) ->
  forall k, insert_all l m !! k = f k.
Proof.
  revert m. induction l as [|[k' v'] l IH]; intros m Hin Hout k; [by apply Hout, not_elem_of_nil|].
  cbn. apply (IH (<[k':=v']> m)).
  - intros k0 v0 Hk0. apply Hin. by right.
  - intros k0 Hk0. destruct (decide (k0 = k')) as [->|Hne].
    + rewrite lookup_insert_eq. symmetry. apply Hin. left.
    + rewrite lookup_insert_ne by done. apply Hout. cbn. by apply not_elem_of_cons.
Qed.

(** ** Reads *)
Context `{RocksDbLaws D It}.
Abbreviation cf := (COLUMN_FAMILY_NAME S).

Lemma db_get_Ok (d : D) m k b o :
  table (db_rows d cf) m -> key_row k b -> DB.get d S k = Ok o -> o = m !! k.
Proof.
  intros Ht Hk Hg. pose proof (table_lookup _ _ _ _ Ht Hk) as Hl. unfold DB.get in Hg.
  rewrite (proj1 Hk) in Hg. cbn [mbind outcome_bind] in Hg. run_ok.
  match goal with He : get_cf _ _ _ = Ok _ |- _ => apply get_cf_rows in He; subst end.
  destruct (m !! k) as [v|].
  - destruct Hl as (w & Hw & _ & Hd). rewrite Hw, Hd in Hg. cbn in Hg. by injection Hg as <-.
  - rewrite Hl in Hg. by injection Hg as <-.
Qed.

Lemma db_get_total `{!RocksDbReliable D It} (d : D) m k b :
  cf_handle d cf = true -> table (db_rows d cf) m -> key_row k b -> DB.get d S k = Ok (m !! k).
Proof.
  intros Hcf Ht Hk. pose proof (table_lookup _ _ _ _ Ht Hk) as Hl. unfold DB.get, DB.get_cf_handle.
  rewrite (proj1 Hk), Hcf. cbn [ensure mbind outcome_bind]. destruct (get_cf_reliable d cf b) as [o Ho].
  rewrite Ho. apply get_cf_rows in Ho as ->. cbn [mbind outcome_bind]. destruct (m !! k) as [v|].
  - destruct Hl as (w & -> & _ & Hd). by rewrite Hd.
  - by rewrite Hl.
Qed.
End tables.

(** ** Iterators

    [rank] numbers the keys in the order of their encodings. *)
Definition ordered {K V} (S : Schema K V) (rank : K -> N) : Prop :=
  forall k k' b b', key_row S k b -> key_row S k' b' -> bytes_le b b' = (rank k <=? rank k').

Section iterators.
Context {K V : Type} `{Countable K} (S : Schema K V) (rank : K -> N) (Hrank : ordered S rank).
Context `{RocksDbLaws D It}.
Abbreviation cf := (COLUMN_FAMILY_NAME S).

(** The first entry from rank [c] on, and the last one up to rank [c]. *)
Definition first_from (m : gmap K V) (c : N) (o : option K) : Prop :=
  match o with
  | Some k => is_Some (m !! k) /\ c <= rank k /\ forall k', is_Some (m !! k') -> c <= rank k' -> rank k <= rank k'
  | None => forall k', is_Some (m !! k') -> rank k' < c
  end.
Definition last_upto (m : gmap K V) (P : N -> Prop) (o : option K) : Prop :=
  match o with
  | Some k => is_Some (m !! k) /\ P (rank k) /\ forall k', is_Some (m !! k') -> P (rank k') -> rank k' <= rank k
  | None => forall k', is_Some (m !! k') -> ~ P (rank k')
  end.

Definition pos_is (p : option bytes) (o : option K) : Prop :=
  match p, o with
  | Some b, Some k => key_row S k b
  | None, None => True
  | _, _ => False
  end.

Lemma least_first rows m (P : bytes -> Prop) c p :
  table S rows m -> (forall k b, key_row S k b -> P b <-> c <= rank k) -> least_key rows P p ->
  exists o, pos_is p o /\ first_from m c o.
Proof.
  intros [Hm Hr] HP Hl. destruct p as [b|]; cbn in Hl.
  - destruct Hl as ([w Hw] & Hb & Hle). destruct (Hr b w Hw) as (k & v & Hk & Hkb & _).
    exists (Some k). split; [done|]. split_and!; [by eexists|by apply (HP k b)|].
    intros k' [v' Hk'] Hc. destruct (Hm k' v' Hk') as (b' & w' & Hkb' & _ & Hw').
    apply N.leb_le. rewrite <-(Hrank k k' b b') by done. apply Is_true_true, Hle; [by eexists|by apply (HP k')].
  - exists None. split; [done|]. intros k' [v' Hk']. destruct (Hm k' v' Hk') as (b' & w' & Hkb' & _ & Hw').
    apply N.nle_gt. intros Hc. apply (Hl b'); [by eexists|by apply (HP k')].
Qed.

Lemma greatest_last rows m (P : bytes -> Prop) (Q : N -> Prop) p :
  table S rows m -> (forall k b, key_row S k b -> P b <-> Q (rank k)) -> greatest_key rows P p ->
  exists o, pos_is p o /\ last_upto m Q o.
Proof.
  intros [Hm Hr] HP Hl. destruct p as [b|]; cbn in Hl.
  - destruct Hl as ([w Hw] & Hb & Hle). destruct (Hr b w Hw) as (k & v & Hk & Hkb & _).
    exists (Some k). split; [done|]. split_and!; [by eexists|by apply (HP k b)|].
    intros k' [v' Hk'] Hc. destruct (Hm k' v' Hk') as (b' & w' & Hkb' & _ & Hw').
    apply N.leb_le. rewrite <-(Hrank k' k b' b) by done. apply Is_true_true, Hle; [by eexists|by apply (HP k')].
  - exists None. split; [done|]. intros k' [v' Hk'] Hc. destruct (Hm k' v' Hk') as (b' & w' & Hkb' & _ & Hw').
    apply (Hl b'); [by eexists|by apply (HP k')].
Qed.

Definition at_from (iter : SchemaIterator It) (m : gmap K V) (c : N) : Prop :=
  table S (it_rows (db_iter iter)) m /\ si_direction iter = Forward /\
  exists o, pos_is (it_pos (db_iter iter)) o /\ first_from m c o.

Lemma next_Ok iter m o k :
  table S (it_rows (db_iter iter)) m -> pos_is (it_pos (db_iter iter)) k ->
  SchemaIterator.next S iter = Ok o ->
  match k with
  | None => o = (None, iter)
  | Some k => exists v, m !! k = Some v /\ o.1 = Some (k, v) /\
      o.2 = mkSchemaIterator (match si_direction iter with
                              | Forward => it_next (db_iter iter)
                              | Backward => it_prev (db_iter iter) end) (si_direction iter)
  end.
Proof.
  intros [_ Hr] Hp Hn. unfold SchemaIterator.next in Hn. unfold pos_is in Hp.
  destruct (it_valid (db_iter iter)) eqn:Hv; cbn [negb] in Hn.
  - destruct (valid_pos _ Hv) as (b & w & Hb & Hkey & Hval & Hw). rewrite Hb in Hp. destruct k as [k|]; [|done].
    destruct (Hr b w Hw) as (k' & v' & Hm & [_ Hd'] & [_ Hv']).
    destruct Hp as [_ Hd]. assert (k' = k) as -> by congruence. exists v'.
    rewrite Hkey, Hval in Hn. cbn [expect mbind outcome_bind] in Hn. rewrite Hd' in Hn. cbn [mbind outcome_bind] in Hn.
    rewrite Hv' in Hn. cbn [mbind outcome_bind] in Hn. by injection Hn as <-.
  - apply bind_Ok in Hn as ([] & Hs & Hn). injection Hn as <-. rewrite invalid_pos in Hp by done. by destruct k.
Qed.

Lemma next_total `{!RocksDbReliable D It} iter m k :
  table S (it_rows (db_iter iter)) m -> pos_is (it_pos (db_iter iter)) k ->
  exists o, SchemaIterator.next S iter = Ok o.
Proof.
  intros [_ Hr] Hp. unfold SchemaIterator.next, pos_is in *.
  destruct (it_valid (db_iter iter)) eqn:Hv; cbn [negb].
  - destruct (valid_pos _ Hv) as (b & w & Hb & Hkey & Hval & Hw). rewrite Hb in Hp. destruct k as [k|]; [|done].
    destruct (Hr b w Hw) as (k' & v' & _ & [_ Hd] & [_ Hd']). rewrite Hkey, Hval. cbn [expect mbind outcome_bind].
    rewrite Hd. cbn [mbind outcome_bind]. rewrite Hd'. cbn. eauto.
  - rewrite iterator_reliable by done. cbn. eauto.
Qed.

(** An iterator that has been moved to the first entry from rank [c] on. *)
Lemma at_from_seek (d : D) m iter key c :
  table S (db_rows d cf) m -> (forall k b, key_row S k b -> bytes_le key b <-> c <= rank k) ->
  DB.iter d S = Ok iter -> at_from (SchemaIterator.seek_raw key iter) m c.
Proof.
  intros Ht Hc Hi. unfold DB.iter, DB.iter_with_direction in Hi. apply bind_Ok in Hi as ([] & _ & [= <-]).
  pose proof (moves_keep_rows (raw_iterator_cf_opt d cf) key) as (_ & _ & Hrows & _).
  rewrite <-(iterator_rows d cf) in Ht. split_and!; [cbn; by rewrite Hrows|done|].
  eapply least_first; [apply Ht|apply Hc|apply seek_pos].
Qed.

Lemma at_from_next iter m c r :
  at_from iter m c -> SchemaIterator.next S iter = Ok r ->
  match r.1 with
  | Some (k, v) => m !! k = Some v /\ first_from m c (Some k) /\ at_from r.2 m (rank k + 1)
  | None => first_from m c None
  end.
Proof.
  intros (Ht & Hd & o & Hp & Hf) Hn. pose proof (next_Ok _ _ _ _ Ht Hp Hn) as Hr. destruct o as [k|].
  - destruct Hr as (v & Hk & Hr1 & Hr2). rewrite Hr1. split_and!; [done|done|]. rewrite Hr2, Hd.
    destruct (it_pos (db_iter iter)) as [b|] eqn:Hb; [|done].
    pose proof (moves_keep_rows (db_iter iter) b) as (_ & _ & _ & _ & Hrows & _).
    split_and!; [cbn; by rewrite Hrows|done|]. cbn [db_iter].
    eapply least_first; [exact Ht| |by apply next_pos].
    intros k' b' Hkb'. rewrite Is_true_true, bytes_lt_iff, (Hrank k' k b' b), N.leb_gt by done. lia.
  - by subst r.
Qed.

Lemma at_from_total `{!RocksDbReliable D It} iter m c :
  at_from iter m c -> exists r, SchemaIterator.next S iter = Ok r.
Proof. intros (Ht & _ & o & Hp & _). by eapply next_total. Qed.

(** The entry an iterator returns after [seek_to_last] or [seek_for_prev]. *)
Lemma last_next (d : D) m iter (Q : N -> Prop) (move : It -> It) :
  table S (db_rows d cf) m -> DB.iter d S = Ok iter ->
  it_rows (move (db_iter iter)) = it_rows (db_iter iter) ->
  (exists P, (forall k b, key_row S k b -> P b <-> Q (rank k)) /\
     greatest_key (it_rows (db_iter iter)) P (it_pos (move (db_iter iter)))) ->
  let next := SchemaIterator.next S (mkSchemaIterator (move (db_iter iter)) (si_direction iter)) in
  (forall r, next = Ok r ->
     match r.1 with
     | Some (k, v) => m !! k = Some v /\ last_upto m Q (Some k)
     | None => last_upto m Q None
     end) /\
  (RocksDbReliable D It -> exists r, next = Ok r).
Proof.
  intros Ht Hi Hrows (P & HP & Hg) next. subst next. unfold DB.iter, DB.iter_with_direction in Hi.
  apply bind_Ok in Hi as ([] & _ & [= <-]). cbn [db_iter si_direction] in *.
  rewrite <-(iterator_rows d cf) in Ht. destruct (greatest_last _ _ _ _ _ Ht HP Hg) as (o & Hp & Hl).
  rewrite <-Hrows in Ht. split; [|intros Hrel; by eapply next_total].
  intros r Hn. pose proof (next_Ok (mkSchemaIterator _ _) _ _ _ Ht Hp Hn) as Hr. destruct o as [k|].
  - destruct Hr as (v & Hk & -> & _). done.
  - by subst r.
Qed.
End iterators.

(** ** Batches *)

(** A write to its own family. *)
Definition apply_op (rows : Rows) (op : WriteOp) : Rows :=
  match op with
  | Value k v => <[k:=v]> rows
  | Deletion k => delete k rows
  | DeletionRange b e => filter (fun kv => ~ (bytes_le b kv.1 && bytes_lt kv.1 e)) rows
  | DeletionRangeInclusive b e => delete e (filter (fun kv => ~ (bytes_le b kv.1 && bytes_lt kv.1 e)) rows)
  end.
Definition batch_ops (batch : SchemaBatch) (cf : ColumnFamilyName) : list WriteOp :=
  default [] (sb_rows batch !! cf).

Lemma raw_writes_app ops ops' R cf : raw_writes (ops ++ ops') R cf = raw_writes ops' (raw_writes ops R) cf.
Proof. unfold raw_writes. by rewrite foldl_app. Qed.

Lemma raw_writes_ext ops R R' cf : R cf = R' cf -> raw_writes ops R cf = raw_writes ops R' cf.
Proof.
  revert R R'. induction ops as [|op ops IH]; intros R R' He; [done|]. cbn. apply IH.
  unfold raw_write. destruct op; by rewrite He.
Qed.

Lemma raw_ops_rows c ops R cf :
  raw_writes (ops ≫= DB.raw_ops c) R cf = if bool_decide (c = cf) then foldl apply_op (R cf) ops else R cf.
Proof.
  revert R. induction ops as [|op ops IH]; intros R; [by case_bool_decide|].
  cbn [mbind list_bind]. rewrite raw_writes_app, IH. destruct (bool_decide_reflect (c = cf)) as [->|Hne].
  - cbn [foldl]. f_equal. destruct op; cbn; by rewrite bool_decide_true.
  - destruct op; cbn; by rewrite ?(bool_decide_false (c = cf)).
Qed.

Section write_batches.
Context `{RocksDbLaws D It}.

Lemma fill_batch_rows (d : D) l ops R cf :
  NoDup l.*1 -> DB.fill_batch d l = Ok ops ->
  raw_writes ops R cf = foldl apply_op (R cf) (default [] ((list_to_map l : gmap string (list WriteOp)) !! cf)).
Proof.
  revert ops R. induction l as [|[c o] l IH]; intros ops R Hnd Hf; [by injection Hf as <-|].
  cbn in Hnd. apply NoDup_cons in Hnd as [Hc Hnd]. cbn in Hf. run_ok. simplify_eq.
  rewrite raw_writes_app. cbn [list_to_map foldr fst snd uncurry].
  match goal with Hi : DB.fill_batch d l = Ok ?x |- _ => rewrite (IH x _ Hnd Hi) end.
  rewrite raw_ops_rows. case_bool_decide as He.
  - subst c. rewrite lookup_insert_eq. cbn [default].
    rewrite (not_elem_of_list_to_map_1 l cf) by done. done.
  - by rewrite lookup_insert_ne.
Qed.

(** The batch is applied to every family, or to none. *)
Lemma write_schemas_rows batch (d d' : D) r :
  DB.write_schemas batch d = (r, d') ->
  (forall cf, cf_handle d' cf = cf_handle d cf) /\
  ((forall cf, db_rows d' cf = db_rows d cf) \/
   (forall cf, db_rows d' cf = foldl apply_op (db_rows d cf) (batch_ops batch cf))) /\
  (r = Ok tt -> forall cf, db_rows d' cf = foldl apply_op (db_rows d cf) (batch_ops batch cf)).
Proof.
  unfold DB.write_schemas. intros [(ops & Hf & Hw)|[-> Hne]]%gets_bind_inv.
  - assert (forall cf, raw_writes ops (db_rows d) cf = foldl apply_op (db_rows d cf) (batch_ops batch cf)) as Hops.
    { intros cf. rewrite (fill_batch_rows d _ _ _ _ (NoDup_fst_map_to_list _) Hf), list_to_map_to_list. done. }
    split_and!; [intros cf; by eapply write_cf| |].
    + destruct (write_atomic _ _ _ _ Hw) as [Hs|Hs]; [by left|right]. intros cf. by rewrite Hs, Hops.
    + intros ->. intros cf. by rewrite (write_applied _ _ _ _ Hw), Hops.
  - split_and!; [done|by left|]. intros ->. by destruct (Hne tt).
Qed.

Lemma fill_batch_total (d : D) l : (forall c, c ∈ l.*1 -> cf_handle d c = true) -> exists ops, DB.fill_batch d l = Ok ops.
Proof.
  induction l as [|[c o] l IH]; intros Hc; [by eexists|]. cbn. unfold DB.get_cf_handle.
  rewrite (Hc c) by (cbn; left). cbn [ensure mbind outcome_bind].
  destruct IH as [ops ->]; [intros c' Hc'; apply Hc; by right|]. by eexists.
Qed.

Lemma write_schemas_total `{!RocksDbReliable D It} batch (d : D) :
  (forall cf, is_Some (sb_rows batch !! cf) -> cf_handle d cf = true) ->
  (DB.write_schemas batch d).1 = Ok tt.
Proof.
  intros Hcf. unfold DB.write_schemas, gets, mbind, method_bind.
  destruct (fill_batch_total d (map_to_list (sb_rows batch))) as [ops ->].
  { intros c [[c' o] [-> Hin]]%list_elem_of_fmap. apply elem_of_map_to_list in Hin. apply Hcf. by eexists. }
  apply write_reliable.
Qed.
End write_batches.

(** ** What a change set writes to a table *)
Definition encodes {K V} (S : Schema K V) (kv : K * V) (op : WriteOp) : Prop :=
  exists b w, encode_key S kv.1 = Ok b /\ encode_value S kv.2 = Ok w /\ op = Value b w.
Definition writes {K V} (S : Schema K V) (batch batch' : SchemaBatch) (l : list (K * V)) : Prop :=
  exists ops, Forall2 (encodes S) l ops /\
    batch_ops batch' (COLUMN_FAMILY_NAME S) = batch_ops batch (COLUMN_FAMILY_NAME S) ++ ops.

Section writes.
Context {K V : Type} (S : Schema K V).

Lemma writes_refl batch : writes S batch batch [].
Proof. exists []. by rewrite app_nil_r. Qed.

Lemma writes_trans b1 b2 b3 l l' : writes S b1 b2 l -> writes S b2 b3 l' -> writes S b1 b3 (l ++ l').
Proof.
  intros (ops & Hl & Hb) (ops' & Hl' & Hb'). exists (ops ++ ops'). split; [by apply Forall2_app|].
  by rewrite Hb', Hb, app_assoc.
Qed.

Lemma writes_put k v batch batch' : SchemaBatch.put S k v batch = Ok batch' -> writes S batch batch' [(k, v)].
Proof.
  unfold SchemaBatch.put. intros Hp. run_ok. simplify_eq. eexists. split.
  - constructor; [by do 2 eexists|constructor].
  - unfold batch_ops, SchemaBatch.push. cbn [sb_rows]. by rewrite lookup_insert_eq.
Qed.

Lemma writes_other {K' V'} (S' : Schema K' V') k v batch batch' :
  COLUMN_FAMILY_NAME S' <> COLUMN_FAMILY_NAME S ->
  SchemaBatch.put S' k v batch = Ok batch' -> writes S batch batch' [].
Proof.
  unfold SchemaBatch.put. intros Hne Hp. run_ok. simplify_eq. exists []. split; [done|].
  unfold batch_ops, SchemaBatch.push. cbn [sb_rows]. by rewrite lookup_insert_ne, app_nil_r.
Qed.

(** A loop that writes [g a] for every [a]. *)
Lemma writes_fold {A T} (f : A -> T -> result T) (proj : T -> SchemaBatch) (g : A -> list (K * V)) (xs : list A) s s' :
  (forall a s s', a ∈ xs -> f a s = Ok s' -> writes S (proj s) (proj s') (g a)) ->
  try_fold f xs s = Ok s' -> writes S (proj s) (proj s') (concat (g <$> xs)).
Proof.
  revert s. induction xs as [|a xs IH]; intros s Hf Hr.
  - injection Hr as <-. apply writes_refl.
  - cbn in Hr. apply bind_Ok in Hr as (s1 & H1 & Hr). cbn. eapply writes_trans; [apply (Hf a); [left|done]|].
    apply IH; [|done]. intros a' t t' Ha'. apply Hf. by right.
Qed.

Definition key_round (k : K) : Prop := forall b, encode_key S k = Ok b -> decode_key S b = Ok k.
Definition value_round (v : V) : Prop := forall w, encode_value S v = Ok w -> decode_value S w = Ok v.

Lemma writes_table `{Countable K} batch batch' l rows m :
  writes S batch batch' l -> Forall (fun kv => key_round kv.1 /\ value_round kv.2) l ->
  table S (foldl apply_op rows (batch_ops batch (COLUMN_FAMILY_NAME S))) m ->
  table S (foldl apply_op rows (batch_ops batch' (COLUMN_FAMILY_NAME S))) (insert_all l m).
Proof.
  intros (ops & Hl & ->) Hok Ht. rewrite foldl_app. revert m Ht.
  generalize (foldl apply_op rows (batch_ops batch (COLUMN_FAMILY_NAME S))). clear rows.
  induction Hl as [|[k v] op l ops (b & w & Hk & Hv & ->) _ IH]; intros rows m Ht; [done|].
  apply Forall_cons in Hok as [[Hkr Hvr] Hok]. cbn [foldl apply_op insert_all fst snd] in *.
  apply (IH Hok), table_insert; [done|split; [done|by apply Hkr]|split; [done|by apply Hvr]].
Qed.

End writes.

(** ** What a batch deletes from a table *)
Definition deletes {K V} (S : Schema K V) (k : K) (op : WriteOp) : Prop := exists b, encode_key S k = Ok b /\ op = Deletion b.
Definition removes {K V} (S : Schema K V) (batch batch' : SchemaBatch) (ks : list K) : Prop :=
  exists ops, Forall2 (deletes S) ks ops /\
    batch_ops batch' (COLUMN_FAMILY_NAME S) = batch_ops batch (COLUMN_FAMILY_NAME S) ++ ops.
(** Nothing is added outside the named families. *)
Definition confined (names : list string) (batch batch' : SchemaBatch) : Prop :=
  forall cf, cf ∉ names -> batch_ops batch' cf = batch_ops batch cf.

Lemma confined_trans names b1 b2 b3 : confined names b1 b2 -> confined names b2 b3 -> confined names b1 b3.
Proof. intros H1 H2 cf Hcf. by rewrite H2, H1. Qed.
Lemma confined_sub names names' b b' : names ⊆ names' -> confined names b b' -> confined names' b b'.
Proof. intros Hsub Ho cf Hcf. apply Ho. set_solver. Qed.
Lemma confined_fold {A} (f : A -> SchemaBatch -> result SchemaBatch) names xs b b' :
  (forall a b b', f a b = Ok b' -> confined names b b') -> try_fold f xs b = Ok b' -> confined names b b'.
Proof.
  intros Hf. revert b. induction xs as [|a xs IH]; intros b Hr; cbn in Hr; [by injection Hr as <-|].
  apply bind_Ok in Hr as (b1 & H1 & Hr). eapply confined_trans; [by eapply Hf|by apply IH].
Qed.

Section removes.
Context {K V : Type} (S : Schema K V).

Lemma delete_confined k batch batch' :
  SchemaBatch.delete S k batch = Ok batch' -> confined [COLUMN_FAMILY_NAME S] batch batch'.
Proof.
  unfold SchemaBatch.delete. intros Hp cf Hcf. run_ok. simplify_eq. unfold batch_ops, SchemaBatch.push. cbn [sb_rows].
  rewrite lookup_insert_ne; [done|]. intros <-. apply Hcf. left.
Qed.

Lemma removes_refl batch : removes S batch batch [].
Proof. exists []. by rewrite app_nil_r. Qed.
Lemma removes_trans b1 b2 b3 l l' : removes S b1 b2 l -> removes S b2 b3 l' -> removes S b1 b3 (l ++ l').
Proof.
  intros (ops & Hl & Hb) (ops' & Hl' & Hb'). exists (ops ++ ops'). split; [by apply Forall2_app|].
  by rewrite Hb', Hb, app_assoc.
Qed.
Lemma removes_confined names batch batch' :
  confined names batch batch' -> COLUMN_FAMILY_NAME S ∉ names -> removes S batch batch' [].
Proof. intros Ho Hn. exists []. rewrite app_nil_r. split; [done|by apply Ho]. Qed.
Lemma removes_delete k batch batch' : SchemaBatch.delete S k batch = Ok batch' -> removes S batch batch' [k].
Proof.
  unfold SchemaBatch.delete. intros Hp. run_ok. simplify_eq. eexists. split.
  - constructor; [by eexists|constructor].
  - unfold batch_ops, SchemaBatch.push. cbn [sb_rows]. by rewrite lookup_insert_eq.
Qed.
Lemma removes_fold {A} (f : A -> SchemaBatch -> result SchemaBatch) (g : A -> list K) xs b b' :
  (forall a b b', f a b = Ok b' -> removes S b b' (g a)) ->
  try_fold f xs b = Ok b' -> removes S b b' (concat (g <$> xs)).
Proof.
  intros Hf. revert b. induction xs as [|a xs IH]; intros b Hr; [injection Hr as <-; apply removes_refl|].
  cbn in Hr. apply bind_Ok in Hr as (b1 & H1 & Hr). cbn. eapply removes_trans; [by apply (Hf a)|by apply IH].
Qed.

Lemma table_delete `{Countable K} rows m k b :
  table S rows m -> encode_key S k = Ok b -> key_round S k -> table S (delete b rows) (delete k m).
Proof.
  intros [Hm Hr] He Hk. apply Hk in He as Hd. split.
  - intros k' v [Hne Hk']%lookup_delete_Some. destruct (Hm k' v Hk') as (b' & w & Hkb & Hv & Hb).
    exists b', w. rewrite lookup_delete_ne; [done|]. intros <-. destruct Hkb. congruence.
  - intros b' w [Hne Hb']%lookup_delete_Some. destruct (Hr b' w Hb') as (k' & v & Hk' & Hkb & Hv).
    exists k', v. rewrite lookup_delete_ne; [done|]. intros <-. destruct Hkb. congruence.
Qed.

Lemma removes_table `{Countable K} batch batch' ks rows m :
  removes S batch batch' ks -> Forall (key_round S) ks ->
  table S (foldl apply_op rows (batch_ops batch (COLUMN_FAMILY_NAME S))) m ->
  exists m', table S (foldl apply_op rows (batch_ops batch' (COLUMN_FAMILY_NAME S))) m' /\
    forall k, m' !! k = if bool_decide (k ∈ ks) then None else m !! k.
Proof.
  intros (ops & Hl & ->) Hok Ht. rewrite foldl_app. revert m Ht.
  generalize (foldl apply_op rows (batch_ops batch (COLUMN_FAMILY_NAME S))). clear rows.
  induction Hl as [|k op l ops (b & Hk & ->) _ IH]; intros rows m Ht; [by exists m|].
  apply Forall_cons in Hok as [Hkr Hok]. cbn [foldl apply_op].
  destruct (IH Hok (delete b rows) (delete k m)) as (m' & Ht' & Hm');
    [by apply table_delete|].
  exists m'. split; [done|]. intros k'. rewrite Hm'. destruct (decide (k' = k)) as [->|Hne].
  - rewrite lookup_delete_eq, (bool_decide_true (k ∈ k :: l)) by left. by case_bool_decide.
  - rewrite lookup_delete_ne, (bool_decide_ext (k' ∈ k :: l) (k' ∈ l)); [done|set_solver|done].
Qed.
End removes.
