(* ===== verification/LedgerDbLemmas.v ===== *)
(** * The ledger in the database

    The codecs of the ledger's tables, the abstract ledger a database holds, and what
    the stores read from and write to its tables. *)

From S2P Require Import Prelude Crypto Errors Position PositionLemmas Accumulator AccumulatorLemmas Verifier Ledger ConsensusTypes Blocks TransactionProofs AccumulatorStore AccumulatorStoreLemmas SchemaDb LedgerSchemas LedgerDb TransactionStore EventStore StateStore AptosDb SchemaLemmas.

(** ** Codecs *)

(** BCS decodes what it encoded. *)
Class BcsLaws (A : Type) `{Bcs A} : Prop := bcs_round a b : bcs_to_bytes a = Ok b -> bcs_from_bytes b = Ok a.
Class LedgerBcsLaws `{LedgerBcs} : Prop := {
  transaction_laws :: BcsLaws Transaction;
  transaction_info_laws :: BcsLaws TransactionInfo;
  ledger_info_laws :: BcsLaws LedgerInfoWithSignatures;
  event_laws :: BcsLaws ContractEvent;
  write_set_laws : @BcsLaws WriteSet bcs_write_set;
}.

(** Hashes are 32 bytes. *)
Class HashWidth `{MerkleHasher} `{CryptoHash TransactionInfo} : Prop := {
  node_width a b : hash_internal a b < 2 ^ 256;
  info_width i : hash i < 2 ^ 256;
}.

Lemma u64_pow : 256 ^ N.of_nat 8 = 2 ^ 64.
Proof. done. Qed.

Lemma u64_codec k :
  k <= u64_max -> encode_u64 k = Ok (to_be_bytes 8 k) /\ decode_u64 (to_be_bytes 8 k) = Ok k.
Proof.
  intros Hk. split; [done|]. unfold decode_u64, ensure_slice_len_eq. rewrite length_to_be_bytes.
  rewrite bool_decide_true by done. cbn [ensure mbind outcome_bind]. rewrite from_to_be_bytes; [done|].
  rewrite u64_pow. unfold u64_max in Hk. lia.
Qed.

Lemma u64_codec_inv k b : encode_u64 k = Ok b -> decode_u64 b = Ok k -> b = to_be_bytes 8 k /\ k < 2 ^ 64.
Proof.
  intros He Hd. assert (b = to_be_bytes 8 k) as -> by (unfold encode_u64 in He; congruence).
  split; [done|]. unfold decode_u64 in Hd. apply bind_Ok in Hd as (? & _ & Hd').
  assert (from_be_bytes (to_be_bytes 8 k) = k) as Hd by congruence.
  unfold from_be_bytes in Hd. rewrite fold_be_bytes, u64_pow in Hd.
  pose proof (N.mod_lt k (2 ^ 64) ltac:(done)). lia.
Qed.

Lemma u64_ordered {V} (S : Schema N V) :
  encode_key S = encode_u64 -> decode_key S = decode_u64 -> ordered S (fun k => k).
Proof.
  intros He Hd k k' b b' [H1 H2] [H1' H2']. rewrite He in H1, H1'. rewrite Hd in H2, H2'.
  destruct (u64_codec_inv _ _ H1 H2) as [-> Hk]. destruct (u64_codec_inv _ _ H1' H2') as [-> Hk'].
  by apply be_bytes_le.
Qed.

Lemma pair_codec k :
  k.1 <= u64_max -> k.2 <= u64_max ->
  encode_u64_pair k = Ok (to_be_bytes 8 k.1 ++ to_be_bytes 8 k.2) /\
  decode_u64_pair (to_be_bytes 8 k.1 ++ to_be_bytes 8 k.2) = Ok k.
Proof.
  intros H1 H2. split; [done|]. unfold decode_u64_pair, ensure_slice_len_eq.
  rewrite length_app, !length_to_be_bytes, bool_decide_true by done. cbn [ensure mbind outcome_bind].
  rewrite take_app_length', drop_app_length' by (by rewrite length_to_be_bytes).
  destruct k. cbn [fst snd] in *. rewrite !from_to_be_bytes by (rewrite u64_pow; unfold u64_max in *; lia). done.
Qed.

Lemma pair_codec_inv k b :
  encode_u64_pair k = Ok b -> decode_u64_pair b = Ok k ->
  b = to_be_bytes 8 k.1 ++ to_be_bytes 8 k.2 /\ k.1 < 2 ^ 64 /\ k.2 < 2 ^ 64.
Proof.
  intros He Hd. assert (b = to_be_bytes 8 k.1 ++ to_be_bytes 8 k.2) as -> by (unfold encode_u64_pair in He; congruence).
  split; [done|]. unfold decode_u64_pair in Hd.
  apply bind_Ok in Hd as (? & _ & Hd).
  rewrite take_app_length', drop_app_length' in Hd by (by rewrite length_to_be_bytes).
  destruct k as [a b]. cbn [fst snd] in *. unfold from_be_bytes in Hd. rewrite !fold_be_bytes, u64_pow in Hd.
  assert (0 * 2 ^ 64 + a mod 2 ^ 64 = a) by congruence. assert (0 * 2 ^ 64 + b mod 2 ^ 64 = b) by congruence. pose proof (N.mod_lt a (2 ^ 64) ltac:(done)). pose proof (N.mod_lt b (2 ^ 64) ltac:(done)). lia.
Qed.

Definition pair_rank (k : N * N) : N := k.1 * 2 ^ 64 + k.2.

Lemma pair_ordered {V} (S : Schema (N * N) V) :
  encode_key S = encode_u64_pair -> decode_key S = decode_u64_pair -> ordered S pair_rank.
Proof.
  intros He Hd k k' b b' [H1 H2] [H1' H2']. rewrite He in H1, H1'. rewrite Hd in H2, H2'.
  destruct (pair_codec_inv _ _ H1 H2) as (-> & Ha & Hb). destruct (pair_codec_inv _ _ H1' H2') as (-> & Ha' & Hb').
  rewrite bytes_le_app by (by rewrite !length_to_be_bytes). rewrite be_bytes_le by done.
  apply eq_iff_eq_true. rewrite orb_true_iff, andb_true_iff, bytes_lt_iff, be_bytes_le, N.leb_gt, !N.leb_le by done.
  unfold pair_rank. rewrite bool_decide_eq_true. split.
  - intros [Hlt|[Heq Hle]]; [lia|]. apply (f_equal from_be_bytes) in Heq.
    rewrite !from_to_be_bytes in Heq by (rewrite u64_pow; lia). lia.
  - intros Hle. destruct (N.lt_trichotomy k.1 k'.1) as [?|[Heq|?]]; [by left| |lia].
    right. rewrite Heq in *. split; [done|lia].
Qed.

Lemma hash_codec h : h < 2 ^ 256 -> hash_to_vec h = Ok (to_be_bytes 32 h) /\ hash_from_slice (to_be_bytes 32 h) = Ok h.
Proof.
  intros Hh. split; [done|]. unfold hash_from_slice. rewrite length_to_be_bytes, bool_decide_true by done.
  by rewrite from_to_be_bytes.
Qed.

Lemma position_codec n j q :
  N.of_nat n < 2 ^ 63 -> full n j q ->
  encode_position (pos_at j q) = Ok (to_be_bytes 8 (pos_postorder j q)) /\
  decode_position (to_be_bytes 8 (pos_postorder j q)) = Ok (pos_at j q).
Proof.
  intros Hn Hf. pose proof (full_top n j q Hn Hf) as Hj. pose proof (full_lt _ _ _ Hf) as Hlt.
  destruct (@postorder_round AnyError (N.of_nat j) (N.of_nat q)) as (Hto & Hfrom & Hb);
    [apply (fits_node n); [lia|done|lia]|lia|]. unfold pos_at, pos_postorder.
  unfold encode_position, decode_position, ensure_slice_len_eq. rewrite Hto, length_to_be_bytes.
  split; [done|]. rewrite bool_decide_true by done. cbn [ensure mbind outcome_bind].
  rewrite from_to_be_bytes; [done|]. rewrite u64_pow. lia.
Qed.

(** ** The ledger a database holds *)

(** The family of a schema is the table of a partial function. *)
Definition has_table {K V} `{Countable K} (S : Schema K V) `{RocksDbLaws D It} (d : D) (f : K -> option V) : Prop :=
  exists m, table S (db_rows d (COLUMN_FAMILY_NAME S)) m /\ forall k, m !! k = f k.

(** Every transaction from version 0 on, the newest ledger info of each epoch, the
    epochs by the version they ended at, and the first version that is not pruned. *)
Record AbstractLedger : Type := mkAbstractLedger {
  al_entries : list TransactionToCommit;
  al_ledger_infos : gmap N LedgerInfoWithSignatures;
  al_epoch_ends : gmap Version N;
  al_first : Version;
}.

(** The entry of a version, unless it is pruned. *)
Definition entry_at (L : AbstractLedger) (v : Version) : option TransactionToCommit :=
  if v <? al_first L then None else al_entries L !! N.to_nat v.
Definition event_at (L : AbstractLedger) (k : Version * N) : option ContractEvent :=
  entry_at L k.1 ≫= fun t => ttc_events t !! N.to_nat k.2.
Definition info_hashes `{CryptoHash TransactionInfo} (L : AbstractLedger) : list HashValue :=
  hash <$> (ttc_transaction_info <$> al_entries L).

Record db_holds `{LedgerBcs} `{RocksDbLaws D It} `{MerkleHasher} `{CryptoHash TransactionInfo}
    (d : D) (L : AbstractLedger) : Prop := {
  h_small : N.of_nat (length (al_entries L)) < 2 ^ 63;
  h_first : al_first L <= N.of_nat (length (al_entries L));
  h_txn : has_table TransactionSchema d (fun v => ttc_transaction <$> entry_at L v);
  h_info : has_table TransactionInfoSchema d (fun v => ttc_transaction_info <$> entry_at L v);
  h_write_set : has_table WriteSetSchema d (fun v => ttc_write_set <$> entry_at L v);
  h_event : has_table EventSchema d (event_at L);
  h_acc : exists m, table TransactionAccumulatorSchema (db_rows d (COLUMN_FAMILY_NAME TransactionAccumulatorSchema)) m /\
            stores m (info_hashes L) (length (info_hashes L));
  h_ledger_info : has_table LedgerInfoSchema d (fun e => al_ledger_infos L !! e);
  h_epoch_end : has_table EpochByVersionSchema d (fun v => al_epoch_ends L !! v);
}.

Lemma entry_at_Some L v e :
  entry_at L v = Some e <-> al_first L <= v /\ al_entries L !! N.to_nat v = Some e.
Proof.
  unfold entry_at. destruct (N.ltb_spec v (al_first L)); [|naive_solver]. split; [done|]. intros [? _]. lia.
Qed.

(** The accumulator as the rows have it. *)
Record RowsReader : Type := mkRowsReader { rr_rows : gmap (list N) (list N) }.
#[global] Instance RowsReader_HashReader : HashReader RowsReader := fun self p =>
  b ← encode_position p;
  match rr_rows self !! b with Some w => hash_from_slice w | None => Err (Msg "not found") end.

Section has_table.
Context `{RocksDbLaws D It} {K V : Type} `{Countable K} (S : Schema K V).

Lemma has_table_get d f k b o : has_table S d f -> key_row S k b -> DB.get d S k = Ok o -> o = f k.
Proof. intros (m & Ht & Hf) Hk Hg. rewrite <-Hf. by eapply db_get_Ok. Qed.

Lemma has_table_get_total `{!RocksDbReliable D It} d f k b :
  cf_handle d (COLUMN_FAMILY_NAME S) = true -> has_table S d f -> key_row S k b -> DB.get d S k = Ok (f k).
Proof. intros Hcf (m & Ht & Hf) Hk. rewrite <-Hf. by eapply db_get_total. Qed.

Lemma has_table_eq d d' f :
  db_rows d' (COLUMN_FAMILY_NAME S) = db_rows d (COLUMN_FAMILY_NAME S) -> has_table S d f -> has_table S d' f.
Proof. intros He (m & Ht & Hf). exists m. by rewrite He. Qed.

(** A batch that writes the entries in which [f'] differs from [f]. *)
Lemma has_table_commit d d' f f' batch l :
  has_table S d f -> writes S SchemaBatch.new batch l ->
  db_rows d' (COLUMN_FAMILY_NAME S) = foldl apply_op (db_rows d (COLUMN_FAMILY_NAME S)) (batch_ops batch (COLUMN_FAMILY_NAME S)) ->
  (forall k v, (k, v) ∈ l -> f' k = Some v /\ key_round S k /\ value_round S v) ->
  (forall k, k ∉ l.*1 -> f k = f' k) -> has_table S d' f'.
Proof.
  intros (m & Ht & Hf) Hw Hd Hl Hout. exists (insert_all l m). split.
  - rewrite Hd. apply (writes_table S SchemaBatch.new); [done| |done].
    apply Forall_forall. intros [k v] Hin. apply (Hl k v Hin).
  - apply insert_all_spec; [intros k v Hin; apply (Hl k v Hin)|]. intros k Hk. rewrite Hf. by apply Hout.
Qed.
End has_table.

(** ** Reading *)
Section reads.
Context `{LedgerBcs} `{RocksDbLaws D It} `{MerkleHasher} `{CryptoHash TransactionInfo}.
Context (d : D) (L : AbstractLedger) (Hd : db_holds d L).

Lemma get_transaction_Ok v t :
  v <= u64_max -> TransactionStore.get_transaction d v = Ok t ->
  exists e, entry_at L v = Some e /\ t = ttc_transaction e.
Proof.
  intros Hv Hg. unfold TransactionStore.get_transaction in Hg. run_ok.
  match goal with He : DB.get _ _ _ = Ok _ |- _ =>
    apply (has_table_get _ _ _ _ _ _ (h_txn _ _ Hd) (u64_codec v Hv)) in He end.
  subst. destruct (entry_at L v) as [e|]; [|done]. simplify_eq/=. by exists e.
Qed.

Lemma get_transaction_info_Ok latest v i :
  v <= u64_max -> LedgerStore.get_transaction_info (mkLedgerStore d latest) v = Ok i ->
  exists e, entry_at L v = Some e /\ i = ttc_transaction_info e.
Proof.
  intros Hv Hg. unfold LedgerStore.get_transaction_info in Hg. run_ok.
  match goal with He : DB.get _ _ _ = Ok _ |- _ =>
    apply (has_table_get _ _ _ _ _ _ (h_info _ _ Hd) (u64_codec v Hv)) in He end.
  subst. destruct (entry_at L v) as [e|]; [|done]. simplify_eq/=. by exists e.
Qed.

Lemma get_write_set_Ok v w :
  v <= u64_max -> TransactionStore.get_write_set d v = Ok w ->
  exists e, entry_at L v = Some e /\ w = ttc_write_set e.
Proof.
  intros Hv Hg. unfold TransactionStore.get_write_set in Hg. run_ok.
  match goal with He : DB.get _ _ _ = Ok _ |- _ =>
    apply (has_table_get _ _ _ _ _ _ (h_write_set _ _ Hd) (u64_codec v Hv)) in He end.
  subst. destruct (entry_at L v) as [e|]; [|done]. simplify_eq/=. by exists e.
Qed.

(** The reader of the accumulator returns less than the rows themselves. *)
Lemma reader_refines latest :
  exists r : RowsReader, stores r (info_hashes L) (length (info_hashes L)) /\
    forall p, outcome_le (reader_get (mkLedgerStore d latest) p) (reader_get r p).
Proof.
  destruct (h_acc _ _ Hd) as (m & Ht & Hs).
  exists (mkRowsReader (db_rows d (COLUMN_FAMILY_NAME TransactionAccumulatorSchema))). split.
  - intros j q Hf. pose proof (Hs j q Hf) as Hm. apply ok_or_Ok in Hm.
    assert (N.of_nat (length (info_hashes L)) < 2 ^ 63) as Hn by (unfold info_hashes; rewrite !length_fmap; apply Hd).
    destruct (position_codec _ _ _ Hn Hf) as [He Hdec].
    pose proof (table_lookup TransactionAccumulatorSchema _ _ _ _ Ht (conj He Hdec)) as Hl. rewrite Hm in Hl.
    destruct Hl as (w & Hw & _ & Hdw). unfold reader_get, RowsReader_HashReader. rewrite He. cbn [mbind outcome_bind rr_rows].
    by rewrite Hw.
  - intros p h Hg. unfold reader_get, LedgerStore_HashReader in Hg. cbn [ls_db] in Hg. run_ok. simplify_eq.
    match goal with He : DB.get _ _ _ = Ok (Some h) |- _ => rename He into Hget end.
    unfold DB.get in Hget. apply bind_Ok in Hget as (b & Hb & Hget). apply bind_Ok in Hget as (? & _ & Hget).
    apply bind_Ok in Hget as (o & Ho%get_cf_rows & Hget). subst o. cbn in Hb.
    unfold reader_get, RowsReader_HashReader. rewrite Hb. cbn [mbind outcome_bind rr_rows].
    destruct (db_rows d _ !! b) as [w|]; [|done]. by apply bind_Ok in Hget as (? & Hv & [= ->]).
Qed.

(** The events of a version. *)
Definition events_of (v : Version) : list ContractEvent :=
  match entry_at L v with Some e => ttc_events e | None => [] end.

Lemma event_at_of v i : event_at L (v, i) = events_of v !! N.to_nat i.
Proof. unfold event_at, events_of. cbn. by destruct (entry_at L v). Qed.

Section event_rows.
Context (m : gmap (Version * N) ContractEvent) (Hm : forall k, m !! k = event_at L k).
Context (Hkeys : forall k, is_Some (m !! k) -> k.1 < 2 ^ 64 /\ k.2 < 2 ^ 64).

(** The first row from [(v, i)] on is the event [i] of [v], or it is of another version. *)
Lemma first_event v i k :
  first_from pair_rank m (pair_rank (v, i)) (Some k) -> k.1 = v ->
  k = (v, i) /\ m !! (v, i) = events_of v !! N.to_nat i.
Proof.
  intros (Hk & Hle & Hleast) <-. destruct k as [v j]. cbn [fst] in *. unfold pair_rank in Hle. cbn [fst snd] in Hle.
  assert (is_Some (m !! (v, i))) as Hi.
  { rewrite Hm, event_at_of in Hk |- *. apply lookup_lt_is_Some in Hk. apply lookup_lt_is_Some. lia. }
  pose proof (Hleast _ Hi (N.le_refl _)) as Hge. unfold pair_rank in Hge. cbn [fst snd] in Hge.
  assert (j = i) as -> by lia. by rewrite Hm, event_at_of.
Qed.

Lemma first_other v i k :
  first_from pair_rank m (pair_rank (v, i)) k -> (forall k', k = Some k' -> k'.1 <> v) ->
  events_of v !! N.to_nat i = None.
Proof.
  intros Hf Hne. destruct (events_of v !! N.to_nat i) as [e|] eqn:He; [|done]. exfalso.
  assert (is_Some (m !! (v, i))) as Hi by (rewrite Hm, event_at_of, He; by eexists). destruct k as [k|].
  - destruct Hf as (Hk & Hle & Hleast). pose proof (Hleast _ Hi (N.le_refl _)) as Hge.
    pose proof (Hkeys _ Hi) as [_ Hb]. pose proof (Hkeys _ Hk) as [_ Hb']. apply (Hne k eq_refl).
    unfold pair_rank in *. cbn [fst snd] in *. nia.
  - pose proof (Hf _ Hi). lia.
Qed.

Lemma take_version_Ok fuel v i iter evs :
  at_from EventSchema pair_rank iter m (pair_rank (v, i)) ->
  EventStore.take_version fuel v iter = Ok evs -> evs = drop (N.to_nat i) (events_of v).
Proof.
  revert i iter evs. induction fuel as [|fuel IH]; intros i iter evs Hat Ht; cbn [EventStore.take_version] in Ht.
  all: apply bind_Ok in Ht as ([o iter'] & Hn & Ht).
  all: pose proof (at_from_next EventSchema pair_rank (pair_ordered EventSchema eq_refl eq_refl) _ _ _ _ Hat Hn) as Hnext.
  all: cbn [fst snd] in Hnext; destruct o as [[[ver idx] e]|].
  all: try (destruct (N.eqb_spec ver v) as [->|Hne]; cbn [negb] in Ht).
  all: try done.
  all: try (injection Ht as <-; symmetry; apply drop_ge, lookup_ge_None;
    destruct Hnext as (_ & Hf & _) || rename Hnext into Hf; eapply first_other; [exact Hf|by intros ? [= <-]]).
  destruct Hnext as (Hke & Hf & Hat'). destruct (first_event v i (v, idx) Hf eq_refl) as [[= ->] Hl].
  rewrite Hke in Hl. rewrite (drop_S _ e) by done. apply bind_Ok in Ht as (rest & Hrest & [= <-]). f_equal.
  replace (S (N.to_nat i)) with (N.to_nat (i + 1)) by lia. eapply IH; [|exact Hrest].
  replace (pair_rank (v, i + 1)) with (pair_rank (v, i) + 1) by (unfold pair_rank; cbn; lia). done.
Qed.

Lemma take_version_total `{!RocksDbReliable D It} fuel v i iter :
  at_from EventSchema pair_rank iter m (pair_rank (v, i)) ->
  (length (events_of v) <= N.to_nat i + fuel)%nat ->
  exists evs, EventStore.take_version fuel v iter = Ok evs.
Proof.
  revert i iter. induction fuel as [|fuel IH]; intros i iter Hat Hfuel; cbn [EventStore.take_version].
  all: destruct (at_from_total EventSchema pair_rank _ _ _ Hat) as [[o iter'] Hn]; rewrite Hn; cbn [mbind outcome_bind].
  all: pose proof (at_from_next EventSchema pair_rank (pair_ordered EventSchema eq_refl eq_refl) _ _ _ _ Hat Hn) as Hnext.
  all: cbn [fst snd] in Hnext; destruct o as [[[ver idx] e]|]; [|by eexists].
  all: destruct (N.eqb_spec ver v) as [->|Hne]; cbn [negb]; [|by eexists].
  all: destruct Hnext as (Hke & Hf & Hat'); destruct (first_event v i (v, idx) Hf eq_refl) as [[= ->] Hl].
  all: rewrite Hke in Hl; symmetry in Hl; apply lookup_lt_Some in Hl.
  1: lia.
  destruct (IH (i + 1) iter') as [evs Hevs].
  - replace (pair_rank (v, i + 1)) with (pair_rank (v, i) + 1) by (unfold pair_rank; cbn; lia). done.
  - lia.
  - rewrite Hevs. by eexists.
Qed.
(** A peekable iterator whose next row is the first from [c] on. *)
Definition peek_from (pk : Peekable It (Version * N * ContractEvent)) (c : N) : Prop :=
  match pk_peeked pk with
  | None => at_from EventSchema pair_rank (pk_iter pk) m c
  | Some (Some (k, e)) =>
      m !! k = Some e /\ first_from pair_rank m c (Some k) /\
      at_from EventSchema pair_rank (pk_iter pk) m (pair_rank k + 1)
  | Some None => first_from pair_rank m c None
  end.

Lemma peek_Ok pk c item pk' :
  peek_from pk c -> EventStore.peek pk = Ok (item, pk') -> pk_peeked pk' = Some item /\ peek_from pk' c.
Proof.
  unfold EventStore.peek, peek_from. intros Hpk Hp. destruct (pk_peeked pk) as [o|] eqn:Ho.
  - injection Hp as <- <-. by rewrite Ho.
  - destruct (SchemaIterator.next EventSchema (pk_iter pk)) as [[o it]| |] eqn:Hn; [|done|done].
    injection Hp as <- <-. cbn [pk_peeked pk_iter]. split; [done|].
    pose proof (at_from_next EventSchema pair_rank (pair_ordered EventSchema eq_refl eq_refl) _ _ _ _ Hpk Hn) as Hnext.
    cbn [fst snd] in Hnext. by destruct o as [[k e]|].
Qed.

(** The rows of a version end where those of the next one begin. *)
Lemma first_advance v i o :
  i <= 2 ^ 64 -> first_from pair_rank m (pair_rank (v, i)) o -> (forall k, o = Some k -> k.1 <> v) ->
  first_from pair_rank m (pair_rank (v + 1, 0)) o.
Proof.
  intros Hi Hf Hne. assert (pair_rank (v, i) <= pair_rank (v + 1, 0)) as Hle by (unfold pair_rank; cbn [fst snd]; lia).
  destruct o as [k|].
  - destruct Hf as (Hk & Hc & Hleast). pose proof (Hne k eq_refl) as Hv. pose proof (Hkeys k Hk) as [_ Hb].
    split_and!; [done| |intros k' Hk' Hc'; apply Hleast; [done|lia]].
    unfold pair_rank in *. cbn [fst snd] in *. nia.
  - intros k Hk. pose proof (Hf k Hk). lia.
Qed.

Lemma take_peeked_Ok fuel v i pk evs pk' :
  i <= 2 ^ 64 -> peek_from pk (pair_rank (v, i)) -> EventStore.take_peeked fuel v pk = Ok (evs, pk') ->
  evs = drop (N.to_nat i) (events_of v) /\ peek_from pk' (pair_rank (v + 1, 0)).
Proof.
  revert i pk evs. induction fuel as [|fuel IH]; intros i pk evs Hi Hat Ht; cbn [EventStore.take_peeked] in Ht.
  all: apply bind_Ok in Ht as ([o pk1] & Hp & Ht); destruct (peek_Ok _ _ _ _ Hat Hp) as [Ho Hat1].
  all: unfold peek_from in Hat1; rewrite Ho in Hat1; destruct o as [[[ver idx] e]|].
  all: try (destruct (N.eqb_spec ver v) as [->|Hne]; cbn [negb] in Ht).
  all: try done.
  all: try (injection Ht as <- <-; unfold peek_from; rewrite Ho; split;
    [symmetry; apply drop_ge, lookup_ge_None; destruct Hat1 as (_ & Hf & _) || rename Hat1 into Hf;
     eapply first_other; [exact Hf|by intros ? [= <-]]
    |try destruct Hat1 as (? & Hf & ?); split_and?; try done; by apply (first_advance v i); [|done|intros ? [= <-]]]).
  destruct Hat1 as (Hke & Hf & Hat'). destruct (first_event v i (v, idx) Hf eq_refl) as [[= ->] Hl].
  pose proof (Hkeys (v, i) (mk_is_Some _ _ Hke)) as [_ Hb]. cbn [snd] in Hb.
  rewrite Hke in Hl. rewrite (drop_S _ e) by done. apply bind_Ok in Ht as ([rest pk2] & Hrest & [= <- <-]).
  destruct (IH (i + 1) (mkPeekable None (pk_iter pk1)) rest) as [-> Hpk]; [lia| |exact Hrest|].
  - unfold peek_from. cbn [pk_peeked pk_iter].
    by replace (pair_rank (v, i + 1)) with (pair_rank (v, i) + 1) by (unfold pair_rank; cbn; lia).
  - split; [|done]. cbn [fst]. f_equal. by replace (S (N.to_nat i)) with (N.to_nat (i + 1)) by lia.
Qed.
End event_rows.

Lemma event_keys m :
  table EventSchema (db_rows d (COLUMN_FAMILY_NAME EventSchema)) m ->
  forall k, is_Some (m !! k) -> k.1 < 2 ^ 64 /\ k.2 < 2 ^ 64.
Proof.
  intros Ht k [e Hk]. destruct (proj1 Ht k e Hk) as (b & w & [He Hde] & _).
  by destruct (pair_codec_inv _ _ He Hde).
Qed.

Lemma event_iter m v iter :
  table EventSchema (db_rows d (COLUMN_FAMILY_NAME EventSchema)) m -> v <= u64_max ->
  DB.iter d EventSchema = Ok iter ->
  at_from EventSchema pair_rank (SchemaIterator.seek_raw (to_be_bytes 8 v) iter) m (pair_rank (v, 0)).
Proof.
  intros Ht Hv Hi. eapply at_from_seek; [apply pair_ordered; done|done| |exact Hi].
  intros k b [He Hde]. destruct (pair_codec_inv _ _ He Hde) as (-> & Ha & Hb).
  rewrite <-(app_nil_r (to_be_bytes 8 v)), Is_true_true, bytes_le_app by (by rewrite !length_to_be_bytes).
  assert (v < 2 ^ 64) as Hv' by (unfold u64_max in Hv; lia).
  cbn [bytes_le]. rewrite orb_true_iff, andb_true_iff, bytes_lt_iff, be_bytes_le, N.leb_gt, bool_decide_eq_true by done.
  unfold pair_rank. cbn [fst snd]. split.
  - intros [Hlt|[Heq _]]; [lia|]. apply (f_equal from_be_bytes) in Heq.
    rewrite !from_to_be_bytes in Heq by (rewrite u64_pow; lia). lia.
  - intros Hle. destruct (N.lt_trichotomy v k.1) as [?|[Heq|?]]; [by left|right; by rewrite Heq|lia].
Qed.

Lemma get_events_Ok fuel v evs :
  v <= u64_max -> EventStore.get_events_by_version d fuel v = Ok evs -> evs = events_of v.
Proof.
  intros Hv Hg. destruct (h_event _ _ Hd) as (m & Ht & Hm). unfold EventStore.get_events_by_version in Hg.
  apply bind_Ok in Hg as (iter & Hi & Hg).
  rewrite (take_version_Ok m Hm (event_keys m Ht) fuel v 0 _ evs (event_iter m v iter Ht Hv Hi) Hg). done.
Qed.

Lemma get_events_total `{!RocksDbReliable D It} fuel v :
  v <= u64_max -> cf_handle d (COLUMN_FAMILY_NAME EventSchema) = true -> (length (events_of v) <= fuel)%nat ->
  EventStore.get_events_by_version d fuel v = Ok (events_of v).
Proof.
  intros Hv Hcf Hfuel. destruct (h_event _ _ Hd) as (m & Ht & Hm). unfold EventStore.get_events_by_version.
  destruct (DB.iter d EventSchema) as [iter| |] eqn:Hi;
    [|unfold DB.iter, DB.iter_with_direction, DB.get_cf_handle in Hi; by rewrite Hcf in Hi..].
  destruct (take_version_total m Hm fuel v 0 _ (event_iter m v iter Ht Hv Hi)) as [evs Hevs]; [lia|].
  cbn [mbind outcome_bind]. rewrite Hevs. f_equal.
  by rewrite (take_version_Ok m Hm (event_keys m Ht) fuel v 0 _ evs (event_iter m v iter Ht Hv Hi) Hevs).
Qed.
End reads.

(** ** Runs of versions *)
Lemma range64_count a n : range64 a (a + N.of_nat n) = count_from a n.
Proof. unfold range64. f_equal. lia. Qed.

Lemma collect_slice {A B} (l : list A) (f : N -> result B) (g : A -> B) lo n a bs :
  (forall v x b, lo <= v -> v <= u64_max -> l !! N.to_nat v = Some x -> f v = Ok b -> b = g x) ->
  lo <= a -> (N.to_nat a + n <= length l)%nat -> a + N.of_nat n <= 2 ^ 64 ->
  collect f (count_from a n) = Ok bs -> bs = g <$> take n (drop (N.to_nat a) l).
Proof.
  intros Hf. revert a bs. induction n as [|n IH]; intros a bs Hlo Hlen Ha Hc; [by injection Hc as <-|].
  cbn [count_from collect] in Hc. apply bind_Ok in Hc as (b & Hb & Hc). apply bind_Ok in Hc as (bs' & Hbs & [= <-]).
  destruct (lookup_lt_is_Some_2 l (N.to_nat a)) as [x Hx]; [lia|].
  rewrite (Hf a x b) by (done || unfold u64_max; lia). rewrite (IH (a + 1) bs') by (done || lia).
  rewrite (drop_S l x (N.to_nat a)) by done. by replace (N.to_nat (a + 1)) with (S (N.to_nat a)) by lia.
Qed.

Lemma collect_slice_total {A B} (l : list A) (f : N -> result B) (g : A -> B) lo n a :
  (forall v x, lo <= v -> v <= u64_max -> l !! N.to_nat v = Some x -> f v = Ok (g x)) ->
  lo <= a -> (N.to_nat a + n <= length l)%nat -> a + N.of_nat n <= 2 ^ 64 ->
  collect f (count_from a n) = Ok (g <$> take n (drop (N.to_nat a) l)).
Proof.
  intros Hf. revert a. induction n as [|n IH]; intros a Hlo Hlen Ha; [done|].
  destruct (lookup_lt_is_Some_2 l (N.to_nat a)) as [x Hx]; [lia|]. rewrite (drop_S _ x) by done.
  cbn [count_from collect take fmap list_fmap]. rewrite (Hf a x) by (done || unfold u64_max; lia). cbn [mbind outcome_bind].
  rewrite IH by lia. replace (N.to_nat (a + 1)) with (S (N.to_nat a)) by lia. done.
Qed.

Lemma slice_take {A} (l : list A) s n k : (s + n <= k)%nat -> take n (drop s (take k l)) = take n (drop s l).
Proof.
  intros Hk. replace k with (s + (k - s))%nat by lia. rewrite <-take_drop_commute, take_take. f_equal. lia.
Qed.

(** ** Ledger infos and entries that belong together *)
Section coherence.
Context `{MerkleHasher} (event_hasher : HashValue -> HashValue -> HashValue).
Context `{CryptoHash TransactionInfo} `{CryptoHash Transaction} `{CryptoHash ContractEvent}.

(** The transaction info of an entry commits to its transaction and its events. *)
Definition coherent (t : TransactionToCommit) : Prop :=
  hash (ttc_transaction t) = ti_transaction_hash (ttc_transaction_info t) /\
  event_root_hash event_hasher (ttc_events t) = Ok (ti_event_root_hash (ttc_transaction_info t)).

(** The ledger info commits to the transactions up to its version. *)
Definition commits_to (li : LedgerInfo) (L : AbstractLedger) : Prop :=
  LedgerInfo.version li < N.of_nat (length (al_entries L)) /\
  LedgerInfo.transaction_accumulator_hash li =
    merkle_root (take (S (N.to_nat (LedgerInfo.version li))) (info_hashes L)).

Lemma check_hashes_coherent (ts : list TransactionToCommit) :
  Forall coherent ts ->
  check_transaction_hashes (ttc_transaction <$> ts) (ttc_transaction_info <$> ts) = Ok tt.
Proof.
  induction 1 as [|t ts [Hh _] _ IH]; [done|]. cbn [fmap list_fmap check_transaction_hashes].
  rewrite Hh, N.eqb_refl. exact IH.
Qed.

Lemma check_events_coherent (ts : list TransactionToCommit) :
  Forall coherent ts ->
  check_event_lists event_hasher (ttc_events <$> ts) (ttc_transaction_info <$> ts) = Ok tt.
Proof.
  induction 1 as [|t ts [_ He] _ IH]; [done|]. cbn [fmap list_fmap check_event_lists].
  unfold verify_events_against_root_hash. rewrite He. cbn [mbind outcome_bind]. rewrite N.eqb_refl. exact IH.
Qed.

Lemma check_outputs_coherent (ts : list TransactionToCommit) :
  Forall coherent ts ->
  check_outputs event_hasher
    ((fun t => (ttc_transaction t, mkTransactionOutput (ttc_write_set t) (ttc_events t)
        (ti_gas_used (ttc_transaction_info t)) (Keep (ti_status (ttc_transaction_info t))))) <$> ts)
    (ttc_transaction_info <$> ts) = Ok tt.
Proof.
  induction 1 as [|t ts [Hh He] _ IH]; [done|]. cbn [fmap list_fmap check_outputs].
  unfold check_output, verify_events_against_root_hash. cbn [tout_events tout_gas_used tout_status].
  rewrite He. cbn [mbind outcome_bind]. rewrite N.eqb_refl. cbn [ensure mbind outcome_bind].
  rewrite N.eqb_refl, bool_decide_true by done. cbn [ensure mbind outcome_bind]. rewrite Hh, N.eqb_refl. exact IH.
Qed.

Lemma verify_served li start (ts : list TransactionToCommit) pf (fetch_events : bool) :
  Forall coherent ts ->
  AccumulatorRangeProof_verify pf (LedgerInfo.transaction_accumulator_hash li) (Some start)
    (hash <$> (ttc_transaction_info <$> ts)) = Ok tt ->
  TransactionListWithProof_verify event_hasher
    (mkTransactionListWithProof (ttc_transaction <$> ts) (if fetch_events then Some (ttc_events <$> ts) else None)
       (Some start) (mkTransactionInfoListWithProof pf (ttc_transaction_info <$> ts))) li (Some start) = Ok tt.
Proof.
  intros Hco Hv. unfold TransactionListWithProof_verify, TransactionInfoListWithProof_verify.
  cbn [tl_first_transaction_version tl_transactions tl_proof tl_events transaction_infos ledger_info_to_transaction_infos_proof].
  rewrite (bool_decide_true (Some start = Some start)) by done. cbn [ensure mbind outcome_bind].
  rewrite bool_decide_true by (by rewrite !length_fmap).
  cbn [ensure mbind outcome_bind]. rewrite check_hashes_coherent by done. cbn [mbind outcome_bind]. rewrite Hv.
  cbn [mbind outcome_bind]. destruct fetch_events; [|done].
  rewrite bool_decide_true by (by rewrite !length_fmap). by apply check_events_coherent.
Qed.
End coherence.

(** ** Proofs served from the database *)
Section serve.
Context `{LedgerBcs} `{RocksDbLaws D It} `{MerkleHasher} `{CryptoHash TransactionInfo}.
Context (d : D) (L : AbstractLedger) (Hd : db_holds d L) (latest : option LedgerInfoWithSignatures).

Lemma info_hashes_length : length (info_hashes L) = length (al_entries L).
Proof. unfold info_hashes. by rewrite !length_fmap. Qed.

(** The reader stores the first [n] infos, as far as it can be read. *)
Lemma reader_prefix n :
  (n <= length (al_entries L))%nat ->
  exists r : RowsReader, stores r (take n (info_hashes L)) (length (take n (info_hashes L))) /\
    length (take n (info_hashes L)) = n /\ N.of_nat n < 2 ^ 63 /\
    forall p, outcome_le (reader_get (mkLedgerStore d latest) p) (reader_get r p).
Proof.
  intros Hn. destruct (reader_refines d L Hd latest) as (r & Hs & Hr). exists r. pose proof (h_small _ _ Hd).
  rewrite length_take, info_hashes_length, Nat.min_l by done. split_and!; [|done|lia|done].
  pose proof (stores_take r (info_hashes L) n Hs ltac:(by rewrite info_hashes_length)) as Ht.
  by rewrite length_take, info_hashes_length, Nat.min_l in Ht.
Qed.

Lemma served_proof li v pf e :
  commits_to li L -> v <= LedgerInfo.version li -> entry_at L v = Some e ->
  LedgerStore.get_transaction_proof (mkLedgerStore d latest) v (LedgerInfo.version li) = Ok pf ->
  AccumulatorProof_verify pf (LedgerInfo.transaction_accumulator_hash li) (hash (ttc_transaction_info e)) v = Ok tt.
Proof.
  intros [Hli Hroot] Hv He Hpf. pose proof (h_small _ _ Hd) as Hsmall.
  destruct (reader_prefix (S (N.to_nat (LedgerInfo.version li))) ltac:(lia)) as (r & Hs & Hlen & Hn & Hr).
  unfold LedgerStore.get_transaction_proof in Hpf. apply bind_Ok in Hpf as (k & [-> _]%add64_Ok & Hpf).
  apply (get_proof_le _ r Hr) in Hpf.
  replace (LedgerInfo.version li + 1) with (N.of_nat (length (take (S (N.to_nat (LedgerInfo.version li))) (info_hashes L))))
    in Hpf by lia.
  rewrite <-(N2Nat.id v) in Hpf at 1. rewrite (get_proof_path r) in Hpf by (done || lia). injection Hpf as <-.
  pose proof (path_verifies (take (S (N.to_nat (LedgerInfo.version li))) (info_hashes L)) (N.to_nat v)
    (hash (ttc_transaction_info e))) as Hp. rewrite N2Nat.id in Hp. rewrite Hroot. apply Hp;
    [|change MAX_ACCUMULATOR_LEAVES with (2 ^ 63); lia].
  rewrite lookup_take_lt by lia. unfold info_hashes. rewrite !list_lookup_fmap.
  apply entry_at_Some in He as [_ He]. by rewrite He.
Qed.

Lemma served_range li s n pf :
  commits_to li L -> (0 < n)%nat -> s + N.of_nat n <= LedgerInfo.version li + 1 ->
  LedgerStore.get_transaction_range_proof (mkLedgerStore d latest) (Some s) (N.of_nat n) (LedgerInfo.version li) = Ok pf ->
  AccumulatorRangeProof_verify pf (LedgerInfo.transaction_accumulator_hash li) (Some s)
    (hash <$> (ttc_transaction_info <$> take n (drop (N.to_nat s) (al_entries L)))) = Ok tt.
Proof.
  intros [Hli Hroot] Hn0 Hsn Hpf. pose proof (h_small _ _ Hd) as Hsmall.
  destruct (reader_prefix (S (N.to_nat (LedgerInfo.version li))) ltac:(lia)) as (r & Hs & Hlen & Hn & Hr).
  unfold LedgerStore.get_transaction_range_proof in Hpf. apply bind_Ok in Hpf as (k & [-> _]%add64_Ok & Hpf).
  apply (get_range_proof_le _ r Hr) in Hpf.
  set (xs := hash <$> (ttc_transaction_info <$> take n (drop (N.to_nat s) (al_entries L)))).
  assert (length xs = n) as Hxs by (unfold xs; rewrite !length_fmap, length_take, length_drop; lia).
  destruct (get_range_proof_verifies r (take (S (N.to_nat (LedgerInfo.version li))) (info_hashes L)) ltac:(lia) Hs
    (N.to_nat s) xs) as (pf' & Hpf' & Hv); [by destruct xs; simpl in Hxs; [lia|]|lia| |].
  { rewrite Hxs. unfold xs, info_hashes. rewrite slice_take by lia. by rewrite <-!fmap_drop, <-!fmap_take. }
  rewrite N2Nat.id, Hxs in Hpf'.
  replace (N.of_nat (length (take (S (N.to_nat (LedgerInfo.version li))) (info_hashes L)))) with (LedgerInfo.version li + 1)
    in Hpf' by lia.
  rewrite Hpf in Hpf'. injection Hpf' as <-. rewrite N2Nat.id in Hv. by rewrite Hroot.
Qed.

(** *** Runs of entries *)
Section runs.
Context (start : N) (n : nat) (Hend : (N.to_nat start + n <= length (al_entries L))%nat).
Abbreviation entries := (take n (drop (N.to_nat start) (al_entries L))).

Lemma run_bound : start + N.of_nat n <= 2 ^ 64.
Proof. pose proof (h_small _ _ Hd). lia. Qed.

Lemma run_transactions txns :
  collect (TransactionStore.get_transaction d) (count_from start n) = Ok txns -> txns = ttc_transaction <$> entries.
Proof.
  apply (collect_slice _ _ _ 0); [|lia|done|apply run_bound]. intros v x t _ Hv Hx Ht.
  destruct (get_transaction_Ok d L Hd v t Hv Ht) as (e & [_ He]%entry_at_Some & ->). by simplify_eq.
Qed.

Lemma run_infos infos :
  collect (LedgerStore.get_transaction_info (mkLedgerStore d latest)) (count_from start n) = Ok infos ->
  infos = ttc_transaction_info <$> entries.
Proof.
  apply (collect_slice _ _ _ 0); [|lia|done|apply run_bound]. intros v x t _ Hv Hx Ht.
  destruct (get_transaction_info_Ok d L Hd latest v t Hv Ht) as (e & [_ He]%entry_at_Some & ->). by simplify_eq.
Qed.

(** Versions that are read are not pruned. *)
Lemma run_readable txns :
  (0 < n)%nat -> collect (TransactionStore.get_transaction d) (count_from start n) = Ok txns -> al_first L <= start.
Proof.
  intros Hn Hc. pose proof run_bound as Hb. destruct n as [|k]; [lia|].
  cbn [count_from collect] in Hc. apply bind_Ok in Hc as (t & Ht & _). destruct (get_transaction_Ok d L Hd start t) as (e & [? _]%entry_at_Some & _);
    [unfold u64_max; lia|done|done].
Qed.

Lemma run_events fuel evs :
  al_first L <= start -> collect (EventStore.get_events_by_version d fuel) (count_from start n) = Ok evs -> evs = ttc_events <$> entries.
Proof.
  intros Hf. apply (collect_slice _ _ _ (al_first L)); [|done|done|apply run_bound]. intros v x t Hlo Hv Hx Ht.
  rewrite (get_events_Ok d L Hd fuel v t Hv Ht). unfold events_of.
  by rewrite (proj2 (entry_at_Some L v x) (conj Hlo Hx)).
Qed.
End runs.

(** *** Reads that cannot fail *)
Section reliable.
Context `{!RocksDbReliable D It} (Hcf : forall cf, cf_handle d cf = true).

Lemma get_transaction_total v e :
  v <= u64_max -> entry_at L v = Some e -> TransactionStore.get_transaction d v = Ok (ttc_transaction e).
Proof.
  intros Hv He. unfold TransactionStore.get_transaction.
  rewrite (has_table_get_total _ _ _ _ _ (Hcf _) (h_txn _ _ Hd) (u64_codec v Hv)), He. done.
Qed.

Lemma get_transaction_info_total v e :
  v <= u64_max -> entry_at L v = Some e ->
  LedgerStore.get_transaction_info (mkLedgerStore d latest) v = Ok (ttc_transaction_info e).
Proof.
  intros Hv He. unfold LedgerStore.get_transaction_info. cbn [ls_db].
  rewrite (has_table_get_total _ _ _ _ _ (Hcf _) (h_info _ _ Hd) (u64_codec v Hv)), He. done.
Qed.

Lemma get_write_set_total v e :
  v <= u64_max -> entry_at L v = Some e -> TransactionStore.get_write_set d v = Ok (ttc_write_set e).
Proof.
  intros Hv He. unfold TransactionStore.get_write_set.
  rewrite (has_table_get_total _ _ _ _ _ (Hcf _) (h_write_set _ _ Hd) (u64_codec v Hv)), He. done.
Qed.

Lemma reader_stores : stores (mkLedgerStore d latest) (info_hashes L) (length (info_hashes L)).
Proof.
  destruct (h_acc _ _ Hd) as (m & Ht & Hs). intros j q Hf. pose proof (Hs j q Hf) as Hm. apply ok_or_Ok in Hm.
  assert (N.of_nat (length (info_hashes L)) < 2 ^ 63) as Hn by (rewrite info_hashes_length; apply Hd).
  destruct (position_codec _ _ _ Hn Hf) as [He Hdec]. unfold reader_get, LedgerStore_HashReader. cbn [ls_db].
  rewrite (db_get_total TransactionAccumulatorSchema d m _ _ (Hcf _) Ht (conj He Hdec)), Hm. done.
Qed.

Lemma prefix_stores n :
  (n <= length (al_entries L))%nat ->
  stores (mkLedgerStore d latest) (take n (info_hashes L)) (length (take n (info_hashes L))) /\
  length (take n (info_hashes L)) = n /\ N.of_nat n < 2 ^ 63.
Proof.
  intros Hn. pose proof (h_small _ _ Hd). rewrite length_take, info_hashes_length, Nat.min_l by done.
  split_and!; [|done|lia].
  pose proof (stores_take _ (info_hashes L) n reader_stores ltac:(by rewrite info_hashes_length)) as Ht.
  by rewrite length_take, info_hashes_length, Nat.min_l in Ht.
Qed.

Lemma range_proof_total v s n :
  v < N.of_nat (length (al_entries L)) -> (0 < n)%nat -> s + N.of_nat n <= v + 1 ->
  exists pf, LedgerStore.get_transaction_range_proof (mkLedgerStore d latest) (Some s) (N.of_nat n) v = Ok pf.
Proof.
  intros Hv Hn0 Hsn. destruct (prefix_stores (S (N.to_nat v)) ltac:(lia)) as (Hs & Hlen & Hn).
  set (xs := take n (drop (N.to_nat s) (take (S (N.to_nat v)) (info_hashes L)))).
  assert (length xs = n) as Hxs by (unfold xs; rewrite length_take, length_drop; lia).
  destruct (get_range_proof_verifies (mkLedgerStore d latest) (take (S (N.to_nat v)) (info_hashes L)) ltac:(lia) Hs
    (N.to_nat s) xs) as (pf & Hpf & _); [by destruct xs; simpl in Hxs; [lia|]|lia|by rewrite Hxs|].
  exists pf. unfold LedgerStore.get_transaction_range_proof. rewrite (proj2 (add64_Ok _ _ (v + 1))) by (unfold u64_max; lia).
  cbn [mbind outcome_bind]. rewrite Hlen, Hxs, N2Nat.id in Hpf. by replace (v + 1) with (N.of_nat (S (N.to_nat v))) by lia.
Qed.

Lemma proof_total v w :
  w < N.of_nat (length (al_entries L)) -> v <= w ->
  exists pf, LedgerStore.get_transaction_proof (mkLedgerStore d latest) v w = Ok pf.
Proof.
  intros Hw Hv. destruct (prefix_stores (S (N.to_nat w)) ltac:(lia)) as (Hs & Hlen & Hn).
  unfold LedgerStore.get_transaction_proof. rewrite (proj2 (add64_Ok _ _ (w + 1))) by (unfold u64_max; lia).
  cbn [mbind outcome_bind]. pose proof (get_proof_path (mkLedgerStore d latest)
    (take (S (N.to_nat w)) (info_hashes L)) ltac:(lia) Hs (N.to_nat v) ltac:(lia)) as Hp.
  rewrite N2Nat.id, Hlen in Hp. replace (w + 1) with (N.of_nat (S (N.to_nat w))) by lia. eauto.
Qed.

Lemma run_total start n fuel :
  al_first L <= start ->
  (N.to_nat start + n <= length (al_entries L))%nat -> Forall (fun t => (length (ttc_events t) <= fuel)%nat) (al_entries L) ->
  let entries := take n (drop (N.to_nat start) (al_entries L)) in
  collect (TransactionStore.get_transaction d) (count_from start n) = Ok (ttc_transaction <$> entries) /\
  collect (LedgerStore.get_transaction_info (mkLedgerStore d latest)) (count_from start n) = Ok (ttc_transaction_info <$> entries) /\
  collect (EventStore.get_events_by_version d fuel) (count_from start n) = Ok (ttc_events <$> entries).
Proof.
  intros Hf Hend Hfuel entries. pose proof (run_bound start n Hend) as Hb.
  split_and!; (apply (collect_slice_total _ _ _ (al_first L)); [|done|done|done]); intros v x Hlo Hv Hx;
    pose proof (proj2 (entry_at_Some L v x) (conj Hlo Hx)) as He.
  - by apply get_transaction_total.
  - by apply get_transaction_info_total.
  - assert (events_of L v = ttc_events x) as <- by (unfold events_of; by rewrite He).
    apply (get_events_total d L Hd); [done|apply Hcf|]. unfold events_of. rewrite He.
    rewrite Forall_forall in Hfuel. by eapply Hfuel, list_elem_of_lookup_2.
Qed.
End reliable.
End serve.
