(* ===== verification/LedgerDbWrites.v ===== *)
(** * What saving transactions writes

    The rows each step of [save_transactions] adds to each table, and the ledger the
    database holds after the batch is committed. *)

From S2P Require Import Prelude Crypto Errors Position PositionLemmas Accumulator AccumulatorLemmas Verifier Ledger ConsensusTypes Blocks TransactionProofs AccumulatorStore AccumulatorStoreLemmas SchemaDb LedgerSchemas LedgerDb TransactionStore EventStore StateStore AptosDb SchemaLemmas LedgerDbLemmas.

(** ** Steps on a change set *)
Definition cs_writes {K V} (S : Schema K V) (cs cs' : ChangeSet) (l : list (K * V)) : Prop :=
  writes S (cs_batch cs) (cs_batch cs') l.

Section steps.
Context {K V : Type} (S : Schema K V).

Lemma cs_refl cs : cs_writes S cs cs [].
Proof. apply writes_refl. Qed.

Lemma cs_trans cs1 cs2 cs3 l l' l'' :
  cs_writes S cs1 cs2 l -> cs_writes S cs2 cs3 l' -> l'' = l ++ l' -> cs_writes S cs1 cs3 l''.
Proof. intros H1 H2 ->. by eapply writes_trans. Qed.

Lemma cs_put k v cs cs' : ChangeSet.put S k v cs = Ok cs' -> cs_writes S cs cs' [(k, v)].
Proof. unfold ChangeSet.put. intros Hp. run_ok. simplify_eq. by apply writes_put. Qed.

Lemma cs_fold {A} (f : A -> ChangeSet -> result ChangeSet) (g : A -> list (K * V)) xs cs cs' :
  (forall a s s', a ∈ xs -> f a s = Ok s' -> cs_writes S s s' (g a)) ->
  try_fold f xs cs = Ok cs' -> cs_writes S cs cs' (concat (g <$> xs)).
Proof. intros Hf. by apply (writes_fold S f cs_batch g). Qed.

End steps.

(** A step writes to the named families only. *)
Definition only (names : list string) (cs cs' : ChangeSet) : Prop :=
  forall cf, cf ∉ names -> batch_ops (cs_batch cs') cf = batch_ops (cs_batch cs) cf.

Lemma only_refl names cs : only names cs cs.
Proof. by intros cf. Qed.

Lemma only_trans names cs1 cs2 cs3 : only names cs1 cs2 -> only names cs2 cs3 -> only names cs1 cs3.
Proof. intros H1 H2 cf Hcf. by rewrite H2, H1. Qed.

Lemma only_put {K V} (S : Schema K V) names k v cs cs' :
  ChangeSet.put S k v cs = Ok cs' -> COLUMN_FAMILY_NAME S ∈ names -> only names cs cs'.
Proof.
  unfold ChangeSet.put, SchemaBatch.put. intros Hp Hin cf Hcf. run_ok. simplify_eq.
  unfold batch_ops, SchemaBatch.push. cbn [cs_batch sb_rows]. rewrite lookup_insert_ne; [done|congruence].
Qed.

Lemma only_fold {A T} (f : A -> T -> result T) (proj : T -> ChangeSet) names xs s s' :
  (forall a s s', f a s = Ok s' -> only names (proj s) (proj s')) ->
  try_fold f xs s = Ok s' -> only names (proj s) (proj s').
Proof.
  intros Hf. revert s. induction xs as [|a xs IH]; intros s Hr; cbn in Hr.
  - injection Hr as <-. apply only_refl.
  - apply bind_Ok in Hr as (s1 & H1 & Hr). eapply only_trans; [by eapply Hf|by apply IH].
Qed.

Lemma only_sub names names' cs cs' : names ⊆ names' -> only names cs cs' -> only names' cs cs'.
Proof. intros Hsub Ho cf Hcf. apply Ho. set_solver. Qed.

Lemma only_writes {K V} (S : Schema K V) names cs cs' :
  only names cs cs' -> COLUMN_FAMILY_NAME S ∉ names -> cs_writes S cs cs' [].
Proof. intros Ho Hn. exists []. rewrite app_nil_r. split; [done|by apply Ho]. Qed.

(** Membership and inclusion of families, by evaluation. *)
Ltac names := apply (bool_decide_unpack _); by vm_compute.
(** Decompose the puts of a successful step and chain what they leave alone. *)
Ltac only_step :=
  match goal with
  | |- only _ ?cs ?cs => apply only_refl
  | H : ChangeSet.put _ _ _ ?cs = Ok ?cs1 |- only _ ?cs _ =>
      eapply only_trans; [eapply (only_put _ _ _ _ _ _ H); names|]; clear H
  end.

Ltac frame names_ := apply (only_writes _ names_); [|names].

Section frames.
Context `{LedgerBcs}.

Lemma put_event_only version x cs cs' :
  EventStore.put_event version x cs = Ok cs' ->
  only ["event"; "event_by_key"; "event_by_version"; "event_accumulator"] cs cs'.
Proof. destruct x as [i e]. unfold EventStore.put_event. intros Hp. run_ok. repeat only_step. Qed.

Lemma put_events_only event_hasher `{CryptoHash ContractEvent} version events cs h cs' :
  EventStore.put_events event_hasher version events cs = Ok (h, cs') ->
  only ["event"; "event_by_key"; "event_by_version"; "event_accumulator"] cs cs'.
Proof.
  unfold EventStore.put_events. intros Hp. run_ok. repeat case_match. run_ok. simplify_eq.
  eapply only_trans; [|eapply (only_trans _ _ _ _)].
  - instantiate (1 := ChangeSet.set_bumps version x cs). by intros cf.
  - by eapply (only_fold _ id); [intros a s s'; apply put_event_only|].
  - eapply (only_fold _ id); [|done]. intros a s s' Hs. by eapply (only_put _ _ _ _ _ _ Hs); names.
Qed.

Lemma put_value_sets_only `{Bcs AccessPath} `{Bcs StateValue} sets first_version cs cs' :
  put_value_sets sets first_version cs = Ok cs' -> only ["state_value"] cs cs'.
Proof.
  unfold put_value_sets, add_kv_batch. intros Hp. run_ok. simplify_eq.
  eapply (only_fold _ (fun b => mkChangeSet b (cs_counter_bumps cs)) _ _ (cs_batch cs)); [|done].
  intros a s s' Hs. eapply (only_put StateValueSchema); [|names].
  unfold ChangeSet.put. cbn [cs_batch]. by rewrite Hs.
Qed.

Lemma put_transaction_only `{CryptoHash Transaction} version t cs cs' :
  TransactionStore.put_transaction version t cs = Ok cs' ->
  only ["transaction_by_account"; "transaction_by_hash"; "transaction"] cs cs'.
Proof.
  unfold TransactionStore.put_transaction. intros Hp. run_ok.
  destruct t; simplify_eq; repeat only_step.
Qed.

Lemma put_infos_only `{MerkleHasher} `{CryptoHash TransactionInfo} `{RocksDb D It} (store : LedgerStore D) first_version infos cs h cs' :
  LedgerStore.put_transaction_infos store first_version infos cs = Ok (h, cs') ->
  only ["transaction_info"; "transaction_accumulator"] cs cs'.
Proof.
  unfold LedgerStore.put_transaction_infos. intros Hp. run_ok. repeat case_match. run_ok. simplify_eq.
  eapply only_trans; (eapply (only_fold _ id); [|done]);
    intros a s s' Hs; by eapply (only_put _ _ _ _ _ _ Hs); names.
Qed.

Lemma put_ledger_info_only li cs cs' :
  LedgerStore.put_ledger_info li cs = Ok cs' -> only ["epoch_by_version"; "ledger_info"] cs cs'.
Proof.
  unfold LedgerStore.put_ledger_info. intros Hp. run_ok.
  destruct (LedgerInfo.ends_epoch _); simplify_eq; repeat only_step.
Qed.

Lemma bump_counters_only `{RocksDb D It} (db : D) first_version last_version cs c cs' :
  SystemStore.bump_ledger_counters db first_version last_version cs = Ok (c, cs') ->
  only ["ledger_counters"] cs cs'.
Proof.
  unfold SystemStore.bump_ledger_counters. intros Hp. run_ok.
  match goal with Hf : try_fold _ _ _ = Ok _ |- _ => apply (only_fold _ snd ["ledger_counters"]) in Hf; [exact Hf|] end.
  intros v [c1 s] [c2 s'] Hs. unfold SystemStore.bump_version in Hs. run_ok. simplify_eq. cbn [snd].
  eapply only_trans; [|by eapply (only_put LedgerCountersSchema); [done|names]]. by intros cf.
Qed.
End frames.

(** ** The rows that are added *)
Lemma concat_singletons {A B} (f : A -> B) l : concat ((fun a => [f a]) <$> l) = f <$> l.
Proof. induction l as [|a l IH]; [done|]. cbn. by f_equal. Qed.

Lemma cs_fold_map {K V A} (S : Schema K V) (f : A -> ChangeSet -> result ChangeSet) (g : A -> K * V) xs cs cs' :
  (forall a s s', a ∈ xs -> f a s = Ok s' -> cs_writes S s s' [g a]) ->
  try_fold f xs cs = Ok cs' -> cs_writes S cs cs' (g <$> xs).
Proof. intros Hf Hr. rewrite <-concat_singletons. by apply (cs_fold S f (fun a => [g a])). Qed.

Definition numbered {A} (first : N) (l : list A) : list (N * A) := zip (count_from first (length l)) l.

(** The rows of the event table for one version. *)
Definition event_rows (x : Version * TransactionToCommit) : list ((Version * N) * ContractEvent) :=
  (fun y => ((x.1, y.1), y.2)) <$> numbered 0 (ttc_events x.2).

Section rows.
Context `{LedgerBcs} `{RocksDb D It} `{MerkleHasher} (event_hasher : HashValue -> HashValue -> HashValue).
Context `{Bcs AccessPath} `{Bcs StateValue}.
Context `{CryptoHash TransactionInfo} `{CryptoHash Transaction} `{CryptoHash ContractEvent}.

Lemma put_events_rows v t cs h cs' :
  EventStore.put_events event_hasher v (ttc_events t) cs = Ok (h, cs') ->
  cs_writes EventSchema cs cs' (event_rows (v, t)).
Proof.
  unfold EventStore.put_events. intros Hp. run_ok. repeat case_match. run_ok. simplify_eq.
  eapply cs_trans; [| |symmetry; apply app_nil_r].
  - eapply (cs_fold_map EventSchema _ (fun y => ((v, y.1), y.2)) _ (ChangeSet.set_bumps v x cs)); [|eassumption].
    intros [i e] s s' _ Hs. unfold EventStore.put_event in Hs. run_ok.
    eapply cs_trans; [by eapply cs_put| |symmetry; apply app_nil_r]. cbn [fst snd].
    frame (["event_by_key"; "event_by_version"]). repeat only_step.
  - frame (["event_accumulator"]).
    eapply (only_fold _ id); [|eassumption]. intros a s s' Hs. eapply (only_put _ _ _ _ _ _ Hs); names.
Qed.

Lemma put_transaction_rows v t cs cs' :
  TransactionStore.put_transaction v t cs = Ok cs' -> cs_writes TransactionSchema cs cs' [(v, t)].
Proof.
  unfold TransactionStore.put_transaction. intros Hp. run_ok.
  eapply cs_trans; [|by eapply cs_put|by rewrite app_nil_l].
  frame (["transaction_by_account"; "transaction_by_hash"]). destruct t; simplify_eq; repeat only_step.
Qed.

Lemma put_infos_rows (store : LedgerStore D) first_version infos cs h cs' :
  LedgerStore.put_transaction_infos store first_version infos cs = Ok (h, cs') ->
  cs_writes TransactionInfoSchema cs cs' (numbered first_version infos) /\
  exists ns, MerkleAccumulator.append store first_version (hash <$> infos) = Ok (h, ns) /\
    cs_writes TransactionAccumulatorSchema cs cs' ns.
Proof.
  unfold LedgerStore.put_transaction_infos. intros Hp. run_ok. repeat case_match. run_ok. simplify_eq.
  rewrite range64_count in *. split.
  - eapply cs_trans; [| |symmetry; apply app_nil_r].
    + unfold numbered. rewrite <-(list_fmap_id (zip _ _)).
      eapply (cs_fold_map TransactionInfoSchema _ id); [|eassumption]. intros [] s s' _ Hs. by apply cs_put.
    + frame (["transaction_accumulator"]).
      eapply (only_fold _ id); [|eassumption]. intros a s s' Hs. eapply (only_put _ _ _ _ _ _ Hs); names.
  - eexists. split; [done|]. eapply cs_trans; [| |by rewrite app_nil_l].
    + frame (["transaction_info"]).
      eapply (only_fold _ id); [|eassumption]. intros a s s' Hs. eapply (only_put _ _ _ _ _ _ Hs); names.
    + match goal with Hf : try_fold (fun w => ChangeSet.put TransactionAccumulatorSchema _ _) ?l _ = Ok _ |- _ =>
        rewrite <-(list_fmap_id l); eapply (cs_fold_map TransactionAccumulatorSchema _ id); [|exact Hf] end.
      intros [] s s' _ Hs. by apply cs_put.
Qed.

Lemma put_ledger_info_rows x cs cs' :
  LedgerStore.put_ledger_info x cs = Ok cs' ->
  cs_writes LedgerInfoSchema cs cs' [(LedgerInfo.epoch (lis_ledger_info x), x)] /\
  cs_writes EpochByVersionSchema cs cs'
    (if LedgerInfo.ends_epoch (lis_ledger_info x)
     then [(LedgerInfo.version (lis_ledger_info x), LedgerInfo.epoch (lis_ledger_info x))] else []).
Proof.
  unfold LedgerStore.put_ledger_info. intros Hp. run_ok.
  match goal with Hs : ChangeSet.put LedgerInfoSchema _ _ _ = Ok _ |- _ => rename Hs into Hput end. split.
  - eapply cs_trans; [|by eapply cs_put|by rewrite app_nil_l]. destruct (LedgerInfo.ends_epoch _); simplify_eq.
    + frame (["epoch_by_version"]). repeat only_step.
    + apply cs_refl.
  - eapply cs_trans; [| |symmetry; apply app_nil_r].
    + destruct (LedgerInfo.ends_epoch _); simplify_eq; [by apply cs_put|apply cs_refl].
    + frame (["ledger_info"]). repeat only_step.
Qed.

(** The families of transactions, as opposed to ledger infos and counters. *)
Definition entry_families : list string :=
  ["state_value"; "event"; "event_by_key"; "event_by_version"; "event_accumulator";
   "transaction_by_account"; "transaction_by_hash"; "transaction"; "write_set";
   "transaction_info"; "transaction_accumulator"].

Record entry_rows (store : LedgerStore D) (first : Version) (xs : list TransactionToCommit) (root : HashValue)
    (cs cs' : ChangeSet) : Prop := {
  er_txn : cs_writes TransactionSchema cs cs' ((fun x => (x.1, ttc_transaction x.2)) <$> numbered first xs);
  er_write_set : cs_writes WriteSetSchema cs cs' ((fun x => (x.1, ttc_write_set x.2)) <$> numbered first xs);
  er_event : cs_writes EventSchema cs cs' (concat (event_rows <$> numbered first xs));
  er_info : cs_writes TransactionInfoSchema cs cs' (numbered first (ttc_transaction_info <$> xs));
  er_acc : exists ns, MerkleAccumulator.append store first (hash <$> (ttc_transaction_info <$> xs)) = Ok (root, ns) /\
             cs_writes TransactionAccumulatorSchema cs cs' ns;
  er_events : Forall (fun t => N.of_nat (length (ttc_events t)) <= u64_max) xs;
  er_only : only entry_families cs cs';
}.

Lemma events_phase first xs cs cs' :
  try_fold (fun x cs => r ← EventStore.put_events event_hasher x.1 (ttc_events x.2) cs; Ok r.2) (numbered first xs) cs = Ok cs' ->
  only ["event"; "event_by_key"; "event_by_version"; "event_accumulator"] cs cs' /\
  cs_writes EventSchema cs cs' (concat (event_rows <$> numbered first xs)).
Proof.
  intros He. split.
  - eapply (only_fold _ id); [|exact He]. intros x s s' Hx. apply bind_Ok in Hx as ([h s1] & Hx & [= <-]).
    by eapply put_events_only.
  - eapply (cs_fold EventSchema); [|exact He]. intros [v t] s s' _ Hx. apply bind_Ok in Hx as ([h s1] & Hx & [= <-]).
    by eapply put_events_rows.
Qed.

(** The number of events of a transaction is counted in 64 bits. *)
Lemma events_phase_bound first xs cs cs' :
  try_fold (fun x cs => r ← EventStore.put_events event_hasher x.1 (ttc_events x.2) cs; Ok r.2) (numbered first xs) cs = Ok cs' ->
  Forall (fun t => N.of_nat (length (ttc_events t)) <= u64_max) xs.
Proof.
  revert first cs. induction xs as [|t xs IH]; intros first cs He; [constructor|].
  cbn in He. apply bind_Ok in He as (cs1 & Hx & He). constructor; [|by eapply IH].
  apply bind_Ok in Hx as (r & Hx & _). unfold EventStore.put_events in Hx. apply bind_Ok in Hx as (b & Hx & _).
  unfold InnerLedgerCounters.inc, InnerLedgerCounters.raw_inc in Hx. run_ok. lia.
Qed.

Lemma transactions_phase first xs cs cs' :
  try_fold (fun x cs => cs ← TransactionStore.put_transaction x.1 (ttc_transaction x.2) cs;
                        TransactionStore.put_write_set x.1 (ttc_write_set x.2) cs) (numbered first xs) cs = Ok cs' ->
  only ["transaction_by_account"; "transaction_by_hash"; "transaction"; "write_set"] cs cs' /\
  cs_writes TransactionSchema cs cs' ((fun x => (x.1, ttc_transaction x.2)) <$> numbered first xs) /\
  cs_writes WriteSetSchema cs cs' ((fun x => (x.1, ttc_write_set x.2)) <$> numbered first xs).
Proof.
  intros Ht. split_and!.
  - eapply (only_fold _ id); [|exact Ht]. intros x s s' Hx. apply bind_Ok in Hx as (s1 & Hx & Hw).
    eapply only_trans; [eapply only_sub, put_transaction_only, Hx; names|].
    eapply (only_put WriteSetSchema); [exact Hw|names].
  - eapply (cs_fold_map TransactionSchema); [|exact Ht]. intros [v t] s s' _ Hx. apply bind_Ok in Hx as (s1 & Hx & Hw).
    eapply cs_trans; [by eapply put_transaction_rows| |symmetry; apply app_nil_r].
    frame (["write_set"]). eapply (only_put WriteSetSchema); [exact Hw|names].
  - eapply (cs_fold_map WriteSetSchema); [|exact Ht]. intros [v t] s s' _ Hx. apply bind_Ok in Hx as (s1 & Hx & Hw).
    eapply cs_trans; [|by eapply cs_put|by rewrite app_nil_l].
    frame (["transaction_by_account"; "transaction_by_hash"; "transaction"]). by eapply put_transaction_only.
Qed.

Lemma impl_rows (self : AptosDB D) xs first cs root cs' :
  AptosDB.save_transactions_impl event_hasher self xs first cs = Ok (root, cs') ->
  entry_rows (adb_ledger_store self) first xs root cs cs' /\ first + N.of_nat (length xs) <= u64_max /\
  1 <= first + N.of_nat (length xs).
Proof.
  unfold AptosDB.save_transactions_impl. intros Hs. run_ok. subst.
  assert (range64 first (first + N.of_nat (length xs) - 1 + 1) = count_from first (length xs)) as Hr
    by (rewrite <-range64_count; f_equal; lia).
  rewrite Hr in *. change (zip (count_from first (length xs)) xs) with (numbered first xs) in *.
  rename x1 into cs1, x2 into cs2, x3 into cs3.
  match goal with H1 : put_value_sets _ _ cs = Ok cs1, H2 : try_fold _ _ cs1 = Ok cs2, H3 : try_fold _ _ cs2 = Ok cs3,
    H4 : LedgerStore.put_transaction_infos _ _ _ cs3 = Ok _ |- _ => rename H1 into Hv, H2 into He, H3 into Ht, H4 into Hi end.
  apply put_value_sets_only in Hv. destruct (events_phase _ _ _ _ He) as [Heo Her].
  destruct (transactions_phase _ _ _ _ Ht) as (Hto & Htr & Hwr).
  destruct (put_infos_rows _ _ _ _ _ _ Hi) as (Hir & ns & Hns & Har). apply put_infos_only in Hi.
  assert (only (take 5 entry_families) cs cs2) as Hbefore
    by (eapply only_trans; (eapply only_sub; [|eassumption]); names).
  assert (only (take 9 entry_families) cs cs3) as Hearlier
    by (eapply only_trans; (eapply only_sub; [|eassumption]); names).
  assert (only (drop 5 entry_families) cs2 cs') as Hlater
    by (eapply only_trans; (eapply only_sub; [|eassumption]); names).
  split; [|lia]. split.
  - eapply cs_trans; [frame (take 5 entry_families); exact Hbefore| |by rewrite app_nil_l].
    eapply cs_trans; [exact Htr| |symmetry; apply app_nil_r]. frame (["transaction_info"; "transaction_accumulator"]). exact Hi.
  - eapply cs_trans; [frame (take 5 entry_families); exact Hbefore| |by rewrite app_nil_l].
    eapply cs_trans; [exact Hwr| |symmetry; apply app_nil_r]. frame (["transaction_info"; "transaction_accumulator"]). exact Hi.
  - eapply cs_trans; [frame (["state_value"]); exact Hv| |by rewrite app_nil_l].
    eapply cs_trans; [exact Her| |symmetry; apply app_nil_r]. frame (drop 5 entry_families). exact Hlater.
  - eapply cs_trans; [|exact Hir|by rewrite app_nil_l]. frame (take 9 entry_families). exact Hearlier.
  - exists ns. split; [exact Hns|]. eapply cs_trans; [|exact Har|by rewrite app_nil_l]. frame (take 9 entry_families). exact Hearlier.
  - by eapply events_phase_bound.
  - eapply only_trans; (eapply only_sub; [|eassumption]); names.
Qed.

(** The batch that is committed. *)
Definition tail_families : list string := ["epoch_by_version"; "ledger_info"; "ledger_counters"].

Record batch_rows (store : LedgerStore D) (first : Version) (xs : list TransactionToCommit)
    (li : option LedgerInfoWithSignatures) (batch : SchemaBatch) : Prop := {
  br_txn : writes TransactionSchema SchemaBatch.new batch ((fun x => (x.1, ttc_transaction x.2)) <$> numbered first xs);
  br_write_set : writes WriteSetSchema SchemaBatch.new batch ((fun x => (x.1, ttc_write_set x.2)) <$> numbered first xs);
  br_event : writes EventSchema SchemaBatch.new batch (concat (event_rows <$> numbered first xs));
  br_info : writes TransactionInfoSchema SchemaBatch.new batch (numbered first (ttc_transaction_info <$> xs));
  br_acc : exists root ns, MerkleAccumulator.append store first (hash <$> (ttc_transaction_info <$> xs)) = Ok (root, ns) /\
             writes TransactionAccumulatorSchema SchemaBatch.new batch ns /\
             (forall x, li = Some x -> root = LedgerInfo.transaction_accumulator_hash (lis_ledger_info x));
  br_ledger_info : writes LedgerInfoSchema SchemaBatch.new batch
    (match li with Some x => [(LedgerInfo.epoch (lis_ledger_info x), x)] | None => [] end);
  br_epoch : writes EpochByVersionSchema SchemaBatch.new batch
    (match li with
     | Some x => if LedgerInfo.ends_epoch (lis_ledger_info x)
                 then [(LedgerInfo.version (lis_ledger_info x), LedgerInfo.epoch (lis_ledger_info x))] else []
     | None => []
     end);
  br_events : Forall (fun t => N.of_nat (length (ttc_events t)) <= u64_max) xs;
  br_bound : first + N.of_nat (length xs) <= u64_max;
  br_version : forall x, li = Some x -> LedgerInfo.version (lis_ledger_info x) + 1 = first + N.of_nat (length xs);
}.

Lemma rows_then {K V} (S : Schema K V) cs1 cs3 l names :
  cs_writes S ChangeSet.new cs1 l -> only names cs1 cs3 -> COLUMN_FAMILY_NAME S ∉ names ->
  writes S SchemaBatch.new (cs_batch cs3) l.
Proof.
  intros Hw Ho Hn. rewrite <-(app_nil_r l). eapply writes_trans; [exact Hw|]. by eapply (only_writes S).
Qed.

Lemma seal_only (self : AptosDB D) first n cs batch counters :
  AptosDB.seal_change_set self first n cs = Ok (batch, counters) ->
  exists cs', cs_batch cs' = batch /\ only ["ledger_counters"] cs cs'.
Proof.
  unfold AptosDB.seal_change_set. intros Hs. destruct (0 <? n); run_ok; simplify_eq.
  - match goal with Hb : SystemStore.bump_ledger_counters _ _ _ _ = Ok ?r |- _ =>
      destruct r as [c cs']; apply bump_counters_only in Hb; by exists cs' end.
  - exists cs. split; [done|apply only_refl].
Qed.

Lemma tail_rows root li cs cs' :
  match li with
  | Some x =>
      _ ← ensure (root =? LedgerInfo.transaction_accumulator_hash (lis_ledger_info x))
            (Msg "Root hash calculated doesn't match expected.");
      LedgerStore.put_ledger_info x cs
  | None => Ok cs
  end = Ok cs' ->
  only ["epoch_by_version"; "ledger_info"] cs cs' /\
  cs_writes LedgerInfoSchema cs cs'
    (match li with Some x => [(LedgerInfo.epoch (lis_ledger_info x), x)] | None => [] end) /\
  cs_writes EpochByVersionSchema cs cs'
    (match li with
     | Some x => if LedgerInfo.ends_epoch (lis_ledger_info x)
                 then [(LedgerInfo.version (lis_ledger_info x), LedgerInfo.epoch (lis_ledger_info x))] else []
     | None => []
     end) /\
  (forall x, li = Some x -> root = LedgerInfo.transaction_accumulator_hash (lis_ledger_info x)).
Proof.
  destruct li as [x|]; intros Hp.
  - apply bind_Ok in Hp as (? & Hroot%ensure_Ok%N.eqb_eq & Hp). destruct (put_ledger_info_rows _ _ _ Hp) as [Hl He].
    split_and!; [by eapply put_ledger_info_only|done|done|by intros ? [= <-]].
  - injection Hp as <-. split_and!; [apply only_refl|apply cs_refl|apply cs_refl|done].
Qed.

Lemma prepare_rows (self : AptosDB D) xs first li st batch counters :
  AptosDB.prepare_transactions event_hasher self xs first li st = Ok (batch, counters) ->
  batch_rows (adb_ledger_store self) first xs li batch.
Proof.
  unfold AptosDB.prepare_transactions. intros Hp. run_ok.
  match goal with H1 : AptosDB.save_transactions_impl _ _ _ _ _ = Ok ?x, H2 : match li with _ => _ end = Ok _ |- _ =>
    rename H1 into Hi, H2 into Hver; destruct x as [root cs1] end.
  apply bind_Ok in Hp as (cs2 & Hli & Hp). apply bind_Ok in Hp as (? & _ & Hseal).
  destruct (impl_rows _ _ _ _ _ _ Hi) as ([Htx Hws Hev Hin (ns & Hns & Hacc) Hlen Ho1] & Hb1 & Hb2).
  destruct (tail_rows _ _ _ _ Hli) as (Ho2 & Hlr & Her & Hroot).
  destruct (seal_only _ _ _ _ _ _ Hseal) as (cs3 & <- & Ho3).
  assert (only tail_families cs1 cs3) as Ht by (eapply only_trans; (eapply only_sub; [|eassumption]); names).
  split.
  - apply (rows_then _ _ _ _ _ Htx Ht). names.
  - apply (rows_then _ _ _ _ _ Hws Ht). names.
  - apply (rows_then _ _ _ _ _ Hev Ht). names.
  - apply (rows_then _ _ _ _ _ Hin Ht). names.
  - exists root, ns. split_and!; [exact Hns|apply (rows_then _ _ _ _ _ Hacc Ht); names|exact Hroot].
  - eapply (rows_then LedgerInfoSchema); [|exact Ho3|names]. eapply cs_trans; [frame entry_families; exact Ho1|exact Hlr|done].
  - eapply (rows_then EpochByVersionSchema); [|exact Ho3|names]. eapply cs_trans; [frame entry_families; exact Ho1|exact Her|done].
  - exact Hlen.
  - exact Hb1.
  - intros y ->. apply ensure_Ok, N.eqb_eq in Hver. lia.
Qed.
End rows.

(** ** The ledger after the commit *)
Definition extend_ledger (L : AbstractLedger) (xs : list TransactionToCommit)
    (li : option LedgerInfoWithSignatures) : AbstractLedger :=
  mkAbstractLedger (al_entries L ++ xs)
    (match li with
     | Some x => <[LedgerInfo.epoch (lis_ledger_info x) := x]> (al_ledger_infos L)
     | None => al_ledger_infos L
     end)
    (match li with
     | Some x => if LedgerInfo.ends_epoch (lis_ledger_info x)
                 then <[LedgerInfo.version (lis_ledger_info x) := LedgerInfo.epoch (lis_ledger_info x)]> (al_epoch_ends L)
                 else al_epoch_ends L
     | None => al_epoch_ends L
     end)
    (al_first L).

Lemma elem_of_numbered {A} first (xs : list A) k x :
  (k, x) ∈ numbered first xs <-> first <= k /\ xs !! N.to_nat (k - first) = Some x.
Proof.
  unfold numbered. revert first. induction xs as [|y xs IH]; intros first.
  - cbn. rewrite elem_of_nil, lookup_nil. naive_solver.
  - cbn [length count_from zip zip_with]. rewrite elem_of_cons, IH. split.
    + intros [[= -> ->]|[Hle Hl]]; [rewrite N.sub_diag; split; [lia|done]|].
      split; [lia|]. replace (N.to_nat (k - first)) with (S (N.to_nat (k - (first + 1)))) by lia. done.
    + intros [Hle Hl]. destruct (decide (k = first)) as [->|Hne].
      * left. rewrite N.sub_diag in Hl. change (Some y = Some x) in Hl. by injection Hl as ->.
      * right. split; [lia|]. replace (N.to_nat (k - first)) with (S (N.to_nat (k - (first + 1)))) in Hl by lia. done.
Qed.

Lemma numbered_append {A} (l xs : list A) k x :
  (k, x) ∈ numbered (N.of_nat (length l)) xs <-> (length l <= N.to_nat k)%nat /\ (l ++ xs) !! N.to_nat k = Some x.
Proof.
  rewrite elem_of_numbered. split; intros [Hle Hl]; (split; [lia|]).
  - rewrite lookup_app_r by lia. by replace (N.to_nat k - length l)%nat with (N.to_nat (k - N.of_nat (length l))) by lia.
  - rewrite lookup_app_r in Hl by lia. by replace (N.to_nat (k - N.of_nat (length l))) with (N.to_nat k - length l)%nat by lia.
Qed.

Lemma numbered_absent {A} (l xs : list A) k :
  (forall x, (k, x) ∉ numbered (N.of_nat (length l)) xs) -> l !! N.to_nat k = (l ++ xs) !! N.to_nat k.
Proof.
  intros Hk. destruct (decide (N.to_nat k < length l)%nat) as [Hlt|Hge]; [by rewrite lookup_app_l|].
  rewrite lookup_ge_None_2 by lia. destruct ((l ++ xs) !! N.to_nat k) as [x|] eqn:Hx; [|done].
  destruct (Hk x). apply numbered_append. split; [lia|done].
Qed.

Lemma numbered_fmap {A B} (f : A -> B) first xs :
  numbered first (f <$> xs) = (fun x => (x.1, f x.2)) <$> numbered first xs.
Proof.
  unfold numbered. rewrite length_fmap. revert first. induction xs as [|x xs IH]; intros first; [done|].
  cbn. f_equal. apply IH.
Qed.

(** A column of the entries. *)
Section column.
Context `{RocksDbLaws D It} {B V : Type} (S : Schema Version V) (g : B -> V).
Context (Hkey : forall k, k <= u64_max -> key_round S k) (Hval : forall v, value_round S v).

Lemma column_commit (d d' : D) (l xs : list B) (lo : N) batch :
  lo <= N.of_nat (length l) -> has_table S d (fun v => g <$> (if v <? lo then None else l !! N.to_nat v)) ->
  writes S SchemaBatch.new batch ((fun x => (x.1, g x.2)) <$> numbered (N.of_nat (length l)) xs) ->
  db_rows d' (COLUMN_FAMILY_NAME S) = foldl apply_op (db_rows d (COLUMN_FAMILY_NAME S)) (batch_ops batch (COLUMN_FAMILY_NAME S)) ->
  N.of_nat (length (l ++ xs)) <= u64_max ->
  has_table S d' (fun v => g <$> (if v <? lo then None else (l ++ xs) !! N.to_nat v)).
Proof.
  intros Hlo Ht Hw Hd Hlen. eapply has_table_commit; [exact Ht|exact Hw|exact Hd| |].
  - intros k v Hin. apply list_elem_of_fmap in Hin as ([k' x] & [= -> ->] & Hin).
    apply numbered_append in Hin as [Hle Hx]. rewrite (proj2 (N.ltb_ge k' lo)), Hx by lia.
    split_and!; [done| |apply Hval]. apply Hkey. apply lookup_lt_Some in Hx. lia.
  - intros k Hk. cbv beta. f_equal. destruct (k <? lo); [done|]. apply numbered_absent. intros x Hin. apply Hk.
    apply list_elem_of_fmap. exists (k, g x). split; [done|]. apply list_elem_of_fmap. by exists (k, x).
Qed.
End column.

(** The accumulator. *)
Lemma insert_all_value {K V} `{Countable K} (l : list (K * V)) (m : gmap K V) k v :
  (forall v', (k, v') ∈ l -> v' = v) -> k ∈ l.*1 \/ m !! k = Some v -> insert_all l m !! k = Some v.
Proof.
  revert m. induction l as [|[k' v'] l IH]; intros m Hl Hk; [destruct Hk as [Hk|Hk]; [by apply elem_of_nil in Hk|done]|].
  cbn. apply (IH (<[k':=v']> m)); [intros v0 Hin; apply Hl; by right|].
  destruct (decide (k = k')) as [->|Hne].
  - right. rewrite lookup_insert_eq. f_equal. apply Hl. left.
  - rewrite lookup_insert_ne by done. destruct Hk as [Hk|Hk]; [|by right]. left. cbn in Hk. set_solver.
Qed.

Lemma pos_at_inj n j q j' q' :
  N.of_nat n <= 2 ^ 63 -> full n j q -> full n j' q' -> pos_at j q = pos_at j' q' -> j = j' /\ q = q'.
Proof.
  intros Hn Hf Hf' He.
  pose proof (fits_node n j q Hn (full_lt _ _ _ Hf) (full_level _ _ _ Hn Hf)) as Hfit.
  pose proof (fits_node n j' q' Hn (full_lt _ _ _ Hf') (full_level _ _ _ Hn Hf')) as Hfit'.
  pose proof (level_inorder _ _ Hfit) as Hl. pose proof (level_inorder _ _ Hfit') as Hl'.
  unfold pos_at in He. rewrite He, Hl' in Hl. apply Nat2N.inj in Hl. subst j'. split; [done|].
  pose proof (shiftr_inorder (N.of_nat j) (N.of_nat q)) as Hs.
  pose proof (shiftr_inorder (N.of_nat j) (N.of_nat q')) as Hs'. rewrite He, Hs' in Hs. by apply Nat2N.inj in Hs.
Qed.

Lemma node_bound `{MerkleHasher} (l : list HashValue) j q b :
  (forall x y, hash_internal x y < b) -> Forall (fun x => x < b) l -> ACCUMULATOR_PLACEHOLDER_HASH < b -> node l j q < b.
Proof.
  intros Hh Hl Hp. unfold node.
  assert (forall k l, Forall (fun x => x < b) l -> subtree k l < b) as Hsub.
  { intros [|k] [|x l'] Hl'; cbn; try done. by apply Forall_cons in Hl' as [? _]. }
  apply Hsub, Forall_take, Forall_drop, Hl.
Qed.

Lemma elem_of_concat {A} (x : A) ls : x ∈ concat ls <-> exists l, l ∈ ls /\ x ∈ l.
Proof.
  rewrite list_elem_of_In, in_concat. apply exist_proper. intros l. by rewrite !list_elem_of_In.
Qed.

Section commit.
Context `{LedgerBcs} `{!LedgerBcsLaws} `{RocksDbLaws D It} `{MerkleHasher} `{CryptoHash TransactionInfo} `{!HashWidth}.
Context (event_hasher : HashValue -> HashValue -> HashValue).
Context `{CryptoHash Transaction} `{CryptoHash ContractEvent} `{Bcs AccessPath} `{Bcs StateValue}.

Lemma accumulator_commit (d d' : D) (m : gmap Position HashValue) (l xs : list HashValue) ns batch :
  N.of_nat (length (l ++ xs)) < 2 ^ 63 -> Forall (fun x => x < 2 ^ 256) (l ++ xs) ->
  table TransactionAccumulatorSchema (db_rows d (COLUMN_FAMILY_NAME TransactionAccumulatorSchema)) m ->
  stores m l (length l) -> freezes (l ++ xs) (length l) ns ->
  writes TransactionAccumulatorSchema SchemaBatch.new batch ns ->
  db_rows d' (COLUMN_FAMILY_NAME TransactionAccumulatorSchema) =
    foldl apply_op (db_rows d (COLUMN_FAMILY_NAME TransactionAccumulatorSchema))
      (batch_ops batch (COLUMN_FAMILY_NAME TransactionAccumulatorSchema)) ->
  exists m', table TransactionAccumulatorSchema (db_rows d' (COLUMN_FAMILY_NAME TransactionAccumulatorSchema)) m' /\
    stores m' (l ++ xs) (length (l ++ xs)).
Proof.
  intros Hlen Hw Ht Hs Hf Hwr Hd. pose proof (freezes_nodes _ _ _ Hf) as Hnodes. rewrite Forall_forall in Hnodes.
  exists (insert_all ns m). split.
  - rewrite Hd. apply (writes_table _ SchemaBatch.new); [done| |done].
    apply Forall_forall. intros [p h] Hin. destruct (Hnodes _ Hin) as (j & q & Hfull & [= -> ->]).
    destruct (position_codec _ _ _ Hlen Hfull) as [He Hde]. split.
    + intros b Hb. cbn in Hb |- *. rewrite He in Hb. by injection Hb as <-.
    + intros w [= <-]. cbn [snd]. apply hash_codec. apply node_bound; [apply node_width|done|done].
  - assert (forall j q, full (length (l ++ xs)) j q ->
      (pos_at j q ∈ ns.*1 \/ m !! pos_at j q = Some (node (l ++ xs) j q)) ->
      insert_all ns m !! pos_at j q = Some (node (l ++ xs) j q)) as Hval.
    { intros j q Hfull Hor. apply insert_all_value; [|done]. intros h Hin.
      destruct (Hnodes _ Hin) as (j' & q' & Hfull' & [= Hp ->]).
      by destruct (pos_at_inj (length (l ++ xs)) _ _ _ _ ltac:(lia) Hfull Hfull' Hp) as [-> ->]. }
    eapply (freezes_stores (l ++ xs) (insert_all ns m) (length l) ns Hf).
    + intros j q Hfl. unfold reader_get, map_reader. rewrite Hval; [done|unfold full in *; rewrite length_app; lia|].
      right. apply (ok_or_Ok _ (Msg "not found")). exact (stores_app m l xs Hs j q Hfl).
    + intros p h Hin. destruct (Hnodes _ Hin) as (j & q & Hfull & [= -> ->]). unfold reader_get, map_reader.
      rewrite Hval; [done|done|]. left. apply list_elem_of_fmap. by exists (pos_at j q, node (l ++ xs) j q).
Qed.

Lemma event_commit (d d' : D) L xs li batch :
  al_first L <= N.of_nat (length (al_entries L)) -> has_table EventSchema d (event_at L) ->
  writes EventSchema SchemaBatch.new batch (concat (event_rows <$> numbered (N.of_nat (length (al_entries L))) xs)) ->
  db_rows d' (COLUMN_FAMILY_NAME EventSchema) =
    foldl apply_op (db_rows d (COLUMN_FAMILY_NAME EventSchema)) (batch_ops batch (COLUMN_FAMILY_NAME EventSchema)) ->
  N.of_nat (length (al_entries L ++ xs)) <= u64_max -> Forall (fun t => N.of_nat (length (ttc_events t)) <= u64_max) xs ->
  has_table EventSchema d' (event_at (extend_ledger L xs li)).
Proof.
  intros Hlo Ht Hw Hd Hlen Hev.
  assert (forall k e, (k, e) ∈ concat (event_rows <$> numbered (N.of_nat (length (al_entries L))) xs) <->
    exists t, (length (al_entries L) <= N.to_nat k.1)%nat /\ (al_entries L ++ xs) !! N.to_nat k.1 = Some t /\
      ttc_events t !! N.to_nat k.2 = Some e) as Hin.
  { intros [v i] e. rewrite elem_of_concat. cbn [fst snd]. split.
    - intros (rows & ([v' t] & -> & Hnum)%list_elem_of_fmap & Hrow).
      apply list_elem_of_fmap in Hrow as ([i' e'] & [= -> -> ->] & Hi). cbn [fst snd] in *.
      apply numbered_append in Hnum as [Hle Ht']. apply elem_of_numbered in Hi as [_ Hi]. rewrite N.sub_0_r in Hi.
      by exists t.
    - intros (t & Hle & Ht' & He). exists (event_rows (v, t)). split.
      + apply list_elem_of_fmap. exists (v, t). split; [done|]. by apply numbered_append.
      + apply list_elem_of_fmap. exists (i, e). split; [done|]. apply elem_of_numbered. rewrite N.sub_0_r. split; [lia|done]. }
  eapply has_table_commit; [exact Ht|exact Hw|exact Hd| |].
  - intros [v i] e (t & Hle & Ht' & He)%Hin. cbn [fst snd] in *. unfold event_at, entry_at. cbn [fst snd extend_ledger al_entries al_first].
    rewrite (proj2 (N.ltb_ge v (al_first L))), Ht' by lia. split_and!; [done| |intros w; apply bcs_round].
    assert (t ∈ xs) as Hxs by (rewrite lookup_app_r in Ht' by lia; by eapply list_elem_of_lookup_2).
    rewrite Forall_forall in Hev. pose proof (Hev t Hxs) as Hbound. apply lookup_lt_Some in Ht', He.
    intros b Hb. destruct (pair_codec (v, i)) as [Henc Hdec]; [cbn; lia..|]. cbn in Hb. rewrite Henc in Hb. by injection Hb as <-.
  - intros [v i] Hk. unfold event_at, entry_at. cbn [fst snd extend_ledger al_entries al_first].
    destruct (v <? al_first L); [done|].
    destruct (decide (N.to_nat v < length (al_entries L))%nat) as [Hlt|Hge]; [by rewrite lookup_app_l|].
    rewrite lookup_ge_None_2 by lia. cbn. destruct ((al_entries L ++ xs) !! N.to_nat v) as [t|] eqn:Ht'; [|done]. cbn.
    destruct (ttc_events t !! N.to_nat i) as [e|] eqn:He; [|done]. destruct Hk.
    apply list_elem_of_fmap. exists ((v, i), e). split; [done|]. apply Hin. exists t. cbn. split_and!; [lia|done|done].
Qed.

Lemma ledger_info_commit (d d' : D) L xs li batch :
  has_table LedgerInfoSchema d (fun e => al_ledger_infos L !! e) ->
  writes LedgerInfoSchema SchemaBatch.new batch
    (match li with Some x => [(LedgerInfo.epoch (lis_ledger_info x), x)] | None => [] end) ->
  db_rows d' (COLUMN_FAMILY_NAME LedgerInfoSchema) =
    foldl apply_op (db_rows d (COLUMN_FAMILY_NAME LedgerInfoSchema)) (batch_ops batch (COLUMN_FAMILY_NAME LedgerInfoSchema)) ->
  (forall x, li = Some x -> LedgerInfo.epoch (lis_ledger_info x) <= u64_max) ->
  has_table LedgerInfoSchema d' (fun e => al_ledger_infos (extend_ledger L xs li) !! e).
Proof.
  intros Ht Hw Hd Hb. eapply has_table_commit; [exact Ht|exact Hw|exact Hd| |]; destruct li as [x|]; cbn [extend_ledger al_ledger_infos].
  - intros k v [= -> ->]%list_elem_of_singleton. rewrite lookup_insert_eq. split_and!; [done| |intros w; apply bcs_round].
    intros b [= <-]. by apply u64_codec, Hb.
  - by intros k v ?%elem_of_nil.
  - intros k Hk. cbn in Hk. apply not_elem_of_cons in Hk as [Hne _]. by rewrite lookup_insert_ne.
  - done.
Qed.

Lemma epoch_commit (d d' : D) L xs li batch :
  has_table EpochByVersionSchema d (fun v => al_epoch_ends L !! v) ->
  writes EpochByVersionSchema SchemaBatch.new batch
    (match li with
     | Some x => if LedgerInfo.ends_epoch (lis_ledger_info x)
                 then [(LedgerInfo.version (lis_ledger_info x), LedgerInfo.epoch (lis_ledger_info x))] else []
     | None => []
     end) ->
  db_rows d' (COLUMN_FAMILY_NAME EpochByVersionSchema) =
    foldl apply_op (db_rows d (COLUMN_FAMILY_NAME EpochByVersionSchema)) (batch_ops batch (COLUMN_FAMILY_NAME EpochByVersionSchema)) ->
  (forall x, li = Some x -> LedgerInfo.epoch (lis_ledger_info x) <= u64_max /\ LedgerInfo.version (lis_ledger_info x) <= u64_max) ->
  has_table EpochByVersionSchema d' (fun v => al_epoch_ends (extend_ledger L xs li) !! v).
Proof.
  intros Ht Hw Hd Hb. eapply has_table_commit; [exact Ht|exact Hw|exact Hd| |]; (destruct li as [x|]; cbn [extend_ledger al_epoch_ends];
    [destruct (LedgerInfo.ends_epoch (lis_ledger_info x))|]).
  - intros k v [= -> ->]%list_elem_of_singleton. rewrite lookup_insert_eq. destruct (Hb x eq_refl).
    split_and!; [done|intros b [= <-]; by apply u64_codec|intros w [= <-]; by apply u64_codec].
  - by intros k v ?%elem_of_nil.
  - by intros k v ?%elem_of_nil.
  - intros k Hk. cbn in Hk. apply not_elem_of_cons in Hk as [Hne _]. by rewrite lookup_insert_ne.
  - done.
  - done.
Qed.

Lemma batch_holds (store : LedgerStore D) (d' : D) L xs li batch :
  db_holds (ls_db store) L -> batch_rows store (N.of_nat (length (al_entries L))) xs li batch ->
  (forall cf, db_rows d' cf = foldl apply_op (db_rows (ls_db store) cf) (batch_ops batch cf)) ->
  N.of_nat (length (al_entries L ++ xs)) < 2 ^ 63 -> N.of_nat (length xs) <= 2 ^ 62 ->
  (forall x, li = Some x -> LedgerInfo.epoch (lis_ledger_info x) <= u64_max) ->
  db_holds d' (extend_ledger L xs li) /\
  (forall x, li = Some x -> commits_to (lis_ledger_info x) (extend_ledger L xs li)).
Proof.
  intros Hh Hb Hd Hlen Hxs Hep. destruct store as [d latest]. cbn [ls_db] in *.
  assert (N.of_nat (length (al_entries L ++ xs)) <= u64_max) as Hmax by (unfold u64_max; lia).
  destruct (br_acc _ _ _ _ _ Hb) as (root & ns & Happ & Hns & Hroot).
  destruct (reader_refines d L Hh latest) as (r & Hs & Hr). apply (append_le _ r Hr) in Happ.
  rewrite <-(info_hashes_length L) in Happ.
  assert (info_hashes (extend_ledger L xs li) = info_hashes L ++ (hash <$> (ttc_transaction_info <$> xs))) as Hinfo
    by (unfold info_hashes; cbn [extend_ledger al_entries]; by rewrite !fmap_app).
  destruct (append_freezes r (info_hashes L) (hash <$> (ttc_transaction_info <$> xs))) as (ns' & Happ' & Hfr);
    [rewrite length_app, info_hashes_length, !length_fmap; rewrite length_app in Hlen; lia|by rewrite !length_fmap|done|].
  rewrite Happ in Happ'. injection Happ' as -> <-. split.
  - split.
    + exact Hlen.
    + pose proof (h_first _ _ Hh). cbn [extend_ledger al_entries al_first]. rewrite length_app. lia.
    + eapply column_commit; [intros k Hk b [= <-]; by apply u64_codec|intros v w; apply bcs_round|apply (h_first _ _ Hh)|apply (h_txn _ _ Hh)|apply Hb|apply Hd|done].
    + pose proof (br_info _ _ _ _ _ Hb) as Hi. rewrite numbered_fmap in Hi.
      eapply column_commit; [intros k Hk b [= <-]; by apply u64_codec|intros v w; apply bcs_round|apply (h_first _ _ Hh)|apply (h_info _ _ Hh)|exact Hi|apply Hd|done].
    + eapply column_commit; [intros k Hk b [= <-]; by apply u64_codec|intros v w; apply write_set_laws|apply (h_first _ _ Hh)|apply (h_write_set _ _ Hh)|apply Hb|apply Hd|done].
    + eapply event_commit; [apply (h_first _ _ Hh)|apply (h_event _ _ Hh)|apply Hb|apply Hd|done|apply Hb].
    + destruct (h_acc _ _ Hh) as (m & Ht & Hst). rewrite Hinfo. eapply accumulator_commit; [| |exact Ht|exact Hst|exact Hfr|exact Hns|apply Hd].
      * rewrite length_app, info_hashes_length, !length_fmap. rewrite length_app in Hlen. lia.
      * unfold info_hashes. rewrite <-fmap_app. apply Forall_fmap, Forall_true. intros i. apply info_width.
    + eapply ledger_info_commit; [apply (h_ledger_info _ _ Hh)|apply Hb|apply Hd|done].
    + eapply epoch_commit; [apply (h_epoch_end _ _ Hh)|apply Hb|apply Hd|].
      intros x Hx. split; [by apply Hep|]. pose proof (br_version _ _ _ _ _ Hb x Hx). rewrite length_app in Hmax. lia.
  - intros x Hx. pose proof (br_version _ _ _ _ _ Hb x Hx) as Hv. split.
    + cbn [extend_ledger al_entries]. rewrite length_app. lia.
    + rewrite <-(Hroot x Hx), Hinfo, take_ge; [done|].
      rewrite length_app, info_hashes_length, !length_fmap. lia.
Qed.
End commit.

(** ** Ledger infos stay true as the ledger grows *)
Definition ledger_ok `{MerkleHasher} `{CryptoHash TransactionInfo} (L : AbstractLedger) : Prop :=
  forall e li, al_ledger_infos L !! e = Some li ->
    commits_to (lis_ledger_info li) L /\ LedgerInfo.epoch (lis_ledger_info li) = e.

Lemma commits_to_extend `{MerkleHasher} `{CryptoHash TransactionInfo} L xs li x :
  commits_to x L -> commits_to x (extend_ledger L xs li).
Proof.
  intros [Hv Hr]. split.
  - cbn [extend_ledger al_entries]. rewrite length_app. lia.
  - rewrite Hr. unfold info_hashes. cbn [extend_ledger al_entries]. rewrite !fmap_app, take_app_le; [done|].
    rewrite !length_fmap. lia.
Qed.

Lemma ledger_ok_extend `{MerkleHasher} `{CryptoHash TransactionInfo} L xs li :
  ledger_ok L -> (forall x, li = Some x -> commits_to (lis_ledger_info x) (extend_ledger L xs li)) ->
  ledger_ok (extend_ledger L xs li).
Proof.
  intros Hok Hli e x Hx. cbn [extend_ledger al_ledger_infos] in Hx. destruct li as [y|].
  - destruct (decide (LedgerInfo.epoch (lis_ledger_info y) = e)) as [He|Hne].
    + rewrite He, lookup_insert_eq in Hx. injection Hx as ->. split; [by apply Hli|done].
    + rewrite lookup_insert_ne in Hx by done. destruct (Hok e x Hx). split; [by apply commits_to_extend|done].
  - destruct (Hok e x Hx). split; [by apply commits_to_extend|done].
Qed.

(** ** Saving *)
Section saving.
Context `{LedgerBcs} `{!LedgerBcsLaws} `{RocksDbLaws D It} `{MerkleHasher} `{CryptoHash TransactionInfo} `{!HashWidth}.
Context (event_hasher : HashValue -> HashValue -> HashValue).
Context `{CryptoHash Transaction} `{CryptoHash ContractEvent} `{Bcs AccessPath} `{Bcs StateValue}.

(** What a failed or successful call leaves: the old tables or the new ones. *)
Lemma db_holds_same (d d' : D) L : (forall cf, db_rows d' cf = db_rows d cf) -> db_holds d L -> db_holds d' L.
Proof.
  intros He []. split; try done; try (eapply has_table_eq; [apply He|done]). by rewrite He.
Qed.

(** A step that does not write to the database. *)
Definition db_kept {A} (m : method (AptosDB D) AnyError A) : Prop :=
  forall s r s', m s = (r, s') -> AptosDB.db s' = AptosDB.db s.

Lemma db_kept_bind {A B} (m : method (AptosDB D) AnyError A) (f : A -> method (AptosDB D) AnyError B) :
  db_kept m -> (forall a, db_kept (f a)) -> db_kept (m ≫= f).
Proof.
  intros Hm Hf s r s' Hr. apply method_bind_inv in Hr as [(a & t & Hx & Hy)|(q & Hx & _)].
  - rewrite (Hf a _ _ _ Hy). by eapply Hm.
  - by eapply Hm.
Qed.

Lemma db_kept_gets {A} (f : AptosDB D -> result A) : db_kept (gets f).
Proof. by intros s r s' [= _ <-]. Qed.
Lemma db_kept_lift {A} (m : result A) : db_kept (lift m).
Proof. by intros s r s' [= _ <-]. Qed.

(** Everything after the commit. *)
Definition after_commit (txns : list TransactionToCommit) (first : Version) (base : option Version)
    (li : option LedgerInfoWithSignatures) (sync : bool) (st : StateDelta) (counters : option LedgerCounters)
    : method (AptosDB D) AnyError unit :=
  _ ← gets (fun self =>
        ensure (bool_decide (base = sd_base_version (BufferedState.current_state (adb_buffered_state self))))
          (Msg "base_state_version does not equal to the base_version in buffered state"));
  u ← lift (AptosDB.updates_until_checkpoint txns first st);
  let '(updates, end_with_reconfig) := u in
  _ ← AptosDB.update_buffered updates st (end_with_reconfig || sync);
  _ ← lift (if 0 <? N.of_nat (length txns) then _ ← expect counters; Ok tt else Ok tt);
  _ ← match li with
      | Some x => puts (AptosDB.set_latest x)
      | None => mret tt
      end;
  gets (fun self =>
    match adb_indexer self with
    | Some index => index first (ttc_write_set <$> txns)
    | None => Ok tt
    end).

Lemma update_buffered_store updates st sync s r s' :
  AptosDB.update_buffered updates st sync s = (r, s') -> adb_ledger_store s' = adb_ledger_store (D := D) s.
Proof.
  unfold AptosDB.update_buffered. destruct (BufferedState.update _ _ _ _) as [r1 b]. by intros [= _ <-].
Qed.

Lemma after_commit_kept txns first base li sync st counters : db_kept (after_commit txns first base li sync st counters).
Proof.
  apply db_kept_bind; [apply db_kept_gets|]. intros _. apply db_kept_bind; [apply db_kept_lift|]. intros [u e].
  apply db_kept_bind; [intros s r s' Hu; unfold AptosDB.db; by rewrite (update_buffered_store _ _ _ _ _ _ Hu)|].
  intros _. apply db_kept_bind; [apply db_kept_lift|]. intros _. apply db_kept_bind; [|intros _; apply db_kept_gets].
  destruct li; by intros s r s' [= _ <-].
Qed.

Lemma after_commit_latest txns first base li sync st counters s s' :
  after_commit txns first base li sync st counters s = (Ok tt, s') ->
  ls_latest_ledger_info (adb_ledger_store s') =
    match li with Some x => Some x | None => ls_latest_ledger_info (adb_ledger_store s) end.
Proof.
  unfold after_commit. intros Hs. apply method_bind_Ok in Hs as (? & s1 & [_ ->]%gets_Ok & Hs).
  apply method_bind_Ok in Hs as ([u e] & s2 & [_ ->]%lift_Ok & Hs).
  apply method_bind_Ok in Hs as (? & s3 & Hu%update_buffered_store & Hs).
  apply method_bind_Ok in Hs as (? & s4 & [_ ->]%lift_Ok & Hs).
  apply method_bind_Ok in Hs as (? & s5 & Hl & [_ ->]%gets_Ok).
  destruct li; [by apply puts_Ok in Hl as ->|apply ret_Ok in Hl as [_ ->]; by rewrite Hu].
Qed.

Lemma save_inv (self self' : AptosDB D) xs first base li sync st r :
  AptosDB.save_transactions event_hasher xs first base li sync st self = (r, self') ->
  (self' = self /\ r <> Ok tt) \/
  exists batch counters d' w,
    AptosDB.prepare_transactions event_hasher self xs first li st = Ok (batch, counters) /\
    DB.write_schemas batch (AptosDB.db self) = (w, d') /\ AptosDB.db self' = d' /\
    (r = Ok tt -> w = Ok tt /\ ls_latest_ledger_info (adb_ledger_store self') =
      match li with Some x => Some x | None => ls_latest_ledger_info (adb_ledger_store self) end).
Proof.
  intros Hs. unfold AptosDB.save_transactions in Hs. apply gets_bind_inv in Hs as [([batch counters] & Hp & Hs)|[-> Hr]];
    [right|left; split; [done|apply Hr]]. exists batch, counters.
  change (_ ≫= _) with (AptosDB.commit batch ≫= fun _ => after_commit xs first base li sync st counters) in Hs.
  destruct (DB.write_schemas batch (AptosDB.db self)) as [w d'] eqn:Hw. exists d', w. split; [done|]. split; [done|].
  apply method_bind_inv in Hs as [(u & s1 & Hc & Hs)|(q & Hc & Hq & Hr & _)];
    unfold AptosDB.commit in Hc; rewrite Hw in Hc; injection Hc as -> <-.
  - rewrite (after_commit_kept _ _ _ _ _ _ _ _ _ _ Hs). split; [done|]. intros ->. destruct u.
    by rewrite (after_commit_latest _ _ _ _ _ _ _ _ _ Hs).
  - split; [done|]. intros ->. by destruct (Hr tt).
Qed.

Lemma save_holds (self self' : AptosDB D) L xs base li sync st r :
  db_holds (AptosDB.db self) L ->
  N.of_nat (length (al_entries L ++ xs)) < 2 ^ 63 -> N.of_nat (length xs) <= 2 ^ 62 ->
  (forall x, li = Some x -> LedgerInfo.epoch (lis_ledger_info x) <= u64_max) ->
  AptosDB.save_transactions event_hasher xs (N.of_nat (length (al_entries L))) base li sync st self = (r, self') ->
  (r <> Ok tt /\ db_holds (AptosDB.db self') L) \/
  (db_holds (AptosDB.db self') (extend_ledger L xs li) /\
   (forall x, li = Some x -> commits_to (lis_ledger_info x) (extend_ledger L xs li)) /\
   (r = Ok tt -> ls_latest_ledger_info (adb_ledger_store self') =
      match li with Some x => Some x | None => ls_latest_ledger_info (adb_ledger_store self) end)).
Proof.
  intros Hh Hlen Hxs Hep Hs. destruct (save_inv _ _ _ _ _ _ _ _ _ Hs) as [[-> Hr]|(batch & c & d' & w & Hp & Hw & Hd & Hok)];
    [by left|]. apply prepare_rows in Hp. destruct (write_schemas_rows _ _ _ _ Hw) as (_ & Hatomic & Happ).
  assert ((forall cf, db_rows d' cf = foldl apply_op (db_rows (AptosDB.db self) cf) (batch_ops batch cf)) ->
    db_holds d' (extend_ledger L xs li) /\ (forall x, li = Some x -> commits_to (lis_ledger_info x) (extend_ledger L xs li))) as Hnew.
  { intros Hrows. by eapply batch_holds. }
  rewrite Hd. destruct (decide (r = Ok tt)) as [->|Hne].
  - destruct (Hok eq_refl) as [-> Hlatest]. destruct (Hnew (Happ eq_refl)) as [H1' H2']. by right.
  - destruct Hatomic as [Hsame|Hrows].
    + left. split; [done|]. by eapply db_holds_same.
    + right. destruct (Hnew Hrows) as [H1' H2']. split_and!; [done|done|]. by intros ->.
Qed.
End saving.

(** ** Pruning *)
Definition prune_ledger (L : AbstractLedger) (target : Version) : AbstractLedger :=
  mkAbstractLedger (al_entries L) (al_ledger_infos L) (al_epoch_ends L) target.

Lemma entry_at_prune L target v :
  al_first L <= target ->
  entry_at (prune_ledger L target) v = if bool_decide (v ∈ range64 (al_first L) target) then None else entry_at L v.
Proof.
  intros Hle. unfold entry_at. cbn [prune_ledger al_first al_entries].
  destruct (N.ltb_spec v target), (N.ltb_spec v (al_first L)); case_bool_decide as Hin; rewrite elem_of_range64 in Hin; done || lia.
Qed.

Section pruning.
Context `{LedgerBcs} `{RocksDbLaws D It} `{MerkleHasher} `{CryptoHash TransactionInfo} `{CryptoHash Transaction}.
Context (d : D) (L : AbstractLedger) (Hh : db_holds d L).

Lemma has_table_prune {K V} `{Countable K} (S : Schema K V) (d' : D) f f' batch ks :
  has_table S d f -> removes S SchemaBatch.new batch ks ->
  db_rows d' (COLUMN_FAMILY_NAME S) = foldl apply_op (db_rows d (COLUMN_FAMILY_NAME S)) (batch_ops batch (COLUMN_FAMILY_NAME S)) ->
  (forall k, k ∈ ks -> key_round S k) ->
  (forall k, f' k = if bool_decide (k ∈ ks) then None else f k) -> has_table S d' f'.
Proof.
  intros (m & Ht & Hf) Hr Hd Hk Hf'.
  destruct (removes_table S SchemaBatch.new batch ks (db_rows d (COLUMN_FAMILY_NAME S)) m Hr) as (m' & Ht' & Hm');
    [by apply Forall_forall|done|].
  exists m'. split; [by rewrite Hd|]. intros k. by rewrite Hm', Hf', Hf.
Qed.

(** The rows of a version's events. *)
Definition keys_of_version (v : Version) : list (Version * N) :=
  (fun i => (v, i)) <$> count_from 0 (length (events_of L v)).
Definition event_names : list string := ["event"; "event_by_key"; "event_by_version"; "event_accumulator"].

Lemma prune_event_at_rows v x batch batch' :
  EventStore.prune_event_at v x batch = Ok batch' ->
  removes EventSchema batch batch' [(v, x.1)] /\ confined event_names batch batch'.
Proof.
  destruct x as [i e]. unfold EventStore.prune_event_at. cbn [fst]. intros (b1 & Hb1 & Hp)%bind_Ok.
  apply bind_Ok in Hp as (b2 & Hb2 & Hb3). split.
  - apply (removes_trans EventSchema batch b2 batch' [] [(v, i)]); [|by apply removes_delete].
    apply (removes_confined EventSchema ["event_by_version"; "event_by_key"]); [|names].
    eapply confined_trans; (eapply confined_sub; [|by eapply delete_confined]); names.
  - eapply confined_trans; [|eapply confined_trans]; (eapply confined_sub; [|by eapply delete_confined]); names.
Qed.

Lemma zip_keys (v : Version) (evs : list ContractEvent) a :
  concat ((fun x : N * ContractEvent => [(v, x.1)]) <$> zip (count_from a (length evs)) evs) =
  (fun i => (v, i)) <$> count_from a (length evs).
Proof. revert a. induction evs as [|e evs IH]; intros a; [done|]. cbn. f_equal. apply IH. Qed.

Section event_table.
Context (m : gmap (Version * N) ContractEvent) (Hm : forall k, m !! k = event_at L k).
Context (Hkeys : forall k, is_Some (m !! k) -> k.1 < 2 ^ 64 /\ k.2 < 2 ^ 64).

Lemma prune_versions_rows fuel n v inner batch batch' :
  peek_from m inner (pair_rank (v, 0)) ->
  EventStore.prune_event_versions fuel n v (mkEventsByVersionIter inner v (v + N.of_nat n)) batch = Ok batch' ->
  removes EventSchema batch batch' (concat (keys_of_version <$> count_from v n)) /\ confined event_names batch batch'.
Proof.
  revert v inner batch. induction n as [|n IH]; intros v inner batch Hat Hp; cbn [EventStore.prune_event_versions] in Hp.
  all: unfold EventStore.EventsByVersionIter_next in Hp; cbn [ei_inner ei_expected_next_version ei_end_version] in Hp.
  - rewrite (proj2 (N.leb_le _ _)) in Hp by lia. injection Hp as <-. split; [apply removes_refl|done].
  - rewrite (proj2 (N.leb_gt _ _)) in Hp by lia. apply bind_Ok in Hp as ([o it] & Hn & Hp).
    apply bind_Ok in Hn as ([evs pk] & Htake & Hn). apply bind_Ok in Hn as (w & Hw & [= <- <-]).
    destruct (take_peeked_Ok L m Hm Hkeys fuel v 0 inner evs pk ltac:(lia) Hat Htake) as [-> Hpk].
    cbn [fst snd drop] in Hp. rewrite drop_0 in Hp. apply bind_Ok in Hp as (b1 & Hb1 & Hp).
    apply bind_Ok in Hp as (w' & [-> _]%add64_Ok & Hp).
    assert (w = v + 1) as -> by (unfold checked_add in Hw; by destruct (v + 1 <=? u64_max); simplify_eq/=).
    replace (v + N.of_nat (S n)) with (v + 1 + N.of_nat n) in Hp by lia.
    destruct (IH (v + 1) pk b1 Hpk Hp) as [Hrem Hcon]. split.
    + cbn [count_from fmap list_fmap concat]. eapply removes_trans; [|exact Hrem].
      unfold keys_of_version. rewrite <-(zip_keys v (events_of L v) 0).
      eapply removes_fold; [|exact Hb1]. intros x b b' Hx. by apply (prune_event_at_rows v x).
    + eapply confined_trans; [|exact Hcon]. eapply confined_fold; [|exact Hb1].
      intros x b b' Hx. by apply (prune_event_at_rows v x).
Qed.
End event_table.

Lemma prune_accumulator_confined fuel end_ iter batch batch' :
  EventStore.prune_accumulator_loop fuel end_ iter batch = Ok batch' -> confined ["event_accumulator"] batch batch'.
Proof.
  revert iter batch. induction fuel as [|fuel IH]; intros iter batch Hp; cbn [EventStore.prune_accumulator_loop] in Hp.
  all: apply bind_Ok in Hp as ([[[[v p] h]|] it] & _ & Hp); [|by injection Hp as <-].
  all: destruct (end_ <=? v); [by injection Hp as <-|]; apply bind_Ok in Hp as (b1 & Hb & Hp).
  1: done.
  eapply confined_trans; [by eapply (delete_confined EventAccumulatorSchema)|by eapply IH].
Qed.

Lemma prune_events_rows fuel start end_ batch batch' :
  start <= end_ <= u64_max -> EventStore.prune_events d fuel start end_ batch = Ok batch' ->
  removes EventSchema batch batch' (concat (keys_of_version <$> range64 start end_)) /\ confined event_names batch batch'.
Proof.
  intros Hle Hp. unfold EventStore.prune_events in Hp. apply bind_Ok in Hp as (n & [-> _]%sub64_Ok & Hp).
  apply bind_Ok in Hp as (iter & Hi & Hp). apply bind_Ok in Hp as (b1 & Hb1 & Hp).
  apply bind_Ok in Hi as (it & Hit & Hi). apply bind_Ok in Hi as (e & He & Hi).
  assert (iter = mkEventsByVersionIter (mkPeekable None (SchemaIterator.seek_raw (to_be_bytes 8 start) it)) start e) as ->
    by congruence.
  assert (e = start + N.of_nat (N.to_nat (end_ - start))) as ->
    by (unfold checked_add in He; destruct (start + (end_ - start) <=? u64_max); simplify_eq/=; lia).
  destruct (h_event _ _ Hh) as (m & Ht & Hm).
  assert (peek_from m (mkPeekable None (SchemaIterator.seek_raw (to_be_bytes 8 start) it)) (pair_rank (start, 0))) as Hat
    by (apply (event_iter d m start it Ht); [lia|done]).
  destruct (prune_versions_rows m Hm (event_keys d m Ht) fuel _ start _ batch b1 Hat Hb1) as [Hrem Hcon].
  unfold EventStore.prune_event_accumulator in Hp. apply bind_Ok in Hp as (? & _ & Hp). apply bind_Ok in Hp as (? & _ & Hp).
  apply prune_accumulator_confined in Hp. split.
  - rewrite <-(app_nil_r (concat _)). eapply removes_trans; [exact Hrem|].
    apply (removes_confined EventSchema ["event_accumulator"]); [done|names].
  - eapply confined_trans; [exact Hcon|]. eapply confined_sub; [|exact Hp]. names.
Qed.

Definition txn_names : list string := ["transaction_by_hash"; "transaction_by_account"; "transaction"; "transaction_info"].

(** A table keyed by version loses the versions that are pruned. *)
Lemma prune_versions_table {V} (S : Schema Version V) start end_ batch batch' :
  try_fold (SchemaBatch.delete S) (range64 start end_) batch = Ok batch' ->
  removes S batch batch' (range64 start end_) /\ confined [COLUMN_FAMILY_NAME S] batch batch'.
Proof.
  intros Hp. split.
  - assert (concat ((fun v => [v]) <$> range64 start end_) = range64 start end_) as <-.
    { rewrite (concat_singletons id). apply list_fmap_id. }
    eapply removes_fold; [|exact Hp]. intros v b b'. apply removes_delete.
  - eapply confined_fold; [|exact Hp]. intros v b b'. apply delete_confined.
Qed.

Lemma prune_transactions_rows start end_ batch batch' :
  LedgerPruner.prune_transactions d start end_ batch = Ok batch' ->
  removes TransactionSchema batch batch' (range64 start end_) /\
  removes TransactionInfoSchema batch batch' (range64 start end_) /\ confined txn_names batch batch'.
Proof.
  unfold LedgerPruner.prune_transactions. intros (txns & _ & Hp)%bind_Ok.
  apply bind_Ok in Hp as (b1 & Hb1 & Hp). apply bind_Ok in Hp as (b2 & Hb2 & Hp). apply bind_Ok in Hp as (b3 & Hb3 & Hp).
  assert (confined ["transaction_by_hash"] batch b1) as Hc1
    by (eapply confined_fold; [|exact Hb1]; intros t b b'; apply delete_confined).
  assert (confined ["transaction_by_account"] b1 b2) as Hc2.
  { eapply confined_fold; [|exact Hb2]. intros [] b b' Hb; try (by injection Hb as <-).
    by apply (delete_confined TransactionByAccountSchema) in Hb. }
  apply prune_versions_table in Hb3 as [Hr3 Hc3]. apply prune_versions_table in Hp as [Hr4 Hc4].
  assert (confined ["transaction_by_hash"; "transaction_by_account"] batch b2) as Hc
    by (eapply confined_trans; (eapply confined_sub; [|done]); names).
  split_and!.
  - apply (removes_trans _ _ b2 _ [] (range64 start end_)); [eapply removes_confined; [exact Hc|names]|].
    rewrite <-(app_nil_r (range64 start end_)). eapply removes_trans; [exact Hr3|]. eapply removes_confined; [exact Hc4|names].
  - apply (removes_trans _ _ b3 _ [] (range64 start end_)); [|exact Hr4].
    apply (removes_trans _ _ b2 _ [] []); eapply removes_confined; [exact Hc|names|exact Hc3|names].
  - eapply confined_trans; [eapply confined_sub; [|exact Hc]; names|].
    eapply confined_trans; (eapply confined_sub; [|done]); names.
Qed.

Definition pruned_names : list string := txn_names ++ ["write_set"; "ledger_counters"] ++ event_names.

Lemma fill_rows fuel start end_ batch :
  start <= end_ <= u64_max -> LedgerPruner.fill fuel d start end_ = Ok batch ->
  removes TransactionSchema SchemaBatch.new batch (range64 start end_) /\
  removes TransactionInfoSchema SchemaBatch.new batch (range64 start end_) /\
  removes WriteSetSchema SchemaBatch.new batch (range64 start end_) /\
  removes EventSchema SchemaBatch.new batch (concat (keys_of_version <$> range64 start end_)) /\
  confined pruned_names SchemaBatch.new batch.
Proof.
  intros Hle. unfold LedgerPruner.fill. intros (b1 & Hb1 & Hp)%bind_Ok.
  apply bind_Ok in Hp as (b2 & Hb2 & Hp). apply bind_Ok in Hp as (b3 & Hb3 & Hp).
  apply prune_transactions_rows in Hb1 as (Ht & Hi & Hc1). apply prune_versions_table in Hb2 as [Hw Hc2].
  apply prune_versions_table in Hb3 as [_ Hc3]. apply prune_events_rows in Hp as [He Hc4]; [|done].
  assert (confined (["ledger_counters"] ++ event_names) b2 batch) as Hc34
    by (eapply confined_trans; (eapply confined_sub; [|done]); names).
  assert (confined (["write_set"; "ledger_counters"] ++ event_names) b1 batch) as Hc234
    by (eapply confined_trans; (eapply confined_sub; [|done]); names).
  assert (confined (txn_names ++ ["write_set"; "ledger_counters"]) SchemaBatch.new b3) as Hc123
    by (apply (confined_trans _ _ b1); [|apply (confined_trans _ _ b2)]; (eapply confined_sub; [|done]); names).
  split_and!.
  - rewrite <-(app_nil_r (range64 start end_)). eapply removes_trans; [exact Ht|]. eapply removes_confined; [exact Hc234|names].
  - rewrite <-(app_nil_r (range64 start end_)). eapply removes_trans; [exact Hi|]. eapply removes_confined; [exact Hc234|names].
  - apply (removes_trans _ _ b1 _ [] (range64 start end_)); [eapply removes_confined; [exact Hc1|names]|].
    rewrite <-(app_nil_r (range64 start end_)). eapply removes_trans; [exact Hw|]. eapply removes_confined; [exact Hc34|names].
  - eapply (removes_trans _ _ b3 _ []); [eapply removes_confined; [exact Hc123|names]|exact He].
  - eapply confined_trans; [eapply confined_sub; [|exact Hc123]|eapply confined_sub; [|exact Hc4]]; names.
Qed.

Lemma event_at_prune target k :
  al_first L <= target ->
  event_at (prune_ledger L target) k =
    if bool_decide (k ∈ concat (keys_of_version <$> range64 (al_first L) target)) then None else event_at L k.
Proof.
  intros Hle. destruct k as [v i].
  assert ((v, i) ∈ concat (keys_of_version <$> range64 (al_first L) target) <->
    v ∈ range64 (al_first L) target /\ i < N.of_nat (length (events_of L v))) as Hin.
  { rewrite elem_of_concat. unfold keys_of_version. split.
    - intros (ks & (w & -> & Hw)%list_elem_of_fmap & (j & [= -> ->] & Hj)%list_elem_of_fmap).
      apply elem_of_count_from in Hj. split; [done|lia].
    - intros [Hv Hi]. eexists. split; [apply list_elem_of_fmap; by exists v|]. apply list_elem_of_fmap. exists i.
      split; [done|]. apply elem_of_count_from. lia. }
  rewrite !event_at_of, (bool_decide_ext _ _ Hin). unfold events_of. rewrite entry_at_prune by done. fold (events_of L v).
  destruct (bool_decide_reflect (v ∈ range64 (al_first L) target)) as [Hv|Hv]; case_bool_decide as Hb; try naive_solver.
  rewrite lookup_nil. symmetry. apply lookup_ge_None. fold (events_of L v) in *.
  destruct (decide (length (events_of L v) <= N.to_nat i)%nat); [done|]. destruct Hb. split; [done|lia].
Qed.

(** The database after the batch is written. *)
Lemma fill_holds fuel target batch (d' : D) :
  al_first L <= target <= N.of_nat (length (al_entries L)) ->
  LedgerPruner.fill fuel d (al_first L) target = Ok batch ->
  (forall cf, db_rows d' cf = foldl apply_op (db_rows d cf) (batch_ops batch cf)) ->
  db_holds d' (prune_ledger L target).
Proof.
  intros Hle Hf Hd. pose proof (h_small _ _ Hh) as Hsmall.
  apply fill_rows in Hf as (Ht & Hi & Hw & He & Hc); [|unfold u64_max; lia].
  assert (forall v, v ∈ range64 (al_first L) target -> v <= u64_max) as Hv
    by (intros v Hv%elem_of_range64; unfold u64_max; lia).
  assert (forall cf, cf ∉ pruned_names -> db_rows d' cf = db_rows d cf) as Hsame
    by (intros cf Hcf; by rewrite Hd, (Hc cf Hcf)).
  split.
  - exact Hsmall.
  - apply Hle.
  - eapply has_table_prune; [apply (h_txn _ _ Hh)|exact Ht|apply Hd|intros k Hk b [= <-]; by apply u64_codec, Hv|].
    intros k. rewrite entry_at_prune by apply Hle. by case_bool_decide.
  - eapply has_table_prune; [apply (h_info _ _ Hh)|exact Hi|apply Hd|intros k Hk b [= <-]; by apply u64_codec, Hv|].
    intros k. rewrite entry_at_prune by apply Hle. by case_bool_decide.
  - eapply has_table_prune; [apply (h_write_set _ _ Hh)|exact Hw|apply Hd|intros k Hk b [= <-]; by apply u64_codec, Hv|].
    intros k. rewrite entry_at_prune by apply Hle. by case_bool_decide.
  - eapply has_table_prune; [apply (h_event _ _ Hh)|exact He|apply Hd| |intros k; apply event_at_prune, Hle].
    intros [v i] Hk. destruct (h_event _ _ Hh) as (m & Htab & Hm).
    assert (is_Some (m !! (v, i))) as Hin.
    { rewrite Hm, event_at_of. apply elem_of_concat in Hk as (ks & (w & -> & _)%list_elem_of_fmap & Hk).
      apply list_elem_of_fmap in Hk as (j & [= -> ->] & Hj%elem_of_count_from). apply lookup_lt_is_Some_2. lia. }
    destruct (event_keys d m Htab _ Hin) as [Ha Hb]. cbn [fst snd] in *.
    destruct (pair_codec (v, i)) as [Henc Hdec]; [cbn; unfold u64_max; lia..|].
    intros b Hb'. cbn in Hb'. rewrite Henc in Hb'. by injection Hb' as <-.
  - destruct (h_acc _ _ Hh) as (m & Htab & Hst). exists m. rewrite Hsame by names. done.
  - eapply has_table_eq; [apply Hsame; names|apply (h_ledger_info _ _ Hh)].
  - eapply has_table_eq; [apply Hsame; names|apply (h_epoch_end _ _ Hh)].
Qed.
End pruning.

(** A round of the pruner, successful or not, leaves the old ledger or the one that starts
    at the new target, and what the pruner calls the least readable version is never
    below the first version that is there. *)
Lemma prune_holds `{LedgerBcs} `{RocksDbLaws D It} `{MerkleHasher} `{CryptoHash TransactionInfo} `{CryptoHash Transaction}
    (d d' : D) (L : AbstractLedger) fuel max_versions (self self' : LedgerPruner) r :
  db_holds d L -> lp_min_readable_version self = al_first L ->
  lp_target_version self <= N.of_nat (length (al_entries L)) ->
  LedgerPruner.prune fuel max_versions (self, d) = (r, (self', d')) ->
  exists L', db_holds d' L' /\ (L' = L \/ L' = prune_ledger L (lp_min_readable_version self')) /\
    al_first L' <= lp_min_readable_version self' /\
    (forall v, r = Ok v -> v = lp_min_readable_version self' /\ L' = prune_ledger L v /\
       v = if LedgerPruner.is_pruning_pending self then N.min (al_first L + max_versions) (lp_target_version self)
           else al_first L).
Proof.
  intros Hh Hmin Htarget Hp. assert (L = prune_ledger L (al_first L)) as HL by (by destruct L).
  unfold LedgerPruner.prune in Hp. destruct (LedgerPruner.is_pruning_pending self) eqn:Hpend; cbn [negb] in Hp.
  2: { injection Hp as <- <- <-. exists L. rewrite Hmin. split_and!; [done|by left|done|]. by intros v [= <-]. }
  apply N.ltb_lt in Hpend. rewrite Hmin in *.
  destruct (LedgerPruner.get_currrent_batch_target max_versions self) as [t| |] eqn:Ht; cbn [mbind outcome_bind] in Hp;
    [|injection Hp as <- <- <-; exists L; rewrite Hmin; split_and!; [done|by left|done|done]..].
  destruct (LedgerPruner.fill fuel d (al_first L) t) as [batch| |] eqn:Hf; cbn [mbind outcome_bind] in Hp;
    [|injection Hp as <- <- <-; exists L; rewrite Hmin; split_and!; [done|by left|done|done]..].
  assert (t = N.min (al_first L + max_versions) (lp_target_version self)) as Ht'.
  { unfold LedgerPruner.get_currrent_batch_target in Ht. apply bind_Ok in Ht as (l & [-> _]%add64_Ok & [= <-]). by rewrite Hmin. }
  assert (al_first L <= t <= N.of_nat (length (al_entries L))) as Hle by lia.
  destruct (DB.write_schemas batch d) as [rw d1] eqn:Hw. injection Hp as <- <- <-.
  cbn [LedgerPruner.record_progress lp_min_readable_version].
  destruct (write_schemas_rows _ _ _ _ Hw) as (_ & Hor & Hok). destruct rw as [[]| |].
  - exists (prune_ledger L t). split_and!; [by eapply fill_holds; [| |exact Hf|apply Hok]|by right|done|].
    intros v [= <-]. done.
  - destruct Hor as [Hs|Hs].
    + exists L. split_and!; [by apply (db_holds_same d)|by left|apply Hle|done].
    + exists (prune_ledger L t). split_and!; [by eapply fill_holds|by right|done|done].
  - destruct Hor as [Hs|Hs].
    + exists L. split_and!; [by apply (db_holds_same d)|by left|apply Hle|done].
    + exists (prune_ledger L t). split_and!; [by eapply fill_holds|by right|done|done].
Qed.
