(* ===== verification/LedgerDbExample.v ===== *)
(** * A database in memory, and one with four transactions

    An implementation of the part of RocksDB that is used, by finite maps, which shows
    that its laws can hold and lets examples run; and a ledger in it. *)

From S2P Require Import Prelude Crypto Errors Position Accumulator Verifier Ledger ConsensusTypes Blocks Storage SafetyRules SafetyLemmas Replica Bft Simulation AccumulatorLemmas TransactionProofs AccumulatorStore AccumulatorStoreLemmas SchemaDb LedgerSchemas LedgerDb TransactionStore EventStore StateStore AptosDb SchemaLemmas LedgerDbLemmas LedgerDbWrites.

(** The key that comes first in the order [le]. *)
Fixpoint pick (le : bytes -> bytes -> bool) (l : list bytes) : option bytes :=
  match l with
  | [] => None
  | k :: l => match pick le l with
              | Some k' => if le k k' then Some k else Some k'
              | None => Some k
              end
  end.
Definition pick_row (le : bytes -> bytes -> bool) (P : bytes -> bool) (rows : Rows) : option bytes :=
  pick le (List.filter P (map_to_list rows).*1).

Record MemDb : Type := mkMemDb { mem_rows : gmap string (gmap (list N) (list N)) }.
Record MemIter : Type := mkMemIter { mi_rows : gmap (list N) (list N); mi_pos : option (list N) }.

Definition mem_family (d : MemDb) (cf : string) : gmap (list N) (list N) := default ∅ (mem_rows d !! cf).
Definition mem_write (d : MemDb) (op : RawWrite) : MemDb :=
  let cf := match op with PutCf cf _ _ | DeleteCf cf _ | DeleteRangeCf cf _ _ => cf end in
  mkMemDb (<[cf := raw_write op (mem_family d) cf]> (mem_rows d)).

#[global] Instance MemDb_RocksDb : RocksDb MemDb MemIter := {|
  cf_handle := fun _ _ => true;
  get_cf := fun d cf k => Ok (mem_family d cf !! k);
  raw_iterator_cf_opt := fun d cf => mkMemIter (mem_family d cf) None;
  write_opt := fun ops d => (Ok tt, foldl mem_write d ops);
  it_seek_to_first := fun it => mkMemIter (mi_rows it) (pick_row bytes_le (fun _ => true) (mi_rows it));
  it_seek_to_last := fun it => mkMemIter (mi_rows it) (pick_row (flip bytes_le) (fun _ => true) (mi_rows it));
  it_seek := fun k it => mkMemIter (mi_rows it) (pick_row bytes_le (bytes_le k) (mi_rows it));
  it_seek_for_prev := fun k it => mkMemIter (mi_rows it) (pick_row (flip bytes_le) (fun k' => bytes_le k' k) (mi_rows it));
  it_next := fun it => mkMemIter (mi_rows it)
    (match mi_pos it with Some k => pick_row bytes_le (bytes_lt k) (mi_rows it) | None => None end);
  it_prev := fun it => mkMemIter (mi_rows it)
    (match mi_pos it with Some k => pick_row (flip bytes_le) (fun k' => bytes_lt k' k) (mi_rows it) | None => None end);
  it_valid := fun it => match mi_pos it with Some k => bool_decide (is_Some (mi_rows it !! k)) | None => false end;
  it_status := fun _ => Ok tt;
  it_key := mi_pos;
  it_value := fun it => match mi_pos it with Some k => mi_rows it !! k | None => None end;
|}.

Lemma pick_spec le l :
  (forall x, le x x = true) -> (forall x y, le x y = true \/ le y x = true) ->
  (forall x y z, le x y = true -> le y z = true -> le x z = true) ->
  match pick le l with
  | Some k => k ∈ l /\ forall k', k' ∈ l -> le k k' = true
  | None => l = []
  end.
Proof.
  intros Hrefl Htot Htrans. induction l as [|x l IH]; [done|]. cbn [pick]. destruct (pick le l) as [k|].
  - destruct IH as [Hin Hle]. destruct (le x k) eqn:Hx.
    + split; [left|]. intros k' [->|Hk']%elem_of_cons; [done|]. eauto.
    + split; [by right|]. intros k' [->|Hk']%elem_of_cons; [|by apply Hle]. destruct (Htot x k); congruence.
  - subst l. split; [left|]. intros k' [->|Hk']%elem_of_cons; [done|by apply elem_of_nil in Hk'].
Qed.

Lemma in_rows (P : bytes -> bool) (rows : Rows) k :
  k ∈ List.filter P (map_to_list rows).*1 <-> is_Some (rows !! k) /\ P k = true.
Proof.
  rewrite list_elem_of_In, filter_In, <-list_elem_of_In, list_elem_of_fmap. apply and_iff_compat_r. split.
  - intros [[k' v] [-> Hin]]. apply elem_of_map_to_list in Hin. by eexists.
  - intros [v Hv]. exists (k, v). by rewrite elem_of_map_to_list.
Qed.

Lemma pick_least (P : bytes -> bool) rows : least_key rows (fun k => P k) (pick_row bytes_le P rows).
Proof.
  unfold pick_row, least_key. pose proof (pick_spec bytes_le (List.filter P (map_to_list rows).*1)
    bytes_le_refl bytes_le_total bytes_le_trans) as Hp. destruct (pick _ _) as [k|].
  - destruct Hp as [[Hs HP]%in_rows Hle]. split_and!; [done|by apply Is_true_true|].
    intros k' Hs' HP'. apply Is_true_true, Hle, in_rows. split; [done|by apply Is_true_true].
  - intros k' Hs HP. assert (k' ∈ List.filter P (map_to_list rows).*1) as Hin
      by (apply in_rows; split; [done|by apply Is_true_true]).
    rewrite Hp in Hin. by apply elem_of_nil in Hin.
Qed.

Lemma pick_greatest (P : bytes -> bool) rows : greatest_key rows (fun k => P k) (pick_row (flip bytes_le) P rows).
Proof.
  unfold pick_row, greatest_key. pose proof (pick_spec (flip bytes_le) (List.filter P (map_to_list rows).*1)
    bytes_le_refl (fun x y => bytes_le_total y x) (fun x y z Hx Hy => bytes_le_trans z y x Hy Hx)) as Hp.
  destruct (pick _ _) as [k|].
  - destruct Hp as [[Hs HP]%in_rows Hle]. split_and!; [done|by apply Is_true_true|].
    intros k' Hs' HP'. apply Is_true_true, (Hle k'), in_rows. split; [done|by apply Is_true_true].
  - intros k' Hs HP. assert (k' ∈ List.filter P (map_to_list rows).*1) as Hin
      by (apply in_rows; split; [done|by apply Is_true_true]).
    rewrite Hp in Hin. by apply elem_of_nil in Hin.
Qed.

Lemma mem_write_rows ops d cf : mem_family (foldl mem_write d ops) cf = raw_writes ops (mem_family d) cf.
Proof.
  revert d. induction ops as [|op ops IH]; intros d; [done|]. cbn [foldl]. rewrite IH. cbn.
  apply raw_writes_ext. unfold mem_write, mem_family. cbn [mem_rows].
  destruct op; cbn; (destruct (decide (cf0 = cf)) as [->|Hne];
    [by rewrite lookup_insert_eq, bool_decide_true|by rewrite lookup_insert_ne, bool_decide_false]).
Qed.

(** An iterator stands at a row it has. *)
Definition mi_at (it : MemIter) : option bytes :=
  match mi_pos it with Some k => if bool_decide (is_Some (mi_rows it !! k)) then Some k else None | None => None end.

Lemma mi_at_least rows P p : least_key rows P p -> least_key rows P (mi_at (mkMemIter rows p)).
Proof.
  unfold mi_at. cbn. destruct p as [k|]; [|done]. intros (Hs & HP & Hle). by rewrite bool_decide_true.
Qed.
Lemma mi_at_greatest rows P p : greatest_key rows P p -> greatest_key rows P (mi_at (mkMemIter rows p)).
Proof.
  unfold mi_at. cbn. destruct p as [k|]; [|done]. intros (Hs & HP & Hle). by rewrite bool_decide_true.
Qed.

#[global] Program Instance MemDb_laws : RocksDbLaws MemDb MemIter := {|
  db_rows := mem_family;
  it_rows := mi_rows;
  it_pos := mi_at;
|}.
Next Obligation. intros d cf k o Hg. by injection Hg as <-. Qed.
Next Obligation. done. Qed.
Next Obligation. done. Qed.
Next Obligation. intros ops d d' r [= <- <-]. right. intros cf. apply mem_write_rows. Qed.
Next Obligation. intros ops d d' u [= _ <-] cf. apply mem_write_rows. Qed.
Next Obligation. done. Qed.
Next Obligation. intros it. apply mi_at_least, (pick_least (fun _ => true)). Qed.
Next Obligation. intros it. apply mi_at_greatest, (pick_greatest (fun _ => true)). Qed.
Next Obligation. intros it k. apply mi_at_least, (pick_least (bytes_le k)). Qed.
Next Obligation. intros it k. apply mi_at_greatest, (pick_greatest (fun k' => bytes_le k' k)). Qed.
Next Obligation.
  intros it k Hk. unfold mi_at in Hk. cbn. destruct (mi_pos it) as [k'|]; [|done]. case_bool_decide; [|done].
  injection Hk as ->. apply mi_at_least, (pick_least (bytes_lt k)).
Qed.
Next Obligation.
  intros it k Hk. unfold mi_at in Hk. cbn. destruct (mi_pos it) as [k'|]; [|done]. case_bool_decide; [|done].
  injection Hk as ->. apply mi_at_greatest, (pick_greatest (fun k' => bytes_lt k' k)).
Qed.
Next Obligation.
  intros it Hv. unfold mi_at. cbn in *. destruct (mi_pos it) as [k|]; [|done].
  apply bool_decide_eq_true in Hv as [v Hv]. exists k, v. by rewrite bool_decide_true.
Qed.
Next Obligation.
  intros it Hv _. unfold mi_at. cbn in *. destruct (mi_pos it) as [k|]; [|done]. by rewrite Hv.
Qed.

#[global] Instance MemDb_reliable : RocksDbReliable MemDb MemIter.
Proof. split; [by eexists|done|done]. Qed.

(** ** A database with four transactions

    Codecs, hashes and transactions for the examples: an empty database in memory into
    which three batches are saved, the first two of which end an epoch. *)
(** ** Codecs *)

(** The values of a list, encoded by their place in it. *)
Section by_index.
Context {A : Type} `{EqDecision A} (l : list A).

Definition index_of (a : A) : option nat := fst <$> list_find (fun b => b = a) l.
Definition indexed : Bcs A := {|
  bcs_to_bytes := fun a => match index_of a with Some i => Ok [N.of_nat i] | None => Err (Msg "unknown value") end;
  bcs_from_bytes := fun b => match b with
    | [i] => ok_or (l !! N.to_nat i) (Msg "unknown bytes")
    | _ => Err (Msg "unknown bytes") end;
|}.

Lemma indexed_laws : @BcsLaws A indexed.
Proof.
  intros a b Hb. cbn in *. unfold index_of in Hb. destruct (list_find _ _) as [[i a']|] eqn:Hf; [|done].
  injection Hb as <-. apply list_find_Some in Hf as (Hi & -> & _). by rewrite Nat2N.id, Hi.
Qed.
End by_index.

(** A value that is a number. *)
Definition counted (A : Type) `{Countable A} : Bcs A := {|
  bcs_to_bytes := fun a => Ok [Npos (encode a)];
  bcs_from_bytes := fun b => match b with
    | [Npos p] => ok_or (decode p) (Msg "unknown bytes")
    | _ => Err (Msg "unknown bytes") end;
|}.

Lemma counted_laws (A : Type) `{Countable A} : @BcsLaws A (counted A).
Proof. intros a b Hb. cbn in *. injection Hb as <-. by rewrite decode_encode. Qed.

#[global] Instance EventKey_countable : Countable EventKey.
Proof.
  apply (inj_countable' (fun k => (ek_creation_number k, ek_account_address k)) (fun p => mkEventKey p.1 p.2)). by intros [].
Defined.
#[global] Instance ContractEvent_countable : Countable ContractEvent.
Proof.
  apply (inj_countable' (fun e => (ce_key e, ce_sequence_number e, ce_type_tag e, ce_event_data e))
           (fun p => mkContractEvent p.1.1.1 p.1.1.2 p.1.2 p.2)). by intros [].
Defined.

Module Example.
(** ** Hashes *)
#[global] Instance node_hash : MerkleHasher := fun a b => (a + 2 * b + 1) mod 2 ^ 256.
#[global] Instance info_hash : CryptoHash TransactionInfo := fun i => (100 + ti_gas_used i) mod 2 ^ 256.
#[global] Instance transaction_hash : CryptoHash Transaction := fun t =>
  match t with
  | GenesisTransaction w => 1000 + w
  | BlockMetadataTransaction m => 2000 + bm_round m
  | UserTransaction t => 3000 + txn_payload t
  | StateCheckpoint id => 4000 + id
  end.
#[global] Instance event_hash : CryptoHash ContractEvent := ce_sequence_number.
Definition event_node_hash : HashValue -> HashValue -> HashValue := fun a b => 3 * a + b + 1.
#[global] Instance widths : HashWidth.
Proof. split; intros; by apply N.mod_lt. Qed.

(** ** Transactions *)
Definition event0 : ContractEvent := mkContractEvent (mkEventKey 2 7) 0 1 50.
Definition event1 : ContractEvent := mkContractEvent (mkEventKey 2 7) 1 1 51.
Definition t0 : Transaction := GenesisTransaction 5.
Definition t1 : Transaction := BlockMetadataTransaction (mkBlockMetadata 60 1 1 [] 1 [] 10).
Definition t2 : Transaction := UserTransaction (mkSignedTransaction (mkRawTransaction 7 0 9 0 0 0 0) 0).
Definition t3 : Transaction := StateCheckpoint 61.
Definition info (t : Transaction) (gas root : N) (checkpoint : option HashValue) : TransactionInfo :=
  mkTransactionInfo gas Success (hash t) root 0 checkpoint.
Definition i0 : TransactionInfo := info t0 1 ACCUMULATOR_PLACEHOLDER_HASH (Some 70).
Definition i1 : TransactionInfo := info t1 2 ACCUMULATOR_PLACEHOLDER_HASH None.
Definition i2 : TransactionInfo := info t2 3 (event_node_hash 0 1) None.
Definition i3 : TransactionInfo := info t3 4 ACCUMULATOR_PLACEHOLDER_HASH (Some 71).
Definition x0 : TransactionToCommit := mkTransactionToCommit t0 i0 ∅ 80 [] true.
Definition x1 : TransactionToCommit := mkTransactionToCommit t1 i1 ∅ 81 [] false.
Definition x2 : TransactionToCommit := mkTransactionToCommit t2 i2 ∅ 82 [event0; event1] false.
Definition x3 : TransactionToCommit := mkTransactionToCommit t3 i3 ∅ 83 [] false.

(** ** Ledger infos *)
Definition sigs : gmap N Signature := {[ 1 := 101; 2 := 102; 4 := 104 ]}.
Definition root (l : list TransactionInfo) : HashValue := merkle_root (hash <$> l).
Definition end0 : LedgerInfoWithSignatures := mkLedgerInfoWithSignatures
  (mkLedgerInfo (mkBlockInfo 0 0 90 (root [i0]) 0 0 (Some (mkEpochState 1 Net.verifier4))) 3) ∅.
Definition end1 : LedgerInfoWithSignatures := mkLedgerInfoWithSignatures
  (mkLedgerInfo (mkBlockInfo 1 5 91 (root [i0; i1; i2]) 2 10 (Some (mkEpochState 2 Net.verifier4))) 3) sigs.
Definition open2 : LedgerInfoWithSignatures := mkLedgerInfoWithSignatures
  (mkLedgerInfo (mkBlockInfo 2 3 92 (root [i0; i1; i2; i3]) 3 20 None) 3) sigs.

#[global] Instance codecs : LedgerBcs := {|
  bcs_transaction := indexed [t0; t1; t2; t3];
  bcs_transaction_info := indexed [i0; i1; i2; i3];
  bcs_ledger_info := indexed [end0; end1; open2];
  bcs_event := counted ContractEvent;
  bcs_event_key := counted EventKey;
  bcs_write_set := counted N;
  bcs_ledger_counters := counted (gmap N N);
|}.
#[global] Instance codec_laws : LedgerBcsLaws.
Proof. split; first [apply indexed_laws|apply counted_laws]. Qed.
#[global] Instance path_codec : Bcs AccessPath := {|
  bcs_to_bytes := fun _ => Err (Msg "no paths"); bcs_from_bytes := fun _ => Err (Msg "no paths") |}.
#[global] Instance value_codec : Bcs StateValue := {|
  bcs_to_bytes := fun _ => Err (Msg "no values"); bcs_from_bytes := fun _ => Err (Msg "no values") |}.

(** ** The databases *)
Definition delta (base : option Version) (current : option Version) : StateDelta := mkStateDelta 0 base 0 current ∅.
Definition db0 : AptosDB MemDb :=
  mkAptosDB (mkLedgerStore (mkMemDb ∅) None) (BufferedState.new (delta None None) 100) None None.
Definition save (xs : list TransactionToCommit) (first : Version) (base current : option Version)
    (new_base : option Version) (li : LedgerInfoWithSignatures) (self : AptosDB MemDb) : outcome AnyError unit * AptosDB MemDb :=
  AptosDB.save_transactions event_node_hash xs first base (Some li) false (delta new_base current) self.
Definition db1 : AptosDB MemDb := (save [x0] 0 None (Some 0) (Some 0) end0 db0).2.
Definition db2 : AptosDB MemDb := (save [x1; x2] 1 (Some 0) (Some 2) (Some 0) end1 db1).2.
Definition db3 : AptosDB MemDb := (save [x3] 3 (Some 0) (Some 3) (Some 3) open2 db2).2.
(** Versions 1 to 3 committed without a ledger info. *)
Definition ahead : AptosDB MemDb :=
  (AptosDB.save_transactions event_node_hash [x1; x2; x3] 1 (Some 0) None false (delta (Some 3) (Some 3)) db1).2.

Definition ledger0 : AbstractLedger := mkAbstractLedger [] ∅ ∅ 0.
Definition ledger1 : AbstractLedger := extend_ledger ledger0 [x0] (Some end0).
Definition ledger2 : AbstractLedger := extend_ledger ledger1 [x1; x2] (Some end1).
Definition ledger3 : AbstractLedger := extend_ledger ledger2 [x3] (Some open2).

(** The pruner is told to keep the versions from 1 on, and its worker reports that it has. *)
Definition pruned : outcome AnyError Version * (LedgerPruner * MemDb) :=
  LedgerPruner.prune 10 5 (mkLedgerPruner 1 0, AptosDB.db db3).
Definition db4 : AptosDB MemDb :=
  mkAptosDB (mkLedgerStore pruned.2.2 (ls_latest_ledger_info (adb_ledger_store db3))) (adb_buffered_state db3)
    (Some (Some (lp_min_readable_version pruned.2.1))) None.
Definition ledger4 : AbstractLedger := prune_ledger ledger3 1.

Lemma saved1 : save [x0] 0 None (Some 0) (Some 0) end0 db0 = (Ok tt, db1).
Proof. vm_compute. reflexivity. Qed.
Lemma saved2 : save [x1; x2] 1 (Some 0) (Some 2) (Some 0) end1 db1 = (Ok tt, db2).
Proof. vm_compute. reflexivity. Qed.
Lemma saved3 : save [x3] 3 (Some 0) (Some 3) (Some 3) open2 db2 = (Ok tt, db3).
Proof. vm_compute. reflexivity. Qed.

(** ** What they hold *)
Lemma holds0 : db_holds (AptosDB.db db0) ledger0.
Proof.
  assert (forall v, entry_at ledger0 v = None) as He by (intros v; unfold entry_at; by destruct (v <? al_first ledger0)).
  split; [done|done|..].
  all: try (exists ∅; split; [apply table_empty|intros k; unfold event_at; by rewrite ?He]).
  exists ∅. split; [apply table_empty|]. intros j q Hq. unfold full in Hq. pose proof (Nat.pow_nonzero 2 j). cbn [ledger0 info_hashes al_entries fmap list_fmap length] in Hq. nia.
Qed.

Lemma save_example self self' L xs first base current new_base li :
  save xs first base current new_base li self = (Ok tt, self') ->
  db_holds (AptosDB.db self) L -> first = N.of_nat (length (al_entries L)) ->
  N.of_nat (length (al_entries L ++ xs)) < 100 -> LedgerInfo.epoch (lis_ledger_info li) <= u64_max ->
  db_holds (AptosDB.db self') (extend_ledger L xs (Some li)) /\
  commits_to (lis_ledger_info li) (extend_ledger L xs (Some li)).
Proof.
  intros Hs Hh -> Hlen Hep. unfold save in Hs. eapply save_holds in Hs as [[]|(? & ? & _)].
  - done.
  - auto.
  - done.
  - lia.
  - rewrite length_app in Hlen. lia.
  - by intros ? [= <-].
Qed.

Lemma holds1 : db_holds (AptosDB.db db1) ledger1 /\ commits_to (lis_ledger_info end0) ledger1.
Proof. by apply (save_example _ _ _ _ _ _ _ _ _ saved1 holds0). Qed.
Lemma holds2 : db_holds (AptosDB.db db2) ledger2 /\ commits_to (lis_ledger_info end1) ledger2.
Proof. by apply (save_example _ _ _ _ _ _ _ _ _ saved2 (proj1 holds1)). Qed.
Lemma holds3 : db_holds (AptosDB.db db3) ledger3 /\ commits_to (lis_ledger_info open2) ledger3.
Proof. by apply (save_example _ _ _ _ _ _ _ _ _ saved3 (proj1 holds2)). Qed.

Lemma holds4 : pruned.1 = Ok 1 /\ db_holds (AptosDB.db db4) ledger4 /\ commits_to (lis_ledger_info open2) ledger4.
Proof.
  assert (pruned.1 = Ok 1) as Hp by (vm_compute; reflexivity). split; [done|]. split; [|apply holds3].
  destruct (prune_holds (AptosDB.db db3) pruned.2.2 ledger3 10 5 (mkLedgerPruner 1 0) pruned.2.1 pruned.1)
    as (L & Hh & _ & _ & Hok).
  - apply holds3.
  - done.
  - vm_compute. discriminate.
  - unfold pruned. by destruct (LedgerPruner.prune _ _ _) as [r [self d]].
  - destruct (Hok 1 Hp) as (_ & -> & _). exact Hh.
Qed.

Lemma ledger1_ok : ledger_ok ledger1.
Proof.
  apply ledger_ok_extend.
  - intros e li. cbn. by rewrite lookup_empty.
  - intros x [= <-]. apply holds1.
Qed.

Lemma entries_coherent : Forall (coherent event_node_hash) (al_entries ledger3).
Proof. repeat constructor. Qed.
End Example.
