(* ===== verification/LedgerDbProps.v ===== *)
(** * The database and its clients

    Saving transactions extends the ledger the database holds, or leaves it alone, and
    whatever the database serves about it is accepted by the verifiers of
    TransactionProofs.v and Ledger.v against a ledger info of that ledger. *)

From S2P Require Import Prelude Crypto Errors Position PositionLemmas Accumulator AccumulatorLemmas Verifier Ledger ConsensusTypes Blocks TransactionProofs AccumulatorStore AccumulatorStoreLemmas SchemaDb LedgerSchemas LedgerDb TransactionStore EventStore StateStore AptosDb SchemaLemmas LedgerDbExample LedgerDbLemmas LedgerDbWrites.


(** ** Lists of transactions

    A request for [limit] transactions from [start] on, which is not empty. *)
Section list.
Context `{LedgerBcs} `{RocksDbLaws D It} `{MerkleHasher} `{CryptoHash TransactionInfo}.
Context `{CryptoHash Transaction} `{CryptoHash ContractEvent} (event_hasher : HashValue -> HashValue -> HashValue).
Context (self : AptosDB D) (L : AbstractLedger) (li : LedgerInfo) (fuel : nat) (start limit : N) (fetch_events : bool).
Context (Hh : db_holds (AptosDB.db self) L) (Hli : commits_to li L).
Context (Hstart : start <= LedgerInfo.version li) (Hlim : limit <> 0).
Abbreviation n := (N.to_nat (N.min limit (LedgerInfo.version li + 1 - start))).
Abbreviation entries := (take n (drop (N.to_nat start) (al_entries L))).
Abbreviation get := (AptosDB.get_transactions self fuel start limit (LedgerInfo.version li) fetch_events).

Lemma request_bounds :
  (LedgerInfo.version li <? start) || (limit =? 0) = false /\
  N.min limit (LedgerInfo.version li - start + 1) = N.of_nat n /\ (0 < n)%nat /\
  start + N.of_nat n <= LedgerInfo.version li + 1 /\ length entries = n /\
  LedgerInfo.version li < N.of_nat (length (al_entries L)) /\ N.of_nat (length (al_entries L)) < 2 ^ 63.
Proof.
  destruct Hli as [Hv _]. pose proof (h_small _ _ Hh). rewrite length_take, length_drop.
  rewrite (proj2 (N.ltb_ge _ _)), (proj2 (N.eqb_neq _ _)) by done. split_and!; [done|lia..].
Qed.

(** The first version of the request is there: it is not pruned, nor said to be. *)
Definition readable : Prop :=
  al_first L <= start /\ forall min_readable, adb_pruner self = Some (Some min_readable) -> min_readable <= start.

Lemma pruned_check :
  error_if_version_is_pruned (adb_pruner self) start = Ok tt <->
  forall min_readable, adb_pruner self = Some (Some min_readable) -> min_readable <= start.
Proof.
  unfold error_if_version_is_pruned. destruct (adb_pruner self) as [[m|]|]; [|naive_solver..].
  rewrite ensure_Ok, N.leb_le. naive_solver.
Qed.

Lemma list_served l :
  Forall (coherent event_hasher) (al_entries L) -> get = Ok l ->
  limit <= MAX_LIMIT /\ readable /\
  tl_transactions l = ttc_transaction <$> entries /\
  tl_events l = (if fetch_events then Some (ttc_events <$> entries) else None) /\
  TransactionListWithProof_verify event_hasher l li (Some start) = Ok tt.
Proof.
  intros Hco Hl. destruct request_bounds as (Hne & Hmin & Hn & Hend & Hlen & Hv & Hsmall).
  pose proof pruned_check as Hcheck. unfold readable.
  destruct self as [[d latest] buf pruner indexer]. unfold AptosDB.get_transactions, AptosDB.db in *.
  cbn [adb_ledger_store ls_db adb_pruner] in *. rewrite Hne in Hl.
  apply bind_Ok in Hl as (? & Hmax & Hl). apply bind_Ok in Hl as ([] & Hpr & Hl). pose proof (proj1 Hcheck Hpr) as Hread.
  apply bind_Ok in Hl as (? & [-> _]%add64_Ok & Hl). rewrite Hmin in Hl.
  apply bind_Ok in Hl as (? & [-> _]%add64_Ok & Hl). rewrite range64_count in Hl.
  apply bind_Ok in Hl as (txns & Ht & Hl). apply bind_Ok in Hl as (infos & Hi & Hl).
  apply bind_Ok in Hl as (evs & He & Hl). apply bind_Ok in Hl as (pf & Hp & Hl).
  assert (al_first L <= start) as Hfirst by (apply (run_readable d L Hh start n) in Ht; [done|lia|done]).
  apply (run_transactions d L Hh start n) in Ht as ->; [|lia].
  apply (run_infos d L Hh latest start n) in Hi as ->; [|lia].
  assert (evs = if fetch_events then Some (ttc_events <$> entries) else None) as ->.
  { destruct fetch_events; [|by injection He as <-]. apply fmap_Ok in He as (evs' & He & ->).
    by apply (run_events d L Hh start n) in He as ->; [|lia|done]. }
  injection Hl as <-. cbn [tl_transactions tl_events].
  split_and!; [|done..|].
  { unfold error_if_too_many_requested in Hmax. by destruct (N.ltb_spec MAX_LIMIT limit). }
  apply verify_served; [by apply Forall_take, Forall_drop|]. by apply (served_range d L Hh latest li start n).
Qed.

Lemma list_total `{!RocksDbReliable D It} :
  (forall cf, cf_handle (AptosDB.db self) cf = true) -> readable -> limit <= MAX_LIMIT ->
  Forall (fun t => (length (ttc_events t) <= fuel)%nat) (al_entries L) -> exists l, get = Ok l.
Proof.
  intros Hcf [Hfirst Hpr] Hmax Hfuel. pose proof (proj2 pruned_check Hpr) as Hcheck. destruct request_bounds as (Hne & Hmin & Hn & Hend & Hlen & Hv & Hsmall).
  destruct self as [[d latest] buf pruner indexer]. unfold AptosDB.get_transactions, AptosDB.db in *.
  cbn [adb_ledger_store ls_db adb_pruner] in *.
  unfold error_if_too_many_requested. rewrite (proj2 (N.ltb_ge MAX_LIMIT limit)), Hne by done.
  cbn [mbind outcome_bind]. rewrite Hcheck. cbn [mbind outcome_bind].
  rewrite (proj2 (add64_Ok _ _ (LedgerInfo.version li - start + 1))) by (unfold u64_max; lia).
  cbn [mbind outcome_bind]. rewrite Hmin, (proj2 (add64_Ok _ _ (start + N.of_nat n))) by (unfold u64_max; lia).
  cbn [mbind outcome_bind]. rewrite range64_count.
  destruct (run_total d L Hh latest Hcf start n fuel) as (-> & -> & Hev); [done|lia|done|]. rewrite Hev.
  destruct (range_proof_total d L Hh latest Hcf (LedgerInfo.version li) start n) as [pf Hpf]; [done|done|done|].
  destruct fetch_events; cbn [mbind outcome_bind fmap outcome_fmap]; rewrite Hpf; by eexists.
Qed.
End list.

(** ** Executed trees *)
Lemma next_version_succ (v : option Version) (n : N) : next_version v = Ok (n + 1) -> v = Some n.
Proof. destruct v as [v|]; cbn; [|intros [=]; lia]. intros [? _]%add64_Ok. f_equal. lia. Qed.
Lemma executed_trees_new_Ok (st : StateDelta) (acc : InMemoryAccumulator) (t : ExecutedTrees) :
  ExecutedTrees.new st acc = Ok t ->
  next_version (sd_current_version st) = Ok (num_leaves acc) /\ t = mkExecutedTrees st acc.
Proof.
  intros (n & Hn & Ht)%bind_Ok. apply bind_Ok in Ht as (? & Ha%assert_Ok & [= <-]).
  apply N.eqb_eq in Ha as <-. done.
Qed.
Lemma state_delta_new_Ok b bv c cv u (d : StateDelta) : StateDelta.new b bv c cv u = Ok d -> mkStateDelta b bv c cv u = d.
Proof. intros (? & _ & Hd)%bind_Ok. apply bind_Ok in Hd as (? & _ & Hd). by apply bind_Ok in Hd as (? & _ & [= <-]). Qed.
Lemma acc_new_num_leaves `{MerkleHasher} (fs : list HashValue) (n : N) (acc : InMemoryAccumulator) :
  Acc.new fs n = Ok acc -> num_leaves acc = n.
Proof. intros (? & _ & Ha)%bind_Ok. by apply bind_Ok in Ha as (? & _ & [= <-]). Qed.

Module LedgerDbProps.
(** C27: saving transactions on top of the ledger of a database, successful or not,
    leaves a database with the old ledger or with the new one, never a mixture, and
    every ledger info in it still commits to the transactions up to its version.  A call
    that returns [Ok] has extended the ledger, and the ledger info that came with it is
    the latest. *)
Theorem save_transactions_refines `{LedgerBcs} `{!LedgerBcsLaws} `{RocksDbLaws D It} `{MerkleHasher}
    `{CryptoHash TransactionInfo} `{!HashWidth} `{CryptoHash Transaction} `{CryptoHash ContractEvent}
    `{Bcs AccessPath} `{Bcs StateValue} (event_hasher : HashValue -> HashValue -> HashValue)
    (self self' : AptosDB D) (L : AbstractLedger) (xs : list TransactionToCommit) (base : option Version)
    (li : option LedgerInfoWithSignatures) (sync : bool) (st : StateDelta) (r : result unit) :
  db_holds (AptosDB.db self) L -> ledger_ok L ->
  N.of_nat (length (al_entries L ++ xs)) < 2 ^ 63 -> N.of_nat (length xs) <= 2 ^ 62 ->
  (forall x, li = Some x -> LedgerInfo.epoch (lis_ledger_info x) <= u64_max) ->
  AptosDB.save_transactions event_hasher xs (N.of_nat (length (al_entries L))) base li sync st self = (r, self') ->
  exists L', db_holds (AptosDB.db self') L' /\ ledger_ok L' /\ (L' = L \/ L' = extend_ledger L xs li) /\
    (r = Ok tt -> L' = extend_ledger L xs li /\
      forall x, li = Some x -> ls_latest_ledger_info (adb_ledger_store self') = Some x).
Proof.
  intros Hh Hok Hlen Hxs Hep Hs. destruct (save_holds _ _ _ _ _ _ _ _ _ _ Hh Hlen Hxs Hep Hs) as [[Hr Hd]|(Hd & Hli & Hr)].
  - exists L. split_and!; [done|done|by left|done].
  - exists (extend_ledger L xs li). split_and!; [done|by apply ledger_ok_extend|by right|].
    intros He. split; [done|]. intros x ->. by apply Hr.
Qed.

Lemma save_transactions_refines_witness :
  exists L', db_holds (AptosDB.db Example.db2) L' /\ ledger_ok L' /\
    (L' = Example.ledger1 \/ L' = extend_ledger Example.ledger1 [Example.x1; Example.x2] (Some Example.end1)) /\
    (Ok tt = Ok tt :> result unit -> L' = extend_ledger Example.ledger1 [Example.x1; Example.x2] (Some Example.end1) /\
      forall x, Some Example.end1 = Some x -> ls_latest_ledger_info (adb_ledger_store Example.db2) = Some x).
Proof.
  apply (save_transactions_refines Example.event_node_hash Example.db1 Example.db2 Example.ledger1
           [Example.x1; Example.x2] (Some 0) (Some Example.end1) false (Example.delta (Some 0) (Some 2))).
  - apply Example.holds1.
  - apply Example.ledger1_ok.
  - vm_compute. reflexivity.
  - vm_compute. discriminate.
  - intros x [= <-]. vm_compute. discriminate.
  - exact Example.saved2.
Defined.

(** C28: let a database hold a ledger of which the versions below [al_first] are pruned,
    every transaction info committing to its transaction and its events.  A list of
    transactions that it returns for a ledger info of that ledger is the stored one, as
    long as the request allows, and verifies, events included.  If the disk does not
    fail, a list is returned exactly when no more than [MAX_LIMIT] transactions are asked
    for and either the request is empty or its first version is neither pruned nor below
    the version the pruner says is the least readable one; any other request is an error
    or a panic, never a shorter list. *)
Theorem served_transactions_verify `{LedgerBcs} `{RocksDbLaws D It} `{MerkleHasher}
    `{CryptoHash TransactionInfo} `{CryptoHash Transaction} `{CryptoHash ContractEvent}
    (event_hasher : HashValue -> HashValue -> HashValue)
    (self : AptosDB D) (L : AbstractLedger) (li : LedgerInfo) (fuel : nat) (start limit : N) (fetch_events : bool) :
  db_holds (AptosDB.db self) L -> Forall (coherent event_hasher) (al_entries L) -> commits_to li L ->
  let n := N.to_nat (N.min limit (LedgerInfo.version li + 1 - start)) in
  let entries := take n (drop (N.to_nat start) (al_entries L)) in
  (forall l, AptosDB.get_transactions self fuel start limit (LedgerInfo.version li) fetch_events = Ok l ->
     tl_transactions l = ttc_transaction <$> entries /\ length entries = n /\
     tl_events l = (if fetch_events && negb (bool_decide (n = 0%nat)) then Some (ttc_events <$> entries) else None) /\
     TransactionListWithProof_verify event_hasher l li (if bool_decide (n = 0%nat) then None else Some start) = Ok tt) /\
  (RocksDbReliable D It -> (forall cf, cf_handle (AptosDB.db self) cf = true) ->
   Forall (fun t => (length (ttc_events t) <= fuel)%nat) (al_entries L) ->
   (exists l, AptosDB.get_transactions self fuel start limit (LedgerInfo.version li) fetch_events = Ok l) <->
   limit <= MAX_LIMIT /\ (n <> 0%nat -> al_first L <= start /\
     forall min_readable, adb_pruner self = Some (Some min_readable) -> min_readable <= start)).
Proof.
  intros Hh Hco Hli n entries.
  destruct ((LedgerInfo.version li <? start) || (limit =? 0)) eqn:Hempty.
  - assert (n = 0%nat) as Hn by (apply orb_true_iff in Hempty as [?%N.ltb_lt|?%N.eqb_eq]; unfold n; lia).
    unfold entries, AptosDB.get_transactions, error_if_too_many_requested.
    rewrite Hempty, Hn, bool_decide_true, andb_false_r by done. split.
    + intros l Hl. apply bind_Ok in Hl as (? & _ & [= <-]). done.
    + intros _ _ _. destruct (N.ltb_spec MAX_LIMIT limit) as [Hlt|Hle]; cbn [mbind outcome_bind].
      * split; [by intros [l Hl]|]. intros [Hmax _]. lia.
      * split; [done|]. by eexists.
  - apply orb_false_iff in Hempty as [Hstart%N.ltb_ge Hlim%N.eqb_neq].
    destruct (request_bounds self L li start limit Hh Hli Hstart Hlim) as (_ & _ & Hn & _ & Hlen & _).
    rewrite bool_decide_false, andb_true_r by (unfold n; lia). split.
    + intros l Hl. destruct (list_served event_hasher self L li fuel start limit fetch_events Hh Hli Hstart Hlim l Hco Hl)
        as (_ & _ & Ht & He & Hv). by split_and!.
    + intros Hrel Hcf Hfuel. split.
      * intros [l Hl]. destruct (list_served event_hasher self L li fuel start limit fetch_events Hh Hli Hstart Hlim l Hco Hl)
          as (Hmax & Hread & _). done.
      * intros [Hmax Hread]. assert (n <> 0%nat) as Hn0 by (unfold n; lia).
        exact (list_total event_hasher self L li fuel start limit fetch_events Hh Hli Hstart Hlim Hcf (Hread Hn0) Hmax Hfuel).
Qed.

(** A pruned database: the list that is served for versions 1 and 2, and version 0 is
    refused. *)
Lemma served_transactions_verify_witness :
  (exists l, AptosDB.get_transactions Example.db4 10 1 2 3 true = Ok l /\
    tl_transactions l = [Example.t1; Example.t2] /\
    tl_events l = Some [[]; [Example.event0; Example.event1]] /\
    TransactionListWithProof_verify Example.event_node_hash l (lis_ledger_info Example.open2) (Some 1) = Ok tt) /\
  ~ (exists l, AptosDB.get_transactions Example.db4 10 0 2 3 true = Ok l).
Proof.
  destruct Example.holds4 as (_ & Hh & Hli).
  assert (Forall (fun t => (length (ttc_events t) <= 10)%nat) (al_entries Example.ledger4)) as Hfuel
    by (vm_compute; repeat constructor; lia).
  destruct (served_transactions_verify Example.event_node_hash Example.db4 Example.ledger4
    (lis_ledger_info Example.open2) 10 1 2 true Hh Example.entries_coherent Hli) as [Hok Htotal].
  destruct (served_transactions_verify Example.event_node_hash Example.db4 Example.ledger4
    (lis_ledger_info Example.open2) 10 0 2 true Hh Example.entries_coherent Hli) as [_ Hrefused].
  split.
  - destruct (proj2 (Htotal _ (fun cf => eq_refl) Hfuel)) as [l Hl].
    { split; [vm_compute; discriminate|]. intros _. split; [vm_compute; discriminate|].
      intros m Hm. vm_compute in Hm. injection Hm as <-. vm_compute. discriminate. }
    exists l. split; [exact Hl|]. destruct (Hok l Hl) as (Ht & _ & He & Hv).
    rewrite bool_decide_false in He, Hv by (vm_compute; discriminate). split_and!; [|rewrite He|exact Hv].
    + rewrite Ht. vm_compute. reflexivity.
    + vm_compute. reflexivity.
  - intros Hl. destruct (proj1 (Hrefused _ (fun cf => eq_refl) Hfuel) Hl) as [_ Hread].
    destruct Hread as [Hread _]; [vm_compute; discriminate|]. vm_compute in Hread. by apply Hread.
Defined.

(** Startup works only where the checkpoint is at the commit.  Let the database hold
    transactions past its latest ledger info (chunks were committed without one).  Startup
    information is then produced only if the last state checkpoint is exactly at the ledger
    info's version: [get_startup_info] builds the committed trees from the base of the
    buffered state, so with any other checkpoint it does not return a value at all. *)
Theorem startup_needs_checkpoint_at_commit `{LedgerBcs} `{RocksDb D It} `{MerkleHasher}
    (self : AptosDB D) (li : LedgerInfoWithSignatures) (es : option EpochState) (synced : Version) :
  LedgerStore.get_startup_info (adb_ledger_store self) = Ok (Some (li, es, Some synced)) ->
  sd_base_version (BufferedState.current_state (adb_buffered_state self)) <>
    Some (LedgerInfo.version (lis_ledger_info li)) ->
  forall info, AptosDB.get_startup_info self <> Ok info.
Proof.
  intros Hl Hne info Hi. unfold AptosDB.get_startup_info in Hi. rewrite Hl in Hi. cbn in Hi.
  apply bind_Ok in Hi as (trees & Ht & Hi).
  apply bind_Ok in Hi as (n & [-> _]%add64_Ok & Hi).
  apply bind_Ok in Hi as (fs & _ & Hi). apply bind_Ok in Hi as (acc & Hacc & Hi).
  apply bind_Ok in Hi as (st & Hst & Hi). apply bind_Ok in Hi as (ct & Hct & _).
  apply executed_trees_new_Ok in Hct as [Hct _]. apply acc_new_num_leaves in Hacc.
  apply state_delta_new_Ok in Hst as <-. cbn [sd_current_version] in Hct.
  apply Hne. unfold AptosDB.get_latest_executed_trees in Ht.
  apply bind_Ok in Ht as (? & _ & Ht). apply bind_Ok in Ht as (? & _ & Ht). apply bind_Ok in Ht as (? & _ & Ht).
  apply executed_trees_new_Ok in Ht as [_ ->]. cbn in Hct. rewrite Hacc in Hct.
  by apply next_version_succ in Hct.
Qed.

(** A chunk with a checkpoint was committed past the first ledger info: restarting panics. *)
Lemma startup_needs_checkpoint_at_commit_witness :
  (AptosDB.save_transactions Example.event_node_hash [Example.x1; Example.x2; Example.x3] 1 (Some 0) None false
     (Example.delta (Some 3) (Some 3)) Example.db1).1 = Ok tt /\
  (forall info, AptosDB.get_startup_info Example.ahead <> Ok info) /\ AptosDB.get_startup_info Example.ahead = Panic.
Proof.
  split; [vm_compute; reflexivity|]. split; [|vm_compute; reflexivity].
  apply (startup_needs_checkpoint_at_commit Example.ahead Example.end0 None 3);
    [vm_compute; reflexivity|vm_compute; discriminate].
Defined.
End LedgerDbProps.
