(* ===== verification/EpochSync.v ===== *)
(** * Following the epochs with the help of a database

    A light client asks the database for a state proof and ratchets its trusted state;
    if the ledger infos in the database form a chain of trust, every answer is accepted
    and the client arrives at the latest ledger info. *)

From S2P Require Import Prelude Crypto Errors Position Accumulator Verifier Ledger ConsensusTypes Blocks TransactionProofs AccumulatorStore SchemaDb LedgerSchemas LedgerDb TransactionStore EventStore StateStore AptosDb SchemaLemmas LedgerDbExample LedgerDbLemmas LedgerDbWrites.
From S2P Require Import Verifier Storage SafetyRules SafetyLemmas Replica Bft Simulation AccumulatorLemmas AccumulatorStoreLemmas LedgerDbExample.

Abbreviation li_of := lis_ledger_info (only parsing).

(** [ends] are the ledger infos that end the epochs 0, 1, ..., each signed by the
    validators the one before names, and [x] is the latest ledger info. *)
Record epochs_ok `{Signable LedgerInfo} (L : AbstractLedger) (ends : list LedgerInfoWithSignatures)
    (x : LedgerInfoWithSignatures) : Prop := {
  eo_stored e li : ends !! e = Some li -> al_ledger_infos L !! N.of_nat e = Some li;
  eo_epoch e li : ends !! e = Some li -> LedgerInfo.epoch (li_of li) = N.of_nat e;
  eo_next e li : ends !! e = Some li ->
    exists es, LedgerInfo.next_epoch_state (li_of li) = Some es /\ es_epoch es = N.of_nat (S e);
  eo_signed e li li' es : ends !! e = Some li -> ends !! S e = Some li' ->
    LedgerInfo.next_epoch_state (li_of li) = Some es -> EpochState.verify es li' = Ok tt;
  eo_increasing e li li' : ends !! e = Some li -> ends !! S e = Some li' ->
    LedgerInfo.version (li_of li) < LedgerInfo.version (li_of li');
  eo_index v e : al_epoch_ends L !! v = Some e <->
    exists li, ends !! N.to_nat e = Some li /\ LedgerInfo.version (li_of li) = v;
  eo_bound : N.of_nat (length ends) <= u64_max;
  eo_versions e li : ends !! e = Some li -> LedgerInfo.version (li_of li) <= u64_max;
  eo_latest : if LedgerInfo.ends_epoch (li_of x) then last ends = Some x
              else exists li es, last ends = Some li /\ LedgerInfo.next_epoch_state (li_of li) = Some es /\
                     EpochState.verify es x = Ok tt /\ LedgerInfo.version (li_of li) < LedgerInfo.version (li_of x);
}.

Section db.
Context `{Signable LedgerInfo} `{LedgerBcs} `{RocksDbLaws D It} `{MerkleHasher} `{CryptoHash TransactionInfo}.
Context (d : D) (L : AbstractLedger) (Hd : db_holds d L) (latest : option LedgerInfoWithSignatures).
Context (ends : list LedgerInfoWithSignatures) (x : LedgerInfoWithSignatures) (Hc : epochs_ok L ends x).

Abbreviation tables := (forall cf, cf_handle d cf = true).

Lemma iter_total {K V} (S : Schema K V) : cf_handle d (COLUMN_FAMILY_NAME S) = true -> exists iter, DB.iter d S = Ok iter.
Proof. intros Hcf. unfold DB.iter, DB.iter_with_direction, DB.get_cf_handle. rewrite Hcf. by eexists. Qed.

Lemma ends_increasing e e' li li' :
  (e < e')%nat -> ends !! e = Some li -> ends !! e' = Some li' ->
  LedgerInfo.version (li_of li) < LedgerInfo.version (li_of li').
Proof.
  intros Hlt He. revert li'. induction Hlt as [|e' Hlt IH]; intros li' He'.
  - by apply (eo_increasing _ _ _ Hc e).
  - destruct (lookup_lt_is_Some_2 ends e') as [li1 H1']; [apply lookup_lt_Some in He'; lia|].
    pose proof (IH li1 H1'). pose proof (eo_increasing _ _ _ Hc e' _ _ H1' He'). lia.
Qed.

(** The epoch of a version: the one that ended last before it, or at it. *)
Definition in_epoch (k : nat) (v : Version) : Prop :=
  (exists li, ends !! k = Some li /\ LedgerInfo.version (li_of li) <= v) /\
  (forall li, ends !! S k = Some li -> v < LedgerInfo.version (li_of li)).

Lemma in_epoch_unique k v e li :
  in_epoch k v -> ends !! e = Some li -> LedgerInfo.version (li_of li) <= v ->
  (forall li', ends !! k = Some li' -> LedgerInfo.version (li_of li') <= LedgerInfo.version (li_of li)) -> e = k.
Proof.
  intros [(lk & Hk & _) Hnext] He Hle Hge. specialize (Hge lk Hk).
  destruct (Nat.lt_trichotomy e k) as [Hlt|[?|Hgt]]; [|done|].
  - pose proof (ends_increasing _ _ _ _ Hlt He Hk). lia.
  - destruct (decide (e = S k)) as [->|Hne]; [pose proof (Hnext _ He); lia|].
    destruct (lookup_lt_is_Some_2 ends (S k)) as [l1 Hl1]; [apply lookup_lt_Some in He; lia|].
    pose proof (Hnext _ Hl1). pose proof (ends_increasing (S k) e _ _ ltac:(lia) Hl1 He). lia.
Qed.

(** The last row up to a version is the one of the epoch the version is in. *)
Lemma last_epoch_end k v :
  in_epoch k v -> v <= u64_max -> cf_handle d (COLUMN_FAMILY_NAME EpochByVersionSchema) = true ->
  exists iter iter' li, DB.iter d EpochByVersionSchema = Ok iter /\
    SchemaIterator.seek_for_prev EpochByVersionSchema v iter = Ok iter' /\ ends !! k = Some li /\
    (forall r, SchemaIterator.next EpochByVersionSchema iter' = Ok r ->
       r.1 = Some (LedgerInfo.version (li_of li), N.of_nat k)) /\
    (RocksDbReliable D It -> exists r, SchemaIterator.next EpochByVersionSchema iter' = Ok r).
Proof.
  intros Hin Hv Hcf. destruct (iter_total EpochByVersionSchema Hcf) as [iter Hi].
  pose proof Hin as [(li & Hli & Hle) _].
  exists iter, (mkSchemaIterator (it_seek_for_prev (to_be_bytes 8 v) (db_iter iter)) (si_direction iter)), li.
  split_and!; [done|done|done|..].
  all: destruct (h_epoch_end _ _ Hd) as (m & Ht & Hm).
  all: destruct (last_next EpochByVersionSchema (fun k => k) (u64_ordered EpochByVersionSchema eq_refl eq_refl) d m iter (fun c => c <= v)
    (it_seek_for_prev (to_be_bytes 8 v)) Ht Hi) as [Hok Htot];
    [exact (proj1 (proj2 (proj2 (proj2 (moves_keep_rows (db_iter iter) (to_be_bytes 8 v))))))| |try exact Htot].
  1, 3: eexists; split; [|apply seek_for_prev_pos]; intros k' b' [He' Hd'];
    destruct (u64_codec_inv _ _ He' Hd') as [-> Hk']; rewrite Is_true_true, be_bytes_le, N.leb_le; [done|done|];
    rewrite u64_pow; unfold u64_max in Hv; lia.
  intros [o it] Hn. specialize (Hok _ Hn). cbn [fst] in *.
  assert (m !! LedgerInfo.version (li_of li) = Some (N.of_nat k)) as Hmli.
  { rewrite Hm. apply (eo_index _ _ _ Hc). exists li. by rewrite Nat2N.id. }
  destruct o as [[v' e']|]; [|by destruct (Hok (LedgerInfo.version (li_of li)) ltac:(by eexists))].
  destruct Hok as (Hv' & _ & Hle' & Hgreat).
  rewrite Hm in Hv'. apply (eo_index _ _ _ Hc) in Hv' as (li' & Hli' & <-).
  assert (N.to_nat e' = k) as Hk.
  { apply (in_epoch_unique k v _ li'); [done..|]. intros l Hl. assert (l = li) as -> by congruence.
    by apply (Hgreat (LedgerInfo.version (li_of li)) ltac:(by eexists)). }
  rewrite Hk in Hli'. assert (li' = li) as -> by congruence. by rewrite <-Hk, N2Nat.id.
Qed.

Definition first_needed (k : nat) (v : Version) (li : LedgerInfoWithSignatures) : nat :=
  if LedgerInfo.version (li_of li) <? v then S k else k.

Lemma get_epoch_spec k v :
  in_epoch k v -> v <= u64_max -> 
  let get := LedgerStore.get_epoch (mkLedgerStore d latest) v in
  (forall r, get = Ok r -> exists li, ends !! k = Some li /\ r = N.of_nat (first_needed k v li)) /\
  (RocksDbReliable D It -> tables -> exists r, get = Ok r).
Proof.
  intros Hin Hv get. subst get. unfold LedgerStore.get_epoch. cbn [ls_db].
  pose proof Hin as [(li & Hli & Hle) _].
  assert (forall li, ends !! k = Some li -> add64 (N.of_nat k) 1 = Ok (N.of_nat (S k)) :> result N) as Hadd.
  { intros l Hl%lookup_lt_Some. pose proof (eo_bound _ _ _ Hc). apply add64_Ok. lia. }
  split.
  - intros r Hg. apply bind_Ok in Hg as (iter & Hi & Hg).
    destruct (last_epoch_end k v Hin Hv) as (iter0 & iter' & li' & Hi0 & Hs & Hli' & Hok & _).
    { unfold DB.iter, DB.iter_with_direction, DB.get_cf_handle in Hi. by destruct (cf_handle _ _). }
    assert (iter0 = iter) as -> by congruence. rewrite Hs in Hg. cbn [mbind outcome_bind] in Hg.
    apply bind_Ok in Hg as (o & Hn & Hg). rewrite (Hok o Hn) in Hg. exists li'. split; [done|].
    apply bind_Ok in Hg as (? & _ & Hg). unfold first_needed. destruct (_ <? v); [|by injection Hg as <-].
    rewrite (Hadd li' Hli') in Hg. by injection Hg as <-.
  - intros Hrel Hcf. destruct (last_epoch_end k v Hin Hv (Hcf _)) as (iter & iter' & li' & -> & Hs & Hli' & Hok & Htot).
    cbn [mbind outcome_bind]. rewrite Hs. cbn [mbind outcome_bind]. destruct (Htot Hrel) as [r Hr]. rewrite Hr.
    cbn [mbind outcome_bind]. rewrite (Hok r Hr). assert (li' = li) as -> by congruence.
    rewrite (proj2 (N.leb_le _ _)) by done. cbn [ensure mbind outcome_bind].
    destruct (_ <? v); [rewrite (Hadd li Hli)|]; by eexists.
Qed.

Section ending_rows.
Context (m : gmap N LedgerInfoWithSignatures) (Hm : forall e, m !! e = al_ledger_infos L !! e).
Abbreviation from_epoch := (at_from LedgerInfoSchema (fun e => e)).

(** The iterator over the epoch endings, while there are any. *)
Lemma ending_next iter e li stop :
  from_epoch iter m (N.of_nat e) -> ends !! e = Some li -> N.of_nat e < stop ->
  (forall r, EpochEndingLedgerInfoIter_next (mkBoundedIter iter (N.of_nat e) stop) = Ok r ->
     exists iter', r = (Some li, mkBoundedIter iter' (N.of_nat (S e)) stop) /\ from_epoch iter' m (N.of_nat (S e))) /\
  (RocksDbReliable D It -> exists r, EpochEndingLedgerInfoIter_next (mkBoundedIter iter (N.of_nat e) stop) = Ok r).
Proof.
  intros Hat He Hstop. unfold EpochEndingLedgerInfoIter_next. cbn [bi_end bi_expected_next bi_inner].
  rewrite (proj2 (N.leb_gt _ _)) by done.
  assert (m !! N.of_nat e = Some li) as Hme by (rewrite Hm; by apply (eo_stored _ _ _ Hc)).
  assert (forall o iter', SchemaIterator.next LedgerInfoSchema iter = Ok (o, iter') ->
    o = Some (N.of_nat e, li) /\ from_epoch iter' m (N.of_nat (S e))) as Hstep.
  { intros o iter' Hn. pose proof (at_from_next LedgerInfoSchema _ (u64_ordered LedgerInfoSchema eq_refl eq_refl) _ _ _ _ Hat Hn) as Hr.
    destruct o as [[k v]|]; cbn [fst snd] in Hr.
    - destruct Hr as (Hk & (_ & Hle & Hleast) & Hat'). pose proof (Hleast (N.of_nat e) ltac:(by eexists) (N.le_refl _)).
      assert (k = N.of_nat e) as -> by (cbn beta in *; lia). assert (v = li) as -> by congruence.
      split; [done|]. by replace (N.of_nat (S e)) with (N.of_nat e + 1) by lia.
    - specialize (Hr (N.of_nat e) ltac:(by eexists)). cbn beta in Hr. lia. }
  destruct (eo_next _ _ _ Hc e li He) as (es & Hes & _). pose proof (eo_bound _ _ _ Hc) as Hb.
  pose proof (lookup_lt_Some _ _ _ He) as Hlt.
  assert (add64 (N.of_nat e) 1 = Ok (N.of_nat (S e)) :> result N) as Hadd by (apply add64_Ok; lia).
  split.
  - intros r Hr. apply bind_Ok in Hr as ([o iter'] & Hn & Hr). destruct (Hstep _ _ Hn) as [-> Hat'].
    unfold LedgerInfo.ends_epoch in Hr. rewrite Hes, bool_decide_true, N.eqb_refl in Hr by done.
    cbn [negb ensure mbind outcome_bind] in Hr. rewrite Hadd in Hr. injection Hr as <-. by eexists.
  - intros Hrel. destruct (at_from_total LedgerInfoSchema _ _ _ _ Hat) as [[o iter'] Hn]. rewrite Hn.
    destruct (Hstep _ _ Hn) as [-> _]. cbn [mbind outcome_bind].
    unfold LedgerInfo.ends_epoch. rewrite Hes, bool_decide_true, N.eqb_refl by done.
    cbn [negb ensure mbind outcome_bind]. rewrite Hadd. by eexists.
Qed.

Lemma collect_endings n iter e :
  from_epoch iter m (N.of_nat e) -> (e + n <= length ends)%nat ->
  let it := mkBoundedIter iter (N.of_nat e) (N.of_nat (e + n)) in
  (forall l, collect_steps EpochEndingLedgerInfoIter_next n it = Ok l -> l = take n (drop e ends)) /\
  (RocksDbReliable D It -> exists l, collect_steps EpochEndingLedgerInfoIter_next n it = Ok l).
Proof.
  revert iter e. induction n as [|n IH]; intros iter e Hat Hlen; cbn [collect_steps].
  - unfold EpochEndingLedgerInfoIter_next. cbn [bi_end bi_expected_next].
    rewrite (proj2 (N.leb_le _ _)) by lia. split; [|by eexists]. intros l Hl. injection Hl as <-. done.
  - destruct (lookup_lt_is_Some_2 ends e) as [li Hli]; [lia|].
    destruct (ending_next iter e li (N.of_nat (e + S n)) Hat Hli) as [Hok Htot]; [lia|].
    rewrite (drop_S ends li e) by done. cbn [take].
    replace (e + S n)%nat with (S e + n)%nat in * by lia. split.
    + intros l Hl. apply bind_Ok in Hl as (r & Hr & Hl). destruct (Hok r Hr) as (iter' & -> & Hat').
      apply bind_Ok in Hl as (rest & Hrest & [= <-]). f_equal. by apply (IH iter' (S e) Hat'); [lia|].
    + intros Hrel. destruct (Htot Hrel) as [r Hr]. rewrite Hr. destruct (Hok r Hr) as (iter' & -> & Hat').
      destruct (IH iter' (S e) Hat') as [_ Ht]; [lia|]. destruct (Ht Hrel) as [rest Hrest].
      cbn [mbind outcome_bind]. rewrite Hrest. by eexists.
Qed.
End ending_rows.

Abbreviation store := (mkLedgerStore d latest).

Lemma endings_iter a stop it :
  N.of_nat a <= u64_max ->
  LedgerStore.get_epoch_ending_ledger_info_iter store (N.of_nat a) stop = Ok it ->
  exists m iter, (forall e, m !! e = al_ledger_infos L !! e) /\ it = mkBoundedIter iter (N.of_nat a) stop /\
    at_from LedgerInfoSchema (fun e => e) iter m (N.of_nat a).
Proof.
  intros Ha Hi. unfold LedgerStore.get_epoch_ending_ledger_info_iter in Hi. cbn [ls_db] in Hi.
  apply bind_Ok in Hi as (iter & Hi & Hs). apply bind_Ok in Hs as (iter' & Hs & [= <-]).
  destruct (h_ledger_info _ _ Hd) as (m & Ht & Hm). exists m, iter'. split_and!; [done|done|].
  unfold SchemaIterator.seek in Hs. apply bind_Ok in Hs as (b & Hb & [= <-]).
  assert (b = to_be_bytes 8 (N.of_nat a)) as -> by (cbn in Hb; unfold encode_u64 in Hb; congruence).
  eapply at_from_seek; [by apply u64_ordered|exact Ht| |exact Hi].
  intros k b [He' Hd']. destruct (u64_codec_inv _ _ He' Hd') as [-> Hk].
  rewrite Is_true_true, be_bytes_le, N.leb_le; [done| |done]. rewrite u64_pow. unfold u64_max in Ha. lia.
Qed.


Lemma endings_iter_total l a stop : 
  cf_handle d (COLUMN_FAMILY_NAME LedgerInfoSchema) = true ->
  exists it, LedgerStore.get_epoch_ending_ledger_info_iter (mkLedgerStore d l) a stop = Ok it.
Proof.
  intros Hcf. destruct (iter_total LedgerInfoSchema Hcf) as [iter Hi].
  unfold LedgerStore.get_epoch_ending_ledger_info_iter. cbn [ls_db]. rewrite Hi. by eexists.
Qed.

Lemma ends_nonempty : (0 < length ends)%nat.
Proof.
  pose proof (eo_latest _ _ _ Hc) as Hl. destruct ends; [|cbn; lia].
  destruct (LedgerInfo.ends_epoch _); [done|]. by destruct Hl as (? & ? & ? & _).
Qed.

Lemma last_lookup_nat {A} (l : list A) y : last l = Some y -> l !! (length l - 1)%nat = Some y.
Proof. rewrite last_lookup. by replace (pred (length l)) with (length l - 1)%nat by lia. Qed.

(** The latest ledger info is in the epoch after the last one that ended, or ends that. *)
Lemma latest_epoch :
  LedgerInfo.next_block_epoch (li_of x) = N.of_nat (length ends) /\
  if LedgerInfo.ends_epoch (li_of x) then last ends = Some x
  else LedgerInfo.epoch (li_of x) = N.of_nat (length ends).
Proof.
  pose proof ends_nonempty as Hpos. pose proof (eo_latest _ _ _ Hc) as Hl.
  unfold LedgerInfo.next_block_epoch, BlockInfo.next_block_epoch. fold (LedgerInfo.next_epoch_state (li_of x)).
  fold (LedgerInfo.epoch (li_of x)).
  destruct (LedgerInfo.ends_epoch (li_of x)) eqn:Hends.
  - apply last_lookup_nat in Hl as Hl'. destruct (eo_next _ _ _ Hc _ _ Hl') as (es & -> & Hes). split; [|done].
    cbn. rewrite Hes. lia.
  - destruct Hl as (li & es & Hli%last_lookup_nat & Hes & Hv & _).
    destruct (eo_next _ _ _ Hc _ _ Hli) as (es' & Hes' & Hep). assert (es' = es) as -> by congruence.
    unfold LedgerInfo.ends_epoch in Hends. apply bool_decide_eq_false, eq_None_not_Some in Hends as ->. cbn.
    unfold EpochState.verify in Hv. run_ok. breflect. lia.
Qed.

(** *** What the database answers *)
Context (self : AptosDB D) (Hself : adb_ledger_store self = mkLedgerStore d (Some x)) (Hlatest : latest = Some x).

Definition page (a : nat) : nat := min 100 (length ends - a).

Lemma served_epochs a :
  (a <= length ends)%nat ->
  let get := AptosDB.get_epoch_ending_ledger_infos self (N.of_nat a) (N.of_nat (length ends)) in
  (forall r, get = Ok r ->
     r = (take (page a) (drop a ends), bool_decide (a + page a < length ends)%nat)) /\
  (RocksDbReliable D It -> tables -> exists r, get = Ok r).
Proof.
  intros Ha get. subst get. pose proof (eo_bound _ _ _ Hc) as Hb. destruct latest_epoch as [Hnext _].
  unfold AptosDB.get_epoch_ending_ledger_infos, AptosDB.get_epoch_ending_ledger_infos_impl, AptosDB.collect_epoch_endings.
  rewrite Hself. unfold LedgerStore.get_latest_ledger_info, LedgerStore.get_latest_ledger_info_option. cbn [ls_latest_ledger_info ok_or mbind outcome_bind].
  rewrite (proj2 (N.leb_le (N.of_nat a) _)) by lia.
  cbn [ensure mbind outcome_bind]. rewrite Hnext, N.leb_refl.
  cbn [mbind outcome_bind].
  assert ((if MAX_NUM_EPOCH_ENDING_LEDGER_INFO <? N.of_nat (length ends) - N.of_nat a
           then paging_epoch ← add64 (N.of_nat a) MAX_NUM_EPOCH_ENDING_LEDGER_INFO; Ok (paging_epoch, true)
           else Ok (N.of_nat (length ends), false)) =
          Ok (N.of_nat (a + page a), bool_decide (a + page a < length ends)%nat) :> result (N * bool)) as ->.
  { unfold page, MAX_NUM_EPOCH_ENDING_LEDGER_INFO. destruct (N.ltb_spec 100 (N.of_nat (length ends) - N.of_nat a)).
    - rewrite (proj2 (add64_Ok _ _ (N.of_nat a + 100))) by lia. rewrite bool_decide_true by lia.
      cbn [mbind outcome_bind]. do 2 f_equal. lia.
    - rewrite bool_decide_false by lia. do 2 f_equal. lia. }
  cbn [mbind outcome_bind].
  set (stop := N.of_nat (a + page a)). assert (stop - N.of_nat a = N.of_nat (page a)) as Hstop by (subst stop; lia).
  assert (a + page a <= length ends)%nat as Hend by (unfold page; lia).
  assert (forall it, LedgerStore.get_epoch_ending_ledger_info_iter (mkLedgerStore d (Some x)) (N.of_nat a) stop = Ok it ->
    (forall l, collect_bounded EpochEndingLedgerInfoIter_next it = Ok l -> l = take (page a) (drop a ends)) /\
    (RocksDbReliable D It -> exists l, collect_bounded EpochEndingLedgerInfoIter_next it = Ok l)) as Hcol.
  { intros it Hit. rewrite <-Hlatest in Hit. apply endings_iter in Hit as (m & iter & Hm & -> & Hat); [|lia].
    unfold collect_bounded. cbn [bi_end bi_expected_next]. rewrite Hstop, Nat2N.id.
    by apply (collect_endings m Hm (page a) iter a). }
  split.
  - intros r Hr. apply bind_Ok in Hr as (l & Hl & Hr). apply bind_Ok in Hl as (it & Hit & Hl).
    apply (Hcol it Hit) in Hl as ->. by apply bind_Ok in Hr as (? & _ & [= <-]).
  - intros Hrel Hcf. destruct (endings_iter_total (Some x) (N.of_nat a) stop (Hcf _)) as [it Hit]. rewrite Hit.
    destruct (Hcol it Hit) as [Hok Htot]. destruct (Htot Hrel) as [l Hl].
    cbn [mbind outcome_bind]. rewrite Hl, (Hok l Hl).
    cbn [mbind outcome_bind]. rewrite length_take, length_drop, Hstop.
    rewrite (proj2 (N.eqb_eq _ _)) by lia. by eexists.
Qed.

Lemma served_state_proof k v :
  in_epoch k v -> v <= LedgerInfo.version (li_of x) -> LedgerInfo.version (li_of x) <= u64_max ->
  (forall sp, AptosDB.get_state_proof self v = Ok sp ->
     exists li, ends !! k = Some li /\
       let a := first_needed k v li in
       sp = mkStateProof x (mkEpochChangeProof (take (page a) (drop a ends)) (bool_decide (a + page a < length ends)%nat))) /\
  (RocksDbReliable D It -> tables -> exists sp, AptosDB.get_state_proof self v = Ok sp).
Proof.
  intros Hin Hv Hx. destruct (get_epoch_spec k v Hin ltac:(lia)) as [Hok Htot]. destruct latest_epoch as [Hnext _].
  unfold AptosDB.get_state_proof, AptosDB.get_state_proof_with_ledger_info. rewrite Hself, <-Hlatest.
  assert (LedgerStore.get_latest_ledger_info (mkLedgerStore d latest) = Ok x) as -> by (by rewrite Hlatest).
  cbn [mbind outcome_bind].
  rewrite (proj2 (N.leb_le _ _)) by done. cbn [ensure mbind outcome_bind]. rewrite Hnext.
  assert (forall li, ends !! k = Some li -> (first_needed k v li <= length ends)%nat) as Hfirst.
  { intros li Hli%lookup_lt_Some. unfold first_needed. destruct (_ <? v); lia. }
  split.
  - intros sp Hsp. apply bind_Ok in Hsp as (e & He & Hsp). destruct (Hok e He) as (li & Hli & ->). exists li.
    split; [done|]. cbn zeta. specialize (Hfirst li Hli). apply bind_Ok in Hsp as (pf & Hpf & [= <-]). f_equal.
    destruct (N.ltb_spec (N.of_nat (first_needed k v li)) (N.of_nat (length ends))) as [Hlt|Hge].
    + apply bind_Ok in Hpf as (r & Hr & [= <-]). apply (served_epochs _ Hfirst) in Hr as ->. done.
    + injection Hpf as <-. unfold page. rewrite bool_decide_false by lia.
      by replace (length ends - first_needed k v li)%nat with 0%nat by lia.
  - intros Hrel Hcf. destruct (Htot Hrel Hcf) as [e He]. rewrite He. destruct (Hok e He) as (li & Hli & ->).
    destruct (served_epochs _ (Hfirst li Hli)) as [_ Ht]. destruct (Ht Hrel Hcf) as [r Hr].
    cbn [mbind outcome_bind]. rewrite Hr. destruct (_ <? N.of_nat (length ends)); by eexists.
Qed.
End db.

(** ** The client *)
Section client.
Context `{Signable LedgerInfo} `{CryptoHash Ledger2WaypointConverter}.
Context (L : AbstractLedger) (ends : list LedgerInfoWithSignatures) (x : LedgerInfoWithSignatures) (Hc : epochs_ok L ends x).
Abbreviation ver y := (LedgerInfo.version (li_of y)).
Abbreviation next_es y := (LedgerInfo.next_epoch_state (li_of y)).

(** A client that trusts the end of epoch [k], and a version since then. *)
Definition trusted_at (k : nat) (ts : TrustedState) : Prop :=
  exists li, ends !! k = Some li /\
    match ts with
    | TSEpochWaypoint w => w = Waypoint.new_any (li_of li)
    | TSEpochState w es =>
        next_es li = Some es /\ ver li <= wp_version w <= ver x /\
        (forall li', ends !! S k = Some li' -> wp_version w <= ver li') /\
        (wp_version w = ver x -> w = Waypoint.new_any (li_of x))
    end.

(** A client that trusts the latest ledger info. *)
Definition synced (ts : TrustedState) : Prop :=
  exists li es, last ends = Some li /\ next_es li = Some es /\ ts = TSEpochState (Waypoint.new_any (li_of x)) es.

Lemma ends_latest e li : ends !! e = Some li -> ver li <= ver x /\ (ver li = ver x -> li = x /\ S e = length ends).
Proof.
  intros He. pose proof (eo_latest _ _ _ Hc) as Hl. pose proof (lookup_lt_Some _ _ _ He) as Hlt.
  assert (forall y, last ends = Some y -> ver li <= ver y /\ (ver li = ver y -> li = y /\ S e = length ends)) as Hlast.
  { intros y Hy%last_lookup_nat. destruct (decide (S e = length ends)) as [Heq|Hne].
    - replace (length ends - 1)%nat with e in Hy by lia. assert (y = li) as -> by congruence. done.
    - pose proof (ends_increasing _ _ _ Hc e (length ends - 1) li y ltac:(lia) He Hy). lia. }
  destruct (LedgerInfo.ends_epoch (li_of x)); [by apply Hlast|].
  destruct Hl as (y & es & Hy & _ & _ & Hlt'). specialize (Hlast y Hy). lia.
Qed.

Lemma verify_chain_ends n a li es :
  ends !! a = Some li -> next_es li = Some es ->
  EpochChangeProof.verify_chain (EpochState.verify es) (take n (drop (S a) ends)) = Ok tt.
Proof.
  revert a li es. induction n as [|n IH]; intros a li es Ha Hes; [done|].
  destruct (ends !! S a) as [li'|] eqn:Ha'.
  - rewrite (drop_S ends li') by done. cbn [take EpochChangeProof.verify_chain].
    rewrite (eo_signed _ _ _ Hc a li li' es Ha Ha' Hes). cbn [mbind outcome_bind].
    destruct (eo_next _ _ _ Hc _ _ Ha') as (es' & Hes' & _). rewrite Hes'. cbn [ok_or mbind outcome_bind].
    by apply (IH (S a) li').
  - rewrite (drop_ge ends) by (by apply lookup_ge_None). done.
Qed.

Lemma skip_none {A} (p : A -> bool) l : Forall (fun y => p y = false) l -> EpochChangeProof.skip_while p l = l.
Proof. destruct 1 as [|y l Hy _]; [done|]. cbn. by rewrite Hy. Qed.

(** The served slice, without what is stale for the client. *)
Lemma verify_ends {V} `{TVerifier V} (verifier : V) a n b last_li more :
  (n <= length ends - a)%nat -> (a <= b < a + n)%nat -> ends !! (a + n - 1)%nat = Some last_li ->
  (forall e li, ends !! e = Some li -> is_ledger_info_stale verifier (li_of li) = true <-> (e < b)%nat) ->
  (forall m, EpochChangeProof.verify_chain (tv_verify verifier) (take m (drop b ends)) = Ok tt) ->
  EpochChangeProof.verify (mkEpochChangeProof (take n (drop a ends)) more) verifier = Ok last_li.
Proof.
  intros Hn Hb Hlast Hstale Hchain. unfold EpochChangeProof.verify. cbn [ledger_info_with_sigs].
  assert (last (take n (drop a ends)) = Some last_li) as ->.
  { rewrite last_lookup, length_take, length_drop, lookup_take_lt, lookup_drop by lia.
    by replace (a + pred (min n (length ends - a)))%nat with (a + n - 1)%nat by lia. }
  destruct (is_ledger_info_stale verifier (li_of last_li)) eqn:Hs; [apply (Hstale _ _ Hlast) in Hs; lia|].
  cbn [negb ensure mbind outcome_bind].
  assert (EpochChangeProof.skip_while (fun li => is_ledger_info_stale verifier (li_of li)) (take n (drop a ends)) =
          take (n - (b - a)) (drop b ends)) as ->; [|by rewrite Hchain].
  remember (b - a)%nat as j eqn:Hj. clear Hlast Hs. revert a n Hn Hb Hj.
  induction j as [|j IH]; intros a n Hn Hb Hj.
  - assert (a = b) as -> by lia. rewrite Nat.sub_0_r. apply skip_none, Forall_lookup. intros i li Hi.
    apply lookup_take_Some in Hi as [Hi _]. rewrite lookup_drop in Hi.
    apply not_true_is_false. intros Hs%(Hstale _ _ Hi). lia.
  - destruct n as [|n]; [lia|]. destruct (lookup_lt_is_Some_2 ends a) as [li Hli]; [lia|].
    rewrite (drop_S ends li a) by done. cbn [take EpochChangeProof.skip_while].
    rewrite (proj2 (Hstale _ _ Hli)) by lia. by rewrite (IH (S a) n) by lia.
Qed.

(** *** What the client makes of it *)
Lemma ratchet_epoch_change ts b last_li proof :
  TrustedState.version ts <= ver x ->
  epoch_change_verification_required ts (LedgerInfo.next_block_epoch (li_of x)) = true ->
  EpochChangeProof.verify proof ts = Ok last_li -> ends !! b = Some last_li ->
  more proof = bool_decide (S b < length ends)%nat ->
  exists ts', TrustedState.verify_and_ratchet_inner ts x proof = Ok (TSCEpoch ts' last_li) /\
    (synced ts' \/ (S b < length ends)%nat /\ trusted_at b ts').
Proof.
  intros Hver Hreq Hv Hb Hmore. unfold TrustedState.verify_and_ratchet_inner.
  rewrite (proj2 (N.leb_le _ _)), Hreq, Hv by done. cbn [ensure mbind outcome_bind].
  destruct (eo_next _ _ _ Hc b last_li Hb) as (es & Hes & Hep). rewrite Hes, Hmore. cbn [ok_or mbind outcome_bind]. rewrite Hep.
  destruct (latest_epoch _ _ _ Hc) as [_ Hx]. pose proof (eo_latest _ _ _ Hc) as Hlast.
  pose proof (lookup_lt_Some _ _ _ Hb) as Hlt. destruct (ends_latest _ _ Hb) as [Hle Heq].
  destruct (decide (S b < length ends)%nat) as [Hmid|Hend].
  - assert (last_li <> x) as Hne.
    { intros ->. destruct (Heq eq_refl). lia. }
    rewrite bool_decide_false, bool_decide_true by done.
    destruct (lookup_lt_is_Some_2 ends (S b) Hmid) as [li' Hli'].
    pose proof (eo_increasing _ _ _ Hc b _ _ Hb Hli') as Hinc. destruct (ends_latest _ _ Hli') as [Hle' Heq'].
    assert (N.of_nat (length ends) <= LedgerInfo.epoch (li_of x) + 1) as Hxe.
    { destruct (LedgerInfo.ends_epoch (li_of x)); [|lia].
      apply last_lookup_nat in Hx. apply (eo_epoch _ _ _ Hc) in Hx. lia. }
    destruct (N.eqb_spec (LedgerInfo.epoch (li_of x)) (N.of_nat (S b))) as [Hxb|Hxb].
    + destruct (LedgerInfo.ends_epoch (li_of x)); [|lia]. apply last_lookup_nat in Hx as Hx'.
      replace (length ends - 1)%nat with (S b) in Hx' by lia. assert (li' = x) as -> by congruence.
      rewrite (eo_signed _ _ _ Hc b _ _ es Hb Hx' Hes). cbn [mbind outcome_bind]. eexists. split; [done|]. right.
      split; [done|]. exists last_li. split_and!; try done. intros l Hl. assert (l = x) as -> by congruence. done.
    + rewrite (proj2 (N.ltb_lt _ _)) by lia. cbn [andb mbind outcome_bind]. eexists. split; [done|]. right.
      split; [done|]. exists last_li. cbn [wp_version Waypoint.new_any]. split_and!; [done|done|lia|lia| |lia].
      intros l Hl. assert (l = li') as -> by congruence. lia.
  - assert (last ends = Some last_li) as Hl by (rewrite last_lookup; by replace (pred (length ends)) with b by lia).
    assert (exists y, (if bool_decide (last_li = x) then Ok x
       else if LedgerInfo.epoch (li_of x) =? N.of_nat (S b) then _ ← EpochState.verify es x; Ok x
       else if (N.of_nat (S b) <? LedgerInfo.epoch (li_of x)) && bool_decide (S b < length ends)%nat then Ok last_li
       else Err (Msg "Inconsistent epoch change proof and latest ledger info")) = Ok y :> result _ /\ y = x) as (y & -> & ->).
    { exists x. split; [|done]. destruct (decide (last_li = x)) as [He|He]; [by rewrite bool_decide_true|].
      rewrite bool_decide_false by done. destruct (LedgerInfo.ends_epoch (li_of x)); [exfalso; congruence|].
      rewrite Hx, (proj2 (N.eqb_eq _ _)) by lia. destruct Hlast as (li & es' & Hli & Hes' & Hvx & _).
      assert (li = last_li) as -> by congruence. assert (es' = es) as -> by congruence. by rewrite Hvx. }
    cbn [mbind outcome_bind]. eexists. split; [done|]. left. by exists last_li, es.
Qed.

Definition answer (a : nat) : EpochChangeProof :=
  mkEpochChangeProof (take (page ends a) (drop a ends)) (bool_decide (a + page ends a < length ends)%nat).

(** A verified answer gets to a later epoch, or to the last one that ended. *)
Definition leads_on {V} `{TVerifier V} (verifier : V) (k a : nat) : Prop :=
  exists b last_li, EpochChangeProof.verify (answer a) verifier = Ok last_li /\ (k <= b)%nat /\
    (S b < length ends -> k + 99 <= b)%nat /\ ends !! b = Some last_li /\ more (answer a) = bool_decide (S b < length ends)%nat.

Lemma answer_leads_on {V} `{TVerifier V} (verifier : V) k a c :
  (a <= c < length ends)%nat -> (c <= S a)%nat -> (c = k \/ c = S k)%nat -> (k <= a)%nat ->
  (forall e y, ends !! e = Some y -> is_ledger_info_stale verifier (li_of y) = true <-> (e < c)%nat) ->
  (forall m, EpochChangeProof.verify_chain (tv_verify verifier) (take m (drop c ends)) = Ok tt) ->
  leads_on verifier k a.
Proof.
  intros Hac Hca Hck Hka Hst Hch. assert (a + page ends a <= length ends)%nat by (unfold page; lia).
  assert (c < a + page ends a)%nat by (unfold page; lia).
  destruct (lookup_lt_is_Some_2 ends (a + page ends a - 1)) as [last_li Hlast]; [lia|].
  exists (a + page ends a - 1)%nat, last_li. cbn [answer more].
  replace (S (a + page ends a - 1)) with (a + page ends a)%nat by lia.
  split_and!; [|lia|unfold page in *; lia|done|done].
  by apply (verify_ends verifier a (page ends a) c); [unfold page; lia|lia|..].
Qed.

(** The epoch changes served to a client lead it on, if it has to follow any. *)
Lemma answer_verifies k ts li :
  trusted_at k ts -> ends !! k = Some li -> (~ S k < length ends -> exists w, ts = TSEpochWaypoint w)%nat ->
  leads_on ts k (first_needed k (TrustedState.version ts) li).
Proof.
  intros (li' & Hli' & Hts) Hli Hpos. assert (li' = li) as -> by congruence. pose proof (lookup_lt_Some _ _ _ Hli) as Hlt.
  destruct (eo_next _ _ _ Hc _ _ Hli) as (es & Hes & Hep). unfold first_needed. destruct ts as [w|w es'].
  - subst w. unfold TrustedState.version. cbn [TrustedState.waypoint wp_version Waypoint.new_any]. rewrite N.ltb_irrefl.
    apply (answer_leads_on _ k k k); [lia|lia|by left|done|..].
    + intros e y He. cbn. rewrite N.ltb_lt. split; [|by intros ?; apply (ends_increasing _ _ _ Hc e k)].
      intros Hv. apply Nat.nle_gt. intros [Hke|Hke]%Nat.lt_eq_cases.
      * pose proof (ends_increasing _ _ _ Hc k e _ _ Hke Hli He). lia.
      * subst e. assert (y = li) as -> by congruence. lia.
    + intros [|m]; [done|]. rewrite (drop_S ends li k) by done. cbn [take EpochChangeProof.verify_chain].
      cbn [tv_verify TrustedState.TrustedState_TVerifier Waypoint_TVerifier]. unfold Waypoint.verify.
      cbn [wp_version wp_value Waypoint.new_any]. rewrite !N.eqb_refl. cbn [ensure mbind outcome_bind].
      rewrite Hes. cbn [ok_or mbind outcome_bind]. by apply (verify_chain_ends m k li).
  - destruct Hts as (Hes' & _). assert (es' = es) as -> by congruence.
    destruct (decide (S k < length ends)%nat) as [Hin|Hout]; [|by destruct (Hpos Hout) as [? ?]].
    apply (answer_leads_on _ k _ (S k)); [destruct (_ <? _); lia..|by right|destruct (_ <? _); lia| |].
    + intros e y He. cbn. rewrite N.ltb_lt, (eo_epoch _ _ _ Hc e y He). lia.
    + intros m. by apply (verify_chain_ends m k li).
Qed.

(** Every answer is accepted, and brings the client forward until it is synced. *)
Lemma answer_accepted k ts li :
  trusted_at k ts -> ends !! k = Some li ->
  exists change, TrustedState.verify_and_ratchet_inner ts x (answer (first_needed k (TrustedState.version ts) li)) = Ok change /\
    let ts' := default ts (TrustedStateChange_new_state change) in
    synced ts' \/ exists k', (k + 99 <= k' < length ends)%nat /\ trusted_at k' ts'.
Proof.
  intros Hts Hli. pose proof Hts as (li' & Hli' & Hst). assert (li' = li) as -> by congruence. clear Hli'.
  destruct (latest_epoch _ _ _ Hc) as [Hnext Hx]. pose proof (lookup_lt_Some _ _ _ Hli) as Hlt.
  destruct (eo_next _ _ _ Hc _ _ Hli) as (es & Hes & Hep). destruct (ends_latest _ _ Hli) as [Hlx Hlx'].
  assert (TrustedState.version ts <= ver x) as Hver by (destruct ts; [by subst|]; unfold TrustedState.version; cbn [TrustedState.waypoint]; destruct Hst as (_ & ? & _); lia).
  destruct (bool_decide (S k < length ends)%nat || TrustedState.is_epoch_waypoint ts) eqn:Hreq.
  - destruct (answer_verifies k ts li Hts Hli) as (b & last_li & Hv & Hkb & Hkb' & Hb & Hmore).
    { intros Hk. rewrite bool_decide_false in Hreq by done. destruct ts as [w|]; [by exists w|done]. }
    assert (epoch_change_verification_required ts (LedgerInfo.next_block_epoch (li_of x)) = true) as Hneed.
    { destruct ts; [done|]. cbn. rewrite orb_false_r in Hreq. apply bool_decide_eq_true in Hreq.
      destruct Hst as [Hst _]. rewrite N.ltb_lt, Hnext. assert (epoch_state = es) as -> by congruence. lia. }
    destruct (ratchet_epoch_change ts b last_li _ Hver Hneed Hv Hb Hmore) as (ts' & Hr & Hts').
    eexists. split; [exact Hr|]. cbn. destruct Hts' as [?|[Hlt' Ht]]; [by left|right]. exists b. split; [lia|done].
  - apply orb_false_iff in Hreq as [Hk%bool_decide_eq_false Hw]. destruct ts as [|w es']; [done|].
    destruct Hst as (Hes' & Hbetween & _ & Heq). assert (es' = es) as -> by congruence.
    assert (last ends = Some li) as Hlast by (rewrite last_lookup; by replace (pred (length ends)) with k by lia).
    unfold TrustedState.verify_and_ratchet_inner. cbn [TrustedState.version TrustedState.waypoint] in *.
    rewrite (proj2 (N.leb_le _ _)) by lia. cbn [ensure mbind outcome_bind epoch_change_verification_required TrustedState.TrustedState_TVerifier EpochState_TVerifier].
    rewrite Hnext, Hep, (proj2 (N.ltb_ge _ _)) by lia. cbn [wp_version Waypoint.new_any].
    destruct (N.eqb_spec (ver x) (wp_version w)) as [He|Hne].
    + rewrite (Heq (eq_sym He)), bool_decide_true by done. eexists. split; [done|]. left. by exists li, es.
    + assert (EpochState.verify es x = Ok tt) as ->.
      { pose proof (eo_latest _ _ _ Hc) as Hl. destruct (LedgerInfo.ends_epoch (li_of x)).
        - assert (li = x) as -> by congruence. lia.
        - destruct Hl as (y & es' & Hy & Hye & Hv & _). assert (y = li) as -> by congruence. congruence. }
      eexists. split; [done|]. left. by exists li, es.
Qed.
End client.

(** ** Growing the chain *)

(** A ledger info that continues the chain: signed by the validators of the epoch the
    latest one is in or starts, and for a later version. *)
Definition continues `{Signable LedgerInfo} (ends : list LedgerInfoWithSignatures) (x y : LedgerInfoWithSignatures) : Prop :=
  (exists li es, last ends = Some li /\ LedgerInfo.next_epoch_state (li_of li) = Some es /\ EpochState.verify es y = Ok tt) /\
  LedgerInfo.version (li_of x) < LedgerInfo.version (li_of y) <= u64_max /\
  N.of_nat (length ends) < u64_max /\
  (forall es, LedgerInfo.next_epoch_state (li_of y) = Some es -> es_epoch es = LedgerInfo.epoch (li_of y) + 1).
Definition add_end (ends : list LedgerInfoWithSignatures) (y : LedgerInfoWithSignatures) : list LedgerInfoWithSignatures :=
  if LedgerInfo.ends_epoch (li_of y) then ends ++ [y] else ends.

Section grow.
Context `{Signable LedgerInfo} (L : AbstractLedger) (xs : list TransactionToCommit).
Context (ends : list LedgerInfoWithSignatures) (x y : LedgerInfoWithSignatures).
Context (Hc : epochs_ok L ends x) (Hy : continues ends x y).

Lemma continues_epoch : LedgerInfo.epoch (li_of y) = N.of_nat (length ends) /\
  forall e li, ends !! e = Some li -> LedgerInfo.version (li_of li) < LedgerInfo.version (li_of y).
Proof.
  destruct Hy as ((l & es & Hl & Hes & Hv) & Hver & _). split.
  - apply last_lookup_nat in Hl as Hl'. destruct (eo_next _ _ _ Hc _ _ Hl') as (es' & Hes' & Hep).
    apply lookup_lt_Some in Hl'. unfold EpochState.verify in Hv. run_ok. breflect. assert (es' = es) as -> by congruence. lia.
  - intros e li He. destruct (ends_latest _ _ _ Hc e li He). lia.
Qed.

Lemma add_end_lookup e li :
  add_end ends y !! e = Some li <->
  ends !! e = Some li \/ e = length ends /\ li = y /\ LedgerInfo.ends_epoch (li_of y) = true.
Proof.
  unfold add_end. destruct (LedgerInfo.ends_epoch (li_of y)) eqn:He.
  - rewrite lookup_snoc_Some. naive_solver eauto using lookup_lt_Some.
  - naive_solver.
Qed.

Lemma epochs_ok_extend : epochs_ok (extend_ledger L xs (Some y)) (add_end ends y) y.
Proof.
  destruct continues_epoch as [Hep Hbefore]. destruct Hy as ((l & es & Hl & Hes & Hv) & Hver & Hlen & Hnext).
  assert (LedgerInfo.ends_epoch (li_of y) = true -> exists es, LedgerInfo.next_epoch_state (li_of y) = Some es /\
    es_epoch es = N.of_nat (S (length ends))) as Hends.
  { intros [es' He]%bool_decide_eq_true. exists es'. split; [done|]. rewrite (Hnext es' He). lia. }
  apply last_lookup_nat in Hl as Hl'. pose proof (lookup_lt_Some _ _ _ Hl') as Hpos.
  split.
  - intros e li He. cbn [extend_ledger al_ledger_infos]. rewrite Hep.
    apply add_end_lookup in He as [He|(-> & -> & _)]; [|by rewrite lookup_insert_eq].
    pose proof (lookup_lt_Some _ _ _ He). rewrite lookup_insert_ne by lia. by apply (eo_stored _ _ _ Hc).
  - intros e li [He|(-> & -> & _)]%add_end_lookup; [by apply (eo_epoch _ _ _ Hc)|done].
  - intros e li [He|(-> & -> & ?)]%add_end_lookup; [by apply (eo_next _ _ _ Hc)|by apply Hends].
  - intros e li li' es' He He' Hes'. apply add_end_lookup in He' as [He'|(Hlast & -> & _)].
    + apply add_end_lookup in He as [He|(-> & _)]; [by apply (eo_signed _ _ _ Hc e li)|]. apply lookup_lt_Some in He'. lia.
    + apply add_end_lookup in He as [He|(-> & _)]; [|lia]. replace (length ends - 1)%nat with e in Hl' by lia.
      assert (li = l) as -> by congruence. congruence.
  - intros e li li' He He'. apply add_end_lookup in He' as [He'|(Hlast & -> & _)].
    + apply add_end_lookup in He as [He|(-> & _)]; [by apply (eo_increasing _ _ _ Hc e)|]. apply lookup_lt_Some in He'. lia.
    + apply add_end_lookup in He as [He|(-> & _)]; [by apply (Hbefore e)|lia].
  - intros v e. cbn [extend_ledger al_epoch_ends]. setoid_rewrite add_end_lookup.
    destruct (LedgerInfo.ends_epoch (li_of y)) eqn:Hy'.
    + rewrite lookup_insert_Some, (eo_index _ _ _ Hc), Hep. split.
      * intros [[<- <-]|[_ (li & He & <-)]]; [exists y; split; [right; rewrite Nat2N.id; auto|done]|eauto].
      * intros (li & [He|(He & -> & _)] & <-); [right|left; split; [done|lia]].
        split; [pose proof (Hbefore _ _ He); lia|by exists li].
    + rewrite (eo_index _ _ _ Hc). naive_solver.
  - unfold add_end. destruct (LedgerInfo.ends_epoch (li_of y)); [rewrite length_app; cbn|]; lia.
  - intros e li [He|(-> & -> & _)]%add_end_lookup; [by apply (eo_versions _ _ _ Hc e)|lia].
  - unfold add_end. destruct (LedgerInfo.ends_epoch (li_of y)); [by rewrite last_snoc|].
    exists l, es. split_and!; [done..|]. by apply (Hbefore (length ends - 1)%nat).
Qed.
End grow.

(** ** The client and the database *)
Section sync.
Context `{Signable LedgerInfo} `{CryptoHash Ledger2WaypointConverter} `{LedgerBcs} `{RocksDbLaws D It}.
Context `{MerkleHasher} `{CryptoHash TransactionInfo}.

(** A client that asks for a state proof and ratchets, [n] times. *)
Fixpoint follow (self : AptosDB D) (n : nat) (ts : TrustedState) : result TrustedState :=
  match n with
  | O => Ok ts
  | S n =>
      sp ← AptosDB.get_state_proof self (TrustedState.version ts);
      change ← TrustedState.verify_and_ratchet_inner ts (sp_latest_li_w_sigs sp) (sp_epoch_changes sp);
      follow self n (default ts (TrustedStateChange_new_state change))
  end.

Context (self : AptosDB D) (L : AbstractLedger) (ends : list LedgerInfoWithSignatures) (x : LedgerInfoWithSignatures).
Context (Hd : db_holds (AptosDB.db self) L) (Hc : epochs_ok L ends x).
Context (Hlatest : ls_latest_ledger_info (adb_ledger_store self) = Some x) (Hx : LedgerInfo.version (li_of x) <= u64_max).

Lemma trusted_in_epoch k ts :
  trusted_at ends x k ts ->
  exists li, ends !! k = Some li /\ exists j li', in_epoch ends j (TrustedState.version ts) /\ ends !! j = Some li' /\
    first_needed j (TrustedState.version ts) li' = first_needed k (TrustedState.version ts) li.
Proof.
  intros (li & Hli & Hts). exists li. split; [done|]. unfold first_needed.
  assert (LedgerInfo.version (li_of li) <= TrustedState.version ts /\
    forall li', ends !! S k = Some li' -> TrustedState.version ts <= LedgerInfo.version (li_of li')) as [Hle Hnext].
  { destruct ts as [w|w es]; unfold TrustedState.version; cbn [TrustedState.waypoint].
    - subst w. cbn [wp_version Waypoint.new_any]. split; [done|]. intros li' Hli'. apply N.lt_le_incl.
      by apply (eo_increasing _ _ _ Hc k).
    - destruct Hts as (_ & [? _] & ? & _). done. }
  destruct (ends !! S k) as [li'|] eqn:Hk; [destruct (decide (TrustedState.version ts = LedgerInfo.version (li_of li'))) as [Heq|Hne]|].
  - exists (S k), li'. pose proof (eo_increasing _ _ _ Hc k _ _ Hli Hk). rewrite Heq, N.ltb_irrefl.
    rewrite (proj2 (N.ltb_lt _ _)) by done. split_and!; [|done|done]. split; [by exists li'|].
    intros y Hy. by apply (eo_increasing _ _ _ Hc (S k)).
  - exists k, li. split_and!; [|done|done]. split; [by exists li|]. intros y Hy. specialize (Hnext y).
    assert (y = li') as -> by congruence. specialize (Hnext eq_refl). lia.
  - exists k, li. split_and!; [|done|done]. split; [by exists li|]. congruence.
Qed.

Lemma client_served k ts :
  trusted_at ends x k ts ->
  exists li, ends !! k = Some li /\
  (forall sp, AptosDB.get_state_proof self (TrustedState.version ts) = Ok sp ->
     sp = mkStateProof x (answer ends (first_needed k (TrustedState.version ts) li))) /\
  (RocksDbReliable D It -> (forall cf, cf_handle (AptosDB.db self) cf = true) ->
   exists sp, AptosDB.get_state_proof self (TrustedState.version ts) = Ok sp).
Proof.
  intros Hts. destruct (trusted_in_epoch k ts Hts) as (li & Hli & j & li' & Hin & Hj & Hfirst). exists li. split; [done|].
  assert (TrustedState.version ts <= LedgerInfo.version (li_of x)) as Hv.
  { destruct Hts as (y & Hy & Hts). destruct ts as [w|w es]; unfold TrustedState.version; cbn [TrustedState.waypoint].
    - subst w. by apply (ends_latest L ends x Hc k).
    - destruct Hts as (_ & [_ ?] & _). done. }
  destruct (served_state_proof (AptosDB.db self) L Hd (Some x) ends x Hc self) with (k := j) (v := TrustedState.version ts)
    as [Hok Htot]; [|done|done|done|done|].
  { destruct self as [[d l] b p i]. unfold AptosDB.db. cbn in *. by subst l. }
  split; [|exact Htot]. intros sp Hsp. destruct (Hok sp Hsp) as (y & Hy & ->). assert (y = li') as -> by congruence.
  cbn zeta. unfold answer. by rewrite Hfirst.
Qed.

Lemma synced_trusted ts : synced ends x ts -> trusted_at ends x (length ends - 1) ts.
Proof.
  intros (li & es & Hl & Hes & ->). apply last_lookup_nat in Hl as Hl'. exists li. split; [done|].
  destruct (ends_latest _ _ _ Hc _ _ Hl') as [Hle _]. cbn [wp_version Waypoint.new_any]. split_and!; [done|done|done| |done].
  intros y Hy. apply lookup_lt_Some in Hy. lia.
Qed.

(** One round: the answer is accepted, and the client is synced or trusts a later epoch. *)
Lemma client_step k ts sp :
  trusted_at ends x k ts -> AptosDB.get_state_proof self (TrustedState.version ts) = Ok sp ->
  exists change, TrustedState.verify_and_ratchet_inner ts (sp_latest_li_w_sigs sp) (sp_epoch_changes sp) = Ok change /\
    let ts' := default ts (TrustedStateChange_new_state change) in
    synced ends x ts' \/ exists k', (k + 99 <= k' < length ends)%nat /\ trusted_at ends x k' ts'.
Proof.
  intros Hts Hsp. destruct (client_served k ts Hts) as (li & Hli & Hok & _). apply Hok in Hsp as ->.
  by apply (answer_accepted L ends x Hc k ts li).
Qed.

Lemma follow_reaches `{!RocksDbReliable D It} n k ts :
  (forall cf, cf_handle (AptosDB.db self) cf = true) ->
  trusted_at ends x k ts -> (synced ends x ts \/ length ends <= k + 99 * n)%nat ->
  exists ts', follow self n ts = Ok ts' /\ synced ends x ts'.
Proof.
  intros Hcf. revert k ts. induction n as [|n IH]; intros k ts Hts Hn.
  - exists ts. split; [done|]. destruct Hn as [?|Hn]; [done|]. destruct Hts as (li & Hli%lookup_lt_Some & _). lia.
  - destruct (client_served k ts Hts) as (li & Hli & _ & Htot). destruct (Htot _ Hcf) as [sp Hsp].
    cbn [follow]. rewrite Hsp. cbn [mbind outcome_bind].
    assert (exists k, trusted_at ends x k ts /\ (synced ends x ts /\ k = (length ends - 1)%nat \/ length ends <= k + 99 * S n)%nat)
      as (j & Hj & Hjn) by (destruct Hn; [exists (length ends - 1)%nat; split; [by apply synced_trusted|by left]|eauto]).
    destruct (client_step j ts sp Hj Hsp) as (change & Hch & Hnew). rewrite Hch. cbn [mbind outcome_bind].
    destruct Hnew as [Hs|(k' & Hk' & Ht)]; [apply (IH (length ends - 1)%nat); [by apply synced_trusted|by left]|].
    apply (IH k'); [done|]. right. destruct Hjn as [[_ ->]|?]; lia.
Qed.
End sync.
