(* ===== verification/EpochSyncProps.v ===== *)
(** * Clients that follow the epochs

    The chain of trust in a database grows with the ledger infos that are saved, and a
    client that starts anywhere on it gets to its end. *)

From S2P Require Import Prelude Crypto Errors Position Accumulator AccumulatorLemmas Verifier Ledger ConsensusTypes Blocks Storage SafetyRules SafetyLemmas Replica Bft Simulation TransactionProofs AccumulatorStore AccumulatorStoreLemmas SchemaDb LedgerSchemas LedgerDb TransactionStore EventStore StateStore AptosDb SchemaLemmas LedgerDbExample LedgerDbLemmas LedgerDbWrites EpochSync.

(** ** The chain of the example *)
Module ExampleChain.
Import Example.

Lemma chain1 : epochs_ok ledger1 [end0] end0.
Proof.
  split; try (intros [|[|e]] ? [= <-]; [vm_compute; reflexivity]).
  - intros [|[|e]] ? [= <-]. eexists. split; vm_compute; reflexivity.
  - intros [|[|e]] ? ? ? ? [=].
  - intros [|[|e]] ? ? ? [=].
  - intros v e. change (al_epoch_ends ledger1) with ({[0 := 0]} : gmap N N). rewrite lookup_singleton_Some. split.
    + intros [<- <-]. by exists end0.
    + intros (li & Hli & Hv). assert (N.to_nat e = 0%nat) as He by (apply lookup_lt_Some in Hli; cbn in Hli; lia).
      rewrite He in Hli. injection Hli as <-. split; [done|lia].
  - vm_compute. discriminate.
  - intros [|[|e]] ? [= <-]. vm_compute. discriminate.
  - done.
Qed.

Lemma continues1 : continues [end0] end0 end1.
Proof.
  split_and!; [|vm_compute; reflexivity|vm_compute; discriminate|vm_compute; reflexivity|by intros es [= <-]].
  exists end0, (mkEpochState 1 Net.verifier4). split_and!; vm_compute; reflexivity.
Qed.
Lemma chain2 : epochs_ok ledger2 [end0; end1] end1.
Proof. exact (epochs_ok_extend ledger1 [x1; x2] [end0] end0 end1 chain1 continues1). Qed.

Lemma continues2 : continues [end0; end1] end1 open2.
Proof.
  split_and!; [|vm_compute; reflexivity|vm_compute; discriminate|vm_compute; reflexivity|by intros es [=]].
  exists end1, (mkEpochState 2 Net.verifier4). split_and!; vm_compute; reflexivity.
Qed.
Lemma chain3 : epochs_ok ledger3 [end0; end1] open2.
Proof. exact (epochs_ok_extend ledger2 [x3] [end0; end1] end1 open2 chain2 continues2). Qed.

(** A client with the waypoint of the genesis transaction. *)
Definition waypoint : TrustedState := TSEpochWaypoint (Waypoint.new_any (lis_ledger_info end0)).
Lemma waypoint_trusted : trusted_at [end0; end1] open2 0 waypoint.
Proof. by exists end0. Qed.
End ExampleChain.

Module EpochSyncProps.

(** Saving a batch whose ledger info is signed by the validators of the current
    epoch keeps the chain of trust in the database: the new ledger info is its latest
    one, and if it ends the epoch it becomes the next link. *)
Theorem save_extends_chain `{LedgerBcs} `{!LedgerBcsLaws} `{RocksDbLaws D It} `{MerkleHasher}
    `{CryptoHash TransactionInfo} `{!HashWidth} `{CryptoHash Transaction} `{CryptoHash ContractEvent}
    `{Bcs AccessPath} `{Bcs StateValue} `{Signable LedgerInfo} (event_hasher : HashValue -> HashValue -> HashValue)
    (self self' : AptosDB D) (L : AbstractLedger) (xs : list TransactionToCommit) (base : option Version)
    (ends : list LedgerInfoWithSignatures) (x y : LedgerInfoWithSignatures) (sync : bool) (st : StateDelta) :
  db_holds (AptosDB.db self) L -> epochs_ok L ends x -> continues ends x y ->
  N.of_nat (length (al_entries L ++ xs)) < 2 ^ 63 -> N.of_nat (length xs) <= 2 ^ 62 ->
  AptosDB.save_transactions event_hasher xs (N.of_nat (length (al_entries L))) base (Some y) sync st self = (Ok tt, self') ->
  ls_latest_ledger_info (adb_ledger_store self') = Some y /\
  exists L', db_holds (AptosDB.db self') L' /\ epochs_ok L' (add_end ends y) y.
Proof.
  intros Hd Hc Hy Hlen Hxs Hs. destruct (continues_epoch _ _ _ _ Hc Hy) as [Hep _]. pose proof Hy as (_ & _ & Hl & _).
  eapply save_holds in Hs as [[]|(Hd' & _ & Hlatest)]; [done| |done|done|done|].
  - split; [by apply Hlatest|]. eexists. split; [exact Hd'|]. by apply epochs_ok_extend with (x := x).
  - intros ? [= <-]. lia.
Qed.

Lemma save_extends_chain_witness :
  ls_latest_ledger_info (adb_ledger_store Example.db2) = Some Example.end1 /\
  exists L', db_holds (AptosDB.db Example.db2) L' /\ epochs_ok L' (add_end [Example.end0] Example.end1) Example.end1.
Proof.
  apply (save_extends_chain Example.event_node_hash Example.db1 Example.db2 Example.ledger1 [Example.x1; Example.x2]
           (Some 0) [Example.end0] Example.end0 Example.end1 false (Example.delta (Some 0) (Some 2))).
  - apply Example.holds1.
  - exact ExampleChain.chain1.
  - exact ExampleChain.continues1.
  - vm_compute. reflexivity.
  - vm_compute. discriminate.
  - exact Example.saved2.
Defined.

(** Every state proof the database answers a client with is accepted.  A client
    that trusts a waypoint or the validators at some point of the chain, and asks with
    its version, ratchets to the latest ledger info or, if there are more epochs than one
    answer holds, at least 99 epochs on. *)
Theorem state_proof_accepted `{Signable LedgerInfo} `{CryptoHash Ledger2WaypointConverter} `{LedgerBcs}
    `{RocksDbLaws D It} `{MerkleHasher} `{CryptoHash TransactionInfo}
    (self : AptosDB D) (L : AbstractLedger) (ends : list LedgerInfoWithSignatures) (x : LedgerInfoWithSignatures)
    (k : nat) (ts : TrustedState) (sp : StateProof) :
  db_holds (AptosDB.db self) L -> epochs_ok L ends x ->
  ls_latest_ledger_info (adb_ledger_store self) = Some x -> LedgerInfo.version (lis_ledger_info x) <= u64_max ->
  trusted_at ends x k ts -> AptosDB.get_state_proof self (TrustedState.version ts) = Ok sp ->
  exists change, TrustedState.verify_and_ratchet_inner ts (sp_latest_li_w_sigs sp) (sp_epoch_changes sp) = Ok change /\
    let ts' := default ts (TrustedStateChange_new_state change) in
    synced ends x ts' \/ exists k', (k + 99 <= k' < length ends)%nat /\ trusted_at ends x k' ts'.
Proof. intros Hd Hc Hl Hx. by apply (client_step self L). Qed.

Definition example_proof : StateProof :=
  mkStateProof Example.open2 (mkEpochChangeProof [Example.end0; Example.end1] false).

Lemma state_proof_accepted_witness :
  exists change, TrustedState.verify_and_ratchet_inner ExampleChain.waypoint Example.open2
      (mkEpochChangeProof [Example.end0; Example.end1] false) = Ok change /\
    let ts' := default ExampleChain.waypoint (TrustedStateChange_new_state change) in
    synced [Example.end0; Example.end1] Example.open2 ts' \/
    exists k', (0 + 99 <= k' < 2)%nat /\ trusted_at [Example.end0; Example.end1] Example.open2 k' ts'.
Proof.
  apply (state_proof_accepted Example.db3 Example.ledger3 [Example.end0; Example.end1] Example.open2 0
           ExampleChain.waypoint example_proof).
  - apply Example.holds3.
  - exact ExampleChain.chain3.
  - vm_compute. reflexivity.
  - vm_compute. discriminate.
  - exact ExampleChain.waypoint_trusted.
  - vm_compute. reflexivity.
Defined.

(** C29: a client catches up.  On a disk that does not fail, a client that trusts a
    waypoint or the validators at any point of the chain, and asks for state proofs and
    ratchets once for every 99 epochs it is behind, trusts the latest ledger info; no request
    fails and no answer is rejected on the way. *)
Theorem client_catches_up `{Signable LedgerInfo} `{CryptoHash Ledger2WaypointConverter} `{LedgerBcs}
    `{RocksDbLaws D It} `{!RocksDbReliable D It} `{MerkleHasher} `{CryptoHash TransactionInfo}
    (self : AptosDB D) (L : AbstractLedger) (ends : list LedgerInfoWithSignatures) (x : LedgerInfoWithSignatures)
    (k n : nat) (ts : TrustedState) :
  db_holds (AptosDB.db self) L -> (forall cf, cf_handle (AptosDB.db self) cf = true) -> epochs_ok L ends x ->
  ls_latest_ledger_info (adb_ledger_store self) = Some x -> LedgerInfo.version (lis_ledger_info x) <= u64_max ->
  trusted_at ends x k ts -> (length ends <= k + 99 * n)%nat ->
  exists ts', follow self n ts = Ok ts' /\ synced ends x ts'.
Proof. intros Hd Hcf Hc Hl Hx Hts Hn. apply (follow_reaches self L ends x Hd Hc Hl Hx n k ts Hcf Hts). by right. Qed.

Lemma client_catches_up_witness :
  exists ts', follow Example.db3 1 ExampleChain.waypoint = Ok ts' /\
    synced [Example.end0; Example.end1] Example.open2 ts'.
Proof.
  apply (client_catches_up Example.db3 Example.ledger3 [Example.end0; Example.end1] Example.open2 0 1
           ExampleChain.waypoint).
  - apply Example.holds3.
  - done.
  - exact ExampleChain.chain3.
  - vm_compute. reflexivity.
  - vm_compute. discriminate.
  - exact ExampleChain.waypoint_trusted.
  - cbn. lia.
Defined.
End EpochSyncProps.
