(* ===== verification/BlockTree.v ===== *)
(** * The tree of blocks (consensus/src/block_storage/block_tree.rs)

    [StateComputeResult] (execution/executor-types/src/lib.rs), [ExecutedBlock]
    (consensus/consensus-types/src/executed_block.rs) and the tree of the blocks that
    are not yet committed, with its roots and highest certificates. *)

From S2P Require Import Prelude Crypto Errors Position Accumulator Verifier Ledger ConsensusTypes Blocks TransactionProofs.

(** The order in which hash sets and hash maps are traversed. *)
Class HashOrder : Type := {
  set_iter : gset HashValue -> list HashValue;
  map_iter {V : Type} : gmap HashValue V -> list (HashValue * V);
}.
Class HashOrderLaws `{HashOrder} : Prop := {
  set_iter_elements s : set_iter s ≡ₚ elements s;
  map_iter_entries {V} (m : gmap HashValue V) : map_iter m ≡ₚ map_to_list m;
}.

(** ** Executed blocks *)
Record StateComputeResult : Type := mkStateComputeResult {
  scr_root_hash : HashValue;
  scr_frozen_subtree_roots : list HashValue;
  scr_parent_frozen_subtree_roots : list HashValue;
  scr_num_leaves : N;
  scr_parent_num_leaves : N;
  scr_epoch_state : option EpochState;
  scr_compute_status : list TransactionStatus;
  scr_transaction_info_hashes : list HashValue;
  scr_reconfig_events : list ContractEvent;
}.
#[global] Instance StateComputeResult_eq_dec : EqDecision StateComputeResult.
Proof. solve_decision. Defined.

Module StateComputeResult.
Definition version (self : StateComputeResult) : Version := N.max (scr_num_leaves self) 1 - 1.
Definition has_reconfiguration (self : StateComputeResult) : bool := bool_decide (is_Some (scr_epoch_state self)).
Definition extension_proof (self : StateComputeResult) : AccumulatorExtensionProof :=
  mkAccumulatorExtensionProof (scr_parent_frozen_subtree_roots self) (scr_parent_num_leaves self)
    (scr_transaction_info_hashes self).
End StateComputeResult.

Record ExecutedBlock : Type := mkExecutedBlock {
  eb_block : Block;
  eb_state_compute_result : StateComputeResult;
}.
#[global] Instance ExecutedBlock_eq_dec : EqDecision ExecutedBlock.
Proof. solve_decision. Defined.

Module ExecutedBlock.
Section ops.
Context (self : ExecutedBlock).

Definition id : HashValue := b_id (eb_block self).
Definition quorum_cert : QuorumCert := Block.quorum_cert (eb_block self).
Definition parent_id : HashValue := bi_id (QuorumCert.certified_block quorum_cert).
Definition round : Round := Block.round (eb_block self).
Definition timestamp_usecs : N := Block.timestamp_usecs (eb_block self).

Definition block_info : BlockInfo :=
  let result := eb_state_compute_result self in
  Block.gen_block_info (eb_block self) (scr_root_hash result) (StateComputeResult.version result)
    (scr_epoch_state result).

Definition vote_proposal (decoupled_execution : bool) : VoteProposal :=
  mkVoteProposal (StateComputeResult.extension_proof (eb_state_compute_result self)) (eb_block self)
    (scr_epoch_state (eb_state_compute_result self)) decoupled_execution.

Definition is_reconfiguration_suffix : bool :=
  StateComputeResult.has_reconfiguration (eb_state_compute_result self)
  && bool_decide (scr_compute_status (eb_state_compute_result self) = []).

(** [itertools::zip_eq] panics when one list is longer than the other. *)
Definition transactions_to_commit {E} (validators : list AccountAddress) : outcome E (list Transaction) :=
  if is_reconfiguration_suffix then Ok []
  else
    txns ← Block.transactions_to_execute (eb_block self) validators;
    let status := scr_compute_status (eb_state_compute_result self) in
    _ ← assert_ (bool_decide (length txns = length status));
    Ok (omap (fun x : Transaction * TransactionStatus =>
                match x.2 with Keep _ => Some x.1 | _ => None end) (zip txns status)).

Definition reconfig_event : list ContractEvent :=
  if is_reconfiguration_suffix then [] else scr_reconfig_events (eb_state_compute_result self).
End ops.
End ExecutedBlock.

(** ** The tree *)
Record LinkableBlock : Type := mkLinkableBlock {
  lb_executed_block : ExecutedBlock;
  lb_children : gset HashValue;
}.
Module LinkableBlock.
Definition new (block : ExecutedBlock) : LinkableBlock := mkLinkableBlock block ∅.
Definition id (self : LinkableBlock) : HashValue := ExecutedBlock.id (lb_executed_block self).
Definition add_child (child_id : HashValue) (self : LinkableBlock) : result LinkableBlock :=
  _ ← assert_ (negb (bool_decide (child_id ∈ lb_children self)));
  Ok (mkLinkableBlock (lb_executed_block self) ({[child_id]} ∪ lb_children self)).
End LinkableBlock.

Record BlockTree : Type := mkBlockTree {
  id_to_block : gmap HashValue LinkableBlock;
  ordered_root_id : HashValue;
  commit_root_id : HashValue;
  highest_certified_block_id : HashValue;
  highest_quorum_cert : QuorumCert;
  highest_2chain_timeout_cert : option TwoChainTimeoutCertificate;
  highest_ordered_cert : QuorumCert;
  highest_commit_cert : QuorumCert;
  id_to_quorum_cert : gmap HashValue QuorumCert;
  pruned_block_ids : list HashValue;
  max_pruned_blocks_in_mem : N;
}.

Module BlockTree.
Section tree.
Context `{HashOrder}.

Definition new (root : ExecutedBlock) (root_quorum_cert root_ordered_cert root_commit_cert : QuorumCert)
    (max_pruned_blocks_in_mem : N) (highest_2chain_timeout_cert : option TwoChainTimeoutCertificate)
    : result BlockTree :=
  _ ← assert_ (ExecutedBlock.id root =? bi_id (QuorumCert.commit_info root_ordered_cert));
  let root_id := ExecutedBlock.id root in
  Ok (mkBlockTree {[root_id := LinkableBlock.new root]} root_id root_id root_id root_quorum_cert
        highest_2chain_timeout_cert root_ordered_cert root_commit_cert
        {[bi_id (QuorumCert.certified_block root_quorum_cert) := root_quorum_cert]} []
        max_pruned_blocks_in_mem).

(** *** Reads *)
Section reads.
Context (self : BlockTree).

Definition get_linkable_block (block_id : HashValue) : option LinkableBlock := id_to_block self !! block_id.
Definition get_all_quorum_certs_with_commit_info : list QuorumCert :=
  filter (fun qc => QuorumCert.commit_info qc <> BlockInfo.empty) (map_iter (id_to_quorum_cert self)).*2.
Definition linkable_root : result LinkableBlock := expect (get_linkable_block (commit_root_id self)).
Definition block_exists (block_id : HashValue) : bool := bool_decide (is_Some (id_to_block self !! block_id)).
Definition get_block (block_id : HashValue) : option ExecutedBlock :=
  lb_executed_block <$> get_linkable_block block_id.
Definition ordered_root : result ExecutedBlock := expect (get_block (ordered_root_id self)).
Definition commit_root : result ExecutedBlock := expect (get_block (commit_root_id self)).
Definition highest_certified_block : result ExecutedBlock :=
  expect (get_block (highest_certified_block_id self)).
Definition get_quorum_cert_for_block (block_id : HashValue) : option QuorumCert :=
  id_to_quorum_cert self !! block_id.
Definition get_all_block_id : list HashValue := (map_iter (id_to_block self)).*1.

(** The loop of [path_from_root_to_block], at most as many steps as there are blocks. *)
Fixpoint path_loop (fuel : nat) (cur_block_id : HashValue) (root_round : Round) (res : list ExecutedBlock)
    : result (option (HashValue * list ExecutedBlock)) :=
  match fuel with
  | O => Panic
  | S fuel =>
      match get_block cur_block_id with
      | None => Ok None
      | Some block =>
          if ExecutedBlock.round block <=? root_round then Ok (Some (cur_block_id, res))
          else path_loop fuel (ExecutedBlock.parent_id block) root_round (block :: res)
      end
  end.
Definition path_from_root_to_block (block_id root_id : HashValue) (root_round : Round)
    : result (option (list ExecutedBlock)) :=
  r ← path_loop (S (size (id_to_block self))) block_id root_round [];
  Ok (match r with
      | Some (cur_block_id, res) => if cur_block_id =? root_id then Some res else None
      | None => None
      end).
Definition path_from_ordered_root (block_id : HashValue) : result (option (list ExecutedBlock)) :=
  root ← ordered_root;
  path_from_root_to_block block_id (ordered_root_id self) (ExecutedBlock.round root).
Definition path_from_commit_root (block_id : HashValue) : result (option (list ExecutedBlock)) :=
  root ← commit_root;
  path_from_root_to_block block_id (commit_root_id self) (ExecutedBlock.round root).

(** The children of a block that are pushed on the stack, whose top comes first. *)
Definition push_child (next_root_id child_id : HashValue) (stack : list LinkableBlock)
    : result (list LinkableBlock) :=
  if next_root_id =? child_id then Ok stack
  else child ← expect (get_linkable_block child_id); Ok (child :: stack).
Definition push_children (next_root_id : HashValue) (block : LinkableBlock)
    : list LinkableBlock -> result (list LinkableBlock) :=
  try_fold (push_child next_root_id) (set_iter (lb_children block)).
Fixpoint prune_loop (fuel : nat) (next_root_id : HashValue) (blocks_to_be_pruned : list LinkableBlock)
    (blocks_pruned : list HashValue) : result (list HashValue) :=
  match blocks_to_be_pruned with
  | [] => Ok blocks_pruned
  | block_to_remove :: blocks_to_be_pruned =>
      match fuel with
      | O => Panic
      | S fuel =>
          blocks_to_be_pruned ← push_children next_root_id block_to_remove blocks_to_be_pruned;
          prune_loop fuel next_root_id blocks_to_be_pruned (blocks_pruned ++ [LinkableBlock.id block_to_remove])
      end
  end.
Definition find_blocks_to_prune (next_root_id : HashValue) : result (list HashValue) :=
  if next_root_id =? commit_root_id self then Ok []
  else
    root ← linkable_root;
    prune_loop (size (id_to_block self)) next_root_id [root] [].
End reads.

(** *** Writes *)
Definition set_blocks (blocks : gmap HashValue LinkableBlock) (self : BlockTree) : BlockTree :=
  mkBlockTree blocks (ordered_root_id self) (commit_root_id self) (highest_certified_block_id self)
    (highest_quorum_cert self) (highest_2chain_timeout_cert self) (highest_ordered_cert self)
    (highest_commit_cert self) (id_to_quorum_cert self) (pruned_block_ids self) (max_pruned_blocks_in_mem self).

Definition remove_block (block_id : HashValue) (self : BlockTree) : BlockTree :=
  mkBlockTree (delete block_id (id_to_block self)) (ordered_root_id self) (commit_root_id self)
    (highest_certified_block_id self) (highest_quorum_cert self) (highest_2chain_timeout_cert self)
    (highest_ordered_cert self) (highest_commit_cert self) (delete block_id (id_to_quorum_cert self))
    (pruned_block_ids self) (max_pruned_blocks_in_mem self).

Definition replace_2chain_timeout_cert (tc : TwoChainTimeoutCertificate) (self : BlockTree) : BlockTree :=
  mkBlockTree (id_to_block self) (ordered_root_id self) (commit_root_id self) (highest_certified_block_id self)
    (highest_quorum_cert self) (Some tc) (highest_ordered_cert self)
    (highest_commit_cert self) (id_to_quorum_cert self) (pruned_block_ids self) (max_pruned_blocks_in_mem self).

Definition insert_block (block : ExecutedBlock) (self : BlockTree) : result ExecutedBlock * BlockTree :=
  let block_id := ExecutedBlock.id block in
  match get_block self block_id with
  | Some existing_block =>
      (_ ← assert_ (bool_decide (eb_state_compute_result existing_block = eb_state_compute_result block));
       Ok existing_block, self)
  | None =>
      match get_linkable_block self (ExecutedBlock.parent_id block) with
      | None => (Err (Msg "Parent block not found"), self)
      | Some parent_block =>
          match LinkableBlock.add_child block_id parent_block with
          | Ok parent_block =>
              let blocks := <[ExecutedBlock.parent_id block := parent_block]> (id_to_block self) in
              (_ ← assert_ (bool_decide (blocks !! block_id = None)); Ok block,
               set_blocks (<[block_id := LinkableBlock.new block]> blocks) self)
          | Err e => (Err e, self)
          | Panic => (Panic, self)
          end
      end
  end.

Definition set_highest_certified (block_id : HashValue) (qc : QuorumCert) (self : BlockTree) : BlockTree :=
  mkBlockTree (id_to_block self) (ordered_root_id self) (commit_root_id self) block_id qc
    (highest_2chain_timeout_cert self) (highest_ordered_cert self) (highest_commit_cert self)
    (id_to_quorum_cert self) (pruned_block_ids self) (max_pruned_blocks_in_mem self).
Definition record_quorum_cert (block_id : HashValue) (qc : QuorumCert) (self : BlockTree) : BlockTree :=
  let certs := match id_to_quorum_cert self !! block_id with
               | Some _ => id_to_quorum_cert self
               | None => <[block_id := qc]> (id_to_quorum_cert self)
               end in
  let ordered := if bi_round (QuorumCert.commit_info (highest_ordered_cert self)) <? bi_round (QuorumCert.commit_info qc)
                 then qc else highest_ordered_cert self in
  mkBlockTree (id_to_block self) (ordered_root_id self) (commit_root_id self) (highest_certified_block_id self)
    (highest_quorum_cert self) (highest_2chain_timeout_cert self) ordered (highest_commit_cert self)
    certs (pruned_block_ids self) (max_pruned_blocks_in_mem self).

Definition insert_quorum_cert (qc : QuorumCert) : method BlockTree AnyError unit :=
  let block_id := bi_id (QuorumCert.certified_block qc) in
  block ← gets (fun self => ok_or (get_block self block_id) (Msg "Block not found"));
  highest ← gets highest_certified_block;
  _ ← (if ExecutedBlock.round highest <? ExecutedBlock.round block
       then puts (set_highest_certified (ExecutedBlock.id block) qc) else mret tt);
  puts (record_quorum_cert block_id qc).

Definition set_roots (ordered commit : HashValue) (self : BlockTree) : BlockTree :=
  mkBlockTree (id_to_block self) ordered commit (highest_certified_block_id self)
    (highest_quorum_cert self) (highest_2chain_timeout_cert self) (highest_ordered_cert self)
    (highest_commit_cert self) (id_to_quorum_cert self) (pruned_block_ids self) (max_pruned_blocks_in_mem self).
Definition update_ordered_root (root_id : HashValue) : method BlockTree AnyError unit := fun self =>
  if block_exists self root_id then (Ok tt, set_roots root_id (commit_root_id self) self) else (Panic, self).
Definition update_commit_root (root_id : HashValue) : method BlockTree AnyError unit := fun self =>
  if block_exists self root_id then (Ok tt, set_roots (ordered_root_id self) root_id self) else (Panic, self).

Definition set_commit_cert (cert : QuorumCert) (self : BlockTree) : BlockTree :=
  mkBlockTree (id_to_block self) (ordered_root_id self) (commit_root_id self) (highest_certified_block_id self)
    (highest_quorum_cert self) (highest_2chain_timeout_cert self) (highest_ordered_cert self)
    cert (id_to_quorum_cert self) (pruned_block_ids self) (max_pruned_blocks_in_mem self).
Definition update_highest_commit_cert (new_commit_cert : QuorumCert) : method BlockTree AnyError unit := fun self =>
  if bi_round (QuorumCert.commit_info (highest_commit_cert self)) <? bi_round (QuorumCert.commit_info new_commit_cert)
  then update_commit_root (bi_id (QuorumCert.commit_info new_commit_cert)) (set_commit_cert new_commit_cert self)
  else (Ok tt, self).

Definition set_pruned (pruned : list HashValue) (self : BlockTree) : BlockTree :=
  mkBlockTree (id_to_block self) (ordered_root_id self) (commit_root_id self) (highest_certified_block_id self)
    (highest_quorum_cert self) (highest_2chain_timeout_cert self) (highest_ordered_cert self)
    (highest_commit_cert self) (id_to_quorum_cert self) pruned (max_pruned_blocks_in_mem self).
Definition process_pruned_blocks (newly_pruned_blocks : list HashValue) (self : BlockTree) : BlockTree :=
  let pruned := pruned_block_ids self ++ newly_pruned_blocks in
  let num_blocks_to_remove := (length pruned - N.to_nat (max_pruned_blocks_in_mem self))%nat in
  foldl (fun self id => remove_block id self) (set_pruned (drop num_blocks_to_remove pruned) self)
    (take num_blocks_to_remove pruned).
End tree.
End BlockTree.
