(* ===== verification/ConsensusDb.v ===== *)
(** * The consensus database and recovery from it

    [ConsensusDB] (consensus/src/consensusdb/mod.rs) with its three tables
    (consensus/src/consensusdb/schema), and the recovery of the block tree from what is
    stored (consensus/src/persistent_liveness_storage.rs). *)

From S2P Require Import Prelude Crypto Errors Position Accumulator Verifier Ledger ConsensusTypes Blocks TransactionProofs AccumulatorStore SchemaDb LedgerSchemas LedgerDb StateStore AptosDb BlockTree.

(** ** Schemas *)
Class ConsensusBcs : Type := {
  bcs_block :: Bcs Block;
  bcs_quorum_cert :: Bcs QuorumCert;
  bcs_vote :: Bcs Vote;
  bcs_timeout_cert :: Bcs TwoChainTimeoutCertificate;
}.

Inductive SingleEntryKey : Type := LastVote | Highest2ChainTimeoutCert.
#[global] Instance SingleEntryKey_eq_dec : EqDecision SingleEntryKey.
Proof. solve_decision. Defined.
Definition encode_single_entry_key (k : SingleEntryKey) : result bytes :=
  Ok [match k with LastVote => 0 | Highest2ChainTimeoutCert => 1 end].
Definition decode_single_entry_key (data : bytes) : result SingleEntryKey :=
  _ ← ensure_slice_len_eq data 1;
  match data with
  | [0] => Ok LastVote
  | [1] => Ok Highest2ChainTimeoutCert
  | _ => Err (Msg "FromPrimitive failed.")
  end.

Section schemas.
Context `{ConsensusBcs}.

Definition BlockSchema : Schema HashValue Block :=
  mkSchema _ _ "block" hash_to_vec hash_from_slice bcs_to_bytes bcs_from_bytes.
Definition QCSchema : Schema HashValue QuorumCert :=
  mkSchema _ _ "quorum_certificate" hash_to_vec hash_from_slice bcs_to_bytes bcs_from_bytes.
Definition SingleEntrySchema : Schema SingleEntryKey bytes :=
  mkSchema _ _ "single_entry" encode_single_entry_key decode_single_entry_key (fun v => Ok v) (fun v => Ok v).
End schemas.

(** ** The database *)
Module ConsensusDB.
Section db.
Context `{ConsensusBcs} `{RocksDb D It} `{HashOrder}.

Definition commit (batch : SchemaBatch) : method D AnyError unit := DB.write_schemas batch.

Definition save_highest_2chain_timeout_certificate (tc : bytes) : method D AnyError unit :=
  batch ← lift (SchemaBatch.put SingleEntrySchema Highest2ChainTimeoutCert tc SchemaBatch.new);
  commit batch.
Definition save_vote (last_vote : bytes) : method D AnyError unit :=
  batch ← lift (SchemaBatch.put SingleEntrySchema LastVote last_vote SchemaBatch.new);
  commit batch.

Definition save_blocks_and_quorum_certificates (block_data : list Block) (qc_data : list QuorumCert)
    : method D AnyError unit :=
  if bool_decide (block_data = []) && bool_decide (qc_data = [])
  then lift (Err (Msg "Consensus block and qc data is empty!"))
  else
    batch ← lift (batch ← try_fold (fun block => SchemaBatch.put BlockSchema (b_id block) block) block_data
                            SchemaBatch.new;
                  try_fold (fun qc => SchemaBatch.put QCSchema (bi_id (QuorumCert.certified_block qc)) qc)
                    qc_data batch);
    commit batch.

Definition delete_blocks_and_quorum_certificates (block_ids : list HashValue) : method D AnyError unit :=
  if bool_decide (block_ids = []) then lift (Err (Msg "Consensus block ids is empty!"))
  else
    batch ← lift (try_fold (fun hash batch => batch ← SchemaBatch.delete BlockSchema hash batch;
                                              SchemaBatch.delete QCSchema hash batch)
                    block_ids SchemaBatch.new);
    commit batch.

Definition delete_highest_2chain_timeout_certificate : method D AnyError unit :=
  batch ← lift (SchemaBatch.delete SingleEntrySchema Highest2ChainTimeoutCert SchemaBatch.new);
  commit batch.
Definition delete_last_vote_msg : method D AnyError unit :=
  batch ← lift (SchemaBatch.delete SingleEntrySchema LastVote SchemaBatch.new);
  commit batch.

(** [iter.collect()] into a hash map: every row of the table. *)
Fixpoint collect_rows {V} (S : Schema HashValue V) (fuel : nat) (iter : SchemaIterator It) (rows : gmap HashValue V)
    : result (gmap HashValue V) :=
  r ← SchemaIterator.next S iter;
  match r with
  | (None, _) => Ok rows
  | (Some (k, v), iter) =>
      match fuel with O => Panic | Datatypes.S fuel => collect_rows S fuel iter (<[k := v]> rows) end
  end.
Definition get_rows {V} (S : Schema HashValue V) (fuel : nat) (self : D) : result (gmap HashValue V) :=
  iter ← DB.iter self S;
  collect_rows S fuel (SchemaIterator.seek_to_first iter) ∅.
Definition get_blocks (fuel : nat) (self : D) : result (gmap HashValue Block) := get_rows BlockSchema fuel self.
Definition get_quorum_certificates (fuel : nat) (self : D) : result (gmap HashValue QuorumCert) :=
  get_rows QCSchema fuel self.

Definition get_data (fuel : nat) (self : D) : result (option bytes * option bytes * list Block * list QuorumCert) :=
  last_vote ← DB.get self SingleEntrySchema LastVote;
  highest_2chain_timeout_certificate ← DB.get self SingleEntrySchema Highest2ChainTimeoutCert;
  consensus_blocks ← get_blocks fuel self;
  consensus_qcs ← get_quorum_certificates fuel self;
  Ok (last_vote, highest_2chain_timeout_certificate, (map_iter consensus_blocks).*2, (map_iter consensus_qcs).*2).
End db.
End ConsensusDB.

(** ** Recovery data *)
Record RootInfo : Type := mkRootInfo {
  ri_block : Block;
  ri_quorum_cert : QuorumCert;
  ri_ordered_cert : QuorumCert;
  ri_commit_cert : QuorumCert;
}.
Record LedgerRecoveryData : Type := mkLedgerRecoveryData { storage_ledger : LedgerInfoWithSignatures }.
Record RootMetadata : Type := mkRootMetadata {
  rm_num_leaves : N;
  rm_accu_hash : HashValue;
  rm_frozen_root_hashes : list HashValue;
}.
Definition RootMetadata_version (self : RootMetadata) : Version := N.max (rm_num_leaves self) 1 - 1.

Record RecoveryData : Type := mkRecoveryData {
  rd_last_vote : option Vote;
  rd_root : RootInfo;
  rd_root_metadata : RootMetadata;
  rd_blocks : list Block;
  rd_quorum_certs : list QuorumCert;
  rd_blocks_to_prune : option (list HashValue);
  rd_highest_2chain_timeout_certificate : option TwoChainTimeoutCertificate;
}.
Inductive LivenessStorageData : Type :=
  | FullRecoveryData (data : RecoveryData)
  | PartialRecoveryData (data : LedgerRecoveryData).

(** [blocks.sort_by_key(|b| (b.epoch(), b.round()))], which is stable. *)
Definition block_key_le (b b' : Block) : Prop :=
  Block.epoch b < Block.epoch b' \/ Block.epoch b = Block.epoch b' /\ Block.round b <= Block.round b'.
#[global] Instance block_key_le_dec : RelDecision block_key_le.
Proof. intros b b'. unfold block_key_le. apply _. Defined.
#[global] Instance block_key_le_total : Total block_key_le.
Proof. intros b b'. unfold block_key_le. lia. Qed.
#[global] Instance block_key_le_trans : Transitive block_key_le.
Proof. intros b b' b''. unfold block_key_le. lia. Qed.

Section recovery.
Context `{CryptoHash VoteData} `{CryptoHash BlockData}.

Definition find_block (id : HashValue) (blocks : list Block) : option (nat * Block) :=
  list_find (fun block => b_id block = id) blocks.

(** The root's id, the ledger info that committed it, and the blocks and certificates,
    with the virtual genesis block at the end of an epoch. *)
Definition ledger_root (self : LedgerRecoveryData) (blocks : list Block) (quorum_certs : list QuorumCert)
    : result (HashValue * LedgerInfoWithSignatures * list Block * list QuorumCert) :=
  let li := lis_ledger_info (storage_ledger self) in
  if LedgerInfo.ends_epoch li then
    genesis ← Block.make_genesis_block_from_ledger_info li;
    genesis_qc ← QuorumCert.certificate_for_genesis_from_ledger_info li (b_id genesis);
    Ok (b_id genesis, qc_signed_ledger_info genesis_qc, blocks ++ [genesis], quorum_certs ++ [genesis_qc])
  else Ok (bi_id (li_commit_info li), storage_ledger self, blocks, quorum_certs).

(** The blocks and the certificates are the ones after the call: the genesis block of
    the epoch is added, the blocks are sorted and the root is taken out. *)
Definition find_root (self : LedgerRecoveryData) (blocks : list Block) (quorum_certs : list QuorumCert)
    : result RootInfo * (list Block * list QuorumCert) :=
  match ledger_root self blocks quorum_certs with
  | Err e => (Err e, (blocks, quorum_certs))
  | Panic => (Panic, (blocks, quorum_certs))
  | Ok (root_id, latest_ledger_info_sig, blocks, quorum_certs) =>
      let blocks := merge_sort block_key_le blocks in
      match find_block root_id blocks with
      | None => (Err (Msg "unable to find root"), (blocks, quorum_certs))
      | Some (root_idx, root_block) =>
          let blocks := delete root_idx blocks in
          (root_quorum_cert ← ok_or (snd <$> list_find (fun qc => bi_id (QuorumCert.certified_block qc) = b_id root_block)
                                                quorum_certs) (Msg "No QC found for root");
           root_ordered_cert ← ok_or (snd <$> list_find (fun qc => bi_id (QuorumCert.commit_info qc) = b_id root_block)
                                                quorum_certs) (Msg "No LI found for root");
           root_commit_cert ← match QuorumCert.create_merged_with_executed_state root_ordered_cert latest_ledger_info_sig with
                              | Ok qc => Ok qc
                              | _ => Panic
                              end;
           Ok (mkRootInfo root_block root_quorum_cert root_ordered_cert root_commit_cert),
           (blocks, quorum_certs))
      end
  end.

(** The loop of [blocks.retain]: the ids of the tree, the blocks kept and the ids removed. *)
Fixpoint retain_blocks (tree : gset HashValue) (blocks : list Block)
    : gset HashValue * list Block * list HashValue :=
  match blocks with
  | [] => (tree, [], [])
  | block :: blocks =>
      if bool_decide (Block.parent_id block ∈ tree) then
        let '(tree, kept, to_remove) := retain_blocks ({[b_id block]} ∪ tree) blocks in
        (tree, block :: kept, to_remove)
      else
        let '(tree, kept, to_remove) := retain_blocks tree blocks in
        (tree, kept, b_id block :: to_remove)
  end.
Definition find_blocks_to_prune (root_id : HashValue) (blocks : list Block) (quorum_certs : list QuorumCert)
    : list Block * list QuorumCert * list HashValue :=
  let '(tree, kept, to_remove) := retain_blocks {[root_id]} blocks in
  (kept, filter (fun qc => bi_id (QuorumCert.certified_block qc) ∈ tree) quorum_certs, to_remove).

Definition RecoveryData_new (last_vote : option Vote) (ledger_recovery_data : LedgerRecoveryData)
    (blocks : list Block) (root_metadata : RootMetadata) (quorum_certs : list QuorumCert)
    (highest_2chain_timeout_cert : option TwoChainTimeoutCertificate) : result RecoveryData :=
  let '(root, (blocks, quorum_certs)) := find_root ledger_recovery_data blocks quorum_certs in
  root ← root;
  let '(blocks, quorum_certs, blocks_to_prune) := find_blocks_to_prune (b_id (ri_block root)) blocks quorum_certs in
  let epoch := Block.epoch (ri_block root) in
  Ok (mkRecoveryData
        (v ← last_vote; if Vote.epoch v =? epoch then Some v else None)
        root root_metadata blocks quorum_certs (Some blocks_to_prune)
        (tc ← highest_2chain_timeout_cert; if TwoChainTimeoutCertificate.epoch tc =? epoch then Some tc else None)).
End recovery.
