(* ===== verification/LivenessStorage.v ===== *)
(** * Persistent liveness storage (consensus/src/persistent_liveness_storage.rs)

    The trait, and its implementation over the consensus database and AptosDB. *)

From S2P Require Import Prelude Crypto Errors Position Accumulator Verifier Ledger ConsensusTypes Blocks TransactionProofs AccumulatorStore SchemaDb LedgerSchemas LedgerDb TransactionStore EventStore StateStore AptosDb BlockTree ConsensusDb.

(** [Result::expect]. *)
Definition expect_ok {E F A} (r : outcome E A) : outcome F A :=
  match r with Ok a => Ok a | _ => Panic end.
Definition expect_ok_m {S E F A} (m : method S E A) : method S F A := fun s =>
  let '(r, s) := m s in (expect_ok r, s).

Class PersistentLivenessStorage (L : Type) : Type := {
  save_tree : list Block -> list QuorumCert -> method L AnyError unit;
  prune_tree : list HashValue -> method L AnyError unit;
  save_vote : Vote -> method L AnyError unit;
  recover_from_ledger : L -> result LedgerRecoveryData;
  start : method L AnyError LivenessStorageData;
  save_highest_2chain_timeout_cert : TwoChainTimeoutCertificate -> method L AnyError unit;
  retrieve_epoch_change_proof : Version -> L -> result EpochChangeProof;
}.

Record StorageWriteProxy (C D : Type) : Type := mkStorageWriteProxy {
  swp_db : C;
  swp_aptos_db : AptosDB D;
}.
Arguments mkStorageWriteProxy {C D} _ _.
Arguments swp_db {C D} _.
Arguments swp_aptos_db {C D} _.

Module StorageWriteProxy.
Section proxy.
Context `{ConsensusBcs} `{LedgerBcs} `{RocksDb C CIt} `{RocksDb D It} `{MerkleHasher} `{HashOrder}.
Context `{CryptoHash VoteData} `{CryptoHash BlockData}.
Abbreviation proxy := (StorageWriteProxy C D).

Definition on_db {E A} : method C E A -> method proxy E A :=
  on swp_db (fun db self => mkStorageWriteProxy db (swp_aptos_db self)).

Definition save_tree (blocks : list Block) (quorum_certs : list QuorumCert) : method proxy AnyError unit :=
  on_db (ConsensusDB.save_blocks_and_quorum_certificates blocks quorum_certs).

Definition prune_tree (block_ids : list HashValue) : method proxy AnyError unit :=
  if bool_decide (block_ids = []) then mret tt
  else on_db (ConsensusDB.delete_blocks_and_quorum_certificates block_ids).

Definition save_vote (vote : Vote) : method proxy AnyError unit :=
  bytes ← lift (bcs_to_bytes vote);
  on_db (ConsensusDB.save_vote bytes).

Definition save_highest_2chain_timeout_cert (highest_timeout_cert : TwoChainTimeoutCertificate)
    : method proxy AnyError unit :=
  bytes ← lift (bcs_to_bytes highest_timeout_cert);
  on_db (ConsensusDB.save_highest_2chain_timeout_certificate bytes).

Definition startup_info (self : proxy) : result StartupInfo :=
  info ← expect_ok (AptosDB.get_startup_info (swp_aptos_db self));
  expect info.
Definition recover_from_ledger (self : proxy) : result LedgerRecoveryData :=
  info ← startup_info self;
  Ok (mkLedgerRecoveryData (su_latest_ledger_info info)).

Definition retrieve_epoch_change_proof (version : Version) (self : proxy) : result EpochChangeProof :=
  proof ← AptosDB.get_state_proof (swp_aptos_db self) version;
  Ok (sp_epoch_changes proof).

Definition decode_entry {A} `{Bcs A} (bytes : option bytes) : result (option A) :=
  match bytes with
  | None => Ok None
  | Some bytes => a ← expect_ok (bcs_from_bytes bytes); Ok (Some a)
  end.

(** What is recovered, before the database is cleaned up. *)
Definition recovery_data (fuel : nat) (self : proxy) : result (LedgerRecoveryData * result RecoveryData) :=
  raw_data ← expect_ok (ConsensusDB.get_data fuel (swp_db self));
  let '(last_vote, highest_2chain_timeout_cert, blocks, quorum_certs) := raw_data in
  last_vote ← decode_entry last_vote;
  highest_2chain_timeout_cert ← decode_entry highest_2chain_timeout_cert;
  info ← startup_info self;
  let ledger_recovery_data := mkLedgerRecoveryData (su_latest_ledger_info info) in
  let trees := su_committed_trees info in
  Ok (ledger_recovery_data,
      RecoveryData_new last_vote ledger_recovery_data blocks
        (mkRootMetadata (num_leaves (et_transaction_accumulator trees)) (ExecutedTrees.state_id trees)
           (frozen_subtree_roots (et_transaction_accumulator trees)))
        quorum_certs highest_2chain_timeout_cert).

Definition take_blocks_to_prune (self : RecoveryData) : result (list HashValue * RecoveryData) :=
  blocks_to_prune ← expect (rd_blocks_to_prune self);
  Ok (blocks_to_prune,
      mkRecoveryData (rd_last_vote self) (rd_root self) (rd_root_metadata self) (rd_blocks self)
        (rd_quorum_certs self) None (rd_highest_2chain_timeout_certificate self)).

Definition start (fuel : nat) : method proxy AnyError LivenessStorageData :=
  data ← gets (recovery_data fuel);
  match data with
  | (_, Panic) => lift Panic
  | (ledger_recovery_data, Err _) => mret (PartialRecoveryData ledger_recovery_data)
  | (_, Ok initial_data) =>
      taken ← lift (take_blocks_to_prune initial_data);
      let '(blocks_to_prune, initial_data) := taken in
      _ ← expect_ok_m (prune_tree blocks_to_prune);
      _ ← match rd_last_vote initial_data with
          | None => expect_ok_m (on_db ConsensusDB.delete_last_vote_msg)
          | Some _ => mret tt
          end;
      _ ← match rd_highest_2chain_timeout_certificate initial_data with
          | None => expect_ok_m (on_db ConsensusDB.delete_highest_2chain_timeout_certificate)
          | Some _ => mret tt
          end;
      mret (FullRecoveryData initial_data)
  end.
End proxy.
End StorageWriteProxy.

#[global] Instance StorageWriteProxy_storage `{ConsensusBcs} `{LedgerBcs} `{RocksDb C CIt} `{RocksDb D It}
    `{MerkleHasher} `{HashOrder} `{CryptoHash VoteData} `{CryptoHash BlockData} (fuel : nat)
    : PersistentLivenessStorage (StorageWriteProxy C D) | 100 := {|
  save_tree := StorageWriteProxy.save_tree;
  prune_tree := StorageWriteProxy.prune_tree;
  save_vote := StorageWriteProxy.save_vote;
  recover_from_ledger := StorageWriteProxy.recover_from_ledger;
  start := StorageWriteProxy.start fuel;
  save_highest_2chain_timeout_cert := StorageWriteProxy.save_highest_2chain_timeout_cert;
  retrieve_epoch_change_proof := StorageWriteProxy.retrieve_epoch_change_proof;
|}.
