(* ===== verification/BlockStore.v ===== *)
(** * The block store (consensus/src/block_storage/block_store.rs)

    The block tree with its persistent storage and the state computer
    (consensus/src/state_replication.rs).  The callback that [commit] hands to the state
    computer is called either before [commit] of the state computer returns or at a later
    time; [callbacks] are the finality proofs of those not called yet.  The waiting of
    [execute_and_insert_block] until the block's timestamp, locks and counters are left
    out. *)

From S2P Require Import Prelude Crypto Errors Position Accumulator Verifier Ledger ConsensusTypes Blocks TransactionProofs BlockTree ConsensusDb LivenessStorage.

(** [Error] of execution/executor-types/src/error.rs. *)
Inductive ExecutorError : Type :=
  | BlockNotFound (block_id : HashValue)
  | BadNumTxnsToCommit (first_version : Version) (to_commit : N) (target_version : Version)
  | InternalError (error : string)
  | SerializationError (error : string)
  | EmptyBlocks.

(** [?] on an executor result in a function that returns [anyhow::Result]. *)
Definition from_executor_error (e : ExecutorError) : AnyError :=
  Msg match e with
      | BlockNotFound _ => "Cannot find speculation result for block id"
      | BadNumTxnsToCommit _ _ _ => "Bad num_txns_to_commit."
      | InternalError error => "Internal error: " +:+ error
      | SerializationError error => "Serialization error: " +:+ error
      | EmptyBlocks => "Received Empty Blocks"
      end.

(** [commit] says with which arguments it has called the callback, if it has. *)
Class StateComputer (C : Type) : Type := {
  sc_compute : Block -> HashValue -> method C ExecutorError StateComputeResult;
  sc_commit : list ExecutedBlock -> LedgerInfoWithSignatures ->
    method C ExecutorError (option (list ExecutedBlock * LedgerInfoWithSignatures));
  sc_sync_to : LedgerInfoWithSignatures -> method C AnyError unit;
}.

Record BlockStore (C L : Type) : Type := mkBlockStore {
  inner : BlockTree;
  state_computer : C;
  storage : L;
  back_pressure_limit : Round;
  callbacks : list QuorumCert;
}.
Arguments mkBlockStore {C L} _ _ _ _ _.
Arguments inner {C L} _.
Arguments state_computer {C L} _.
Arguments storage {C L} _.
Arguments back_pressure_limit {C L} _.
Arguments callbacks {C L} _.

Module BlockStore.
Section store.
Context `{HashOrder} `{StateComputer C} `{PersistentLivenessStorage L}.
Abbreviation store := (BlockStore C L).

Definition set_inner (t : BlockTree) (self : store) : store :=
  mkBlockStore t (state_computer self) (storage self) (back_pressure_limit self) (callbacks self).
Definition on_tree {E A} : method BlockTree E A -> method store E A := on inner set_inner.
Definition on_computer {E A} : method C E A -> method store E A :=
  on state_computer (fun c self => mkBlockStore (inner self) c (storage self) (back_pressure_limit self) (callbacks self)).
Definition on_storage {E A} : method L E A -> method store E A :=
  on storage (fun l self => mkBlockStore (inner self) (state_computer self) l (back_pressure_limit self) (callbacks self)).
Definition set_callbacks (f : list QuorumCert -> list QuorumCert) (self : store) : store :=
  mkBlockStore (inner self) (state_computer self) (storage self) (back_pressure_limit self) (f (callbacks self)).

(** [with_context] of a method. *)
Definition with_context_m {S A} (c : string) (m : method S AnyError A) : method S AnyError A := fun s =>
  let '(r, s) := m s in (with_context c r, s).
(** [if let Err(e) = m { error!(..) }] *)
Definition log_error {S} (m : method S AnyError unit) : method S AnyError unit := fun s =>
  match m s with (Err _, s) => (Ok tt, s) | r => r end.

(** ** Reads *)
Definition get_block (block_id : HashValue) (self : store) : option ExecutedBlock :=
  BlockTree.get_block (inner self) block_id.
Definition block_exists (block_id : HashValue) (self : store) : bool := BlockTree.block_exists (inner self) block_id.
Definition ordered_root (self : store) : result ExecutedBlock := BlockTree.ordered_root (inner self).
Definition commit_root (self : store) : result ExecutedBlock := BlockTree.commit_root (inner self).
Definition get_quorum_cert_for_block (block_id : HashValue) (self : store) : option QuorumCert :=
  BlockTree.get_quorum_cert_for_block (inner self) block_id.
Definition path_from_ordered_root (block_id : HashValue) (self : store) : result (option (list ExecutedBlock)) :=
  BlockTree.path_from_ordered_root (inner self) block_id.
Definition path_from_commit_root (block_id : HashValue) (self : store) : result (option (list ExecutedBlock)) :=
  BlockTree.path_from_commit_root (inner self) block_id.
Definition sync_info (self : store) : SyncInfo :=
  let t := inner self in
  SyncInfo.new_decoupled (highest_quorum_cert t) (highest_ordered_cert t) (highest_commit_cert t)
    (highest_2chain_timeout_cert t).

(** ** Commits *)

(** [BlockTree::commit_callback] *)
Definition commit_callback (blocks_to_commit : list ExecutedBlock) (finality_proof : QuorumCert)
    (commit_decision : LedgerInfoWithSignatures) : method store AnyError unit :=
  commit_proof ← lift (expect_ok (QuorumCert.create_merged_with_executed_state finality_proof commit_decision));
  block_to_commit ← lift (expect (last blocks_to_commit));
  _ ← gets commit_root;
  id_to_remove ← gets (fun self => BlockTree.find_blocks_to_prune (inner self) (ExecutedBlock.id block_to_commit));
  _ ← log_error (on_storage (prune_tree id_to_remove));
  _ ← on_tree (puts (BlockTree.process_pruned_blocks id_to_remove));
  on_tree (BlockTree.update_highest_commit_cert commit_proof).

(** [self.state_computer.commit(..).expect(..)], with the callback. *)
Definition persist_commit (blocks_to_commit : list ExecutedBlock) (finality_proof : QuorumCert)
    : method store AnyError unit :=
  called ← expect_ok_m (on_computer (sc_commit blocks_to_commit (qc_signed_ledger_info finality_proof)));
  match called with
  | Some (committed_blocks, commit_decision) => commit_callback committed_blocks finality_proof commit_decision
  | None => puts (set_callbacks (fun l => l ++ [finality_proof]))
  end.

Definition commit (finality_proof : QuorumCert) : method store AnyError unit :=
  let block_id_to_commit := bi_id (QuorumCert.commit_info finality_proof) in
  block_to_commit ← gets (fun self => ok_or (get_block block_id_to_commit self) (Msg "Committed block id not found"));
  root ← gets ordered_root;
  _ ← lift (ensure (ExecutedBlock.round root <? ExecutedBlock.round block_to_commit)
              (Msg "Committed block round lower than root"));
  path ← gets (path_from_ordered_root block_id_to_commit);
  let blocks_to_commit := default [] path in
  _ ← lift (assert_ (negb (bool_decide (blocks_to_commit = []))));
  _ ← persist_commit blocks_to_commit finality_proof;
  on_tree (BlockTree.update_ordered_root (ExecutedBlock.id block_to_commit)).

(** The certificates in the order of their commit rounds; [sort_unstable_by_key] may
    order those of one round in any way. *)
Definition commit_round_le (a b : QuorumCert) : Prop :=
  bi_round (QuorumCert.commit_info a) <= bi_round (QuorumCert.commit_info b).
#[global] Instance commit_round_le_dec : RelDecision commit_round_le.
Proof. intros a b. unfold commit_round_le. apply _. Defined.
Fixpoint try_commit_certs (certs : list QuorumCert) : method store AnyError unit :=
  match certs with
  | [] => mret tt
  | qc :: certs =>
      root ← gets commit_root;
      _ ← (if ExecutedBlock.round root <? bi_round (QuorumCert.commit_info qc)
           then log_error (commit qc) else mret tt);
      try_commit_certs certs
  end.
Definition try_commit : method store AnyError unit := fun self =>
  try_commit_certs (merge_sort commit_round_le (BlockTree.get_all_quorum_certs_with_commit_info (inner self))) self.

(** ** Inserting *)
Definition execute_block (block : Block) : method store ExecutorError ExecutedBlock :=
  state_compute_result ← on_computer (sc_compute block (Block.parent_id block));
  mret (mkExecutedBlock block state_compute_result).

Definition try_executor {A} (m : method store ExecutorError A) : method store AnyError A := fun self =>
  let '(r, self) := m self in (map_err from_executor_error r, self).
Fixpoint reexecute (blocks : list ExecutedBlock) : method store AnyError unit :=
  match blocks with
  | [] => mret tt
  | block :: blocks => _ ← try_executor (execute_block (eb_block block)); reexecute blocks
  end.
Definition execute_with_ancestors (block : Block) : method store AnyError ExecutedBlock := fun self =>
  match execute_block block self with
  | (Err (BlockNotFound parent_block_id), self) =>
      (path ← gets (path_from_ordered_root parent_block_id);
       _ ← reexecute (default [] path);
       try_executor (execute_block block)) self
  | (r, self) => (map_err from_executor_error r, self)
  end.
Definition execute_and_insert_block (block : Block) : method store AnyError ExecutedBlock := fun self =>
  match get_block (b_id block) self with
  | Some existing_block => (Ok existing_block, self)
  | None =>
      (root ← gets ordered_root;
       _ ← lift (ensure (ExecutedBlock.round root <? Block.round block) (Msg "Block with old round"));
       executed_block ← execute_with_ancestors block;
       _ ← with_context_m "Insert block failed when saving block" (on_storage (save_tree [eb_block executed_block] []));
       on_tree (BlockTree.insert_block executed_block)) self
  end.

Definition insert_single_quorum_cert (qc : QuorumCert) : method store AnyError unit :=
  executed_block ← gets (fun self => ok_or (get_block (bi_id (QuorumCert.certified_block qc)) self)
                                       (Msg "Insert without having the block in store first"));
  _ ← lift (ensure (BlockInfo.match_ordered_only (ExecutedBlock.block_info executed_block)
                      (QuorumCert.certified_block qc)) (Msg "QC for block is different than local"));
  _ ← with_context_m "Insert block failed when saving quorum" (on_storage (save_tree [] [qc]));
  on_tree (BlockTree.insert_quorum_cert qc).

Definition insert_2chain_timeout_certificate (tc : TwoChainTimeoutCertificate) : method store AnyError unit := fun self =>
  let cur_tc_round := from_option TwoChainTimeoutCertificate.round 0 (highest_2chain_timeout_cert (inner self)) in
  if TwoChainTimeoutCertificate.round tc <=? cur_tc_round then (Ok tt, self)
  else
    (_ ← with_context_m "Timeout certificate insert failed when persisting to DB"
           (on_storage (save_highest_2chain_timeout_cert tc));
     on_tree (puts (BlockTree.replace_2chain_timeout_cert tc))) self.

(** ** Building *)
Fixpoint insert_blocks (blocks : list Block) : method store AnyError unit :=
  match blocks with
  | [] => mret tt
  | block :: blocks => _ ← expect_ok_m (execute_and_insert_block block); insert_blocks blocks
  end.
Fixpoint insert_quorum_certs (quorum_certs : list QuorumCert) : method store AnyError unit :=
  match quorum_certs with
  | [] => mret tt
  | qc :: quorum_certs => _ ← expect_ok_m (insert_single_quorum_cert qc); insert_quorum_certs quorum_certs
  end.

Definition root_tree (root : RootInfo) (root_metadata : RootMetadata)
    (highest_2chain_timeout_cert : option TwoChainTimeoutCertificate) (max_pruned_blocks_in_mem : N)
    : result BlockTree :=
  let certified := QuorumCert.certified_block (ri_quorum_cert root) in
  _ ← assert_ ((bi_version certified =? 0) || (bi_version certified =? RootMetadata_version root_metadata));
  _ ← assert_ ((bi_executed_state_id certified =? ACCUMULATOR_PLACEHOLDER_HASH)
               || (bi_executed_state_id certified =? rm_accu_hash root_metadata));
  let result := mkStateComputeResult (rm_accu_hash root_metadata) (rm_frozen_root_hashes root_metadata) []
                  (rm_num_leaves root_metadata) 0 None [] [] [] in
  BlockTree.new (mkExecutedBlock (ri_block root) result) (ri_quorum_cert root) (ri_ordered_cert root)
    (ri_commit_cert root) max_pruned_blocks_in_mem highest_2chain_timeout_cert.

(** The new tree uses the state computer and the storage of the store it is built for. *)
Definition build (root : RootInfo) (root_metadata : RootMetadata) (blocks : list Block)
    (quorum_certs : list QuorumCert) (highest_2chain_timeout_cert : option TwoChainTimeoutCertificate)
    (max_pruned_blocks_in_mem : N) (back_pressure_limit : Round) : method (C * L) AnyError store := fun env =>
  match root_tree root root_metadata highest_2chain_timeout_cert max_pruned_blocks_in_mem with
  | Ok tree =>
      let self := mkBlockStore tree env.1 env.2 back_pressure_limit [] in
      let '(r, self) := (_ ← insert_blocks blocks; insert_quorum_certs quorum_certs) self in
      (_ ← r; _ ← ordered_root self; Ok self, (state_computer self, storage self))
  | Err e => (Err e, env)
  | Panic => (Panic, env)
  end.

Definition new (initial_data : RecoveryData) (max_pruned_blocks_in_mem : N) (back_pressure_limit : Round)
    : method (C * L) AnyError store := fun env =>
  match build (rd_root initial_data) (rd_root_metadata initial_data) (rd_blocks initial_data)
          (rd_quorum_certs initial_data) (rd_highest_2chain_timeout_certificate initial_data)
          max_pruned_blocks_in_mem back_pressure_limit env with
  | (Ok self, _) =>
      let '(r, self) := try_commit self in
      (_ ← r; Ok self, (state_computer self, storage self))
  | r => r
  end.

(** The callbacks handed out for the old tree stay with the state computer: they write
    to the tree behind the lock, which is then the new one. *)
Definition rebuild (root : RootInfo) (root_metadata : RootMetadata) (blocks : list Block)
    (quorum_certs : list QuorumCert) : method store AnyError unit := fun self =>
  match build root root_metadata blocks quorum_certs (highest_2chain_timeout_cert (inner self))
          (max_pruned_blocks_in_mem (inner self)) (back_pressure_limit self) (state_computer self, storage self) with
  | (Ok rebuilt, (c, l)) =>
      let to_remove := BlockTree.get_all_block_id (inner self) in
      (_ ← log_error (on_storage (prune_tree to_remove));
       _ ← puts (set_inner (inner rebuilt));
       try_commit) (mkBlockStore (inner self) c l (back_pressure_limit self) (callbacks self))
  | (Err e, (c, l)) => (Err e, mkBlockStore (inner self) c l (back_pressure_limit self) (callbacks self))
  | (Panic, (c, l)) => (Panic, mkBlockStore (inner self) c l (back_pressure_limit self) (callbacks self))
  end.
End store.
End BlockStore.
