(* ===== verification/ConsensusDbLemmas.v ===== *)
(** * What the consensus database holds

    The abstract content of a [ConsensusDB], what the writes of [StorageWriteProxy] do to
    it, and what is read back. *)

From S2P Require Import Prelude Crypto Errors Position Accumulator Verifier Ledger ConsensusTypes Blocks TransactionProofs AccumulatorStore SchemaDb LedgerSchemas LedgerDb TransactionStore EventStore StateStore AptosDb SchemaLemmas LedgerDbLemmas BlockTree ConsensusDb LivenessStorage.

(** ** Codecs *)
Class ConsensusBcsLaws `{ConsensusBcs} : Prop := {
  block_laws :: BcsLaws Block;
  quorum_cert_laws :: BcsLaws QuorumCert;
  vote_laws :: BcsLaws Vote;
  timeout_cert_laws :: BcsLaws TwoChainTimeoutCertificate;
}.

#[global] Instance SingleEntryKey_countable : Countable SingleEntryKey.
Proof.
  apply (inj_countable' (fun k => match k with LastVote => true | Highest2ChainTimeoutCert => false end)
           (fun b : bool => if b then LastVote else Highest2ChainTimeoutCert)).
  by intros [].
Defined.

Lemma entry_key_row `{ConsensusBcs} k : exists b, key_row SingleEntrySchema k b.
Proof. by destruct k; eexists. Qed.

(** ** Deletions *)
Section deletions.
Context {K V : Type} `{Countable K} (S : Schema K V).

Lemma batch_delete k batch batch' :
  SchemaBatch.delete S k batch = Ok batch' ->
  exists b, encode_key S k = Ok b /\
    forall cf, batch_ops batch' cf = batch_ops batch cf ++ (if bool_decide (cf = COLUMN_FAMILY_NAME S) then [Deletion b] else []).
Proof.
  unfold SchemaBatch.delete. intros (b & Hb & [= <-])%bind_Ok. exists b. split; [done|]. intros cf.
  unfold batch_ops, SchemaBatch.push. cbn [sb_rows]. case_bool_decide as Hcf.
  - subst. by rewrite lookup_insert_eq.
  - by rewrite lookup_insert_ne, app_nil_r.
Qed.

Lemma batch_put k v batch batch' :
  SchemaBatch.put S k v batch = Ok batch' ->
  exists b w, encode_key S k = Ok b /\ encode_value S v = Ok w /\
    forall cf, batch_ops batch' cf = batch_ops batch cf ++ (if bool_decide (cf = COLUMN_FAMILY_NAME S) then [Value b w] else []).
Proof.
  unfold SchemaBatch.put. intros (b & Hb & Hp)%bind_Ok. apply bind_Ok in Hp as (w & Hw & [= <-]).
  exists b, w. split_and!; [done..|]. intros cf. unfold batch_ops, SchemaBatch.push. cbn [sb_rows].
  case_bool_decide as Hcf; [subst; by rewrite lookup_insert_eq|by rewrite lookup_insert_ne, app_nil_r].
Qed.
End deletions.

(** ** The content of the database *)
Record ConsensusState : Type := mkConsensusState {
  cs_blocks : gmap HashValue Block;
  cs_certs : gmap HashValue QuorumCert;
  cs_vote : option Vote;
  cs_timeout : option TwoChainTimeoutCertificate;
}.

Definition cs_save (blocks : list Block) (certs : list QuorumCert) (cs : ConsensusState) : ConsensusState :=
  mkConsensusState (foldl (fun m b => <[b_id b := b]> m) (cs_blocks cs) blocks)
    (foldl (fun m qc => <[bi_id (QuorumCert.certified_block qc) := qc]> m) (cs_certs cs) certs)
    (cs_vote cs) (cs_timeout cs).
Definition cs_prune (ids : list HashValue) (cs : ConsensusState) : ConsensusState :=
  mkConsensusState (foldl (fun m i => delete i m) (cs_blocks cs) ids)
    (foldl (fun m i => delete i m) (cs_certs cs) ids) (cs_vote cs) (cs_timeout cs).
Definition cs_set_vote (vote : option Vote) (cs : ConsensusState) : ConsensusState :=
  mkConsensusState (cs_blocks cs) (cs_certs cs) vote (cs_timeout cs).
Definition cs_set_timeout (tc : option TwoChainTimeoutCertificate) (cs : ConsensusState) : ConsensusState :=
  mkConsensusState (cs_blocks cs) (cs_certs cs) (cs_vote cs) tc.

Section holds.
Context `{ConsensusBcs} `{RocksDbLaws D It}.

(** The bytes under a key decode to what the state says. *)
Definition entry_is {A} `{Bcs A} (o : option A) (stored : option bytes) : Prop :=
  match o, stored with
  | Some a, Some b => bcs_from_bytes b = Ok a
  | None, None => True
  | _, _ => False
  end.

(** The entries with the rows they are in. *)
Definition entries_hold (rows : Rows) (vote : option Vote) (tc : option TwoChainTimeoutCertificate) : Prop :=
  exists m, table SingleEntrySchema rows m /\
    entry_is vote (m !! LastVote) /\ entry_is tc (m !! Highest2ChainTimeoutCert).

Record rows_hold (R : ColumnFamilyName -> Rows) (cs : ConsensusState) : Prop := {
  rh_blocks : table BlockSchema (R "block") (cs_blocks cs);
  rh_certs : table QCSchema (R "quorum_certificate") (cs_certs cs);
  rh_entries : entries_hold (R "single_entry") (cs_vote cs) (cs_timeout cs);
}.
Definition consensus_holds (db : D) (cs : ConsensusState) : Prop := rows_hold (db_rows db) cs.

Lemma rows_hold_ext R R' cs : (forall cf, R' cf = R cf) -> rows_hold R cs -> rows_hold R' cs.
Proof. intros He [Hb Hq Hs]. split; by rewrite He. Qed.

(** What a batch does to the content. *)
Definition apply_batch (batch : SchemaBatch) (R : ColumnFamilyName -> Rows) : ColumnFamilyName -> Rows :=
  fun cf => foldl apply_op (R cf) (batch_ops batch cf).
Definition effect (batch : SchemaBatch) (cs cs' : ConsensusState) : Prop :=
  forall R, rows_hold R cs -> rows_hold (apply_batch batch R) cs'.

Lemma effect_new cs : effect SchemaBatch.new cs cs.
Proof. intros R HR. by eapply rows_hold_ext. Qed.

(** A batch with one more operation in family [c]. *)
Lemma apply_batch_step batch batch' c op R cf :
  (forall cf, batch_ops batch' cf = batch_ops batch cf ++ (if bool_decide (cf = c) then [op] else [])) ->
  apply_batch batch' R cf = if bool_decide (cf = c) then apply_op (apply_batch batch R cf) op else apply_batch batch R cf.
Proof.
  intros Hb. unfold apply_batch. rewrite Hb, foldl_app. by case_bool_decide.
Qed.

Lemma commit_effect batch (db db' : D) r cs cs' :
  consensus_holds db cs -> effect batch cs cs' -> DB.write_schemas batch db = (r, db') ->
  (consensus_holds db' cs' \/ r <> Ok tt /\ consensus_holds db' cs) /\ forall cf, cf_handle db' cf = cf_handle db cf.
Proof.
  intros Hdb He Hw. destruct (write_schemas_rows _ _ _ _ Hw) as (Hcf & Hor & Hok). split; [|done].
  destruct Hor as [Hs|Hs].
  - destruct r as [[]| |]; [|right; split; [done|by eapply rows_hold_ext]..].
    left. eapply rows_hold_ext; [by apply Hok|by apply He].
  - left. eapply rows_hold_ext; [apply Hs|by apply He].
Qed.
End holds.

(** ** Effects of batches *)
Section effects.
Context `{ConsensusBcsLaws} `{RocksDbLaws D It}.
Implicit Types (batch : SchemaBatch) (cs : ConsensusState).

Lemma hash_key_round (h : HashValue) b : h < 2 ^ 256 -> hash_to_vec h = Ok b -> hash_from_slice b = Ok h.
Proof. intros Hh Hb. destruct (hash_codec h Hh) as [He Hd]. congruence. Qed.

Lemma effect_put_block batch batch' cs cs' b :
  effect batch cs cs' -> b_id b < 2 ^ 256 -> SchemaBatch.put BlockSchema (b_id b) b batch = Ok batch' ->
  effect batch' cs (cs_save [b] [] cs').
Proof.
  intros He Hw (k & w & Hk & Hv & Hops)%batch_put R HR. destruct (He R HR) as [Hb Hq Hs].
  split; rewrite (apply_batch_step _ _ _ _ _ _ Hops); cbn; [|done..].
  apply table_insert; [done|split; [done|by apply (hash_key_round (b_id b))]|split; [done|by apply bcs_round]].
Qed.

Lemma effect_put_cert batch batch' cs cs' qc :
  let i := bi_id (QuorumCert.certified_block qc) in
  effect batch cs cs' -> i < 2 ^ 256 -> SchemaBatch.put QCSchema i qc batch = Ok batch' ->
  effect batch' cs (cs_save [] [qc] cs').
Proof.
  intros i He Hw (k & w & Hk & Hv & Hops)%batch_put R HR. destruct (He R HR) as [Hb Hq Hs].
  split; rewrite (apply_batch_step _ _ _ _ _ _ Hops); cbn; [done| |done].
  apply table_insert; [done|split; [done|by apply (hash_key_round i)]|split; [done|by apply bcs_round]].
Qed.

Lemma effect_delete batch batch1 batch' cs cs' i :
  effect batch cs cs' -> i < 2 ^ 256 -> SchemaBatch.delete BlockSchema i batch = Ok batch1 ->
  SchemaBatch.delete QCSchema i batch1 = Ok batch' -> effect batch' cs (cs_prune [i] cs').
Proof.
  intros He Hw (k & Hk & Hops)%batch_delete (k' & Hk' & Hops')%batch_delete R HR. destruct (He R HR) as [Hb Hq Hs].
  split; rewrite (apply_batch_step _ _ _ _ _ _ Hops'), (apply_batch_step _ _ _ _ _ _ Hops); cbn; [| |done].
  - apply table_delete; [done..|]. intros ?. by apply hash_key_round.
  - apply table_delete; [done..|]. intros ?. by apply hash_key_round.
Qed.

(** The single entries. *)
Definition entries (cs : ConsensusState) (f : SingleEntryKey -> option bytes) : Prop :=
  entry_is (cs_vote cs) (f LastVote) /\ entry_is (cs_timeout cs) (f Highest2ChainTimeoutCert).
Lemma effect_entry batch batch' cs cs' key (o : option bytes) op :
  match o with
  | Some w => exists b, encode_key SingleEntrySchema key = Ok b /\ op = Value b w
  | None => exists b, encode_key SingleEntrySchema key = Ok b /\ op = Deletion b
  end ->
  (forall cf, batch_ops batch' cf = batch_ops batch cf ++ (if bool_decide (cf = "single_entry") then [op] else [])) ->
  cs_blocks cs' = cs_blocks cs -> cs_certs cs' = cs_certs cs ->
  (forall f, entries cs f -> entries cs' (fun k => if bool_decide (k = key) then o else f k)) ->
  effect batch cs cs -> effect batch' cs cs'.
Proof.
  intros Hop Hops Hb Hq Hf He R HR. destruct (He R HR) as [Hb' Hq' (m & Hm & Hent)].
  split; rewrite (apply_batch_step _ _ _ _ _ _ Hops), ?Hb, ?Hq; cbn; [done..|].
  destruct (entry_key_row key) as [k0 Hk0]. specialize (Hf (fun k => m !! k) Hent).
  destruct o as [w|]; destruct Hop as (b & Hk & ->); assert (k0 = b) as -> by (destruct Hk0; congruence).
  - exists (<[key := w]> m). split; [by apply table_insert|].
    destruct key; [rewrite lookup_insert_eq, lookup_insert_ne by done|rewrite lookup_insert_ne, lookup_insert_eq by done]; exact Hf.
  - exists (delete key m). split; [apply table_delete; [done|done|]|].
    + intros b' Hb1. destruct Hk0. congruence.
    + destruct key; [rewrite lookup_delete_eq, lookup_delete_ne by done|rewrite lookup_delete_ne, lookup_delete_eq by done]; exact Hf.
Qed.

Lemma effect_put_blocks blocks batch batch' cs cs' :
  effect batch cs cs' -> Forall (fun b => b_id b < 2 ^ 256) blocks ->
  try_fold (fun block => SchemaBatch.put BlockSchema (b_id block) block) blocks batch = Ok batch' ->
  effect batch' cs (cs_save blocks [] cs').
Proof.
  revert batch cs'. induction blocks as [|b blocks IH]; intros batch cs' He Hw Hf.
  - injection Hf as <-. by destruct cs'.
  - apply Forall_cons in Hw as [Hb Hw]. cbn [try_fold] in Hf. apply bind_Ok in Hf as (batch1 & Hb1 & Hf).
    apply (IH batch1 (cs_save [b] [] cs')); [by eapply effect_put_block|done..].
Qed.

Lemma effect_put_certs certs batch batch' cs cs' :
  effect batch cs cs' -> Forall (fun qc => bi_id (QuorumCert.certified_block qc) < 2 ^ 256) certs ->
  try_fold (fun qc => SchemaBatch.put QCSchema (bi_id (QuorumCert.certified_block qc)) qc) certs batch = Ok batch' ->
  effect batch' cs (cs_save [] certs cs').
Proof.
  revert batch cs'. induction certs as [|qc certs IH]; intros batch cs' He Hw Hf.
  - injection Hf as <-. by destruct cs'.
  - apply Forall_cons in Hw as [Hb Hw]. cbn [try_fold] in Hf. apply bind_Ok in Hf as (batch1 & Hb1 & Hf).
    apply (IH batch1 (cs_save [] [qc] cs')); [by eapply effect_put_cert|done..].
Qed.

Lemma effect_deletes ids batch batch' cs cs' :
  effect batch cs cs' -> Forall (fun i => i < 2 ^ 256) ids ->
  try_fold (fun hash batch => batch ← SchemaBatch.delete BlockSchema hash batch;
                              SchemaBatch.delete QCSchema hash batch) ids batch = Ok batch' ->
  effect batch' cs (cs_prune ids cs').
Proof.
  revert batch cs'. induction ids as [|i ids IH]; intros batch cs' He Hw Hf.
  - injection Hf as <-. by destruct cs'.
  - apply Forall_cons in Hw as [Hb Hw]. cbn [try_fold] in Hf. apply bind_Ok in Hf as (batch2 & Hb1 & Hf).
    apply bind_Ok in Hb1 as (batch1 & Hb1 & Hb2).
    apply (IH batch2 (cs_prune [i] cs')); [by eapply effect_delete|done..].
Qed.
End effects.

(** ** The writes of the storage *)
Inductive StorageWrite : Type :=
  | SaveTree (blocks : list Block) (certs : list QuorumCert)
  | PruneTree (ids : list HashValue)
  | SaveVote (vote : Vote)
  | SaveTimeout (tc : TwoChainTimeoutCertificate)
  | DeleteVote
  | DeleteTimeout.

Definition abs_write (w : StorageWrite) (cs : ConsensusState) : ConsensusState :=
  match w with
  | SaveTree blocks certs => cs_save blocks certs cs
  | PruneTree ids => cs_prune ids cs
  | SaveVote vote => cs_set_vote (Some vote) cs
  | SaveTimeout tc => cs_set_timeout (Some tc) cs
  | DeleteVote => cs_set_vote None cs
  | DeleteTimeout => cs_set_timeout None cs
  end.

(** Ids are hashes of 32 bytes. *)
Definition write_width (w : StorageWrite) : Prop :=
  match w with
  | SaveTree blocks certs =>
      Forall (fun b => b_id b < 2 ^ 256) blocks /\ Forall (fun qc => bi_id (QuorumCert.certified_block qc) < 2 ^ 256) certs
  | PruneTree ids => Forall (fun i => i < 2 ^ 256) ids
  | _ => True
  end.

Section proxy.
Context `{ConsensusBcs} `{!ConsensusBcsLaws} `{LedgerBcs} `{RocksDbLaws C CIt} `{RocksDb D It} `{MerkleHasher} `{HashOrder}.
Context `{CryptoHash VoteData} `{CryptoHash BlockData}.
Abbreviation proxy := (StorageWriteProxy C D).
Implicit Types (p : StorageWriteProxy C D).

Definition run_write (w : StorageWrite) : method proxy AnyError unit :=
  match w with
  | SaveTree blocks certs => StorageWriteProxy.save_tree blocks certs
  | PruneTree ids => StorageWriteProxy.prune_tree ids
  | SaveVote vote => StorageWriteProxy.save_vote vote
  | SaveTimeout tc => StorageWriteProxy.save_highest_2chain_timeout_cert tc
  | DeleteVote => StorageWriteProxy.on_db ConsensusDB.delete_last_vote_msg
  | DeleteTimeout => StorageWriteProxy.on_db ConsensusDB.delete_highest_2chain_timeout_certificate
  end.

(** A write that took place, one that did not, and nothing else. *)
Definition written (p p' : proxy) (r : result unit) (cs cs' : ConsensusState) : Prop :=
  swp_aptos_db p' = swp_aptos_db p /\ (forall cf, cf_handle (swp_db p') cf = cf_handle (swp_db p) cf) /\
  (consensus_holds (swp_db p') cs' \/ r <> Ok tt /\ consensus_holds (swp_db p') cs).

Lemma lift_commit (b : result SchemaBatch) p p' r cs cs' :
  consensus_holds (swp_db p) cs -> (forall batch, b = Ok batch -> effect batch cs cs') ->
  StorageWriteProxy.on_db (batch ← lift b; ConsensusDB.commit batch) p = (r, p') -> written p p' r cs cs'.
Proof.
  intros Hp He. unfold StorageWriteProxy.on_db, on, mbind, method_bind, lift, ConsensusDB.commit. cbn.
  destruct b as [batch|e|]; [|intros [= <- <-]; split_and!; [done..|]; by right..].
  destruct (DB.write_schemas batch (swp_db p)) as [r' db'] eqn:Hw. intros [= <- <-].
  destruct (commit_effect _ _ _ _ _ _ Hp (He _ eq_refl) Hw) as [Hor Hcf]. by split_and!.
Qed.

Lemma unwritten p r cs cs' : consensus_holds (swp_db p) cs -> r <> Ok tt -> written p p r cs cs'.
Proof. intros Hp Hr. split_and!; [done..|by right]. Qed.

Lemma entry_effect_put key w cs cs' batch :
  cs_blocks cs' = cs_blocks cs -> cs_certs cs' = cs_certs cs ->
  (forall f, entries cs f -> entries cs' (fun k => if bool_decide (k = key) then Some w else f k)) ->
  SchemaBatch.put SingleEntrySchema key w SchemaBatch.new = Ok batch -> effect batch cs cs'.
Proof.
  intros Hb Hq Hf (b & w' & Hk & [= <-] & Hops)%batch_put.
  apply (effect_entry SchemaBatch.new batch cs cs' key (Some w) (Value b w)); [by exists b|done..|apply effect_new].
Qed.
Lemma entry_effect_delete key cs cs' batch :
  cs_blocks cs' = cs_blocks cs -> cs_certs cs' = cs_certs cs ->
  (forall f, entries cs f -> entries cs' (fun k => if bool_decide (k = key) then None else f k)) ->
  SchemaBatch.delete SingleEntrySchema key SchemaBatch.new = Ok batch -> effect batch cs cs'.
Proof.
  intros Hb Hq Hf (b & Hk & Hops)%batch_delete.
  apply (effect_entry SchemaBatch.new batch cs cs' key None (Deletion b)); [by exists b|done..|apply effect_new].
Qed.

Lemma write_refines w p p' r cs :
  consensus_holds (swp_db p) cs -> write_width w -> run_write w p = (r, p') -> written p p' r cs (abs_write w cs).
Proof.
  intros Hp Hw Hr. destruct w as [blocks certs|ids|vote|tc| |]; cbn [run_write abs_write write_width] in *.
  - unfold StorageWriteProxy.save_tree, ConsensusDB.save_blocks_and_quorum_certificates in Hr.
    destruct (bool_decide (blocks = []) && bool_decide (certs = [])).
    { injection Hr as <- <-. destruct p. by apply unwritten. }
    apply (lift_commit _ p p' r cs (cs_save blocks certs cs) Hp) in Hr; [done|].
    intros batch (batch1 & Hb1 & Hb2)%bind_Ok. destruct Hw as [Hwb Hwc].
    pose proof (effect_put_blocks _ _ _ _ _ (effect_new cs) Hwb Hb1) as He.
    apply (effect_put_certs _ _ _ _ _ He Hwc Hb2).
  - unfold StorageWriteProxy.prune_tree, ConsensusDB.delete_blocks_and_quorum_certificates in Hr.
    destruct (bool_decide_reflect (ids = [])) as [->|Hne].
    { injection Hr as <- <-. destruct p. split_and!; [done..|left]. by destruct cs. }
    apply (lift_commit _ p p' r cs (cs_prune ids cs) Hp) in Hr; [done|].
    intros batch Hb. exact (effect_deletes _ _ _ _ _ (effect_new cs) Hw Hb).
  - unfold StorageWriteProxy.save_vote in Hr. destruct (bcs_to_bytes vote) as [b|e|] eqn:Hb;
      [|injection Hr as <- <-; by apply unwritten..].
    apply (lift_commit _ p p' r cs (cs_set_vote (Some vote) cs) Hp) in Hr; [done|].
    intros batch. apply entry_effect_put; [done..|]. intros f [_ Hf]. split; [by apply bcs_round|done].
  - unfold StorageWriteProxy.save_highest_2chain_timeout_cert in Hr. destruct (bcs_to_bytes tc) as [b|e|] eqn:Hb;
      [|injection Hr as <- <-; by apply unwritten..].
    apply (lift_commit _ p p' r cs (cs_set_timeout (Some tc) cs) Hp) in Hr; [done|].
    intros batch. apply entry_effect_put; [done..|]. intros f [Hf _]. split; [done|by apply bcs_round].
  - unfold ConsensusDB.delete_last_vote_msg in Hr. apply (lift_commit _ p p' r cs (cs_set_vote None cs) Hp) in Hr; [done|].
    intros batch Hb. apply (entry_effect_delete LastVote cs (cs_set_vote None cs) batch eq_refl eq_refl); [|exact Hb]. intros f [_ Hf]. by split.
  - unfold ConsensusDB.delete_highest_2chain_timeout_certificate in Hr.
    apply (lift_commit _ p p' r cs (cs_set_timeout None cs) Hp) in Hr; [done|].
    intros batch Hb. apply (entry_effect_delete Highest2ChainTimeoutCert cs (cs_set_timeout None cs) batch eq_refl eq_refl); [|exact Hb]. intros f [Hf _]. by split.
Qed.

(** On a reliable database a write succeeds if its values can be encoded. *)
Definition encodable {A} `{Bcs A} (a : A) : Prop := exists b, bcs_to_bytes a = Ok b.
Definition write_encodable (w : StorageWrite) : Prop :=
  match w with
  | SaveTree blocks certs => ~ (blocks = [] /\ certs = []) /\ Forall encodable blocks /\ Forall encodable certs
  | SaveVote vote => encodable vote
  | SaveTimeout tc => encodable tc
  | _ => True
  end.

Lemma try_fold_total {A S} (f : A -> S -> result S) (l : list A) (s : S) :
  Forall (fun a => forall s, exists s', f a s = Ok s') l -> exists s', try_fold f l s = Ok s'.
Proof.
  intros Hl. revert s. induction Hl as [|a l Ha _ IH]; intros s; [by eexists|].
  cbn [try_fold]. destruct (Ha s) as [s' ->]. apply IH.
Qed.

Lemma commit_total `{!RocksDbReliable C CIt} (b : result SchemaBatch) p :
  (forall cf, cf_handle (swp_db p) cf = true) -> (exists batch, b = Ok batch) ->
  (StorageWriteProxy.on_db (batch ← lift b; ConsensusDB.commit batch) p).1 = Ok tt.
Proof.
  intros Hcf [batch ->]. unfold StorageWriteProxy.on_db, on, mbind, method_bind, lift, ConsensusDB.commit.
  pose proof (write_schemas_total batch (swp_db p)) as Hw.
  destruct (DB.write_schemas batch (swp_db p)) as [r db']. cbn in *. by apply Hw.
Qed.

Lemma write_total `{!RocksDbReliable C CIt} w p :
  (forall cf, cf_handle (swp_db p) cf = true) -> write_encodable w -> (run_write w p).1 = Ok tt.
Proof.
  intros Hcf He. destruct w as [blocks certs|ids|vote|tc| |]; cbn [run_write write_encodable] in *.
  - destruct He as (Hne & Hb & Hq).
    unfold StorageWriteProxy.save_tree, ConsensusDB.save_blocks_and_quorum_certificates.
    destruct (bool_decide (blocks = []) && bool_decide (certs = [])) eqn:Hemp.
    { apply andb_true_iff in Hemp as [?%bool_decide_eq_true ?%bool_decide_eq_true]. by destruct Hne. }
    apply commit_total; [done|].
    destruct (try_fold_total (fun block => SchemaBatch.put BlockSchema (b_id block) block) blocks SchemaBatch.new)
      as [batch ->]; [|cbn [mbind outcome_bind]; apply try_fold_total].
    + eapply Forall_impl; [exact Hb|]. intros b [w Hw] batch. unfold SchemaBatch.put. cbn. rewrite Hw. by eexists.
    + eapply Forall_impl; [exact Hq|]. intros b [w Hw] batch'. unfold SchemaBatch.put. cbn. rewrite Hw. by eexists.
  - unfold StorageWriteProxy.prune_tree, ConsensusDB.delete_blocks_and_quorum_certificates.
    destruct (bool_decide (ids = [])); [done|]. apply commit_total; [done|]. apply try_fold_total, Forall_forall.
    intros i _ batch. by eexists.
  - destruct He as [b Hb]. unfold StorageWriteProxy.save_vote. rewrite Hb. apply commit_total; [done|by eexists].
  - destruct He as [b Hb]. unfold StorageWriteProxy.save_highest_2chain_timeout_cert. rewrite Hb.
    apply commit_total; [done|by eexists].
  - apply commit_total; [done|by eexists].
  - apply commit_total; [done|by eexists].
Qed.

Lemma write_done `{!RocksDbReliable C CIt} w p cs :
  consensus_holds (swp_db p) cs -> (forall cf, cf_handle (swp_db p) cf = true) ->
  write_width w -> write_encodable w ->
  exists p', run_write w p = (Ok tt, p') /\ consensus_holds (swp_db p') (abs_write w cs) /\
    (forall cf, cf_handle (swp_db p') cf = true) /\ swp_aptos_db p' = swp_aptos_db p.
Proof.
  intros Hp Hcf Hw He. pose proof (write_total w p Hcf He) as Hok.
  destruct (run_write w p) as [r p'] eqn:Hr. cbn in Hok. subst r. exists p'.
  destruct (write_refines w p p' _ cs Hp Hw Hr) as (Ha & Hh & [Hc|[? _]]); [|done].
  split_and!; [done|done| |done]. intros cf. by rewrite Hh.
Qed.
End proxy.

(** ** Reading a table *)
Lemma hash_row_inv k b : hash_to_vec k = Ok b -> hash_from_slice b = Ok k -> b = to_be_bytes 32 k /\ k < 256 ^ N.of_nat 32.
Proof.
  unfold hash_to_vec, hash_from_slice. generalize 32%nat. intros n Hb.
  assert (b = to_be_bytes n k) as -> by congruence. rewrite length_to_be_bytes, bool_decide_true by done.
  intros Hd. split; [done|]. assert (from_be_bytes (to_be_bytes n k) = k) as Hk by congruence.
  unfold from_be_bytes in Hk. rewrite fold_be_bytes, N.mul_0_l, N.add_0_l in Hk. rewrite <-Hk.
  apply N.mod_lt, N.pow_nonzero. lia.
Qed.

Lemma hash_ordered {V} (S : Schema HashValue V) :
  encode_key S = hash_to_vec -> decode_key S = hash_from_slice -> ordered S (fun k => k).
Proof.
  intros He Hd k k' b b' [H1 H2] [H1' H2']. rewrite He in H1, H1'. rewrite Hd in H2, H2'.
  destruct (hash_row_inv _ _ H1 H2) as [-> Hk]. destruct (hash_row_inv _ _ H1' H2') as [-> Hk'].
  by apply be_bytes_le.
Qed.

Section rows.
Context {V : Type} (S : Schema HashValue V) (Hord : ordered S (fun k => k)).
Context `{RocksDbLaws D It}.

(** The entries from [c] on are still to be read. *)
Definition read_upto (m rows : gmap HashValue V) (c : N) : Prop :=
  forall k, rows !! k = if bool_decide (k < c) then m !! k else None.

Lemma read_all m rows c : read_upto m rows c -> first_from (fun k => k) m c None -> rows = m.
Proof.
  intros Hr Hf. apply map_eq. intros k. rewrite Hr. destruct (m !! k) as [v|] eqn:Hk; [|by case_bool_decide].
  by rewrite bool_decide_true by (apply Hf; by eexists).
Qed.

Lemma read_step m rows c k v :
  read_upto m rows c -> first_from (fun k => k) m c (Some k) -> m !! k = Some v ->
  read_upto m (<[k := v]> rows) (k + 1).
Proof.
  intros Hr (_ & Hc & Hle) Hk k'. destruct (decide (k' = k)) as [->|Hne].
  - rewrite lookup_insert_eq, bool_decide_true by lia. done.
  - rewrite lookup_insert_ne, Hr by done. case_bool_decide as H1; case_bool_decide as H2; [done|lia| |done].
    destruct (m !! k') as [v'|] eqn:Hk'; [|done]. assert (k <= k') by (apply Hle; [by eexists|lia]). lia.
Qed.

Lemma collect_rows_Ok fuel iter m rows c m' :
  at_from S (fun k => k) iter m c -> read_upto m rows c -> ConsensusDB.collect_rows S fuel iter rows = Ok m' -> m' = m.
Proof.
  revert iter rows c. induction fuel as [|fuel IH]; intros iter rows c Hit Hr Hc;
    cbn [ConsensusDB.collect_rows] in Hc; apply bind_Ok in Hc as ([o it] & Hn & Hc);
    pose proof (at_from_next S _ Hord _ _ _ _ Hit Hn) as Hnext; cbn in Hnext.
  - destruct o as [[k v]|]; [done|]. injection Hc as <-. by eapply read_all.
  - destruct o as [[k v]|]; [|injection Hc as <-; by eapply read_all].
    destruct Hnext as (Hk & Hf & Hit'). eapply (IH it); [done| |done]. by eapply read_step.
Qed.

(** The keys that are still to be read. *)
Definition unread (m : gmap HashValue V) (c : N) : nat := size (filter (fun kv => c <= kv.1) m).

Lemma unread_step m c k v :
  first_from (fun k => k) m c (Some k) -> m !! k = Some v -> (unread m (k + 1) < unread m c)%nat.
Proof.
  intros (_ & Hc & _) Hk. unfold unread. apply map_subset_size. split.
  - apply map_subseteq_spec. intros i x [Hi Hx]%map_lookup_filter_Some. cbn in Hx.
    apply map_lookup_filter_Some. split; [done|cbn; lia].
  - intros Hsub. assert (filter (fun kv => k + 1 <= kv.1) m !! k = Some v) as Hn.
    { eapply lookup_weaken; [|exact Hsub]. by apply map_lookup_filter_Some. }
    apply map_lookup_filter_Some in Hn as [_ Hn]. cbn in Hn. lia.
Qed.

Lemma collect_rows_total `{!RocksDbReliable D It} fuel iter m rows c :
  at_from S (fun k => k) iter m c -> read_upto m rows c -> (unread m c <= fuel)%nat ->
  ConsensusDB.collect_rows S fuel iter rows = Ok m.
Proof.
  revert iter rows c. induction fuel as [|fuel IH]; intros iter rows c Hit Hr Hf;
    cbn [ConsensusDB.collect_rows]; destruct (at_from_total _ _ _ _ _ Hit) as [[o it] Hn]; rewrite Hn; cbn;
    pose proof (at_from_next S _ Hord _ _ _ _ Hit Hn) as Hnext; cbn in Hnext.
  - destruct o as [[k v]|]; [|f_equal; by eapply read_all].
    destruct Hnext as (Hk & Hfirst & _). pose proof (unread_step _ _ _ _ Hfirst Hk). lia.
  - destruct o as [[k v]|]; [|f_equal; by eapply read_all].
    destruct Hnext as (Hk & Hfirst & Hit'). apply (IH it _ (k + 1)); [done|by eapply read_step|].
    pose proof (unread_step _ _ _ _ Hfirst Hk). lia.
Qed.

Lemma at_first (d : D) m iter :
  table S (db_rows d (COLUMN_FAMILY_NAME S)) m -> DB.iter d S = Ok iter ->
  at_from S (fun k => k) (SchemaIterator.seek_to_first iter) m 0.
Proof.
  intros Ht Hi. unfold DB.iter, DB.iter_with_direction in Hi. apply bind_Ok in Hi as ([] & _ & [= <-]).
  pose proof (moves_keep_rows (raw_iterator_cf_opt d (COLUMN_FAMILY_NAME S)) []) as (Hrows & _).
  rewrite <-(iterator_rows d (COLUMN_FAMILY_NAME S)) in Ht. split_and!; [cbn; by rewrite Hrows|done|].
  eapply least_first; [apply Hord|apply Ht| |apply seek_to_first_pos]. intros k b _. split; [lia|done].
Qed.

Lemma get_rows_Ok fuel (d : D) m m' :
  table S (db_rows d (COLUMN_FAMILY_NAME S)) m -> ConsensusDB.get_rows S fuel d = Ok m' -> m' = m.
Proof.
  intros Ht (iter & Hi & Hc)%bind_Ok. eapply collect_rows_Ok; [by apply (at_first d)| |done].
  intros k. rewrite lookup_empty. by rewrite bool_decide_false by lia.
Qed.
Lemma get_rows_total `{!RocksDbReliable D It} fuel (d : D) m :
  cf_handle d (COLUMN_FAMILY_NAME S) = true -> table S (db_rows d (COLUMN_FAMILY_NAME S)) m ->
  (size m <= fuel)%nat -> ConsensusDB.get_rows S fuel d = Ok m.
Proof.
  intros Hcf Ht Hf. unfold ConsensusDB.get_rows.
  assert (exists iter, DB.iter d S = Ok iter) as [iter Hi].
  { unfold DB.iter, DB.iter_with_direction, DB.get_cf_handle. rewrite Hcf. by eexists. }
  rewrite Hi. cbn [mbind outcome_bind]. eapply collect_rows_total; [by apply (at_first d)| |].
  - intros k. rewrite lookup_empty. by rewrite bool_decide_false by lia.
  - unfold unread. rewrite map_filter_id; [done|]. intros. cbn. lia.
Qed.
End rows.
