(* ===== verification/BlockTreeLemmas.v ===== *)
(** * The block tree as a tree

    Block ids are hashes, so that an id stands for one block data.  In terms of the
    ancestry this gives, the tree holds the descendants of the commit root, linked both
    ways, and blocks off the committed chain that are kept for a while. *)

From S2P Require Import Prelude Crypto Errors Position Accumulator Verifier Ledger ConsensusTypes Blocks TransactionProofs BlockTree.

(** ** Ancestry *)
Section content.
(** The block data that ids stand for; rounds increase from parent to child. *)
Context (content : HashValue -> option BlockData).

Definition rounds_increase : Prop :=
  forall i d p, content i = Some d -> content (BlockData.parent_id d) = Some p -> bd_round p < bd_round d.

Inductive descends (r : HashValue) : HashValue -> Prop :=
  | descends_refl : descends r r
  | descends_step i d : content i = Some d -> descends r (BlockData.parent_id d) -> descends r i.

Lemma descends_trans r i j : descends r i -> descends i j -> descends r j.
Proof. intros Hr. induction 1 as [|j d Hj _ IH]; [done|]. by apply (descends_step _ _ d). Qed.

Lemma descends_parent r i d : content i = Some d -> descends r i -> i <> r -> descends r (BlockData.parent_id d).
Proof. intros Hi Hd Hne. destruct Hd as [|i d' Hi' Hd]; [done|]. by assert (d' = d) as -> by congruence. Qed.

(** Two ancestors of one block are related. *)
Lemma descends_total a b i : descends a i -> descends b i -> descends a b \/ descends b a.
Proof.
  intros Ha. revert b. induction Ha as [|i d Hi Ha IH]; intros b Hb; [by right|].
  inversion Hb as [|? d' Hi' Hb']; subst.
  - left. by apply (descends_step _ _ d).
  - assert (d' = d) as -> by congruence. by apply IH.
Qed.

Lemma descends_round r i dr di :
  rounds_increase -> descends r i -> content r = Some dr -> content i = Some di ->
  i = r \/ bd_round dr < bd_round di.
Proof.
  intros Hup Hd Hr. revert di. induction Hd as [|i d Hi Hd IH]; intros di Hi'; [by left|right].
  assert (d = di) as -> by congruence.
  inversion Hd as [|? d' Hp Hd']; subst.
  - by apply (Hup i di dr).
  - pose proof (Hup _ _ _ Hi Hp) as Hlt. destruct (IH _ Hp) as [Heq|?]; [|lia].
    rewrite Heq in Hp. assert (d' = dr) as -> by congruence. done.
Qed.

Lemma descends_antisym a b da : rounds_increase -> content a = Some da -> descends a b -> descends b a -> a = b.
Proof.
  intros Hup Ha Hab Hba. destruct Hba as [|a d Ha' Hba]; [done|].
  assert (d = da) as -> by congruence.
  inversion Hab as [|? db Hb Hab']; subst; [done|].
  assert (descends b a) as Hba' by (by apply (descends_step _ _ da)).
  destruct (descends_round a b da db) as [?|?]; [done..|].
  destruct (descends_round b a db da) as [?|?]; [done..|]. lia.
Qed.

(** ** What a well-formed tree is *)
Record tree_ok (t : BlockTree) : Prop := {
  ok_key i lb : id_to_block t !! i = Some lb ->
    LinkableBlock.id lb = i /\ content i = Some (b_block_data (eb_block (lb_executed_block lb)));
  ok_child i lb c : id_to_block t !! i = Some lb -> c ∈ lb_children lb ->
    is_Some (id_to_block t !! c) /\ exists d, content c = Some d /\ BlockData.parent_id d = i;
  ok_linked i d : is_Some (id_to_block t !! i) -> descends (commit_root_id t) i -> i <> commit_root_id t ->
    content i = Some d ->
    exists lp, id_to_block t !! BlockData.parent_id d = Some lp /\ i ∈ lb_children lp;
  ok_root : is_Some (id_to_block t !! commit_root_id t);
  ok_ordered : is_Some (id_to_block t !! ordered_root_id t) /\ descends (commit_root_id t) (ordered_root_id t);
  ok_certified : is_Some (id_to_block t !! highest_certified_block_id t) /\
                 descends (commit_root_id t) (highest_certified_block_id t);
  ok_pruned i : i ∈ pruned_block_ids t -> is_Some (id_to_block t !! i) /\ ~ descends (commit_root_id t) i;
  ok_pruned_once : NoDup (pruned_block_ids t);
  ok_pruned_few : N.of_nat (length (pruned_block_ids t)) <= max_pruned_blocks_in_mem t;
  (** Parents leave the memory before their children. *)
  ok_root_parent i lb : id_to_block t !! i = Some lb -> commit_root_id t ∈ lb_children lb ->
    i ∈ pruned_block_ids t;
  ok_pruned_parent i lb c l1 l2 : id_to_block t !! i = Some lb -> c ∈ lb_children lb ->
    pruned_block_ids t = l1 ++ c :: l2 -> i ∈ l1;
}.
End content.

Arguments descends_refl {content r}.

Abbreviation live content t i := (descends content (commit_root_id t) i).
Abbreviation in_tree t i := (is_Some (id_to_block t !! i)).

(** A path of the tree, from a block (excluded) to a descendant (included). *)
Inductive tree_path (t : BlockTree) (r : HashValue) : HashValue -> list ExecutedBlock -> Prop :=
  | path_nil : tree_path t r r []
  | path_snoc i b l : BlockTree.get_block t i = Some b -> tree_path t r (ExecutedBlock.parent_id b) l ->
      tree_path t r i (l ++ [b]).

Section reads.
Context `{HashOrderLaws} (content : HashValue -> option BlockData) (Hrounds : rounds_increase content).
Context (t : BlockTree) (Hok : tree_ok content t).

Lemma get_block_content i b :
  BlockTree.get_block t i = Some b ->
  in_tree t i /\ ExecutedBlock.id b = i /\ content i = Some (b_block_data (eb_block b)).
Proof.
  unfold BlockTree.get_block, BlockTree.get_linkable_block. intros (lb & Hlb & ->)%fmap_Some.
  split; [by rewrite Hlb|]. by apply (ok_key _ _ Hok i).
Qed.

Lemma in_tree_block i : in_tree t i -> exists b, BlockTree.get_block t i = Some b /\ ExecutedBlock.id b = i /\
  content i = Some (b_block_data (eb_block b)).
Proof.
  intros [lb Hlb]. exists (lb_executed_block lb). unfold BlockTree.get_block, BlockTree.get_linkable_block.
  rewrite Hlb. split; [done|]. by apply (ok_key _ _ Hok i).
Qed.

Lemma tree_path_descends r i l : tree_path t r i l -> descends content r i.
Proof.
  induction 1 as [|i b l Hb _ IH]; [apply descends_refl|].
  apply get_block_content in Hb as (_ & _ & Hc). by apply (descends_step _ _ _ _ Hc).
Qed.

(** The parent of a live block other than the commit root is in the tree. *)
Lemma live_parent i d : in_tree t i -> live content t i -> i <> commit_root_id t -> content i = Some d ->
  in_tree t (BlockData.parent_id d).
Proof. intros Hi Hl Hne Hc. destruct (ok_linked _ _ Hok i d) as (lp & -> & _); by eauto. Qed.

(** *** Paths *)
Definition below (k : Round) : nat :=
  size (filter (fun x : HashValue * LinkableBlock => ExecutedBlock.round (lb_executed_block x.2) < k) (id_to_block t)).

Lemma below_lt i b k :
  BlockTree.get_block t i = Some b -> ExecutedBlock.round b < k -> (below (ExecutedBlock.round b) < below k)%nat.
Proof.
  unfold BlockTree.get_block, BlockTree.get_linkable_block. intros (lb & Hlb & ->)%fmap_Some Hk.
  unfold below. rewrite <-!size_dom. apply subset_size. split.
  - apply subseteq_dom, map_filter_subseteq_ext. intros j x _ ?. simpl in *. lia.
  - intros Hsub. assert (i ∈ dom (filter (fun x : HashValue * LinkableBlock =>
        ExecutedBlock.round (lb_executed_block x.2) < ExecutedBlock.round (lb_executed_block lb)) (id_to_block t))) as Hi.
    { apply Hsub, elem_of_dom. exists lb. by apply map_lookup_filter_Some. }
    apply elem_of_dom in Hi as [lb' [Hlb' Hlt]%map_lookup_filter_Some]. simpl in *.
    assert (lb' = lb) as -> by congruence. lia.
Qed.

Lemma path_loop_ok fuel cur root_round res :
  (0 < fuel)%nat -> (forall b, BlockTree.get_block t cur = Some b -> (S (below (ExecutedBlock.round b)) < fuel)%nat) ->
  exists o, BlockTree.path_loop t fuel cur root_round res = Ok o /\
    forall e res', o = Some (e, res') -> exists l, res' = l ++ res /\ tree_path t e cur l /\
      exists b, BlockTree.get_block t e = Some b /\ ExecutedBlock.round b <= root_round.
Proof.
  revert cur res. induction fuel as [|fuel IH]; [lia|]. intros cur res _ Hfuel. cbn [BlockTree.path_loop].
  destruct (BlockTree.get_block t cur) as [b|] eqn:Hb; [|by exists None].
  destruct (N.leb_spec (ExecutedBlock.round b) root_round) as [Hle|Hgt].
  { eexists. split; [done|]. intros e res' [= <- <-]. exists []. split; [done|]. split; [constructor|eauto]. }
  specialize (Hfuel _ eq_refl).
  destruct (IH (ExecutedBlock.parent_id b) (b :: res)) as (o & Ho & Hspec); [lia|..].
  { intros p Hp. pose proof (below_lt _ _ (ExecutedBlock.round b) Hp) as Hlt.
    apply get_block_content in Hb as (_ & _ & Hc), Hp as (_ & _ & Hcp).
    pose proof (Hrounds _ _ _ Hc Hcp). unfold ExecutedBlock.round, Block.round in *. lia. }
  exists o. split; [done|]. intros e res' He. destruct (Hspec _ _ He) as (l & -> & Hl & Hr).
  exists (l ++ [b]). rewrite <-app_assoc. split; [done|]. split; [by apply path_snoc|done].
Qed.

(** From a descendant of a live block the walk arrives at that block. *)
Lemma path_loop_hit fuel cur r br res e res' :
  in_tree t cur -> descends content r cur -> live content t r -> BlockTree.get_block t r = Some br ->
  BlockTree.path_loop t fuel cur (ExecutedBlock.round br) res <> Ok None /\
  (BlockTree.path_loop t fuel cur (ExecutedBlock.round br) res = Ok (Some (e, res')) -> e = r).
Proof.
  revert cur res. induction fuel as [|fuel IH]; [done|]. intros cur res Hin Hd Hr Hbr. cbn [BlockTree.path_loop].
  destruct (in_tree_block _ Hin) as (b & Hb & _ & Hc). rewrite Hb.
  pose proof (get_block_content _ _ Hbr) as (_ & _ & Hcr).
  destruct (descends_round _ _ _ _ _ Hrounds Hd Hcr Hc) as [->|Hlt].
  { assert (b = br) as -> by congruence. rewrite N.leb_refl. split; [done|]. by intros [= -> _]. }
  rewrite (proj2 (N.leb_gt (ExecutedBlock.round b) (ExecutedBlock.round br))) by done.
  assert (cur <> r) as Hne by (intros ->; assert (b = br) as -> by congruence; lia).
  apply IH; [|by eapply descends_parent|done..].
  apply (live_parent cur (b_block_data (eb_block b))); [done| |..|done].
  - by eapply descends_trans.
  - intros ->. destruct (in_tree_block _ (ok_root _ _ Hok)) as (rb & _ & _ & Hrb).
    apply Hne. by eapply descends_antisym.
Qed.

Lemma path_spec i r br :
  live content t r -> BlockTree.get_block t r = Some br ->
  exists o, BlockTree.path_from_root_to_block t i r (ExecutedBlock.round br) = Ok o /\
    match o with
    | Some l => tree_path t r i l
    | None => ~ (in_tree t i /\ descends content r i)
    end.
Proof.
  intros Hr Hbr. unfold BlockTree.path_from_root_to_block.
  destruct (path_loop_ok (S (size (id_to_block t))) i (ExecutedBlock.round br) []) as (o & Ho & Hspec); [lia|..].
  { intros b Hb. pose proof (below_lt _ _ (ExecutedBlock.round b + 1) Hb) as Hlt.
    unfold below at 2 in Hlt.
    pose proof (map_size_filter (fun x : HashValue * LinkableBlock =>
        ExecutedBlock.round (lb_executed_block x.2) < ExecutedBlock.round b + 1) (id_to_block t)). lia. }
  rewrite Ho. eexists. split; [done|]. destruct o as [[e res]|].
  - destruct (Hspec _ _ eq_refl) as (l & -> & Hl & _). rewrite app_nil_r in *.
    destruct (N.eqb_spec e r) as [->|Hne]; [done|]. intros [Hi Hd].
    destruct (path_loop_hit (S (size (id_to_block t))) i r br [] e l) as [_ He]; [done..|]. auto.
  - intros [Hi Hd]. destruct (path_loop_hit (S (size (id_to_block t))) i r br [] r []) as [Hn _]; done.
Qed.

(** *** Pruning *)
Definition listed (s : list LinkableBlock) : Prop := Forall (fun lb => id_to_block t !! LinkableBlock.id lb = Some lb) s.

Lemma push_ids_ok n ids stack :
  (forall c, c ∈ ids -> in_tree t c) -> listed stack ->
  exists new, try_fold (BlockTree.push_child t n) ids stack = Ok (new ++ stack) /\ listed (new ++ stack) /\
    LinkableBlock.id <$> new ≡ₚ filter (fun c => c <> n) ids.
Proof.
  revert stack. induction ids as [|c ids IH]; intros stack Hin Hs.
  { exists []. split; [done|]. split; [done|]. by rewrite filter_nil. }
  cbn [try_fold]. destruct (decide (n = c)) as [<-|Hne].
  { assert (BlockTree.push_child t n n stack = Ok stack) as -> by (unfold BlockTree.push_child; by rewrite N.eqb_refl).
    destruct (IH stack) as (new & Hnew & ? & Hp); [intros; apply Hin; by right|done|].
    exists new. split; [done|]. split; [done|]. rewrite filter_cons_False by (intros Hx; by apply Hx). done. }
  destruct (Hin c) as [lc Hlc]; [by left|].
  assert (BlockTree.push_child t n c stack = Ok (lc :: stack)) as ->.
  { unfold BlockTree.push_child, BlockTree.get_linkable_block. rewrite (proj2 (N.eqb_neq n c)) by done. by rewrite Hlc. }
  destruct (ok_key _ _ Hok c lc Hlc) as [Hid _].
  destruct (IH (lc :: stack)) as (new & Hnew & ? & Hp).
  { intros. apply Hin. by right. }
  { constructor; [|done]. by rewrite Hid. }
  exists (new ++ [lc]). rewrite <-app_assoc. split; [done|]. split; [done|].
  rewrite filter_cons_True by done. rewrite fmap_app, Hp. cbn. rewrite Hid. by rewrite Permutation_app_comm.
Qed.

Lemma push_children_ok n i lb stack :
  id_to_block t !! i = Some lb -> listed stack ->
  exists new, BlockTree.push_children t n lb stack = Ok (new ++ stack) /\ listed (new ++ stack) /\
    LinkableBlock.id <$> new ≡ₚ filter (fun c => c <> n) (elements (lb_children lb)).
Proof.
  intros Hlb Hs. destruct (push_ids_ok n (set_iter (lb_children lb)) stack) as (new & ? & ? & Hp); [|done|].
  - intros c Hc. rewrite set_iter_elements in Hc. apply elem_of_elements in Hc.
    by apply (ok_child _ _ Hok i lb c Hlb).
  - exists new. by rewrite <-(set_iter_elements (lb_children lb)).
Qed.

(** A child of a live block is not the commit root, and is off the next root's subtree
    with its parent. *)
Lemma child_live i lb c n :
  id_to_block t !! i = Some lb -> c ∈ lb_children lb -> live content t i ->
  c <> commit_root_id t /\ live content t c /\ (c <> n -> descends content n c -> descends content n i).
Proof.
  intros Hlb Hc Hl. destruct (ok_child _ _ Hok i lb c Hlb Hc) as (_ & d & Hd & <-).
  assert (live content t c) as Hlc by (by eapply descends_step).
  split; [|split; [done|]].
  - intros ->. destruct (ok_key _ _ Hok _ _ Hlb) as [_ Hp].
    pose proof (Hrounds _ _ _ Hd Hp) as Hlt.
    destruct (descends_round content _ _ _ _ Hrounds Hl Hd Hp) as [He|?]; [|lia].
    rewrite He, Hd in Hp. injection Hp as Hp. rewrite <-Hp in Hlt. lia.
  - intros Hne Hn. by eapply descends_parent.
Qed.

(** The blocks off the subtree of the next root. *)
Definition off (n i : HashValue) : Prop := in_tree t i /\ live content t i /\ ~ descends content n i.

(** Every listed block but the commit root comes after its parent. *)
Definition parents_first (ids : list HashValue) : Prop :=
  forall i d l1 l2, ids = l1 ++ i :: l2 -> i <> commit_root_id t -> content i = Some d -> BlockData.parent_id d ∈ l1.

Record walk (n : HashValue) (visited : list HashValue) (stack : list LinkableBlock) : Prop := {
  w_listed : listed stack;
  w_once : NoDup (visited ++ (LinkableBlock.id <$> stack));
  w_off i : i ∈ visited ++ (LinkableBlock.id <$> stack) -> off n i;
  w_closed i lb c : i ∈ visited -> id_to_block t !! i = Some lb -> c ∈ lb_children lb -> c <> n ->
    c ∈ visited ++ (LinkableBlock.id <$> stack);
  w_first : parents_first visited;
  w_stack i d : i ∈ LinkableBlock.id <$> stack -> i <> commit_root_id t -> content i = Some d ->
    BlockData.parent_id d ∈ visited;
  w_root : commit_root_id t ∈ visited ++ (LinkableBlock.id <$> stack);
}.

Lemma parents_first_snoc ids i :
  parents_first ids -> (forall d, i <> commit_root_id t -> content i = Some d -> BlockData.parent_id d ∈ ids) ->
  parents_first (ids ++ [i]).
Proof.
  intros Hf Hi j d l1 l2 Heq Hne Hd.
  destruct l2 as [|x l2 _] using rev_ind.
  - apply app_inj_tail in Heq as [<- ->]. auto.
  - rewrite app_comm_cons, app_assoc in Heq. apply app_inj_tail in Heq as [-> _]. eapply Hf; eauto.
Qed.

Lemma walk_step n visited lb stack new :
  walk n visited (lb :: stack) -> listed (new ++ stack) ->
  LinkableBlock.id <$> new ≡ₚ filter (fun c => c <> n) (elements (lb_children lb)) ->
  walk n (visited ++ [LinkableBlock.id lb]) (new ++ stack).
Proof.
  intros [Wl Wo Woff Wc Wf Ws Wr] Hl Hp.
  assert (id_to_block t !! LinkableBlock.id lb = Some lb) as Hlb by (by inversion Wl).
  set (i := LinkableBlock.id lb) in *. cbn in Wo, Woff, Wc, Ws, Wr. fold i in Wo, Woff, Wc, Ws, Wr.
  assert (off n i) as (Hin & Hlive & Hoff) by (apply Woff; set_solver).
  assert (forall c, c ∈ LinkableBlock.id <$> new <-> c ∈ lb_children lb /\ c <> n) as Hnew.
  { intros c. rewrite Hp, list_elem_of_filter, elem_of_elements. tauto. }
  assert ((visited ++ [i]) ++ (LinkableBlock.id <$> new ++ stack) ≡ₚ
          (LinkableBlock.id <$> new) ++ visited ++ i :: (LinkableBlock.id <$> stack)) as Hall.
  { rewrite fmap_app, <-app_assoc. cbn. rewrite (Permutation_app_comm visited), (Permutation_app_comm visited).
    cbn. rewrite <-!app_assoc. rewrite Permutation_middle. done. }
  assert (forall c, c ∈ lb_children lb -> exists d, content c = Some d /\ BlockData.parent_id d = i) as Hpar.
  { intros c Hc. by apply (ok_child _ _ Hok i lb c). }
  split; [done|..].
  - rewrite Hall. apply NoDup_app. split; [|split; [|done]].
    + rewrite Hp. apply NoDup_filter, NoDup_elements.
    + intros c [Hc Hne]%Hnew Hold. destruct (Hpar c Hc) as (d & Hd & Hpd).
      destruct (child_live i lb c n Hlb Hc Hlive) as (Hcr & _).
      assert (i ∈ visited) as Hv.
      { apply elem_of_app in Hold as [Hv|Hv].
        - apply list_elem_of_split in Hv as (l1 & l2 & ->). pose proof (Wf c d l1 l2 eq_refl Hcr Hd).
          rewrite Hpd in *. set_solver.
        - rewrite <-Hpd. by apply (Ws c d). }
      apply NoDup_app in Wo as (_ & Wo & _). apply (Wo i Hv). by left.
  - intros c. rewrite Hall. intros [[Hc Hne]%Hnew|Hc]%elem_of_app; [|auto].
    destruct (child_live i lb c n Hlb Hc Hlive) as (_ & Hlc & Hd).
    split; [by apply (ok_child _ _ Hok i lb c)|]. split; [done|auto].
  - intros j lj c Hj Hlj Hc Hne. rewrite Hall. apply elem_of_app.
    apply elem_of_app in Hj as [Hj| ->%list_elem_of_singleton]; [right; eauto|left].
    apply Hnew. by assert (lj = lb) as <- by congruence.
  - apply parents_first_snoc; [done|]. intros d Hne Hd. apply (Ws i d); [by left|done..].
  - intros c d Hc Hne Hd. rewrite fmap_app in Hc. apply elem_of_app in Hc as [[Hc _]%Hnew|Hc].
    + destruct (Hpar c Hc) as (d' & Hd' & <-). assert (d' = d) as -> by congruence. set_solver.
    + apply elem_of_app. left. apply (Ws c d); [by right|done..].
  - rewrite Hall. set_solver.
Qed.

Lemma walk_size n visited stack : walk n visited stack -> (length visited + length stack <= size (id_to_block t))%nat.
Proof.
  intros W. rewrite <-size_dom.
  assert (length visited + length stack = length (visited ++ (LinkableBlock.id <$> stack)))%nat as ->
    by (rewrite length_app, length_fmap; done).
  rewrite <-(size_list_to_set (C := gset HashValue)) by apply (w_once _ _ _ W).
  apply subseteq_size. intros i Hi. apply elem_of_list_to_set in Hi. apply elem_of_dom. by apply (w_off _ _ _ W).
Qed.

Lemma prune_loop_ok fuel n visited stack :
  walk n visited stack -> (size (id_to_block t) <= fuel + length visited)%nat ->
  exists ids, BlockTree.prune_loop t fuel n stack visited = Ok ids /\ walk n ids [].
Proof.
  revert visited stack. induction fuel as [|fuel IH]; intros visited stack W Hf;
    pose proof (walk_size _ _ _ W); (destruct stack as [|lb stack]; [by exists visited|]).
  { cbn in *. lia. }
  cbn [BlockTree.prune_loop].
  destruct (push_children_ok n (LinkableBlock.id lb) lb stack) as (new & Hn & Hl & Hp);
    [by pose proof (w_listed _ _ _ W) as Hl; inversion Hl|by pose proof (w_listed _ _ _ W) as Hl; inversion Hl|].
  rewrite Hn. apply IH; [by apply walk_step|]. rewrite length_app. cbn. lia.
Qed.

Lemma walk_complete n ids : walk n ids [] -> forall i, i ∈ ids <-> off n i.
Proof.
  intros W i. pose proof (w_off _ _ _ W) as Woff. cbn in Woff. rewrite app_nil_r in Woff.
  split; [by apply Woff|]. intros (Hin & Hl & Hn). revert Hin Hn.
  induction Hl as [|i d Hd Hl IH]; intros Hin Hn.
  { pose proof (w_root _ _ _ W) as Hr. cbn in Hr. by rewrite app_nil_r in Hr. }
  destruct (decide (i = commit_root_id t)) as [->|Hne].
  { pose proof (w_root _ _ _ W) as Hr. cbn in Hr. by rewrite app_nil_r in Hr. }
  destruct (ok_linked _ _ Hok i d Hin) as (lp & Hlp & Hc); [by eapply descends_step|done..|].
  pose proof (w_closed _ _ _ W (BlockData.parent_id d) lp i) as Hcl. cbn in Hcl. rewrite app_nil_r in Hcl.
  apply Hcl; [|done|done|].
  - apply IH; [by rewrite Hlp|]. intros Hp. apply Hn. by eapply descends_step.
  - intros ->. apply Hn, descends_refl.
Qed.

(** The blocks found for pruning: once each, parents first, exactly the live blocks that
    are not in the subtree of the next root. *)
Lemma find_blocks_to_prune_ok n :
  live content t n ->
  exists ids, BlockTree.find_blocks_to_prune t n = Ok ids /\ NoDup ids /\ parents_first ids /\
    forall i, i ∈ ids <-> off n i.
Proof.
  intros Hn. unfold BlockTree.find_blocks_to_prune.
  destruct (in_tree_block _ (ok_root _ _ Hok)) as (rb & _ & _ & Hrb).
  destruct (N.eqb_spec n (commit_root_id t)) as [->|Hne].
  { exists []. split; [done|]. split; [constructor|]. split.
    - intros ? ? l1 l2 Heq. by destruct l1.
    - intros i. split; [by intros ?%elem_of_nil|]. by intros (_ & Hl & Hnl). }
  destruct (ok_root _ _ Hok) as [lr Hlr]. unfold BlockTree.linkable_root, BlockTree.get_linkable_block. rewrite Hlr.
  destruct (ok_key _ _ Hok _ _ Hlr) as [Hid _].
  destruct (prune_loop_ok (size (id_to_block t)) n [] [lr]) as (ids & Hids & W).
  - split; cbn; rewrite ?Hid.
    + constructor; [|constructor]. by rewrite Hid.
    + apply NoDup_singleton.
    + intros i ->%list_elem_of_singleton. split; [by rewrite Hlr|]. split; [apply descends_refl|].
      intros Hd. apply Hne. by eapply eq_sym, descends_antisym.
    + by intros ??? ?%elem_of_nil.
    + intros ? ? l1 l2 Heq. by destruct l1.
    + by intros ?? ->%list_elem_of_singleton.
    + set_solver.
  - cbn. lia.
  - exists ids. split; [done|]. pose proof (w_once _ _ _ W) as Ho. cbn in Ho. rewrite app_nil_r in Ho.
    split; [done|]. split; [apply (w_first _ _ _ W)|]. by apply walk_complete.
Qed.
End reads.

(** ** What pruning removes *)
Lemma remove_blocks_fields ids (t : BlockTree) :
  let t' := foldl (fun self id => BlockTree.remove_block id self) t ids in
  (forall i, id_to_block t' !! i = if decide (i ∈ ids) then None else id_to_block t !! i) /\
  ordered_root_id t' = ordered_root_id t /\ commit_root_id t' = commit_root_id t /\
  highest_certified_block_id t' = highest_certified_block_id t /\
  highest_commit_cert t' = highest_commit_cert t /\ pruned_block_ids t' = pruned_block_ids t /\
  max_pruned_blocks_in_mem t' = max_pruned_blocks_in_mem t /\
  id_to_quorum_cert t' ⊆ id_to_quorum_cert t.
Proof.
  revert t. induction ids as [|j ids IH]; intros t; [done|]. cbn [foldl].
  destruct (IH (BlockTree.remove_block j t)) as (Hm & ? & ? & ? & ? & ? & ? & Hq).
  split; [|split_and!; [done..|]; etrans; [exact Hq|]; apply delete_subseteq].
  intros i. rewrite Hm. cbn. destruct (decide (i = j)) as [->|Hne].
  - rewrite lookup_delete_eq, (decide_True (P := j ∈ j :: ids)) by (by left). by case_decide.
  - rewrite lookup_delete_ne by done. repeat case_decide; set_solver.
Qed.

Lemma removed_blocks t ids :
  let t1 := BlockTree.process_pruned_blocks ids t in
  exists removed, pruned_block_ids t ++ ids = removed ++ pruned_block_ids t1 /\
    (forall i, id_to_block t1 !! i = if decide (i ∈ removed) then None else id_to_block t !! i) /\
    N.of_nat (length (pruned_block_ids t1)) <= max_pruned_blocks_in_mem t1 /\
    ordered_root_id t1 = ordered_root_id t /\ commit_root_id t1 = commit_root_id t /\
    highest_certified_block_id t1 = highest_certified_block_id t /\
    highest_commit_cert t1 = highest_commit_cert t /\
    max_pruned_blocks_in_mem t1 = max_pruned_blocks_in_mem t /\
    id_to_quorum_cert t1 ⊆ id_to_quorum_cert t.
Proof.
  unfold BlockTree.process_pruned_blocks. set (pruned := pruned_block_ids t ++ ids).
  set (k := (length pruned - N.to_nat (max_pruned_blocks_in_mem t))%nat).
  destruct (remove_blocks_fields (take k pruned) (BlockTree.set_pruned (drop k pruned) t))
    as (Hm & Ho & Hc & Hh & Hcc & Hp & Hx & Hq). cbn in *.
  exists (take k pruned). rewrite Hp, Hx, take_drop. split; [done|]. split; [done|].
  split; [rewrite length_drop; unfold k; lia|]. done.
Qed.

(** ** Writes keep the tree well-formed *)
Section writes.
Context `{HashOrderLaws} (content : HashValue -> option BlockData) (Hrounds : rounds_increase content).
Implicit Types (t : BlockTree).

Lemma new_ok root qc ordered commit max tc t :
  BlockTree.new root qc ordered commit max tc = Ok t ->
  content (ExecutedBlock.id root) = Some (b_block_data (eb_block root)) -> tree_ok content t.
Proof.
  unfold BlockTree.new. intros Hnew Hc. run. split; cbn.
  - intros i lb [<- <-]%lookup_singleton_Some. done.
  - intros i lb c [<- <-]%lookup_singleton_Some. cbn. set_solver.
  - intros i d [lb [<- _]%lookup_singleton_Some] _ Hne. done.
  - by rewrite lookup_singleton_eq.
  - rewrite lookup_singleton_eq. split; [done|apply descends_refl].
  - rewrite lookup_singleton_eq. split; [done|apply descends_refl].
  - by intros i ?%elem_of_nil.
  - constructor.
  - lia.
  - intros i lb [<- <-]%lookup_singleton_Some. cbn. set_solver.
  - intros i lb c l1 l2 _ _ Heq. by destruct l1.
Qed.

(** The tree after a fresh block is linked. *)
Lemma link_ok t b lp :
  tree_ok content t -> content (ExecutedBlock.id b) = Some (b_block_data (eb_block b)) ->
  id_to_block t !! ExecutedBlock.id b = None -> id_to_block t !! ExecutedBlock.parent_id b = Some lp ->
  tree_ok content
    (BlockTree.set_blocks
       (<[ExecutedBlock.id b := LinkableBlock.new b]>
          (<[ExecutedBlock.parent_id b := mkLinkableBlock (lb_executed_block lp) ({[ExecutedBlock.id b]} ∪ lb_children lp)]>
             (id_to_block t))) t).
Proof.
  intros Hok Hc Hfresh Hp.
  set (i := ExecutedBlock.id b) in *. set (p := ExecutedBlock.parent_id b) in *.
  set (m := <[i := _]> _).
  assert (i <> p) as Hne by congruence.
  assert (forall j lj, m !! j = Some lj ->
    j = i /\ lj = LinkableBlock.new b \/
    j <> i /\ exists lj', id_to_block t !! j = Some lj' /\ lb_executed_block lj' = lb_executed_block lj /\
      lb_children lj' ⊆ lb_children lj /\ (forall c, c ∈ lb_children lj -> c ∈ lb_children lj' \/ c = i /\ j = p)) as Hm.
  { intros j lj Hj. subst m. apply lookup_insert_Some in Hj as [[<- <-]|[Hj Hl]]; [by left|right].
    split; [done|]. apply lookup_insert_Some in Hl as [[<- <-]|[? Hl]].
    - exists lp. cbn. split; [done|]. set_solver.
    - exists lj. set_solver. }
  assert (forall j, is_Some (m !! j) <-> j = i \/ in_tree t j) as Hin.
  { intros j. subst m. rewrite lookup_insert_is_Some, lookup_insert_is_Some.
    destruct (decide (i = j)), (decide (p = j)); subst; rewrite ?Hp; naive_solver. }
  assert (forall j, in_tree t j -> is_Some (m !! j)) as Hold by (intros; apply Hin; by right).
  split; cbn; fold m.
  - intros j lj [[-> ->]|(? & lj' & Hlj & He & _)]%Hm; [done|]. unfold LinkableBlock.id. rewrite <-He. by apply (ok_key _ _ Hok).
  - intros j lj c [[-> ->]|(? & lj' & Hlj & He & _ & Hsub)]%Hm; [cbn; set_solver|].
    intros [Hcc|[-> ->]]%Hsub.
    + destruct (ok_child _ _ Hok j lj' c Hlj Hcc) as [??]. auto.
    + split; [apply Hin; by left|]. exists (b_block_data (eb_block b)). done.
  - intros j d [->|Hj]%Hin Hl Hnr Hd.
    + assert (d = b_block_data (eb_block b)) as -> by congruence.
      exists (mkLinkableBlock (lb_executed_block lp) ({[i]} ∪ lb_children lp)). split; [|cbn; set_solver].
      subst m. rewrite lookup_insert_ne by done. apply lookup_insert_eq.
    + destruct (ok_linked _ _ Hok j d Hj Hl Hnr Hd) as (lq & Hlq & Hcq).
      destruct (Hold (BlockData.parent_id d)) as [lq' Hlq']; [by rewrite Hlq|].
      exists lq'. split; [done|]. destruct (Hm _ _ Hlq') as [[Heq _]|(_ & lj' & Hlj & _ & Hsub & _)].
      * rewrite Heq in Hlq. congruence.
      * assert (lj' = lq) as -> by congruence. set_solver.
  - apply Hold, (ok_root _ _ Hok).
  - destruct (ok_ordered _ _ Hok). auto.
  - destruct (ok_certified _ _ Hok). auto.
  - intros j Hj. destruct (ok_pruned _ _ Hok j Hj). auto.
  - apply (ok_pruned_once _ _ Hok).
  - apply (ok_pruned_few _ _ Hok).
  - intros j lj [[-> ->]|(? & lj' & Hlj & He & _ & Hsub)]%Hm; [cbn; set_solver|].
    intros [Hcc|[Hr _]]%Hsub; [by apply (ok_root_parent _ _ Hok j lj')|].
    destruct (ok_root _ _ Hok) as [lr Hlr]. congruence.
  - intros j lj c l1 l2 [[-> ->]|(? & lj' & Hlj & He & _ & Hsub)]%Hm; [cbn; set_solver|].
    intros [Hcc|[-> _]]%Hsub Heq; [by eapply (ok_pruned_parent _ _ Hok j lj')|].
    destruct (ok_pruned _ _ Hok i) as [[x Hx] _]; [|congruence]. rewrite Heq. set_solver.
Qed.

Lemma insert_block_ok t b r t' :
  tree_ok content t -> content (ExecutedBlock.id b) = Some (b_block_data (eb_block b)) ->
  BlockTree.insert_block b t = (r, t') ->
  tree_ok content t' /\
  match BlockTree.get_block t (ExecutedBlock.id b) with
  | Some e => t' = t /\ (eb_state_compute_result e = eb_state_compute_result b -> r = Ok e)
  | None =>
      if BlockTree.block_exists t (ExecutedBlock.parent_id b)
      then r = Ok b /\ (forall i, BlockTree.get_block t' i =
                          if decide (i = ExecutedBlock.id b) then Some b else BlockTree.get_block t i)
      else r = Err (Msg "Parent block not found") /\ t' = t
  end.
Proof.
  intros Hok Hc. unfold BlockTree.insert_block.
  destruct (BlockTree.get_block t (ExecutedBlock.id b)) as [e|] eqn:He.
  { intros [= <- <-]. split; [done|]. split; [done|]. intros Heq.
    by rewrite (bool_decide_true (eb_state_compute_result e = eb_state_compute_result b)). }
  assert (id_to_block t !! ExecutedBlock.id b = None) as Hfresh by (by apply fmap_None in He).
  unfold BlockTree.get_linkable_block, BlockTree.block_exists.
  destruct (id_to_block t !! ExecutedBlock.parent_id b) as [lp|] eqn:Hp; [|by intros [= <- <-]].
  unfold LinkableBlock.add_child. rewrite (bool_decide_false (_ ∈ lb_children lp)).
  2: { intros Hin. destruct (ok_child _ _ Hok _ _ _ Hp Hin) as [[x Hx] _]. congruence. }
  cbn [negb assert_ mbind outcome_bind].
  assert (ExecutedBlock.id b <> ExecutedBlock.parent_id b) as Hne by congruence.
  rewrite (bool_decide_true (<[_ := _]> _ !! _ = None)) by (by rewrite lookup_insert_ne).
  intros [= <- <-]. split; [by apply link_ok|]. split; [done|]. intros i.
  unfold BlockTree.get_block, BlockTree.get_linkable_block. cbn. case_decide as Hi.
  - subst. by rewrite lookup_insert_eq.
  - rewrite lookup_insert_ne by done. destruct (decide (ExecutedBlock.parent_id b = i)) as [<-|].
    + by rewrite lookup_insert_eq, Hp.
    + by rewrite lookup_insert_ne.
Qed.

(** Only the certificates and roots of the tree change. *)
Lemma ok_same_blocks t t' :
  tree_ok content t ->
  id_to_block t' = id_to_block t -> commit_root_id t' = commit_root_id t ->
  pruned_block_ids t' = pruned_block_ids t -> max_pruned_blocks_in_mem t' = max_pruned_blocks_in_mem t ->
  in_tree t (ordered_root_id t') /\ live content t (ordered_root_id t') ->
  in_tree t (highest_certified_block_id t') /\ live content t (highest_certified_block_id t') ->
  tree_ok content t'.
Proof. intros [] Hb Hc Hp Hm Ho Hh. split; rewrite ?Hb, ?Hc, ?Hp, ?Hm; assumption. Qed.

Lemma insert_quorum_cert_ok t qc r t' :
  tree_ok content t ->
  (forall b h, BlockTree.get_block t (bi_id (QuorumCert.certified_block qc)) = Some b ->
     BlockTree.highest_certified_block t = Ok h -> ExecutedBlock.round h < ExecutedBlock.round b ->
     live content t (bi_id (QuorumCert.certified_block qc))) ->
  BlockTree.insert_quorum_cert qc t = (r, t') ->
  tree_ok content t' /\ id_to_block t' = id_to_block t /\ commit_root_id t' = commit_root_id t /\
  ordered_root_id t' = ordered_root_id t /\
  highest_commit_cert t' = highest_commit_cert t /\
  (forall i q, id_to_quorum_cert t' !! i = Some q ->
     id_to_quorum_cert t !! i = Some q \/ i = bi_id (QuorumCert.certified_block qc) /\ q = qc) /\
  match BlockTree.get_block t (bi_id (QuorumCert.certified_block qc)) with
  | None => r = Err (Msg "Block not found") /\ t' = t
  | Some b => r = Ok tt /\
      exists h h', BlockTree.highest_certified_block t = Ok h /\ BlockTree.highest_certified_block t' = Ok h' /\
        ExecutedBlock.round h' = N.max (ExecutedBlock.round h) (ExecutedBlock.round b) /\
        (h' = h /\ highest_certified_block_id t' = highest_certified_block_id t \/
         h' = b /\ highest_certified_block_id t' = bi_id (QuorumCert.certified_block qc))
  end.
Proof.
  intros Hok Hlive. unfold BlockTree.insert_quorum_cert.
  set (i := bi_id (QuorumCert.certified_block qc)) in *.
  unfold mbind at 1, method_bind at 1, gets.
  destruct (BlockTree.get_block t i) as [b|] eqn:Hb; cbn [ok_or]; [|by intros [= <- <-]; split_and!; auto].
  assert (forall self j q, id_to_quorum_cert (BlockTree.record_quorum_cert i qc self) !! j = Some q ->
            id_to_quorum_cert self !! j = Some q \/ j = i /\ q = qc) as Hcerts.
  { intros self j q. cbn. destruct (id_to_quorum_cert self !! i); [by left|].
    intros [[<- <-]|[_ ?]]%lookup_insert_Some; [by right|by left]. }
  destruct (in_tree_block _ _ Hok _ (proj1 (ok_certified _ _ Hok))) as (h & Hh & Hhid & _).
  assert (BlockTree.highest_certified_block t = Ok h) as Hhc by (unfold BlockTree.highest_certified_block; by rewrite Hh).
  unfold mbind at 1, method_bind at 1. rewrite Hhc.
  destruct (get_block_content _ _ Hok _ _ Hb) as (Hin & Hid & _).
  destruct (N.ltb_spec (ExecutedBlock.round h) (ExecutedBlock.round b)) as [Hlt|Hge];
    cbn [mbind method_bind puts mret method_ret]; unfold puts; intros [= <- <-].
  - split; [|split_and!; [done..|by apply (Hcerts (BlockTree.set_highest_certified _ qc t))|done|]].
    + apply (ok_same_blocks t); [done..|by apply (ok_ordered _ _ Hok)|]. cbn. rewrite Hid. split; [done|]. by eapply Hlive.
    + exists h, b. split; [done|]. split; [|split; [lia|right; by rewrite <-Hid]].
      unfold BlockTree.highest_certified_block. cbn. rewrite Hid. unfold BlockTree.get_block, BlockTree.get_linkable_block in *.
      cbn. by rewrite Hb.
  - split; [|split_and!; [done..|by apply (Hcerts t)|done|]].
    + by apply (ok_same_blocks t); [..|apply (ok_ordered _ _ Hok)|apply (ok_certified _ _ Hok)].
    + exists h, h. split; [done|]. split; [done|]. split; [lia|by left].
Qed.

Lemma update_ordered_root_ok t n :
  tree_ok content t -> in_tree t n -> live content t n ->
  BlockTree.update_ordered_root n t = (Ok tt, BlockTree.set_roots n (commit_root_id t) t) /\
  tree_ok content (BlockTree.set_roots n (commit_root_id t) t).
Proof.
  intros Hok Hin Hl. unfold BlockTree.update_ordered_root, BlockTree.block_exists.
  rewrite bool_decide_true by done. split; [done|].
  by apply (ok_same_blocks t); [..|apply (ok_certified _ _ Hok)].
Qed.

(** Moving the commit root to a live block and pruning what is off its subtree. *)
Section prune.
Context (t : BlockTree) (Hok : tree_ok content t) (n : HashValue) (ids : list HashValue).
Context (Hn : in_tree t n) (Hlive : live content t n) (Hne : n <> commit_root_id t).
Context (Hids : NoDup ids) (Hfirst : parents_first content t ids) (Hoff : forall i, i ∈ ids <-> off content t n i).

Let pruned : list HashValue := pruned_block_ids t ++ ids.

Lemma pruned_off i : i ∈ pruned -> in_tree t i /\ ~ descends content n i.
Proof.
  intros [Hi|Hi]%elem_of_app.
  - destruct (ok_pruned _ _ Hok i Hi) as [Hin Hl]. split; [done|]. intros Hd. apply Hl. by eapply descends_trans.
  - apply Hoff in Hi as (? & ? & ?). done.
Qed.

Lemma pruned_once : NoDup pruned.
Proof.
  apply NoDup_app. split; [apply (ok_pruned_once _ _ Hok)|]. split; [|done].
  intros i Hi Hi'. apply Hoff in Hi' as (_ & Hl & _). by apply (ok_pruned _ _ Hok i Hi).
Qed.

Lemma pruned_parent i lb c l1 l2 :
  id_to_block t !! i = Some lb -> c ∈ lb_children lb -> pruned = l1 ++ c :: l2 -> i ∈ l1.
Proof.
  intros Hlb Hc Heq. pose proof Heq as Heq'. unfold pruned in Heq'.
  apply app_eq_inv in Heq' as [(k & Hp & Hk)|(k & Hl1 & Hk)].
  - destruct k as [|x k].
    + cbn in Hk. rewrite app_nil_r in Hp. rewrite <-Hp. destruct (decide (c = commit_root_id t)) as [->|Hcr].
      * by apply (ok_root_parent _ _ Hok i lb).
      * destruct (ok_child _ _ Hok _ _ _ Hlb Hc) as (_ & d & Hd & <-).
        pose proof (Hfirst c d [] l2 (eq_sym Hk) Hcr Hd). set_solver.
    + injection Hk as <- Hk. by apply (ok_pruned_parent _ _ Hok i lb c l1 k).
  - rewrite Hl1. apply elem_of_app. destruct (decide (c = commit_root_id t)) as [->|Hcr].
    + left. by apply (ok_root_parent _ _ Hok i lb).
    + destruct (ok_child _ _ Hok _ _ _ Hlb Hc) as (_ & d & Hd & <-). right. by apply (Hfirst c d k l2).
Qed.

Lemma prune_ok t1 ordered cert :
  t1 = BlockTree.process_pruned_blocks ids t ->
  descends content n (highest_certified_block_id t) -> descends content n ordered -> in_tree t ordered ->
  let t2 := BlockTree.set_roots ordered n (BlockTree.set_commit_cert cert t1) in
  tree_ok content t2 /\
  (forall i, descends content n i -> id_to_block t2 !! i = id_to_block t !! i) /\
  (forall i, in_tree t2 i -> id_to_block t2 !! i = id_to_block t !! i).
Proof.
  intros -> Hcert Hord Hordin t2.
  set (t1 := BlockTree.process_pruned_blocks ids t) in *.
  destruct (removed_blocks t ids) as (removed & Hsplit & Hm & Hfew & Ho & Hc & Hh & _ & Hmax & _).
  fold pruned in Hsplit. fold t1 in Hsplit, Hm, Hfew, Ho, Hc, Hh, Hmax.
  assert (forall i, descends content n i -> i ∉ pruned) as Hkept by (intros i Hd Hi; by destruct (pruned_off i Hi)).
  assert (forall i, in_tree t1 i -> (i ∉ removed) /\ id_to_block t1 !! i = id_to_block t !! i) as Hstay.
  { intros i. rewrite Hm. case_decide; [by intros [??]|done]. }
  assert (forall i, descends content n i -> id_to_block t1 !! i = id_to_block t !! i) as Hsub.
  { intros i Hd. rewrite Hm, decide_False; [done|]. intros Hi. apply (Hkept i Hd). rewrite Hsplit. set_solver. }
  assert (forall i lb, id_to_block t1 !! i = Some lb -> (i ∉ removed) /\ id_to_block t !! i = Some lb) as Hold.
  { intros i lb Hi. destruct (Hstay i) as [? He]; [by rewrite Hi|]. by rewrite <-He. }
  split; [|split; [done|intros i Hi; by destruct (Hstay i Hi)]].
  split; cbn.
  - intros i lb [_ Hi]%Hold. by apply (ok_key _ _ Hok).
  - intros i lb c [Hr Hi]%Hold Hcc. destruct (ok_child _ _ Hok i lb c Hi Hcc) as [Hin Hd]. split; [|done].
    rewrite Hm. case_decide as Hcr; [|done].
    apply list_elem_of_split in Hcr as (l1 & l2 & ->). destruct Hr.
    apply elem_of_app. left. apply (pruned_parent i lb c l1 (l2 ++ pruned_block_ids t1)); [done..|].
    by rewrite Hsplit, <-app_assoc.
  - intros i d Hin Hd Hni Hc'. destruct (Hstay i Hin) as [Hr Hsame]. rewrite Hsame in Hin.
    destruct (ok_linked _ _ Hok i d) as (lp & Hlp & Hcp); [done|by eapply descends_trans| |done|].
    + intros ->. destruct (in_tree_block _ _ Hok _ (ok_root _ _ Hok)) as (? & _ & _ & Hrc).
      apply Hne. by eapply eq_sym, descends_antisym.
    + exists lp. split; [|done]. rewrite Hsub; [done|]. by eapply descends_parent.
  - rewrite Hsub; [done|apply descends_refl].
  - by rewrite Hsub.
  - rewrite Hh. split; [|done]. rewrite Hsub by done. apply (ok_certified _ _ Hok).
  - intros i Hi. destruct (pruned_off i) as [Hin Hnd]; [rewrite Hsplit; set_solver|]. split; [|done].
    rewrite Hm, decide_False; [done|]. intros Hr. pose proof pruned_once as Ho'. rewrite Hsplit in Ho'.
    apply NoDup_app in Ho' as (_ & Hdis & _). by apply (Hdis i).
  - pose proof pruned_once as Ho'. rewrite Hsplit in Ho'. by apply NoDup_app in Ho' as (_ & _ & ?).
  - done.
  - intros i lb Hi Hcn. destruct (Hold _ _ Hi) as [Hr Hi'].
    assert (i ∈ pruned) as Hp.
    { apply elem_of_app. right. apply Hoff. destruct (ok_child _ _ Hok _ _ _ Hi' Hcn) as (_ & d & Hd & <-).
      split; [by rewrite Hi'|]. split; [by eapply descends_parent|]. intros Hdn.
      destruct (ok_key _ _ Hok _ _ Hi') as [_ Hk]. pose proof (Hrounds _ _ _ Hd Hk) as Hlt.
      destruct (descends_round content _ _ _ _ Hrounds Hdn Hd Hk) as [Hx|?]; [|lia].
      rewrite Hx, Hd in Hk. injection Hk as Hk. rewrite <-Hk in Hlt. lia. }
    rewrite Hsplit in Hp. set_solver.
  - intros i lb c l1 l2 [Hr Hi]%Hold Hcc Heq.
    pose proof (pruned_parent i lb c (removed ++ l1) l2 Hi Hcc) as Hp.
    rewrite Hsplit, Heq, <-app_assoc in Hp. specialize (Hp eq_refl). set_solver.
Qed.
End prune.
End writes.
