(* ===== verification/BlockStoreLemmas.v ===== *)
(** * The block store over time

    Under agreement (certified blocks extend every finalized block of a lower round) the
    operations of the block store keep the tree well-formed and do not panic. *)

From S2P Require Import Prelude Crypto Errors Position Accumulator Verifier Ledger ConsensusTypes Blocks TransactionProofs BlockTree ConsensusDb LivenessStorage BlockStore BlockTreeLemmas.

(** ** The chain of an epoch, and the committed block that a run starts from *)
Record Chain : Type := mkChain {
  content : HashValue -> option BlockData;
  certified : HashValue -> Prop;
  finalized : HashValue -> Prop;
  origin : HashValue;
}.
Definition round_of (ch : Chain) (i : HashValue) : Round := from_option bd_round 0 (content ch i).

Record chain_ok (ch : Chain) : Prop := {
  ch_rounds : rounds_increase (content ch);
  ch_final i : finalized ch i -> certified ch i;
  ch_agree c i : finalized ch c -> certified ch i -> is_Some (content ch c) -> is_Some (content ch i) ->
    round_of ch c <= round_of ch i -> descends (content ch) c i;
}.

(** A certificate that speaks about the chain. *)
Record cert_ok (ch : Chain) (qc : QuorumCert) : Prop := {
  co_certified : certified ch (bi_id (QuorumCert.certified_block qc));
  co_round : is_Some (content ch (bi_id (QuorumCert.certified_block qc))) ->
    bi_round (QuorumCert.certified_block qc) = round_of ch (bi_id (QuorumCert.certified_block qc));
  co_commit : is_Some (content ch (bi_id (QuorumCert.commit_info qc))) ->
    finalized ch (bi_id (QuorumCert.commit_info qc)) /\
    bi_round (QuorumCert.commit_info qc) = round_of ch (bi_id (QuorumCert.commit_info qc));
  co_order : bi_round (QuorumCert.commit_info qc) <= bi_round (QuorumCert.certified_block qc);
}.

(** ** What the store relies on *)
Class StateComputerLaws (C : Type) `{StateComputer C} : Prop := {
  compute_no_panic block parent c : (sc_compute block parent c).1 <> Panic;
  (** Commits succeed; a callback that is called at once gets the blocks and a decision
      on the last of them. *)
  commit_calls blocks li c : match (sc_commit blocks li c).1 with
    | Ok None => True
    | Ok (Some (committed, decision)) =>
        last committed = last blocks /\
        BlockInfo.match_ordered_only (li_commit_info (lis_ledger_info li))
          (li_commit_info (lis_ledger_info decision)) = true
    | _ => False
    end;
}.
Class LivenessStorageLaws (L : Type) `{PersistentLivenessStorage L} : Prop := {
  save_tree_no_panic blocks certs l : (save_tree blocks certs l).1 <> Panic;
  prune_tree_no_panic ids l : (prune_tree ids l).1 <> Panic;
  save_tc_no_panic tc l : (save_highest_2chain_timeout_cert tc l).1 <> Panic;
}.

(** ** The invariant of the store *)
Section invariant.
Context (ch : Chain).

Record inner_ok (t : BlockTree) : Prop := {
  in_tree_ok : tree_ok (content ch) t;
  in_ordered : finalized ch (ordered_root_id t);
  in_commit : finalized ch (commit_root_id t);
  in_origin : descends (content ch) (origin ch) (commit_root_id t);
  in_commit_cert : bi_round (QuorumCert.commit_info (highest_commit_cert t)) <= round_of ch (commit_root_id t);
  in_certified : certified ch (highest_certified_block_id t);
  in_highest : round_of ch (ordered_root_id t) <= round_of ch (highest_certified_block_id t);
  in_certs i qc : id_to_quorum_cert t !! i = Some qc ->
    i = bi_id (QuorumCert.certified_block qc) /\ is_Some (content ch i) /\ cert_ok ch qc /\
    bi_round (QuorumCert.certified_block qc) <= round_of ch (highest_certified_block_id t);
}.

(** The commits whose callback has not been called: ordered, and above the commit root
    unless a later one was called first. *)
Definition callback_ok (t : BlockTree) (qc : QuorumCert) : Prop :=
  let n := bi_id (QuorumCert.commit_info qc) in
  finalized ch n /\ is_Some (content ch n) /\ bi_round (QuorumCert.commit_info qc) = round_of ch n /\
  round_of ch n <= round_of ch (ordered_root_id t) /\
  (round_of ch (commit_root_id t) <= round_of ch n -> in_tree t n).

Definition store_ok {C L} (st : BlockStore C L) : Prop :=
  inner_ok (inner st) /\ Forall (callback_ok (inner st)) (callbacks st).
End invariant.

Section store.
Context `{HashOrderLaws} `{StateComputerLaws C} `{LivenessStorageLaws L}.
Context (ch : Chain) (Hch : chain_ok ch).
Abbreviation store := (BlockStore C L).
Implicit Types (t : BlockTree) (st : BlockStore C L).
Abbreviation safely m Q st := (safe (store_ok ch) m Q st).

Lemma block_round t i b : tree_ok (content ch) t -> BlockTree.get_block t i = Some b ->
  ExecutedBlock.round b = round_of ch i /\ ExecutedBlock.id b = i /\ is_Some (content ch i) /\ in_tree t i.
Proof.
  intros Hok Hb. destruct (get_block_content _ _ Hok _ _ Hb) as (? & ? & Hc).
  unfold round_of. rewrite Hc. done.
Qed.

Lemma in_tree_content t i : tree_ok (content ch) t -> in_tree t i -> is_Some (content ch i).
Proof. intros Hok Hi. destruct (in_tree_block _ _ Hok _ Hi) as (? & _ & _ & ->). done. Qed.

(** The blocks of the tree that are certified above a finalized block extend it. *)
Lemma certified_live t i :
  inner_ok ch t -> in_tree t i -> certified ch i -> round_of ch (commit_root_id t) <= round_of ch i ->
  live (content ch) t i.
Proof.
  intros Hok Hi Hc Hr. apply (ch_agree _ Hch); [apply (in_commit _ _ Hok)|done|..|done].
  - apply (in_tree_content t); [apply (in_tree_ok _ _ Hok)|apply (ok_root _ _ (in_tree_ok _ _ Hok))].
  - apply (in_tree_content t); [apply (in_tree_ok _ _ Hok)|done].
Qed.

Lemma commit_below_ordered t : inner_ok ch t -> round_of ch (commit_root_id t) <= round_of ch (ordered_root_id t).
Proof.
  intros Hok. pose proof (in_tree_ok _ _ Hok) as Ht. destruct (ok_ordered _ _ Ht) as [Hi Hd].
  destruct (in_tree_block _ _ Ht _ Hi) as (? & _ & _ & Ho).
  destruct (in_tree_block _ _ Ht _ (ok_root _ _ Ht)) as (? & _ & _ & Hr).
  destruct (descends_round _ _ _ _ _ (ch_rounds _ Hch) Hd Hr Ho) as [->|Hlt]; [done|].
  unfold round_of. rewrite Ho, Hr. simpl. lia.
Qed.

Lemma roots_present t : inner_ok ch t ->
  exists o c, BlockTree.ordered_root t = Ok o /\ BlockTree.commit_root t = Ok c /\
    ExecutedBlock.round o = round_of ch (ordered_root_id t) /\ ExecutedBlock.round c = round_of ch (commit_root_id t).
Proof.
  intros Hok. pose proof (in_tree_ok _ _ Hok) as Ht.
  destruct (in_tree_block _ _ Ht _ (proj1 (ok_ordered _ _ Ht))) as (o & Ho & _).
  destruct (in_tree_block _ _ Ht _ (ok_root _ _ Ht)) as (c & Hc & _).
  exists o, c. unfold BlockTree.ordered_root, BlockTree.commit_root. rewrite Ho, Hc.
  split; [done|]. split; [done|]. by apply (block_round t) in Ho as [-> _], Hc as [-> _].
Qed.

(** *** Inserting blocks *)
Lemma insert_block_fields b t r t' : BlockTree.insert_block b t = (r, t') -> exists m, t' = BlockTree.set_blocks m t.
Proof.
  unfold BlockTree.insert_block. intros Hi.
  repeat case_match; simplify_eq; eauto; exists (id_to_block t'); by destruct t'.
Qed.

Lemma insert_block_store t b r t' :
  inner_ok ch t -> content ch (ExecutedBlock.id b) = Some (b_block_data (eb_block b)) ->
  BlockTree.get_block t (ExecutedBlock.id b) = None -> BlockTree.insert_block b t = (r, t') ->
  inner_ok ch t' /\ r <> Panic /\ (forall qc, callback_ok ch t qc -> callback_ok ch t' qc).
Proof.
  intros Hok Hc Hnew Hins.
  destruct (insert_block_ok _ (ch_rounds _ Hch) t b r t' (in_tree_ok _ _ Hok) Hc Hins) as [Hok' Hspec]. rewrite Hnew in Hspec.
  destruct (insert_block_fields _ _ _ _ Hins) as [m ->].
  assert (inner_ok ch (BlockTree.set_blocks m t)) as Hin by (destruct Hok; split; assumption).
  split; [done|]. destruct (BlockTree.block_exists t (ExecutedBlock.parent_id b)).
  - destruct Hspec as [-> Hget]. split; [done|]. intros qc (? & ? & ? & ? & Hq). split_and!; [done..|].
    intros Hr. destruct (in_tree_block _ _ (in_tree_ok _ _ Hok) _ (Hq Hr)) as (x & Hx & _).
    specialize (Hget (bi_id (QuorumCert.commit_info qc))). rewrite Hx in Hget.
    case_decide as Hd; [|by apply (block_round (BlockTree.set_blocks m t)) in Hget as (_ & _ & _ & ?)].
    rewrite Hd, Hnew in Hx. done.
  - destruct Hspec as [-> Ht]. split; [done|]. by rewrite Ht.
Qed.

Lemma path_from_ordered_root_ok t i :
  inner_ok ch t -> exists o, BlockTree.path_from_ordered_root t i = Ok o /\
    match o with
    | Some l => tree_path t (ordered_root_id t) i l
    | None => ~ (in_tree t i /\ descends (content ch) (ordered_root_id t) i)
    end.
Proof.
  intros Hok. pose proof (in_tree_ok _ _ Hok) as Ht.
  destruct (in_tree_block _ _ Ht _ (proj1 (ok_ordered _ _ Ht))) as (o & Ho & _).
  unfold BlockTree.path_from_ordered_root, BlockTree.ordered_root. rewrite Ho. cbn [expect mbind outcome_bind].
  apply (path_spec _ (ch_rounds _ Hch) t Ht); [apply (ok_ordered _ _ Ht)|done].
Qed.

(** Only the state computer moves. *)
Definition same_tree st st' : Prop := inner st' = inner st /\ callbacks st' = callbacks st.

Lemma same_store_ok st st' : same_tree st st' -> store_ok ch st -> store_ok ch st'.
Proof. intros [Ht Hc]. unfold store_ok. by rewrite Ht, Hc. Qed.

Lemma execute_block_same st0 st b :
  same_tree st0 st -> safe (same_tree st0) (BlockStore.execute_block b) (fun e st' => same_tree st0 st' /\ eb_block e = b) st.
Proof.
  intros Hs. unfold BlockStore.execute_block. apply safe_bind. unfold safe, BlockStore.on_computer, on.
  pose proof (compute_no_panic b (Block.parent_id b) (state_computer st)) as Hp.
  destruct (sc_compute b (Block.parent_id b) (state_computer st)) as [[r|e|] c]; [done..|by destruct Hp].
Qed.

Lemma try_executor_same st0 st b :
  same_tree st0 st ->
  safe (same_tree st0) (BlockStore.try_executor (BlockStore.execute_block b)) (fun e st' => same_tree st0 st' /\ eb_block e = b) st.
Proof.
  intros Hs. pose proof (execute_block_same st0 st b Hs) as He. unfold safe, BlockStore.try_executor in *.
  by destruct (BlockStore.execute_block b st) as [[]].
Qed.

Lemma reexecute_same st0 blocks st :
  same_tree st0 st -> safe (same_tree st0) (BlockStore.reexecute blocks) (fun _ => same_tree st0) st.
Proof.
  revert st. induction blocks as [|b blocks IH]; intros st Hs; [done|]. cbn [BlockStore.reexecute].
  apply safe_bind. eapply safe_mono; [by apply try_executor_same|]. intros e st' [Hs' _]. by apply IH.
Qed.

Lemma execute_with_ancestors_same st b :
  store_ok ch st ->
  safe (same_tree st) (BlockStore.execute_with_ancestors b) (fun e st' => same_tree st st' /\ eb_block e = b) st.
Proof.
  intros [Hok _]. pose proof (execute_block_same st st b (conj eq_refl eq_refl)) as He.
  unfold safe, BlockStore.execute_with_ancestors in *.
  destruct (BlockStore.execute_block b st) as [[e|[p| | | |]|] st1]; try done.
  assert (safe (same_tree st) (path ← gets (BlockStore.path_from_ordered_root p); _ ← BlockStore.reexecute (default [] path);
            BlockStore.try_executor (BlockStore.execute_block b)) (fun e st' => same_tree st st' /\ eb_block e = b) st1); [|done].
  apply safe_bind, safe_gets. unfold BlockStore.path_from_ordered_root. rewrite (proj1 He).
  destruct (path_from_ordered_root_ok (inner st) p Hok) as (o & -> & _).
  apply safe_bind. eapply safe_mono; [by apply reexecute_same|]. intros ? st2 Hs2. by apply try_executor_same.
Qed.

Lemma on_storage_same {E A} (m : method L E A) Q st :
  (forall l, (m l).1 <> Panic) ->
  (forall a st', same_tree st st' -> Q a st') -> store_ok ch st ->
  safely (BlockStore.on_storage m) Q st.
Proof.
  intros Hm HQ Hok. unfold safe, BlockStore.on_storage, on. specialize (Hm (storage st)).
  destruct (m (storage st)) as [[a|e|] l]; cbn in *; [by apply HQ|by apply (same_store_ok st)|done].
Qed.

Lemma execute_and_insert_block_ok st b :
  store_ok ch st -> content ch (b_id b) = Some (b_block_data b) ->
  safely (BlockStore.execute_and_insert_block b) (fun _ => store_ok ch) st.
Proof.
  intros Hok Hc. unfold safe, BlockStore.execute_and_insert_block.
  destruct (BlockStore.get_block (b_id b) st) as [e|] eqn:Hb; [done|].
  apply (safe_bind (store_ok ch)), safe_gets. destruct (roots_present (inner st) (proj1 Hok)) as (o & c & Ho & _).
  unfold BlockStore.ordered_root. rewrite Ho. apply safe_bind, safe_lift.
  destruct (ensure _ _) eqn:He; [|done|by unfold ensure in He; destruct (_ <? _)].
  apply safe_bind. pose proof (execute_with_ancestors_same st b Hok) as Hx. unfold safe at 1 in Hx.
  unfold safe at 1. destruct (BlockStore.execute_with_ancestors b st) as [[x|x|] st1]; [|by apply (same_store_ok st)|done].
  destruct Hx as [Hs Hxb]. pose proof (same_store_ok _ _ Hs Hok) as Hok1.
  apply safe_bind. unfold BlockStore.with_context_m, safe at 1.
  pose proof (on_storage_same (save_tree [eb_block x] []) (fun _ => same_tree st1) st1
                (fun l => save_tree_no_panic _ _ l) (fun _ _ Hs => Hs) Hok1) as Hsave.
  unfold safe in Hsave. destruct (BlockStore.on_storage _ st1) as [[[]|e|] st2]; cbn [with_context map_err]; [|done..].
  assert (same_tree st st2) as Hs2 by (destruct Hs, Hsave; split; congruence).
  pose proof (same_store_ok _ _ Hs2 Hok) as [Hin Hcb].
  unfold safe, BlockStore.on_tree, on.
  destruct (BlockTree.insert_block x (inner st2)) as [r t'] eqn:Hins.
  destruct (insert_block_store (inner st2) x r t') as (Hin' & Hr & Hcb').
  - done.
  - unfold ExecutedBlock.id. by rewrite Hxb.
  - unfold ExecutedBlock.id. rewrite Hxb, (proj1 Hs2). done.
  - done.
  - assert (store_ok ch (BlockStore.set_inner t' st2)) by (split; [done|]; by eapply Forall_impl).
    by destruct r.
Qed.

(** *** Inserting certificates *)
Lemma insert_quorum_cert_store t qc r t' :
  inner_ok ch t -> cert_ok ch qc -> BlockTree.insert_quorum_cert qc t = (r, t') ->
  in_tree t (bi_id (QuorumCert.certified_block qc)) ->
  inner_ok ch t' /\ r = Ok tt /\ (forall c, callback_ok ch t c -> callback_ok ch t' c) /\
  bi_round (QuorumCert.certified_block qc) <= round_of ch (highest_certified_block_id t').
Proof.
  intros Hok Hqc Hins Hin. pose proof (in_tree_ok _ _ Hok) as Ht.
  destruct (in_tree_block _ _ Ht _ Hin) as (b & Hb & _).
  pose proof (block_round _ _ _ Ht Hb) as (Hbr & _ & Hbc & _).
  assert (forall h, BlockTree.highest_certified_block t = Ok h -> ExecutedBlock.round h = round_of ch (highest_certified_block_id t)) as Hhr.
  { unfold BlockTree.highest_certified_block. intros h Hh%expect_Ok. by apply (block_round t) in Hh as [-> _]. }
  destruct (insert_quorum_cert_ok _ t qc r t' Ht) as (Ht' & Hblocks & Hcr & Hor & Hcc & Hcerts & Hspec); [|done|].
  { intros b' h Hb' Hh Hlt. apply certified_live; [done..|by apply co_certified|].
    assert (b' = b) as -> by congruence. rewrite Hbr, (Hhr h Hh) in Hlt.
    pose proof (commit_below_ordered t Hok). pose proof (in_highest _ _ Hok). lia. }
  rewrite Hb in Hspec. destruct Hspec as (-> & h & h' & Hh & Hh' & Hmax & Hcase).
  assert (round_of ch (highest_certified_block_id t') =
          N.max (round_of ch (highest_certified_block_id t)) (bi_round (QuorumCert.certified_block qc))) as Hround.
  { rewrite (co_round _ _ Hqc Hbc), <-Hbr, <-(Hhr h Hh), <-Hmax.
    unfold BlockTree.highest_certified_block in Hh'. apply expect_Ok in Hh'. by apply (block_round t') in Hh' as [-> _]. }
  split; [|split; [done|split]].
  - split; rewrite ?Hor, ?Hcr, ?Hcc; [done|apply Hok..| | |].
    + destruct Hcase as [[_ ->]|[_ ->]]; [apply Hok|by apply co_certified].
    + pose proof (in_highest _ _ Hok). lia.
    + intros i q [Hq|[-> ->]]%Hcerts; [|split_and!; [done..|lia]].
      destruct (in_certs _ _ Hok _ _ Hq) as (? & ? & ? & ?). split_and!; [done..|lia].
  - intros c. unfold callback_ok. by rewrite Hblocks, Hor, Hcr.
  - lia.
Qed.

Lemma insert_single_quorum_cert_ok st qc :
  store_ok ch st -> cert_ok ch qc ->
  safely (BlockStore.insert_single_quorum_cert qc)
    (fun _ st' => store_ok ch st' /\
       bi_round (QuorumCert.certified_block qc) <= round_of ch (highest_certified_block_id (inner st'))) st.
Proof.
  intros Hok Hqc. unfold BlockStore.insert_single_quorum_cert.
  apply safe_bind, safe_gets. unfold BlockStore.get_block.
  destruct (BlockTree.get_block (inner st) _) as [b|] eqn:Hb; [|done]. cbn [ok_or].
  apply safe_bind, safe_lift. unfold ensure. destruct (BlockInfo.match_ordered_only _ _); [|done].
  apply safe_bind. unfold BlockStore.with_context_m, safe at 1.
  pose proof (on_storage_same (save_tree [] [qc]) (fun _ => same_tree st) st
                (fun l => save_tree_no_panic _ _ l) (fun _ _ Hs => Hs) Hok) as Hsave.
  unfold safe in Hsave. destruct (BlockStore.on_storage _ st) as [[[]|e|] st2]; cbn [with_context map_err]; [|done..].
  pose proof (same_store_ok _ _ Hsave Hok) as [Hin Hcb]. unfold safe, BlockStore.on_tree, on.
  destruct (BlockTree.insert_quorum_cert qc (inner st2)) as [r t'] eqn:Hins.
  destruct (insert_quorum_cert_store (inner st2) qc r t') as (Hin' & -> & Hcb' & Hr); [done..| |].
  - rewrite (proj1 Hsave). by apply (block_round (inner st)) in Hb as (_ & _ & _ & ?); [|apply Hok].
  - split; [|done]. split; [done|]. by eapply Forall_impl.
Qed.

Lemma insert_2chain_timeout_certificate_ok st tc :
  store_ok ch st -> safely (BlockStore.insert_2chain_timeout_certificate tc) (fun _ => store_ok ch) st.
Proof.
  intros Hok. unfold safe, BlockStore.insert_2chain_timeout_certificate. destruct (_ <=? _); [done|].
  apply (safe_bind (store_ok ch)). unfold BlockStore.with_context_m, safe at 1.
  pose proof (on_storage_same (save_highest_2chain_timeout_cert tc) (fun _ => same_tree st) st
                (fun l => save_tc_no_panic _ l) (fun _ _ Hs => Hs) Hok) as Hsave.
  unfold safe in Hsave. destruct (BlockStore.on_storage _ st) as [[[]|e|] st2]; cbn [with_context map_err]; [|done..].
  pose proof (same_store_ok _ _ Hsave Hok) as [[Ht] Hcb]. unfold safe, BlockStore.on_tree, on. cbn.
  split; [|done]. split; try assumption. cbn.
  by apply (ok_same_blocks (content ch) (inner st2)); [..|apply (ok_ordered _ _ Ht)|apply (ok_certified _ _ Ht)].
Qed.

(** *** Committing *)

(** The commit root moves to a finalized block, the ordered root to a later one. *)
Lemma advance_ok t n ids cert ordered :
  inner_ok ch t -> in_tree t n -> finalized ch n -> round_of ch (commit_root_id t) < round_of ch n ->
  NoDup ids -> parents_first (content ch) t ids -> (forall i, i ∈ ids <-> off (content ch) t n i) ->
  bi_round (QuorumCert.commit_info cert) = round_of ch n ->
  in_tree t ordered -> finalized ch ordered -> round_of ch n <= round_of ch ordered ->
  round_of ch (ordered_root_id t) <= round_of ch ordered ->
  round_of ch ordered <= round_of ch (highest_certified_block_id t) ->
  let t' := BlockTree.set_roots ordered n (BlockTree.set_commit_cert cert (BlockTree.process_pruned_blocks ids t)) in
  inner_ok ch t' /\ (forall c, callback_ok ch t c -> callback_ok ch t' c) /\
  highest_certified_block_id t' = highest_certified_block_id t /\
  (forall i, descends (content ch) n i -> id_to_block t' !! i = id_to_block t !! i).
Proof.
  intros Hok Hn Hfin Hr Honce Hfirst Hoff Hcert Hord Hofin Hno Hoo Hoh t'. pose proof (in_tree_ok _ _ Hok) as Ht.
  pose proof (ok_certified _ _ Ht) as [Hcin _].
  assert (forall i, in_tree t i -> certified ch i -> round_of ch n <= round_of ch i -> descends (content ch) n i) as Hext.
  { intros i Hi Hc Hle. apply (ch_agree _ Hch); try done; by eapply in_tree_content. }
  assert (live (content ch) t n) as Hlive.
  { apply certified_live; [done..|by apply (ch_final _ Hch)|lia]. }
  assert (n <> commit_root_id t) as Hne by (intros ->; lia).
  destruct (removed_blocks t ids)
    as (_ & _ & _ & _ & _ & _ & Hh & _ & _ & Hcerts).
  destruct (prune_ok _ (ch_rounds _ Hch) t Ht n ids Hn Hlive Hne Honce Hfirst Hoff
              (BlockTree.process_pruned_blocks ids t) ordered cert) as (Ht' & Hkeep & _); [done|..].
  { apply Hext; [done|apply (in_certified _ _ Hok)|lia]. }
  { apply Hext; [done|by apply (ch_final _ Hch)|done]. }
  { done. }
  fold t' in Ht', Hkeep. split; [|split; [|split]].
  - split; cbn; rewrite ?Hh; [done|done|done|by eapply descends_trans, Hlive; apply Hok|lia|apply Hok|done|].
    intros i q Hq. apply (in_certs _ _ Hok i q). by eapply lookup_weaken.
  - intros c (Hf & Hc & Hbr & Hle & Hin). split_and!; [done..|cbn; lia|]. cbn. intros Hle'.
    change (id_to_block (BlockTree.process_pruned_blocks ids t)) with (id_to_block t').
    assert (in_tree t (bi_id (QuorumCert.commit_info c))) as Hin' by (apply Hin; lia).
    rewrite Hkeep; [done|]. apply Hext; [done|by apply (ch_final _ Hch)|done].
  - done.
  - done.
Qed.

(** What a callback does to the tree. *)
Lemma commit_callback_run st blocks qc decision b :
  inner_ok ch (inner st) -> last blocks = Some b -> ExecutedBlock.id b = bi_id (QuorumCert.commit_info qc) ->
  in_tree (inner st) (ExecutedBlock.id b) -> finalized ch (ExecutedBlock.id b) ->
  bi_round (QuorumCert.commit_info qc) = round_of ch (ExecutedBlock.id b) ->
  round_of ch (commit_root_id (inner st)) < round_of ch (ExecutedBlock.id b) ->
  BlockInfo.match_ordered_only (QuorumCert.commit_info qc) (li_commit_info (lis_ledger_info decision)) = true ->
  exists ids cert st', BlockStore.commit_callback blocks qc decision st = (Ok tt, st') /\
    NoDup ids /\ parents_first (content ch) (inner st) ids /\
    (forall i, i ∈ ids <-> off (content ch) (inner st) (ExecutedBlock.id b) i) /\
    bi_round (QuorumCert.commit_info cert) = round_of ch (ExecutedBlock.id b) /\
    storage st' = (prune_tree ids (storage st)).2 /\ callbacks st' = callbacks st /\
    inner st' = BlockTree.set_roots (ordered_root_id (inner st)) (ExecutedBlock.id b)
                  (BlockTree.set_commit_cert cert (BlockTree.process_pruned_blocks ids (inner st))).
Proof.
  intros Hok Hlast Hid Hn Hfin Hbr Hr Hmatch. pose proof (in_tree_ok _ _ Hok) as Ht.
  assert (live (content ch) (inner st) (ExecutedBlock.id b)) as Hlive.
  { apply certified_live; [done..|by apply (ch_final _ Hch)|lia]. }
  destruct (find_blocks_to_prune_ok _ (ch_rounds _ Hch) (inner st) Ht (ExecutedBlock.id b) Hlive) as (ids & Hids & Honce & Hfirst & Hoff).
  set (cert := mkQuorumCert (qc_vote_data qc) decision).
  assert (bi_id (QuorumCert.commit_info cert) = ExecutedBlock.id b /\
          bi_round (QuorumCert.commit_info cert) = round_of ch (ExecutedBlock.id b)) as [Hcid Hcround].
  { unfold BlockInfo.match_ordered_only in Hmatch. breflect.
    change (QuorumCert.commit_info cert) with (li_commit_info (lis_ledger_info decision)). split; congruence. }
  destruct (roots_present (inner st) Hok) as (_ & c & _ & Hc & _).
  destruct (prune_tree ids (storage st)) as [p l] eqn:Hp.
  assert (p <> Panic) as Hpp by (pose proof (prune_tree_no_panic ids (storage st)) as Hx; by rewrite Hp in Hx).
  set (st1 := mkBlockStore (inner st) (state_computer st) l (back_pressure_limit st) (callbacks st)).
  set (t1 := BlockTree.process_pruned_blocks ids (inner st)).
  set (t2 := BlockTree.set_roots (ordered_root_id (inner st)) (ExecutedBlock.id b) (BlockTree.set_commit_cert cert t1)).
  exists ids, cert, (BlockStore.set_inner t2 (BlockStore.set_inner t1 st1)).
  split; [|by rewrite Hp]. unfold BlockStore.commit_callback.
  assert (QuorumCert.create_merged_with_executed_state qc decision = Ok cert) as Hcm.
  { unfold QuorumCert.create_merged_with_executed_state. by rewrite Hmatch. }
  unfold mbind, method_bind, lift, gets, puts. rewrite Hcm, Hlast. cbn [expect_ok expect].
  unfold BlockStore.commit_root. rewrite Hc, Hids.
  assert (BlockStore.log_error (BlockStore.on_storage (prune_tree ids)) st = (Ok tt, st1)) as ->.
  { unfold BlockStore.log_error, BlockStore.on_storage, on. rewrite Hp. by destruct p as [[]|e|]. }
  destruct (removed_blocks (inner st) ids) as (removed & Hsplit & Hm & _ & Ho & _ & _ & Hcc & _). fold t1 in Hsplit, Hm, Hcc, Ho.
  unfold BlockStore.on_tree at 2, on. change (inner st1) with (inner st). cbn beta iota. fold t1.
  unfold BlockStore.on_tree, on. change (inner (BlockStore.set_inner t1 st1)) with t1.
  unfold BlockTree.update_highest_commit_cert.
  rewrite (proj2 (N.ltb_lt (bi_round (QuorumCert.commit_info (highest_commit_cert t1))) _)).
  2: { rewrite Hcc, Hcround. pose proof (in_commit_cert _ _ Hok). lia. }
  unfold BlockTree.update_commit_root, BlockTree.block_exists. rewrite Hcid, bool_decide_true.
  - subst t2. rewrite <-Ho. done.
  - change (id_to_block (BlockTree.set_commit_cert cert t1)) with (id_to_block t1). rewrite Hm, decide_False; [done|].
    intros Hrem. destruct (pruned_off (content ch) (inner st) Ht (ExecutedBlock.id b) ids Hlive Hoff (ExecutedBlock.id b))
      as [_ []]; [rewrite Hsplit; set_solver|apply descends_refl].
Qed.

(** A callback called later, in the order of the commits. *)
Lemma run_callback st blocks qc decision b :
  store_ok ch st -> qc ∈ callbacks st -> last blocks = Some b -> ExecutedBlock.id b = bi_id (QuorumCert.commit_info qc) ->
  round_of ch (commit_root_id (inner st)) < bi_round (QuorumCert.commit_info qc) ->
  BlockInfo.match_ordered_only (QuorumCert.commit_info qc) (li_commit_info (lis_ledger_info decision)) = true ->
  exists ids st', BlockStore.commit_callback blocks qc decision st = (Ok tt, st') /\
    store_ok ch st' /\ callbacks st' = callbacks st /\ storage st' = (prune_tree ids (storage st)).2 /\
    NoDup ids /\ (forall i, i ∈ ids <-> off (content ch) (inner st) (ExecutedBlock.id b) i) /\
    commit_root_id (inner st') = ExecutedBlock.id b /\
    (forall i, descends (content ch) (ExecutedBlock.id b) i -> id_to_block (inner st') !! i = id_to_block (inner st) !! i) /\
    (forall i, i ∉ pruned_block_ids (inner st) -> i ∉ ids ->
       id_to_block (inner st') !! i = id_to_block (inner st) !! i /\ i ∉ pruned_block_ids (inner st')).
Proof.
  intros [Hok Hcb] Hqc Hlast Hid Hr Hmatch.
  rewrite Forall_forall in Hcb. destruct (Hcb qc Hqc) as (Hfin & Hc & Hbr & Hle & Hin).
  rewrite <-Hid in Hfin, Hc, Hbr, Hle, Hin. rewrite Hbr in Hr. specialize (Hin ltac:(lia)).
  destruct (commit_callback_run st blocks qc decision b) as (ids & cert & st' & Hrun & Honce & Hfirst & Hoff & Hcr & Hsto & Hcbs & Hst');
    [done..|]. exists ids, st'.
  destruct (ok_ordered _ _ (in_tree_ok _ _ Hok)) as [Hoin _].
  destruct (advance_ok (inner st) (ExecutedBlock.id b) ids cert (ordered_root_id (inner st))) as (Hok' & Hcb' & _ & Hkeep);
    [done..|apply Hok|done|done|apply Hok|]. cbv zeta in Hok', Hcb', Hkeep. rewrite <-Hst' in Hok', Hcb', Hkeep.
  split; [done|]. split; [|split_and!; [done..|by rewrite Hst'|done|]].
  - split; [done|]. rewrite Hcbs. apply Forall_forall. auto.
  - intros i Hp Hi. rewrite Hst'. cbn. destruct (removed_blocks (inner st) ids) as (removed & Hsplit & Hm & _).
    rewrite Hm. assert (i ∉ pruned_block_ids (inner st) ++ ids) as Hn by set_solver. rewrite Hsplit in Hn.
    rewrite decide_False by set_solver. set_solver.
Qed.

(** The last block of a path. *)
Lemma path_last t r i l : tree_path t r i l -> l <> [] -> exists b, last l = Some b /\ BlockTree.get_block t i = Some b.
Proof. intros [|j b l' Hb _]; [done|]. intros _. exists b. by rewrite last_snoc. Qed.

Lemma commit_run st qc :
  store_ok ch st -> cert_ok ch qc ->
  bi_round (QuorumCert.certified_block qc) <= round_of ch (highest_certified_block_id (inner st)) ->
  safe (eq st) (BlockStore.commit qc)
    (fun _ st' => store_ok ch st' /\ ordered_root_id (inner st') = bi_id (QuorumCert.commit_info qc) /\
       descends (content ch) (ordered_root_id (inner st)) (ordered_root_id (inner st')) /\
       highest_certified_block_id (inner st') = highest_certified_block_id (inner st)) st.
Proof.
  intros Hok Hqc Hhigh. pose proof Hok as [Hin Hcb]. pose proof (in_tree_ok _ _ Hin) as Ht.
  set (n := bi_id (QuorumCert.commit_info qc)) in *. unfold BlockStore.commit. fold n.
  apply safe_bind, safe_gets. unfold BlockStore.get_block.
  destruct (BlockTree.get_block (inner st) n) as [b|] eqn:Hb; [|done]. cbn [ok_or].
  destruct (block_round _ _ _ Ht Hb) as (Hbr & Hbid & Hbc & Hbin). destruct (co_commit _ _ Hqc Hbc) as [Hfin Hround]. fold n in Hfin, Hround.
  destruct (roots_present (inner st) Hin) as (o & c & Ho & _ & Hor & _).
  apply safe_bind, safe_gets. unfold BlockStore.ordered_root. rewrite Ho. apply safe_bind, safe_lift.
  unfold ensure. destruct (N.ltb_spec (ExecutedBlock.round o) (ExecutedBlock.round b)) as [Hlt|_]; [|done].
  rewrite Hor, Hbr in Hlt. pose proof (co_order _ _ Hqc) as Hord. pose proof (commit_below_ordered _ Hin) as Hco.
  assert (descends (content ch) (ordered_root_id (inner st)) n) as Hd.
  { apply (ch_agree _ Hch); [apply Hin|by apply (ch_final _ Hch)| |done|lia].
    apply (in_tree_content (inner st)); [done|apply (ok_ordered _ _ Ht)]. }
  apply safe_bind, safe_gets. unfold BlockStore.path_from_ordered_root.
  destruct (path_from_ordered_root_ok (inner st) n Hin) as (path & -> & Hpath).
  destruct path as [l|]; [|by destruct Hpath]. cbn [from_option]. change (@id (list ExecutedBlock) l) with l.
  assert (l <> []) as Hl by (intros ->; inversion Hpath as [Heq|? ? l' _ _ Hl']; [rewrite Heq in Hlt; lia|by destruct l']).
  destruct (path_last _ _ _ _ Hpath Hl) as (b' & Hlast & Hb'). assert (b' = b) as -> by congruence.
  apply safe_bind, safe_lift. rewrite bool_decide_false by done. cbn [negb assert_].
  assert (live (content ch) (inner st) n) as Hlive by (apply certified_live; [done..|by apply (ch_final _ Hch)|lia]).
  apply safe_bind. unfold BlockStore.persist_commit. apply safe_bind.
  unfold expect_ok_m, safe at 1, BlockStore.on_computer, on.
  pose proof (commit_calls l (qc_signed_ledger_info qc) (state_computer st)) as Hcalls.
  destruct (sc_commit l (qc_signed_ledger_info qc) (state_computer st)) as [[called|e|] c']; cbn in Hcalls |- *; [|done..].
  set (st1 := mkBlockStore (inner st) c' (storage st) (back_pressure_limit st) (callbacks st)).
  destruct called as [[committed decision]|].
  - destruct Hcalls as [Hcl Hmatch]. rewrite Hlast in Hcl.
    destruct (commit_callback_run st1 committed qc decision b) as (ids & cert & st' & Hrun & Honce & Hfirst & Hoff & Hcr & Hsto & Hcbs & Hst');
      rewrite ?Hbid; [done..|cbn; lia|done|].
    unfold safe at 1. rewrite Hrun. unfold safe, BlockStore.on_tree, on. rewrite Hbid in *.
    destruct (advance_ok (inner st) n ids cert n) as (Hok' & Hcb' & Hh' & Hkeep); [first [done|lia]..|].
    unfold BlockTree.update_ordered_root, BlockTree.block_exists. rewrite bool_decide_true.
    2: { rewrite Hst'. specialize (Hkeep n descends_refl). cbn in Hkeep |- *. by rewrite Hkeep. }
    rewrite Hst'. cbn. split; [|done]. split; [done|]. cbn. rewrite Hcbs. cbn. eapply Forall_impl; [exact Hcb|done].
  - unfold safe at 1, puts. unfold safe, BlockStore.on_tree, on. cbn [inner BlockStore.set_callbacks]. rewrite Hbid.
    destruct (update_ordered_root_ok _ (inner st) n Ht Hbin Hlive) as [Hup Ht'].
    change (inner st1) with (inner st). rewrite Hup.
    assert (inner_ok ch (BlockTree.set_roots n (commit_root_id (inner st)) (inner st))) as Hin'.
    { destruct Hin. split; cbn; try done. lia. }
    cbn. split; [|done]. split; [done|]. cbn. apply Forall_app. split.
    + eapply Forall_impl; [exact Hcb|]. intros q (? & ? & ? & ? & ?). split_and!; [done..|cbn; lia|done].
    + apply Forall_singleton. split_and!; [done..|cbn; fold n; lia|done].
Qed.

Lemma commit_ok st qc :
  store_ok ch st -> cert_ok ch qc ->
  bi_round (QuorumCert.certified_block qc) <= round_of ch (highest_certified_block_id (inner st)) ->
  safely (BlockStore.commit qc)
    (fun _ st' => store_ok ch st' /\ ordered_root_id (inner st') = bi_id (QuorumCert.commit_info qc) /\
       descends (content ch) (ordered_root_id (inner st)) (ordered_root_id (inner st')) /\
       highest_certified_block_id (inner st') = highest_certified_block_id (inner st)) st.
Proof.
  intros Hok Hqc Hhigh. pose proof (commit_run st qc Hok Hqc Hhigh) as Hrun. unfold safe in *.
  destruct (BlockStore.commit qc st) as [[u|e|] st']; [done|by subst|done].
Qed.

Lemma log_commit_ok st qc :
  store_ok ch st -> cert_ok ch qc ->
  bi_round (QuorumCert.certified_block qc) <= round_of ch (highest_certified_block_id (inner st)) ->
  safely (BlockStore.log_error (BlockStore.commit qc))
    (fun _ st' => store_ok ch st' /\ highest_certified_block_id (inner st') = highest_certified_block_id (inner st)) st.
Proof.
  intros Hok Hqc Hhigh. pose proof (commit_run st qc Hok Hqc Hhigh) as Hrun. unfold safe, BlockStore.log_error in *.
  destruct (BlockStore.commit qc st) as [[u|e|] st']; [|by subst|done].
  destruct Hrun as (? & _ & _ & ?). done.
Qed.

(** *** Building a store *)
Lemma try_commit_certs_ok certs st :
  store_ok ch st ->
  Forall (fun qc => cert_ok ch qc /\
            bi_round (QuorumCert.certified_block qc) <= round_of ch (highest_certified_block_id (inner st))) certs ->
  safely (BlockStore.try_commit_certs certs) (fun _ => store_ok ch) st.
Proof.
  revert st. induction certs as [|qc certs IH]; intros st Hok Hcerts; [done|].
  inversion Hcerts as [|?? [Hqc Hle] Hcerts']; subst. cbn [BlockStore.try_commit_certs].
  destruct (roots_present (inner st) (proj1 Hok)) as (_ & c & _ & Hc & _).
  apply safe_bind, safe_gets. unfold BlockStore.commit_root. rewrite Hc. apply safe_bind.
  destruct (_ <? _); [|by apply IH].
  eapply safe_mono; [by apply log_commit_ok|]. intros ? st1 [Hok1 Hsame]. apply IH; [done|]. by rewrite Hsame.
Qed.

Lemma try_commit_ok st : store_ok ch st -> safely BlockStore.try_commit (fun _ => store_ok ch) st.
Proof.
  intros Hok. unfold safe, BlockStore.try_commit. apply try_commit_certs_ok; [done|].
  rewrite merge_sort_Permutation. apply Forall_forall. intros qc Hqc.
  unfold BlockTree.get_all_quorum_certs_with_commit_info in Hqc. apply list_elem_of_filter in Hqc as [_ Hqc].
  apply list_elem_of_fmap in Hqc as ([i q] & -> & Hq). rewrite map_iter_entries in Hq. apply elem_of_map_to_list in Hq.
  by destruct (in_certs _ _ (proj1 Hok) _ _ Hq) as (_ & _ & ? & ?).
Qed.

(** A root that can be built on. *)
Record root_ok (root : RootInfo) : Prop := {
  ro_block : content ch (b_id (ri_block root)) = Some (b_block_data (ri_block root));
  ro_final : finalized ch (b_id (ri_block root));
  ro_origin : descends (content ch) (origin ch) (b_id (ri_block root));
  ro_cert : cert_ok ch (ri_quorum_cert root);
  ro_certified : bi_id (QuorumCert.certified_block (ri_quorum_cert root)) = b_id (ri_block root);
  ro_commit : bi_round (QuorumCert.commit_info (ri_commit_cert root)) <= round_of ch (b_id (ri_block root));
}.

Lemma root_tree_ok root md tc max t :
  root_ok root -> BlockStore.root_tree root md tc max = Ok t -> inner_ok ch t.
Proof.
  intros [Hb Hf Ho Hc Hci Hcm] Ht. unfold BlockStore.root_tree in Ht.
  apply bind_Ok in Ht as (? & _ & Ht). apply bind_Ok in Ht as (? & _ & Ht).
  pose proof (new_ok _ (ch_rounds _ Hch) _ _ _ _ _ _ _ Ht Hb) as Htree. unfold BlockTree.new in Ht.
  apply bind_Ok in Ht as (? & _ & [= <-]).
  split; cbn; [done..|by apply (ch_final _ Hch)|done|].
  intros i q [<- <-]%lookup_singleton_Some. split; [done|]. unfold ExecutedBlock.id. cbn. rewrite Hci, Hb. split; [done|]. split; [done|].
  rewrite (co_round _ _ Hc), Hci; [done|]. by rewrite Hci, Hb.
Qed.
End store.
