(* ===== verification/Recovery.v ===== *)
(** * Recovery from the consensus database

    What [RecoveryData::new] computes from stored blocks and certificates, what
    [StorageWriteProxy::start] recovers and deletes, and the tree that
    [BlockStore::build] makes of it. *)

From S2P Require Import Prelude Crypto Errors Position Accumulator Verifier Ledger ConsensusTypes Blocks TransactionProofs AccumulatorStore SchemaDb LedgerSchemas LedgerDb TransactionStore EventStore StateStore AptosDb SchemaLemmas LedgerDbLemmas BlockTree ConsensusDb LivenessStorage BlockStore ConsensusDbLemmas BlockTreeLemmas BlockStoreLemmas.

(** ** Blocks that reach a root *)
Section reach.
Context (tree : gset HashValue) (blocks : list Block).
Inductive reach : HashValue -> Prop :=
  | reach_tree i : i ∈ tree -> reach i
  | reach_block b : b ∈ blocks -> reach (Block.parent_id b) -> reach (b_id b).
End reach.

Lemma reach_mono tree tree' blocks blocks' i :
  reach tree blocks i -> (forall j, j ∈ tree -> reach tree' blocks' j) ->
  (forall b, b ∈ blocks -> reach tree' blocks' (Block.parent_id b) -> reach tree' blocks' (b_id b)) ->
  reach tree' blocks' i.
Proof. intros Hr Ht Hb. induction Hr; eauto. Qed.

(** No block comes before its parent. *)
Fixpoint topological (blocks : list Block) : Prop :=
  match blocks with
  | [] => True
  | b :: blocks => (forall b', b' ∈ b :: blocks -> b_id b' <> Block.parent_id b) /\ topological blocks
  end.

Lemma reach_keep tree b blocks i :
  Block.parent_id b ∈ tree -> reach tree (b :: blocks) i <-> reach ({[b_id b]} ∪ tree) blocks i.
Proof.
  intros Hp. split; intros Hr; eapply (reach_mono _ _ _ _ _ Hr).
  - intros j Hj. apply reach_tree. set_solver.
  - intros b' [->|Hb']%elem_of_cons Hb; [apply reach_tree; set_solver|by apply reach_block].
  - intros j [->%elem_of_singleton|Hj]%elem_of_union; [|by apply reach_tree].
    apply reach_block; [left|by apply reach_tree].
  - intros b' Hb' Hb. apply reach_block; [by right|done].
Qed.

Lemma reach_drop tree b blocks i :
  Block.parent_id b ∉ tree -> (forall b', b' ∈ b :: blocks -> b_id b' <> Block.parent_id b) ->
  reach tree (b :: blocks) i <-> reach tree blocks i.
Proof.
  intros Hp Hpar. split; intros Hr.
  - induction Hr as [i Hi|b' Hb' Hr IH]; [by apply reach_tree|].
    apply elem_of_cons in Hb' as [->|Hb']; [|by apply reach_block].
    inversion IH as [? Hi|b'' Hb'' _ He]; [done|]. exfalso. apply (Hpar b''); [by right|done].
  - apply (reach_mono _ _ _ _ _ Hr); [intros; by apply reach_tree|].
    intros b' Hb' Hb. apply reach_block; [by right|done].
Qed.

(** ** The loop of [blocks.retain] *)
Lemma retain_blocks_spec tree blocks tree' kept removed :
  topological blocks -> retain_blocks tree blocks = (tree', kept, removed) ->
  (forall i, i ∈ tree' <-> reach tree blocks i) /\
  (forall b, b ∈ kept -> b ∈ blocks /\ reach tree blocks (Block.parent_id b)) /\
  (forall b, b ∈ blocks -> reach tree blocks (Block.parent_id b) -> b ∈ kept) /\
  (forall i, i ∈ removed <-> exists b, b ∈ blocks /\ b_id b = i /\ ~ reach tree blocks (Block.parent_id b)) /\
  kept `sublist_of` blocks.
Proof.
  revert tree tree' kept removed. induction blocks as [|b blocks IH]; intros tree tree' kept removed Htop Hr.
  - injection Hr as <- <- <-. split_and!.
    + intros i. split; [apply reach_tree|]. intros Hi. inversion Hi; [done|set_solver].
    + set_solver.
    + set_solver.
    + intros i. split; [set_solver|]. intros (b & Hb & _). set_solver.
    + constructor.
  - destruct Htop as [Hpar Htop]. cbn [retain_blocks] in Hr. case_bool_decide as Hp.
    + destruct (retain_blocks _ blocks) as [[t k] rm] eqn:He. injection Hr as <- <- <-.
      destruct (IH _ _ _ _ Htop He) as (Ht & Hk & Hk' & Hrm & Hs). setoid_rewrite (reach_keep tree b blocks); [|done..].
      assert (reach ({[b_id b]} ∪ tree) blocks (Block.parent_id b)) as Hb by (apply reach_tree; set_solver).
      split_and!; [done| | | |by constructor].
      * intros b' [->|Hb']%elem_of_cons; [by split; [left|]|]. destruct (Hk b' Hb'). by split; [right|].
      * intros b' [->|Hb']%elem_of_cons; [left|right; eauto].
      * intros i. rewrite Hrm. split.
        -- intros (b' & ? & ? & ?). exists b'. split_and!; [by right|done..].
        -- intros (b' & [->|?]%elem_of_cons & ? & ?); [done|]. by exists b'.
    + destruct (retain_blocks _ blocks) as [[t k] rm] eqn:He. injection Hr as <- <- <-.
      destruct (IH _ _ _ _ Htop He) as (Ht & Hk & Hk' & Hrm & Hs). setoid_rewrite (reach_drop tree b blocks); [|done..].
      assert (~ reach tree blocks (Block.parent_id b)) as Hb.
      { intros Hi. inversion Hi as [? Hi'|b' Hb' _ Heq]; [done|]. apply (Hpar b'); [by right|done]. }
      split_and!; [done| | | |by constructor].
      * intros b' Hb'. destruct (Hk b' Hb'). by split; [right|].
      * intros b' [->|Hb']%elem_of_cons; [done|eauto].
      * intros i. rewrite elem_of_cons, Hrm. split.
        -- intros [->|(b' & ? & ? & ?)]; [by exists b; split; [left|]|]. exists b'. split_and!; [by right|done..].
        -- intros (b' & [->|?]%elem_of_cons & <- & ?); [by left|right]. by exists b'.
Qed.

(** A block is of a later epoch or round than its parent. *)
Definition block_key_lt (b b' : Block) : Prop :=
  Block.epoch b < Block.epoch b' \/ Block.epoch b = Block.epoch b' /\ Block.round b < Block.round b'.
Definition parents_earlier (blocks : list Block) : Prop :=
  forall b b', b ∈ blocks -> b' ∈ blocks -> b_id b' = Block.parent_id b -> block_key_lt b' b.

Lemma sorted_topological blocks :
  StronglySorted block_key_le blocks -> parents_earlier blocks -> topological blocks.
Proof.
  induction 1 as [|b blocks Hs IH Hle]; intros Hpar; [done|]. split.
  - intros b' Hb' He. assert (block_key_lt b' b) as Hlt by (apply Hpar; [left|done..]).
    apply elem_of_cons in Hb' as [->|Hb']; [unfold block_key_lt in Hlt; lia|].
    rewrite Forall_forall in Hle. specialize (Hle b' Hb'). unfold block_key_lt, block_key_le in *. lia.
  - apply IH. intros x y Hx Hy. apply Hpar; by right.
Qed.

Lemma merge_sort_strong blocks : StronglySorted block_key_le (merge_sort block_key_le blocks).
Proof. apply (StronglySorted_merge_sort block_key_le). Qed.

Lemma sublist_sorted (l k : list Block) :
  l `sublist_of` k -> StronglySorted block_key_le k -> StronglySorted block_key_le l.
Proof.
  induction 1 as [|x l k Hs IH|x l k Hs IH]; intros Hk; [done|..].
  - apply StronglySorted_inv in Hk as [Hk Hx]. constructor; [auto|]. apply Forall_forall. intros y Hy. rewrite Forall_forall in Hx.
    apply Hx. by eapply elem_of_sublist.
  - apply StronglySorted_inv in Hk as [Hk Hx]. auto.
Qed.

(** ** [RecoveryData::new] *)
Section recovery.
Context `{CryptoHash VoteData} `{CryptoHash BlockData}.
Context (lrd : LedgerRecoveryData) (stored_blocks : list Block) (stored_certs : list QuorumCert).
Context (root_id : HashValue) (li : LedgerInfoWithSignatures) (blocks : list Block) (certs : list QuorumCert).
Context (Hroot : ledger_root lrd stored_blocks stored_certs = Ok (root_id, li, blocks, certs)).
Context (Hids : NoDup (b_id <$> blocks)) (Hpar : parents_earlier blocks).
Abbreviation reached := (reach {[root_id]} blocks).
Abbreviation new vote md tc := (RecoveryData_new vote lrd stored_blocks md stored_certs tc).

(** Without the root or its certificates there is nothing to recover. *)
Lemma recovery_fails vote md tc :
  (root_id ∉ b_id <$> blocks) \/
  (forall qc, qc ∈ certs -> bi_id (QuorumCert.certified_block qc) <> root_id) \/
  (forall qc, qc ∈ certs -> bi_id (QuorumCert.commit_info qc) <> root_id) ->
  exists e, new vote md tc = Err e.
Proof.
  intros Hno. unfold RecoveryData_new, find_root. rewrite Hroot. unfold find_block.
  destruct (list_find _ (merge_sort block_key_le blocks)) as [[idx rb]|] eqn:Hf; [|by eexists].
  apply list_find_Some in Hf as (Hl & Hid & _). apply list_elem_of_lookup_2 in Hl.
  rewrite merge_sort_Permutation in Hl. destruct Hno as [Hno|[Hno|Hno]].
  - destruct Hno. apply list_elem_of_fmap. by exists rb.
  - destruct (list_find (fun qc => bi_id (QuorumCert.certified_block qc) = b_id rb) certs) as [[i qc]|] eqn:Hq; [|by eexists].
    apply list_find_Some in Hq as (Hq%list_elem_of_lookup_2 & He & _). destruct (Hno qc Hq). congruence.
  - destruct (list_find (fun qc => bi_id (QuorumCert.certified_block qc) = b_id rb) certs); [|by eexists].
    destruct (list_find (fun qc => bi_id (QuorumCert.commit_info qc) = b_id rb) certs) as [[i qc]|] eqn:Hq; [|by eexists].
    apply list_find_Some in Hq as (Hq%list_elem_of_lookup_2 & He & _). destruct (Hno qc Hq). congruence.
Qed.

Record recovered (vote : option Vote) (md : RootMetadata) (tc : option TwoChainTimeoutCertificate)
    (data : RecoveryData) : Prop := {
  rc_root : ri_block (rd_root data) ∈ blocks /\ b_id (ri_block (rd_root data)) = root_id;
  rc_root_qc : ri_quorum_cert (rd_root data) ∈ certs /\
    bi_id (QuorumCert.certified_block (ri_quorum_cert (rd_root data))) = root_id;
  rc_ordered : ri_ordered_cert (rd_root data) ∈ certs /\
    bi_id (QuorumCert.commit_info (ri_ordered_cert (rd_root data))) = root_id;
  rc_commit : ri_commit_cert (rd_root data) = mkQuorumCert (qc_vote_data (ri_ordered_cert (rd_root data))) li;
  rc_metadata : rd_root_metadata data = md;
  rc_blocks b : b ∈ rd_blocks data <-> b ∈ blocks /\ b_id b <> root_id /\ reached (b_id b);
  rc_sorted : StronglySorted block_key_le (rd_blocks data);
  rc_once : NoDup (b_id <$> rd_blocks data);
  rc_certs qc : qc ∈ rd_quorum_certs data <-> qc ∈ certs /\ reached (bi_id (QuorumCert.certified_block qc));
  rc_dec i : reached i \/ ~ reached i;
  rc_prune : exists ids, rd_blocks_to_prune data = Some ids /\
    forall i, i ∈ ids <-> (exists b, b ∈ blocks /\ b_id b = i) /\ ~ reached i;
  rc_vote v : rd_last_vote data = Some v <-> vote = Some v /\ Vote.epoch v = Block.epoch (ri_block (rd_root data));
  rc_timeout t : rd_highest_2chain_timeout_certificate data = Some t <->
    tc = Some t /\ TwoChainTimeoutCertificate.epoch t = Block.epoch (ri_block (rd_root data));
}.

Lemma same_id b b' : b ∈ blocks -> b' ∈ blocks -> b_id b = b_id b' -> b = b'.
Proof.
  intros [i Hi]%list_elem_of_lookup [j Hj]%list_elem_of_lookup He. assert (i = j) as ->; [|congruence].
  apply (NoDup_lookup _ i j (b_id b) Hids); rewrite list_lookup_fmap.
  - by rewrite Hi.
  - by rewrite Hj, He.
Qed.

(** The blocks without the root. *)
Section rest.
Context (rest : list Block) (rb : Block) (Hrest : blocks ≡ₚ rb :: rest) (Hrb : b_id rb = root_id).

Lemma in_rest b : b ∈ rest <-> b ∈ blocks /\ b_id b <> root_id.
Proof.
  rewrite Hrest, elem_of_cons. split; [|by intros [[->|?] ?]]. intros Hb. split; [by right|]. intros He.
  pose proof Hids as Hnd. rewrite Hrest in Hnd. cbn in Hnd. apply NoDup_cons in Hnd as [Hnd _].
  apply Hnd, list_elem_of_fmap. exists b. split; [congruence|done].
Qed.

Lemma reach_rest i : reach {[root_id]} rest i <-> reached i.
Proof.
  split; intros Hr; apply (reach_mono _ _ _ _ _ Hr); try (intros j Hj; by apply reach_tree).
  - intros b Hb. apply reach_block. by apply in_rest.
  - intros b Hb Hp. destruct (decide (b_id b = root_id)) as [He|He].
    + apply reach_tree. set_solver.
    + apply reach_block; [by apply in_rest|done].
Qed.

Lemma reach_parent b : b ∈ rest -> reached (Block.parent_id b) <-> reached (b_id b).
Proof.
  intros [Hb Hne]%in_rest. split; [by apply reach_block|].
  intros Hr. inversion Hr as [i Hi|b' Hb' Hp He]; [set_solver|]. by rewrite <-(same_id b' b).
Qed.
End rest.

Lemma list_find_in {A} (P : A -> Prop) `{forall x, Decision (P x)} (l : list A) :
  (exists x, x ∈ l /\ P x) -> exists i x, list_find P l = Some (i, x) /\ l !! i = Some x /\ P x.
Proof.
  intros (x & Hx & HP). destruct (list_find P l) as [[i y]|] eqn:Hf.
  - exists i, y. apply list_find_Some in Hf as (? & ? & _). done.
  - apply list_find_None in Hf. rewrite Forall_forall in Hf. by destruct (Hf x Hx).
Qed.

Context (Hrb : root_id ∈ b_id <$> blocks).
Context (Hrqc : exists qc, qc ∈ certs /\ bi_id (QuorumCert.certified_block qc) = root_id).
Context (Hoqc : exists qc, qc ∈ certs /\ bi_id (QuorumCert.commit_info qc) = root_id).
Context (Hmatch : forall qc, qc ∈ certs -> bi_id (QuorumCert.commit_info qc) = root_id ->
   BlockInfo.match_ordered_only (QuorumCert.commit_info qc) (li_commit_info (lis_ledger_info li)) = true).

Lemma find_root_ok : exists rb rqc oqc rest,
  find_root lrd stored_blocks stored_certs =
    (Ok (mkRootInfo rb rqc oqc (mkQuorumCert (qc_vote_data oqc) li)), (rest, certs)) /\
  blocks ≡ₚ rb :: rest /\ b_id rb = root_id /\ StronglySorted block_key_le rest /\
  (rqc ∈ certs /\ bi_id (QuorumCert.certified_block rqc) = root_id) /\
  (oqc ∈ certs /\ bi_id (QuorumCert.commit_info oqc) = root_id).
Proof.
  destruct (list_find_in (fun b => b_id b = root_id) (merge_sort block_key_le blocks)) as (idx & rb & Hf & Hl & Hid).
  { apply list_elem_of_fmap in Hrb as (b & -> & Hb). exists b. by rewrite merge_sort_Permutation. }
  destruct (list_find_in _ certs Hrqc) as (i1 & rqc & Hf1 & Hl1 & Hid1).
  destruct (list_find_in _ certs Hoqc) as (i2 & oqc & Hf2 & Hl2 & Hid2).
  apply list_elem_of_lookup_2 in Hl1, Hl2.
  exists rb, rqc, oqc, (delete idx (merge_sort block_key_le blocks)).
  unfold find_root. rewrite Hroot. unfold find_block. rewrite Hf, Hid, Hf1, Hf2. cbn.
  unfold QuorumCert.create_merged_with_executed_state. rewrite (Hmatch oqc) by done. split_and!; try done.
  - rewrite <-(merge_sort_Permutation block_key_le blocks) at 1. by apply delete_Permutation.
  - eapply sublist_sorted; [apply sublist_delete|apply merge_sort_strong].
Qed.

Lemma recovery_new vote md tc : exists data, new vote md tc = Ok data /\ recovered vote md tc data.
Proof.
  destruct find_root_ok as (rb & rqc & oqc & rest & Hfind & Hrest & Hid & Hsort & Hq & Ho).
  unfold RecoveryData_new. rewrite Hfind. cbn [mbind outcome_bind ri_block]. rewrite Hid. unfold find_blocks_to_prune.
  destruct (retain_blocks {[root_id]} rest) as [[tree' kept] removed] eqn:Hret.
  pose proof (in_rest rest rb Hrest Hid) as Hin.
  assert (topological rest) as Htop.
  { apply sorted_topological; [done|]. intros b b' [Hb _]%Hin [Hb' _]%Hin. by apply Hpar. }
  destruct (retain_blocks_spec _ _ _ _ _ Htop Hret) as (Ht & Hk & Hk' & Hrm & Hsub).
  setoid_rewrite (reach_rest rest rb Hrest Hid) in Ht. setoid_rewrite (reach_rest rest rb Hrest Hid) in Hk.
  setoid_rewrite (reach_rest rest rb Hrest Hid) in Hk'. setoid_rewrite (reach_rest rest rb Hrest Hid) in Hrm.
  pose proof (reach_parent rest rb Hrest Hid) as Hp. eexists. split; [reflexivity|]. split; cbn; try done.
  - split; [rewrite Hrest; left|done].
  - intros b. split.
    + intros [Hb Hr]%Hk. apply Hp in Hr; [|done]. by apply Hin in Hb as [? ?].
    + intros (Hb & Hne & Hr). apply Hk'; [by apply Hin|]. by apply Hp; [apply Hin|].
  - by eapply sublist_sorted.
  - eapply sublist_NoDup; [|by apply fmap_sublist]. pose proof Hids as Hnd. rewrite Hrest in Hnd. by inversion Hnd.
  - intros qc. rewrite list_elem_of_filter, Ht. tauto.
  - intros i. rewrite <-Ht. destruct (decide (i ∈ tree')); auto.
  - exists removed. split; [done|]. intros i. rewrite Hrm. split.
    + intros (b & Hb & <- & Hr). split; [exists b; by apply Hin in Hb as [? _]|]. by rewrite <-(Hp b).
    + intros [(b & Hb & <-) Hr]. assert (b ∈ rest) as Hb'.
      { apply Hin. split; [done|]. intros He. apply Hr, reach_tree. set_solver. }
      exists b. split_and!; [done..|]. by rewrite (Hp b).
  - intros v. destruct vote as [v'|]; cbn; [|naive_solver].
    destruct (N.eqb_spec (Vote.epoch v') (Block.epoch rb)); naive_solver.
  - intros t. destruct tc as [t'|]; cbn; [|naive_solver].
    destruct (N.eqb_spec (TwoChainTimeoutCertificate.epoch t') (Block.epoch rb)); naive_solver.
Qed.
End recovery.

(** ** [StorageWriteProxy::start] *)

(** Rows are under their ids. *)
Record state_wf (cs : ConsensusState) : Prop := {
  wf_blocks i b : cs_blocks cs !! i = Some b -> b_id b = i /\ i < 2 ^ 256;
  wf_certs i qc : cs_certs cs !! i = Some qc -> bi_id (QuorumCert.certified_block qc) = i /\ i < 2 ^ 256;
}.

Definition taken (data : RecoveryData) : RecoveryData :=
  mkRecoveryData (rd_last_vote data) (rd_root data) (rd_root_metadata data) (rd_blocks data)
    (rd_quorum_certs data) None (rd_highest_2chain_timeout_certificate data).

(** What a restart leaves in the database. *)
Definition cleaned (data : RecoveryData) (cs : ConsensusState) : ConsensusState :=
  let cs := cs_prune (default [] (rd_blocks_to_prune data)) cs in
  let cs := match rd_last_vote data with None => cs_set_vote None cs | Some _ => cs end in
  match rd_highest_2chain_timeout_certificate data with None => cs_set_timeout None cs | Some _ => cs end.

Section start.
Context `{ConsensusBcs} `{!ConsensusBcsLaws} `{LedgerBcs} `{RocksDbLaws C CIt} `{RocksDb D It} `{MerkleHasher} `{HashOrderLaws}.
Context `{CryptoHash VoteData} `{CryptoHash BlockData}.
Abbreviation proxy := (StorageWriteProxy C D).
Implicit Types (p : StorageWriteProxy C D).

Definition stored_blocks (cs : ConsensusState) : list Block := (map_iter (cs_blocks cs)).*2.
Definition stored_certs (cs : ConsensusState) : list QuorumCert := (map_iter (cs_certs cs)).*2.

Lemma elem_of_map_iter {V} (m : gmap HashValue V) v : v ∈ (map_iter m).*2 <-> exists i, m !! i = Some v.
Proof.
  rewrite map_iter_entries, list_elem_of_fmap. split.
  - intros ([i x] & -> & Hi%elem_of_map_to_list). by exists i.
  - intros [i Hi]. exists (i, v). split; [done|]. by apply elem_of_map_to_list.
Qed.

Lemma get_data_total `{!RocksDbReliable C CIt} fuel (db : C) cs :
  consensus_holds db cs -> (forall cf, cf_handle db cf = true) ->
  (size (cs_blocks cs) <= fuel)%nat -> (size (cs_certs cs) <= fuel)%nat ->
  exists vote tc, ConsensusDB.get_data fuel db = Ok (vote, tc, stored_blocks cs, stored_certs cs) /\
    entry_is (cs_vote cs) vote /\ entry_is (cs_timeout cs) tc.
Proof.
  intros [Hb Hq (m & Hm & Hv & Ht)] Hcf Hfb Hfq. exists (m !! LastVote), (m !! Highest2ChainTimeoutCert).
  split_and!; [|done..]. unfold ConsensusDB.get_data.
  destruct (entry_key_row LastVote) as [b1 Hb1], (entry_key_row Highest2ChainTimeoutCert) as [b2 Hb2].
  rewrite (db_get_total SingleEntrySchema db m LastVote b1) by done.
  rewrite (db_get_total SingleEntrySchema db m Highest2ChainTimeoutCert b2) by done.
  unfold ConsensusDB.get_blocks, ConsensusDB.get_quorum_certificates. cbn [mbind outcome_bind].
  rewrite (get_rows_total BlockSchema (hash_ordered BlockSchema eq_refl eq_refl) fuel db (cs_blocks cs)) by done.
  rewrite (get_rows_total QCSchema (hash_ordered QCSchema eq_refl eq_refl) fuel db (cs_certs cs)) by done. done.
Qed.

Lemma get_data_Ok fuel (db : C) cs vote tc bs qs :
  consensus_holds db cs -> ConsensusDB.get_data fuel db = Ok (vote, tc, bs, qs) ->
  entry_is (cs_vote cs) vote /\ entry_is (cs_timeout cs) tc /\ bs = stored_blocks cs /\ qs = stored_certs cs.
Proof.
  intros [Hb Hq (m & Hm & Hv & Ht)] Hg. unfold ConsensusDB.get_data in Hg.
  destruct (entry_key_row LastVote) as [b1 Hb1], (entry_key_row Highest2ChainTimeoutCert) as [b2 Hb2].
  apply bind_Ok in Hg as (v & Hv' & Hg). apply bind_Ok in Hg as (t & Ht' & Hg).
  apply bind_Ok in Hg as (mb & Hmb & Hg). apply bind_Ok in Hg as (mq & Hmq & [= <- <- <- <-]).
  apply (db_get_Ok SingleEntrySchema db m LastVote b1) in Hv' as ->; [|done..].
  apply (db_get_Ok SingleEntrySchema db m Highest2ChainTimeoutCert b2) in Ht' as ->; [|done..].
  apply (get_rows_Ok BlockSchema (hash_ordered BlockSchema eq_refl eq_refl) _ _ (cs_blocks cs)) in Hmb as ->; [|done].
  apply (get_rows_Ok QCSchema (hash_ordered QCSchema eq_refl eq_refl) _ _ (cs_certs cs)) in Hmq as ->; [|done]. done.
Qed.

Lemma decode_entry_is {A} `{Bcs A} (o : option A) (b : option bytes) :
  entry_is o b -> StorageWriteProxy.decode_entry b = Ok o.
Proof. destruct o, b; cbn; try done. by intros ->. Qed.

Lemma start_full fuel p data lrd prune :
  StorageWriteProxy.recovery_data fuel p = Ok (lrd, Ok data) -> rd_blocks_to_prune data = Some prune ->
  StorageWriteProxy.start fuel p =
    (_ ← expect_ok_m (run_write (PruneTree prune));
     _ ← match rd_last_vote data with None => expect_ok_m (run_write DeleteVote) | Some _ => mret tt end;
     _ ← match rd_highest_2chain_timeout_certificate data with
         | None => expect_ok_m (run_write DeleteTimeout) | Some _ => mret tt end;
     mret (FullRecoveryData (taken data))) p.
Proof.
  intros Hr Hp. unfold StorageWriteProxy.start, gets, mbind, method_bind. rewrite Hr.
  unfold StorageWriteProxy.take_blocks_to_prune, lift. rewrite Hp. done.
Qed.

Lemma ledger_root_blocks lrd sb sc root_id li blocks certs b :
  ledger_root lrd sb sc = Ok (root_id, li, blocks, certs) -> b ∈ blocks -> b ∈ sb \/ b_id b = root_id.
Proof.
  unfold ledger_root. destruct (LedgerInfo.ends_epoch _).
  - intros (g & _ & Hg)%bind_Ok. apply bind_Ok in Hg as (q & _ & [= <- <- <- <-]).
    rewrite elem_of_app, list_elem_of_singleton. intros [Hb| ->]; auto.
  - intros [= <- <- <- <-]. auto.
Qed.

Lemma ledger_root_stored lrd sb sc root_id li blocks certs b :
  ledger_root lrd sb sc = Ok (root_id, li, blocks, certs) -> b ∈ sb -> b ∈ blocks.
Proof.
  unfold ledger_root. destruct (LedgerInfo.ends_epoch _).
  - intros (g & _ & Hg)%bind_Ok. apply bind_Ok in Hg as (q & _ & [= <- <- <- <-]). rewrite elem_of_app. by left.
  - by intros [= <- <- <- <-].
Qed.

Definition root_metadata (info : StartupInfo) : RootMetadata :=
  let acc := et_transaction_accumulator (su_committed_trees info) in
  mkRootMetadata (num_leaves acc) (ExecutedTrees.state_id (su_committed_trees info)) (frozen_subtree_roots acc).

Lemma clean_step `{!RocksDbReliable C CIt} {A} (o : option A) w p cs :
  consensus_holds (swp_db p) cs -> (forall cf, cf_handle (swp_db p) cf = true) -> write_width w -> write_encodable w ->
  exists p', match o with None => @expect_ok_m _ _ AnyError _ (run_write w) | Some _ => mret tt end p = (Ok tt, p') /\
    consensus_holds (swp_db p') (match o with None => abs_write w cs | Some _ => cs end) /\
    (forall cf, cf_handle (swp_db p') cf = true) /\ swp_aptos_db p' = swp_aptos_db p.
Proof.
  intros Hp Hcf Hw He. destruct o; [by exists p|].
  destruct (write_done w p cs Hp Hcf Hw He) as (p' & Hr & ? & ? & ?). exists p'.
  unfold expect_ok_m. by rewrite Hr.
Qed.

Lemma foldl_delete {V} (ids : list HashValue) (m : gmap HashValue V) i v :
  foldl (fun m i => delete i m) m ids !! i = Some v <-> m !! i = Some v /\ (i ∉ ids).
Proof.
  revert m. induction ids as [|j ids IH]; intros m; cbn [foldl]; [set_solver|].
  rewrite IH, lookup_delete_Some, not_elem_of_cons. naive_solver.
Qed.

(** Of the stored blocks exactly the reached ones stay. *)
Lemma cleaned_blocks lrd cs root_id li blocks certs vote md tc data :
  ledger_root lrd (stored_blocks cs) (stored_certs cs) = Ok (root_id, li, blocks, certs) -> state_wf cs ->
  recovered root_id li blocks certs vote md tc data ->
  forall i b, cs_blocks (cleaned data cs) !! i = Some b <-> cs_blocks cs !! i = Some b /\ reach {[root_id]} blocks i.
Proof.
  intros Hroot Hwf Hrec i b. destruct (rc_prune _ _ _ _ _ _ _ _ Hrec) as (ids & Hids & Hin).
  assert (cs_blocks (cleaned data cs) = foldl (fun m i => delete i m) (cs_blocks cs) ids) as ->.
  { unfold cleaned. rewrite Hids. by destruct (rd_last_vote data), (rd_highest_2chain_timeout_certificate data). }
  assert (b ∈ stored_blocks cs <-> exists j, cs_blocks cs !! j = Some b) as Hst by apply elem_of_map_iter.
  rewrite foldl_delete, Hin. split.
  - intros [Hb Hn]. split; [done|]. destruct (rc_dec _ _ _ _ _ _ _ _ Hrec i) as [|Hr]; [done|]. destruct Hn. split; [|done].
    exists b. split; [|by apply (wf_blocks _ Hwf)]. eapply ledger_root_stored; [done|]. apply Hst. by exists i.
  - intros [Hb Hr]. split; [done|]. by intros [_ ?].
Qed.

Section recovered.
Context `{!RocksDbReliable C CIt} (fuel : nat) (p : proxy) (cs : ConsensusState) (info : StartupInfo).
Context (Hdb : consensus_holds (swp_db p) cs) (Hcf : forall cf, cf_handle (swp_db p) cf = true) (Hwf : state_wf cs).
Context (Hfb : (size (cs_blocks cs) <= fuel)%nat) (Hfq : (size (cs_certs cs) <= fuel)%nat).
Context (Hinfo : StorageWriteProxy.startup_info p = Ok info).
Context (root_id : HashValue) (li : LedgerInfoWithSignatures) (blocks : list Block) (certs : list QuorumCert).
Abbreviation lrd := (mkLedgerRecoveryData (su_latest_ledger_info info)).
Context (Hroot : ledger_root lrd (stored_blocks cs) (stored_certs cs) = Ok (root_id, li, blocks, certs)).

Lemma recovery_data_is :
  StorageWriteProxy.recovery_data fuel p =
    Ok (lrd, RecoveryData_new (cs_vote cs) lrd (stored_blocks cs) (root_metadata info) (stored_certs cs) (cs_timeout cs)).
Proof.
  destruct (get_data_total fuel (swp_db p) cs Hdb Hcf Hfb Hfq) as (v & t & Hd & Hv & Ht).
  unfold StorageWriteProxy.recovery_data. rewrite Hd. cbn [expect_ok mbind outcome_bind].
  rewrite (decode_entry_is _ _ Hv), (decode_entry_is _ _ Ht). cbn [mbind outcome_bind]. by rewrite Hinfo.
Qed.

Lemma start_partial :
  (root_id ∉ b_id <$> blocks) \/
  (forall qc, qc ∈ certs -> bi_id (QuorumCert.certified_block qc) <> root_id) \/
  (forall qc, qc ∈ certs -> bi_id (QuorumCert.commit_info qc) <> root_id) ->
  StorageWriteProxy.start fuel p = (Ok (PartialRecoveryData lrd), p).
Proof.
  intros Hno. destruct (recovery_fails _ _ _ _ _ _ _ Hroot (cs_vote cs) (root_metadata info) (cs_timeout cs) Hno) as [e He].
  unfold StorageWriteProxy.start, gets, mbind, method_bind. rewrite recovery_data_is, He. done.
Qed.

Context (Hids : NoDup (b_id <$> blocks)) (Hpar : parents_earlier blocks).
Context (Hrb : root_id ∈ b_id <$> blocks).
Context (Hrqc : exists qc, qc ∈ certs /\ bi_id (QuorumCert.certified_block qc) = root_id).
Context (Hoqc : exists qc, qc ∈ certs /\ bi_id (QuorumCert.commit_info qc) = root_id).
Context (Hmatch : forall qc, qc ∈ certs -> bi_id (QuorumCert.commit_info qc) = root_id ->
   BlockInfo.match_ordered_only (QuorumCert.commit_info qc) (li_commit_info (lis_ledger_info li)) = true).

Lemma start_recovers : exists data p',
  StorageWriteProxy.start fuel p = (Ok (FullRecoveryData (taken data)), p') /\
  recovered root_id li blocks certs (cs_vote cs) (root_metadata info) (cs_timeout cs) data /\
  consensus_holds (swp_db p') (cleaned data cs) /\ (forall cf, cf_handle (swp_db p') cf = true) /\
  swp_aptos_db p' = swp_aptos_db p.
Proof.
  destruct (recovery_new _ _ _ _ _ _ _ Hroot Hids Hpar Hrb Hrqc Hoqc Hmatch (cs_vote cs) (root_metadata info) (cs_timeout cs))
    as (data & Hnew & Hrec).
  destruct (rc_prune _ _ _ _ _ _ _ _ Hrec) as (ids & Hprune & Hids').
  pose proof recovery_data_is as Hr. rewrite Hnew in Hr. rewrite (start_full _ _ _ _ _ Hr Hprune).
  destruct (write_done (PruneTree ids) p cs Hdb Hcf) as (p1 & Hp1 & Hdb1 & Hcf1 & Ha1).
  { apply Forall_forall. intros i [(b & Hb & <-) Hnr]%Hids'.
    destruct (ledger_root_blocks _ _ _ _ _ _ _ _ Hroot Hb) as [(j & Hj)%elem_of_map_iter|He].
    - destruct (wf_blocks _ Hwf _ _ Hj) as [<- ?]. done.
    - destruct Hnr. apply reach_tree. set_solver. }
  { done. }
  destruct (clean_step (rd_last_vote data) DeleteVote p1 _ Hdb1 Hcf1 I I) as (p2 & Hp2 & Hdb2 & Hcf2 & Ha2).
  destruct (clean_step (rd_highest_2chain_timeout_certificate data) DeleteTimeout p2 _ Hdb2 Hcf2 I I)
    as (p3 & Hp3 & Hdb3 & Hcf3 & Ha3).
  exists data, p3. split_and!; [|done| |done|congruence].
  - unfold mbind, method_bind, expect_ok_m at 1. rewrite Hp1. cbn [expect_ok]. by rewrite Hp2, Hp3.
  - unfold cleaned. by rewrite Hprune.
Qed.
End recovered.
End start.

(** ** The block store after a restart

    [BlockStore::build] on recovered data: with a state computer that executes and a
    storage that saves, it succeeds, and the tree has exactly the root and the recovered
    blocks. *)
(** Execution does not fail. *)
Class StateComputerReliable (C : Type) `{StateComputer C} : Prop :=
  compute_reliable block parent c : exists r c', sc_compute block parent c = (Ok r, c').

(** A certificate that agrees with the block it certifies. *)
Definition certifies (qc : QuorumCert) (b : Block) : Prop :=
  bi_id (QuorumCert.certified_block qc) = b_id b /\ bi_epoch (QuorumCert.certified_block qc) = Block.epoch b /\
  bi_round (QuorumCert.certified_block qc) = Block.round b /\
  bi_timestamp_usecs (QuorumCert.certified_block qc) = Block.timestamp_usecs b.

Lemma certifies_match qc (e : ExecutedBlock) :
  certifies qc (eb_block e) -> BlockInfo.match_ordered_only (ExecutedBlock.block_info e) (QuorumCert.certified_block qc) = true.
Proof.
  intros (Hi & He & Hr & Ht). unfold BlockInfo.match_ordered_only, ExecutedBlock.block_info, Block.gen_block_info.
  cbn. rewrite Hi, He, Hr, Ht, !N.eqb_refl. done.
Qed.

Section build.
Context `{HashOrderLaws} `{StateComputerReliable C} `{PersistentLivenessStorage L}.
Context (content : HashValue -> option BlockData) (Hup : rounds_increase content).
(** What the storage can save, as long as it is in good state. *)
Context (good : L -> Prop) (savable : list Block -> list QuorumCert -> Prop).
Context (Hsave : forall bs qs l, savable bs qs -> good l -> exists l', save_tree bs qs l = (Ok tt, l') /\ good l').
Context (rootb : Block) (Hrootc : content (b_id rootb) = Some (b_block_data rootb)).
Abbreviation root_id := (b_id rootb).
Implicit Types (st : BlockStore C L) (present : list Block).

Record building present st : Prop := {
  bu_tree : tree_ok content (inner st);
  bu_commit : commit_root_id (inner st) = root_id;
  bu_ordered : ordered_root_id (inner st) = root_id;
  bu_live i : in_tree (inner st) i -> descends content root_id i;
  bu_blocks i : (exists e, BlockStore.get_block i st = Some e) <-> exists b, b ∈ rootb :: present /\ b_id b = i;
  bu_exact i e : BlockStore.get_block i st = Some e -> eb_block e ∈ rootb :: present;
  bu_good : good (storage st);
}.

Lemma building_root present st :
  building present st -> exists e, BlockStore.ordered_root st = Ok e /\ ExecutedBlock.round e = bd_round (b_block_data rootb).
Proof.
  intros Hb. destruct (in_tree_block _ _ (bu_tree _ _ Hb) root_id) as (e & He & _ & Hc).
  { rewrite <-(bu_commit _ _ Hb). apply (ok_root _ _ (bu_tree _ _ Hb)). }
  exists e. unfold BlockStore.ordered_root, BlockTree.ordered_root. rewrite (bu_ordered _ _ Hb), He. split; [done|].
  unfold ExecutedBlock.round, Block.round. congruence.
Qed.

Lemma execute_reliable b st : exists r c',
  BlockStore.execute_with_ancestors b st =
    (Ok (mkExecutedBlock b r), mkBlockStore (inner st) c' (storage st) (back_pressure_limit st) (callbacks st)).
Proof.
  destruct (compute_reliable b (Block.parent_id b) (state_computer st)) as (r & c' & Hc). exists r, c'.
  unfold BlockStore.execute_with_ancestors, BlockStore.execute_block, BlockStore.on_computer, on, mbind, method_bind.
  by rewrite Hc.
Qed.

(** A block whose parent is there and which is not. *)
Record insertable present b : Prop := {
  is_content : content (b_id b) = Some (b_block_data b);
  is_savable : savable [b] [];
  is_linked : exists b', b' ∈ rootb :: present /\ b_id b' = Block.parent_id b;
  is_fresh b' : b' ∈ rootb :: present -> b_id b' <> b_id b;
}.

Lemma insertable_facts present st b :
  building present st -> insertable present b ->
  BlockStore.get_block (b_id b) st = None /\ BlockTree.block_exists (inner st) (Block.parent_id b) = true /\
  descends content root_id (b_id b) /\ bd_round (b_block_data rootb) < Block.round b.
Proof.
  intros Hbu [Hc Hsv Hpar Hfresh]. pose proof (bu_tree _ _ Hbu) as Hok.
  destruct (proj2 (bu_blocks _ _ Hbu (Block.parent_id b)) Hpar) as [pe Hpe].
  destruct (get_block_content _ _ Hok _ _ Hpe) as ([lp Hlp] & _ & _).
  assert (descends content root_id (b_id b)) as Hdesc.
  { apply (descends_step _ _ _ _ Hc), (bu_live _ _ Hbu). by exists lp. }
  split_and!; [|unfold BlockTree.block_exists; by rewrite Hlp|done|].
  - apply eq_None_not_Some. intros [e He].
    destruct (proj1 (bu_blocks _ _ Hbu (b_id b))) as (b' & Hb' & Heq); [by eexists|]. by apply (Hfresh b').
  - destruct (descends_round _ _ _ _ _ Hup Hdesc Hrootc Hc) as [Heq|]; [|done].
    destruct (Hfresh rootb); [left|done].
Qed.

Lemma insert_executed present st e :
  building present st -> insertable present (eb_block e) ->
  exists t', BlockTree.insert_block e (inner st) = (Ok e, t') /\ building (eb_block e :: present) (BlockStore.set_inner t' st).
Proof.
  intros Hbu Hin. destruct (insertable_facts _ _ _ Hbu Hin) as (Hnone & Hp & Hdesc & _).
  destruct (BlockTree.insert_block e (inner st)) as [r t'] eqn:Hins.
  destruct (insert_block_ok _ Hup _ _ _ _ (bu_tree _ _ Hbu) (is_content _ _ Hin) Hins) as [Hok' Hspec].
  destruct (insert_block_fields _ _ _ _ Hins) as [m ->]. unfold BlockStore.get_block in Hnone.
  unfold ExecutedBlock.id in Hspec. change (ExecutedBlock.parent_id e) with (Block.parent_id (eb_block e)) in Hspec.
  rewrite Hnone, Hp in Hspec. destruct Hspec as [-> Hget].
  eexists. split; [done|]. assert (forall i x, BlockStore.get_block i (BlockStore.set_inner (BlockTree.set_blocks m (inner st)) st) = Some x <->
    i = b_id (eb_block e) /\ x = e \/ i <> b_id (eb_block e) /\ BlockStore.get_block i st = Some x) as Hget'.
  { intros i x. unfold BlockStore.get_block. cbn [inner BlockStore.set_inner]. rewrite Hget. case_decide; naive_solver. }
  destruct Hbu as [Hok Hcr Hor Hlive Hblocks Hexact Hgood]. split; try done.
  - intros i Hi. destruct (in_tree_block _ _ Hok' _ Hi) as (x & Hx & _). apply Hget' in Hx as [[-> _]|[_ Hx]]; [done|].
    apply Hlive. by apply (get_block_content _ _ Hok) in Hx as (? & _ & _).
  - intros i. setoid_rewrite Hget'. setoid_rewrite elem_of_cons. setoid_rewrite elem_of_cons. specialize (Hblocks i).
    setoid_rewrite elem_of_cons in Hblocks. destruct (decide (i = b_id (eb_block e))) as [->|Hne]; split.
    + intros _. exists (eb_block e). auto.
    + intros _. exists e. auto.
    + intros (x & [[? _]|[_ Hx]]); [done|]. destruct (proj1 Hblocks) as (b & ? & ?); [by eexists|]. exists b. tauto.
    + intros (b & Hb & <-). destruct (proj2 Hblocks) as [x Hx]; [|by exists x; right]. exists b. split; [|done].
      destruct Hb as [?|[->|?]]; [by left|done|by right].
  - intros i x [[_ ->]|[_ Hx]]%Hget'; [right; left|]. apply Hexact in Hx. rewrite !elem_of_cons in *. tauto.
Qed.

Lemma insert_one present st b :
  building present st -> insertable present b ->
  exists e st', BlockStore.execute_and_insert_block b st = (Ok e, st') /\ building (b :: present) st'.
Proof.
  intros Hbu Hin. destruct (insertable_facts _ _ _ Hbu Hin) as (Hnone & _ & _ & Hround).
  unfold BlockStore.execute_and_insert_block. rewrite Hnone.
  destruct (building_root _ _ Hbu) as (re & Hre & Hrr). unfold mbind at 1, method_bind at 1, gets at 1. rewrite Hre.
  unfold mbind at 1, method_bind at 1, lift at 1. rewrite (proj2 (N.ltb_lt _ _)) by (rewrite Hrr; done). cbn [ensure].
  destruct (execute_reliable b st) as (r & c' & Hex). unfold mbind at 1, method_bind at 1. rewrite Hex.
  destruct (Hsave [b] [] (storage st) (is_savable _ _ Hin) (bu_good _ _ Hbu)) as (l' & Hl & Hgood').
  unfold mbind, method_bind, BlockStore.with_context_m, BlockStore.on_storage, on. cbn [storage eb_block].
  rewrite Hl. cbn [with_context map_err].
  set (st1 := mkBlockStore (inner st) c' l' (back_pressure_limit st) (callbacks st)).
  assert (building present st1) as Hbu1 by (destruct Hbu; by split).
  destruct (insert_executed present st1 (mkExecutedBlock b r) Hbu1 Hin) as (t' & Ht & Hb').
  unfold BlockStore.on_tree, on. cbn [inner state_computer storage back_pressure_limit callbacks].
  change (inner st) with (inner st1). rewrite Ht. by eexists _, _.
Qed.

Lemma building_ext present present' st :
  (forall b, b ∈ present' <-> b ∈ present) -> building present st -> building present' st.
Proof.
  intros He [Hok Hcr Hor Hlive Hblocks Hexact Hgood]. split; try done.
  - intros i. rewrite Hblocks. setoid_rewrite elem_of_cons. setoid_rewrite He. done.
  - intros i e Hi. apply Hexact in Hi. rewrite elem_of_cons in *. by rewrite He.
Qed.

Fixpoint linked present (blocks : list Block) : Prop :=
  match blocks with
  | [] => True
  | b :: blocks => insertable present b /\ linked (b :: present) blocks
  end.

Lemma insert_linked blocks present st :
  building present st -> linked present blocks ->
  exists st', BlockStore.insert_blocks blocks st = (Ok tt, st') /\ building (blocks ++ present) st'.
Proof.
  revert present st. induction blocks as [|b blocks IH]; intros present st Hbu Hl; [by eexists|].
  destruct Hl as [Hb Hl]. destruct (insert_one present st b Hbu Hb) as (e & st1 & Hins & Hbu1).
  destruct (IH _ _ Hbu1 Hl) as (st2 & Hrest & Hbu2). exists st2. split.
  - cbn [BlockStore.insert_blocks]. unfold mbind, method_bind, expect_ok_m. rewrite Hins. apply Hrest.
  - eapply building_ext; [|exact Hbu2]. intros x. cbn. rewrite elem_of_cons, !elem_of_app, elem_of_cons. tauto.
Qed.

(** A certificate for a block that is there. *)
Record recordable present qc : Prop := {
  rq_savable : savable [] [qc];
  rq_block : exists b, b ∈ rootb :: present /\ b_id b = bi_id (QuorumCert.certified_block qc);
  rq_certifies b : b ∈ rootb :: present -> b_id b = bi_id (QuorumCert.certified_block qc) -> certifies qc b;
}.

Lemma insert_cert present st qc :
  building present st -> recordable present qc ->
  exists st', BlockStore.insert_single_quorum_cert qc st = (Ok tt, st') /\ building present st'.
Proof.
  intros Hbu [Hsv Hb Hcert]. destruct (proj2 (bu_blocks _ _ Hbu _) Hb) as [e He].
  destruct (get_block_content _ _ (bu_tree _ _ Hbu) _ _ He) as (Hin & Hid & _).
  unfold BlockStore.insert_single_quorum_cert. unfold mbind at 1, method_bind at 1, gets at 1. rewrite He. cbn [ok_or].
  unfold mbind at 1, method_bind at 1, lift at 1.
  rewrite certifies_match by (apply Hcert; [by apply (bu_exact _ _ Hbu _ _ He)|done]). cbn [ensure].
  destruct (Hsave [] [qc] (storage st) Hsv (bu_good _ _ Hbu)) as (l' & Hl & Hgood').
  unfold mbind, method_bind, BlockStore.with_context_m, BlockStore.on_storage, on. rewrite Hl. cbn [with_context map_err].
  unfold BlockStore.on_tree, on. cbn [inner].
  destruct (BlockTree.insert_quorum_cert qc (inner st)) as [r t'] eqn:Hins.
  destruct (insert_quorum_cert_ok content (inner st) qc r t' (bu_tree _ _ Hbu)) as (Hok' & Hsame & Hcr & Hor & _ & _ & Hr); [|done|].
  { intros _ _ _ _ _. rewrite (bu_commit _ _ Hbu). by apply (bu_live _ _ Hbu). }
  unfold BlockStore.get_block in He. rewrite He in Hr. destruct Hr as [-> _]. eexists. split; [done|].
  assert (forall i, BlockTree.get_block t' i = BlockTree.get_block (inner st) i) as Hget.
  { intros i. unfold BlockTree.get_block, BlockTree.get_linkable_block. by rewrite Hsame. }
  destruct Hbu as [Hok Hcr' Hor' Hlive Hblocks Hexact Hgood]. split; cbn.
  - done.
  - congruence.
  - congruence.
  - intros i. rewrite Hsame. apply Hlive.
  - intros i. unfold BlockStore.get_block in *. cbn. rewrite Hget. apply Hblocks.
  - intros i x. unfold BlockStore.get_block in *. cbn. rewrite Hget. apply Hexact.
  - done.
Qed.

Lemma insert_certs certs present st :
  building present st -> Forall (recordable present) certs ->
  exists st', BlockStore.insert_quorum_certs certs st = (Ok tt, st') /\ building present st'.
Proof.
  intros Hbu Hl. revert st Hbu. induction Hl as [|qc certs Hqc _ IH]; intros st Hbu; [by eexists|].
  destruct (insert_cert present st qc Hbu Hqc) as (st1 & Hins & Hbu1). destruct (IH _ Hbu1) as (st2 & Hrest & Hbu2).
  exists st2. split; [|done]. cbn [BlockStore.insert_quorum_certs]. unfold mbind, method_bind, expect_ok_m.
  rewrite Hins. apply Hrest.
Qed.

Lemma build_exact root md blocks certs tc max limit (env : C * L) t :
  ri_block root = rootb -> BlockStore.root_tree root md tc max = Ok t ->
  linked [] blocks -> Forall (recordable blocks) certs -> good env.2 ->
  exists st env', BlockStore.build root md blocks certs tc max limit env = (Ok st, env') /\ building blocks st.
Proof.
  intros Hroot Ht Hl Hc Hgood. unfold BlockStore.build. rewrite Ht.
  assert (building [] (mkBlockStore t env.1 env.2 limit [])) as Hbu0.
  { unfold BlockStore.root_tree in Ht. apply bind_Ok in Ht as (? & _ & Ht). apply bind_Ok in Ht as (? & _ & Ht).
    pose proof Ht as Hnew. apply (new_ok content Hup) in Ht; [|unfold ExecutedBlock.id; cbn; rewrite Hroot; exact Hrootc].
    unfold BlockTree.new in Hnew. apply bind_Ok in Hnew as (? & _ & [= <-]). cbn in *. rewrite Hroot in *.
    unfold ExecutedBlock.id in *. cbn in *. split; cbn; try done.
    - intros i [lb [<- _]%lookup_singleton_Some]. apply descends_refl.
    - intros i. unfold BlockStore.get_block, BlockTree.get_block, BlockTree.get_linkable_block. cbn. split.
      + intros (e & (lb & [<- _]%lookup_singleton_Some & _)%fmap_Some). exists rootb. split; [left|done].
      + intros (b & ->%list_elem_of_singleton & <-). eexists. by rewrite lookup_singleton_eq.
    - intros i e. unfold BlockStore.get_block, BlockTree.get_block, BlockTree.get_linkable_block. cbn.
      intros (lb & [<- <-]%lookup_singleton_Some & ->)%fmap_Some. left. }
  destruct (insert_linked blocks [] _ Hbu0 Hl) as (st1 & Hins1 & Hbu1). rewrite app_nil_r in Hbu1.
  destruct (insert_certs certs blocks st1 Hbu1 Hc) as (st2 & Hins2 & Hbu2).
  unfold mbind at 1, method_bind at 1. rewrite Hins1, Hins2. cbn [mbind outcome_bind].
  destruct (building_root _ _ Hbu2) as (e & -> & _). by eexists _, _.
Qed.
End build.

(** ** Recovered data can be built *)

(** Parents are of the same epoch and of an earlier round. *)
Definition well_linked (blocks : list Block) : Prop :=
  forall b b', b ∈ blocks -> b' ∈ blocks -> b_id b' = Block.parent_id b ->
    Block.epoch b' = Block.epoch b /\ Block.round b' < Block.round b.

Lemma well_linked_earlier blocks : well_linked blocks -> parents_earlier blocks.
Proof. intros Hl b b' Hb Hb' He. destruct (Hl b b' Hb Hb' He). right. lia. Qed.

(** The data of the blocks by their ids. *)
Definition content_of (blocks : list Block) (i : HashValue) : option BlockData :=
  b_block_data ∘ snd <$> list_find (fun b => b_id b = i) blocks.

Section content.
Context (blocks : list Block) (Hids : NoDup (b_id <$> blocks)).

Lemma content_of_Some i d : content_of blocks i = Some d -> exists b, b ∈ blocks /\ b_id b = i /\ b_block_data b = d.
Proof.
  unfold content_of. intros ([k b] & Hf & ->)%fmap_Some. apply list_find_Some in Hf as (Hk & Hb & _).
  exists b. split; [by eapply list_elem_of_lookup_2|done].
Qed.

Lemma content_of_block b : b ∈ blocks -> content_of blocks (b_id b) = Some (b_block_data b).
Proof.
  intros Hb. destruct (list_find_in (fun b' => b_id b' = b_id b) blocks) as (i & b' & Hf & Hl & He); [by exists b|].
  unfold content_of. rewrite Hf. apply list_elem_of_lookup_2 in Hl. cbn. by rewrite (same_id _ Hids b' b).
Qed.

Lemma content_of_rounds : well_linked blocks -> rounds_increase (content_of blocks).
Proof.
  intros Hl i d p (b & Hb & <- & <-)%content_of_Some (b' & Hb' & He & <-)%content_of_Some. by apply Hl.
Qed.

(** Recovered blocks can be inserted in their order. *)
Context (savable : list Block -> list QuorumCert -> Prop).
Context (rootb : Block) (Hrb : rootb ∈ blocks) (Hlinked : well_linked blocks).
Context (kept : list Block).
Context (Hkept : forall b, b ∈ kept <-> b ∈ blocks /\ b_id b <> b_id rootb /\ reach {[b_id rootb]} blocks (b_id b)).
Context (Hsave : forall b, b ∈ kept -> savable [b] []).

Lemma kept_linked l present :
  topological l -> NoDup (b_id <$> l) -> (forall b, b ∈ l -> b ∈ kept) -> (forall b, b ∈ present -> b ∈ kept) ->
  (forall b, b ∈ kept -> b ∈ present \/ b ∈ l) -> (forall b b', b ∈ present -> b' ∈ l -> b_id b <> b_id b') ->
  linked (content_of blocks) savable rootb present l.
Proof.
  revert present. induction l as [|b l IH]; intros present Htop Hnd Hl Hp Hcov Hdis; [done|].
  destruct Htop as [Hpar Htop]. cbn in Hnd. apply NoDup_cons in Hnd as [Hb Hnd].
  assert (b ∈ kept) as Hbk by (apply Hl; left). pose proof Hbk as (Hbin & Hbne & Hbr)%Hkept. split.
  - split; [by apply content_of_block|by apply Hsave| |].
    + inversion Hbr as [i Hi|b' Hb' Hr He]; [set_solver|].
      assert (b' = b) as -> by by apply (same_id _ Hids).
      destruct (decide (Block.parent_id b = b_id rootb)) as [Heq|Hne]; [exists rootb; split; [left|done]|].
      inversion Hr as [i Hi|b' Hb'' Hr' He']; [set_solver|]. exists b'. split; [|done]. right.
      destruct (Hcov b') as [?|Hin]; [|done|by destruct (Hpar b' Hin)].
      apply Hkept. split_and!; [done|congruence|by apply reach_block].
    + intros b' [->|Hb']%elem_of_cons; [done|]. apply Hdis; [done|left].
  - apply IH; [done|done| | | |].
    + intros b' Hb'. apply Hl. by right.
    + intros b' [->|Hb']%elem_of_cons; [done|by apply Hp].
    + intros b' [?|[->|?]%elem_of_cons]%Hcov; [left; by right|left; left|by right].
    + intros b' b'' [->|Hb']%elem_of_cons Hb''; [|apply Hdis; [done|by right]].
      intros He. apply Hb, list_elem_of_fmap. by exists b''.
Qed.
End content.

(** ** A restart *)

(** What a database must hold of the blocks and certificates of a ledger: the root with
    its certificates, rounds that increase along parents, certificates that agree with
    the blocks and, at the root, with the state of the ledger; all of it can be encoded. *)
Record recoverable `{ConsensusBcs} (md : RootMetadata) (root_id : HashValue) (li : LedgerInfoWithSignatures)
    (blocks : list Block) (certs : list QuorumCert) : Prop := {
  rv_once : NoDup (b_id <$> blocks);
  rv_linked : well_linked blocks;
  rv_root : root_id ∈ b_id <$> blocks;
  rv_root_qc : exists qc, qc ∈ certs /\ bi_id (QuorumCert.certified_block qc) = root_id;
  rv_ordered : exists qc, qc ∈ certs /\ bi_id (QuorumCert.commit_info qc) = root_id;
  rv_match qc : qc ∈ certs -> bi_id (QuorumCert.commit_info qc) = root_id ->
    BlockInfo.match_ordered_only (QuorumCert.commit_info qc) (li_commit_info (lis_ledger_info li)) = true;
  rv_certs qc b : qc ∈ certs -> b ∈ blocks -> b_id b = bi_id (QuorumCert.certified_block qc) -> certifies qc b;
  rv_state qc : qc ∈ certs -> bi_id (QuorumCert.certified_block qc) = root_id ->
    (bi_version (QuorumCert.certified_block qc) = 0 \/
     bi_version (QuorumCert.certified_block qc) = RootMetadata_version md) /\
    (bi_executed_state_id (QuorumCert.certified_block qc) = ACCUMULATOR_PLACEHOLDER_HASH \/
     bi_executed_state_id (QuorumCert.certified_block qc) = rm_accu_hash md);
  rv_encodable : Forall encodable blocks /\ Forall encodable certs;
  rv_width : Forall (fun b => b_id b < 2 ^ 256) blocks;
}.

Section restart.
Context `{ConsensusBcs} `{!ConsensusBcsLaws} `{LedgerBcs} `{RocksDbReliable C CIt} `{RocksDb D It} `{MerkleHasher} `{HashOrderLaws}.
Context `{CryptoHash VoteData} `{CryptoHash BlockData} `{StateComputerReliable X}.
Abbreviation proxy := (StorageWriteProxy C D).

(** A proxy whose database is open and holds something. *)
Definition proxy_open (p : proxy) : Prop :=
  (forall cf, cf_handle (swp_db p) cf = true) /\ exists cs, consensus_holds (swp_db p) cs.
Definition proxy_saves (bs : list Block) (qs : list QuorumCert) : Prop :=
  write_width (SaveTree bs qs) /\ write_encodable (SaveTree bs qs).

Lemma proxy_save fuel bs qs p :
  proxy_saves bs qs -> proxy_open p ->
  exists p', @save_tree _ (StorageWriteProxy_storage fuel) bs qs p = (Ok tt, p') /\ proxy_open p'.
Proof.
  intros [Hw He] [Hcf [cs Hcs]]. destruct (write_done (SaveTree bs qs) p cs Hcs Hcf Hw He) as (p' & Hp & Hcs' & Hcf' & _).
  exists p'. split; [done|]. split; [done|by eexists].
Qed.

Context (fuel : nat) (md : RootMetadata) (vote : option Vote) (tc : option TwoChainTimeoutCertificate).
Context (root_id : HashValue) (li : LedgerInfoWithSignatures) (blocks : list Block) (certs : list QuorumCert).
Context (Hrv : recoverable md root_id li blocks certs).
Context (data : RecoveryData) (Hrec : recovered root_id li blocks certs vote md tc data).
Abbreviation rootb := (ri_block (rd_root data)).
Context (c : X) (max : N) (limit : Round).

Lemma root_tree_total tc' : exists t, BlockStore.root_tree (rd_root data) (rd_root_metadata data) tc' max = Ok t.
Proof.
  destruct (rc_root_qc _ _ _ _ _ _ _ _ Hrec) as [Hq Hqid]. destruct (rv_state _ _ _ _ _ Hrv _ Hq Hqid) as [Hv Hs].
  unfold BlockStore.root_tree, BlockTree.new. rewrite (rc_metadata _ _ _ _ _ _ _ _ Hrec).
  rewrite (proj2 (orb_true_iff _ _)) by (rewrite !N.eqb_eq; done).
  rewrite (proj2 (orb_true_iff _ _)) by (rewrite !N.eqb_eq; done). cbn [assert_ mbind outcome_bind].
  rewrite (proj2 (N.eqb_eq _ _)); [by eexists|]. unfold ExecutedBlock.id. cbn.
  destruct (rc_root _ _ _ _ _ _ _ _ Hrec) as [_ ->]. by destruct (rc_ordered _ _ _ _ _ _ _ _ Hrec) as [_ ->].
Qed.

Lemma all_blocks b : b ∈ rootb :: rd_blocks data <-> b ∈ blocks /\ reach {[root_id]} blocks (b_id b).
Proof.
  destruct (rc_root _ _ _ _ _ _ _ _ Hrec) as [Hrin Hrid]. rewrite elem_of_cons, (rc_blocks _ _ _ _ _ _ _ _ Hrec). split.
  - intros [->|(? & _ & ?)]; [split; [done|]|done]. apply reach_tree. set_solver.
  - intros [Hb Hr]. destruct (decide (b_id b = root_id)); [left; apply (same_id _ (rv_once _ _ _ _ _ Hrv)); congruence|by right].
Qed.

Lemma blocks_linked : linked (content_of blocks) proxy_saves rootb [] (rd_blocks data).
Proof.
  destruct (rc_root _ _ _ _ _ _ _ _ Hrec) as [Hrin Hrid]. pose proof (rc_blocks _ _ _ _ _ _ _ _ Hrec) as Hkept.
  destruct (rv_encodable _ _ _ _ _ Hrv) as [Henc _]. pose proof (rv_width _ _ _ _ _ Hrv) as Hwid.
  rewrite Forall_forall in Henc. rewrite Forall_forall in Hwid.
  apply (kept_linked blocks (rv_once _ _ _ _ _ Hrv) proxy_saves rootb Hrin (rv_linked _ _ _ _ _ Hrv) (rd_blocks data)).
  - intros b. by rewrite Hkept, Hrid.
  - intros b [Hb _]%Hkept. split; [split; [|done]; constructor; [by apply Hwid|done]|].
    split_and!; [by intros [? _]|constructor; [by apply Henc|done]|done].
  - apply sorted_topological; [apply (rc_sorted _ _ _ _ _ _ _ _ Hrec)|].
    intros b b' [Hb _]%Hkept [Hb' _]%Hkept. apply (well_linked_earlier blocks); [apply Hrv|done..].
  - apply (rc_once _ _ _ _ _ _ _ _ Hrec).
  - done.
  - by intros b ?%elem_of_nil.
  - intros b Hb. by right.
  - by intros b b' ?%elem_of_nil.
Qed.

Lemma certs_recordable : Forall (recordable proxy_saves rootb (rd_blocks data)) (rd_quorum_certs data).
Proof.
  destruct (rc_root _ _ _ _ _ _ _ _ Hrec) as [Hrin Hrid].
  destruct (rv_encodable _ _ _ _ _ Hrv) as [_ Henc]. pose proof (rv_width _ _ _ _ _ Hrv) as Hwid.
  rewrite Forall_forall in Henc. rewrite Forall_forall in Hwid.
  apply Forall_forall. intros qc [Hqin Hr]%(rc_certs _ _ _ _ _ _ _ _ Hrec).
  assert (exists b, b ∈ blocks /\ b_id b = bi_id (QuorumCert.certified_block qc)) as (b & Hb & Hbid).
  { inversion Hr as [i Hi|b Hb _ He]; [exists rootb; split; [done|set_solver]|by exists b]. }
  split.
  - split; [split; [done|]; apply Forall_singleton; rewrite <-Hbid; by apply Hwid|].
    split_and!; [by intros [_ ?]|done|constructor; [by apply Henc|done]].
  - exists b. split; [|done]. apply all_blocks. by rewrite Hbid.
  - intros b' [Hb' _]%all_blocks. by apply Hrv.
Qed.

Lemma rebuild_ok p' :
  proxy_open p' ->
  exists st env', @BlockStore.build X _ _ (StorageWriteProxy_storage fuel) (rd_root data) (rd_root_metadata data) (rd_blocks data)
    (rd_quorum_certs data) (rd_highest_2chain_timeout_certificate data) max limit (c, p') = (Ok st, env') /\
  commit_root_id (inner st) = root_id /\ ordered_root_id (inner st) = root_id /\
  (forall i, (exists e, BlockStore.get_block i st = Some e) <->
     (exists b, b ∈ blocks /\ b_id b = i) /\ reach {[root_id]} blocks i) /\
  (forall i e, BlockStore.get_block i st = Some e -> eb_block e ∈ blocks).
Proof.
  intros Hp'. destruct (rc_root _ _ _ _ _ _ _ _ Hrec) as [Hrin Hrid].
  destruct (root_tree_total (rd_highest_2chain_timeout_certificate data)) as [t Ht].
  destruct (build_exact (content_of blocks) (content_of_rounds _ (rv_linked _ _ _ _ _ Hrv)) proxy_open proxy_saves
    (proxy_save fuel) rootb (content_of_block _ (rv_once _ _ _ _ _ Hrv) _ Hrin) (rd_root data) (rd_root_metadata data)
    (rd_blocks data) (rd_quorum_certs data) (rd_highest_2chain_timeout_certificate data) max limit (c, p') t)
    as (st & env' & Hbuild & Hbu); [done..|apply blocks_linked|apply certs_recordable|done|].
  exists st, env'. split_and!; try done.
  - rewrite (bu_commit _ _ _ _ _ Hbu). done.
  - rewrite (bu_ordered _ _ _ _ _ Hbu). done.
  - intros i. rewrite (bu_blocks _ _ _ _ _ Hbu). split.
    + intros (b & [Hb Hr]%all_blocks & <-). split; [by exists b|done].
    + intros [(b & Hb & <-) Hr]. exists b. split; [by apply all_blocks|done].
  - intros i e He. apply (bu_exact _ _ _ _ _ Hbu) in He. by apply all_blocks in He as [? _].
Qed.
End restart.
