(* ===== verification/SyncManager.v ===== *)
(** * Retrieving blocks and catching up

    The block retrieval messages (consensus/consensus-types/src/block_retrieval.rs),
    [NetworkSender::request_block] (consensus/src/network.rs) and the synchronisation of
    the block store with its peers (consensus/src/block_storage/sync_manager.rs). *)

From S2P Require Import Prelude Crypto Errors Position Accumulator Verifier Ledger ConsensusTypes Blocks TransactionProofs BlockTree ConsensusDb LivenessStorage BlockStore.

Definition MAX_BLOCKS_PER_REQUEST : N := 10.

(** ** Messages *)
Record BlockRetrievalRequest : Type := mkBlockRetrievalRequest {
  brq_block_id : HashValue;
  brq_num_blocks : N;
  brq_target_block_id : option HashValue;
}.
Module BlockRetrievalRequest.
Definition new (block_id : HashValue) (num_blocks : N) : BlockRetrievalRequest :=
  mkBlockRetrievalRequest block_id num_blocks None.
Definition new_with_target_block_id (block_id : HashValue) (num_blocks : N) (target_block_id : HashValue)
    : BlockRetrievalRequest :=
  mkBlockRetrievalRequest block_id num_blocks (Some target_block_id).
Definition match_target_id (self : BlockRetrievalRequest) (hash_value : HashValue) : bool :=
  match brq_target_block_id self with Some id => id =? hash_value | None => false end.
End BlockRetrievalRequest.

Inductive BlockRetrievalStatus : Type := Succeeded | IdNotFound | NotEnoughBlocks | SucceededWithTarget.
#[global] Instance BlockRetrievalStatus_eq_dec : EqDecision BlockRetrievalStatus.
Proof. solve_decision. Defined.

Record BlockRetrievalResponse : Type := mkBlockRetrievalResponse {
  brs_status : BlockRetrievalStatus;
  brs_blocks : list Block;
}.
Module BlockRetrievalResponse.
Section verify.
Context `{CryptoHash VoteData} `{Signable LedgerInfo} `{Signable BlockData}.

Definition verify_block (sig_verifier : ValidatorVerifier) (now : N) (block : Block) (expected_id : HashValue)
    : result HashValue :=
  _ ← Block.validate_signature block sig_verifier;
  _ ← Block.verify_well_formed block now;
  _ ← ensure (b_id block =? expected_id) (Msg "blocks doesn't form a chain");
  Ok (Block.parent_id block).

Definition verify (self : BlockRetrievalResponse) (retrieval_request : BlockRetrievalRequest)
    (sig_verifier : ValidatorVerifier) (now : N) : result unit :=
  _ ← ensure (bool_decide (brs_status self <> Succeeded)
              || (N.of_nat (length (brs_blocks self)) =? brq_num_blocks retrieval_request))
        (Msg "not enough blocks returned");
  _ ← ensure (bool_decide (brs_status self <> SucceededWithTarget)
              || match last (brs_blocks self) with
                 | Some block => BlockRetrievalRequest.match_target_id retrieval_request (b_id block)
                 | None => false
                 end)
        (Msg "target not found in blocks returned");
  _ ← try_fold (verify_block sig_verifier now) (brs_blocks self) (brq_block_id retrieval_request);
  Ok tt.
End verify.
End BlockRetrievalResponse.

(** ** The network

    The answer of a peer, or [None] for another kind of message; the random number
    generator, the clock and the messages that are only sent. *)
Class ConsensusNetwork (W : Type) : Type := {
  send_rpc : Author -> BlockRetrievalRequest -> N -> method W AnyError (option BlockRetrievalResponse);
  gen_range : nat -> W -> nat * W;
  clock : W -> N;
  broadcast_epoch_change : EpochChangeProof -> W -> W;
  send_epoch_change : EpochChangeProof -> W -> W;
  send_commit_proof : LedgerInfoWithSignatures -> W -> W;
}.

Record NetworkSender (W : Type) : Type := mkNetworkSender {
  ns_author : Author;
  ns_network_sender : W;
  ns_validators : ValidatorVerifier;
}.
Arguments mkNetworkSender {W} _ _ _.
Arguments ns_author {W} _.
Arguments ns_network_sender {W} _.
Arguments ns_validators {W} _.

Record BlockRetriever (W : Type) : Type := mkBlockRetriever {
  br_network : NetworkSender W;
  br_preferred_peer : Author;
}.
Arguments mkBlockRetriever {W} _ _.
Arguments br_network {W} _.
Arguments br_preferred_peer {W} _.

(** In milliseconds. *)
Definition RETRIEVAL_INITIAL_TIMEOUT : N := 500.
Definition RETRIEVAL_MAX_EXP : N := 2.
Definition retrieval_timeout (attempt : N) : result N :=
  _ ← assert_ (0 <? attempt);
  Ok (RETRIEVAL_INITIAL_TIMEOUT * 2 ^ N.min RETRIEVAL_MAX_EXP (attempt - 1)).

Module BlockRetriever.
Section retriever.
Context `{CryptoHash VoteData} `{Signable LedgerInfo} `{Signable BlockData} `{ConsensusNetwork W}.
Abbreviation retriever := (BlockRetriever W).

Definition set_network (w : W) (self : retriever) : retriever :=
  mkBlockRetriever (mkNetworkSender (ns_author (br_network self)) w (ns_validators (br_network self)))
    (br_preferred_peer self).
Definition network (self : retriever) : W := ns_network_sender (br_network self).

(** [NetworkSender::request_block] *)
Definition request_block (retrieval_request : BlockRetrievalRequest) (from : Author) (timeout : N)
    : method retriever AnyError BlockRetrievalResponse :=
  _ ← gets (fun self => ensure (negb (from =? ns_author (br_network self))) (Msg "Retrieve block from self"));
  response_msg ← on network set_network (send_rpc from retrieval_request timeout);
  response ← lift (ok_or response_msg (Msg "Invalid response to request"));
  _ ← gets (fun self => BlockRetrievalResponse.verify response retrieval_request
                          (ns_validators (br_network self)) (clock (network self)));
  mret response.

(** The peer to ask, and the peers that are left. *)
Definition pick_peer (attempt : N) (peers : list AccountAddress)
    : method retriever AnyError (AccountAddress * list AccountAddress) :=
  _ ← lift (assert_ (negb (bool_decide (peers = []))));
  if attempt =? 0 then
    preferred_peer ← gets (fun self => Ok (br_preferred_peer self));
    mret (preferred_peer,
          match list_find (fun p => p = preferred_peer) peers with
          | Some (i, _) => delete i peers
          | None => peers
          end)
  else fun self =>
    let '(peer_idx, w) := gen_range (length peers) (network self) in
    let self := set_network w self in
    match peers !! peer_idx with
    | Some peer => (Ok (peer, delete peer_idx peers), self)
    | None => (Panic, self)
    end.

(** A request that fails is not an error of the caller. *)
Definition try_request (retrieval_request : BlockRetrievalRequest) (from : Author) (timeout : N)
    : method retriever AnyError (option BlockRetrievalResponse) := fun self =>
  match request_block retrieval_request from timeout self with
  | (Ok response, self) => (Ok (Some response), self)
  | (Err _, self) => (Ok None, self)
  | (Panic, self) => (Panic, self)
  end.

(** The loop of [retrieve_block_for_id]: every round either makes progress, uses up a
    peer or ends. *)
Fixpoint retrieve_loop (fuel : nat) (num_blocks target_block_id attempt progress last_block_id retrieve_batch_size : N)
    (peer : AccountAddress) (peers : list AccountAddress) (result_blocks : list Block)
    : method retriever AnyError (list Block) :=
  if progress <? num_blocks then
    match fuel with
    | O => lift Panic
    | S fuel =>
        let retrieve_batch_size := N.min retrieve_batch_size (num_blocks - progress) in
        attempt ← lift (add32 attempt 1);
        timeout ← lift (retrieval_timeout attempt);
        response ← try_request (BlockRetrievalRequest.new_with_target_block_id last_block_id
                                  retrieve_batch_size target_block_id) peer timeout;
        match response with
        | Some (mkBlockRetrievalResponse Succeeded batch) =>
            progress ← lift (add64 progress (N.of_nat (length batch)));
            last_block ← lift (expect (last batch));
            retrieve_loop fuel num_blocks target_block_id attempt progress (Block.parent_id last_block)
              retrieve_batch_size peer peers (result_blocks ++ batch)
        | Some (mkBlockRetrievalResponse SucceededWithTarget batch) => mret (result_blocks ++ batch)
        | _ =>
            if bool_decide (peers = []) then lift (Err (Msg "Failed to fetch block: no more peers available"))
            else
              picked ← pick_peer attempt peers;
              retrieve_loop fuel num_blocks target_block_id attempt progress last_block_id
                retrieve_batch_size picked.1 picked.2 result_blocks
        end
    end
  else mret result_blocks.

Definition retrieve_block_for_id (block_id target_block_id : HashValue) (peers : list AccountAddress) (num_blocks : N)
    : method retriever AnyError (list Block) :=
  if bool_decide (peers = []) then lift (Err (Msg "Failed to fetch block: no more peers available"))
  else
    picked ← pick_peer 0 peers;
    result_blocks ← retrieve_loop (N.to_nat num_blocks + S (length peers)) num_blocks target_block_id 0 0 block_id
                      MAX_BLOCKS_PER_REQUEST picked.1 picked.2 [];
    last_block ← lift (expect (last result_blocks));
    _ ← lift (assert_ (b_id last_block =? target_block_id));
    mret result_blocks.

(** [signatures] is a [BTreeMap]. *)
Definition retrieve_block_for_qc (qc : QuorumCert) (num_blocks : N) (target_block_id : HashValue)
    : method retriever AnyError (list Block) :=
  retrieve_block_for_id (bi_id (QuorumCert.certified_block qc)) target_block_id
    (btree_iter (lis_signatures (qc_signed_ledger_info qc))).*1 num_blocks.
End retriever.
End BlockRetriever.

(** ** Serving blocks *)
Section serve.
Context {C L : Type}.

Fixpoint retrieval_loop (fuel : nat) (self : BlockStore C L) (req : BlockRetrievalRequest) (id : HashValue) (blocks : list Block)
    : result (BlockRetrievalStatus * list Block) :=
  if N.of_nat (length blocks) <? brq_num_blocks req then
    match fuel with
    | O => Panic
    | S fuel =>
        match BlockStore.get_block id self with
        | Some executed_block =>
            let blocks := blocks ++ [eb_block executed_block] in
            if BlockRetrievalRequest.match_target_id req id then Ok (SucceededWithTarget, blocks)
            else retrieval_loop fuel self req (ExecutedBlock.parent_id executed_block) blocks
        | None => Ok (NotEnoughBlocks, blocks)
        end
    end
  else Ok (Succeeded, blocks).

(** The response that [process_block_retrieval] sends; at most as many steps as there are
    blocks in the tree. *)
Definition process_block_retrieval (self : BlockStore C L) (req : BlockRetrievalRequest) : result BlockRetrievalResponse :=
  r ← retrieval_loop (S (size (id_to_block (inner self)))) self req (brq_block_id req) [];
  let '(status, blocks) := r in
  Ok (mkBlockRetrievalResponse (if bool_decide (blocks = []) then IdNotFound else status) blocks).
End serve.

(** ** Catching up *)
Inductive NeedFetchResult : Type := QCRoundBeforeRoot | QCAlreadyExist | QCBlockExist | NeedFetch.

Module SyncManager.
Section sync.
Context `{HashOrder} `{StateComputer C} `{PersistentLivenessStorage L} `{ConsensusNetwork W}.
Context `{CryptoHash VoteData} `{Signable LedgerInfo} `{Signable BlockData} `{CryptoHash BlockData}.
Abbreviation store := (BlockStore C L).
(** The store and the retriever that a call works with. *)
Abbreviation session := (store * BlockRetriever W)%type.

Definition on_store {E A} : method store E A -> method session E A := on fst (fun s self => (s, self.2)).
Definition on_retriever {E A} : method (BlockRetriever W) E A -> method session E A :=
  on snd (fun r self => (self.1, r)).
Definition on_network {E} (f : W -> W) : method session E unit :=
  on_retriever (puts (fun r => BlockRetriever.set_network (f (BlockRetriever.network r)) r)).

Definition need_sync_for_ledger_info (li : LedgerInfoWithSignatures) (self : store) : result bool :=
  root ← BlockStore.ordered_root self;
  limit ← add64 (ExecutedBlock.round root) (back_pressure_limit self);
  Ok (limit <? bi_round (li_commit_info (lis_ledger_info li))).

Definition need_fetch_for_quorum_cert (qc : QuorumCert) (self : store) : result NeedFetchResult :=
  root ← BlockStore.ordered_root self;
  let certified := QuorumCert.certified_block qc in
  Ok (if bi_round certified <? ExecutedBlock.round root then QCRoundBeforeRoot
      else if bool_decide (is_Some (BlockStore.get_quorum_cert_for_block (bi_id certified) self)) then QCAlreadyExist
      else if BlockStore.block_exists (bi_id certified) self then QCBlockExist
      else NeedFetch).

(** The blocks to insert, the last one first; the rounds of the certificates go down. *)
Fixpoint fetch_loop (fuel : nat) (retrieve_qc : QuorumCert) (pending : list Block)
    : method session AnyError (list Block) := fun self =>
  let id := bi_id (QuorumCert.certified_block retrieve_qc) in
  if BlockStore.block_exists id self.1 then (Ok pending, self)
  else
    match fuel with
    | O => (Panic, self)
    | S fuel =>
        (blocks ← on_retriever (BlockRetriever.retrieve_block_for_qc retrieve_qc 1 id);
         block ← lift (expect (head blocks));
         fetch_loop fuel (Block.quorum_cert block) (block :: pending)) self
    end.
Fixpoint insert_pending (pending : list Block) : method session AnyError unit :=
  match pending with
  | [] => mret tt
  | block :: pending =>
      _ ← on_store (BlockStore.insert_single_quorum_cert (Block.quorum_cert block));
      _ ← on_store (BlockStore.execute_and_insert_block block);
      insert_pending pending
  end.
Definition fetch_quorum_cert (qc : QuorumCert) : method session AnyError unit :=
  pending ← fetch_loop (S (S (N.to_nat (bi_round (QuorumCert.certified_block qc))))) qc [];
  _ ← insert_pending pending;
  on_store (BlockStore.insert_single_quorum_cert qc).

Definition insert_quorum_cert (qc : QuorumCert) : method session AnyError unit :=
  need ← gets (fun self : session => need_fetch_for_quorum_cert qc self.1);
  _ ← match need with
      | NeedFetch => fetch_quorum_cert qc
      | QCBlockExist => on_store (BlockStore.insert_single_quorum_cert qc)
      | _ => mret tt
      end;
  root ← gets (fun self : session => BlockStore.ordered_root self.1);
  if ExecutedBlock.round root <? bi_round (QuorumCert.commit_info qc) then
    _ ← on_store (BlockStore.commit qc);
    if QuorumCert.ends_epoch qc
    then on_network (broadcast_epoch_change (mkEpochChangeProof [qc_signed_ledger_info qc] false))
    else mret tt
  else mret tt.

Definition sync_to_highest_commit_cert (ledger_info : LedgerInfoWithSignatures) : method session AnyError unit :=
  let commit_info := li_commit_info (lis_ledger_info ledger_info) in
  commit_root ← gets (fun self : session => BlockStore.commit_root self.1);
  ordered_root ← gets (fun self : session => BlockStore.ordered_root self.1);
  exists_ ← gets (fun self : session => Ok (BlockStore.block_exists (bi_id commit_info) self.1));
  if (ExecutedBlock.round commit_root <? bi_round commit_info) && exists_
     && (bi_round commit_info <=? ExecutedBlock.round ordered_root)
  then on_network (send_commit_proof ledger_info)
  else mret tt.

(** *** Fast forward *)

(** The block that the commit certificate certifies, if it is not among the blocks. *)
Definition fetch_fork (highest_commit_cert : QuorumCert) (blocks : list Block) (quorum_certs : list QuorumCert)
    : method (BlockRetriever W) AnyError (list Block * list QuorumCert) :=
  let certified_id := bi_id (QuorumCert.certified_block highest_commit_cert) in
  if existsb (fun block => b_id block =? certified_id) blocks then mret (blocks, quorum_certs)
  else
    additional_blocks ← BlockRetriever.retrieve_block_for_qc highest_commit_cert 1
                          (bi_id (QuorumCert.commit_info highest_commit_cert));
    _ ← lift (assert_ (bool_decide (length additional_blocks = 1%nat)));
    block ← lift (expect (last additional_blocks));
    _ ← lift (assert_ (b_id block =? certified_id));
    mret (blocks ++ [block], quorum_certs ++ [highest_commit_cert]).

(** The blocks between the two certificates and their certificates, before they are stored. *)
Definition fetch_chain (highest_ordered_cert highest_commit_cert : QuorumCert)
    : method (BlockRetriever W) AnyError (list Block * list QuorumCert) :=
  let commit_id := bi_id (QuorumCert.commit_info highest_commit_cert) in
  gap ← lift (sub64 (bi_round (QuorumCert.certified_block highest_ordered_cert))
                (bi_round (QuorumCert.commit_info highest_commit_cert)));
  num_blocks ← lift (add64 gap 1);
  _ ← lift (assert_ (num_blocks <? u64_max));
  blocks ← BlockRetriever.retrieve_block_for_qc highest_ordered_cert num_blocks commit_id;
  first ← lift (expect (head blocks));
  _ ← lift (assert_ (b_id first =? bi_id (QuorumCert.certified_block highest_ordered_cert)));
  final ← lift (expect (last blocks));
  _ ← lift (assert_ (b_id final =? commit_id));
  let quorum_certs := highest_ordered_cert :: (Block.quorum_cert <$> take (length blocks - 1) blocks) in
  p ← fetch_fork highest_commit_cert blocks quorum_certs;
  _ ← lift (assert_ (bool_decide (length p.1 = length p.2)));
  _ ← lift (assert_ (forallb (fun x : Block * QuorumCert =>
                                b_id x.1 =? bi_id (QuorumCert.certified_block x.2)) (zip p.1 p.2)));
  mret p.

Definition fast_forward_sync (highest_ordered_cert highest_commit_cert : QuorumCert)
    : method session AnyError RecoveryData :=
  p ← on_retriever (fetch_chain highest_ordered_cert highest_commit_cert);
  let '(blocks, quorum_certs) := (p : list Block * list QuorumCert) in
  _ ← lift (with_context "Root"
              (find_root (mkLedgerRecoveryData (qc_signed_ledger_info highest_commit_cert)) blocks quorum_certs).1);
  _ ← on_store (BlockStore.on_storage (save_tree blocks quorum_certs));
  _ ← on_store (BlockStore.on_computer (sc_sync_to (qc_signed_ledger_info highest_commit_cert)));
  (** The pipeline is reset when it syncs: commits that were ordered are not executed any more. *)
  _ ← on_store (puts (BlockStore.set_callbacks (fun _ => [])));
  data ← on_store (BlockStore.on_storage start);
  match data with
  | FullRecoveryData recovery_data => mret recovery_data
  | PartialRecoveryData _ => lift Panic
  end.

Definition sync_to_highest_ordered_cert (highest_ordered_cert highest_commit_cert : QuorumCert)
    : method session AnyError unit :=
  let li := qc_signed_ledger_info highest_commit_cert in
  need ← gets (fun self : session => need_sync_for_ledger_info li self.1);
  if (need : bool) then
    data ← fast_forward_sync highest_ordered_cert highest_commit_cert;
    _ ← gets (fun self : session => BlockStore.ordered_root self.1);
    _ ← on_store (BlockStore.rebuild (rd_root data) (rd_root_metadata data) (rd_blocks data) (rd_quorum_certs data));
    if LedgerInfo.ends_epoch (lis_ledger_info li)
    then on_network (send_epoch_change (mkEpochChangeProof [qc_signed_ledger_info highest_ordered_cert] false))
    else mret tt
  else mret tt.

Definition add_certs (sync_info : SyncInfo) : method session AnyError unit :=
  let highest_commit_cert := si_highest_commit_cert sync_info in
  let highest_ordered_cert := SyncInfo.highest_ordered_cert sync_info in
  _ ← sync_to_highest_commit_cert (qc_signed_ledger_info highest_commit_cert);
  _ ← sync_to_highest_ordered_cert highest_ordered_cert highest_commit_cert;
  _ ← insert_quorum_cert highest_ordered_cert;
  _ ← insert_quorum_cert (si_highest_quorum_cert sync_info);
  match si_highest_2chain_timeout_cert sync_info with
  | Some tc => on_store (BlockStore.insert_2chain_timeout_certificate tc)
  | None => mret tt
  end.
End sync.
End SyncManager.
