(* ===== verification/SyncLemmas.v ===== *)
(** * Retrieving blocks and catching up: lemmas *)

From S2P Require Import Prelude Crypto Errors Position Accumulator Verifier Ledger ConsensusTypes Blocks TransactionProofs BlockTree ConsensusDb LivenessStorage BlockStore SyncManager BlockTreeLemmas BlockStoreLemmas.

(** ** Chains of blocks, from the youngest down *)
Fixpoint chained (id : HashValue) (blocks : list Block) (next : HashValue) : Prop :=
  match blocks with
  | [] => id = next
  | b :: blocks => b_id b = id /\ chained (Block.parent_id b) blocks next
  end.

Lemma chained_app id l1 l2 next :
  chained id (l1 ++ l2) next <-> exists mid, chained id l1 mid /\ chained mid l2 next.
Proof.
  revert id. induction l1 as [|b l1 IH]; intros id; simpl; [naive_solver|].
  rewrite IH. naive_solver.
Qed.

Lemma chained_last id l next b : chained id l next -> last l = Some b -> next = Block.parent_id b.
Proof.
  intros Hc (l' & ->)%last_Some. apply chained_app in Hc as (mid & _ & Hb). by destruct Hb as [_ Hb].
Qed.

Section verify.
Context `{CryptoHash VoteData} `{Signable LedgerInfo} `{Signable BlockData}.

Lemma verify_blocks_Ok vs now blocks id next :
  try_fold (BlockRetrievalResponse.verify_block vs now) blocks id = Ok next -> chained id blocks next.
Proof.
  revert id. induction blocks as [|b blocks IH]; intros id; simpl; [by intros [= ->]|].
  intros (mid & Hb & Ht)%bind_Ok. unfold BlockRetrievalResponse.verify_block in Hb. run. breflect. auto.
Qed.

(** A verified response is a chain that starts at the requested block. *)
Lemma response_verify_Ok resp req vs now :
  BlockRetrievalResponse.verify resp req vs now = Ok tt ->
  (exists next, chained (brq_block_id req) (brs_blocks resp) next) /\
  (brs_status resp = Succeeded -> N.of_nat (length (brs_blocks resp)) = brq_num_blocks req) /\
  (brs_status resp = SucceededWithTarget -> exists b, last (brs_blocks resp) = Some b /\
     brq_target_block_id req = Some (b_id b)).
Proof.
  unfold BlockRetrievalResponse.verify.
  intros (? & H1'%ensure_Ok & (? & H2'%ensure_Ok & (next & Hf & _)%bind_Ok)%bind_Ok)%bind_Ok.
  split; [exists next; by eapply verify_blocks_Ok|]. split; intros Hs.
  - rewrite Hs in H1'. rewrite bool_decide_false in H1' by (intros Hn; by apply Hn). by apply N.eqb_eq.
  - rewrite Hs in H2'. rewrite bool_decide_false in H2' by (intros Hn; by apply Hn). simpl in H2'.
    destruct (last (brs_blocks resp)) as [b|]; [|done]. exists b. split; [done|].
    unfold BlockRetrievalRequest.match_target_id in H2'. destruct (brq_target_block_id req); [|done].
    by apply N.eqb_eq in H2' as ->.
Qed.
End verify.

(** ** When verification does not panic *)

(** The round after a nil block is a round, and the payload is a list of transactions.
    [Block::verify_well_formed] panics on other blocks. *)
Record block_fits (b : Block) : Prop := {
  bf_round : Block.round b + (if Block.is_nil_block b then 1 else 0) <= u64_max;
  bf_payload poavs : Block.payload b <> Some (InQuorumStore poavs);
}.

Lemma bind_no_panic {E A B} (m : outcome E A) (f : A -> outcome E B) :
  m <> Panic -> (forall a, m = Ok a -> f a <> Panic) -> (a ← m; f a) <> Panic.
Proof. destruct m; cbn; auto. Qed.
Lemma ensure_no_panic {E} b (e : E) : ensure b e <> Panic.
Proof. by destruct b. Qed.
Lemma add64_no_panic {E} a b : a + b <= u64_max -> @add64 E a b <> Panic.
Proof. intros Hle. unfold add64, checked_add. by rewrite (proj2 (N.leb_le _ _) Hle). Qed.
#[local] Hint Resolve bind_no_panic ensure_no_panic : core.

Lemma check_failed_authors_no_panic bound succ l : Block.check_failed_authors bound succ l <> Panic.
Proof. revert bound. induction l as [|[r a] l IH]; intros bound; cbn; [done|]. apply bind_no_panic; auto. Qed.

Lemma well_formed_no_panic b now : block_fits b -> Block.verify_well_formed b now <> Panic.
Proof.
  intros [Hround Hpay]. unfold Block.verify_well_formed.
  apply bind_no_panic; [done|]. intros ? _. apply bind_no_panic; [done|]. intros ? Hlt%ensure_Ok%N.ltb_lt.
  apply bind_no_panic; [done|]. intros ? _. apply bind_no_panic.
  { destruct (BlockInfo.has_reconfiguration _); [|done]. apply bind_no_panic; [|auto].
    destruct (Block.payload b) as [[txns|poavs]|]; [done| |done]. by destruct (Hpay poavs). }
  intros ? _. apply bind_no_panic; [|intros ? _; apply bind_no_panic; [|done]].
  - destruct (BlockData.failed_authors _) as [authors|]; [|done].
    apply bind_no_panic; [by apply add64_no_panic|]. intros succ _. apply bind_no_panic; [apply add64_no_panic; lia|].
    intros next _. destruct (checked_sub succ next); [|done]. apply bind_no_panic; [done|]. intros ? _.
    apply check_failed_authors_no_panic.
  - destruct (_ || _); [done|]. apply bind_no_panic; auto.
Qed.

(** ** Retrieval *)

(** What peers can send; the random number generator stays within its range. *)
Class NetworkLaws (W : Type) `{ConsensusNetwork W} : Prop := {
  rpc_no_panic peer req timeout w : (send_rpc peer req timeout w).1 <> Panic;
  rpc_fits peer req timeout w resp w' :
    send_rpc peer req timeout w = (Ok (Some resp), w') -> Forall block_fits (brs_blocks resp);
  gen_range_lt n w : (0 < n)%nat -> ((gen_range n w).1 < n)%nat;
}.

Section no_panic.
Context `{CryptoHash VoteData} `{Signable LedgerInfo} `{Signable BlockData}.
Context (vs : ValidatorVerifier) (Hvs : verifier_wf vs).

Lemma verify_each_no_panic {T} `{Signable T} (message : T) sigs : Verifier.verify_each vs message sigs <> Panic.
Proof.
  induction sigs as [|[a sig] sigs IH]; cbn; [done|]. apply bind_no_panic; [|auto].
  unfold Verifier.verify. destruct (Verifier.get_public_key vs a); done.
Qed.
Lemma check_power_no_panic l : NoDup l -> Verifier.check_voting_power vs l <> Panic.
Proof.
  intros Hl. rewrite (check_voting_power_eq vs l Hvs Hl). unfold check_voting_power_spec.
  case_bool_decide; [|done]. by destruct (_ <=? _).
Qed.
Lemma batch_verify_no_panic {T} `{Signable T} (message : T) sigs :
  Verifier.batch_verify_aggregated_signatures vs message sigs <> Panic.
Proof.
  unfold Verifier.batch_verify_aggregated_signatures, Verifier.verify_aggregated_struct_signature.
  apply bind_no_panic; [by apply ensure_no_panic|]. intros ? _.
  pose proof (check_power_no_panic (btree_keys sigs) (NoDup_btree_keys sigs)).
  apply bind_no_panic; [done|]. intros ? _. destruct (negb _); [|done].
  apply bind_no_panic; [by apply ensure_no_panic|]. intros ? _. apply bind_no_panic; [done|]. intros ? _.
  apply verify_each_no_panic.
Qed.

Lemma quorum_cert_no_panic qc : QuorumCert.verify qc vs <> Panic.
Proof.
  unfold QuorumCert.verify. apply bind_no_panic; [done|]. intros ? _. destruct (_ =? 0).
  - repeat (apply bind_no_panic; [done|]; intros ? _). done.
  - apply bind_no_panic.
    + unfold LedgerInfoWithSignatures.verify_signatures.
      pose proof (batch_verify_no_panic (lis_ledger_info (qc_signed_ledger_info qc)) (lis_signatures (qc_signed_ledger_info qc))).
      by destruct (Verifier.batch_verify_aggregated_signatures _ _ _).
    + intros ? _. unfold VoteData.verify. repeat (apply bind_no_panic; [done|]; intros ? _). done.
Qed.

Lemma validate_signature_no_panic b : Block.validate_signature b vs <> Panic.
Proof.
  pose proof (quorum_cert_no_panic (Block.quorum_cert b)) as Hqc. unfold Block.validate_signature.
  destruct (bd_block_type (b_block_data b)) as [payload author failed| |]; [|done|done].
  destruct (b_signature b) as [sig|]; [|done]. cbn. apply bind_no_panic; [|done].
  unfold Verifier.verify. by destruct (Verifier.get_public_key vs author) as [k|]; [destruct (verify_struct_signature _ _ _)|].
Qed.

Lemma response_verify_no_panic resp req now :
  Forall block_fits (brs_blocks resp) -> BlockRetrievalResponse.verify resp req vs now <> Panic.
Proof.
  intros Hfit. unfold BlockRetrievalResponse.verify. apply bind_no_panic; [done|]. intros ? _.
  apply bind_no_panic; [done|]. intros ? _. apply bind_no_panic; [|done].
  generalize (brq_block_id req). induction Hfit as [|b l Hb _ IH]; intros id; cbn; [done|].
  apply bind_no_panic; [|intros id' _; apply IH]. unfold BlockRetrievalResponse.verify_block.
  apply bind_no_panic; [apply validate_signature_no_panic|]. intros ? _.
  apply bind_no_panic; [by apply well_formed_no_panic|]. intros ? _. apply bind_no_panic; done.
Qed.

(** A block that has passed the checks of [BlockRetrievalResponse::verify]. *)
Definition verified (b : Block) : Prop :=
  exists now, Block.validate_signature b vs = Ok tt /\ Block.verify_well_formed b now = Ok tt.

Lemma response_verified resp req now :
  BlockRetrievalResponse.verify resp req vs now = Ok tt -> Forall verified (brs_blocks resp).
Proof.
  unfold BlockRetrievalResponse.verify. intros (? & _ & (? & _ & (next & Hf & _)%bind_Ok)%bind_Ok)%bind_Ok.
  revert Hf. generalize (brq_block_id req). induction (brs_blocks resp) as [|b l IH]; intros id; cbn; [done|].
  intros (mid & Hb & Ht)%bind_Ok. constructor; [|by apply (IH mid)].
  unfold BlockRetrievalResponse.verify_block in Hb. exists now.
  apply bind_Ok in Hb as ([] & ? & ([] & ? & _)%bind_Ok). done.
Qed.

(** What the blocks of the answers are that pass the checks. *)
Definition answers_are `{ConsensusNetwork W} (good : Block -> Prop) : Prop :=
  forall peer req timeout w resp w', send_rpc peer req timeout w = (Ok (Some resp), w') ->
    BlockRetrievalResponse.verify resp req vs (clock w') = Ok tt -> Forall good (brs_blocks resp).
Lemma answers_verified `{ConsensusNetwork W} : answers_are verified.
Proof. intros peer req timeout w resp w' _. apply response_verified. Qed.
Lemma answers_are_mono `{ConsensusNetwork W} (good good' : Block -> Prop) :
  answers_are good -> (forall b, verified b -> good b -> good' b) -> answers_are good'.
Proof.
  intros Hg Hi peer req timeout w resp w' Hs Hv. apply Forall_forall. intros b Hb.
  pose proof (Hg _ _ _ _ _ _ Hs Hv) as H1'. pose proof (answers_verified _ _ _ _ _ _ Hs Hv) as H2'.
  rewrite Forall_forall in H1', H2'. auto.
Qed.
End no_panic.

Section retrieve.
Context `{CryptoHash VoteData} `{Signable LedgerInfo} `{Signable BlockData} `{!ConsensusNetwork W} `{!NetworkLaws W}.
Context (vs : ValidatorVerifier) (Hvs : verifier_wf vs) (good : Block -> Prop) (Hanswers : answers_are (W := W) vs good).
Abbreviation retriever := (BlockRetriever W).
Implicit Types (r : BlockRetriever W).

Definition for_validators r : Prop := ns_validators (br_network r) = vs.

Lemma request_block_ok req peer timeout r :
  for_validators r ->
  safe for_validators (BlockRetriever.request_block req peer timeout)
    (fun resp r' => for_validators r' /\ Forall good (brs_blocks resp) /\
       exists now, BlockRetrievalResponse.verify resp req vs now = Ok tt) r.
Proof.
  intros Hr. unfold BlockRetriever.request_block. apply safe_bind, safe_gets.
  unfold ensure. destruct (negb _); [|done]. apply safe_bind. unfold safe at 1, on.
  pose proof (rpc_no_panic peer req timeout (BlockRetriever.network r)) as Hp.
  destruct (send_rpc peer req timeout (BlockRetriever.network r)) as [[resp|e|] w'] eqn:Hsend; [|done..].
  apply safe_bind, safe_lift. destruct resp as [resp|]; [|done]. cbn [ok_or].
  pose proof (response_verify_no_panic vs Hvs resp req (clock w') (rpc_fits _ _ _ _ _ _ Hsend)) as Hnp.
  apply safe_bind, safe_gets. cbn [BlockRetriever.set_network br_network ns_validators BlockRetriever.network ns_network_sender].
  rewrite Hr. destruct (BlockRetrievalResponse.verify resp req vs (clock w')) as [[]|e|] eqn:Hv; [|done..].
  apply safe_ret. split; [done|]. split; [by eapply Hanswers|eauto].
Qed.

Lemma try_request_ok req peer timeout r :
  for_validators r ->
  safe for_validators (BlockRetriever.try_request req peer timeout)
    (fun o r' => for_validators r' /\ forall resp, o = Some resp -> Forall good (brs_blocks resp) /\
       exists now, BlockRetrievalResponse.verify resp req vs now = Ok tt) r.
Proof.
  intros Hr. pose proof (request_block_ok req peer timeout r Hr) as Hq. unfold safe, BlockRetriever.try_request in *.
  destruct (BlockRetriever.request_block req peer timeout r) as [[resp|e|] r']; [|done..].
  destruct Hq as (? & ? & ?). split; [done|]. by intros ? [= <-].
Qed.

Lemma pick_peer_ok attempt peers r :
  for_validators r -> peers <> [] ->
  safe for_validators (BlockRetriever.pick_peer attempt peers)
    (fun p r' => for_validators r' /\ (length p.2 <= length peers)%nat /\
                 (attempt <> 0 -> (length p.2 < length peers)%nat)) r.
Proof.
  intros Hr Hne. unfold BlockRetriever.pick_peer. apply safe_bind, safe_lift.
  rewrite bool_decide_false by done. cbn [negb assert_]. destruct (N.eqb_spec attempt 0) as [->|Ha].
  - apply safe_bind, safe_gets, safe_ret. split; [done|]. split; [|done].
    destruct (list_find _ peers) as [[i p]|] eqn:Hf; [|done]. cbn.
    apply list_find_Some in Hf as (Hi & _). rewrite length_delete by (by rewrite Hi). lia.
  - unfold safe. destruct (gen_range (length peers) (BlockRetriever.network r)) as [k w] eqn:Hg.
    assert (k < length peers)%nat as Hk.
    { pose proof (gen_range_lt (length peers) (BlockRetriever.network r)) as Hlt. rewrite Hg in Hlt. apply Hlt.
      destruct peers; [done|simpl; lia]. }
    apply lookup_lt_is_Some in Hk as [p Hp]. rewrite Hp. split; [done|]. cbn.
    apply lookup_lt_Some in Hp as Hl. rewrite length_delete by (by rewrite Hp). lia.
Qed.

(** What has been retrieved: a chain of good blocks of the requested length, or one that
    ends with the target. *)
Definition retrieved (num target start : N) (blocks : list Block) : Prop :=
  (exists next, chained start blocks next) /\ Forall good blocks /\
  (N.of_nat (length blocks) = num \/ exists b, last blocks = Some b /\ b_id b = target).

Lemma retrieve_loop_ok fuel num target attempt progress last_id size peer peers res start r :
  for_validators r -> 1 <= size -> chained start res last_id -> Forall good res ->
  N.of_nat (length res) = progress -> progress <= num -> num <= u64_max ->
  (N.to_nat (num - progress) + S (length peers) <= fuel)%nat -> attempt + N.of_nat fuel < 2 ^ 32 ->
  safe for_validators (BlockRetriever.retrieve_loop fuel num target attempt progress last_id size peer peers res)
    (fun blocks r' => for_validators r' /\ retrieved num target start blocks) r.
Proof.
  revert attempt progress last_id size peer peers res r.
  induction fuel as [|fuel IH]; intros attempt progress last_id size peer peers res r Hr Hsize Hch Hgood Hlen Hle Hnum Hfuel Hatt;
    [lia|].
  cbn [BlockRetriever.retrieve_loop]. destruct (N.ltb_spec progress num) as [Hlt|Hge].
  2: { apply safe_ret. split; [done|]. split; [eauto|]. split; [done|]. left. lia. }
  set (batch_size := N.min size (num - progress)).
  assert (1 <= batch_size /\ batch_size <= num - progress) as [Hb1 Hb2] by (subst batch_size; lia).
  apply safe_bind, safe_lift. unfold add32. rewrite (proj2 (N.leb_le (attempt + 1) u32_max)) by (unfold u32_max; lia).
  apply safe_bind, safe_lift. unfold retrieval_timeout. rewrite (proj2 (N.ltb_lt 0 (attempt + 1))) by lia. cbn [assert_ mbind outcome_bind].
  apply safe_bind. eapply safe_mono; [by apply try_request_ok|]. intros resp r1 [Hr1 Hresp].
  assert (safe for_validators
    (if bool_decide (peers = []) then lift (Err (Msg "Failed to fetch block: no more peers available"))
     else picked ← BlockRetriever.pick_peer (attempt + 1) peers;
          BlockRetriever.retrieve_loop fuel num target (attempt + 1) progress last_id batch_size picked.1 picked.2 res)
    (fun blocks r' => for_validators r' /\ retrieved num target start blocks) r1) as Hretry.
  { case_bool_decide as Hp; [done|]. apply safe_bind. eapply safe_mono; [by apply pick_peer_ok|].
    intros [p ps] r2 (Hr2 & _ & Hps). specialize (Hps ltac:(lia)). cbn in Hps |- *. apply IH; try done; lia. }
  destruct resp as [[status batch]|]; [|exact Hretry].
  destruct (Hresp _ eq_refl) as (Hbg & now & Hver).
  destruct (response_verify_Ok _ _ _ _ Hver) as ((next & Hbch) & Hs & Ht). cbn in Hbch, Hs, Ht, Hbg.
  destruct status; [|exact Hretry..|].
  - specialize (Hs eq_refl). fold batch_size in Hs.
    apply safe_bind, safe_lift. unfold add64, checked_add. rewrite (proj2 (N.leb_le _ _)) by lia. cbn [expect].
    destruct (last batch) as [b|] eqn:Hlast; [|apply last_None in Hlast; subst; cbn in Hs; lia].
    apply safe_bind, safe_lift. cbn [expect]. rewrite <-(chained_last _ _ _ _ Hbch Hlast).
    apply IH; try done.
    + apply chained_app. eauto.
    + by apply Forall_app.
    + rewrite length_app. lia.
    + lia.
    + lia.
    + lia.
  - destruct (Ht eq_refl) as (b & Hlast & Hb). apply safe_ret. split; [done|]. split; [|split].
    + exists next. apply chained_app. eauto.
    + by apply Forall_app.
    + right. exists b. split; [|congruence]. rewrite last_app, Hlast. done.
Qed.

(** The only way to fail other than by an error: the blocks do not end with the target. *)
Lemma retrieve_block_for_id_ok start target peers num r :
  for_validators r -> 1 <= num <= u64_max -> num + N.of_nat (length peers) + 1 < 2 ^ 32 ->
  match BlockRetriever.retrieve_block_for_id start target peers num r with
  | (Ok blocks, r') => for_validators r' /\ retrieved num target start blocks /\
      exists b, last blocks = Some b /\ b_id b = target
  | (Err _, r') => for_validators r'
  | (Panic, _) => exists blocks b, retrieved num target start blocks /\ last blocks = Some b /\ b_id b <> target
  end.
Proof.
  intros Hr Hnum Hpeers. unfold BlockRetriever.retrieve_block_for_id. case_bool_decide as Hne; [done|].
  pose proof (pick_peer_ok 0 peers r Hr Hne) as Hpick. unfold safe in Hpick. unfold mbind, method_bind.
  destruct (BlockRetriever.pick_peer 0 peers r) as [[[p ps]|e|] r1]; [|done..].
  destruct Hpick as (Hr1 & Hps & _). cbn [fst snd] in Hps |- *.
  pose proof (retrieve_loop_ok (N.to_nat num + S (length peers)) num target 0 0 start MAX_BLOCKS_PER_REQUEST p ps [] start r1)
    as Hloop. unfold safe in Hloop.
  assert (1 <= MAX_BLOCKS_PER_REQUEST) as Hmax by done.
  specialize (Hloop Hr1 Hmax eq_refl ltac:(done) eq_refl ltac:(lia) ltac:(lia) ltac:(lia) ltac:(lia)).
  destruct (BlockRetriever.retrieve_loop _ _ _ _ _ _ _ _ _ _ r1) as [[blocks|e|] r2]; [|done..].
  destruct Hloop as [Hr2 Hret]. destruct (last blocks) as [b|] eqn:Hlast.
  - cbn. destruct (N.eqb_spec (b_id b) target) as [<-|Hneq]; cbn; [eauto|].
    exists blocks, b. done.
  - apply last_None in Hlast as ->. destruct Hret as (_ & _ & [Hl|(b & Hb & _)]); [cbn in Hl; lia|done].
Qed.

Lemma retrieve_certified_ok qc r :
  for_validators r -> N.of_nat (size (lis_signatures (qc_signed_ledger_info qc))) + 2 < 2 ^ 32 ->
  let id := bi_id (QuorumCert.certified_block qc) in
  safe for_validators (BlockRetriever.retrieve_block_for_qc qc 1 id)
    (fun blocks r' => for_validators r' /\ exists b, head blocks = Some b /\ b_id b = id /\ good b) r.
Proof.
  intros Hr Hsig id. unfold safe, BlockRetriever.retrieve_block_for_qc. fold id.
  pose proof (retrieve_block_for_id_ok id id (btree_iter (lis_signatures (qc_signed_ledger_info qc))).*1 1 r Hr) as Hret.
  specialize (Hret ltac:(unfold u64_max; lia)).
  assert (length (btree_iter (lis_signatures (qc_signed_ledger_info qc))).*1 = size (lis_signatures (qc_signed_ledger_info qc))) as Hlen
    by (by rewrite length_fmap, btree_iter_perm, length_map_to_list).
  rewrite Hlen in Hret. specialize (Hret ltac:(lia)).
  destruct (BlockRetriever.retrieve_block_for_id _ _ _ _ r) as [[blocks|e|] r'].
  - destruct Hret as (Hr' & ((next & Hch) & Hg & _) & b & Hlast & _). split; [done|].
    destruct blocks as [|b0 blocks]; [done|]. exists b0. split; [done|]. split; [apply Hch|by inversion Hg].
  - done.
  - destruct Hret as (blocks & b & ((next & Hch) & _ & [Hl|(b' & Hb' & He)]) & Hlast & Hne); [|congruence].
    destruct blocks as [|b0 [|]]; [done| |cbn in Hl; lia]. injection Hlast as ->. apply Hne, Hch.
Qed.

(** *** One peer that has the block is enough *)

(** The peer always answers the request for one block, with blocks that pass the checks. *)
Definition has_block (p : Author) (id : HashValue) : Prop := forall timeout w, exists resp w',
  let req := BlockRetrievalRequest.new_with_target_block_id id 1 id in
  send_rpc p req timeout w = (Ok (Some resp), w') /\ BlockRetrievalResponse.verify resp req vs (clock w') = Ok tt /\
  (brs_status resp = Succeeded \/ brs_status resp = SucceededWithTarget).

Definition same_sender r r' : Prop :=
  ns_validators (br_network r') = ns_validators (br_network r) /\ ns_author (br_network r') = ns_author (br_network r).

Lemma try_request_sender req peer timeout r :
  match BlockRetriever.try_request req peer timeout r with
  | (Ok _, r') => same_sender r r'
  | (Err _, _) => False
  | (Panic, _) => True
  end.
Proof.
  unfold BlockRetriever.try_request, BlockRetriever.request_block, mbind, method_bind, gets, lift, on, mret, method_ret.
  destruct (ensure _ _); [|by split|done]. destruct (send_rpc _ _ _ _) as [[[resp|]|e|] w']; cbn; [|by split|by split|done].
  destruct (BlockRetrievalResponse.verify _ _ _ _); [by split|by split|done].
Qed.
Lemma pick_peer_sender attempt peers r : attempt <> 0 -> peers <> [] ->
  match BlockRetriever.pick_peer attempt peers r with
  | (Ok picked, r') => same_sender r r' /\ forall p, p ∈ peers -> picked.1 = p \/ p ∈ picked.2
  | (Err _, _) => False
  | (Panic, _) => True
  end.
Proof.
  intros Ha Hne. unfold BlockRetriever.pick_peer, mbind, method_bind, lift. rewrite bool_decide_false by done. cbn [negb assert_].
  rewrite (proj2 (N.eqb_neq _ _)) by done. destruct (gen_range _ _) as [k w]. destruct (peers !! k) as [q|] eqn:Hk; [|done].
  split; [by split|]. cbn. intros p [i Hi]%list_elem_of_lookup. destruct (decide (i = k)) as [->|Hik]; [left; congruence|right].
  destruct (decide (i < k)%nat).
  - apply list_elem_of_lookup. exists i. by rewrite list_lookup_delete_lt.
  - apply list_elem_of_lookup. exists (i - 1)%nat. rewrite list_lookup_delete_ge by lia. by replace (S (i - 1)) with i by lia.
Qed.

Lemma try_request_has_block p id timeout r :
  for_validators r -> p <> ns_author (br_network r) -> has_block p id ->
  exists resp r', BlockRetriever.try_request (BlockRetrievalRequest.new_with_target_block_id id 1 id) p timeout r = (Ok (Some resp), r') /\
    (brs_status resp = Succeeded \/ brs_status resp = SucceededWithTarget).
Proof.
  intros Hr Hp Hhas. destruct (Hhas timeout (BlockRetriever.network r)) as (resp & w' & Hsend & Hver & Hst).
  exists resp, (BlockRetriever.set_network w' r). split; [|done].
  unfold BlockRetriever.try_request, BlockRetriever.request_block, mbind, method_bind, gets, lift, on, mret, method_ret.
  rewrite (proj2 (N.eqb_neq _ _)) by done. cbn [negb ensure]. rewrite Hsend. cbn. by rewrite Hr, Hver.
Qed.

Lemma retrieve_loop_has_block fuel p id size attempt peer peers r e :
  for_validators r -> p <> ns_author (br_network r) -> has_block p id -> 1 <= size -> peer = p \/ p ∈ peers ->
  (BlockRetriever.retrieve_loop fuel 1 id attempt 0 id size peer peers [] r).1 <> Err e.
Proof.
  revert size attempt peer peers r. induction fuel as [|fuel IH]; intros size attempt peer peers r Hr Hp Hhas Hsize Hin; [done|].
  cbn [BlockRetriever.retrieve_loop N.ltb N.compare]. replace (N.min size (1 - 0)) with 1 by lia.
  unfold mbind at 1, method_bind at 1, lift at 1. unfold add32. destruct (_ <=? u32_max); [|done].
  unfold mbind at 1, method_bind at 1, lift at 1, retrieval_timeout. rewrite (proj2 (N.ltb_lt 0 (attempt + 1))) by lia.
  cbn [assert_ mbind outcome_bind]. set (timeout := RETRIEVAL_INITIAL_TIMEOUT * _).
  set (req := BlockRetrievalRequest.new_with_target_block_id id 1 id). unfold mbind at 1, method_bind at 1.
  pose proof (try_request_sender req peer timeout r) as Hsender.
  assert (peer = p -> exists resp r', BlockRetriever.try_request req peer timeout r = (Ok (Some resp), r') /\
    (brs_status resp = Succeeded \/ brs_status resp = SucceededWithTarget)) as Hpeer by (intros ->; by apply try_request_has_block).
  destruct (BlockRetriever.try_request req peer timeout r) as [[resp|?|] r1]; [|done..]. destruct Hsender as [Hvs1 Hauthor].
  assert (for_validators r1) as Hr1 by (unfold for_validators; by rewrite Hvs1).
  assert (p ∈ peers -> ((if bool_decide (peers = []) then lift (Err (Msg "Failed to fetch block: no more peers available"))
     else picked ← BlockRetriever.pick_peer (attempt + 1) peers;
          BlockRetriever.retrieve_loop fuel 1 id (attempt + 1) 0 id 1 picked.1 picked.2 []) r1).1 <> Err e) as Hretry.
  { intros Hp'. assert (peers <> []) as Hne by (by intros ->; apply elem_of_nil in Hp'). rewrite bool_decide_false by done.
    unfold mbind, method_bind. pose proof (pick_peer_sender (attempt + 1) peers r1 ltac:(lia) Hne) as Hpick.
    destruct (BlockRetriever.pick_peer (attempt + 1) peers r1) as [[picked|?|] r2]; [|done..].
    destruct Hpick as [[Hvs2 Ha2] Hpick]. apply IH; [|by rewrite Ha2, Hauthor|done|done|by apply Hpick].
    unfold for_validators. by rewrite Hvs2. }
  assert (forall o, resp = o -> (forall x, o = Some x -> brs_status x <> Succeeded /\ brs_status x <> SucceededWithTarget) -> p ∈ peers) as Hother.
  { intros o <- Ho. destruct Hin as [->|Hin]; [|done]. destruct (Hpeer eq_refl) as (x & r' & [= -> <-] & Hst).
    destruct (Ho x eq_refl). by destruct Hst. }
  destruct resp as [[status batch]|]; [|by apply Hretry, (Hother None)]. destruct status.
  - unfold mbind, method_bind, lift, add64, checked_add. destruct (_ <=? u64_max); [|done]. cbn [expect].
    destruct (last batch) as [b|] eqn:Hlast; [|done]. cbn [expect]. destruct batch as [|b' batch]; [done|].
    destruct fuel; cbn [BlockRetriever.retrieve_loop]; (rewrite (proj2 (N.ltb_ge _ _)) by (cbn [length]; lia)); done.
  - apply Hretry, (Hother _ eq_refl). by intros x [= <-].
  - apply Hretry, (Hother _ eq_refl). by intros x [= <-].
  - done.
Qed.

(** A retrieval that asks a peer with the block does not fail. *)
Lemma retrieve_certified_has_block qc p r e :
  let id := bi_id (QuorumCert.certified_block qc) in
  for_validators r -> is_Some (lis_signatures (qc_signed_ledger_info qc) !! p) -> p <> ns_author (br_network r) -> has_block p id ->
  (BlockRetriever.retrieve_block_for_qc qc 1 id r).1 <> Err e.
Proof.
  intros id Hr Hp Hne Hhas. unfold BlockRetriever.retrieve_block_for_qc, BlockRetriever.retrieve_block_for_id. fold id.
  set (peers := (btree_iter (lis_signatures (qc_signed_ledger_info qc))).*1).
  assert (p ∈ peers) as Hin.
  { destruct Hp as [sig Hp]. apply list_elem_of_fmap. exists (p, sig). split; [done|]. by apply elem_of_btree_iter. }
  assert (peers <> []) as Hnil by (by intros Heq; rewrite Heq in Hin; apply elem_of_nil in Hin).
  rewrite bool_decide_false by done. unfold mbind at 1, method_bind at 1.
  unfold BlockRetriever.pick_peer, mbind at 1, method_bind at 1, lift at 1. rewrite bool_decide_false by done. cbn [negb assert_ N.eqb].
  set (preferred := br_preferred_peer r).
  set (rest := match list_find (fun p => p = preferred) peers with Some (i, _) => delete i peers | None => peers end).
  assert (preferred = p \/ p ∈ rest) as Hsplit.
  { destruct (decide (preferred = p)) as [|Hpref]; [by left|right]. unfold rest. destruct (list_find _ peers) as [[i q]|] eqn:Hf; [|done].
    apply list_find_Some in Hf as (Hi & -> & _). apply list_elem_of_lookup in Hin as [k Hk]. apply list_elem_of_lookup.
    destruct (decide (k < i)%nat); [exists k; by rewrite list_lookup_delete_lt|exists (k - 1)%nat].
    assert (k <> i) by (intros ->; congruence). rewrite list_lookup_delete_ge by lia. by replace (S (k - 1)) with k by lia. }
  unfold mbind at 1, method_bind at 1, gets at 1, mret, method_ret. cbn [fst snd].
  fold preferred. fold rest.
  pose proof (retrieve_loop_has_block (N.to_nat 1 + S (length peers)) p id MAX_BLOCKS_PER_REQUEST 0 preferred rest r e Hr Hne Hhas
    ltac:(done) Hsplit) as Hloop. unfold mbind, method_bind, lift.
  destruct (BlockRetriever.retrieve_loop _ _ _ _ _ _ _ _ _ _ r) as [[blocks|e'|] r2]; cbn in Hloop |- *; [|done..].
  destruct (last blocks) as [b|]; cbn; [|done]. by destruct (b_id b =? id).
Qed.
End retrieve.

(** ** The store that catches up *)
Section catch_up.
Context `{HashOrderLaws} `{StateComputerLaws C} `{LivenessStorageLaws L} `{!ConsensusNetwork W}.
Context `{CryptoHash VoteData} `{Signable LedgerInfo} `{Signable BlockData} `{CryptoHash BlockData}.
Context (ch : Chain) (Hch : chain_ok ch) (vs : ValidatorVerifier).

(** A block of the chain. *)
Record block_ok (b : Block) : Prop := {
  bo_content : content ch (b_id b) = Some (b_block_data b);
  bo_cert : cert_ok ch (Block.quorum_cert b);
  bo_round : bi_round (QuorumCert.certified_block (Block.quorum_cert b)) < Block.round b;
  bo_signers : N.of_nat (size (lis_signatures (qc_signed_ledger_info (Block.quorum_cert b)))) + 2 < 2 ^ 32;
}.

Context (Hvs : verifier_wf vs) `{!NetworkLaws W} (Hanswers : answers_are (W := W) vs block_ok).
Abbreviation session := (BlockStore C L * BlockRetriever W)%type.
Implicit Types (s : BlockStore C L * BlockRetriever W).

Definition session_ok s : Prop := store_ok ch s.1 /\ for_validators vs s.2.

Lemma on_store_ok {A} (m : method (BlockStore C L) AnyError A) (Q : A -> BlockStore C L -> Prop) s :
  session_ok s -> safe (store_ok ch) m Q s.1 ->
  safe session_ok (SyncManager.on_store m) (fun a s' => Q a s'.1 /\ s'.2 = s.2) s.
Proof.
  intros [_ Hv]. unfold safe, SyncManager.on_store, on. destruct (m s.1) as [[a|e|] st]; done.
Qed.

Lemma fetch_loop_ok fuel qc pending s :
  session_ok s -> cert_ok ch qc ->
  N.of_nat (size (lis_signatures (qc_signed_ledger_info qc))) + 2 < 2 ^ 32 ->
  Forall block_ok pending -> (S (N.to_nat (bi_round (QuorumCert.certified_block qc))) < fuel)%nat ->
  safe session_ok (SyncManager.fetch_loop fuel qc pending)
    (fun blocks s' => session_ok s' /\ Forall block_ok blocks) s.
Proof.
  revert qc pending s. induction fuel as [|fuel IH]; intros qc pending s Hs Hqc Hsig Hpend Hfuel; [lia|].
  unfold safe. cbn [SyncManager.fetch_loop]. destruct (BlockStore.block_exists _ s.1); [done|].
  apply (safe_bind session_ok). unfold SyncManager.on_retriever, on, safe at 1.
  pose proof (retrieve_certified_ok vs Hvs block_ok Hanswers qc s.2 (proj2 Hs) Hsig) as Hret. unfold safe in Hret.
  destruct (BlockRetriever.retrieve_block_for_qc _ _ _ s.2) as [[blocks|e|] r]; [|by destruct Hs|done].
  destruct Hret as (Hr & b & Hhead & Hid & Hb). apply safe_bind, safe_lift. rewrite Hhead. cbn [expect].
  apply IH; [by destruct Hs|apply Hb|apply Hb|by constructor|].
  assert (bi_round (QuorumCert.certified_block qc) = Block.round b) as Hround.
  { pose proof (bo_content _ Hb) as Hc. rewrite Hid in Hc. rewrite (co_round _ _ Hqc) by (by rewrite Hc).
    unfold round_of. by rewrite Hc. }
  pose proof (bo_round _ Hb). lia.
Qed.

Lemma insert_pending_ok pending s :
  session_ok s -> Forall block_ok pending ->
  safe session_ok (SyncManager.insert_pending pending) (fun _ => session_ok) s.
Proof.
  revert s. induction pending as [|b pending IH]; intros s Hs Hp; [done|]. inversion Hp as [|?? Hb Hp']; subst.
  cbn [SyncManager.insert_pending]. apply safe_bind.
  eapply safe_mono; [apply on_store_ok; [done|]; apply insert_single_quorum_cert_ok; [done|apply Hs|apply Hb]|].
  intros ? s1 [[Hs1 _] Hr1]. assert (session_ok s1) as Hok1 by (split; [done|rewrite Hr1; apply Hs]).
  apply safe_bind.
  eapply safe_mono; [apply on_store_ok; [done|]; apply execute_and_insert_block_ok; [done|done|apply Hb]|].
  intros ? s2 [Hs2 Hr2]. apply IH; [|done]. split; [done|]. rewrite Hr2. apply Hok1.
Qed.

(** The round of a certificate is covered by the highest certified block. *)
Abbreviation covered qc s :=
  (bi_round (QuorumCert.certified_block qc) <= round_of ch (highest_certified_block_id (inner s.1))).

Lemma insert_single_ok qc s :
  session_ok s -> cert_ok ch qc ->
  safe session_ok (SyncManager.on_store (BlockStore.insert_single_quorum_cert qc)) (fun _ s' => session_ok s' /\ covered qc s') s.
Proof.
  intros Hs Hqc. eapply safe_mono; [apply on_store_ok; [done|]; by apply insert_single_quorum_cert_ok; [|apply Hs|]|].
  intros ? s1 [[Hs1 Hc] Hr]. split; [|done]. split; [done|]. rewrite Hr. apply Hs.
Qed.

Lemma fetch_quorum_cert_ok qc s :
  session_ok s -> cert_ok ch qc -> N.of_nat (size (lis_signatures (qc_signed_ledger_info qc))) + 2 < 2 ^ 32 ->
  safe session_ok (SyncManager.fetch_quorum_cert qc) (fun _ s' => session_ok s' /\ covered qc s') s.
Proof.
  intros Hs Hqc Hsig. unfold SyncManager.fetch_quorum_cert. apply safe_bind.
  eapply safe_mono; [apply fetch_loop_ok; [done..|by constructor|lia]|]. intros blocks s1 [Hs1 Hb].
  apply safe_bind. eapply safe_mono; [by apply insert_pending_ok|]. intros ? s2 Hs2. by apply insert_single_ok.
Qed.

Lemma sync_insert_quorum_cert_ok qc s :
  session_ok s -> cert_ok ch qc -> N.of_nat (size (lis_signatures (qc_signed_ledger_info qc))) + 2 < 2 ^ 32 ->
  safe session_ok (SyncManager.insert_quorum_cert qc) (fun _ => session_ok) s.
Proof.
  intros Hs Hqc Hsig. unfold SyncManager.insert_quorum_cert. apply safe_bind, safe_gets.
  destruct (roots_present ch (inner s.1) (proj1 (proj1 Hs))) as (o & c & Ho & _ & Hor & _).
  unfold SyncManager.need_fetch_for_quorum_cert, BlockStore.ordered_root. rewrite Ho. cbn [mbind outcome_bind].
  apply safe_bind. eapply safe_mono with (Q := fun _ s' => session_ok s' /\ covered qc s').
  - destruct (N.ltb_spec (bi_round (QuorumCert.certified_block qc)) (ExecutedBlock.round o)) as [Hlt|Hge].
    { apply safe_ret. split; [done|]. pose proof (in_highest _ _ (proj1 (proj1 Hs))). lia. }
    case_bool_decide as Hex.
    { apply safe_ret. split; [done|]. destruct Hex as [q Hq].
      destruct (in_certs _ _ (proj1 (proj1 Hs)) _ _ Hq) as (Hid & Hc & Hqok & Hle).
      rewrite (co_round _ _ Hqc Hc). rewrite Hid in Hc. rewrite (co_round _ _ Hqok Hc), <-Hid in Hle. done. }
    destruct (BlockStore.block_exists _ s.1); [by apply insert_single_ok|by apply fetch_quorum_cert_ok].
  - intros ? s1 [Hs1 Hcov]. destruct (roots_present ch (inner s1.1) (proj1 (proj1 Hs1))) as (o1 & _ & Ho1 & _).
    apply safe_bind, safe_gets. rewrite Ho1. destruct (_ <? _); [|done].
    apply safe_bind. eapply safe_mono; [apply on_store_ok; [done|]; apply commit_ok; [done|apply Hs1|done|done]|].
    intros ? s2 [[Hs2 _] Hr2]. assert (session_ok s2) as Hok2 by (split; [done|rewrite Hr2; apply Hs1]).
    destruct (QuorumCert.ends_epoch qc); [|done]. by destruct Hok2.
Qed.
End catch_up.
