(* ===== verification/BlockStoreRun.v ===== *)
(** * Executions of a block store

    The chain that the replicas of an epoch agree on, and the events that a block store
    handles over time.

    ** The chain

    What the block store relies on, from the agreement of the replicas: the certified
    blocks are those with a quorum of votes, the finalized ones those that a two-chain
    commits. *)

From S2P Require Import Prelude Crypto Errors Position Accumulator Verifier Ledger ConsensusTypes Blocks Storage SafetyRules SafetyLemmas Replica Bft Agreement TransactionProofs BlockTree ConsensusDb LivenessStorage BlockStore BlockTreeLemmas BlockStoreLemmas SyncManager SyncLemmas.

Section chain.
Context `{KVStorageLaws Store} `{ConsensusCrypto} `{!CollisionFree VoteData}.
Context (V : N -> ValidatorVerifier) (honest : gset N) (g : gmap N (Replica Store)) (e : N).
Context (genesis origin : HashValue) (content : HashValue -> option BlockData).

(** The blocks of the epoch: ids are hashes, so that a vote is for the block its id stands
    for; certificates are checked before a block is kept, and those of round 0 are for the
    genesis block of the epoch. *)
Record blocks_of_epoch : Prop := {
  be_genesis : exists d, content genesis = Some d /\ bd_round d = 0 /\ content (BlockData.parent_id d) = None;
  be_empty : content (bi_id BlockInfo.empty) = None;
  be_vote a v : in_log g a (RVote v) -> vote_epoch v = e ->
    exists d, content (bi_id (vd_proposed (v_vote_data v))) = Some d /\ bd_round d = vote_round v /\
      QuorumCert.certified_block (bd_quorum_cert d) = vd_parent (v_vote_data v);
  be_cert i d : content i = Some d -> i <> genesis ->
    let qc := bd_quorum_cert d in
    bi_round (QuorumCert.certified_block qc) < bd_round d /\
    bi_epoch (QuorumCert.certified_block qc) = e /\
    (bi_round (QuorumCert.certified_block qc) = 0 -> bi_id (QuorumCert.certified_block qc) = genesis) /\
    (bi_round (QuorumCert.certified_block qc) <> 0 ->
       QuorumCert.verify qc (V e) = Ok tt /\ unforged_li V honest g (qc_signed_ledger_info qc));
}.

Definition certified_id (i : HashValue) : Prop :=
  i = genesis \/ exists vd, Bft.certified V honest g vd /\ bi_epoch (vd_proposed vd) = e /\ bi_id (vd_proposed vd) = i.
Definition finalized_id (i : HashValue) : Prop :=
  i = genesis \/ exists vd, two_chain V honest g vd /\ bi_epoch (vd_proposed vd) = e /\
    bi_round (vd_parent vd) <> 0 /\ bi_id (vd_parent vd) = i.
Definition protocol_chain : Chain := mkChain content certified_id finalized_id origin.

Context (Hb : fault_bound V honest) (Hok : system_ok V honest g) (Hbe : blocks_of_epoch).

(** The block of a certified vote. *)
Lemma certified_content vd :
  Bft.certified V honest g vd -> bi_epoch (vd_proposed vd) = e ->
  exists d, content (bi_id (vd_proposed vd)) = Some d /\ bd_round d = bi_round (vd_proposed vd) /\
    QuorumCert.certified_block (bd_quorum_cert d) = vd_parent vd /\ bi_round (vd_parent vd) < bi_round (vd_proposed vd).
Proof.
  intros Hc He. destruct Hc as (Q & HQ & Hv). destruct (honest_overlap V honest _ _ _ Hb HQ HQ) as (a & Ha & _ & Hh).
  destruct (Hv a Ha Hh) as (v & Hin & <-). destruct (be_vote Hbe a v Hin He) as (d & Hd & Hr & Hp).
  exists d. split_and!; [done..|]. apply (su_round _ _ _ _ (so_vote _ _ _ Hok _ _ Hin)).
Qed.

Lemma not_genesis vd : Bft.certified V honest g vd -> bi_epoch (vd_proposed vd) = e -> bi_id (vd_proposed vd) <> genesis.
Proof.
  intros Hc He Hg. destruct (certified_content vd Hc He) as (d & Hd & Hr & _ & Hlt).
  destruct (be_genesis Hbe) as (d0 & Hd0 & Hr0 & _). rewrite Hg in Hd. assert (d0 = d) as -> by congruence. lia.
Qed.

(** The parent of a certified block: genesis, or certified. *)
Lemma certified_parent_id vd :
  Bft.certified V honest g vd -> bi_epoch (vd_proposed vd) = e ->
  (bi_round (vd_parent vd) = 0 /\ bi_id (vd_parent vd) = genesis) \/
  (bi_round (vd_parent vd) <> 0 /\ exists vd', Bft.certified V honest g vd' /\ vd_proposed vd' = vd_parent vd /\ bi_epoch (vd_proposed vd') = e).
Proof.
  intros Hc He. destruct (decide (bi_round (vd_parent vd) = 0)) as [Hr|Hr].
  - left. split; [done|]. destruct (certified_content vd Hc He) as (d & Hd & _ & Hp & _).
    destruct (be_cert Hbe _ _ Hd (not_genesis vd Hc He)) as (_ & _ & H0' & _). rewrite Hp in H0'. auto.
  - right. split; [done|]. destruct (certified_parent V honest g vd Hb Hok Hc Hr) as (vd' & ? & ? & ?).
    exists vd'. split_and!; [done..|congruence].
Qed.

Lemma parent_descends r vd :
  Bft.certified V honest g vd -> bi_epoch (vd_proposed vd) = e -> descends content r (bi_id (vd_parent vd)) ->
  descends content r (bi_id (vd_proposed vd)).
Proof.
  intros Hc He Hd. destruct (certified_content vd Hc He) as (d & Hd' & _ & Hp & _).
  apply (descends_step _ _ _ d); [done|]. unfold BlockData.parent_id. by rewrite Hp.
Qed.

Lemma genesis_descends vd :
  Bft.certified V honest g vd -> bi_epoch (vd_proposed vd) = e -> descends content genesis (bi_id (vd_proposed vd)).
Proof.
  remember (bi_round (vd_proposed vd)) as k eqn:Hk. revert vd Hk.
  induction (N.lt_wf_0 k) as [k _ IH]. intros vd -> Hc He. apply parent_descends; [done..|].
  destruct (certified_parent_id vd Hc He) as [[_ ->]|(_ & vd' & Hc' & Hp & He')]; [apply descends_refl|].
  rewrite <-Hp. eapply IH; [|done..]. destruct (certified_content vd Hc He) as (_ & _ & _ & _ & Hlt). by rewrite Hp.
Qed.

(** A chain of certified blocks is one of ids. *)
Lemma extends_descends b b' :
  extends V honest g b b' -> bi_epoch b' = e -> descends content (bi_id b) (bi_id b') /\ bi_epoch b = e.
Proof.
  induction 1 as [b|b c b' (vd & Hc & <- & <-) _ IH]; intros He; [split; [apply descends_refl|done]|].
  destruct (IH He) as [Hd He']. split.
  - eapply descends_trans; [|exact Hd]. apply parent_descends; [done..|apply descends_refl].
  - destruct (certified_supported V honest g vd Hb Hok Hc) as (v & Hs & <-). by rewrite (su_epoch _ _ _ _ Hs).
Qed.

Lemma protocol_rounds : rounds_increase content.
Proof.
  intros i d p Hi Hp. destruct (decide (i = genesis)) as [->|Hne].
  { destruct (be_genesis Hbe) as (d0 & Hd0 & _ & Hn). assert (d0 = d) as -> by congruence. congruence. }
  destruct (be_cert Hbe i d Hi Hne) as (Hlt & He & H0' & Hv). unfold BlockData.parent_id in Hp.
  destruct (decide (bi_round (QuorumCert.certified_block (bd_quorum_cert d)) = 0)) as [Hr|Hr].
  { destruct (be_genesis Hbe) as (d0 & Hd0 & Hr0 & _). rewrite (H0' Hr) in Hp. assert (p = d0) as -> by congruence. lia. }
  destruct (Hv Hr) as [Hver Hu].
  pose proof (qc_certified V honest g e (bd_quorum_cert d) Hok Hver Hu He Hr) as Hc.
  destruct (certified_content _ Hc He) as (p' & Hp' & Hpr & _). unfold QuorumCert.certified_block in *.
  assert (p' = p) as -> by congruence. lia.
Qed.

Lemma protocol_chain_ok : chain_ok protocol_chain.
Proof.
  split; simpl.
  - apply protocol_rounds.
  - intros i [->|(vd & [Hc _] & He & Hr & <-)]; [by left|right].
    destruct (certified_parent V honest g vd Hb Hok Hc Hr) as (vd' & Hc' & Hp & He').
    exists vd'. rewrite Hp in *. split_and!; [done|congruence|done].
  - intros c i Hf Hcert _ Hic Hle. destruct Hf as [->|(vd1 & H2 & He1 & Hr1 & <-)].
    + destruct Hcert as [->|(vd & Hc & He & <-)]; [apply descends_refl|by apply genesis_descends].
    + destruct (certified_parent V honest g vd1 Hb Hok (proj1 H2) Hr1) as (vd0 & Hc0 & Hp0 & He0).
      destruct (certified_content vd0 Hc0) as (d0 & Hd0 & Hdr0 & _); [congruence|].
      unfold round_of in Hle. simpl in Hle. rewrite <-Hp0, Hd0 in Hle. simpl in Hle. rewrite Hdr0, Hp0 in Hle.
      destruct Hcert as [->|(vd & Hc & He & <-)].
      * destruct (be_genesis Hbe) as (dg & Hdg & Hrg & _). rewrite Hdg in Hle. simpl in Hle. lia.
      * destruct (certified_content vd Hc He) as (d & Hd & Hdr & _). rewrite Hd in Hle. simpl in Hle. rewrite Hdr in Hle.
        apply extends_descends; [|done]. by apply two_chain_extends; [..|congruence|].
Qed.

(** The ledger info of a verified certificate commits the parent of a two-chain, or nothing. *)
Lemma cert_commits qc :
  QuorumCert.verify qc (V e) = Ok tt -> unforged_li V honest g (qc_signed_ledger_info qc) ->
  bi_epoch (QuorumCert.certified_block qc) = e -> bi_round (QuorumCert.certified_block qc) <> 0 ->
  let vd := qc_vote_data qc in
  Bft.certified V honest g vd /\
  (QuorumCert.commit_info qc = BlockInfo.empty \/
   two_chain V honest g vd /\ same_block (vd_parent vd) (QuorumCert.commit_info qc)).
Proof.
  intros Hver Hu He Hr vd. pose proof (qc_certified V honest g e qc Hok Hver Hu He Hr) as Hc. split; [done|].
  destruct (qc_verify_Ok qc (V e) Hver Hr) as (Hh & HQ & Hsig & _). fold vd in Hh.
  destruct (honest_overlap V honest _ _ _ Hb HQ HQ) as (a & Ha & _ & Hha).
  apply elem_of_dom in Ha as [s Hs]. destruct (Hu e a s Hha Hs (Hsig a s Hs)) as [(v & Hin & Hli)|Hin].
  - pose proof (so_vote _ _ _ Hok _ _ Hin) as [S1 S2 S3 _ _ _].
    change (lis_ledger_info (qc_signed_ledger_info qc)) with (QuorumCert.ledger_info qc) in Hli.
    assert (v_vote_data v = vd) as Hvd by (apply hash_inj; congruence).
    unfold QuorumCert.commit_info. rewrite <-Hli, S2. unfold parent_round, vote_round. rewrite Hvd.
    destruct (N.eqb_spec (bi_round (vd_parent vd) + 1) (bi_round (vd_proposed vd))) as [Hcons|_]; [right|by left].
    split; [by split|]. by split_and!.
  - right. destruct (so_commit _ _ _ Hok _ _ Hin) as (vd' & Htc & Hh' & Hsb).
    change (lis_ledger_info (qc_signed_ledger_info qc)) with (QuorumCert.ledger_info qc) in Hh', Hsb.
    assert (vd' = vd) as -> by (apply hash_inj; congruence). done.
Qed.

Lemma protocol_cert_ok qc :
  QuorumCert.verify qc (V e) = Ok tt -> unforged_li V honest g (qc_signed_ledger_info qc) ->
  bi_epoch (QuorumCert.certified_block qc) = e ->
  (bi_round (QuorumCert.certified_block qc) = 0 -> bi_id (QuorumCert.certified_block qc) = genesis) ->
  cert_ok protocol_chain qc.
Proof.
  intros Hver Hu He Hg. destruct (be_genesis Hbe) as (dg & Hdg & Hrg & _).
  destruct (decide (bi_round (QuorumCert.certified_block qc) = 0)) as [Hr|Hr].
  - assert (QuorumCert.certified_block qc = QuorumCert.commit_info qc) as Hcc.
    { unfold QuorumCert.verify in Hver. rewrite (proj2 (N.eqb_eq _ _) Hr) in Hver. run. by breflect. }
    assert (finalized_id genesis /\ certified_id genesis) as [Hf Hc] by (split; by left).
    assert (0 = round_of protocol_chain genesis) as H0' by (unfold round_of; simpl; by rewrite Hdg).
    split; rewrite <-?Hcc, ?(Hg Hr), ?Hr; [done|done|done|lia].
  - destruct (cert_commits qc Hver Hu He Hr) as [Hc Hcommit].
    destruct (certified_content _ Hc He) as (d & Hd & Hdr & _ & Hlt).
    split.
    + apply (or_intror (A := _ = genesis)). by exists (qc_vote_data qc).
    + intros _. unfold round_of, QuorumCert.certified_block. simpl. by rewrite Hd.
    + intros [dc Hdc]. destruct Hcommit as [Hempty|[Htc (_ & Hsr & Hsi)]].
      { pose proof (be_empty Hbe) as Hn. rewrite Hempty in Hdc. simpl in Hn, Hdc. congruence. }
      unfold round_of. simpl in *. rewrite <-Hsr, <-Hsi in *. rewrite Hdc.
      destruct (certified_parent_id _ Hc He) as [[Hpr Hpi]|(Hpr & vd' & Hc' & Hp & He')].
      * rewrite Hpi in *. split; [by apply or_introl|]. assert (dc = dg) as -> by congruence. simpl. congruence.
      * split; [apply or_intror; eauto 6|]. destruct (certified_content _ Hc' He') as (d' & Hd' & Hdr' & _).
        rewrite Hp in Hd', Hdr'. assert (d' = dc) as -> by congruence. simpl. congruence.
    + destruct Hcommit as [->|[_ (_ & <- & _)]]; [simpl; lia|]. unfold QuorumCert.certified_block. lia.
Qed.

Lemma cert_signers qc : QuorumCert.verify qc (V e) = Ok tt ->
  N.of_nat (size (lis_signatures (qc_signed_ledger_info qc))) <= Verifier.len (V e).
Proof.
  unfold QuorumCert.verify. intros (? & _ & Hv)%bind_Ok. destruct (_ =? 0).
  - apply bind_Ok in Hv as (? & _ & (? & _ & Hv%ensure_Ok%bool_decide_eq_true)%bind_Ok). rewrite Hv, map_size_empty. lia.
  - apply bind_Ok in Hv as (? & Hv & _). unfold with_context, try_verify, LedgerInfoWithSignatures.verify_signatures in Hv.
    destruct (Verifier.batch_verify_aggregated_signatures _ _ _) as [u|?|] eqn:Hbv; [|done..].
    unfold Verifier.batch_verify_aggregated_signatures, Verifier.check_num_of_signatures in Hbv.
    apply bind_Ok in Hbv as (? & Hn%ensure_Ok%negb_true_iff%N.ltb_ge & _). done.
Qed.

(** A verified block with the contents that its id stands for is a block of the chain. *)
Lemma protocol_block_ok b : Verifier.len (V e) + 2 < 2 ^ 32 -> verified (V e) b -> content (b_id b) = Some (b_block_data b) ->
  block_ok protocol_chain b.
Proof.
  intros Hlen (now & Hsig & Hwf) Hc.
  assert (QuorumCert.verify (Block.quorum_cert b) (V e) = Ok tt) as Hqc.
  { unfold Block.validate_signature in Hsig. destruct (bd_block_type (b_block_data b)); [|done|done].
    by apply bind_Ok in Hsig as (? & _ & (? & _ & Hqc)%bind_Ok). }
  unfold Block.verify_well_formed in Hwf.
  apply bind_Ok in Hwf as (? & _ & (? & Hround%ensure_Ok%N.ltb_lt & _)%bind_Ok).
  destruct (be_genesis Hbe) as (dg & Hdg & Hrg & _).
  assert (b_id b <> genesis) as Hng by (intros Hg; rewrite Hg in Hc; assert (dg = b_block_data b) as -> by congruence; unfold Block.round in Hround; lia).
  destruct (be_cert Hbe _ _ Hc Hng) as (_ & He & Hz & Hu). pose proof (cert_signers _ Hqc).
  split; [done| |done|lia]. apply protocol_cert_ok; [done| |done|done].
  destruct (decide (bi_round (QuorumCert.certified_block (Block.quorum_cert b)) = 0)) as [H0'|H0']; [|by apply Hu].
  unfold QuorumCert.verify in Hqc. rewrite (proj2 (N.eqb_eq _ _) H0') in Hqc.
  apply bind_Ok in Hqc as (? & _ & (? & _ & (? & _ & Hs%ensure_Ok%bool_decide_eq_true)%bind_Ok)%bind_Ok).
  intros e' a s _ Ha. by rewrite Hs, lookup_empty in Ha.
Qed.
End chain.

(** ** Executions of a block store

    The events that a block store handles over time: blocks and certificates from the
    round manager, and callbacks from the state computer, in any interleaving. *)
Inductive StoreEvent : Type :=
  | ReceiveBlock (block : Block)
  | ReceiveCert (qc : QuorumCert)
  | ReceiveTimeout (tc : TwoChainTimeoutCertificate)
  | CallBack (finality_proof : QuorumCert) (committed : list ExecutedBlock) (decision : LedgerInfoWithSignatures).

Section run.
Context `{HashOrder} `{StateComputer C} `{PersistentLivenessStorage L} `{ConsensusNetwork W}.
Context `{CryptoHash VoteData} `{Signable LedgerInfo} `{Signable BlockData} `{CryptoHash BlockData}.
Abbreviation session := (BlockStore C L * BlockRetriever W)%type.

Definition handle (event : StoreEvent) : method session AnyError unit :=
  match event with
  | ReceiveBlock block => _ ← SyncManager.on_store (BlockStore.execute_and_insert_block block); mret tt
  | ReceiveCert qc => SyncManager.insert_quorum_cert qc
  | ReceiveTimeout tc => SyncManager.on_store (BlockStore.insert_2chain_timeout_certificate tc)
  | CallBack qc committed decision =>
      _ ← SyncManager.on_store (BlockStore.commit_callback committed qc decision);
      SyncManager.on_store (puts (BlockStore.set_callbacks (filter (fun c => c <> qc))))
  end.

(** Blocks and certificates are verified before they get here; callbacks are called for
    commits that were ordered, in their order, with a decision on the last block. *)
Definition allowed (ch : Chain) (s : session) (event : StoreEvent) : Prop :=
  match event with
  | ReceiveBlock block => block_ok ch block
  | ReceiveCert qc => cert_ok ch qc /\ N.of_nat (size (lis_signatures (qc_signed_ledger_info qc))) + 2 < 2 ^ 32
  | ReceiveTimeout _ => True
  | CallBack qc committed decision =>
      qc ∈ callbacks s.1 /\
      (exists b, last committed = Some b /\ ExecutedBlock.id b = bi_id (QuorumCert.commit_info qc)) /\
      round_of ch (commit_root_id (inner s.1)) < bi_round (QuorumCert.commit_info qc) /\
      BlockInfo.match_ordered_only (QuorumCert.commit_info qc) (li_commit_info (lis_ledger_info decision)) = true
  end.

Definition session_step (ch : Chain) (s s' : session) : Prop :=
  exists event, allowed ch s event /\ (handle event s).2 = s'.
End run.

Section invariant.
Context `{HashOrderLaws} `{StateComputerLaws C} `{LivenessStorageLaws L} `{!ConsensusNetwork W}.
Context `{CryptoHash VoteData} `{Signable LedgerInfo} `{Signable BlockData} `{CryptoHash BlockData}.
Context (ch : Chain) (Hch : chain_ok ch) (vs : ValidatorVerifier) (Hvs : verifier_wf vs).
Context `{!NetworkLaws W} (Hanswers : answers_are (W := W) vs (block_ok ch)).
Implicit Types (s : BlockStore C L * BlockRetriever W).

Lemma handle_ok event s :
  session_ok ch vs s -> allowed ch s event -> safe (session_ok ch vs) (handle event) (fun _ => session_ok ch vs) s.
Proof.
  intros Hs Hal. destruct event as [b|qc|tc|qc committed decision]; cbn [handle].
  - apply safe_bind. eapply safe_mono; [apply on_store_ok; [done|]; apply execute_and_insert_block_ok; [done|apply Hs|apply Hal]|].
    intros ? s1 [Hs1 Hr]. split; [done|]. rewrite Hr. apply Hs.
  - destruct Hal as [Hqc Hsig]. by apply sync_insert_quorum_cert_ok.
  - eapply safe_mono; [apply on_store_ok; [done|]; by apply insert_2chain_timeout_certificate_ok, Hs|].
    intros ? s1 [Hs1 Hr]. split; [done|]. rewrite Hr. apply Hs.
  - destruct Hal as (Hin & (b & Hlast & Hid) & Hr & Hm).
    destruct (run_callback ch Hch s.1 committed qc decision b (proj1 Hs) Hin Hlast Hid Hr Hm) as (ids & st' & Hrun & Hst' & _).
    apply safe_bind. unfold safe, SyncManager.on_store, on, puts. rewrite Hrun. cbn.
    split; [|apply Hs]. destruct Hst' as [? Hcb]. split; [done|]. cbn. apply Forall_forall.
    intros c [_ Hc]%list_elem_of_filter. by eapply Forall_forall.
Qed.

Lemma session_step_ok s s' : session_ok ch vs s -> session_step ch s s' -> session_ok ch vs s'.
Proof.
  intros Hs (event & Hal & <-). pose proof (handle_ok event s Hs Hal) as Hsafe. unfold safe in Hsafe.
  by destruct (handle event s) as [[u|e|] s1].
Qed.

Lemma session_steps_ok s s' : session_ok ch vs s -> rtc (session_step ch) s s' -> session_ok ch vs s'.
Proof. intros Hs. induction 1; eauto using session_step_ok. Qed.
End invariant.

(** ** The store a replica starts with *)
Section start.
Context `{HashOrderLaws} `{StateComputerLaws C} `{LivenessStorageLaws L}.
Context (ch : Chain) (Hch : chain_ok ch).

(** Recovery data that speaks about the chain. *)
Record recovery_ok (data : RecoveryData) : Prop := {
  re_root : root_ok ch (rd_root data);
  re_blocks : Forall (block_ok ch) (rd_blocks data);
  re_certs : Forall (cert_ok ch) (rd_quorum_certs data);
}.

Lemma expect_ok_m_Ok {S E F A} (m : method S E A) s a s' :
  @expect_ok_m S E F A m s = (Ok a, s') -> m s = (Ok a, s').
Proof. unfold expect_ok_m, expect_ok. destruct (m s) as [[?|?|] ?]; congruence. Qed.

Lemma insert_blocks_ok blocks (st st' : BlockStore C L) :
  store_ok ch st -> Forall (block_ok ch) blocks -> BlockStore.insert_blocks blocks st = (Ok tt, st') -> store_ok ch st'.
Proof.
  revert st. induction blocks as [|b blocks IH]; intros st Hok Hb; [by intros [= <-]|].
  inversion Hb as [|?? Hb1 Hb2]; subst. cbn [BlockStore.insert_blocks].
  intros (x & st1 & Hx & Hrest)%method_bind_Ok. apply expect_ok_m_Ok in Hx. apply (IH st1); [|done..].
  pose proof (execute_and_insert_block_ok ch Hch st b Hok (bo_content _ _ Hb1)) as Hsafe. unfold safe in Hsafe.
  by rewrite Hx in Hsafe.
Qed.

Lemma insert_quorum_certs_ok certs (st st' : BlockStore C L) :
  store_ok ch st -> Forall (cert_ok ch) certs -> BlockStore.insert_quorum_certs certs st = (Ok tt, st') -> store_ok ch st'.
Proof.
  revert st. induction certs as [|qc certs IH]; intros st Hok Hc; [by intros [= <-]|].
  inversion Hc as [|?? Hc1 Hc2]; subst. cbn [BlockStore.insert_quorum_certs].
  intros (x & st1 & Hx & Hrest)%method_bind_Ok. apply expect_ok_m_Ok in Hx. apply (IH st1); [|done..].
  pose proof (insert_single_quorum_cert_ok ch Hch st qc Hok Hc1) as Hsafe. unfold safe in Hsafe.
  rewrite Hx in Hsafe. apply Hsafe.
Qed.

Lemma build_ok root md blocks certs tc max limit (env env' : C * L) st :
  root_ok ch root -> Forall (block_ok ch) blocks -> Forall (cert_ok ch) certs ->
  BlockStore.build root md blocks certs tc max limit env = (Ok st, env') -> store_ok ch st.
Proof.
  intros Hroot Hb Hc. unfold BlockStore.build.
  destruct (BlockStore.root_tree root md tc max) as [t|e|] eqn:Ht; [|done..].
  pose proof (root_tree_ok ch Hch _ _ _ _ _ Hroot Ht) as Hin.
  destruct ((_ ← BlockStore.insert_blocks blocks; BlockStore.insert_quorum_certs certs)
              (mkBlockStore t env.1 env.2 limit [])) as [[[]|e|] st1] eqn:Hrun; [|done..].
  apply method_bind_Ok in Hrun as (? & st0 & H0' & H1'). cbn [mbind outcome_bind].
  destruct (BlockStore.ordered_root st1) as [o|e|]; [|done..]. intros [= <- _].
  destruct x. eapply insert_quorum_certs_ok; [|done..]. eapply insert_blocks_ok; [|done..]. by split.
Qed.

Lemma new_store_ok data max limit (env env' : C * L) st :
  recovery_ok data -> BlockStore.new data max limit env = (Ok st, env') -> store_ok ch st.
Proof.
  intros [Hroot Hb Hc] Hnew. unfold BlockStore.new in Hnew.
  destruct (BlockStore.build _ _ _ _ _ _ _ env) as [[st0|e|] env0] eqn:Hbuild; [|done..].
  pose proof (build_ok _ _ _ _ _ _ _ _ _ _ Hroot Hb Hc Hbuild) as Hok0.
  pose proof (try_commit_ok ch Hch st0 Hok0) as Hsafe. unfold safe in Hsafe.
  destruct (BlockStore.try_commit st0) as [[u|e|] st1]; [|done..]. cbn in Hnew. by injection Hnew as <- _.
Qed.
End start.
