(* ===== verification/BlockStoreExample.v ===== *)
(** * A block store that follows an execution

    The blocks of the execution of Agreement.v, in a store with an in-memory log, a state
    computer that calls back later, and peers that answer with one block. *)

From S2P Require Import Prelude Crypto Errors Position Accumulator Verifier Ledger ConsensusTypes Blocks Storage SafetyRules SafetyLemmas Replica Bft Simulation Agreement TransactionProofs BlockTree ConsensusDb LivenessStorage BlockStore SyncManager BlockTreeLemmas BlockStoreLemmas SyncLemmas BlockStoreRun.

Module StoreExample.
Import Net.

(** ** The environment *)
#[global] Instance order : HashOrder := {| set_iter := elements; map_iter V := map_to_list |}.
#[global] Instance order_laws : HashOrderLaws.
Proof. by split. Qed.

Definition dummy_result : StateComputeResult :=
  mkStateComputeResult ACCUMULATOR_PLACEHOLDER_HASH [] [] 0 0 None [] [] [].

(** Commits are put into a pipeline. *)
#[global] Instance computer : StateComputer unit := {|
  sc_compute _ _ := mret dummy_result;
  sc_commit _ _ := mret None;
  sc_sync_to _ := mret tt;
|}.
#[global] Instance computer_laws : StateComputerLaws unit.
Proof. by split. Qed.

(** What was saved, last first. *)
Inductive Saved : Type := SavedTree (blocks : list Block) (certs : list QuorumCert) | PrunedTree (ids : list HashValue)
  | SavedTimeout (tc : TwoChainTimeoutCertificate).
#[global] Instance log_storage : PersistentLivenessStorage (list Saved) := {|
  save_tree blocks certs := puts (cons (SavedTree blocks certs));
  prune_tree ids := puts (cons (PrunedTree ids));
  save_vote _ := mret tt;
  recover_from_ledger _ := Panic;
  LivenessStorage.start := lift Panic;
  save_highest_2chain_timeout_cert tc := puts (cons (SavedTimeout tc));
  retrieve_epoch_change_proof _ _ := Panic;
|}.
#[global] Instance log_storage_laws : LivenessStorageLaws (list Saved).
Proof. by split. Qed.

#[global] Instance hash_block_data : CryptoHash BlockData := fun _ => 9.
(** ** The blocks *)
Definition genesis_block : Block :=
  match @Block.make_genesis_block_from_ledger_info _ unit genesis_li with
  | Ok b => b
  | _ => mkBlock 0 (mkBlockData 0 0 0 genesis_qc Genesis) None
  end.
Definition block_of (vp : VoteProposal) : Block := vp_block vp.
(** A late proposal on top of genesis, which nobody votes for. *)
Definition late6 : VoteProposal := proposal 6 66 4 genesis_qc.
Definition blocks : list Block :=
  genesis_block :: (block_of <$> [Trace.block1; Trace.block2; Trace.block4; Trace.block5; late6]).
Definition content (i : HashValue) : option BlockData :=
  b_block_data ∘ snd <$> list_find (fun b => b_id b = i) blocks.
Definition genesis_id : HashValue := b_id genesis_block.

(** Every peer has every block. *)
#[global] Instance peers : ConsensusNetwork unit := {|
  send_rpc _ req _ := lift (match list_find (fun b => b_id b = brq_block_id req) blocks with
                            | Some (_, b) => Ok (Some (mkBlockRetrievalResponse SucceededWithTarget [b]))
                            | None => Err (Msg "timed out")
                            end);
  gen_range _ w := (O, w);
  clock _ := 1000;
  broadcast_epoch_change _ w := w;
  send_epoch_change _ w := w;
  send_commit_proof _ w := w;
|}.
Lemma peer_answer peer req timeout (w : unit) resp w' :
  send_rpc peer req timeout w = (Ok (Some resp), w') ->
  exists b, brs_blocks resp = [b] /\ b ∈ blocks /\ content (b_id b) = Some (b_block_data b).
Proof.
  unfold send_rpc, peers, lift. destruct (list_find (fun b => b_id b = brq_block_id req) blocks) as [[i b]|] eqn:Hf; [|done].
  intros [= <- <-]. exists b. split; [done|]. pose proof Hf as (Hi & Hid & _)%list_find_Some.
  split; [by eapply list_elem_of_lookup_2|]. unfold content. rewrite Hid, Hf. done.
Qed.
#[global] Instance peers_laws : NetworkLaws unit.
Proof.
  assert (forall b, b ∈ blocks -> block_fits b) as Hfits.
  { apply Forall_forall. repeat constructor; vm_compute; discriminate. }
  split.
  - intros peer req timeout w. unfold send_rpc, peers, lift.
    by destruct (list_find (fun b => b_id b = brq_block_id req) blocks) as [[]|].
  - intros peer req timeout w resp w' (b & -> & Hb & _)%peer_answer. constructor; [by apply Hfits|constructor].
  - intros n w Hn. exact Hn.
Qed.
Lemma peers_answer vs : answers_are (W := unit) vs (fun b => content (b_id b) = Some (b_block_data b)).
Proof. intros peer req timeout w resp w' (b & -> & _ & Hb)%peer_answer _. by constructor. Qed.

(** Every vote of the execution is for one of the blocks. *)
Definition check_vote (x : Released) : bool :=
  match x with
  | RVote v =>
      match content (bi_id (vd_proposed (v_vote_data v))) with
      | Some d => (bd_round d =? vote_round v)
                  && bool_decide (QuorumCert.certified_block (bd_quorum_cert d) = vd_parent (v_vote_data v))
      | None => false
      end
  | _ => true
  end.

Lemma votes_content a v : in_log Trace.final a (RVote v) ->
  exists d, content (bi_id (vd_proposed (v_vote_data v))) = Some d /\ bd_round d = vote_round v /\
    QuorumCert.certified_block (bd_quorum_cert d) = vd_parent (v_vote_data v).
Proof.
  intros (n & Hn & Hin).
  assert (map_Forall (fun _ n => Forall (fun x => check_vote x = true) (r_released n)) Trace.final) as Hall
    by (apply (bool_decide_unpack _); vm_compute; exact I).
  specialize (Hall _ _ Hn). rewrite Forall_forall in Hall. specialize (Hall _ Hin). cbn [check_vote] in Hall.
  destruct (content (bi_id (vd_proposed (v_vote_data v)))) as [d|]; [|done]. exists d.
  apply andb_prop in Hall as [Hr Hp]. apply N.eqb_eq in Hr. apply bool_decide_eq_true in Hp. split; [reflexivity|]. split; assumption.
Qed.

Lemma content_blocks i d : content i = Some d -> exists b, b ∈ blocks /\ b_id b = i /\ b_block_data b = d.
Proof.
  unfold content. intros ([k b] & Hf & ->)%fmap_Some. apply list_find_Some in Hf as (Hk & Hb & _).
  exists b. split; [by eapply list_elem_of_lookup_2|done].
Qed.

Definition check_cert (b : Block) : bool :=
  let qc := Block.quorum_cert b in
  let certified := QuorumCert.certified_block qc in
  (bi_round certified <? Block.round b) && (bi_epoch certified =? 1)
  && (negb (bi_round certified =? 0) || (bi_id certified =? genesis_id))
  && bool_decide (QuorumCert.verify qc (V 1) = Ok tt) && check_li honest Trace.final (qc_signed_ledger_info qc).

Lemma check_cert_sound b :
  check_cert b = true ->
  let qc := Block.quorum_cert b in
  bi_round (QuorumCert.certified_block qc) < Block.round b /\ bi_epoch (QuorumCert.certified_block qc) = 1 /\
  (bi_round (QuorumCert.certified_block qc) = 0 -> bi_id (QuorumCert.certified_block qc) = genesis_id) /\
  QuorumCert.verify qc (V 1) = Ok tt /\ unforged_li V honest Trace.final (qc_signed_ledger_info qc).
Proof.
  unfold check_cert. intros [[[[Hr He]%andb_prop H0]%andb_prop Hv]%andb_prop Hu]%andb_prop.
  split; [by apply N.ltb_lt|]. split; [by apply N.eqb_eq|]. split.
  - intros Hz. rewrite (proj2 (N.eqb_eq _ _) Hz) in H0. cbn in H0. by apply N.eqb_eq.
  - split; [by apply bool_decide_eq_true in Hv|by apply check_li_sound].
Qed.

Lemma cert_checks b : b ∈ blocks -> b_id b <> genesis_id -> check_cert b = true.
Proof.
  intros Hb Hg. assert (Forall (fun b => b_id b = genesis_id \/ check_cert b = true) blocks) as Hall
    by (apply (bool_decide_unpack _); vm_compute; exact I).
  rewrite Forall_forall in Hall. by destruct (Hall b Hb).
Qed.

Lemma blocks_ok : blocks_of_epoch V honest Trace.final 1 genesis_id content.
Proof.
  split.
  - exists (b_block_data genesis_block). vm_compute. auto.
  - vm_compute. reflexivity.
  - intros a v Hin _. by apply (votes_content a).
  - intros i d (b & Hb & <- & <-)%content_blocks Hg.
    destruct (check_cert_sound b (cert_checks b Hb Hg)) as (? & ? & ? & ? & ?). split_and!; try done.
Qed.

(** ** The run

    The store starts at genesis.  The first two blocks are ordered and the first one is
    committed; then the certificate of the second block after the timeout arrives, and the
    two blocks are retrieved from the peers. *)
Definition chain : Chain := protocol_chain V honest Trace.final 1 genesis_id genesis_id content.

Definition root : RootInfo := mkRootInfo genesis_block genesis_qc genesis_qc genesis_qc.
Definition data : RecoveryData := mkRecoveryData None root (mkRootMetadata 1 8 []) [] [] None None.
Definition retriever : BlockRetriever unit := mkBlockRetriever (mkNetworkSender 1 tt (V 1)) 2.

Definition store0 : BlockStore unit (list Saved) :=
  match (BlockStore.new data 2 10 (tt, [])).1 with
  | Ok st => st
  | _ => mkBlockStore (mkBlockTree ∅ 0 0 0 genesis_qc None genesis_qc genesis_qc ∅ [] 0) tt [] 0 []
  end.
Lemma store0_new : (BlockStore.new data 2 10 (tt, [])).1 = Ok store0.
Proof. vm_compute. reflexivity. Qed.

Definition executed (vp : VoteProposal) : ExecutedBlock := mkExecutedBlock (block_of vp) dummy_result.
Definition events : list StoreEvent :=
  [ReceiveBlock (block_of Trace.block1); ReceiveCert Trace.qc1;
   ReceiveBlock (block_of Trace.block2); ReceiveCert Trace.qc2;
   CallBack Trace.qc2 [executed Trace.block1] (qc_signed_ledger_info Trace.qc2);
   ReceiveCert Trace.qc5].

Definition session0 : BlockStore unit (list Saved) * BlockRetriever unit := (store0, retriever).
Definition run_events (s : BlockStore unit (list Saved) * BlockRetriever unit) (evs : list StoreEvent) :=
  foldl (fun s ev => (handle ev s).2) s evs.
Definition session_end := run_events session0 events.

(** *** Its steps are allowed *)
Lemma system_fine : system_ok V honest Trace.final.
Proof. apply system_reachable_ok; [exact fault_bound4|exact Trace.final_reachable]. Qed.
Lemma chain_fine : chain_ok chain.
Proof. apply protocol_chain_ok; [exact fault_bound4|exact system_fine|exact blocks_ok]. Qed.

Lemma cert_fine qc :
  QuorumCert.verify qc (V 1) = Ok tt -> check_li honest Trace.final (qc_signed_ledger_info qc) = true ->
  bi_epoch (QuorumCert.certified_block qc) = 1 ->
  (bi_round (QuorumCert.certified_block qc) = 0 -> bi_id (QuorumCert.certified_block qc) = genesis_id) ->
  cert_ok chain qc.
Proof.
  intros Hv Hl He Hz. apply protocol_cert_ok; [exact fault_bound4|exact system_fine|exact blocks_ok|done| |done|done].
  by apply check_li_sound.
Qed.

Lemma block_fine b :
  b ∈ blocks -> b_id b <> genesis_id -> content (b_id b) = Some (b_block_data b) ->
  N.of_nat (size (lis_signatures (qc_signed_ledger_info (Block.quorum_cert b)))) + 2 < 2 ^ 32 -> block_ok chain b.
Proof.
  intros Hb Hg Hc Hs. destruct (check_cert_sound b (cert_checks b Hb Hg)) as (Hr & He & Hz & Hv & Hu).
  split; [done| |done|done]. apply protocol_cert_ok; [exact fault_bound4|exact system_fine|exact blocks_ok|done..].
Qed.

Fixpoint all_allowed (s : BlockStore unit (list Saved) * BlockRetriever unit) (evs : list StoreEvent) : Prop :=
  match evs with
  | [] => True
  | ev :: evs => allowed chain s ev /\ all_allowed (handle ev s).2 evs
  end.
Lemma run_steps s evs : all_allowed s evs -> rtc (session_step chain) s (run_events s evs).
Proof.
  revert s. induction evs as [|ev evs IH]; intros s; [constructor|]. intros [Ha Hr].
  eapply rtc_l; [|apply IH, Hr]. by exists ev.
Qed.

(** Blocks and certificates are allowed in every state. *)
Definition check_event (ev : StoreEvent) : bool :=
  match ev with
  | ReceiveBlock b =>
      bool_decide (b ∈ blocks) && negb (b_id b =? genesis_id) && bool_decide (content (b_id b) = Some (b_block_data b))
      && (N.of_nat (size (lis_signatures (qc_signed_ledger_info (Block.quorum_cert b)))) + 2 <? 2 ^ 32)
  | ReceiveCert qc =>
      bool_decide (QuorumCert.verify qc (V 1) = Ok tt) && check_li honest Trace.final (qc_signed_ledger_info qc)
      && (bi_epoch (QuorumCert.certified_block qc) =? 1) && negb (bi_round (QuorumCert.certified_block qc) =? 0)
      && (N.of_nat (size (lis_signatures (qc_signed_ledger_info qc))) + 2 <? 2 ^ 32)
  | ReceiveTimeout _ => true
  | CallBack _ _ _ => false
  end.
Lemma check_event_sound (s : BlockStore unit (list Saved) * BlockRetriever unit) ev : check_event ev = true -> allowed chain s ev.
Proof.
  destruct ev as [b|qc|tc|]; cbn [check_event allowed]; [..|done|done].
  - intros [[[Hb Hg]%andb_prop Hc]%andb_prop Hs]%andb_prop. apply bool_decide_eq_true in Hb, Hc.
    apply negb_true_iff, N.eqb_neq in Hg. apply N.ltb_lt in Hs. by apply block_fine.
  - intros [[[[Hv Hl]%andb_prop He]%andb_prop Hr]%andb_prop Hs]%andb_prop. apply bool_decide_eq_true in Hv.
    apply N.eqb_eq in He. apply negb_true_iff, N.eqb_neq in Hr. apply N.ltb_lt in Hs. split; [|done].
    by apply cert_fine.
Qed.

Lemma data_fine : recovery_ok chain data.
Proof.
  split; [|constructor..]. split.
  - vm_compute. reflexivity.
  - by apply or_introl.
  - apply descends_refl.
  - apply cert_fine; [vm_compute; reflexivity..|]. done.
  - vm_compute. reflexivity.
  - vm_compute. discriminate.
Qed.

Lemma callback_fine :
  allowed chain (run_events session0 (take 4 events))
    (CallBack Trace.qc2 [executed Trace.block1] (qc_signed_ledger_info Trace.qc2)).
Proof.
  split; [apply (bool_decide_unpack _); vm_compute; exact I|]. split; [|split; vm_compute; reflexivity].
  exists (executed Trace.block1). split; vm_compute; reflexivity.
Qed.

Ltac check_events :=
  cbn [all_allowed events take];
  repeat match goal with
  | |- allowed _ _ _ /\ _ => split
  | |- allowed _ _ (ReceiveBlock _) => apply check_event_sound; vm_compute; reflexivity
  | |- allowed _ _ (ReceiveCert _) => apply check_event_sound; vm_compute; reflexivity
  | |- allowed _ _ (CallBack _ _ _) => exact callback_fine
  | |- True => exact I
  end.

Lemma answers_fine : answers_are (W := unit) (V 1) (block_ok chain).
Proof.
  eapply answers_are_mono; [apply peers_answer|]. intros b Hv Hc.
  apply protocol_block_ok; [exact fault_bound4|exact system_fine|exact blocks_ok|by vm_compute|done|done].
Qed.
Lemma verifier_fine : verifier_wf (V 1).
Proof. apply fault_bound4. Qed.
Lemma store0_fine : session_ok chain (V 1) session0.
Proof.
  split; [|done]. destruct (BlockStore.new data 2 10 (tt, [])) as [o env] eqn:Hnew.
  pose proof store0_new as H0. rewrite Hnew in H0. cbn in H0. subst o.
  exact (new_store_ok chain chain_fine _ _ _ _ _ _ data_fine Hnew).
Qed.
(** The store before the callback. *)
Lemma midway_fine : store_ok chain (run_events session0 (take 4 events)).1.
Proof.
  refine (proj1 (session_steps_ok chain chain_fine (V 1) verifier_fine answers_fine session0 _ store0_fine (run_steps _ _ _))). check_events.
Qed.

Lemma run_fine : rtc (session_step chain) session0 session_end.
Proof.
  apply run_steps. check_events.
Qed.

Lemma end_fine : store_ok chain session_end.1.
Proof. apply (session_steps_ok chain chain_fine (V 1) verifier_fine answers_fine session0 _ store0_fine run_fine). Qed.
Lemma end_tree_fine : tree_ok content (inner session_end.1).
Proof. apply end_fine. Qed.

(** Genesis is off the committed chain at the end. *)
Lemma genesis_left : ~ descends content (commit_root_id (inner session_end.1)) genesis_id.
Proof.
  intros Hd. assert (content genesis_id = Some (b_block_data genesis_block)) as Hg by (vm_compute; reflexivity).
  assert (content (commit_root_id (inner session_end.1)) = Some (b_block_data (block_of Trace.block1))) as Hc by (vm_compute; reflexivity).
  destruct (descends_round _ _ _ _ _ (ch_rounds _ chain_fine) Hd Hc Hg) as [He|Hlt].
  - vm_compute in He. discriminate.
  - vm_compute in Hlt. discriminate.
Qed.
End StoreExample.
