(* ===== verification/BlockStoreProps.v ===== *)
(** * Theorems about the block store *)

From S2P Require Import Prelude Crypto Errors Position Accumulator Verifier Ledger ConsensusTypes Blocks Storage SafetyRules SafetyLemmas Replica Bft Simulation Agreement TransactionProofs BlockTree ConsensusDb LivenessStorage BlockStore SyncManager BlockTreeLemmas BlockStoreLemmas SyncLemmas BlockStoreRun BlockStoreExample.

(** A block linked below a block that is off the committed chain. *)
Lemma insert_dangling `{HashOrderLaws} (ch : Chain) (Hch : chain_ok ch) (t : BlockTree) (b : ExecutedBlock) :
  inner_ok ch t -> content ch (ExecutedBlock.id b) = Some (b_block_data (eb_block b)) ->
  BlockTree.get_block t (ExecutedBlock.id b) = None -> in_tree t (ExecutedBlock.parent_id b) ->
  ~ live (content ch) t (ExecutedBlock.parent_id b) ->
  (BlockTree.insert_block b t).1 = Ok b /\
  is_Some (id_to_block (BlockTree.insert_block b t).2 !! ExecutedBlock.id b) /\
  ~ live (content ch) (BlockTree.insert_block b t).2 (ExecutedBlock.id b) /\
  ExecutedBlock.id b ∉ pruned_block_ids (BlockTree.insert_block b t).2.
Proof.
  intros Hok Hc Hnew Hp Hd. pose proof (in_tree_ok _ _ Hok) as Ht.
  destruct (BlockTree.insert_block b t) as [r t'] eqn:Hins. cbn.
  destruct (insert_block_ok _ (ch_rounds _ Hch) t b r t' Ht Hc Hins) as [Ht' Hspec]. rewrite Hnew in Hspec.
  unfold BlockTree.block_exists in Hspec. rewrite bool_decide_true in Hspec by done. destruct Hspec as [-> Hget].
  destruct (insert_block_fields _ _ _ _ Hins) as [m ->]. cbn in *. apply fmap_None in Hnew.
  split; [done|]. split; [|split].
  - specialize (Hget (ExecutedBlock.id b)). rewrite decide_True in Hget by done.
    unfold BlockTree.get_block, BlockTree.get_linkable_block in Hget. cbn in Hget. apply fmap_Some in Hget as (lb & -> & _). done.
  - intros Hl. apply Hd. eapply (descends_parent _ _ _ _ Hc); [exact Hl|]. intros Heq.
    destruct (ok_root _ _ Ht) as [lr Hlr]. rewrite <-Heq in Hlr. unfold BlockTree.get_linkable_block in Hnew. congruence.
  - intros [[lb Hlb] _]%(ok_pruned _ _ Ht). unfold BlockTree.get_linkable_block in Hnew. congruence.
Qed.

(** The block of a pending callback is live. *)
Lemma callback_live {C L} (ch : Chain) (Hch : chain_ok ch) (st : BlockStore C L) qc :
  store_ok ch st -> qc ∈ callbacks st -> round_of ch (commit_root_id (inner st)) < bi_round (QuorumCert.commit_info qc) ->
  live (content ch) (inner st) (bi_id (QuorumCert.commit_info qc)).
Proof.
  intros [Hok Hcb] Hqc Hr. rewrite Forall_forall in Hcb. destruct (Hcb qc Hqc) as (Hfin & Hc & Hbr & _ & Hin).
  rewrite Hbr in Hr. apply certified_live; [done|done|apply Hin; lia|by apply (ch_final _ Hch)|lia].
Qed.

Module BlockStoreProps.
(** C6: the block store of a replica is safe in every execution of the protocol.  Take any
    reachable state of a system whose honest validators run safety rules, a store that
    [BlockStore::new] builds from recovery data about the blocks of an epoch, and any
    interleaving of verified blocks, certificates and timeout certificates and of commit
    callbacks.  Peers answer what they like when blocks are missing, with two exceptions:
    ids are hashes, so that a block which passes the checks has the contents its id stands
    for; and the blocks are not among those on which the checks themselves overflow or
    panic, nil blocks of the last round and quorum store payloads ([block_fits]).  There are
    fewer than 2^32 - 2 validators, so that attempts can be counted.  Then no operation
    panics, the tree stays well-formed, the commit root only moves to descendants, and the
    ordered root descends from it. *)
Theorem block_store_safe `{KVStorageLaws Store} `{ConsensusCrypto} `{!CollisionFree VoteData}
    `{HashOrderLaws} `{StateComputerLaws C} `{LivenessStorageLaws L} `{!ConsensusNetwork W} `{CryptoHash BlockData}
    (V : N -> ValidatorVerifier) (honest : gset N) (g : gmap N (Replica Store)) (e : N)
    (genesis : HashValue) (content : HashValue -> option BlockData) (data : RecoveryData) (max : N) (limit : Round)
    (env : C * L) (st : BlockStore C L) (r : BlockRetriever W) (s : BlockStore C L * BlockRetriever W) :
  let ch := protocol_chain V honest g e genesis (b_id (ri_block (rd_root data))) content in
  fault_bound V honest -> system_reachable V honest g -> blocks_of_epoch V honest g e genesis content ->
  recovery_ok ch data -> Verifier.len (V e) + 2 < 2 ^ 32 ->
  NetworkLaws W -> answers_are (W := W) (V e) (fun b => content (b_id b) = Some (b_block_data b)) ->
  (BlockStore.new data max limit env).1 = Ok st -> ns_validators (br_network r) = V e ->
  rtc (session_step ch) (st, r) s ->
  (forall event, BlockStoreRun.allowed ch s event -> (handle event s).1 <> Panic) /\
  tree_ok content (inner s.1) /\
  descends content (b_id (ri_block (rd_root data))) (commit_root_id (inner s.1)) /\
  descends content (commit_root_id (inner s.1)) (ordered_root_id (inner s.1)).
Proof.
  intros ch Hb Hre Hbe Hdata Hlen Hnet Hids Hnew Hvs Hrun.
  pose proof (protocol_chain_ok V honest g e genesis (b_id (ri_block (rd_root data))) content Hb
                (system_reachable_ok V honest g Hb Hre) Hbe) as Hch. fold ch in Hch.
  destruct (BlockStore.new data max limit env) as [o env'] eqn:Hrun0. cbn in Hnew. subst o.
  assert (answers_are (W := W) (V e) (block_ok ch)) as Hanswers.
  { eapply answers_are_mono; [exact Hids|]. intros b Hv Hc. apply protocol_block_ok; try done. by apply system_reachable_ok. }
  assert (verifier_wf (V e)) as Hwf by apply Hb.
  assert (session_ok ch (V e) s) as Hs.
  { apply (session_steps_ok ch Hch (V e) Hwf Hanswers (st, r) s); [|exact Hrun]. split; [by eapply (new_store_ok ch Hch)|done]. }
  split.
  - intros event Hal. pose proof (handle_ok ch Hch (V e) Hwf Hanswers event s Hs Hal) as Hsafe. unfold safe in Hsafe.
    by destruct (handle event s) as [[u|x|] s'].
  - destruct Hs as [[[Ht _ _ Ho _ _ _] _] _]. split; [done|]. split; [done|]. apply (ok_ordered _ _ Ht).
Qed.

(** The session has fetched blocks 4 and 5 from its peers. *)
Lemma block_store_safe_witness :
  let s := StoreExample.session_end in
  is_Some (BlockStore.get_block 44 s.1) /\ is_Some (BlockStore.get_block 55 s.1) /\
  (forall event, BlockStoreRun.allowed StoreExample.chain s event -> (handle event s).1 <> Panic) /\
  tree_ok StoreExample.content (inner s.1) /\
  descends StoreExample.content 9 (commit_root_id (inner s.1)) /\
  descends StoreExample.content (commit_root_id (inner s.1)) (ordered_root_id (inner s.1)).
Proof.
  split; [vm_compute; by eexists|]. split; [vm_compute; by eexists|].
  apply (block_store_safe (W := unit) Net.V Net.honest Trace.final 1 StoreExample.genesis_id StoreExample.content
           StoreExample.data 2 10 (tt, []) StoreExample.store0 StoreExample.retriever).
  - exact Net.fault_bound4.
  - exact Trace.final_reachable.
  - exact StoreExample.blocks_ok.
  - exact StoreExample.data_fine.
  - vm_compute. reflexivity.
  - exact StoreExample.peers_laws.
  - exact (StoreExample.peers_answer _).
  - exact StoreExample.store0_new.
  - reflexivity.
  - exact StoreExample.run_fine.
Defined.

(** C7: committing prunes exactly the blocks that the commit excludes.  When the state
    computer calls back for a commit, [find_blocks_to_prune] visits once each the blocks
    below the old commit root that do not descend from the new one; these, and no others,
    are deleted from the storage.  The subtree of the new root stays as it is, and of the
    pruned blocks at most [max_pruned_blocks_in_mem] remain listed for later removal. *)
Theorem commit_prunes_exactly `{HashOrderLaws} `{StateComputerLaws C} `{LivenessStorageLaws L} (ch : Chain)
    (st : BlockStore C L) (blocks : list ExecutedBlock) (qc : QuorumCert) (decision : LedgerInfoWithSignatures)
    (b : ExecutedBlock) :
  chain_ok ch -> store_ok ch st -> qc ∈ callbacks st -> last blocks = Some b ->
  ExecutedBlock.id b = bi_id (QuorumCert.commit_info qc) ->
  round_of ch (commit_root_id (inner st)) < bi_round (QuorumCert.commit_info qc) ->
  BlockInfo.match_ordered_only (QuorumCert.commit_info qc) (li_commit_info (lis_ledger_info decision)) = true ->
  exists ids st', BlockStore.commit_callback blocks qc decision st = (Ok tt, st') /\
    storage st' = (prune_tree ids (storage st)).2 /\ NoDup ids /\
    (forall i, i ∈ ids <-> is_Some (id_to_block (inner st) !! i) /\
       descends (content ch) (commit_root_id (inner st)) i /\ ~ descends (content ch) (ExecutedBlock.id b) i) /\
    commit_root_id (inner st') = ExecutedBlock.id b /\
    (forall i, descends (content ch) (ExecutedBlock.id b) i ->
       id_to_block (inner st') !! i = id_to_block (inner st) !! i) /\
    N.of_nat (length (pruned_block_ids (inner st'))) <= max_pruned_blocks_in_mem (inner st').
Proof.
  intros Hch Hok Hqc Hlast Hid Hr Hm.
  destruct (run_callback ch Hch st blocks qc decision b Hok Hqc Hlast Hid Hr Hm)
    as (ids & st' & Hrun & Hok' & _ & Hsto & Honce & Hoff & Hroot & Hkeep & _).
  exists ids, st'. split_and!; [done..|]. apply (ok_pruned_few _ _ (in_tree_ok _ _ (proj1 Hok'))).
Qed.

Lemma commit_prunes_exactly_witness :
  let st := (StoreExample.run_events StoreExample.session0 (take 4 StoreExample.events)).1 in
  exists ids st', BlockStore.commit_callback [StoreExample.executed Trace.block1] Trace.qc2
                    (qc_signed_ledger_info Trace.qc2) st = (Ok tt, st') /\
    storage st' = (prune_tree ids (storage st)).2 /\ NoDup ids /\
    (forall i, i ∈ ids <-> is_Some (id_to_block (inner st) !! i) /\
       descends StoreExample.content (commit_root_id (inner st)) i /\ ~ descends StoreExample.content 11 i) /\
    commit_root_id (inner st') = 11 /\
    (forall i, descends StoreExample.content 11 i ->
       id_to_block (inner st') !! i = id_to_block (inner st) !! i) /\
    N.of_nat (length (pruned_block_ids (inner st'))) <= max_pruned_blocks_in_mem (inner st').
Proof.
  apply (commit_prunes_exactly StoreExample.chain (StoreExample.run_events StoreExample.session0 (take 4 StoreExample.events)).1
           [StoreExample.executed Trace.block1] Trace.qc2 (qc_signed_ledger_info Trace.qc2)
           (StoreExample.executed Trace.block1)).
  - exact StoreExample.chain_fine.
  - exact StoreExample.midway_fine.
  - apply StoreExample.callback_fine.
  - vm_compute. reflexivity.
  - vm_compute. reflexivity.
  - vm_compute. reflexivity.
  - vm_compute. reflexivity.
Defined.

(** In the tree, off the committed chain, and not listed for removal. *)
Definition dangling (content : HashValue -> option BlockData) (t : BlockTree) (i : HashValue) : Prop :=
  is_Some (id_to_block t !! i) /\ ~ descends content (commit_root_id t) i /\ i ∉ pruned_block_ids t.

(** A block whose parent is already pruned is never pruned.  [insert_block] accepts a
    block whose parent is off the committed chain but still in memory; the block is then not
    listed for removal, and no later commit removes it from memory or from the storage. *)
Theorem dangling_block_stays `{HashOrderLaws} `{StateComputerLaws C} `{LivenessStorageLaws L} (ch : Chain)
    (st : BlockStore C L) :
  chain_ok ch -> store_ok ch st ->
  (forall b, content ch (ExecutedBlock.id b) = Some (b_block_data (eb_block b)) ->
     BlockTree.get_block (inner st) (ExecutedBlock.id b) = None ->
     is_Some (id_to_block (inner st) !! ExecutedBlock.parent_id b) ->
     ~ descends (content ch) (commit_root_id (inner st)) (ExecutedBlock.parent_id b) ->
     (BlockTree.insert_block b (inner st)).1 = Ok b /\
     dangling (content ch) (BlockTree.insert_block b (inner st)).2 (ExecutedBlock.id b)) /\
  (forall blocks qc decision b i, qc ∈ callbacks st -> last blocks = Some b ->
     ExecutedBlock.id b = bi_id (QuorumCert.commit_info qc) ->
     round_of ch (commit_root_id (inner st)) < bi_round (QuorumCert.commit_info qc) ->
     BlockInfo.match_ordered_only (QuorumCert.commit_info qc) (li_commit_info (lis_ledger_info decision)) = true ->
     dangling (content ch) (inner st) i ->
     exists ids, storage (BlockStore.commit_callback blocks qc decision st).2 = (prune_tree ids (storage st)).2 /\ (i ∉ ids) /\
       dangling (content ch) (inner (BlockStore.commit_callback blocks qc decision st).2) i).
Proof.
  intros Hch Hok. split.
  - intros b Hc Hnew Hp Hd. by apply (insert_dangling ch Hch _ b (proj1 Hok)).
  - intros blocks qc decision b i Hqc Hlast Hid Hr Hm (Hin & Hd & Hnp).
    destruct (run_callback ch Hch st blocks qc decision b Hok Hqc Hlast Hid Hr Hm)
      as (ids & st' & -> & Hok' & _ & Hsto & _ & Hoff & Hroot & _ & Hstay).
    assert (i ∉ ids) as Hi by (intros (_ & Hl & _)%Hoff; done).
    destruct (Hstay i Hnp Hi) as [Hsame Hnp']. exists ids. split; [done|]. split; [done|]. cbn.
    split; [by rewrite Hsame|]. split; [|done]. rewrite Hroot. intros Hdn. apply Hd.
    eapply descends_trans; [|exact Hdn]. rewrite Hid. by apply (callback_live ch Hch st qc).
Qed.

Lemma dangling_block_stays_witness :
  let st := StoreExample.session_end.1 in
  let b := StoreExample.executed StoreExample.late6 in
  (BlockTree.insert_block b (inner st)).1 = Ok b /\
  dangling StoreExample.content (BlockTree.insert_block b (inner st)).2 66.
Proof.
  apply (proj1 (dangling_block_stays StoreExample.chain StoreExample.session_end.1
                  StoreExample.chain_fine StoreExample.end_fine) (StoreExample.executed StoreExample.late6)).
  - vm_compute. reflexivity.
  - vm_compute. reflexivity.
  - apply (bool_decide_unpack _). vm_compute. exact I.
  - exact StoreExample.genesis_left.
Defined.
End BlockStoreProps.
