(* ===== verification/SyncProps.v ===== *)
(** * Theorems about retrieving blocks *)

From S2P Require Import Prelude Crypto Errors Position Accumulator Verifier Ledger ConsensusTypes Blocks Storage SafetyRules SafetyLemmas Replica Bft Simulation Agreement TransactionProofs BlockTree ConsensusDb LivenessStorage BlockStore SyncManager BlockTreeLemmas BlockStoreLemmas SyncLemmas BlockStoreRun BlockStoreExample.

(** ** Serving *)
Section serve.
Context {C L : Type} (content : HashValue -> option BlockData) (Hrounds : rounds_increase content).
Implicit Types (st : BlockStore C L).

(** Why the server stopped: it has as many blocks as were asked for, or the target, or the
    next block is not in the tree.  Only the last block can be the target. *)
Definition stopped (req : BlockRetrievalRequest) st (status : BlockRetrievalStatus) (blocks : list Block) (next : HashValue) : Prop :=
  match status with
  | Succeeded => N.of_nat (length blocks) = brq_num_blocks req
  | SucceededWithTarget => exists b, last blocks = Some b /\ brq_target_block_id req = Some (b_id b)
  | NotEnoughBlocks => N.of_nat (length blocks) < brq_num_blocks req /\ BlockStore.get_block next st = None
  | IdNotFound => False
  end.
Definition target_last (req : BlockRetrievalRequest) (status : BlockRetrievalStatus) (blocks : list Block) : Prop :=
  forall i b, blocks !! i = Some b -> brq_target_block_id req = Some (b_id b) ->
    status = SucceededWithTarget /\ S i = length blocks.

(** The blocks of the tree from [id] down, as long as they are there. *)
Lemma retrieval_loop_ok fuel st req id blocks :
  tree_ok content (inner st) ->
  (0 < fuel)%nat ->
  (forall b, BlockTree.get_block (inner st) id = Some b -> (S (below (inner st) (ExecutedBlock.round b)) < fuel)%nat) ->
  N.of_nat (length blocks) <= brq_num_blocks req ->
  (forall b, b ∈ blocks -> brq_target_block_id req <> Some (b_id b)) ->
  exists status new next, retrieval_loop fuel st req id blocks = Ok (status, blocks ++ new) /\
    chained id new next /\ N.of_nat (length (blocks ++ new)) <= brq_num_blocks req /\
    Forall (fun b => exists e, BlockTree.get_block (inner st) (b_id b) = Some e /\ eb_block e = b) new /\
    stopped req st status (blocks ++ new) next /\ target_last req status (blocks ++ new).
Proof.
  intros Ht. revert id blocks. induction fuel as [|fuel IH]; [lia|]. intros id blocks _ Hfuel Hlen Hnot.
  assert (forall status, target_last req status blocks) as Hold.
  { intros status i b Hi Hb. by destruct (Hnot b (list_elem_of_lookup_2 _ _ _ Hi)). }
  cbn [retrieval_loop]. destruct (N.ltb_spec (N.of_nat (length blocks)) (brq_num_blocks req)) as [Hlt|Hge].
  2: { exists Succeeded, [], id. rewrite app_nil_r. split_and!; [done..|by constructor|cbn; lia|apply Hold]. }
  unfold BlockStore.get_block. destruct (BlockTree.get_block (inner st) id) as [e|] eqn:He.
  2: { exists NotEnoughBlocks, [], id. rewrite app_nil_r. split_and!; [done|done|lia|constructor|by split|apply Hold]. }
  destruct (get_block_content _ _ Ht _ _ He) as (_ & Hid & Hc). specialize (Hfuel _ eq_refl).
  assert (exists e', BlockTree.get_block (inner st) (b_id (eb_block e)) = Some e' /\ eb_block e' = eb_block e) as Hserved.
  { exists e. unfold ExecutedBlock.id in Hid. by rewrite Hid. }
  unfold BlockRetrievalRequest.match_target_id.
  destruct (match brq_target_block_id req with Some t => t =? id | None => false end) eqn:Htarget.
  - assert (brq_target_block_id req = Some (b_id (eb_block e))) as Htb.
    { destruct (brq_target_block_id req); [|done]. apply N.eqb_eq in Htarget as ->. by rewrite <-Hid. }
    exists SucceededWithTarget, [eb_block e], (ExecutedBlock.parent_id e). split; [done|]. split; [done|].
    split; [rewrite length_app; cbn; lia|]. split; [by repeat constructor|]. split.
    + exists (eb_block e). by rewrite last_snoc.
    + intros i b [[_ Hi]|[-> <-]]%lookup_snoc_Some Hb; [by destruct (Hold SucceededWithTarget i b Hi Hb); destruct (Hnot b (list_elem_of_lookup_2 _ _ _ Hi))|].
      rewrite length_app. cbn. split; [done|lia].
  - destruct (IH (ExecutedBlock.parent_id e) (blocks ++ [eb_block e])) as (status & new & next & Hrun & Hch & Hle & Hall & Hst & Hlast).
    { lia. }
    { intros p Hp. pose proof (below_lt _ _ _ (ExecutedBlock.round e) Hp) as Hbl.
      destruct (get_block_content _ _ Ht _ _ Hp) as (_ & _ & Hcp). pose proof (Hrounds _ _ _ Hc Hcp).
      unfold ExecutedBlock.round, Block.round in *. lia. }
    { rewrite length_app. cbn. lia. }
    { intros b [Hb|Hb%list_elem_of_singleton]%elem_of_app; [by apply Hnot|subst b]. intros Htb. rewrite Htb in Htarget.
      apply N.eqb_neq in Htarget. by apply Htarget. }
    rewrite <-app_assoc in Hrun, Hle, Hst, Hlast. cbn in Hrun, Hle, Hst, Hlast.
    exists status, (eb_block e :: new), next. by split_and!; [..|constructor| |].
Qed.

Lemma process_block_retrieval_ok st req :
  tree_ok content (inner st) ->
  exists resp next, process_block_retrieval st req = Ok resp /\ chained (brq_block_id req) (brs_blocks resp) next /\
    N.of_nat (length (brs_blocks resp)) <= brq_num_blocks req /\
    Forall (fun b => exists e, BlockTree.get_block (inner st) (b_id b) = Some e /\ eb_block e = b) (brs_blocks resp) /\
    target_last req (brs_status resp) (brs_blocks resp) /\
    (if bool_decide (brs_blocks resp = [])
     then brs_status resp = IdNotFound /\ (brq_num_blocks req = 0 \/ BlockStore.get_block (brq_block_id req) st = None)
     else stopped req st (brs_status resp) (brs_blocks resp) next).
Proof.
  intros Ht. unfold process_block_retrieval.
  destruct (retrieval_loop_ok (S (size (id_to_block (inner st)))) st req (brq_block_id req) [])
    as (status & new & next & Hrun & Hch & Hle & Hall & Hst & Hlast);
    [done|lia| |cbn; lia|by intros b Hb%elem_of_nil|].
  { intros b Hb. pose proof (below_lt _ _ _ (ExecutedBlock.round b + 1) Hb) as Hbl. unfold below at 2 in Hbl.
    pose proof (map_size_filter (fun x : HashValue * LinkableBlock =>
        ExecutedBlock.round (lb_executed_block x.2) < ExecutedBlock.round b + 1) (id_to_block (inner st))). lia. }
  rewrite Hrun. cbn in Hle, Hst, Hlast |- *. eexists _, next. split; [done|]. cbn. destruct (decide (new = [])) as [->|Hne].
  - rewrite !bool_decide_true by done. split_and!; [done..|]. destruct status; cbn in Hst, Hch; [left; lia|done| |].
    + right. destruct Hst as [_ Hn]. by rewrite Hch.
    + by destruct Hst as (b & Hb & _).
  - by rewrite !bool_decide_false by done.
Qed.
End serve.

Lemma verify_blocks_complete `{CryptoHash VoteData} `{Signable LedgerInfo} `{Signable BlockData} vs now blocks id next :
  chained id blocks next ->
  Forall (fun b => Block.validate_signature b vs = Ok tt /\ Block.verify_well_formed b now = Ok tt) blocks ->
  try_fold (BlockRetrievalResponse.verify_block vs now) blocks id = Ok next.
Proof.
  revert id. induction blocks as [|b blocks IH]; intros id; cbn; [by intros ->|].
  intros [<- Hch] [[Hs Hw] Hall]%Forall_cons. unfold BlockRetrievalResponse.verify_block. rewrite Hs, Hw, N.eqb_refl. cbn. auto.
Qed.

(** ** Peers that answer with given blocks *)

(** Retrieved blocks end with the target. *)
Lemma retrieved_target `{CryptoHash VoteData} `{Signable LedgerInfo} `{Signable BlockData} `{!ConsensusNetwork W}
    qc num target (r r' : BlockRetriever W) blocks :
  BlockRetriever.retrieve_block_for_qc qc num target r = (Ok blocks, r') ->
  exists b, last blocks = Some b /\ b_id b = target.
Proof.
  unfold BlockRetriever.retrieve_block_for_qc, BlockRetriever.retrieve_block_for_id. case_bool_decide; [done|].
  intros (? & ? & _ & (l & ? & _ & (b & ? & Hb & (? & ? & Ha & Hret)%method_bind_Ok)%method_bind_Ok)%method_bind_Ok)%method_bind_Ok.
  apply lift_Ok in Hb as [Hb%expect_Ok _]. apply lift_Ok in Ha as [Ha%assert_Ok _]. apply ret_Ok in Hret as [-> _].
  exists b. split; [done|]. by apply N.eqb_eq.
Qed.
Lemma last_Some_elem_of {A} (l : list A) x : last l = Some x -> x ∈ l.
Proof. intros (l' & ->)%last_Some. set_solver. Qed.

Module SyncExample.
Import Net.

(** Rounds 1 to 3 are certified, round 4 times out, rounds 5 and 6 are certified: the
    second block is committed by the third, the fifth by the sixth. *)
Definition block1 := proposal 1 11 1 genesis_qc.
Definition block2 := proposal 2 22 2 (certify block1).
Definition block3 := proposal 3 33 3 (certify block2).
Definition block5 := proposal 5 55 1 (certify block3).
Definition block6 := proposal 6 66 2 (certify block5).
Definition ordered_cert : QuorumCert := certify block6.
Definition commit_cert : QuorumCert := certify block3.
(** Another child of the fifth block. *)
Definition fork_cert : QuorumCert := certify (proposal 6 67 3 (certify block5)).

Definition peer (answer : BlockRetrievalRequest -> BlockRetrievalResponse) : ConsensusNetwork unit := {|
  send_rpc _ req _ := mret (Some (answer req));
  gen_range _ w := (O, w);
  clock _ := 1000;
  broadcast_epoch_change _ w := w;
  send_epoch_change _ w := w;
  send_commit_proof _ w := w;
|}.
(** One answers with the blocks down to the target, the other does not stop there. *)
Definition honest_answer (req : BlockRetrievalRequest) : BlockRetrievalResponse :=
  mkBlockRetrievalResponse SucceededWithTarget (vp_block <$> [block6; block5; block3; block2]).
Definition long_answer (req : BlockRetrievalRequest) : BlockRetrievalResponse :=
  mkBlockRetrievalResponse Succeeded (vp_block <$> [block6; block5; block3; block2; block1]).
Definition retriever : BlockRetriever unit := mkBlockRetriever (mkNetworkSender 4 tt (V 1)) 2.
Definition request : BlockRetrievalRequest := BlockRetrievalRequest.new_with_target_block_id 66 5 22.

Definition one_block (req : BlockRetrievalRequest) : BlockRetrievalResponse :=
  mkBlockRetrievalResponse Succeeded [vp_block block6].
(** Only the third validator has the block. *)
Definition one_peer : ConsensusNetwork unit := {|
  send_rpc who req _ := if who =? 3 then mret (Some (one_block req)) else lift (Err (Msg "timed out"));
  gen_range _ w := (O, w);
  clock _ := 1000;
  broadcast_epoch_change _ w := w;
  send_epoch_change _ w := w;
  send_commit_proof _ w := w;
|}.
Lemma one_peer_laws : @NetworkLaws unit one_peer.
Proof.
  split; [|..|intros n w Hn; exact Hn]; intros who req timeout w; cbn; destruct (who =? 3); try done.
  intros resp w' [= <- <-]. repeat constructor; vm_compute; discriminate.
Qed.
Lemma one_peer_has_block : @has_block _ _ _ unit one_peer (V 1) 3 66.
Proof. intros timeout w. exists (one_block request), w. split_and!; [done|by vm_compute|by left]. Qed.
End SyncExample.

Module SyncProps.
(** C9: what a block store serves, a peer accepts.  The answer of [process_block_retrieval]
    to any request is found without a panic and consists of blocks of the tree: a chain of
    parents that starts at the requested block.  It has as many blocks as requested, or ends
    with the target, or ends where the tree does; only its last block can be the target; and
    it is empty, with status [IdNotFound], only if the requested block is not in the tree or
    nothing was asked for.  If its blocks are valid, it passes
    [BlockRetrievalResponse::verify] for that request. *)
Theorem served_blocks_verify `{CryptoHash VoteData} `{Signable LedgerInfo} `{Signable BlockData} {C L : Type}
    (content : HashValue -> option BlockData) (st : BlockStore C L) (req : BlockRetrievalRequest)
    (vs : ValidatorVerifier) (now : N) :
  rounds_increase content -> tree_ok content (inner st) ->
  exists resp next, process_block_retrieval st req = Ok resp /\
    Forall (fun b => exists e, BlockStore.get_block (b_id b) st = Some e /\ eb_block e = b) (brs_blocks resp) /\
    chained (brq_block_id req) (brs_blocks resp) next /\
    N.of_nat (length (brs_blocks resp)) <= brq_num_blocks req /\
    (if bool_decide (brs_blocks resp = [])
     then brs_status resp = IdNotFound /\ (brq_num_blocks req = 0 \/ BlockStore.get_block (brq_block_id req) st = None)
     else stopped req st (brs_status resp) (brs_blocks resp) next) /\
    target_last req (brs_status resp) (brs_blocks resp) /\
    (Forall (fun b => Block.validate_signature b vs = Ok tt /\ Block.verify_well_formed b now = Ok tt) (brs_blocks resp) ->
     BlockRetrievalResponse.verify resp req vs now = Ok tt).
Proof.
  intros Hrounds Ht.
  destruct (process_block_retrieval_ok content Hrounds st req Ht) as (resp & next & Hrun & Hch & Hlen & Hall & Hlast & Hst).
  exists resp, next. split_and!; [done..|].
  intros Hvalid. unfold BlockRetrievalResponse.verify. rewrite (verify_blocks_complete vs now _ _ next Hch Hvalid).
  case_bool_decide; [by rewrite (proj1 Hst)|]. destruct (brs_status resp) eqn:Hs; cbn; [|done|done|].
  - by rewrite Hst, N.eqb_refl.
  - destruct Hst as (b & -> & Hb). unfold BlockRetrievalRequest.match_target_id. by rewrite Hb, N.eqb_refl.
Qed.

(** Three blocks down to the target, and an answer with blocks for every request that names
    a block of the tree. *)
Lemma served_blocks_verify_witness :
  let st := StoreExample.session_end.1 in
  let req := BlockRetrievalRequest.new_with_target_block_id 55 3 22 in
  exists resp next, process_block_retrieval st req = Ok resp /\ length (brs_blocks resp) = 3%nat /\
    chained 55 (brs_blocks resp) next /\ stopped req st (brs_status resp) (brs_blocks resp) next /\
    (Forall (fun b => Block.validate_signature b (Net.V 1) = Ok tt /\ Block.verify_well_formed b 1000 = Ok tt) (brs_blocks resp) ->
     BlockRetrievalResponse.verify resp req (Net.V 1) 1000 = Ok tt).
Proof.
  destruct (served_blocks_verify StoreExample.content StoreExample.session_end.1
           (BlockRetrievalRequest.new_with_target_block_id 55 3 22) (Net.V 1) 1000) as (resp & next & Hrun & _ & Hch & _ & Hst & _ & Hv).
  - exact (ch_rounds _ StoreExample.chain_fine).
  - exact StoreExample.end_tree_fine.
  - assert (Ok resp = process_block_retrieval StoreExample.session_end.1 (BlockRetrievalRequest.new_with_target_block_id 55 3 22))
      as Heq by (symmetry; exact Hrun).
    exists resp, next. assert (length (brs_blocks resp) = 3%nat) as Hlen
      by (vm_compute in Heq; injection Heq as ->; reflexivity).
    rewrite bool_decide_false in Hst by (intros Hnil; rewrite Hnil in Hlen; discriminate).
    split_and!; [exact Hrun|exact Hlen|exact Hch|exact Hst|exact Hv].
Defined.

(** C8: retrieving the block of a certificate is sound and total, and one peer that has the
    block is enough.  [retrieve_block_for_qc] for one block ends within its attempts without
    a panic, whatever the peers answer, as long as it is not a block on which the checks of
    the answer themselves overflow or panic, a nil block of the last round or a quorum store
    payload ([block_fits]).  If it succeeds, the first block, which is the one that is used,
    has the certified id, a valid signature and a verified certificate and is well-formed.
    It does succeed if some signer of the certificate, other than the node itself, always
    answers with a block that passes the checks, whatever the other peers do and whichever
    are picked. *)
Theorem retrieve_certified_total `{CryptoHash VoteData} `{Signable LedgerInfo} `{Signable BlockData}
    `{!ConsensusNetwork W} `{!NetworkLaws W} (qc : QuorumCert) (r : BlockRetriever W) :
  let vs := ns_validators (br_network r) in
  let id := bi_id (QuorumCert.certified_block qc) in
  let signers := lis_signatures (qc_signed_ledger_info qc) in
  verifier_wf vs -> N.of_nat (size signers) + 2 < 2 ^ 32 ->
  match (BlockRetriever.retrieve_block_for_qc qc 1 id r).1 with
  | Ok blocks => exists b rest now, blocks = b :: rest /\ b_id b = id /\
      Block.validate_signature b vs = Ok tt /\ Block.verify_well_formed b now = Ok tt
  | Err _ => ~ exists p, is_Some (signers !! p) /\ p <> ns_author (br_network r) /\ has_block vs p id
  | Panic => False
  end.
Proof.
  intros vs id signers Hvs Hs.
  pose proof (retrieve_certified_ok vs Hvs _ (answers_verified vs) qc r eq_refl Hs) as Hret. cbv zeta in Hret. unfold safe in Hret. fold id in Hret.
  assert (forall p e, is_Some (signers !! p) -> p <> ns_author (br_network r) -> has_block vs p id ->
    (BlockRetriever.retrieve_block_for_qc qc 1 id r).1 <> Err e) as Hhas.
  { intros p e Hp Hne Hh. by apply (retrieve_certified_has_block vs qc p r e). }
  destruct (BlockRetriever.retrieve_block_for_qc qc 1 id r) as [[blocks|e|] r'] eqn:Hrun; [|by intros (p & ? & ? & ?); apply (Hhas p e)|done].
  destruct Hret as (_ & b & Hhead & Hb & now & ? & ?). destruct blocks as [|b' rest]; [done|]. injection Hhead as ->. by exists b, rest, now.
Qed.

Lemma retrieve_certified_total_witness :
  match (@BlockRetriever.retrieve_block_for_qc _ _ _ unit SyncExample.one_peer SyncExample.ordered_cert 1 66 SyncExample.retriever).1 with
  | Ok blocks => exists b rest now, blocks = b :: rest /\ b_id b = 66 /\
      Block.validate_signature b (Net.V 1) = Ok tt /\ Block.verify_well_formed b now = Ok tt
  | _ => False
  end.
Proof.
  pose proof (@retrieve_certified_total _ _ _ unit SyncExample.one_peer SyncExample.one_peer_laws SyncExample.ordered_cert
    SyncExample.retriever StoreExample.verifier_fine ltac:(vm_compute; reflexivity)) as Hret. cbv zeta in Hret.
  change (bi_id (QuorumCert.certified_block SyncExample.ordered_cert)) with 66 in Hret.
  destruct (BlockRetriever.retrieve_block_for_qc SyncExample.ordered_cert 1 66 SyncExample.retriever) as [[blocks|e|] r]; cbn in Hret |- *;
    [exact Hret|destruct Hret|exact Hret].
  exists 3. split_and!; [vm_compute; by eexists|vm_compute; discriminate|exact SyncExample.one_peer_has_block].
Defined.

(** C37: fast-forward sync cannot fetch the block of a commit certificate from a fork.  When
    the block that the commit certificate certifies is not among the blocks down to the
    committed one, [fast_forward_sync] asks for that single block, but with the committed
    block as the target of the retrieval: no network makes this succeed. *)
Theorem fork_fetch_never_succeeds `{CryptoHash VoteData} `{Signable LedgerInfo} `{Signable BlockData}
    `{!ConsensusNetwork W} (highest_commit_cert : QuorumCert) (blocks : list Block) (certs : list QuorumCert) (b : Block) :
  Forall (fun b => b_id b <> bi_id (QuorumCert.certified_block highest_commit_cert)) blocks ->
  last blocks = Some b -> b_id b = bi_id (QuorumCert.commit_info highest_commit_cert) ->
  forall (r r' : BlockRetriever W) p, SyncManager.fetch_fork highest_commit_cert blocks certs r <> (Ok p, r').
Proof.
  intros Hfork Hlast Hid r r' p. unfold SyncManager.fetch_fork.
  destruct (existsb _ blocks) eqn:Hex.
  { apply existsb_exists in Hex as (x & Hx & Hxe). rewrite <-list_elem_of_In in Hx. rewrite Forall_forall in Hfork.
    apply N.eqb_eq in Hxe. intros _. exact (Hfork x Hx Hxe). }
  intros (l & r1 & Hret & Hrest)%method_bind_Ok.
  apply retrieved_target in Hret as (t & Ht & Htid).
  apply method_bind_Ok in Hrest as (? & ? & Hlen & Hrest). apply lift_Ok in Hlen as [Hlen%assert_Ok ->].
  apply method_bind_Ok in Hrest as (y & ? & Hx & Hrest). apply lift_Ok in Hx as [Hx%expect_Ok ->].
  apply method_bind_Ok in Hrest as (? & ? & Hxid & _). apply lift_Ok in Hxid as [Hxid%assert_Ok _].
  apply N.eqb_eq in Hxid. rewrite Ht in Hx. injection Hx as ->.
  rewrite Forall_forall in Hfork. apply (Hfork b); [by apply last_Some_elem_of|]. congruence.
Qed.

Lemma fork_fetch_never_succeeds_witness :
  let blocks := vp_block <$> [SyncExample.block6; SyncExample.block5] in
  ~ exists (r r' : BlockRetriever unit) p,
    @SyncManager.fetch_fork unit (SyncExample.peer SyncExample.honest_answer) _ _ _
      SyncExample.fork_cert blocks [] r = (Ok p, r').
Proof.
  intros blocks (r & r' & p & Hf). revert Hf.
  apply (fork_fetch_never_succeeds (ConsensusNetwork0 := SyncExample.peer SyncExample.honest_answer)
           SyncExample.fork_cert (vp_block <$> [SyncExample.block6; SyncExample.block5]) [] (vp_block SyncExample.block5)).
  - repeat constructor; vm_compute; discriminate.
  - vm_compute. reflexivity.
  - vm_compute. reflexivity.
Defined.

(** A single faulty peer can crash a node that retrieves blocks.  An answer that starts with a
    nil block of the last round on top of any genuine certificate makes
    [BlockRetrievalResponse::verify] overflow, before the id of the block is looked at. *)
Theorem last_nil_block_panics `{CryptoHash VoteData} `{Signable LedgerInfo} `{Signable BlockData}
    (vs : ValidatorVerifier) (req : BlockRetrievalRequest) (now : N) (b : Block) (blocks : list Block) (failed : list (Round * Author)) :
  let parent := QuorumCert.certified_block (Block.quorum_cert b) in
  bd_block_type (b_block_data b) = NilBlock failed -> Block.round b = u64_max ->
  QuorumCert.verify (Block.quorum_cert b) vs = Ok tt -> bi_round parent < u64_max -> bi_epoch parent = Block.epoch b ->
  brq_num_blocks req = N.of_nat (length (b :: blocks)) ->
  BlockRetrievalResponse.verify (mkBlockRetrievalResponse Succeeded (b :: blocks)) req vs now = Panic.
Proof.
  intros parent Hnil Hround Hqc Hlt Hepoch Hnum. unfold BlockRetrievalResponse.verify. cbn [brs_status brs_blocks].
  rewrite Hnum, N.eqb_refl, orb_true_r. cbn [ensure mbind outcome_bind try_fold]. rewrite bool_decide_true by done.
  cbn [orb ensure mbind outcome_bind].
  enough (BlockRetrievalResponse.verify_block vs now b (brq_block_id req) = Panic) as -> by done.
  unfold BlockRetrievalResponse.verify_block, Block.validate_signature. rewrite Hnil, Hqc. cbn [mbind outcome_bind].
  unfold Block.verify_well_formed, Block.is_genesis_block, Block.is_nil_block, Block.payload, BlockData.is_genesis_block,
    BlockData.is_nil_block, BlockData.failed_authors, BlockData.payload.
  rewrite Hnil. cbn [negb ensure mbind outcome_bind]. fold parent. rewrite Hround, (proj2 (N.ltb_lt _ _) Hlt).
  cbn [ensure mbind outcome_bind]. rewrite Hepoch, N.eqb_refl. cbn [ensure mbind outcome_bind].
  by destruct (BlockInfo.has_reconfiguration parent).
Qed.

(** A single faulty peer can crash a node that fast-forwards.  Rounds were skipped
    between the committed block and the ordered certificate, so that the number of blocks
    asked for is larger than the number of blocks up to the target.  A peer that answers
    with the valid chain beyond the target passes [BlockRetrievalResponse::verify], and the
    assertion of [retrieve_block_for_id] on the last block panics; the answer of an honest
    peer, which stops at the target, is accepted. *)
Theorem long_answer_panics :
  let fetch answer := (@SyncManager.fetch_chain unit (SyncExample.peer answer) _ _ _
                         SyncExample.ordered_cert SyncExample.commit_cert SyncExample.retriever).1 in
  BlockRetrievalResponse.verify (SyncExample.long_answer SyncExample.request) SyncExample.request (Net.V 1) 1000 = Ok tt /\
  BlockRetrievalResponse.verify (SyncExample.honest_answer SyncExample.request) SyncExample.request (Net.V 1) 1000 = Ok tt /\
  fetch SyncExample.long_answer = Panic /\
  (exists certs, fetch SyncExample.honest_answer = Ok (brs_blocks (SyncExample.honest_answer SyncExample.request), certs)).
Proof.
  split; [vm_compute; reflexivity|]. split; [vm_compute; reflexivity|]. split; [vm_compute; reflexivity|].
  exists (Net.certify <$> [SyncExample.block6; SyncExample.block5; SyncExample.block3; SyncExample.block2]).
  vm_compute. reflexivity.
Qed.
End SyncProps.
