(* ===== verification/RecoveryProps.v ===== *)
(** * Theorems on the consensus database and on restarts *)

From S2P Require Import Prelude Crypto Errors Position Accumulator AccumulatorLemmas Verifier Ledger ConsensusTypes Blocks Storage SafetyRules SafetyLemmas Replica Bft Simulation TransactionProofs AccumulatorStore AccumulatorStoreLemmas SchemaDb LedgerSchemas LedgerDb TransactionStore EventStore StateStore AptosDb SchemaLemmas LedgerDbExample LedgerDbLemmas LedgerDbWrites BlockTree ConsensusDb LivenessStorage BlockStore ConsensusDbLemmas BlockTreeLemmas BlockStoreLemmas Recovery.

(** ** A small consensus database

    The ledger of [Example.db3] was committed up to block 92; blocks 93 and 94 are on top of it,
    block 95 has no parent. *)
Module RecoveryExample.
Definition sigs : gmap N Signature := {[ 1 := 101; 2 := 102; 4 := 104 ]}.
Definition ordered (round id time : N) : BlockInfo := mkBlockInfo 2 round id ACCUMULATOR_PLACEHOLDER_HASH 0 time None.
Definition cert (proposed parent commit : BlockInfo) : QuorumCert :=
  mkQuorumCert (mkVoteData proposed parent) (mkLedgerInfoWithSignatures (mkLedgerInfo commit 5) sigs).
Definition block (round id time : N) (qc : QuorumCert) : Block :=
  mkBlock id (mkBlockData 2 round time qc (Proposal (DirectMempool []) 1 [])) (Some 101).

Definition info90 : BlockInfo := ordered 1 90 15.
Definition info92 : BlockInfo := ordered 3 92 20.
Definition info93 : BlockInfo := ordered 4 93 21.
Definition info94 : BlockInfo := ordered 5 94 22.
Definition qc90 : QuorumCert := cert info90 (ordered 0 80 10) (ordered 0 80 10).
Definition qc92 : QuorumCert := cert info92 info90 info90.
Definition qc93 : QuorumCert := cert info93 info92 info92.
Definition qc94 : QuorumCert := cert info94 info93 info93.
Definition block92 : Block := block 3 92 20 qc90.
Definition block93 : Block := block 4 93 21 qc92.
Definition block94 : Block := block 5 94 22 qc93.
Definition block95 : Block := block 6 95 23 (cert (ordered 2 77 16) info90 info90).
Definition blocks : list Block := [block92; block93; block94; block95].
Definition certs : list QuorumCert := [qc92; qc93; qc94].

#[global] Instance consensus_codecs : ConsensusBcs := {|
  bcs_block := indexed blocks;
  bcs_quorum_cert := indexed certs;
  bcs_vote := indexed [];
  bcs_timeout_cert := indexed [];
|}.
#[global] Instance consensus_codec_laws : ConsensusBcsLaws.
Proof. split; apply indexed_laws. Qed.
#[global] Instance order : HashOrder := {| set_iter := elements; map_iter V := map_to_list |}.
#[global] Instance order_laws : HashOrderLaws.
Proof. by split. Qed.
#[global] Instance hash_vote_data : CryptoHash VoteData := fun _ => 5.
#[global] Instance hash_block_data : CryptoHash BlockData := fun _ => 9.
#[global] Instance computer : StateComputer unit := {|
  sc_compute _ _ := mret (mkStateComputeResult ACCUMULATOR_PLACEHOLDER_HASH [] [] 0 0 None [] [] []);
  sc_commit _ _ := mret None;
  sc_sync_to _ := mret tt;
|}.
#[global] Instance computer_reliable : StateComputerReliable unit.
Proof. intros b parent c. by eexists _, _. Qed.

Definition empty : ConsensusState := mkConsensusState ∅ ∅ None None.
Definition proxy0 : StorageWriteProxy MemDb MemDb := mkStorageWriteProxy (mkMemDb ∅) Example.db3.
Lemma new_holds : consensus_holds (swp_db proxy0) empty.
Proof. split; [apply table_empty..|]. exists ∅. split; [apply table_empty|done]. Qed.

Definition saved : ConsensusState := cs_save blocks certs empty.
Definition proxy1 : StorageWriteProxy MemDb MemDb := (StorageWriteProxy.save_tree blocks certs proxy0).2.
Lemma saved_holds : consensus_holds (swp_db proxy1) saved.
Proof.
  destruct (write_done (SaveTree blocks certs) proxy0 empty new_holds) as (p' & Hp & Hdb & _).
  - done.
  - split; repeat constructor.
  - split_and!; [by intros [? _]|repeat constructor; by eexists..].
  - assert (p' = proxy1) as <-; [|done]. cbn [run_write] in Hp. unfold proxy1. by rewrite Hp.
Qed.
Lemma saved_wf : state_wf saved.
Proof.
  split.
  - assert (map_Forall (fun i b => b_id b = i /\ i < 2 ^ 256) (cs_blocks saved)) as Hall
      by (apply (bool_decide_unpack _); vm_compute; exact I).
    intros i b Hb. exact (Hall i b Hb).
  - assert (map_Forall (fun i qc => bi_id (QuorumCert.certified_block qc) = i /\ i < 2 ^ 256) (cs_certs saved)) as Hall
      by (apply (bool_decide_unpack _); vm_compute; exact I).
    intros i qc Hqc. exact (Hall i qc Hqc).
Qed.

Definition startup : StartupInfo :=
  match StorageWriteProxy.startup_info proxy1 with
  | Ok info => info
  | _ => mkStartupInfo Example.open2 None (mkExecutedTrees (Example.delta None None) Acc.new_empty) None
  end.
Definition stored : list Block := stored_blocks saved.
Definition stored_qcs : list QuorumCert := stored_certs saved.

Lemma stored_is : stored = [block94; block92; block93; block95].
Proof. vm_compute. reflexivity. Qed.
Lemma stored_qcs_is : stored_qcs = [qc94; qc92; qc93].
Proof. vm_compute. reflexivity. Qed.
#[local] Instance certifies_dec qc b : Decision (certifies qc b).
Proof. unfold certifies. apply _. Defined.

(** A condition on all pairs of elements, by evaluation. *)
Lemma all_pairs {A B} (P : A -> B -> Prop) `{forall a b, Decision (P a b)} (l : list A) (k : list B) :
  forallb (fun a => forallb (fun b => bool_decide (P a b)) k) l = true -> forall a b, a ∈ l -> b ∈ k -> P a b.
Proof.
  intros Hall a b Ha Hb. rewrite forallb_forall in Hall. specialize (Hall a (proj1 (list_elem_of_In _ _) Ha)).
  cbn in Hall. rewrite forallb_forall in Hall. specialize (Hall b (proj1 (list_elem_of_In _ _) Hb)).
  by apply bool_decide_eq_true in Hall.
Qed.

Lemma can_recover : recoverable (root_metadata startup) 92 Example.open2 stored stored_qcs.
Proof.
  rewrite stored_is, stored_qcs_is. split.
  - apply (bool_decide_unpack _). vm_compute. exact I.
  - intros b b' Hb Hb'. refine (all_pairs (fun b b' : Block => b_id b' = Block.parent_id b ->
      Block.epoch b' = Block.epoch b /\ Block.round b' < Block.round b) _ _ _ b b' Hb Hb'). vm_compute. reflexivity.
  - right. left.
  - exists qc92. split; [right; left|reflexivity].
  - exists qc93. split; [right; right; left|reflexivity].
  - intros qc Hqc. refine (all_pairs (fun qc li => bi_id (QuorumCert.commit_info qc) = 92 ->
      BlockInfo.match_ordered_only (QuorumCert.commit_info qc) (li_commit_info (lis_ledger_info li)) = true)
      _ [Example.open2] _ qc Example.open2 Hqc _); [vm_compute; reflexivity|left].
  - intros qc b Hq Hb. refine (all_pairs (fun qc b => b_id b = bi_id (QuorumCert.certified_block qc) -> certifies qc b)
      _ _ _ qc b Hq Hb). vm_compute. reflexivity.
  - intros qc Hqc. refine (all_pairs (fun qc md => bi_id (QuorumCert.certified_block qc) = 92 ->
      (bi_version (QuorumCert.certified_block qc) = 0 \/ bi_version (QuorumCert.certified_block qc) = RootMetadata_version md) /\
      (bi_executed_state_id (QuorumCert.certified_block qc) = ACCUMULATOR_PLACEHOLDER_HASH \/
       bi_executed_state_id (QuorumCert.certified_block qc) = rm_accu_hash md))
      _ [root_metadata startup] _ qc (root_metadata startup) Hqc _); [vm_compute; reflexivity|left].
  - split; repeat constructor; by eexists.
  - repeat constructor.
Qed.

Lemma unreached95 : ~ reach {[92]} [block94; block92; block93; block95] 95.
Proof.
  intros Hr. inversion Hr as [i Hi|b Hb Hp He].
  - apply elem_of_singleton in Hi. discriminate Hi.
  - repeat (apply elem_of_cons in Hb as [->|Hb]; [try discriminate He|]); [|by apply elem_of_nil in Hb].
    inversion Hp as [i Hi|b Hb Hp' He'].
    + apply elem_of_singleton in Hi. discriminate Hi.
    + repeat (apply elem_of_cons in Hb as [->|Hb]; [discriminate He'|]). by apply elem_of_nil in Hb.
Qed.
End RecoveryExample.

Module RecoveryProps.
(** C11: the consensus database does what the storage interface says.  Let the database
    hold a set of blocks and certificates by id, a last vote and a highest timeout
    certificate.  Saving a tree, pruning, and saving or deleting a vote or a timeout
    certificate either takes place as a whole or fails and changes nothing; the ledger is
    not touched, what is read afterwards is exactly what is then held, and on a database
    that does not fail every write of values that can be encoded succeeds. *)
Theorem storage_refines `{ConsensusBcs} `{!ConsensusBcsLaws} `{LedgerBcs} `{RocksDbLaws C CIt} `{RocksDb D It}
    `{MerkleHasher} `{HashOrderLaws} `{CryptoHash VoteData} `{CryptoHash BlockData}
    (w : StorageWrite) (p p' : StorageWriteProxy C D) (r : result unit) (cs : ConsensusState) :
  consensus_holds (swp_db p) cs -> write_width w -> run_write w p = (r, p') ->
  exists cs', consensus_holds (swp_db p') cs' /\ (cs' = abs_write w cs \/ cs' = cs /\ r <> Ok tt) /\
    swp_aptos_db p' = swp_aptos_db p /\
    (forall fuel vote tc bs qs, ConsensusDB.get_data fuel (swp_db p') = Ok (vote, tc, bs, qs) ->
       entry_is (cs_vote cs') vote /\ entry_is (cs_timeout cs') tc /\
       (forall b, b ∈ bs <-> exists i, cs_blocks cs' !! i = Some b) /\
       (forall qc, qc ∈ qs <-> exists i, cs_certs cs' !! i = Some qc)) /\
    (RocksDbReliable C CIt -> (forall cf, cf_handle (swp_db p) cf = true) -> write_encodable w -> r = Ok tt).
Proof.
  intros Hp Hw Hr. destruct (write_refines w p p' r cs Hp Hw Hr) as (Ha & _ & Hor).
  assert (exists cs', consensus_holds (swp_db p') cs' /\ (cs' = abs_write w cs \/ cs' = cs /\ r <> Ok tt)) as (cs' & Hcs' & Hor').
  { destruct Hor as [Hc|[Hne Hc]]; [exists (abs_write w cs)|exists cs]; auto. }
  exists cs'. split_and!; [done..| |].
  - intros fuel vote tc bs qs (Hv & Ht & -> & ->)%(get_data_Ok _ _ cs'); [|done].
    split_and!; [done..|intros b; apply elem_of_map_iter|intros qc; apply elem_of_map_iter].
  - intros Hrel Hcf He. pose proof (write_total w p Hcf He) as Hok. by rewrite Hr in Hok.
Qed.

Lemma storage_refines_witness :
  let w := SaveTree RecoveryExample.blocks RecoveryExample.certs in
  exists cs', consensus_holds (swp_db RecoveryExample.proxy1) cs' /\ cs' = RecoveryExample.saved.
Proof.
  destruct (storage_refines (SaveTree RecoveryExample.blocks RecoveryExample.certs) RecoveryExample.proxy0
    RecoveryExample.proxy1 (Ok tt) RecoveryExample.empty) as (cs' & Hcs & Hor & _).
  - apply RecoveryExample.new_holds.
  - split; repeat constructor.
  - vm_compute. reflexivity.
  - exists cs'. split; [exact Hcs|]. destruct Hor as [->|[_ []]]; reflexivity.
Defined.

(** C10: a restart recovers the stored tree exactly.  Let the consensus database hold blocks
    and certificates among which are the block that the ledger was committed up to and its
    certificates, let rounds increase from parent to child, let the certificates agree with
    the blocks they certify ([recoverable]), and let the disk not fail.  Then [start] succeeds: it finds this block as the root, recovers the
    blocks that reach the root through stored parents and their certificates, and deletes
    the other blocks.  From this, and with a state computer that executes,
    [BlockStore::build] makes a tree whose two roots are that block and which has exactly
    the recovered blocks. *)
Theorem restart_recovers_tree `{ConsensusBcs} `{!ConsensusBcsLaws} `{LedgerBcs} `{RocksDbReliable C CIt} `{RocksDb D It}
    `{MerkleHasher} `{HashOrderLaws} `{CryptoHash VoteData} `{CryptoHash BlockData} `{StateComputerReliable X}
    (fuel : nat) (p : StorageWriteProxy C D) (cs : ConsensusState) (info : StartupInfo)
    (root_id : HashValue) (li : LedgerInfoWithSignatures) (blocks : list Block) (certs : list QuorumCert)
    (c : X) (max : N) (limit : Round) :
  consensus_holds (swp_db p) cs -> (forall cf, cf_handle (swp_db p) cf = true) -> state_wf cs ->
  (size (cs_blocks cs) <= fuel)%nat -> (size (cs_certs cs) <= fuel)%nat ->
  StorageWriteProxy.startup_info p = Ok info ->
  ledger_root (mkLedgerRecoveryData (su_latest_ledger_info info)) (stored_blocks cs) (stored_certs cs)
    = Ok (root_id, li, blocks, certs) ->
  recoverable (root_metadata info) root_id li blocks certs ->
  exists data p' st env', StorageWriteProxy.start fuel p = (Ok (FullRecoveryData data), p') /\
    (forall b, b ∈ rd_blocks data <-> b ∈ blocks /\ b_id b <> root_id /\ reach {[root_id]} blocks (b_id b)) /\
    (forall qc, qc ∈ rd_quorum_certs data <-> qc ∈ certs /\ reach {[root_id]} blocks (bi_id (QuorumCert.certified_block qc))) /\
    (exists cs', consensus_holds (swp_db p') cs' /\ forall i b, cs_blocks cs' !! i = Some b <->
       cs_blocks cs !! i = Some b /\ reach {[root_id]} blocks i) /\
    @BlockStore.build X _ _ (StorageWriteProxy_storage fuel) (rd_root data) (rd_root_metadata data) (rd_blocks data)
      (rd_quorum_certs data) (rd_highest_2chain_timeout_certificate data) max limit (c, p') = (Ok st, env') /\
    commit_root_id (inner st) = root_id /\ ordered_root_id (inner st) = root_id /\
    (forall i, (exists e, BlockStore.get_block i st = Some e) <->
       (exists b, b ∈ blocks /\ b_id b = i) /\ reach {[root_id]} blocks i) /\
    (forall i e, BlockStore.get_block i st = Some e -> eb_block e ∈ blocks).
Proof.
  intros Hdb Hcf Hwf Hfb Hfq Hinfo Hroot Hrv. pose proof Hrv as [Hids Hlink Hrb Hrqc Hoqc Hmatch _ _ _ _].
  destruct (start_recovers fuel p cs info Hdb Hcf Hwf Hfb Hfq Hinfo root_id li blocks certs Hroot Hids
              (well_linked_earlier _ Hlink) Hrb Hrqc Hoqc Hmatch) as (data & p' & Hstart & Hrec & Hdb' & Hcf' & _).
  destruct (rebuild_ok fuel _ _ _ root_id li blocks certs Hrv data Hrec c max limit p') as (st & env' & Hbuild);
    [split; [done|by eexists]|].
  exists (taken data), p', st, env'. split_and!; [done|apply Hrec|apply Hrec| |apply Hbuild..].
  exists (cleaned data cs). split; [done|]. exact (cleaned_blocks _ _ _ _ _ _ _ _ _ _ Hroot Hwf Hrec).
Qed.

(** Block 94 is recovered, block 95 is not. *)
Lemma restart_recovers_tree_witness :
  exists data p' st env', StorageWriteProxy.start 10 RecoveryExample.proxy1 = (Ok (FullRecoveryData data), p') /\
    @BlockStore.build unit _ _ (StorageWriteProxy_storage 10) (rd_root data) (rd_root_metadata data) (rd_blocks data)
      (rd_quorum_certs data) (rd_highest_2chain_timeout_certificate data) 10 10 (tt, p') = (Ok st, env') /\
    commit_root_id (inner st) = 92 /\ (exists e, BlockStore.get_block 94 st = Some e) /\
    ~ exists e, BlockStore.get_block 95 st = Some e.
Proof.
  destruct (restart_recovers_tree 10 RecoveryExample.proxy1 RecoveryExample.saved RecoveryExample.startup 92 Example.open2
    RecoveryExample.stored RecoveryExample.stored_qcs tt 10 10) as (data & p' & st & env' & Hs & _ & _ & _ & Hb & Hc & _ & Hget & _).
  - apply RecoveryExample.saved_holds.
  - reflexivity.
  - apply RecoveryExample.saved_wf.
  - vm_compute. lia.
  - vm_compute. lia.
  - vm_compute. reflexivity.
  - vm_compute. reflexivity.
  - apply RecoveryExample.can_recover.
  - exists data, p', st, env'. split; [exact Hs|]. split; [exact Hb|]. split; [exact Hc|].
    rewrite (Hget 94), (Hget 95), RecoveryExample.stored_is. split.
    + split; [exists RecoveryExample.block94; split; [left|reflexivity]|].
      apply (reach_block _ _ RecoveryExample.block94); [left|].
      apply (reach_block _ _ RecoveryExample.block93); [right; right; left|]. apply reach_tree, elem_of_singleton. reflexivity.
    + intros [_ Hr]. apply RecoveryExample.unreached95. exact Hr.
Defined.
End RecoveryProps.
