(* ===== verification/MempoolIndex.v ===== *)
(** * The indexes of mempool

    The data of core mempool (mempool/src/core_mempool/transaction.rs), its indexes
    (index.rs) and the cache with expiring entries (ttl_cache.rs).  Durations and system
    times are nanoseconds. *)

From S2P Require Import Prelude Crypto Errors Position Accumulator Verifier Ledger ConsensusTypes Blocks TransactionProofs.

(** ** Transactions *)

(** types/src/account_config/resources/crsn.rs *)
Inductive AccountSequenceInfo : Type :=
  | Sequential (seqno : N)
  | CRSN (min_nonce size : N).
#[global] Instance AccountSequenceInfo_eq_dec : EqDecision AccountSequenceInfo.
Proof. solve_decision. Defined.
Definition min_seq (self : AccountSequenceInfo) : N :=
  match self with Sequential seqno => seqno | CRSN min_nonce _ => min_nonce end.

Inductive TimelineState : Type := Ready (timeline_id : N) | NotReady | NonQualified.
#[global] Instance TimelineState_eq_dec : EqDecision TimelineState.
Proof. solve_decision. Defined.

Record SequenceInfo : Type := mkSequenceInfo {
  transaction_sequence_number : N;
  account_sequence_number_type : AccountSequenceInfo;
}.
#[global] Instance SequenceInfo_eq_dec : EqDecision SequenceInfo.
Proof. solve_decision. Defined.

Record MempoolTransaction : Type := mkMempoolTransaction {
  mt_txn : SignedTransaction;
  mt_expiration_time : N;
  mt_ranking_score : N;
  mt_timeline_state : TimelineState;
  mt_sequence_info : SequenceInfo;
}.
#[global] Instance MempoolTransaction_eq_dec : EqDecision MempoolTransaction.
Proof. solve_decision. Defined.

Module MempoolTransaction.
Definition new (txn : SignedTransaction) (expiration_time ranking_score : N) (timeline_state : TimelineState)
    (seqno_type : AccountSequenceInfo) : MempoolTransaction :=
  mkMempoolTransaction txn expiration_time ranking_score timeline_state
    (mkSequenceInfo (txn_sequence_number txn) seqno_type).
Definition get_sender (self : MempoolTransaction) : AccountAddress := txn_sender (mt_txn self).
Definition get_gas_price (self : MempoolTransaction) : N := txn_gas_unit_price (mt_txn self).
Definition get_committed_hash `{CryptoHash Transaction} (self : MempoolTransaction) : HashValue :=
  hash (UserTransaction (mt_txn self)).
Definition sequence_number (self : MempoolTransaction) : N := transaction_sequence_number (mt_sequence_info self).
Definition set_timeline_state (s : TimelineState) (self : MempoolTransaction) : MempoolTransaction :=
  mkMempoolTransaction (mt_txn self) (mt_expiration_time self) (mt_ranking_score self) s (mt_sequence_info self).
End MempoolTransaction.

Abbreviation TxnPointer := (AccountAddress * N)%type.
Definition txn_pointer (txn : MempoolTransaction) : TxnPointer :=
  (MempoolTransaction.get_sender txn, MempoolTransaction.sequence_number txn).

(** ** [PriorityIndex]

    A [BTreeSet] of keys whose order does not look at the account's sequence number: what
    it compares are the keys of the map, and inserting a key that is there keeps the old
    one. *)
Record OrderedQueueKey : Type := mkOrderedQueueKey {
  oq_gas_ranking_score : N;
  oq_expiration_time : N;
  oq_address : AccountAddress;
  oq_sequence_number : SequenceInfo;
}.
Abbreviation QueueOrder := (N * N * AccountAddress * N)%type.
Definition oq_pointer (key : OrderedQueueKey) : TxnPointer :=
  (oq_address key, transaction_sequence_number (oq_sequence_number key)).

Record PriorityIndex : Type := mkPriorityIndex { pi_data : gmap QueueOrder AccountSequenceInfo }.

(** The order in which [iter], which is reversed, walks the keys. *)
Definition queue_before (k k' : QueueOrder * AccountSequenceInfo) : Prop :=
  let '(score, time, address, seq, _) := k in
  let '(score', time', address', seq', _) := k' in
  score' < score \/
  score = score' /\ (time < time' \/
    time = time' /\ (address' < address \/ address = address' /\ seq <= seq')).
#[global] Instance queue_before_dec : RelDecision queue_before.
Proof. intros [[[[??]?]?]?] [[[[??]?]?]?]. unfold queue_before. apply _. Defined.

Module PriorityIndex.
Definition new : PriorityIndex := mkPriorityIndex ∅.
Definition make_key (txn : MempoolTransaction) : QueueOrder :=
  (mt_ranking_score txn, mt_expiration_time txn, MempoolTransaction.get_sender txn,
   MempoolTransaction.sequence_number txn).
Definition insert (txn : MempoolTransaction) (self : PriorityIndex) : PriorityIndex :=
  match pi_data self !! make_key txn with
  | Some _ => self
  | None => mkPriorityIndex (<[make_key txn := account_sequence_number_type (mt_sequence_info txn)]> (pi_data self))
  end.
Definition remove (txn : MempoolTransaction) (self : PriorityIndex) : PriorityIndex :=
  mkPriorityIndex (delete (make_key txn) (pi_data self)).
Definition contains (txn : MempoolTransaction) (self : PriorityIndex) : bool :=
  bool_decide (is_Some (pi_data self !! make_key txn)).
Definition queue_key (e : QueueOrder * AccountSequenceInfo) : OrderedQueueKey :=
  let '(score, time, address, seq, info) := e in mkOrderedQueueKey score time address (mkSequenceInfo seq info).
Definition iter (self : PriorityIndex) : list OrderedQueueKey :=
  queue_key <$> merge_sort queue_before (map_to_list (pi_data self)).
Definition size (self : PriorityIndex) : N := N.of_nat (base.size (pi_data self)).
End PriorityIndex.

(** ** [TTLIndex]: keys by expiration time, address and sequence number *)
Abbreviation TTLOrderingKey := (N * AccountAddress * N)%type.
Definition ttl_le (k k' : TTLOrderingKey) : Prop :=
  let '(time, address, seq) := k in
  let '(time', address', seq') := k' in
  time < time' \/ time = time' /\ (address < address' \/ address = address' /\ seq <= seq').
#[global] Instance ttl_le_dec : RelDecision ttl_le.
Proof. intros [[??]?] [[??]?]. unfold ttl_le. apply _. Defined.

Record TTLIndex : Type := mkTTLIndex { ttl_data : gset TTLOrderingKey }.

Module TTLIndex.
Definition new : TTLIndex := mkTTLIndex ∅.
Section time.
Context (get_expiration_time : MempoolTransaction -> N).
Definition make_key (txn : MempoolTransaction) : TTLOrderingKey :=
  (get_expiration_time txn, MempoolTransaction.get_sender txn, MempoolTransaction.sequence_number txn).
Definition insert (txn : MempoolTransaction) (self : TTLIndex) : TTLIndex :=
  mkTTLIndex ({[make_key txn]} ∪ ttl_data self).
Definition remove (txn : MempoolTransaction) (self : TTLIndex) : TTLIndex :=
  mkTTLIndex (ttl_data self ∖ {[make_key txn]}).
End time.

(** [split_off] at the least key with expiration time [now]. *)
Definition gc (now : N) (self : TTLIndex) : list TTLOrderingKey * TTLIndex :=
  let active := filter (fun k => ttl_le (now, 0, 0) k) (ttl_data self) in
  (merge_sort ttl_le (elements (ttl_data self ∖ active)), mkTTLIndex active).
Definition size (self : TTLIndex) : N := N.of_nat (base.size (ttl_data self)).
End TTLIndex.

(** ** [TimelineIndex] *)
Record TimelineIndex : Type := mkTimelineIndex {
  ti_timeline_id : N;
  ti_timeline : gmap N TxnPointer;
}.

Module TimelineIndex.
Definition new : TimelineIndex := mkTimelineIndex 1 ∅.
(** The loop pushes before it compares, so that a count of 0 stops nothing. *)
Definition read_timeline (timeline_id count : N) (self : TimelineIndex) : list TxnPointer :=
  let entries := (filter (fun e => timeline_id < e.1) (btree_iter (ti_timeline self))).*2 in
  if count =? 0 then entries else take (N.to_nat count) entries.
(** [BTreeMap::range] panics on a range that ends before it starts. *)
Definition timeline_range {E} (start_id end_id : N) (self : TimelineIndex) : outcome E (list TxnPointer) :=
  _ ← assert_ (start_id <=? end_id);
  Ok (filter (fun e => start_id < e.1 /\ e.1 <= end_id) (btree_iter (ti_timeline self))).*2.
Definition insert {E} (txn : MempoolTransaction) (self : TimelineIndex) : outcome E (MempoolTransaction * TimelineIndex) :=
  next ← add64 (ti_timeline_id self) 1;
  Ok (MempoolTransaction.set_timeline_state (Ready (ti_timeline_id self)) txn,
      mkTimelineIndex next (<[ti_timeline_id self := txn_pointer txn]> (ti_timeline self))).
Definition remove (txn : MempoolTransaction) (self : TimelineIndex) : TimelineIndex :=
  match mt_timeline_state txn with
  | Ready timeline_id => mkTimelineIndex (ti_timeline_id self) (delete timeline_id (ti_timeline self))
  | _ => self
  end.
End TimelineIndex.

(** ** [ParkingLotIndex] *)
Record ParkingLotIndex : Type := mkParkingLotIndex {
  pl_data : list (AccountAddress * gset N);
  pl_account_indices : gmap AccountAddress nat;
  pl_size : N;
}.

(** [Vec::swap_remove]. *)
Definition swap_remove {E A} (index : nat) (l : list A) : outcome E (list A) :=
  match l !! index, last l with
  | Some _, Some z => Ok (take (pred (length l)) (<[index := z]> l))
  | _, _ => Panic
  end.

Module ParkingLotIndex.
Definition new : ParkingLotIndex := mkParkingLotIndex [] ∅ 0.

(** An index without an entry is logged and left. *)
Definition insert {E} (txn : MempoolTransaction) (self : ParkingLotIndex) : outcome E ParkingLotIndex :=
  let sender := txn_sender (mt_txn txn) in
  let sequence_number := txn_sequence_number (mt_txn txn) in
  match pl_account_indices self !! sender with
  | Some index =>
      match pl_data self !! index with
      | Some (account, seq_nums) =>
          let data := <[index := (account, {[sequence_number]} ∪ seq_nums)]> (pl_data self) in
          if bool_decide (sequence_number ∈ seq_nums) then Ok (mkParkingLotIndex data (pl_account_indices self) (pl_size self))
          else size ← add64 (pl_size self) 1; Ok (mkParkingLotIndex data (pl_account_indices self) size)
      | None => Ok self
      end
  | None =>
      size ← add64 (pl_size self) 1;
      Ok (mkParkingLotIndex (pl_data self ++ [(sender, {[sequence_number]})])
            (<[sender := length (pl_data self)]> (pl_account_indices self)) size)
  end.

Definition remove {E} (txn : MempoolTransaction) (self : ParkingLotIndex) : outcome E ParkingLotIndex :=
  let sender := txn_sender (mt_txn txn) in
  let sequence_number := txn_sequence_number (mt_txn txn) in
  match pl_account_indices self !! sender with
  | Some index =>
      match pl_data self !! index with
      | Some (account, txns) =>
          size ← (if bool_decide (sequence_number ∈ txns) then sub64 (pl_size self) 1 else Ok (pl_size self));
          let txns := txns ∖ {[sequence_number]} in
          let data := <[index := (account, txns)]> (pl_data self) in
          if bool_decide (txns = ∅) then
            data ← swap_remove index data;
            let indices := delete sender (pl_account_indices self) in
            Ok (mkParkingLotIndex data
                  (match data !! index with
                   | Some (swapped_account, _) => <[swapped_account := index]> indices
                   | None => indices
                   end) size)
          else Ok (mkParkingLotIndex data (pl_account_indices self) size)
      | None => Ok self
      end
  | None => Ok self
  end.

Definition contains (account : AccountAddress) (seq_num : N) (self : ParkingLotIndex) : bool :=
  match pl_account_indices self !! account ≫= fun idx => pl_data self !! idx with
  | Some (_, txns) => bool_decide (seq_num ∈ txns)
  | None => false
  end.

(** [rng] chooses the account; of its transactions the last one is taken. *)
Definition max_elem (txns : gset N) : option N := last (merge_sort N.le (elements txns)).
Definition get_poppable (rng : N) (self : ParkingLotIndex) : option TxnPointer :=
  entry ← pl_data self !! N.to_nat (rng mod N.of_nat (length (pl_data self)));
  seq_num ← max_elem (entry.2 : gset N);
  Some (entry.1, seq_num).
End ParkingLotIndex.

(** ** [TtlCache]

    The clock is an argument.  [SystemTime] cannot represent times from [time_limit] on. *)
Definition time_limit : N := 2 ^ 63 * 10 ^ 9.

Record TtlCache (K V : Type) `{Countable K} : Type := mkTtlCache {
  tc_capacity : N;
  tc_default_timeout : N;
  tc_data : gmap K (V * N);
  tc_ttl_index : gmap N K;
}.
Arguments mkTtlCache {K V _ _} _ _ _ _.
Arguments tc_capacity {K V _ _} _.
Arguments tc_default_timeout {K V _ _} _.
Arguments tc_data {K V _ _} _.
Arguments tc_ttl_index {K V _ _} _.

Module TtlCache.
Section cache.
Context {K V : Type} `{Countable K}.
Implicit Types (self : TtlCache K V).

Definition new (capacity default_timeout : N) : TtlCache K V := mkTtlCache capacity default_timeout ∅ ∅.
Definition get (key : K) (self : TtlCache K V) : option V := fst <$> tc_data self !! key.
Definition set (data : gmap K (V * N)) (index : gmap N K) (self : TtlCache K V) : TtlCache K V :=
  mkTtlCache (tc_capacity self) (tc_default_timeout self) data index.

(** Removes the old entry of the key, or the oldest entry if the cache is full. *)
Definition make_room (key : K) (self : TtlCache K V) : TtlCache K V :=
  match tc_data self !! key with
  | Some (_, ttl) => set (tc_data self) (delete ttl (tc_ttl_index self)) self
  | None =>
      if N.of_nat (size (tc_data self)) =? tc_capacity self then
        match btree_iter (tc_ttl_index self) with
        | (tst, oldest) :: _ => set (delete oldest (tc_data self)) (delete tst (tc_ttl_index self)) self
        | [] => self
        end
      else self
  end.
Definition insert (now : N) (key : K) (value : V) (self : TtlCache K V) : TtlCache K V :=
  let self := make_room key self in
  let expiration_time := now + tc_default_timeout self in
  if expiration_time <? time_limit then
    set (<[key := (value, expiration_time)]> (tc_data self)) (<[expiration_time := key]> (tc_ttl_index self)) self
  else self.

Definition remove (key : K) (self : TtlCache K V) : option V * TtlCache K V :=
  match tc_data self !! key with
  | Some (value, ttl) => (Some value, set (delete key (tc_data self)) (delete ttl (tc_ttl_index self)) self)
  | None => (None, self)
  end.

Definition gc (gc_time : N) (self : TtlCache K V) : TtlCache K V :=
  let expired := filter (fun e => ~ gc_time <= e.1) (tc_ttl_index self) in
  set (foldl (fun data key => delete key data) (tc_data self) (btree_values expired))
    (filter (fun e => gc_time <= e.1) (tc_ttl_index self)) self.
End cache.
End TtlCache.
