(* ===== verification/MempoolIndexLemmas.v ===== *)
(** * What the indexes of mempool hold *)

From S2P Require Import Prelude Crypto Errors Position Accumulator Verifier Ledger ConsensusTypes Blocks TransactionProofs MempoolIndex.

(** ** The parking lot

    The pointers of the parked transactions, account after account. *)
Definition account_pointers (e : AccountAddress * gset N) : list TxnPointer := pair e.1 <$> elements e.2.
Definition pl_list (p : ParkingLotIndex) : list TxnPointer := pl_data p ≫= account_pointers.

Record parking_ok (p : ParkingLotIndex) : Prop := {
  po_indices a i : pl_account_indices p !! a = Some i <-> exists txns, pl_data p !! i = Some (a, txns);
  po_nonempty e : e ∈ pl_data p -> e.2 <> ∅;
  po_size : pl_size p = N.of_nat (length (pl_list p));
}.

(** The lot stores what the raw transaction says. *)
Definition raw_pointer (txn : MempoolTransaction) : TxnPointer :=
  (txn_sender (mt_txn txn), txn_sequence_number (mt_txn txn)).

Lemma elem_of_account_pointers (e : AccountAddress * gset N) q : q ∈ account_pointers e <-> q.1 = e.1 /\ q.2 ∈ e.2.
Proof.
  unfold account_pointers. rewrite list_elem_of_fmap. destruct q as [a n]. cbn. split.
  - intros (y & [= -> ->] & ?%elem_of_elements). done.
  - intros [-> ?]. exists n. by rewrite elem_of_elements.
Qed.

Lemma elem_of_pl_list p q : q ∈ pl_list p <-> exists txns, (q.1, txns) ∈ pl_data p /\ q.2 ∈ txns.
Proof.
  unfold pl_list. rewrite list_elem_of_bind. split.
  - intros ([a txns] & [Ha Hn]%elem_of_account_pointers & He). cbn in *. subst. eauto.
  - intros (txns & He & Hn). exists (q.1, txns). by rewrite elem_of_account_pointers.
Qed.

Lemma parking_ok_new : parking_ok ParkingLotIndex.new.
Proof. split; cbn; [|by intros ??%elem_of_nil|done]. intros a i. rewrite lookup_empty. naive_solver. Qed.

Section parking.
Context (p : ParkingLotIndex) (Hp : parking_ok p).

Lemma po_accounts i j a b c : pl_data p !! i = Some (a, b) -> pl_data p !! j = Some (a, c) -> i = j.
Proof.
  intros Hi Hj. assert (pl_account_indices p !! a = Some i) by (apply po_indices; eauto).
  assert (pl_account_indices p !! a = Some j) by (apply po_indices; eauto). congruence.
Qed.

Lemma parked_at a i txns n :
  pl_data p !! i = Some (a, txns) -> (a, n) ∈ pl_list p <-> n ∈ txns.
Proof.
  intros Hi. rewrite elem_of_pl_list. cbn. split.
  - intros (txns' & [j Hj]%list_elem_of_lookup & Hn). pose proof (po_accounts _ _ _ _ _ Hi Hj) as <-. congruence.
  - intros Hn. exists txns. split; [by eapply list_elem_of_lookup_2|done].
Qed.

Lemma not_parked a n : pl_account_indices p !! a = None -> (a, n) ∉ pl_list p.
Proof.
  intros Ha (txns & [j Hj]%list_elem_of_lookup & _)%elem_of_pl_list.
  assert (pl_account_indices p !! a = Some j) by (apply po_indices; eauto). congruence.
Qed.

Lemma contains_spec a n : ParkingLotIndex.contains a n p = bool_decide ((a, n) ∈ pl_list p).
Proof.
  unfold ParkingLotIndex.contains. destruct (pl_account_indices p !! a) as [i|] eqn:Ha; cbn.
  - destruct (proj1 (po_indices p Hp a i) Ha) as [txns Hi]. rewrite Hi.
    apply bool_decide_ext. by rewrite (parked_at a i).
  - rewrite bool_decide_false; [done|]. by apply not_parked.
Qed.

Lemma po_split a i : pl_account_indices p !! a = Some i ->
  exists l txns k, pl_data p = l ++ (a, txns) :: k /\ length l = i.
Proof.
  intros [txns Hi]%(po_indices p Hp). apply list_elem_of_split_length in Hi as (l & k & -> & ->). eauto.
Qed.

Lemma NoDup_pl_accounts : NoDup (pl_data p).*1.
Proof.
  apply NoDup_alt. intros i j a. rewrite !list_lookup_fmap, !fmap_Some.
  intros ([a1 b] & Hi & ->) ([a2 c] & Hj & Ha). cbn in Ha. subst. by eapply po_accounts.
Qed.
Lemma NoDup_pl_list : NoDup (pl_list p).
Proof.
  unfold pl_list. pose proof NoDup_pl_accounts as Hn. revert Hn. induction (pl_data p) as [|e l IH]; cbn; [constructor|].
  intros [He Hl]%NoDup_cons. apply NoDup_app. split_and!; [| |auto].
  - apply NoDup_fmap_2; [intros ?? [=]; done|apply NoDup_elements].
  - intros q [Hq _]%elem_of_account_pointers ([a txns] & [Hq' _]%elem_of_account_pointers & Hin)%list_elem_of_bind.
    apply He. rewrite <-Hq, Hq'. apply list_elem_of_fmap. eauto.
Qed.
End parking.

Lemma account_pointers_insert a n (txns : gset N) : n ∉ txns ->
  account_pointers (a, {[n]} ∪ txns) ≡ₚ (a, n) :: account_pointers (a, txns).
Proof. intros Hn. unfold account_pointers. cbn. by rewrite elements_union_singleton. Qed.
Lemma account_pointers_delete a n (txns : gset N) : n ∈ txns ->
  account_pointers (a, txns) ≡ₚ (a, n) :: account_pointers (a, txns ∖ {[n]}).
Proof.
  intros Hn. rewrite <-account_pointers_insert by set_solver.
  unfold account_pointers. cbn. by rewrite <-union_difference_singleton_L.
Qed.

(** One account's set replaced by another one that is not empty. *)
Lemma parking_ok_update p l a txns txns' k n :
  parking_ok p -> pl_data p = l ++ (a, txns) :: k -> txns' <> ∅ ->
  n = N.of_nat (length (pl_list (mkParkingLotIndex (l ++ (a, txns') :: k) (pl_account_indices p) n))) ->
  parking_ok (mkParkingLotIndex (l ++ (a, txns') :: k) (pl_account_indices p) n).
Proof.
  intros Hp Hd Hne Hn. split; cbn; [| |done].
  - intros b i. rewrite (po_indices p Hp), Hd. destruct (decide (i = length l)) as [->|Hi].
    + rewrite !list_lookup_middle by done. naive_solver.
    + destruct (decide (i < length l)%nat); [by rewrite !lookup_app_l by lia|].
      rewrite !lookup_app_r by lia. by destruct (i - length l)%nat eqn:E; [lia|].
  - intros e. rewrite elem_of_app, elem_of_cons. intros [He|[->|He]]; [|done|];
      apply (po_nonempty p Hp); rewrite Hd, elem_of_app, elem_of_cons; auto.
Qed.

Lemma pl_list_middle l e k i n :
  pl_list (mkParkingLotIndex (l ++ e :: k) i n) ≡ₚ account_pointers e ++ pl_list (mkParkingLotIndex (l ++ k) i n).
Proof. unfold pl_list. cbn. rewrite !bind_app. cbn. by rewrite Permutation_app_swap_app. Qed.

(** It is enough that the table points at its accounts and misses none. *)
Lemma parking_ok_intro p :
  NoDup (pl_data p).*1 ->
  (forall a i, pl_account_indices p !! a = Some i -> fst <$> pl_data p !! i = Some a) ->
  (forall e, e ∈ pl_data p -> is_Some (pl_account_indices p !! e.1) /\ e.2 <> ∅) ->
  pl_size p = N.of_nat (length (pl_list p)) -> parking_ok p.
Proof.
  intros Hnd Hto Hall Hsz. split; [|intros e He; by apply Hall|done]. intros a i. split.
  - intros Ha. apply Hto in Ha. apply fmap_Some in Ha as ([b txns] & -> & ->). cbn. eauto.
  - intros [txns Hi]. destruct (Hall (a, txns)) as [[j Hj] _]; [by eapply list_elem_of_lookup_2|]. cbn in Hj.
    rewrite Hj. f_equal. eapply NoDup_lookup; [exact Hnd| |]; rewrite list_lookup_fmap.
    + by apply Hto.
    + by rewrite Hi.
Qed.

Lemma parking_push p a n :
  parking_ok p -> pl_account_indices p !! a = None ->
  let p' := mkParkingLotIndex (pl_data p ++ [(a, {[n]})]) (<[a := length (pl_data p)]> (pl_account_indices p))
              (pl_size p + 1) in
  parking_ok p' /\ forall q, q ∈ pl_list p' <-> q = (a, n) \/ q ∈ pl_list p.
Proof.
  intros Hp Ha p'. assert (pl_list p' = pl_list p ++ [(a, n)]) as Hp'.
  { unfold p', pl_list. cbn. rewrite bind_app. cbn. unfold account_pointers. cbn. by rewrite elements_singleton. }
  split; [|intros q; rewrite Hp', elem_of_app, list_elem_of_singleton; tauto].
  assert (a ∉ (pl_data p).*1) as Hin.
  { intros ([b txns] & -> & [i Hi]%list_elem_of_lookup)%list_elem_of_fmap. cbn in *.
    assert (pl_account_indices p !! b = Some i) by (apply (po_indices p Hp); eauto). congruence. }
  apply parking_ok_intro; cbn -[pl_list].
  - rewrite fmap_app. apply NoDup_app. split_and!; [by apply NoDup_pl_accounts| |apply NoDup_singleton].
    cbn. intros b Hb ->%list_elem_of_singleton. done.
  - intros b i [[<- <-]|[Hb Hi]]%lookup_insert_Some; [by rewrite list_lookup_middle by done|].
    apply (po_indices p Hp) in Hi as [txns Hi]. rewrite lookup_app_l by (by eapply lookup_lt_Some). by rewrite Hi.
  - intros e. rewrite elem_of_app, list_elem_of_singleton. intros [He| ->].
    + split; [|by apply (po_nonempty p Hp)]. rewrite lookup_insert_ne.
      * apply list_elem_of_lookup in He as [i Hi]. exists i. apply (po_indices p Hp). destruct e. eauto.
      * intros ->. apply Hin. apply list_elem_of_fmap. eauto.
    + rewrite lookup_insert_eq. split; [by eexists|set_solver].
  - change (pl_size p + 1 = N.of_nat (length (pl_list p'))). rewrite Hp', length_app, (po_size p Hp). cbn. lia.
Qed.

(** Parking a transaction, and how often the counter can be increased. *)
Lemma parking_insert {E} p txn :
  parking_ok p -> (raw_pointer txn ∉ pl_list p -> N.of_nat (length (pl_list p)) < u64_max) ->
  exists p', @ParkingLotIndex.insert E txn p = Ok p' /\ parking_ok p' /\
    forall q, q ∈ pl_list p' <-> q = raw_pointer txn \/ q ∈ pl_list p.
Proof.
  intros Hp Hlen. unfold ParkingLotIndex.insert, raw_pointer. set (a := txn_sender _). set (n := txn_sequence_number _).
  assert ((a, n) ∉ pl_list p -> @add64 E (pl_size p) 1 = Ok (pl_size p + 1)) as Hadd
    by (intros ?%Hlen; apply add64_Ok; rewrite (po_size p Hp); lia).
  destruct (pl_account_indices p !! a) as [i|] eqn:Ha.
  - destruct (po_split p Hp a i Ha) as (l & txns & k & Hd & <-). rewrite Hd, list_lookup_middle by done.
    rewrite insert_app_r_alt, Nat.sub_diag by lia. cbn [list_insert insert].
    assert (pl_list p ≡ₚ account_pointers (a, txns) ++ pl_list (mkParkingLotIndex (l ++ k) (pl_account_indices p) 0)) as Hl.
    { rewrite <-pl_list_middle. unfold pl_list. by rewrite Hd. }
    destruct (decide (n ∈ txns)) as [Hn|Hn].
    + rewrite bool_decide_true by done. replace ({[n]} ∪ txns) with txns by set_solver. eexists. split; [done|].
      rewrite <-Hd. destruct p as [d ix sz]. split; [done|]. intros q. split; [by right|]. intros [->|]; [|done].
      eapply parked_at; [done| |done]. cbn in Hd |- *. rewrite Hd. by apply list_lookup_middle.
    + rewrite bool_decide_false by done. rewrite Hadd; last first.
      { rewrite (parked_at p Hp a (length l)); [exact Hn|]. rewrite Hd. by apply list_lookup_middle. }
      eexists. split; [done|].
      set (p' := mkParkingLotIndex _ _ _).
      assert (pl_list p' ≡ₚ (a, n) :: pl_list p) as Hp'.
      { unfold p'. rewrite pl_list_middle, account_pointers_insert, Hl by done. done. }
      split; [|intros q; by rewrite Hp', elem_of_cons].
      apply (parking_ok_update p l a txns); [done|done|set_solver|]. fold p'. rewrite Hp', (po_size p Hp). cbn. lia.
  - rewrite Hadd by (by apply not_parked). eexists. split; [done|]. by apply parking_push.
Qed.

Lemma swap_remove_last {E A} (l : list A) x : @swap_remove E A (length l) (l ++ [x]) = Ok l.
Proof.
  unfold swap_remove. rewrite list_lookup_middle, last_snoc by done.
  rewrite list_insert_id by (by apply list_lookup_middle). rewrite length_app. cbn.
  replace (pred (length l + 1)) with (length l) by lia. by rewrite take_app_length.
Qed.
Lemma swap_remove_middle {E A} (l k : list A) x z : @swap_remove E A (length l) (l ++ x :: k ++ [z]) = Ok (l ++ z :: k).
Proof.
  unfold swap_remove. rewrite list_lookup_middle by done.
  rewrite (app_comm_cons k), app_assoc, last_snoc. rewrite <-app_assoc, insert_app_r_alt, Nat.sub_diag by lia.
  cbn. rewrite !length_app. cbn. rewrite length_app. cbn.
  replace (pred (length l + S (length k + 1))) with (length (l ++ z :: k)) by (rewrite length_app; cbn; lia).
  rewrite app_comm_cons, app_assoc. by rewrite take_app_length.
Qed.

(** Taking an account out of the lot. *)
Lemma parking_ok_swap p l a txns k data n :
  parking_ok p -> pl_data p = l ++ (a, txns) :: k -> @swap_remove AnyError _ (length l) (l ++ (a, ∅) :: k) = Ok data ->
  n = N.of_nat (length (pl_list (mkParkingLotIndex (l ++ k) ∅ 0))) ->
  let indices := delete a (pl_account_indices p) in
  let p' := mkParkingLotIndex data
    (match data !! length l with Some (swapped_account, _) => <[swapped_account := length l]> indices | None => indices end) n in
  parking_ok p' /\ pl_list p' ≡ₚ pl_list (mkParkingLotIndex (l ++ k) ∅ 0).
Proof.
  intros Hp Hd Hsw Hn indices p'. pose proof (NoDup_pl_accounts p Hp) as Hnd. rewrite Hd in Hnd.
  assert (data ≡ₚ l ++ k) as Hperm.
  { destruct k as [|z k _] using rev_ind.
    - rewrite swap_remove_last in Hsw. injection Hsw as <-. by rewrite app_nil_r.
    - rewrite swap_remove_middle in Hsw. injection Hsw as <-. by rewrite <-Permutation_cons_append. }
  assert (pl_list p' ≡ₚ pl_list (mkParkingLotIndex (l ++ k) ∅ 0)) as Hl by (unfold pl_list; cbn; by rewrite Hperm).
  split; [|done]. assert (NoDup (a :: (l ++ k).*1)) as [Ha Hnd']%NoDup_cons.
  { revert Hnd. rewrite !fmap_app. cbn. by rewrite <-Permutation_middle. }
  apply parking_ok_intro; cbn -[pl_list]; [by rewrite Hperm| | |by rewrite Hl].
  - assert (forall b i, indices !! b = Some i -> i <> length l /\ exists t, (l ++ (a, ∅) :: k) !! i = Some (b, t)) as Hold.
    { intros b i [Hb [t Hi]%(po_indices p Hp)]%lookup_delete_Some. rewrite Hd in Hi.
      destruct (decide (i = length l)) as [->|Hne]; [rewrite list_lookup_middle in Hi by done; congruence|].
      split; [done|]. exists t. destruct (decide (i < length l)%nat); [by rewrite lookup_app_l in Hi |- * by done|].
      rewrite lookup_app_r in Hi |- * by lia. by destruct (i - length l)%nat eqn:E; [lia|]. }
    destruct k as [|[z zs] k _] using rev_ind.
    + rewrite swap_remove_last in Hsw. injection Hsw as <-. rewrite lookup_ge_None_2 by lia.
      intros b i [Hne [t Hi]]%Hold. pose proof (lookup_lt_Some _ _ _ Hi) as Hlt. rewrite length_app in Hlt. cbn in Hlt.
      rewrite lookup_app_l in Hi by lia. by rewrite Hi.
    + rewrite swap_remove_middle in Hsw. injection Hsw as <-. rewrite list_lookup_middle by done.
      intros b i [[<- <-]|[Hb [Hne [t Hi]]%Hold]]%lookup_insert_Some; [by rewrite list_lookup_middle|].
      destruct (decide (i < length l)%nat); [rewrite lookup_app_l in Hi |- * by done; by rewrite Hi|].
      rewrite lookup_app_r in Hi |- * by lia. destruct (i - length l)%nat eqn:E; [lia|]. simpl in Hi |- *.
      apply lookup_snoc_Some in Hi as [[_ Hi]|[_ [=]]]; [by rewrite Hi|done].
  - intros e He. rewrite Hperm in He.
    assert (e ∈ pl_data p) as He' by (rewrite Hd; set_solver). split; [|by apply (po_nonempty p Hp)].
    assert (is_Some (indices !! e.1)) as Hs.
    { apply list_elem_of_lookup in He' as [i Hi]. exists i. apply lookup_delete_Some. split.
      - intros ->. apply Ha, list_elem_of_fmap. eauto.
      - apply (po_indices p Hp). destruct e. eauto. }
    destruct (data !! length l) as [[z zs]|]; [|done]. destruct (decide (z = e.1)) as [->|]; [by rewrite lookup_insert_eq|].
    by rewrite lookup_insert_ne.
Qed.

Lemma swap_remove_total {A} (l k : list A) x : exists data, forall E, @swap_remove E A (length l) (l ++ x :: k) = Ok data.
Proof. destruct k as [|z k _] using rev_ind; eexists; intros E; [apply swap_remove_last|apply swap_remove_middle]. Qed.

Lemma parking_remove {E} p txn :
  parking_ok p ->
  exists p', @ParkingLotIndex.remove E txn p = Ok p' /\ parking_ok p' /\
    forall q, q ∈ pl_list p' <-> q <> raw_pointer txn /\ q ∈ pl_list p.
Proof.
  intros Hp. unfold ParkingLotIndex.remove, raw_pointer. set (a := txn_sender _). set (n := txn_sequence_number _).
  destruct (pl_account_indices p !! a) as [i|] eqn:Ha; last first.
  { exists p. split_and!; [done|done|]. intros q. split; [|by intros [_ ?]]. intros Hq. split; [|done].
    intros ->. by eapply not_parked. }
  destruct (po_split p Hp a i Ha) as (l & txns & k & Hd & <-). rewrite Hd, list_lookup_middle by done.
  rewrite insert_app_r_alt, Nat.sub_diag by lia. cbn [list_insert insert].
  assert (forall f, pl_list p ≡ₚ account_pointers (a, txns) ++ pl_list (mkParkingLotIndex (l ++ k) f 0)) as Hl.
  { intros f. rewrite <-pl_list_middle. unfold pl_list. by rewrite Hd. }
  assert (Hat : pl_data p !! length l = Some (a, txns)) by (rewrite Hd; by apply list_lookup_middle).
  assert (forall q, q ∈ pl_list (mkParkingLotIndex (l ++ k) ∅ 0) -> q.1 <> a) as Hrest.
  { intros q Hq Hqa. pose proof (NoDup_pl_accounts p Hp) as Hnd. rewrite Hd, fmap_app in Hnd. cbn in Hnd.
    rewrite <-Permutation_middle in Hnd. apply NoDup_cons in Hnd as [Hnd _]. apply Hnd.
    apply elem_of_pl_list in Hq as (t & Ht & _). rewrite <-fmap_app. apply list_elem_of_fmap. exists (q.1, t). done. }
  set (txns' := txns ∖ {[n]}).
  set (size' := if decide (n ∈ txns) then pl_size p - 1 else pl_size p).
  assert ((if bool_decide (n ∈ txns) then @sub64 E (pl_size p) 1 else Ok (pl_size p)) = Ok size') as ->.
  { unfold size'. destruct (decide (n ∈ txns)) as [Hn|Hn]; [rewrite bool_decide_true by done|by rewrite bool_decide_false by done].
    apply sub64_Ok. split; [done|]. rewrite (po_size p Hp), (Hl ∅), length_app, account_pointers_delete by done. cbn. lia. }
  assert (size' = N.of_nat (length (account_pointers (a, txns') ++ pl_list (mkParkingLotIndex (l ++ k) ∅ 0)))) as Hsz.
  { unfold size', txns'. destruct (decide (n ∈ txns)) as [Hn|Hn]; rewrite (po_size p Hp), (Hl ∅).
    - rewrite (account_pointers_delete a n txns) by done. cbn. lia.
    - by replace (txns ∖ {[n]}) with txns by set_solver. }
  assert (forall q, q ∈ account_pointers (a, txns') ++ pl_list (mkParkingLotIndex (l ++ k) ∅ 0) <->
            q <> (a, n) /\ q ∈ pl_list p) as Hmem.
  { intros [b m]. rewrite (Hl ∅), !elem_of_app, !elem_of_account_pointers. cbn. unfold txns'.
    rewrite elem_of_difference, elem_of_singleton. specialize (Hrest (b, m)). cbn in Hrest.
    split; [|intros [Hne [[-> ?]|?]]; [left|right]; try done; split_and!; congruence].
    intros [(-> & ? & ?)|?]; (split; [|tauto]); [congruence|]. intros [= -> ->]. by apply Hrest. }
  destruct (decide (txns' = ∅)) as [He|He]; [rewrite bool_decide_true by done|rewrite bool_decide_false by done].
  - destruct (swap_remove_total l k (a, ∅)) as [data Hsw].
    cbn [mbind outcome_bind]. rewrite He, Hsw. eexists. split; [done|].
    destruct (parking_ok_swap p l a txns k data size' Hp Hd (Hsw _)) as [Hok Hperm].
    { rewrite Hsz, He. unfold account_pointers. cbn. by rewrite elements_empty. }
    split; [done|]. intros q. rewrite Hperm, <-Hmem, He. unfold account_pointers. cbn. by rewrite elements_empty.
  - eexists. split; [done|]. split.
    + apply (parking_ok_update p l a txns); [done|done|done|]. by rewrite pl_list_middle.
    + intros q. rewrite pl_list_middle. by apply Hmem.
Qed.

(** ** The cache

    An entry of the index has a value with its time; the converse holds for keys of
    different times only. *)
Section cache.
Context {K V : Type} `{Countable K}.
Implicit Types (c : TtlCache K V) (k : K).

Definition cache_ok c : Prop := forall t k, tc_ttl_index c !! t = Some k -> exists v, tc_data c !! k = Some (v, t).

Lemma make_room_ok c k : cache_ok c ->
  cache_ok (TtlCache.make_room k c) /\ forall t, tc_ttl_index (TtlCache.make_room k c) !! t <> Some k.
Proof.
  intros Hc. unfold TtlCache.make_room. destruct (tc_data c !! k) as [[v ttl]|] eqn:Hk.
  - split.
    + intros t k'. cbn. intros [_ Ht]%lookup_delete_Some. by apply Hc.
    + intros t. cbn. intros [Hne Ht]%lookup_delete_Some. apply Hc in Ht as [v' Hv]. congruence.
  - assert (forall t, tc_ttl_index c !! t <> Some k) as Hno by (intros t [v Hv]%Hc; congruence).
    case_match; [|done]. destruct (btree_iter (tc_ttl_index c)) as [|[tst oldest] l] eqn:Hit; [done|].
    assert (tc_ttl_index c !! tst = Some oldest) as Ht by (apply elem_of_btree_iter; rewrite Hit; left).
    split; [|intros t; cbn; intros [_ Ht']%lookup_delete_Some; by apply Hno in Ht'].
    intros t k'. cbn. intros [Hne Ht']%lookup_delete_Some. destruct (Hc _ _ Ht') as [v Hv]. exists v. rewrite lookup_delete_ne; [done|].
    intros ->. apply Hc in Ht as [v' Hv']. congruence.
Qed.
Lemma cache_insert_ok now k v c : cache_ok c -> cache_ok (TtlCache.insert now k v c).
Proof.
  intros Hc. destruct (make_room_ok c k Hc) as [Hc1 Hno]. unfold TtlCache.insert. case_match; [|done].
  intros t k'. cbn. intros [[<- <-]|[Hne Ht]]%lookup_insert_Some; [rewrite lookup_insert_eq; eauto|].
  rewrite lookup_insert_ne by (intros <-; by apply Hno in Ht). by apply Hc1.
Qed.
Lemma cache_remove_ok k c : cache_ok c -> cache_ok (TtlCache.remove k c).2.
Proof.
  intros Hc. unfold TtlCache.remove. destruct (tc_data c !! k) as [[v ttl]|] eqn:Hk; [|done].
  intros t k'. cbn. intros [Hne Ht]%lookup_delete_Some. destruct (Hc _ _ Ht) as [v' Hv]. exists v'. rewrite lookup_delete_ne; [done|].
  intros ->. congruence.
Qed.

Lemma lookup_delete_all (l : list K) (d : gmap K (V * N)) k :
  foldl (fun d k => delete k d) d l !! k = if decide (k ∈ l) then None else d !! k.
Proof.
  revert d. induction l as [|k' l IH]; intros d; [by rewrite decide_False by apply not_elem_of_nil|].
  cbn [foldl]. rewrite IH. destruct (decide (k = k')) as [->|Hne].
  - rewrite lookup_delete_eq, (decide_True (P := _ ∈ _ :: _)) by (by left). by case_decide.
  - rewrite lookup_delete_ne by done. apply decide_ext. rewrite elem_of_cons. naive_solver.
Qed.
Lemma gc_keeps t c k : (forall t', tc_ttl_index c !! t' <> Some k) -> tc_data (TtlCache.gc t c) !! k = tc_data c !! k.
Proof.
  intros Hno. unfold TtlCache.gc. cbn. rewrite lookup_delete_all, decide_False; [done|].
  unfold btree_values. intros ([t' k'] & -> & Ht)%list_elem_of_fmap. apply elem_of_btree_iter, map_lookup_filter_Some in Ht as [Ht _].
  by apply Hno in Ht.
Qed.
Lemma cache_gc_ok t c : cache_ok c -> cache_ok (TtlCache.gc t c).
Proof.
  intros Hc t' k. cbn. intros [Ht Hle]%map_lookup_filter_Some. destruct (Hc _ _ Ht) as [v Hv]. exists v.
  rewrite lookup_delete_all, decide_False; [done|]. unfold btree_values.
  intros ([t2 k2] & Hk2 & Ht2)%list_elem_of_fmap. cbn in Hk2. subst k2.
  apply elem_of_btree_iter, map_lookup_filter_Some in Ht2 as [Ht2 Hlt]. destruct (Hc _ _ Ht2) as [v2 Hv2].
  assert (t2 = t') as -> by congruence. by destruct Hlt.
Qed.
End cache.
