(* ===== verification/MempoolStore.v ===== *)
(** * The transactions of mempool

    [TransactionStore] (mempool/src/core_mempool/transaction_store.rs): the transactions
    by account and sequence number with their indexes. *)

From S2P Require Import Prelude Crypto Errors Position Accumulator Verifier Ledger ConsensusTypes Blocks TransactionProofs MempoolIndex.

(** types/src/mempool_status.rs; messages that print numbers are left out. *)
Inductive MempoolStatusCode : Type :=
  Accepted | InvalidSeqNumber | MempoolIsFull | TooManyTransactions | InvalidUpdate | VmError | UnknownStatus.
#[global] Instance MempoolStatusCode_eq_dec : EqDecision MempoolStatusCode.
Proof. solve_decision. Defined.
Record MempoolStatus : Type := mkMempoolStatus { ms_code : MempoolStatusCode; ms_message : string }.
Definition status (code : MempoolStatusCode) : MempoolStatus := mkMempoolStatus code "".
Definition with_message (message : string) (self : MempoolStatus) : MempoolStatus := mkMempoolStatus (ms_code self) message.

Abbreviation AccountTransactions := (gmap N MempoolTransaction).

Record TransactionStore : Type := mkTransactionStore {
  transactions : gmap AccountAddress AccountTransactions;
  priority_index : PriorityIndex;
  expiration_time_index : TTLIndex;
  system_ttl_index : TTLIndex;
  timeline_index : TimelineIndex;
  parking_lot_index : ParkingLotIndex;
  hash_index : gmap HashValue TxnPointer;
  capacity : N;
  capacity_per_user : N;
}.

(** The two expiration times: of the system, and of the client, in seconds. *)
Definition system_time (txn : MempoolTransaction) : N := mt_expiration_time txn.
Definition client_time (txn : MempoolTransaction) : N := txn_expiration_timestamp_secs (mt_txn txn) * 10 ^ 9.

Module TransactionStore.
Section store.
Context `{CryptoHash Transaction}.
Implicit Types (self : TransactionStore).
Abbreviation step A := (method TransactionStore AnyError A).

Definition new (capacity capacity_per_user : N) : TransactionStore :=
  mkTransactionStore ∅ PriorityIndex.new TTLIndex.new TTLIndex.new TimelineIndex.new ParkingLotIndex.new ∅
    capacity capacity_per_user.

Definition set_transactions (t : gmap AccountAddress AccountTransactions) (self : TransactionStore) : TransactionStore :=
  mkTransactionStore t (priority_index self) (expiration_time_index self) (system_ttl_index self)
    (timeline_index self) (parking_lot_index self) (hash_index self) (capacity self) (capacity_per_user self).
Definition set_account (address : AccountAddress) (txns : AccountTransactions) (self : TransactionStore) : TransactionStore :=
  set_transactions (<[address := txns]> (transactions self)) self.
Definition set_priority (p : PriorityIndex) (self : TransactionStore) : TransactionStore :=
  mkTransactionStore (transactions self) p (expiration_time_index self) (system_ttl_index self)
    (timeline_index self) (parking_lot_index self) (hash_index self) (capacity self) (capacity_per_user self).
Definition set_ttl (expiration system : TTLIndex) (self : TransactionStore) : TransactionStore :=
  mkTransactionStore (transactions self) (priority_index self) expiration system
    (timeline_index self) (parking_lot_index self) (hash_index self) (capacity self) (capacity_per_user self).
Definition set_timeline (t : TimelineIndex) (self : TransactionStore) : TransactionStore :=
  mkTransactionStore (transactions self) (priority_index self) (expiration_time_index self) (system_ttl_index self)
    t (parking_lot_index self) (hash_index self) (capacity self) (capacity_per_user self).
Definition set_parking (p : ParkingLotIndex) (self : TransactionStore) : TransactionStore :=
  mkTransactionStore (transactions self) (priority_index self) (expiration_time_index self) (system_ttl_index self)
    (timeline_index self) p (hash_index self) (capacity self) (capacity_per_user self).
Definition set_hash (h : gmap HashValue TxnPointer) (self : TransactionStore) : TransactionStore :=
  mkTransactionStore (transactions self) (priority_index self) (expiration_time_index self) (system_ttl_index self)
    (timeline_index self) (parking_lot_index self) h (capacity self) (capacity_per_user self).

(** ** Reads *)
Definition get_mempool_txn (address : AccountAddress) (sequence_number : N) (self : TransactionStore)
    : option MempoolTransaction :=
  txns ← transactions self !! address; (txns : AccountTransactions) !! sequence_number.
Definition get (address : AccountAddress) (sequence_number : N) (self : TransactionStore) : option SignedTransaction :=
  mt_txn <$> get_mempool_txn address sequence_number self.
Definition get_by_hash (hash : HashValue) (self : TransactionStore) : option SignedTransaction :=
  match hash_index self !! hash with
  | Some (address, seq) => get address seq self
  | None => None
  end.

(** ** The indexes *)
Definition park (txn : MempoolTransaction) : step unit := fun self =>
  match ParkingLotIndex.insert txn (parking_lot_index self) with
  | Ok p => (Ok tt, set_parking p self)
  | Err e => (Err e, self)
  | Panic => (Panic, self)
  end.
Definition unpark (txn : MempoolTransaction) : step unit := fun self =>
  match ParkingLotIndex.remove txn (parking_lot_index self) with
  | Ok p => (Ok tt, set_parking p self)
  | Err e => (Err e, self)
  | Panic => (Panic, self)
  end.

Definition index_remove (txn : MempoolTransaction) : step unit :=
  _ ← puts (fun self => set_ttl (TTLIndex.remove client_time txn (expiration_time_index self))
                          (TTLIndex.remove system_time txn (system_ttl_index self)) self);
  _ ← puts (fun self => set_priority (PriorityIndex.remove txn (priority_index self)) self);
  _ ← puts (fun self => set_timeline (TimelineIndex.remove txn (timeline_index self)) self);
  _ ← unpark txn;
  puts (fun self => set_hash (delete (MempoolTransaction.get_committed_hash txn) (hash_index self)) self).

Fixpoint index_remove_all (txns : list MempoolTransaction) : step unit :=
  match txns with
  | [] => mret tt
  | txn :: txns => _ ← index_remove txn; index_remove_all txns
  end.

Definition remove_txn (address : AccountAddress) (sequence_number : N) (self : TransactionStore) : TransactionStore :=
  match transactions self !! address with
  | Some txns => set_account address (delete sequence_number txns) self
  | None => self
  end.

(** ** Ready and parked transactions *)

(** A transaction of [address] becomes ready. *)
Definition promote (address : AccountAddress) (sequence_number : N) (txn : MempoolTransaction) : step unit :=
  _ ← puts (fun self => set_priority (PriorityIndex.insert txn (priority_index self)) self);
  _ ← (if bool_decide (mt_timeline_state txn = NotReady) then fun self =>
         match TimelineIndex.insert txn (timeline_index self) with
         | Ok (txn, timeline) =>
             (Ok tt, set_timeline timeline
                (set_account address (<[sequence_number := txn]> (default ∅ (transactions self !! address))) self))
         | Err e => (Err e, self)
         | Panic => (Panic, self)
         end
       else mret tt);
  unpark txn.

(** [while let Some(txn) = txns.get_mut(&min_seq)]: at most one step per transaction. *)
Fixpoint promote_sequential (fuel : nat) (address : AccountAddress) (min_seq : N) : step N :=
  txn ← gets (fun self => Ok (get_mempool_txn address min_seq self));
  match txn with
  | None => mret min_seq
  | Some txn =>
      match fuel with
      | O => lift Panic
      | S fuel =>
          _ ← promote address min_seq txn;
          next ← lift (add64 min_seq 1);
          promote_sequential fuel address next
      end
  end.

(** [for i in min_nonce..size]. *)
Fixpoint promote_window (address : AccountAddress) (window : list N) (min_seq : N) : step N :=
  match window with
  | [] => mret min_seq
  | i :: window =>
      txn ← gets (fun self => Ok (get_mempool_txn address i self));
      match txn with
      | Some txn => _ ← promote address i txn; promote_window address window i
      | None => promote_window address window min_seq
      end
  end.

Fixpoint park_all (txns : list MempoolTransaction) : step unit :=
  match txns with
  | [] => mret tt
  | txn :: txns =>
      _ ← match mt_timeline_state txn with Ready _ => mret tt | _ => park txn end;
      park_all txns
  end.

(** [txns.range((Excluded(start), end))], the end excluded or unbounded. *)
Definition within (start : N) (end_ : option N) (seq : N) : bool :=
  (start <? seq) && match end_ with Some end_ => seq <? end_ | None => true end.
Definition txns_between (start : N) (end_ : option N) (txns : AccountTransactions) : list MempoolTransaction :=
  (filter (fun e => within start end_ e.1) (btree_iter txns)).*2.

Definition process_ready_transactions (address : AccountAddress) (crsn_or_seqno : AccountSequenceInfo) : step unit := fun self =>
  match transactions self !! address with
  | None => (Ok tt, self)
  | Some txns =>
      (min_seq ← match crsn_or_seqno with
                 | CRSN min_nonce size => promote_window address (count_from min_nonce (N.to_nat (size - min_nonce))) min_nonce
                 | Sequential seqno => promote_sequential (size txns) address seqno
                 end;
       txns ← gets (fun self => Ok (default ∅ (transactions self !! address)));
       park_all (txns_between min_seq None txns)) self
  end.

(** ** Writes *)
Definition clean_committed_transactions (address : AccountAddress) (sequence_number : N) : step unit := fun self =>
  match transactions self !! address with
  | None => (Ok tt, self)
  | Some txns =>
      let active := filter (fun e => sequence_number <= e.1) txns in
      let txns_for_removal := filter (fun e => ~ sequence_number <= e.1) txns in
      index_remove_all (btree_values txns_for_removal) (set_account address active self)
  end.

Definition check_txn_ready (txn : MempoolTransaction) (curr_sequence_number : N) (self : TransactionStore) : result bool :=
  let tx_sequence_number := MempoolTransaction.sequence_number txn in
  if tx_sequence_number =? curr_sequence_number then Ok true
  else if tx_sequence_number =? 0 then Panic
  else
    Ok match get_mempool_txn (MempoolTransaction.get_sender txn) (tx_sequence_number - 1) self with
       | Some prev_txn => match mt_timeline_state prev_txn with Ready _ => true | _ => false end
       | None => false
       end.

Definition check_is_full_after_eviction (rng : N) (txn : MempoolTransaction) (curr_sequence_number : N) : step bool :=
  full ← gets (fun self => Ok (capacity self <=? TTLIndex.size (system_ttl_index self)));
  ready ← (if full : bool then gets (check_txn_ready txn curr_sequence_number) else mret false);
  _ ← (if ready : bool then fun self =>
         match ParkingLotIndex.get_poppable rng (parking_lot_index self) with
         | Some (address, sequence_number) =>
             match get_mempool_txn address sequence_number self with
             | Some txn => index_remove txn (remove_txn address sequence_number self)
             | None => (Ok tt, self)
             end
         | None => (Ok tt, self)
         end
       else mret tt);
  gets (fun self => Ok (capacity self <=? TTLIndex.size (system_ttl_index self))).

Definition insert_new (rng : N) (txn : MempoolTransaction) : step MempoolStatus :=
  let address := MempoolTransaction.get_sender txn in
  let sequence_number := mt_sequence_info txn in
  let info := account_sequence_number_type sequence_number in
  full ← check_is_full_after_eviction rng txn (min_seq info);
  if full : bool then mret (status MempoolIsFull)
  else
    _ ← puts (fun self => set_account address (default ∅ (transactions self !! address)) self);
    _ ← clean_committed_transactions address (min_seq info);
    txns ← gets (fun self => Ok (default ∅ (transactions self !! address)));
    limit ← gets (fun self => Ok (capacity_per_user self));
    if limit <=? N.of_nat (size (txns : AccountTransactions)) then mret (status TooManyTransactions)
    else
      _ ← puts (fun self => set_ttl (TTLIndex.insert client_time txn (expiration_time_index self))
                              (TTLIndex.insert system_time txn (system_ttl_index self)) self);
      _ ← puts (fun self => set_hash (<[MempoolTransaction.get_committed_hash txn :=
                              (address, transaction_sequence_number sequence_number)]> (hash_index self)) self);
      _ ← puts (set_account address (<[transaction_sequence_number sequence_number := txn]> txns));
      _ ← process_ready_transactions address info;
      mret (status Accepted).

Definition insert (rng : N) (txn : MempoolTransaction) : step MempoolStatus :=
  let address := MempoolTransaction.get_sender txn in
  let sequence_number := MempoolTransaction.sequence_number txn in
  current ← gets (fun self => Ok (get_mempool_txn address sequence_number self));
  match current with
  | Some current_version =>
      if negb (txn_payload (mt_txn current_version) =? txn_payload (mt_txn txn)) then mret (with_message "Transaction already in mempool with different payload" (status InvalidUpdate))
      else if negb (txn_expiration_timestamp_secs (mt_txn current_version) =? txn_expiration_timestamp_secs (mt_txn txn))
      then mret (with_message "Transaction already in mempool with different expiration timestamp" (status InvalidUpdate))
      else if negb (txn_max_gas_amount (mt_txn current_version) =? txn_max_gas_amount (mt_txn txn))
      then mret (with_message "Transaction already in mempool with different max gas amount" (status InvalidUpdate))
      else if txn_gas_unit_price (mt_txn current_version) <? MempoolTransaction.get_gas_price txn then
        _ ← puts (remove_txn address sequence_number);
        _ ← index_remove current_version;
        insert_new rng txn
      else if MempoolTransaction.get_gas_price txn <? MempoolTransaction.get_gas_price current_version
      then mret (with_message "Transaction already in mempool with higher gas price" (status InvalidUpdate))
      else mret (status Accepted)
  | None => insert_new rng txn
  end.

Definition commit_transaction (account : AccountAddress) (account_sequence_number : AccountSequenceInfo) : step unit :=
  _ ← clean_committed_transactions account (min_seq account_sequence_number);
  process_ready_transactions account account_sequence_number.

Definition reject_transaction (account : AccountAddress) (_sequence_number : N) : step unit := fun self =>
  match transactions self !! account with
  | None => (Ok tt, self)
  | Some txns => index_remove_all (btree_values txns) (set_transactions (delete account (transactions self)) self)
  end.

(** ** Broadcast *)
Definition read_timeline (timeline_id count : N) (self : TransactionStore) : list SignedTransaction * N :=
  foldl (fun acc ptr =>
           match get_mempool_txn ptr.1 ptr.2 self with
           | Some txn =>
               (acc.1 ++ [mt_txn txn],
                match mt_timeline_state txn with Ready timeline_id => timeline_id | _ => acc.2 end)
           | None => acc
           end)
    ([], timeline_id) (TimelineIndex.read_timeline timeline_id count (timeline_index self)).

Definition timeline_range {E} (start_id end_id : N) (self : TransactionStore) : outcome E (list SignedTransaction) :=
  (fun range : list TxnPointer => omap (fun ptr => get ptr.1 ptr.2 self) range)
    <$> (TimelineIndex.timeline_range start_id end_id (timeline_index self) : outcome E (list TxnPointer)).

(** ** Garbage collection *)
Definition gc_before (k k' : TTLOrderingKey) : Prop :=
  let '(_, address, seq) := k in
  let '(_, address', seq') := k' in
  address < address' \/ address = address' /\ seq <= seq'.
#[global] Instance gc_before_dec : RelDecision gc_before.
Proof. intros [[??]?] [[??]?]. unfold gc_before. apply _. Defined.

Fixpoint gc_park (txns : list MempoolTransaction) : step unit :=
  match txns with
  | [] => mret tt
  | t :: txns =>
      _ ← park t;
      _ ← puts (fun self => set_priority (PriorityIndex.remove t (priority_index self)) self);
      _ ← puts (fun self => set_timeline (TimelineIndex.remove t (timeline_index self)) self);
      gc_park txns
  end.

(** Where the next expired transaction of the same account stops the parking. *)
Definition park_range_end (address : AccountAddress) (next : option TTLOrderingKey) : option N :=
  match next with
  | Some (_, next_address, next_seq) => if address =? next_address then Some next_seq else None
  | None => None
  end.

Fixpoint gc_loop (gc_txns : list TTLOrderingKey) : step unit :=
  match gc_txns with
  | [] => mret tt
  | (_, address, sequence_number) :: gc_iter =>
      txns ← gets (fun self => Ok (transactions self !! address));
      _ ← match txns with
          | Some txns =>
              _ ← gc_park (txns_between sequence_number (park_range_end address (head gc_iter)) txns);
              match (txns : AccountTransactions) !! sequence_number with
              | Some txn => _ ← puts (remove_txn address sequence_number); index_remove txn
              | None => mret tt
              end
          | None => mret tt
          end;
      gc_loop gc_iter
  end.

Definition gc (now : N) (by_system_ttl : bool) : step unit := fun self =>
  let '(gc_txns, self) :=
    if by_system_ttl then
      let '(gc_txns, index) := TTLIndex.gc now (system_ttl_index self) in
      (gc_txns, set_ttl (expiration_time_index self) index self)
    else
      let '(gc_txns, index) := TTLIndex.gc now (expiration_time_index self) in
      (gc_txns, set_ttl index (system_ttl_index self) self) in
  gc_loop (merge_sort gc_before gc_txns) self.

Definition gc_by_system_ttl (now : N) : step unit := gc now true.
Definition gc_by_expiration_time (block_time : N) : step unit := gc block_time false.

Definition iter_queue (self : TransactionStore) : list OrderedQueueKey := PriorityIndex.iter (priority_index self).
End store.
End TransactionStore.
