(* ===== verification/MempoolSpec.v ===== *)
(** * Mempool as one map

    What the transaction store stands for: a finite map from pointers to transactions,
    each with three marks.  The store keeps the marks in its indexes: [e_queued] is the
    priority index, from which blocks are made, [e_announced] the timeline, from which
    transactions are broadcast, and [e_parked] the parking lot. *)

From S2P Require Import Prelude Crypto Errors Position Accumulator Verifier Ledger ConsensusTypes Blocks TransactionProofs MempoolIndex MempoolIndexLemmas MempoolStore.

Record Entry : Type := mkEntry {
  e_txn : MempoolTransaction;
  e_queued : bool;
  e_announced : bool;
  e_parked : bool;
}.
Abbreviation Pool := (gmap TxnPointer Entry).

(** ** Operations on entries *)
Definition added (txn : MempoolTransaction) : Entry := mkEntry txn false false false.
Definition promoted (id : N) (e : Entry) : Entry :=
  if decide (mt_timeline_state (e_txn e) = NotReady)
  then mkEntry (MempoolTransaction.set_timeline_state (Ready id) (e_txn e)) true true false
  else mkEntry (e_txn e) true (e_announced e) false.
Definition parked (e : Entry) : Entry := mkEntry (e_txn e) (e_queued e) (e_announced e) true.
Definition demoted (e : Entry) : Entry := mkEntry (e_txn e) false false true.

(** ** What a store stands for *)
Abbreviation Txns := (gmap TxnPointer MempoolTransaction).
Definition txns (m : Pool) : Txns := e_txn <$> m.
Definition keys (time : MempoolTransaction -> N) (m : Txns) : gset TTLOrderingKey :=
  map_to_set (fun _ t => TTLIndex.make_key time t) m.
Definition pointed (m : Txns) : Prop := forall q t, m !! q = Some t -> raw_pointer t = q /\ txn_pointer t = q.

Section spec.
Context `{CryptoHash Transaction}.
Implicit Types (m : Pool) (self : TransactionStore) (q : TxnPointer) (e : Entry).

Record index_ok m self : Prop := {
  ix_pointed : pointed (txns m);
  ix_priority k info : pi_data (priority_index self) !! k = Some info <->
    exists q e, m !! q = Some e /\ e_queued e = true /\ PriorityIndex.make_key (e_txn e) = k /\
      account_sequence_number_type (mt_sequence_info (e_txn e)) = info;
  ix_timeline id q : ti_timeline (timeline_index self) !! id = Some q <->
    exists e, m !! q = Some e /\ e_announced e = true /\ mt_timeline_state (e_txn e) = Ready id;
  ix_announced q e : m !! q = Some e -> e_announced e = true -> exists id, mt_timeline_state (e_txn e) = Ready id;
  ix_fresh q e id : m !! q = Some e -> mt_timeline_state (e_txn e) = Ready id -> id < ti_timeline_id (timeline_index self);
  ix_ids q q' e e' id : m !! q = Some e -> m !! q' = Some e' ->
    mt_timeline_state (e_txn e) = Ready id -> mt_timeline_state (e_txn e') = Ready id -> q = q';
  ix_parking : parking_ok (parking_lot_index self);
  ix_parked q : q ∈ pl_list (parking_lot_index self) <-> exists e, m !! q = Some e /\ e_parked e = true;
  ix_hash h q : hash_index self !! h = Some q ->
    exists e, m !! q = Some e /\ MempoolTransaction.get_committed_hash (e_txn e) = h;
  ix_hash_all q e : CollisionFree Transaction -> m !! q = Some e ->
    hash_index self !! MempoolTransaction.get_committed_hash (e_txn e) = Some q;
}.

Definition ttl_ok (client system : Txns) self : Prop :=
  ttl_data (expiration_time_index self) = keys client_time client /\
  ttl_data (system_ttl_index self) = keys system_time system.

Definition txns_ok m self : Prop :=
  forall a n, TransactionStore.get_mempool_txn a n self = txns m !! (a, n).

Record represents m self : Prop := {
  rp_txns : txns_ok m self;
  rp_index : index_ok m self;
  rp_ttl : ttl_ok (txns m) (txns m) self;
}.

(** What [index_remove] and its like leave alone. *)
Definition same_txns self self' : Prop :=
  transactions self' = transactions self /\ capacity self' = capacity self /\
  capacity_per_user self' = capacity_per_user self.
#[global] Instance same_txns_preorder : PreOrder same_txns.
Proof. split; [done|]. intros ??? (?&?&?) (?&?&?). split_and!; congruence. Qed.

(** ** Pointers and keys *)
Lemma make_key_pointer t t' : PriorityIndex.make_key t = PriorityIndex.make_key t' -> txn_pointer t = txn_pointer t'.
Proof. unfold PriorityIndex.make_key, txn_pointer. by intros [= _ _ -> ->]. Qed.
Lemma ttl_key_pointer time t t' : TTLIndex.make_key time t = TTLIndex.make_key time t' -> txn_pointer t = txn_pointer t'.
Proof. unfold TTLIndex.make_key, txn_pointer. by intros [= _ -> ->]. Qed.
Lemma pointed_at m q e : pointed (txns m) -> m !! q = Some e -> raw_pointer (e_txn e) = q /\ txn_pointer (e_txn e) = q.
Proof. intros Hp He. apply Hp. unfold txns. by rewrite lookup_fmap, He. Qed.

Lemma elem_of_keys time t k : k ∈ keys time t <-> exists q x, t !! q = Some x /\ TTLIndex.make_key time x = k.
Proof. unfold keys. rewrite elem_of_map_to_set. naive_solver. Qed.

Lemma size_keys time t : pointed t -> size (keys time t) = size t.
Proof.
  intros Hp. unfold keys, map_to_set. rewrite size_list_to_set; [by rewrite length_fmap, length_map_to_list|].
  apply NoDup_fmap_2_strong; [|apply NoDup_map_to_list].
  intros [q x] [q' x'] Hx%elem_of_map_to_list Hx'%elem_of_map_to_list Hk%ttl_key_pointer.
  rewrite (proj2 (Hp _ _ Hx)), (proj2 (Hp _ _ Hx')) in Hk. congruence.
Qed.

Lemma keys_delete time t q x : pointed t -> txn_pointer x = q -> (forall y, t !! q = Some y -> y = x) ->
  keys time (delete q t) = keys time t ∖ {[TTLIndex.make_key time x]}.
Proof.
  intros Hp Hx Hk. apply set_eq. intros k. rewrite elem_of_difference, elem_of_singleton, !elem_of_keys. split.
  - intros (q' & y & [Hq Hy]%lookup_delete_Some & <-). split; [eauto|]. intros Hkk%ttl_key_pointer.
    rewrite (proj2 (Hp _ _ Hy)) in Hkk. congruence.
  - intros [(q' & y & Hy & <-) Hne]. exists q', y. split; [|done]. apply lookup_delete_Some. split; [|done].
    intros <-. apply Hne. by rewrite (Hk y).
Qed.
Lemma keys_insert time t q x : t !! q = None -> keys time (<[q := x]> t) = {[TTLIndex.make_key time x]} ∪ keys time t.
Proof. intros Hq. unfold keys. by rewrite map_to_set_insert_L. Qed.
(** The timeline state is no part of a key. *)
Lemma keys_update time t q x y :
  t !! q = Some x -> TTLIndex.make_key time y = TTLIndex.make_key time x -> keys time (<[q := y]> t) = keys time t.
Proof.
  intros Hq Hk. rewrite <-insert_delete_eq, keys_insert by (by rewrite lookup_delete_eq).
  rewrite Hk, <-(keys_insert time _ q) by (by rewrite lookup_delete_eq). by rewrite insert_delete_id.
Qed.

(** ** Leaving the indexes *)
Lemma unpark_ok m self q e :
  index_ok m self -> raw_pointer (e_txn e) = q ->
  exists p, ParkingLotIndex.remove (E := AnyError) (e_txn e) (parking_lot_index self) = Ok p /\ parking_ok p /\
    forall q', q' ∈ pl_list p <-> q' <> q /\ exists e, m !! q' = Some e /\ e_parked e = true.
Proof.
  intros Hix <-. destruct (@parking_remove AnyError _ (e_txn e) (ix_parking _ _ Hix)) as (p & Hr & Hok & Hin).
  exists p. split_and!; [done|done|]. intros q'. by rewrite Hin, (ix_parked _ _ Hix).
Qed.

Lemma timeline_remove m self q e id q' :
  index_ok m self -> m !! q = Some e ->
  ti_timeline (TimelineIndex.remove (e_txn e) (timeline_index self)) !! id = Some q' <->
  q' <> q /\ ti_timeline (timeline_index self) !! id = Some q'.
Proof.
  intros Hix He. unfold TimelineIndex.remove. destruct (mt_timeline_state (e_txn e)) as [i| |] eqn:Hs.
  - cbn. rewrite lookup_delete_Some. split; (intros [Hne Ht]; split; [|done]).
    + intros ->. apply (ix_timeline _ _ Hix) in Ht as (e' & He' & _ & Hs'). congruence.
    + intros ->. apply (ix_timeline _ _ Hix) in Ht as (e' & He' & _ & Hs'). apply Hne. by eapply (ix_ids _ _ Hix).
  - split; [|by intros [_ ?]]. intros Ht. split; [|done]. intros ->.
    apply (ix_timeline _ _ Hix) in Ht as (e' & He' & _ & Hs'). congruence.
  - split; [|by intros [_ ?]]. intros Ht. split; [|done]. intros ->.
    apply (ix_timeline _ _ Hix) in Ht as (e' & He' & _ & Hs'). congruence.
Qed.
Lemma priority_remove m self q e k info :
  index_ok m self -> m !! q = Some e ->
  pi_data (PriorityIndex.remove (e_txn e) (priority_index self)) !! k = Some info <->
  exists q' e', q' <> q /\ m !! q' = Some e' /\ e_queued e' = true /\ PriorityIndex.make_key (e_txn e') = k /\
    account_sequence_number_type (mt_sequence_info (e_txn e')) = info.
Proof.
  intros Hix He. cbn. rewrite lookup_delete_Some, (ix_priority _ _ Hix). pose proof (ix_pointed _ _ Hix) as Hp. split.
  - intros [Hk (q' & e' & He' & Hq & Hk' & Hi)]. exists q', e'. split_and!; try done. intros ->. congruence.
  - intros (q' & e' & Hne & He' & Hq & <- & Hi). split; [|by exists q', e']. intros Hk%make_key_pointer.
    rewrite (proj2 (pointed_at _ _ _ Hp He)), (proj2 (pointed_at _ _ _ Hp He')) in Hk. done.
Qed.

(** A run that returns: neither an error nor a panic. *)
Definition returns {S A} (m : method S AnyError A) (Q : A -> S -> Prop) (s : S) : Prop := safe (fun _ => False) m Q s.

Lemma committed_hash_inj t t' : CollisionFree Transaction ->
  MempoolTransaction.get_committed_hash t = MempoolTransaction.get_committed_hash t' -> raw_pointer t = raw_pointer t'.
Proof. unfold MempoolTransaction.get_committed_hash. intros Hc Hh%hash_inj. injection Hh as Hh. unfold raw_pointer. by rewrite Hh. Qed.

Lemma txns_delete q m : txns (delete q m) = delete q (txns m).
Proof. apply fmap_delete. Qed.
Lemma txns_insert q e m : txns (<[q := e]> m) = <[q := e_txn e]> (txns m).
Proof. apply fmap_insert. Qed.
Lemma lookup_txns q m : txns m !! q = e_txn <$> m !! q.
Proof. apply lookup_fmap. Qed.
Lemma pointed_delete q t : pointed t -> pointed (delete q t).
Proof. intros Hp q' x [_ Hx]%lookup_delete_Some. by apply Hp. Qed.
Lemma pointed_insert q x t : pointed t -> raw_pointer x = q -> txn_pointer x = q -> pointed (<[q := x]> t).
Proof. intros Hp Hr Hq q' y [[<- <-]|[_ Hy]]%lookup_insert_Some; [done|by apply Hp]. Qed.
Lemma pointed_subseteq t t' : pointed t -> t' ⊆ t -> pointed t'.
Proof. intros Hp Hs q x Hx. apply Hp. by eapply lookup_weaken. Qed.

Lemma index_remove_ok m self q e :
  index_ok m self -> m !! q = Some e ->
  returns (TransactionStore.index_remove (e_txn e))
    (fun _ self' => index_ok (delete q m) self' /\ same_txns self self' /\
       (forall c s, c ⊆ txns m -> s ⊆ txns m -> ttl_ok c s self -> ttl_ok (delete q c) (delete q s) self') /\
       ti_timeline_id (timeline_index self') = ti_timeline_id (timeline_index self)) self.
Proof.
  intros Hix He. pose proof (ix_pointed _ _ Hix) as Hp. destruct (pointed_at _ _ _ Hp He) as [Hraw Hptr].
  unfold returns, TransactionStore.index_remove. do 3 apply safe_bind, safe_puts.
  destruct (unpark_ok m self q e Hix Hraw) as (p & Hr & Hpk & Hin).
  apply safe_bind. unfold TransactionStore.unpark, safe at 1. cbn [parking_lot_index TransactionStore.set_timeline
    TransactionStore.set_priority TransactionStore.set_ttl]. rewrite Hr. apply safe_puts. split_and!; [|done| |].
  - split; cbn -[TimelineIndex.remove PriorityIndex.remove].
    + rewrite txns_delete. by apply pointed_delete.
    + intros k info. rewrite (priority_remove m self q e) by done. setoid_rewrite lookup_delete_Some. naive_solver.
    + intros id q'. rewrite (timeline_remove m self q e), (ix_timeline _ _ Hix) by done.
      setoid_rewrite lookup_delete_Some. naive_solver.
    + intros q' e' [_ He']%lookup_delete_Some. by apply (ix_announced _ _ Hix q').
    + intros q' e' id [_ He']%lookup_delete_Some Hs. unfold TimelineIndex.remove.
      destruct (mt_timeline_state (e_txn e)); by eapply (ix_fresh _ _ Hix).
    + intros q1 q2 e1 e2 id [_ He1]%lookup_delete_Some [_ He2]%lookup_delete_Some. by eapply (ix_ids _ _ Hix).
    + done.
    + intros q'. rewrite Hin. setoid_rewrite lookup_delete_Some. naive_solver.
    + intros h q' [Hh (e' & He' & Hh')%(ix_hash _ _ Hix)]%lookup_delete_Some. exists e'. split; [|done].
      apply lookup_delete_Some. split; [|done]. intros <-. congruence.
    + intros q' e' Hc [Hne He']%lookup_delete_Some. apply lookup_delete_Some. split; [|by apply (ix_hash_all _ _ Hix)].
      intros Hh%committed_hash_inj; [|done]. by rewrite Hraw, (proj1 (pointed_at _ _ _ Hp He')) in Hh.
  - intros c s Hcm Hsm [Hc Hs]. split; cbn.
    + rewrite Hc. symmetry. apply keys_delete; [by eapply pointed_subseteq|done|].
      intros y Hy. eapply lookup_weaken in Hy; [|done]. rewrite lookup_txns, He in Hy. by injection Hy.
    + rewrite Hs. symmetry. apply keys_delete; [by eapply pointed_subseteq|done|].
      intros y Hy. eapply lookup_weaken in Hy; [|done]. rewrite lookup_txns, He in Hy. by injection Hy.
  - cbn. unfold TimelineIndex.remove. by destruct (mt_timeline_state (e_txn e)).
Qed.

(** ** Ready and parked *)
Lemma park_ok m self q e :
  index_ok m self -> m !! q = Some e -> N.of_nat (size m) <= u64_max ->
  exists p, ParkingLotIndex.insert (E := AnyError) (e_txn e) (parking_lot_index self) = Ok p /\ parking_ok p /\
    forall q', q' ∈ pl_list p <-> q' = q \/ exists e, m !! q' = Some e /\ e_parked e = true.
Proof.
  intros Hix He Hsz. pose proof (ix_pointed _ _ Hix) as Hp. destruct (pointed_at _ _ _ Hp He) as [Hraw Hptr].
  destruct (@parking_insert AnyError _ (e_txn e) (ix_parking _ _ Hix)) as (p & Hr & Hok & Hin).
  - rewrite Hraw. intros Hq. enough (S (length (pl_list (parking_lot_index self))) <= size m)%nat by lia.
    rewrite <-(size_dom m). change (length (q :: pl_list (parking_lot_index self)) <= size (dom m))%nat.
    rewrite <-(size_list_to_set (C := gset TxnPointer)).
    + apply subseteq_size. intros q'. rewrite elem_of_list_to_set, elem_of_cons, elem_of_dom.
      intros [->|(e' & He' & _)%(ix_parked _ _ Hix)]; eauto.
    + constructor; [done|]. apply NoDup_pl_list, (ix_parking _ _ Hix).
  - exists p. split_and!; [done|done|]. intros q'. by rewrite Hin, (ix_parked _ _ Hix), Hraw.
Qed.

(** A change of an entry that keeps what the indexes know of its transaction. *)
Record alike e e' : Prop := {
  al_key : PriorityIndex.make_key (e_txn e') = PriorityIndex.make_key (e_txn e);
  al_info : mt_sequence_info (e_txn e') = mt_sequence_info (e_txn e);
  al_txn : mt_txn (e_txn e') = mt_txn (e_txn e);
}.
Lemma alike_ttl time e e' : alike e e' -> time = client_time \/ time = system_time ->
  TTLIndex.make_key time (e_txn e') = TTLIndex.make_key time (e_txn e).
Proof.
  intros [Hk Hi Ht] Htime. unfold TTLIndex.make_key, MempoolTransaction.get_sender, MempoolTransaction.sequence_number.
  rewrite Ht, Hi. do 2 f_equal. injection Hk as _ Hx _ _. destruct Htime as [-> | ->]; [|done].
  unfold client_time. by rewrite Ht.
Qed.
Lemma alike_pointers e e' : alike e e' ->
  raw_pointer (e_txn e') = raw_pointer (e_txn e) /\ txn_pointer (e_txn e') = txn_pointer (e_txn e).
Proof.
  intros [Hk Hi Ht]. unfold raw_pointer, txn_pointer, MempoolTransaction.get_sender, MempoolTransaction.sequence_number.
  by rewrite Ht, Hi.
Qed.
Lemma alike_promoted id e : alike e (promoted id e).
Proof. unfold promoted. by case_decide. Qed.
Lemma alike_marks t b c d b' c' d' : alike (mkEntry t b c d) (mkEntry t b' c' d').
Proof. done. Qed.

Lemma pointed_update m q e e' : pointed (txns m) -> m !! q = Some e -> alike e e' -> pointed (txns (<[q := e']> m)).
Proof.
  intros Hp He Ha. rewrite txns_insert. destruct (alike_pointers _ _ Ha), (pointed_at _ _ _ Hp He).
  apply pointed_insert; [done|congruence|congruence].
Qed.
Lemma keys_alike time m q e e' : time = client_time \/ time = system_time -> m !! q = Some e -> alike e e' ->
  keys time (txns (<[q := e']> m)) = keys time (txns m).
Proof.
  intros Ht He Ha. rewrite txns_insert. apply keys_update with (e_txn e); [by rewrite lookup_txns, He|by apply alike_ttl].
Qed.
Lemma ttl_update m q e e' self : m !! q = Some e -> alike e e' ->
  ttl_ok (txns m) (txns m) self -> ttl_ok (txns (<[q := e']> m)) (txns (<[q := e']> m)) self.
Proof. intros He Ha [Hc Hs]. split; rewrite (keys_alike _ _ _ e) by eauto; done. Qed.

Lemma priority_update m self q e e' k info :
  index_ok m self -> m !! q = Some e -> alike e e' -> e_queued e' = true ->
  pi_data (PriorityIndex.insert (e_txn e) (priority_index self)) !! k = Some info <->
  exists q' x, <[q := e']> m !! q' = Some x /\ e_queued x = true /\ PriorityIndex.make_key (e_txn x) = k /\
    account_sequence_number_type (mt_sequence_info (e_txn x)) = info.
Proof.
  intros Hix He [Hk Hi _] Hq. pose proof (ix_pointed _ _ Hix) as Hp.
  assert (pi_data (PriorityIndex.insert (e_txn e) (priority_index self)) !! k = Some info <->
    k = PriorityIndex.make_key (e_txn e) /\ account_sequence_number_type (mt_sequence_info (e_txn e)) = info \/
    k <> PriorityIndex.make_key (e_txn e) /\ pi_data (priority_index self) !! k = Some info) as ->.
  { unfold PriorityIndex.insert. destruct (pi_data (priority_index self) !! PriorityIndex.make_key (e_txn e)) as [i|] eqn:Hold.
    - pose proof Hold as (q' & e2 & He2 & _ & Hk2%make_key_pointer & Hi2)%(ix_priority _ _ Hix).
      rewrite (proj2 (pointed_at _ _ _ Hp He)), (proj2 (pointed_at _ _ _ Hp He2)) in Hk2.
      assert (e2 = e) as -> by congruence. subst i. destruct (decide (k = PriorityIndex.make_key (e_txn e))); naive_solver.
    - cbn. rewrite lookup_insert_Some. naive_solver. }
  rewrite (ix_priority _ _ Hix). setoid_rewrite lookup_insert_Some. split.
  - intros [[-> <-]|(Hne & q' & x & Hx & Hqx & <- & <-)]; [exists q, e'; rewrite Hk, Hi; auto|].
    exists q', x. split_and!; try done. right. split; [congruence|done].
  - intros (q' & x & [[<- <-]|[Hne Hx]] & Hqx & <- & <-); [left; by rewrite Hk, Hi|].
    right. split; [|by exists q', x]. intros Hkk%make_key_pointer.
    by rewrite (proj2 (pointed_at _ _ _ Hp He)), (proj2 (pointed_at _ _ _ Hp Hx)) in Hkk.
Qed.

Lemma hash_update m self q e e' h q' : index_ok m self -> m !! q = Some e -> alike e e' ->
  hash_index self !! h = Some q' ->
  exists x, <[q := e']> m !! q' = Some x /\ MempoolTransaction.get_committed_hash (e_txn x) = h.
Proof.
  intros Hix He Ha (x & Hx & <-)%(ix_hash _ _ Hix). destruct (decide (q = q')) as [<-|Hne].
  - exists e'. rewrite lookup_insert_eq. split; [done|]. unfold MempoolTransaction.get_committed_hash.
    rewrite (al_txn _ _ Ha). congruence.
  - exists x. by rewrite lookup_insert_ne.
Qed.
Lemma hash_all_update m self q e e' q' x : index_ok m self -> m !! q = Some e -> alike e e' ->
  CollisionFree Transaction -> <[q := e']> m !! q' = Some x ->
  hash_index self !! MempoolTransaction.get_committed_hash (e_txn x) = Some q'.
Proof.
  intros Hix He Ha Hc [[<- <-]|[_ Hx]]%lookup_insert_Some; [|by apply (ix_hash_all _ _ Hix)].
  unfold MempoolTransaction.get_committed_hash. rewrite (al_txn _ _ Ha). by apply (ix_hash_all _ _ Hix).
Qed.
End spec.

(** ** The operations of the transaction store on the map it stands for *)
(** No account has got more transactions. *)
Definition shrinks (self self' : TransactionStore) : Prop :=
  capacity self' = capacity self /\ capacity_per_user self' = capacity_per_user self /\
  forall a t', transactions self' !! a = Some t' ->
    exists t, transactions self !! a = Some t /\ (size (t' : AccountTransactions) <= size (t : AccountTransactions))%nat.
#[global] Instance shrinks_preorder : PreOrder shrinks.
Proof.
  split; [intros self; split_and!; eauto|]. intros s1 s2 s3 (H1 & H2 & H3) (H4 & H5 & H6).
  split_and!; [congruence|congruence|]. intros a t3 (t2 & (t1 & ? & ?)%H3 & ?)%H6. exists t1. split; [done|lia].
Qed.

Section store_lemmas.
Context `{CryptoHash Transaction}.
Implicit Types (m : Pool) (self : TransactionStore) (q : TxnPointer) (e : Entry).
Import TransactionStore.

Lemma same_txns_shrinks self self' : same_txns self self' -> shrinks self self'.
Proof. intros (Ht & Hc & Hu). split_and!; [done|done|]. intros a t. rewrite Ht. eauto. Qed.

Lemma get_set_account a n b t self :
  get_mempool_txn a n (set_account b t self) = if decide (a = b) then t !! n else get_mempool_txn a n self.
Proof.
  unfold get_mempool_txn. cbn. case_decide as Hab; [subst; by rewrite lookup_insert_eq|by rewrite lookup_insert_ne].
Qed.
Lemma get_same a n self self' : transactions self' = transactions self -> get_mempool_txn a n self' = get_mempool_txn a n self.
Proof. unfold get_mempool_txn. by intros ->. Qed.

(** ** Promotion *)
Definition next_id (id : N) (e : Entry) : N := if decide (mt_timeline_state (e_txn e) = NotReady) then id + 1 else id.

Lemma promoted_timeline m self q e id q' :
  index_ok m self -> m !! q = Some e ->
  let next := ti_timeline_id (timeline_index self) in
  (if decide (mt_timeline_state (e_txn e) = NotReady) then <[next := q]> (ti_timeline (timeline_index self))
   else ti_timeline (timeline_index self)) !! id = Some q' <->
  exists x, <[q := promoted next e]> m !! q' = Some x /\ e_announced x = true /\ mt_timeline_state (e_txn x) = Ready id.
Proof.
  intros Hix He next. unfold promoted. case_decide as Hs.
  - rewrite lookup_insert_Some, (ix_timeline _ _ Hix). split.
    + intros [[<- <-]|(Hne & x & Hx & Ha & Hid)]; [eexists; by rewrite lookup_insert_eq|].
      exists x. rewrite lookup_insert_ne by congruence. done.
    + intros (x & [[<- <-]|[Hne Hx]]%lookup_insert_Some & Ha & Hid); [left; by injection Hid as ->|].
      right. split; [|by exists x]. pose proof (ix_fresh _ _ Hix _ _ _ Hx Hid). fold next in H0. lia.
  - rewrite (ix_timeline _ _ Hix). split.
    + intros (x & Hx & Ha & Hid). destruct (decide (q = q')) as [<-|Hne].
      * eexists. rewrite lookup_insert_eq. split; [done|]. cbn. by assert (e = x) as -> by congruence.
      * exists x. by rewrite lookup_insert_ne.
    + intros (x & [[<- <-]|[Hne Hx]]%lookup_insert_Some & Ha & Hid); [by exists e|by exists x].
Qed.

Lemma promoted_index m self q e self' :
  index_ok m self -> m !! q = Some e ->
  let next := ti_timeline_id (timeline_index self) in
  priority_index self' = PriorityIndex.insert (e_txn e) (priority_index self) ->
  timeline_index self' = mkTimelineIndex (next_id next e)
    (if decide (mt_timeline_state (e_txn e) = NotReady) then <[next := q]> (ti_timeline (timeline_index self))
     else ti_timeline (timeline_index self)) ->
  parking_ok (parking_lot_index self') ->
  (forall q', q' ∈ pl_list (parking_lot_index self') <-> q' <> q /\ exists e, m !! q' = Some e /\ e_parked e = true) ->
  hash_index self' = hash_index self ->
  index_ok (<[q := promoted next e]> m) self'.
Proof.
  intros Hix He next Hpr Htl Hpk Hin Hh. pose proof (alike_promoted next e) as Hal.
  assert (forall q' x id, <[q := promoted next e]> m !! q' = Some x -> mt_timeline_state (e_txn x) = Ready id ->
    (q' = q /\ id = next /\ mt_timeline_state (e_txn e) = NotReady) \/
    exists y, m !! q' = Some y /\ mt_timeline_state (e_txn y) = Ready id) as Hst.
  { intros q' x id [[<- <-]|[Hne Hx]]%lookup_insert_Some; [|eauto]. unfold promoted. case_decide; cbn; [|eauto].
    intros [= <-]. auto. }
  split.
  - eapply pointed_update; [apply (ix_pointed _ _ Hix)|done|done].
  - intros k info. rewrite Hpr. apply (priority_update m self q e); [done|done|done|]. unfold promoted. by case_decide.
  - intros id q'. rewrite Htl. by apply promoted_timeline.
  - intros q' x [[<- <-]|[_ Hx]]%lookup_insert_Some; [|by apply (ix_announced _ _ Hix q')].
    unfold promoted. case_decide; cbn; [eauto|by apply (ix_announced _ _ Hix q)].
  - intros q' x id Hx Hid. rewrite Htl. cbn. unfold next_id. destruct (Hst _ _ _ Hx Hid) as [(_ & -> & Hs)|(y & Hy & Hy')].
    + rewrite decide_True by done. lia.
    + pose proof (ix_fresh _ _ Hix _ _ _ Hy Hy'). case_decide; fold next in H0; lia.
  - intros q1 q2 e1 e2 id H1 H2 Hs1 Hs2.
    destruct (Hst _ _ _ H1 Hs1) as [(-> & -> & _)|(y1 & Hy1 & Hi1)], (Hst _ _ _ H2 Hs2) as [(-> & Hid & _)|(y2 & Hy2 & Hi2)].
    + done.
    + pose proof (ix_fresh _ _ Hix _ _ _ Hy2 Hi2). fold next in H0. lia.
    + pose proof (ix_fresh _ _ Hix _ _ _ Hy1 Hi1). fold next in H0. lia.
    + by eapply (ix_ids _ _ Hix).
  - done.
  - intros q'. rewrite Hin. setoid_rewrite lookup_insert_Some. unfold promoted. case_decide; naive_solver.
  - intros h q'. rewrite Hh. by apply (hash_update m self q e).
  - intros q' x Hc Hx. rewrite Hh. by eapply (hash_all_update m self q e).
Qed.

Lemma promote_ok m self a n e :
  represents m self -> m !! (a, n) = Some e -> next_id (ti_timeline_id (timeline_index self)) e <= u64_max ->
  returns (promote a n (e_txn e))
    (fun _ self' => represents (<[(a, n) := promoted (ti_timeline_id (timeline_index self)) e]> m) self' /\
       shrinks self self' /\ ti_timeline_id (timeline_index self') = next_id (ti_timeline_id (timeline_index self)) e) self.
Proof.
  intros [Htx Hix Httl] He Hid. set (next := ti_timeline_id (timeline_index self)) in *.
  pose proof (pointed_at _ _ _ (ix_pointed _ _ Hix) He) as [Hraw Hptr].
  destruct (unpark_ok m self (a, n) e Hix Hraw) as (p & Hr & Hpk & Hin).
  assert (forall self', ttl_ok (txns m) (txns m) self' ->
    ttl_ok (txns (<[(a, n):=promoted next e]> m)) (txns (<[(a, n):=promoted next e]> m)) self') as Httl'
    by (intros; eapply ttl_update; [done|apply alike_promoted|done]).
  unfold returns, promote. apply safe_bind, safe_puts, safe_bind.
  pose proof (promoted_index m self (a, n) e) as Hpi. cbv zeta in Hpi. fold next in Hpi. unfold next_id in *.
  destruct (decide (mt_timeline_state (e_txn e) = NotReady)) as [Hs|Hs].
  - rewrite bool_decide_true by done. unfold safe at 1, TimelineIndex.insert. cbn [timeline_index set_priority]. fold next.
    rewrite (proj2 (add64_Ok next 1 (next + 1))) by (split; [done|lia]). cbn [mbind outcome_bind].
    unfold unpark, safe. cbn [parking_lot_index set_timeline set_account set_transactions set_priority]. rewrite Hr.
    split_and!; [|split_and!|done]; [|done|done|].
    + split; [|apply Hpi; try done; cbn; by rewrite Hptr|by apply Httl'].
      intros b k. rewrite txns_insert. cbn.
      change (get_mempool_txn b k (set_account a (<[n := MempoolTransaction.set_timeline_state (Ready next) (e_txn e)]>
        (default ∅ (transactions self !! a))) self) = <[(a, n) := e_txn (promoted next e)]> (txns m) !! (b, k)).
      rewrite get_set_account. unfold promoted. rewrite (decide_True (P := mt_timeline_state _ = _)) by done. cbn.
      destruct (decide (b = a)) as [->|Hb]; [|rewrite lookup_insert_ne by congruence; apply Htx].
      destruct (decide (n = k)) as [<-|Hk]; [by rewrite !lookup_insert_eq|]. rewrite !lookup_insert_ne by congruence.
      rewrite <-Htx. unfold get_mempool_txn. by destruct (transactions self !! a).
    + intros b t'. cbn. intros [[<- <-]|[_ Ht]]%lookup_insert_Some; [|eauto].
      pose proof (Htx a n) as Hg. rewrite lookup_txns, He in Hg. unfold get_mempool_txn in Hg.
      destruct (transactions self !! a) as [t|]; [|done]. exists t. split; [done|]. cbn in *.
      rewrite map_size_insert_Some by (by rewrite Hg). done.
  - rewrite bool_decide_false by done. apply safe_ret. unfold unpark, safe. cbn [parking_lot_index set_priority]. rewrite Hr.
    split_and!; [|by apply same_txns_shrinks|done]. split; [|apply Hpi; try done; unfold next; cbn; by destruct (timeline_index self)|by apply Httl'].
    intros b k. change (get_mempool_txn b k self = txns (<[(a, n) := promoted next e]> m) !! (b, k)).
    rewrite Htx, txns_insert. unfold promoted. rewrite decide_False by done. cbn.
    destruct (decide ((a, n) = (b, k))) as [Hq|Hq]; [|by rewrite lookup_insert_ne].
    by rewrite Hq, lookup_insert_eq, lookup_txns, <-Hq, He.
Qed.

(** ** Parking *)
Definition keeps self self' : Prop :=
  same_txns self self' /\ expiration_time_index self' = expiration_time_index self /\
  system_ttl_index self' = system_ttl_index self /\
  ti_timeline_id (timeline_index self') = ti_timeline_id (timeline_index self).
#[global] Instance keeps_preorder : PreOrder keeps.
Proof. split; [done|]. intros ??? ((?&?&?)&?&?&?) ((?&?&?)&?&?&?). split_and!; unfold same_txns; split_and?; congruence. Qed.

Lemma txns_remark m q e e' : m !! q = Some e -> e_txn e' = e_txn e -> txns (<[q := e']> m) = txns m.
Proof. intros He Ht. rewrite txns_insert, Ht. apply insert_id. by rewrite lookup_txns, He. Qed.
Lemma txns_ok_keeps m self self' : txns_ok m self -> transactions self' = transactions self -> txns_ok m self'.
Proof. intros Htx Ht a n. by rewrite (get_same a n self self'). Qed.
Lemma ttl_ok_keeps c s self self' : ttl_ok c s self -> keeps self self' -> ttl_ok c s self'.
Proof. intros [Hc Hs] (_ & He & Hy & _). unfold ttl_ok. by rewrite He, Hy. Qed.

(** A change of the marks. *)
Lemma remark_index m self q e e' self' :
  index_ok m self -> m !! q = Some e -> e_txn e' = e_txn e -> (e_announced e' = true -> e_announced e = true) ->
  (forall k info, pi_data (priority_index self') !! k = Some info <->
     exists q' x, <[q := e']> m !! q' = Some x /\ e_queued x = true /\ PriorityIndex.make_key (e_txn x) = k /\
       account_sequence_number_type (mt_sequence_info (e_txn x)) = info) ->
  (forall id q', ti_timeline (timeline_index self') !! id = Some q' <->
     exists x, <[q := e']> m !! q' = Some x /\ e_announced x = true /\ mt_timeline_state (e_txn x) = Ready id) ->
  ti_timeline_id (timeline_index self') = ti_timeline_id (timeline_index self) ->
  parking_ok (parking_lot_index self') ->
  (forall q', q' ∈ pl_list (parking_lot_index self') <-> exists x, <[q := e']> m !! q' = Some x /\ e_parked x = true) ->
  hash_index self' = hash_index self -> index_ok (<[q := e']> m) self'.
Proof.
  intros Hix He Ht Ha Hpr Htl Hid Hpk Hin Hh. assert (alike e e') as Hal by (split; by rewrite Ht).
  assert (forall q' x, <[q := e']> m !! q' = Some x -> exists y, m !! q' = Some y /\ e_txn x = e_txn y /\
    (e_announced x = true -> e_announced y = true)) as Hold.
  { intros q' x [[<- <-]|[_ Hx]]%lookup_insert_Some; eauto. }
  split; try done.
  - eapply pointed_update; [apply (ix_pointed _ _ Hix)|done|done].
  - intros q' x (y & Hy & -> & Hya)%Hold Hx. by apply (ix_announced _ _ Hix q'), Hya.
  - intros q' x id (y & Hy & -> & _)%Hold. rewrite Hid. by apply (ix_fresh _ _ Hix q').
  - intros q1 q2 x1 x2 id (y1 & Hy1 & -> & _)%Hold (y2 & Hy2 & -> & _)%Hold. by apply (ix_ids _ _ Hix).
  - intros h q'. rewrite Hh. by apply (hash_update m self q e).
  - intros q' x Hc Hx. rewrite Hh. by eapply (hash_all_update m self q e).
Qed.

Lemma parked_ok m self q e :
  index_ok m self -> m !! q = Some e -> N.of_nat (size m) <= u64_max ->
  returns (park (e_txn e)) (fun _ self' => index_ok (<[q := parked e]> m) self' /\ keeps self self') self.
Proof.
  intros Hix He Hsz. destruct (park_ok m self q e Hix He Hsz) as (p & Hr & Hpk & Hin).
  unfold returns, park, safe. rewrite Hr. split; [|done]. apply (remark_index m self q e); try done; cbn.
  - intros k info. rewrite (ix_priority _ _ Hix). setoid_rewrite lookup_insert_Some. split.
    + intros (q' & x & Hx & Hrest). destruct (decide (q = q')) as [<-|]; [|by exists q', x; eauto].
      exists q, (parked e). assert (x = e) as -> by congruence. eauto.
    + intros (q' & x & [[<- <-]|[_ Hx]] & Hrest); eauto.
  - intros id q'. rewrite (ix_timeline _ _ Hix). setoid_rewrite lookup_insert_Some. split.
    + intros (x & Hx & Hrest). destruct (decide (q = q')) as [<-|]; [|by exists x; eauto].
      exists (parked e). assert (x = e) as -> by congruence. eauto.
    + intros (x & [[<- <-]|[_ Hx]] & Hrest); eauto.
  - intros q'. rewrite Hin. setoid_rewrite lookup_insert_Some. split.
    + intros [->|(x & Hx & Hp)]; [eauto|]. destruct (decide (q = q')) as [<-|]; eauto.
    + intros (x & [[<- <-]|[_ Hx]] & Hp); [by left|right; eauto].
Qed.

Lemma demoted_ok m self q e :
  index_ok m self -> m !! q = Some e -> N.of_nat (size m) <= u64_max ->
  exists self', (_ ← park (e_txn e);
     _ ← puts (fun self => set_priority (PriorityIndex.remove (e_txn e) (priority_index self)) self);
     puts (fun self => set_timeline (TimelineIndex.remove (e_txn e) (timeline_index self)) self)) self = (Ok tt, self') /\
    index_ok (<[q := demoted e]> m) self' /\ keeps self self'.
Proof.
  intros Hix He Hsz. destruct (park_ok m self q e Hix He Hsz) as (p & Hr & Hpk & Hin).
  eexists. split.
  { unfold mbind, method_bind, puts, park. rewrite Hr. reflexivity. }
  split; [|by unfold keeps, TimelineIndex.remove; destruct (mt_timeline_state (e_txn e))].
  apply (remark_index m self q e); try done; cbn -[PriorityIndex.remove TimelineIndex.remove].
  - intros k info. rewrite (priority_remove m self q e) by done. setoid_rewrite lookup_insert_Some. split.
    + intros (q' & x & Hne & Hrest). exists q', x. split_and!; [|apply Hrest..]. right. by destruct Hrest.
    + intros (q' & x & [[<- <-]|[Hne Hx]] & Hq & Hrest); [done|]. exists q', x. done.
  - intros id q'. rewrite (timeline_remove m self q e), (ix_timeline _ _ Hix) by done. setoid_rewrite lookup_insert_Some.
    split.
    + intros (Hne & x & Hx & Hrest). exists x. split; [|done]. by right.
    + intros (x & [[<- <-]|[Hne Hx]] & Ha & Hid); [done|]. split; [done|]. eauto.
  - unfold TimelineIndex.remove. by destruct (mt_timeline_state (e_txn e)).
  - intros q'. rewrite Hin. setoid_rewrite lookup_insert_Some. split.
    + intros [->|(x & Hx & Hp)]; [eauto|]. destruct (decide (q = q')) as [<-|]; eauto.
    + intros (x & [[<- <-]|[_ Hx]] & Hp); [by left|right; eauto].
Qed.

(** ** Removal of several transactions *)
Definition without (l : list MempoolTransaction) m : Pool := foldl (fun m t => delete (txn_pointer t) m) m l.
Lemma lookup_without l m q : without l m !! q = if decide (q ∈ txn_pointer <$> l) then None else m !! q.
Proof.
  revert m. induction l as [|t l IH]; intros m; [by rewrite decide_False by apply not_elem_of_nil|].
  change (without (t :: l) m) with (without l (delete (txn_pointer t) m)). rewrite fmap_cons, IH. destruct (decide (q = txn_pointer t)) as [->|Hne].
  - rewrite lookup_delete_eq. rewrite (decide_True (P := _ ∈ _ :: _)) by (by left). by case_decide.
  - rewrite lookup_delete_ne by done. apply decide_ext. rewrite elem_of_cons. naive_solver.
Qed.

Lemma index_remove_all_ok l : forall m self,
  index_ok m self -> ttl_ok (txns m) (txns m) self -> NoDup (txn_pointer <$> l) ->
  Forall (fun t => txns m !! txn_pointer t = Some t) l ->
  returns (index_remove_all l)
    (fun _ self' => index_ok (without l m) self' /\ ttl_ok (txns (without l m)) (txns (without l m)) self' /\
       same_txns self self' /\ ti_timeline_id (timeline_index self') = ti_timeline_id (timeline_index self)) self.
Proof.
  induction l as [|t l IH]; intros m self Hix Httl Hnd Hl; [done|]. cbn in Hnd.
  apply NoDup_cons in Hnd as [Hin Hnd]. apply Forall_cons in Hl as [Ht Hl].
  rewrite lookup_txns in Ht. apply fmap_Some in Ht as (e & He & ->).
  unfold returns. cbn [index_remove_all]. apply safe_bind. eapply safe_mono; [by apply index_remove_ok|].
  intros ? self1 (Hix1 & Hs1 & Httl1 & Hid1). eapply safe_mono; [apply IH; [done| |done|]|].
  - rewrite txns_delete. by apply Httl1.
  - apply Forall_forall. rewrite Forall_forall in Hl. intros t Ht. rewrite txns_delete, lookup_delete_ne; [by apply Hl|].
    intros Heq. apply Hin. rewrite Heq. by apply list_elem_of_fmap_2.
  - cbn. intros ? self2 (? & ? & ? & ?). split_and!; [done|done|by etrans|congruence].
Qed.

(** The transactions of one account. *)
Lemma account_txns m self a t n x :
  txns_ok m self -> transactions self !! a = Some t -> t !! n = Some x <-> txns m !! (a, n) = Some x.
Proof. intros Htx Ht. rewrite <-Htx. unfold get_mempool_txn. by rewrite Ht. Qed.
Lemma no_account_txns m self a n : txns_ok m self -> transactions self !! a = None -> m !! (a, n) = None.
Proof.
  intros Htx Ht. specialize (Htx a n). unfold get_mempool_txn in Htx. rewrite Ht, lookup_txns in Htx. cbn in Htx.
  by destruct (m !! (a, n)).
Qed.
Lemma values_pointers m self a t (P : N * MempoolTransaction -> Prop) `{!forall x, Decision (P x)} :
  txns_ok m self -> pointed (txns m) -> transactions self !! a = Some t ->
  (forall q, q ∈ txn_pointer <$> btree_values (filter P (t : AccountTransactions)) <->
     q.1 = a /\ exists x, P (q.2, x) /\ txns m !! q = Some x) /\
  NoDup (txn_pointer <$> btree_values (filter P t)) /\
  Forall (fun x => txns m !! txn_pointer x = Some x) (btree_values (filter P t)).
Proof.
  intros Htx Hp Ht. assert (forall n x, (n, x) ∈ btree_iter (filter P t) <-> P (n, x) /\ txns m !! (a, n) = Some x) as Hin.
  { intros n x. rewrite elem_of_btree_iter, map_lookup_filter_Some, (account_txns m self) by done. tauto. }
  assert (txn_pointer <$> btree_values (filter P t) = pair a <$> btree_keys (filter P t)) as Heq.
  { unfold btree_values, btree_keys. rewrite <-!list_fmap_compose. apply Forall_fmap_ext_1, Forall_forall.
    intros [n x] [_ Hx]%Hin. cbn. by apply Hp in Hx as [_ ->]. }
  split_and!.
  - intros [b n]. rewrite Heq, list_elem_of_fmap. setoid_rewrite elem_of_btree_keys. split.
    + intros (k & [= -> ->] & x & [Hx HP]%map_lookup_filter_Some). split; [done|]. exists x.
      by rewrite (account_txns m self) in Hx by done.
    + cbn. intros (-> & x & HP & Hx). exists n. split; [done|]. exists x. apply map_lookup_filter_Some.
      by rewrite (account_txns m self) by done.
  - rewrite Heq. apply NoDup_fmap_2; [by intros ?? [=]|apply NoDup_btree_keys].
  - apply Forall_forall. unfold btree_values. intros x ([n y] & -> & [_ Hx]%Hin)%list_elem_of_fmap. cbn.
    by rewrite (proj2 (Hp _ _ Hx)).
Qed.

Definition cleaned (a n : N) m : Pool := filter (fun p => ~ (p.1.1 = a /\ p.1.2 < n)) m.
Lemma lookup_cleaned a n m q e : cleaned a n m !! q = Some e <-> ~ (q.1 = a /\ q.2 < n) /\ m !! q = Some e.
Proof. unfold cleaned. rewrite map_lookup_filter_Some. tauto. Qed.

Lemma clean_committed_ok m self a n :
  represents m self ->
  returns (clean_committed_transactions a n) (fun _ self' => represents (cleaned a n m) self' /\ shrinks self self' /\
    ti_timeline_id (timeline_index self') = ti_timeline_id (timeline_index self)) self.
Proof.
  intros [Htx Hix Httl]. unfold returns, clean_committed_transactions, safe.
  destruct (transactions self !! a) as [t|] eqn:Ht; last first.
  { replace (cleaned a n m) with m; [by split_and!|]. apply map_eq. intros q. apply option_eq. intros e.
    rewrite lookup_cleaned. split; [|tauto]. intros He. split; [|done]. intros [<- _].
    rewrite (surjective_pairing q), (no_account_txns m self) in He by done. done. }
  set (self0 := set_account a _ self). pose proof (ix_pointed _ _ Hix) as Hp.
  destruct (values_pointers m self a t (fun p => ~ n <= p.1) Htx Hp Ht) as (Hin & Hnd & Hall).
  set (l := btree_values (filter (fun p => ~ n <= p.1) t)) in *.
  assert (cleaned a n m = without l m) as ->.
  { apply map_eq. intros q. apply option_eq. intros e. rewrite lookup_cleaned, lookup_without. case_decide as Hq.
    - apply Hin in Hq as (? & x & Hlt & _). cbn in Hlt. split; [|done]. intros [Hnot _]. exfalso. apply Hnot. split; [done|lia].
    - split; [tauto|]. intros He. split; [|done]. intros [Ha Hlt]. apply Hq, Hin. split; [done|]. exists (e_txn e). cbn.
      split; [lia|]. by rewrite lookup_txns, He. }
  assert (same_indexes : index_ok m self0) by (by destruct Hix; split).
  refine (safe_mono _ (index_remove_all l) _ _ self0 (index_remove_all_ok l m self0 same_indexes Httl Hnd Hall) _).
  intros ? self' (Hix' & Httl' & (Htr & Hc & Hu) & Hid). split_and!; [split; [|done|done]| |done].
  - intros b k. rewrite (get_same b k self0 self' Htr). unfold self0. rewrite get_set_account.
    rewrite lookup_txns, lookup_without. case_decide as Hb; [subst b|].
    + apply option_eq. intros x. rewrite map_lookup_filter_Some, (account_txns m self) by done. cbn.
      rewrite lookup_txns. case_decide as Hq.
      * apply Hin in Hq as (_ & y & Hlt & _). cbn in Hlt. naive_solver lia.
      * split; [tauto|]. intros Hx. split; [done|]. destruct (decide (n <= k)); [done|]. exfalso. apply Hq, Hin.
        cbn. split; [done|]. exists x. by rewrite lookup_txns.
    + rewrite Htx, lookup_txns. rewrite decide_False; [done|]. intros [Hb' _]%Hin. done.
  - split_and!; [done|done|]. intros b t' Hb. rewrite Htr in Hb. unfold self0 in Hb. cbn in Hb.
    apply lookup_insert_Some in Hb as [[<- <-]|[_ Hb]]; [|eauto]. exists t. split; [done|].
    apply map_subseteq_size, map_filter_subseteq.
Qed.

Definition rejected (a : N) m : Pool := filter (fun p => p.1.1 <> a) m.
Lemma lookup_rejected a m q e : rejected a m !! q = Some e <-> q.1 <> a /\ m !! q = Some e.
Proof. unfold rejected. rewrite map_lookup_filter_Some. tauto. Qed.

Lemma reject_ok m self a n :
  represents m self ->
  returns (reject_transaction a n) (fun _ self' => represents (rejected a m) self' /\ shrinks self self' /\
    ti_timeline_id (timeline_index self') = ti_timeline_id (timeline_index self)) self.
Proof.
  intros [Htx Hix Httl]. unfold returns, reject_transaction, safe.
  destruct (transactions self !! a) as [t|] eqn:Ht; last first.
  { replace (rejected a m) with m; [by split_and!|]. apply map_eq. intros q. apply option_eq. intros e.
    rewrite lookup_rejected. split; [|tauto]. intros He. split; [|done]. intros <-.
    rewrite (surjective_pairing q), (no_account_txns m self) in He by done. done. }
  set (self0 := set_transactions _ self). pose proof (ix_pointed _ _ Hix) as Hp.
  destruct (values_pointers m self a t (fun _ => True) Htx Hp Ht) as (Hin & Hnd & Hall).
  rewrite map_filter_id in Hin, Hnd, Hall by done. set (l := btree_values t) in *.
  assert (rejected a m = without l m) as ->.
  { apply map_eq. intros q. apply option_eq. intros e. rewrite lookup_rejected, lookup_without. case_decide as Hq.
    - apply Hin in Hq as (? & _). naive_solver.
    - split; [tauto|]. intros He. split; [|done]. intros Ha. apply Hq, Hin. split; [done|]. exists (e_txn e).
      by rewrite lookup_txns, He. }
  assert (same_indexes : index_ok m self0) by (by destruct Hix; split).
  refine (safe_mono _ (index_remove_all l) _ _ self0 (index_remove_all_ok l m self0 same_indexes Httl Hnd Hall) _).
  intros ? self' (Hix' & Httl' & (Htr & Hc & Hu) & Hid). split_and!; [split; [|done|done]| |done].
  - intros b k. rewrite (get_same b k self0 self' Htr), lookup_txns, lookup_without.
    unfold get_mempool_txn, self0. cbn. destruct (decide (a = b)) as [<-|Hb].
    + rewrite lookup_delete_eq. cbn. case_decide as Hq; [done|]. destruct (m !! (a, k)) as [e|] eqn:He; [|done].
      exfalso. apply Hq, Hin. split; [done|]. exists (e_txn e). by rewrite lookup_txns, He.
    + rewrite lookup_delete_ne by done. rewrite decide_False by (by intros [? _]%Hin). rewrite <-lookup_txns. apply Htx.
  - split_and!; [done|done|]. intros b t' Hb. rewrite Htr in Hb. cbn in Hb. apply lookup_delete_Some in Hb as [_ Hb]. eauto.
Qed.

(** ** Promotion of several transactions *)

(** The timeline ids that may still be given out: one for each transaction that waits. *)
Definition waiting (p : TxnPointer * Entry) : Prop := mt_timeline_state (e_txn p.2) = NotReady.
#[global] Instance waiting_dec p : Decision (waiting p).
Proof. unfold waiting. apply _. Defined.
Definition budget m (id : N) : N := id + N.of_nat (size (filter waiting m)).
Definition narrow m : Prop := forall q e, m !! q = Some e -> q.2 < u64_max.

Record promotes (R : TxnPointer -> Prop) m m' : Prop := {
  pm_in q e : m !! q = Some e -> R q -> exists id, m' !! q = Some (promoted id e);
  pm_out q : ~ R q -> m' !! q = m !! q;
  pm_none q : m !! q = None -> m' !! q = None;
}.

Lemma promotes_none R m : (forall q, ~ R q) -> promotes R m m.
Proof. intros HR. split; [intros q e _ []%HR|done|done]. Qed.
Lemma promotes_step (R R' : TxnPointer -> Prop) m m' q e id :
  m !! q = Some e -> ~ R q -> promotes R (<[q := promoted id e]> m) m' ->
  (forall q', R' q' <-> q' = q \/ R q') -> promotes R' m m'.
Proof.
  intros He Hq [Hin Hout Hno] HR. split.
  - intros q' x Hx [->|Hr]%HR.
    + exists id. rewrite Hout by done. rewrite lookup_insert_eq. congruence.
    + apply Hin; [|done]. rewrite lookup_insert_ne by (by intros <-). done.
  - intros q' Hn. rewrite Hout by (intros ?; apply Hn, HR; auto). apply lookup_insert_ne. intros <-. apply Hn, HR. auto.
  - intros q' Hn. apply Hno. rewrite lookup_insert_ne by (intros <-; congruence). done.
Qed.
Lemma promotes_dom R m m' : promotes R m m' -> forall q, is_Some (m' !! q) <-> is_Some (m !! q).
Proof.
  intros [Hin Hout Hno] q. split; [|intros [e He]].
  - intros Hs. destruct (m !! q) eqn:He; [eauto|]. rewrite Hno in Hs by done. done.
  - destruct (decide (m' !! q = None)) as [Hn|Hn]; [|by apply not_eq_None_Some].
    assert (~ R q) as Hr by (intros Hr; destruct (Hin _ _ He Hr); congruence). rewrite Hout by done. eauto.
Qed.

Lemma budget_promoted m q e id : m !! q = Some e ->
  budget (<[q := promoted id e]> m) (next_id id e) = budget m id /\ next_id id e <= budget m id.
Proof.
  intros He. unfold budget, next_id, promoted. case_decide as Hs.
  - assert (size (filter waiting m) = S (size (filter waiting (delete q m)))) as Hsz.
    { rewrite <-(insert_delete_id m q e He) at 1. rewrite map_filter_insert_True by done.
      apply map_size_insert_None. by rewrite map_lookup_filter, lookup_delete_eq. }
    rewrite map_filter_insert_False by (unfold waiting; cbn; done). lia.
  - assert (filter waiting (<[q := mkEntry (e_txn e) true (e_announced e) false]> m) = filter waiting m) as ->; [|lia].
    rewrite map_filter_insert_False by done. apply map_filter_delete_not. intros x. unfold waiting. cbn. congruence.
Qed.
Lemma narrow_update m q e e' : narrow m -> m !! q = Some e -> narrow (<[q := e']> m).
Proof. intros Hn He q' x [[<- <-]|[_ Hx]]%lookup_insert_Some; by eapply Hn. Qed.
End store_lemmas.
