(* ===== verification/MempoolSteps.v ===== *)
(** * The steps of the transaction store on the map it stands for

    What [process_ready_transactions], the removal and collection of transactions, and
    their insertion do. *)

From S2P Require Import Prelude Crypto Errors Position Accumulator Verifier Ledger ConsensusTypes Blocks TransactionProofs MempoolIndex MempoolIndexLemmas MempoolStore MempoolSpec.

(** Entries changed where they are. *)
Definition update_where (f : TxnPointer -> Entry -> Entry) (m : Pool) : Pool := map_imap (fun q e => Some (f q e)) m.
Lemma lookup_update_where f m q : update_where f m !! q = f q <$> m !! q.
Proof. unfold update_where. rewrite map_lookup_imap. by destruct (m !! q). Qed.

Definition is_ready (e : Entry) : bool := match mt_timeline_state (e_txn e) with Ready _ => true | _ => false end.
Definition park_where (P : TxnPointer -> Prop) `{!forall q, Decision (P q)} (m : Pool) : Pool :=
  update_where (fun q e => if decide (P q) then if is_ready e then e else parked e else e) m.

Abbreviation counter self := (ti_timeline_id (timeline_index self)).

Section ready.
Context `{CryptoHash Transaction}.
Implicit Types (m : Pool) (self : TransactionStore) (q : TxnPointer) (e : Entry).
Import TransactionStore.

(** The counter of the timeline only grows, and an entry with an earlier id is announced
    only if it was before, with the same transaction. *)
Definition announces c m c' m' : Prop :=
  c <= c' /\ forall q e id, m' !! q = Some e -> e_announced e = true -> mt_timeline_state (e_txn e) = Ready id -> id < c ->
    exists x, m !! q = Some x /\ e_announced x = true /\ mt_timeline_state (e_txn x) = Ready id /\
      mt_txn (e_txn x) = mt_txn (e_txn e).
Lemma announces_refl c m : announces c m c m.
Proof. split; [done|]. eauto 10. Qed.
Lemma announces_trans c1 m1 c2 m2 c3 m3 : announces c1 m1 c2 m2 -> announces c2 m2 c3 m3 -> announces c1 m1 c3 m3.
Proof.
  intros [Hc1 H1] [Hc2 H2]. split; [lia|]. intros q e id He Ha Hid Hlt.
  destruct (H2 q e id He Ha Hid) as (x & Hx & Hax & Hidx & <-); [lia|]. by eapply H1.
Qed.
Lemma announces_sub c m m' : (forall q e, m' !! q = Some e -> e_announced e = true -> exists x, m !! q = Some x /\
    e_announced x = true /\ e_txn x = e_txn e) -> announces c m c m'.
Proof. intros Hs. split; [done|]. intros q e id He Ha Hid _. destruct (Hs q e He Ha) as (x & ? & ? & Hx). exists x. by rewrite Hx. Qed.
Lemma announces_subseteq c m m' : m' ⊆ m -> announces c m c m'.
Proof. intros Hs. apply announces_sub. intros q e He Ha. exists e. split; [by eapply lookup_weaken|done]. Qed.

(** What is kept by operations that neither add nor forget transactions. *)
Record steady m self m' self' : Prop := {
  sd_represents : represents m' self';
  sd_shrinks : shrinks self self';
  sd_budget : budget m' (ti_timeline_id (timeline_index self')) = budget m (ti_timeline_id (timeline_index self));
  sd_dom q : is_Some (m' !! q) <-> is_Some (m !! q);
  sd_announces : announces (counter self) m (counter self') m';
}.

Lemma steady_refl m self : represents m self -> steady m self m self.
Proof. intros Hr. split; [done|done|done|done|apply announces_refl]. Qed.
Lemma steady_trans m1 s1 m2 s2 m3 s3 : steady m1 s1 m2 s2 -> steady m2 s2 m3 s3 -> steady m1 s1 m3 s3.
Proof.
  intros [? ? ? Hd1 ?] [? ? ? Hd2 ?]. split; [done|by etrans|congruence| |by eapply announces_trans]. intros q. by rewrite Hd2.
Qed.
Lemma steady_narrow m self m' self' : steady m self m' self' -> narrow m -> narrow m'.
Proof. intros Hs Hn q e He. destruct (proj1 (sd_dom _ _ _ _ Hs q)) as [x Hx]; [eauto|]. by eapply Hn. Qed.
Lemma dom_update m q e e' q' : m !! q = Some e -> is_Some (<[q := e']> m !! q') <-> is_Some (m !! q').
Proof. intros He. rewrite lookup_insert_is_Some. destruct (decide (q = q')) as [<-|]; naive_solver. Qed.

Lemma promote_steady m self a n e :
  represents m self -> m !! (a, n) = Some e -> budget m (ti_timeline_id (timeline_index self)) <= u64_max ->
  returns (promote a n (e_txn e)) (fun _ self' => exists id, steady m self (<[(a, n) := promoted id e]> m) self') self.
Proof.
  intros Hr He Hb. set (id := ti_timeline_id (timeline_index self)) in *.
  destruct (budget_promoted m (a, n) e id He) as [Hb1 Hb2].
  eapply safe_mono; [apply promote_ok; [done|done|fold id; lia]|]. cbn. fold id.
  intros ? self' (Hr' & Hs & Hid). exists id. split; [done|done|by rewrite Hid|intros q; by apply dom_update with e|].
  rewrite Hid. fold id. split; [unfold next_id; case_decide; lia|].
  intros q x i [[<- <-]|[_ Hx]]%lookup_insert_Some Ha Hi Hlt; [|by exists x]. revert Ha Hi. unfold promoted.
  case_decide; cbn; [intros _ [= <-]; lia|by exists e].
Qed.

(** How many transactions of an account are left from a sequence number on. *)
Definition left_from (a n : N) m : gset TxnPointer := filter (fun q => q.1 = a /\ n <= q.2) (dom m).
Lemma left_from_step a n m m' : is_Some (m !! (a, n)) -> dom m' = dom m ->
  (size (left_from a (n + 1) m') < size (left_from a n m))%nat.
Proof.
  intros Hs Hd. apply subset_size. unfold left_from. rewrite Hd. split.
  - intros q. rewrite !elem_of_filter. intros [[-> ?] ?]. split; [|done]. split; [done|lia].
  - intros Hsub. specialize (Hsub (a, n)). rewrite !elem_of_filter in Hsub. cbn in Hsub.
    destruct Hsub as [[_ ?] _]; [|lia]. split; [done|]. by apply elem_of_dom.
Qed.

Lemma promote_sequential_ok fuel : forall m self a n,
  represents m self -> budget m (ti_timeline_id (timeline_index self)) <= u64_max -> narrow m ->
  (size (left_from a n m) <= fuel)%nat ->
  returns (promote_sequential fuel a n) (fun k self' => exists m', steady m self m' self' /\ n <= k /\
    (forall j, n <= j < k -> is_Some (m !! (a, j))) /\ m !! (a, k) = None /\
    promotes (fun q => q.1 = a /\ n <= q.2 < k) m m') self.
Proof.
  induction fuel as [|fuel IH]; intros m self a n Hr Hb Hn Hf; unfold returns; cbn [promote_sequential].
  all: apply safe_bind, safe_gets; rewrite (rp_txns _ _ Hr), lookup_txns.
  all: destruct (m !! (a, n)) as [e|] eqn:He; cbn [fmap option_fmap option_map];
    [|apply safe_ret; exists m; split_and!; [by apply steady_refl|done|lia|done|apply promotes_none; lia]].
  - exfalso. assert ((a, n) ∈ left_from a n m) as Hin.
    { unfold left_from. apply elem_of_filter. cbn. split; [done|]. apply elem_of_dom. eauto. }
    assert (left_from a n m = ∅) as H0 by (apply leibniz_equiv, size_empty_iff; lia). rewrite H0 in Hin. by apply not_elem_of_empty in Hin.
  - apply safe_bind. eapply safe_mono; [by apply promote_steady|]. intros ? self1 [id Hs1].
    assert (add64 n 1 = Ok (n + 1)) as -> by (apply (add64_Ok (E := AnyError)); pose proof (Hn _ _ He); cbn in *; lia).
    apply safe_bind, safe_lift. eapply safe_mono; [apply IH|].
    + apply Hs1.
    + by rewrite (sd_budget _ _ _ _ Hs1).
    + by apply narrow_update with e.
    + enough (size (left_from a (n + 1) (<[(a, n) := promoted id e]> m)) < size (left_from a n m))%nat by lia.
      apply left_from_step; [eauto|]. apply set_eq. intros q. rewrite !elem_of_dom. by apply dom_update with e.
    + intros k self2 (m2 & Hs2 & Hk & Hall & Hno & Hpm). exists m2. split_and!.
      * by eapply steady_trans.
      * lia.
      * intros j Hj. destruct (decide (j = n)) as [->|]; [eauto|]. rewrite <-(dom_update m (a, n) e (promoted id e)) by done.
        apply Hall. lia.
      * rewrite lookup_insert_ne in Hno by (intros [=]; lia). done.
      * eapply promotes_step; [done| |done|]; [cbn; lia|]. intros [b j]. cbn. split.
        -- intros [-> ?]. destruct (decide (j = n)) as [->|]; [by left|right; lia].
        -- intros [[= -> ->]|[-> ?]]; lia.
Qed.

Lemma promote_window_ok l : forall m self a k,
  represents m self -> budget m (ti_timeline_id (timeline_index self)) <= u64_max -> NoDup l ->
  returns (promote_window a l k) (fun k' self' => exists m', steady m self m' self' /\ (k' = k \/ k' ∈ l) /\
    promotes (fun q => q.1 = a /\ q.2 ∈ l) m m') self.
Proof.
  induction l as [|i l IH]; intros m self a k Hr Hb Hnd; unfold returns; cbn [promote_window].
  { apply safe_ret. exists m. split; [by apply steady_refl|]. split; [by left|]. apply promotes_none. set_solver. }
  apply NoDup_cons in Hnd as [Hi Hnd].
  apply safe_bind, safe_gets. rewrite (rp_txns _ _ Hr), lookup_txns.
  destruct (m !! (a, i)) as [e|] eqn:He; cbn [fmap option_fmap option_map].
  - apply safe_bind. eapply safe_mono; [by apply promote_steady|]. intros ? self1 [id Hs1].
    eapply safe_mono; [apply IH; [apply Hs1|by rewrite (sd_budget _ _ _ _ Hs1)|done]|].
    intros k' self2 (m2 & Hs2 & Hk' & Hpm). exists m2. split; [by eapply steady_trans|].
    split; [right; rewrite elem_of_cons; tauto|]. eapply promotes_step; [done| |done|]; [cbn; tauto|]. intros [b j]. cbn. rewrite elem_of_cons. naive_solver.
  - eapply safe_mono; [by apply IH|]. intros k' self2 (m2 & Hs2 & Hk' & Hpm). exists m2. split; [done|].
    split; [rewrite elem_of_cons; tauto|].
    destruct Hpm as [Hin Hout Hno]. split; [|intros q Hq; apply Hout; set_solver|done].
    intros [b j] x Hx [Hb' Hj]. cbn in Hb', Hj. subst b. apply elem_of_cons in Hj as [->|Hj]; [congruence|]. by apply Hin.
Qed.

(** ** Parking of several transactions *)
Lemma size_dom_eq m m' : (forall q, is_Some (m' !! q) <-> is_Some (m !! q)) -> size m' = size m.
Proof.
  intros Hd. rewrite <-!size_dom. f_equal. apply set_eq. intros q. rewrite !elem_of_dom. apply Hd.
Qed.
Lemma budget_update m q e e' id : m !! q = Some e -> e_txn e' = e_txn e -> budget (<[q := e']> m) id = budget m id.
Proof.
  intros He Ht. unfold budget. do 2 f_equal. apply size_dom_eq. intros q'. rewrite !map_lookup_filter.
  destruct (decide (q = q')) as [<-|Hne]; [rewrite lookup_insert_eq, He|by rewrite lookup_insert_ne]. cbn.
  unfold guard. repeat case_decide; unfold waiting in *; cbn in *; rewrite ?Ht in *; cbn; naive_solver.
Qed.

Lemma park_steady m self q e :
  represents m self -> m !! q = Some e -> N.of_nat (size m) <= u64_max ->
  returns (park (e_txn e)) (fun _ self' => steady m self (<[q := parked e]> m) self') self.
Proof.
  intros [Htx Hix Httl] He Hsz. eapply safe_mono; [by apply parked_ok|]. intros [] self' [Hix' Hk].
  pose proof Hk as (Hst & _ & _ & Hid). split; [split; [|done|]|by apply same_txns_shrinks| | |].
  - intros a n. rewrite (txns_remark m q e) by done. by rewrite (get_same a n self self') by apply Hst.
  - rewrite (txns_remark m q e) by done. by apply ttl_ok_keeps with self.
  - rewrite Hid. by apply budget_update with e.
  - intros q'. by apply dom_update with e.
  - rewrite Hid. apply announces_sub. intros q' x [[<- <-]|[_ Hx]]%lookup_insert_Some Ha; [by exists e|by exists x].
Qed.

Lemma park_where_cons q e m (P P' : TxnPointer -> Prop) `{!forall q, Decision (P q)} `{!forall q, Decision (P' q)} m1 :
  m !! q = Some e -> (forall q', P' q' <-> q' = q \/ P q') ->
  m1 = (if is_ready e then m else <[q := parked e]> m) -> park_where P m1 = park_where P' m.
Proof.
  intros He HP ->. apply map_eq. intros q'. unfold park_where. rewrite !lookup_update_where.
  destruct (decide (q = q')) as [<-|Hne].
  - rewrite He. cbn. rewrite (decide_True (P := P' q)) by (apply HP; auto). destruct (is_ready e) eqn:Hr.
    + rewrite He. cbn. rewrite Hr. by destruct (decide (P q)).
    + rewrite lookup_insert_eq. cbn. unfold is_ready, parked in *. cbn. rewrite Hr. by destruct (decide (P q)).
  - assert ((if is_ready e then m else <[q := parked e]> m) !! q' = m !! q') as ->.
    { destruct (is_ready e); [done|]. by rewrite lookup_insert_ne. }
    destruct (m !! q'); cbn; [|done]. f_equal. apply decide_ext. rewrite HP. naive_solver.
Qed.

Lemma park_all_ok l : forall m self,
  represents m self -> Forall (fun t => txns m !! txn_pointer t = Some t) l -> N.of_nat (size m) <= u64_max ->
  returns (park_all l) (fun _ self' => steady m self (park_where (fun q => q ∈ txn_pointer <$> l) m) self') self.
Proof.
  induction l as [|t l IH]; intros m self Hr Hl Hsz; unfold returns; cbn [park_all].
  { apply safe_ret. replace (park_where _ m) with m; [by apply steady_refl|]. apply map_eq. intros q.
    unfold park_where. rewrite lookup_update_where. destruct (m !! q); cbn; [|done]. rewrite decide_False; [done|].
    apply not_elem_of_nil. }
  apply Forall_cons in Hl as [Ht Hl]. rewrite lookup_txns in Ht. apply fmap_Some in Ht as (e & He & ->).
  set (m1 := if is_ready e then m else <[txn_pointer (e_txn e) := parked e]> m).
  apply safe_bind, safe_mono with (fun _ self' => steady m self m1 self').
  - unfold m1, is_ready. destruct (mt_timeline_state (e_txn e)); [by apply steady_refl|by apply park_steady..].
  - intros ? self1 Hs1. eapply safe_mono; [apply (IH m1)|].
    + apply Hs1.
    + rewrite Forall_forall in Hl. apply Forall_forall. intros t Ht. unfold m1. destruct (is_ready e); [by apply Hl|].
      rewrite (txns_remark m _ e) by done. by apply Hl.
    + by rewrite (size_dom_eq m) by apply Hs1.
    + intros ? self2 Hs2. erewrite (park_where_cons _ e m) in Hs2; [by eapply steady_trans|done| |done].
      intros q'. rewrite fmap_cons. apply elem_of_cons.
Qed.

Lemma txns_between_pointers m self a t start end_ :
  txns_ok m self -> pointed (txns m) -> transactions self !! a = Some t ->
  (forall q, q ∈ txn_pointer <$> txns_between start end_ t <-> q.1 = a /\ within start end_ q.2 /\ is_Some (m !! q)) /\
  Forall (fun x => txns m !! txn_pointer x = Some x) (txns_between start end_ t).
Proof.
  intros Htx Hp Ht. assert (forall x, x ∈ txns_between start end_ t <->
    txn_sender (mt_txn x) = a /\ within start end_ (txn_pointer x).2 /\ txns m !! txn_pointer x = Some x) as Hin.
  { intros x. unfold txns_between. rewrite list_elem_of_fmap. setoid_rewrite list_elem_of_filter. split.
    - intros ([n y] & -> & Hw & Hy%elem_of_btree_iter). cbn [fst snd] in *. rewrite (account_txns m self) in Hy by done.
      destruct (Hp _ _ Hy) as [_ Hpt]. rewrite Hpt. split_and!; [|done|done]. by injection Hpt.
    - intros (Ha & Hw & Hx). exists ((txn_pointer x).2, x). split_and!; [done|done|]. apply elem_of_btree_iter.
      rewrite (account_txns m self) by done. rewrite <-Ha. exact Hx. }
  split; [|apply Forall_forall; intros x Hx; by apply Hin]. intros q. rewrite list_elem_of_fmap. setoid_rewrite Hin. split.
  - intros (x & -> & Ha & Hw & Hx). split_and!; [done|done|]. rewrite lookup_txns in Hx. by destruct (m !! txn_pointer x).
  - intros (<- & Hw & e & He). destruct (pointed_at _ _ _ Hp He) as [Hraw Hq]. exists (e_txn e). rewrite Hq.
    split_and!; [done|by rewrite <-Hraw|done|]. by rewrite lookup_txns, He.
Qed.

(** ** [process_ready_transactions] *)
Lemma park_where_ext (P P' : TxnPointer -> Prop) `{!forall q, Decision (P q)} `{!forall q, Decision (P' q)} m :
  (forall q, is_Some (m !! q) -> P q <-> P' q) -> park_where P m = park_where P' m.
Proof.
  intros HP. apply map_eq. intros q. unfold park_where. rewrite !lookup_update_where.
  destruct (m !! q) eqn:He; cbn; [|done]. f_equal. apply decide_ext, HP. eauto.
Qed.

Lemma park_rest_ok m self a k :
  represents m self -> N.of_nat (size m) <= u64_max ->
  returns (txns ← gets (fun self => Ok (default ∅ (transactions self !! a))); park_all (txns_between k None txns))
    (fun _ self' => steady m self (park_where (fun q => q.1 = a /\ k < q.2) m) self') self.
Proof.
  intros Hr Hsz. apply safe_bind, safe_gets. destruct (transactions self !! a) as [t|] eqn:Ht; cbn [default from_option id].
  - destruct (txns_between_pointers m self a t k None (rp_txns _ _ Hr) (ix_pointed _ _ (rp_index _ _ Hr)) Ht) as [Hin Hall].
    eapply safe_mono; [by apply park_all_ok|]. cbn. intros ? self' Hs. erewrite park_where_ext; [exact Hs|].
    intros q Hq. rewrite Hin. unfold within. rewrite andb_true_r. destruct (N.ltb_spec k q.2); cbn; naive_solver lia.
  - replace (park_where _ m) with m; [by apply steady_refl|]. apply map_eq. intros q.
    unfold park_where. rewrite lookup_update_where. destruct (m !! q) eqn:He; cbn; [|done]. rewrite decide_False; [done|].
    intros [<- _]. pose proof (no_account_txns m self _ q.2 (rp_txns _ _ Hr) Ht) as Hno. destruct q. cbn in *. congruence.
Qed.

(** The transactions that become ready, and where the run of ready transactions ends. *)
Definition becomes_ready (a : N) (info : AccountSequenceInfo) (k : N) q : Prop :=
  q.1 = a /\ match info with
            | Sequential n => n <= q.2 < k
            | CRSN min_nonce size => min_nonce <= q.2 < size
            end.
#[global] Instance becomes_ready_dec a info k q : Decision (becomes_ready a info k q).
Proof. unfold becomes_ready. destruct info; apply _. Defined.
Definition run_end (a : N) (info : AccountSequenceInfo) (k : N) m : Prop :=
  match info with
  | Sequential n => n <= k /\ (forall j, n <= j < k -> is_Some (m !! (a, j))) /\ m !! (a, k) = None
  | CRSN min_nonce _ => min_nonce <= k
  end.

Lemma NoDup_count_from a k : NoDup (count_from a k).
Proof.
  revert a. induction k as [|k IH]; intros a; cbn [count_from]; constructor; [|done]. rewrite elem_of_count_from. lia.
Qed.

Lemma left_from_account m self a n t :
  txns_ok m self -> transactions self !! a = Some t -> (size (left_from a n m) <= size (t : AccountTransactions))%nat.
Proof.
  intros Htx Ht. assert (size t = length (pair a <$> (map_to_list t).*1)) as ->
    by (by rewrite !length_fmap, length_map_to_list).
  rewrite <-(size_list_to_set (C := gset TxnPointer)) by (apply NoDup_fmap_2; [by intros ?? [=]|apply NoDup_fst_map_to_list]).
  apply subseteq_size. intros [b k]. unfold left_from. rewrite elem_of_filter, elem_of_list_to_set, list_elem_of_fmap. cbn.
  intros [[-> _] [e He]%elem_of_dom]. exists k. split; [done|]. apply list_elem_of_fmap. exists (k, e_txn e).
  split; [done|]. apply elem_of_map_to_list. apply (account_txns m self a); [done|done|]. by rewrite lookup_txns, He.
Qed.

Lemma process_ready_ok m self a info :
  represents m self -> budget m (ti_timeline_id (timeline_index self)) <= u64_max -> narrow m ->
  N.of_nat (size m) <= u64_max ->
  returns (process_ready_transactions a info) (fun _ self' => exists k m1,
    promotes (becomes_ready a info k) m m1 /\ run_end a info k m /\
    steady m self (park_where (fun q => q.1 = a /\ k < q.2) m1) self') self.
Proof.
  intros Hr Hb Hn Hsz. unfold returns, process_ready_transactions, safe.
  destruct (transactions self !! a) as [t|] eqn:Ht; last first.
  { assert (forall q, q.1 = a -> m !! q = None) as Hno.
    { intros [b k] <-. apply (no_account_txns m self); [apply Hr|done]. }
    exists (min_seq info), m. split_and!.
    - split; [|done|done]. intros q e He [Ha _]. by rewrite Hno in He.
    - destruct info; cbn; [|done]. split_and!; [done|lia|by apply Hno].
    - replace (park_where _ m) with m; [by apply steady_refl|]. apply map_eq. intros q. unfold park_where.
      rewrite lookup_update_where. destruct (m !! q) eqn:He; cbn; [|done]. rewrite decide_False; [done|].
      intros [Ha _]. by rewrite Hno in He. }
  refine (safe_bind _ _ _ _ self _).
  apply safe_mono with (fun k self' => exists m1, steady m self m1 self' /\
    promotes (becomes_ready a info k) m m1 /\ run_end a info k m).
  - destruct info as [n|min_nonce size0]; cbn [becomes_ready run_end].
    + eapply safe_mono; [apply (promote_sequential_ok _ m); [done|done|done|apply (left_from_account m self); [apply Hr|done]]|].
      intros k self' (m1 & ? & ? & ? & ? & ?). exists m1. done.
    + eapply safe_mono; [apply (promote_window_ok _ m); [done|done|apply NoDup_count_from]|].
      intros k self' (m1 & ? & Hk & [Hin Hout Hno]). exists m1. split_and!; [done| |rewrite elem_of_count_from in Hk; lia].
      split; [| |done].
      * intros q e He [Ha Hw]. apply (Hin q e He). split; [done|]. rewrite elem_of_count_from. lia.
      * intros q Hq. apply Hout. rewrite elem_of_count_from. intros [Ha Hw]. apply Hq. split; [done|lia].
  - intros k self1 (m1 & Hs1 & Hpm & Hend). eapply safe_mono; [apply (park_rest_ok m1 self1 a k); [apply Hs1|]|].
    + by rewrite (size_dom_eq m) by apply Hs1.
    + intros ? self2 Hs2. exists k, m1. split_and!; [done|done|]. by eapply steady_trans.
Qed.
End ready.

(** ** Removal of single transactions, and garbage collection *)
Definition demote_where (P : TxnPointer -> Prop) `{!forall q, Decision (P q)} (m : Pool) : Pool :=
  update_where (fun q e => if decide (P q) then demoted e else e) m.

(** ** What a collection does

    [q] comes before [q'] in the order in which expired transactions are handled. *)
Definition ptr_before (q q' : TxnPointer) : Prop := q.1 < q'.1 \/ q.1 = q'.1 /\ q.2 < q'.2.

Definition follows (l : list TxnPointer) (q : TxnPointer) : Prop := Exists (fun p => p.1 = q.1 /\ p.2 < q.2) l.
#[global] Instance follows_dec l q : Decision (follows l q).
Proof. unfold follows. apply _. Defined.

(** The transactions of [l] go, those that follow one of them in its account are parked. *)
Definition collected (l : list TxnPointer) (m : Pool) : Pool :=
  map_imap (fun q e => if decide (q ∈ l) then None else Some (if decide (follows l q) then demoted e else e)) m.
Lemma lookup_collected l m q :
  collected l m !! q = if decide (q ∈ l) then None else (fun e => if decide (follows l q) then demoted e else e) <$> m !! q.
Proof. unfold collected. rewrite map_lookup_imap. destruct (m !! q); cbn; by repeat case_decide. Qed.

(** The same in the order of the loop. *)
Definition park_range (q : TxnPointer) (next : option TxnPointer) (q' : TxnPointer) : Prop :=
  q'.1 = q.1 /\ q.2 < q'.2 /\ match next with Some p => p.1 = q.1 -> q'.2 < p.2 | None => True end.
#[global] Instance park_range_dec q next q' : Decision (park_range q next q').
Proof. unfold park_range. destruct next; apply _. Defined.
Fixpoint collect_loop (l : list TxnPointer) (m : Pool) : Pool :=
  match l with
  | [] => m
  | q :: l => collect_loop l (delete q (demote_where (park_range q (head l)) m))
  end.

Lemma demote_demote (P Q R : TxnPointer -> Prop) `{!forall q, Decision (P q)} `{!forall q, Decision (Q q)} `{!forall q, Decision (R q)} q (o : option Entry) :
  (R q <-> P q \/ Q q) ->
  (fun e => if decide (P q) then demoted e else e) <$> ((fun e => if decide (Q q) then demoted e else e) <$> o) =
  (fun e => if decide (R q) then demoted e else e) <$> o.
Proof. intros HR. destruct o as [e|]; cbn; [|done]. f_equal. repeat case_decide; try done; tauto. Qed.

Lemma collect_loop_spec l : forall m, StronglySorted ptr_before l -> collect_loop l m = collected l m.
Proof.
  induction l as [|p l IH]; intros m Hs; cbn [collect_loop].
  { apply map_eq. intros q. rewrite lookup_collected, decide_False by apply not_elem_of_nil. destruct (m !! q); cbn; [|done].
    rewrite decide_False; [done|]. by intros ?%Exists_nil. }
  apply StronglySorted_inv in Hs as [Hs Hp]. rewrite Forall_forall in Hp. rewrite IH by done. apply map_eq. intros q.
  rewrite !lookup_collected. destruct (decide (q = p)) as [->|Hne].
  { rewrite lookup_delete_eq, (decide_True (P := p ∈ p :: l)) by (by left). by case_decide. }
  rewrite lookup_delete_ne by done. unfold demote_where. rewrite lookup_update_where.
  destruct (decide (q ∈ l)) as [Hq|Hq]; [by rewrite decide_True by (by right)|].
  rewrite (decide_False (P := q ∈ p :: l)) by (rewrite elem_of_cons; tauto).
  apply demote_demote. unfold follows, park_range. rewrite Exists_cons. split.
  - intros [[Ha Hlt]|Hf]; [|by left]. destruct (decide (Exists (fun p => p.1 = q.1 /\ p.2 < q.2) l)) as [|Hno]; [by left|right].
    split_and!; [done|done|]. destruct l as [|p' l]; cbn; [done|]. intros Ha'.
    rewrite Exists_cons in Hno. destruct (N.lt_trichotomy q.2 p'.2) as [|[Heq|]]; [done| |].
    + exfalso. apply Hq, elem_of_cons. left. destruct q, p'. cbn in *. congruence.
    + exfalso. apply Hno. left. split; [congruence|done].
  - intros [Hf|(Ha & Hlt & _)]; [by right|left]. done.
Qed.

Section gc.
Context `{CryptoHash Transaction}.
Implicit Types (m : Pool) (self : TransactionStore) (q : TxnPointer) (e : Entry).
Import TransactionStore.

(** ** One transaction *)
Lemma get_remove_txn a n b k self :
  get_mempool_txn b k (remove_txn a n self) = if decide ((b, k) = (a, n)) then None else get_mempool_txn b k self.
Proof.
  unfold remove_txn. destruct (transactions self !! a) as [t|] eqn:Ht.
  - rewrite get_set_account. unfold get_mempool_txn. case_decide as Hb; [subst b; rewrite Ht; cbn|].
    + case_decide as Hk; [injection Hk as ->; by rewrite lookup_delete_eq|]. by rewrite lookup_delete_ne by congruence.
    + rewrite decide_False; [done|]. congruence.
  - case_decide as Hb; [|done]. injection Hb as -> ->. unfold get_mempool_txn. by rewrite Ht.
Qed.
Lemma remove_txn_shrinks a n self : shrinks self (remove_txn a n self).
Proof.
  unfold remove_txn. destruct (transactions self !! a) as [t|] eqn:Ht; [|done]. split_and!; [done|done|].
  intros b t'. cbn. intros [[<- <-]|[_ Hb]]%lookup_insert_Some; [|eauto]. exists t. split; [done|].
  apply map_subseteq_size, delete_subseteq.
Qed.

Lemma remove_one_ok m self a n e :
  txns_ok m self -> index_ok m self -> m !! (a, n) = Some e ->
  returns (_ ← puts (remove_txn a n); index_remove (e_txn e)) (fun _ self' =>
    txns_ok (delete (a, n) m) self' /\ index_ok (delete (a, n) m) self' /\ shrinks self self' /\
    (forall c s, c ⊆ txns m -> s ⊆ txns m -> ttl_ok c s self -> ttl_ok (delete (a, n) c) (delete (a, n) s) self') /\
    ti_timeline_id (timeline_index self') = ti_timeline_id (timeline_index self)) self.
Proof.
  intros Htx Hix He. apply safe_bind, safe_puts.
  assert (index_ok m (remove_txn a n self)) as Hix0.
  { unfold remove_txn. destruct (transactions self !! a); [|done]. by destruct Hix; split. }
  eapply safe_mono; [by apply (index_remove_ok m)|]. intros [] self' (Hix' & Hst & Httl & Hid). split_and!; [|done| | |].
  - intros b k. rewrite (get_same _ _ (remove_txn a n self)) by apply Hst. rewrite get_remove_txn, txns_delete.
    case_decide as Hq; [rewrite Hq; by rewrite lookup_delete_eq|]. by rewrite lookup_delete_ne.
  - etrans; [apply remove_txn_shrinks|by apply same_txns_shrinks].
  - intros c s Hc Hs Ht. apply Httl; [done|done|]. unfold remove_txn. by destruct (transactions self !! a).
  - rewrite Hid. unfold remove_txn. by destruct (transactions self !! a).
Qed.

(** ** The loop *)
Lemma txns_demote_where P `{!forall q, Decision (P q)} m : txns (demote_where P m) = txns m.
Proof.
  apply map_eq. intros q. unfold demote_where. rewrite !lookup_txns, lookup_update_where.
  destruct (m !! q); cbn; [|done]. by case_decide.
Qed.
Lemma size_demote_where P `{!forall q, Decision (P q)} m : size (demote_where P m) = size m.
Proof. rewrite <-(map_size_fmap e_txn (demote_where P m)), <-(map_size_fmap e_txn m). f_equal. apply txns_demote_where. Qed.

Lemma demote_where_cons q e m (P P' : TxnPointer -> Prop) `{!forall q, Decision (P q)} `{!forall q, Decision (P' q)} :
  m !! q = Some e -> (forall q', P' q' <-> q' = q \/ P q') -> demote_where P (<[q := demoted e]> m) = demote_where P' m.
Proof.
  intros He HP. apply map_eq. intros q'. unfold demote_where. rewrite !lookup_update_where.
  destruct (decide (q = q')) as [<-|Hne].
  - rewrite lookup_insert_eq, He. cbn. rewrite (decide_True (P := P' q)) by (apply HP; auto). by case_decide.
  - rewrite lookup_insert_ne by done. destruct (m !! q'); cbn; [|done]. f_equal. apply decide_ext. rewrite HP. naive_solver.
Qed.

Lemma gc_park_ok l : forall m self,
  index_ok m self -> Forall (fun t => txns m !! txn_pointer t = Some t) l -> N.of_nat (size m) <= u64_max ->
  returns (gc_park l) (fun _ self' => index_ok (demote_where (fun q => q ∈ txn_pointer <$> l) m) self' /\ keeps self self') self.
Proof.
  induction l as [|t l IH]; intros m self Hix Hl Hsz; unfold returns; cbn [gc_park].
  { apply safe_ret. replace (demote_where _ m) with m; [done|]. apply map_eq. intros q.
    unfold demote_where. rewrite lookup_update_where. destruct (m !! q); cbn; [|done]. rewrite decide_False; [done|].
    apply not_elem_of_nil. }
  apply Forall_cons in Hl as [Ht Hl]. rewrite lookup_txns in Ht. apply fmap_Some in Ht as (e & He & ->).
  destruct (demoted_ok m self _ e Hix He Hsz) as (self1 & Hrun & Hix1 & Hk1).
  unfold safe. unfold mbind, method_bind in Hrun |- *. unfold puts in *.
  destruct (park (e_txn e) self) as [[[]|?|] s0]; [|done|done]. injection Hrun as <-.
  refine (safe_mono _ (gc_park l) _ _ _ (IH _ _ Hix1 _ _) _).
  - rewrite (txns_remark m _ e) by done. exact Hl.
  - rewrite map_size_insert_Some by eauto. done.
  - intros [] self2 [Hix2 Hk2]. split; [|by etrans]. erewrite demote_where_cons in Hix2; [exact Hix2|done|].
    intros q'. rewrite fmap_cons. apply elem_of_cons.
Qed.

Definition key_pointer (k : TTLOrderingKey) : TxnPointer := (k.1.2, k.2).
Definition drop_all {A} (l : list TxnPointer) (c : gmap TxnPointer A) : gmap TxnPointer A := foldl (fun c q => delete q c) c l.
Lemma lookup_drop_all {A} (l : list TxnPointer) (c : gmap TxnPointer A) q : drop_all l c !! q = if decide (q ∈ l) then None else c !! q.
Proof.
  revert c. induction l as [|p l IH]; intros c; [by rewrite decide_False by apply not_elem_of_nil|].
  change (drop_all (p :: l) c) with (drop_all l (delete p c)). rewrite IH. destruct (decide (q = p)) as [->|Hne].
  - rewrite lookup_delete_eq. rewrite (decide_True (P := _ ∈ _ :: _)) by (by left). by case_decide.
  - rewrite lookup_delete_ne by done. apply decide_ext. rewrite elem_of_cons. naive_solver.
Qed.

Lemma demote_where_ext (P P' : TxnPointer -> Prop) `{!forall q, Decision (P q)} `{!forall q, Decision (P' q)} m :
  (forall q, is_Some (m !! q) -> P q <-> P' q) -> demote_where P m = demote_where P' m.
Proof.
  intros HP. apply map_eq. intros q. unfold demote_where. rewrite !lookup_update_where.
  destruct (m !! q) eqn:He; cbn; [|done]. f_equal. apply decide_ext, HP. eauto.
Qed.

Lemma gc_loop_ok l : forall m self c s,
  txns_ok m self -> index_ok m self -> c ⊆ txns m -> s ⊆ txns m -> ttl_ok c s self -> N.of_nat (size m) <= u64_max ->
  NoDup (key_pointer <$> l) -> Forall (fun k => is_Some (m !! key_pointer k)) l ->
  returns (gc_loop l) (fun _ self' => let m' := collect_loop (key_pointer <$> l) m in
    txns_ok m' self' /\ index_ok m' self' /\
    ttl_ok (drop_all (key_pointer <$> l) c) (drop_all (key_pointer <$> l) s) self' /\ shrinks self self' /\
    ti_timeline_id (timeline_index self') = ti_timeline_id (timeline_index self)) self.
Proof.
  induction l as [|[[x a] n] l IH]; intros m self c s Htx Hix Hc Hs Httl Hsz Hnd Hl; unfold returns; cbn [gc_loop]; [done|].
  apply Forall_cons in Hl as [[e He] Hl]. rewrite fmap_cons in Hnd. apply NoDup_cons in Hnd as [Hin Hnd].
  change (key_pointer (x, a, n)) with (a, n) in *.
  apply safe_bind, safe_gets. destruct (transactions self !! a) as [t|] eqn:Ht; last first.
  { by rewrite (no_account_txns m self) in He. }
  set (m1 := demote_where (park_range (a, n) (key_pointer <$> head l)) m).
  assert (m1 !! (a, n) = Some e) as He1.
  { unfold m1, demote_where. rewrite lookup_update_where, He. cbn. rewrite decide_False; [done|]. unfold park_range. cbn. lia. }
  apply safe_bind, safe_bind.
  destruct (txns_between_pointers m self a t n (park_range_end a (head l)) Htx (ix_pointed _ _ Hix) Ht) as [Hptr Hall].
  eapply safe_mono; [by apply (gc_park_ok _ m)|]. intros [] self1 [Hix1 Hk1].
  erewrite (demote_where_ext _ (park_range (a, n) (key_pointer <$> head l))) in Hix1; last first.
  { intros q Hq. rewrite Hptr. unfold within, park_range. cbn.
    destruct (head l) as [[[? b] k]|]; cbn; [destruct (N.eqb_spec a b)|]; cbn;
      rewrite ?Is_true_true, ?andb_true_iff, ?N.ltb_lt; naive_solver. }
  fold m1 in Hix1. rewrite (proj2 (account_txns m self a t n (e_txn e) Htx Ht)) by (by rewrite lookup_txns, He).
  assert (txns m1 = txns m) as Hm1 by apply txns_demote_where.
  eapply safe_mono; [apply (remove_one_ok m1 self1); [|done|done]|].
  { intros b k. rewrite Hm1, (get_same b k self self1) by apply Hk1. apply Htx. }
  intros [] self2 (Htx2 & Hix2 & Hsh2 & Httl2 & Hid2).
  assert (forall d, d ⊆ txns m -> delete (a, n) d ⊆ txns (delete (a, n) m1)) as Hsub.
  { intros d Hd. rewrite txns_delete, Hm1. by apply delete_mono. }
  eapply safe_mono; [apply (IH (delete (a, n) m1) self2 (delete (a, n) c) (delete (a, n) s)); auto|].
  - apply Httl2; [by rewrite Hm1|by rewrite Hm1|]. by apply ttl_ok_keeps with self.
  - rewrite map_size_delete, He1. cbn. unfold m1. rewrite size_demote_where. lia.
  - rewrite Forall_forall in Hl. apply Forall_forall. intros k Hk.
    rewrite lookup_delete_ne; [unfold m1, demote_where; rewrite lookup_update_where, fmap_is_Some; by apply Hl|].
    intros Heq. apply Hin. rewrite Heq. by apply list_elem_of_fmap_2.
  - cbn. intros [] self3 (Htx3 & Hix3 & Httl3 & Hsh3 & Hid3).
    replace (head (key_pointer <$> l)) with (key_pointer <$> head l) by (by destruct l).
    split_and!; [done|done|done| |].
    + etrans; [apply same_txns_shrinks, Hk1|]. by etrans.
    + rewrite Hid3, Hid2. apply Hk1.
Qed.

(** ** [gc] *)
Definition expired (time : MempoolTransaction -> N) (now : N) m : list TxnPointer :=
  (map_to_list (filter (fun p => time (e_txn p.2) < now) m)).*1.
Lemma elem_of_expired time now m q : q ∈ expired time now m <-> exists e, m !! q = Some e /\ time (e_txn e) < now.
Proof.
  unfold expired. rewrite list_elem_of_fmap. split.
  - intros ([q' e] & -> & [? ?]%elem_of_map_to_list%map_lookup_filter_Some). eauto.
  - intros (e & He & Ht). exists (q, e). split; [done|]. by apply elem_of_map_to_list, map_lookup_filter_Some.
Qed.

Lemma collected_ext l l' m : (forall q, q ∈ l <-> q ∈ l') -> collected l m = collected l' m.
Proof.
  intros Hl. assert (forall q, follows l q <-> follows l' q) as Hf.
  { intros q. unfold follows. rewrite !Exists_exists. setoid_rewrite Hl. done. }
  apply map_eq. intros q. rewrite !lookup_collected. rewrite (decide_ext (q ∈ l) (q ∈ l')) by done.
  case_decide; [done|]. destruct (m !! q); cbn; [|done]. f_equal. by apply decide_ext.
Qed.
Lemma txns_collected l m : txns (collected l m) = drop_all l (txns m).
Proof.
  apply map_eq. intros q. rewrite lookup_drop_all, !lookup_txns, lookup_collected. case_decide; [done|].
  destruct (m !! q); cbn; [|done]. by case_decide.
Qed.

Lemma ttl_le_now now k : ttl_le (now, 0, 0) k <-> now <= k.1.1.
Proof. destruct k as [[t a] n]. unfold ttl_le. cbn. lia. Qed.
#[local] Instance gc_before_total : Total gc_before.
Proof. intros [[t a] n] [[t' a'] n']. unfold gc_before. lia. Qed.
#[local] Instance gc_before_trans : Transitive gc_before.
Proof. intros [[t1 a1] n1] [[t2 a2] n2] [[t3 a3] n3]. unfold gc_before. lia. Qed.

(** The keys that [gc] takes out, in the order of its loop. *)
Lemma gc_keys time now m (index : TTLIndex) l :
  pointed (txns m) -> ttl_data index = keys time (txns m) ->
  l = merge_sort gc_before (TTLIndex.gc now index).1 ->
  (forall q, q ∈ key_pointer <$> l <-> q ∈ expired time now m) /\ NoDup (key_pointer <$> l) /\
  StronglySorted ptr_before (key_pointer <$> l) /\ Forall (fun k => is_Some (m !! key_pointer k)) l.
Proof.
  intros Hp Hd Hl. assert (forall k, k ∈ l <-> exists q e, m !! q = Some e /\ TTLIndex.make_key time (e_txn e) = k /\ time (e_txn e) < now) as Hin.
  { intros k. rewrite Hl, merge_sort_Permutation. unfold TTLIndex.gc. cbn [fst].
    rewrite merge_sort_Permutation, elem_of_elements, Hd, elem_of_difference, elem_of_filter. cbv beta. rewrite ttl_le_now, elem_of_keys. setoid_rewrite lookup_txns.
    setoid_rewrite fmap_Some. split.
    - intros [(q & t & (e & He & ->) & <-) Hn]. exists q, e. split_and!; [done|done|].
      destruct (N.lt_ge_cases (time (e_txn e)) now); [done|]. exfalso. apply Hn. split; [done|]. exists q, (e_txn e). eauto.
    - intros (q & e & He & <- & Ht). split; [by exists q, (e_txn e); eauto|]. cbn. intros [? _]. lia. }
  assert (forall k k', k ∈ l -> k' ∈ l -> key_pointer k = key_pointer k' -> k = k') as Hinj.
  { intros k k' (q & e & He & <- & _)%Hin (q' & e' & He' & <- & _)%Hin Hk.
    change (txn_pointer (e_txn e) = txn_pointer (e_txn e')) in Hk.
    rewrite (proj2 (pointed_at _ _ _ Hp He)), (proj2 (pointed_at _ _ _ Hp He')) in Hk. congruence. }
  assert (NoDup l) as Hnd.
  { rewrite Hl, merge_sort_Permutation. cbn. rewrite merge_sort_Permutation. apply NoDup_elements. }
  split_and!.
  - intros q. rewrite elem_of_expired, list_elem_of_fmap. setoid_rewrite Hin. split.
    + intros (k & -> & q' & e & He & <- & Ht). exists e. split; [|done].
      change (key_pointer _) with (txn_pointer (e_txn e)). by rewrite (proj2 (pointed_at _ _ _ Hp He)).
    + intros (e & He & Ht). eexists. split; [|by exists q, e].
      change (key_pointer _) with (txn_pointer (e_txn e)). by rewrite (proj2 (pointed_at _ _ _ Hp He)).
  - by apply NoDup_fmap_2_strong.
  - assert (StronglySorted gc_before l) as Hs by (rewrite Hl; by apply (StronglySorted_merge_sort _)).
    clear -Hs Hnd Hinj. induction Hs as [|k l Hs IH Hk]; cbn; [constructor|]. apply NoDup_cons in Hnd as [Hkl Hnd].
    constructor; [apply IH; try done; intros k1 k2 H1 H2; apply Hinj; by right|]. rewrite Forall_forall in Hk.
    apply Forall_forall. intros q (k' & -> & Hk')%list_elem_of_fmap. specialize (Hk _ Hk').
    assert (key_pointer k <> key_pointer k') as Hne.
    { intros Heq. apply Hkl. rewrite (Hinj k k'); [done|by left|by right|done]. }
    destruct k as [[t a] n], k' as [[t' a'] n']. unfold gc_before, ptr_before, key_pointer in *. cbn in *.
    destruct (decide (a = a' /\ n = n')) as [[-> ->]|]; [done|lia].
  - apply Forall_forall. intros k (q & e & He & <- & _)%Hin. change (key_pointer _) with (txn_pointer (e_txn e)).
    rewrite (proj2 (pointed_at _ _ _ Hp He)). eauto.
Qed.

Lemma keys_active time now t :
  filter (fun k => ttl_le (now, 0, 0) k) (keys time t) = keys time (filter (fun p => now <= time p.2) t).
Proof.
  apply set_eq. intros k. rewrite elem_of_filter. cbv beta. rewrite ttl_le_now, !elem_of_keys. split.
  - intros [Hle (q & x & Hx & <-)]. exists q, x. split; [|done]. by apply map_lookup_filter_Some.
  - intros (q & x & [Hx Hle]%map_lookup_filter_Some & <-). split; [done|]. eauto.
Qed.
Lemma drop_expired time now l m : (forall q, q ∈ l <-> q ∈ expired time now m) ->
  drop_all l (txns m) = filter (fun p => now <= time p.2) (txns m) /\
  drop_all l (filter (fun p => now <= time p.2) (txns m)) = filter (fun p => now <= time p.2) (txns m).
Proof.
  intros Hl. split; apply map_eq; intros q; apply option_eq; intros t; rewrite lookup_drop_all.
  - rewrite map_lookup_filter_Some. cbn. case_decide as Hq.
    + apply Hl, elem_of_expired in Hq as (e & He & Hlt). rewrite lookup_txns, He. cbn. naive_solver lia.
    + split; [|tauto]. rewrite lookup_txns, fmap_Some. intros (e & He & ->). split; [eauto|].
      destruct (N.lt_ge_cases (time (e_txn e)) now); [|done]. exfalso. apply Hq, Hl, elem_of_expired. eauto.
  - case_decide as Hq; [|done]. rewrite map_lookup_filter_Some. cbn.
    apply Hl, elem_of_expired in Hq as (e & He & Hlt). rewrite lookup_txns, He. cbn. naive_solver lia.
Qed.

Lemma gc_ok m self now (by_system_ttl : bool) :
  represents m self -> N.of_nat (size m) <= u64_max ->
  returns (gc now by_system_ttl) (fun _ self' =>
    represents (collected (expired (if by_system_ttl then system_time else client_time) now m) m) self' /\
    shrinks self self' /\ ti_timeline_id (timeline_index self') = ti_timeline_id (timeline_index self)) self.
Proof.
  intros [Htx Hix [Hc Hs]] Hsz. set (time := if by_system_ttl then system_time else client_time).
  set (index := if by_system_ttl then system_ttl_index self else expiration_time_index self).
  assert (ttl_data index = keys time (txns m)) as Hd by (unfold index, time; by destruct by_system_ttl).
  destruct (gc_keys time now m index _ (ix_pointed _ _ Hix) Hd eq_refl) as (Hin & Hnd & Hso & Hall).
  set (l := merge_sort gc_before _) in *. set (active := filter (fun p => now <= time p.2) (txns m)).
  destruct (drop_expired time now _ m Hin) as [Hd1 Hd2]. fold active in Hd1, Hd2.
  assert (active ⊆ txns m) as Hsub by apply map_filter_subseteq.
  set (self0 := if by_system_ttl then set_ttl (expiration_time_index self) (TTLIndex.gc now index).2 self
                else set_ttl (TTLIndex.gc now index).2 (system_ttl_index self) self).
  assert (gc now by_system_ttl self = gc_loop l self0) as Hgc by (unfold gc, l, self0, index; by destruct by_system_ttl).
  unfold returns, safe. rewrite Hgc.
  refine (safe_mono _ (gc_loop l) _ _ self0 (gc_loop_ok l m self0
    (if by_system_ttl then txns m else active) (if by_system_ttl then active else txns m) _ _ _ _ _ Hsz Hnd Hall) _).
  - unfold self0. by destruct by_system_ttl.
  - unfold self0. destruct by_system_ttl; by destruct Hix; split.
  - by destruct by_system_ttl.
  - by destruct by_system_ttl.
  - unfold ttl_ok, self0, TTLIndex.gc, active, time in *. destruct by_system_ttl; cbn [ttl_data expiration_time_index system_ttl_index set_ttl snd]; by rewrite Hd, keys_active.
  - intros [] self' (Htx' & Hix' & Httl & Hsh & Hid). rewrite collect_loop_spec in Htx', Hix' by done.
    rewrite (collected_ext _ (expired time now m)) in Htx', Hix' by done.
    split_and!; [split; [done|done|]| |].
    + rewrite <-(collected_ext _ _ m Hin), txns_collected, Hd1. destruct by_system_ttl; by rewrite Hd1, Hd2 in Httl.
    + etrans; [|done]. unfold self0. apply same_txns_shrinks. by destruct by_system_ttl.
    + rewrite Hid. unfold self0. by destruct by_system_ttl.
Qed.
End gc.

(** ** Insertion of a transaction *)
(** How many transactions an account has. *)
Definition account_size (a : N) (m : Pool) : N := N.of_nat (size (filter (fun x : TxnPointer * Entry => x.1.1 = a) m)).

(** A transaction that would be ready: the next one of its account, or behind one that is. *)
Definition would_be_ready (txn : MempoolTransaction) (m : Pool) : bool :=
  let n := MempoolTransaction.sequence_number txn in
  (n =? min_seq (account_sequence_number_type (mt_sequence_info txn)))
  || match m !! (MempoolTransaction.get_sender txn, n - 1) with Some e => is_ready e | None => false end.

(** A transaction that would be ready makes room for itself in a full pool, if something is
    parked: the last parked transaction of some account goes. *)
Inductive evicts (capacity : N) (txn : MempoolTransaction) (m : Pool) : Pool -> Prop :=
  | evict_not_needed : N.of_nat (size m) < capacity -> evicts capacity txn m m
  | evict_not_ready : capacity <= N.of_nat (size m) -> would_be_ready txn m = false -> evicts capacity txn m m
  | evict_none_parked : capacity <= N.of_nat (size m) -> would_be_ready txn m = true ->
      (forall q e, m !! q = Some e -> e_parked e = false) -> evicts capacity txn m m
  | evict_parked q e : capacity <= N.of_nat (size m) -> would_be_ready txn m = true ->
      m !! q = Some e -> e_parked e = true ->
      (forall n x, m !! (q.1, n) = Some x -> e_parked x = true -> n <= q.2) -> evicts capacity txn m (delete q m).

(** The ready transactions of an account are promoted and the ones behind are parked. *)
Definition readied (a : N) (info : AccountSequenceInfo) (m m' : Pool) : Prop :=
  exists k m1, promotes (becomes_ready a info k) m m1 /\ run_end a info k m /\
    m' = park_where (fun q => q.1 = a /\ k < q.2) m1.

(** What the store makes of a transaction that is not there yet. *)
Inductive inserted (capacity per_user : N) (txn : MempoolTransaction) (m : Pool) : MempoolStatus -> Pool -> Prop :=
  | insert_full m' : evicts capacity txn m m' -> capacity <= N.of_nat (size m') ->
      inserted capacity per_user txn m (status MempoolIsFull) m'
  | insert_too_many m1 m2 : evicts capacity txn m m1 -> N.of_nat (size m1) < capacity ->
      m2 = cleaned (txn_sender (mt_txn txn)) (min_seq (account_sequence_number_type (mt_sequence_info txn))) m1 ->
      per_user <= account_size (txn_sender (mt_txn txn)) m2 ->
      inserted capacity per_user txn m (status TooManyTransactions) m2
  | insert_accepted m1 m2 m' : evicts capacity txn m m1 -> N.of_nat (size m1) < capacity ->
      m2 = cleaned (txn_sender (mt_txn txn)) (min_seq (account_sequence_number_type (mt_sequence_info txn))) m1 ->
      account_size (txn_sender (mt_txn txn)) m2 < per_user ->
      readied (txn_sender (mt_txn txn)) (account_sequence_number_type (mt_sequence_info txn))
        (<[txn_pointer txn := added txn]> m2) m' ->
      inserted capacity per_user txn m (status Accepted) m'.

(** A transaction whose place is taken: only the gas price may be raised. *)
Definition same_terms (current txn : SignedTransaction) : Prop :=
  txn_payload current = txn_payload txn /\
  txn_expiration_timestamp_secs current = txn_expiration_timestamp_secs txn /\
  txn_max_gas_amount current = txn_max_gas_amount txn.
Inductive submitted (capacity per_user : N) (txn : MempoolTransaction) (m : Pool) : MempoolStatus -> Pool -> Prop :=
  | submit_new st m' : m !! txn_pointer txn = None -> inserted capacity per_user txn m st m' ->
      submitted capacity per_user txn m st m'
  | submit_invalid e st : m !! txn_pointer txn = Some e -> ms_code st = InvalidUpdate ->
      ~ (same_terms (mt_txn (e_txn e)) (mt_txn txn) /\ txn_gas_unit_price (mt_txn (e_txn e)) <= txn_gas_unit_price (mt_txn txn)) ->
      submitted capacity per_user txn m st m
  | submit_raise e st m' : m !! txn_pointer txn = Some e -> same_terms (mt_txn (e_txn e)) (mt_txn txn) ->
      txn_gas_unit_price (mt_txn (e_txn e)) < txn_gas_unit_price (mt_txn txn) ->
      inserted capacity per_user txn (delete (txn_pointer txn) m) st m' -> submitted capacity per_user txn m st m'
  | submit_again e : m !! txn_pointer txn = Some e -> same_terms (mt_txn (e_txn e)) (mt_txn txn) ->
      txn_gas_unit_price (mt_txn (e_txn e)) = txn_gas_unit_price (mt_txn txn) ->
      submitted capacity per_user txn m (status Accepted) m.

Section insert.
Context `{CryptoHash Transaction}.
Implicit Types (m : Pool) (self : TransactionStore) (q : TxnPointer) (e : Entry).
Import TransactionStore.

(** ** Eviction *)
Lemma get_poppable_parked rng p q : parking_ok p -> ParkingLotIndex.get_poppable rng p = Some q ->
  q ∈ pl_list p /\ forall n, (q.1, n) ∈ pl_list p -> n <= q.2.
Proof.
  intros Hp. unfold ParkingLotIndex.get_poppable. intros ([a t] & Hd & Hq)%bind_Some. apply bind_Some in Hq as (n & Hn & [= <-]).
  unfold ParkingLotIndex.max_elem in Hn. pose proof (last_Some_elem_of _ _ Hn) as Hin.
  rewrite merge_sort_Permutation, elem_of_elements in Hin. cbn in Hin, Hn |- *. split.
  - apply elem_of_pl_list. exists t. split; [by eapply list_elem_of_lookup_2|done].
  - intros k Hk%(parked_at p Hp a _ t k Hd). apply last_Some in Hn as [l Hl].
    assert (k ∈ merge_sort N.le (elements t)) as Hkl by (by rewrite merge_sort_Permutation, elem_of_elements).
    pose proof (Sorted_merge_sort N.le (elements t)) as Hs. apply (Sorted_StronglySorted _) in Hs.
    rewrite Hl in Hs, Hkl. apply elem_of_app in Hkl as [Hkl|Hkl%list_elem_of_singleton]; [|by subst k].
    apply StronglySorted_app in Hs as [Hs _]. by apply (Hs k n Hkl); rewrite list_elem_of_singleton.
Qed.
Lemma get_poppable_None rng p : parking_ok p -> ParkingLotIndex.get_poppable rng p = None -> pl_list p = [].
Proof.
  intros Hp. unfold ParkingLotIndex.get_poppable, pl_list. destruct (pl_data p) as [|x l] eqn:Hd; [done|].
  assert (N.to_nat (rng mod N.of_nat (length (x :: l))) < length (x :: l))%nat as Hlt.
  { pose proof (N.mod_lt rng (N.of_nat (length (x :: l)))). cbn [length] in *. lia. }
  apply lookup_lt_is_Some in Hlt as [[a t] Hy]. rewrite Hy. cbn. unfold ParkingLotIndex.max_elem.
  destruct (last (merge_sort N.le (elements t))) as [n|] eqn:Hl; [done|]. apply last_None in Hl.
  destruct (po_nonempty p Hp (a, t)); [rewrite Hd; by eapply list_elem_of_lookup_2|]. cbn.
  pose proof (merge_sort_Permutation N.le (elements t)) as Hperm. rewrite Hl in Hperm.
  apply Permutation_nil_l in Hperm. by apply leibniz_equiv, elements_empty_inv.
Qed.

Lemma size_kmap_pair {A} (a : N) (t : gmap N A) : size (kmap (M2 := gmap TxnPointer) (pair a) t) = size t.
Proof.
  induction t as [|n x t Hn IH] using map_ind; [by rewrite kmap_empty|].
  rewrite (kmap_insert _), !map_size_insert_None; [by rewrite IH|done|]. by rewrite (lookup_kmap _).
Qed.
(** The transactions of an account are those of the pool. *)
Lemma account_size_eq m self a : txns_ok m self ->
  account_size a m = N.of_nat (size (default ∅ (transactions self !! a) : AccountTransactions)).
Proof.
  intros Htx. unfold account_size. f_equal. set (t := default ∅ _ : AccountTransactions).
  rewrite <-(map_size_fmap e_txn (filter _ m)), <-(size_kmap_pair a t).
  f_equal. apply map_eq. intros [b n]. rewrite lookup_fmap.
  assert (t !! n = e_txn <$> m !! (a, n)) as Hl.
  { rewrite <-lookup_txns, <-Htx. unfold get_mempool_txn, t. by destruct (transactions self !! a). }
  destruct (decide (b = a)) as [->|Hb].
  - rewrite (lookup_kmap (M2 := gmap TxnPointer) (pair a)), Hl, map_lookup_filter. destruct (m !! (a, n)); [|done]. cbn.
    by rewrite option_guard_True.
  - transitivity (None (A := MempoolTransaction)); [|symmetry].
    + rewrite map_lookup_filter. destruct (m !! (b, n)); [|done]. cbn. by rewrite option_guard_False.
    + apply (lookup_kmap_None (M2 := gmap TxnPointer) (pair a)). by intros k [= ->].
Qed.

Lemma represents_size m self : represents m self -> TTLIndex.size (system_ttl_index self) = N.of_nat (size m).
Proof.
  intros Hr. unfold TTLIndex.size. rewrite (proj2 (rp_ttl _ _ Hr)), size_keys by apply (ix_pointed _ _ (rp_index _ _ Hr)).
  unfold txns. by rewrite map_size_fmap.
Qed.

Lemma remove_represents m self a n e :
  represents m self -> m !! (a, n) = Some e ->
  returns (_ ← puts (remove_txn a n); index_remove (e_txn e)) (fun _ self' =>
    represents (delete (a, n) m) self' /\ shrinks self self' /\
    ti_timeline_id (timeline_index self') = ti_timeline_id (timeline_index self)) self.
Proof.
  intros [Htx Hix Httl] He. eapply safe_mono; [by apply (remove_one_ok m)|].
  intros [] self' (? & ? & ? & Ht & ?). split; [|done]. split; [done|done|]. rewrite txns_delete. by apply Ht.
Qed.

Lemma check_ready_ok m self txn : represents m self ->
  min_seq (account_sequence_number_type (mt_sequence_info txn)) <= MempoolTransaction.sequence_number txn ->
  check_txn_ready txn (min_seq (account_sequence_number_type (mt_sequence_info txn))) self = Ok (would_be_ready txn m).
Proof.
  intros Hr Hcurr. unfold check_txn_ready, would_be_ready. destruct (N.eqb_spec (MempoolTransaction.sequence_number txn)
    (min_seq (account_sequence_number_type (mt_sequence_info txn)))); [done|].
  destruct (N.eqb_spec (MempoolTransaction.sequence_number txn) 0); [lia|].
  rewrite (rp_txns _ _ Hr), lookup_txns. cbn [orb]. by destruct (m !! _).
Qed.

Lemma check_full_ok m self rng txn :
  represents m self ->
  min_seq (account_sequence_number_type (mt_sequence_info txn)) <= MempoolTransaction.sequence_number txn ->
  returns (check_is_full_after_eviction rng txn (min_seq (account_sequence_number_type (mt_sequence_info txn)))) (fun full self' => exists m',
    represents m' self' /\ shrinks self self' /\ evicts (capacity self) txn m m' /\
    full = (capacity self <=? N.of_nat (size m')) /\
    ti_timeline_id (timeline_index self') = ti_timeline_id (timeline_index self)) self.
Proof.
  intros Hr Hcurr. unfold returns, check_is_full_after_eviction. apply safe_bind, safe_gets.
  rewrite (represents_size m) by done. apply safe_bind.
  apply safe_mono with (fun (ready : bool) s => s = self /\
    ready = ((capacity self <=? N.of_nat (size m)) && would_be_ready txn m)).
  { destruct (N.leb_spec (capacity self) (N.of_nat (size m))); [|by apply safe_ret]. apply safe_gets.
    by rewrite (check_ready_ok m). }
  intros ready s [-> ->]. apply safe_bind.
  apply safe_mono with (fun _ self' => exists m', represents m' self' /\ shrinks self self' /\ evicts (capacity self) txn m m' /\
    ti_timeline_id (timeline_index self') = ti_timeline_id (timeline_index self)); last first.
  { intros [] self' (m' & Hr' & Hsh & Hev & Hid). apply safe_gets. exists m'. rewrite (represents_size m') by done.
    rewrite (proj1 Hsh). done. }
  assert (evicts (capacity self) txn m m -> exists m', represents m' self /\ shrinks self self /\ evicts (capacity self) txn m m' /\
    ti_timeline_id (timeline_index self) = ti_timeline_id (timeline_index self)) as Hsame by (intros; by exists m).
  destruct (N.leb_spec (capacity self) (N.of_nat (size m))) as [Hfull|Hroom];
    [|by apply safe_ret, Hsame, evict_not_needed].
  destruct (would_be_ready txn m) eqn:Hready; cbn [andb]; [|by apply safe_ret, Hsame, evict_not_ready].
  pose proof (rp_index _ _ Hr) as Hix. unfold safe.
  destruct (ParkingLotIndex.get_poppable rng (parking_lot_index self)) as [[a n]|] eqn:Hpop.
  - apply get_poppable_parked in Hpop as [Hpop Hmax]; [|apply (ix_parking _ _ Hix)].
    apply (ix_parked _ _ Hix) in Hpop as (e & He & Hpk).
    rewrite (rp_txns _ _ Hr), lookup_txns, He. cbn [fmap option_fmap option_map].
    refine (safe_mono _ (_ ← puts (remove_txn a n); index_remove (e_txn e)) _ _ self (remove_represents m self a n e Hr He) _).
    intros [] self' (? & ? & ?). exists (delete (a, n) m). split_and!; [done|done| |done].
    eapply evict_parked; [done|done|done|done|]. intros k x Hx Hxp. apply Hmax, (ix_parked _ _ Hix). eauto.
  - apply get_poppable_None in Hpop; [|apply (ix_parking _ _ Hix)]. apply Hsame, evict_none_parked; [done|done|].
    intros q e He. destruct (e_parked e) eqn:Hpk; [|done].
    assert (q ∈ pl_list (parking_lot_index self)) as Hq by (apply (ix_parked _ _ Hix); eauto).
    rewrite Hpop in Hq. by apply elem_of_nil in Hq.
Qed.

(** ** A new entry *)
Lemma added_index m self txn h :
  index_ok m self -> m !! txn_pointer txn = None -> raw_pointer txn = txn_pointer txn ->
  (forall id, mt_timeline_state txn <> Ready id) ->
  h = <[MempoolTransaction.get_committed_hash txn := txn_pointer txn]> (hash_index self) ->
  forall self', priority_index self' = priority_index self -> timeline_index self' = timeline_index self ->
    parking_lot_index self' = parking_lot_index self -> hash_index self' = h ->
    index_ok (<[txn_pointer txn := added txn]> m) self'.
Proof.
  intros Hix Hno Hwf Hst -> self' Hp Ht Hk Hh.
  assert (forall q e, <[txn_pointer txn := added txn]> m !! q = Some e -> q = txn_pointer txn /\ e = added txn \/ m !! q = Some e) as Hold.
  { intros q e [[<- <-]|[_ He]]%lookup_insert_Some; auto. }
  assert (forall q e, m !! q = Some e -> <[txn_pointer txn := added txn]> m !! q = Some e) as Hnew.
  { intros q e He. rewrite lookup_insert_ne by congruence. done. }
  split; rewrite ?Hp, ?Ht, ?Hk, ?Hh.
  - rewrite txns_insert. apply pointed_insert; [apply (ix_pointed _ _ Hix)|done|done].
  - intros k info. rewrite (ix_priority _ _ Hix). split.
    + intros (q & e & He & Hrest). exists q, e. auto.
    + intros (q & e & [[-> ->]|He]%Hold & Hq & Hrest); [done|]. exists q, e. auto.
  - intros id q. rewrite (ix_timeline _ _ Hix). split.
    + intros (e & He & Hrest). exists e. auto.
    + intros (e & [[-> ->]|He]%Hold & Hq & Hrest); [done|]. exists e. auto.
  - intros q e [[-> ->]|He]%Hold; [done|]. by apply (ix_announced _ _ Hix q).
  - intros q e id [[-> ->]|He]%Hold Hs; [by apply Hst in Hs|]. by eapply (ix_fresh _ _ Hix).
  - intros q1 q2 e1 e2 id [[-> ->]|He1]%Hold [[-> ->]|He2]%Hold Hs1 Hs2;
      [done|by apply Hst in Hs1|by apply Hst in Hs2|by eapply (ix_ids _ _ Hix)].
  - apply (ix_parking _ _ Hix).
  - intros q. rewrite (ix_parked _ _ Hix). split.
    + intros (e & He & Hrest). exists e. auto.
    + intros (e & [[-> ->]|He]%Hold & Hq); [done|]. exists e. auto.
  - intros h q [[<- <-]|[_ (e & He & Hhh)%(ix_hash _ _ Hix)]]%lookup_insert_Some; [|eauto].
    exists (added txn). by rewrite lookup_insert_eq.
  - intros q e Hc [[-> ->]|He]%Hold; [by rewrite lookup_insert_eq|].
    rewrite lookup_insert_ne; [by apply (ix_hash_all _ _ Hix)|]. intros Heq%committed_hash_inj; [|done].
    rewrite Hwf, (proj1 (pointed_at _ _ _ (ix_pointed _ _ Hix) He)) in Heq. congruence.
Qed.

(** ** Bounds *)
Lemma budget_mono m m' id : m' ⊆ m -> budget m' id <= budget m id.
Proof.
  intros Hs. unfold budget. enough (size (filter waiting m') <= size (filter waiting m))%nat by lia.
  apply map_subseteq_size, map_subseteq_spec. intros q e. rewrite !map_lookup_filter_Some. intros [He ?].
  split; [|done]. by eapply lookup_weaken.
Qed.
Lemma budget_added m txn id : m !! txn_pointer txn = None -> budget (<[txn_pointer txn := added txn]> m) id <= budget m id + 1.
Proof.
  intros Hno. unfold budget. destruct (decide (waiting (txn_pointer txn, added txn))) as [Hw|Hw].
  - rewrite map_filter_insert_True by done. rewrite map_size_insert_None; [lia|]. by rewrite map_lookup_filter, Hno.
  - rewrite map_filter_insert_False by done. rewrite delete_id by done. lia.
Qed.
Lemma evicts_subseteq c txn m m' : evicts c txn m m' -> m' ⊆ m.
Proof. intros []; [done..|apply delete_subseteq]. Qed.
Lemma cleaned_subseteq a n m : cleaned a n m ⊆ m.
Proof. apply map_filter_subseteq. Qed.
Lemma narrow_mono m m' : narrow m -> m' ⊆ m -> narrow m'.
Proof. intros Hn Hs q e He. apply (Hn q e). by eapply lookup_weaken. Qed.

Definition user_ok self : Prop :=
  forall a t, transactions self !! a = Some t -> N.of_nat (size (t : AccountTransactions)) <= capacity_per_user self.
Lemma user_ok_shrinks self self' : user_ok self -> shrinks self self' -> user_ok self'.
Proof. intros Hu (_ & Hc & Ht) a t (t0 & Ht0%Hu & Hle)%Ht. rewrite Hc. lia. Qed.

(** ** [insert] *)
Lemma reserve_ok m self a :
  represents m self -> user_ok self -> let self' := set_account a (default ∅ (transactions self !! a)) self in
  represents m self' /\ user_ok self'.
Proof.
  intros [Htx Hix Httl] Hu self'. split; [split; [|by destruct Hix; split|done]|].
  - intros b k. unfold self'. rewrite get_set_account. case_decide as Hb; [subst b|apply Htx].
    rewrite <-Htx. unfold get_mempool_txn. by destruct (transactions self !! a).
  - intros b t. unfold self'. cbn. intros [[<- <-]|[_ Ht]]%lookup_insert_Some; [|by apply (Hu b)].
    destruct (transactions self !! a) eqn:Ht; cbn; [by apply (Hu a)|]. rewrite map_size_empty. lia.
Qed.

Definition store_new (txn : MempoolTransaction) self : TransactionStore :=
  let a := MempoolTransaction.get_sender txn in
  let self' := set_ttl (TTLIndex.insert client_time txn (expiration_time_index self))
                 (TTLIndex.insert system_time txn (system_ttl_index self)) self in
  let self' := set_hash (<[MempoolTransaction.get_committed_hash txn := txn_pointer txn]> (hash_index self')) self' in
  set_account a (<[MempoolTransaction.sequence_number txn := txn]> (default ∅ (transactions self !! a))) self'.
Lemma store_new_ok m self txn :
  represents m self -> m !! txn_pointer txn = None -> raw_pointer txn = txn_pointer txn ->
  (forall id, mt_timeline_state txn <> Ready id) -> user_ok self ->
  N.of_nat (size (default ∅ (transactions self !! MempoolTransaction.get_sender txn))) < capacity_per_user self ->
  represents (<[txn_pointer txn := added txn]> m) (store_new txn self) /\ user_ok (store_new txn self).
Proof.
  intros [Htx Hix [Hc Hs]] Hno Hwf Hst Hu Hlim. split; [split|].
  - intros b k. unfold store_new. rewrite get_set_account, txns_insert. unfold txn_pointer.
    destruct (decide (b = MempoolTransaction.get_sender txn)) as [->|Hb].
    + destruct (decide (k = MempoolTransaction.sequence_number txn)) as [->|Hk]; [by rewrite !lookup_insert_eq|].
      rewrite !lookup_insert_ne by congruence. rewrite <-Htx. unfold get_mempool_txn.
      by destruct (transactions self !! _).
    + rewrite lookup_insert_ne by congruence. apply Htx.
  - by eapply (added_index m self txn).
  - assert (txns m !! txn_pointer txn = None) as Hno' by (by rewrite lookup_txns, Hno).
    split; cbn; rewrite txns_insert, keys_insert by done; cbn; [by rewrite Hc|by rewrite Hs].
  - intros b t. unfold store_new. cbn. intros [[<- <-]|[_ Ht]]%lookup_insert_Some; [|by apply (Hu b)].
    set (t := default ∅ _) in *. destruct (decide (is_Some (t !! MempoolTransaction.sequence_number txn))) as [Hi|Hi%eq_None_not_Some];
      [rewrite map_size_insert_Some by done|rewrite map_size_insert_None by done]; lia.
Qed.

(** The store stands for a pool that [R] allows, within the bounds. *)
Definition stores (R : MempoolStatus -> Pool -> Prop) m self (st : MempoolStatus) self' : Prop :=
  exists m', represents m' self' /\ R st m' /\ user_ok self' /\
    capacity self' = capacity self /\ capacity_per_user self' = capacity_per_user self /\
    budget m' (ti_timeline_id (timeline_index self')) <= budget m (ti_timeline_id (timeline_index self)) + 1 /\
    announces (counter self) m (counter self') m'.

Lemma insert_new_ok m self rng txn :
  let info := account_sequence_number_type (mt_sequence_info txn) in
  represents m self -> m !! txn_pointer txn = None -> raw_pointer txn = txn_pointer txn ->
  min_seq info <= MempoolTransaction.sequence_number txn < u64_max -> (forall id, mt_timeline_state txn <> Ready id) ->
  budget m (ti_timeline_id (timeline_index self)) < u64_max -> narrow m ->
  capacity self <= u64_max -> N.of_nat (size m) <= capacity self -> user_ok self ->
  returns (insert_new rng txn) (stores (inserted (capacity self) (capacity_per_user self) txn m) m self) self.
Proof.
  intros info Hr Hno Hwf Hseq Hst Hb Hn Hcap Hsz Hu. unfold returns, insert_new. fold info.
  apply safe_bind. eapply safe_mono; [apply (check_full_ok m); [done|apply Hseq]|].
  intros full self1 (m1 & Hr1 & Hsh1 & Hev & -> & Hid1). pose proof (evicts_subseteq _ _ _ _ Hev) as Hsub1.
  pose proof (budget_mono _ _ (ti_timeline_id (timeline_index self)) Hsub1) as Hb1.
  pose proof (user_ok_shrinks _ _ Hu Hsh1) as Hu1. destruct Hsh1 as (Hc1 & Hpu1 & _).
  destruct (N.leb_spec (capacity self) (N.of_nat (size m1))) as [Hfull|Hroom].
  { apply safe_ret. exists m1. split_and!; [done|by constructor|done|done|done|rewrite Hid1; lia|]. rewrite Hid1. by apply announces_subseteq. }
  apply safe_bind, safe_puts. destruct (reserve_ok m1 self1 (MempoolTransaction.get_sender txn) Hr1 Hu1) as [Hr2 Hu2].
  set (self2 := set_account _ _ self1) in *.
  apply safe_bind. eapply safe_mono; [by apply (clean_committed_ok m1)|].
  set (m3 := cleaned _ _ m1). intros [] self3 (Hr3 & Hsh3 & Hid3). pose proof (user_ok_shrinks _ _ Hu2 Hsh3) as Hu3.
  destruct Hsh3 as (Hc3 & Hpu3 & _). change (capacity self2) with (capacity self1) in Hc3.
  change (capacity_per_user self2) with (capacity_per_user self1) in Hpu3.
  change (ti_timeline_id (timeline_index self2)) with (ti_timeline_id (timeline_index self1)) in Hid3.
  assert (m3 ⊆ m) as Hsub3 by (etrans; [apply cleaned_subseteq|done]).
  assert (m3 !! txn_pointer txn = None) as Hno3 by (by eapply lookup_weaken_None).
  pose proof (budget_mono _ _ (ti_timeline_id (timeline_index self)) Hsub3) as Hb3.
  pose proof (budget_added m3 txn (ti_timeline_id (timeline_index self)) Hno3) as Hb4.
  apply safe_bind, safe_gets, safe_bind, safe_gets.
  destruct (N.leb_spec (capacity_per_user self3)
    (N.of_nat (size (default ∅ (transactions self3 !! MempoolTransaction.get_sender txn))))) as [Hmany|Hlim].
  { apply safe_ret. exists m3. split_and!; [done| |done|congruence|congruence| |]; rewrite ?Hid3, ?Hid1; [|lia|].
    { eapply insert_too_many; [done|done|done|]. by rewrite (account_size_eq m3 self3 _ (rp_txns _ _ Hr3)), <-Hpu1, <-Hpu3. }
    by apply announces_subseteq. }
  do 3 apply safe_bind, safe_puts.
  destruct (store_new_ok m3 self3 txn Hr3 Hno3 Hwf Hst Hu3 Hlim) as [Hr4 Hu4].
  match goal with |- safe _ _ _ ?s => change s with (store_new txn self3) end.
  set (m4 := <[txn_pointer txn := added txn]> m3) in *.
  assert (budget m4 (ti_timeline_id (timeline_index (store_new txn self3))) <= u64_max) as Hb5.
  { change (timeline_index (store_new txn self3)) with (timeline_index self3). rewrite Hid3, Hid1. lia. }
  apply safe_bind. eapply safe_mono; [apply (process_ready_ok m4); [done|done| |]|].
  - intros q e [[<- <-]|[_ He]]%lookup_insert_Some; [apply Hseq|]. eapply narrow_mono; [exact Hn|exact Hsub3|exact He].
  - unfold m4. rewrite map_size_insert_None by done. pose proof (map_subseteq_size _ _ (cleaned_subseteq _ _ m1) :
      (size m3 <= size m1)%nat). lia.
  - intros [] self5 (k & m5 & Hpm & Hend & Hsd). apply safe_ret. eexists. split; [apply Hsd|]. split_and!.
    + eapply insert_accepted; [done|lia|done| |exists k, m5; done].
      by rewrite (account_size_eq m3 self3 _ (rp_txns _ _ Hr3)), <-Hpu1, <-Hpu3.
    + eapply user_ok_shrinks; [exact Hu4|apply Hsd].
    + rewrite (proj1 (sd_shrinks _ _ _ _ Hsd)). cbn. congruence.
    + rewrite (proj1 (proj2 (sd_shrinks _ _ _ _ Hsd))). cbn. congruence.
    + rewrite (sd_budget _ _ _ _ Hsd). change (timeline_index (store_new txn self3)) with (timeline_index self3).
      rewrite Hid3, Hid1. fold m4 in Hb4. lia.
    + eapply announces_trans; [|apply Hsd]. change (counter (store_new txn self3)) with (counter self3). rewrite Hid3, Hid1.
      eapply announces_trans; [by apply announces_subseteq, Hsub3|]. apply announces_sub.
      intros q e [[<- <-]|[_ He]]%lookup_insert_Some Ha; [done|by exists e].
Qed.

Lemma insert_ok m self rng txn :
  let info := account_sequence_number_type (mt_sequence_info txn) in
  represents m self -> raw_pointer txn = txn_pointer txn ->
  min_seq info <= MempoolTransaction.sequence_number txn < u64_max -> (forall id, mt_timeline_state txn <> Ready id) ->
  budget m (ti_timeline_id (timeline_index self)) < u64_max -> narrow m ->
  capacity self <= u64_max -> N.of_nat (size m) <= capacity self -> user_ok self ->
  returns (TransactionStore.insert rng txn) (stores (submitted (capacity self) (capacity_per_user self) txn m) m self) self.
Proof.
  intros info Hr Hwf Hseq Hst Hb Hn Hcap Hsz Hu. unfold returns, TransactionStore.insert.
  apply safe_bind, safe_gets. rewrite (rp_txns _ _ Hr), lookup_txns. fold (txn_pointer txn).
  destruct (m !! txn_pointer txn) as [e|] eqn:He; cbn [fmap option_fmap option_map]; last first.
  { eapply safe_mono; [by apply (insert_new_ok m)|]. cbn. intros st self' (m' & Hr' & Hi & Hrest). exists m'.
    split; [done|]. split; [by apply submit_new|done]. }
  assert (forall st, submitted (capacity self) (capacity_per_user self) txn m st m ->
    returns (mret st) (stores (submitted (capacity self) (capacity_per_user self) txn m) m self) self) as Hsame.
  { intros st Hs. apply safe_ret. exists m. split_and!; try done; [lia|apply announces_refl]. }
  destruct (N.eqb_spec (txn_payload (mt_txn (e_txn e))) (txn_payload (mt_txn txn))) as [H1|H1];
    [|apply Hsame; eapply submit_invalid; [done|done|by intros [[? _] _]]].
  destruct (N.eqb_spec (txn_expiration_timestamp_secs (mt_txn (e_txn e))) (txn_expiration_timestamp_secs (mt_txn txn))) as [H2|H2];
    [|apply Hsame; eapply submit_invalid; [done|done|by intros [(_ & ? & _) _]]].
  destruct (N.eqb_spec (txn_max_gas_amount (mt_txn (e_txn e))) (txn_max_gas_amount (mt_txn txn))) as [H3|H3];
    [|apply Hsame; eapply submit_invalid; [done|done|by intros [(_ & _ & ?) _]]].
  cbn [negb]. unfold MempoolTransaction.get_gas_price. destruct (N.ltb_spec (txn_gas_unit_price (mt_txn (e_txn e)))
    (txn_gas_unit_price (mt_txn txn))) as [H4|H4].
  - apply safe_bind, safe_puts, safe_bind.
    eapply safe_mono; [exact (remove_represents m self _ _ e Hr He)|]. intros [] self1 (Hr1 & Hsh1 & Hid1).
    pose proof (user_ok_shrinks _ _ Hu Hsh1) as Hu1. destruct Hsh1 as (Hc1 & Hp1 & _). fold (txn_pointer txn) in Hr1.
    pose proof (delete_subseteq m (txn_pointer txn)) as Hsub.
    pose proof (budget_mono _ _ (ti_timeline_id (timeline_index self)) Hsub) as Hb1.
    pose proof (map_subseteq_size _ _ Hsub) as Hs1.
    eapply safe_mono; [apply (insert_new_ok (delete (txn_pointer txn) m)); rewrite ?Hid1, ?Hc1|].
    + done.
    + apply lookup_delete_eq.
    + done.
    + done.
    + done.
    + lia.
    + by eapply narrow_mono.
    + done.
    + lia.
    + done.
    + intros st self2 (m2 & Hr2 & Hi & Hu2 & Hc2 & Hp2 & Hb2 & Han). exists m2. rewrite Hc1, Hp1 in Hi. rewrite Hid1 in Hb2, Han.
      split; [done|]. split_and!; [by eapply submit_raise|done|congruence|congruence|lia|].
      eapply announces_trans; [by apply announces_subseteq, Hsub|done].
  - destruct (N.ltb_spec (txn_gas_unit_price (mt_txn txn)) (txn_gas_unit_price (mt_txn (e_txn e)))) as [H5|H5].
    + apply Hsame. eapply submit_invalid; [done|done|]. intros [_ ?]. lia.
    + apply Hsame. eapply submit_again; [done|done|]. lia.
Qed.
End insert.
