(* ===== verification/Mempool.v ===== *)
(** * Core mempool

    [Mempool] (mempool/src/core_mempool/mempool.rs) over the transaction store and two
    caches.  [clock i] is what the [i]-th reading of the clock in a call returns. *)

From S2P Require Import Prelude Crypto Errors Position Accumulator Verifier Ledger ConsensusTypes Blocks TransactionProofs MempoolIndex MempoolStore.

Record MempoolConfig : Type := mkMempoolConfig {
  mc_capacity : N;
  mc_capacity_per_user : N;
  mc_default_failovers : N;
  mc_max_broadcasts_per_peer : N;
  mc_mempool_snapshot_interval_secs : N;
  mc_shared_mempool_ack_timeout_ms : N;
  mc_shared_mempool_backoff_interval_ms : N;
  mc_shared_mempool_batch_size : N;
  mc_shared_mempool_max_concurrent_inbound_syncs : N;
  mc_shared_mempool_tick_interval_ms : N;
  mc_system_transaction_timeout_secs : N;
  mc_system_transaction_gc_interval_ms : N;
  mc_shared_mempool_validator_broadcast : bool;
}.

Record Mempool : Type := mkMempool {
  mp_transactions : TransactionStore;
  mp_sequence_number_cache : TtlCache AccountAddress N;
  mp_metrics_cache : TtlCache TxnPointer N;
  mp_system_transaction_timeout : N;
}.

(** The sum of two durations, in nanoseconds; seconds are 64 bits wide. *)
Definition duration_add {E} (a b : N) : outcome E N :=
  _ ← assert_ (a + b <? 2 ^ 64 * 10 ^ 9); Ok (a + b).

Module Mempool.
Section mempool.
Context `{CryptoHash Transaction}.
Implicit Types (self : Mempool).
Abbreviation step A := (method Mempool AnyError A).

Definition new (config : MempoolConfig) : Mempool :=
  mkMempool (TransactionStore.new (mc_capacity config) (mc_capacity_per_user config))
    (TtlCache.new (mc_capacity config) (100 * 10 ^ 9)) (TtlCache.new (mc_capacity config) (100 * 10 ^ 9))
    (mc_system_transaction_timeout_secs config * 10 ^ 9).

Definition set_store (t : TransactionStore) (self : Mempool) : Mempool :=
  mkMempool t (mp_sequence_number_cache self) (mp_metrics_cache self) (mp_system_transaction_timeout self).
Definition set_sequence_numbers (c : TtlCache AccountAddress N) (self : Mempool) : Mempool :=
  mkMempool (mp_transactions self) c (mp_metrics_cache self) (mp_system_transaction_timeout self).
Definition set_metrics (c : TtlCache TxnPointer N) (self : Mempool) : Mempool :=
  mkMempool (mp_transactions self) (mp_sequence_number_cache self) c (mp_system_transaction_timeout self).
Definition on_store {A} (m : method TransactionStore AnyError A) : step A := on mp_transactions set_store m.

Definition remove_transaction (clock : nat -> N) (sender : AccountAddress) (sequence_number : N)
    (is_rejected : bool) : step unit :=
  _ ← puts (fun self => set_metrics (snd (TtlCache.remove (sender, sequence_number) (mp_metrics_cache self))) self);
  current_seq_number ← gets (fun self => Ok (default 0 (fst (TtlCache.remove sender (mp_sequence_number_cache self)))));
  _ ← puts (fun self => set_sequence_numbers (snd (TtlCache.remove sender (mp_sequence_number_cache self))) self);
  if is_rejected then
    if current_seq_number <=? sequence_number
    then on_store (TransactionStore.reject_transaction sender sequence_number) else mret tt
  else
    next ← lift (add64 sequence_number 1);
    let new_seq_number := N.max current_seq_number next in
    _ ← puts (fun self => set_sequence_numbers
                (TtlCache.insert (clock 0%nat) sender new_seq_number (mp_sequence_number_cache self)) self);
    new_seq_number ← gets (fun self => Ok
      match TransactionStore.get_mempool_txn sender sequence_number (mp_transactions self) with
      | Some mempool_transaction =>
          match account_sequence_number_type (mt_sequence_info mempool_transaction) with
          | CRSN min_nonce size => CRSN min_nonce size
          | Sequential _ => Sequential new_seq_number
          end
      | None => Sequential new_seq_number
      end);
    _ ← puts (fun self => set_sequence_numbers
                (TtlCache.insert (clock 1%nat) sender (min_seq new_seq_number) (mp_sequence_number_cache self)) self);
    on_store (TransactionStore.commit_transaction sender new_seq_number).

Definition get_by_hash (hash : HashValue) (self : Mempool) : option SignedTransaction :=
  TransactionStore.get_by_hash hash (mp_transactions self).

(** The account's sequence number, as the caller and the cache know it. *)
Definition known_sequence_number (sender : AccountAddress) (crsn_or_seqno : AccountSequenceInfo) (self : Mempool)
    : AccountSequenceInfo :=
  match crsn_or_seqno with
  | CRSN _ _ => crsn_or_seqno
  | Sequential _ =>
      Sequential match TtlCache.get sender (mp_sequence_number_cache self) with
                 | Some value => N.max value (min_seq crsn_or_seqno)
                 | None => min_seq crsn_or_seqno
                 end
  end.

Definition add_txn (clock : nat -> N) (rng : N) (txn : SignedTransaction) (ranking_score : N)
    (crsn_or_seqno : AccountSequenceInfo) (timeline_state : TimelineState) : step MempoolStatus :=
  sequence_number ← gets (fun self => Ok (known_sequence_number (txn_sender txn) crsn_or_seqno self));
  _ ← puts (fun self => set_sequence_numbers
              (TtlCache.insert (clock 0%nat) (txn_sender txn) (min_seq sequence_number)
                 (mp_sequence_number_cache self)) self);
  if txn_sequence_number txn <? min_seq sequence_number then mret (status InvalidSeqNumber)
  else
    expiration_time ← gets (fun self => duration_add (clock 1%nat) (mp_system_transaction_timeout self));
    _ ← (if bool_decide (timeline_state = NonQualified) then mret tt
         else puts (fun self => set_metrics
                (TtlCache.insert (clock 3%nat) (txn_sender txn, txn_sequence_number txn) (clock 2%nat)
                   (mp_metrics_cache self)) self));
    let txn_info := MempoolTransaction.new txn expiration_time ranking_score timeline_state sequence_number in
    on_store (TransactionStore.insert rng txn_info).

(** ** [get_batch] *)
Record Batch : Type := mkBatch { seen : gset TxnPointer; skipped : gset TxnPointer; result_ : list TxnPointer }.

(** Is the transaction the next one of its account, or the successor of one that was
    taken? *)
Definition can_include (key : OrderedQueueKey) (seen : gset TxnPointer) (self : Mempool) : bool :=
  let tx_seq := transaction_sequence_number (oq_sequence_number key) in
  let seen_previous := (0 <? tx_seq) && bool_decide ((oq_address key, tx_seq - 1) ∈ seen) in
  seen_previous
  || bool_decide (TtlCache.get (oq_address key) (mp_sequence_number_cache self) = Some tx_seq)
  || match account_sequence_number_type (oq_sequence_number key) with CRSN _ _ => true | Sequential _ => false end.

Definition take_txn (ptr : TxnPointer) (b : Batch) : Batch :=
  mkBatch ({[ptr]} ∪ seen b) (skipped b) (result_ b ++ [ptr]).
Definition is_full (batch_size : N) (b : Batch) : bool := N.of_nat (length (result_ b)) =? batch_size.

(** [while skipped.contains(&skipped_txn)], at most one step per skipped transaction; the
    second component says whether the batch is full. *)
Fixpoint take_skipped (fuel : nat) (batch_size : N) (skipped_txn : TxnPointer) (b : Batch) : result (Batch * bool) :=
  if bool_decide (skipped_txn ∈ skipped b) then
    match fuel with
    | O => Panic
    | S fuel =>
        let b := take_txn skipped_txn b in
        if is_full batch_size b then Ok (b, true)
        else
          next ← add64 skipped_txn.2 1;
          take_skipped fuel batch_size (skipped_txn.1, next) b
    end
  else Ok (b, false).

Fixpoint fill_batch (batch_size : N) (queue : list OrderedQueueKey) (b : Batch) (self : Mempool) : result Batch :=
  match queue with
  | [] => Ok b
  | txn :: queue =>
      if bool_decide (oq_pointer txn ∈ seen b) then fill_batch batch_size queue b self
      else if can_include txn (seen b) self then
        let b := take_txn (oq_pointer txn) b in
        if is_full batch_size b then Ok b
        else
          next ← add64 (oq_pointer txn).2 1;
          '(b, full) ← take_skipped (size (skipped b)) batch_size (oq_address txn, next) b;
          if full : bool then Ok b else fill_batch batch_size queue b self
      else fill_batch batch_size queue (mkBatch (seen b) ({[oq_pointer txn]} ∪ skipped b) (result_ b)) self
  end.

Definition get_batch (batch_size : N) (seen : gset TxnPointer) (self : Mempool) : result (list SignedTransaction) :=
  b ← fill_batch batch_size (TransactionStore.iter_queue (mp_transactions self)) (mkBatch seen ∅ []) self;
  Ok (omap (fun ptr => TransactionStore.get ptr.1 ptr.2 (mp_transactions self)) (result_ b)).

(** ** Garbage collection and broadcast *)
Definition gc (clock : nat -> N) : step unit :=
  _ ← on_store (TransactionStore.gc_by_system_ttl (clock 1%nat));
  _ ← puts (fun self => set_metrics (TtlCache.gc (clock 0%nat) (mp_metrics_cache self)) self);
  puts (fun self => set_sequence_numbers (TtlCache.gc (clock 0%nat) (mp_sequence_number_cache self)) self).
Definition gc_by_expiration_time (block_time : N) : step unit :=
  on_store (TransactionStore.gc_by_expiration_time block_time).

Definition read_timeline (timeline_id count : N) (self : Mempool) : list SignedTransaction * N :=
  TransactionStore.read_timeline timeline_id count (mp_transactions self).
Definition timeline_range {E} (start_id end_id : N) (self : Mempool) : outcome E (list SignedTransaction) :=
  TransactionStore.timeline_range start_id end_id (mp_transactions self).
End mempool.
End Mempool.
