(* ===== verification/MempoolRun.v ===== *)
(** * Runs of mempool

    The operations that change mempool, what each of them does to the pool that the
    store stands for, and the bounds that hold in every run. *)

From S2P Require Import Prelude Crypto Errors Position Accumulator Verifier Ledger ConsensusTypes Blocks TransactionProofs MempoolIndex MempoolIndexLemmas MempoolStore MempoolSpec MempoolSteps Mempool.

Inductive MempoolOp : Type :=
  | AddTxn (clock : nat -> N) (rng : N) (txn : SignedTransaction) (ranking_score : N)
      (crsn_or_seqno : AccountSequenceInfo) (timeline_state : TimelineState)
  | RemoveTransaction (clock : nat -> N) (sender : AccountAddress) (sequence_number : N) (is_rejected : bool)
  | Gc (clock : nat -> N)
  | GcByExpirationTime (block_time : N).

Definition is_add (op : MempoolOp) : bool := match op with AddTxn _ _ _ _ _ _ => true | _ => false end.

(** The account's sequence number after a commit. *)
Definition committed_info (sender : AccountAddress) (sequence_number : N) (self : Mempool) (m : Pool) : AccountSequenceInfo :=
  let new_seq_number :=
    N.max (default 0 (TtlCache.get sender (mp_sequence_number_cache self))) (sequence_number + 1) in
  match account_sequence_number_type ∘ mt_sequence_info ∘ e_txn <$> m !! (sender, sequence_number) with
  | Some (CRSN min_nonce size) => CRSN min_nonce size
  | _ => Sequential new_seq_number
  end.

Definition pool_step (op : MempoolOp) (self : Mempool) (m : Pool) (r : option MempoolStatus) (m' : Pool) : Prop :=
  match op with
  | AddTxn clock rng txn score info state =>
      let info := Mempool.known_sequence_number (txn_sender txn) info self in
      if txn_sequence_number txn <? min_seq info then r = Some (status InvalidSeqNumber) /\ m' = m
      else exists st, r = Some st /\
        submitted (capacity (mp_transactions self)) (capacity_per_user (mp_transactions self))
          (MempoolTransaction.new txn (clock 1%nat + mp_system_transaction_timeout self) score state info) m st m'
  | RemoveTransaction clock sender n is_rejected =>
      r = None /\
      if is_rejected then
        m' = if default 0 (TtlCache.get sender (mp_sequence_number_cache self)) <=? n then rejected sender m else m
      else let info := committed_info sender n self m in readied sender info (cleaned sender (min_seq info) m) m'
  | Gc clock => r = None /\ m' = collected (expired system_time (clock 1%nat) m) m
  | GcByExpirationTime block_time => r = None /\ m' = collected (expired client_time block_time m) m
  end.

Section run.
Context `{CryptoHash Transaction}.
Implicit Types (m : Pool) (self : Mempool) (q : TxnPointer) (e : Entry).

Definition run_op (op : MempoolOp) : method Mempool AnyError (option MempoolStatus) :=
  match op with
  | AddTxn clock rng txn score info state => st ← Mempool.add_txn clock rng txn score info state; mret (Some st)
  | RemoveTransaction clock sender n is_rejected => _ ← Mempool.remove_transaction clock sender n is_rejected; mret None
  | Gc clock => _ ← Mempool.gc clock; mret None
  | GcByExpirationTime block_time => _ ← Mempool.gc_by_expiration_time block_time; mret None
  end.

(** Numbers fit their types, and new transactions have no place in the timeline yet. *)
Definition op_ok (op : MempoolOp) (timeout : N) : Prop :=
  match op with
  | AddTxn clock _ txn _ _ state =>
      txn_sequence_number txn < u64_max /\ clock 1%nat + timeout < 2 ^ 64 * 10 ^ 9 /\
      (state = NotReady \/ state = NonQualified)
  | RemoveTransaction _ _ n is_rejected => is_rejected = true \/ n < u64_max
  | _ => True
  end.

Definition timeline_budget m self : N := budget m (ti_timeline_id (timeline_index (mp_transactions self))).

Record mempool_ok m self : Prop := {
  mo_represents : represents m (mp_transactions self);
  mo_size : N.of_nat (size m) <= capacity (mp_transactions self);
  mo_user : user_ok (mp_transactions self);
  mo_narrow : narrow m;
}.

(** ** Sizes *)
Lemma dom_park_where P `{!forall q, Decision (P q)} m q : is_Some (park_where P m !! q) <-> is_Some (m !! q).
Proof. unfold park_where. rewrite lookup_update_where. apply fmap_is_Some. Qed.
Lemma readied_dom a info m m' : readied a info m m' -> forall q, is_Some (m' !! q) <-> is_Some (m !! q).
Proof. intros (k & m1 & Hpm & _ & ->) q. rewrite dom_park_where. by eapply promotes_dom. Qed.
Lemma narrow_dom m m' : narrow m -> (forall q, is_Some (m' !! q) -> is_Some (m !! q)) -> narrow m'.
Proof. intros Hn Hd q e He. destruct (Hd q) as [x Hx]; [eauto|]. by eapply Hn. Qed.
Lemma size_dom_le m m' : (forall q, is_Some (m' !! q) -> is_Some (m !! q)) -> (size m' <= size m)%nat.
Proof. intros Hd. rewrite <-!size_dom. apply subseteq_size. intros q. rewrite !elem_of_dom. apply Hd. Qed.
Lemma collected_dom l m q : is_Some (collected l m !! q) -> is_Some (m !! q).
Proof. rewrite lookup_collected. case_decide; [by intros []|]. by rewrite fmap_is_Some. Qed.

Lemma size_insert_le m q e : (size (<[q := e]> m) <= S (size m))%nat.
Proof.
  destruct (decide (is_Some (m !! q))) as [Hi|Hi%eq_None_not_Some];
    [rewrite map_size_insert_Some by done|rewrite map_size_insert_None by done]; lia.
Qed.

Lemma inserted_bounds c u txn m st m' : inserted c u txn m st m' -> N.of_nat (size m) <= c ->
  MempoolTransaction.sequence_number txn < u64_max -> narrow m -> N.of_nat (size m') <= c /\ narrow m'.
Proof.
  intros Hi Hsz Hq Hn. destruct Hi as [m' Hev _|m1 m2 Hev Hlt -> _|m1 m2 m' Hev Hlt -> _ Hrd].
  - pose proof (evicts_subseteq _ _ _ _ Hev) as Hs. pose proof (map_subseteq_size _ _ Hs). split; [lia|by eapply narrow_mono].
  - pose proof (evicts_subseteq _ _ _ _ Hev) as Hs. pose proof (map_subseteq_size _ _ Hs).
    match goal with |- context [cleaned ?a ?n m1] => pose proof (cleaned_subseteq a n m1) as Hs' end.
    pose proof (map_subseteq_size _ _ Hs'). split; [lia|]. eapply narrow_mono; [done|by etrans].
  - pose proof (evicts_subseteq _ _ _ _ Hev) as Hs. pose proof (readied_dom _ _ _ _ Hrd) as Hd. revert Hd.
    match goal with |- context [cleaned ?a ?n m1] => set (m2 := cleaned a n m1); pose proof (cleaned_subseteq a n m1 : m2 ⊆ m1) as Hs' end.
    intros Hd. pose proof (map_subseteq_size _ _ Hs'). split.
    + rewrite (size_dom_eq _ _ Hd). pose proof (size_insert_le m2 (txn_pointer txn) (added txn)). lia.
    + intros q e He. destruct (proj1 (Hd q)) as [x Hx]; [eauto|]. apply lookup_insert_Some in Hx as [[<- _]|[_ Hx]]; [done|].
      eapply narrow_mono; [exact Hn| |exact Hx]. by etrans.
Qed.

Lemma submitted_bounds c u txn m st m' : submitted c u txn m st m' -> N.of_nat (size m) <= c ->
  MempoolTransaction.sequence_number txn < u64_max -> narrow m -> N.of_nat (size m') <= c /\ narrow m'.
Proof.
  intros [st' m1 _ Hi|e st' _ _ _|e st' m1 _ _ _ Hi|e _ _ _] Hsz Hq Hn; [by eapply inserted_bounds|done| |done].
  eapply inserted_bounds; [done| |done|]; [|eapply narrow_mono; [done|apply delete_subseteq]].
  pose proof (map_subseteq_size _ _ (delete_subseteq m (txn_pointer txn))). lia.
Qed.

(** ** Every operation returns *)
Definition same_config self self' : Prop :=
  capacity (mp_transactions self') = capacity (mp_transactions self) /\
  capacity_per_user (mp_transactions self') = capacity_per_user (mp_transactions self) /\
  mp_system_transaction_timeout self' = mp_system_transaction_timeout self.
#[global] Instance same_config_preorder : PreOrder same_config.
Proof. split; [done|]. intros ??? (?&?&?) (?&?&?). split_and!; congruence. Qed.

Lemma shrinks_config self self' : shrinks (mp_transactions self) (mp_transactions self') ->
  mp_system_transaction_timeout self' = mp_system_transaction_timeout self -> same_config self self'.
Proof. by intros (? & ? & _) ?. Qed.

Definition step_post op self m (r : option MempoolStatus) self' : Prop :=
  exists m', mempool_ok m' self' /\ pool_step op self m r m' /\ same_config self self' /\
    timeline_budget m' self' <= timeline_budget m self + (if is_add op then 1 else 0) /\
    announces (counter (mp_transactions self)) m (counter (mp_transactions self')) m'.

Lemma mempool_on_store_ok {A} (f : method TransactionStore AnyError A) (Q : A -> Mempool -> Prop) self :
  returns f (fun a t => Q a (Mempool.set_store t self)) (mp_transactions self) -> returns (Mempool.on_store f) Q self.
Proof. intros Hf. by eapply safe_on. Qed.

(** An operation of the store that only removes and marks. *)
Lemma shrink_step_ok m self self' m' :
  mempool_ok m self -> represents m' (mp_transactions self') -> shrinks (mp_transactions self) (mp_transactions self') ->
  (forall q, is_Some (m' !! q) -> is_Some (m !! q)) -> mempool_ok m' self'.
Proof.
  intros [Hr Hsz Hu Hn] Hr' Hsh Hd. split; [done| |by eapply user_ok_shrinks|by eapply narrow_dom].
  rewrite (proj1 Hsh). pose proof (size_dom_le _ _ Hd). lia.
Qed.
Lemma collected_budget l m id : budget (collected l m) id <= budget m id.
Proof.
  unfold budget. enough (size (filter waiting (collected l m)) <= size (filter waiting m))%nat by lia.
  apply size_dom_le. intros q. intros [e [He Hw]%map_lookup_filter_Some]. rewrite lookup_collected in He.
  case_decide; [done|]. apply fmap_Some in He as (x & Hx & ->). exists x. apply map_lookup_filter_Some. split; [done|].
  revert Hw. unfold waiting. cbn. by case_decide.
Qed.

Lemma collected_announces c l m : announces c m c (collected l m).
Proof.
  apply announces_sub. intros q e. rewrite lookup_collected. case_decide; [done|]. intros (x & Hx & ->)%fmap_Some.
  case_decide; [done|]. by exists x.
Qed.

Lemma gc_step_ok m self clock :
  mempool_ok m self -> capacity (mp_transactions self) <= u64_max ->
  returns (Mempool.gc clock) (fun _ => step_post (Gc clock) self m None) self.
Proof.
  intros Hok Hcap. pose proof Hok as [Hr Hsz Hu Hn]. unfold returns, Mempool.gc. apply safe_bind, mempool_on_store_ok.
  eapply safe_mono; [apply (gc_ok m); [done|lia]|]. intros [] t (Hr' & Hsh & Hid).
  apply safe_bind, safe_puts, safe_puts. exists (collected (expired system_time (clock 1%nat) m) m).
  split_and!; [|done|by apply shrinks_config| |].
  - eapply shrink_step_ok; [done|exact Hr'|done|apply collected_dom].
  - unfold timeline_budget. cbn. rewrite Hid, N.add_0_r. apply collected_budget.
  - cbn. rewrite Hid. apply collected_announces.
Qed.
Lemma gc_expiration_ok m self block_time :
  mempool_ok m self -> capacity (mp_transactions self) <= u64_max ->
  returns (Mempool.gc_by_expiration_time block_time) (fun _ => step_post (GcByExpirationTime block_time) self m None) self.
Proof.
  intros Hok Hcap. pose proof Hok as [Hr Hsz Hu Hn]. apply mempool_on_store_ok.
  eapply safe_mono; [apply (gc_ok m); [done|lia]|]. intros [] t (Hr' & Hsh & Hid).
  exists (collected (expired client_time block_time m) m). split_and!; [|done|by apply shrinks_config| |].
  - eapply shrink_step_ok; [done|exact Hr'|done|apply collected_dom].
  - unfold timeline_budget. cbn. rewrite Hid, N.add_0_r. apply collected_budget.
  - cbn. rewrite Hid. apply collected_announces.
Qed.

Lemma add_txn_ok m self clock rng txn score info state :
  mempool_ok m self -> op_ok (AddTxn clock rng txn score info state) (mp_system_transaction_timeout self) ->
  capacity (mp_transactions self) <= u64_max -> timeline_budget m self < u64_max ->
  returns (Mempool.add_txn clock rng txn score info state)
    (fun st => step_post (AddTxn clock rng txn score info state) self m (Some st)) self.
Proof.
  intros [Hr Hsz Hu Hn] (Hseq & Hclock & Hstate) Hcap Hb. unfold returns, Mempool.add_txn.
  apply safe_bind, safe_gets, safe_bind, safe_puts. set (info' := Mempool.known_sequence_number _ _ self).
  unfold step_post, pool_step. fold info'. destruct (N.ltb_spec (txn_sequence_number txn) (min_seq info')) as [Hlt|Hge].
  { apply safe_ret. exists m. split_and!; try done; [unfold timeline_budget; cbn; lia|apply announces_refl]. }
  set (self1 := Mempool.set_sequence_numbers _ self). apply safe_bind, safe_gets. unfold duration_add.
  rewrite (proj2 (N.ltb_lt _ _)) by done. cbn [assert_ mbind outcome_bind].
  apply safe_bind. apply safe_mono with (fun _ s => mp_transactions s = mp_transactions self /\
    mp_system_transaction_timeout s = mp_system_transaction_timeout self).
  { destruct (bool_decide (state = NonQualified)); [by apply safe_ret|by apply safe_puts]. }
  intros [] self2 [Ht Hto]. set (txn' := MempoolTransaction.new _ _ _ _ _).
  apply mempool_on_store_ok. rewrite Ht. eapply safe_mono; [apply (insert_ok m _ rng txn'); try done|].
  - intros id. cbn. destruct Hstate as [-> | ->]; done.
  - intros st t (m' & Hr' & Hsub & Hu' & Hc' & Hp' & Hb' & Han). exists m'.
    destruct (submitted_bounds _ _ _ _ _ _ Hsub Hsz Hseq Hn) as [Hsz' Hn'].
    split_and!; [|by exists st|done|done|done]. split; [done| |done|done]. cbn. by rewrite Hc'.
Qed.

Lemma remove_ok m self clock sender n is_rejected :
  mempool_ok m self -> op_ok (RemoveTransaction clock sender n is_rejected) (mp_system_transaction_timeout self) ->
  capacity (mp_transactions self) <= u64_max -> timeline_budget m self <= u64_max ->
  returns (Mempool.remove_transaction clock sender n is_rejected)
    (fun _ => step_post (RemoveTransaction clock sender n is_rejected) self m None) self.
Proof.
  intros Hok Hop Hcap Hb. pose proof Hok as [Hr Hsz Hu Hn]. unfold returns, Mempool.remove_transaction.
  apply safe_bind, safe_puts, safe_bind, safe_gets, safe_bind, safe_puts.
  assert (forall c : TtlCache AccountAddress N, fst (TtlCache.remove sender c) = TtlCache.get sender c) as Hget.
  { intros c. unfold TtlCache.remove, TtlCache.get. by destruct (tc_data c !! sender) as [[]|]. }
  cbn [mp_sequence_number_cache Mempool.set_metrics]. rewrite Hget. unfold step_post, pool_step.
  set (current := default 0 _). destruct is_rejected.
  - destruct (N.leb_spec current n) as [Hle|Hlt].
    + apply mempool_on_store_ok. cbn [mp_transactions Mempool.set_sequence_numbers Mempool.set_metrics].
      eapply safe_mono; [by apply (reject_ok m)|]. intros [] t (Hr' & Hsh & Hid). exists (rejected sender m).
      split_and!; [|done|done|by apply shrinks_config| |].
      * eapply shrink_step_ok; [done|exact Hr'|done|]. intros q [e He%lookup_rejected]. naive_solver.
      * unfold timeline_budget. cbn. rewrite Hid, N.add_0_r. apply budget_mono, map_filter_subseteq.
      * cbn. rewrite Hid. apply announces_subseteq, map_filter_subseteq.
    + apply safe_ret. exists m. split_and!; try done; [unfold timeline_budget; cbn; lia|apply announces_refl].
  - destruct Hop as [|Hop]; [done|]. assert (@add64 AnyError n 1 = Ok (n + 1)) as -> by (apply add64_Ok; lia).
    apply safe_bind, safe_lift, safe_bind, safe_puts, safe_bind, safe_gets.
    cbn [mp_transactions Mempool.set_sequence_numbers Mempool.set_metrics]. rewrite (rp_txns _ _ Hr), lookup_txns.
    assert (match e_txn <$> m !! (sender, n) with
      | Some t => match account_sequence_number_type (mt_sequence_info t) with
                  | Sequential _ => Sequential (N.max current (n + 1)) | CRSN a b => CRSN a b end
      | None => Sequential (N.max current (n + 1)) end = committed_info sender n self m) as ->.
    { unfold committed_info. fold current. by destruct (m !! (sender, n)). }
    set (info := committed_info sender n self m). apply safe_bind, safe_puts, mempool_on_store_ok.
    cbn [mp_transactions Mempool.set_sequence_numbers Mempool.set_metrics].
    unfold TransactionStore.commit_transaction. apply safe_bind.
    eapply safe_mono; [by apply (clean_committed_ok m)|]. set (m1 := cleaned _ _ m). intros [] t (Hr1 & Hsh1 & Hid1).
    assert (m1 ⊆ m) as Hsub by apply cleaned_subseteq.
    pose proof (budget_mono _ _ (ti_timeline_id (timeline_index (mp_transactions self))) Hsub) as Hb1.
    unfold timeline_budget in Hb. eapply safe_mono; [apply (process_ready_ok m1); [done| | |]|].
    + rewrite Hid1. lia.
    + by eapply narrow_mono.
    + pose proof (map_subseteq_size _ _ Hsub). lia.
    + intros [] t2 (k & m2 & Hpm & Hend & Hsd). assert (readied sender info m1 (park_where (fun q => q.1 = sender /\ k < q.2) m2)) as Hrd.
      { exists k, m2. done. }
      eexists. split_and!; [|done|exact Hrd| | |].
      * eapply shrink_step_ok; [done|apply Hsd|etrans; [done|apply Hsd]|]. intros q Hq%(readied_dom _ _ _ _ Hrd).
        destruct Hq as [x Hx]. exists x. by eapply lookup_weaken.
      * apply shrinks_config; [|done]. etrans; [done|apply Hsd].
      * unfold timeline_budget. cbn. rewrite (sd_budget _ _ _ _ Hsd), Hid1. lia.
      * cbn. eapply announces_trans; [|apply Hsd]. rewrite Hid1. by apply announces_subseteq.
Qed.

Lemma run_op_ok op m self :
  mempool_ok m self -> op_ok op (mp_system_transaction_timeout self) -> capacity (mp_transactions self) <= u64_max ->
  timeline_budget m self + (if is_add op then 1 else 0) <= u64_max ->
  returns (run_op op) (step_post op self m) self.
Proof.
  intros Hok Hop Hcap Hb. destruct op as [clock rng txn score info state|clock sender n rej|clock|time];
    unfold returns; cbn [run_op is_add] in *; apply safe_bind.
  - eapply safe_mono; [by apply (add_txn_ok m); [..|lia]|]. done.
  - eapply safe_mono; [by apply (remove_ok m); [..|lia]|]. done.
  - eapply safe_mono; [by apply (gc_step_ok m)|]. done.
  - eapply safe_mono; [by apply (gc_expiration_ok m)|]. done.
Qed.

(** ** No transaction is forgotten

    Every transaction is in the queue that blocks are made from, or parked. *)
Definition covered m : Prop := forall q e, m !! q = Some e -> e_queued e || e_parked e = true.

Lemma covered_subseteq m m' : covered m -> m' ⊆ m -> covered m'.
Proof. intros Hc Hs q e He. apply (Hc q). by eapply lookup_weaken. Qed.
Lemma promoted_covered id e : e_queued (promoted id e) || e_parked (promoted id e) = true.
Proof. unfold promoted. by case_decide. Qed.

(** One entry may still have to find its place. *)
Lemma readied_covered a info m m' (skip : TxnPointer -> Prop) :
  readied a info m m' -> (forall q e, m !! q = Some e -> ~ skip q -> e_queued e || e_parked e = true) ->
  (forall q e, m !! q = Some e -> skip q -> is_ready e = false /\ q.1 = a /\ exists n, info = Sequential n /\ n <= q.2) ->
  covered m'.
Proof.
  intros (k & m1 & Hpm & Hend & ->) Hc Hs q e. unfold park_where. rewrite lookup_update_where.
  intros (x & Hx & ->)%fmap_Some. assert (is_Some (m !! q)) as [y Hy] by (rewrite <-promotes_dom; eauto).
  assert (forall z, e_queued z || e_parked z = true ->
    let z' := if decide (q.1 = a /\ k < q.2) then if is_ready z then z else parked z else z in e_queued z' || e_parked z' = true) as Hz.
  { intros z Hz. cbn. case_decide; [|done]. destruct (is_ready z); [done|]. cbn. apply orb_true_r. }
  assert (becomes_ready a info k q -> e_queued x || e_parked x = true) as Hbr.
  { intros Hbr. destruct (pm_in _ _ _ Hpm _ _ Hy Hbr) as [id Hid]. assert (x = promoted id y) as -> by congruence.
    apply promoted_covered. }
  destruct (decide (e_queued x || e_parked x = true)) as [Hx'|Hx']; [by apply Hz|].
  assert (x = y) as ->. { rewrite (pm_out _ _ _ Hpm) in Hx by tauto. congruence. }
  destruct (decide (e_queued y || e_parked y = true)) as [|Hn]; [done|].
  assert (~ ~ skip q) as Hsk by (intros Hsk; apply Hn; by eapply Hc).
  assert (is_ready y = false /\ q.1 = a /\ k < q.2) as (Hr & Ha & Hk).
  { destruct (decide (is_ready y = false /\ q.1 = a /\ k < q.2)) as [|Hd]; [done|]. exfalso. apply Hsk. intros Hq.
    apply Hd. destruct (Hs _ _ Hy Hq) as (Hr & Ha & n & -> & Hle). split_and!; [done|done|].
    destruct (N.lt_trichotomy q.2 k) as [Hlt|[Heq|]]; [|exfalso|done].
    - exfalso. apply Hx', Hbr. split; [done|]. cbn. lia.
    - destruct Hend as (_ & _ & Hno). destruct q as [b j]. cbn in *. subst. congruence. }
  rewrite decide_True by done. rewrite Hr. cbn. apply orb_true_r.
Qed.

Lemma inserted_covered c u txn m st m' n :
  inserted c u txn m st m' -> covered m -> (forall id, mt_timeline_state txn <> Ready id) ->
  account_sequence_number_type (mt_sequence_info txn) = Sequential n -> n <= MempoolTransaction.sequence_number txn ->
  covered m'.
Proof.
  intros Hi Hc Hst Hinfo Hle. destruct Hi as [m' Hev _|m1 m2 Hev Hlt -> _|m1 m2 m' Hev Hlt -> _ Hrd];
    pose proof (covered_subseteq _ _ Hc (evicts_subseteq _ _ _ _ Hev)) as Hc1.
  - done.
  - eapply covered_subseteq; [exact Hc1|apply cleaned_subseteq].
  - eapply (readied_covered _ _ _ _ (fun q => q = txn_pointer txn)); [exact Hrd| |].
    + intros q e He Hq. rewrite lookup_insert_ne in He by congruence.
      eapply (covered_subseteq m1); [exact Hc1|apply cleaned_subseteq|exact He].
    + intros q e He ->. rewrite lookup_insert_eq in He. injection He as <-. split_and!; [|done|by exists n].
      unfold is_ready. cbn. destruct (mt_timeline_state txn) as [id| |]; [by destruct (Hst id)|done|done].
Qed.

(** The account of every new transaction counts its transactions. *)
Definition counts (op : MempoolOp) : Prop :=
  match op with AddTxn _ _ _ _ info _ => exists n, info = Sequential n | _ => True end.

Lemma pool_step_covered op self m r m' :
  pool_step op self m r m' -> op_ok op (mp_system_transaction_timeout self) -> counts op -> covered m -> covered m'.
Proof.
  destruct op as [clock rng txn score info state|clock sender n rej|clock|time]; cbn [pool_step op_ok counts].
  - intros Hs (_ & _ & Hstate) [n ->] Hc. cbn in Hs. set (k := match _ with Some _ => _ | None => _ end) in Hs.
    destruct (N.ltb_spec (txn_sequence_number txn) k) as [|Hge]; [by destruct Hs as [_ ->]|].
    assert (forall id, state <> Ready id) as Hst by (intros id; destruct Hstate as [-> | ->]; done).
    destruct Hs as (st & _ & [st' m1 _ Hi|e st' _ _ _|e st' m1 _ _ _ Hi|e _ _ _]); [|done| |done].
    + by eapply inserted_covered.
    + eapply inserted_covered; [exact Hi| |done|done|done]. eapply covered_subseteq; [exact Hc|apply delete_subseteq].
  - intros [_ Hs] _ _ Hc. destruct rej.
    + destruct (_ <=? n); subst m'; [|done]. eapply covered_subseteq; [exact Hc|apply map_filter_subseteq].
    + eapply (readied_covered _ _ _ _ (fun _ => False)); [exact Hs| |done].
      intros q e He _. eapply (covered_subseteq m); [exact Hc|apply cleaned_subseteq|exact He].
  - intros [_ ->] _ _ Hc q e. rewrite lookup_collected. case_decide; [done|]. intros (x & Hx & ->)%fmap_Some.
    case_decide; [apply orb_true_r|by apply (Hc q)].
  - intros [_ ->] _ _ Hc q e. rewrite lookup_collected. case_decide; [done|]. intros (x & Hx & ->)%fmap_Some.
    case_decide; [apply orb_true_r|by apply (Hc q)].
Qed.

(** ** Runs *)
Fixpoint run_ops (ops : list MempoolOp) : method Mempool AnyError unit :=
  match ops with
  | [] => mret tt
  | op :: ops => _ ← run_op op; run_ops ops
  end.
Definition adds (ops : list MempoolOp) : N := N.of_nat (length (filter is_add ops)).

Lemma adds_cons op ops : adds (op :: ops) = (if is_add op then 1 else 0) + adds ops.
Proof. unfold adds. rewrite filter_cons. destruct (is_add op); cbn [decide Is_true]; [rewrite decide_True by done; cbn [length]; lia|by rewrite decide_False by (by intros [])]. Qed.

Record run_post (ops : list MempoolOp) self m self' m' : Prop := {
  rs_ok : mempool_ok m' self';
  rs_config : same_config self self';
  rs_budget : timeline_budget m' self' <= timeline_budget m self + adds ops;
  rs_announces : announces (counter (mp_transactions self)) m (counter (mp_transactions self')) m';
  rs_covered : Forall counts ops -> covered m -> covered m';
}.

Lemma run_ops_ok ops : forall m self,
  mempool_ok m self -> Forall (fun op => op_ok op (mp_system_transaction_timeout self)) ops ->
  capacity (mp_transactions self) <= u64_max -> timeline_budget m self + adds ops <= u64_max ->
  returns (run_ops ops) (fun _ self' => exists m', run_post ops self m self' m') self.
Proof.
  induction ops as [|op ops IH]; intros m self Hok Hops Hcap Hb; unfold returns; cbn [run_ops].
  { apply safe_ret. exists m. split; try done; [lia|apply announces_refl]. }
  apply Forall_cons in Hops as [Hop Hops]. rewrite adds_cons in Hb. apply safe_bind.
  eapply safe_mono; [apply (run_op_ok op m); [done|done|done|lia]|].
  intros r self1 (m1 & Hok1 & Hst & Hcfg & Hb1 & Han). pose proof Hcfg as (Hc1 & _ & Ht1).
  eapply safe_mono; [apply (IH m1); [done|by rewrite Ht1|by rewrite Hc1|lia]|].
  intros [] self2 (m2 & [Hok2 Hcfg2 Hb2 Han2 Hcov2]). exists m2. rewrite <-adds_cons in Hb.
  split; [done|by etrans|rewrite adds_cons; lia|by eapply announces_trans|].
  intros [Hcn Hcns]%Forall_cons Hcov. apply Hcov2; [done|]. by eapply pool_step_covered.
Qed.

Lemma mempool_new_ok config : mempool_ok ∅ (Mempool.new config) /\ timeline_budget ∅ (Mempool.new config) = 1.
Proof.
  split; [|by vm_compute]. split; [split| | |].
  - intros a n. unfold TransactionStore.get_mempool_txn. cbn. by rewrite lookup_txns, !lookup_empty.
  - split; cbn; try (intros *; rewrite ?lookup_empty; naive_solver).
    + intros q t. rewrite lookup_txns, lookup_empty. done.
    + apply parking_ok_new.
    + intros q. rewrite elem_of_nil. split; [done|]. intros (e & He & _). by rewrite lookup_empty in He.
  - split; cbn; unfold keys, txns; by rewrite fmap_empty, map_to_set_empty.
  - cbn. rewrite map_size_empty. lia.
  - intros a t. cbn. by rewrite lookup_empty.
  - intros q e. by rewrite lookup_empty.
Qed.
End run.

(** ** The batches of transactions for consensus

    What [get_batch] takes from the queue.  A transaction can start a chain if it is the
    next one of its account, or its account does not count transactions; any other one
    needs its predecessor to be with consensus already, or earlier in the batch. *)
Definition succ (q : TxnPointer) : TxnPointer := (q.1, q.2 + 1).
(** The predecessor of [q] is among [S]. *)
Definition after (S : gset TxnPointer) (q : TxnPointer) : Prop := exists p, p ∈ S /\ q = succ p.

Lemma after_pred S q : after S q <-> 0 < q.2 /\ (q.1, q.2 - 1) ∈ S.
Proof.
  split.
  - intros ([a n] & Hp & ->). cbn. split; [lia|]. by replace (n + 1 - 1) with n by lia.
  - intros [Hq Hp]. exists (q.1, q.2 - 1). split; [done|]. destruct q as [a n]. unfold succ. cbn in *. f_equal. lia.
Qed.
Lemma succ_inj p q : succ p = succ q -> p = q.
Proof. destruct p, q. unfold succ. cbn. intros [= -> ?]. f_equal. lia. Qed.

Section batch.
Context `{CryptoHash Transaction}.
Context (self : Mempool) (batch_size : N) (seen0 : gset TxnPointer) (startable : TxnPointer -> bool).
Implicit Types (b : Mempool.Batch) (q p : TxnPointer).
Import Mempool.

Abbreviation taken b := (list_to_set (result_ b) : gset TxnPointer).

(** Each transaction of the batch can go at its place. *)
Definition ordered (l : list TxnPointer) : Prop :=
  forall i q, l !! i = Some q -> startable q = true \/ after (seen0 ∪ list_to_set (take i l)) q.

Record batch_ok (walked : list TxnPointer) (open : TxnPointer -> Prop) b : Prop := {
  bo_seen : seen b = seen0 ∪ taken b;
  bo_nodup : NoDup (result_ b);
  bo_new q : q ∈ result_ b -> (q ∉ seen0) /\ q ∈ walked;
  bo_ordered : ordered (result_ b);
  bo_skipped q : q ∈ skipped b -> q ∈ walked /\ (q ∉ seen0) /\ startable q = false /\ ~ after seen0 q;
  bo_follow q : q ∈ skipped b -> ~ open q -> q ∈ result_ b <-> after (taken b) q;
  bo_open q : q ∈ skipped b -> open q -> q ∉ result_ b;
  bo_walked q : q ∈ walked -> q ∈ seen0 \/ q ∈ result_ b \/ q ∈ skipped b;
  bo_length : batch_size = 0 \/ N.of_nat (length (result_ b)) < batch_size;
}.

(** What is returned: a full batch, or one to which nothing can be added. *)
Record batch_done (queue : list TxnPointer) (l : list TxnPointer) : Prop := {
  bd_nodup : NoDup l;
  bd_new q : q ∈ l -> (q ∉ seen0) /\ q ∈ queue;
  bd_ordered : ordered l;
  bd_length : batch_size = 0 \/ N.of_nat (length l) <= batch_size;
  bd_maximal : N.of_nat (length l) = batch_size \/
    forall q, q ∈ queue -> q ∉ seen0 -> q ∉ l -> startable q = false /\ ~ after (seen0 ∪ list_to_set l) q;
}.

Lemma ordered_snoc l q : ordered l -> startable q = true \/ after (seen0 ∪ list_to_set l) q -> ordered (l ++ [q]).
Proof.
  intros Ho Hq i p [Hi|[Hi <-]]%lookup_snoc_Some.
  - destruct Hi as [Hlt Hi]. rewrite take_app_le by lia. by apply Ho.
  - subst i. by rewrite take_app_length.
Qed.

(** The predecessor that was just taken is open: its successor may wait among the skipped. *)
Lemma take_txn_ok walked walked' open b q :
  batch_ok walked open b -> q ∉ seen b -> (forall p, p ∈ walked' <-> p ∈ walked \/ p = q) -> startable q = true \/ after (seen b) q ->
  (forall p, p ∈ skipped b -> open p <-> p = q) -> is_full batch_size (take_txn q b) = false ->
  batch_ok walked' (fun p => p = succ q) (take_txn q b).
Proof.
  intros [Hse Hnd Hnew Hor Hsk Hfo Hop Hwa Hlen] Hq Hw Hst Hopen Hfull.
  rewrite Hse, not_elem_of_union, elem_of_list_to_set in Hq. destruct Hq as [Hq0 Hq].
  assert (forall p, p ∈ result_ b ++ [q] <-> p ∈ result_ b \/ p = q) as Hin.
  { intros p. by rewrite elem_of_app, list_elem_of_singleton. }
  split; cbn.
  - rewrite Hse, list_to_set_app_L. cbn. set_solver.
  - apply NoDup_app. split_and!; [done| |apply NoDup_singleton]. intros p Hp ->%list_elem_of_singleton. done.
  - intros p [Hp| ->]%Hin; rewrite Hw; [|by auto]. destruct (Hnew p Hp). auto.
  - apply ordered_snoc; [done|]. by rewrite <-Hse.
  - intros p Hp. rewrite Hw. destruct (Hsk p Hp) as (? & ? & ? & ?). auto.
  - intros p Hp Hne. rewrite Hin. rewrite list_to_set_app_L. cbn.
    assert (after (taken b ∪ ({[q]} ∪ ∅)) p <-> after (taken b) p) as ->.
    { split; intros (r & Hr & ->); exists r; (split; [|done]); [|set_solver].
      apply elem_of_union in Hr as [Hr|[->%elem_of_singleton|Hr]%elem_of_union]; [done|by destruct Hne|].
      by apply not_elem_of_empty in Hr. }
    destruct (decide (p = q)) as [->|Hpq].
    + split; [|tauto]. intros _. destruct (Hsk q Hp) as (_ & _ & Hns & Hna).
      destruct Hst as [Hst|(r & Hr & ->)]; [congruence|]. exists r. split; [|done]. rewrite Hse in Hr.
      apply elem_of_union in Hr as [Hr|Hr]; [|done]. exfalso. apply Hna. by exists r.
    + rewrite <-(Hfo p Hp) by (by rewrite Hopen). tauto.
  - intros p Hp ->. rewrite Hin. intros [Hr|Hr].
    + assert (succ q <> q) by (intros Heq; destruct q as [a n]; injection Heq; lia).
      apply (Hfo _ Hp) in Hr as (r & Hr & <-%succ_inj); [|by rewrite Hopen]. by apply elem_of_list_to_set in Hr.
    + destruct q as [a n]. injection Hr. lia.
  - intros p [[?|[?|?]]%Hwa| ->]%Hw; rewrite Hin; auto.
  - destruct Hlen as [|Hlen]; [by left|right]. unfold is_full, take_txn in Hfull. cbn in Hfull.
    apply N.eqb_neq in Hfull. rewrite length_app in *. cbn in *. lia.
Qed.

(** A full batch is returned at once. *)
Lemma take_full walked open b q queue :
  batch_ok walked open b -> q ∉ seen b -> q ∈ queue -> walked ⊆ queue -> startable q = true \/ after (seen b) q ->
  is_full batch_size (take_txn q b) = true -> batch_done queue (result_ (take_txn q b)).
Proof.
  intros [Hse Hnd Hnew Hor _ _ _ _ Hlen] Hq Hw Hsub Hst Hfull. apply N.eqb_eq in Hfull. cbn in *.
  rewrite Hse, not_elem_of_union, elem_of_list_to_set in Hq. destruct Hq as [Hq0 Hq]. split; cbn.
  - apply NoDup_app. split_and!; [done| |apply NoDup_singleton]. intros p Hp ->%list_elem_of_singleton. done.
  - intros p. rewrite elem_of_app, list_elem_of_singleton. intros [Hp| ->]; [|done]. destruct (Hnew p Hp). auto.
  - apply ordered_snoc; [done|]. by rewrite <-Hse.
  - right. lia.
  - by left.
Qed.

Definition remaining b : gset TxnPointer := skipped b ∖ taken b.

Lemma take_skipped_ok fuel : forall walked queue b p,
  batch_ok walked (fun q => q = succ p) b -> p ∈ seen b -> walked ⊆ queue -> Forall (fun q => q.2 < u64_max) queue ->
  (size (remaining b) <= fuel)%nat ->
  exists b' full, take_skipped fuel batch_size (succ p) b = Ok (b', full) /\
    if full : bool then batch_done queue (result_ b') else batch_ok walked (fun _ => False) b' /\ skipped b' = skipped b.
Proof.
  induction fuel as [|fuel IH]; intros walked queue b p Hok Hp Hsub Hw Hf; cbn [take_skipped].
  all: destruct (decide (succ p ∈ skipped b)) as [Hs|Hs];
    [rewrite bool_decide_true by done|rewrite bool_decide_false by done]; last first.
  1, 3: exists b, false; split; [done|]; split; [|done]; destruct Hok as [????? Hfo Hop ??]; split; try done;
    intros q Hq Hn; apply Hfo; [done|]; intros ->; done.
  - exfalso. pose proof (bo_open _ _ _ Hok _ Hs eq_refl) as Hn.
    assert (succ p ∈ remaining b) as Hr by (unfold remaining; rewrite elem_of_difference, elem_of_list_to_set; done).
    assert (remaining b = ∅) as He by (apply leibniz_equiv, size_empty_iff; lia). rewrite He in Hr. by apply not_elem_of_empty in Hr.
  - pose proof (bo_open _ _ _ Hok _ Hs eq_refl) as Hn. destruct (bo_skipped _ _ _ Hok _ Hs) as (Hwk & H0 & _ & _).
    assert (succ p ∉ seen b) as Hns by (rewrite (bo_seen _ _ _ Hok), not_elem_of_union, elem_of_list_to_set; done).
    assert (after (seen b) (succ p)) as Haf by (by exists p).
    destruct (is_full batch_size (take_txn (succ p) b)) eqn:Hfull.
    + exists (take_txn (succ p) b), true. split; [done|]. eapply take_full; eauto.
    + assert ((succ p).2 < u64_max) as Hlt by (rewrite Forall_forall in Hw; by apply Hw, Hsub).
      assert (@add64 AnyError (succ p).2 1 = Ok ((succ p).2 + 1)) as -> by (apply add64_Ok; lia). cbn [mbind outcome_bind].
      destruct (IH walked queue (take_txn (succ p) b) (succ p)) as (b' & full & Hrun & Hpost).
      * eapply take_txn_ok; eauto. intros q. split; [auto|]. by intros [| ->].
      * cbn. set_solver.
      * done.
      * done.
      * assert (size (remaining (take_txn (succ p) b)) < size (remaining b))%nat; [|lia]. apply subset_size.
        unfold remaining. cbn. rewrite list_to_set_app_L. cbn. split; [set_solver|]. intros Hsub'.
        specialize (Hsub' (succ p)). rewrite !elem_of_difference, elem_of_list_to_set in Hsub'. set_solver.
      * exists b', full. split; [done|]. by destruct full.
Qed.

(** ** The whole queue *)
Definition start_key (key : OrderedQueueKey) : bool :=
  bool_decide (TtlCache.get (oq_address key) (mp_sequence_number_cache self) =
    Some (transaction_sequence_number (oq_sequence_number key)))
  || match account_sequence_number_type (oq_sequence_number key) with CRSN _ _ => true | Sequential _ => false end.
Lemma can_include_spec key S : start_key key = startable (oq_pointer key) ->
  can_include key S self = true <-> startable (oq_pointer key) = true \/ after S (oq_pointer key).
Proof.
  intros Hst. unfold can_include. rewrite <-orb_assoc. fold (start_key key).
  rewrite Hst, orb_true_iff, andb_true_iff, after_pred, N.ltb_lt, bool_decide_eq_true. unfold oq_pointer. cbn. tauto.
Qed.

(** A transaction that was seen, or that has to wait. *)
Lemma walk_seen walked b q : batch_ok walked (fun _ => False) b -> q ∈ seen b -> batch_ok (walked ++ [q]) (fun _ => False) b.
Proof.
  intros [Hse Hnd Hnew Hor Hsk Hfo Hop Hwa Hlen] Hq. rewrite Hse, elem_of_union, elem_of_list_to_set in Hq. split; try done.
  - intros p Hp. destruct (Hnew p Hp). rewrite elem_of_app. auto.
  - intros p Hp. destruct (Hsk p Hp) as (? & ? & ? & ?). rewrite elem_of_app. auto.
  - intros p. rewrite elem_of_app, list_elem_of_singleton. intros [Hp| ->]; [auto|]. tauto.
Qed.
Lemma walk_skipped walked b q :
  batch_ok walked (fun _ => False) b -> q ∉ walked -> q ∉ seen b -> startable q = false -> ~ after (seen b) q ->
  batch_ok (walked ++ [q]) (fun _ => False) (mkBatch (seen b) ({[q]} ∪ skipped b) (result_ b)).
Proof.
  intros [Hse Hnd Hnew Hor Hsk Hfo Hop Hwa Hlen] Hw Hq Hst Haf.
  rewrite Hse, not_elem_of_union, elem_of_list_to_set in Hq. destruct Hq as [Hq0 Hq].
  assert (~ after seen0 q /\ ~ after (taken b) q) as [Ha0 Har].
  { split; intros (p & Hp & ->); apply Haf; exists p; (split; [|done]); rewrite Hse; set_solver. }
  split; cbn; try done.
  - intros p Hp. destruct (Hnew p Hp). rewrite elem_of_app. auto.
  - intros p. rewrite elem_of_union, elem_of_singleton, elem_of_app, list_elem_of_singleton. intros [->|Hp]; [auto|].
    destruct (Hsk p Hp) as (? & ? & ? & ?). auto.
  - intros p. rewrite elem_of_union, elem_of_singleton. intros [->|Hp] Hn; [tauto|by apply Hfo].
  - intros p. rewrite elem_of_app, list_elem_of_singleton, elem_of_union, elem_of_singleton. intros [[?|[?|?]]%Hwa| ->]; auto.
Qed.

Lemma fill_batch_ok queue : forall walked b,
  batch_ok walked (fun _ => False) b -> NoDup (walked ++ (oq_pointer <$> queue)) ->
  Forall (fun q => q.2 < u64_max) (walked ++ (oq_pointer <$> queue)) ->
  Forall (fun key => start_key key = startable (oq_pointer key)) queue ->
  exists b', fill_batch batch_size queue b self = Ok b' /\ batch_done (walked ++ (oq_pointer <$> queue)) (result_ b').
Proof.
  induction queue as [|key queue IH]; intros walked b Hok Hnd Hw Hst; cbn [fill_batch].
  { exists b. split; [done|]. rewrite fmap_nil, app_nil_r. destruct Hok as [Hse Hnd' Hnew Hor Hsk Hfo _ Hwa Hlen].
    split; try done; [destruct Hlen; [by left|right; lia]|]. right. intros q Hq H0 Hr.
    destruct (Hwa q Hq) as [?|[?|Hs]]; [done|done|]. destruct (Hsk q Hs) as (_ & _ & Hns & Hna). split; [done|].
    intros (p & [Hp|Hp]%elem_of_union & ->); [apply Hna; by exists p|]. apply Hr, Hfo; [done|tauto|by exists p]. }
  apply Forall_cons in Hst as [Hkey Hst]. rewrite fmap_cons in *. set (q := oq_pointer key) in *.
  rewrite (cons_middle q walked), app_assoc in *.
  assert (q ∉ walked) as Hqw by (apply NoDup_app in Hnd as [[_ [Hd _]]%NoDup_app _]; intros Hq; by apply (Hd q Hq), list_elem_of_singleton).
  destruct (decide (q ∈ seen b)) as [Hq|Hq]; [rewrite bool_decide_true by done|rewrite bool_decide_false by done].
  { apply IH; [by apply walk_seen|done|done|done]. }
  destruct (can_include key (seen b) self) eqn:Hinc; last first.
  { assert (~ (startable q = true \/ after (seen b) q)) as Hno by (unfold q; rewrite <-can_include_spec, Hinc by done; done).
    apply IH; [|done|done|done]. apply walk_skipped; try done; [|tauto]. destruct (startable q); [tauto|done]. }
  assert (startable q = true \/ after (seen b) q) as Hgo by (by apply (can_include_spec key)).
  destruct (is_full batch_size (take_txn q b)) eqn:Hfull.
  { eexists. split; [done|]. eapply take_full; [done|done|set_solver|set_solver|done|done]. }
  assert (q.2 < u64_max) as Hlt by (rewrite Forall_forall in Hw; apply Hw; set_solver).
  fold q. assert (@add64 AnyError q.2 1 = Ok (q.2 + 1)) as -> by (apply add64_Ok; lia). cbn [mbind outcome_bind].
  change (oq_address key, q.2 + 1) with (succ q).
  destruct (take_skipped_ok (size (skipped (take_txn q b))) (walked ++ [q]) ((walked ++ [q]) ++ (oq_pointer <$> queue)) (take_txn q b) q)
    as (b' & full & Hrun & Hpost).
  - eapply take_txn_ok; [done|done| |done| |done].
    + intros p. by rewrite elem_of_app, list_elem_of_singleton.
    + intros p Hp. split; [done|]. intros ->. apply Hqw. by apply (bo_skipped _ _ _ Hok).
  - cbn. set_solver.
  - set_solver.
  - done.
  - apply subseteq_size. unfold remaining. set_solver.
  - rewrite Hrun. destruct full; [by exists b'|]. apply IH; [apply Hpost|done|done|done].
Qed.
End batch.

(** ** [get_batch] *)
Definition startable (self : Mempool) (m : Pool) (q : TxnPointer) : bool :=
  bool_decide (TtlCache.get q.1 (mp_sequence_number_cache self) = Some q.2)
  || match m !! q with
     | Some e => match account_sequence_number_type (mt_sequence_info (e_txn e)) with CRSN _ _ => true | Sequential _ => false end
     | None => false
     end.
Definition queued (m : Pool) : list TxnPointer := (map_to_list (filter (fun p => e_queued p.2 = true) m)).*1.
Lemma elem_of_queued m q : q ∈ queued m <-> exists e, m !! q = Some e /\ e_queued e = true.
Proof.
  unfold queued. rewrite list_elem_of_fmap. split.
  - intros ([q' e] & -> & [? ?]%elem_of_map_to_list%map_lookup_filter_Some). eauto.
  - intros (e & He & Ht). exists (q, e). split; [done|]. by apply elem_of_map_to_list, map_lookup_filter_Some.
Qed.

Section get_batch.
Context `{CryptoHash Transaction}.

Lemma elem_of_iter_queue m self key : index_ok m self ->
  key ∈ TransactionStore.iter_queue self <-> exists q e, m !! q = Some e /\ e_queued e = true /\
    key = PriorityIndex.queue_key (PriorityIndex.make_key (e_txn e), account_sequence_number_type (mt_sequence_info (e_txn e))).
Proof.
  intros Hix. unfold TransactionStore.iter_queue, PriorityIndex.iter. rewrite list_elem_of_fmap. split.
  - intros ([k info] & -> & Hk). rewrite merge_sort_Permutation, elem_of_map_to_list, (ix_priority _ _ Hix) in Hk.
    destruct Hk as (q & e & He & Hq & <- & <-). eauto.
  - intros (q & e & He & Hq & ->). eexists. split; [done|]. rewrite merge_sort_Permutation, elem_of_map_to_list.
    apply (ix_priority _ _ Hix). eauto 10.
Qed.
Lemma iter_queue_pointers m self : index_ok m self ->
  (forall q, q ∈ oq_pointer <$> TransactionStore.iter_queue self <-> q ∈ queued m) /\
  NoDup (oq_pointer <$> TransactionStore.iter_queue self).
Proof.
  intros Hix. pose proof (ix_pointed _ _ Hix) as Hp. split.
  - intros q. rewrite list_elem_of_fmap, elem_of_queued. setoid_rewrite (elem_of_iter_queue m); [|done]. split.
    + intros (key & -> & q' & e & He & Hq & ->). exists e. split; [|done].
      change (oq_pointer _) with (txn_pointer (e_txn e)). by rewrite (proj2 (pointed_at _ _ _ Hp He)).
    + intros (e & He & Hq). eexists. split; [|by eauto]. change (oq_pointer _) with (txn_pointer (e_txn e)).
      by rewrite (proj2 (pointed_at _ _ _ Hp He)).
  - unfold TransactionStore.iter_queue, PriorityIndex.iter. rewrite <-list_fmap_compose. apply NoDup_fmap_2_strong.
    + intros [k i] [k' i']. rewrite !merge_sort_Permutation, !elem_of_map_to_list, !(ix_priority _ _ Hix).
      intros (q & e & He & _ & <- & <-) (q' & e' & He' & _ & <- & <-) Heq.
      change (txn_pointer (e_txn e) = txn_pointer (e_txn e')) in Heq.
      rewrite (proj2 (pointed_at _ _ _ Hp He)), (proj2 (pointed_at _ _ _ Hp He')) in Heq. congruence.
    + rewrite merge_sort_Permutation. apply NoDup_map_to_list.
Qed.

Lemma batch_done_ext n s st queue queue' l : (forall q, q ∈ queue <-> q ∈ queue') -> batch_done n s st queue l -> batch_done n s st queue' l.
Proof.
  intros Hq [? Hn ? ? Hm]. split; try done; [intros q Hl; rewrite <-Hq; by apply Hn|].
  destruct Hm as [|Hm]; [by left|right]. intros q. rewrite <-Hq. apply Hm.
Qed.

(** The pointers of the batch become transactions. *)
Lemma resolve_all m self l : txns_ok m self -> (forall q, q ∈ l -> q ∈ queued m) ->
  Forall2 (fun q txn => exists e, m !! q = Some e /\ e_queued e = true /\ mt_txn (e_txn e) = txn) l
    (omap (fun ptr => TransactionStore.get ptr.1 ptr.2 self) l).
Proof.
  intros Htx. induction l as [|q l IH]; intros Hall; [constructor|].
  destruct (proj1 (elem_of_queued m q)) as (e & He & Hq); [apply Hall; left|].
  cbn. unfold TransactionStore.get. rewrite Htx, lookup_txns, <-(surjective_pairing q), He. cbn.
  constructor; [by exists e|]. apply IH. intros p Hp. apply Hall. by right.
Qed.

Lemma get_batch_ok m self n seen0 :
  represents m (mp_transactions self) -> narrow m ->
  exists l block, Mempool.get_batch n seen0 self = Ok block /\
    Forall2 (fun q txn => exists e, m !! q = Some e /\ e_queued e = true /\ mt_txn (e_txn e) = txn) l block /\
    batch_done n seen0 (startable self m) (queued m) l.
Proof.
  intros Hr Hn. pose proof (rp_index _ _ Hr) as Hix. pose proof (ix_pointed _ _ Hix) as Hp.
  destruct (iter_queue_pointers m _ Hix) as [Hin Hnd].
  destruct (fill_batch_ok self n seen0 (startable self m) (TransactionStore.iter_queue (mp_transactions self)) []
    (Mempool.mkBatch seen0 ∅ [])) as (b & Hb & Hdone).
  - split; cbn; try done; try set_solver; [constructor|]. destruct (decide (n = 0)); [by left|right; lia].
  - done.
  - apply Forall_forall. intros q. rewrite app_nil_l, Hin, elem_of_queued. intros (e & He & _). by eapply Hn.
  - apply Forall_forall. intros key (q & e & He & _ & ->)%(elem_of_iter_queue m); [|done].
    unfold start_key, startable. change (oq_pointer _) with (txn_pointer (e_txn e)).
    rewrite (proj2 (pointed_at _ _ _ Hp He)), He. destruct (pointed_at _ _ _ Hp He) as [_ <-]. done.
  - rewrite app_nil_l in Hdone. apply (batch_done_ext _ _ _ _ (queued m)) in Hdone; [|done].
    unfold Mempool.get_batch. rewrite Hb. cbn [mbind outcome_bind]. eexists _, _. split; [done|]. split; [|exact Hdone].
    assert (forall q, q ∈ Mempool.result_ b -> q ∈ queued m) as Hall by (intros q Hq; by apply (bd_new _ _ _ _ _ Hdone)).
    apply resolve_all; [apply Hr|done].
Qed.
End get_batch.
