(* ===== verification/MempoolProps.v ===== *)
(** * Theorems about mempool *)

From S2P Require Import Prelude Crypto Errors Position Accumulator Verifier Ledger ConsensusTypes Blocks TransactionProofs TransactionProps MempoolIndex MempoolIndexLemmas MempoolStore MempoolSpec MempoolSteps Mempool MempoolRun.

(** ** Sizes of the indexes *)
Section sizes.
Context `{CryptoHash Transaction}.

Lemma pointers_size m (l : list TxnPointer) : NoDup l -> (forall q, q ∈ l -> is_Some ((m : Pool) !! q)) -> (length l <= size m)%nat.
Proof.
  intros Hnd Hl. rewrite <-(size_list_to_set (C := gset TxnPointer)), <-(size_dom m) by done.
  apply subseteq_size. intros q Hq%elem_of_list_to_set. by apply elem_of_dom, Hl.
Qed.

Lemma index_sizes m self : represents m self ->
  TTLIndex.size (system_ttl_index self) = N.of_nat (size m) /\ TTLIndex.size (expiration_time_index self) = N.of_nat (size m) /\
  PriorityIndex.size (priority_index self) <= N.of_nat (size m) /\ pl_size (parking_lot_index self) <= N.of_nat (size m) /\
  N.of_nat (size (ti_timeline (timeline_index self))) <= N.of_nat (size m).
Proof.
  intros Hr. pose proof (rp_index _ _ Hr) as Hix. pose proof (ix_pointed _ _ Hix) as Hp. split_and!.
  - by apply represents_size.
  - unfold TTLIndex.size. rewrite (proj1 (rp_ttl _ _ Hr)), size_keys by done. unfold txns. by rewrite map_size_fmap.
  - destruct (iter_queue_pointers m self Hix) as [Hin Hnd].
    enough (size (pi_data (priority_index self)) <= size m)%nat by (unfold PriorityIndex.size; lia).
    replace (size _) with (length (oq_pointer <$> TransactionStore.iter_queue self)).
    + apply pointers_size; [done|]. intros q (e & He & _)%Hin%elem_of_queued. eauto.
    + unfold TransactionStore.iter_queue, PriorityIndex.iter. by rewrite !length_fmap, merge_sort_Permutation, length_map_to_list.
  - rewrite (po_size _ (ix_parking _ _ Hix)). enough (length (pl_list (parking_lot_index self)) <= size m)%nat by lia.
    apply pointers_size; [apply NoDup_pl_list, (ix_parking _ _ Hix)|]. intros q (e & He & _)%(ix_parked _ _ Hix). eauto.
  - enough (size (ti_timeline (timeline_index self)) <= size m)%nat by lia.
    rewrite <-length_map_to_list, <-(length_fmap snd). apply pointers_size.
    + apply NoDup_fmap_2_strong; [|apply NoDup_map_to_list].
      intros [i q] [j q'] (e & He & _ & Hi)%elem_of_map_to_list%(ix_timeline _ _ Hix)
        (e' & He' & _ & Hj)%elem_of_map_to_list%(ix_timeline _ _ Hix) Heq. cbn in *. subst. congruence.
    + intros q ([i q'] & -> & (e & He & _)%elem_of_map_to_list%(ix_timeline _ _ Hix))%list_elem_of_fmap. eauto.
Qed.

(** ** What happens to one transaction *)
Lemma readied_txn a info m m' q e : readied a info m m' -> m !! q = Some e ->
  exists e', m' !! q = Some e' /\ mt_txn (e_txn e') = mt_txn (e_txn e).
Proof.
  intros (k & m1 & Hpm & _ & ->) He. assert (exists x, m1 !! q = Some x /\ mt_txn (e_txn x) = mt_txn (e_txn e)) as (x & Hx & Ht).
  { destruct (proj2 (promotes_dom _ _ _ Hpm q)) as [x Hx]; [eauto|]. exists x. split; [done|].
    destruct (decide (becomes_ready a info k q)) as [Hb|Hb].
    - destruct (pm_in _ _ _ Hpm _ _ He Hb) as [id Hid]. assert (x = promoted id e) as -> by congruence.
      apply (al_txn _ _ (alike_promoted id e)).
    - rewrite (pm_out _ _ _ Hpm) in Hx by done. congruence. }
  unfold park_where. rewrite lookup_update_where, Hx. eexists. split; [done|]. rewrite <-Ht.
  case_decide; [|done]. by destruct (is_ready x).
Qed.
Lemma submitted_found c u t m st m' : submitted c u t m st m' -> ms_code st = Accepted ->
  exists e, m' !! txn_pointer t = Some e /\ same_terms (mt_txn (e_txn e)) (mt_txn t) /\
    txn_gas_unit_price (mt_txn (e_txn e)) = txn_gas_unit_price (mt_txn t) /\
    (m !! txn_pointer t = None -> mt_txn (e_txn e) = mt_txn t).
Proof.
  intros Hs Hst. assert (forall m0, inserted c u t m0 st m' -> exists e, m' !! txn_pointer t = Some e /\ mt_txn (e_txn e) = mt_txn t) as Hi.
  { intros m0 Hi. destruct Hi as [| |m1 m2 m' _ _ _ _ Hrd]; [done|done|].
    destruct (readied_txn _ _ _ _ (txn_pointer t) (added t) Hrd) as (x & Hx & Ht); [by rewrite lookup_insert_eq|]. by exists x. }
  destruct Hs as [st m' Hno Hins|e st He Hc _|e st m' He Hsame Hlt Hins|e He Hsame Heq].
  - destruct (Hi _ Hins) as (e & He & Ht). exists e. rewrite Ht. done.
  - congruence.
  - destruct (Hi _ Hins) as (x & Hx & Ht). exists x. rewrite Ht. done.
  - exists e. split_and!; try done. congruence.
Qed.

Lemma crsn_entry a lo n m0 m' q t : readied a (CRSN lo n) (<[q := added t]> m0) m' -> n <= lo -> q.2 = lo ->
  m' !! q = Some (added t).
Proof.
  intros (k & m1 & Hpm & Hend & ->) Hn Hq. cbn in Hend. unfold park_where. rewrite lookup_update_where, (pm_out _ _ _ Hpm).
  - rewrite lookup_insert_eq. cbn. rewrite decide_False; [done|]. lia.
  - intros [_ Hw]. lia.
Qed.
(** A transaction without marks. *)
Lemma unmarked m self (txn : SignedTransaction) e :
  mempool_ok m self -> m !! (txn_sender txn, txn_sequence_number txn) = Some e -> e_queued e = false -> e_parked e = false ->
  ParkingLotIndex.contains (txn_sender txn) (txn_sequence_number txn) (parking_lot_index (mp_transactions self)) = false /\
  forall n seen block, Mempool.get_batch n seen self = Ok block -> txn ∉ block.
Proof.
  intros [Hr _ _ Hn] He Hq Hp. pose proof (rp_index _ _ Hr) as Hix. split.
  - rewrite contains_spec by apply (ix_parking _ _ Hix). apply bool_decide_eq_false. rewrite (ix_parked _ _ Hix).
    intros (x & Hx & Hpx). congruence.
  - intros n seen block Hb. destruct (get_batch_ok m self n seen Hr Hn) as (l & block' & Hb' & Hall & _).
    rewrite Hb in Hb'. injection Hb' as <-. intros [i Hi]%list_elem_of_lookup.
    destruct (Forall2_lookup_r _ _ _ _ _ Hall Hi) as (q & _ & x & Hx & Hqx & Ht).
    destruct (pointed_at _ _ _ (ix_pointed _ _ Hix) Hx) as [Hraw _]. unfold raw_pointer in Hraw. rewrite Ht in Hraw. congruence.
Qed.

Lemma stored_entry m self a n t : mempool_ok m self ->
  TransactionStore.get_mempool_txn a n (mp_transactions self) = Some t -> exists e, m !! (a, n) = Some e /\ e_txn e = t.
Proof.
  intros [Hr _ _ _]. rewrite (rp_txns _ _ Hr), lookup_txns. intros (e & He & ->)%fmap_Some. eauto.
Qed.

Lemma run_from_new (config : MempoolConfig) (ops : list MempoolOp) :
  mc_capacity config <= u64_max -> adds ops < u64_max ->
  Forall (fun op => op_ok op (mc_system_transaction_timeout_secs config * 10 ^ 9)) ops ->
  exists self m, run_ops ops (Mempool.new config) = (Ok tt, self) /\ run_post ops (Mempool.new config) ∅ self m.
Proof.
  intros Hcap Hadds Hops. destruct (mempool_new_ok config) as [Hok Hb].
  destruct (safe_Ok _ _ _ _ (run_ops_ok ops ∅ (Mempool.new config) Hok Hops Hcap ltac:(rewrite Hb; lia))) as ([] & self & Hrun & m & Hp);
    [by intros ? []|]. eauto.
Qed.
End sizes.

(** ** Examples *)
#[local] Existing Instance Ledger3.transaction_hash.
#[local] Existing Instance Ledger3.transaction_collision_free.
Module MempoolExample.

Definition config : MempoolConfig := mkMempoolConfig 10 5 3 1 180 2000 30000 100 2 50 600 60000 true.
Definition txn (sender n price expiration : N) : SignedTransaction :=
  mkSignedTransaction (mkRawTransaction sender n 5 100 price expiration 1) 0.
Definition at_time (t : N) : nat -> N := fun _ => t * 10 ^ 9.
(** Account 7 sends its transactions 0, 1 and 3; account 8 its transaction 4. *)
Definition ops : list MempoolOp :=
  [AddTxn (at_time 10) 0 (txn 7 1 2 1000) 2 (Sequential 0) NotReady;
   AddTxn (at_time 11) 0 (txn 7 0 1 500) 1 (Sequential 0) NotReady;
   AddTxn (at_time 12) 0 (txn 7 3 1 1000) 1 (Sequential 0) NotReady;
   AddTxn (at_time 13) 0 (txn 8 4 1 1000) 1 (Sequential 4) NonQualified].
Definition filled : Mempool := snd (run_ops ops (Mempool.new config)).

Lemma ops_ok : Forall (fun op => op_ok op (mc_system_transaction_timeout_secs config * 10 ^ 9)) ops.
Proof. repeat (apply Forall_cons; split; [split_and!; [by vm_compute|by vm_compute|auto]|]). constructor. Qed.
Lemma filled_ok : exists m, mempool_ok m filled.
Proof.
  destruct (run_from_new config ops) as (self & m & Hrun & Hp).
  - by vm_compute.
  - by vm_compute.
  - apply ops_ok.
  - exists m. unfold filled. rewrite Hrun. apply Hp.
Qed.

(** Transaction 0 expires, is collected and sent again. *)
Definition stored0 : MempoolTransaction := MempoolTransaction.new (txn 7 0 1 500) (611 * 10 ^ 9) 1 (Ready 1) (Sequential 0).
Definition stored1 : MempoolTransaction := MempoolTransaction.new (txn 7 1 2 1000) (610 * 10 ^ 9) 2 (Ready 2) (Sequential 0).
Lemma has_stored : TransactionStore.get_mempool_txn 7 0 (mp_transactions filled) = Some stored0 /\
  TransactionStore.get_mempool_txn 7 1 (mp_transactions filled) = Some stored1.
Proof. by vm_compute. Qed.
Definition again : list MempoolOp := [AddTxn (at_time 20) 0 (txn 7 0 1 2000) 1 (Sequential 0) NotReady].
Definition sent_again : Mempool := snd (run_ops (GcByExpirationTime (600 * 10 ^ 9) :: again) filled).
Lemma still_stored : TransactionStore.get_mempool_txn 7 1 (mp_transactions sent_again) = Some stored1.
Proof. by vm_compute. Qed.
Lemma again_ok : Forall (fun op => op_ok op (mp_system_transaction_timeout filled)) again.
Proof. apply Forall_cons. split; [|constructor]. split_and!; [by vm_compute|by vm_compute|by left]. Qed.
Lemma filled_budget : exists m, mempool_ok m filled /\ timeline_budget m filled <= 5.
Proof.
  destruct (run_from_new config ops) as (self & m & Hrun & Hp).
  - by vm_compute.
  - by vm_compute.
  - apply ops_ok.
  - exists m. unfold filled. rewrite Hrun. split; [apply Hp|]. pose proof (rs_budget _ _ _ _ _ Hp) as Hb.
    rewrite (proj2 (mempool_new_ok config)) in Hb. exact Hb.
Qed.
End MempoolExample.

Module MempoolProps.
(** C22: mempool stays well-formed.  In every run of [add_txn], [remove_transaction] and the
    two garbage collections from an empty mempool, with fewer than 2^64 - 1 additions, the
    operations return, and the indexes fit the stored transactions exactly: the two
    expiration indexes have the key of every transaction and no other; an entry of the
    queue, of the timeline, of the parking lot or of the hash index belongs to a stored
    transaction with these data; no timeline id is given twice; and the table of the parking
    lot points at the accounts of its vector, none of which is empty. *)
Theorem mempool_well_formed `{CryptoHash Transaction} (config : MempoolConfig) (ops : list MempoolOp) :
  mc_capacity config <= u64_max -> adds ops < u64_max ->
  Forall (fun op => op_ok op (mc_system_transaction_timeout_secs config * 10 ^ 9)) ops ->
  exists self m, run_ops ops (Mempool.new config) = (Ok tt, self) /\ represents m (mp_transactions self).
Proof.
  intros Hcap Hadds Hops. destruct (run_from_new config ops Hcap Hadds Hops) as (self & m & Hrun & Hp).
  exists self, m. split; [done|]. apply Hp.
Qed.
Lemma mempool_well_formed_witness :
  exists m, represents m (mp_transactions MempoolExample.filled) /\ size m = 4%nat.
Proof.
  destruct (mempool_well_formed MempoolExample.config MempoolExample.ops) as (self & m & Hrun & Hr).
  - by vm_compute.
  - by vm_compute.
  - apply MempoolExample.ops_ok.
  - exists m. unfold MempoolExample.filled. rewrite Hrun. split; [exact Hr|].
    apply Nat2N.inj. rewrite <-(represents_size m (mp_transactions self) Hr).
    assert (self = MempoolExample.filled) as -> by (unfold MempoolExample.filled; by rewrite Hrun). by vm_compute.
Defined.

(** C23: mempool stays within its bounds.  After any such run the expiration indexes have one
    entry per stored transaction, at most the configured capacity; the queue, the timeline
    and the parking lot have no more; no account has more than its limit; and the timeline
    counter, which may not overflow, is at most one more than the number of additions. *)
Theorem mempool_bounds `{CryptoHash Transaction} (config : MempoolConfig) (ops : list MempoolOp) (r : result unit) (self : Mempool) :
  mc_capacity config <= u64_max -> adds ops < u64_max ->
  Forall (fun op => op_ok op (mc_system_transaction_timeout_secs config * 10 ^ 9)) ops ->
  run_ops ops (Mempool.new config) = (r, self) ->
  let store := mp_transactions self in
  r = Ok tt /\ TTLIndex.size (system_ttl_index store) <= mc_capacity config /\
  TTLIndex.size (expiration_time_index store) = TTLIndex.size (system_ttl_index store) /\
  PriorityIndex.size (priority_index store) <= mc_capacity config /\
  pl_size (parking_lot_index store) <= mc_capacity config /\
  N.of_nat (size (ti_timeline (timeline_index store))) <= mc_capacity config /\
  (forall a t, transactions store !! a = Some t -> N.of_nat (size (t : AccountTransactions)) <= mc_capacity_per_user config) /\
  ti_timeline_id (timeline_index store) <= 1 + adds ops.
Proof.
  intros Hcap Hadds Hops Hr. destruct (run_from_new config ops Hcap Hadds Hops) as (self' & m & Hrun & [Hok Hcfg Hb _ _]).
  rewrite Hrun in Hr. injection Hr as <- <-. destruct Hok as [Hrep Hsz Hu Hn].
  destruct (index_sizes m _ Hrep) as (H1 & H2 & H3 & H4 & H5). destruct Hcfg as (Hc & Hpu & _). cbn in Hc, Hpu.
  rewrite Hc in Hsz. cbn. split_and!; [done|lia|congruence|lia|lia|lia| |].
  - intros a t Ht%Hu. by rewrite Hpu in Ht.
  - rewrite (proj2 (mempool_new_ok config)) in Hb. unfold timeline_budget, budget in Hb. lia.
Qed.
Lemma mempool_bounds_witness :
  TTLIndex.size (system_ttl_index (mp_transactions MempoolExample.filled)) <= 10 /\
  ti_timeline_id (timeline_index (mp_transactions MempoolExample.filled)) <= 5.
Proof.
  destruct (mempool_bounds MempoolExample.config MempoolExample.ops
    (fst (run_ops MempoolExample.ops (Mempool.new MempoolExample.config))) MempoolExample.filled)
    as (_ & H1 & _ & _ & _ & _ & _ & H2).
  - by vm_compute.
  - by vm_compute.
  - apply MempoolExample.ops_ok.
  - apply surjective_pairing.
  - split; [exact H1|exact H2].
Defined.


(** C20: a block of transactions for consensus can be executed in its order, and is as long
    as it can be.  [get_batch] returns, and what it returns are queued transactions, none
    twice and none that consensus has already, at most as many as were asked for (unless
    that is 0, which the code takes for no limit); each is the next one of its account, or of an account that does not count, or has its
    predecessor with consensus or before it in the block; and if there are fewer than asked
    for, no other queued transaction could be added. *)
Theorem batch_correct `{CryptoHash Transaction} (m : Pool) (self : Mempool) (batch_size : N) (seen : gset TxnPointer) :
  mempool_ok m self ->
  exists l block, Mempool.get_batch batch_size seen self = Ok block /\
    Forall2 (fun q txn => exists e, m !! q = Some e /\ e_queued e = true /\ mt_txn (e_txn e) = txn) l block /\
    NoDup l /\ (forall q, q ∈ l -> q ∉ seen) /\ (batch_size = 0 \/ N.of_nat (length l) <= batch_size) /\
    (forall i q, l !! i = Some q -> startable self m q = true \/ after (seen ∪ list_to_set (take i l)) q) /\
    (N.of_nat (length l) = batch_size \/
     forall q e, m !! q = Some e -> e_queued e = true -> q ∉ seen -> q ∉ l ->
       startable self m q = false /\ ~ after (seen ∪ list_to_set l) q).
Proof.
  intros [Hr _ _ Hn]. destruct (get_batch_ok m self batch_size seen Hr Hn) as (l & block & Hb & Hall & [Hnd Hnew Hor Hlen Hmax]).
  exists l, block. split_and!; try done; [intros q Hq; by apply Hnew|]. destruct Hmax as [|Hmax]; [by left|right].
  intros q e He Hq. apply Hmax, elem_of_queued. eauto.
Qed.
(** Transaction 1 has the higher price, and transaction 0 comes first. *)
Lemma batch_correct_witness :
  exists (l : list TxnPointer) block, Mempool.get_batch 3 ∅ MempoolExample.filled = Ok block /\ NoDup l /\
    block = [MempoolExample.txn 7 0 1 500; MempoolExample.txn 7 1 2 1000; MempoolExample.txn 8 4 1 1000].
Proof.
  destruct MempoolExample.filled_ok as [m Hok].
  destruct (batch_correct m MempoolExample.filled 3 ∅ Hok) as (l & block & Hb & _ & Hnd & _).
  exists l, block. split; [exact Hb|]. split; [exact Hnd|].
  assert (Ok block = Mempool.get_batch 3 ∅ MempoolExample.filled) as Heq by (symmetry; exact Hb).
  vm_compute in Heq. injection Heq as ->. reflexivity.
Defined.

(** C21: no transaction is forgotten.  As long as the accounts of new transactions count
    their transactions, every stored transaction is in the queue that blocks are made from
    or in the parking lot. *)
Theorem no_transaction_forgotten `{CryptoHash Transaction} (config : MempoolConfig) (ops : list MempoolOp) (r : result unit)
    (self : Mempool) (a n : N) (txn : SignedTransaction) :
  mc_capacity config <= u64_max -> adds ops < u64_max ->
  Forall (fun op => op_ok op (mc_system_transaction_timeout_secs config * 10 ^ 9)) ops -> Forall counts ops ->
  run_ops ops (Mempool.new config) = (r, self) ->
  TransactionStore.get a n (mp_transactions self) = Some txn ->
  (a, n) ∈ oq_pointer <$> TransactionStore.iter_queue (mp_transactions self) \/
  ParkingLotIndex.contains a n (parking_lot_index (mp_transactions self)) = true.
Proof.
  intros Hcap Hadds Hops Hcn Hr Hget. destruct (run_from_new config ops Hcap Hadds Hops) as (self' & m & Hrun & [Hok _ _ _ Hcov]).
  rewrite Hrun in Hr. injection Hr as <- <-. pose proof (rp_index _ _ (mo_represents _ _ Hok)) as Hix.
  unfold TransactionStore.get in Hget. rewrite (rp_txns _ _ (mo_represents _ _ Hok)), lookup_txns in Hget.
  destruct (m !! (a, n)) as [e|] eqn:He; [|done].
  assert (covered ∅) as Hc0 by (intros q x; by rewrite lookup_empty). pose proof (Hcov Hcn Hc0 _ _ He) as Hqp.
  apply orb_true_iff in Hqp as [Hq|Hp].
  - left. apply (iter_queue_pointers m _ Hix), elem_of_queued. eauto.
  - right. rewrite contains_spec by apply (ix_parking _ _ Hix). apply bool_decide_eq_true, (ix_parked _ _ Hix). eauto.
Qed.
Lemma no_transaction_forgotten_witness :
  (7, 3) ∈ oq_pointer <$> TransactionStore.iter_queue (mp_transactions MempoolExample.filled) \/
  ParkingLotIndex.contains 7 3 (parking_lot_index (mp_transactions MempoolExample.filled)) = true.
Proof.
  apply (no_transaction_forgotten MempoolExample.config MempoolExample.ops
    (fst (run_ops MempoolExample.ops (Mempool.new MempoolExample.config))) MempoolExample.filled 7 3 (MempoolExample.txn 7 3 1 1000)).
  - by vm_compute.
  - by vm_compute.
  - apply MempoolExample.ops_ok.
  - repeat (apply Forall_cons; split; [by eexists|]). constructor.
  - apply surjective_pairing.
  - by vm_compute.
Defined.

(** C24: what was accepted is found.  If [add_txn] accepts a transaction, the store has one at
    its place with the same payload, expiration, maximal gas and gas price, the transaction
    itself if the place was free; and it is found by its hash.  Whatever is found by a hash
    has this hash. *)
Theorem accepted_is_found `{CryptoHash Transaction} `{!CollisionFree Transaction} (m : Pool) (self self' : Mempool)
    (clock : nat -> N) (rng : N) (txn : SignedTransaction) (score : N) (info : AccountSequenceInfo) (state : TimelineState)
    (st : MempoolStatus) :
  mempool_ok m self -> op_ok (AddTxn clock rng txn score info state) (mp_system_transaction_timeout self) ->
  capacity (mp_transactions self) <= u64_max -> timeline_budget m self < u64_max ->
  Mempool.add_txn clock rng txn score info state self = (Ok st, self') -> ms_code st = Accepted ->
  (exists txn', TransactionStore.get (txn_sender txn) (txn_sequence_number txn) (mp_transactions self') = Some txn' /\
     same_terms txn' txn /\ txn_gas_unit_price txn' = txn_gas_unit_price txn /\
     (TransactionStore.get (txn_sender txn) (txn_sequence_number txn) (mp_transactions self) = None -> txn' = txn) /\
     Mempool.get_by_hash (hash (UserTransaction txn')) self' = Some txn') /\
  (forall h t, Mempool.get_by_hash h self' = Some t -> hash (UserTransaction t) = h).
Proof.
  intros Hok Hop Hcap Hb Hrun Hst. pose proof (add_txn_ok m self clock rng txn score info state Hok Hop Hcap Hb) as Hadd.
  unfold returns, safe in Hadd. rewrite Hrun in Hadd. destruct Hadd as (m' & [Hr' _ _ _] & Hstep & _).
  pose proof (rp_index _ _ Hr') as Hix. split.
  - cbn in Hstep. case_match; [destruct Hstep as [[= ->] _]; done|]. destruct Hstep as (st' & [= <-] & Hsub).
    destruct (submitted_found _ _ _ _ _ _ Hsub Hst) as (e & He & Hterms & Hprice & Hfree).
    exists (mt_txn (e_txn e)). unfold Mempool.get_by_hash, TransactionStore.get_by_hash, TransactionStore.get.
    change (hash (UserTransaction (mt_txn (e_txn e)))) with (MempoolTransaction.get_committed_hash (e_txn e)).
    rewrite (rp_txns _ _ Hr'), (rp_txns _ _ (mo_represents _ _ Hok)), !lookup_txns.
    change (m' !! (txn_sender txn, txn_sequence_number txn) = Some e) in He. rewrite He.
    split; [done|]. split; [exact Hterms|]. split; [exact Hprice|].
    split; [|rewrite (ix_hash_all _ _ Hix _ e) by done; cbv beta iota; by rewrite (rp_txns _ _ Hr'), lookup_txns, He]. intros Hno. apply Hfree. unfold txn_pointer. cbn in *.
    by destruct (m !! (txn_sender txn, txn_sequence_number txn)) eqn:Hm.
  - intros h t. unfold Mempool.get_by_hash, TransactionStore.get_by_hash. destruct (hash_index _ !! h) as [[a n]|] eqn:Hh; [|done].
    apply (ix_hash _ _ Hix) in Hh as (e & He & <-). unfold TransactionStore.get.
    rewrite (rp_txns _ _ Hr'), lookup_txns, He. by intros [= <-].
Qed.
Lemma accepted_is_found_witness :
  exists txn', TransactionStore.get 7 1 (mp_transactions (snd (run_op (hd (Gc (fun _ => 0)) MempoolExample.ops)
    (Mempool.new MempoolExample.config)))) = Some txn' /\ txn' = MempoolExample.txn 7 1 2 1000.
Proof.
  destruct (accepted_is_found ∅ (Mempool.new MempoolExample.config)
    (snd (run_op (hd (Gc (fun _ => 0)) MempoolExample.ops) (Mempool.new MempoolExample.config)))
    (MempoolExample.at_time 10) 0 (MempoolExample.txn 7 1 2 1000) 2 (Sequential 0) NotReady (status Accepted))
    as [(txn' & Hget & _ & _ & Hfree & _) _].
  - apply mempool_new_ok.
  - split_and!; [by vm_compute|by vm_compute|by left].
  - by vm_compute.
  - by vm_compute.
  - by vm_compute.
  - reflexivity.
  - exists txn'. split; [exact Hget|]. apply Hfree. by vm_compute.
Defined.

(** Accounts that do not count their transactions can lose one.  The window of such an
    account is [min_nonce..size], not [min_nonce..min_nonce + size].  Once the first nonce
    has reached the size, a new transaction with the first nonce is accepted, but it is
    neither parked nor ever part of a block. *)
Theorem crsn_transaction_forgotten `{CryptoHash Transaction} (m : Pool) (self self' : Mempool)
    (clock : nat -> N) (rng : N) (txn : SignedTransaction) (score min_nonce size : N) (state : TimelineState)
    (st : MempoolStatus) :
  mempool_ok m self -> op_ok (AddTxn clock rng txn score (CRSN min_nonce size) state) (mp_system_transaction_timeout self) ->
  capacity (mp_transactions self) <= u64_max -> timeline_budget m self < u64_max ->
  TransactionStore.get (txn_sender txn) (txn_sequence_number txn) (mp_transactions self) = None ->
  size <= min_nonce -> txn_sequence_number txn = min_nonce ->
  Mempool.add_txn clock rng txn score (CRSN min_nonce size) state self = (Ok st, self') -> ms_code st = Accepted ->
  TransactionStore.get (txn_sender txn) (txn_sequence_number txn) (mp_transactions self') = Some txn /\
  ParkingLotIndex.contains (txn_sender txn) (txn_sequence_number txn) (parking_lot_index (mp_transactions self')) = false /\
  forall n seen block, Mempool.get_batch n seen self' = Ok block -> txn ∉ block.
Proof.
  intros Hok Hop Hcap Hb Hno Hsize Hseq Hrun Hst.
  pose proof (add_txn_ok m self clock rng txn score _ state Hok Hop Hcap Hb) as Hadd.
  unfold returns, safe in Hadd. rewrite Hrun in Hadd. destruct Hadd as (m' & Hok' & Hstep & _).
  unfold TransactionStore.get in Hno. rewrite (rp_txns _ _ (mo_represents _ _ Hok)), lookup_txns in Hno.
  cbn in Hstep. rewrite Hseq, N.ltb_irrefl in Hstep. destruct Hstep as (st' & [= <-] & Hsub). set (t := MempoolTransaction.new _ _ _ _ _) in Hsub.
  assert (txn_pointer t = (txn_sender txn, txn_sequence_number txn)) as Hptr by done.
  assert (m !! txn_pointer t = None) as Hnone by (rewrite Hptr; by destruct (m !! _)).
  assert (m' !! txn_pointer t = Some (added t)) as He.
  { destruct Hsub as [st m' _ Hi|e st He _ _|e st m' He _ _ _|e He _ _]; try congruence.
    destruct Hi as [| |m1 m2 m' _ _ _ _ Hrd]; [done|done|]. eapply crsn_entry; [exact Hrd|done|done]. }
  rewrite Hptr in He. split; [|by eapply (unmarked m')].
  unfold TransactionStore.get. by rewrite (rp_txns _ _ (mo_represents _ _ Hok')), lookup_txns, He.
Qed.
Lemma crsn_transaction_forgotten_witness :
  let self' := snd (Mempool.add_txn (MempoolExample.at_time 10) 0 (MempoolExample.txn 9 100 1 1000) 1 (CRSN 100 100) NotReady
    (Mempool.new MempoolExample.config)) in
  TransactionStore.get 9 100 (mp_transactions self') = Some (MempoolExample.txn 9 100 1 1000) /\
  ParkingLotIndex.contains 9 100 (parking_lot_index (mp_transactions self')) = false.
Proof.
  destruct (crsn_transaction_forgotten ∅ (Mempool.new MempoolExample.config)
    (snd (Mempool.add_txn (MempoolExample.at_time 10) 0 (MempoolExample.txn 9 100 1 1000) 1 (CRSN 100 100) NotReady
      (Mempool.new MempoolExample.config))) (MempoolExample.at_time 10) 0 (MempoolExample.txn 9 100 1 1000) 1 100 100 NotReady
    (status Accepted)) as (H1 & H2 & _).
  - apply mempool_new_ok.
  - split_and!; [by vm_compute|by vm_compute|by left].
  - by vm_compute.
  - by vm_compute.
  - by vm_compute.
  - by vm_compute.
  - reflexivity.
  - by vm_compute.
  - reflexivity.
  - split; [exact H1|exact H2].
Defined.

(** C38: a transaction that garbage collection parks is never broadcast again.  If an earlier
    transaction of its account expires, a transaction that was announced under some timeline
    id is parked and leaves the timeline, but keeps the id.  Whatever happens afterwards, as
    long as it is stored with this id no entry of the timeline points to it: also when it
    has become ready again and is back in the queue. *)
Theorem parked_never_broadcast `{CryptoHash Transaction} (m : Pool) (self self' : Mempool) (block_time id : N)
    (q p : TxnPointer) (e x : Entry) (ops : list MempoolOp) (r : result unit) :
  mempool_ok m self -> capacity (mp_transactions self) <= u64_max -> timeline_budget m self + adds ops <= u64_max ->
  m !! q = Some e -> mt_timeline_state (e_txn e) = Ready id -> block_time <= client_time (e_txn e) ->
  m !! p = Some x -> client_time (e_txn x) < block_time -> p.1 = q.1 -> p.2 < q.2 ->
  Forall (fun op => op_ok op (mp_system_transaction_timeout self)) ops ->
  run_ops (GcByExpirationTime block_time :: ops) self = (r, self') ->
  r = Ok tt /\
  forall t, TransactionStore.get_mempool_txn q.1 q.2 (mp_transactions self') = Some t -> mt_timeline_state t = Ready id ->
    forall id', ti_timeline (timeline_index (mp_transactions self')) !! id' <> Some q.
Proof.
  intros Hok Hcap Hb He Hid Hte Hx Htx Hacc Hlt Hops Hrun.
  destruct (safe_Ok _ _ _ _ (run_op_ok (GcByExpirationTime block_time) m self Hok I Hcap ltac:(cbn; lia)))
    as (r1 & self1 & Hrun1 & m1 & Hok1 & [_ Hm1] & (Hc1 & _ & Ht1) & Hb1 & Han1); [by intros ? []|]. cbn in Hb1.
  destruct (safe_Ok _ _ _ _ (run_ops_ok ops m1 self1 Hok1 ltac:(by rewrite Ht1) ltac:(by rewrite Hc1) ltac:(lia)))
    as ([] & self2 & Hrun2 & m2 & [Hok2 _ _ Han2 _]); [by intros ? []|].
  cbn [run_ops] in Hrun. unfold mbind, method_bind in Hrun. rewrite Hrun1, Hrun2 in Hrun. injection Hrun as <- <-.
  split; [done|]. intros t Ht Hidt id' Htl. pose proof (rp_index _ _ (mo_represents _ _ Hok2)) as Hix2.
  apply (ix_timeline _ _ Hix2) in Htl as (y & Hy & Hay & Hidy).
  rewrite (rp_txns _ _ (mo_represents _ _ Hok2)), lookup_txns, <-surjective_pairing, Hy in Ht. injection Ht as <-.
  assert (id' = id) as -> by congruence.
  assert (id < counter (mp_transactions self)) as Hold by (exact (ix_fresh _ _ (rp_index _ _ (mo_represents _ _ Hok)) q e id He Hid)).
  destruct (proj2 Han2 q y id Hy Hay Hidy) as (z & Hz & Haz & _); [destruct Han1; lia|].
  rewrite Hm1, lookup_collected in Hz. case_decide as Hq; [done|]. rewrite He in Hz. cbn in Hz.
  rewrite decide_True in Hz; [by injection Hz as <-|]. apply Exists_exists. exists p. split; [|done].
  apply elem_of_expired. eauto.
Qed.
(** Transaction 0 of account 7 expires and is sent again: transaction 1 is back in the block,
    and is not broadcast. *)
Lemma parked_never_broadcast_witness :
  Mempool.get_batch 3 ∅ MempoolExample.sent_again =
    Ok [MempoolExample.txn 8 4 1 1000; MempoolExample.txn 7 0 1 2000; MempoolExample.txn 7 1 2 1000] /\
  (Mempool.read_timeline 0 10 MempoolExample.sent_again).1 = [MempoolExample.txn 7 0 1 2000] /\
  ~ exists id', ti_timeline (timeline_index (mp_transactions MempoolExample.sent_again)) !! id' = Some (7, 1).
Proof.
  split; [by vm_compute|]. split; [by vm_compute|]. destruct MempoolExample.filled_budget as (m & Hok & Hb).
  destruct (stored_entry m _ 7 0 _ Hok (proj1 MempoolExample.has_stored)) as (x & Hx & Htx).
  destruct (stored_entry m _ 7 1 _ Hok (proj2 MempoolExample.has_stored)) as (e & He & Hte).
  destruct (parked_never_broadcast m MempoolExample.filled MempoolExample.sent_again (600 * 10 ^ 9) 2 (7, 1) (7, 0) e x
    MempoolExample.again (fst (run_ops (GcByExpirationTime (600 * 10 ^ 9) :: MempoolExample.again) MempoolExample.filled))) as [_ Hno].
  - exact Hok.
  - by vm_compute.
  - change (adds MempoolExample.again) with 1. unfold u64_max. lia.
  - exact He.
  - rewrite Hte. reflexivity.
  - rewrite Hte. by vm_compute.
  - exact Hx.
  - rewrite Htx. by vm_compute.
  - reflexivity.
  - reflexivity.
  - apply MempoolExample.again_ok.
  - apply surjective_pairing.
  - intros [id' Hid']. exact (Hno MempoolExample.stored1 MempoolExample.still_stored eq_refl id' Hid').
Defined.

(** A cache entry can stay for ever.  If two keys are inserted at the same instant, the
    index by time keeps the second one only, and no collection removes the first. *)
Theorem cache_entry_leaks {K V : Type} `{Countable K} (c : TtlCache K V) (now gc_time : N) (k k' : K) (v v' : V) :
  cache_ok c -> k <> k' -> tc_data c !! k' = None -> N.of_nat (size (tc_data c)) + 2 <= tc_capacity c ->
  now + tc_default_timeout c < time_limit ->
  TtlCache.get k (TtlCache.gc gc_time (TtlCache.insert now k' v' (TtlCache.insert now k v c))) = Some v.
Proof.
  intros Hc Hne Hk' Hcap Hlim. destruct (make_room_ok c k Hc) as [_ Hno].
  assert (TtlCache.insert now k v c = TtlCache.set (<[k := (v, now + tc_default_timeout c)]> (tc_data c))
    (<[now + tc_default_timeout c := k]> (tc_ttl_index (TtlCache.make_room k c))) c) as Hi.
  { unfold TtlCache.insert. unfold TtlCache.make_room. destruct (tc_data c !! k) as [[w t]|] eqn:Hk; cbn.
    - by rewrite (proj2 (N.ltb_lt _ _)) by done.
    - rewrite (proj2 (N.eqb_neq _ _)) by lia. by rewrite (proj2 (N.ltb_lt _ _)) by done. }
  set (t := now + tc_default_timeout c) in *. set (c1 := TtlCache.insert now k v c) in *.
  assert (TtlCache.insert now k' v' c1 = TtlCache.set (<[k' := (v', t)]> (tc_data c1)) (<[t := k']> (tc_ttl_index c1)) c1) as Hi'.
  { unfold TtlCache.insert, TtlCache.make_room. rewrite Hi. cbn. rewrite lookup_insert_ne, Hk' by done. cbn.
    rewrite (proj2 (N.eqb_neq _ _)); [fold t; by rewrite (proj2 (N.ltb_lt _ _)) by done|].
    destruct (decide (is_Some (tc_data c !! k))) as [Hs|Hs%eq_None_not_Some];
      [rewrite map_size_insert_Some by done|rewrite map_size_insert_None by done]; lia. }
  unfold TtlCache.get. rewrite gc_keeps; rewrite Hi', Hi; cbn.
  - by rewrite lookup_insert_ne, lookup_insert_eq.
  - intros t'. rewrite insert_insert_eq. intros [[_ Heq]|[_ Ht]]%lookup_insert_Some; [done|]. by apply Hno in Ht.
Qed.
Lemma cache_entry_leaks_witness :
  TtlCache.get 1 (TtlCache.gc 1000 (TtlCache.insert 5 2 20 (TtlCache.insert 5 1 10 (TtlCache.new (K := N) (V := N) 10 100)))) = Some 10.
Proof. apply cache_entry_leaks; [intros t k; cbn; by rewrite lookup_empty|done|by vm_compute|by vm_compute|by vm_compute]. Defined.
End MempoolProps.
