(* ===== verification/MempoolNetwork.v ===== *)
(** * Broadcasts between mempools

    What mempool knows of the peers it sends transactions to
    (mempool/src/shared_mempool/types.rs) and how it broadcasts to them
    (mempool/src/shared_mempool/network.rs).  Times are nanoseconds; [clock i] is what
    the [i]-th reading of the clock in a call returns. *)

From S2P Require Import Prelude Crypto Errors Position Accumulator Verifier Ledger ConsensusTypes Blocks TransactionProofs SchemaDb LedgerSchemas MempoolIndex MempoolStore Mempool.

(** ** Peers *)
Inductive RoleType : Type := RoleValidator | RoleFullNode.
Definition is_validator (role : RoleType) : bool := match role with RoleValidator => true | RoleFullNode => false end.

Inductive NetworkId : Type := NetworkValidator | NetworkVfn | NetworkPublic.
#[global] Instance NetworkId_eq_dec : EqDecision NetworkId.
Proof. solve_decision. Defined.
(** The discriminants, by which networks are ordered. *)
Definition network_rank (n : NetworkId) : N :=
  match n with NetworkValidator => 0 | NetworkVfn => 3 | NetworkPublic => 4 end.
Definition is_validator_network (n : NetworkId) : bool := bool_decide (n = NetworkValidator).

Record PeerNetworkId : Type := mkPeerNetworkId { pn_network_id : NetworkId; pn_peer_id : N }.
#[global] Instance PeerNetworkId_eq_dec : EqDecision PeerNetworkId.
Proof. solve_decision. Defined.
#[global] Program Instance NetworkId_countable : Countable NetworkId :=
  inj_countable network_rank (fun rank =>
    if rank =? 0 then Some NetworkValidator else if rank =? 3 then Some NetworkVfn
    else if rank =? 4 then Some NetworkPublic else None) _.
Next Obligation. by intros []. Qed.
#[global] Program Instance PeerNetworkId_countable : Countable PeerNetworkId :=
  inj_countable' (fun p => (pn_network_id p, pn_peer_id p)) (fun p => mkPeerNetworkId p.1 p.2) _.
Next Obligation. by intros []. Qed.

Inductive PeerRole : Type :=
  | PeerValidator | PeerPreferredUpstream | PeerUpstream | PeerValidatorFullNode | PeerDownstream | PeerKnown | PeerUnknown.
Definition role_rank (r : PeerRole) : N :=
  match r with
  | PeerValidator => 0 | PeerPreferredUpstream => 1 | PeerUpstream => 2 | PeerValidatorFullNode => 3
  | PeerDownstream => 4 | PeerKnown => 5 | PeerUnknown => 6
  end.

Inductive ConnectionOrigin : Type := Inbound | Outbound.
(** The fields that mempool reads. *)
Record ConnectionMetadata : Type := mkConnectionMetadata {
  cm_remote_peer_id : N;
  cm_origin : ConnectionOrigin;
  cm_role : PeerRole;
}.

Definition compare_prioritized_peers (peer_a peer_b : PeerNetworkId * PeerRole) : comparison :=
  match network_rank (pn_network_id peer_a.1) ?= network_rank (pn_network_id peer_b.1) with
  | Eq =>
      match role_rank peer_a.2 ?= role_rank peer_b.2 with
      | Eq => pn_peer_id peer_a.1 ?= pn_peer_id peer_b.1
      | ordering => ordering
      end
  | ordering => ordering
  end.
Definition prioritized (peer_a peer_b : PeerNetworkId * PeerRole) : Prop :=
  compare_prioritized_peers peer_a peer_b <> Gt.
#[global] Instance prioritized_dec : RelDecision prioritized.
Proof. intros a b. unfold prioritized. destruct (compare_prioritized_peers a b); [left|left|right]; congruence. Defined.

(** ** What is known of a peer

    A batch is identified by a range of timeline ids: those above the first and up to
    the second. *)
Abbreviation BatchId := (N * N)%type.
(** The order of batches is reversed: later ranges come first. *)
Definition batch_le (a b : BatchId) : Prop := b.1 < a.1 \/ b.1 = a.1 /\ b.2 <= a.2.
#[global] Instance batch_le_dec : RelDecision batch_le.
Proof. intros a b. unfold batch_le. apply _. Defined.
Definition batch_max (a b : option BatchId) : option BatchId :=
  match a, b with
  | Some x, Some y => Some (if decide (batch_le x y) then y else x)
  | Some x, None => Some x
  | None, _ => b
  end.

Record BroadcastInfo : Type := mkBroadcastInfo {
  sent_batches : gmap BatchId N;
  retry_batches : gset BatchId;
  backoff_mode : bool;
}.
Record PeerSyncState : Type := mkPeerSyncState {
  ps_timeline_id : N;
  ps_broadcast_info : BroadcastInfo;
  ps_metadata : ConnectionMetadata;
}.
Definition BroadcastInfo_new : BroadcastInfo := mkBroadcastInfo ∅ ∅ false.
Definition PeerSyncState_new (metadata : ConnectionMetadata) : PeerSyncState :=
  mkPeerSyncState 0 BroadcastInfo_new metadata.

Definition sent_entry_le (a b : BatchId * N) : Prop := batch_le a.1 b.1.
#[global] Instance sent_entry_le_dec : RelDecision sent_entry_le.
Proof. intros a b. unfold sent_entry_le. apply _. Defined.
(** The iterations of [BTreeMap<BatchId, SystemTime>] and [BTreeSet<BatchId>]. *)
Definition sent_iter (m : gmap BatchId N) : list (BatchId * N) := merge_sort sent_entry_le (map_to_list m).
Definition retry_iter (s : gset BatchId) : list BatchId := merge_sort batch_le (elements s).

Inductive MempoolSyncMsg : Type :=
  | BroadcastTransactionsRequest (request_id : bytes) (transactions : list SignedTransaction)
  | BroadcastTransactionsResponse (request_id : bytes) (retry backoff : bool).

Inductive BroadcastError : Type :=
  | NetworkError (peer : PeerNetworkId)
  | NoTransactions (peer : PeerNetworkId)
  | PeerNotFound (peer : PeerNetworkId)
  | PeerNotPrioritized (peer : PeerNetworkId) (priority : N)
  | PeerNotScheduled (peer : PeerNetworkId)
  | TooManyPendingBroadcasts (peer : PeerNetworkId).

Inductive BroadcastLabel : Type := EXPIRED_BROADCAST_LABEL | RETRY_BROADCAST_LABEL.

(** [ni_sender] has the messages that the network has taken. *)
Record MempoolNetworkInterface : Type := mkNetworkInterface {
  ni_sender : list (PeerNetworkId * MempoolSyncMsg);
  ni_sync_states : gmap PeerNetworkId PeerSyncState;
  ni_prioritized_peers : list PeerNetworkId;
  ni_role : RoleType;
  ni_mempool_config : MempoolConfig;
}.

Module NetworkInterface.
Section interface.
Context `{CryptoHash Transaction} `{Bcs BatchId}.
Implicit Types (self : MempoolNetworkInterface) (peer : PeerNetworkId) (state : PeerSyncState).
Abbreviation step E A := (method MempoolNetworkInterface E A).

Definition new (role : RoleType) (mempool_config : MempoolConfig) : MempoolNetworkInterface :=
  mkNetworkInterface [] ∅ [] role mempool_config.

Definition set_sender l self : MempoolNetworkInterface :=
  mkNetworkInterface l (ni_sync_states self) (ni_prioritized_peers self) (ni_role self) (ni_mempool_config self).
Definition set_sync_states s self : MempoolNetworkInterface :=
  mkNetworkInterface (ni_sender self) s (ni_prioritized_peers self) (ni_role self) (ni_mempool_config self).
Definition set_prioritized l self : MempoolNetworkInterface :=
  mkNetworkInterface (ni_sender self) (ni_sync_states self) l (ni_role self) (ni_mempool_config self).
Definition set_state peer state self : MempoolNetworkInterface :=
  set_sync_states (<[peer := state]> (ni_sync_states self)) self.
Definition set_info state (info : BroadcastInfo) : PeerSyncState :=
  mkPeerSyncState (ps_timeline_id state) info (ps_metadata state).

Definition update_prioritized_peers self : MempoolNetworkInterface :=
  if is_validator (ni_role self) then self
  else
    let peers := (fun p => (p.1, cm_role (ps_metadata p.2))) <$> map_to_list (ni_sync_states self) in
    set_prioritized (merge_sort prioritized peers).*1 self.

Definition is_upstream_peer peer (metadata : option ConnectionMetadata) self : bool :=
  if is_validator_network (pn_network_id peer) then true
  else match metadata with
       | Some metadata => match cm_origin metadata with Outbound => true | Inbound => false end
       | None => bool_decide (is_Some (ni_sync_states self !! peer))
       end.

(** The result says whether the peer had no state. *)
Definition add_peer peer (metadata : ConnectionMetadata) self : bool * MempoolNetworkInterface :=
  let is_new_peer := bool_decide (ni_sync_states self !! peer = None) in
  let self' :=
    if is_upstream_peer peer (Some metadata) self then
      match ni_sync_states self !! peer with
      | None => set_state peer (PeerSyncState_new metadata) self
      | Some peer_state =>
          set_state peer (mkPeerSyncState (ps_timeline_id peer_state) (ps_broadcast_info peer_state) metadata) self
      end
    else self in
  (is_new_peer, update_prioritized_peers self').

Definition disable_peer peer self : MempoolNetworkInterface :=
  update_prioritized_peers (set_sync_states (delete peer (ni_sync_states self)) self).

(** An answer to a batch that was sent before the clock went back panics. *)
Definition process_broadcast_ack {E} peer (request_id_bytes : bytes) (retry backoff : bool) (timestamp : N) : step E unit :=
  fun self =>
    match bcs_from_bytes request_id_bytes with
    | Ok batch_id =>
        match ni_sync_states self !! peer with
        | Some sync_state =>
            let info := ps_broadcast_info sync_state in
            match sent_batches info !! batch_id with
            | Some sent_timestamp =>
                let sent := delete batch_id (sent_batches info) in
                if sent_timestamp <=? timestamp then
                  (Ok tt, set_state peer (set_info sync_state (mkBroadcastInfo sent
                            (if retry then {[batch_id]} ∪ retry_batches info else retry_batches info)
                            (if backoff then true else backoff_mode info))) self)
                else (Panic, set_state peer (set_info sync_state (mkBroadcastInfo sent (retry_batches info)
                               (backoff_mode info))) self)
            | None => (Ok tt, self)
            end
        | None => (Ok tt, self)
        end
    | Err _ => (Ok tt, self)
    | Panic => (Panic, self)
    end.

Definition is_backoff_mode peer self : bool :=
  match ni_sync_states self !! peer with
  | Some state => backoff_mode (ps_broadcast_info state)
  | None => false
  end.

(** The position of the peer in the list; [usize::MAX] if it has none. *)
Fixpoint find_position peer (peers : list PeerNetworkId) (pos : N) : N :=
  match peers with
  | [] => u64_max
  | p :: peers => if bool_decide (p = peer) then pos else find_position peer peers (pos + 1)
  end.
Definition check_peer_prioritized peer self : outcome BroadcastError unit :=
  if is_validator (ni_role self) then Ok tt
  else
    let priority := find_position peer (ni_prioritized_peers self) 0 in
    if mc_default_failovers (ni_mempool_config self) <? priority then Err (PeerNotPrioritized peer priority) else Ok tt.

(** Batches whose transactions have all left mempool are not tracked any more. *)
Fixpoint retain_sent (sent : list (BatchId * N)) (mempool : Mempool) : outcome BroadcastError (list (BatchId * N)) :=
  match sent with
  | [] => Ok []
  | (id, batch) :: sent =>
      txns ← Mempool.timeline_range id.1 id.2 mempool;
      rest ← retain_sent sent mempool;
      Ok (if bool_decide (txns = []) then rest else (id, batch) :: rest)
  end.

(** The earliest batch that has expired, unless too many others are on their way. *)
Fixpoint find_expired peer (sent : list (BatchId * N)) (clock : nat -> N) (config : MempoolConfig)
    (pending_broadcasts : N) (expired_batch_id : option BatchId) : outcome BroadcastError (option BatchId) :=
  match sent with
  | [] => Ok expired_batch_id
  | (batch, sent_time) :: sent =>
      let deadline := sent_time + mc_shared_mempool_ack_timeout_ms config * 10 ^ 6 in
      _ ← assert_ (deadline <? time_limit);
      let '(pending_broadcasts, expired_batch_id) :=
        if deadline <=? clock 0%nat then (pending_broadcasts, Some batch)
        else (pending_broadcasts + 1, expired_batch_id) in
      if mc_max_broadcasts_per_peer config <=? pending_broadcasts then Err (TooManyPendingBroadcasts peer)
      else find_expired peer sent (fun i => clock (S i)) config pending_broadcasts expired_batch_id
  end.

Definition determine_broadcast_batch peer (scheduled_backoff : bool) (clock : nat -> N) (mempool : Mempool)
    : step BroadcastError (BatchId * list SignedTransaction * option BroadcastLabel) :=
  state ← gets (fun self => ok_or (ni_sync_states self !! peer) (PeerNotFound peer));
  _ ← gets (check_peer_prioritized peer);
  _ ← lift (ensure (negb (backoff_mode (ps_broadcast_info state) && negb scheduled_backoff)) (PeerNotScheduled peer));
  sent ← lift (retain_sent (sent_iter (sent_batches (ps_broadcast_info state))) mempool);
  let info := mkBroadcastInfo (list_to_map sent) (retry_batches (ps_broadcast_info state))
                (backoff_mode (ps_broadcast_info state)) in
  _ ← puts (set_state peer (set_info state info));
  expired_batch_id ← gets (fun self =>
    find_expired peer (sent_iter (sent_batches info)) clock (ni_mempool_config self) 0 None);
  let retry_batch_id := last (retry_iter (retry_batches info)) in
  '(batch_id, transactions, metric_label) ←
    match batch_max expired_batch_id retry_batch_id with
    | Some id =>
        txns ← lift (Mempool.timeline_range id.1 id.2 mempool);
        mret (id, txns, Some (if bool_decide (Some id = expired_batch_id) then EXPIRED_BROADCAST_LABEL
                              else RETRY_BROADCAST_LABEL))
    | None =>
        gets (fun self =>
          let '(txns, new_timeline_id) :=
            Mempool.read_timeline (ps_timeline_id state) (mc_shared_mempool_batch_size (ni_mempool_config self)) mempool in
          Ok ((ps_timeline_id state, new_timeline_id), txns, None))
    end;
  _ ← lift (ensure (negb (bool_decide (transactions = []))) (NoTransactions peer));
  mret (batch_id, transactions, metric_label).

(** [link]: does the network take the message? *)
Definition send_to {E} (e : E) (link : bool) peer (msg : MempoolSyncMsg) : step E unit :=
  if link then puts (fun self => set_sender (ni_sender self ++ [(peer, msg)]) self) else lift (Err e).

Definition send_batch (link : bool) peer (batch_id : BatchId) (transactions : list SignedTransaction)
    : step BroadcastError unit :=
  request_id ← lift (match bcs_to_bytes batch_id with Ok request_id => Ok request_id | _ => Panic end);
  send_to (NetworkError peer) link peer (BroadcastTransactionsRequest request_id transactions).

Definition update_broadcast_state peer (batch_id : BatchId) (send_time : N) : step BroadcastError N :=
  state ← gets (fun self => ok_or (ni_sync_states self !! peer) (PeerNotFound peer));
  let info := ps_broadcast_info state in
  let sent := <[batch_id := send_time]> (sent_batches info) in
  _ ← puts (set_state peer (mkPeerSyncState (N.max (ps_timeline_id state) batch_id.2)
              (mkBroadcastInfo sent (retry_batches info ∖ {[batch_id]}) false) (ps_metadata state)));
  mret (N.of_nat (size sent)).

Definition execute_broadcast peer (scheduled_backoff : bool) (clock : nat -> N) (send_time : N) (link : bool)
    (mempool : Mempool) : step BroadcastError unit :=
  '(batch_id, transactions, _) ← determine_broadcast_batch peer scheduled_backoff clock mempool;
  _ ← send_batch link peer batch_id transactions;
  _ ← update_broadcast_state peer batch_id send_time;
  mret tt.
End interface.
End NetworkInterface.
