(* ===== verification/SharedMempool.v ===== *)
(** * Shared mempool

    The tasks of mempool (mempool/src/shared_mempool/tasks.rs) and the coordinator that
    runs them (mempool/src/shared_mempool/coordinator.rs): one definition per handler,
    and [handle] for an iteration of the coordinator's loop.  Tasks that the coordinator
    spawns work on mempool under its lock and are events of their own.

    What comes from outside in the course of an event is in [Env]. *)

From S2P Require Import Prelude Crypto Errors Position Accumulator Verifier Ledger ConsensusTypes Blocks TransactionProofs SchemaDb LedgerSchemas MempoolIndex MempoolStore Mempool MempoolNetwork.

Inductive DiscardedVMStatus : Type :=
  | SEQUENCE_NUMBER_TOO_OLD
  | RESOURCE_DOES_NOT_EXIST
  | OtherVMStatus (code : N).
Record VMValidatorResult : Type := mkVMValidatorResult { vr_status : option DiscardedVMStatus; vr_score : N }.

Abbreviation SubmissionStatus := (MempoolStatus * option DiscardedVMStatus)%type.
Abbreviation SubmissionStatusBundle := (SignedTransaction * SubmissionStatus)%type.

Inductive QuorumStoreRequest : Type :=
  | GetBatchRequest (max_batch_size : N) (transactions : list TransactionSummary)
  | RejectNotification (transactions : list TransactionSummary).
Inductive QuorumStoreResponse : Type :=
  | GetBatchResponse (txns : list SignedTransaction)
  | CommitResponse.

(** [en_db i] and [en_validate i] are the answers of the database and of the VM for the
    [i]-th transaction, [en_txn_clock i] and [en_rng i] the clock and the random number
    while it is added; [en_instant] is the monotonic clock, and [en_link] says whether the
    network takes what is sent. *)
Record Env : Type := mkEnv {
  en_clock : nat -> N;
  en_instant : N;
  en_link : bool;
  en_db : nat -> AccountAddress -> option AccountSequenceInfo;
  en_validate : nat -> SignedTransaction -> option VMValidatorResult;
  en_txn_clock : nat -> nat -> N;
  en_rng : nat -> N;
}.

Record ScheduledBroadcast : Type := mkScheduledBroadcast { sb_deadline : N; sb_peer : PeerNetworkId; sb_backoff : bool }.
#[global] Instance ScheduledBroadcast_eq_dec : EqDecision ScheduledBroadcast.
Proof. solve_decision. Defined.

Record SharedMempool : Type := mkSharedMempool {
  sm_mempool : Mempool;
  sm_config : MempoolConfig;
  sm_network_interface : MempoolNetworkInterface;
}.
(** The coordinator's state: shared mempool and the broadcasts that wait for their time. *)
Record Coordinator : Type := mkCoordinator {
  co_smp : SharedMempool;
  co_scheduled_broadcasts : list ScheduledBroadcast;
}.

Inductive NetworkEvent : Type :=
  | NewPeer (metadata : ConnectionMetadata)
  | LostPeer (metadata : ConnectionMetadata)
  | Message (peer_id : N) (msg : MempoolSyncMsg)
  | RpcRequest (peer_id : N).
Inductive Event : Type :=
  | SubmitTransaction (txn : SignedTransaction)
  | GetTransactionByHash (hash : HashValue)
  | QuorumStore (req : QuorumStoreRequest)
  | CommitNotification (transactions : list TransactionSummary) (block_timestamp_usecs : N)
  | Scheduled (broadcast : ScheduledBroadcast)
  | Network (network_id : NetworkId) (event : NetworkEvent)
  | GcTick.
Inductive Reply : Type :=
  | NoReply
  | SubmitReply (status : option SubmissionStatus)
  | GetReply (txn : option SignedTransaction)
  | QuorumStoreReply (resp : QuorumStoreResponse).

Module Shared.
Section shared.
Context `{CryptoHash Transaction} `{Bcs BatchId}.
Implicit Types (env : Env) (peer : PeerNetworkId).

Definition new (config : MempoolConfig) (role : RoleType) : SharedMempool :=
  mkSharedMempool (Mempool.new config) config (NetworkInterface.new role config).
Definition start (config : MempoolConfig) (role : RoleType) : Coordinator := mkCoordinator (new config role) [].

Definition broadcast_within_validator_network (self : SharedMempool) : bool :=
  mc_shared_mempool_validator_broadcast (sm_config self).

Definition set_mempool (m : Mempool) (self : SharedMempool) : SharedMempool :=
  mkSharedMempool m (sm_config self) (sm_network_interface self).
Definition set_interface (i : MempoolNetworkInterface) (self : SharedMempool) : SharedMempool :=
  mkSharedMempool (sm_mempool self) (sm_config self) i.
Definition on_mempool {A} (f : method Mempool AnyError A) : method SharedMempool AnyError A := on sm_mempool set_mempool f.
Definition on_interface {E A} (f : method MempoolNetworkInterface E A) : method SharedMempool E A :=
  on sm_network_interface set_interface f.
Definition on_smp {A} (f : method SharedMempool AnyError A) : method Coordinator AnyError A :=
  on co_smp (fun smp self => mkCoordinator smp (co_scheduled_broadcasts self)) f.
(** An error is logged. *)
Definition logged {S E} (f : method S E unit) : method S AnyError unit := fun s =>
  match f s with (Panic, s) => (Panic, s) | (_, s) => (Ok tt, s) end.

(** ** Submission of transactions *)

(** Transactions whose account cannot be read or has got further are answered at once. *)
Fixpoint screen_transactions env (idx : nat) (transactions : list SignedTransaction)
    : list (SignedTransaction * AccountSequenceInfo) * list SubmissionStatusBundle :=
  match transactions with
  | [] => ([], [])
  | t :: transactions =>
      let '(rest, statuses) := screen_transactions env (S idx) transactions in
      match en_db env idx (txn_sender t) with
      | Some crsn_or_seqno =>
          if min_seq crsn_or_seqno <=? txn_sequence_number t then ((t, crsn_or_seqno) :: rest, statuses)
          else (rest, (t, (status VmError, Some SEQUENCE_NUMBER_TOO_OLD)) :: statuses)
      | None => (rest, (t, (status VmError, Some RESOURCE_DOES_NOT_EXIST)) :: statuses)
      end
  end.

(** A transaction for which the VM fails is dropped without a status. *)
Fixpoint add_transactions env (idx : nat) (transactions : list (SignedTransaction * AccountSequenceInfo))
    (timeline_state : TimelineState) : method Mempool AnyError (list SubmissionStatusBundle) :=
  match transactions with
  | [] => mret []
  | (transaction, crsn_or_seqno) :: transactions =>
      pushed ← match en_validate env idx transaction with
               | Some validation_result =>
                   match vr_status validation_result with
                   | None =>
                       mempool_status ← Mempool.add_txn (en_txn_clock env idx) (en_rng env idx) transaction
                                          (vr_score validation_result) crsn_or_seqno timeline_state;
                       mret [(transaction, (mempool_status, None))]
                   | Some validation_status => mret [(transaction, (status VmError, Some validation_status))]
                   end
               | None => mret []
               end;
      statuses ← add_transactions env (S idx) transactions timeline_state;
      mret (pushed ++ statuses)
  end.

Definition process_incoming_transactions env (transactions : list SignedTransaction) (timeline_state : TimelineState)
    : method Mempool AnyError (list SubmissionStatusBundle) :=
  let '(transactions, statuses) := screen_transactions env 0 transactions in
  pushed ← add_transactions env 0 transactions timeline_state;
  mret (statuses ++ pushed).

Definition process_client_transaction_submission env (transaction : SignedTransaction)
    : method SharedMempool AnyError (option SubmissionStatus) :=
  statuses ← on_mempool (process_incoming_transactions env [transaction] NotReady);
  mret (snd <$> statuses !! 0%nat).
Definition process_client_get_transaction (hash : HashValue) : method SharedMempool AnyError (option SignedTransaction) :=
  gets (fun self => Ok (Mempool.get_by_hash hash (sm_mempool self))).

Definition gen_ack_response (request_id : bytes) (results : list SubmissionStatusBundle) : MempoolSyncMsg :=
  let backoff_and_retry :=
    existsb (fun r : SubmissionStatusBundle => bool_decide (ms_code r.2.1 = MempoolIsFull)) results in
  BroadcastTransactionsResponse request_id backoff_and_retry backoff_and_retry.

Definition process_transaction_broadcast env (transactions : list SignedTransaction) (request_id : bytes)
    (timeline_state : TimelineState) peer : method SharedMempool AnyError unit :=
  results ← on_mempool (process_incoming_transactions env transactions timeline_state);
  logged (on_interface (NetworkInterface.send_to (NetworkError peer) (en_link env) peer
    (gen_ack_response request_id results))).

(** ** Consensus and commits *)
Fixpoint remove_transactions (clock : nat -> N) (transactions : list TransactionSummary) (is_rejected : bool)
    : method Mempool AnyError unit :=
  match transactions with
  | [] => mret tt
  | transaction :: transactions =>
      _ ← Mempool.remove_transaction clock (ts_sender transaction) (ts_sequence_number transaction) is_rejected;
      remove_transactions (fun i => clock (2 + i)%nat) transactions is_rejected
  end.
Definition process_committed_transactions (clock : nat -> N) (transactions : list TransactionSummary)
    (block_timestamp_usecs : N) (is_rejected : bool) : method Mempool AnyError unit :=
  _ ← remove_transactions clock transactions is_rejected;
  if 0 <? block_timestamp_usecs then Mempool.gc_by_expiration_time (block_timestamp_usecs * 1000) else mret tt.

Definition process_quorum_store_request env (req : QuorumStoreRequest) : method SharedMempool AnyError QuorumStoreResponse :=
  match req with
  | GetBatchRequest max_batch_size transactions =>
      let exclude_transactions : gset TxnPointer :=
        list_to_set ((fun txn => (ts_sender txn, ts_sequence_number txn)) <$> transactions) in
      _ ← on_mempool (Mempool.gc_by_expiration_time (en_clock env 0%nat));
      txns ← gets (fun self => Mempool.get_batch (N.max max_batch_size 1) exclude_transactions (sm_mempool self));
      mret (GetBatchResponse txns)
  | RejectNotification transactions =>
      _ ← on_mempool (process_committed_transactions (en_clock env) transactions 0 true);
      mret CommitResponse
  end.

(** ** Broadcasts

    Attempts a broadcast and schedules the next one, unless the peer has gone. *)
Definition broadcast env peer (backoff : bool) : method SharedMempool AnyError unit :=
  logged (fun self => on_interface (NetworkInterface.execute_broadcast peer backoff (fun i => en_clock env (S i))
    (en_clock env 0%nat) (en_link env) (sm_mempool self)) self).

Definition execute_broadcast env peer (backoff : bool) : method Coordinator AnyError unit :=
  connected ← gets (fun self => Ok (bool_decide (is_Some (ni_sync_states (sm_network_interface (co_smp self)) !! peer))));
  if connected : bool then
    _ ← on_smp (broadcast env peer backoff);
    puts (fun self =>
      let config := sm_config (co_smp self) in
      let schedule_backoff := NetworkInterface.is_backoff_mode peer (sm_network_interface (co_smp self)) in
      let interval_ms := if schedule_backoff then mc_shared_mempool_backoff_interval_ms config
                         else mc_shared_mempool_tick_interval_ms config in
      mkCoordinator (co_smp self)
        (mkScheduledBroadcast (en_instant env + interval_ms * 10 ^ 6) peer schedule_backoff
           :: co_scheduled_broadcasts self))
  else mret tt.

(** ** The coordinator *)
Definition handle_new_peer env peer (metadata : ConnectionMetadata) : method Coordinator AnyError unit :=
  is_new_peer ← on_smp (on_interface (fun self => let '(r, self) := NetworkInterface.add_peer peer metadata self in (Ok r, self)));
  is_upstream_peer ← gets (fun self => Ok (NetworkInterface.is_upstream_peer peer (Some metadata)
                                             (sm_network_interface (co_smp self))));
  if is_new_peer && is_upstream_peer then execute_broadcast env peer false else mret tt.

Definition handle_message env peer (msg : MempoolSyncMsg) : method SharedMempool AnyError unit :=
  match msg with
  | BroadcastTransactionsRequest request_id transactions =>
      ineligible_for_broadcast ← gets (fun self => Ok
        (negb (broadcast_within_validator_network self) && is_validator (ni_role (sm_network_interface self))
         || NetworkInterface.is_upstream_peer peer None (sm_network_interface self)));
      process_transaction_broadcast env transactions request_id
        (if ineligible_for_broadcast : bool then NonQualified else NotReady) peer
  | BroadcastTransactionsResponse request_id retry backoff =>
      on_interface (NetworkInterface.process_broadcast_ack peer request_id retry backoff (en_clock env 0%nat))
  end.

Definition handle_network_event env (network_id : NetworkId) (event : NetworkEvent) : method Coordinator AnyError unit :=
  match event with
  | NewPeer metadata => handle_new_peer env (mkPeerNetworkId network_id (cm_remote_peer_id metadata)) metadata
  | LostPeer metadata =>
      on_smp (on_interface (puts (NetworkInterface.disable_peer
        (mkPeerNetworkId network_id (cm_remote_peer_id metadata)))))
  | Message peer_id msg => on_smp (handle_message env (mkPeerNetworkId network_id peer_id) msg)
  | RpcRequest _ => mret tt
  end.

Fixpoint remove_one (b : ScheduledBroadcast) (l : list ScheduledBroadcast) : list ScheduledBroadcast :=
  match l with
  | [] => []
  | b' :: l => if decide (b' = b) then l else b' :: remove_one b l
  end.
(** A scheduled broadcast leaves the set of futures when it is due. *)
Definition handle_scheduled env (broadcast : ScheduledBroadcast) : method Coordinator AnyError unit :=
  due ← gets (fun self => Ok (bool_decide (broadcast ∈ co_scheduled_broadcasts self)
                                && (sb_deadline broadcast <=? en_instant env)));
  if due : bool then
    _ ← puts (fun self => mkCoordinator (co_smp self) (remove_one broadcast (co_scheduled_broadcasts self)));
    execute_broadcast env (sb_peer broadcast) (sb_backoff broadcast)
  else mret tt.

Definition handle env (event : Event) : method Coordinator AnyError Reply :=
  match event with
  | SubmitTransaction txn => st ← on_smp (process_client_transaction_submission env txn); mret (SubmitReply st)
  | GetTransactionByHash hash => txn ← on_smp (process_client_get_transaction hash); mret (GetReply txn)
  | QuorumStore req => resp ← on_smp (process_quorum_store_request env req); mret (QuorumStoreReply resp)
  | CommitNotification transactions block_timestamp_usecs =>
      _ ← on_smp (on_mempool (process_committed_transactions (en_clock env) transactions block_timestamp_usecs false));
      mret NoReply
  | Scheduled broadcast => _ ← handle_scheduled env broadcast; mret NoReply
  | Network network_id event => _ ← handle_network_event env network_id event; mret NoReply
  | GcTick => _ ← on_smp (on_mempool (Mempool.gc (en_clock env))); mret NoReply
  end.

Fixpoint run (events : list (Env * Event)) : method Coordinator AnyError unit :=
  match events with
  | [] => mret tt
  | (env, event) :: events => _ ← handle env event; run events
  end.
End shared.
End Shared.
