(* ===== verification/SharedMempoolLemmas.v ===== *)
(** * What broadcasts send

    The timeline of mempool as peers read it, what a broadcast does to the state that is
    kept of a peer, and the invariant of all peers. *)

From S2P Require Import Prelude Crypto Errors Position Accumulator Verifier Ledger ConsensusTypes Blocks TransactionProofs SchemaDb LedgerSchemas MempoolIndex MempoolIndexLemmas MempoolStore MempoolSpec MempoolSteps Mempool MempoolRun MempoolNetwork SharedMempool.

(** ** Ranges of the timeline *)
Definition id_lt {A} (x y : N * A) : Prop := x.1 < y.1.

Lemma btree_iter_sorted {A} (m : gmap N A) : StronglySorted id_lt (btree_iter m).
Proof.
  assert (forall l : list (N * A), StronglySorted N.le l.*1 -> NoDup l.*1 -> StronglySorted id_lt l) as Hl.
  { induction l as [|x l IH]; cbn; intros Hs Hn; [constructor|]. apply StronglySorted_inv in Hs as [Hs Hle].
    apply NoDup_cons in Hn as [Hx Hn]. constructor; [by apply IH|]. apply Forall_forall. intros y Hy.
    rewrite Forall_fmap, Forall_forall in Hle. specialize (Hle y Hy). cbn in Hle. unfold id_lt.
    assert (x.1 <> y.1); [|lia]. intros Hxy. apply Hx. rewrite Hxy. by apply list_elem_of_fmap_2. }
  apply Hl; [apply btree_keys_sorted|apply NoDup_btree_keys].
Qed.

Lemma StronglySorted_filter {A} (R : A -> A -> Prop) (P : A -> Prop) `{!forall x, Decision (P x)} l :
  StronglySorted R l -> StronglySorted R (filter P l).
Proof.
  induction 1 as [|x l Hs IH Hx]; [constructor|]. rewrite filter_cons. case_decide; [|done]. constructor; [done|].
  rewrite Forall_forall in *. intros y [_ Hy]%list_elem_of_filter. by apply Hx.
Qed.

Lemma filter_Forall {A} (P : A -> Prop) `{!forall x, Decision (P x)} l : Forall P l -> filter P l = l.
Proof. induction 1; [done|]. by rewrite filter_cons_True, IHForall. Qed.
Lemma filter_Forall_not {A} (P : A -> Prop) `{!forall x, Decision (P x)} l : Forall (fun x => ~ P x) l -> filter P l = [].
Proof. induction 1; [done|]. by rewrite filter_cons_False. Qed.

(** The entries up to the last one of a prefix are the prefix. *)
Lemma filter_prefix {A} (l r : list (N * A)) z :
  StronglySorted id_lt (l ++ r) -> last l = Some z -> filter (fun x => x.1 <= z.1) (l ++ r) = l.
Proof.
  intros Hs Hl. rewrite filter_app.
  assert (forall x y, x ∈ l -> y ∈ r -> x.1 < y.1) as Hlr.
  { intros x y Hx Hy. clear Hl. induction l as [|w l IH]; [by apply elem_of_nil in Hx|].
    apply StronglySorted_inv in Hs as [Hs Hw]. apply elem_of_cons in Hx as [->|Hx]; [|by apply IH].
    rewrite Forall_forall in Hw. apply Hw, elem_of_app. by right. }
  assert (Forall (fun x => x.1 <= z.1) l) as Hle.
  { apply last_Some in Hl as [l' ->]. clear Hlr. rewrite <-app_assoc in Hs. induction l' as [|w l' IH]; cbn; [by repeat constructor|].
    apply StronglySorted_inv in Hs as [Hs Hw]. constructor; [|by apply IH]. rewrite Forall_forall in Hw.
    assert (id_lt w z) as Hwz; [|unfold id_lt in Hwz; lia]. apply Hw. apply elem_of_app. right. left. }
  assert (z ∈ l) as Hz by (by apply last_Some_elem_of).
  rewrite (filter_Forall _ l Hle), (filter_Forall_not _ r); [by rewrite app_nil_r|].
  apply Forall_forall. intros y Hy. specialize (Hlr z y Hz Hy). lia.
Qed.

Section broadcast.
Context `{CryptoHash Transaction}.
Implicit Types (m : Pool) (q : TxnPointer) (e : Entry) (self : TransactionStore).

(** An entry of the timeline, with its transaction. *)
Definition listed m (x : N * TxnPointer) (txn : SignedTransaction) : Prop :=
  exists e, m !! x.2 = Some e /\ e_announced e = true /\ mt_timeline_state (e_txn e) = Ready x.1 /\ mt_txn (e_txn e) = txn.
Definition timeline self : list (N * TxnPointer) := btree_iter (ti_timeline (timeline_index self)).

Lemma timeline_listed m self x : represents m self -> x ∈ timeline self <-> exists txn, listed m x txn.
Proof.
  intros Hr. destruct x as [id q]. unfold timeline. rewrite elem_of_btree_iter, (ix_timeline _ _ (rp_index _ _ Hr)).
  unfold listed. naive_solver.
Qed.
Lemma listed_stored m self x txn : represents m self -> listed m x txn ->
  exists t, TransactionStore.get_mempool_txn x.2.1 x.2.2 self = Some t /\ mt_txn t = txn /\ mt_timeline_state t = Ready x.1.
Proof.
  intros Hr (e & He & _ & Hs & Ht). exists (e_txn e). split_and!; [|done|done]. rewrite (rp_txns _ _ Hr).
  destruct x as [id [a n]]. cbn in *. by rewrite lookup_txns, He.
Qed.
Lemma listed_all m self l : represents m self -> (forall x, x ∈ l -> x ∈ timeline self) ->
  exists txns, Forall2 (listed m) l txns.
Proof.
  intros Hr. induction l as [|x l IH]; intros Hl; [by exists []|].
  destruct IH as [txns Htxns]; [intros y Hy; apply Hl; by right|].
  destruct (proj1 (timeline_listed m self x Hr)) as [txn Htxn]; [apply Hl; by left|].
  exists (txn :: txns). by constructor.
Qed.
Lemma listed_fun m x txn txn' : listed m x txn -> listed m x txn' -> txn = txn'.
Proof. intros (e & He & _ & _ & <-) (e' & He' & _ & _ & <-). congruence. Qed.
Lemma listed_inj m self x y txn txn' : represents m self -> listed m x txn -> listed m y txn' -> x.1 = y.1 -> x = y.
Proof.
  intros Hr (e & He & _ & Hs & _) (e' & He' & _ & Hs' & _) Hxy. destruct x as [i q], y as [j q']. cbn in *. subst j.
  f_equal. by eapply (ix_ids _ _ (rp_index _ _ Hr)).
Qed.

Definition in_range (a b : N) (x : N * TxnPointer) : Prop := a < x.1 /\ x.1 <= b.
#[global] Instance in_range_dec a b x : Decision (in_range a b x).
Proof. unfold in_range. apply _. Defined.

(** What a batch is: the transactions of a range of the timeline. *)
Lemma timeline_range_ok {E} m self a b : represents m self -> a <= b ->
  exists txns, TransactionStore.timeline_range (E := E) a b self = Ok txns /\
    Forall2 (listed m) (filter (in_range a b) (timeline self)) txns.
Proof.
  intros Hr Hab. destruct (listed_all m self (filter (in_range a b) (timeline self)) Hr) as [txns Htxns].
  { intros x [_ Hx]%list_elem_of_filter. done. }
  exists txns. split; [|done]. unfold TransactionStore.timeline_range, TimelineIndex.timeline_range.
  rewrite (proj2 (N.leb_le _ _) Hab). cbn. f_equal. change (filter _ (btree_iter _)) with (filter (in_range a b) (timeline self)).
  induction Htxns as [|x txn l txns Hx _ IH]; [done|]. cbn.
  destruct (listed_stored m self x txn Hr Hx) as (t & Ht & Htx & _). unfold TransactionStore.get at 1. rewrite Ht. cbn.
  by rewrite Htx, IH.
Qed.
Lemma range_listed {E} m self a b x txn txns : represents m self -> listed m x txn -> in_range a b x ->
  TransactionStore.timeline_range (E := E) a b self = Ok txns -> txn ∈ txns.
Proof.
  intros Hr Hx Hin Htxns. destruct (timeline_range_ok (E := E) m self a b Hr) as (txns' & Htxns' & Hall); [unfold in_range in Hin; lia|].
  assert (txns' = txns) as -> by congruence.
  assert (x ∈ filter (in_range a b) (timeline self)) as [i Hi]%list_elem_of_lookup.
  { apply list_elem_of_filter. split; [done|]. apply (timeline_listed m); [done|by exists txn]. }
  destruct (Forall2_lookup_l _ _ _ _ _ Hall Hi) as (txn' & Htxn' & Hl).
  rewrite (listed_fun m x txn txn') by done. by eapply list_elem_of_lookup_2.
Qed.

Lemma read_fold m self l acc : represents m self -> (forall x, x ∈ l -> x ∈ timeline self) ->
  exists txns, Forall2 (listed m) l txns /\
  foldl (fun acc ptr =>
           match TransactionStore.get_mempool_txn ptr.1 ptr.2 self with
           | Some txn =>
               (acc.1 ++ [mt_txn txn],
                match mt_timeline_state txn with Ready timeline_id => timeline_id | _ => acc.2 end)
           | None => acc
           end) acc l.*2 = (acc.1 ++ txns, from_option fst acc.2 (last l)).
Proof.
  intros Hr. revert acc. induction l as [|x l IH]; intros acc Hl.
  { exists []. cbn. by rewrite app_nil_r, <-surjective_pairing. }
  destruct (proj1 (timeline_listed m self x Hr)) as [txn Htxn]; [apply Hl; by left|].
  destruct (listed_stored m self x txn Hr Htxn) as (t & Ht & Htx & Hid). cbn [fmap list_fmap foldl]. rewrite Ht, Hid, Htx.
  destruct (IH (acc.1 ++ [txn], x.1)) as (txns & Htxns & ->); [intros y Hy; apply Hl; by right|].
  exists (txn :: txns). split; [by constructor|]. cbn. rewrite <-app_assoc. destruct l as [|y l]; [done|].
  cbn. by destruct (last (y :: l)) eqn:Hlast; [|apply last_None in Hlast].
Qed.

Definition timeline_below c self : Prop := forall x, x ∈ timeline self -> x.1 < c.
Lemma timeline_counter m self : represents m self -> timeline_below (counter self) self.
Proof.
  intros Hr x (txn & e & He & _ & Hs & _)%(timeline_listed m self x Hr). by eapply (ix_fresh _ _ (rp_index _ _ Hr)).
Qed.

(** A new batch is the range up to its last transaction, and unless it is full there is
    nothing after it. *)
Lemma read_timeline_ok {E} m self a count txns b : represents m self ->
  TransactionStore.read_timeline a count self = (txns, b) ->
  a <= b /\ TransactionStore.timeline_range (E := E) a b self = Ok txns /\ (b = a \/ b < counter self) /\
  (count <> 0 /\ N.of_nat (length txns) = count \/ forall x, x ∈ timeline self -> x.1 <= b).
Proof.
  intros Hr Hread. set (es := filter (fun x => a < x.1) (timeline self)).
  assert (exists l r, es = l ++ r /\ TimelineIndex.read_timeline a count (timeline_index self) = l.*2 /\
    (count <> 0 /\ N.of_nat (length l) = count \/ r = []) /\ (l = [] -> r = [])) as (l & r & Hes & Hl & Hfull & Hnil).
  { unfold TimelineIndex.read_timeline. change (filter _ (btree_iter _)) with es. destruct (N.eqb_spec count 0) as [->|Hc].
    - exists es, []. rewrite app_nil_r. auto.
    - exists (take (N.to_nat count) es), (drop (N.to_nat count) es). rewrite take_drop, fmap_take. split_and!; [done|done| |].
      + destruct (decide (N.to_nat count <= length es)%nat); [left; split; [done|]; rewrite length_take; lia|].
        right. apply drop_ge. lia.
      + destruct es as [|x es']; [by rewrite drop_nil|]. destruct (N.to_nat count) eqn:?; [lia|done]. }
  assert (forall x, x ∈ l -> x ∈ timeline self /\ a < x.1) as Hin.
  { intros x Hx. assert (x ∈ es) as [? ?]%list_elem_of_filter by (rewrite Hes; apply elem_of_app; by left). done. }
  unfold TransactionStore.read_timeline in Hread. rewrite Hl in Hread.
  destruct (read_fold m self l ([], a) Hr) as (txns' & Htxns & Hfold); [intros x Hx; by apply Hin|].
  rewrite Hfold in Hread. cbn in Hread. injection Hread as -> <-.
  assert (StronglySorted id_lt es) as Hsort by apply StronglySorted_filter, btree_iter_sorted.
  assert (a <= from_option fst a (last l) /\ (from_option fst a (last l) = a \/ from_option fst a (last l) < counter self) /\
    filter (in_range a (from_option fst a (last l))) (timeline self) = l) as (Hab & Hbc & Hf).
  { destruct (last l) as [z|] eqn:Hlast; cbn.
    - destruct (Hin z) as [Hz Haz]; [by apply last_Some_elem_of|]. split_and!; [lia|right; by apply (timeline_counter m)|].
      etrans; [|apply (filter_prefix l r z); [by rewrite <-Hes|done]]. rewrite <-Hes. unfold es. rewrite list_filter_filter.
      apply list_filter_iff. intros x. unfold in_range. tauto.
    - apply last_None in Hlast as ->. split_and!; [lia|by left|]. apply filter_Forall_not, Forall_forall.
      intros x _. unfold in_range. lia. }
  destruct (timeline_range_ok (E := E) m self a _ Hr Hab) as (txns2 & Hrange & Hall). rewrite Hf in Hall.
  assert (txns2 = txns) as ->.
  { clear -Hall Htxns. revert txns Htxns. induction Hall as [|x t l ts Hx _ IH]; intros txns Htxns;
      inversion Htxns; subst; [done|]. f_equal; [by eapply listed_fun|by apply IH]. }
  split_and!; [done|done|done|]. rewrite <-(Forall2_length _ _ _ Htxns). destruct Hfull as [|Hr0]; [by left|right].
  intros x Hx. destruct (decide (a < x.1)) as [Hax|]; [|lia]. assert (x ∈ l) as Hxl.
  { rewrite Hr0, app_nil_r in Hes. rewrite <-Hes. by apply list_elem_of_filter. }
  rewrite <-Hf in Hxl. by apply list_elem_of_filter in Hxl as [[_ ?] _].
Qed.
End broadcast.

(** ** What is kept of a peer *)
Section peers.
Context `{CryptoHash Transaction} `{Bcs BatchId}.
Implicit Types (m : Pool) (ni : MempoolNetworkInterface) (st : PeerSyncState) (peer : PeerNetworkId) (b : BatchId).
Abbreviation Outbox := (list (PeerNetworkId * MempoolSyncMsg)).

Definition sent_to (sender : Outbox) peer (txn : SignedTransaction) : Prop :=
  exists request_id txns, (peer, BroadcastTransactionsRequest request_id txns) ∈ sender /\ txn ∈ txns.

(** Batches are ranges of the timeline that the peer has got to, and up to there every
    transaction was sent. *)
Record peer_ok (c T : N) m (sender : Outbox) peer st : Prop := {
  po_timeline : ps_timeline_id st < c;
  po_sent b t : sent_batches (ps_broadcast_info st) !! b = Some t -> b.1 <= b.2 /\ b.2 <= ps_timeline_id st /\ t <= T;
  po_retry b : b ∈ retry_batches (ps_broadcast_info st) -> b.1 <= b.2 /\ b.2 <= ps_timeline_id st;
  po_covered x txn : listed m x txn -> x.1 <= ps_timeline_id st -> sent_to sender peer txn;
}.
Definition peers_ok (c T : N) m ni : Prop :=
  forall peer st, ni_sync_states ni !! peer = Some st -> peer_ok c T m (ni_sender ni) peer st.

Lemma sent_to_mono sender sender' peer txn : sender ⊆ sender' -> sent_to sender peer txn -> sent_to sender' peer txn.
Proof. intros Hs (r & txns & Hin & Ht). exists r, txns. split; [by apply Hs|done]. Qed.
Lemma peer_ok_mono c T m sender c' T' m' sender' peer st :
  announces c m c' m' -> T <= T' -> sender ⊆ sender' -> peer_ok c T m sender peer st -> peer_ok c' T' m' sender' peer st.
Proof.
  intros [Hc Han] HT Hs [Ht Hsent Hretry Hcov]. split; [lia| |done|].
  - intros b t Hb. destruct (Hsent b t Hb) as (? & ? & ?). split_and!; [done|done|lia].
  - intros x txn (e & He & Ha & Hid & Htxn) Hx. eapply sent_to_mono; [done|].
    destruct (Han x.2 e x.1 He Ha Hid) as (e' & He' & Ha' & Hid' & Htxn'); [lia|].
    apply (Hcov x); [|done]. exists e'. split_and!; congruence.
Qed.
Lemma peers_ok_mono c T m c' T' m' ni :
  announces c m c' m' -> T <= T' -> peers_ok c T m ni -> peers_ok c' T' m' ni.
Proof. intros Han HT Hp peer st Hst. by eapply peer_ok_mono; [..|by apply Hp]. Qed.

(** Some batches are not tracked any more. *)
Definition prunes st st' : Prop :=
  ps_timeline_id st' = ps_timeline_id st /\ ps_metadata st' = ps_metadata st /\
  sent_batches (ps_broadcast_info st') ⊆ sent_batches (ps_broadcast_info st) /\
  retry_batches (ps_broadcast_info st') = retry_batches (ps_broadcast_info st) /\
  backoff_mode (ps_broadcast_info st') = backoff_mode (ps_broadcast_info st).
Definition pruned peer ni ni' : Prop :=
  ni' = ni \/ exists st st', ni_sync_states ni !! peer = Some st /\ prunes st st' /\ ni' = NetworkInterface.set_state peer st' ni.

Lemma prunes_ok c T m sender peer st st' : prunes st st' -> peer_ok c T m sender peer st -> peer_ok c T m sender peer st'.
Proof.
  intros (Htl & _ & Hsub & Hre & _) [Ht Hsent Hretry Hcov]. split; rewrite ?Htl, ?Hre; [done| |done|done].
  intros b t Hb. apply Hsent. by eapply lookup_weaken.
Qed.
Lemma set_sender_ok c T m l ni : peers_ok c T m ni -> ni_sender ni ⊆ l -> peers_ok c T m (NetworkInterface.set_sender l ni).
Proof. intros Hp Hl peer st Hst. eapply (peer_ok_mono c T m (ni_sender ni)); [apply announces_refl|done|done|by apply Hp]. Qed.
Lemma set_state_ok c T m ni peer st : peers_ok c T m ni -> peer_ok c T m (ni_sender ni) peer st ->
  peers_ok c T m (NetworkInterface.set_state peer st ni).
Proof.
  intros Hp Hst p st'. cbn. intros [[<- <-]|[_ Hst']]%lookup_insert_Some; [done|by apply Hp].
Qed.
Lemma pruned_ok c T m peer ni ni' : pruned peer ni ni' -> peers_ok c T m ni -> peers_ok c T m ni'.
Proof.
  intros [->|(st & st' & Hst & Hpr & ->)] Hp; [done|]. apply set_state_ok; [done|].
  by eapply prunes_ok; [|apply Hp].
Qed.

(** ** Choice of a batch *)
Lemma elem_of_sent_iter (s : gmap BatchId N) x : x ∈ sent_iter s <-> s !! x.1 = Some x.2.
Proof. destruct x. unfold sent_iter. rewrite merge_sort_Permutation. apply elem_of_map_to_list. Qed.
Lemma NoDup_sent_iter (s : gmap BatchId N) : NoDup (sent_iter s).*1.
Proof. unfold sent_iter. rewrite merge_sort_Permutation. apply NoDup_fst_map_to_list. Qed.
Lemma elem_of_retry_iter (s : gset BatchId) b : b ∈ retry_iter s <-> b ∈ s.
Proof. unfold retry_iter. rewrite merge_sort_Permutation. apply elem_of_elements. Qed.

Lemma retain_sent_ok m mempool l : represents m (mp_transactions mempool) -> Forall (fun x : BatchId * N => x.1.1 <= x.1.2) l ->
  exists l', NetworkInterface.retain_sent l mempool = Ok l' /\ l' `sublist_of` l.
Proof.
  intros Hr. induction 1 as [|[b t] l Hb _ (l' & IH & Hl')]; [by exists []|]. cbn in Hb. cbn [NetworkInterface.retain_sent].
  destruct (timeline_range_ok (E := BroadcastError) m _ b.1 b.2 Hr Hb) as (txns & Htxns & _). unfold Mempool.timeline_range.
  rewrite Htxns. cbn. rewrite IH. cbn. case_bool_decide; (eexists; split; [done|]); [by apply sublist_cons|by apply sublist_skip].
Qed.
Lemma retained_subseteq (s : gmap BatchId N) l : l `sublist_of` sent_iter s -> (list_to_map l : gmap BatchId N) ⊆ s.
Proof.
  intros Hl. apply map_subseteq_spec. intros b t Hb%elem_of_list_to_map_2.
  apply (elem_of_sent_iter s (b, t)). revert Hb. by apply sublist_subseteq.
Qed.
Lemma find_expired_ok peer l clock config n acc :
  Forall (fun x : BatchId * N => x.2 + mc_shared_mempool_ack_timeout_ms config * 10 ^ 6 < time_limit) l ->
  match NetworkInterface.find_expired peer l clock config n acc with
  | Ok r => r = acc \/ exists b, r = Some b /\ b ∈ l.*1
  | Err _ => True
  | Panic => False
  end.
Proof.
  intros Hl. revert clock n acc. induction Hl as [|[b t] l Hb _ IH]; intros clock n acc; [by left|].
  cbn [NetworkInterface.find_expired]. cbn in Hb. rewrite (proj2 (N.ltb_lt _ _) Hb). cbn [assert_ mbind outcome_bind].
  destruct (_ <=? clock 0%nat).
  - destruct (_ <=? n); [done|]. specialize (IH (fun i => clock (S i)) n (Some b)).
    destruct NetworkInterface.find_expired as [r|e|]; [|done|done]. right.
    destruct IH as [->|(b' & -> & Hb')]; [exists b; split; [done|by left]|exists b'; split; [done|by right]].
  - destruct (_ <=? n + 1); [done|]. specialize (IH (fun i => clock (S i)) (n + 1) acc).
    destruct NetworkInterface.find_expired as [r|e|]; [|done|done].
    destruct IH as [->|(b' & -> & Hb')]; [by left|right; exists b'; split; [done|by right]].
Qed.

Definition timely (T : N) ni : Prop := T + mc_shared_mempool_ack_timeout_ms (ni_mempool_config ni) * 10 ^ 6 < time_limit.

(** A batch to send again, if there is one, and a new one otherwise. *)
Record chosen mempool peer (clock : nat -> N) ni st st' b (txns : list SignedTransaction) : Prop := {
  ch_state : ni_sync_states ni !! peer = Some st;
  ch_prunes : prunes st st';
  ch_some : txns <> [];
  ch_batch : exists expired,
    NetworkInterface.find_expired peer (sent_iter (sent_batches (ps_broadcast_info st'))) clock (ni_mempool_config ni) 0 None = Ok expired /\
    match batch_max expired (last (retry_iter (retry_batches (ps_broadcast_info st)))) with
    | Some id => b = id /\ Mempool.timeline_range (E := BroadcastError) id.1 id.2 mempool = Ok txns
    | None => b.1 = ps_timeline_id st /\
        Mempool.read_timeline (ps_timeline_id st) (mc_shared_mempool_batch_size (ni_mempool_config ni)) mempool = (txns, b.2)
    end;
}.

Lemma batch_max_cases x y b : batch_max x y = Some b -> x = Some b \/ y = Some b.
Proof. destruct x, y; cbn; [case_decide| | |]; naive_solver. Qed.

Lemma determine_ok c T m mempool peer backoff clock ni :
  represents m (mp_transactions mempool) -> peers_ok c T m ni -> timely T ni ->
  safe (pruned peer ni) (NetworkInterface.determine_broadcast_batch peer backoff clock mempool)
    (fun r ni' => exists st st', ni' = NetworkInterface.set_state peer st' ni /\ chosen mempool peer clock ni st st' r.1.1 r.1.2) ni.
Proof.
  intros Hr Hp HT. unfold NetworkInterface.determine_broadcast_batch. apply safe_bind, safe_gets.
  destruct (ni_sync_states ni !! peer) as [st|] eqn:Hst; cbn [ok_or]; [|by left]. pose proof (Hp _ _ Hst) as Hst'.
  apply safe_bind, safe_gets. destruct (NetworkInterface.check_peer_prioritized peer ni) as [[]|e|] eqn:Hprio; [|by left|].
  2: { unfold NetworkInterface.check_peer_prioritized in Hprio. by repeat case_match. }
  apply safe_bind, safe_lift. unfold ensure at 1. destruct (negb _); [|by left].
  apply safe_bind, safe_lift. destruct (retain_sent_ok m mempool (sent_iter (sent_batches (ps_broadcast_info st))) Hr) as (l & -> & Hl).
  { apply Forall_forall. intros [b t] Hb%elem_of_sent_iter. by apply (po_sent _ _ _ _ _ _ Hst') in Hb as [? _]. }
  set (info := mkBroadcastInfo _ _ _). set (st1 := NetworkInterface.set_info st info).
  assert (prunes st st1) as Hpr by (split_and!; [done|done|by apply retained_subseteq|done|done]).
  assert (pruned peer ni (NetworkInterface.set_state peer st1 ni)) as Hpd by (right; by exists st, st1).
  pose proof (prunes_ok _ _ _ _ _ _ _ Hpr Hst') as Hst1.
  apply safe_bind, safe_puts. fold st1. apply safe_bind, safe_gets. cbn [ni_mempool_config NetworkInterface.set_state NetworkInterface.set_sync_states].
  pose proof (find_expired_ok peer (sent_iter (sent_batches info)) clock (ni_mempool_config ni) 0 None) as Hex.
  destruct NetworkInterface.find_expired as [expired|e|] eqn:Hfe; [|done|].
  2: { apply Hex. apply Forall_forall. intros [b t] Hb%elem_of_sent_iter.
       destruct (po_sent _ _ _ _ _ _ Hst1 b t Hb) as (_ & _ & ?). unfold timely in HT. cbn. lia. }
  apply safe_bind. apply (safe_mono _ _ (fun r ni' => ni' = NetworkInterface.set_state peer st1 ni /\ match batch_max expired (last (retry_iter (retry_batches info))) with
    | Some id => r.1.1 = id /\ Mempool.timeline_range (E := BroadcastError) id.1 id.2 mempool = Ok r.1.2
    | None => r.1.1.1 = ps_timeline_id st /\
        Mempool.read_timeline (ps_timeline_id st) (mc_shared_mempool_batch_size (ni_mempool_config ni)) mempool = (r.1.2, r.1.1.2)
    end)).
  - destruct (batch_max expired _) as [id|] eqn:Hmax.
    + assert (id.1 <= id.2) as Hid.
      { apply batch_max_cases in Hmax as [->|Hlast%last_Some_elem_of%elem_of_retry_iter].
        - destruct Hex as [[=]|(b & [= <-] & ([x t] & -> & Hx%elem_of_sent_iter)%list_elem_of_fmap)].
          + apply Forall_forall. intros [b t] Hb%elem_of_sent_iter.
            destruct (po_sent _ _ _ _ _ _ Hst1 b t Hb) as (_ & _ & ?). unfold timely in HT. cbn. lia.
          + by apply (po_sent _ _ _ _ _ _ Hst1) in Hx as [? _].
        - by apply (po_retry _ _ _ _ _ _ Hst1) in Hlast as [? _]. }
      apply safe_bind, safe_lift. unfold Mempool.timeline_range.
      destruct (timeline_range_ok (E := BroadcastError) m _ _ _ Hr Hid) as (txns & -> & _). by apply safe_ret.
    + apply safe_gets. cbn. by destruct (Mempool.read_timeline _ _ mempool).
  - intros [[b txns] label] ? [-> Hb]. apply safe_bind, safe_lift. unfold ensure. case_bool_decide as Htx; cbn [negb]; [done|].
    apply safe_ret. exists st, st1. split; [done|]. split; [done|done|done|]. by exists expired.
Qed.

Lemma chosen_range c T m mempool peer clock ni st st' b txns :
  represents m (mp_transactions mempool) -> c = counter (mp_transactions mempool) -> peers_ok c T m ni -> timely T ni ->
  chosen mempool peer clock ni st st' b txns ->
  b.1 <= b.2 /\ b.2 < c /\ (b.1 = ps_timeline_id st \/ b.2 <= ps_timeline_id st) /\
  Mempool.timeline_range (E := BroadcastError) b.1 b.2 mempool = Ok txns.
Proof.
  intros Hr -> Hp HT [Hst Hpr _ (expired & Hex & Hb)]. pose proof (Hp _ _ Hst) as Hst1.
  pose proof (prunes_ok _ _ _ _ _ _ _ Hpr Hst1) as Hst'. destruct (batch_max _ _) as [id|] eqn:Hmax.
  - destruct Hb as [-> Hb]. enough (id.1 <= id.2 /\ id.2 <= ps_timeline_id st) as [Hid Hle].
    { pose proof (po_timeline _ _ _ _ _ _ Hst1). split_and!; [done|lia|by right|done]. }
    apply batch_max_cases in Hmax as [->|Hlast%last_Some_elem_of%elem_of_retry_iter];
      [|by apply (po_retry _ _ _ _ _ _ Hst1) in Hlast].
    pose proof (find_expired_ok peer (sent_iter (sent_batches (ps_broadcast_info st'))) clock (ni_mempool_config ni) 0 None) as Hin.
    rewrite Hex in Hin. destruct Hin as [[=]|(b' & [= <-] & ([x t] & -> & Hx%elem_of_sent_iter)%list_elem_of_fmap)].
    + apply Forall_forall. intros [b' t] Hb'%elem_of_sent_iter.
      destruct (po_sent _ _ _ _ _ _ Hst' b' t Hb') as (_ & _ & ?). unfold timely in HT. cbn. lia.
    + apply (po_sent _ _ _ _ _ _ Hst') in Hx as (? & Hle & _). by rewrite (proj1 Hpr) in Hle.
  - destruct Hb as [Hb1 Hb]. destruct (read_timeline_ok (E := BroadcastError) m _ _ _ _ _ Hr Hb) as (Hle & Hrange & Hc & _).
    rewrite Hb1. split_and!; [done| |by left|done]. pose proof (po_timeline _ _ _ _ _ _ Hst1). destruct Hc as [->|]; [done|lia].
Qed.

(** What a broadcast and an answer leave alone. *)
Record same_peers ni ni' : Prop := {
  sp_config : ni_mempool_config ni' = ni_mempool_config ni;
  sp_role : ni_role ni' = ni_role ni;
  sp_prioritized : ni_prioritized_peers ni' = ni_prioritized_peers ni;
  sp_dom peer : ps_metadata <$> ni_sync_states ni' !! peer = ps_metadata <$> ni_sync_states ni !! peer;
}.
#[global] Instance same_peers_preorder : PreOrder same_peers.
Proof. split; [done|]. intros ??? [? ? ? H1] [? ? ? H2]. split; [congruence..|]. intros peer. by rewrite H2, H1. Qed.
Lemma set_state_same ni peer st st' :
  ni_sync_states ni !! peer = Some st -> ps_metadata st' = ps_metadata st -> same_peers ni (NetworkInterface.set_state peer st' ni).
Proof.
  intros Hst Hmd. split; [done..|]. intros p. cbn. destruct (decide (p = peer)) as [->|Hne].
  - rewrite lookup_insert_eq, Hst. cbn. by rewrite Hmd.
  - by rewrite lookup_insert_ne.
Qed.
Lemma pruned_same peer ni ni' : pruned peer ni ni' -> same_peers ni ni'.
Proof. intros [->|(st & st' & Hst & (_ & ? & _) & ->)]; [done|by eapply set_state_same]. Qed.

Class BatchBcs : Prop := {
  batch_encodes b : b.1 <= u64_max -> b.2 <= u64_max -> exists r, bcs_to_bytes b = Ok r /\ bcs_from_bytes r = Ok b;
  batch_decodes r : bcs_from_bytes (A := BatchId) r <> Panic;
}.

(** A broadcast to [peer]: at most one request is sent. *)
Record broadcasts peer ni ni' : Prop := {
  bc_same : same_peers ni ni';
  bc_sender : ni_sender ni' = ni_sender ni \/
    exists r txns, ni_sender ni' = ni_sender ni ++ [(peer, BroadcastTransactionsRequest r txns)];
  bc_other p : p <> peer -> ni_sync_states ni' !! p = ni_sync_states ni !! p;
}.

Lemma execute_broadcast_ok `{!BatchBcs} c T T' m mempool peer backoff clock send_time link ni :
  represents m (mp_transactions mempool) -> c = counter (mp_transactions mempool) -> peers_ok c T m ni -> timely T ni ->
  T <= T' -> send_time <= T' -> c <= u64_max ->
  safe (fun ni' => peers_ok c T' m ni' /\ broadcasts peer ni ni')
    (NetworkInterface.execute_broadcast peer backoff clock send_time link mempool)
    (fun _ ni' => peers_ok c T' m ni' /\ broadcasts peer ni ni') ni.
Proof.
  intros Hr Hc Hp HT HT' Hsend Hmax. assert (forall ni', pruned peer ni ni' -> peers_ok c T' m ni' /\ broadcasts peer ni ni') as Hpd.
  { intros ni' Hpr. split; [by apply (peers_ok_mono c T m c T' m ni' (announces_refl c m) HT'), (pruned_ok _ _ _ peer ni)|].
    split; [by eapply pruned_same|left|]; destruct Hpr as [->|(st & st' & _ & _ & ->)]; [done|done|done|].
    intros p Hne. cbn. by rewrite lookup_insert_ne. }
  unfold NetworkInterface.execute_broadcast. apply safe_bind.
  pose proof (determine_ok c T m mempool peer backoff clock ni Hr Hp HT) as Hdet. unfold safe in Hdet |- * at 1.
  destruct (NetworkInterface.determine_broadcast_batch _ _ _ _ ni) as [[[[b txns] label]|e|] ni1]; [|by apply Hpd|done].
  destruct Hdet as (st & st1 & -> & Hch). cbn [fst snd] in Hch. pose proof Hch as [Hst Hpr _ _].
  destruct (chosen_range c T m mempool peer clock ni st st1 b txns Hr Hc Hp HT Hch) as (Hb12 & Hbc & Hbt & Hrange).
  set (ni1 := NetworkInterface.set_state peer st1 ni). assert (pruned peer ni ni1) as Hpd1 by (right; by exists st, st1).
  destruct (Hpd ni1 Hpd1) as [Hp1 Hbr1].
  apply safe_bind. unfold NetworkInterface.send_batch. destruct (batch_encodes b) as (r & Henc & _); [lia|lia|].
  apply safe_bind, safe_lift. rewrite Henc. unfold NetworkInterface.send_to. destruct link; [|apply safe_lift; by apply Hpd].
  apply safe_puts, safe_bind. unfold NetworkInterface.update_broadcast_state. apply safe_bind, safe_gets.
  set (ni2 := NetworkInterface.set_sender _ ni1).
  assert (ni_sync_states ni2 !! peer = Some st1) as -> by (cbn; apply lookup_insert_eq). cbn [ok_or].
  apply safe_bind, safe_puts, safe_ret, safe_ret. set (st2 := mkPeerSyncState _ _ _). split.
  - pose proof (Hp1 peer st1 (lookup_insert_eq _ _ _)) as Hst1. assert (ni_sender ni1 ⊆ ni_sender ni2) as Hsub.
    { intros x Hx. apply elem_of_app. by left. }
    apply set_state_ok; [by apply set_sender_ok|].
    pose proof Hpr as (Htl & _). split; cbn.
    + pose proof (po_timeline _ _ _ _ _ _ Hst1). lia.
    + intros b' t [[<- <-]|[_ Hb']]%lookup_insert_Some; [split_and!; [done|lia|done]|].
      apply (po_sent _ _ _ _ _ _ Hst1) in Hb' as (? & ? & ?). split_and!; [done|lia|done].
    + intros b' [Hb' _]%elem_of_difference. apply (po_retry _ _ _ _ _ _ Hst1) in Hb'. lia.
    + intros x txn Hx Hle. destruct (decide (x.1 <= ps_timeline_id st1)) as [Hle1|Hgt].
      * eapply sent_to_mono; [exact Hsub|]. by apply (po_covered _ _ _ _ _ _ Hst1 x).
      * exists r, txns. split; [apply elem_of_app; right; by left|]. assert (in_range b.1 b.2 x) as Hin by (unfold in_range; lia).
        by eapply range_listed.
  - split.
    + etrans; [apply Hbr1|]. etrans; [|eapply (set_state_same ni2 peer st1)]; [done|apply lookup_insert_eq|done].
    + right. by exists r, txns.
    + intros p Hne. cbn. by rewrite !lookup_insert_ne.
Qed.
End peers.
