(* ===== verification/SharedMempoolRun.v ===== *)
(** * Runs of shared mempool

    Every event of the coordinator keeps mempool well-formed and an invariant of the
    peers, whatever that invariant is, as long as the operations of the network interface
    keep it. *)

From S2P Require Import Prelude Crypto Errors Position Accumulator Verifier Ledger ConsensusTypes Blocks TransactionProofs SchemaDb LedgerSchemas MempoolIndex MempoolIndexLemmas MempoolStore MempoolSpec MempoolSteps Mempool MempoolRun MempoolNetwork SharedMempool SharedMempoolLemmas.

(** ** The part of mempool *)
Section mempool.
Context `{CryptoHash Transaction}.
Implicit Types (m : Pool) (self : Mempool) (env : Env).

Record evolves self m (k : N) self' m' : Prop := {
  ev_ok : mempool_ok m' self';
  ev_config : same_config self self';
  ev_budget : timeline_budget m' self' <= timeline_budget m self + k;
  ev_announces : announces (counter (mp_transactions self)) m (counter (mp_transactions self')) m';
}.
Lemma evolves_refl self m k : mempool_ok m self -> evolves self m k self m.
Proof. intros Hok. split; [done|done|lia|apply announces_refl]. Qed.
Lemma evolves_trans self m k self1 m1 k1 self2 m2 k2 :
  evolves self m k self1 m1 -> evolves self1 m1 k1 self2 m2 -> k + k1 <= k2 -> evolves self m k2 self2 m2.
Proof. intros [? ? ? ?] [? ? ? ?] Hk. split; [done|by etrans|lia|by eapply announces_trans]. Qed.
Lemma step_evolves op self m r self' : step_post op self m r self' -> exists m', evolves self m (if is_add op then 1 else 0) self' m'.
Proof. intros (m' & ? & _ & ? & ? & ?). by exists m'. Qed.

(** There is room for [k] more transactions. *)
Record room self m (k : N) : Prop := {
  ro_ok : mempool_ok m self;
  ro_capacity : capacity (mp_transactions self) <= u64_max;
  ro_budget : timeline_budget m self + k <= u64_max;
}.
Lemma evolves_room self m k n self' m' : room self m (k + n) -> evolves self m k self' m' -> room self' m' n.
Proof. intros [? ? ?] [? (Hc & _) ? _]. split; [done|by rewrite Hc|lia]. Qed.

Lemma room_weaken self m k : room self m k -> room self m 0.
Proof. intros [? ? ?]. split; [done|done|lia]. Qed.
Lemma room_counter self m k : room self m k -> counter (mp_transactions self) <= u64_max.
Proof. intros [_ _ Hb]. unfold timeline_budget, budget in Hb. lia. Qed.

Definition env_ok (timeout : N) env : Prop := forall i, en_txn_clock env i 1%nat + timeout < 2 ^ 64 * 10 ^ 9.
Definition fits (txn : SignedTransaction) : Prop := txn_sequence_number txn < u64_max.

Lemma screen_fits env idx txns : Forall fits txns ->
  Forall (fun x => fits x.1) (Shared.screen_transactions env idx txns).1 /\
  (length (Shared.screen_transactions env idx txns).1 <= length txns)%nat.
Proof.
  intros Ht. revert idx. induction Ht as [|t txns Hf _ IH]; intros idx; [by split|]. cbn.
  specialize (IH (S idx)). destruct Shared.screen_transactions as [rest statuses]. cbn in IH. destruct IH as [IH Hlen].
  destruct (en_db env idx (txn_sender t)) as [info|]; [|cbn; split; [done|lia]].
  destruct (_ <=? _); cbn; (split; [|lia]); [by constructor|done].
Qed.

Lemma add_transactions_ok env state l : forall idx m self,
  room self m (N.of_nat (length l)) -> env_ok (mp_system_transaction_timeout self) env -> Forall (fun x => fits x.1) l ->
  state = NotReady \/ state = NonQualified ->
  returns (Shared.add_transactions env idx l state)
    (fun _ self' => exists m', evolves self m (N.of_nat (length l)) self' m') self.
Proof.
  induction l as [|[txn info] l IH]; intros idx m self Hroom Henv Hl Hstate; unfold returns; cbn [Shared.add_transactions].
  { apply safe_ret. exists m. apply evolves_refl, Hroom. }
  apply Forall_cons in Hl as [Hf Hl]. cbn [fst] in Hf. cbn [length] in Hroom |- *.
  replace (N.of_nat (S (length l))) with (1 + N.of_nat (length l)) in * by lia. apply safe_bind.
  apply safe_mono with (fun _ self' => exists m', evolves self m 1 self' m').
  - assert (exists m', evolves self m 1 self m') as Hsame by (exists m; apply evolves_refl, Hroom).
    destruct (en_validate env idx txn) as [[[v|] score]|]; [by apply safe_ret| |by apply safe_ret]. cbn. apply safe_bind.
    destruct Hroom as [Hok Hcap Hb]. eapply safe_mono; [apply (add_txn_ok m); [done| |done|lia]|].
    + split_and!; [done|apply Henv|done].
    + intros st self' Hst. apply safe_ret. by apply step_evolves in Hst.
  - intros pushed self1 (m1 & Hev). apply safe_bind. eapply safe_mono; [apply (IH (S idx) m1 self1)|].
    + by eapply evolves_room.
    + intros i. by rewrite (proj2 (proj2 (ev_config _ _ _ _ _ Hev))).
    + done.
    + done.
    + intros statuses self2 (m2 & Hev2). apply safe_ret. exists m2. by eapply evolves_trans.
Qed.

Lemma evolves_weaken self m k k' self' m' : evolves self m k self' m' -> k <= k' -> evolves self m k' self' m'.
Proof. intros [? ? ? ?] Hk. split; [done|done|lia|done]. Qed.

Lemma incoming_ok env txns state m self :
  room self m (N.of_nat (length txns)) -> env_ok (mp_system_transaction_timeout self) env -> Forall fits txns ->
  state = NotReady \/ state = NonQualified ->
  returns (Shared.process_incoming_transactions env txns state)
    (fun _ self' => exists m', evolves self m (N.of_nat (length txns)) self' m') self.
Proof.
  intros [Hok Hcap Hb] Henv Ht Hstate. unfold returns, Shared.process_incoming_transactions.
  destruct (screen_fits env 0 txns Ht) as [Hf Hlen]. destruct Shared.screen_transactions as [l statuses]. cbn [fst] in *.
  apply safe_bind. eapply safe_mono; [apply (add_transactions_ok env state l 0 m); [|done|done|done]|].
  - split; [done|done|lia].
  - intros pushed self' (m' & Hev). apply safe_ret. exists m'. eapply evolves_weaken; [done|lia].
Qed.

Lemma remove_transactions_ok l is_rejected : forall clock m self,
  room self m 0 -> is_rejected = true \/ Forall (fun x => ts_sequence_number x < u64_max) l ->
  returns (Shared.remove_transactions clock l is_rejected) (fun _ self' => exists m', evolves self m 0 self' m') self.
Proof.
  induction l as [|x l IH]; intros clock m self Hroom Hl; unfold returns; cbn [Shared.remove_transactions].
  { apply safe_ret. exists m. apply evolves_refl, Hroom. }
  apply safe_bind. destruct Hroom as [Hok Hcap Hb]. eapply safe_mono; [apply (remove_ok m); [done| |done|lia]|].
  - destruct Hl as [|[? _]%Forall_cons]; [by left|by right].
  - intros [] self1 (m1 & Hev)%step_evolves. eapply safe_mono; [apply (IH _ m1)|].
    + eapply evolves_room; [|exact Hev]. by split.
    + destruct Hl as [|[_ ?]%Forall_cons]; [by left|by right].
    + intros [] self2 (m2 & Hev2). exists m2. by eapply evolves_trans.
Qed.
Lemma expiration_evolves m self time : room self m 0 ->
  returns (Mempool.gc_by_expiration_time time) (fun _ self' => exists m', evolves self m 0 self' m') self.
Proof. intros [Hok Hcap _]. eapply safe_mono; [by apply (gc_expiration_ok m)|]. intros [] self' Hst. by apply step_evolves in Hst. Qed.

Lemma committed_ok clock l time is_rejected m self :
  room self m 0 -> is_rejected = true \/ Forall (fun x => ts_sequence_number x < u64_max) l ->
  returns (Shared.process_committed_transactions clock l time is_rejected) (fun _ self' => exists m', evolves self m 0 self' m') self.
Proof.
  intros Hroom Hl. unfold returns, Shared.process_committed_transactions. apply safe_bind.
  eapply safe_mono; [by apply (remove_transactions_ok _ _ _ m)|]. intros [] self1 (m1 & Hev).
  destruct (0 <? time); [|apply safe_ret; by exists m1].
  eapply safe_mono; [apply (expiration_evolves m1); by apply (evolves_room self m 0 0)|]. intros [] self2 (m2 & Hev2).
  exists m2. by eapply evolves_trans.
Qed.
End mempool.

(** ** The coordinator *)
Section coordinator.
Context `{CryptoHash Transaction} `{Bcs BatchId}.
Implicit Types (m : Pool) (mp : Mempool) (ni : MempoolNetworkInterface) (env : Env) (peer : PeerNetworkId).

(** An invariant of the peers, at a time; [lost_ok] are the peers that may go. *)
Class NetInvariant (J : N -> Mempool -> Pool -> MempoolNetworkInterface -> Prop) (lost_ok : PeerNetworkId -> Prop) : Prop := {
  inv_mempool T mp m k mp' m' ni : J T mp m ni -> evolves mp m k mp' m' -> J T mp' m' ni;
  inv_time T T' mp m ni : J T mp m ni -> T <= T' -> J T' mp m ni;
  inv_broadcast T T' mp m ni peer backoff clock link : J T mp m ni -> room mp m 0 -> timely T' ni -> T <= T' ->
    safe (fun ni' => J T' mp m ni' /\ broadcasts peer ni ni')
      (NetworkInterface.execute_broadcast peer backoff clock T' link mp)
      (fun _ ni' => J T' mp m ni' /\ broadcasts peer ni ni') ni;
  inv_ack T T' mp m ni peer request_id retry backoff : J T mp m ni -> T <= T' ->
    returns (NetworkInterface.process_broadcast_ack peer request_id retry backoff T')
      (fun _ ni' => J T' mp m ni' /\ same_peers ni ni') ni;
  inv_response T mp m ni peer request_id retry backoff : J T mp m ni ->
    J T mp m (NetworkInterface.set_sender (ni_sender ni ++ [(peer, BroadcastTransactionsResponse request_id retry backoff)]) ni);
  inv_add T mp m ni peer metadata : J T mp m ni -> mempool_ok m mp -> J T mp m (NetworkInterface.add_peer peer metadata ni).2;
  inv_lost T mp m ni peer : J T mp m ni -> lost_ok peer -> J T mp m (NetworkInterface.disable_peer peer ni);
}.

Context (J : N -> Mempool -> Pool -> MempoolNetworkInterface -> Prop) (lost_ok : PeerNetworkId -> Prop).
Context `{!NetInvariant J lost_ok}.
Context (config : MempoolConfig) (timeout : N).

Definition scheduled (ni : MempoolNetworkInterface) (l : list ScheduledBroadcast) : Prop :=
  forall peer, is_Some (ni_sync_states ni !! peer) -> exists b, b ∈ l /\ sb_peer b = peer.

Record smp_ok (T k : N) m (smp : SharedMempool) : Prop := {
  sm_room : room (sm_mempool smp) m k;
  sm_net : J T (sm_mempool smp) m (sm_network_interface smp);
  sm_timeout : mp_system_transaction_timeout (sm_mempool smp) = timeout;
  sm_net_config : ni_mempool_config (sm_network_interface smp) = config;
}.
Definition shared_ok (T k : N) m (self : Coordinator) : Prop :=
  smp_ok T k m (co_smp self) /\ scheduled (sm_network_interface (co_smp self)) (co_scheduled_broadcasts self).

Definition event_adds (event : Event) : N :=
  match event with
  | SubmitTransaction _ => 1
  | Network _ (Message _ (BroadcastTransactionsRequest _ txns)) => N.of_nat (length txns)
  | _ => 0
  end.
(** Sequence numbers and times fit their types. *)
Definition event_ok (T : N) env (event : Event) : Prop :=
  T <= en_clock env 0%nat /\
  en_clock env 0%nat + mc_shared_mempool_ack_timeout_ms config * 10 ^ 6 < time_limit /\ env_ok timeout env /\
  match event with
  | SubmitTransaction txn => fits txn
  | Network _ (Message _ (BroadcastTransactionsRequest _ txns)) => Forall fits txns
  | CommitNotification l _ => Forall (fun x => ts_sequence_number x < u64_max) l
  | Network network_id (LostPeer metadata) => lost_ok (mkPeerNetworkId network_id (cm_remote_peer_id metadata))
  | _ => True
  end.

(** A part that only works on mempool. *)
Lemma on_mempool_ok {A} (f : method Mempool AnyError A) T k k' m (Q : A -> SharedMempool -> Prop) smp :
  smp_ok T (k + k') m smp ->
  returns f (fun a mp' => exists m', evolves (sm_mempool smp) m k mp' m') (sm_mempool smp) ->
  (forall a mp' m', smp_ok T k' m' (Shared.set_mempool mp' smp) -> Q a (Shared.set_mempool mp' smp)) ->
  returns (Shared.on_mempool f) Q smp.
Proof.
  intros [Hroom Hnet Hto Hcfg] Hf HQ. apply (safe_on (fun _ => False)); [|done]. eapply safe_mono; [exact Hf|].
  intros a mp' (m' & Hev). apply (HQ a mp' m'). split; cbn.
  - by eapply evolves_room.
  - by eapply inv_mempool.
  - by rewrite (proj2 (proj2 (ev_config _ _ _ _ _ Hev))).
  - done.
Qed.
Lemma on_smp_ok {A} (f : method SharedMempool AnyError A) (Q : A -> Coordinator -> Prop) self :
  returns f (fun a smp => Q a (mkCoordinator smp (co_scheduled_broadcasts self))) (co_smp self) -> returns (Shared.on_smp f) Q self.
Proof. intros Hf. by eapply safe_on. Qed.
Lemma smp_ok_time T T' k m smp : smp_ok T k m smp -> T <= T' -> smp_ok T' k m smp.
Proof. intros [? ? ? ?] HT. split; [done|by eapply inv_time|done|done]. Qed.
Lemma smp_ok_weaken T k k' m smp : smp_ok T k m smp -> k' <= k -> smp_ok T k' m smp.
Proof. intros [[? ? ?] ? ? ?] HT. split; [split; [done|done|lia]|done|done|done]. Qed.

Lemma same_scheduled ni ni' l : same_peers ni ni' -> scheduled ni l -> scheduled ni' l.
Proof. intros Hs Hl peer Hp. apply Hl. rewrite <-(fmap_is_Some ps_metadata), <-(sp_dom _ _ Hs), fmap_is_Some. done. Qed.

(** What is sent in an answer does not change the peers. *)
Lemma respond_ok env T k m peer request_id results smp :
  smp_ok T k m smp ->
  returns (Shared.logged (Shared.on_interface (NetworkInterface.send_to (NetworkError peer) (en_link env) peer
    (Shared.gen_ack_response request_id results))))
    (fun _ smp' => smp_ok T k m smp' /\ same_peers (sm_network_interface smp) (sm_network_interface smp')) smp.
Proof.
  intros [Hroom Hnet Hto Hcfg]. unfold returns, safe, Shared.logged, Shared.on_interface, on, NetworkInterface.send_to.
  destruct (en_link env); cbn; (split; [|done]); [|by destruct smp]. split; [done|by apply inv_response|done|done].
Qed.

Lemma broadcast_ok env T k m peer backoff smp :
  smp_ok T k m smp -> T <= en_clock env 0%nat -> timely (en_clock env 0%nat) (sm_network_interface smp) ->
  returns (Shared.broadcast env peer backoff)
    (fun _ smp' => smp_ok (en_clock env 0%nat) k m smp' /\ broadcasts peer (sm_network_interface smp) (sm_network_interface smp')) smp.
Proof.
  intros [Hroom Hnet Hto Hcfg] HT Htime. unfold returns, safe, Shared.broadcast, Shared.logged, Shared.on_interface, on.
  pose proof (inv_broadcast T (en_clock env 0%nat) _ m _ peer backoff (fun i => en_clock env (S i)) (en_link env) Hnet
    (room_weaken _ _ _ Hroom) Htime HT) as Hb. unfold safe in Hb.
  destruct (NetworkInterface.execute_broadcast _ _ _ _ _ _ _) as [[[]|e|] ni']; [| |done].
  all: destruct Hb as [Hnet' Hbr]; split; [|done]; split; [done|done|done|]; cbn; by rewrite (sp_config _ _ (bc_same _ _ _ Hbr)).
Qed.

Lemma execute_ok env T k m peer backoff self :
  smp_ok T k m (co_smp self) -> T <= en_clock env 0%nat ->
  en_clock env 0%nat + mc_shared_mempool_ack_timeout_ms config * 10 ^ 6 < time_limit ->
  (forall p, p <> peer -> is_Some (ni_sync_states (sm_network_interface (co_smp self)) !! p) ->
     exists b, b ∈ co_scheduled_broadcasts self /\ sb_peer b = p) ->
  returns (Shared.execute_broadcast env peer backoff) (fun _ => shared_ok (en_clock env 0%nat) k m) self.
Proof.
  intros Hok HT Htime Hsch. unfold returns, Shared.execute_broadcast. apply safe_bind, safe_gets.
  case_bool_decide as Hconn.
  - apply safe_bind, on_smp_ok. eapply safe_mono; [apply (broadcast_ok env T k m); [done|done|]|].
    + unfold timely. by rewrite (sm_net_config _ _ _ _ Hok).
    + intros [] smp' [Hok' Hbr]. apply safe_puts. split; [done|]. cbn. intros p Hp.
      destruct (decide (p = peer)) as [->|Hne]; [eexists; split; [by left|done]|].
      destruct (Hsch p Hne) as (b & Hb & Hbp); [|exists b; split; [by right|done]]. by rewrite <-(bc_other _ _ _ Hbr).
  - apply safe_ret. split; [by eapply smp_ok_time|]. intros p Hp. apply Hsch; [|done]. by intros ->.
Qed.

(** ** Peers that come and go *)
Lemma update_prioritized_same ni :
  ni_sync_states (NetworkInterface.update_prioritized_peers ni) = ni_sync_states ni /\
  ni_sender (NetworkInterface.update_prioritized_peers ni) = ni_sender ni /\
  ni_mempool_config (NetworkInterface.update_prioritized_peers ni) = ni_mempool_config ni.
Proof. unfold NetworkInterface.update_prioritized_peers. by destruct (is_validator (ni_role ni)). Qed.
Lemma add_peer_states peer metadata ni p :
  ni_sync_states (NetworkInterface.add_peer peer metadata ni).2 !! p =
    if decide (p = peer /\ NetworkInterface.is_upstream_peer peer (Some metadata) ni = true) then
      Some match ni_sync_states ni !! peer with
           | None => PeerSyncState_new metadata
           | Some st => mkPeerSyncState (ps_timeline_id st) (ps_broadcast_info st) metadata
           end
    else ni_sync_states ni !! p.
Proof.
  unfold NetworkInterface.add_peer. cbn [snd]. rewrite (proj1 (update_prioritized_same _)).
  destruct (NetworkInterface.is_upstream_peer peer (Some metadata) ni) eqn:Hup.
  - destruct (decide (p = peer)) as [->|Hne].
    + rewrite decide_True by done. destruct (ni_sync_states ni !! peer); cbn; by rewrite lookup_insert_eq.
    + rewrite decide_False by naive_solver. destruct (ni_sync_states ni !! peer); cbn; by rewrite lookup_insert_ne.
  - rewrite decide_False by naive_solver. done.
Qed.
Lemma add_peer_same peer metadata ni :
  ni_mempool_config (NetworkInterface.add_peer peer metadata ni).2 = ni_mempool_config ni /\
  ni_sender (NetworkInterface.add_peer peer metadata ni).2 = ni_sender ni.
Proof.
  unfold NetworkInterface.add_peer. cbn [snd]. rewrite (proj1 (proj2 (update_prioritized_same _))), (proj2 (proj2 (update_prioritized_same _))).
  destruct (NetworkInterface.is_upstream_peer _ _ _); [|done]. by destruct (ni_sync_states ni !! peer).
Qed.

Lemma new_peer_ok env T k m peer metadata self :
  shared_ok T k m self -> T <= en_clock env 0%nat ->
  en_clock env 0%nat + mc_shared_mempool_ack_timeout_ms config * 10 ^ 6 < time_limit ->
  returns (Shared.handle_new_peer env peer metadata) (fun _ => shared_ok (en_clock env 0%nat) k m) self.
Proof.
  intros [[Hroom Hnet Hto Hcfg] Hsch] HT Htime. unfold returns, Shared.handle_new_peer. set (ni := sm_network_interface (co_smp self)) in *.
  set (ni' := (NetworkInterface.add_peer peer metadata ni).2).
  set (self' := mkCoordinator (Shared.set_interface ni' (co_smp self)) (co_scheduled_broadcasts self)).
  assert (smp_ok T k m (co_smp self')) as Hok'.
  { split; [done| |done|by rewrite <-Hcfg; apply add_peer_same]. cbn. apply inv_add; [done|apply Hroom]. }
  apply safe_bind. match goal with |- safe _ ?f ?Q _ =>
    change (Q (bool_decide (ni_sync_states ni !! peer = None)) self') end. cbv beta.
  apply safe_bind, safe_gets. set (up := NetworkInterface.is_upstream_peer _ _ _). unfold andb. case_bool_decide as Hnew.
  - destruct up eqn:Hup.
    + apply (execute_ok env T); [done|done|done|]. intros p Hne. change (sm_network_interface (co_smp self')) with ni'. unfold ni'.
      rewrite add_peer_states.
      rewrite decide_False by naive_solver. apply Hsch.
    + apply safe_ret. split; [by eapply smp_ok_time|]. intros p. change (sm_network_interface (co_smp self')) with ni'. unfold ni'.
      rewrite add_peer_states.
      rewrite decide_False; [apply Hsch|]. intros [-> Hup']. unfold up, NetworkInterface.is_upstream_peer in *. congruence.
  - apply safe_ret. split; [by eapply smp_ok_time|]. intros p. change (sm_network_interface (co_smp self')) with ni'. unfold ni'.
      rewrite add_peer_states.
    case_decide as Hd; [|apply Hsch]. destruct Hd as [-> _]. intros _. apply Hsch. by apply not_eq_None_Some.
Qed.

Lemma lost_peer_ok T k m peer self :
  shared_ok T k m self -> lost_ok peer ->
  returns (Shared.on_smp (Shared.on_interface (puts (NetworkInterface.disable_peer peer)))) (fun _ => shared_ok T k m) self.
Proof.
  intros [[Hroom Hnet Hto Hcfg] Hsch] Hlost. apply on_smp_ok. unfold returns, safe, Shared.on_interface, on. cbn. split.
  - split; [done|by apply inv_lost|done|]. cbn. unfold NetworkInterface.disable_peer. by rewrite (proj2 (proj2 (update_prioritized_same _))).
  - cbn. intros p. unfold NetworkInterface.disable_peer. rewrite (proj1 (update_prioritized_same _)). cbn.
    intros [st [_ Hst]%lookup_delete_Some]. apply Hsch. by exists st.
Qed.

(** ** Messages and scheduled broadcasts *)
Lemma message_ok env T k m peer msg smp :
  smp_ok T (match msg with BroadcastTransactionsRequest _ txns => N.of_nat (length txns) | _ => 0 end + k) m smp ->
  T <= en_clock env 0%nat -> env_ok timeout env ->
  match msg with BroadcastTransactionsRequest _ txns => Forall fits txns | _ => True end ->
  returns (Shared.handle_message env peer msg)
    (fun _ smp' => (exists m', smp_ok (en_clock env 0%nat) k m' smp') /\
       same_peers (sm_network_interface smp) (sm_network_interface smp')) smp.
Proof.
  intros Hok HT Henv Hmsg. unfold returns. destruct msg as [request_id txns|request_id retry backoff]; cbn [Shared.handle_message].
  - apply safe_bind, safe_gets. set (state := if _ : bool then NonQualified else NotReady). apply safe_bind.
    pose proof Hok as [[Hmok Hcap Hb] _ Hto _]. eapply on_mempool_ok; [exact Hok|apply incoming_ok|].
    + split; [done|done|lia].
    + by rewrite Hto.
    + done.
    + unfold state. by case_match; [right|left].
    + intros results mp' m' Hok'. eapply safe_mono; [by apply respond_ok|].
      intros [] smp' [Hok2 Hs]. split; [exists m'; by eapply smp_ok_time|done].
  - destruct Hok as [Hroom Hnet Hto Hcfg]. apply (safe_on (fun _ => False)); [|done].
    eapply safe_mono; [by apply (inv_ack T (en_clock env 0%nat) (sm_mempool smp) m)|]. intros [] ni' [Hnet' Hs].
    split; [|done]. exists m. split; [done|done|done|]. cbn. by rewrite (sp_config _ _ Hs).
Qed.

Lemma elem_of_remove_one b b' l : b' ∈ l -> b' <> b -> b' ∈ Shared.remove_one b l.
Proof.
  induction l as [|x l IH]; [by intros ?%elem_of_nil|]. cbn. intros [->|Hin]%elem_of_cons Hne; case_decide; subst; try done.
  - by left.
  - right. by apply IH.
Qed.
Lemma scheduled_ok env T k m broadcast self :
  shared_ok T k m self -> T <= en_clock env 0%nat ->
  en_clock env 0%nat + mc_shared_mempool_ack_timeout_ms config * 10 ^ 6 < time_limit ->
  returns (Shared.handle_scheduled env broadcast) (fun _ => shared_ok (en_clock env 0%nat) k m) self.
Proof.
  intros [Hok Hsch] HT Htime. unfold returns, Shared.handle_scheduled. apply safe_bind, safe_gets. destruct (_ && _).
  - apply safe_bind, safe_puts. apply (execute_ok env T); [done|done|done|]. cbn. intros p Hne Hp.
    destruct (Hsch p Hp) as (b & Hb & <-). exists b. split; [|done]. apply elem_of_remove_one; [done|]. by intros ->.
  - apply safe_ret. split; [by eapply smp_ok_time|done].
Qed.

(** ** Events and runs *)
Lemma shared_mempool_part {A} (f : method SharedMempool AnyError A) T T' k m self :
  shared_ok T k m self -> T <= T' ->
  returns f (fun _ smp' => (exists m', smp_ok T' k m' smp') /\
    same_peers (sm_network_interface (co_smp self)) (sm_network_interface smp')) (co_smp self) ->
  returns (Shared.on_smp f) (fun _ self' => exists m', shared_ok T' k m' self') self.
Proof.
  intros [Hok Hsch] HT Hf. apply on_smp_ok. eapply safe_mono; [exact Hf|]. intros a smp' [(m' & Hok') Hs].
  exists m'. split; [done|]. by eapply same_scheduled.
Qed.
Lemma mempool_part {A} (f : method Mempool AnyError A) T k k' m smp :
  smp_ok T (k + k') m smp ->
  returns f (fun a mp' => exists m', evolves (sm_mempool smp) m k mp' m') (sm_mempool smp) ->
  returns (Shared.on_mempool f) (fun _ smp' => (exists m', smp_ok T k' m' smp') /\
    same_peers (sm_network_interface smp) (sm_network_interface smp')) smp.
Proof. intros Hok Hf. eapply on_mempool_ok; [done|done|]. intros a mp' m' Hok'. split; [by exists m'|done]. Qed.

Lemma quorum_store_ok env T k m req smp :
  smp_ok T k m smp ->
  returns (Shared.process_quorum_store_request env req) (fun _ smp' => (exists m', smp_ok T k m' smp') /\
    same_peers (sm_network_interface smp) (sm_network_interface smp')) smp.
Proof.
  intros Hok. assert (room (sm_mempool smp) m 0) as Hroom by (destruct Hok as [[? ? ?] _ _ _]; split; [done|done|lia]).
  unfold returns. destruct req as [n l|l]; cbn [Shared.process_quorum_store_request]; apply safe_bind.
  - eapply safe_mono; [apply (mempool_part _ T 0 k m); [done|by apply expiration_evolves]|].
    intros [] smp' [(m' & Hok') Hs]. apply safe_bind, safe_gets. pose proof Hok' as [[[Hr _ _ Hn] _ _] _ _ _].
    match goal with |- context [Mempool.get_batch ?n ?seen ?mp] =>
      destruct (get_batch_ok m' mp n seen Hr Hn) as (q & txns & -> & _) end. apply safe_ret. split; [by exists m'|done].
  - eapply safe_mono; [apply (mempool_part _ T 0 k m); [done|apply committed_ok; [done|by left]]|].
    intros [] smp' Hpost. by apply safe_ret.
Qed.

Lemma smp_time_part {A} (f : method SharedMempool AnyError A) T T' k smp :
  T <= T' ->
  returns f (fun _ smp' => (exists m', smp_ok T k m' smp') /\ same_peers (sm_network_interface smp) (sm_network_interface smp')) smp ->
  returns f (fun _ smp' => (exists m', smp_ok T' k m' smp') /\ same_peers (sm_network_interface smp) (sm_network_interface smp')) smp.
Proof. intros HT Hf. eapply safe_mono; [exact Hf|]. intros a smp' [(m' & Hok) Hs]. split; [exists m'; by eapply smp_ok_time|done]. Qed.

Lemma shared_weaken T k k' m self : shared_ok T k m self -> k' <= k -> shared_ok T k' m self.
Proof. intros [Hok Hs] Hk. split; [by eapply smp_ok_weaken|done]. Qed.

Lemma network_event_ok env T k m network_id event self :
  shared_ok T (event_adds (Network network_id event) + k) m self -> event_ok T env (Network network_id event) ->
  returns (Shared.handle_network_event env network_id event)
    (fun _ self' => exists m', shared_ok (en_clock env 0%nat) k m' self') self.
Proof.
  intros Hok (HT & Htime & Henv & Hev). unfold returns. destruct event as [md|md|p msg|p]; cbn [Shared.handle_network_event event_adds] in *.
  - eapply safe_mono; [by apply (new_peer_ok env T k m)|]. intros [] self' Hok'. by exists m.
  - eapply safe_mono; [by apply (lost_peer_ok T k m)|]. intros [] self' [Hok' Hs]. exists m. split; [by eapply smp_ok_time|done].
  - apply (shared_mempool_part _ T _ k m); [eapply shared_weaken; [exact Hok|lia]|done|].
    apply (message_ok env T k m); [|done|done|by destruct msg]. destruct msg; apply Hok.
  - apply safe_ret. exists m. destruct Hok as [Hok Hs]. split; [by eapply smp_ok_time|done].
Qed.

Lemma reply_ok {A B} (f : method Coordinator AnyError A) (g : A -> B) (P : Coordinator -> Prop) self :
  returns f (fun _ => P) self -> returns (x ← f; mret (g x)) (fun _ => P) self.
Proof. intros Hf. unfold returns. apply safe_bind. eapply safe_mono; [exact Hf|]. intros a self' HP. by apply safe_ret. Qed.

Lemma handle_event_ok env event T k m self :
  shared_ok T (event_adds event + k) m self -> event_ok T env event ->
  returns (Shared.handle env event) (fun _ self' => exists m', shared_ok (en_clock env 0%nat) k m' self') self.
Proof.
  intros Hok Hevent. pose proof Hevent as (HT & Htime & Henv & Hev). pose proof Hok as [Hsm Hsch].
  assert (room (sm_mempool (co_smp self)) m 0) as Hroom by (destruct Hsm as [[? ? ?] _ _ _]; split; [done|done|lia]).
  assert (shared_ok T k m self) as Hk by (eapply shared_weaken; [done|lia]).
  unfold returns. destruct event as [txn|hash|req|l time|b|network_id ev|]; cbn [Shared.handle event_adds] in *; apply reply_ok.
  - apply (shared_mempool_part _ T _ k m); [done|done|].
    apply (smp_time_part _ T); [done|]. unfold returns, Shared.process_client_transaction_submission. apply safe_bind.
    eapply safe_mono; [apply (mempool_part _ T 1 k m); [done|apply incoming_ok]|].
    + destruct Hsm as [[? ? ?] _ _ _]. split; [done|done|cbn; lia].
    + by rewrite (sm_timeout _ _ _ _ Hsm).
    + by constructor.
    + by left.
    + intros statuses smp' Hpost. by apply safe_ret.
  - apply on_smp_ok, safe_gets. exists m. split; [by eapply smp_ok_time; [apply Hk|]|done].
  - apply (shared_mempool_part _ T _ k m); [done|done|].
    apply (smp_time_part _ T); [done|]. by apply (quorum_store_ok env T k m).
  - apply (shared_mempool_part _ T _ k m); [done|done|].
    apply (smp_time_part _ T); [done|]. apply (mempool_part _ T 0 k m); [done|]. apply committed_ok; [done|by right].
  - eapply safe_mono; [by apply (scheduled_ok env T k m)|]. intros [] self' Hok'. by exists m.
  - by apply (network_event_ok env T k m).
  - apply (shared_mempool_part _ T _ k m); [done|done|].
    apply (smp_time_part _ T); [done|]. apply (mempool_part _ T 0 k m); [done|].
    eapply safe_mono; [apply (gc_step_ok m); apply Hroom|]. intros [] mp' Hst. by apply step_evolves in Hst.
Qed.

(** The events of a run, from time [T] on. *)
Fixpoint events_ok (T : N) (events : list (Env * Event)) : Prop :=
  match events with
  | [] => True
  | (env, event) :: events => event_ok T env event /\ events_ok (en_clock env 0%nat) events
  end.
Definition end_time (T : N) (events : list (Env * Event)) : N := foldl (fun _ e => en_clock e.1 0%nat) T events.
Definition events_adds (events : list (Env * Event)) : N := foldr (fun e k => event_adds e.2 + k) 0 events.

Lemma run_ok events : forall T k m self,
  shared_ok T (events_adds events + k) m self -> events_ok T events ->
  returns (Shared.run events) (fun _ self' => exists m', shared_ok (end_time T events) k m' self') self.
Proof.
  induction events as [|[env event] events IH]; intros T k m self Hok Hev; unfold returns; cbn [Shared.run].
  { apply safe_ret. by exists m. }
  destruct Hev as [Hev Hevs]. apply safe_bind.
  eapply safe_mono; [apply (handle_event_ok env event T (events_adds events + k) m); [|done]|].
  - cbn in Hok. by rewrite N.add_assoc.
  - intros r self1 (m1 & Hok1). by eapply IH.
Qed.
End coordinator.
