(* ===== verification/SharedMempoolProps.v ===== *)
(** * Theorems about shared mempool *)

From S2P Require Import Prelude Crypto Errors Position Accumulator Verifier Ledger ConsensusTypes Blocks TransactionProofs TransactionProps SchemaDb LedgerSchemas SchemaLemmas LedgerDbLemmas MempoolIndex MempoolIndexLemmas MempoolStore MempoolSpec MempoolSteps Mempool MempoolRun MempoolProps MempoolNetwork SharedMempool SharedMempoolLemmas SharedMempoolRun.

(** ** Every transaction that a peer has got past was sent to it *)
Section sent.
Context `{CryptoHash Transaction} `{Bcs BatchId} `{!BatchBcs}.
Implicit Types (m : Pool) (mp : Mempool) (ni : MempoolNetworkInterface) (peer : PeerNetworkId).

(** Ids start at 1, so that a new peer, at 0, has got past nothing. *)
Definition positive mp m : Prop := 0 < counter (mp_transactions mp) /\ forall x txn, listed m x txn -> 0 < x.1.
Definition all_sent (T : N) mp m ni : Prop := positive mp m /\ peers_ok (counter (mp_transactions mp)) T m ni.

Lemma announces_listed c m c' m' x txn : announces c m c' m' -> listed m' x txn -> x.1 < c -> listed m x txn.
Proof.
  intros [_ Han] (e & He & Ha & Hid & Htxn) Hx. destruct (Han x.2 e x.1 He Ha Hid Hx) as (e' & He' & Ha' & Hid' & Htxn').
  exists e'. split_and!; congruence.
Qed.
Lemma positive_evolves mp m k mp' m' : positive mp m -> evolves mp m k mp' m' -> positive mp' m'.
Proof.
  intros [Hc Hp] Hev. pose proof (ev_announces _ _ _ _ _ Hev) as Han. split; [destruct Han; lia|]. intros x txn Hx.
  destruct (decide (x.1 < counter (mp_transactions mp))) as [Hlt|]; [|lia]. eapply Hp, announces_listed; eauto.
Qed.
Lemma timely_mono T T' ni : timely T' ni -> T <= T' -> timely T ni.
Proof. unfold timely. lia. Qed.

(** What an answer does: the batch is not on its way any more, and may be sent again. *)
Definition answers peer (T' : N) ni ni' : Prop :=
  ni' = ni \/ exists b t st st', ni_sync_states ni !! peer = Some st /\ sent_batches (ps_broadcast_info st) !! b = Some t /\
    ni' = NetworkInterface.set_state peer st' ni /\ ps_timeline_id st' = ps_timeline_id st /\ ps_metadata st' = ps_metadata st /\
    sent_batches (ps_broadcast_info st') = delete b (sent_batches (ps_broadcast_info st)) /\
    (retry_batches (ps_broadcast_info st') = retry_batches (ps_broadcast_info st) \/
     retry_batches (ps_broadcast_info st') = {[b]} ∪ retry_batches (ps_broadcast_info st)).
Lemma ack_answers c T T' m ni peer request_id retry backoff : peers_ok c T m ni -> T <= T' ->
  returns (NetworkInterface.process_broadcast_ack peer request_id retry backoff T') (fun _ ni' => answers peer T' ni ni') ni.
Proof.
  intros Hp HT. unfold returns, safe, NetworkInterface.process_broadcast_ack. pose proof (batch_decodes request_id) as Hdec.
  destruct (bcs_from_bytes request_id) as [b|e|]; [|by left|done].
  destruct (ni_sync_states ni !! peer) as [st|] eqn:Hst; [|by left].
  destruct (sent_batches (ps_broadcast_info st) !! b) as [t|] eqn:Hb; [|by left].
  rewrite (proj2 (N.leb_le _ _)) by (destruct (po_sent _ _ _ _ _ _ (Hp _ _ Hst) b t Hb) as (_ & _ & ?); lia).
  right. eexists b, t, st, _. split_and!; [done|done|done|done|done|done|]. cbn. by destruct retry; [right|left].
Qed.
Lemma answers_ok c T T' m ni ni' peer : peers_ok c T m ni -> answers peer T' ni ni' -> peers_ok c T m ni' /\ same_peers ni ni'.
Proof.
  intros Hp [->|(b & t & st & st' & Hst & Hb & -> & Htl & Hmd & Hse & Hre)]; [done|].
  split; [|by eapply set_state_same]. pose proof (Hp _ _ Hst) as Hok. apply set_state_ok; [done|]. split; rewrite ?Htl.
  - apply Hok.
  - intros b' t'. rewrite Hse. intros [_ Hb']%lookup_delete_Some. by apply (po_sent _ _ _ _ _ _ Hok).
  - intros b' Hb'. assert (b' = b \/ b' ∈ retry_batches (ps_broadcast_info st)) as [->|Hr] by (destruct Hre; set_solver).
    + by apply (po_sent _ _ _ _ _ _ Hok) in Hb as (? & ? & _).
    + by apply (po_retry _ _ _ _ _ _ Hok).
  - apply Hok.
Qed.

Lemma add_peer_ok T mp m ni peer metadata : all_sent T mp m ni -> all_sent T mp m (NetworkInterface.add_peer peer metadata ni).2.
Proof.
  intros [[Hc Hpos] Hp]. split; [done|]. intros p st. rewrite add_peer_states, (proj2 (add_peer_same _ _ _)).
  case_decide as Hd; [|apply Hp]. destruct Hd as [-> _]. intros [= <-].
  destruct (ni_sync_states ni !! peer) as [st|] eqn:Hst.
  - pose proof (Hp _ _ Hst) as [? ? ? ?]. by split.
  - split; cbn; [done|by intros ??; rewrite lookup_empty|set_solver|]. intros x txn Hx. apply Hpos in Hx. lia.
Qed.
Lemma disable_peer_ok T mp m ni peer : all_sent T mp m ni -> all_sent T mp m (NetworkInterface.disable_peer peer ni).
Proof.
  intros [Hpos Hp]. split; [done|]. intros p st. unfold NetworkInterface.disable_peer.
  rewrite (proj1 (update_prioritized_same _)), (proj1 (proj2 (update_prioritized_same _))). cbn.
  intros [_ Hst]%lookup_delete_Some. by apply Hp.
Qed.

#[global] Instance all_sent_invariant : NetInvariant all_sent (fun _ => True).
Proof.
  split.
  - intros T mp m k mp' m' ni [Hpos Hp] Hev. split; [by eapply positive_evolves|].
    eapply peers_ok_mono; [apply (ev_announces _ _ _ _ _ Hev)|reflexivity|done].
  - intros T T' mp m ni [Hpos Hp] HT. split; [done|]. by eapply peers_ok_mono; [apply announces_refl|..].
  - intros T T' mp m ni peer backoff clock link [Hpos Hp] Hroom Htime HT. pose proof (ro_ok _ _ _ Hroom) as Hok.
    assert (timely T ni) as HtT by (by eapply timely_mono).
    pose proof (execute_broadcast_ok _ T T' m mp peer backoff clock T' link ni (mo_represents _ _ Hok) eq_refl Hp HtT HT (N.le_refl _)
      (room_counter _ _ _ Hroom)) as Hs.
    unfold safe in *. destruct (NetworkInterface.execute_broadcast _ _ _ _ _ _ ni) as [[[]|e|] ni']; [| |done].
    all: destruct Hs; by split.
  - intros T T' mp m ni peer request_id retry backoff [Hpos Hp] HT.
    eapply safe_mono; [by eapply ack_answers|]. intros [] ni' Hans.
    destruct (answers_ok _ _ _ _ _ _ _ Hp Hans) as [Hp' Hs]. split; [|done]. split; [done|].
    by eapply peers_ok_mono; [apply announces_refl|exact HT|].
  - intros T mp m ni peer request_id retry backoff [Hpos Hp]. split; [done|]. apply set_sender_ok; [done|].
    intros x Hx. apply elem_of_app. by left.
  - intros T mp m ni peer metadata Hj _. by apply add_peer_ok.
  - intros T mp m ni peer Hj _. by apply disable_peer_ok.
Qed.

(** A run from the start. *)
Lemma start_ok config role k : mc_capacity config <= u64_max -> k < u64_max ->
  shared_ok all_sent config (mc_system_transaction_timeout_secs config * 10 ^ 9) 0 k ∅ (Shared.start config role).
Proof.
  intros Hcap Hk. destruct (mempool_new_ok config) as [Hok Hb]. split; [split; cbn [co_smp Shared.start sm_mempool Shared.new]|].
  - split; [done|done|rewrite Hb; lia].
  - split; [split; [by vm_compute|]|].
    + intros x txn (e & He & _). by rewrite lookup_empty in He.
    + intros p st. cbn. by rewrite lookup_empty.
  - done.
  - done.
  - intros p. cbn. rewrite lookup_empty. by intros [].
Qed.
Lemma run_from_start config role events k : mc_capacity config <= u64_max -> events_adds events + k < u64_max ->
  events_ok (fun _ => True) config (mc_system_transaction_timeout_secs config * 10 ^ 9) 0 events ->
  exists self m, Shared.run events (Shared.start config role) = (Ok tt, self) /\
    shared_ok all_sent config (mc_system_transaction_timeout_secs config * 10 ^ 9) (end_time 0 events) k m self.
Proof.
  intros Hcap Hk Hev.
  destruct (safe_Ok _ _ _ _ (run_ok all_sent _ config _ events 0 k ∅ _ (start_ok config role _ Hcap Hk) Hev)) as ([] & self & Hrun & m & Hok);
    [by intros ? []|]. by exists self, m.
Qed.
End sent.

(** ** A peer that is stuck *)
Section blocked.
Context `{CryptoHash Transaction} `{Bcs BatchId} `{!BatchBcs}.
Implicit Types (m : Pool) (mp : Mempool) (ni : MempoolNetworkInterface) (p : PeerNetworkId).
Context (peer : PeerNetworkId) (b : BatchId).

Definition is_request (msg : MempoolSyncMsg) : bool :=
  match msg with BroadcastTransactionsRequest _ _ => true | BroadcastTransactionsResponse _ _ _ => false end.
Definition requests_to (sender : list (PeerNetworkId * MempoolSyncMsg)) : list (PeerNetworkId * MempoolSyncMsg) :=
  filter (fun x => x.1 = peer /\ is_request x.2 = true) sender.

(** The earliest batch is to be sent again, and nothing is left of it. *)
Definition earliest (st : PeerSyncState) : Prop :=
  b ∈ retry_batches (ps_broadcast_info st) /\
  (forall b', is_Some (sent_batches (ps_broadcast_info st) !! b') \/ b' ∈ retry_batches (ps_broadcast_info st) -> batch_le b' b).
Definition blocked l (T : N) mp m ni : Prop :=
  all_sent T mp m ni /\ requests_to (ni_sender ni) = l /\
  (forall x txn, listed m x txn -> ~ in_range b.1 b.2 x) /\ exists st, ni_sync_states ni !! peer = Some st /\ earliest st.

#[local] Instance batch_le_total : Total batch_le.
Proof. intros x y. unfold batch_le. lia. Qed.
#[local] Instance batch_le_trans : Transitive batch_le.
Proof. intros x y z. unfold batch_le. lia. Qed.
#[local] Instance batch_le_anti : AntiSymm (=) batch_le.
Proof. intros [] []. unfold batch_le. cbn. intros. f_equal; lia. Qed.

Lemma last_retry (s : gset BatchId) : b ∈ s -> (forall b', b' ∈ s -> batch_le b' b) -> last (retry_iter s) = Some b.
Proof.
  intros Hb Hall. unfold retry_iter. pose proof (StronglySorted_merge_sort batch_le (elements s)) as Hs.
  assert (forall x, x ∈ merge_sort batch_le (elements s) <-> x ∈ s) as Hin by apply elem_of_retry_iter.
  destruct (last (merge_sort batch_le (elements s))) as [z|] eqn:Hl.
  - f_equal. apply (anti_symm batch_le); [by apply Hall, Hin, last_Some_elem_of|].
    apply last_Some in Hl as [l Hl]. rewrite Hl in Hs, Hin. apply Hin, elem_of_app in Hb as [Hb| ->%list_elem_of_singleton];
      [|unfold batch_le; lia].
    clear Hin Hl. induction l as [|y l IH]; [by apply elem_of_nil in Hb|]. apply StronglySorted_inv in Hs as [Hs Hy].
    apply elem_of_cons in Hb as [->|Hb]; [|by apply IH]. rewrite Forall_forall in Hy. apply Hy, elem_of_app. right. by left.
  - apply last_None in Hl. rewrite Hl in Hin. by apply Hin, elem_of_nil in Hb.
Qed.

(** Nothing is chosen for the peer. *)
Lemma earliest_not_chosen m mp T clock ni st st' b' txns : mempool_ok m mp -> peers_ok (counter (mp_transactions mp)) T m ni -> timely T ni ->
  (forall x txn, listed m x txn -> ~ in_range b.1 b.2 x) -> earliest st -> ~ chosen mp peer clock ni st st' b' txns.
Proof.
  intros Hok Hp HT Hno [Hb Hall] [Hst (_ & _ & Hsub & _) Hne (expired & Hex & Hch)].
  rewrite last_retry in Hch; [|done|intros; apply Hall; by right].
  assert (batch_max expired (Some b) = Some b) as Hmax.
  { destruct expired as [b2|]; [|done]. cbn. rewrite decide_True; [done|]. apply Hall. left.
    pose proof (find_expired_ok peer (sent_iter (sent_batches (ps_broadcast_info st'))) clock (ni_mempool_config ni) 0 None) as Hin.
    rewrite Hex in Hin. destruct Hin as [[=]|(b3 & [= <-] & ([x t] & -> & Hx%elem_of_sent_iter)%list_elem_of_fmap)].
    - apply Forall_forall. intros [b3 t] Hb3%elem_of_sent_iter. pose proof (lookup_weaken _ _ _ _ Hb3 Hsub) as Ht.
      destruct (po_sent _ _ _ _ _ _ (Hp _ _ Hst) _ _ Ht) as (_ & _ & ?). unfold timely in HT. cbn in *. lia.
    - exists t. by eapply lookup_weaken. }
  rewrite Hmax in Hch. destruct Hch as [-> Htxns]. unfold Mempool.timeline_range in Htxns.
  destruct (po_retry _ _ _ _ _ _ (Hp _ _ Hst) b Hb) as [Hle _].
  destruct (timeline_range_ok (E := BroadcastError) m _ b.1 b.2 (mo_represents _ _ Hok) Hle) as (txns' & Htxns' & Hfor).
  rewrite filter_Forall_not in Hfor; [apply Forall2_nil_inv_l in Hfor; congruence|]. apply Forall_forall. intros x Hx.
  apply (timeline_listed m _ _ (mo_represents _ _ Hok)) in Hx as [txn Hx]. by eapply Hno.
Qed.

Lemma blocked_broadcast l T T' mp m ni p backoff clock link : blocked l T mp m ni -> room mp m 0 -> timely T' ni -> T <= T' ->
  safe (fun ni' => blocked l T' mp m ni' /\ broadcasts p ni ni')
    (NetworkInterface.execute_broadcast p backoff clock T' link mp)
    (fun _ ni' => blocked l T' mp m ni' /\ broadcasts p ni ni') ni.
Proof.
  intros (Hall & Hreq & Hno & st & Hst & Hea) Hroom Htime HT. pose proof Hall as [Hpos Hp]. pose proof (ro_ok _ _ _ Hroom) as Hok.
  pose proof (inv_broadcast T T' mp m ni p backoff clock link Hall Hroom Htime HT) as Hs. destruct (decide (p = peer)) as [->|Hne].
  - pose proof (determine_ok _ T m mp peer backoff clock ni (mo_represents _ _ Hok) Hp (timely_mono _ _ _ Htime HT)) as Hdet.
    revert Hs. unfold NetworkInterface.execute_broadcast. unfold safe in Hdet. unfold safe, mbind, method_bind.
    destruct (NetworkInterface.determine_broadcast_batch _ _ _ _ ni) as [[[[b' txns] label]|e|] ni1]; [| |done].
    + destruct Hdet as (st1 & st2 & _ & Hch). exfalso. assert (st1 = st) as -> by (destruct Hch; congruence).
      by eapply earliest_not_chosen; [..|exact Hch]; [done|done|by eapply timely_mono|..].
    + intros [Hall' Hbr]. split; [|done]. split_and!; [done| |done|].
      * destruct Hdet as [->|(? & ? & _ & _ & ->)]; done.
      * destruct Hdet as [->|(st1 & st2 & Hst1 & (_ & _ & Hsub & Hre & _) & ->)]; [by exists st|].
        assert (st1 = st) as -> by congruence. exists st2. split; [apply lookup_insert_eq|]. destruct Hea as [Hb Hmax].
        split; [by rewrite Hre|]. intros b' [[t Ht]|Hb']; apply Hmax; [left; exists t; by eapply lookup_weaken|right; by rewrite <-Hre].
  - assert (forall ni', all_sent T' mp m ni' /\ broadcasts p ni ni' -> blocked l T' mp m ni' /\ broadcasts p ni ni') as Hpost.
    { intros ni' [Hall' Hbr]. split; [|done]. split_and!; [done| |done|exists st; by rewrite (bc_other _ _ _ Hbr)].
      rewrite <-Hreq. destruct (bc_sender _ _ _ Hbr) as [->|(r & txns & ->)]; [done|]. unfold requests_to. rewrite filter_app.
      rewrite (filter_Forall_not _ [_]); [by rewrite app_nil_r|]. repeat constructor. cbn. by intros [? _]. }
    unfold safe in *. destruct (NetworkInterface.execute_broadcast _ _ _ _ _ _ ni) as [[[]|e|] ni']; [by apply Hpost|by apply Hpost|done].
Qed.

Lemma blocked_ack l T T' mp m ni p request_id retry backoff : blocked l T mp m ni -> T <= T' ->
  returns (NetworkInterface.process_broadcast_ack p request_id retry backoff T')
    (fun _ ni' => blocked l T' mp m ni' /\ same_peers ni ni') ni.
Proof.
  intros (Hall & Hreq & Hno & st & Hst & Hea) HT. pose proof Hall as [Hpos Hp].
  eapply safe_mono; [by eapply ack_answers|]. intros [] ni' Hans. destruct (answers_ok _ _ _ _ _ _ _ Hp Hans) as [Hp' Hs].
  split; [|done]. split_and!; [split; [done|]; by eapply peers_ok_mono; [apply announces_refl|..]| |done|].
  - destruct Hans as [->|(? & ? & ? & ? & _ & _ & -> & _)]; done.
  - destruct Hans as [->|(b' & t & st1 & st' & Hst1 & Hb' & -> & _ & _ & Hse & Hre)]; [by exists st|]. cbn.
    destruct (decide (p = peer)) as [->|Hne]; [|exists st; by rewrite lookup_insert_ne].
    assert (st1 = st) as -> by congruence. exists st'. split; [apply lookup_insert_eq|]. destruct Hea as [Hb Hmax]. split.
    + destruct Hre as [-> | ->]; set_solver.
    + rewrite Hse. intros b2 [[t2 [_ Ht2]%lookup_delete_Some]|Hb2]; [apply Hmax; left; by exists t2|].
      assert (b2 = b' \/ b2 ∈ retry_batches (ps_broadcast_info st)) as [->|Hb2'] by (destruct Hre as [Hre|Hre]; set_solver);
        apply Hmax; [left; by exists t|by right].
Qed.

#[global] Instance blocked_invariant l : NetInvariant (blocked l) (fun p => p <> peer).
Proof.
  split.
  - intros T mp m k mp' m' ni (Hall & Hreq & Hno & st & Hst & Hea) Hev. split_and!; [by eapply inv_mempool|done| |by exists st].
    intros x txn Hx Hin. eapply Hno; [|exact Hin]. eapply announces_listed; [apply (ev_announces _ _ _ _ _ Hev)|exact Hx|].
    destruct Hall as [_ Hp]. pose proof (po_timeline _ _ _ _ _ _ (Hp _ _ Hst)).
    destruct (po_retry _ _ _ _ _ _ (Hp _ _ Hst) b (proj1 Hea)). unfold in_range in Hin. lia.
  - intros T T' mp m ni (Hall & Hrest) HT. split; [by eapply inv_time|done].
  - intros T T' mp m ni p backoff clock link Hb Hok Htime HT. by eapply blocked_broadcast.
  - intros T T' mp m ni p request_id retry backoff Hb HT. by eapply blocked_ack.
  - intros T mp m ni p request_id retry backoff (Hall & Hreq & Hno & st & Hst & Hea).
    split_and!; [by apply inv_response| |done|by exists st]. rewrite <-Hreq. cbn. unfold requests_to. rewrite filter_app.
    rewrite (filter_Forall_not _ [_]); [by rewrite app_nil_r|]. repeat constructor. cbn. by intros [_ ?].
  - intros T mp m ni p metadata (Hall & Hreq & Hno & st & Hst & Hea) Hok.
    split_and!; [by apply inv_add|by rewrite (proj2 (add_peer_same _ _ _))|done|]. rewrite add_peer_states.
    case_decide as Hd; [|by exists st]. destruct Hd as [<- _]. rewrite Hst. by eexists.
  - intros T mp m ni p (Hall & Hreq & Hno & st & Hst & Hea) Hne. unfold NetworkInterface.disable_peer. split_and!.
    + by apply disable_peer_ok.
    + by rewrite (proj1 (proj2 (update_prioritized_same _))).
    + done.
    + exists st. rewrite (proj1 (update_prioritized_same _)). cbn. by rewrite lookup_delete_ne.
Qed.
End blocked.

(** ** A peer that answers catches up *)
(** The peer answers the last message. *)
Definition answer `{Bcs BatchId} (peer : PeerNetworkId) (time : N) : method MempoolNetworkInterface AnyError unit := fun ni =>
  match last (ni_sender ni) with
  | Some (_, BroadcastTransactionsRequest request_id _) =>
      NetworkInterface.process_broadcast_ack peer request_id false false time ni
  | _ => (Ok tt, ni)
  end.
Definition exchange `{CryptoHash Transaction} `{Bcs BatchId} (peer : PeerNetworkId) (clock : nat -> N) (times : N * N) (mp : Mempool)
    : method MempoolNetworkInterface AnyError unit :=
  _ ← Shared.logged (NetworkInterface.execute_broadcast peer false clock times.1 true mp);
  answer peer times.2.
(** [n] broadcasts that the network takes, each of which is answered. *)
Fixpoint exchanges `{CryptoHash Transaction} `{Bcs BatchId} (n : nat) (peer : PeerNetworkId) (clock : nat -> nat -> N)
    (times : nat -> N * N) (mp : Mempool) : method MempoolNetworkInterface AnyError unit :=
  match n with
  | O => mret tt
  | S n => _ ← exchange peer (clock n) (times n) mp; exchanges n peer clock times mp
  end.

Section catch_up.
Context `{CryptoHash Transaction} `{Bcs BatchId} `{!BatchBcs}.
Implicit Types (m : Pool) (mp : Mempool) (ni : MempoolNetworkInterface) (st : PeerSyncState).
Context (peer : PeerNetworkId).

Definition idle st : Prop := ps_broadcast_info st = BroadcastInfo_new.
Definition behind mp (id : N) : nat := length (filter (fun x => id < x.1) (timeline (mp_transactions mp))).

Lemma determine_idle clock mp ni st : ni_sync_states ni !! peer = Some st -> idle st ->
  NetworkInterface.check_peer_prioritized peer ni = Ok tt ->
  NetworkInterface.determine_broadcast_batch peer false clock mp ni =
    let '(txns, id) := Mempool.read_timeline (ps_timeline_id st) (mc_shared_mempool_batch_size (ni_mempool_config ni)) mp in
    (if bool_decide (txns = []) then Err (NoTransactions peer) else Ok ((ps_timeline_id st, id), txns, None), ni).
Proof.
  intros Hst Hidle Hprio. unfold NetworkInterface.determine_broadcast_batch, gets, lift, puts, mbind, method_bind.
  rewrite Hst. cbn [ok_or]. rewrite Hprio, Hidle.
  assert (NetworkInterface.set_state peer (NetworkInterface.set_info st (mkBroadcastInfo ∅ ∅ false)) ni = ni) as Hsame.
  { unfold NetworkInterface.set_state, NetworkInterface.set_sync_states, NetworkInterface.set_info. change (mkBroadcastInfo ∅ ∅ false) with BroadcastInfo_new. rewrite <-Hidle.
    destruct st, ni. cbn in *. f_equal. by apply insert_id. }
  cbn [ensure backoff_mode BroadcastInfo_new negb andb sent_batches retry_batches].
  change (sent_iter ∅) with (@nil (BatchId * N)). cbn [NetworkInterface.retain_sent list_to_map foldr].
  change (sent_iter (list_to_map [])) with (@nil (BatchId * N)). cbn [NetworkInterface.find_expired].
  change (last (retry_iter ∅)) with (@None BatchId). cbn [batch_max]. change (list_to_map []) with (∅ : gmap BatchId N). rewrite Hsame.
  change (sent_iter ∅) with (@nil (BatchId * N)).
  cbn [NetworkInterface.find_expired batch_max]. destruct (Mempool.read_timeline _ _ mp) as [txns id].
  unfold ensure. by case_bool_decide.
Qed.

Lemma answer_idle ni st time : ni_sync_states ni !! peer = Some st -> idle st -> answer peer time ni = (Ok tt, ni).
Proof.
  intros Hst Hidle. unfold answer. destruct (last (ni_sender ni)) as [[p [request_id txns|]]|]; [|done|done].
  unfold NetworkInterface.process_broadcast_ack. pose proof (batch_decodes request_id) as Hdec.
  destruct (bcs_from_bytes request_id); [|done|done]. rewrite Hst, Hidle. cbn. by rewrite lookup_empty.
Qed.

Lemma behind_split m mp a b txns : represents m (mp_transactions mp) -> a <= b ->
  Mempool.timeline_range (E := BroadcastError) a b mp = Ok txns -> (behind mp a = length txns + behind mp b)%nat.
Proof.
  intros Hr Hab Hrange. destruct (timeline_range_ok (E := BroadcastError) m _ a b Hr Hab) as (txns' & Hrange' & Hall).
  unfold Mempool.timeline_range in Hrange. assert (txns' = txns) as -> by congruence.
  rewrite <-(Forall2_length _ _ _ Hall). unfold behind. clear -Hab. induction (timeline (mp_transactions mp)) as [|x l IH]; [done|].
  rewrite !filter_cons. unfold in_range in *. repeat case_decide; cbn; lia.
Qed.

(** What does not change while the peer catches up. *)
Record ready mp m ni st : Prop := {
  rd_state : ni_sync_states ni !! peer = Some st;
  rd_idle : idle st;
  rd_prioritized : NetworkInterface.check_peer_prioritized peer ni = Ok tt;
  rd_covered x txn : listed m x txn -> x.1 <= ps_timeline_id st -> sent_to (ni_sender ni) peer txn;
  rd_counter : ps_timeline_id st < counter (mp_transactions mp);
}.

Lemma exchange_ok mp m ni st clock times n :
  ready mp m ni st -> represents m (mp_transactions mp) -> counter (mp_transactions mp) <= u64_max -> times.1 <= times.2 ->
  mc_shared_mempool_batch_size (ni_mempool_config ni) = n -> n <> 0 ->
  exists ni' st', exchange peer clock times mp ni = (Ok tt, ni') /\ ready mp m ni' st' /\
    ni_mempool_config ni' = ni_mempool_config ni /\ (behind mp (ps_timeline_id st') <= behind mp (ps_timeline_id st) - N.to_nat n)%nat.
Proof.
  intros Hrd Hr Hmax Htimes Hn Hn0. pose proof Hrd as [Hst Hidle Hprio Hcov Hc]. unfold exchange, mbind, method_bind, Shared.logged.
  unfold NetworkInterface.execute_broadcast at 1. unfold mbind at 1, method_bind at 1.
  rewrite (determine_idle clock mp ni st Hst Hidle Hprio). rewrite Hn.
  destruct (Mempool.read_timeline (ps_timeline_id st) n mp) as [txns id] eqn:Hread.
  destruct (read_timeline_ok (E := BroadcastError) m _ _ _ _ _ Hr Hread) as (Hle & Hrange & Hid & Hfull).
  pose proof (behind_split m mp _ _ _ Hr Hle Hrange) as Hsplit. assert (id < counter (mp_transactions mp)) as Hidc by (destruct Hid; lia).
  assert (N.of_nat (length txns) = n \/ behind mp id = 0%nat) as Hprog.
  { destruct Hfull as [[_ ?]|Hall]; [by left|right]. unfold behind. rewrite filter_Forall_not; [done|].
    apply Forall_forall. intros x Hx. specialize (Hall x Hx). lia. }
  case_bool_decide as Hnil.
  - rewrite (answer_idle ni st) by done. exists ni, st. split_and!; [done|done|done|]. subst txns. cbn in *. lia.
  - destruct (batch_encodes (ps_timeline_id st, id)) as (r & Henc & Hdec); [cbn; lia|cbn; lia|].
    unfold mbind, method_bind, NetworkInterface.send_batch, NetworkInterface.send_to, NetworkInterface.update_broadcast_state, lift, gets, puts, mbind, method_bind.
    rewrite Henc. cbn [ni_sync_states NetworkInterface.set_sender]. rewrite Hst. cbn [ok_or]. rewrite Hidle.
    cbn [mret method_ret BroadcastInfo_new sent_batches retry_batches fst snd].
    set (st1 := mkPeerSyncState _ _ _). set (ni1 := NetworkInterface.set_state peer st1 _).
    assert (answer peer times.2 ni1 = (Ok tt, NetworkInterface.set_state peer (NetworkInterface.set_info st1 BroadcastInfo_new) ni1)) as ->.
    { unfold answer. cbn [ni1 ni_sender NetworkInterface.set_state NetworkInterface.set_sync_states NetworkInterface.set_sender].
      rewrite last_snoc. unfold NetworkInterface.process_broadcast_ack. rewrite Hdec. cbn [ni1 ni_sync_states NetworkInterface.set_state NetworkInterface.set_sync_states].
      rewrite lookup_insert_eq. cbn [st1 ps_broadcast_info sent_batches retry_batches backoff_mode]. rewrite lookup_insert_eq.
      rewrite (proj2 (N.leb_le _ _) Htimes), delete_insert_eq, delete_empty by done.
      by replace (∅ ∖ {[(ps_timeline_id st, id)]} : gset BatchId) with (∅ : gset BatchId) by set_solver. }
    eexists _, _. split; [done|]. split; [|split; [done|]].
    + split; [apply lookup_insert_eq|done|done| |cbn; lia]. cbn [ps_timeline_id NetworkInterface.set_info st1 ni_sender NetworkInterface.set_state NetworkInterface.set_sync_states ni1 NetworkInterface.set_sender].
      intros x txn Hx Hxle. destruct (decide (x.1 <= ps_timeline_id st)) as [Hxs|Hxs].
      * eapply sent_to_mono; [|by apply (Hcov x)]. intros y Hy. apply elem_of_app. by left.
      * exists r, txns. split; [apply elem_of_app; right; by left|]. eapply range_listed; [exact Hr|exact Hx| |exact Hrange]. unfold in_range. lia.
    + cbn [ps_timeline_id NetworkInterface.set_info st1]. rewrite N.max_r by done. lia.
Qed.

Lemma exchanges_ok mp m clock times n bs : forall ni st,
  ready mp m ni st -> represents m (mp_transactions mp) -> counter (mp_transactions mp) <= u64_max ->
  (forall i, (times i).1 <= (times i).2) -> mc_shared_mempool_batch_size (ni_mempool_config ni) = bs -> bs <> 0 ->
  exists ni' st', exchanges n peer clock times mp ni = (Ok tt, ni') /\ ready mp m ni' st' /\
    (behind mp (ps_timeline_id st') <= behind mp (ps_timeline_id st) - n * N.to_nat bs)%nat.
Proof.
  induction n as [|n IH]; intros ni st Hrd Hr Hmax Htimes Hbs Hbs0; cbn [exchanges].
  { exists ni, st. split_and!; [done|done|lia]. }
  destruct (exchange_ok mp m ni st (clock n) (times n) bs Hrd Hr Hmax (Htimes n) Hbs Hbs0) as (ni1 & st1 & Hex & Hrd1 & Hcfg & Hb1).
  destruct (IH ni1 st1 Hrd1 Hr Hmax Htimes) as (ni2 & st2 & Hexs & Hrd2 & Hb2); [congruence|done|].
  exists ni2, st2. unfold mbind, method_bind. rewrite Hex. split_and!; [done|done|lia].
Qed.
End catch_up.

(** ** A full node and its upstream peer *)
#[local] Existing Instance Ledger3.transaction_hash.
Module SharedMempoolExample.
#[global] Instance batch_bcs : Bcs BatchId := {| bcs_to_bytes := encode_u64_pair; bcs_from_bytes := decode_u64_pair |}.
#[global] Instance batch_bcs_laws : BatchBcs.
Proof.
  split.
  - intros b H1 H2. eexists. by apply pair_codec.
  - intros r. cbn. unfold decode_u64_pair, ensure_slice_len_eq, ensure. by case_bool_decide.
Qed.
Definition config : MempoolConfig := mkMempoolConfig 10 5 3 1 180 2000 30000 1 2 50 600 60000 true.
Definition timeout : N := mc_system_transaction_timeout_secs config * 10 ^ 9.
(** Everything happens at second [t]. *)
Definition env (t : N) : Env :=
  mkEnv (fun _ => t * 10 ^ 9) (t * 10 ^ 9) true (fun _ _ => Some (Sequential 0)) (fun _ _ => Some (mkVMValidatorResult None 1))
    (fun _ _ => t * 10 ^ 9) (fun _ => 0).
Definition peer : PeerNetworkId := mkPeerNetworkId NetworkPublic 9.
Definition metadata : ConnectionMetadata := mkConnectionMetadata 9 Outbound PeerUpstream.
Definition tick (t : N) (backoff : bool) : Event :=
  Scheduled (mkScheduledBroadcast (t * 10 ^ 9 + (if backoff then 30000 else 50) * 10 ^ 6) peer backoff).
Definition txn (n : N) : SignedTransaction := MempoolExample.txn 7 n 1 1000.
(** The peer cannot take the first transaction yet, and then it is committed. *)
Definition events : list (Env * Event) :=
  [(env 1, Network NetworkPublic (NewPeer metadata));
   (env 2, SubmitTransaction (txn 0));
   (env 3, tick 1 false);
   (env 4, Network NetworkPublic (Message 9 (BroadcastTransactionsResponse (to_be_bytes 8 0 ++ to_be_bytes 8 1) true true)));
   (env 5, CommitNotification [mkTransactionSummary 7 0] 0)].
Definition later : list (Env * Event) :=
  [(env 6, SubmitTransaction (txn 1)); (env 7, tick 3 false); (env 37, tick 7 true); (env 67, tick 37 true)].
Definition reached : Coordinator := snd (Shared.run events (Shared.start config RoleFullNode)).
Definition reached_later : Coordinator := snd (Shared.run later reached).

(** After the first broadcast. *)
Definition sent1 : Coordinator := snd (Shared.run (take 3 events) (Shared.start config RoleFullNode)).
Lemma sent1_run : Shared.run (take 3 events) (Shared.start config RoleFullNode) = (Ok tt, sent1).
Proof. by vm_compute. Qed.
Definition sent1_state : PeerSyncState := mkPeerSyncState 1 (mkBroadcastInfo {[(0, 1) := 3 * 10 ^ 9]} ∅ false) metadata.
Lemma sent1_facts : ni_sync_states (sm_network_interface (co_smp sent1)) !! peer = Some sent1_state /\
  ti_timeline (timeline_index (mp_transactions (sm_mempool (co_smp sent1)))) !! 1 = Some (7, 0) /\
  TransactionStore.get 7 0 (mp_transactions (sm_mempool (co_smp sent1))) = Some (txn 0).
Proof. by vm_compute. Qed.
Lemma events_fit : events_ok (fun _ => True) config timeout 0 (take 3 events).
Proof. repeat (split; [split_and!; [by vm_compute|by vm_compute|intros i; by vm_compute|by vm_compute]|]). done. Qed.

(** Two transactions wait for the peer. *)
Definition two_submitted : list (Env * Event) :=
  [(env 1, Network NetworkPublic (NewPeer metadata)); (env 2, SubmitTransaction (txn 0)); (env 3, SubmitTransaction (txn 1))].
Definition waiting : Coordinator := snd (Shared.run two_submitted (Shared.start config RoleFullNode)).
Lemma waiting_facts : Shared.run two_submitted (Shared.start config RoleFullNode) = (Ok tt, waiting) /\
  ni_sync_states (sm_network_interface (co_smp waiting)) !! peer = Some (PeerSyncState_new metadata) /\
  NetworkInterface.check_peer_prioritized peer (sm_network_interface (co_smp waiting)) = Ok tt /\
  size (ti_timeline (timeline_index (mp_transactions (sm_mempool (co_smp waiting))))) = 2%nat /\
  forall n, n ∈ [0; 1] ->
    ti_timeline (timeline_index (mp_transactions (sm_mempool (co_smp waiting)))) !! (n + 1) = Some (7, n) /\
    TransactionStore.get 7 n (mp_transactions (sm_mempool (co_smp waiting))) = Some (txn n).
Proof.
  split_and!; [by vm_compute|by vm_compute|by vm_compute|by vm_compute|].
  intros n [->|[->|[]%elem_of_nil]%elem_of_cons]%elem_of_cons; by vm_compute.
Qed.
Lemma two_submitted_fit : events_ok (fun _ => True) config timeout 0 two_submitted.
Proof. repeat (split; [split_and!; [by vm_compute|by vm_compute|intros i; by vm_compute|by vm_compute]|]). done. Qed.

Lemma reached_run : Shared.run events (Shared.start config RoleFullNode) = (Ok tt, reached).
Proof. by vm_compute. Qed.
Lemma reached_later_run : Shared.run later reached = (Ok tt, reached_later).
Proof. by vm_compute. Qed.
Definition reached_state : PeerSyncState := mkPeerSyncState 1 (mkBroadcastInfo ∅ {[(0, 1)]} true) metadata.
Lemma reached_facts : ni_sync_states (sm_network_interface (co_smp reached)) !! peer = Some reached_state /\
  (0, 1) ∈ retry_batches (ps_broadcast_info reached_state) /\
  (forall b', is_Some (sent_batches (ps_broadcast_info reached_state) !! b') \/ b' ∈ retry_batches (ps_broadcast_info reached_state) ->
    batch_le b' (0, 1)) /\
  Mempool.timeline_range (E := AnyError) 0 1 (sm_mempool (co_smp reached)) = Ok [] /\
  requests_to peer (ni_sender (sm_network_interface (co_smp reached))) =
    [(peer, BroadcastTransactionsRequest (to_be_bytes 8 0 ++ to_be_bytes 8 1) [txn 0])] /\
  TransactionStore.get 7 1 (mp_transactions (sm_mempool (co_smp reached_later))) = Some (txn 1).
Proof.
  split_and!; [by vm_compute|set_solver| |by vm_compute|by vm_compute|by vm_compute].
  cbn. intros b' [[t Ht]|Hb']; [by rewrite lookup_empty in Ht|]. apply elem_of_singleton in Hb' as ->. unfold batch_le. cbn. lia.
Qed.
Lemma all_events_fit : events_ok (fun _ => True) config timeout 0 events.
Proof.
  do 4 (split; [split_and!; [by vm_compute|by vm_compute|intros i; by vm_compute|by vm_compute]|]).
  split; [|done]. split_and!; [by vm_compute|by vm_compute|intros i; by vm_compute|]. apply Forall_singleton. by vm_compute.
Qed.
Lemma later_fit : events_ok (fun p => p <> peer) config timeout (end_time 0 events) later.
Proof. repeat (split; [split_and!; [by vm_compute|by vm_compute|intros i; by vm_compute|by vm_compute]|]). done. Qed.
End SharedMempoolExample.

Module SharedMempoolProps.
(** C25: what a peer has got past was sent to it.  In every run of shared mempool, whatever
    clients, peers, consensus and commits do, in whatever order, the coordinator does not
    panic; every peer to which mempool broadcasts has a broadcast scheduled, so that
    broadcasts to it never stop; and every transaction on the timeline up to the position
    recorded for the peer is in a request that was sent to it.  Sequence numbers
    are assumed to be below the largest one and times to fit their type, and the clock not
    to go back. *)
Theorem broadcasts_reach_peers `{CryptoHash Transaction} `{Bcs BatchId} `{!BatchBcs} (config : MempoolConfig) (role : RoleType)
    (events : list (Env * Event)) (r : result unit) (self : Coordinator) :
  mc_capacity config <= u64_max -> events_adds events < u64_max ->
  events_ok (fun _ => True) config (mc_system_transaction_timeout_secs config * 10 ^ 9) 0 events ->
  Shared.run events (Shared.start config role) = (r, self) ->
  let store := mp_transactions (sm_mempool (co_smp self)) in
  let ni := sm_network_interface (co_smp self) in
  r = Ok tt /\
  forall peer st, ni_sync_states ni !! peer = Some st ->
    (exists b, b ∈ co_scheduled_broadcasts self /\ sb_peer b = peer) /\
    forall id q txn, ti_timeline (timeline_index store) !! id = Some q -> id <= ps_timeline_id st ->
      TransactionStore.get q.1 q.2 store = Some txn ->
      exists request_id txns, (peer, BroadcastTransactionsRequest request_id txns) ∈ ni_sender ni /\ txn ∈ txns.
Proof.
  intros Hcap Hadds Hev Hrun. destruct (run_from_start config role events 0 Hcap) as (self' & m & Hrun' & [[[Hm _ _] [_ Hp] _ _] Hs]);
    [lia|done|]. rewrite Hrun in Hrun'. injection Hrun' as -> <-. cbv zeta. split; [done|]. intros peer st Hst.
  split; [apply Hs; by exists st|]. intros id q txn Hid Hle Hq. pose proof (mo_represents _ _ Hm) as Hr.
  destruct (proj1 (timeline_listed m _ (id, q) Hr)) as [txn' Hx]; [by apply elem_of_btree_iter|].
  destruct (listed_stored m _ _ _ Hr Hx) as (t & Ht & Htxn & _). cbn in Ht. unfold TransactionStore.get in Hq. rewrite Ht in Hq.
  cbn in Hq. assert (txn' = txn) as -> by congruence. by apply (po_covered _ _ _ _ _ _ (Hp _ _ Hst) (id, q)).
Qed.
Lemma broadcasts_reach_peers_witness :
  exists request_id txns, (SharedMempoolExample.peer, BroadcastTransactionsRequest request_id txns)
    ∈ ni_sender (sm_network_interface (co_smp SharedMempoolExample.sent1)) /\ SharedMempoolExample.txn 0 ∈ txns.
Proof.
  destruct (broadcasts_reach_peers SharedMempoolExample.config RoleFullNode (take 3 SharedMempoolExample.events) (Ok tt)
    SharedMempoolExample.sent1) as [_ Hsent].
  - by vm_compute.
  - by vm_compute.
  - apply SharedMempoolExample.events_fit.
  - apply SharedMempoolExample.sent1_run.
  - destruct SharedMempoolExample.sent1_facts as (Hst & Htl & Hget).
    destruct (Hsent SharedMempoolExample.peer _ Hst) as [_ Hall]. apply (Hall 1 (7, 0)); [exact Htl|done|exact Hget].
Defined.

(** C26: a peer that answers catches up.  After any run, if a connected peer is prioritised and
    has no batch outstanding (none sent and not acknowledged, none to be retried, no backoff),
    then as many broadcasts as it takes to cover the timeline in
    full batches, each taken by the network and answered, bring it every transaction on the
    timeline. *)
Theorem broadcasts_catch_up `{CryptoHash Transaction} `{Bcs BatchId} `{!BatchBcs} (config : MempoolConfig) (role : RoleType)
    (events : list (Env * Event)) (self : Coordinator) (peer : PeerNetworkId) (st : PeerSyncState) (n : nat)
    (clock : nat -> nat -> N) (times : nat -> N * N) :
  mc_capacity config <= u64_max -> events_adds events < u64_max ->
  events_ok (fun _ => True) config (mc_system_transaction_timeout_secs config * 10 ^ 9) 0 events ->
  Shared.run events (Shared.start config role) = (Ok tt, self) ->
  let mempool := sm_mempool (co_smp self) in
  let ni := sm_network_interface (co_smp self) in
  ni_sync_states ni !! peer = Some st -> ps_broadcast_info st = BroadcastInfo_new ->
  NetworkInterface.check_peer_prioritized peer ni = Ok tt ->
  mc_shared_mempool_batch_size config <> 0 -> (forall i, (times i).1 <= (times i).2) ->
  (size (ti_timeline (timeline_index (mp_transactions mempool))) <= n * N.to_nat (mc_shared_mempool_batch_size config))%nat ->
  exists ni', exchanges n peer clock times mempool ni = (Ok tt, ni') /\
    forall id q txn, ti_timeline (timeline_index (mp_transactions mempool)) !! id = Some q ->
      TransactionStore.get q.1 q.2 (mp_transactions mempool) = Some txn ->
      exists request_id txns, (peer, BroadcastTransactionsRequest request_id txns) ∈ ni_sender ni' /\ txn ∈ txns.
Proof.
  intros Hcap Hadds Hev Hrun mempool ni Hst Hidle Hprio Hbs Htimes Hn.
  destruct (run_from_start config role events 0 Hcap) as (self' & m & Hrun' & [[Hroom [_ Hp] _ Hcfg] _]); [lia|done|].
  assert (self' = self) as -> by congruence. fold mempool ni in Hp, Hroom, Hcfg. pose proof (mo_represents _ _ (ro_ok _ _ _ Hroom)) as Hr.
  assert (ready peer mempool m ni st) as Hrd by (destruct (Hp _ _ Hst); by split).
  rewrite <-Hcfg in Hbs, Hn.
  destruct (exchanges_ok peer mempool m clock times n _ ni st Hrd Hr (room_counter _ _ _ Hroom) Htimes eq_refl Hbs)
    as (ni' & st' & Hex & Hrd' & Hb).
  exists ni'. split; [done|]. intros id q txn Hid Hq.
  destruct (proj1 (timeline_listed m _ (id, q) Hr)) as [txn' Hx]; [by apply elem_of_btree_iter|].
  destruct (listed_stored m _ _ _ Hr Hx) as (t & Ht & Htxn & _). cbn in Ht. unfold TransactionStore.get in Hq. rewrite Ht in Hq.
  cbn in Hq. assert (txn' = txn) as -> by congruence. apply (rd_covered _ _ _ _ _ Hrd' (id, q)); [done|].
  assert (behind mempool (ps_timeline_id st) <= size (ti_timeline (timeline_index (mp_transactions mempool))))%nat as Hsz.
  { unfold behind, timeline. rewrite <-length_map_to_list, <-(btree_iter_perm (ti_timeline _)). apply length_filter. }
  destruct (decide (id <= ps_timeline_id st')) as [|Hgt]; [done|exfalso].
  assert ((id, q) ∈ filter (fun x => ps_timeline_id st' < x.1) (timeline (mp_transactions mempool))) as Hin.
  { apply list_elem_of_filter. split; [cbn; lia|]. by apply elem_of_btree_iter. }
  assert (behind mempool (ps_timeline_id st') = 0%nat) as Hz%length_zero_iff_nil by lia. rewrite Hz in Hin. by apply elem_of_nil in Hin.
Qed.
Lemma broadcasts_catch_up_witness :
  exists ni', exchanges 2 SharedMempoolExample.peer (fun _ _ => 0) (fun _ => (4 * 10 ^ 9, 5 * 10 ^ 9))
    (sm_mempool (co_smp SharedMempoolExample.waiting)) (sm_network_interface (co_smp SharedMempoolExample.waiting)) = (Ok tt, ni') /\
  forall n, n ∈ [0; 1] -> exists request_id txns,
    (SharedMempoolExample.peer, BroadcastTransactionsRequest request_id txns) ∈ ni_sender ni' /\ SharedMempoolExample.txn n ∈ txns.
Proof.
  destruct SharedMempoolExample.waiting_facts as (Hrun & Hst & Hprio & Hsize & Hall).
  destruct (broadcasts_catch_up SharedMempoolExample.config RoleFullNode SharedMempoolExample.two_submitted SharedMempoolExample.waiting
    SharedMempoolExample.peer (PeerSyncState_new SharedMempoolExample.metadata) 2 (fun _ _ => 0) (fun _ => (4 * 10 ^ 9, 5 * 10 ^ 9)))
    as (ni' & Hex & Hsent).
  - by vm_compute.
  - by vm_compute.
  - apply SharedMempoolExample.two_submitted_fit.
  - exact Hrun.
  - exact Hst.
  - done.
  - exact Hprio.
  - done.
  - intros i. by vm_compute.
  - rewrite Hsize. cbn. lia.
  - exists ni'. split; [exact Hex|]. intros n Hn. destruct (Hall n Hn) as [Htl Hget]. by apply (Hsent (n + 1) (7, n)).
Defined.

(** C40: a batch of which nothing is left stops all broadcasts to a peer.  Suppose that after
    some run a peer has asked for a batch again, that no earlier batch is outstanding, and
    that mempool has no transaction of the batch any more, say because they were committed.
    Then no transaction is sent to the peer any more, whatever is submitted and whenever
    broadcasts are due, until the peer disconnects: empty batches are dropped from those
    that wait for an answer, but not from those to be sent again, and the empty batch is
    chosen every time. *)
Theorem empty_retry_batch_blocks_peer `{CryptoHash Transaction} `{Bcs BatchId} `{!BatchBcs} (config : MempoolConfig) (role : RoleType)
    (events later : list (Env * Event)) (self self' : Coordinator) (r : result unit) (peer : PeerNetworkId) (st : PeerSyncState)
    (b : BatchId) :
  mc_capacity config <= u64_max -> events_adds events + events_adds later < u64_max ->
  events_ok (fun _ => True) config (mc_system_transaction_timeout_secs config * 10 ^ 9) 0 events ->
  Shared.run events (Shared.start config role) = (Ok tt, self) ->
  ni_sync_states (sm_network_interface (co_smp self)) !! peer = Some st -> b ∈ retry_batches (ps_broadcast_info st) ->
  (forall b', is_Some (sent_batches (ps_broadcast_info st) !! b') \/ b' ∈ retry_batches (ps_broadcast_info st) -> batch_le b' b) ->
  Mempool.timeline_range (E := AnyError) b.1 b.2 (sm_mempool (co_smp self)) = Ok [] ->
  events_ok (fun p => p <> peer) config (mc_system_transaction_timeout_secs config * 10 ^ 9) (end_time 0 events) later ->
  Shared.run later self = (r, self') ->
  r = Ok tt /\ requests_to peer (ni_sender (sm_network_interface (co_smp self'))) =
    requests_to peer (ni_sender (sm_network_interface (co_smp self))).
Proof.
  intros Hcap Hadds Hev Hrun Hst Hb Hmax Hempty Hlater Hrun'.
  destruct (run_from_start config role events (events_adds later + 0) Hcap) as (self1 & m & Hrun1 & Hok); [lia|done|].
  assert (self1 = self) as -> by congruence. pose proof Hok as [[Hroom Hall Hto Hcfg] Hs].
  set (l := requests_to peer (ni_sender (sm_network_interface (co_smp self)))).
  assert (shared_ok (blocked peer b l) config (mc_system_transaction_timeout_secs config * 10 ^ 9) (end_time 0 events)
    (events_adds later + 0) m self) as Hok2.
  { split; [|done]. split; [done| |done|done]. split_and!; [done|done| |by exists st]. intros x txn Hx Hin.
    apply (elem_of_nil txn). eapply range_listed; [apply (mo_represents _ _ (ro_ok _ _ _ Hroom))|exact Hx|exact Hin|exact Hempty]. }
  destruct (safe_Ok _ _ _ _ (run_ok (blocked peer b l) _ config _ later _ 0 m self Hok2 Hlater)) as ([] & self2 & Hrun2 & m2 & Hok3);
    [by intros ? []|]. rewrite Hrun' in Hrun2. injection Hrun2 as -> <-. split; [done|]. destruct Hok3 as [[_ (_ & Hreq & _) _ _] _]. done.
Qed.
Lemma empty_retry_batch_blocks_peer_witness :
  requests_to SharedMempoolExample.peer (ni_sender (sm_network_interface (co_smp SharedMempoolExample.reached_later))) =
    [(SharedMempoolExample.peer, BroadcastTransactionsRequest (to_be_bytes 8 0 ++ to_be_bytes 8 1) [SharedMempoolExample.txn 0])] /\
  TransactionStore.get 7 1 (mp_transactions (sm_mempool (co_smp SharedMempoolExample.reached_later))) = Some (SharedMempoolExample.txn 1).
Proof.
  destruct SharedMempoolExample.reached_facts as (Hst & Hb & Hmax & Hempty & Hreq & Hget). split; [|exact Hget]. rewrite <-Hreq.
  refine (proj2 (empty_retry_batch_blocks_peer SharedMempoolExample.config RoleFullNode SharedMempoolExample.events
    SharedMempoolExample.later SharedMempoolExample.reached SharedMempoolExample.reached_later (Ok tt) SharedMempoolExample.peer
    SharedMempoolExample.reached_state (0, 1) _ _ SharedMempoolExample.all_events_fit SharedMempoolExample.reached_run Hst Hb Hmax Hempty
    SharedMempoolExample.later_fit SharedMempoolExample.reached_later_run)); by vm_compute.
Defined.

(** How a transaction that a client submits is answered.  If the account cannot be read, or
    has got past the transaction's sequence number, or the VM discards the transaction, the
    client is told so and mempool does not change; if the VM accepts it, mempool takes it as
    [add_txn] specifies and the client gets its status; and if the VM fails, the client gets
    no answer.  In no case do the peers change or does the task panic. *)
Theorem submission_answered `{CryptoHash Transaction} (env : Env) (txn : SignedTransaction) (smp : SharedMempool) (m : Pool) :
  mempool_ok m (sm_mempool smp) -> capacity (mp_transactions (sm_mempool smp)) <= u64_max ->
  timeline_budget m (sm_mempool smp) < u64_max -> env_ok (mp_system_transaction_timeout (sm_mempool smp)) env ->
  txn_sequence_number txn < u64_max ->
  exists reply smp', Shared.process_client_transaction_submission env txn smp = (Ok reply, smp') /\
    sm_network_interface smp' = sm_network_interface smp /\
    match en_db env 0%nat (txn_sender txn) with
    | None => reply = Some (status VmError, Some RESOURCE_DOES_NOT_EXIST) /\ smp' = smp
    | Some info =>
        if txn_sequence_number txn <? min_seq info
        then reply = Some (status VmError, Some SEQUENCE_NUMBER_TOO_OLD) /\ smp' = smp
        else match en_validate env 0%nat txn with
             | None => reply = None /\ smp' = smp
             | Some (mkVMValidatorResult (Some v) _) => reply = Some (status VmError, Some v) /\ smp' = smp
             | Some (mkVMValidatorResult None score) => exists st m', reply = Some (st, None) /\ mempool_ok m' (sm_mempool smp') /\
                 pool_step (AddTxn (en_txn_clock env 0%nat) (en_rng env 0%nat) txn score info NotReady) (sm_mempool smp) m (Some st) m'
             end
    end.
Proof.
  intros Hok Hcap Hb Henv Hfits. unfold Shared.process_client_transaction_submission, Shared.on_mempool, on, mbind, method_bind.
  unfold Shared.process_incoming_transactions. cbn [Shared.screen_transactions].
  destruct smp as [mp cfg ni]. cbn [sm_mempool] in *.
  destruct (en_db env 0%nat (txn_sender txn)) as [info|]; [|by eexists _, _].
  rewrite N.leb_antisym. destruct (txn_sequence_number txn <? min_seq info); cbn [negb]; [by eexists _, _|].
  unfold mbind, method_bind. cbn [Shared.add_transactions]. unfold mbind, method_bind.
  destruct (en_validate env 0%nat txn) as [[[v|] score]|]; cbn [vr_status vr_score mret method_ret];
    [by eexists _, _| |by eexists _, _].
  destruct (safe_Ok _ _ _ _ (add_txn_ok m mp (en_txn_clock env 0%nat) (en_rng env 0%nat) txn score info NotReady Hok
    (conj Hfits (conj (Henv 0%nat) (or_introl eq_refl))) Hcap Hb)) as (st & mp' & -> & m' & Hok' & Hst & _); [by intros ? []|].
  eexists _, _. split_and!; [done|done|]. by exists st, m'.
Qed.
Lemma submission_answered_witness :
  exists reply smp', Shared.process_client_transaction_submission (SharedMempoolExample.env 1) (SharedMempoolExample.txn 0)
    (Shared.new SharedMempoolExample.config RoleFullNode) = (Ok reply, smp') /\ fst <$> reply = Some (status Accepted).
Proof.
  destruct (mempool_new_ok SharedMempoolExample.config) as [Hok Hb].
  destruct (submission_answered (SharedMempoolExample.env 1) (SharedMempoolExample.txn 0)
    (Shared.new SharedMempoolExample.config RoleFullNode) ∅ Hok) as (reply & smp' & Hrun & _).
  - by vm_compute.
  - cbn [Shared.new sm_mempool]. rewrite Hb. by vm_compute.
  - intros i. by vm_compute.
  - by vm_compute.
  - exists reply, smp'. split; [exact Hrun|]. apply (f_equal fst) in Hrun. vm_compute in Hrun. by injection Hrun as <-.
Defined.
End SharedMempoolProps.
