(* ===== verification/LeaderElection.v ===== *)
(** * Leader election (consensus/src/liveness)

    The ways to choose the proposer of a round: in rotation (rotating_proposer_election.rs),
    by a table (round_proposer_election.rs), and by reputation (leader_reputation.rs); a
    cache of recent choices (cached_proposer_election.rs), and the check that a leader
    proposes once (unequivocal_proposer_election.rs); and how the epoch manager builds an
    election from the on-chain configuration (consensus/src/epoch_manager.rs,
    types/src/on_chain_config/consensus_config.rs). *)

From S2P Require Import Prelude Crypto Errors Position Accumulator Verifier Ledger ConsensusTypes Blocks SchemaDb LedgerSchemas.

(** ** The trait *)
Class ProposerElection (P : Type) : Type := get_valid_proposer : Round -> method P AnyError Author.

Section trait.
Context {P : Type} `{!ProposerElection P}.
Definition is_valid_proposer (author : Author) (round : Round) : method P AnyError bool :=
  proposer ← get_valid_proposer round;
  mret (proposer =? author).
End trait.

(** [state[0..8]] of the hash of the state, and the new state. *)
Definition from_le_bytes (data : bytes) : N := from_be_bytes (reverse data).
Definition to_le_bytes (n : nat) (x : N) : bytes := reverse (to_be_bytes n x).
Definition next (sha3_256_of : bytes -> HashValue) (state : bytes) : N * bytes :=
  let state := to_be_bytes 32 (sha3_256_of state) in (from_le_bytes (take 8 state), state).

(** ** Rotation *)
Record RotatingProposer : Type := mkRotatingProposer { rp_proposers : list Author; rp_contiguous_rounds : N }.
Definition choose_leader (peers : list Author) : outcome AnyError Author :=
  match peers with
  | [] => Panic
  | p :: peers => Ok (foldl N.min p peers)
  end.
(** Division by zero and an index past the end panic. *)
#[global] Instance rotating_election : ProposerElection RotatingProposer := fun round => gets (fun self =>
  _ ← assert_ (negb (rp_contiguous_rounds self =? 0));
  let len := N.of_nat (length (rp_proposers self)) in
  _ ← assert_ (negb (len =? 0));
  expect (rp_proposers self !! N.to_nat ((round / rp_contiguous_rounds self) mod len))).

(** ** A table of rounds *)
Record RoundProposer : Type := mkRoundProposer { rnd_proposers : gmap Round Author; rnd_default_proposer : Author }.
#[global] Instance round_election : ProposerElection RoundProposer := fun round => gets (fun self =>
  Ok match rnd_proposers self !! round with
     | None => rnd_default_proposer self
     | Some round_proposer => round_proposer
     end).

(** ** A cache *)
Record CachedProposerElection (P : Type) : Type := mkCachedProposerElection {
  ca_proposer_election : P;
  ca_recent_elections : gmap Round Author;
  ca_window : N;
}.
Arguments mkCachedProposerElection {P}.
Arguments ca_proposer_election {P}.
Arguments ca_recent_elections {P}.
Arguments ca_window {P}.

Section cached.
Context {P : Type} `{!ProposerElection P}.
Definition cached_new (proposer_election : P) (window : N) : CachedProposerElection P :=
  mkCachedProposerElection proposer_election ∅ window.
Definition set_recent (recent : gmap Round Author) (self : CachedProposerElection P) : CachedProposerElection P :=
  mkCachedProposerElection (ca_proposer_election self) recent (ca_window self).
Definition set_election (p : P) (self : CachedProposerElection P) : CachedProposerElection P :=
  mkCachedProposerElection p (ca_recent_elections self) (ca_window self).
(** [BTreeMap::split_off] leaves the rounds from the given one on. *)
#[global] Instance cached_election : ProposerElection (CachedProposerElection P) := fun round =>
  _ ← puts (fun self =>
        if ca_window self <? round
        then set_recent (filter (fun e => round - ca_window self <= e.1) (ca_recent_elections self)) self
        else self);
  recent ← gets (fun self => Ok (ca_recent_elections self !! round));
  match recent with
  | Some author => mret author
  | None =>
      author ← on ca_proposer_election set_election (get_valid_proposer round);
      _ ← puts (fun self => set_recent (<[round := author]> (ca_recent_elections self)) self);
      mret author
  end.
End cached.

(** ** One proposal per round *)
Record UnequivocalProposerElection (P : Type) : Type := mkUnequivocal {
  ue_proposer_election : P;
  ue_already_proposed : Round * HashValue;
}.
Arguments mkUnequivocal {P}.
Arguments ue_proposer_election {P}.
Arguments ue_already_proposed {P}.

Module Unequivocal.
Section unequivocal.
Context {P : Type} `{!ProposerElection P}.
Definition new (proposer_election : P) : UnequivocalProposerElection P := mkUnequivocal proposer_election (0, Hash.zero).
Definition set_election (p : P) (self : UnequivocalProposerElection P) : UnequivocalProposerElection P :=
  mkUnequivocal p (ue_already_proposed self).
Definition set_already_proposed (x : Round * HashValue) (self : UnequivocalProposerElection P) : UnequivocalProposerElection P :=
  mkUnequivocal (ue_proposer_election self) x.

#[global] Instance unequivocal_election : ProposerElection (UnequivocalProposerElection P) := fun round =>
  on ue_proposer_election set_election (get_valid_proposer round).

Definition is_valid_proposal (block : Block) : method (UnequivocalProposerElection P) AnyError bool :=
  match Block.author block with
  | None => mret false
  | Some author =>
      valid_author ← is_valid_proposer author (Block.round block);
      if valid_author : bool then
        already_proposed ← gets (fun self => Ok (ue_already_proposed self));
        match Block.round block ?= already_proposed.1 with
        | Gt => _ ← puts (set_already_proposed (Block.round block, b_id block)); mret true
        | Eq => mret (already_proposed.2 =? b_id block)
        | Lt => mret false
        end
      else mret false
  end.
End unequivocal.
End Unequivocal.

(** ** Reputation: what is read from the ledger *)
Record NewBlockEvent : Type := mkNewBlockEvent {
  nbe_epoch : N;
  nbe_round : Round;
  nbe_height : N;
  nbe_previous_block_votes : list bool;
  nbe_proposer : Author;
  nbe_failed_proposer_indices : list N;
  nbe_timestamp : N;
}.

(** Blocks in which the last one is at the target round or the latest committed, says the
    documentation of the trait. *)
Class MetadataBackend (B : Type) : Type := get_block_metadata : Round -> method B AnyError (list NewBlockEvent).

(** The part of [DbReader] that is used: the latest version, and the last events with the
    key of new blocks, the newest first, with their versions and data. *)
Class BlockEventReader (D : Type) : Type := {
  get_latest_version : D -> result Version;
  get_new_block_events : D -> N -> result (list (Version * bytes));
}.

Record AptosDBBackend (D : Type) : Type := mkAptosDBBackend {
  ab_epoch : N;
  ab_window_size : N;
  ab_seek_len : N;
  ab_aptos_db : D;
  ab_db_result : list NewBlockEvent * Version * bool;
}.
Arguments mkAptosDBBackend {D}.
Arguments ab_epoch {D}.
Arguments ab_window_size {D}.
Arguments ab_seek_len {D}.
Arguments ab_aptos_db {D}.
Arguments ab_db_result {D}.

Fixpoint collect_events `{Bcs NewBlockEvent} (events : list (Version * bytes)) : result (list NewBlockEvent) :=
  match events with
  | [] => Ok []
  | (_, data) :: events => event ← bcs_from_bytes data; rest ← collect_events events; Ok (event :: rest)
  end.

Module AptosDBBackend.
Section backend.
Context {D : Type} `{!BlockEventReader D} `{Bcs NewBlockEvent}.
Implicit Types (self : AptosDBBackend D).

Definition new (epoch window_size seek_len : N) (aptos_db : D) : AptosDBBackend D :=
  mkAptosDBBackend epoch window_size seek_len aptos_db ([], 0, true).
Definition set_db_result r self : AptosDBBackend D :=
  mkAptosDBBackend (ab_epoch self) (ab_window_size self) (ab_seek_len self) (ab_aptos_db self) r.

Definition refresh_db_result (latest_db_version : Version) : method (AptosDBBackend D) AnyError (list NewBlockEvent * Version * bool) :=
  limit ← gets (fun self => add64 (ab_window_size self) (ab_seek_len self));
  events ← gets (fun self => get_new_block_events (ab_aptos_db self) limit);
  let max_returned_version := match events with [] => 0 | (version, _) :: _ => version end in
  new_block_events ← gets (fun self => filter (fun e => nbe_epoch e = ab_epoch self) <$> collect_events events);
  let hit_end := N.of_nat (length new_block_events) <? limit in
  let result := (new_block_events, N.max latest_db_version max_returned_version, hit_end) in
  _ ← puts (set_db_result result);
  mret result.

(** The first events up to the target round, at most a window of them. *)
Definition get_from_db_result (target_round : Round) (events : list NewBlockEvent) self : list NewBlockEvent :=
  take (N.to_nat (ab_window_size self)) (filter (fun e => nbe_round e <= target_round) events).

(** A database that cannot be read is logged, and there is no history then. *)
#[global] Instance db_backend : MetadataBackend (AptosDBBackend D) := fun target_round self =>
  let '(events, version, hit_end) := ab_db_result self in
  let has_larger := match events with [] => false | e :: _ => target_round <=? nbe_round e end in
  match get_latest_version (ab_aptos_db self) with
  | Panic => (Panic, self)
  | latest =>
      let latest_db_version := match latest with Ok v => v | _ => 0 end in
      if negb has_larger && (version <? latest_db_version) then
        match refresh_db_result latest_db_version self with
        | (Ok (events, _, _), self') => (Ok (get_from_db_result target_round events self'), self')
        | (Err _, self') => (Ok [], self')
        | (Panic, self') => (Panic, self')
        end
      else (Ok (get_from_db_result target_round events self), self)
  end.
End backend.
End AptosDBBackend.

(** ** Reputation: counting *)
Record NewBlockEventAggregation : Type := mkAggregation { ag_voter_window_size : N; ag_proposer_window_size : N }.

Abbreviation Counts := (gmap Author N).

Module Aggregation.
Definition bitmap_to_voters (validators : list Author) (bitmap : list bool) : option (list Author) :=
  if bool_decide (length validators = length bitmap)
  then Some (omap (fun p : Author * bool => if p.2 then Some p.1 else None) (zip validators bitmap))
  else None.

(** One index that is too large, and there is no result. *)
Fixpoint indices_to_validators (validators : list Author) (indices : list N) : option (list Author) :=
  match indices with
  | [] => Some []
  | index :: indices =>
      validator ← validators !! N.to_nat index;
      rest ← indices_to_validators validators indices;
      Some (validator :: rest)
  end.

(** The last [window_size] blocks of the list, without those of other epochs. *)
Definition history_iter (history : list NewBlockEvent) (epoch window_size : N) : list NewBlockEvent :=
  filter (fun meta => nbe_epoch meta = epoch) (drop (length history - N.to_nat window_size) history).

Fixpoint count_each (authors : list Author) (map : Counts) : result Counts :=
  match authors with
  | [] => Ok map
  | author :: authors =>
      count ← add32 (default 0 (map !! author)) 1;
      count_each authors (<[author := count]> map)
  end.

(** A block that does not fit the candidates is logged and passed over. *)
Fixpoint count_blocks (authors : NewBlockEvent -> option (list Author)) (history : list NewBlockEvent) (map : Counts) : result Counts :=
  match history with
  | [] => Ok map
  | meta :: history => map ← count_each (default [] (authors meta)) map; count_blocks authors history map
  end.

Section aggregation.
Context (self : NewBlockEventAggregation).
Definition count_votes (epoch : N) (candidates : list Author) (history : list NewBlockEvent) : result Counts :=
  count_blocks (fun meta => bitmap_to_voters candidates (nbe_previous_block_votes meta))
    (history_iter history epoch (ag_voter_window_size self)) ∅.
Definition count_proposals (epoch : N) (history : list NewBlockEvent) : result Counts :=
  count_blocks (fun meta => Some [nbe_proposer meta]) (history_iter history epoch (ag_proposer_window_size self)) ∅.
Definition count_failed_proposals (epoch : N) (candidates : list Author) (history : list NewBlockEvent) : result Counts :=
  count_blocks (fun meta => indices_to_validators candidates (nbe_failed_proposer_indices meta))
    (history_iter history epoch (ag_proposer_window_size self)) ∅.

Fixpoint sum32 (l : list N) : result N :=
  match l with [] => Ok 0 | x :: l => s ← sum32 l; add32 x s end.
(** The sums are a metric. *)
Definition get_aggregated_metrics (epoch : N) (candidates : list Author) (history : list NewBlockEvent)
    : result (Counts * Counts * Counts) :=
  votes ← count_votes epoch candidates history;
  proposals ← count_proposals epoch history;
  failed_proposals ← count_failed_proposals epoch candidates history;
  _ ← sum32 (map_to_list proposals).*2;
  _ ← sum32 (map_to_list failed_proposals).*2;
  Ok (votes, proposals, failed_proposals).
End aggregation.
End Aggregation.

(** ** Reputation: weights *)
Class ReputationHeuristic (H : Type) : Type :=
  get_weights : H -> N -> list Author -> list NewBlockEvent -> result (list N).

Fixpoint weigh (f : Author -> result N) (candidates : list Author) : result (list N) :=
  match candidates with
  | [] => Ok []
  | author :: candidates => w ← f author; rest ← weigh f candidates; Ok (w :: rest)
  end.

Record ActiveInactiveHeuristic : Type := mkActiveInactive {
  ai_author : Author;
  ai_active_weight : N;
  ai_inactive_weight : N;
  ai_aggregation : NewBlockEventAggregation;
}.
Definition active_inactive_new (author : Author) (active_weight inactive_weight window_size : N) : ActiveInactiveHeuristic :=
  mkActiveInactive author active_weight inactive_weight (mkAggregation window_size window_size).
#[global] Instance active_inactive_weights : ReputationHeuristic ActiveInactiveHeuristic := fun self epoch candidates history =>
  '(votes, proposals, _) ← Aggregation.get_aggregated_metrics (ai_aggregation self) epoch candidates history;
  weigh (fun author =>
    Ok (if bool_decide (is_Some (votes !! author)) || bool_decide (is_Some (proposals !! author))
        then ai_active_weight self else ai_inactive_weight self)) candidates.

Record ProposerAndVoterHeuristic : Type := mkProposerAndVoter {
  pv_author : Author;
  pv_active_weight : N;
  pv_inactive_weight : N;
  pv_failed_weight : N;
  pv_failure_threshold_percent : N;
  pv_aggregation : NewBlockEventAggregation;
}.
Definition proposer_and_voter_new (author : Author) (active_weight inactive_weight failed_weight failure_threshold_percent
    voter_window_size proposer_window_size : N) : ProposerAndVoterHeuristic :=
  mkProposerAndVoter author active_weight inactive_weight failed_weight failure_threshold_percent
    (mkAggregation voter_window_size proposer_window_size).
#[global] Instance proposer_and_voter_weights : ReputationHeuristic ProposerAndVoterHeuristic := fun self epoch candidates history =>
  '(votes, proposals, failed_proposals) ← Aggregation.get_aggregated_metrics (pv_aggregation self) epoch candidates history;
  weigh (fun author =>
    let cur_votes := default 0 (votes !! author) in
    let cur_proposals := default 0 (proposals !! author) in
    let cur_failed_proposals := default 0 (failed_proposals !! author) in
    failed ← mul32 cur_failed_proposals 100;
    all ← add32 cur_proposals cur_failed_proposals;
    threshold ← mul32 all (pv_failure_threshold_percent self);
    Ok (if threshold <? failed then pv_failed_weight self
        else if (0 <? cur_proposals) || (0 <? cur_votes) then pv_active_weight self
        else pv_inactive_weight self)) candidates.

(** ** Reputation: the choice *)
Record LeaderReputation (B H : Type) : Type := mkLeaderReputation {
  lr_epoch : N;
  lr_proposers : list Author;
  lr_backend : B;
  lr_heuristic : H;
  lr_exclude_round : N;
}.
Arguments mkLeaderReputation {B H}.
Arguments lr_epoch {B H}.
Arguments lr_proposers {B H}.
Arguments lr_backend {B H}.
Arguments lr_heuristic {B H}.
Arguments lr_exclude_round {B H}.

(** Each weight is replaced by the sum up to it. *)
Fixpoint accumulate {E} (total_weight : N) (weights : list N) : outcome E (list N * N) :=
  match weights with
  | [] => Ok ([], total_weight)
  | w :: weights =>
      total_weight ← add64 total_weight w;
      '(rest, total) ← accumulate total_weight weights;
      Ok (total_weight :: rest, total)
  end.

(** [slice::binary_search_by] with a comparison that is never [Equal]: the place where
    the search ends. *)
Fixpoint binary_search (fuel : nat) (weights : list N) (chosen_weight : N) (left right : nat) : outcome AnyError nat :=
  match fuel with
  | O => Panic
  | S fuel =>
      if decide (left < right)%nat then
        let mid := (left + (right - left) / 2)%nat in
        w ← expect (weights !! mid);
        if w <=? chosen_weight then binary_search fuel weights chosen_weight (S mid) right
        else binary_search fuel weights chosen_weight left mid
      else Ok left
  end.

Fixpoint is_sorted (l : list Author) : bool :=
  match l with
  | x :: (y :: _) as l' => (x <=? y) && is_sorted l'
  | _ => true
  end.

Module LeaderReputation.
Section reputation.
Context {B H : Type} `{!MetadataBackend B} `{!ReputationHeuristic H} (sha3_256_of : bytes -> HashValue).

Definition new (epoch : N) (proposers : list Author) (backend : B) (heuristic : H) (exclude_round : N)
    : outcome AnyError (LeaderReputation B H) :=
  _ ← assert_ (is_sorted proposers);
  Ok (mkLeaderReputation epoch proposers backend heuristic exclude_round).
Definition set_backend (b : B) (self : LeaderReputation B H) : LeaderReputation B H :=
  mkLeaderReputation (lr_epoch self) (lr_proposers self) b (lr_heuristic self) (lr_exclude_round self).

(** The choice, given the weights. *)
Definition choose (proposers : list Author) (weights : list N) (round : Round) : outcome AnyError Author :=
  _ ← assert_ (bool_decide (length weights = length proposers));
  '(weights, total_weight) ← accumulate 0 weights;
  let state := to_le_bytes 8 round in
  _ ← assert_ (negb (total_weight =? 0));
  let chosen_weight := fst (next sha3_256_of state) mod total_weight in
  chosen_index ← binary_search (S (length weights)) weights chosen_weight 0 (length weights);
  expect (proposers !! chosen_index).

Definition reputation_election : ProposerElection (LeaderReputation B H) := fun round =>
  target_round ← gets (fun self => Ok (round - lr_exclude_round self));
  sliding_window ← on lr_backend set_backend (get_block_metadata target_round);
  weights ← gets (fun self => get_weights (lr_heuristic self) (lr_epoch self) (lr_proposers self) sliding_window);
  gets (fun self => choose (lr_proposers self) weights round).
End reputation.
End LeaderReputation.

(** ** The election of an epoch *)
Record ActiveInactiveConfig : Type := mkActiveInactiveConfig {
  aic_active_weight : N;
  aic_inactive_weight : N;
  aic_window_num_validators_multiplier : N;
}.
Record ProposerAndVoterConfig : Type := mkProposerAndVoterConfig {
  pvc_active_weight : N;
  pvc_inactive_weight : N;
  pvc_failed_weight : N;
  pvc_failure_threshold_percent : N;
  pvc_proposer_window_num_validators_multiplier : N;
  pvc_voter_window_num_validators_multiplier : N;
}.
Inductive LeaderReputationType : Type :=
  | ActiveInactive (config : ActiveInactiveConfig)
  | ProposerAndVoter (config : ProposerAndVoterConfig).
Inductive ProposerElectionType : Type :=
  | ElectFixed (contiguous_rounds : N)
  | ElectRotating (contiguous_rounds : N)
  | ElectByReputation (leader_reputation_type : LeaderReputationType)
  | ElectByRound (round_proposers : gmap Round Author).

Record OnChainConsensusConfig : Type := mkOnChainConsensusConfig {
  oc_decoupled_execution : bool;
  oc_back_pressure_limit : N;
  oc_exclude_round : N;
  oc_proposer_election_type : ProposerElectionType;
  oc_max_failed_authors_to_store : N;
}.
Module OnChainConsensusConfig.
Definition back_pressure_limit (self : OnChainConsensusConfig) : N :=
  if oc_decoupled_execution self then oc_back_pressure_limit self else 10.
(** [ConsensusConfigV1::default] *)
Definition default_config : OnChainConsensusConfig :=
  mkOnChainConsensusConfig true 10 20 (ElectByReputation (ProposerAndVoter (mkProposerAndVoterConfig 1000 10 1 10 10 1))) 10.
End OnChainConsensusConfig.

(** [Box<dyn ProposerElection>]: one of the elections. *)
Inductive AnyElection (D : Type) : Type :=
  | Rotating (election : RotatingProposer)
  | ByRound (election : RoundProposer)
  | ByActivity (election : CachedProposerElection (LeaderReputation (AptosDBBackend D) ActiveInactiveHeuristic))
  | ByReputation (election : CachedProposerElection (LeaderReputation (AptosDBBackend D) ProposerAndVoterHeuristic)).
Arguments Rotating {D}.
Arguments ByRound {D}.
Arguments ByActivity {D}.
Arguments ByReputation {D}.

Section create.
Context {D : Type} `{!BlockEventReader D} `{Bcs NewBlockEvent} (sha3_256_of : bytes -> HashValue).

Definition on_cached {H} `{!ReputationHeuristic H} (round : Round)
    : method (CachedProposerElection (LeaderReputation (AptosDBBackend D) H)) AnyError Author :=
  @cached_election _ (LeaderReputation.reputation_election sha3_256_of) round.
Definition any_election : ProposerElection (AnyElection D) := fun round self =>
  match self with
  | Rotating election => let '(r, e) := get_valid_proposer round election in (r, Rotating e)
  | ByRound election => let '(r, e) := get_valid_proposer round election in (r, ByRound e)
  | ByActivity election => let '(r, e) := on_cached round election in (r, ByActivity e)
  | ByReputation election => let '(r, e) := on_cached round election in (r, ByReputation e)
  end.

Definition PROPSER_ELECTION_CACHING_WINDOW_ADDITION : N := 3.
Definition PROPSER_ROUND_BEHIND_STORAGE_BUFFER : N := 10.

(** The part that the two kinds of reputation share. *)
Definition create_leader_reputation {H} (epoch : N) (proposers : list Author) (onchain_config : OnChainConsensusConfig)
    (heuristic : H) (window_size : N) (aptos_db : D)
    : outcome AnyError (CachedProposerElection (LeaderReputation (AptosDBBackend D) H)) :=
  seek_len ← add64 (oc_exclude_round onchain_config) (oc_max_failed_authors_to_store onchain_config);
  seek_len ← add64 seek_len PROPSER_ROUND_BEHIND_STORAGE_BUFFER;
  let backend := AptosDBBackend.new epoch window_size seek_len aptos_db in
  proposer_election ← LeaderReputation.new epoch proposers backend heuristic (oc_exclude_round onchain_config);
  window ← add64 (oc_max_failed_authors_to_store onchain_config) PROPSER_ELECTION_CACHING_WINDOW_ADDITION;
  Ok (cached_new proposer_election window).

(** [EpochManager::create_proposer_election] *)
Definition create_proposer_election (author : Author) (epoch_state : EpochState) (onchain_config : OnChainConsensusConfig)
    (aptos_db : D) : outcome AnyError (AnyElection D) :=
  let proposers := Verifier.get_ordered_account_addresses_iter (es_verifier epoch_state) in
  let len := N.of_nat (length proposers) in
  match oc_proposer_election_type onchain_config with
  | ElectRotating contiguous_rounds => Ok (Rotating (mkRotatingProposer proposers contiguous_rounds))
  | ElectFixed contiguous_rounds =>
      proposer ← choose_leader proposers;
      Ok (Rotating (mkRotatingProposer [proposer] contiguous_rounds))
  | ElectByReputation (ActiveInactive config) =>
      window_size ← mul64 len (aic_window_num_validators_multiplier config);
      let heuristic := active_inactive_new author (aic_active_weight config) (aic_inactive_weight config) window_size in
      election ← create_leader_reputation (es_epoch epoch_state) proposers onchain_config heuristic window_size aptos_db;
      Ok (ByActivity election)
  | ElectByReputation (ProposerAndVoter config) =>
      proposer_window_size ← mul64 len (pvc_proposer_window_num_validators_multiplier config);
      voter_window_size ← mul64 len (pvc_voter_window_num_validators_multiplier config);
      let heuristic := proposer_and_voter_new author (pvc_active_weight config) (pvc_inactive_weight config)
                         (pvc_failed_weight config) (pvc_failure_threshold_percent config) voter_window_size proposer_window_size in
      election ← create_leader_reputation (es_epoch epoch_state) proposers onchain_config heuristic
                   (N.max proposer_window_size voter_window_size) aptos_db;
      Ok (ByReputation election)
  | ElectByRound round_proposers =>
      default_proposer ← expect (head proposers);
      Ok (ByRound (mkRoundProposer round_proposers default_proposer))
  end.
End create.
