(* ===== verification/LeaderElectionProps.v ===== *)
(** * Theorems about leader election *)

From S2P Require Import Prelude Crypto Errors Position Accumulator Verifier Ledger ConsensusTypes Blocks SchemaDb LedgerSchemas LeaderElection.

(** ** The choice by weight *)
Fixpoint total (l : list N) : N := match l with [] => 0 | x :: l => x + total l end.
Lemma total_app l l' : total (l ++ l') = total l + total l'.
Proof. induction l as [|x l IH]; cbn; lia. Qed.
Definition sums (start : N) (w : list N) : list N := imap (fun i _ => start + total (take (S i) w)) w.

Lemma sums_cons start x w : sums start (x :: w) = (start + x) :: sums (start + x) w.
Proof.
  unfold sums. rewrite imap_cons. f_equal; [cbn; by rewrite N.add_0_r|]. apply imap_ext. intros i y _. cbn. lia.
Qed.
Lemma accumulate_ok {E} start w : start + total w <= u64_max -> accumulate (E := E) start w = Ok (sums start w, start + total w).
Proof.
  revert start. induction w as [|x w IH]; intros start Hle; cbn [accumulate]; [by rewrite N.add_0_r|].
  cbn in Hle. assert (add64 (E := E) start x = Ok (start + x)) as -> by (apply add64_Ok; lia). cbn [mbind outcome_bind].
  rewrite IH by lia. cbn [mbind outcome_bind total]. by rewrite sums_cons, N.add_assoc.
Qed.
Lemma lookup_sums w i : (i < length w)%nat -> sums 0 w !! i = Some (total (take (S i) w)).
Proof. intros Hi. unfold sums. rewrite list_lookup_imap. by destruct (lookup_lt_is_Some_2 w i Hi) as [x ->]. Qed.
Lemma total_take_mono w i j : (i <= j)%nat -> total (take i w) <= total (take j w).
Proof.
  intros Hij. rewrite <-(take_drop i (take j w)), total_app, take_take, Nat.min_l by lia. lia.
Qed.

(** The search ends at the first sum above the chosen weight. *)
Lemma binary_search_ok w c fuel : forall left right,
  (right - left < fuel)%nat -> (left <= right <= length w)%nat -> total (take left w) <= c ->
  ((right < length w)%nat -> c < total (take (S right) w)) -> c < total w ->
  exists i, binary_search fuel (sums 0 w) c left right = Ok i /\ (i < length w)%nat /\
    total (take i w) <= c /\ c < total (take (S i) w).
Proof.
  induction fuel as [|fuel IH]; intros left right Hf [Hlr Hrl] Hl Hr Hc; [lia|]. cbn [binary_search].
  case_decide as Hlt.
  - set (mid := (left + (right - left) / 2)%nat).
    assert (left <= mid < right)%nat as Hmid.
    { unfold mid. pose proof (Nat.div_lt (right - left) 2). lia. }
    rewrite lookup_sums by lia. cbn [expect mbind outcome_bind].
    destruct (N.leb_spec (total (take (S mid) w)) c) as [Hle|Hgt]; apply IH; try lia; done.
  - assert (left = right) as -> by lia. exists right. split; [done|].
    destruct (decide (right < length w)%nat) as [Hrw|Hrw]; [by auto|]. rewrite take_ge in Hl by lia. lia.
Qed.

Section choice.
Context (sha3_256_of : bytes -> HashValue).
Definition chosen_weight (round : Round) (w : list N) : N := (next sha3_256_of (to_le_bytes 8 round)).1 mod total w.

Lemma choose_ok proposers w round :
  length w = length proposers -> total w <= u64_max -> 0 < total w ->
  exists i a, LeaderReputation.choose sha3_256_of proposers w round = Ok a /\ proposers !! i = Some a /\
    total (take i w) <= chosen_weight round w /\ chosen_weight round w < total (take (S i) w).
Proof.
  intros Hlen Hmax Hpos. unfold LeaderReputation.choose. rewrite bool_decide_true by done. cbn [assert_ mbind outcome_bind].
  rewrite accumulate_ok by lia. cbn [mbind outcome_bind]. rewrite N.add_0_l.
  rewrite (proj2 (N.eqb_neq _ _)) by lia. cbn [negb assert_ mbind outcome_bind]. fold (chosen_weight round w).
  assert (length (sums 0 w) = length w) as Hsl by apply length_imap. rewrite Hsl.
  assert (chosen_weight round w < total w) as Hc by (apply N.mod_lt; lia).
  destruct (binary_search_ok w (chosen_weight round w) (S (length w)) 0 (length w)) as (i & -> & Hi & Hlo & Hhi); [lia|lia|apply N.le_0_l|intros ?; lia|done|].
  cbn [mbind outcome_bind]. destruct (lookup_lt_is_Some_2 proposers i) as [a Ha]; [lia|]. exists i, a. by rewrite Ha.
Qed.
End choice.

(** ** Counts *)
Section counts.
Definition occurrences (a : Author) (l : list Author) : N := N.of_nat (length (filter (eq a) l)).
Lemma occurrences_cons a x l : occurrences a (x :: l) = (if decide (a = x) then 1 else 0) + occurrences a l.
Proof. unfold occurrences. rewrite filter_cons. case_decide; cbn [length]; lia. Qed.
Lemma occurrences_app a l l' : occurrences a (l ++ l') = occurrences a l + occurrences a l'.
Proof. unfold occurrences. rewrite filter_app, length_app. lia. Qed.

Lemma occurrences_filter a (Q : Author -> Prop) `{!forall x, Decision (Q x)} l : NoDup l -> a ∈ l ->
  occurrences a (filter Q l) = if decide (Q a) then 1 else 0.
Proof.
  induction l as [|x l IH]; intros Hnd Hin; [by apply elem_of_nil in Hin|]. apply NoDup_cons in Hnd as [Hx Hnd].
  rewrite filter_cons. apply elem_of_cons in Hin as [<-|Hin].
  - assert (occurrences a (filter Q l) = 0) as H0.
    { unfold occurrences. destruct (filter (eq a) (filter Q l)) as [|y r] eqn:Hf; [done|]. exfalso.
      assert (y ∈ filter (eq a) (filter Q l)) as [<- [_ ?]%list_elem_of_filter]%list_elem_of_filter by (rewrite Hf; by left). done. }
    case_decide; [rewrite occurrences_cons, decide_True by done; lia|done].
  - assert (a <> x) by (by intros ->). destruct (decide (Q x)); [rewrite occurrences_cons, decide_False by done|]; by apply IH.
Qed.

Lemma count_each_ok l : forall m,
  (forall a, default 0 (m !! a) + N.of_nat (length l) <= u32_max) ->
  exists m', Aggregation.count_each l m = Ok m' /\
    forall a, default 0 (m' !! a) = default 0 (m !! a) + occurrences a l.
Proof.
  induction l as [|x l IH]; intros m Hm; cbn [Aggregation.count_each].
  { exists m. split; [done|]. intros a. unfold occurrences. cbn. lia. }
  assert (forall a, default 0 (<[x := default 0 (m !! x) + 1]> m !! a) = default 0 (m !! a) + (if decide (a = x) then 1 else 0)) as Hins.
  { intros a. case_decide as Hax; [subst; by rewrite lookup_insert_eq|]. rewrite lookup_insert_ne by done. lia. }
  unfold add32. rewrite (proj2 (N.leb_le _ _)) by (specialize (Hm x); cbn in Hm; lia). cbn [assert_ mbind outcome_bind].
  destruct (IH (<[x := default 0 (m !! x) + 1]> m)) as (m' & Hc & Hm').
  { intros a. rewrite Hins. specialize (Hm a). cbn [length] in Hm. case_decide; lia. }
  exists m'. split; [done|]. intros a. rewrite Hm', Hins, occurrences_cons. lia.
Qed.

Definition all_authors (authors : NewBlockEvent -> option (list Author)) (history : list NewBlockEvent) : list Author :=
  mjoin ((fun e => default [] (authors e)) <$> history).
Lemma all_authors_cons authors e history : all_authors authors (e :: history) = default [] (authors e) ++ all_authors authors history.
Proof. done. Qed.
Lemma count_blocks_ok authors history : forall m,
  (forall a, default 0 (m !! a) + N.of_nat (length (all_authors authors history)) <= u32_max) ->
  exists m', Aggregation.count_blocks authors history m = Ok m' /\
    forall a, default 0 (m' !! a) = default 0 (m !! a) + occurrences a (all_authors authors history).
Proof.
  induction history as [|e history IH]; intros m Hm; cbn [Aggregation.count_blocks].
  { exists m. split; [done|]. intros a. unfold occurrences. cbn. lia. }
  setoid_rewrite all_authors_cons in Hm. destruct (count_each_ok (default [] (authors e)) m) as (m1 & Hc & Hm1).
  { intros a. specialize (Hm a). rewrite length_app in Hm. lia. }
  rewrite Hc. cbn [mbind outcome_bind]. assert (forall a (l : list Author), occurrences a l <= N.of_nat (length l)) as Hocc.
  { intros a l. unfold occurrences. pose proof (length_filter (eq a) l). lia. }
  destruct (IH m1) as (m2 & Hc2 & Hm2).
  { intros a. rewrite Hm1. specialize (Hm a). rewrite length_app in Hm. pose proof (Hocc a (default [] (authors e))). lia. }
  exists m2. split; [done|]. intros a. rewrite Hm2, Hm1, all_authors_cons, occurrences_app. lia.
Qed.

(** What the block says of the votes is read back. *)
Lemma bitmap_round_trip {A} (validators : list Author) (voters : gmap N A) :
  Aggregation.bitmap_to_voters validators (Block.voters_to_bitmap validators voters) =
    Some (filter (fun v => is_Some (voters !! v)) validators).
Proof.
  unfold Aggregation.bitmap_to_voters, Block.voters_to_bitmap. rewrite length_fmap, bool_decide_true by done. f_equal.
  induction validators as [|v validators IH]; [done|]. rewrite filter_cons. rewrite <-IH. cbn.
  case_bool_decide; [by rewrite decide_True|by rewrite decide_False].
Qed.
Lemma indices_round_trip {E} (validators : list Author) (failed : list (Round * Author)) indices :
  Block.failed_authors_to_indices (E := E) validators failed = Ok indices ->
  Aggregation.indices_to_validators validators indices = Some failed.*2.
Proof.
  revert indices. induction failed as [|[r a] failed IH]; intros indices; cbn [Block.failed_authors_to_indices].
  { by intros [= <-]. }
  destruct (list_find (eq a) validators) as [[i x]|] eqn:Hf; cbn; [|done].
  unfold assert_. destruct (N.of_nat i <? 2 ^ 32); cbn; [|done].
  destruct (Block.failed_authors_to_indices validators failed) as [l| |] eqn:Hl; cbn; [|done|done]. intros [= <-].
  apply list_find_Some in Hf as (Hi & <- & _). cbn. rewrite Nat2N.id, Hi. cbn. by rewrite (IH l).
Qed.
End counts.

(** ** Sums of counts *)
Section count_sums.
Definition values (m : Counts) : list N := (map_to_list m).*2.
Lemma total_perm l l' : l ≡ₚ l' -> total l = total l'.
Proof. induction 1; cbn; lia. Qed.
Lemma values_insert (m : Counts) x v : total (values (<[x := v]> m)) + default 0 (m !! x) = total (values m) + v.
Proof.
  unfold values. destruct (m !! x) as [c|] eqn:Hx; cbn.
  - rewrite <-(insert_id m x c Hx) at 2. rewrite <-(insert_delete_eq m x v), <-(insert_delete_eq m x c).
    rewrite !(total_perm _ _ (fmap_Permutation _ _ _ (map_to_list_insert _ x _ (lookup_delete_eq m x)))). cbn. lia.
  - rewrite (total_perm _ _ (fmap_Permutation _ _ _ (map_to_list_insert m x v Hx))). cbn. lia.
Qed.
Lemma count_each_total l : forall m m', Aggregation.count_each l m = Ok m' -> total (values m') = total (values m) + N.of_nat (length l).
Proof.
  induction l as [|x l IH]; intros m m'; cbn [Aggregation.count_each]; [intros [= ->]; cbn; lia|].
  unfold add32, assert_. destruct (_ <=? u32_max); cbn [mbind outcome_bind]; [|done]. intros Hc%IH. rewrite Hc.
  pose proof (values_insert m x (default 0 (m !! x) + 1)). cbn [length]. lia.
Qed.
Lemma count_blocks_total authors history : forall m m', Aggregation.count_blocks authors history m = Ok m' ->
  total (values m') = total (values m) + N.of_nat (length (all_authors authors history)).
Proof.
  induction history as [|e history IH]; intros m m'; cbn [Aggregation.count_blocks]; [intros [= ->]; cbn; lia|].
  destruct (Aggregation.count_each _ m) as [m1| |] eqn:Hc; cbn [mbind outcome_bind]; [|done|done]. intros Hb%IH.
  rewrite Hb, (count_each_total _ _ _ Hc), all_authors_cons, length_app. lia.
Qed.
Lemma sum32_ok l : total l <= u32_max -> Aggregation.sum32 l = Ok (total l).
Proof.
  induction l as [|x l IH]; cbn [Aggregation.sum32 total]; intros Hl; [done|]. rewrite IH by lia. cbn [mbind outcome_bind].
  unfold add32. by rewrite (proj2 (N.leb_le _ _)) by lia.
Qed.
End count_sums.

(** ** Weights *)
Section weights.
Implicit Types (self : NewBlockEventAggregation) (history : list NewBlockEvent) (candidates : list Author).

(** What is counted in the windows. *)
Definition votes_in self epoch candidates history : list Author :=
  all_authors (fun meta => Aggregation.bitmap_to_voters candidates (nbe_previous_block_votes meta))
    (Aggregation.history_iter history epoch (ag_voter_window_size self)).
Definition proposals_in self epoch history : list Author :=
  nbe_proposer <$> Aggregation.history_iter history epoch (ag_proposer_window_size self).
Definition failures_in self epoch candidates history : list Author :=
  all_authors (fun meta => Aggregation.indices_to_validators candidates (nbe_failed_proposer_indices meta))
    (Aggregation.history_iter history epoch (ag_proposer_window_size self)).

Lemma all_authors_proposer l : all_authors (fun meta => Some [nbe_proposer meta]) l = nbe_proposer <$> l.
Proof. induction l as [|e l IH]; [done|]. rewrite all_authors_cons, IH. done. Qed.

(** No window has more entries than can be counted. *)
Definition countable_windows self epoch candidates history : Prop :=
  N.of_nat (length (votes_in self epoch candidates history)) <= u32_max /\
  100 * (N.of_nat (length (proposals_in self epoch history)) + N.of_nat (length (failures_in self epoch candidates history))) <= u32_max.

Lemma metrics_ok self epoch candidates history : countable_windows self epoch candidates history ->
  exists votes proposals failed, Aggregation.get_aggregated_metrics self epoch candidates history = Ok (votes, proposals, failed) /\
    (forall a, default 0 (votes !! a) = occurrences a (votes_in self epoch candidates history)) /\
    (forall a, default 0 (proposals !! a) = occurrences a (proposals_in self epoch history)) /\
    (forall a, default 0 (failed !! a) = occurrences a (failures_in self epoch candidates history)).
Proof.
  intros [Hv Hpf]. unfold Aggregation.get_aggregated_metrics, Aggregation.count_votes, Aggregation.count_proposals, Aggregation.count_failed_proposals.
  destruct (count_blocks_ok (fun meta => Aggregation.bitmap_to_voters candidates (nbe_previous_block_votes meta))
    (Aggregation.history_iter history epoch (ag_voter_window_size self)) ∅) as (votes & Hcv & Hvotes).
  { intros a. rewrite lookup_empty. cbn. unfold votes_in in Hv. lia. }
  rewrite Hcv. cbn [mbind outcome_bind].
  destruct (count_blocks_ok (fun meta => Some [nbe_proposer meta])
    (Aggregation.history_iter history epoch (ag_proposer_window_size self)) ∅) as (props & Hcp & Hprops).
  { intros a. rewrite lookup_empty, all_authors_proposer. cbn [default]. unfold proposals_in in Hpf. lia. }
  rewrite Hcp. cbn [mbind outcome_bind].
  destruct (count_blocks_ok (fun meta => Aggregation.indices_to_validators candidates (nbe_failed_proposer_indices meta))
    (Aggregation.history_iter history epoch (ag_proposer_window_size self)) ∅) as (failed & Hcf & Hfailed).
  { intros a. rewrite lookup_empty. cbn [default]. unfold failures_in in Hpf. lia. }
  rewrite Hcf. cbn [mbind outcome_bind].
  apply count_blocks_total in Hcp, Hcf. rewrite all_authors_proposer in Hcp.
  assert (total (values ∅) = 0) as Hz by done. rewrite Hz in *. fold (values props) (values failed).
  unfold proposals_in, failures_in in Hpf. rewrite !sum32_ok by lia. cbn [mbind outcome_bind].
  exists votes, props, failed. split; [done|]. rewrite all_authors_proposer in Hprops.
  split_and!; intros a; [rewrite Hvotes|rewrite Hprops|rewrite Hfailed]; by rewrite lookup_empty, N.add_0_l.
Qed.

(** The weight of a candidate, as the documentation of the heuristic has it. *)
Definition reputation (self : ProposerAndVoterHeuristic) epoch candidates history (a : Author) : N :=
  let failed := occurrences a (failures_in (pv_aggregation self) epoch candidates history) in
  let proposed := occurrences a (proposals_in (pv_aggregation self) epoch history) in
  let voted := occurrences a (votes_in (pv_aggregation self) epoch candidates history) in
  if (proposed + failed) * pv_failure_threshold_percent self <? failed * 100 then pv_failed_weight self
  else if (0 <? proposed) || (0 <? voted) then pv_active_weight self
  else pv_inactive_weight self.

Lemma occurrences_le a l : occurrences a l <= N.of_nat (length l).
Proof. unfold occurrences. pose proof (length_filter (eq a) l). lia. Qed.

Lemma weigh_ok (f : Author -> result N) g l : (forall a, f a = Ok (g a)) -> weigh f l = Ok (g <$> l).
Proof. intros Hf. induction l as [|a l IH]; [done|]. cbn [weigh]. by rewrite Hf, IH. Qed.
Lemma weights_ok (self : ProposerAndVoterHeuristic) epoch candidates history :
  countable_windows (pv_aggregation self) epoch candidates history -> pv_failure_threshold_percent self <= 100 ->
  get_weights self epoch candidates history = Ok (reputation self epoch candidates history <$> candidates).
Proof.
  intros Hc Ht. unfold get_weights, proposer_and_voter_weights.
  destruct (metrics_ok _ _ _ _ Hc) as (votes & props & failed & -> & Hv & Hp & Hf). cbn [mbind outcome_bind].
  apply weigh_ok. intros a. rewrite Hv, Hp, Hf. destruct Hc as [_ Hc].
  pose proof (occurrences_le a (failures_in (pv_aggregation self) epoch candidates history)) as Hlf.
  pose proof (occurrences_le a (proposals_in (pv_aggregation self) epoch history)) as Hlp.
  unfold reputation. set (f := occurrences a (failures_in _ _ _ _)) in *. set (p := occurrences a (proposals_in _ _ _)) in *.
  assert ((p + f) * pv_failure_threshold_percent self <= u32_max) by nia.
  unfold mul32, add32. rewrite (proj2 (N.leb_le (f * 100) _)) by lia. cbn [assert_ mbind outcome_bind].
  rewrite (proj2 (N.leb_le (p + f) _)) by lia. cbn [assert_ mbind outcome_bind]. by rewrite (proj2 (N.leb_le _ _)) by done.
Qed.
End weights.

(** ** Proposals of a round *)
Section unequivocal.
Context {P : Type} `{!ProposerElection P}.

Fixpoint validate_all (blocks : list Block) : method (UnequivocalProposerElection P) AnyError (list bool) :=
  match blocks with
  | [] => mret []
  | block :: blocks =>
      valid ← Unequivocal.is_valid_proposal block;
      rest ← validate_all blocks;
      mret (valid :: rest)
  end.

(** What is accepted is not before the last proposal, and is that one in its round. *)
Lemma valid_proposal self block self' : Unequivocal.is_valid_proposal block self = (Ok true, self') ->
  (ue_already_proposed self).1 <= Block.round block /\
  ((ue_already_proposed self).1 = Block.round block -> (ue_already_proposed self).2 = b_id block) /\
  ue_already_proposed self' = (Block.round block, b_id block).
Proof.
  unfold Unequivocal.is_valid_proposal. destruct (Block.author block) as [author|]; [|done].
  unfold mbind, method_bind, is_valid_proposer, mbind, method_bind.
  unfold get_valid_proposer at 1, Unequivocal.unequivocal_election, on.
  destruct (get_valid_proposer (Block.round block) (ue_proposer_election self)) as [[a| |] p]; [|done|done]. cbn.
  destruct (a =? author); [|done]. cbn. destruct (N.compare_spec (Block.round block) (ue_already_proposed self).1) as [Heq|Hlt|Hgt].
  - intros [= Hid <-]. apply N.eqb_eq in Hid. split_and!; [lia|done|]. cbn. destruct (ue_already_proposed self). cbn in *. congruence.
  - done.
  - intros [= <-]. split_and!; [lia|lia|done].
Qed.
Lemma invalid_proposal self block self' : Unequivocal.is_valid_proposal block self = (Ok false, self') ->
  ue_already_proposed self' = ue_already_proposed self.
Proof.
  unfold Unequivocal.is_valid_proposal. destruct (Block.author block) as [author|]; [|by intros [= <-]].
  unfold mbind, method_bind, is_valid_proposer, mbind, method_bind.
  unfold get_valid_proposer at 1, Unequivocal.unequivocal_election, on.
  destruct (get_valid_proposer (Block.round block) (ue_proposer_election self)) as [[a| |] p]; [|done|done]. cbn.
  destruct (a =? author); cbn; [|by intros [= <-]]. destruct (_ ?= _); [|by intros [= <-]|done]. by intros [= _ <-].
Qed.

Lemma validated_later blocks : forall self oks self', validate_all blocks self = (Ok oks, self') ->
  forall i block, blocks !! i = Some block -> oks !! i = Some true ->
    (ue_already_proposed self).1 <= Block.round block /\
    ((ue_already_proposed self).1 = Block.round block -> (ue_already_proposed self).2 = b_id block).
Proof.
  induction blocks as [|b blocks IH]; intros self oks self' Hrun i block Hb Hok; [done|]. cbn [validate_all] in Hrun.
  unfold mbind, method_bind in Hrun. destruct (Unequivocal.is_valid_proposal b self) as [[v| |] self1] eqn:Hv; [|done|done].
  destruct (validate_all blocks self1) as [[rest| |] self2] eqn:Hrest; [|done|done]. injection Hrun as <- <-.
  destruct i as [|i]; cbn in Hb, Hok.
  - injection Hb as ->. injection Hok as ->. by apply valid_proposal in Hv as (? & ? & _).
  - destruct (IH _ _ _ Hrest i block Hb Hok) as [Hle Heq]. destruct v.
    + apply valid_proposal in Hv as (Hle1 & Heq1 & Hap). rewrite Hap in Hle, Heq. cbn in Hle, Heq. split; [lia|].
      intros Hr. rewrite Heq1 by lia. apply Heq. lia.
    + apply invalid_proposal in Hv. by rewrite Hv in Hle, Heq.
Qed.
Lemma validated_once blocks : forall self oks self', validate_all blocks self = (Ok oks, self') ->
  forall i j block block', (i < j)%nat -> blocks !! i = Some block -> blocks !! j = Some block' ->
    oks !! i = Some true -> oks !! j = Some true ->
    Block.round block <= Block.round block' /\ (Block.round block = Block.round block' -> b_id block = b_id block').
Proof.
  induction blocks as [|b blocks IH]; intros self oks self' Hrun i j block block' Hij Hi Hj Hoki Hokj; [done|].
  cbn [validate_all] in Hrun. unfold mbind, method_bind in Hrun.
  destruct (Unequivocal.is_valid_proposal b self) as [[v| |] self1] eqn:Hv; [|done|done].
  destruct (validate_all blocks self1) as [[rest| |] self2] eqn:Hrest; [|done|done]. injection Hrun as <- <-.
  destruct j as [|j]; [lia|]. destruct i as [|i]; cbn in *; [|by eapply (IH _ _ _ Hrest i j); [lia|..]].
  injection Hi as ->. injection Hoki as ->. apply valid_proposal in Hv as (_ & _ & Hap).
  pose proof (validated_later _ _ _ _ Hrest j block' Hj Hokj) as Hl. by rewrite Hap in Hl.
Qed.
End unequivocal.

(** ** Elections that agree *)

(** An election that finds the leader [leader round] for every round, in all states that
    [fits] admits. *)
Class Elects (P : Type) `{!ProposerElection P} (leader : Round -> Author) (fits : P -> Prop) : Prop :=
  elects round p : fits p -> exists p', get_valid_proposer round p = (Ok (leader round), p') /\ fits p'.

Section elections.
Context {P : Type} `{!ProposerElection P} (leader : Round -> Author) (fits : P -> Prop) `{!Elects P leader fits}.

Fixpoint query_all `{!ProposerElection Q} (rounds : list Round) : method Q AnyError (list Author) :=
  match rounds with
  | [] => mret []
  | round :: rounds => author ← get_valid_proposer round; rest ← query_all rounds; mret (author :: rest)
  end.
Lemma query_all_ok `{!ProposerElection Q} `{!Elects Q leader fits'} rounds : forall q : Q, fits' q ->
  exists q', query_all rounds q = (Ok (leader <$> rounds), q') /\ fits' q'.
Proof.
  induction rounds as [|round rounds IH]; intros q Hq; cbn [query_all]; [by exists q|].
  destruct (elects round q Hq) as (q1 & Hq1 & Hfit1). destruct (IH q1 Hfit1) as (q2 & Hq2 & Hfit2).
  exists q2. unfold mbind, method_bind. by rewrite Hq1, Hq2.
Qed.

(** The cache has choices of the election. *)
Definition cache_fits (self : CachedProposerElection P) : Prop :=
  fits (ca_proposer_election self) /\
  forall round author, ca_recent_elections self !! round = Some author -> author = leader round.
#[global] Instance cached_elects : Elects (CachedProposerElection P) leader cache_fits.
Proof.
  intros round self [Hp Hfit]. unfold get_valid_proposer, cached_election, mbind, method_bind, puts, gets.
  set (self1 := if ca_window self <? round then _ else self).
  assert (ca_proposer_election self1 = ca_proposer_election self /\ cache_fits self1) as [Hp1 Hfit1].
  { unfold self1. destruct (ca_window self <? round); [|done]. split; [done|]. split; [done|].
    intros r a [Ha _]%map_lookup_filter_Some. by apply Hfit. }
  destruct (ca_recent_elections self1 !! round) as [author|] eqn:Hrec.
  - exists self1. split; [|done]. by apply Hfit1 in Hrec as ->.
  - unfold on. rewrite Hp1. destruct (elects round _ Hp) as (p' & -> & Hp'). eexists. split; [done|]. split; [done|]. cbn.
    intros r a [[<- <-]|[_ Ha]]%lookup_insert_Some; [done|by apply Hfit1].
Qed.
Lemma cached_new_fits p window : fits p -> cache_fits (cached_new p window).
Proof. intros Hp. split; [done|]. intros r a. cbn. by rewrite lookup_empty. Qed.

#[global] Instance unequivocal_elects :
  Elects (UnequivocalProposerElection P) leader (fun self => fits (ue_proposer_election self)).
Proof.
  intros round self Hp. unfold get_valid_proposer, Unequivocal.unequivocal_election, on.
  destruct (elects round _ Hp) as (p' & -> & Hp'). by eexists.
Qed.
End elections.

Definition rotation (proposers : list Author) (contiguous_rounds : N) (round : Round) : Author :=
  default 0 (proposers !! N.to_nat ((round / contiguous_rounds) mod N.of_nat (length proposers))).
#[global] Instance rotating_elects proposers contiguous_rounds :
  Elects RotatingProposer (rotation proposers contiguous_rounds)
    (fun self => self = mkRotatingProposer proposers contiguous_rounds /\ proposers <> [] /\ contiguous_rounds <> 0).
Proof.
  intros round self (-> & Hne & Hc). eexists. split; [|done]. unfold get_valid_proposer, rotating_election, gets, rotation. cbn.
  rewrite (proj2 (N.eqb_neq _ _) Hc). assert (N.of_nat (length proposers) <> 0) as Hl by (destruct proposers; [done|cbn; lia]).
  rewrite (proj2 (N.eqb_neq _ _) Hl). cbn [negb assert_ mbind outcome_bind].
  destruct (lookup_lt_is_Some_2 proposers (N.to_nat ((round / contiguous_rounds) mod N.of_nat (length proposers)))) as [a ->]; [|done].
  pose proof (N.mod_lt (round / contiguous_rounds) _ Hl). lia.
Qed.

(** ** Histories that differ in the votes of their newest blocks *)
Definition same_but_votes (e e' : NewBlockEvent) : Prop :=
  nbe_epoch e = nbe_epoch e' /\ nbe_proposer e = nbe_proposer e' /\ nbe_failed_proposer_indices e = nbe_failed_proposer_indices e'.

Lemma count_blocks_ext authors l l' map : Forall2 (fun e e' => authors e = authors e') l l' ->
  Aggregation.count_blocks authors l map = Aggregation.count_blocks authors l' map.
Proof.
  intros Hl. revert map. induction Hl as [|e e' l l' He _ IH]; intros map; [done|]. cbn. rewrite He.
  by destruct (Aggregation.count_each _ map); cbn.
Qed.
Lemma history_iter_Forall2 (P : NewBlockEvent -> NewBlockEvent -> Prop) h h' epoch n :
  (forall e e', P e e' -> nbe_epoch e = nbe_epoch e') -> length h = length h' ->
  Forall2 P (drop (length h - N.to_nat n) h) (drop (length h' - N.to_nat n) h') ->
  Forall2 P (Aggregation.history_iter h epoch n) (Aggregation.history_iter h' epoch n).
Proof.
  intros Hep Hlen Hl. unfold Aggregation.history_iter.
  induction Hl as [|e e' l l' He _ IH]; [constructor|]. pose proof (Hep _ _ He) as Heq.
  destruct (decide (nbe_epoch e = epoch)).
  - rewrite !filter_cons_True by congruence. by constructor.
  - rewrite !filter_cons_False by congruence. done.
Qed.

(** All but the votes of the blocks before the voter window count. *)
Lemma weights_votes (h : ProposerAndVoterHeuristic) epoch candidates l l' :
  Forall2 same_but_votes l l' ->
  (forall i e e', (length l - N.to_nat (ag_voter_window_size (pv_aggregation h)) <= i)%nat -> l !! i = Some e -> l' !! i = Some e' ->
     nbe_previous_block_votes e = nbe_previous_block_votes e') ->
  get_weights h epoch candidates l = get_weights h epoch candidates l'.
Proof.
  intros Hl Hvotes. pose proof (Forall2_length _ _ _ Hl) as Hlen.
  assert (forall n, Forall2 same_but_votes (Aggregation.history_iter l epoch n) (Aggregation.history_iter l' epoch n)) as Hiter.
  { intros n. apply history_iter_Forall2; [by intros ?? [? _]|done|]. rewrite Hlen. by apply Forall2_drop. }
  set (n := ag_voter_window_size (pv_aggregation h)) in *.
  assert (Forall2 (fun e e' => nbe_epoch e = nbe_epoch e' /\ nbe_previous_block_votes e = nbe_previous_block_votes e')
    (Aggregation.history_iter l epoch n) (Aggregation.history_iter l' epoch n)) as Hv.
  { apply history_iter_Forall2; [by intros ?? [? _]|done|]. apply Forall2_same_length_lookup_2; [rewrite !length_drop; lia|].
    intros i e e'. rewrite !lookup_drop. intros He He'. rewrite <-Hlen in He'. split; [|eapply Hvotes; [|exact He|exact He']; lia].
    by destruct (Forall2_lookup_lr _ _ _ _ _ _ Hl He He'). }
  assert (Aggregation.count_votes (pv_aggregation h) epoch candidates l = Aggregation.count_votes (pv_aggregation h) epoch candidates l') as H1.
  { apply count_blocks_ext. eapply Forall2_impl; [exact Hv|]. by intros ?? [_ ->]. }
  assert (Aggregation.count_proposals (pv_aggregation h) epoch l = Aggregation.count_proposals (pv_aggregation h) epoch l') as H2.
  { apply count_blocks_ext. eapply Forall2_impl; [apply Hiter|]. by intros ?? (_ & -> & _). }
  assert (Aggregation.count_failed_proposals (pv_aggregation h) epoch candidates l =
    Aggregation.count_failed_proposals (pv_aggregation h) epoch candidates l') as H3.
  { apply count_blocks_ext. eapply Forall2_impl; [apply Hiter|]. by intros ?? (_ & _ & ->). }
  unfold get_weights, proposer_and_voter_weights, Aggregation.get_aggregated_metrics. by rewrite H1, H2, H3.
Qed.

(** What a new backend reads: the newest blocks of the epoch up to the target round. *)
Definition read_history (epoch window : N) (target : Round) (events : list NewBlockEvent) : list NewBlockEvent :=
  take (N.to_nat window) (filter (fun e => nbe_round e <= target) (filter (fun e => nbe_epoch e = epoch) events)).
Lemma fresh_backend {D} `{!BlockEventReader D} `{Bcs NewBlockEvent} epoch window seek (d : D) target raw events version :
  window + seek <= u64_max -> get_latest_version d = Ok version -> 0 < version ->
  get_new_block_events d (window + seek) = Ok raw -> collect_events raw = Ok events ->
  exists b, get_block_metadata target (AptosDBBackend.new epoch window seek d) = (Ok (read_history epoch window target events), b).
Proof.
  intros Hlim Hver Hpos Hraw Hev. unfold get_block_metadata, AptosDBBackend.db_backend. cbn. rewrite Hver.
  rewrite (proj2 (N.ltb_lt _ _)) by done. cbn [negb andb].
  unfold AptosDBBackend.refresh_db_result, mbind, method_bind, gets, puts. cbn.
  assert (add64 (E := AnyError) window seek = Ok (window + seek)) as -> by (by apply add64_Ok). rewrite Hraw, Hev. by eexists.
Qed.

(** The first question to an election with a cache. *)
Lemma cached_new_first {P} (inner : ProposerElection P) (p : P) window round :
  (@cached_election _ inner round (cached_new p window)).1 = (@get_valid_proposer _ inner round p).1.
Proof.
  unfold cached_election, mbind, method_bind, puts, gets, on, mret, method_ret. cbn.
  destruct (window <? round); cbn; rewrite ?map_filter_empty, lookup_empty; unfold get_valid_proposer; cbn [ca_proposer_election set_recent cached_new]; by destruct (inner round p) as [[a|e|] p'].
Qed.

(** An election by reputation, as it is created. *)
Lemma created_reputation {D} `{!BlockEventReader D} `{Bcs NewBlockEvent} sha3_256_of author epoch_state onchain_config config
    (d : D) election round raw events version :
  let proposers := Verifier.get_ordered_account_addresses_iter (es_verifier epoch_state) in
  let len := N.of_nat (length proposers) in
  let window := len * pvc_proposer_window_num_validators_multiplier config in
  let voter_window := len * pvc_voter_window_num_validators_multiplier config in
  let limit := window + (oc_exclude_round onchain_config + oc_max_failed_authors_to_store onchain_config + 10) in
  oc_proposer_election_type onchain_config = ElectByReputation (ProposerAndVoter config) -> voter_window <= window -> limit <= u64_max ->
  create_proposer_election author epoch_state onchain_config d = Ok election ->
  get_latest_version d = Ok version -> 0 < version -> get_new_block_events d limit = Ok raw -> collect_events raw = Ok events ->
  exists h, h = proposer_and_voter_new author (pvc_active_weight config) (pvc_inactive_weight config) (pvc_failed_weight config)
      (pvc_failure_threshold_percent config) voter_window window /\
    fst (any_election sha3_256_of round election) =
      (weights ← get_weights h (es_epoch epoch_state) proposers
         (read_history (es_epoch epoch_state) window (round - oc_exclude_round onchain_config) events);
       LeaderReputation.choose sha3_256_of proposers weights round).
Proof.
  intros proposers len window voter_window limit Htype Hle Hlim Hcreate Hver Hpos Hraw Hev. eexists. split; [done|].
  unfold create_proposer_election in Hcreate. rewrite Htype in Hcreate. fold proposers len in Hcreate.
  unfold limit in Hlim, Hraw.
  apply bind_Ok in Hcreate as (? & [-> _]%mul64_Ok & (? & [-> _]%mul64_Ok & (e & He & [= <-])%bind_Ok)%bind_Ok).
  fold window voter_window in He. rewrite N.max_l in He by done. unfold create_leader_reputation in He.
  apply bind_Ok in He as (? & [-> _]%add64_Ok & (? & [-> _]%add64_Ok & (lr & Hlr & (w & _ & [= <-])%bind_Ok)%bind_Ok)%bind_Ok).
  apply bind_Ok in Hlr as (? & _ & [= <-]).
  destruct (fresh_backend (es_epoch epoch_state) window _ d (round - oc_exclude_round onchain_config) raw events version Hlim Hver Hpos Hraw Hev)
    as [b Hb].
  unfold any_election, on_cached.
  match goal with |- context [cached_election round ?c] => destruct (cached_election round c) as [r c'] eqn:Hc end.
  transitivity r; [done|]. apply (f_equal fst) in Hc. cbn in Hc. rewrite <-Hc, cached_new_first.
  unfold get_valid_proposer, LeaderReputation.reputation_election, mbind, method_bind, gets, on. cbn [lr_exclude_round lr_backend].
  unfold PROPSER_ROUND_BEHIND_STORAGE_BUFFER. rewrite Hb. cbn [LeaderReputation.set_backend lr_heuristic lr_epoch lr_proposers].
  by destruct (get_weights _ _ _ _).
Qed.

(** ** Three validators and a short ledger *)
Module LeaderExample.
(** A database of rounds and proposers, the newest first; validators 1 and 2 vote. *)
Definition Db : Type := list (Round * Author).
#[global] Instance db_reader : BlockEventReader Db := {|
  get_latest_version := fun d => Ok (N.of_nat (length d));
  get_new_block_events := fun d limit => Ok ((fun e => (e.1, [e.1; e.2])) <$> take (N.to_nat limit) d);
|}.
#[global] Instance event_bcs : Bcs NewBlockEvent := {|
  bcs_to_bytes := fun e => Ok [nbe_round e; nbe_proposer e];
  bcs_from_bytes := fun data =>
    match data with
    | [round; proposer] => Ok (mkNewBlockEvent 1 round round [true; true; false] proposer [] round)
    | [round; proposer; vote3] => Ok (mkNewBlockEvent 1 round round [true; true; vote3 =? 1] proposer [] round)
    | _ => Err (Msg "Unexpected data")
    end;
|}.
Definition heuristic : ProposerAndVoterHeuristic := proposer_and_voter_new 1 100 10 1 10 1 2.
Definition reputation_of (d : Db) : LeaderReputation (AptosDBBackend Db) ProposerAndVoterHeuristic :=
  mkLeaderReputation 1 [1; 2; 3] (AptosDBBackend.new 1 5 5 d) heuristic 2.
(** Validator 3 has proposed the newest block, or not. *)
Definition with3 : Db := [(7, 3); (6, 1); (4, 2); (2, 1)].
Definition without3 : Db := [(7, 1); (6, 1); (4, 2); (2, 1)].
Definition sha3 : bytes -> HashValue := fun _ => 2 ^ 255.
Definition event (r a : N) : NewBlockEvent := mkNewBlockEvent 1 r r [true; true; false] a [] r.
Definition history (a : Author) : list NewBlockEvent := [event 7 a; event 6 1; event 4 2; event 2 1].
Definition read (d : Db) : AptosDBBackend Db := snd (get_block_metadata 8 (AptosDBBackend.new 1 5 5 d)).
Lemma read_with3 : get_block_metadata 8 (AptosDBBackend.new 1 5 5 with3) = (Ok (history 3), read with3).
Proof. by vm_compute. Qed.

(** Rounds, proposers and whether validator 3 has voted: it did, or did not, in the two newest blocks. *)
Definition VoteDb : Type := list (Round * Author * N).
#[global] Instance vote_db_reader : BlockEventReader VoteDb := {|
  get_latest_version := fun d => Ok (N.of_nat (length d));
  get_new_block_events := fun d limit => Ok ((fun e => (e.1.1, [e.1.1; e.1.2; e.2])) <$> take (N.to_nat limit) d);
|}.
Definition voted3 : VoteDb := [(7, 2, 1); (6, 1, 1); (4, 2, 0); (3, 1, 0); (2, 1, 0)].
Definition absent3 : VoteDb := [(7, 2, 0); (6, 1, 0); (4, 2, 0); (3, 1, 0); (2, 1, 0)].
Definition vote_event (r a : N) (vote3 : bool) : NewBlockEvent := mkNewBlockEvent 1 r r [true; true; vote3] a [] r.
Definition vote_history (vote3 : bool) : list NewBlockEvent :=
  [vote_event 7 2 vote3; vote_event 6 1 vote3; vote_event 4 2 false; vote_event 3 1 false; vote_event 2 1 false].
Definition validator_set : gmap N ValidatorConsensusInfo :=
  list_to_map ((fun a => (a, mkValidatorConsensusInfo a 1)) <$> [1; 2; 3]).
Definition epoch_state : EpochState := mkEpochState 1 (mkValidatorVerifier validator_set 3 3).
Definition elected (d : VoteDb) : option (AnyElection VoteDb) :=
  match create_proposer_election 1 epoch_state OnChainConsensusConfig.default_config d with Ok e => Some e | _ => None end.

(** The same leader twice in round 5. *)
Definition qc : QuorumCert :=
  let info := mkBlockInfo 1 0 0 0 0 0 None in
  mkQuorumCert (mkVoteData info info) (mkLedgerInfoWithSignatures (mkLedgerInfo info 0) ∅).
Definition block (id : HashValue) (round : Round) : Block :=
  mkBlock id (BlockData.new_proposal Payload.new_empty 2 [] round 10 qc) None.
Definition rotating : RotatingProposer := mkRotatingProposer [1; 2] 1.
End LeaderExample.

Module LeaderElectionProps.
(** C15: the leader is chosen by reputation.  Whatever the history, an election by successful
    and failed proposals and votes returns a proposer, and does not panic, as long as there
    are proposers, the weights are positive and their sum fits 64 bits, the threshold is at
    most 100 percent and the windows have at most 2^32 / 100 entries.  The weight of a validator is the one that the documentation gives for the
    number of its failed proposals, proposals and votes in the windows; and the round's
    random number, taken modulo the sum of the weights, is in the leader's share of that
    sum, so that each validator leads in proportion to its weight. *)
Theorem leader_elected_by_reputation {B} `{!MetadataBackend B} (sha3_256_of : bytes -> HashValue)
    (self : LeaderReputation B ProposerAndVoterHeuristic) (round : Round) (history : list NewBlockEvent) (b : B) :
  let h := lr_heuristic self in
  let weights := reputation h (lr_epoch self) (lr_proposers self) history <$> lr_proposers self in
  get_block_metadata (round - lr_exclude_round self) (lr_backend self) = (Ok history, b) ->
  countable_windows (pv_aggregation h) (lr_epoch self) (lr_proposers self) history -> pv_failure_threshold_percent h <= 100 ->
  lr_proposers self <> [] -> 0 < pv_failed_weight h -> 0 < pv_inactive_weight h -> 0 < pv_active_weight h ->
  total weights <= u64_max ->
  exists i a, LeaderReputation.reputation_election sha3_256_of round self = (Ok a, LeaderReputation.set_backend b self) /\
    lr_proposers self !! i = Some a /\
    total (take i weights) <= (next sha3_256_of (to_le_bytes 8 round)).1 mod total weights /\
    (next sha3_256_of (to_le_bytes 8 round)).1 mod total weights < total (take (S i) weights).
Proof.
  intros h weights Hback Hc Ht Hne Hf Hi Ha Hmax.
  assert (0 < total weights) as Hpos.
  { unfold weights. destruct (lr_proposers self) as [|p l]; [done|]. cbn. unfold reputation at 1. repeat case_match; lia. }
  destruct (choose_ok sha3_256_of (lr_proposers self) weights round) as (i & a & Hch & Hia & Hlo & Hhi);
    [apply length_fmap|done|done|].
  exists i, a. split; [|done]. unfold LeaderReputation.reputation_election, mbind, method_bind, gets, on. rewrite Hback.
  cbn [LeaderReputation.set_backend lr_heuristic lr_epoch lr_proposers]. fold h.
  rewrite (weights_ok h _ _ _ Hc Ht). fold weights. by rewrite Hch.
Qed.

Lemma leader_elected_by_reputation_witness :
  exists i a, LeaderReputation.reputation_election LeaderExample.sha3 10 (LeaderExample.reputation_of LeaderExample.with3) =
    (Ok a, LeaderReputation.set_backend (LeaderExample.read LeaderExample.with3) (LeaderExample.reputation_of LeaderExample.with3)) /\
  [1; 2; 3] !! i = Some a.
Proof.
  destruct (leader_elected_by_reputation LeaderExample.sha3 (LeaderExample.reputation_of LeaderExample.with3) 10 (LeaderExample.history 3)
    (LeaderExample.read LeaderExample.with3) LeaderExample.read_with3) as (i & a & Hel & Ha & _); try by vm_compute.
  exists i, a. split; [exact Hel|exact Ha].
Defined.

(** C16: a leader's second proposal is refused.  In any sequence of proposals that are put to
    [is_valid_proposal], two that are accepted in the same round are the same block, and the
    rounds of accepted proposals do not go back; whatever the underlying election does. *)
Theorem one_proposal_per_round {P} `{!ProposerElection P} (self self' : UnequivocalProposerElection P) (blocks : list Block)
    (oks : list bool) (i j : nat) (block block' : Block) :
  validate_all blocks self = (Ok oks, self') -> (i < j)%nat -> blocks !! i = Some block -> blocks !! j = Some block' ->
  oks !! i = Some true -> oks !! j = Some true ->
  Block.round block <= Block.round block' /\ (Block.round block = Block.round block' -> b_id block = b_id block').
Proof. intros Hrun Hij Hi Hj Hoki Hokj. by eapply validated_once. Qed.

Lemma one_proposal_per_round_witness :
  exists self', validate_all [LeaderExample.block 70 5; LeaderExample.block 71 5; LeaderExample.block 70 5]
    (Unequivocal.new LeaderExample.rotating) = (Ok [true; false; true], self') /\
  (Block.round (LeaderExample.block 70 5) = Block.round (LeaderExample.block 70 5) -> b_id (LeaderExample.block 70 5) = b_id (LeaderExample.block 70 5)).
Proof.
  eexists. split; [by vm_compute|].
  eapply (one_proposal_per_round (Unequivocal.new LeaderExample.rotating) _ [LeaderExample.block 70 5; LeaderExample.block 71 5; LeaderExample.block 70 5]
    [true; false; true] 0 2 (LeaderExample.block 70 5) (LeaderExample.block 70 5)); [by vm_compute|lia|done|done|done|done].
Defined.

(** The cache is transparent: in any sequence of queries it answers as the election does that
    it stands for. *)
Theorem cached_election_transparent `{!ProposerElection P} `{!Elects P leader fits} (p : P) (window : N) (rounds : list Round) :
  fits p -> fst (query_all rounds (cached_new p window)) = fst (query_all rounds p).
Proof.
  intros Hp. destruct (query_all_ok leader rounds (cached_new p window)) as (c' & -> & _); [by apply cached_new_fits|].
  by destruct (query_all_ok leader rounds p Hp) as (p' & -> & _).
Qed.

(** Rotation: proposer [j] leads exactly the rounds [c * (n * k + j)] to [c * (n * k + j) + c - 1]. *)
Theorem rotation_fair (self : RotatingProposer) (k j i : N) (a : Author) :
  let c := rp_contiguous_rounds self in
  let n := N.of_nat (length (rp_proposers self)) in
  i < c -> rp_proposers self !! N.to_nat j = Some a ->
  get_valid_proposer (c * (n * k + j) + i) self = (Ok a, self).
Proof.
  intros c n Hi Hj. assert (j < n) as Hjn by (apply lookup_lt_Some in Hj; lia).
  unfold get_valid_proposer, rotating_election, gets. fold c n. rewrite (proj2 (N.eqb_neq c 0)) by lia.
  rewrite (proj2 (N.eqb_neq n 0)) by lia. cbn [negb assert_ mbind outcome_bind]. do 2 f_equal.
  assert ((c * (n * k + j) + i) / c = n * k + j) as ->.
  { symmetry. by apply (N.div_unique _ _ _ i). }
  assert ((n * k + j) mod n = j) as ->; [|by rewrite Hj].
  symmetry. by apply (N.mod_unique _ _ k).
Qed.

(** Votes are read back from the ledger: the count of a validator's votes is the number of
    blocks in the window whose certificate it signed. *)
Theorem votes_read_back {A} (self : NewBlockEventAggregation) (epoch : N) (candidates : list Author) (history : list NewBlockEvent)
    (signatures : list (gmap N A)) :
  NoDup candidates -> N.of_nat (length history) <= ag_voter_window_size self ->
  N.of_nat (length history * length candidates) <= u32_max ->
  Forall2 (fun e sigs => nbe_epoch e = epoch /\ nbe_previous_block_votes e = Block.voters_to_bitmap candidates sigs) history signatures ->
  exists votes, Aggregation.count_votes self epoch candidates history = Ok votes /\
    forall v, v ∈ candidates -> default 0 (votes !! v) = N.of_nat (length (filter (fun sigs => is_Some (sigs !! v)) signatures)).
Proof.
  intros Hnd Hw Hmax Hall. set (authors := fun meta => Aggregation.bitmap_to_voters candidates (nbe_previous_block_votes meta)).
  assert (Aggregation.history_iter history epoch (ag_voter_window_size self) = history) as Hit.
  { unfold Aggregation.history_iter. replace (length history - _)%nat with 0%nat by lia. rewrite drop_0. clear -Hall.
    induction Hall as [|e s l l' [He _] _ IH]; [done|]. by rewrite filter_cons_True, IH. }
  unfold Aggregation.count_votes. rewrite Hit. fold authors.
  assert (forall v, v ∈ candidates -> occurrences v (all_authors authors history) =
    N.of_nat (length (filter (fun sigs => is_Some (sigs !! v)) signatures))) as Hocc.
  { intros v Hv. clear -Hall Hnd Hv. induction Hall as [|e s l l' [_ He] _ IH]; [done|]. rewrite all_authors_cons, occurrences_app, IH.
    unfold authors. rewrite He, bitmap_round_trip. cbn [from_option]. unfold id. rewrite filter_cons.
    rewrite occurrences_filter by done. case_decide; cbn [length]; lia. }
  destruct (count_blocks_ok authors history ∅) as (votes & Hc & Hv); [|exists votes; split; [done|]; intros v Hin; rewrite Hv, lookup_empty; by apply Hocc].
  intros a. rewrite lookup_empty. cbn [default]. enough (length (all_authors authors history) <= length history * length candidates)%nat by lia.
  clear -Hall. induction Hall as [|e s l l' [_ He] _ IH]; [done|]. rewrite all_authors_cons, length_app. unfold authors at 1.
  rewrite He, bitmap_round_trip. cbn [from_option length]. unfold id. pose proof (length_filter (fun v => is_Some (s !! v)) candidates). lia.
Qed.

(** C39: votes in the newest blocks do not count.  The database returns the newest blocks first,
    but the windows of the heuristic are taken from the end of the list.  The epoch manager
    has the database read as many blocks as the larger window has, which is the one for
    proposers, ten times the other one by default.  So take an election that the epoch
    manager creates with a voter window that is not larger: two ledgers whose blocks differ
    only in votes, and only in those that are newer than the oldest blocks that were read,
    as many as the voter window has, elect the same leader. *)
Theorem newest_votes_do_not_count {D} `{!BlockEventReader D} `{Bcs NewBlockEvent} (sha3_256_of : bytes -> HashValue)
    (author : Author) (epoch_state : EpochState) (onchain_config : OnChainConsensusConfig) (config : ProposerAndVoterConfig)
    (d d' : D) (election election' : AnyElection D) (raw raw' : list (Version * bytes)) (events events' : list NewBlockEvent)
    (version version' : N) (round : Round) :
  let validators := N.of_nat (length (Verifier.get_ordered_account_addresses_iter (es_verifier epoch_state))) in
  let window := validators * pvc_proposer_window_num_validators_multiplier config in
  let voter_window := validators * pvc_voter_window_num_validators_multiplier config in
  let limit := window + (oc_exclude_round onchain_config + oc_max_failed_authors_to_store onchain_config + 10) in
  let history := read_history (es_epoch epoch_state) window (round - oc_exclude_round onchain_config) in
  oc_proposer_election_type onchain_config = ElectByReputation (ProposerAndVoter config) -> voter_window <= window -> limit <= u64_max ->
  create_proposer_election author epoch_state onchain_config d = Ok election ->
  create_proposer_election author epoch_state onchain_config d' = Ok election' ->
  get_latest_version d = Ok version -> get_latest_version d' = Ok version' -> 0 < version -> 0 < version' ->
  get_new_block_events d limit = Ok raw -> collect_events raw = Ok events ->
  get_new_block_events d' limit = Ok raw' -> collect_events raw' = Ok events' ->
  Forall2 same_but_votes (history events) (history events') ->
  (forall i e e', (length (history events) - N.to_nat voter_window <= i)%nat -> history events !! i = Some e -> history events' !! i = Some e' ->
     nbe_previous_block_votes e = nbe_previous_block_votes e') ->
  fst (any_election sha3_256_of round election) = fst (any_election sha3_256_of round election').
Proof.
  intros validators window voter_window limit history Htype Hle Hlim Hel Hel' Hv Hv' Hpos Hpos' Hraw Hev Hraw' Hev' Hsame Hvotes.
  destruct (created_reputation sha3_256_of author epoch_state onchain_config config d election round raw events version
    Htype Hle Hlim Hel Hv Hpos Hraw Hev) as (h & Hh & ->).
  destruct (created_reputation sha3_256_of author epoch_state onchain_config config d' election' round raw' events' version'
    Htype Hle Hlim Hel' Hv' Hpos' Hraw' Hev') as (h' & Hh' & ->).
  assert (h' = h) as -> by congruence. fold validators window history. subst h.
  by rewrite (weights_votes _ _ _ (history events) (history events')).
Qed.
(** With the default configuration: whether or not validator 3 has voted in the two newest
    blocks, it counts as inactive. *)
Lemma newest_votes_do_not_count_witness :
  exists e e', LeaderExample.elected LeaderExample.voted3 = Some e /\ LeaderExample.elected LeaderExample.absent3 = Some e' /\
    fst (any_election LeaderExample.sha3 30 e) = fst (any_election LeaderExample.sha3 30 e') /\
    reputation (proposer_and_voter_new 1 1000 10 1 10 3 30) 1 [1; 2; 3] (LeaderExample.vote_history true) 3 = 10.
Proof.
  eexists _, _. split; [reflexivity|]. split; [reflexivity|]. split; [|by vm_compute].
  eapply (newest_votes_do_not_count LeaderExample.sha3 1 LeaderExample.epoch_state OnChainConsensusConfig.default_config
    (mkProposerAndVoterConfig 1000 10 1 10 10 1) LeaderExample.voted3 LeaderExample.absent3 _ _ _ _
    (LeaderExample.vote_history true) (LeaderExample.vote_history false) 5 5 30); try by vm_compute.
  - repeat constructor.
  - intros i e e' Hi. change (2 <= i)%nat in Hi. do 5 (destruct i as [|i]; [cbn; try lia; by intros [= <-] [= <-]|]). by destruct i.
Defined.
End LeaderElectionProps.
