(* ===== verification/ProposalGenerator.v ===== *)
(** * Generation of proposals

    The payload of a block comes from mempool through the quorum store
    (consensus/src/payload_manager.rs, consensus/src/quorum_store/direct_mempool_quorum_store.rs),
    and the block is made by [ProposalGenerator]
    (consensus/src/liveness/proposal_generator.rs).  The generator only reads the block
    store, through the tree in it. *)

From S2P Require Import Prelude Crypto Errors Position Accumulator Verifier Ledger ConsensusTypes Blocks TransactionProofs SchemaDb LedgerSchemas BlockTree MempoolIndex MempoolStore Mempool MempoolNetwork SharedMempool LeaderElection.

(** ** Payloads *)

(** [wait_callback] is what it does to the rest of the node. *)
Class PayloadManager (M : Type) : Type :=
  pull_payload : forall X : Type, N -> PayloadFilter -> (X -> X) -> bool -> method (M * X) AnyError Payload.
Arguments pull_payload {M _ X}.

(** One request to the quorum store.  [pl_before] happens in mempool before the request gets
    there; [pl_sent] and [pl_batch_sent] say whether the channels take the messages, and
    [pl_in_time] and [pl_batch_in_time] whether the answers come before the timeouts. *)
Record Poll : Type := mkPoll {
  pl_before : list (Env * Event);
  pl_env : Env;
  pl_sent : bool;
  pl_batch_sent : bool;
  pl_batch_in_time : bool;
  pl_in_time : bool;
}.

Module QuorumStore.
Section direct_mempool.
Context `{CryptoHash Transaction} `{Bcs BatchId}.

(** [DirectMempoolQuorumStore::pull_internal] *)
Definition pull_batch (poll : Poll) (max_size : N) (exclude_txns : list TransactionSummary)
    : method Coordinator AnyError (list SignedTransaction) :=
  _ ← lift (ensure (pl_batch_sent poll) (Msg "send failed"));
  reply ← Shared.handle (pl_env poll) (QuorumStore (GetBatchRequest max_size exclude_txns));
  _ ← lift (ensure (pl_batch_in_time poll) (Msg "did not receive GetBatchResponse on time"));
  lift match reply with
       | QuorumStoreReply (GetBatchResponse txns) => Ok txns
       | _ => Err (Msg "did not receive expected GetBatchResponse")
       end.

(** A batch that could not be pulled is an empty one. *)
Definition handle_block_request (poll : Poll) (max_size : N) (payload_filter : PayloadFilter) : method Coordinator AnyError Payload :=
  match payload_filter with
  | FilterDirectMempool exclude_txns => fun self =>
      match pull_batch poll max_size exclude_txns self with
      | (Ok txns, self) => (Ok (DirectMempool txns), self)
      | (Err _, self) => (Ok (DirectMempool []), self)
      | (Panic, self) => (Panic, self)
      end
  | FilterInQuorumStore _ => lift Panic
  end.
End direct_mempool.
End QuorumStore.

(** [qs_polls] are the requests to come; where they end no answer comes any more. *)
Record QuorumStoreClient : Type := mkQuorumStoreClient {
  qs_coordinator : Coordinator;
  qs_poll_count : N;
  qs_polls : list Poll;
}.

Module QuorumStoreClient.
Section client.
Context `{CryptoHash Transaction} `{Bcs BatchId}.
Implicit Types (self : QuorumStoreClient).

Definition set_coordinator c self : QuorumStoreClient := mkQuorumStoreClient c (qs_poll_count self) (qs_polls self).
Definition set_polls l self : QuorumStoreClient := mkQuorumStoreClient (qs_coordinator self) (qs_poll_count self) l.
Definition on_coordinator {A} (f : method Coordinator AnyError A) : method QuorumStoreClient AnyError A :=
  on qs_coordinator set_coordinator f.

Definition new (coordinator : Coordinator) (poll_count : N) (polls : list Poll) : outcome AnyError QuorumStoreClient :=
  _ ← assert_ (0 <? poll_count);
  Ok (mkQuorumStoreClient coordinator poll_count polls).

Definition pull_internal (max_size : N) (exclude_payloads : PayloadFilter) : method QuorumStoreClient AnyError Payload :=
  polls ← gets (fun self => Ok (qs_polls self));
  match polls with
  | [] => lift (Err (Msg "did not receive GetBlockResponse on time"))
  | poll :: polls =>
      _ ← puts (set_polls polls);
      _ ← on_coordinator (Shared.run (pl_before poll));
      _ ← lift (ensure (pl_sent poll) (Msg "send failed"));
      payload ← on_coordinator (QuorumStore.handle_block_request poll max_size exclude_payloads);
      _ ← lift (ensure (pl_in_time poll) (Msg "did not receive GetBlockResponse on time"));
      mret payload
  end.

(** The loop of [pull_payload], [count] rounds of it, without the sleeps. *)
Fixpoint poll_loop {X} (count : nat) (max_size : N) (exclude_payloads : PayloadFilter) (callback_wrapper : option (X -> X))
    (pending_ordering : bool) : method (QuorumStoreClient * X) AnyError Payload :=
  match count with
  | O => lift Panic
  | S count =>
      payload ← on fst (fun c (self : QuorumStoreClient * X) => (c, self.2)) (pull_internal max_size exclude_payloads);
      empty ← lift (Payload.is_empty payload);
      if empty && negb pending_ordering && bool_decide (0 < count)%nat then
        _ ← puts (fun self : QuorumStoreClient * X => (self.1, default id callback_wrapper self.2));
        poll_loop count max_size exclude_payloads None pending_ordering
      else mret payload
  end.
#[global] Instance client_pull : PayloadManager QuorumStoreClient := fun X max_size exclude_payloads wait_callback pending_ordering =>
  count ← gets (fun self : QuorumStoreClient * X => Ok (qs_poll_count self.1));
  poll_loop (N.to_nat count) max_size exclude_payloads (Some wait_callback) pending_ordering.
End client.
End QuorumStoreClient.

(** ** Proposals *)
Record ProposalGenerator : Type := mkProposalGenerator {
  pg_author : Author;
  pg_max_block_size : N;
  pg_max_failed_authors_to_store : N;
  pg_last_round_generated : Round;
}.
(** What a proposer works with, and the rest of the node. *)
Record Proposer (P M X : Type) : Type := mkProposer {
  pr_generator : ProposalGenerator;
  pr_election : UnequivocalProposerElection P;
  pr_payload_manager : M;
  pr_node : X;
}.
Arguments mkProposer {P M X}.
Arguments pr_generator {P M X}.
Arguments pr_election {P M X}.
Arguments pr_payload_manager {P M X}.
Arguments pr_node {P M X}.

Module ProposalGenerator.
Definition new (author : Author) (max_block_size max_failed_authors_to_store : N) : ProposalGenerator :=
  mkProposalGenerator author max_block_size max_failed_authors_to_store 0.

Definition ensure_highest_quorum_cert (round : Round) (block_store : BlockTree) : result QuorumCert :=
  let hqc := highest_quorum_cert block_store in
  _ ← ensure (bi_round (QuorumCert.certified_block hqc) <? round) (Msg "Given round is lower than hqc round");
  _ ← ensure (negb (QuorumCert.ends_epoch hqc)) (Msg "The epoch has already ended,a proposal is not allowed to generated");
  Ok hqc.

Section election.
Context {P : Type} `{!ProposerElection P}.

(** [count] rounds from [i] on. *)
Fixpoint failed_authors_from (count : nat) (i : Round) : method (UnequivocalProposerElection P) AnyError (list (Round * Author)) :=
  match count with
  | O => mret []
  | S count =>
      author ← get_valid_proposer i;
      rest ← failed_authors_from count (i + 1);
      mret ((i, author) :: rest)
  end.
Definition compute_failed_authors (self : ProposalGenerator) (round previous_round : Round) (include_cur_round : bool)
    : method (UnequivocalProposerElection P) AnyError (list (Round * Author)) :=
  end_round ← lift (add64 round (if include_cur_round then 1 else 0));
  next ← lift (add64 previous_round 1);
  let start := N.max next (end_round - pg_max_failed_authors_to_store self) in
  failed_authors_from (N.to_nat (end_round - start)) start.

Definition generate_nil_block `{CryptoHash BlockData} (self : ProposalGenerator) (round : Round) (block_store : BlockTree)
    : method (UnequivocalProposerElection P) AnyError Block :=
  quorum_cert ← lift (ensure_highest_quorum_cert round block_store);
  failed_authors ← compute_failed_authors self round (bi_round (QuorumCert.certified_block quorum_cert)) true;
  mret (Block.new_nil round quorum_cert failed_authors).

(** A block that has transactions. *)
Definition has_payload (block : ExecutedBlock) : outcome AnyError bool :=
  match Block.payload (eb_block block) with
  | None => Ok false
  | Some txns => negb <$> (Payload.is_empty txns : outcome AnyError bool)
  end.
Fixpoint any_payload (blocks : list ExecutedBlock) : outcome AnyError bool :=
  match blocks with
  | [] => Ok false
  | block :: blocks => b ← has_payload block; if b : bool then Ok true else any_payload blocks
  end.
Definition hqc_pruned : AnyError := Msg "HQC already pruned".

Context {M X : Type} `{!PayloadManager M}.
Definition set_generator (g : ProposalGenerator) (self : Proposer P M X) : Proposer P M X :=
  mkProposer g (pr_election self) (pr_payload_manager self) (pr_node self).
Definition on_election {A} (f : method (UnequivocalProposerElection P) AnyError A) : method (Proposer P M X) AnyError A :=
  on pr_election (fun e self => mkProposer (pr_generator self) e (pr_payload_manager self) (pr_node self)) f.
Definition on_manager {A} (f : method (M * X) AnyError A) : method (Proposer P M X) AnyError A :=
  on (fun self => (pr_payload_manager self, pr_node self)) (fun m self => mkProposer (pr_generator self) (pr_election self) m.1 m.2) f.

(** The blocks whose transactions may not be proposed again: those from the commit root,
    included, to the certified block. *)
Definition pending_blocks (hqc : QuorumCert) (block_store : BlockTree) : result (list ExecutedBlock) :=
  path ← BlockTree.path_from_commit_root block_store (bi_id (QuorumCert.certified_block hqc));
  pending ← ok_or path hqc_pruned;
  root ← BlockTree.commit_root block_store;
  Ok (pending ++ [root]).

(** [now] is the time in microseconds. *)
Definition pull_proposal (hqc : QuorumCert) (now : N) (wait_callback : X -> X) (block_store : BlockTree)
    : method (Proposer P M X) AnyError (Payload * N) :=
  if BlockInfo.has_reconfiguration (QuorumCert.certified_block hqc)
  then mret (Payload.new_empty, bi_timestamp_usecs (QuorumCert.certified_block hqc))
  else
    pending_blocks ← lift (pending_blocks hqc block_store);
    payload_filter ← lift (Payload.filter_from (omap (fun block => Block.payload (eb_block block)) pending_blocks));
    path ← lift (BlockTree.path_from_ordered_root block_store (bi_id (QuorumCert.certified_block hqc)));
    path ← lift (ok_or path hqc_pruned);
    pending_ordering ← lift (any_payload path);
    max_block_size ← gets (fun self => Ok (pg_max_block_size (pr_generator self)));
    payload ← on_manager (fun self => let '(r, self) := pull_payload max_block_size payload_filter wait_callback pending_ordering self in
                                      (with_context "Fail to retrieve payload" r, self));
    mret (payload, now).

Definition generate_proposal (round : Round) (now : N) (wait_callback : X -> X) (block_store : BlockTree)
    : method (Proposer P M X) AnyError BlockData :=
  generator ← gets (fun self => Ok (pr_generator self));
  _ ← lift (ensure (pg_last_round_generated generator <? round) (Msg "Already proposed in the round"));
  _ ← puts (set_generator (mkProposalGenerator (pg_author generator) (pg_max_block_size generator)
              (pg_max_failed_authors_to_store generator) round));
  hqc ← lift (ensure_highest_quorum_cert round block_store);
  '(payload, timestamp) ← pull_proposal hqc now wait_callback block_store;
  failed_authors ← on_election (compute_failed_authors generator round (bi_round (QuorumCert.certified_block hqc)) false);
  mret (BlockData.new_proposal payload (pg_author generator) failed_authors round timestamp hqc).
End election.
End ProposalGenerator.
