(* ===== verification/ProposalProps.v ===== *)
(** * Theorems about the generation of proposals

    [PayloadManagerLaws] is what the generator relies on; the client of the quorum store
    fulfils it, with mempool behind it in any run. *)

From S2P Require Import Prelude Crypto Errors Position Accumulator Verifier Ledger ConsensusTypes Blocks Storage SafetyRules SafetyLemmas Replica Bft Simulation Agreement TransactionProofs TransactionLemmas TransactionProps SchemaDb LedgerSchemas BlockTree ConsensusDb LivenessStorage BlockStore SyncManager BlockTreeLemmas BlockStoreLemmas SyncLemmas BlockStoreRun BlockStoreExample MempoolIndex MempoolIndexLemmas MempoolStore MempoolSpec MempoolSteps Mempool MempoolRun MempoolProps MempoolNetwork SharedMempool SharedMempoolLemmas SharedMempoolRun SharedMempoolProps LeaderElection LeaderElectionProps ProposalGenerator.

(** ** Payloads *)

(** A payload of at most [max_size] transactions, no two of them or of the excluded ones with
    the same sender and sequence number. *)
Definition honours (max_size : N) (excluded : list TransactionSummary) (payload : Payload) : Prop :=
  exists txns, payload = DirectMempool txns /\ N.of_nat (length txns) <= N.max max_size 1 /\
    NoDup (Payload.summaries payload) /\ forall s, s ∈ Payload.summaries payload -> s ∉ excluded.
Lemma honours_empty max_size excluded : honours max_size excluded Payload.new_empty.
Proof. exists []. split_and!; [done|cbn; lia|constructor|]. by intros s ?%elem_of_nil. Qed.

(** The callback is called at most once. *)
Class PayloadManagerLaws (M : Type) `{!PayloadManager M} (ready : M -> Prop) : Prop :=
  pull_honours : forall X max_size excluded (callback : X -> X) pending_ordering self,
    let pulled self' := ready self'.1 /\ (self'.2 = self.2 \/ self'.2 = callback self.2) in
    ready self.1 ->
    safe pulled (pull_payload max_size (FilterDirectMempool excluded) callback pending_ordering)
      (fun payload self' => pulled self' /\ honours max_size excluded payload) self.
Arguments pull_honours {M _ ready _ X}.

(** ** Payloads from mempool *)
Section client.
Context `{CryptoHash Transaction} `{Bcs BatchId}.
Context (J : N -> Mempool -> Pool -> MempoolNetworkInterface -> Prop) (lost_ok : PeerNetworkId -> Prop).
Context `{!NetInvariant J lost_ok} (config : MempoolConfig) (timeout : N).
Implicit Types (self : QuorumStoreClient) (m : Pool).

Lemma batch_summaries m l txns :
  pointed (MempoolSpec.txns m) -> Forall2 (fun q txn => exists e, m !! q = Some e /\ e_queued e = true /\ mt_txn (e_txn e) = txn) l txns ->
  Payload.summaries (DirectMempool txns) = (fun q : TxnPointer => mkTransactionSummary q.1 q.2) <$> l.
Proof.
  intros Hp. cbn. induction 1 as [|q txn l txns (e & He & _ & <-) _ IH]; [done|]. cbn. rewrite IH. f_equal.
  by destruct (pointed_at _ _ _ Hp He) as [<- _].
Qed.

Lemma batch_honours m mempool n l :
  mempool_ok m mempool ->
  exists txns, Mempool.get_batch (N.max n 1) (list_to_set ((fun txn => (ts_sender txn, ts_sequence_number txn)) <$> l)) mempool = Ok txns /\
    honours n l (DirectMempool txns).
Proof.
  intros [Hr _ _ Hn].
  destruct (get_batch_ok m mempool (N.max n 1) (list_to_set ((fun txn => (ts_sender txn, ts_sequence_number txn)) <$> l)) Hr Hn)
    as (q & txns & -> & Hall & [Hnd Hnew _ Hlen _]).
  exists txns. split; [done|]. exists txns. rewrite (batch_summaries m q) by (done || apply (ix_pointed _ _ (rp_index _ _ Hr))).
  split_and!; [done| | |].
  - rewrite <-(Forall2_length _ _ _ Hall). destruct Hlen; lia.
  - apply NoDup_fmap_2; [|done]. intros [a b] [a' b'] Heq. cbn in Heq. congruence.
  - intros s (p & -> & Hp)%list_elem_of_fmap Hs. apply Hnew in Hp as [Hp _]. apply Hp, elem_of_list_to_set, list_elem_of_fmap.
    eexists. split; [|exact Hs]. by destruct p.
Qed.

Lemma batch_reply env T k m n l coordinator :
  shared_ok J config timeout T k m coordinator -> event_ok lost_ok config timeout T env (QuorumStore (GetBatchRequest n l)) ->
  returns (Shared.handle env (QuorumStore (GetBatchRequest n l))) (fun reply coordinator' =>
    (exists m', shared_ok J config timeout (en_clock env 0%nat) k m' coordinator') /\
    exists txns, reply = QuorumStoreReply (GetBatchResponse txns) /\ honours n l (DirectMempool txns)) coordinator.
Proof.
  intros Hok Hev. assert (shared_ok J config timeout T (event_adds (QuorumStore (GetBatchRequest n l)) + k) m coordinator) as Hok' by done.
  destruct (safe_Ok _ _ _ _ (handle_event_ok J lost_ok config timeout env _ T k m coordinator Hok' Hev)) as (reply & c' & Hh & Hc');
    [by intros ? []|].
  unfold returns, safe. rewrite Hh. split; [done|]. revert Hh. cbn [Shared.handle Shared.process_quorum_store_request].
  unfold mbind, method_bind, Shared.on_smp, on, gets.
  destruct Hok as [Hsm _].
  assert (room (sm_mempool (co_smp coordinator)) m 0) as Hroom by (destruct Hsm as [[? ? ?] _ _ _]; split; [done|done|lia]).
  destruct (safe_Ok _ _ _ _ (mempool_part J lost_ok config timeout _ T 0 k m _ Hsm (expiration_evolves m _ (en_clock env 0%nat) Hroom)))
    as ([] & smp' & -> & [(m' & [[Hm _ _] _ _ _]) _]); [by intros ? []|].
  destruct (batch_honours m' (sm_mempool smp') n l Hm) as (txns & -> & Hh). cbn. intros [= <- _]. by exists txns.
Qed.

(** What is to come: before each poll mempool handles its events, then the request. *)
Definition poll_events (poll : Poll) : list (Env * Event) := pl_before poll ++ [(pl_env poll, QuorumStore (GetBatchRequest 0 []))].
Definition client_ok self : Prop :=
  0 < qs_poll_count self /\
  exists T k m, shared_ok J config timeout T (events_adds (mjoin (poll_events <$> qs_polls self)) + k) m (qs_coordinator self) /\
    events_ok lost_ok config timeout T (mjoin (poll_events <$> qs_polls self)).

Lemma events_adds_app l l' : events_adds (l ++ l') = events_adds l + events_adds l'.
Proof. unfold events_adds. induction l as [|e l IH]; [done|]. cbn. rewrite IH. lia. Qed.
Lemma events_ok_app l l' : forall T, events_ok lost_ok config timeout T (l ++ l') <->
  events_ok lost_ok config timeout T l /\ events_ok lost_ok config timeout (end_time T l) l'.
Proof.
  induction l as [|[env e] l IH]; intros T; [by split; [|intros [_ ?]]|]. cbn. rewrite IH.
  change (end_time T ((env, e) :: l)) with (end_time (en_clock env 0%nat) l). tauto.
Qed.
Lemma shared_later T T' k m c : shared_ok J config timeout T k m c -> T <= T' -> shared_ok J config timeout T' k m c.
Proof. intros [Hok Hs] HT. split; [by eapply smp_ok_time|done]. Qed.

(** After the request mempool is ready for the rest. *)
Lemma block_request_ok poll T k m n l c :
  shared_ok J config timeout T k m c -> event_ok lost_ok config timeout T (pl_env poll) (QuorumStore (GetBatchRequest n l)) ->
  returns (QuorumStore.handle_block_request poll n (FilterDirectMempool l)) (fun payload c' =>
    (exists m', shared_ok J config timeout (en_clock (pl_env poll) 0%nat) k m' c') /\ honours n l payload) c.
Proof.
  intros Hok Hev. pose proof Hev as [HT _]. unfold returns, safe, QuorumStore.handle_block_request, QuorumStore.pull_batch.
  unfold mbind, method_bind, lift, ensure. destruct (pl_batch_sent poll).
  - pose proof (batch_reply _ _ _ _ _ _ _ Hok Hev) as Hr. unfold returns, safe in Hr.
    destruct (Shared.handle _ _ c) as [[reply| |] c']; [|done|done]. destruct Hr as [Hc' (txns & -> & Hh)].
    destruct (pl_batch_in_time poll); [done|]. split; [done|apply honours_empty].
  - split; [exists m; by eapply shared_later|apply honours_empty].
Qed.

Lemma pull_internal_ok n l self : client_ok self ->
  safe client_ok (QuorumStoreClient.pull_internal n (FilterDirectMempool l))
    (fun payload self' => client_ok self' /\ qs_poll_count self' = qs_poll_count self /\ honours n l payload) self.
Proof.
  intros Hok. pose proof Hok as (Hcount & T & k & m & Hsh & Hev). unfold QuorumStoreClient.pull_internal.
  apply safe_bind, safe_gets. destruct (qs_polls self) as [|poll polls] eqn:Hpolls; [by apply safe_lift|].
  cbn [fmap list_fmap mjoin list_join] in Hsh, Hev. unfold poll_events at 1 in Hsh. unfold poll_events at 1 in Hev.
  rewrite <-app_assoc in Hsh, Hev. rewrite !events_adds_app in Hsh. apply events_ok_app in Hev as [Hbefore [Hevent Hrest]].
  set (rest := mjoin (poll_events <$> polls)) in *.
  assert (forall c m', shared_ok J config timeout (en_clock (pl_env poll) 0%nat) (events_adds rest + k) m' c ->
    client_ok (mkQuorumStoreClient c (qs_poll_count self) polls)) as Hafter by (intros c m' Hc; split; [done|by exists (en_clock (pl_env poll) 0%nat), k, m']).
  apply safe_bind, safe_puts, safe_bind. eapply (safe_on (fun _ => False)); [|done].
  eapply safe_mono; [apply (run_ok J lost_ok config timeout (pl_before poll) T (events_adds rest + k) m); [|done]|].
  { by rewrite <-N.add_assoc in Hsh. }
  intros [] c (m1 & Hsh1). apply safe_bind, safe_lift. unfold ensure. destruct (pl_sent poll); last first.
  { apply (Hafter c m1). eapply shared_later; [exact Hsh1|]. apply Hevent. }
  apply safe_bind. eapply (safe_on (fun _ => False)); [|done].
  eapply safe_mono; [apply (block_request_ok poll (end_time T (pl_before poll)) (events_adds rest + k) m1 n l); [exact Hsh1|done]|].
  intros payload c' [(m2 & Hsh2) Hh]. apply safe_bind, safe_lift. destruct (pl_in_time poll); [|by apply (Hafter c' m2)].
  apply safe_ret. split; [by apply (Hafter c' m2)|done].
Qed.

Lemma poll_loop_ok {X} n l (callback : option (X -> X)) pending count : forall self : QuorumStoreClient * X,
  let pulled (self' : QuorumStoreClient * X) := client_ok self'.1 /\ (self'.2 = self.2 \/ self'.2 = default id callback self.2) in
  client_ok self.1 -> (0 < count)%nat ->
  safe pulled (QuorumStoreClient.poll_loop count n (FilterDirectMempool l) callback pending)
    (fun payload (self' : QuorumStoreClient * X) => pulled self' /\ honours n l payload) self.
Proof.
  revert callback. induction count as [|count IH]; intros callback self pulled Hok Hc; [lia|]. cbn [QuorumStoreClient.poll_loop].
  apply safe_bind. eapply (safe_on client_ok); [|intros c Hc'; split; [done|by left]].
  eapply safe_mono; [by apply pull_internal_ok|]. intros payload c (Hok' & _ & Hh).
  apply safe_bind, safe_lift. destruct Hh as (txns & -> & Hh). cbn [Payload.is_empty].
  destruct (bool_decide (txns = []) && negb pending && bool_decide (0 < count)%nat) eqn:Hagain.
  - apply safe_bind, safe_puts. cbn [fst snd]. apply andb_true_iff in Hagain as [_ Hcount%bool_decide_eq_true_1].
    specialize (IH None (c, default id callback self.2) Hok' Hcount). cbn [fst snd] in IH. unfold safe in *.
    destruct (QuorumStoreClient.poll_loop count n _ None pending _) as [[payload| |] self'].
    + destruct IH as [[Hc1 [Hx|Hx]] Hp]; (split; [split; [done|by right]|done]).
    + destruct IH as [Hc1 [Hx|Hx]]; (split; [done|by right]).
    + done.
  - apply safe_ret. split; [split; [done|by left]|by exists txns].
Qed.

#[global] Instance client_laws : PayloadManagerLaws QuorumStoreClient client_ok.
Proof.
  intros X n l callback pending self pulled Hok. unfold pull_payload, QuorumStoreClient.client_pull. apply safe_bind, safe_gets.
  apply (poll_loop_ok n l (Some callback) pending); [done|]. destruct Hok as [Hc _]. lia.
Qed.
End client.

(** ** Failed authors *)
Lemma length_count_from a k : length (count_from a k) = k.
Proof. revert a. induction k as [|k IH]; intros a; [done|]. cbn. by rewrite IH. Qed.

(** The rounds after the parent's up to the block's, at most [max] of them, with their
    leaders. *)
Definition missed_rounds (leader : Round -> Author) (max round previous_round : N) : list (Round * Author) :=
  let start := N.max (previous_round + 1) (round - max) in
  (fun i => (i, leader i)) <$> count_from start (N.to_nat (round - start)).

Lemma missed_rounds_checked leader n : forall i bound succ_round, bound < i -> i + N.of_nat n <= succ_round ->
  Block.check_failed_authors bound succ_round ((fun i => (i, leader i)) <$> count_from i n) = Ok tt.
Proof.
  induction n as [|n IH]; intros i bound succ_round Hb Hs; [done|]. cbn [count_from fmap list_fmap Block.check_failed_authors].
  rewrite (proj2 (N.ltb_lt bound i)) by done. rewrite (proj2 (N.ltb_lt i succ_round)) by lia. apply IH; lia.
Qed.

Section failed_authors.
Context {P : Type} `{!ProposerElection P} (leader : Round -> Author) (fits : P -> Prop) `{!Elects P leader fits}.
Implicit Types (e : UnequivocalProposerElection P).

(** Asking for a leader does not touch what was proposed. *)
Lemma elect_ok e round : fits (ue_proposer_election e) ->
  exists p, get_valid_proposer round e = (Ok (leader round), Unequivocal.set_election p e) /\ fits p.
Proof.
  intros He. unfold get_valid_proposer, Unequivocal.unequivocal_election, on.
  destruct (elects round _ He) as (p' & -> & Hp'). by exists p'.
Qed.
Lemma failed_authors_from_ok n : forall i e, fits (ue_proposer_election e) ->
  exists p, ProposalGenerator.failed_authors_from n i e =
    (Ok ((fun i => (i, leader i)) <$> count_from i n), Unequivocal.set_election p e) /\ fits p.
Proof.
  induction n as [|n IH]; intros i e He; cbn [ProposalGenerator.failed_authors_from].
  { exists (ue_proposer_election e). by destruct e. }
  destruct (elect_ok e i He) as (p & Hp & Hfit). unfold mbind, method_bind. rewrite Hp.
  destruct (IH (i + 1) (Unequivocal.set_election p e) Hfit) as (p' & -> & Hfit'). by exists p'.
Qed.
Lemma compute_failed_authors_ok g round previous_round (current : bool) e :
  fits (ue_proposer_election e) -> round < u64_max -> previous_round < u64_max ->
  exists p, ProposalGenerator.compute_failed_authors g round previous_round current e =
    (Ok (missed_rounds leader (pg_max_failed_authors_to_store g) (if current then round + 1 else round) previous_round),
     Unequivocal.set_election p e) /\ fits p.
Proof.
  intros He Hr Hp. unfold ProposalGenerator.compute_failed_authors, mbind, method_bind, lift.
  assert (add64 (E := AnyError) round (if current then 1 else 0) = Ok (if current then round + 1 else round)) as ->.
  { destruct current; apply add64_Ok; lia. }
  assert (add64 (E := AnyError) previous_round 1 = Ok (previous_round + 1)) as -> by (apply add64_Ok; lia).
  by apply failed_authors_from_ok.
Qed.
End failed_authors.

(** ** Proposals *)
Definition is_direct (payload : Payload) : Prop := match payload with DirectMempool _ => True | InQuorumStore _ => False end.
Definition direct_block (b : ExecutedBlock) : Prop := forall payload, Block.payload (eb_block b) = Some payload -> is_direct payload.
Definition direct_tree (t : BlockTree) : Prop := forall i b, BlockTree.get_block t i = Some b -> direct_block b.

Lemma filter_from_direct {E} l : Forall is_direct l -> Payload.filter_from (E := E) l = Ok (FilterDirectMempool (mjoin (Payload.summaries <$> l))).
Proof. intros Hl. destruct Hl as [|[txns|poavs] l Hp _]; done. Qed.
Lemma any_payload_direct l : Forall direct_block l -> exists b, ProposalGenerator.any_payload l = Ok b.
Proof.
  induction 1 as [|b l Hb _ [r IH]]; [by exists false|]. cbn [ProposalGenerator.any_payload]. unfold ProposalGenerator.has_payload.
  destruct (Block.payload (eb_block b)) as [[txns|poavs]|] eqn:Hp.
  - cbn [Payload.is_empty fmap outcome_fmap mbind outcome_bind]. destruct (negb _); [by exists true|by exists r].
  - by destruct (Hb _ Hp).
  - by exists r.
Qed.

Section proposals.
Context {P M X : Type} `{!ProposerElection P} `{!PayloadManager M}.
Context (leader : Round -> Author) (fits : P -> Prop) `{!Elects P leader fits} (ready : M -> Prop) `{!PayloadManagerLaws M ready}.
Context (content : HashValue -> option BlockData) (Hrounds : rounds_increase content).
Implicit Types (self : Proposer P M X) (callback : X -> X) (t : BlockTree) (qc : QuorumCert).

Definition proposer_ok self : Prop := fits (ue_proposer_election (pr_election self)) /\ ready (pr_payload_manager self).

Definition called callback self self' : Prop := pr_node self' = pr_node self \/ pr_node self' = callback (pr_node self).

(** The transactions of the blocks from the commit root to the parent. *)
Definition pending_txns (blocks : list ExecutedBlock) : list TransactionSummary :=
  mjoin (Payload.summaries <$> omap (fun b => Block.payload (eb_block b)) blocks).
Definition pending t (i : HashValue) (blocks : list ExecutedBlock) : Prop :=
  exists path root, blocks = path ++ [root] /\ tree_path t (commit_root_id t) i path /\
    BlockTree.get_block t (commit_root_id t) = Some root.

Lemma tree_path_direct t r i l : direct_tree t -> tree_path t r i l -> Forall direct_block l.
Proof. intros Hd. induction 1 as [|i b l Hb _ IH]; [constructor|]. apply Forall_app. split; [done|]. constructor; [by apply (Hd i)|done]. Qed.

Lemma root_path t r br i :
  tree_ok content t -> live content t r -> BlockTree.get_block t r = Some br ->
  exists o, BlockTree.path_from_root_to_block t i r (ExecutedBlock.round br) = Ok o /\ forall l, o = Some l -> tree_path t r i l.
Proof.
  intros Hok Hr Hbr. destruct (path_spec content Hrounds t Hok i r br Hr Hbr) as (o & Ho & Hs). exists o. split; [done|]. by intros l ->.
Qed.

Lemma pending_blocks_ok t qc : tree_ok content t ->
  match ProposalGenerator.pending_blocks qc t with
  | Ok blocks => pending t (bi_id (QuorumCert.certified_block qc)) blocks
  | Err _ => True
  | Panic => False
  end.
Proof.
  intros Hok. unfold ProposalGenerator.pending_blocks, BlockTree.path_from_commit_root, BlockTree.commit_root.
  destruct (in_tree_block content t Hok _ (ok_root _ _ Hok)) as (root & Hroot & _). rewrite Hroot. cbn [expect mbind outcome_bind].
  destruct (root_path t _ root (bi_id (QuorumCert.certified_block qc)) Hok descends_refl Hroot) as ([l|] & -> & Hl); [|done].
  cbn. exists l, root. auto.
Qed.

Lemma ordered_path_ok t i : tree_ok content t ->
  exists o, BlockTree.path_from_ordered_root t i = Ok o /\ forall l, o = Some l -> tree_path t (ordered_root_id t) i l.
Proof.
  intros Hok. unfold BlockTree.path_from_ordered_root, BlockTree.ordered_root. destruct (ok_ordered _ _ Hok) as [Hin Hlive].
  destruct (in_tree_block content t Hok _ Hin) as (root & Hroot & _). rewrite Hroot. cbn [expect mbind outcome_bind].
  by apply root_path.
Qed.

(** The payload and the time of a proposal on top of [qc]. *)
Definition proposed_on t qc (max_size now : N) (r : Payload * N) : Prop :=
  if BlockInfo.has_reconfiguration (QuorumCert.certified_block qc)
  then r = (Payload.new_empty, bi_timestamp_usecs (QuorumCert.certified_block qc))
  else r.2 = now /\ exists blocks, pending t (bi_id (QuorumCert.certified_block qc)) blocks /\ honours max_size (pending_txns blocks) r.1.

Lemma pull_proposal_ok t qc now callback self :
  tree_ok content t -> direct_tree t -> proposer_ok self ->
  let kept self' := proposer_ok self' /\ pr_generator self' = pr_generator self /\ pr_election self' = pr_election self /\
    called callback self self' in
  safe kept (ProposalGenerator.pull_proposal qc now callback t)
    (fun r self' => kept self' /\ proposed_on t qc (pg_max_block_size (pr_generator self)) now r) self.
Proof.
  intros Hok Hd Hs kept. assert (kept self) as Hk by (split_and!; [done|done|done|by left]). unfold ProposalGenerator.pull_proposal, proposed_on.
  destruct (BlockInfo.has_reconfiguration _); [by apply safe_ret|].
  apply safe_bind, safe_lift. pose proof (pending_blocks_ok t qc Hok) as Hpend.
  destruct (ProposalGenerator.pending_blocks qc t) as [blocks| |]; [|done|done].
  assert (Forall direct_block blocks) as Hdb.
  { destruct Hpend as (path & root & -> & Hp & Hr). apply Forall_app. split; [by eapply tree_path_direct|].
    constructor; [by eapply Hd|done]. }
  apply safe_bind, safe_lift. rewrite filter_from_direct; last first.
  { apply Forall_forall. intros p (b & Hb & Hp)%list_elem_of_omap. rewrite Forall_forall in Hdb. by eapply Hdb. }
  fold (pending_txns blocks). apply safe_bind, safe_lift.
  destruct (ordered_path_ok t (bi_id (QuorumCert.certified_block qc)) Hok) as (o & -> & Ho).
  apply safe_bind, safe_lift. destruct o as [l|]; [|done]. cbn [ok_or].
  apply safe_bind, safe_lift. destruct (any_payload_direct l) as [pend ->]; [eapply tree_path_direct; eauto|].
  apply safe_bind, safe_gets, safe_bind. unfold ProposalGenerator.on_manager.
  pose proof (pull_honours (pg_max_block_size (pr_generator self)) (pending_txns blocks) callback pend
    (pr_payload_manager self, pr_node self) (proj2 Hs)) as Hpull. cbn zeta in Hpull. cbn [fst snd] in Hpull.
  unfold safe, on in *. destruct (pull_payload _ _ _ _ _) as [[payload| |] m]; cbn; [| |done].
  - destruct Hpull as [[Hm Hx] Hh]. split; [split_and!; [split; [apply Hs|done]|done|done|exact Hx]|]. split; [done|]. by exists blocks.
  - destruct Hpull as [Hm Hx]. split_and!; [split; [apply Hs|done]|done|done|exact Hx].
Qed.

(** There is one path between two blocks. *)
Lemma no_loop t r b l : tree_ok content t -> BlockTree.get_block t r = Some b -> ~ tree_path t r (ExecutedBlock.parent_id b) l.
Proof.
  intros Hok Hb Hp%(tree_path_descends content t Hok). apply (get_block_content content t Hok) in Hb as (_ & _ & Hc).
  assert (exists d, content (ExecutedBlock.parent_id b) = Some d) as [d Hi] by (destruct Hp as [|i d Hi _]; eauto).
  pose proof (Hrounds _ _ _ Hc Hi) as Hlt. destruct (descends_round _ _ _ _ _ Hrounds Hp Hc Hi) as [Heq|?]; [|lia].
  rewrite Heq in Hi. assert (d = b_block_data (eb_block b)) as -> by congruence. lia.
Qed.
Lemma tree_path_unique t r i l l' : tree_ok content t -> tree_path t r i l -> tree_path t r i l' -> l = l'.
Proof.
  intros Hok Hl. revert l'. induction Hl as [|i b l Hb Hl IH]; intros l' Hl'.
  - inversion Hl' as [|? b l1 Hb Hl1]; subst; [done|]. by destruct (no_loop t r b l1 Hok Hb).
  - inversion Hl' as [|? b' l1 Hb' Hl1]; subst; [by destruct (no_loop t i b l Hok Hb)|].
    assert (b' = b) as -> by congruence. by rewrite (IH l1).
Qed.

(** A proposal has no transaction of the blocks it extends. *)
Lemma proposed_on_chain t qc max_size now payload timestamp :
  tree_ok content t -> proposed_on t qc max_size now (payload, timestamp) ->
  exists txns, Some payload = Some (DirectMempool txns) /\
    N.of_nat (length txns) <= N.max max_size 1 /\ NoDup (Payload.summaries (DirectMempool txns)) /\
    forall path root b payload s, tree_path t (commit_root_id t) (bi_id (QuorumCert.certified_block qc)) path ->
      BlockTree.get_block t (commit_root_id t) = Some root -> b ∈ path ++ [root] -> Block.payload (eb_block b) = Some payload ->
      s ∈ Payload.summaries (DirectMempool txns) -> s ∉ Payload.summaries payload.
Proof.
  intros Hok. unfold proposed_on. destruct (BlockInfo.has_reconfiguration _).
  - intros [= -> ->]. exists []. split_and!; [done|cbn; lia|constructor|]. by intros ??????????%elem_of_nil.
  - cbn [fst]. intros [_ (blocks & (path & root & -> & Hpath & Hroot) & txns & -> & Hlen & Hnd & Hnew)]. exists txns. split_and!; [done|done|done|].
    intros path' root' b payload s Hpath' Hroot' Hb Hp Hs Hin. assert (root' = root) as -> by congruence.
    rewrite (tree_path_unique t _ _ path' path Hok Hpath' Hpath) in Hb. apply (Hnew s Hs). unfold pending_txns.
    apply list_elem_of_join. exists (Payload.summaries payload). split; [done|]. apply list_elem_of_fmap.
    exists payload. split; [done|]. apply list_elem_of_omap. by exists b.
Qed.

Lemma highest_ensured t round :
  match ProposalGenerator.ensure_highest_quorum_cert round t with
  | Ok qc => qc = highest_quorum_cert t /\ bi_round (QuorumCert.certified_block qc) < round /\ QuorumCert.ends_epoch qc = false
  | Err _ => True
  | Panic => False
  end.
Proof.
  unfold ProposalGenerator.ensure_highest_quorum_cert, ensure.
  destruct (N.ltb_spec (bi_round (QuorumCert.certified_block (highest_quorum_cert t))) round); [|done]. cbn [mbind outcome_bind].
  by destruct (QuorumCert.ends_epoch (highest_quorum_cert t)) eqn:He.
Qed.

(** A proposal of [g] for a round, with the tree [t]. *)
Definition generated t (g : ProposalGenerator) (round now : N) (d : BlockData) : Prop :=
  let qc := highest_quorum_cert t in
  let parent := QuorumCert.certified_block qc in
  bi_round parent < round /\ QuorumCert.ends_epoch qc = false /\
  exists payload timestamp, proposed_on t qc (pg_max_block_size g) now (payload, timestamp) /\
    d = BlockData.new_proposal payload (pg_author g) (missed_rounds leader (pg_max_failed_authors_to_store g) round (bi_round parent))
          round timestamp qc.

(** What an attempt leaves behind. *)
Definition advanced (g : ProposalGenerator) (round : Round) : ProposalGenerator :=
  mkProposalGenerator (pg_author g) (pg_max_block_size g) (pg_max_failed_authors_to_store g) (N.max (pg_last_round_generated g) round).
Definition attempted callback self (round : Round) self' : Prop :=
  proposer_ok self' /\ called callback self self' /\ pr_generator self' = advanced (pr_generator self) round /\
  ue_already_proposed (pr_election self') = ue_already_proposed (pr_election self).

Lemma generate_proposal_ok t round now callback self :
  tree_ok content t -> direct_tree t -> proposer_ok self -> round < u64_max ->
  safe (attempted callback self round) (ProposalGenerator.generate_proposal round now callback t)
    (fun d self' => attempted callback self round self' /\ pg_last_round_generated (pr_generator self) < round /\
       generated t (pr_generator self) round now d) self.
Proof.
  intros Hok Hd Hs Hmax. unfold ProposalGenerator.generate_proposal. apply safe_bind, safe_gets, safe_bind, safe_lift. unfold ensure.
  destruct (N.ltb_spec (pg_last_round_generated (pr_generator self)) round) as [Hlt|Hge]; last first.
  { split_and!; [done|by left| |done]. unfold advanced. rewrite N.max_l by done. by destruct (pr_generator self). }
  apply safe_bind, safe_puts. set (self1 := ProposalGenerator.set_generator _ self).
  assert (pr_generator self1 = advanced (pr_generator self) round) as Hg1 by (unfold advanced; by rewrite N.max_r by lia).
  assert (attempted callback self round self1) as Hatt by (split_and!; [done|by left|done|done]).
  apply safe_bind, safe_lift. pose proof (highest_ensured t round) as Hqc.
  destruct (ProposalGenerator.ensure_highest_quorum_cert round t) as [qc| |]; [|done|done]. destruct Hqc as (-> & Hround & Hends).
  apply safe_bind. pose proof (pull_proposal_ok t (highest_quorum_cert t) now callback self1 Hok Hd (proj1 Hatt)) as Hpull. cbv zeta in Hpull.
  unfold safe in *. destruct (ProposalGenerator.pull_proposal _ _ _ _ self1) as [[[payload timestamp]| |] self2]; [| |done]; last first.
  { destruct Hpull as (Hok2 & Hg2 & He2 & Hx). unfold attempted. by rewrite Hg2, He2. }
  destruct Hpull as [(Hok2 & Hg2 & He2 & Hx) Hprop]. unfold mbind, method_bind, ProposalGenerator.on_election, on.
  destruct (compute_failed_authors_ok leader fits (pr_generator self) round
    (bi_round (QuorumCert.certified_block (highest_quorum_cert t))) false (pr_election self2)) as (p & -> & Hp); [apply Hok2|lia|lia|].
  cbn. split_and!; [|done|].
  - split_and!; [split; [done|apply Hok2]|exact Hx| |]; cbn; [by rewrite Hg2|by rewrite He2].
  - unfold generated. split_and!; [done|done|]. exists payload, timestamp. split; [|done]. by rewrite Hg1 in Hprop.
Qed.

Lemma generate_nil_block_ok `{CryptoHash BlockData} t g round (e : UnequivocalProposerElection P) :
  fits (ue_proposer_election e) -> round < u64_max ->
  let kept e' := fits (ue_proposer_election e') /\ ue_already_proposed e' = ue_already_proposed e in
  let qc := highest_quorum_cert t in
  let parent := QuorumCert.certified_block qc in
  safe kept (ProposalGenerator.generate_nil_block g round t) (fun b e' => kept e' /\ bi_round parent < round /\
    QuorumCert.ends_epoch qc = false /\
    b = Block.new_nil round qc (missed_rounds leader (pg_max_failed_authors_to_store g) (round + 1) (bi_round parent))) e.
Proof.
  intros He Hmax kept qc parent. unfold ProposalGenerator.generate_nil_block. apply safe_bind, safe_lift.
  pose proof (highest_ensured t round) as Hqc. destruct (ProposalGenerator.ensure_highest_quorum_cert round t) as [qc'| |]; [|done|done].
  destruct Hqc as (-> & Hround & Hends). fold qc in Hround, Hends |- *. fold parent in Hround |- *.
  destruct (compute_failed_authors_ok leader fits g round (bi_round parent) true e) as (p & Hc & Hp); [done|done|lia|].
  apply safe_bind. unfold safe. rewrite Hc. by split_and!.
Qed.

(** What is generated passes the checks on a block. *)
Lemma missed_rounds_fit max round previous : previous < round ->
  N.of_nat (length (missed_rounds leader max round previous)) <= round - (previous + 1) /\
  Block.check_failed_authors previous round (missed_rounds leader max round previous) = Ok tt.
Proof.
  intros Hlt. unfold missed_rounds. set (start := N.max (previous + 1) (round - max)). rewrite length_fmap, length_count_from.
  split; [unfold start; lia|]. apply missed_rounds_checked; unfold start; lia.
Qed.

Lemma generated_well_formed `{CryptoHash BlockData} t g round now d s here :
  generated t g round now d -> round <= u64_max ->
  (BlockInfo.has_reconfiguration (QuorumCert.certified_block (highest_quorum_cert t)) = false ->
     bi_timestamp_usecs (QuorumCert.certified_block (highest_quorum_cert t)) < now <= saturating_add here Block.TIMEBOUND) ->
  Block.verify_well_formed (Block.new_proposal_from_block_data_and_signature d s) here = Ok tt.
Proof.
  intros (Hround & Hends & payload & ts & Hprop & ->) Hmax Htime. unfold Block.verify_well_formed. cbn.
  set (parent := QuorumCert.certified_block (highest_quorum_cert t)) in *.
  rewrite (proj2 (N.ltb_lt (bi_round parent) round)) by done. cbn [ensure mbind outcome_bind]. rewrite N.eqb_refl. cbn [ensure mbind outcome_bind].
  destruct (missed_rounds_fit (pg_max_failed_authors_to_store g) round (bi_round parent) Hround) as [Hlen Hcheck].
  assert (add64 (E := AnyError) round 0 = Ok round) as -> by (apply add64_Ok; lia).
  assert (add64 (E := AnyError) (bi_round parent) 1 = Ok (bi_round parent + 1)) as -> by (apply add64_Ok; lia).
  assert (checked_sub round (bi_round parent + 1) = Some (round - (bi_round parent + 1))) as Hsub.
  { unfold checked_sub. by rewrite (proj2 (N.leb_le _ _)) by lia. }
  cbn [mbind outcome_bind]. rewrite Hsub, (proj2 (N.leb_le _ _) Hlen). cbn [ensure mbind outcome_bind]. rewrite Hcheck. cbn [mbind outcome_bind].
  unfold proposed_on in Hprop. fold parent in Hprop. destruct (BlockInfo.has_reconfiguration parent) eqn:Hrec.
  - injection Hprop as -> ->. cbn. rewrite N.eqb_refl. cbn. by rewrite Hends.
  - destruct Hprop as [Hts _]. cbn in Hts. subst ts. destruct (Htime eq_refl) as [Hlo Hhi]. cbn [orb mbind outcome_bind].
    rewrite (proj2 (N.ltb_lt _ _)) by done. cbn [ensure mbind outcome_bind]. rewrite (proj2 (N.leb_le _ _)) by done.
    cbn [ensure mbind outcome_bind]. by rewrite Hends.
Qed.
End proposals.

(** ** A proposal on top of the execution of Agreement.v *)
#[local] Existing Instance Ledger3.transaction_hash.
Module ProposalExample.
Import StoreExample.

Definition now : N := 40 * 10 ^ 9.
(** Mempool gets two transactions while the proposer waits; the first poll finds none. *)
Definition poll (before : list (Env * Event)) (t : N) : Poll := mkPoll before (SharedMempoolExample.env t) true true true true.
Definition polls : list Poll := [poll [] 1; poll SharedMempoolExample.two_submitted 4].
Definition client : QuorumStoreClient :=
  mkQuorumStoreClient (Shared.start SharedMempoolExample.config RoleFullNode) 2 polls.
Definition self : Proposer RotatingProposer QuorumStoreClient nat :=
  mkProposer (ProposalGenerator.new 2 10 20) (Unequivocal.new (mkRotatingProposer [1; 2; 3] 1)) client 0%nat.
Definition tree : BlockTree := inner session_end.1.
Definition generated : outcome AnyError BlockData * Proposer RotatingProposer QuorumStoreClient nat :=
  ProposalGenerator.generate_proposal 7 now S tree self.
Definition data : BlockData := BlockData.new_proposal (DirectMempool [SharedMempoolExample.txn 0; SharedMempoolExample.txn 1]) 2
  [(6, 1)] 7 now Trace.qc5.
Lemma generated_data : ProposalGenerator.generate_proposal 7 now S tree self = (Ok data, generated.2) /\ pr_node generated.2 = 1%nat.
Proof. by vm_compute. Qed.

Definition check_direct (t : BlockTree) : bool :=
  forallb (fun x : HashValue * LinkableBlock => match Block.payload (eb_block (lb_executed_block x.2)) with
                                                | Some (InQuorumStore _) => false
                                                | _ => true
                                                end) (map_to_list (id_to_block t)).
Lemma check_direct_sound t : check_direct t = true -> direct_tree t.
Proof.
  intros Hall i b. unfold BlockTree.get_block, BlockTree.get_linkable_block. intros (lb & Hlb & ->)%fmap_Some payload Hp.
  unfold check_direct in Hall. rewrite forallb_forall in Hall. apply elem_of_map_to_list, list_elem_of_In, Hall in Hlb. cbn in Hlb.
  rewrite Hp in Hlb. by destruct payload.
Qed.
Lemma tree_direct : direct_tree tree.
Proof. apply check_direct_sound. vm_compute. reflexivity. Qed.

Definition leader : Round -> Author := rotation [1; 2; 3] 1.
Definition fits (p : RotatingProposer) : Prop := p = mkRotatingProposer [1; 2; 3] 1 /\ [1; 2; 3] <> ([] : list Author) /\ 1 <> (0 : N).
Definition ready : QuorumStoreClient -> Prop := client_ok all_sent (fun _ => True) SharedMempoolExample.config SharedMempoolExample.timeout.
Lemma fits_rotating : fits (mkRotatingProposer [1; 2; 3] 1).
Proof. done. Qed.
Lemma polls_fit : events_ok (fun _ => True) SharedMempoolExample.config SharedMempoolExample.timeout 0 (mjoin (poll_events <$> polls)).
Proof. repeat (split; [split_and!; [by vm_compute|by vm_compute|intros i; by vm_compute|by vm_compute]|]). done. Qed.
Lemma self_ok : proposer_ok fits ready self.
Proof.
  split; [exact fits_rotating|]. split; [done|]. exists 0, 0, ∅. split; [|exact polls_fit].
  by apply (start_ok SharedMempoolExample.config RoleFullNode).
Qed.
End ProposalExample.

Module ProposalProps.
(** C17: what a leader proposes.  Let the round be below the largest one and payloads be lists of
    transactions.  Generating a proposal does not panic, and also on errors the round counts
    as generated.  A proposal is for a round above the last one generated, extends the
    highest certified block, and has at most [max_block_size] transactions (one, where that
    is 0), none of them twice and none that is in a block from the commit root to the
    parent.  Every validator finds it well-formed, if the proposer's clock is past the parent's
    timestamp and not too far ahead of its own, and computes the same failed authors from its
    own view of the election.  This holds for any election that elects [leader] and any
    payload manager that honours its filter; mempool does, whatever happens in it. *)
Theorem generated_proposal_correct {P Q M X} `{!ProposerElection P} `{!ProposerElection Q} `{!PayloadManager M} `{CryptoHash BlockData}
    (leader : Round -> Author) (fits : P -> Prop) `{!Elects P leader fits} (fits' : Q -> Prop) `{!Elects Q leader fits'}
    (ready : M -> Prop) `{!PayloadManagerLaws M ready} (content : HashValue -> option BlockData) (t : BlockTree)
    (self self' : Proposer P M X) (round now here : N) (callback : X -> X) (r : result BlockData) (signature : Signature)
    (g' : ProposalGenerator) (e' : UnequivocalProposerElection Q) :
  rounds_increase content -> tree_ok content t -> direct_tree t -> proposer_ok fits ready self -> round < u64_max ->
  ProposalGenerator.generate_proposal round now callback t self = (r, self') ->
  let parent := QuorumCert.certified_block (highest_quorum_cert t) in
  (BlockInfo.has_reconfiguration parent = false -> bi_timestamp_usecs parent < now <= saturating_add here Block.TIMEBOUND) ->
  pg_max_failed_authors_to_store g' = pg_max_failed_authors_to_store (pr_generator self) -> fits' (ue_proposer_election e') ->
  r <> Panic /\ pg_last_round_generated (pr_generator self') = N.max (pg_last_round_generated (pr_generator self)) round /\
  forall d, r = Ok d ->
  pg_last_round_generated (pr_generator self) < round /\
  bd_quorum_cert d = highest_quorum_cert t /\
  Block.verify_well_formed (Block.new_proposal_from_block_data_and_signature d signature) here = Ok tt /\
  (exists failed_authors e'', ProposalGenerator.compute_failed_authors g' round (bi_round parent) false e' = (Ok failed_authors, e'') /\
     BlockData.failed_authors d = Some failed_authors) /\
  exists txns, BlockData.payload d = Some (DirectMempool txns) /\
    N.of_nat (length txns) <= N.max (pg_max_block_size (pr_generator self)) 1 /\ NoDup (Payload.summaries (DirectMempool txns)) /\
    forall path root b payload s, tree_path t (commit_root_id t) (bi_id parent) path -> BlockTree.get_block t (commit_root_id t) = Some root ->
      b ∈ path ++ [root] -> Block.payload (eb_block b) = Some payload ->
      s ∈ Payload.summaries (DirectMempool txns) -> s ∉ Payload.summaries payload.
Proof.
  intros Hrounds Hok Hd Hs Hmax Hgen parent Htime Hg' He'.
  pose proof (generate_proposal_ok leader fits ready content Hrounds t round now callback self Hok Hd Hs Hmax) as Hsafe.
  unfold safe in Hsafe. rewrite Hgen in Hsafe. split; [by destruct r|].
  assert (pr_generator self' = advanced (pr_generator self) round) as Hadv by (destruct r; [apply Hsafe|apply Hsafe|done]).
  split; [by rewrite Hadv|]. intros d ->. destruct Hsafe as [_ [Hlast Hd']]. split; [done|].
  destruct (compute_failed_authors_ok leader fits' g' round (bi_round parent) false e' He' Hmax) as (p & Hc & _);
    [destruct Hd' as [Hr _]; unfold parent; lia|].
  split_and!; [by destruct Hd' as (_ & _ & payload & ts & _ & ->)|by eapply generated_well_formed; [done|lia|done]| |].
  - exists (missed_rounds leader (pg_max_failed_authors_to_store g') round (bi_round parent)), (Unequivocal.set_election p e').
    split; [exact Hc|]. destruct Hd' as (_ & _ & payload & ts & _ & ->). cbn. by rewrite Hg'.
  - destruct Hd' as (_ & _ & payload & ts & Hprop & ->). by eapply (proposed_on_chain content Hrounds).
Qed.

Lemma generated_proposal_correct_witness :
  pg_last_round_generated (pr_generator ProposalExample.generated.2) = 7 /\ Block.verify_well_formed (Block.new_proposal_from_block_data_and_signature ProposalExample.data 7) (ProposalExample.now + 5) = Ok tt.
Proof.
  destruct (generated_proposal_correct (Q := RotatingProposer) ProposalExample.leader ProposalExample.fits ProposalExample.fits
    ProposalExample.ready StoreExample.content ProposalExample.tree ProposalExample.self ProposalExample.generated.2 7 ProposalExample.now
    (ProposalExample.now + 5) S (Ok ProposalExample.data) 7 (ProposalGenerator.new 3 1 20) (Unequivocal.new (mkRotatingProposer [1; 2; 3] 1)))
    as (_ & Hlast & Hfor).
  - exact (ch_rounds _ StoreExample.chain_fine).
  - exact StoreExample.end_tree_fine.
  - exact ProposalExample.tree_direct.
  - exact ProposalExample.self_ok.
  - by vm_compute.
  - exact (proj1 ProposalExample.generated_data).
  - intros _. by vm_compute.
  - done.
  - exact ProposalExample.fits_rotating.
  - split; [exact Hlast|]. destruct (Hfor ProposalExample.data eq_refl) as (_ & _ & Hwf & _). exact Hwf.
Defined.
End ProposalProps.
