(* ===== verification/RoundManager.v ===== *)
(** * The round manager (consensus/src/round_manager.rs)

    What a validator does with the messages of the others and with its own timeouts: it
    brings in certificates, proposes when it is the leader, votes, and collects votes.  It
    works on the block store, the round state, the leader election, the proposal generator
    and, through consensus/src/metrics_safety_rules.rs, on safety rules.  What it sends
    (consensus/src/network.rs) is kept in the order of sending.  The last part is how the
    epoch manager (consensus/src/epoch_manager.rs) sets a round manager up. *)

From S2P Require Import Prelude Crypto Errors Position Accumulator Verifier Ledger ConsensusTypes Blocks Storage SafetyRules PendingVotes TransactionProofs BlockTree ConsensusDb LivenessStorage BlockStore SyncManager LeaderElection ProposalGenerator.

(** ** Messages *)

(** consensus-types/src/experimental *)
Record CommitVote : Type := mkCommitVote { cv_author : Author; cv_ledger_info : LedgerInfo; cv_signature : Signature }.
Record CommitDecision : Type := mkCommitDecision { cd_ledger_info : LedgerInfoWithSignatures }.
Module CommitVote.
Definition epoch (self : CommitVote) : N := bi_epoch (li_commit_info (cv_ledger_info self)).
Definition verify `{Signable LedgerInfo} (self : CommitVote) (validator : ValidatorVerifier) : result unit :=
  with_context "Failed to verify Commit Vote"
    (try_verify (Verifier.verify validator (cv_author self) (cv_ledger_info self) (cv_signature self))).
End CommitVote.
Module CommitDecision.
Definition epoch (self : CommitDecision) : N := bi_epoch (li_commit_info (lis_ledger_info (cd_ledger_info self))).
Definition verify `{Signable LedgerInfo} (self : CommitDecision) (validator : ValidatorVerifier) : result unit :=
  with_context "Failed to verify Commit Decision"
    (try_verify (LedgerInfoWithSignatures.verify_signatures (cd_ledger_info self) validator)).
End CommitDecision.

Inductive UnverifiedEvent : Type :=
  | UnverifiedProposalMsg (p : ProposalMsg)
  | UnverifiedVoteMsg (v : VoteMsg)
  | UnverifiedSyncInfoMsg (s : SyncInfo)
  | UnverifiedCommitVote (cv : CommitVote)
  | UnverifiedCommitDecision (cd : CommitDecision).
Inductive VerifiedEvent : Type :=
  | VerifiedProposalMsg (p : ProposalMsg)
  | VerifiedVoteMsg (v : VoteMsg)
  | UnverifiedSyncInfo (s : SyncInfo)
  | VerifiedCommitVote (cv : CommitVote)
  | VerifiedCommitDecision (cd : CommitDecision)
  | LocalTimeout (round : Round).

Module UnverifiedEvent.
Section verify.
Context `{CryptoHash VoteData} `{Signable LedgerInfo} `{Signable BlockData} `{Signable TimeoutSigningRepr}.
Definition verify (self : UnverifiedEvent) (validator : ValidatorVerifier) (now : N) : result VerifiedEvent :=
  match self with
  | UnverifiedProposalMsg p => _ ← ProposalMsg.verify p validator now; Ok (VerifiedProposalMsg p)
  | UnverifiedVoteMsg v => _ ← VoteMsg.verify v validator; Ok (VerifiedVoteMsg v)
  | UnverifiedSyncInfoMsg s => Ok (UnverifiedSyncInfo s)
  | UnverifiedCommitVote cv => _ ← CommitVote.verify cv validator; Ok (VerifiedCommitVote cv)
  | UnverifiedCommitDecision cd => _ ← CommitDecision.verify cd validator; Ok (VerifiedCommitDecision cd)
  end.
End verify.
Definition epoch (self : UnverifiedEvent) : N :=
  match self with
  | UnverifiedProposalMsg p => ProposalMsg.epoch p
  | UnverifiedVoteMsg v => VoteMsg.epoch v
  | UnverifiedSyncInfoMsg s => SyncInfo.epoch s
  | UnverifiedCommitVote cv => CommitVote.epoch cv
  | UnverifiedCommitDecision cd => CommitDecision.epoch cd
  end.
End UnverifiedEvent.

(** The messages that the round manager sends. *)
Inductive ConsensusMsg : Type :=
  | ProposalMsg_ (p : ProposalMsg)
  | SyncInfo_ (s : SyncInfo)
  | VoteMsg_ (v : VoteMsg).

(** ** Safety rules that initialise themselves *)

(** [?] on the result of safety rules in a function that returns [anyhow::Result]. *)
Definition from_safety_error (e : Error) : AnyError :=
  Msg match e with
      | IncorrectEpoch _ _ => "Provided epoch does not match expected epoch"
      | IncorrectRound _ => "block has next round that wraps around"
      | IncorrectLastVotedRound _ _ => "Provided round is incompatible with last voted round"
      | IncorrectPreferredRound _ _ => "Provided round is incompatible with preferred round"
      | InvalidAccumulatorExtension _ => "Unable to verify that the new tree extends the parent"
      | InvalidEpochChangeProof _ => "Invalid EpochChangeProof"
      | Storage.InternalError _ => "Internal error"
      | InvalidLedgerInfo => "No next_epoch_state specified in the provided Ledger Info"
      | InvalidProposal _ => "Invalid proposal"
      | InvalidQuorumCertificate _ => "Invalid QC"
      | NotInitialized _ => "SafetyRules is not initialized"
      | SecureStorageMissingDataError _ => "Data not found in secure storage"
      | SecureStorageUnexpectedError _ => "Unexpected error returned by secure storage"
      | Storage.SerializationError _ => "Serialization error"
      | ValidatorKeyNotFound _ => "Validator key not found"
      | ValidatorNotInSet _ => "The validator is not in the validator set"
      | VoteProposalSignatureNotFound => "Vote proposal missing expected signature"
      | NotSafeToVote _ _ _ _ => "Does not satisfy 2-chain voting rule"
      | NotSafeToTimeout _ _ _ _ => "Does not satisfy 2-chain timeout rule"
      | InvalidTimeoutCertificate _ => "Invalid TC"
      | InconsistentExecutionResult _ _ => "Inconsistent Execution Result"
      | InvalidOrderedLedgerInfo _ => "Invalid Ordered LedgerInfoWithSignatures"
      | WaypointOutOfDate _ _ _ _ => "Waypoint out of date"
      | InvalidTimeout _ => "Invalid Timeout"
      end.

Module MetricsSafetyRules.
Section rules.
Context `{KVStorage Store} `{ConsensusCrypto} `{PersistentLivenessStorage L}.
(** At most [fuel] initialisations in one request. *)
Context (fuel : nat) (info_enabled : bool) (storage : L).
Abbreviation SR := (SafetyRules Store) (only parsing).

Fixpoint initialize_loop (fuel : nat) (waypoint_version : Version) : method SR Error unit := fun self =>
  match fuel with
  | O => (Panic, self)
  | S fuel =>
      match retrieve_epoch_change_proof waypoint_version storage with
      | Ok proofs =>
          match SafetyRules.guarded_initialize proofs self with
          | (Err (WaypointOutOfDate prev_version curr_version current_epoch provided_epoch), self) =>
              if prev_version <? curr_version then initialize_loop fuel curr_version self
              else (Err (WaypointOutOfDate prev_version curr_version current_epoch provided_epoch), self)
          | r => r
          end
      | Err e => (Err (Storage.InternalError (CauseAny e)), self)
      | Panic => (Panic, self)
      end
  end.
Definition perform_initialize : method SR Error unit :=
  consensus_state ← SafetyRules.guarded_consensus_state info_enabled;
  initialize_loop fuel (wp_version (cs_waypoint consensus_state)).

Definition retry {A} (f : method SR Error A) : method SR Error A := fun self =>
  match f self with
  | (Err (NotInitialized _ | IncorrectEpoch _ _ | WaypointOutOfDate _ _ _ _), self) => (_ ← perform_initialize; f) self
  | r => r
  end.

Definition sign_proposal (block_data : BlockData) : method SR Error Signature :=
  retry (SafetyRules.guarded_sign_proposal block_data).
Definition sign_timeout_with_qc (timeout : TwoChainTimeout) (timeout_cert : option TwoChainTimeoutCertificate)
    : method SR Error Signature :=
  retry (SafetyRules.guarded_sign_timeout_with_qc timeout timeout_cert).
Definition construct_and_sign_vote_two_chain (now : N) (vote_proposal : VoteProposal)
    (timeout_cert : option TwoChainTimeoutCertificate) : method SR Error Vote :=
  retry (SafetyRules.guarded_construct_and_sign_vote_two_chain now vote_proposal timeout_cert).
Definition sign_commit_vote (ledger_info : LedgerInfoWithSignatures) (new_ledger_info : LedgerInfo) : method SR Error Signature :=
  retry (SafetyRules.guarded_sign_commit_vote ledger_info new_ledger_info).
End rules.
End MetricsSafetyRules.

(** ** The round manager *)

(** The block store, the storage in it and safety rules are shared with other parts of the
    node; [rm_sent] are the messages sent so far with their recipients. *)
Record RoundManager (C L W P M Store : Type) : Type := mkRoundManager {
  rm_epoch_state : EpochState;
  rm_block_store : BlockStore C L;
  rm_round_state : RoundState;
  rm_proposer_election : UnequivocalProposerElection P;
  rm_proposal_generator : ProposalGenerator;
  rm_payload_manager : M;
  rm_safety_rules : SafetyRules Store;
  rm_network : NetworkSender W;
  rm_sent : list (Author * ConsensusMsg);
  rm_sync_only : bool;
  rm_onchain_config : OnChainConsensusConfig;
}.
Arguments mkRoundManager {C L W P M Store}.
Arguments rm_epoch_state {C L W P M Store}.
Arguments rm_block_store {C L W P M Store}.
Arguments rm_round_state {C L W P M Store}.
Arguments rm_proposer_election {C L W P M Store}.
Arguments rm_proposal_generator {C L W P M Store}.
Arguments rm_payload_manager {C L W P M Store}.
Arguments rm_safety_rules {C L W P M Store}.
Arguments rm_network {C L W P M Store}.
Arguments rm_sent {C L W P M Store}.
Arguments rm_sync_only {C L W P M Store}.
Arguments rm_onchain_config {C L W P M Store}.

(** Around an event: the clock in nanoseconds, at its readings for the deadline of a new
    round (0), of a leader's round (1), the time of a proposal (2), the deadline after a
    timeout (3) and the check of a proposal (4); the log level; and a bound on the
    initialisations of safety rules. *)
Record RoundEnv : Type := mkRoundEnv {
  re_clock : nat -> N;
  re_log_enabled : bool;
  re_fuel : nat;
}.

Module RoundManager.
Section manager.
Context `{HashOrder} `{StateComputer C} `{PersistentLivenessStorage L} `{ConsensusNetwork W}.
Context `{!ProposerElection P} `{!PayloadManager M} `{KVStorage Store} `{ConsensusCrypto} `{CryptoHash BlockData} `{CryptoHash LedgerInfo}.
Context (get_round_duration : N -> N).
Abbreviation RM := (RoundManager C L W P M Store).
Abbreviation step A := (method RM AnyError A).
Implicit Types (self : RM) (env : RoundEnv).

Definition new (epoch_state : EpochState) (block_store : BlockStore C L) (round_state : RoundState) (proposer_election : P)
    (proposal_generator : ProposalGenerator) (payload_manager : M) (safety_rules : SafetyRules Store) (network : NetworkSender W)
    (sync_only : bool) (onchain_config : OnChainConsensusConfig) : RM :=
  mkRoundManager epoch_state block_store round_state (Unequivocal.new proposer_election) proposal_generator payload_manager
    safety_rules network [] sync_only onchain_config.

(** *** The parts *)
Definition set_round_state (r : RoundState) self : RM :=
  mkRoundManager (rm_epoch_state self) (rm_block_store self) r (rm_proposer_election self) (rm_proposal_generator self)
    (rm_payload_manager self) (rm_safety_rules self) (rm_network self) (rm_sent self) (rm_sync_only self) (rm_onchain_config self).
Definition set_store (s : BlockStore C L) self : RM :=
  mkRoundManager (rm_epoch_state self) s (rm_round_state self) (rm_proposer_election self) (rm_proposal_generator self)
    (rm_payload_manager self) (rm_safety_rules self) (rm_network self) (rm_sent self) (rm_sync_only self) (rm_onchain_config self).
Definition set_network (n : NetworkSender W) self : RM :=
  mkRoundManager (rm_epoch_state self) (rm_block_store self) (rm_round_state self) (rm_proposer_election self) (rm_proposal_generator self)
    (rm_payload_manager self) (rm_safety_rules self) n (rm_sent self) (rm_sync_only self) (rm_onchain_config self).
Definition set_election (e : UnequivocalProposerElection P) self : RM :=
  mkRoundManager (rm_epoch_state self) (rm_block_store self) (rm_round_state self) e (rm_proposal_generator self)
    (rm_payload_manager self) (rm_safety_rules self) (rm_network self) (rm_sent self) (rm_sync_only self) (rm_onchain_config self).
Definition set_proposer (p : Proposer P M (list (Author * ConsensusMsg))) self : RM :=
  mkRoundManager (rm_epoch_state self) (rm_block_store self) (rm_round_state self) (pr_election p) (pr_generator p)
    (pr_payload_manager p) (rm_safety_rules self) (rm_network self) (pr_node p) (rm_sync_only self) (rm_onchain_config self).
Definition set_safety_rules (s : SafetyRules Store) self : RM :=
  mkRoundManager (rm_epoch_state self) (rm_block_store self) (rm_round_state self) (rm_proposer_election self) (rm_proposal_generator self)
    (rm_payload_manager self) s (rm_network self) (rm_sent self) (rm_sync_only self) (rm_onchain_config self).
Definition set_sent (l : list (Author * ConsensusMsg)) self : RM :=
  mkRoundManager (rm_epoch_state self) (rm_block_store self) (rm_round_state self) (rm_proposer_election self) (rm_proposal_generator self)
    (rm_payload_manager self) (rm_safety_rules self) (rm_network self) l (rm_sync_only self) (rm_onchain_config self).

Definition on_round_state {A} : method RoundState AnyError A -> step A := on rm_round_state set_round_state.
Definition on_store {A} : method (BlockStore C L) AnyError A -> step A := on rm_block_store set_store.
Definition on_election {A} : method (UnequivocalProposerElection P) AnyError A -> step A := on rm_proposer_election set_election.
(** The block store with a [BlockRetriever] that asks [author] first. *)
Definition on_session {A} (author : Author) : method (BlockStore C L * BlockRetriever W) AnyError A -> step A :=
  on (fun self => (rm_block_store self, mkBlockRetriever (rm_network self) author))
     (fun s self => set_network (br_network s.2) (set_store s.1 self)).
Definition on_proposer {A} : method (Proposer P M (list (Author * ConsensusMsg))) AnyError A -> step A :=
  on (fun self => mkProposer (rm_proposal_generator self) (rm_proposer_election self) (rm_payload_manager self) (rm_sent self)) set_proposer.
Definition on_safety_rules {A} env (f : nat -> bool -> L -> method (SafetyRules Store) Error A) : step A := fun self =>
  let '(r, s) := f (re_fuel env) (re_log_enabled env) (storage (rm_block_store self)) (rm_safety_rules self) in
  (map_err from_safety_error r, set_safety_rules s self).
Definition tree self : BlockTree := inner (rm_block_store self).
Definition sync_info self : SyncInfo := BlockStore.sync_info (rm_block_store self).
Definition author self : Author := pg_author (rm_proposal_generator self).
Definition decoupled_execution self : bool := oc_decoupled_execution (rm_onchain_config self).

(** *** Sending *)
Definition addressed (self_author : Author) (validators : ValidatorVerifier) (msg : ConsensusMsg) : list (Author * ConsensusMsg) :=
  (fun a => (a, msg)) <$> self_author :: filter (fun a => a <> self_author) (Verifier.get_ordered_account_addresses_iter validators).
Definition broadcast (msg : ConsensusMsg) : step unit :=
  puts (fun self => set_sent (rm_sent self ++ addressed (ns_author (rm_network self)) (ns_validators (rm_network self)) msg) self).
Definition send (msg : ConsensusMsg) (recipients : list Author) : step unit :=
  puts (fun self => set_sent (rm_sent self ++ ((fun a => (a, msg)) <$> recipients)) self).

(** [let result = m; k?; result] *)
Definition then_always (m k : step unit) : step unit := fun self =>
  match m self with
  | (Panic, self) => (Panic, self)
  | (result, self) => (_ ← k; lift result) self
  end.

(** *** New rounds *)
Definition generate_proposal env (new_round_event : NewRoundEvent) : step ProposalMsg :=
  callback ← gets (fun self => Ok (fun sent =>
                sent ++ addressed (ns_author (rm_network self)) (ns_validators (rm_network self)) (SyncInfo_ (sync_info self))));
  block_tree ← gets (fun self => Ok (tree self));
  proposal ← on_proposer (ProposalGenerator.generate_proposal (nre_round new_round_event) (re_clock env 2%nat / 1000) callback block_tree);
  signature ← on_safety_rules env (fun fuel info storage => MetricsSafetyRules.sign_proposal fuel info storage proposal);
  let signed_proposal := Block.new_proposal_from_block_data_and_signature proposal signature in
  info ← gets (fun self => Ok (sync_info self));
  mret (mkProposalMsg signed_proposal info).

Definition process_new_round_event env (new_round_event : NewRoundEvent) : step unit :=
  me ← gets (fun self => Ok (author self));
  leader ← on_election (is_valid_proposer me (nre_round new_round_event));
  if leader : bool then
    _ ← on_round_state (RoundState.setup_leader_timeout get_round_duration (re_clock env 1%nat));
    proposal_msg ← generate_proposal env new_round_event;
    broadcast (ProposalMsg_ proposal_msg)
  else mret tt.

Definition process_certificates env : step unit :=
  info ← gets (fun self => Ok (sync_info self));
  new_round_event ← on_round_state (RoundState.process_certificates get_round_duration (re_clock env 0%nat) info);
  match new_round_event with
  | Some new_round_event => process_new_round_event env new_round_event
  | None => mret tt
  end.

(** *** Catching up *)
Definition sync_up env (info : SyncInfo) (from : Author) : step unit :=
  local_sync_info ← gets (fun self => Ok (sync_info self));
  if SyncInfo.has_newer_certificates info local_sync_info then
    _ ← gets (fun self => SyncInfo.verify info (es_verifier (rm_epoch_state self)));
    then_always (on_session from (SyncManager.add_certs info)) (process_certificates env)
  else mret tt.

Definition ensure_round_and_sync_up env (message_round : Round) (info : SyncInfo) (from : Author) : step bool :=
  round ← gets (fun self => Ok (current_round (rm_round_state self)));
  if message_round <? round then mret false
  else
    _ ← sync_up env info from;
    _ ← gets (fun self => ensure (message_round =? current_round (rm_round_state self))
                            (Msg "After sync, round doesn't match local"));
    mret true.

Definition process_sync_info_msg env (info : SyncInfo) (peer : Author) : step unit :=
  next ← lift (ok_or (checked_add (SyncInfo.highest_round info) 1) (Msg "Operation results in overflow/underflow"));
  _ ← BlockStore.with_context_m "[RoundManager] Failed to process sync info msg" (ensure_round_and_sync_up env next info peer);
  mret tt.

(** *** Voting *)
Definition sync_only self : result bool :=
  if decoupled_execution self then
    commit_root ← BlockStore.commit_root (rm_block_store self);
    ordered_root ← BlockStore.ordered_root (rm_block_store self);
    sync_or_not ← (if rm_sync_only self then Ok true
                   else limit ← add64 (OnChainConsensusConfig.back_pressure_limit (rm_onchain_config self)) (ExecutedBlock.round commit_root);
                        Ok (limit <? ExecutedBlock.round ordered_root));
    _ ← sub64 (ExecutedBlock.round ordered_root) (ExecutedBlock.round commit_root);
    Ok sync_or_not
  else Ok (rm_sync_only self).

Definition execute_and_vote env (proposed_block : Block) : step Vote :=
  executed_block ← BlockStore.with_context_m "[RoundManager] Failed to execute_and_insert the block"
                     (on_store (BlockStore.execute_and_insert_block proposed_block));
  _ ← gets (fun self => ensure (bool_decide (vote_sent (rm_round_state self) = None)) (Msg "[RoundManager] Already vote on this round"));
  stop ← gets sync_only;
  _ ← lift (ensure (negb stop) (Msg "[RoundManager] sync_only flag is set, stop voting"));
  vote_proposal ← gets (fun self => Ok (ExecutedBlock.vote_proposal executed_block (decoupled_execution self)));
  timeout_cert ← gets (fun self => Ok (highest_2chain_timeout_cert (tree self)));
  vote ← BlockStore.with_context_m "[RoundManager] SafetyRules Rejected"
           (on_safety_rules env (fun fuel info storage =>
              MetricsSafetyRules.construct_and_sign_vote_two_chain fuel info storage (re_clock env 4%nat / 1000) vote_proposal timeout_cert));
  _ ← BlockStore.with_context_m "[RoundManager] Fail to persist last vote" (on_store (BlockStore.on_storage (save_vote vote)));
  mret vote.

Definition process_proposal env (proposal : Block) : step unit :=
  _ ← lift (expect (Block.author proposal));
  valid ← on_election (Unequivocal.is_valid_proposal proposal);
  _ ← lift (ensure valid (Msg "[RoundManager] Proposer is not a valid proposer for this round or created duplicate proposal"));
  generator ← gets (fun self => Ok (rm_proposal_generator self));
  expected_failed_authors ← on_election (ProposalGenerator.compute_failed_authors generator (Block.round proposal)
                              (bi_round (QuorumCert.certified_block (Block.quorum_cert proposal))) false);
  _ ← lift (ensure match BlockData.failed_authors (b_block_data proposal) with
                   | Some failed_authors => bool_decide (failed_authors = expected_failed_authors)
                   | None => false
                   end (Msg "[RoundManager] Proposal for block has invalid failed_authors list"));
  _ ← gets (fun self => ensure (Block.timestamp_usecs proposal * 1000 <? current_round_deadline (rm_round_state self))
              (Msg "[RoundManager] Waiting until proposal block timestamp would exceed the round duration"));
  vote ← BlockStore.with_context_m "[RoundManager] Process proposal" (execute_and_vote env proposal);
  next ← lift (add64 (Block.round proposal) 1);
  recipient ← on_election (get_valid_proposer next);
  _ ← on_round_state (puts (RoundState.record_vote vote));
  info ← gets (fun self => Ok (sync_info self));
  send (VoteMsg_ (mkVoteMsg vote info)) [recipient].

Definition process_proposal_msg env (proposal_msg : ProposalMsg) : step unit :=
  proposer ← lift (ProposalMsg.proposer proposal_msg);
  in_round ← BlockStore.with_context_m "[RoundManager] Process proposal"
               (ensure_round_and_sync_up env (Block.round (pm_proposal proposal_msg)) (pm_sync_info proposal_msg) proposer);
  if in_round : bool then process_proposal env (pm_proposal proposal_msg) else lift (Err (Msg "Stale proposal")).

(** *** Timeouts *)
Definition backup_vote env (round : Round) : step Vote :=
  generator ← gets (fun self => Ok (rm_proposal_generator self));
  block_tree ← gets (fun self => Ok (tree self));
  nil_block ← on_election (ProposalGenerator.generate_nil_block generator round block_tree);
  execute_and_vote env nil_block.

Definition process_local_timeout env (round : Round) : step unit :=
  current ← on_round_state (RoundState.process_local_timeout get_round_duration (re_clock env 3%nat) round);
  if negb current then mret tt
  else
    stop ← gets sync_only;
    if stop : bool then
      info ← gets (fun self => Ok (sync_info self));
      _ ← broadcast (SyncInfo_ info);
      lift (Err (Msg "[RoundManager] sync_only flag is set, broadcasting SyncInfo"))
    else
      sent ← gets (fun self => Ok (vote_sent (rm_round_state self)));
      timeout_vote ← match sent with
                     | Some vote => if bi_round (vd_proposed (v_vote_data vote)) =? round then mret vote else backup_vote env round
                     | None => backup_vote env round
                     end;
      timeout_vote ← (if Vote.is_timeout timeout_vote then mret timeout_vote
                      else
                        timeout ← gets (fun self => Ok (Vote.generate_2chain_timeout timeout_vote (highest_quorum_cert (tree self))));
                        timeout_cert ← gets (fun self => Ok (highest_2chain_timeout_cert (tree self)));
                        signature ← BlockStore.with_context_m "[RoundManager] SafetyRules signs 2-chain timeout"
                          (on_safety_rules env (fun fuel info storage =>
                             MetricsSafetyRules.sign_timeout_with_qc fuel info storage timeout timeout_cert));
                        mret (Vote.add_2chain_timeout timeout_vote timeout signature));
      _ ← on_round_state (puts (RoundState.record_vote timeout_vote));
      info ← gets (fun self => Ok (sync_info self));
      _ ← broadcast (VoteMsg_ (mkVoteMsg timeout_vote info));
      _ ← (if re_log_enabled env then _ ← on_election (get_valid_proposer round); mret tt else mret tt);
      lift (Err (Msg "Round timeout, broadcast to all peers")).

(** *** Votes of others *)
Definition new_qc_aggregated env (qc : QuorumCert) (preferred_peer : Author) : step unit :=
  then_always (BlockStore.with_context_m "[RoundManager] Failed to process a newly aggregated QC"
                 (on_session preferred_peer (SyncManager.insert_quorum_cert qc)))
    (process_certificates env).
Definition new_2chain_tc_aggregated env (tc : TwoChainTimeoutCertificate) : step unit :=
  then_always (BlockStore.with_context_m "[RoundManager] Failed to process a newly aggregated 2-chain TC"
                 (on_store (BlockStore.insert_2chain_timeout_certificate tc)))
    (process_certificates env).

Definition process_vote env (vote : Vote) : step unit :=
  let round := bi_round (vd_proposed (v_vote_data vote)) in
  _ ← (if Vote.is_timeout vote then mret tt
       else
         next_round ← lift (add64 round 1);
         me ← gets (fun self => Ok (author self));
         collector ← on_election (is_valid_proposer me next_round);
         lift (ensure collector (Msg "[RoundManager] Received vote, but I am not a valid proposer for round, ignore.")));
  let block_id := bi_id (vd_proposed (v_vote_data vote)) in
  known ← gets (fun self => Ok (BlockStore.get_quorum_cert_for_block block_id (rm_block_store self)));
  match known with
  | Some _ => mret tt
  | None =>
      verifier ← gets (fun self => Ok (es_verifier (rm_epoch_state self)));
      reception ← on_round_state (RoundState.insert_vote vote verifier);
      match reception with
      | NewQuorumCertificate qc => new_qc_aggregated env qc (v_author vote)
      | New2ChainTimeoutCertificate tc => new_2chain_tc_aggregated env tc
      | EchoTimeout _ =>
          voted ← gets (fun self => Ok (RoundState.is_vote_timeout (rm_round_state self)));
          if voted : bool then mret tt else process_local_timeout env round
      | _ => mret tt
      end
  end.

Definition process_vote_msg env (vote_msg : VoteMsg) : step unit :=
  in_round ← BlockStore.with_context_m "[RoundManager] Stop processing vote"
               (ensure_round_and_sync_up env (bi_round (vd_proposed (v_vote_data (vm_vote vote_msg)))) (vm_sync_info vote_msg)
                  (v_author (vm_vote vote_msg)));
  if in_round : bool then BlockStore.with_context_m "[RoundManager] Add a new vote" (process_vote env (vm_vote vote_msg))
  else mret tt.

(** *** The event loop *)
Definition init env (last_vote_sent : option Vote) : step unit :=
  info ← gets (fun self => Ok (sync_info self));
  new_round_event ← on_round_state (RoundState.process_certificates get_round_duration (re_clock env 0%nat) info);
  new_round_event ← lift (expect new_round_event);
  _ ← match last_vote_sent with
      | Some vote => on_round_state (puts (RoundState.record_vote vote))
      | None => mret tt
      end;
  BlockStore.log_error (process_new_round_event env new_round_event).

(** One turn of the loop in [start]; other events go elsewhere. *)
Definition handle env (peer_id : Author) (event : VerifiedEvent) : step unit :=
  match event with
  | VerifiedProposalMsg proposal_msg => process_proposal_msg env proposal_msg
  | VerifiedVoteMsg vote_msg => process_vote_msg env vote_msg
  | UnverifiedSyncInfo info => process_sync_info_msg env info peer_id
  | LocalTimeout round => process_local_timeout env round
  | VerifiedCommitVote _ | VerifiedCommitDecision _ => lift Panic
  end.
End manager.
End RoundManager.

(** ** Starting a round manager *)
Record ConsensusConfig : Type := mkConsensusConfig {
  cfg_max_pruned_blocks_in_mem : N;
  cfg_max_block_size : N;
  cfg_sync_only : bool;
}.

(** What it starts from are the storage, the state computer, safety rules and the network
    that the last round manager has left; the election and the payload manager are created
    from the configuration. *)
Module EpochManager.
Section start.
Context `{HashOrder} `{StateComputer C} `{PersistentLivenessStorage L} `{ConsensusNetwork W}.
Context `{!ProposerElection P} `{!PayloadManager M} `{KVStorage Store} `{ConsensusCrypto} `{CryptoHash BlockData} `{CryptoHash LedgerInfo}.
Context (get_round_duration : N -> N) (config : ConsensusConfig) (epoch_state : EpochState) (onchain_config : OnChainConsensusConfig).
Context (proposer_election : P) (payload_manager : M).
Abbreviation RM := (RoundManager C L W P M Store).

Definition on_environment {A} (m : method (C * L) AnyError A) : method RM AnyError A :=
  RoundManager.on_store (on (fun st => (state_computer st, storage st))
    (fun env st => mkBlockStore (inner st) env.1 env.2 (back_pressure_limit st) (callbacks st)) m).

(** A failed initialisation is only logged. *)
Definition initialize_rules (env : RoundEnv) : method RM AnyError unit :=
  BlockStore.log_error (RoundManager.on_safety_rules env (fun fuel info storage =>
    MetricsSafetyRules.perform_initialize fuel info storage)).

Definition start_round_manager (env : RoundEnv) (recovery_data : RecoveryData) : method RM AnyError unit :=
  let last_vote := rd_last_vote recovery_data in
  _ ← initialize_rules env;
  let round_state := RoundState.new (re_clock env 0%nat) in
  block_store ← on_environment (BlockStore.new recovery_data (cfg_max_pruned_blocks_in_mem config)
                                  (OnChainConsensusConfig.back_pressure_limit onchain_config));
  _ ← puts (fun self : RM =>
        let author := RoundManager.author self in
        let network_sender := mkNetworkSender author (ns_network_sender (rm_network self)) (es_verifier epoch_state) in
        let proposal_generator := ProposalGenerator.new author (cfg_max_block_size config) (oc_max_failed_authors_to_store onchain_config) in
        RoundManager.set_sent (rm_sent self)
          (RoundManager.new epoch_state block_store round_state proposer_election proposal_generator payload_manager
             (rm_safety_rules self) network_sender (cfg_sync_only config) onchain_config));
  RoundManager.init get_round_duration env last_vote.

Definition start_new_epoch (env : RoundEnv) : method RM AnyError unit :=
  initial_data ← expect_ok_m (RoundManager.on_store (BlockStore.on_storage start));
  match initial_data with
  | FullRecoveryData initial_data => start_round_manager env initial_data
  | PartialRecoveryData _ => lift Panic
  end.
End start.
End EpochManager.
