(* ===== verification/RoundManagerLemmas.v ===== *)
(** * What the parts of a node keep

    A node passes on what it has received: the blocks of its tree carry certificates that
    are genuine if those it was sent are, whatever fails on the way.  The lemmas follow
    every operation of the block store, of the synchroniser and of the collection of
    votes; the last part shows that the safety rules that initialise themselves are a
    sequence of requests of a replica. *)

From S2P Require Import Prelude Crypto Errors Position Accumulator Verifier Ledger ConsensusTypes Blocks Storage SafetyRules SafetyLemmas Replica Bft PendingVotes TransactionProofs BlockTree ConsensusDb LivenessStorage BlockStore SyncManager LeaderElection ProposalGenerator RoundManager.

(** ** Outcomes of any kind

    [Q] holds if the method succeeds, and [I] if it fails or panics. *)
Section holds.
Context {S E : Type} (I : S -> Prop).

Definition holds {A} (m : method S E A) (Q : A -> S -> Prop) (s : S) : Prop :=
  match m s with (Ok a, s') => Q a s' | (_, s') => I s' end.
Definition keeps {A} (m : method S E A) : Prop := forall s, I s -> I (m s).2.

Lemma holds_bind {A B} (m : method S E A) (f : A -> method S E B) Q s :
  holds m (fun a s' => holds (f a) Q s') s -> holds (m ≫= f) Q s.
Proof. unfold holds, mbind, method_bind. by destruct (m s) as [[a|e|] s']. Qed.
Lemma holds_mono {A} (m : method S E A) (Q Q' : A -> S -> Prop) s :
  holds m Q s -> (forall a s', Q a s' -> Q' a s') -> holds m Q' s.
Proof. unfold holds. destruct (m s) as [[a|e|] s']; auto. Qed.
Lemma holds_gets {A} (f : S -> outcome E A) (Q : A -> S -> Prop) s :
  I s -> (forall a, f s = Ok a -> Q a s) -> holds (gets f) Q s.
Proof. intros HI HQ. unfold holds, gets. destruct (f s); auto. Qed.
Lemma holds_lift {A} (o : outcome E A) (Q : A -> S -> Prop) s :
  I s -> (forall a, o = Ok a -> Q a s) -> holds (lift o) Q s.
Proof. intros HI HQ. unfold holds, lift. destruct o; auto. Qed.
Lemma holds_keeps {A} (m : method S E A) s : keeps m -> I s -> holds m (fun _ => I) s.
Proof. intros Hm Hs%Hm. unfold holds. by destruct (m s) as [[a|e|] s']. Qed.
Lemma keeps_holds {A} (m : method S E A) (Q : A -> S -> Prop) :
  (forall s, I s -> holds m Q s) -> (forall a s, Q a s -> I s) -> keeps m.
Proof. intros Hm HQ s Hs%Hm. unfold holds in Hs. destruct (m s) as [[a|e|] s']; eauto. Qed.

Lemma keeps_bind {A B} (m : method S E A) (f : A -> method S E B) : keeps m -> (forall a, keeps (f a)) -> keeps (m ≫= f).
Proof.
  intros Hm Hf s Hs%Hm. unfold mbind, method_bind. destruct (m s) as [[a|e|] s']; [by apply Hf|done..].
Qed.
Lemma keeps_ret {A} (a : A) : keeps (mret a).
Proof. by intros s. Qed.
Lemma keeps_gets {A} (f : S -> outcome E A) : keeps (gets f).
Proof. by intros s. Qed.
Lemma keeps_lift {A} (o : outcome E A) : keeps (lift o).
Proof. by intros s. Qed.
Lemma keeps_puts f : (forall s, I s -> I (f s)) -> keeps (puts f).
Proof. by intros Hf s Hs%Hf. Qed.
End holds.

Lemma holds_on {S T E A} (I : S -> Prop) (J : T -> Prop) get set (m : method T E A) (Q : A -> S -> Prop) s :
  holds J m (fun a t => Q a (set t s)) (get s) -> (forall t, J t -> I (set t s)) -> holds I (on get set m) Q s.
Proof. unfold holds, on. destruct (m (get s)) as [[a|e|] t]; auto. Qed.
Lemma keeps_on {S T E A} (I : S -> Prop) (J : T -> Prop) get set (m : method T E A) :
  keeps J m -> (forall s, I s -> J (get s)) -> (forall s t, I s -> J t -> I (set t s)) -> keeps I (on get set m).
Proof. intros Hm Hg Hs s HI. unfold on. pose proof (Hm _ (Hg _ HI)). destruct (m (get s)) as [r t]. by apply Hs. Qed.

Lemma holds_context {S A} (I : S -> Prop) c (m : method S AnyError A) Q s :
  holds I m Q s -> holds I (BlockStore.with_context_m c m) Q s.
Proof. unfold holds, BlockStore.with_context_m. by destruct (m s) as [[a|e|] s']. Qed.
Lemma keeps_context {S A} (I : S -> Prop) c (m : method S AnyError A) : keeps I m -> keeps I (BlockStore.with_context_m c m).
Proof. intros Hm s Hs%Hm. unfold BlockStore.with_context_m. by destruct (m s). Qed.
Lemma keeps_log_error {S} (I : S -> Prop) (m : method S AnyError unit) : keeps I m -> keeps I (BlockStore.log_error m).
Proof. intros Hm s Hs%Hm. unfold BlockStore.log_error. by destruct (m s) as [[a|e|] s']. Qed.
Lemma keeps_expect_ok {S E F A} (I : S -> Prop) (m : method S E A) : keeps I m -> keeps I (expect_ok_m (F := F) m).
Proof. intros Hm s Hs%Hm. unfold expect_ok_m. by destruct (m s). Qed.
Lemma keeps_executor {C L A} (I : BlockStore C L -> Prop) (m : method (BlockStore C L) ExecutorError A) :
  keeps I m -> keeps I (BlockStore.try_executor m).
Proof. intros Hm s Hs%Hm. unfold BlockStore.try_executor. by destruct (m s). Qed.

Create HintDb keeps.
#[export] Hint Resolve keeps_ret keeps_gets keeps_lift keeps_context keeps_log_error keeps_expect_ok keeps_executor : keeps.
(** Decomposes a sequence of steps. *)
Ltac keep :=
  repeat first
    [ match goal with |- keeps _ (mbind _ _) => apply keeps_bind; [|intros ?] end
    | progress cbv beta iota zeta
    | solve [eauto with keeps]
    | match goal with |- keeps _ (match ?x with _ => _ end) => destruct x end ].

(** ** Genuine certificates *)
Section good.
Context (e : N) (fair : LedgerInfoWithSignatures -> Prop) (fair_tc : TwoChainTimeoutCertificate -> Prop).

(** A block, a certificate and a timeout certificate of the epoch. *)
Definition good_block (b : Block) : Prop := Block.epoch b = e /\ fair (qc_signed_ledger_info (Block.quorum_cert b)).
Definition good_qc (qc : QuorumCert) : Prop :=
  bi_epoch (QuorumCert.certified_block qc) = e /\ fair (qc_signed_ledger_info qc).
Definition good_tc (tc : TwoChainTimeoutCertificate) : Prop := TwoChainTimeoutCertificate.epoch tc = e /\ fair_tc tc.

Record tree_good (t : BlockTree) : Prop := {
  tg_block i lb : id_to_block t !! i = Some lb -> good_block (eb_block (lb_executed_block lb));
  tg_highest : good_qc (highest_quorum_cert t);
  tg_tc tc : highest_2chain_timeout_cert t = Some tc -> good_tc tc;
}.
End good.

(** What is known of signatures: which ledger infos and timeout certificates are genuine,
    and which votes the node has signed itself. *)
Record Genuine : Type := mkGenuine {
  genuine_li : LedgerInfoWithSignatures -> Prop;
  genuine_tc : TwoChainTimeoutCertificate -> Prop;
  genuine_own : Vote -> Prop;
}.
Definition genuine_le (k k' : Genuine) : Prop :=
  (forall x, genuine_li k x -> genuine_li k' x) /\ (forall x, genuine_tc k x -> genuine_tc k' x) /\
  (forall x, genuine_own k x -> genuine_own k' x).

Record recovery_good (e : N) (k : Genuine) (data : RecoveryData) : Prop := {
  rg_root : good_block e (genuine_li k) (ri_block (rd_root data));
  rg_root_qc : good_qc e (genuine_li k) (ri_quorum_cert (rd_root data));
  rg_blocks : Forall (good_block e (genuine_li k)) (rd_blocks data);
  rg_certs : Forall (fun qc => genuine_li k (qc_signed_ledger_info qc)) (rd_quorum_certs data);
  rg_tc tc : rd_highest_2chain_timeout_certificate data = Some tc -> good_tc e (genuine_tc k) tc;
  rg_last_vote v : rd_last_vote data = Some v -> genuine_own k v;
}.

(** An epoch change proof leads to the validator sets of the chain. *)
Definition trusted_proof (V : N -> ValidatorVerifier) (proof : EpochChangeProof) : Prop :=
  Forall (fun lis => forall es, LedgerInfo.next_epoch_state (lis_ledger_info lis) = Some es -> es_verifier es = V (es_epoch es))
    (ledger_info_with_sigs proof).

(** What a node relies on in its storage during epoch [e]: [recovers k l] says that what is
    stored in [l] is of the epoch and genuine. *)
Class StorageKeeps (L : Type) `{PersistentLivenessStorage L} (V : N -> ValidatorVerifier) (e : N)
    (recovers : Genuine -> L -> Prop) : Prop := {
  recovers_mono k k' l : genuine_le k k' -> recovers k l -> recovers k' l;
  recovers_save k blocks certs l :
    Forall (good_block e (genuine_li k)) blocks -> Forall (fun qc => genuine_li k (qc_signed_ledger_info qc)) certs ->
    recovers k l -> recovers k (save_tree blocks certs l).2;
  recovers_prune k ids l : recovers k l -> recovers k (prune_tree ids l).2;
  recovers_save_vote k vote l : genuine_own k vote -> recovers k l -> recovers k (save_vote vote l).2;
  recovers_save_tc k tc l : good_tc e (genuine_tc k) tc -> recovers k l -> recovers k (save_highest_2chain_timeout_cert tc l).2;
  recovers_start k l : recovers k l -> recovers k (start l).2 /\
    forall data, (start l).1 = Ok (FullRecoveryData data) -> recovery_good e k data;
  recovers_proofs k l version proof : recovers k l -> retrieve_epoch_change_proof version l = Ok proof -> trusted_proof V proof;
}.

(** ** The block store *)
Section store.
Context `{HashOrder} `{StateComputer C} `{PersistentLivenessStorage L}.
Context (V : N -> ValidatorVerifier) (e : N) (recovers : Genuine -> L -> Prop) `{!StorageKeeps L V e recovers} (k : Genuine).
Abbreviation fair := (genuine_li k).
Abbreviation fair_tc := (genuine_tc k).
Abbreviation store := (BlockStore C L).
Abbreviation good_block := (good_block e fair).
Abbreviation good_tc := (good_tc e fair_tc).
Abbreviation tree_good := (tree_good e fair fair_tc).
Abbreviation fair_qc qc := (fair (qc_signed_ledger_info qc)).
Implicit Types (st : BlockStore C L) (t : BlockTree).

Definition store_good st : Prop := tree_good (inner st) /\ recovers k (storage st).

Lemma keeps_tree {E A} (m : method BlockTree E A) : keeps tree_good m -> keeps store_good (BlockStore.on_tree m).
Proof. intros Hm. eapply keeps_on; [exact Hm|by intros st []|by intros st t [] ?]. Qed.
Lemma keeps_computer {E A} (m : method C E A) : keeps store_good (BlockStore.on_computer m).
Proof. by apply (keeps_on _ (fun _ => True)). Qed.
Lemma keeps_storage {E A} (m : method L E A) : keeps (recovers k) m -> keeps store_good (BlockStore.on_storage m).
Proof. intros Hm. eapply keeps_on; [exact Hm|by intros st []|by intros st l [] ?]. Qed.
Lemma keeps_callbacks f : keeps store_good (puts (E := AnyError) (BlockStore.set_callbacks f)).
Proof. by apply keeps_puts. Qed.
Lemma keeps_prune ids : keeps (recovers k) (prune_tree ids).
Proof. intros l. apply recovers_prune. Qed.
Lemma keeps_save blocks certs :
  Forall good_block blocks -> Forall (fun qc => fair_qc qc) certs -> keeps (recovers k) (save_tree blocks certs).
Proof. intros ?? l. by apply recovers_save. Qed.
Lemma keeps_save_tc tc : good_tc tc -> keeps (recovers k) (save_highest_2chain_timeout_cert tc).
Proof. intros ? l. by apply recovers_save_tc. Qed.
Lemma keeps_save_vote vote : genuine_own k vote -> keeps (recovers k) (save_vote vote).
Proof. intros ? l. by apply recovers_save_vote. Qed.

Lemma get_block_good t i x : tree_good t -> BlockTree.get_block t i = Some x -> good_block (eb_block x).
Proof.
  unfold BlockTree.get_block. intros Ht. rewrite fmap_Some. intros (lb & Hlb & ->). by eapply tg_block.
Qed.
Lemma pruned_good ids t : tree_good t -> tree_good (BlockTree.process_pruned_blocks ids t).
Proof.
  unfold BlockTree.process_pruned_blocks. intros Ht. set (l := take _ _). set (t0 := BlockTree.set_pruned _ t).
  assert (tree_good t0) as Ht0 by (by destruct Ht). clearbody l t0. clear Ht. revert t0 Ht0.
  induction l as [|i l IH]; intros t0 Ht0; [done|]. apply IH. destruct Ht0 as [Hb Hq Htc]. split; [|done..].
  cbn. intros j lb [_ Hl]%lookup_delete_Some. by eapply Hb.
Qed.
Lemma keeps_highest_commit qc : keeps tree_good (BlockTree.update_highest_commit_cert qc).
Proof.
  intros t [Hb Hq Htc]. unfold BlockTree.update_highest_commit_cert, BlockTree.update_commit_root. by repeat case_match.
Qed.
Lemma keeps_ordered_root i : keeps tree_good (BlockTree.update_ordered_root i).
Proof. intros t [Hb Hq Htc]. unfold BlockTree.update_ordered_root. by case_match. Qed.
Hint Resolve keeps_tree keeps_computer keeps_storage keeps_callbacks keeps_prune keeps_highest_commit keeps_ordered_root : keeps.

Lemma keeps_commit_callback blocks proof decision : keeps store_good (BlockStore.commit_callback blocks proof decision).
Proof. unfold BlockStore.commit_callback. keep. apply keeps_tree, keeps_puts. intros t. apply pruned_good. Qed.
Hint Resolve keeps_commit_callback : keeps.
Lemma keeps_commit qc : keeps store_good (BlockStore.commit qc).
Proof. unfold BlockStore.commit, BlockStore.persist_commit. keep.
Qed.
Hint Resolve keeps_commit : keeps.
Lemma keeps_try_commit_certs certs : keeps store_good (BlockStore.try_commit_certs certs).
Proof. induction certs as [|qc certs IH]; cbn [BlockStore.try_commit_certs]; keep. Qed.
Lemma keeps_try_commit : keeps store_good BlockStore.try_commit.
Proof. intros st. apply keeps_try_commit_certs. Qed.
Hint Resolve keeps_try_commit : keeps.

(** *** Inserting *)
Lemma keeps_execute block : keeps store_good (BlockStore.execute_block block).
Proof. unfold BlockStore.execute_block. keep. Qed.
Lemma execute_result block st x st' : BlockStore.execute_block block st = (Ok x, st') -> eb_block x = block.
Proof. unfold BlockStore.execute_block. intros Hx. run_ok. done. Qed.
Hint Resolve keeps_execute : keeps.
Lemma keeps_reexecute blocks : keeps store_good (BlockStore.reexecute blocks).
Proof. induction blocks as [|b blocks IH]; cbn [BlockStore.reexecute]; keep. Qed.
Hint Resolve keeps_reexecute : keeps.
Lemma holds_execute block st :
  store_good st -> holds store_good (BlockStore.execute_with_ancestors block) (fun x st' => store_good st' /\ eb_block x = block) st.
Proof.
  intros Hst. unfold holds, BlockStore.execute_with_ancestors.
  assert (forall st, store_good st -> holds store_good (BlockStore.try_executor (BlockStore.execute_block block))
            (fun x st' => store_good st' /\ eb_block x = block) st) as Htry.
  { intros st1 Hst1%(keeps_execute block). unfold holds, BlockStore.try_executor. pose proof (execute_result block st1) as Hx.
    destruct (BlockStore.execute_block block st1) as [[x|err|] st2]; cbn; eauto. }
  pose proof (keeps_execute block st Hst) as Hk. pose proof (execute_result block st) as Hx.
  destruct (BlockStore.execute_block block st) as [[x|[]|] st1]; cbn; eauto.
  apply holds_bind, holds_gets; [done|]. intros path _. apply holds_bind. eapply holds_mono; [by apply holds_keeps; [apply keeps_reexecute|]|].
  intros [] st2. apply Htry.
Qed.

Lemma holds_insert_block x t :
  tree_good t -> good_block (eb_block x) ->
  holds tree_good (BlockTree.insert_block x) (fun y t' => tree_good t' /\ good_block (eb_block y)) t.
Proof.
  intros Ht Hx. unfold holds, BlockTree.insert_block.
  destruct (BlockTree.get_block t (ExecutedBlock.id x)) as [y|] eqn:Hy.
  { destruct (bool_decide _); cbn; [|done]. split; [done|by eapply get_block_good]. }
  destruct (BlockTree.get_linkable_block t (ExecutedBlock.parent_id x)) as [p|] eqn:Hp; [|done].
  destruct (LinkableBlock.add_child _ p) as [p'|err|] eqn:Hc; [|done..].
  assert (lb_executed_block p' = lb_executed_block p) as Heq by (unfold LinkableBlock.add_child in Hc; run_ok; done).
  assert (tree_good (BlockTree.set_blocks (<[ExecutedBlock.id x := LinkableBlock.new x]>
            (<[ExecutedBlock.parent_id x := p']> (id_to_block t))) t)) as Hg.
  { destruct Ht as [Hb Hq Htc]. split; [|done..]. cbn. intros i lb. rewrite lookup_insert_Some.
    intros [[_ <-]|[_ [[_ <-]|[_ Hi]]%lookup_insert_Some]]; [done| |by eapply Hb]. rewrite Heq. by eapply Hb. }
  destruct (bool_decide _); cbn; done.
Qed.

Lemma holds_insert block st :
  store_good st -> good_block block ->
  holds store_good (BlockStore.execute_and_insert_block block) (fun x st' => store_good st' /\ good_block (eb_block x)) st.
Proof.
  intros Hst Hb. unfold BlockStore.execute_and_insert_block.
  destruct (BlockStore.get_block (b_id block) st) as [x|] eqn:Hx.
  { unfold holds. rewrite Hx. split; [done|]. eapply get_block_good; [apply Hst|exact Hx]. }
  unfold holds. rewrite Hx.
  apply (holds_bind store_good), holds_gets; [done|]. intros root _. apply holds_bind, holds_lift; [done|]. intros _ _.
  apply holds_bind. eapply holds_mono; [by apply holds_execute|]. intros x st1 [Hst1 Heq]. rewrite <-Heq in Hb.
  apply holds_bind. eapply holds_mono.
  { apply holds_keeps; [|exact Hst1]. apply keeps_context, keeps_storage, keeps_save; [by constructor|constructor]. }
  intros _ st2 [Ht2 Hl2]. eapply holds_on.
  - eapply holds_mono; [by apply (holds_insert_block x (inner st2) Ht2 Hb)|]. by intros y t [].
  - done.
Qed.

(** A certificate is of the epoch because the block it certifies is. *)
Lemma holds_insert_qc qc x t :
  tree_good t -> fair_qc qc -> bi_epoch (QuorumCert.certified_block qc) = e ->
  BlockTree.get_block t (bi_id (QuorumCert.certified_block qc)) = Some x ->
  holds tree_good (BlockTree.insert_quorum_cert qc) (fun _ => tree_good) t.
Proof.
  intros Ht Hf He Hx. unfold BlockTree.insert_quorum_cert.
  apply holds_bind, holds_gets; [done|]. intros y _. apply holds_bind, holds_gets; [done|]. intros h _.
  apply holds_bind. destruct Ht as [Hb Hq Htc]. by case_match.
Qed.
Lemma holds_insert_cert qc st :
  store_good st -> fair_qc qc -> holds store_good (BlockStore.insert_single_quorum_cert qc) (fun _ => store_good) st.
Proof.
  intros Hst Hf. unfold BlockStore.insert_single_quorum_cert.
  apply holds_bind, holds_gets; [done|]. intros x Hx. run_ok. apply holds_bind, holds_lift; [done|]. intros [] Hm%ensure_Ok.
  assert (bi_epoch (QuorumCert.certified_block qc) = e) as He.
  { unfold BlockInfo.match_ordered_only in Hm. apply andb_prop in Hm as [[[Hm _]%andb_prop _]%andb_prop _].
    apply N.eqb_eq in Hm. rewrite <-Hm. destruct Hst as [Ht _]. by destruct (get_block_good _ _ _ Ht Hx). }
  apply holds_bind. unfold holds at 1. unfold BlockStore.with_context_m, BlockStore.on_storage, on.
  pose proof (keeps_save [] [qc] ltac:(constructor) ltac:(by constructor) (storage st) (proj2 Hst)) as Hs.
  destruct (save_tree [] [qc] (storage st)) as [r l]; cbn in *.
  assert (store_good (mkBlockStore (inner st) (state_computer st) l (back_pressure_limit st) (callbacks st))) as Hst'
    by (split; [apply Hst|exact Hs]).
  destruct r; cbn; [|done..]. apply (holds_on _ tree_good); [|by intros t Ht].
  eapply holds_mono; [exact (holds_insert_qc qc x (inner st) (proj1 Hst) Hf He Hx)|]. by intros [] t Ht.
Qed.
Lemma keeps_insert_cert qc : fair_qc qc -> keeps store_good (BlockStore.insert_single_quorum_cert qc).
Proof. intros Hf. apply (keeps_holds _ _ (fun _ => store_good)); [|done]. intros st Hst. by apply holds_insert_cert. Qed.
Lemma keeps_insert block : good_block block -> keeps store_good (BlockStore.execute_and_insert_block block).
Proof. intros Hb. eapply keeps_holds; [intros st Hst; by apply holds_insert|]. by intros x st []. Qed.
Lemma keeps_insert_tc tc : good_tc tc -> keeps store_good (BlockStore.insert_2chain_timeout_certificate tc).
Proof.
  intros Htc st Hst. unfold BlockStore.insert_2chain_timeout_certificate. destruct (_ <=? _); [done|]. revert st Hst. apply keeps_bind; [by apply keeps_context, keeps_storage, keeps_save_tc|].
  intros _. apply keeps_tree, keeps_puts. intros t [Hb Hq _]. split; [done..|]. by intros c [= <-].
Qed.

(** *** Building *)
Lemma keeps_insert_blocks blocks : Forall good_block blocks -> keeps store_good (BlockStore.insert_blocks blocks).
Proof. induction 1 as [|b blocks Hb _ IH]; cbn [BlockStore.insert_blocks]; keep. apply keeps_expect_ok. by apply keeps_insert. Qed.
Lemma keeps_insert_certs certs : Forall (fun qc => fair_qc qc) certs -> keeps store_good (BlockStore.insert_quorum_certs certs).
Proof. induction 1 as [|qc certs Hqc _ IH]; cbn [BlockStore.insert_quorum_certs]; keep. apply keeps_expect_ok. by apply keeps_insert_cert. Qed.

Lemma build_good data tc max limit (env : C * L) :
  recovery_good e k data -> (forall c, tc = Some c -> good_tc c) -> recovers k env.2 ->
  let '(r, env') := BlockStore.build (rd_root data) (rd_root_metadata data) (rd_blocks data) (rd_quorum_certs data) tc max limit env in
  recovers k env'.2 /\ forall st, r = Ok st -> store_good st.
Proof.
  intros [Hr Hrq Hbs Hcs _ _] Htc Hl. unfold BlockStore.build.
  destruct (BlockStore.root_tree _ _ _ _) as [t|err|] eqn:Ht; [|by split..].
  assert (tree_good t) as Htg.
  { unfold BlockStore.root_tree, BlockTree.new in Ht. run_ok. split; [|done|exact Htc].
    cbn. intros i lb [<- <-]%lookup_singleton_Some. done. }
  assert (store_good (mkBlockStore t env.1 env.2 limit [])) as Hst by (by split).
  apply (keeps_bind store_good _ (fun _ => BlockStore.insert_quorum_certs (rd_quorum_certs data))
           (keeps_insert_blocks _ Hbs) (fun _ => keeps_insert_certs _ Hcs)) in Hst.
  match type of Hst with store_good ?x.2 => destruct x as [r st] end. cbn [snd fst] in *.
  split; [apply Hst|]. intros st' Hst'. run_ok. done.
Qed.
Lemma keeps_rebuild data :
  recovery_good e k data ->
  keeps store_good (BlockStore.rebuild (rd_root data) (rd_root_metadata data) (rd_blocks data) (rd_quorum_certs data)).
Proof.
  intros Hd st Hst. unfold BlockStore.rebuild.
  pose proof (build_good data _ (max_pruned_blocks_in_mem (inner st)) (back_pressure_limit st) (state_computer st, storage st) Hd
                (tg_tc _ _ _ _ (proj1 Hst)) (proj2 Hst)) as Hb.
  destruct (BlockStore.build _ _ _ _ _ _ _ _) as [r [c l]]. destruct Hb as [Hl Hrb]. cbn [snd] in Hl.
  assert (store_good (mkBlockStore (inner st) c l (back_pressure_limit st) (callbacks st))) as Hst2 by (split; [apply Hst|done]).
  destruct r as [rebuilt|err|]; [|done..]. specialize (Hrb _ eq_refl). revert Hst2.
  apply keeps_bind; [keep|intros _]. apply keeps_bind; [|intros _; apply keeps_try_commit].
  apply keeps_puts. intros st3 Hst3. split; [apply Hrb|apply Hst3].
Qed.
Lemma new_good data max limit (env : C * L) :
  recovery_good e k data -> recovers k env.2 ->
  let '(r, env') := BlockStore.new data max limit env in recovers k env'.2 /\ forall st, r = Ok st -> store_good st.
Proof.
  intros Hd Hl. unfold BlockStore.new. pose proof (build_good data _ max limit env Hd (rg_tc _ _ _ Hd) Hl) as Hb.
  destruct (BlockStore.build _ _ _ _ _ _ _ _) as [[st|err|] env']; [|split; [apply Hb|done]..].
  destruct Hb as [_ Hst]. pose proof (keeps_try_commit st (Hst _ eq_refl)) as Hst'.
  destruct (BlockStore.try_commit st) as [r st']. split; [apply Hst'|]. intros st2 Hst2. run_ok. done.
Qed.
End store.

(** ** Peers *)
Section answers.
Context `{CryptoHash VoteData} `{Signable LedgerInfo} `{Signable BlockData} `{ConsensusNetwork W}.
Context (e : N) (vs : ValidatorVerifier).

(** From here on, the blocks in every answer that passes its verification are good. *)
Definition answers (fair : LedgerInfoWithSignatures -> Prop) (w : W) : Prop :=
  exists I : W -> Prop, I w /\ forall w, I w ->
    (forall peer req timeout, let '(r, w') := send_rpc peer req timeout w in I w' /\
       forall resp, r = Ok (Some resp) -> BlockRetrievalResponse.verify resp req vs (clock w') = Ok tt ->
         Forall (good_block e fair) (brs_blocks resp)) /\
    (forall n, I (gen_range n w).2) /\ (forall proof, I (broadcast_epoch_change proof w)) /\
    (forall proof, I (send_epoch_change proof w)) /\ (forall li, I (send_commit_proof li w)).

Lemma answers_mono (fair fair' : LedgerInfoWithSignatures -> Prop) w :
  (forall x, fair x -> fair' x) -> answers fair w -> answers fair' w.
Proof.
  intros Hf (I & Hw & HI). exists I. split; [done|]. intros w1 (Hrpc & ?)%HI. split; [|done].
  intros peer req timeout. specialize (Hrpc peer req timeout). destruct (send_rpc peer req timeout w1) as [r w2].
  destruct Hrpc as [? Hr]. split; [done|]. intros resp Hresp Hv. eapply Forall_impl; [by eapply Hr|].
  intros b []. split; auto.
Qed.
Context (fair : LedgerInfoWithSignatures -> Prop).

Lemma answers_rpc peer req timeout w r w' :
  answers fair w -> send_rpc peer req timeout w = (r, w') -> answers fair w' /\
  forall resp, r = Ok (Some resp) -> BlockRetrievalResponse.verify resp req vs (clock w') = Ok tt -> Forall (good_block e fair) (brs_blocks resp).
Proof.
  intros (I & Hw & HI) Hr. destruct (HI w Hw) as [Hrpc _]. specialize (Hrpc peer req timeout). rewrite Hr in Hrpc.
  destruct Hrpc. split; [|done]. by exists I.
Qed.
Lemma answers_gen n w : answers fair w -> answers fair (gen_range n w).2.
Proof. intros (I & Hw & HI). exists I. split; [|done]. by apply HI. Qed.
Lemma answers_broadcast proof w : answers fair w -> answers fair (broadcast_epoch_change proof w).
Proof. intros (I & Hw & HI). exists I. split; [|done]. by apply HI. Qed.
Lemma answers_epoch proof w : answers fair w -> answers fair (send_epoch_change proof w).
Proof. intros (I & Hw & HI). exists I. split; [|done]. by apply HI. Qed.
Lemma answers_commit li w : answers fair w -> answers fair (send_commit_proof li w).
Proof. intros (I & Hw & HI). exists I. split; [|done]. by apply HI. Qed.

(** *** Retrieval *)
Definition net_good (n : NetworkSender W) : Prop := ns_validators n = vs /\ answers fair (ns_network_sender n).
Definition retriever_good (r : BlockRetriever W) : Prop := net_good (br_network r).
Abbreviation good_blocks := (Forall (good_block e fair)).

Lemma holds_request req peer timeout r :
  retriever_good r ->
  holds retriever_good (BlockRetriever.request_block req peer timeout) (fun resp r' => retriever_good r' /\ good_blocks (brs_blocks resp)) r.
Proof.
  intros [Hvs Hw]. unfold BlockRetriever.request_block. apply holds_bind, holds_gets; [done|]. intros _ _.
  apply holds_bind. unfold holds at 1. unfold on, BlockRetriever.network.
  destruct (send_rpc peer req timeout (ns_network_sender (br_network r))) as [q w] eqn:Hr.
  destruct (answers_rpc _ _ _ _ _ _ Hw Hr) as [Hw' Hgood].
  assert (retriever_good (BlockRetriever.set_network w r)) as Hr' by done.
  destruct q as [o| |]; [|done..]. apply holds_bind, holds_lift; [done|]. intros resp Ho. run_ok.
  apply holds_bind, holds_gets; [done|]. intros [] Hv. split; [done|]. apply Hgood; [done|]. by rewrite <-Hvs.
Qed.
Lemma holds_try_request req peer timeout r :
  retriever_good r ->
  holds retriever_good (BlockRetriever.try_request req peer timeout)
    (fun o r' => retriever_good r' /\ forall resp, o = Some resp -> good_blocks (brs_blocks resp)) r.
Proof.
  intros Hr%(holds_request req peer timeout). unfold holds, BlockRetriever.try_request in *.
  destruct (BlockRetriever.request_block req peer timeout r) as [[resp|err|] r']; [|done..].
  destruct Hr. split; [done|]. by intros ? [= <-].
Qed.
Lemma keeps_pick attempt peers : keeps retriever_good (BlockRetriever.pick_peer attempt peers).
Proof.
  unfold BlockRetriever.pick_peer. keep. intros r [Hvs Hw]. pose proof (answers_gen (length peers) _ Hw) as Hw'.
  unfold BlockRetriever.network. destruct (gen_range _ _) as [i w]. by case_match.
Qed.
Lemma holds_retrieve_loop fuel num target attempt progress last_id size peer peers blocks r :
  retriever_good r -> good_blocks blocks ->
  holds retriever_good (BlockRetriever.retrieve_loop fuel num target attempt progress last_id size peer peers blocks)
    (fun l r' => retriever_good r' /\ good_blocks l) r.
Proof.
  revert attempt progress last_id size peer peers blocks r. induction fuel as [|fuel IH];
    intros attempt progress last_id size peer peers blocks r Hr Hl; cbn [BlockRetriever.retrieve_loop];
    destruct (progress <? num); [|done| |done]; [done|]. cbv zeta.
  apply holds_bind, holds_lift; [done|]. intros attempt' _. apply holds_bind, holds_lift; [done|]. intros timeout _.
  apply holds_bind. eapply holds_mono; [by apply holds_try_request|]. intros o r1 [Hr1 Ho].
  assert (holds retriever_good
    (if bool_decide (peers = []) then lift (Err (Msg "Failed to fetch block: no more peers available"))
     else picked ← BlockRetriever.pick_peer attempt' peers;
          BlockRetriever.retrieve_loop fuel num target attempt' progress last_id (N.min size (num - progress)) picked.1 picked.2 blocks)
    (fun l r' => retriever_good r' /\ good_blocks l) r1) as Hnext.
  { case_bool_decide; [done|]. apply holds_bind. eapply holds_mono; [apply holds_keeps; [apply keeps_pick|done]|].
    intros p r2 Hr2. by apply IH. }
  destruct o as [[[] batch]|]; try done.
  - apply holds_bind, holds_lift; [done|]. intros progress' _. apply holds_bind, holds_lift; [done|]. intros b _.
    apply IH; [done|]. apply Forall_app. split; [done|]. by apply (Ho _ eq_refl).
  - split; [done|]. apply Forall_app. split; [done|]. by apply (Ho _ eq_refl).
Qed.
Lemma holds_retrieve qc num target r :
  retriever_good r ->
  holds retriever_good (BlockRetriever.retrieve_block_for_qc qc num target) (fun l r' => retriever_good r' /\ good_blocks l) r.
Proof.
  intros Hr. unfold BlockRetriever.retrieve_block_for_qc, BlockRetriever.retrieve_block_for_id. case_bool_decide; [done|].
  apply holds_bind. eapply holds_mono; [apply holds_keeps; [apply keeps_pick|done]|]. intros p r1 Hr1.
  apply holds_bind. eapply holds_mono; [by apply holds_retrieve_loop|]. intros l r2 [Hr2 Hl].
  apply holds_bind, holds_lift; [done|]. intros b _. apply holds_bind, holds_lift; [done|]. by intros [] _.
Qed.
End answers.

(** ** Catching up *)
Section sync.
Context `{HashOrder} `{StateComputer C} `{PersistentLivenessStorage L} `{ConsensusNetwork W}.
Context `{CryptoHash VoteData} `{Signable LedgerInfo} `{Signable BlockData} `{CryptoHash BlockData}.
Context (V : N -> ValidatorVerifier) (e : N) (recovers : Genuine -> L -> Prop) `{!StorageKeeps L V e recovers} (k : Genuine).
Abbreviation fair := (genuine_li k).
Abbreviation fair_tc := (genuine_tc k).
Abbreviation session := (BlockStore C L * BlockRetriever W)%type.
Abbreviation store_good := (store_good e recovers k).
Abbreviation fair_qc qc := (fair (qc_signed_ledger_info qc)).
Abbreviation good_blocks := (Forall (good_block e fair)).
Implicit Types (s : session).

Definition session_good s : Prop := store_good s.1 /\ retriever_good e (V e) fair s.2.

Lemma session_store {A} (m : method (BlockStore C L) AnyError A) :
  keeps store_good m -> keeps session_good (SyncManager.on_store (W := W) m).
Proof. intros Hm. eapply keeps_on; [exact Hm|by intros s []|by intros s st [] ?]. Qed.
Lemma session_network f : (forall w, answers e (V e) fair w -> answers e (V e) fair (f w)) ->
  keeps session_good (SyncManager.on_network (C := C) (L := L) (E := AnyError) f).
Proof.
  intros Hf. eapply (keeps_on _ (retriever_good e (V e) fair)).
  - apply keeps_puts. intros r [Hvs Hw]. split; [done|]. by apply Hf.
  - by intros s [].
  - by intros s r [] ?.
Qed.
Lemma session_retriever {A} (m : method (BlockRetriever W) AnyError A) (Q : A -> Prop) s :
  session_good s -> holds (retriever_good e (V e) fair) m (fun a r => retriever_good e (V e) fair r /\ Q a) s.2 ->
  holds session_good (SyncManager.on_retriever m) (fun a s' => session_good s' /\ Q a) s.
Proof.
  intros [Hst Hr] Hm. eapply holds_on; [|by intros r Hr']. eapply holds_mono; [exact Hm|]. by intros a r [].
Qed.

Lemma holds_fetch_loop fuel qc pending s :
  session_good s -> good_blocks pending ->
  holds session_good (SyncManager.fetch_loop fuel qc pending) (fun l s' => session_good s' /\ good_blocks l) s.
Proof.
  revert qc pending s. induction fuel as [|fuel IH]; intros qc pending s Hs Hp; unfold holds; cbn [SyncManager.fetch_loop];
    destruct (BlockStore.block_exists _ _); [done|done|done|].
  apply (holds_bind session_good). eapply holds_mono; [by apply session_retriever, holds_retrieve; [|apply Hs]|].
  intros l s1 [Hs1 Hl]. apply holds_bind, holds_lift; [done|]. intros b Hb. run_ok.
  apply IH; [done|]. constructor; [|done]. eapply Forall_forall; [exact Hl|]. destruct l as [|? l]; [done|]. injection Hb as ->. left.
Qed.
Lemma keeps_insert_pending pending : good_blocks pending -> keeps session_good (SyncManager.insert_pending pending).
Proof.
  induction 1 as [|b pending [He Hb] _ IH]; cbn [SyncManager.insert_pending]; keep.
  - apply session_store. by eapply keeps_insert_cert.
  - apply session_store. by eapply keeps_insert.
Qed.
Lemma keeps_fetch qc : fair_qc qc -> keeps session_good (SyncManager.fetch_quorum_cert qc).
Proof.
  intros Hqc. apply (keeps_holds _ _ (fun _ => session_good)); [|done]. intros s Hs. unfold SyncManager.fetch_quorum_cert.
  apply holds_bind. eapply holds_mono; [by apply holds_fetch_loop|]. intros l s1 [Hs1 Hl].
  apply holds_keeps; [|done]. apply keeps_bind; [by apply keeps_insert_pending|]. intros _. apply session_store. by eapply keeps_insert_cert.
Qed.
Lemma keeps_insert_quorum_cert qc : fair_qc qc -> keeps session_good (SyncManager.insert_quorum_cert qc).
Proof.
  intros Hqc. unfold SyncManager.insert_quorum_cert. keep.
  - apply session_store. by eapply keeps_insert_cert.
  - by apply keeps_fetch.
  - apply session_store. by eapply keeps_commit.
  - apply session_network. intros w. apply answers_broadcast.
Qed.
Lemma keeps_sync_commit li : keeps session_good (SyncManager.sync_to_highest_commit_cert li).
Proof. unfold SyncManager.sync_to_highest_commit_cert. keep. apply session_network. intros w. apply answers_commit. Qed.

(** *** Fast forward *)
Abbreviation fetched p := (good_blocks p.1 /\ Forall (fun qc => fair_qc qc) p.2).
Lemma holds_fetch_fork hcc blocks certs (r : BlockRetriever W) :
  retriever_good e (V e) fair r -> fair_qc hcc -> good_blocks blocks -> Forall (fun qc => fair_qc qc) certs ->
  holds (retriever_good e (V e) fair) (SyncManager.fetch_fork hcc blocks certs)
    (fun p r' => retriever_good e (V e) fair r' /\ fetched p) r.
Proof.
  intros Hr Hh Hb Hc. unfold SyncManager.fetch_fork. case_match; [done|].
  apply holds_bind. eapply holds_mono; [by apply holds_retrieve|]. intros l r1 [Hr1 Hl].
  apply holds_bind, holds_lift; [done|]. intros _ _. apply holds_bind, holds_lift; [done|]. intros b Hlast. run_ok.
  apply holds_bind, holds_lift; [done|]. intros _ _. split; [done|]. cbn. rewrite !Forall_app, !Forall_singleton.
  split_and!; [done| |done..]. eapply Forall_forall; [exact Hl|]. by apply last_Some_elem_of.
Qed.
Lemma holds_fetch_chain hoc hcc (r : BlockRetriever W) :
  retriever_good e (V e) fair r -> fair_qc hoc -> fair_qc hcc ->
  holds (retriever_good e (V e) fair) (SyncManager.fetch_chain hoc hcc)
    (fun p r' => retriever_good e (V e) fair r' /\ fetched p) r.
Proof.
  intros Hr Ho Hc. unfold SyncManager.fetch_chain. do 3 (apply holds_bind, holds_lift; [done|]; intros ? _).
  apply holds_bind. eapply holds_mono; [by apply holds_retrieve|]. intros l r1 [Hr1 Hl].
  do 4 (apply holds_bind, holds_lift; [done|]; intros ? _). apply holds_bind. eapply holds_mono.
  { apply holds_fetch_fork; [done..|]. constructor; [done|]. apply Forall_fmap. eapply Forall_impl; [by apply Forall_take|]. by intros b []. }
  intros p r2 [Hr2 Hp]. do 2 (apply holds_bind, holds_lift; [done|]; intros ? _). done.
Qed.
Lemma holds_fast_forward hoc hcc s :
  session_good s -> fair_qc hoc -> fair_qc hcc ->
  holds session_good (SyncManager.fast_forward_sync hoc hcc) (fun data s' => session_good s' /\ recovery_good e k data) s.
Proof.
  intros Hs Ho Hc. unfold SyncManager.fast_forward_sync.
  apply holds_bind. eapply holds_mono; [by apply session_retriever, holds_fetch_chain; [|apply Hs|..]|].
  intros [blocks certs] s1 [Hs1 [Hb Hq]]. cbn [fst snd] in *. apply holds_bind, holds_lift; [done|]. intros _ _.
  apply holds_bind. eapply holds_mono.
  { apply holds_keeps; [|exact Hs1]. apply session_store, (keeps_storage e recovers k). by eapply keeps_save. }
  intros [] s2 Hs2. apply holds_bind. eapply holds_mono; [by apply holds_keeps; [apply session_store, keeps_computer|]|].
  intros [] s3 Hs3. apply holds_bind. eapply holds_mono; [by apply holds_keeps; [apply session_store, keeps_callbacks|]|].
  intros [] s4 [[Ht4 Hl4] Hr4]. apply holds_bind. unfold holds at 1. unfold SyncManager.on_store, BlockStore.on_storage, on.
  pose proof (recovers_start k _ Hl4) as [Hl5 Hdata]. destruct (start (storage s4.1)) as [[[data|data]|err|] l]; cbn in *; try done.
  split; [done|]. by apply Hdata.
Qed.
Lemma keeps_sync_ordered hoc hcc : fair_qc hoc -> fair_qc hcc -> keeps session_good (SyncManager.sync_to_highest_ordered_cert hoc hcc).
Proof.
  intros Ho Hc. unfold SyncManager.sync_to_highest_ordered_cert.
  apply keeps_bind; [apply keeps_gets|intros []]; [|apply keeps_ret].
  apply (keeps_holds _ _ (fun _ => session_good)); [|done]. intros s Hs. apply holds_bind. eapply holds_mono; [by apply holds_fast_forward|].
  intros data s1 [Hs1 Hd]. apply holds_keeps; [|done]. keep.
  - apply session_store. by eapply keeps_rebuild.
  - apply session_network. intros w. apply answers_epoch.
Qed.

(** A sync info whose certificates are genuine. *)
Record fair_sync_info (info : SyncInfo) : Prop := {
  fs_quorum : fair_qc (si_highest_quorum_cert info);
  fs_ordered : fair_qc (SyncInfo.highest_ordered_cert info);
  fs_commit : fair_qc (si_highest_commit_cert info);
  fs_timeout tc : si_highest_2chain_timeout_cert info = Some tc -> fair_tc tc;
}.
Lemma keeps_add_certs info :
  fair_sync_info info -> (forall tc, si_highest_2chain_timeout_cert info = Some tc -> TwoChainTimeoutCertificate.epoch tc = e) ->
  keeps session_good (SyncManager.add_certs info).
Proof.
  intros [Hq Ho Hc Htc] He. unfold SyncManager.add_certs.
  apply keeps_bind; [apply keeps_sync_commit|intros _]. apply keeps_bind; [by apply keeps_sync_ordered|intros _].
  apply keeps_bind; [by apply keeps_insert_quorum_cert|intros _]. apply keeps_bind; [by apply keeps_insert_quorum_cert|intros _].
  destruct (si_highest_2chain_timeout_cert info) as [tc|]; [|apply keeps_ret].
  apply session_store. eapply keeps_insert_tc; [done|]. split; auto.
Qed.
End sync.

(** ** Votes *)
Section votes.
Context `{KVStorageLaws Store} `{ConsensusCrypto} `{CryptoHash LedgerInfo} `{!CollisionFree LedgerInfo}.
Context (V : N -> ValidatorVerifier) (honest : gset N) (e : N).
Implicit Types (g : gmap N (Replica Store)) (self : PendingVotes).

(** The signatures of an honest author are its own. *)
Definition genuine_vote g (v : Vote) : Prop :=
  v_author v ∈ honest -> forall i,
  (Verifier.verify (V i) (v_author v) (v_ledger_info v) (v_signature v) = Ok tt -> signed_ledger_info g (v_author v) (v_ledger_info v)) /\
  forall t s, v_two_chain_timeout v = Some (t, s) ->
    Verifier.verify (V i) (v_author v) (TwoChainTimeout.signing_format t) s = Ok tt ->
    in_log g (v_author v) (RTimeout (TwoChainTimeout.signing_format t)).

Record votes_good g (round : Round) self : Prop := {
  vg_ledger_infos d lis : li_digest_to_votes self !! d = Some lis -> hash (lis_ledger_info lis) = d /\ unforged_li V honest g lis;
  vg_timeouts tc : maybe_partial_2chain_tc self = Some tc ->
    TwoChainTimeoutCertificate.epoch tc = e /\ TwoChainTimeoutCertificate.round tc = round /\ unforged_tc V honest g tc;
}.

Lemma votes_good_new g round : votes_good g round PendingVotes.new.
Proof. by split; cbn. Qed.

Lemma add_to_ledger_info_good g round v self :
  votes_good g round self -> genuine_vote g v ->
  let lis := PendingVotes.add_to_ledger_info v self in
  hash (lis_ledger_info lis) = hash (v_ledger_info v) /\ unforged_li V honest g lis.
Proof.
  intros Hg Hv. unfold PendingVotes.add_to_ledger_info, LedgerInfoWithSignatures.add_signature. cbn.
  set (lis := default _ _).
  assert (hash (lis_ledger_info lis) = hash (v_ledger_info v) /\ unforged_li V honest g lis) as [Hh Hu].
  { unfold lis. destruct (li_digest_to_votes self !! hash (v_ledger_info v)) as [l|] eqn:Hl; [by apply (vg_ledger_infos _ _ _ Hg)|].
    split; [done|]. intros i a s _. cbn. by rewrite lookup_empty. }
  clearbody lis. split; [done|]. pose proof (hash_inj _ _ Hh) as He.
  intros i a s Ha. cbn. destruct (lis_signatures lis !! v_author v) eqn:Hin; [by apply Hu|].
  rewrite lookup_insert_Some. intros [[<- <-]|[_ Hs]]; [|by eapply Hu]. rewrite He. apply (Hv Ha).
Qed.

Lemma store_vote_good g round v self :
  votes_good g round self -> genuine_vote g v -> votes_good g round (PendingVotes.store_vote v self).
Proof.
  intros Hg Hv. pose proof (add_to_ledger_info_good g round v self Hg Hv) as Hadd. split; cbn; [|apply Hg].
  intros d lis. rewrite lookup_insert_Some. intros [[<- <-]|[_ Hd]]; [exact Hadd|by apply (vg_ledger_infos _ _ _ Hg)].
Qed.

Lemma partial_tc_good g round v t s self :
  votes_good g round self -> genuine_vote g v -> v_two_chain_timeout v = Some (t, s) -> to_epoch t = e -> to_round t = round ->
  let tc := TwoChainTimeoutCertificate.add (default (TwoChainTimeoutCertificate.new t) (maybe_partial_2chain_tc self)) (v_author v) t s in
  TwoChainTimeoutCertificate.epoch tc = e /\ TwoChainTimeoutCertificate.round tc = round /\ unforged_tc V honest g tc.
Proof.
  intros Hg Hv Ht He Hr. set (tc0 := default _ _).
  assert (TwoChainTimeoutCertificate.epoch tc0 = e /\ TwoChainTimeoutCertificate.round tc0 = round /\ unforged_tc V honest g tc0)
    as (He0 & Hr0 & Hu).
  { unfold tc0. destruct (maybe_partial_2chain_tc self) as [tc|] eqn:Htc; [by apply (vg_timeouts _ _ _ Hg)|].
    split_and!; [done..|]. intros i a q x _. cbn. by rewrite lookup_empty. }
  clearbody tc0. cbv zeta.
  assert (forall x, to_epoch (if (x : bool) then t else tc_timeout tc0) = e /\ to_round (if x then t else tc_timeout tc0) = round) as Hx
    by (by intros []).
  destruct (Hx (TwoChainTimeout.hqc_round (tc_timeout tc0) <? TwoChainTimeout.hqc_round t)) as [He1 Hr1].
  split_and!; [exact He1|exact Hr1|]. intros i a q x Ha. unfold TwoChainTimeoutCertificate.epoch, TwoChainTimeoutCertificate.round in *.
  cbn. rewrite He1, Hr1. rewrite lookup_insert_Some. intros [[<- [= <- <-]]|[_ Hin]].
  - destruct (Hv Ha i) as [_ Hto]. specialize (Hto t s Ht). unfold TwoChainTimeout.signing_format in Hto. by rewrite He, Hr in Hto.
  - specialize (Hu i a q x Ha Hin). unfold TwoChainTimeoutCertificate.epoch, TwoChainTimeoutCertificate.round in Hu. by rewrite He0, Hr0 in Hu.
Qed.

(** The certificates that are formed are genuine, and the timeout certificates of the epoch. *)
Lemma insert_vote_good g round v vs self r self' :
  votes_good g round self -> genuine_vote g v ->
  (forall t s, v_two_chain_timeout v = Some (t, s) -> to_epoch t = e /\ to_round t = round) ->
  PendingVotes.insert_vote (E := AnyError) v vs self = (r, self') ->
  votes_good g round self' /\
  (forall qc, r = Ok (NewQuorumCertificate qc) -> unforged_li V honest g (qc_signed_ledger_info qc)) /\
  (forall tc, r = Ok (New2ChainTimeoutCertificate tc) -> good_tc e (unforged_tc V honest g) tc).
Proof.
  intros Hg Hv Ht. unfold PendingVotes.insert_vote.
  destruct (PendingVotes.check_previous_vote v self) as [res|] eqn:Hc.
  { intros [= <- <-]. split_and!; [done|..]; intros ? [= ->]; unfold PendingVotes.check_previous_vote in Hc; repeat case_match; done. }
  destruct (add_to_ledger_info_good g round v self Hg Hv) as [_ Hli].
  pose proof (store_vote_good g round v self Hg Hv) as Hst.
  destruct (Verifier.check_voting_power vs (btree_keys _)) as [[]|[]|]; try (intros [= <- <-]; split_and!; done).
  { intros [= <- <-]. split_and!; [done| |done]. by intros qc [= <-]. }
  destruct (v_two_chain_timeout v) as [[t s]|] eqn:Hto; [|intros [= <- <-]; split_and!; done].
  destruct (Ht t s eq_refl) as [He Hr]. destruct (partial_tc_good g round v t s _ Hst Hv Hto He Hr) as (Hte & Htr & Htu).
  unfold PendingVotes.insert_timeout. set (tc := TwoChainTimeoutCertificate.add _ _ _ _) in *.
  assert (votes_good g round (PendingVotes.set_tc tc (PendingVotes.store_vote v self))) as Hst'
    by (split; [apply Hst|]; by intros c [= <-]).
  assert (votes_good g round (PendingVotes.set_echo (PendingVotes.set_tc tc (PendingVotes.store_vote v self)))) as Hst''
    by (split; apply Hst').
  destruct (Verifier.check_voting_power vs (TwoChainTimeoutCertificate.signers _)) as [[]|[]|];
    try (intros [= <- <-]; split_and!; done).
  { intros [= <- <-]. split_and!; [done..|]. by intros c [= <-]. }
  repeat case_match; intros [= <- <-]; split_and!; done.
Qed.
End votes.

(** ** Safety rules as a replica *)
Section growth.
Context `{KVStorageLaws Store} `{ConsensusCrypto} (V : N -> ValidatorVerifier) (honest : gset N).
Implicit Types (g : gmap N (Replica Store)).

#[global] Instance grows_preorder : PreOrder (grows (Store := Store)).
Proof. split; [by intros g a x|]. intros g1 g2 g3 H12 H23 a x Hx. auto. Qed.
Lemma signed_grows g g' a li : grows g g' -> signed_ledger_info g a li -> signed_ledger_info g' a li.
Proof. intros Hg [(v & Hv & <-)|Hc]; [left; exists v; auto|right; auto]. Qed.
Lemma unforged_li_grows g g' lis : grows g g' -> unforged_li V honest g lis -> unforged_li V honest g' lis.
Proof. intros Hg Hu i a s Ha Hs Hv. eapply signed_grows; [done|]. by eapply Hu. Qed.
Lemma unforged_tc_grows g g' tc : grows g g' -> unforged_tc V honest g tc -> unforged_tc V honest g' tc.
Proof. intros Hg Hu i a q s Ha Hs t Hv. eapply Hg, Hu; eauto. Qed.
Lemma genuine_vote_grows g g' v : grows g g' -> genuine_vote V honest g v -> genuine_vote V honest g' v.
Proof.
  intros Hg Hv Ha i. destruct (Hv Ha i) as [Hs Ht]. split; [|eauto]. intros Hver. eapply signed_grows; [done|auto].
Qed.
Lemma votes_good_grows `{CryptoHash LedgerInfo} g g' e round self : grows g g' -> votes_good V honest e g round self -> votes_good V honest e g' round self.
Proof.
  intros Hg [Hl Ht]. split.
  - intros d lis [? ?]%Hl. eauto using unforged_li_grows.
  - intros tc (? & ? & ?)%Ht. eauto using unforged_tc_grows.
Qed.
End growth.

Section rules.
Context `{KVStorageLaws Store} `{ConsensusCrypto} `{PersistentLivenessStorage L}.
Context (V : N -> ValidatorVerifier) (honest : gset N) (a : N).
Abbreviation SR := (SafetyRules Store) (only parsing).
Implicit Types (g : gmap N (Replica Store)) (sr : SafetyRules Store).

(** A step of the system in which only [a] takes part. *)
Definition own_step g g' : Prop :=
  exists n ev n', g !! a = Some n /\ replica_step n ev n' /\ allowed V honest g n n' ev /\ g' = <[a := n']> g.
Lemma own_step_grows g g' : own_step g g' -> grows g g'.
Proof. intros (n & ev & n' & Hn & Hs & _ & ->). by eapply grows_insert. Qed.
Lemma own_steps_grow g g' : rtc own_step g g' -> grows g g'.
Proof. induction 1 as [g|g1 g2 g3 H12%own_step_grows _ IH]; [done|]. by transitivity g2. Qed.

(** Votes leave safety rules without a timeout. *)
Definition plain_log (log : list Released) : Prop := forall v, RVote v ∈ log -> v_two_chain_timeout v = None.
Lemma plain_step (n n' : Replica Store) ev : replica_ok n -> plain_log (r_released n) -> replica_step n ev n' -> plain_log (r_released n').
Proof.
  intros Hok Hp Hs v Hv. destruct (new_entry _ _ _ _ Hs Hv) as [Hold|(now & info & input & r & -> & Hx & Hr)]; [by apply Hp|].
  apply released_vote in Hx as (vp & tc & -> & ->). cbn in Hr. apply response_inv in Hr as (q & Hq & Hr).
  destruct q as [w| |]; simplify_eq. destruct Hok as [Hc _ (sd & Hd & Hl)].
  apply vote_Ok in Hq as (sd' & es & s & vd & Hd' & _ & _ & _ & _ & Hcase); [|done]. rewrite Hd in Hd'. injection Hd' as <-.
  destruct Hcase as [[Hprev _]|(_ & _ & _ & -> & _)]; [|done]. apply Hp. unfold SafetyRules.previous_vote in Hprev.
  destruct (sd_last_vote sd) as [w'|] eqn:Hw; cbn in Hprev; [|done]. case_match; simplify_eq. by eapply lo_last_vote.
Qed.

(** The replica of the system that these safety rules are. *)
Record replica_of g sr : Prop := {
  ra_replica : exists n, g !! a = Some n /\ r_rules n = sr /\ replica_ok n /\ plain_log (r_released n);
  ra_epoch es : epoch_state sr = Some es -> es_verifier es = V (es_epoch es);
}.

Lemma replica_steps g n ev n' :
  replica_of g (r_rules n) -> g !! a = Some n -> replica_step n ev n' -> allowed V honest g n n' ev ->
  let g' := <[a := n']> g in own_step g g' /\ replica_of g' (r_rules n').
Proof.
  intros [(m & Hm & _ & Hok & Hp) Hes] Hn Hs Hal g'. rewrite Hn in Hm. injection Hm as <-. split; [by exists n, ev, n'|].
  split; [|by eapply step_epoch_state]. exists n'. unfold g'. rewrite lookup_insert_eq.
  split_and!; [done..|by eapply replica_step_ok|by eapply plain_step].
Qed.

(** [m] is a sequence of requests, after which [P] holds of the system if it succeeds. *)
Definition served {A} (m : method SR Error A) (P : gmap N (Replica Store) -> A -> Prop) g : Prop :=
  forall sr r sr', replica_of g sr -> m sr = (r, sr') ->
    exists g', rtc own_step g g' /\ replica_of g' sr' /\ forall x, r = Ok x -> P g' x.

Lemma served_request {A} (m : method SR Error A) now info input (out : A -> SafetyRulesOutput) g :
  (forall sr, SafetyRules.handle_message now info input sr = (x ← m; mret (out x)) sr) ->
  (forall n n', replica_step n (Request now info input) n' -> replica_of g (r_rules n) -> allowed V honest g n n' (Request now info input)) ->
  served m (fun g' x => forall y, y ∈ released input (Ok (out x)) -> in_log g' a y) g.
Proof.
  intros Hm Hal sr r sr' Hsr Hr. destruct (ra_replica _ _ Hsr) as (n & Hn & Hrules & _). subst sr.
  set (q := match r with Ok x => Ok (out x) | Err err => Err err | Panic => Panic end).
  assert (SafetyRules.handle_message now info input (r_rules n) = (q, sr')) as Hq.
  { rewrite Hm. unfold mbind, method_bind. rewrite Hr. by destruct r. }
  pose (n' := mkReplica sr' (released input q ++ r_released n)).
  assert (replica_step n (Request now info input) n') as Hs by (destruct n; by apply step_request).
  destruct (replica_steps g n _ n' Hsr Hn Hs (Hal _ _ Hs Hsr)) as [Hown Hrep].
  exists (<[a := n']> g). split; [by apply rtc_once|]. split; [done|]. intros x -> y Hy. exists n'. rewrite lookup_insert_eq.
  split; [done|]. cbn. apply elem_of_app. by left.
Qed.

Lemma served_bind {A B} (m : method SR Error A) (f : A -> method SR Error B) P Q g :
  served m P g -> (forall x g', grows g g' -> P g' x -> served (f x) Q g') -> served (m ≫= f) Q g.
Proof.
  intros Hm Hf sr r sr' Hsr. unfold mbind, method_bind. destruct (m sr) as [[x|err|] sr1] eqn:Hx; intros Hr.
  - destruct (Hm _ _ _ Hsr Hx) as (g1 & Hg1 & Hsr1 & HP). specialize (HP x eq_refl).
    destruct (Hf x g1 (own_steps_grow _ _ Hg1) HP _ _ _ Hsr1 Hr) as (g2 & Hg2 & ? & ?). exists g2. split; [by transitivity g1|done].
  - simplify_eq. destruct (Hm _ _ _ Hsr Hx) as (g1 & Hg1 & Hsr1 & _). by exists g1.
  - simplify_eq. destruct (Hm _ _ _ Hsr Hx) as (g1 & Hg1 & Hsr1 & _). by exists g1.
Qed.
Lemma served_mono {A} (m : method SR Error A) (P P' : gmap N (Replica Store) -> A -> Prop) g :
  served m P g -> (forall g' x, P g' x -> P' g' x) -> served m P' g.
Proof. intros Hm HP sr r sr' Hsr Hr. destruct (Hm _ _ _ Hsr Hr) as (g' & ? & ? & ?). exists g'. eauto. Qed.

(** *** The initialisation *)
Lemma proof_epoch_state proof sr sr' r :
  trusted_proof V proof -> sr_coherent sr -> epoch_matches sr -> SafetyRules.guarded_initialize proof sr = (r, sr') ->
  (forall es, epoch_state sr = Some es -> es_verifier es = V (es_epoch es)) ->
  forall es, epoch_state sr' = Some es -> es_verifier es = V (es_epoch es).
Proof.
  intros Hp Hc Hm Hr Hes es Hes'. apply initialize_inv in Hr as (_ & _ & _ & [Heq|(w & li & es' & Hv & Hn & Heq)]); [by rewrite Heq in Hes'; auto| |done..].
  rewrite Heq in Hes'. injection Hes' as <-. unfold EpochChangeProof.verify in Hv.
  destruct (last (ledger_info_with_sigs proof)) as [last_li|] eqn:Hl; [|done]. run_ok.
  eapply Forall_forall in Hp; [|by apply last_Some_elem_of]. by apply Hp.
Qed.
Lemma served_initialize proof g : trusted_proof V proof -> served (SafetyRules.guarded_initialize proof) (fun _ _ => True) g.
Proof.
  intros Hp. eapply served_mono; [apply (served_request _ 0 false (InInitialize proof) (fun _ => OutUnit))|done]; [done|].
  intros n n' Hs [(m & Hm & Heq & [Hc He _] & _) Hes]. cbn. rewrite Heq in Hc, He.
  inversion Hs as [sr log now info input r sr' Hr| |]; subst. cbn in *. apply response_inv in Hr as (q & Hq & _).
  by eapply proof_epoch_state.
Qed.

Context (fuel : nat) (info_enabled : bool) (storage : L).
Context (Htrusted : forall version proof, retrieve_epoch_change_proof version storage = Ok proof -> trusted_proof V proof).

Lemma served_initialize_loop k version g : served (MetricsSafetyRules.initialize_loop storage k version) (fun _ _ => True) g.
Proof.
  revert version g. induction k as [|k IH]; intros version g sr r sr' Hsr; cbn [MetricsSafetyRules.initialize_loop].
  { intros [= <- <-]. exists g. split; [done|]. done. }
  destruct (retrieve_epoch_change_proof version storage) as [proof|err|] eqn:Hp; [|intros [= <- <-]; by exists g..].
  destruct (SafetyRules.guarded_initialize proof sr) as [q sr1] eqn:Hq.
  destruct (served_initialize proof g (Htrusted _ _ Hp) _ _ _ Hsr Hq) as (g1 & Hg1 & Hsr1 & _).
  assert ((q, sr1) = (r, sr') -> exists g', rtc own_step g g' /\ replica_of g' sr' /\ forall x : unit, r = Ok x -> True) as Hend
    by (intros [= <- <-]; by exists g1).
  destruct q as [x|[]|]; try exact Hend. case_match; [|exact Hend]. intros Hr.
  destruct (IH _ g1 _ _ _ Hsr1 Hr) as (g2 & Hg2 & ? & _). exists g2. split; [by transitivity g1|done].
Qed.
Lemma served_retry {A} (m : method SR Error A) P g :
  (forall g', grows g g' -> served m P g') -> served (MetricsSafetyRules.retry fuel info_enabled storage m) P g.
Proof.
  intros Hm sr r sr' Hsr. unfold MetricsSafetyRules.retry. destruct (m sr) as [q sr1] eqn:Hq.
  destruct (Hm g ltac:(done) _ _ _ Hsr Hq) as (g1 & Hg1 & Hsr1 & HP).
  assert ((q, sr1) = (r, sr') -> exists g', rtc own_step g g' /\ replica_of g' sr' /\ forall x, r = Ok x -> P g' x) as Hend
    by (intros [= <- <-]; by exists g1).
  assert ((_ ← MetricsSafetyRules.perform_initialize fuel info_enabled storage; m) sr1 = (r, sr') ->
    exists g', rtc own_step g g' /\ replica_of g' sr' /\ forall x, r = Ok x -> P g' x) as Hagain.
  { intros Hr. eapply served_bind in Hr; [|clear Hr| |exact Hsr1].
    - destruct Hr as (g2 & Hg2 & ? & ?). exists g2. split; [by transitivity g1|done].
    - unfold MetricsSafetyRules.perform_initialize. eapply served_bind.
      + by apply (served_request _ 0 info_enabled InConsensusState OutConsensusState).
      + intros x g2 _ _. apply served_initialize_loop.
    - intros x g2 H12 _. apply Hm. transitivity g1; [by apply own_steps_grow|done]. }
  destruct q as [x|[]|]; first [exact Hend|exact Hagain].
Qed.
End rules.
