(* ===== verification/RoundManagerProps.v ===== *)
(** * Theorems about the round manager

    Every node of an epoch runs a round manager on its block store and its safety rules.
    Such a system refines the system of replicas: whatever messages, timeouts, restarts
    and failures there are, the safety rules of the nodes go through a run of that system,
    and everything that leaves a node under its key is in the log of its replica. *)

From S2P Require Import Prelude Crypto Errors Position Accumulator Verifier Ledger ConsensusTypes Blocks Storage SafetyRules SafetyLemmas Replica Bft Simulation Agreement PendingVotes RoundProps TransactionProofs SchemaDb LedgerSchemas BlockTree ConsensusDb LivenessStorage BlockStore SyncManager MempoolNetwork LeaderElection ProposalGenerator RoundManager RoundManagerLemmas.

(** What pulling a payload does to the rest of the node is the callback. *)
Class CallsBack (M : Type) `{!PayloadManager M} : Prop :=
  calls_back : forall X (I : X -> Prop) max_size filter (callback : X -> X) pending_ordering,
    (forall x, I x -> I (callback x)) -> keeps (fun self : M * X => I self.2) (pull_payload max_size filter callback pending_ordering).
Arguments calls_back {M _ _ X}.

#[global] Instance client_calls_back `{CryptoHash Transaction} `{Bcs BatchId} : CallsBack QuorumStoreClient.
Proof.
  intros X I max_size filter callback pending Hc. unfold pull_payload, QuorumStoreClient.client_pull.
  assert (forall x, I x -> I (default id (Some callback) x)) as Ho by exact Hc. revert Ho. generalize (Some callback) as o.
  intros o Ho. apply keeps_bind; [apply keeps_gets|]. intros count. revert o Ho.
  induction (N.to_nat count) as [|n IH]; intros o Ho; cbn [QuorumStoreClient.poll_loop]; [apply keeps_lift|].
  apply keeps_bind; [by apply (keeps_on _ (fun _ => True))|intros payload]. apply keeps_bind; [apply keeps_lift|intros empty].
  case_match; [|apply keeps_ret]. apply keeps_bind; [|by intros _; apply IH]. apply keeps_puts. intros s Hs. by apply Ho.
Qed.

Section proposer.
Context `{!ProposerElection P} `{!PayloadManager M} `{!CallsBack M} {X : Type} (I : X -> Prop).

Lemma keeps_generate round now callback t :
  (forall x, I x -> I (callback x)) ->
  keeps (fun self : Proposer P M X => I (pr_node self)) (ProposalGenerator.generate_proposal round now callback t).
Proof.
  intros Hc. unfold ProposalGenerator.generate_proposal, ProposalGenerator.pull_proposal. keep.
  - by apply keeps_puts.
  - eapply (keeps_on _ (fun self : M * X => I self.2)); [|done..]. intros self Hs.
    match goal with |- context [pull_payload ?max ?filter callback ?pending self] =>
      pose proof (calls_back I max filter callback pending Hc self Hs) as Hp end. by destruct (pull_payload _ _ _ _ self).
  - by apply (keeps_on _ (fun _ => True)).
Qed.
End proposer.

(** ** A node and its replica *)
Section node.
Context `{HashOrder} `{StateComputer C} `{PersistentLivenessStorage L} `{ConsensusNetwork W}.
Context `{!ProposerElection P} `{!PayloadManager M} `{!CallsBack M} `{KVStorageLaws Store} `{ConsensusCrypto}.
Context `{CryptoHash BlockData} `{CryptoHash LedgerInfo} `{!CollisionFree LedgerInfo}.
Context (get_round_duration : N -> N) (V : N -> ValidatorVerifier) (honest : gset N) (e : N).
Context (recovers : Genuine -> L -> Prop) `{!StorageKeeps L V e recovers} (a : N).
Abbreviation RM := (RoundManager C L W P M Store).
Abbreviation step A := (method RM AnyError A).
Abbreviation fair g := (unforged_li V honest g).
Abbreviation fair_tc g := (unforged_tc V honest g).
Implicit Types (g : gmap N (Replica Store)) (self : RM) (env : RoundEnv) (rs : RoundState).

(** The signatures of a vote, on the ledger info and on the timeout, are in the log. *)
Record logged g (v : Vote) : Prop := {
  lg_vote : exists v0, in_log g a (RVote v0) /\ v_vote_data v0 = v_vote_data v /\ v_ledger_info v0 = v_ledger_info v;
  lg_timeout t s : v_two_chain_timeout v = Some (t, s) -> in_log g a (RTimeout (TwoChainTimeout.signing_format t));
}.
Definition logged_msg g (msg : ConsensusMsg) : Prop :=
  match msg with
  | VoteMsg_ vm => logged g (vm_vote vm)
  | ProposalMsg_ p => in_log g a (RProposal (b_block_data (pm_proposal p)))
  | SyncInfo_ _ => True
  end.
Definition known g : Genuine := mkGenuine (fair g) (fair_tc g) (logged g).

Definition round_good g rs : Prop :=
  votes_good V honest e g (current_round rs) (pending_votes rs) /\ forall v, vote_sent rs = Some v -> logged g v.
Definition sent_good g (sent : list (Author * ConsensusMsg)) : Prop := Forall (fun x => logged_msg g x.2) sent.
Record node_good g self : Prop := {
  ng_rules : replica_of V a g (rm_safety_rules self);
  ng_store : store_good e recovers (known g) (rm_block_store self);
  ng_network : net_good e (V e) (fair g) (rm_network self);
  ng_round : round_good g (rm_round_state self);
  ng_sent : sent_good g (rm_sent self);
}.

Lemma logged_grows g g' v : grows g g' -> logged g v -> logged g' v.
Proof. intros Hg [(v0 & ? & ?) Ht]. split; [exists v0; auto|eauto]. Qed.
Lemma known_grows g g' : grows g g' -> genuine_le (known g) (known g').
Proof. intros Hg. split_and!; cbn; eauto using unforged_li_grows, unforged_tc_grows, logged_grows. Qed.
Lemma good_block_grows g g' b : grows g g' -> good_block e (fair g) b -> good_block e (fair g') b.
Proof. intros Hg []. split; eauto using unforged_li_grows. Qed.
Lemma good_tc_grows g g' tc : grows g g' -> good_tc e (fair_tc g) tc -> good_tc e (fair_tc g') tc.
Proof. intros Hg []. split; eauto using unforged_tc_grows. Qed.
Lemma sync_info_grows g g' info : grows g g' -> fair_sync_info (known g) info -> fair_sync_info (known g') info.
Proof. intros (? & ? & ?)%known_grows []. split; eauto. Qed.

(** Only the log of the replica has grown. *)
Lemma node_good_grows g g' self sr :
  grows g g' -> node_good g self -> replica_of V a g' sr -> node_good g' (RoundManager.set_safety_rules sr self).
Proof.
  intros Hg [_ [[Hb Hq Htc] Hl] [Hvs Hw] [Hv Hs] Hsent] Hsr. pose proof (known_grows _ _ Hg) as Hk. split; cbn; [done|..].
  - split; [|by eapply recovers_mono]. split.
    + intros i lb Hi. eapply good_block_grows; [done|by eapply Hb].
    + destruct Hq. split; [done|]. by apply Hk.
    + intros tc Ht. eapply good_tc_grows; [done|by apply Htc].
  - split; [done|]. eapply answers_mono; [|done]. intros x. by apply unforged_li_grows.
  - split; [by eapply votes_good_grows|]. intros v Hvs'. eapply logged_grows; eauto.
  - eapply Forall_impl; [done|]. intros [r []]; cbn; [by apply Hg|done|]. by apply logged_grows.
Qed.

(** *** Runs of the node as runs of the system *)
Definition runs {A} (m : step A) (Q : A -> gmap N (Replica Store) -> Prop) g : Prop :=
  forall self, node_good g self ->
    exists g', rtc (own_step V honest a) g g' /\ node_good g' (m self).2 /\ forall x, (m self).1 = Ok x -> Q x g'.

Lemma runs_bind {A B} (m : step A) (f : A -> step B) P1 Q g :
  runs m P1 g -> (forall x g', grows g g' -> P1 x g' -> runs (f x) Q g') -> runs (m ≫= f) Q g.
Proof.
  intros Hm Hf self (g1 & Hg1 & Hn & HP)%Hm. unfold mbind, method_bind. destruct (m self) as [[x|err|] self1]; cbn in *.
  - destruct (Hf x g1 (own_steps_grow _ _ _ _ _ Hg1) (HP _ eq_refl) _ Hn) as (g2 & Hg2 & ? & ?). exists g2. split; [by transitivity g1|done].
  - by exists g1.
  - by exists g1.
Qed.
Lemma runs_mono {A} (m : step A) (Q Q' : A -> gmap N (Replica Store) -> Prop) g :
  runs m Q g -> (forall x g', Q x g' -> Q' x g') -> runs m Q' g.
Proof. intros Hm HQ self (g' & ? & ? & ?)%Hm. exists g'. eauto. Qed.
Lemma runs_ret {A} (x : A) (Q : A -> gmap N (Replica Store) -> Prop) g : Q x g -> runs (mret x) Q g.
Proof. intros HQ self Hn. exists g. split_and!; [done..|]. by intros y [= <-]. Qed.
Lemma runs_gets {A} (f : RM -> result A) (Q : A -> gmap N (Replica Store) -> Prop) g :
  (forall self x, node_good g self -> f self = Ok x -> Q x g) -> runs (gets f) Q g.
Proof. intros HQ self Hn. exists g. split_and!; [done..|]. cbn. eauto. Qed.
Lemma runs_lift {A} (o : result A) (Q : A -> gmap N (Replica Store) -> Prop) g :
  (forall x, o = Ok x -> Q x g) -> runs (lift o) Q g.
Proof. intros HQ self Hn. by exists g. Qed.
Lemma runs_holds {A} (m : step A) (Q : A -> gmap N (Replica Store) -> Prop) g :
  (forall self, node_good g self -> holds (node_good g) m (fun x self' => node_good g self' /\ Q x g) self) -> runs m Q g.
Proof.
  intros Hm self Hn%Hm. exists g. split; [done|]. unfold holds in Hn. destruct (m self) as [[x|err|] self']; [|done..].
  destruct Hn. split; [done|]. by intros y [= <-].
Qed.
Lemma runs_keeps {A} (m : step A) g : keeps (node_good g) m -> runs m (fun _ _ => True) g.
Proof. intros Hm self Hn%Hm. by exists g. Qed.
(** Steps that leave the system alone. *)
Lemma runs_gets_bind {A B} (f : RM -> result A) (k : A -> step B) (P1 : A -> Prop) Q g :
  (forall self x, node_good g self -> f self = Ok x -> P1 x) -> (forall x, P1 x -> runs (k x) Q g) -> runs (gets f ≫= k) Q g.
Proof.
  intros Hf Hk self Hn. unfold mbind, method_bind, gets. specialize (Hf self). destruct (f self) as [x|err|]; [|by exists g..].
  apply Hk; eauto.
Qed.
Lemma runs_read {A B} (f : RM -> result A) (k : A -> step B) Q g : (forall x, runs (k x) Q g) -> runs (gets f ≫= k) Q g.
Proof. intros Hk. by apply (runs_gets_bind _ _ (fun _ => True)). Qed.
Lemma runs_lift_bind {A B} (o : result A) (k : A -> step B) Q g : (forall x, o = Ok x -> runs (k x) Q g) -> runs (lift o ≫= k) Q g.
Proof. intros Hk self Hn. unfold mbind, method_bind, lift. destruct o as [x|err|]; [by apply Hk|by exists g..]. Qed.
Lemma runs_keeps_bind {A B} (m : step A) (k : A -> step B) Q g : keeps (node_good g) m -> (forall x, runs (k x) Q g) -> runs (m ≫= k) Q g.
Proof.
  intros Hm Hk self Hn%Hm. unfold mbind, method_bind. destruct (m self) as [[x|err|] self']; [by apply Hk|by exists g..].
Qed.
Lemma runs_holds_bind {A B} (m : step A) (k : A -> step B) (P1 : A -> Prop) Q g :
  (forall self, node_good g self -> holds (node_good g) m (fun x self' => node_good g self' /\ P1 x) self) ->
  (forall x, P1 x -> runs (k x) Q g) -> runs (m ≫= k) Q g.
Proof.
  intros Hm Hk self Hn%Hm. unfold holds in Hn. unfold mbind, method_bind. destruct (m self) as [[x|err|] self']; [|by exists g..].
  destruct Hn. by apply Hk.
Qed.
Lemma runs_context {A} c (m : step A) Q g : runs m Q g -> runs (BlockStore.with_context_m c m) Q g.
Proof.
  intros Hm self (g' & Hg & Hn & HQ)%Hm. exists g'. unfold BlockStore.with_context_m. by destruct (m self) as [[x|err|] self'].
Qed.
Lemma runs_log_error (m : step unit) Q g : runs m Q g -> runs (BlockStore.log_error m) (fun _ _ => True) g.
Proof.
  intros Hm self (g' & Hg & Hn & HQ)%Hm. exists g'. unfold BlockStore.log_error. by destruct (m self) as [[x|err|] self'].
Qed.
Lemma runs_then_always (m k : step unit) g :
  runs m (fun _ _ => True) g -> (forall g', grows g g' -> runs k (fun _ _ => True) g') -> runs (RoundManager.then_always m k) (fun _ _ => True) g.
Proof.
  intros Hm Hk self (g1 & Hg1 & Hn & _)%Hm. unfold RoundManager.then_always.
  assert (forall r : result unit, exists g', rtc (own_step V honest a) g g' /\ node_good g' ((_ ← k; lift r) (m self).2).2 /\
            forall x, ((_ ← k; lift r) (m self).2).1 = Ok x -> True) as Hnext.
  { intros r. destruct (runs_bind k (fun _ => lift r) _ (fun _ _ => True) g1 (Hk g1 (own_steps_grow _ _ _ _ _ Hg1))
      (fun _ g2 _ _ => runs_lift r _ g2 (fun _ _ => I)) _ Hn) as (g2 & Hg2 & ? & ?). exists g2. split; [by transitivity g1|done]. }
  destruct (m self) as [[x|err|] self1]; cbn in *; [apply Hnext|apply Hnext|by exists g1].
Qed.

(** *** The parts *)
Lemma keeps_round {A} g (m : method RoundState AnyError A) : keeps (round_good g) m -> keeps (node_good g) (RoundManager.on_round_state m).
Proof. intros Hm. eapply keeps_on; [exact Hm|by intros self []|]. intros self rs [] ?. by split. Qed.
Lemma keeps_election {A} g (m : method (UnequivocalProposerElection P) AnyError A) : keeps (node_good g) (RoundManager.on_election m).
Proof. apply (keeps_on _ (fun _ => True)); [done..|]. intros self el [] _. by split. Qed.
Lemma keeps_session {A} g from (m : method (BlockStore C L * BlockRetriever W) AnyError A) :
  keeps (session_good V e recovers (known g)) m -> keeps (node_good g) (RoundManager.on_session from m).
Proof. intros Hm. eapply keeps_on; [exact Hm|by intros self []|]. intros self [st r] [] []. by split. Qed.
Lemma keeps_store {A} g (m : method (BlockStore C L) AnyError A) :
  keeps (store_good e recovers (known g)) m -> keeps (node_good g) (RoundManager.on_store m).
Proof. intros Hm. eapply keeps_on; [exact Hm|by intros self []|]. intros self st [] ?. by split. Qed.
Lemma keeps_sent g l : sent_good g l -> keeps (node_good g) (puts (E := AnyError) (fun self => RoundManager.set_sent (rm_sent self ++ l) self)).
Proof. intros Hl. apply keeps_puts. intros self []. split; [done..|]. by apply Forall_app. Qed.
Lemma keeps_broadcast g msg : logged_msg g msg -> keeps (node_good g) (RoundManager.broadcast msg).
Proof.
  intros Hm. apply keeps_puts. intros self []. split; [done..|]. apply Forall_app. split; [done|].
  unfold RoundManager.addressed. apply Forall_fmap, Forall_true. by intros x.
Qed.
Lemma keeps_send g msg to : logged_msg g msg -> keeps (node_good g) (RoundManager.send msg to).
Proof. intros Hm. apply keeps_sent. apply Forall_fmap, Forall_true. by intros x. Qed.

Lemma runs_rules {A} env (f : nat -> bool -> L -> method (SafetyRules Store) Error A) Q g :
  (forall fuel info l, (forall version proof, retrieve_epoch_change_proof version l = Ok proof -> trusted_proof V proof) ->
     served V honest a (f fuel info l) Q g) ->
  runs (RoundManager.on_safety_rules env f) (fun x g' => Q g' x) g.
Proof.
  intros Hf self Hn. unfold RoundManager.on_safety_rules. destruct (f _ _ _ (rm_safety_rules self)) as [r sr] eqn:Hr.
  destruct (Hf _ _ _ (fun version proof => recovers_proofs _ _ version proof (proj2 (ng_store _ _ Hn))) _ _ _ (ng_rules _ _ Hn) Hr)
    as (g' & Hg & Hsr & HQ). exists g'. split; [done|]. split.
  - by eapply node_good_grows; [eapply own_steps_grow| |].
  - intros x Hx. destruct r; [|done..]. cbn in Hx. injection Hx as ->. by apply HQ.
Qed.

Section timing.
Context (now : N).
Lemma keeps_deadline g n : keeps (round_good g) (RoundState.setup_deadline get_round_duration now (E := AnyError) n).
Proof. intros rs []. unfold RoundState.setup_deadline. by destruct (RoundState.round_index rs). Qed.
Lemma keeps_timeout g n : keeps (round_good g) (RoundState.setup_timeout get_round_duration now (E := AnyError) n).
Proof. unfold RoundState.setup_timeout. apply keeps_bind; [apply keeps_deadline|intros t]. apply keeps_bind; [|intros _; apply keeps_ret]. by apply keeps_puts. Qed.
Lemma keeps_leader_timeout g : keeps (round_good g) (RoundState.setup_leader_timeout get_round_duration now (E := AnyError)).
Proof. unfold RoundState.setup_leader_timeout. apply keeps_bind; [apply keeps_timeout|intros t; apply keeps_ret]. Qed.
Lemma keeps_local_timeout g round : keeps (round_good g) (RoundState.process_local_timeout get_round_duration now (E := AnyError) round).
Proof.
  intros rs Hrs. unfold RoundState.process_local_timeout. case_match; [done|]. revert rs Hrs H8. intros rs Hrs _. revert rs Hrs.
  apply keeps_bind; [apply keeps_timeout|intros t; apply keeps_ret].
Qed.
Lemma keeps_certificates g info : keeps (round_good g) (RoundState.process_certificates get_round_duration now (E := AnyError) info).
Proof.
  unfold RoundState.process_certificates. apply keeps_bind; [|intros _].
  { apply keeps_puts. intros rs []. unfold RoundState.observe_committed. by case_match. }
  apply keeps_bind; [apply keeps_lift|intros round]. apply keeps_bind; [apply keeps_gets|intros rs0]. case_match; [|apply keeps_ret].
  apply keeps_bind; [|intros _]. { apply keeps_puts. intros rs _. split; [apply votes_good_new|done]. }
  apply keeps_bind; [apply keeps_timeout|intros t]. apply keeps_bind; [apply keeps_lift|intros x; apply keeps_ret].
Qed.
End timing.
Lemma keeps_record g v : logged g v -> keeps (round_good g) (puts (E := AnyError) (RoundState.record_vote v)).
Proof.
  intros Hv. apply keeps_puts. intros rs [Hp Hs]. unfold RoundState.record_vote. case_match; [|done]. split; [done|]. by intros w [= <-].
Qed.

(** *** New rounds *)
Lemma runs_sign_proposal env d g :
  runs (RoundManager.on_safety_rules env (fun fuel info storage => MetricsSafetyRules.sign_proposal fuel info storage d))
    (fun _ g' => in_log g' a (RProposal d)) g.
Proof.
  eapply runs_mono; [apply runs_rules|].
  - intros fuel info l Hl. apply (served_retry V honest a fuel info l Hl). intros g' _.
    by apply (served_request V honest a _ 0 false (InSignProposal d) OutSignature).
  - intros x g' Hx. apply Hx. left.
Qed.
Lemma runs_generate env ev g :
  runs (RoundManager.generate_proposal env ev) (fun p g' => logged_msg g' (ProposalMsg_ p)) g.
Proof.
  unfold RoundManager.generate_proposal.
  apply (runs_gets_bind _ _ (fun callback => forall sent, sent_good g sent -> sent_good g (callback sent))).
  { intros self x Hn [= <-] sent Hs. apply Forall_app. split; [done|]. apply Forall_fmap, Forall_true. by intros y. }
  intros callback Hc. apply runs_read. intros t. apply runs_keeps_bind.
  { eapply (keeps_on _ (fun pr : Proposer P M (list (Author * ConsensusMsg)) => sent_good g (pr_node pr))).
    - by apply (keeps_generate (sent_good g)).
    - by intros self [].
    - intros self pr [] ?. by split. }
  intros d. eapply runs_bind; [apply runs_sign_proposal|]. intros sig g1 _ Hd. apply runs_read. intros info. by apply runs_ret.
Qed.
Lemma runs_new_round env ev g : runs (RoundManager.process_new_round_event get_round_duration env ev) (fun _ _ => True) g.
Proof.
  unfold RoundManager.process_new_round_event. apply runs_read. intros me. apply runs_keeps_bind; [apply keeps_election|]. intros [].
  - apply runs_keeps_bind; [apply keeps_round, keeps_leader_timeout|]. intros _.
    eapply runs_bind; [apply runs_generate|]. intros p g1 _ Hp. by apply runs_keeps, keeps_broadcast.
  - by apply runs_ret.
Qed.
Lemma runs_certificates env g : runs (RoundManager.process_certificates get_round_duration env) (fun _ _ => True) g.
Proof.
  unfold RoundManager.process_certificates. apply runs_read. intros info.
  apply runs_keeps_bind; [apply keeps_round, keeps_certificates|]. intros [ev|]; [apply runs_new_round|by apply runs_ret].
Qed.

(** *** Catching up *)

(** The timeout certificate is of the epoch: this is checked before it is brought in. *)
Lemma runs_sync_up env info from g :
  fair_sync_info (known g) info -> SyncInfo.epoch info = e -> runs (RoundManager.sync_up get_round_duration env info from) (fun _ _ => True) g.
Proof.
  intros Hi He. unfold RoundManager.sync_up. apply runs_read. intros local. case_match; [|by apply runs_ret].
  apply (runs_gets_bind _ _ (fun _ => forall tc, si_highest_2chain_timeout_cert info = Some tc -> TwoChainTimeoutCertificate.epoch tc = e)).
  { intros self x _ Hv tc Htc. rewrite <-He. clear He. unfold SyncInfo.verify in Hv. rewrite Htc in Hv. run_ok. by breflect. }
  intros _ Htc. apply runs_then_always; [|by intros; apply runs_certificates]. by apply runs_keeps, keeps_session, keeps_add_certs.
Qed.
Lemma runs_ensure_round env round info from g :
  fair_sync_info (known g) info -> SyncInfo.epoch info = e ->
  runs (RoundManager.ensure_round_and_sync_up get_round_duration env round info from) (fun _ _ => True) g.
Proof.
  intros Hi He. unfold RoundManager.ensure_round_and_sync_up. apply runs_read. intros cur. case_match; [by apply runs_ret|].
  eapply runs_bind; [by apply runs_sync_up|]. intros _ g1 _ _. apply runs_read. intros _. by apply runs_ret.
Qed.
Lemma runs_sync_info env info from g :
  fair_sync_info (known g) info -> SyncInfo.epoch info = e ->
  runs (RoundManager.process_sync_info_msg get_round_duration env info from) (fun _ _ => True) g.
Proof.
  intros Hi He. unfold RoundManager.process_sync_info_msg. apply runs_lift_bind. intros next _.
  eapply runs_bind; [by apply runs_context, runs_ensure_round|]. intros _ g1 _ _. by apply runs_ret.
Qed.

(** *** Voting *)
Lemma runs_sign_vote env now vp tc g :
  good_block e (fair g) (vp_block vp) -> (forall c, tc = Some c -> good_tc e (fair_tc g) c) ->
  runs (RoundManager.on_safety_rules env (fun fuel info storage =>
          MetricsSafetyRules.construct_and_sign_vote_two_chain fuel info storage now vp tc))
    (fun v g' => in_log g' a (RVote v)) g.
Proof.
  intros Hb Htc. eapply runs_mono; [apply runs_rules|].
  - intros fuel info l Hl. apply (served_retry V honest a fuel info l Hl). intros g' Hg.
    apply (served_request V honest a _ now false (InConstructAndSignVoteTwoChain vp tc) OutVote); [done|].
    intros n n' _ _. cbn. destruct Hb as [He Hb]. split; [by eapply unforged_li_grows|]. intros c Hc. destruct (Htc c Hc) as [Hce Hcu].
    split; [by eapply unforged_tc_grows|congruence].
  - intros x g' Hx. apply Hx. left.
Qed.
(** A vote in the log has no timeout. *)
Lemma logged_vote g self v : node_good g self -> in_log g a (RVote v) -> logged g v.
Proof.
  intros Hn (n & Hg & Hv). split; [exists v; split; [by exists n|done]|]. intros t s Ht.
  destruct (ra_replica _ _ _ _ (ng_rules _ _ Hn)) as (n' & Hg' & _ & _ & Hp). rewrite Hg in Hg'. injection Hg' as <-.
  by rewrite (Hp v Hv) in Ht.
Qed.
Lemma runs_vote env b g : good_block e (fair g) b -> runs (RoundManager.execute_and_vote env b) (fun v g' => logged g' v) g.
Proof.
  intros Hb. unfold RoundManager.execute_and_vote. apply (runs_holds_bind _ _ (fun x => good_block e (fair g) (eb_block x))).
  { intros self Hn. apply holds_context. eapply holds_on.
    - eapply holds_mono; [apply (holds_insert V e recovers (known g)); [apply Hn|exact Hb]|]. intros x st [Hst Hx]. split; [|done].
      destruct Hn. by split.
    - intros st Hst. destruct Hn. by split. }
  intros x Hx. apply runs_read. intros _. apply runs_read. intros stop. apply runs_lift_bind. intros _ _.
  apply (runs_gets_bind _ _ (fun vp => vp_block vp = eb_block x)); [by intros self vp _ [= <-]|]. intros vp Hvp.
  apply (runs_gets_bind _ _ (fun tc => forall c, tc = Some c -> good_tc e (fair_tc g) c)).
  { intros self tc Hn [= <-]. apply (tg_tc _ _ _ _ (proj1 (ng_store _ _ Hn))). }
  intros tc Htc. eapply runs_bind; [apply runs_context, runs_sign_vote; [by rewrite Hvp|exact Htc]|]. intros v g1 _ Hv.
  intros self Hn. pose proof (logged_vote _ _ _ Hn Hv) as Hl. revert self Hn.
  apply runs_keeps_bind; [|by intros _; apply runs_ret]. apply keeps_context, keeps_store.
  by apply (keeps_storage e recovers (known g1)), (keeps_save_vote V e recovers (known g1)).
Qed.
Lemma runs_proposal env b g : good_block e (fair g) b -> runs (RoundManager.process_proposal env b) (fun _ _ => True) g.
Proof.
  intros Hb. unfold RoundManager.process_proposal. apply runs_lift_bind. intros _ _. apply runs_keeps_bind; [apply keeps_election|]. intros valid.
  apply runs_lift_bind. intros _ _. apply runs_read. intros generator. apply runs_keeps_bind; [apply keeps_election|]. intros failed.
  apply runs_lift_bind. intros _ _. apply runs_read. intros _. eapply runs_bind; [by apply runs_context, runs_vote|]. intros v g1 _ Hv.
  apply runs_lift_bind. intros next _. apply runs_keeps_bind; [apply keeps_election|]. intros to.
  apply runs_keeps_bind; [by apply keeps_round, keeps_record|]. intros _. apply runs_read. intros info. by apply runs_keeps, keeps_send.
Qed.
Lemma runs_proposal_msg env p g :
  good_block e (fair g) (pm_proposal p) -> fair_sync_info (known g) (pm_sync_info p) -> SyncInfo.epoch (pm_sync_info p) = e ->
  runs (RoundManager.process_proposal_msg get_round_duration env p) (fun _ _ => True) g.
Proof.
  intros Hb Hi He. unfold RoundManager.process_proposal_msg. apply runs_lift_bind. intros proposer _.
  eapply runs_bind; [by apply runs_context, runs_ensure_round|]. intros [] g1 Hg1 _; [|by apply runs_lift].
  apply runs_proposal. by eapply good_block_grows.
Qed.

(** *** Timeouts *)
Lemma runs_backup_vote env round g : runs (RoundManager.backup_vote env round) (fun v g' => logged g' v) g.
Proof.
  unfold RoundManager.backup_vote. apply runs_read. intros generator. apply (runs_gets_bind _ _ (tree_good e (fair g) (fair_tc g))).
  { intros self t Hn [= <-]. apply Hn. }
  intros t Ht. apply (runs_holds_bind _ _ (good_block e (fair g))); [|by intros b; apply runs_vote].
  intros self Hn. eapply (holds_on _ (fun _ => True)); [|intros el _; destruct Hn; by split].
  unfold ProposalGenerator.generate_nil_block. apply holds_bind, holds_lift; [done|]. intros qc Hqc.
  apply holds_bind. eapply holds_mono; [by apply holds_keeps|]. intros failed el _. split; [destruct Hn; by split|].
  unfold ProposalGenerator.ensure_highest_quorum_cert in Hqc. run_ok. split; apply Ht.
Qed.
Lemma runs_sign_timeout env t tc g :
  runs (RoundManager.on_safety_rules env (fun fuel info storage => MetricsSafetyRules.sign_timeout_with_qc fuel info storage t tc))
    (fun _ g' => in_log g' a (RTimeout (TwoChainTimeout.signing_format t))) g.
Proof.
  eapply runs_mono; [apply runs_rules|].
  - intros fuel info l Hl. apply (served_retry V honest a fuel info l Hl). intros g' _.
    by apply (served_request V honest a _ 0 false (InSignTimeoutWithQC t tc) OutSignature).
  - intros x g' Hx. apply Hx. left.
Qed.
Lemma runs_local_timeout env round g : runs (RoundManager.process_local_timeout get_round_duration env round) (fun _ _ => True) g.
Proof.
  unfold RoundManager.process_local_timeout. apply runs_keeps_bind; [apply keeps_round, keeps_local_timeout|]. intros [|]; cbn [negb]; [|by apply runs_ret].
  apply runs_read. intros [|].
  { apply runs_read. intros info. apply runs_keeps_bind; [by apply keeps_broadcast|]. intros _. by apply runs_lift. }
  apply (runs_gets_bind _ _ (fun sent => forall v, sent = Some v -> logged g v)). { intros self sent Hn [= <-]. apply (ng_round _ _ Hn). }
  intros sent Hsent. eapply (runs_bind _ _ (fun v g' => logged g' v)).
  { destruct sent as [v|]; [|apply runs_backup_vote]. case_match; [|apply runs_backup_vote]. apply runs_ret. by apply Hsent. }
  intros v g1 _ Hv. eapply (runs_bind _ _ (fun v g' => logged g' v)).
  { case_match; [by apply runs_ret|]. apply runs_read. intros t. apply runs_read. intros tc.
    eapply runs_bind; [apply runs_context, runs_sign_timeout|]. intros sig g2 Hg2 Ht. apply runs_ret.
    destruct (logged_grows _ _ _ Hg2 Hv) as [Hv0 _]. split; [done|]. by intros ? ? [= <- <-]. }
  intros v' g2 _ Hv'. apply runs_keeps_bind; [by apply keeps_round, keeps_record|]. intros _. apply runs_read. intros info.
  apply runs_keeps_bind; [by apply keeps_broadcast|]. intros _. apply runs_keeps_bind; [|by intros _; apply runs_lift].
  case_match; [|apply keeps_ret]. apply keeps_bind; [apply keeps_election|intros _; apply keeps_ret].
Qed.

(** *** Votes of others *)
Lemma runs_new_qc env qc from g :
  fair g (qc_signed_ledger_info qc) -> runs (RoundManager.new_qc_aggregated get_round_duration env qc from) (fun _ _ => True) g.
Proof.
  intros Hqc. apply runs_then_always; [|by intros; apply runs_certificates].
  by apply runs_context, runs_keeps, keeps_session, keeps_insert_quorum_cert.
Qed.
Lemma runs_new_tc env tc g :
  good_tc e (fair_tc g) tc -> runs (RoundManager.new_2chain_tc_aggregated get_round_duration env tc) (fun _ _ => True) g.
Proof.
  intros Htc. apply runs_then_always; [|by intros; apply runs_certificates].
  by apply runs_context, runs_keeps, keeps_store, (keeps_insert_tc V e recovers (known g)).
Qed.

(** A vote of the epoch, with signatures that are genuine. *)
Record vote_received g (v : Vote) : Prop := {
  vr_genuine : genuine_vote V honest g v;
  vr_timeout t s : v_two_chain_timeout v = Some (t, s) -> to_epoch t = e /\ to_round t = bi_round (vd_proposed (v_vote_data v));
}.
Lemma holds_collect g v vs rs :
  vote_received g v -> round_good g rs ->
  holds (round_good g) (RoundState.insert_vote (E := AnyError) v vs) (fun r rs' => round_good g rs' /\
    match r with
    | NewQuorumCertificate qc => fair g (qc_signed_ledger_info qc)
    | New2ChainTimeoutCertificate tc => good_tc e (fair_tc g) tc
    | _ => True
    end) rs.
Proof.
  intros [Hv Ht] [Hp Hs]. unfold holds, RoundState.insert_vote. destruct (N.eqb_spec (bi_round (vd_proposed (v_vote_data v))) (current_round rs)) as [Hr|]; [|done].
  destruct (PendingVotes.insert_vote v vs (pending_votes rs)) as [r pv] eqn:Hi. rewrite Hr in Ht.
  apply (insert_vote_good V honest e g (current_round rs)) in Hi as (Hpv & Hqc & Htc); [|done..].
  assert (round_good g (mkRoundState (highest_committed_round rs) (current_round rs) (current_round_deadline rs) pv (vote_sent rs) (timer rs)))
    as Hrs by (by split).
  destruct r as [[]|err|]; cbn; auto.
Qed.
Lemma runs_process_vote env v g : vote_received g v -> runs (RoundManager.process_vote get_round_duration env v) (fun _ _ => True) g.
Proof.
  intros Hv. unfold RoundManager.process_vote. cbv zeta. apply runs_keeps_bind.
  { case_match; [apply keeps_ret|]. apply keeps_bind; [apply keeps_lift|intros next]. apply keeps_bind; [apply keeps_gets|intros me].
    apply keeps_bind; [apply keeps_election|intros c; apply keeps_lift]. }
  intros _. apply runs_read. intros [qc|]; [by apply runs_ret|]. apply runs_read. intros vs.
  eapply runs_holds_bind.
  { intros self Hn. eapply holds_on; [eapply holds_mono; [by apply holds_collect; [|apply Hn]|]|].
    - intros r rs [Hrs Hr]. split; [destruct Hn; by split|exact Hr].
    - intros rs Hrs. destruct Hn. by split. }
  intros [] Hr; try by apply runs_ret.
  - by apply runs_new_qc.
  - by apply runs_new_tc.
  - apply runs_read. intros [|]; [by apply runs_ret|apply runs_local_timeout].
Qed.
Lemma vote_received_grows g g' v : grows g g' -> vote_received g v -> vote_received g' v.
Proof. intros Hg [Hv Ht]. split; [by eapply genuine_vote_grows|done]. Qed.
Lemma runs_vote_msg env vm g :
  vote_received g (vm_vote vm) -> fair_sync_info (known g) (vm_sync_info vm) -> SyncInfo.epoch (vm_sync_info vm) = e ->
  runs (RoundManager.process_vote_msg get_round_duration env vm) (fun _ _ => True) g.
Proof.
  intros Hv Hi He. unfold RoundManager.process_vote_msg. eapply runs_bind; [by apply runs_context, runs_ensure_round|].
  intros [] g1 Hg1 _; [|by apply runs_ret]. apply runs_context, runs_process_vote. by eapply vote_received_grows.
Qed.

(** *** Starting, and every event *)
Lemma runs_init env last_vote g :
  (forall v, last_vote = Some v -> logged g v) -> runs (RoundManager.init get_round_duration env last_vote) (fun _ _ => True) g.
Proof.
  intros Hv. unfold RoundManager.init. apply runs_read. intros info. apply runs_keeps_bind; [apply keeps_round, keeps_certificates|]. intros ev.
  apply runs_lift_bind. intros ev' _. apply runs_keeps_bind.
  { destruct last_vote as [v|]; [|apply keeps_ret]. by apply keeps_round, keeps_record, Hv. }
  intros _. eapply runs_log_error, runs_new_round.
Qed.

Definition event_good g (event : VerifiedEvent) : Prop :=
  match event with
  | VerifiedProposalMsg p =>
      good_block e (fair g) (pm_proposal p) /\ fair_sync_info (known g) (pm_sync_info p) /\ SyncInfo.epoch (pm_sync_info p) = e
  | VerifiedVoteMsg vm => vote_received g (vm_vote vm) /\ fair_sync_info (known g) (vm_sync_info vm) /\ SyncInfo.epoch (vm_sync_info vm) = e
  | UnverifiedSyncInfo info => fair_sync_info (known g) info /\ SyncInfo.epoch info = e
  | _ => True
  end.
Lemma runs_handle env peer event g : event_good g event -> runs (RoundManager.handle get_round_duration env peer event) (fun _ _ => True) g.
Proof.
  destruct event as [p|vm|info|cv|cd|round]; cbn.
  - intros (? & ? & ?). by apply runs_proposal_msg.
  - intros (? & ? & ?). by apply runs_vote_msg.
  - intros []. by apply runs_sync_info.
  - intros _. by apply runs_lift.
  - intros _. by apply runs_lift.
  - intros _. apply runs_local_timeout.
Qed.

Context (config : ConsensusConfig) (onchain_config : OnChainConsensusConfig) (election : P) (manager : M).
Lemma runs_initialize_rules env g : runs (EpochManager.initialize_rules env) (fun _ _ => True) g.
Proof.
  unfold EpochManager.initialize_rules. eapply runs_log_error, (runs_rules _ _ (fun _ _ => True)). intros fuel info l Hl.
  unfold MetricsSafetyRules.perform_initialize. eapply served_bind.
  - by apply (served_request V honest a _ 0 info InConsensusState OutConsensusState).
  - intros x g1 _ _. by apply served_initialize_loop.
Qed.
Lemma runs_start_round_manager env data g :
  recovery_good e (known g) data ->
  runs (EpochManager.start_round_manager get_round_duration config (mkEpochState e (V e)) onchain_config election manager env data)
    (fun _ _ => True) g.
Proof.
  intros Hd. unfold EpochManager.start_round_manager. cbv zeta. eapply runs_bind; [apply runs_initialize_rules|]. intros _ g1 Hg1 _.
  assert (recovery_good e (known g1) data) as Hd1.
  { destruct (known_grows _ _ Hg1) as (Hli & Htc & Hown). destruct Hd as [[] [] Hbs Hcs Ht Hv]. split; [split; auto..| | | |]; eauto.
    - eapply Forall_impl; [done|]. intros b []. split; auto.
    - eapply Forall_impl; [done|]. auto.
    - intros tc []%Ht. split; auto. }
  apply (runs_holds_bind _ _ (store_good e recovers (known g1))).
  { intros self Hn. unfold EpochManager.on_environment, RoundManager.on_store, holds, on. set (st := rm_block_store self).
    pose proof (new_good V e recovers (known g1) data (cfg_max_pruned_blocks_in_mem config)
      (OnChainConsensusConfig.back_pressure_limit onchain_config) (state_computer st, storage st) Hd1 (proj2 (ng_store _ _ Hn))) as Hnew.
    destruct (BlockStore.new _ _ _ _) as [r env']. destruct Hnew as [Hl Hst].
    assert (node_good g1 (RoundManager.set_store (mkBlockStore (inner st) env'.1 env'.2 (back_pressure_limit st) (callbacks st)) self)) as Hn'.
    { destruct Hn as [? [] ? ? ?]. by split. }
    destruct r as [st'|err|]; [|done..]. split; [done|]. by apply Hst. }
  intros st Hst. apply runs_keeps_bind.
  { apply keeps_puts. intros self [Hr _ [_ Hw] _ Hs]. split; cbn; [done|done|by split|..|done]. split; [apply votes_good_new|done]. }
  intros _. apply runs_init. apply Hd1.
Qed.
Lemma runs_start env g :
  runs (EpochManager.start_new_epoch get_round_duration config (mkEpochState e (V e)) onchain_config election manager env) (fun _ _ => True) g.
Proof.
  unfold EpochManager.start_new_epoch.
  apply (runs_holds_bind _ _ (fun d => forall data, d = FullRecoveryData data -> recovery_good e (known g) data)).
  - intros self Hn. unfold holds, expect_ok_m, RoundManager.on_store, BlockStore.on_storage, on.
    pose proof (recovers_start (known g) (storage (rm_block_store self)) (proj2 (ng_store _ _ Hn))) as [Hl Hd].
    destruct (start (storage (rm_block_store self))) as [r l]. cbn in Hl.
    assert (node_good g (RoundManager.set_store (mkBlockStore (inner (rm_block_store self)) (state_computer (rm_block_store self)) l
      (back_pressure_limit (rm_block_store self)) (callbacks (rm_block_store self))) self)) as Hn' by (destruct Hn as [? [] ? ? ?]; by split).
    destruct r as [d|err|]; cbn; [|done..]. split; [done|]. intros data ->. by apply Hd.
  - intros [data|data] Hd; [|by apply runs_lift]. apply runs_start_round_manager. by apply Hd.
Qed.
End node.

(** ** A system of nodes *)
Section nodes.
Context `{HashOrder} `{StateComputer C} `{PersistentLivenessStorage L} `{ConsensusNetwork W}.
Context `{!ProposerElection P} `{!PayloadManager M} `{KVStorageLaws Store} `{ConsensusCrypto}.
Context `{CryptoHash BlockData} `{CryptoHash LedgerInfo}.
Context (get_round_duration : N -> N) (V : N -> ValidatorVerifier) (honest : gset N) (e : N).
Context (recovers : Genuine -> L -> Prop).
Abbreviation RM := (RoundManager C L W P M Store).

(** A round manager and the commit votes that the execution pipeline has obtained. *)
Record Node : Type := mkNode { n_manager : RM; n_commit_votes : list LedgerInfo }.
Implicit Types (nodes : gmap N Node) (m : RM).

(** *** What the nodes have signed and sent *)
Definition sent_by nodes (a : N) (msg : ConsensusMsg) : Prop :=
  exists n to, nodes !! a = Some n /\ (to, msg) ∈ rm_sent (n_manager n).
Definition signed_by nodes (a : N) (li : LedgerInfo) : Prop :=
  (exists vm, sent_by nodes a (VoteMsg_ vm) /\ v_ledger_info (vm_vote vm) = li) \/
  exists n, nodes !! a = Some n /\ li ∈ n_commit_votes n.
Definition timed_out_by nodes (a : N) (t : TimeoutSigningRepr) : Prop :=
  exists vm timeout s, sent_by nodes a (VoteMsg_ vm) /\ v_two_chain_timeout (vm_vote vm) = Some (timeout, s) /\
    TwoChainTimeout.signing_format timeout = t.

(** Unforgeability: a signature that verifies under the key of an honest node was sent by it. *)
Definition authentic_li nodes (lis : LedgerInfoWithSignatures) : Prop :=
  forall i a s, a ∈ honest -> lis_signatures lis !! a = Some s -> Verifier.verify (V i) a (lis_ledger_info lis) s = Ok tt ->
    signed_by nodes a (lis_ledger_info lis).
Definition authentic_tc nodes (tc : TwoChainTimeoutCertificate) : Prop :=
  forall i a q s, a ∈ honest -> tc_signatures tc !! a = Some (q, s) ->
    let t := mkTimeoutSigningRepr (TwoChainTimeoutCertificate.epoch tc) (TwoChainTimeoutCertificate.round tc) q in
    Verifier.verify (V i) a t s = Ok tt -> timed_out_by nodes a t.
Definition authentic_vote nodes (v : Vote) : Prop :=
  v_author v ∈ honest -> forall i,
  (Verifier.verify (V i) (v_author v) (v_ledger_info v) (v_signature v) = Ok tt -> signed_by nodes (v_author v) (v_ledger_info v)) /\
  forall t s, v_two_chain_timeout v = Some (t, s) -> Verifier.verify (V i) (v_author v) (TwoChainTimeout.signing_format t) s = Ok tt ->
    timed_out_by nodes (v_author v) (TwoChainTimeout.signing_format t).
Definition authentic nodes : Genuine := mkGenuine (authentic_li nodes) (authentic_tc nodes) (fun _ => False).
Definition authentic_event nodes (event : UnverifiedEvent) : Prop :=
  match event with
  | UnverifiedProposalMsg p =>
      authentic_li nodes (qc_signed_ledger_info (Block.quorum_cert (pm_proposal p))) /\ fair_sync_info (authentic nodes) (pm_sync_info p)
  | UnverifiedVoteMsg vm => authentic_vote nodes (vm_vote vm) /\ fair_sync_info (authentic nodes) (vm_sync_info vm)
  | UnverifiedSyncInfoMsg info => fair_sync_info (authentic nodes) info
  | _ => True
  end.

(** What the round manager is given: a timeout, or a message of the epoch that was verified. *)
Inductive delivered nodes : VerifiedEvent -> Prop :=
  | delivered_timeout round : delivered nodes (LocalTimeout round)
  | delivered_message event now verified :
      authentic_event nodes event -> UnverifiedEvent.epoch event = e -> UnverifiedEvent.verify event (V e) now = Ok verified ->
      delivered nodes verified.

Definition with_peers (w : W) m : RM :=
  RoundManager.set_network (mkNetworkSender (ns_author (rm_network m)) w (ns_validators (rm_network m))) m.
Definition with_computer (c : C) m : RM :=
  let st := rm_block_store m in
  RoundManager.set_store (mkBlockStore (inner st) c (storage st) (back_pressure_limit st) (callbacks st)) m.
Definition with_rules (f : SafetyRules Store -> SafetyRules Store) m : RM := RoundManager.set_safety_rules (f (rm_safety_rules m)) m.

(** One step of a node: an event with the answers that peers give meanwhile, a callback of
    the execution, a commit vote, a restart of the node or of its safety rules, a failure of
    the storage of safety rules. *)
Inductive node_step nodes : Node -> Node -> Prop :=
  | node_event n event env peer w :
      delivered nodes event -> answers e (V e) (authentic_li nodes) w ->
      node_step nodes n
        (mkNode (RoundManager.handle get_round_duration env peer event (with_peers w (n_manager n))).2 (n_commit_votes n))
  | node_callback n blocks proof decision :
      node_step nodes n
        (mkNode (RoundManager.on_store (BlockStore.commit_callback blocks proof decision) (n_manager n)).2 (n_commit_votes n))
  | node_commit_vote n now info li new_li r sr :
      authentic_li nodes li -> li_consensus_data_hash new_li = li_consensus_data_hash (lis_ledger_info li) ->
      (forall es, epoch_state (rm_safety_rules (n_manager n)) = Some es -> es_epoch es = bi_epoch (li_commit_info (lis_ledger_info li))) ->
      SafetyRules.handle_message now info (InSignCommitVote li new_li) (rm_safety_rules (n_manager n)) = (r, sr) ->
      node_step nodes n
        (mkNode (with_rules (fun _ => sr) (n_manager n)) (match r with Ok _ => new_li :: n_commit_votes n | _ => n_commit_votes n end))
  | node_restart n c b w config onchain_config election manager env :
      answers e (V e) (authentic_li nodes) w ->
      node_step nodes n
        (mkNode (EpochManager.start_new_epoch get_round_duration config (mkEpochState e (V e)) onchain_config election manager env
                   (with_peers w (with_computer c (with_rules (fun sr => restarted sr b) (n_manager n))))).2 (n_commit_votes n))
  | node_rules_restart n b :
      node_step nodes n (mkNode (with_rules (fun sr => restarted sr b) (n_manager n)) (n_commit_votes n))
  | node_rules_storage n s :
      (forall k, content s k = content (internal_store (persistent_storage (rm_safety_rules (n_manager n)))) k) ->
      node_step nodes n (mkNode (with_rules (fun sr => with_store sr s) (n_manager n)) (n_commit_votes n)).

(** At first nothing is signed, and nothing that a node holds has a signature of a node. *)
Record fresh_node nodes (n : Node) : Prop := {
  fn_commit_votes : n_commit_votes n = [];
  fn_sent : rm_sent (n_manager n) = [];
  fn_rules : replica_init (rm_safety_rules (n_manager n));
  fn_votes : pending_votes (rm_round_state (n_manager n)) = PendingVotes.new;
  fn_vote_sent : vote_sent (rm_round_state (n_manager n)) = None;
  fn_store : store_good e recovers (authentic nodes) (rm_block_store (n_manager n));
  fn_network : net_good e (V e) (authentic_li nodes) (rm_network (n_manager n));
}.
Inductive nodes_reachable : gmap N Node -> Prop :=
  | nodes_init nodes : dom nodes = honest -> (forall a n, nodes !! a = Some n -> fresh_node nodes n) -> nodes_reachable nodes
  | nodes_step nodes a n n' :
      nodes_reachable nodes -> nodes !! a = Some n -> node_step nodes n n' -> nodes_reachable (<[a := n']> nodes).
End nodes.
Arguments Node : clear implicits.
Arguments mkNode {C L W P M Store}.
Arguments n_manager {C L W P M Store}.
Arguments n_commit_votes {C L W P M Store}.

(** ** The simulation *)
Section simulation.
Context `{HashOrder} `{StateComputer C} `{PersistentLivenessStorage L} `{ConsensusNetwork W}.
Context `{!ProposerElection P} `{!PayloadManager M} `{!CallsBack M} `{KVStorageLaws Store} `{ConsensusCrypto}.
Context `{CryptoHash BlockData} `{CryptoHash LedgerInfo} `{!CollisionFree LedgerInfo} `{!CollisionFree VoteData}.
Context (get_round_duration : N -> N) (V : N -> ValidatorVerifier) (honest : gset N) (e : N).
Context (recovers : Genuine -> L -> Prop) `{!StorageKeeps L V e recovers}.
Implicit Types (nodes : gmap N (Node C L W P M Store)) (g : gmap N (Replica Store)) (n : Node C L W P M Store) (m : RoundManager C L W P M Store).
Abbreviation node_good := (node_good V honest e recovers).
Abbreviation node_step := (node_step get_round_duration V honest e).
Abbreviation nodes_reachable := (nodes_reachable get_round_duration V honest e recovers).

Definition simulates (a : N) g n : Prop := node_good a g (n_manager n) /\ forall li, li ∈ n_commit_votes n -> in_log g a (RCommit li).
Definition simulated g nodes : Prop := system_reachable V honest g /\ forall a n, nodes !! a = Some n -> simulates a g n.

(** *** What is authentic is not forged *)
Section authentic.
Context (g : gmap N (Replica Store)) (nodes : gmap N (Node C L W P M Store)) (Hsim : simulated g nodes).

Lemma sent_logged a msg : sent_by nodes a msg -> logged_msg a g msg.
Proof.
  intros (n & to & Hn & Hin). destruct (proj2 Hsim a n Hn) as [Hg _]. pose proof (ng_sent _ _ _ _ _ _ _ Hg) as Hs.
  unfold sent_good in Hs. rewrite Forall_forall in Hs. exact (Hs _ Hin).
Qed.
Lemma signed_logged a li : signed_by nodes a li -> signed_ledger_info g a li.
Proof.
  intros [(vm & Hs & <-)|(n & Hn & Hli)].
  - apply sent_logged in Hs as [(v0 & Hv & _ & Heq) _]. left. by exists v0.
  - right. by apply (proj2 Hsim a n Hn).
Qed.
Lemma timed_out_logged a t : timed_out_by nodes a t -> in_log g a (RTimeout t).
Proof. intros (vm & timeout & s & [_ Ht]%sent_logged & Hto & <-). by eapply Ht. Qed.
Lemma authentic_unforged lis : authentic_li V honest nodes lis -> unforged_li V honest g lis.
Proof. intros Ha i b s Hb Hs Hv. eapply signed_logged, Ha; eauto. Qed.
Lemma authentic_unforged_tc tc : authentic_tc V honest nodes tc -> unforged_tc V honest g tc.
Proof. intros Ha i b q s Hb Hs t Hv. eapply timed_out_logged, Ha; eauto. Qed.
Lemma authentic_genuine v : authentic_vote V honest nodes v -> genuine_vote V honest g v.
Proof.
  intros Ha Hb i. destruct (Ha Hb i) as [Hs Ht]. split; [|by eauto using timed_out_logged]. intros Hv. by apply signed_logged, Hs.
Qed.
Lemma authentic_known a : genuine_le (authentic V honest nodes) (known V honest a g).
Proof. split_and!; cbn; eauto using authentic_unforged, authentic_unforged_tc. done. Qed.
Lemma authentic_sync_info a info : fair_sync_info (authentic V honest nodes) info -> fair_sync_info (known V honest a g) info.
Proof. destruct (authentic_known a) as (? & ? & _). intros []. split; eauto. Qed.

(** Verified messages of the epoch are good events. *)
Lemma delivered_good a event : delivered V honest e nodes event -> event_good V honest e a g event.
Proof.
  intros [round|ev now verified Ha He Hv]; [done|]. destruct ev as [p|vm|info|cv|cd]; cbn in *; run_ok; cbn; [| |by eauto using authentic_sync_info|done..].
  - destruct Ha as [Hqc Hi]. unfold ProposalMsg.epoch in He. split_and!; [by split; [|apply authentic_unforged]|by apply authentic_sync_info|].
    unfold ProposalMsg.verify, ProposalMsg.verify_well_formed in *. run_ok. breflect. congruence.
  - destruct Ha as [Hvote Hi]. unfold VoteMsg.epoch in He. unfold VoteMsg.verify in *.
    split_and!; [split; [by apply authentic_genuine|]|by apply authentic_sync_info|].
    + intros t s Ht. match goal with Hm : _ = Ok tt |- _ => apply bind_Ok in Hm as (? & ? & Hm); apply bind_Ok in Hm as (? & ? & Hm);
        apply bind_Ok in Hm as (? & ? & Hm); destruct (vote_verify_Ok _ _ Hm) as (_ & _ & _ & Hto) end.
      destruct (Hto t s Ht) as (Hte & Htr & _). split; congruence.
    + run_ok. breflect. congruence.
Qed.
End authentic.

(** *** Steps *)
Lemma own_steps_other a b g g' : rtc (own_step V honest a) g g' -> b <> a -> g' !! b = g !! b.
Proof.
  induction 1 as [g|g1 g2 g3 (n & ev & n' & _ & _ & _ & ->) _ IH]; [done|]. intros Hne. rewrite IH by done. by rewrite lookup_insert_ne by congruence.
Qed.
Lemma own_steps_reachable a g g' : rtc (own_step V honest a) g g' -> system_reachable V honest g -> system_reachable V honest g'.
Proof.
  induction 1 as [g|g1 g2 g3 (n & ev & n' & Hn & Hs & Hal & ->) _ IH]; [done|]. intros Hr. apply IH.
  eapply system_next; [exact Hr|]. by eapply system_replica_step.
Qed.
Lemma simulates_grows a g g' n : grows g g' -> g' !! a = g !! a -> simulates a g n -> simulates a g' n.
Proof.
  intros Hg Heq [Hn Hc]. split; [|eauto].
  assert (replica_of V a g' (rm_safety_rules (n_manager n))) as Hr.
  { destruct (ng_rules _ _ _ _ _ _ _ Hn) as [(x & Hx & ?) Hes]. split; [|done]. exists x. by rewrite Heq. }
  pose proof (node_good_grows V honest e recovers a g g' (n_manager n) _ Hg Hn Hr) as Hn'. by destruct (n_manager n).
Qed.
(** A step of one node is a sequence of steps of its replica. *)
Lemma simulated_insert a n n' g g' nodes :
  simulated g nodes -> nodes !! a = Some n -> rtc (own_step V honest a) g g' -> simulates a g' n' -> simulated g' (<[a := n']> nodes).
Proof.
  intros [Hr Hall] Hn Hsteps Hn'. split; [by eapply own_steps_reachable|]. intros b m. rewrite lookup_insert_Some.
  intros [[<- <-]|[Hne Hm]]; [done|]. eapply simulates_grows; [by eapply own_steps_grow|by apply (own_steps_other a b)|by apply Hall].
Qed.

Lemma with_peers_good a g g' nodes w m :
  simulated g nodes -> answers e (V e) (authentic_li V honest nodes) w -> grows g g' -> node_good a g' m -> node_good a g' (with_peers w m).
Proof.
  intros Hsim Hw Hg [Hr Hst [Hvs _] Hrs Hs]. split; [done|done| |done..]. split; [done|]. eapply answers_mono; [|exact Hw].
  intros x Hx. eapply unforged_li_grows; [exact Hg|]. by eapply authentic_unforged.
Qed.
Lemma with_computer_good a g c m : node_good a g m -> node_good a g (with_computer c m).
Proof. intros [Hr [] Hw Hrs Hs]. by split. Qed.

(** Requests and failures of safety rules themselves. *)
Lemma rules_step a g m ev sr (new : list Released) :
  node_good a g m -> (forall log, replica_step (mkReplica (rm_safety_rules m) log) ev (mkReplica sr (new ++ log))) ->
  (forall x x' : Replica Store, r_rules x = rm_safety_rules m -> allowed V honest g x x' ev) ->
  exists g', own_step V honest a g g' /\ node_good a g' (RoundManager.set_safety_rules sr m) /\ forall x, x ∈ new -> in_log g' a x.
Proof.
  intros Hn Hs Hal. pose proof (ng_rules _ _ _ _ _ _ _ Hn) as Hr. destruct (ra_replica _ _ _ _ Hr) as (x & Hg & Heq & _).
  destruct x as [sr0 log]. cbn in Heq. subst sr0. specialize (Hs log).
  destruct (replica_steps V honest a g (mkReplica (rm_safety_rules m) log) ev _ Hr Hg Hs) as [Hown Hr']; [by apply Hal|].
  eexists. split; [exact Hown|]. split; [exact (node_good_grows V honest e recovers a _ _ m sr (own_step_grows _ _ _ _ _ Hown) Hn Hr')|].
  intros y Hy. eexists. rewrite lookup_insert_eq. split; [done|]. apply elem_of_app. by left.
Qed.
Lemma restart_step a g m b :
  node_good a g m -> exists g', own_step V honest a g g' /\ node_good a g' (with_rules (fun sr => restarted sr b) m).
Proof.
  intros Hn. destruct (rules_step a g m (Restart b) (restarted (rm_safety_rules m) b) [] Hn) as (g' & ? & ? & _); [|done|by exists g'].
  intros log. apply step_restart.
Qed.

Lemma step_simulated a n n' g nodes :
  simulated g nodes -> nodes !! a = Some n -> node_step nodes n n' -> exists g', simulated g' (<[a := n']> nodes).
Proof.
  intros Hsim Hn Hs. destruct (proj2 Hsim a n Hn) as [Hg Hc].
  assert (forall g' n1, rtc (own_step V honest a) g g' -> node_good a g' (n_manager n1) -> n_commit_votes n1 = n_commit_votes n ->
            exists g', simulated g' (<[a := n1]> nodes)) as Hend.
  { intros g' n1 Hsteps Hn1 Heq. exists g'. eapply simulated_insert; [done..|]. split; [done|]. rewrite Heq. intros li Hli.
    eapply own_steps_grow; [exact Hsteps|auto]. }
  destruct Hs as [n event env peer w Hd Hw|n blocks proof decision|n now info li new_li r sr Ha Hh He Hr
    |n c b w config oc election manager env Hw|n b|n s Hk].
  - destruct (runs_handle get_round_duration V honest e recovers a env peer event g (delivered_good g nodes Hsim a event Hd) _
      (with_peers_good _ _ _ _ _ _ Hsim Hw (reflexivity g) Hg)) as (g' & Hsteps & Hn' & _). by eapply Hend.
  - eapply (Hend g); [done| |done]. by eapply keeps_store; [eapply (keeps_commit_callback V e recovers)|].
  - destruct (rules_step a g (n_manager n) (Request now info (InSignCommitVote li new_li)) sr
      (released (InSignCommitVote li new_li) r) Hg) as (g' & Hown & Hg' & Hnew).
    { intros log. by apply step_request. }
    { intros x x' Hx. cbn. split_and!; [by eapply authentic_unforged|done|]. rewrite Hx. exact He. }
    exists g'. eapply simulated_insert; [done..|by apply rtc_once|]. split; [done|]. cbn. apply own_step_grows in Hown.
    cbn in Hr. apply response_inv in Hr as (q & _ & ->). destruct q as [sig|err|]; [|by auto..].
    intros li' [->|Hli]%elem_of_cons; [apply Hnew; left|by auto].
  - destruct (restart_step a g (n_manager n) b Hg) as (g1 & Hown & Hg1).
    pose proof (with_peers_good _ _ _ _ _ _ Hsim Hw (own_step_grows _ _ _ _ _ Hown) (with_computer_good _ _ c _ Hg1)) as Hg2.
    destruct (runs_start get_round_duration V honest e recovers a config oc election manager env _ _ Hg2) as (g' & Hsteps & Hn' & _).
    eapply Hend; [by eapply rtc_l|exact Hn'|done].
  - destruct (restart_step a g (n_manager n) b Hg) as (g1 & Hown & Hg1). by eapply Hend; [apply rtc_once|..].
  - destruct (rules_step a g (n_manager n) (StorageChange s) (with_store (rm_safety_rules (n_manager n)) s) [] Hg) as (g1 & Hown & Hg1 & _).
    { intros log. by apply step_storage. } { done. }
    by eapply Hend; [apply rtc_once|..].
Qed.

(** *** The start *)
Lemma init_simulated nodes :
  dom nodes = honest -> (forall a n, nodes !! a = Some n -> fresh_node V honest e recovers nodes n) ->
  simulated ((fun n => mkReplica (rm_safety_rules (n_manager n)) []) <$> nodes) nodes.
Proof.
  intros Hdom Hf. set (g := _ <$> nodes).
  assert (forall a msg, ~ sent_by nodes a msg) as Hsent.
  { intros a msg (n & to & Hn & Hin). rewrite (fn_sent _ _ _ _ _ _ (Hf a n Hn)) in Hin. by apply elem_of_nil in Hin. }
  assert (forall a, genuine_le (authentic V honest nodes) (known V honest a g)) as Hle.
  { intros a. split_and!; cbn; [| |done].
    - intros lis Hl i b s Hb Hs Hv. destruct (Hl i b s Hb Hs Hv) as [(vm & Hvm & _)|(n & Hn & Hli)]; [by destruct (Hsent _ _ Hvm)|].
      rewrite (fn_commit_votes _ _ _ _ _ _ (Hf b n Hn)) in Hli. by apply elem_of_nil in Hli.
    - intros tc Ht i b q s Hb Hs t Hv. destruct (Ht i b q s Hb Hs Hv) as (vm & to & s' & Hvm & _). by destruct (Hsent _ _ Hvm). }
  split.
  - apply system_start. split; [unfold g; by rewrite dom_fmap_L|]. intros a x. unfold g. rewrite lookup_fmap_Some. intros (n & <- & Hn).
    split; [apply (fn_rules _ _ _ _ _ _ (Hf a n Hn))|done].
  - intros a n Hn. destruct (Hf a n Hn) as [Hc Hs Hr Hp Hv [[Hb Hq Htc] Hl] [Hvs Hw]]. destruct (Hle a) as (Hli & Ht & _).
    split; [|rewrite Hc; by intros li ?%elem_of_nil]. split.
    + split; [|intros es Hes; destruct Hr as (_ & He & _); congruence]. exists (mkReplica (rm_safety_rules (n_manager n)) []).
      unfold g. rewrite lookup_fmap, Hn. split_and!; [done..| |by intros v ?%elem_of_nil]. apply replica_reachable_ok. by apply reachable_init.
    + split; [|by eapply recovers_mono; [apply Hle|]]. split.
      * intros i lb [? ?]%Hb. split; auto.
      * destruct Hq. split; auto.
      * intros tc [? ?]%Htc. split; auto.
    + split; [done|]. by eapply answers_mono.
    + split; [rewrite Hp; apply votes_good_new|by rewrite Hv].
    + unfold sent_good. by rewrite Hs.
Qed.
Lemma reachable_simulated nodes : nodes_reachable nodes -> exists g, simulated g nodes.
Proof.
  induction 1 as [nodes Hdom Hf|nodes a n n' _ [g Hsim] Hn Hs]; [|by eapply step_simulated].
  eexists. by apply init_simulated.
Qed.
End simulation.

(** ** Three rounds of a network

    Validators 1, 2 and 3 are nodes; 4 is silent.  The leader of a round is the next one in
    turn. *)
Module NodeExample.
Import Net NetHash.

#[local] Instance order : HashOrder := {| set_iter := elements; map_iter V := map_to_list |}.
#[local] Instance hash_block_data : CryptoHash BlockData := fun d => 9 + bd_round d.
#[local] Instance computer : StateComputer unit := {|
  sc_compute _ _ := mret (mkStateComputeResult ACCUMULATOR_PLACEHOLDER_HASH [] [] 0 0 None [] [] []);
  sc_commit _ _ := mret None;
  sc_sync_to _ := mret tt;
|}.
#[local] Instance silent : ConsensusNetwork unit := {|
  send_rpc _ _ _ := lift (Err (Msg "timed out"));
  gen_range _ w := (O, w);
  clock _ := 1000;
  broadcast_epoch_change _ w := w;
  send_epoch_change _ w := w;
  send_commit_proof _ w := w;
|}.
#[local] Instance no_transactions : PayloadManager unit := fun _ _ _ _ _ => mret Payload.new_empty.
#[local] Instance no_transactions_call_back : CallsBack unit.
Proof. intros X I max filter callback pending Hc self Hs. exact Hs. Qed.

(** A storage that comes back with genesis, the last vote and the last timeout certificate. *)
Record Db : Type := mkDb { db_vote : option Vote; db_tc : option TwoChainTimeoutCertificate }.
Definition genesis_block : Block :=
  match @Block.make_genesis_block_from_ledger_info _ unit genesis_li with
  | Ok b => b
  | _ => mkBlock 0 (mkBlockData 0 0 0 genesis_qc Genesis) None
  end.
Definition recovered (db : Db) : RecoveryData :=
  mkRecoveryData (db_vote db) (mkRootInfo genesis_block genesis_qc genesis_qc genesis_qc) (mkRootMetadata 1 8 []) [] [] None (db_tc db).
#[local] Instance db_storage : PersistentLivenessStorage Db := {|
  save_tree _ _ := mret tt;
  prune_tree _ := mret tt;
  save_vote v := puts (fun db => mkDb (Some v) (db_tc db));
  recover_from_ledger _ := Ok (mkLedgerRecoveryData (mkLedgerInfoWithSignatures genesis_li ∅));
  LivenessStorage.start := gets (fun db => Ok (FullRecoveryData (recovered db)));
  save_highest_2chain_timeout_cert tc := puts (fun db => mkDb (db_vote db) (Some tc));
  retrieve_epoch_change_proof _ _ := Ok genesis_proof;
|}.
Definition recovers (k : Genuine) (db : Db) : Prop := recovery_good 1 k (recovered db).

Definition node : Type := Node unit Db unit RotatingProposer unit InMemoryStorage.
Definition onchain_config : OnChainConsensusConfig := mkOnChainConsensusConfig true 10 20 (ElectRotating 1) 20.
Definition config : ConsensusConfig := mkConsensusConfig 2 10 false.
Definition duration (_ : N) : N := 10 ^ 9.
Definition env (t : N) : RoundEnv := mkRoundEnv (fun _ => t * 10 ^ 9) false 2.
Definition election : RotatingProposer := mkRotatingProposer [1; 2; 3] 1.

Definition store0 : BlockStore unit Db :=
  match (BlockStore.new (recovered (mkDb None None)) 2 10 (tt, mkDb None None)).1 with
  | Ok st => st
  | _ => mkBlockStore (mkBlockTree ∅ 0 0 0 genesis_qc None genesis_qc genesis_qc ∅ [] 0) tt (mkDb None None) 0 []
  end.
Definition node0 (a : N) : node :=
  mkNode (RoundManager.new (mkEpochState 1 (V 1)) store0 (RoundState.new 0) election (ProposalGenerator.new a 10 20) tt (rules_of a)
            (mkNetworkSender a tt (V 1)) false onchain_config) [].
Definition nodes0 : gmap N node := list_to_map ((fun a => (a, node0 a)) <$> [1; 2; 3]).

(** *** A run *)
Definition signedb (nodes : gmap N node) (a : N) (li : LedgerInfo) : bool :=
  match nodes !! a with
  | Some n => existsb (fun x : Author * ConsensusMsg => match x.2 with
                                                        | VoteMsg_ vm => bool_decide (v_ledger_info (vm_vote vm) = li)
                                                        | _ => false
                                                        end) (rm_sent (n_manager n))
  | None => false
  end.
Definition authentic_lib (nodes : gmap N node) (lis : LedgerInfoWithSignatures) : bool :=
  forallb (fun x : N * Signature => negb (bool_decide (x.1 ∈ honest)) || signedb nodes x.1 (lis_ledger_info lis))
    (map_to_list (lis_signatures lis)).
Definition sync_infob (nodes : gmap N node) (info : SyncInfo) : bool :=
  authentic_lib nodes (qc_signed_ledger_info (si_highest_quorum_cert info))
  && authentic_lib nodes (qc_signed_ledger_info (SyncInfo.highest_ordered_cert info))
  && authentic_lib nodes (qc_signed_ledger_info (si_highest_commit_cert info))
  && bool_decide (si_highest_2chain_timeout_cert info = None).
Definition eventb (nodes : gmap N node) (event : UnverifiedEvent) : bool :=
  match event with
  | UnverifiedProposalMsg p =>
      authentic_lib nodes (qc_signed_ledger_info (Block.quorum_cert (pm_proposal p))) && sync_infob nodes (pm_sync_info p)
  | UnverifiedVoteMsg vm =>
      signedb nodes (v_author (vm_vote vm)) (v_ledger_info (vm_vote vm)) && bool_decide (v_two_chain_timeout (vm_vote vm) = None)
      && sync_infob nodes (vm_sync_info vm)
  | _ => false
  end.

(** Booting a node, delivering to it the last message that another one has sent, or the end
    of its round. *)
Inductive Command : Type := Boot (a : N) | Deliver (from to : N) | Expire (a : N) (round : Round).
Definition last_message (nodes : gmap N node) (a : N) : option UnverifiedEvent :=
  n ← nodes !! a; x ← last (rm_sent (n_manager n));
  match x.2 with ProposalMsg_ p => Some (UnverifiedProposalMsg p) | VoteMsg_ v => Some (UnverifiedVoteMsg v) | SyncInfo_ _ => None end.
Definition execute (t : N) (nodes : gmap N node) (c : Command) : option (gmap N node) :=
  match c with
  | Boot a =>
      n ← nodes !! a;
      Some (<[a := mkNode (EpochManager.start_new_epoch duration config (mkEpochState 1 (V 1)) onchain_config election tt (env t)
                             (with_peers tt (with_computer tt (with_rules (fun sr => restarted sr true) (n_manager n))))).2
                     (n_commit_votes n)]> nodes)
  | Deliver from to =>
      event ← last_message nodes from; n ← nodes !! to;
      match UnverifiedEvent.verify event (V 1) (t * 10 ^ 6) with
      | Ok verified =>
          if eventb nodes event && (UnverifiedEvent.epoch event =? 1) then
            Some (<[to := mkNode (RoundManager.handle duration (env t) from verified (with_peers tt (n_manager n))).2
                            (n_commit_votes n)]> nodes)
          else None
      | _ => None
      end
  | Expire a round =>
      n ← nodes !! a;
      Some (<[a := mkNode (RoundManager.handle duration (env t) a (LocalTimeout round) (with_peers tt (n_manager n))).2
                     (n_commit_votes n)]> nodes)
  end.
Fixpoint script (cs : list (N * Command)) (nodes : gmap N node) : option (gmap N node) :=
  match cs with
  | [] => Some nodes
  | (t, c) :: cs => nodes ← execute t nodes c; script cs nodes
  end.
(** The leader's proposal reaches all nodes, and their votes the leader of the next round. *)
Definition round_script (t leader other next : N) : list (N * Command) :=
  (fun c => (t, c)) <$> [Deliver leader other; Deliver leader next; Deliver leader leader;
                         Deliver next next; Deliver other next; Deliver leader next].
Definition commands : list (N * Command) :=
  [(100, Boot 1); (100, Boot 2); (100, Boot 3)] ++ round_script 101 2 1 3 ++ round_script 102 3 2 1 ++ round_script 103 1 3 2 ++ [(104, Expire 1 3)].
Definition final : gmap N node := default ∅ (script commands nodes0).
Lemma final_script : script commands nodes0 = Some final.
Proof. vm_compute. reflexivity. Qed.

(** *** Its steps are steps of nodes *)
Section sound.
Context (nodes : gmap N node).
Lemma signedb_sound a li : signedb nodes a li = true -> signed_by nodes a li.
Proof.
  unfold signedb. destruct (nodes !! a) as [n|] eqn:Hn; [|done]. intros ([to msg] & Hin & Hm)%existsb_exists. apply list_elem_of_In in Hin.
  destruct msg as [p|info|vm]; [done|done|]. apply bool_decide_eq_true in Hm. left. exists vm. split; [|done]. by exists n, to.
Qed.
Lemma authentic_lib_sound lis : authentic_lib nodes lis = true -> authentic_li V honest nodes lis.
Proof.
  unfold authentic_lib. rewrite forallb_forall. intros Hall i a s Ha Hs _.
  specialize (Hall (a, s)). rewrite <-list_elem_of_In, elem_of_map_to_list in Hall. specialize (Hall Hs). cbn in Hall.
  rewrite bool_decide_eq_true_2 in Hall by done. by apply signedb_sound.
Qed.
Lemma sync_infob_sound info : sync_infob nodes info = true -> fair_sync_info (authentic V honest nodes) info.
Proof.
  unfold sync_infob. intros [[[? ?]%andb_prop ?]%andb_prop Htc]%andb_prop. apply bool_decide_eq_true in Htc.
  split; [by apply authentic_lib_sound..|]. by rewrite Htc.
Qed.
Lemma eventb_sound event : eventb nodes event = true -> authentic_event V honest nodes event.
Proof.
  destruct event as [p|vm|info|cv|cd]; cbn; [| |done..].
  - intros [? ?]%andb_prop. split; [by apply authentic_lib_sound|by apply sync_infob_sound].
  - intros [[Hs Ht]%andb_prop ?]%andb_prop. apply bool_decide_eq_true in Ht. split; [|by apply sync_infob_sound].
    intros _ i. split; [intros _; by apply signedb_sound|]. by rewrite Ht.
Qed.
End sound.

Lemma silent_answers fair : answers 1 (V 1) fair tt.
Proof. by exists (fun _ => True). Qed.
#[local] Instance db_keeps : StorageKeeps Db V 1 recovers.
Proof.
  split; try done.
  - intros k k' db (Hli & Htc & Hown) [[] [] _ _ Ht Hv]. split; [split; auto..|constructor|constructor| |]; eauto. intros tc []%Ht. split; auto.
  - intros k v db Hv []. split; [done..|]. by intros v' [= <-].
  - intros k tc db Htc []. split; [done..| |done]. by intros tc' [= <-].
  - intros k db Hdb. split; [done|]. by intros data [= <-].
  - intros k db version proof _ [= <-]. apply Forall_singleton. by intros es [= <-].
Qed.

Abbreviation reachable := (nodes_reachable duration V honest 1 recovers).
Lemma execute_reachable t nodes c nodes' : execute t nodes c = Some nodes' -> reachable nodes -> reachable nodes'.
Proof.
  intros Hx Hr. destruct c as [a|from to|a round]; cbn in Hx.
  - destruct (nodes !! a) as [n|] eqn:Hn; [|done]. injection Hx as <-. eapply nodes_step; [done..|]. apply node_restart, silent_answers.
  - destruct (last_message nodes from) as [event|]; [|done]. cbn in Hx. destruct (nodes !! to) as [n|] eqn:Hn; [|done]. cbn in Hx.
    destruct (UnverifiedEvent.verify event (V 1) (t * 10 ^ 6)) as [verified| |] eqn:Hv; [|done..].
    destruct (eventb nodes event && (UnverifiedEvent.epoch event =? 1)) eqn:Hb; [|done]. injection Hx as <-. apply andb_prop in Hb as [Hb He].
    apply N.eqb_eq in He. eapply nodes_step; [done..|]. apply node_event; [|apply silent_answers].
    eapply delivered_message; [by apply eventb_sound|done|exact Hv].
  - destruct (nodes !! a) as [n|] eqn:Hn; [|done]. injection Hx as <-. eapply nodes_step; [done..|].
    apply (node_event _ _ _ _ _ n (LocalTimeout round) (env t) a tt); [constructor|apply silent_answers].
Qed.
Lemma script_reachable cs nodes nodes' : script cs nodes = Some nodes' -> reachable nodes -> reachable nodes'.
Proof.
  revert nodes. induction cs as [|[t c] cs IH]; intros nodes; cbn; [by intros [= ->]|].
  destruct (execute t nodes c) as [nodes1|] eqn:Hx; [|done]. intros Hs Hr. eapply IH; [exact Hs|]. by eapply execute_reachable.
Qed.

Lemma genesis_fair : authentic_li V honest nodes0 (qc_signed_ledger_info genesis_qc).
Proof. apply authentic_lib_sound. vm_compute. reflexivity. Qed.
Lemma genesis_recovered : recovers (authentic V honest nodes0) (mkDb None None).
Proof.
  split; [split; [done|]|split; [done|exact genesis_fair]|constructor|constructor|done|done]. apply authentic_lib_sound. vm_compute. reflexivity.
Qed.
Lemma rules_init a : a ∈ [1; 2; 3] -> replica_init (rules_of a).
Proof.
  intros Ha. destruct start_init as [_ Hall]. apply (Hall a (mkReplica (rules_of a) [])). unfold start.
  apply elem_of_list_to_map_1; [apply (bool_decide_unpack _); vm_compute; exact I|]. apply list_elem_of_fmap. by exists a.
Qed.
Lemma node_store_new : (BlockStore.new (recovered (mkDb None None)) 2 10 (tt, mkDb None None)).1 = Ok store0.
Proof. vm_compute. reflexivity. Qed.
Lemma store0_good : store_good 1 recovers (authentic V honest nodes0) store0.
Proof.
  pose proof (new_good V 1 recovers (authentic V honest nodes0) (recovered (mkDb None None)) 2 10 (tt, mkDb None None)
    genesis_recovered genesis_recovered) as Hnew. pose proof node_store_new as Hst.
  destruct (BlockStore.new (recovered (mkDb None None)) 2 10 (tt, mkDb None None)) as [r env']. by apply Hnew.
Qed.
Lemma nodes0_reachable : reachable nodes0.
Proof.
  apply nodes_init.
  - unfold nodes0. rewrite dom_list_to_map_L. apply set_eq. intros a. rewrite elem_of_list_to_set. cbn. unfold honest. set_solver.
  - intros a n Hn. apply elem_of_list_to_map_2, list_elem_of_fmap in Hn as (b & [= -> ->] & Hb). split; [done|done|by apply rules_init|done|done|exact store0_good|].
    split; [done|apply silent_answers].
Qed.
Lemma final_nodes_reachable : reachable final.
Proof. eapply script_reachable; [exact final_script|exact nodes0_reachable]. Qed.

(** The votes of node 1 in a round, and the ledger info with the signatures of all nodes. *)
Definition votes_of (nodes : gmap N node) (a : N) (r : Round) : list VoteMsg :=
  omap (fun x : Author * ConsensusMsg => match x.2 with
                                         | VoteMsg_ vm => if vote_round (vm_vote vm) =? r then Some vm else None
                                         | _ => None
                                         end) (from_option (fun n => rm_sent (n_manager n)) [] (nodes !! a)).
Lemma votes_sent (nodes : gmap N node) a r vm : vm ∈ votes_of nodes a r -> sent_by nodes a (VoteMsg_ vm).
Proof.
  unfold votes_of. destruct (nodes !! a) as [n|] eqn:Hn; cbn; [|by intros ?%elem_of_nil]. intros ([to msg] & Hin & Hm)%list_elem_of_omap.
  destruct msg as [p|info|vm']; cbn in Hm; [done|done|]. case_match; simplify_eq. by exists n, to.
Qed.
Abbreviation votes := (votes_of final 1).
Definition committed (r : Round) : LedgerInfoWithSignatures :=
  mkLedgerInfoWithSignatures (from_option (fun vm => v_ledger_info (vm_vote vm)) genesis_li (head (votes r))) {[ 1 := 101; 2 := 102; 3 := 103 ]}.
Definition vote3 : VoteMsg := default (mkVoteMsg (NetHash.vote_of 1) (SyncInfo.new genesis_qc genesis_qc None)) (votes 3 !! 0%nat).
Definition timeout3 : VoteMsg := default (mkVoteMsg (NetHash.vote_of 1) (SyncInfo.new genesis_qc genesis_qc None)) (votes 3 !! 1%nat).
Lemma vote3_sent : sent_by final 1 (VoteMsg_ vote3).
Proof. apply (votes_sent final 1 3 vote3), (list_elem_of_lookup_2 _ 0). vm_compute. reflexivity. Qed.
Lemma timeout3_sent : sent_by final 1 (VoteMsg_ timeout3).
Proof. apply (votes_sent final 1 3 timeout3), (list_elem_of_lookup_2 _ 1). vm_compute. reflexivity. Qed.
End NodeExample.

Module RoundManagerProps.
#[local] Existing Instances NodeExample.order NodeExample.hash_block_data NodeExample.computer NodeExample.silent
  NodeExample.no_transactions NodeExample.no_transactions_call_back NodeExample.db_storage NodeExample.db_keeps.

(** C3: nodes refine replicas.  In every run of nodes that handle messages, timeouts and
    callbacks in any order, fail anywhere and restart, the safety rules of all nodes
    together go through a run of the system of replicas: their callers request only what
    that system allows.  Every vote, timeout, proposal and commit vote that has left a node
    is in the log of its replica.  Signatures of nodes cannot be forged; the blocks that
    peers answer with are of the epoch and carry genuine certificates, and so do the ones
    that the storage returns, which excludes a sync past the end of the epoch.  The callers
    that ask for commit votes are not modelled: a step that signs one assumes of them what
    [Bft.allowed] asks, that the ordered ledger info is genuine and of the epoch of safety
    rules and that the new one keeps its consensus data hash. *)
Theorem nodes_refine_replicas `{HashOrder} `{StateComputer C} `{PersistentLivenessStorage L} `{ConsensusNetwork W}
    `{!ProposerElection P} `{!PayloadManager M} `{!CallsBack M} `{KVStorageLaws Store} `{ConsensusCrypto}
    `{CryptoHash BlockData} `{CryptoHash LedgerInfo} `{!CollisionFree LedgerInfo}
    (get_round_duration : N -> N) (V : N -> ValidatorVerifier) (honest : gset N) (e : N)
    (recovers : Genuine -> L -> Prop) `{!StorageKeeps L V e recovers} (nodes : gmap N (Node C L W P M Store)) :
  nodes_reachable get_round_duration V honest e recovers nodes ->
  exists g, system_reachable V honest g /\ forall a n, nodes !! a = Some n ->
    (exists log, g !! a = Some (mkReplica (rm_safety_rules (n_manager n)) log)) /\
    (forall msg, sent_by nodes a msg -> logged_msg a g msg) /\
    (forall li, li ∈ n_commit_votes n -> in_log g a (RCommit li)).
Proof.
  intros Hr. apply reachable_simulated in Hr as [g Hsim]; [|done]. exists g. split; [apply Hsim|]. intros a n Hn.
  destruct (proj2 Hsim a n Hn) as [Hg Hc]. split_and!; [|by intros msg; eapply sent_logged|done].
  destruct (ra_replica _ _ _ _ (ng_rules _ _ _ _ _ _ _ Hg)) as ([sr log] & Hx & <- & _). by exists log.
Qed.

(** Three rounds, in which every node has voted three times. *)
Lemma nodes_refine_replicas_witness :
  exists g, system_reachable Net.V Net.honest g /\
    forall a n, NodeExample.final !! a = Some n -> forall msg, sent_by NodeExample.final a msg -> logged_msg a g msg.
Proof.
  destruct (nodes_refine_replicas NodeExample.duration Net.V Net.honest 1 NodeExample.recovers NodeExample.final NodeExample.final_nodes_reachable)
    as (g & Hg & Hall). exists g. split; [exact Hg|]. intros a n Hn. apply (Hall a n Hn).
Defined.

(** C5: a node votes once in a round.  In the runs of [nodes_reachable] (events are timeouts and
    verified messages in which the signatures of nodes are genuine, and peers and storage
    answer with blocks of the epoch), however the events are ordered and however often a
    node crashes, two votes that have left it for the same epoch and round are for the same
    block with the same ledger info. *)
Theorem nodes_vote_once `{HashOrder} `{StateComputer C} `{PersistentLivenessStorage L} `{ConsensusNetwork W}
    `{!ProposerElection P} `{!PayloadManager M} `{!CallsBack M} `{KVStorageLaws Store} `{ConsensusCrypto}
    `{CryptoHash BlockData} `{CryptoHash LedgerInfo} `{!CollisionFree LedgerInfo}
    (get_round_duration : N -> N) (V : N -> ValidatorVerifier) (honest : gset N) (e : N)
    (recovers : Genuine -> L -> Prop) `{!StorageKeeps L V e recovers} (nodes : gmap N (Node C L W P M Store))
    (a : N) (vm vm' : VoteMsg) :
  nodes_reachable get_round_duration V honest e recovers nodes ->
  sent_by nodes a (VoteMsg_ vm) -> sent_by nodes a (VoteMsg_ vm') ->
  vote_epoch (vm_vote vm) = vote_epoch (vm_vote vm') -> vote_round (vm_vote vm) = vote_round (vm_vote vm') ->
  v_vote_data (vm_vote vm) = v_vote_data (vm_vote vm') /\ v_ledger_info (vm_vote vm) = v_ledger_info (vm_vote vm').
Proof.
  intros Hr Hs Hs' He Hround. apply reachable_simulated in Hr as [g Hsim]; [|done]. destruct Hs as (n & to & Hn & Hin).
  destruct (proj2 Hsim a n Hn) as [Hg _]. destruct (ra_replica _ _ _ _ (ng_rules _ _ _ _ _ _ _ Hg)) as (x & Hx & _ & [_ _ (sd & _ & Hlog)] & _).
  assert (sent_by nodes a (VoteMsg_ vm)) as Hs by (by exists n, to).
  eapply (sent_logged _ _ _ _ _ _ Hsim) in Hs as [(v & (y & Hy & Hv) & Hd & Hl) _].
  eapply (sent_logged _ _ _ _ _ _ Hsim) in Hs' as [(v' & (y' & Hy' & Hv') & Hd' & Hl') _].
  simplify_eq. assert (v = v') as <-.
  { apply (lo_unique _ _ Hlog); [done..| |]; unfold vote_epoch, vote_round in *; congruence. }
  split; congruence.
Qed.

(** The vote of a round, and the one that is sent with a timeout when the round ends. *)
Lemma nodes_vote_once_witness :
  Vote.is_timeout (vm_vote NodeExample.vote3) = false /\ Vote.is_timeout (vm_vote NodeExample.timeout3) = true /\
  v_vote_data (vm_vote NodeExample.vote3) = v_vote_data (vm_vote NodeExample.timeout3) /\
  v_ledger_info (vm_vote NodeExample.vote3) = v_ledger_info (vm_vote NodeExample.timeout3).
Proof.
  split; [vm_compute; reflexivity|]. split; [vm_compute; reflexivity|].
  apply (nodes_vote_once NodeExample.duration Net.V Net.honest 1 NodeExample.recovers NodeExample.final 1); [exact NodeExample.final_nodes_reachable|..].
  - exact NodeExample.vote3_sent.
  - exact NodeExample.timeout3_sent.
  - vm_compute. reflexivity.
  - vm_compute. reflexivity.
Defined.

(** C4: nodes agree.  In the runs of [nodes_reachable], with their assumptions on peers, storage
    and the callers that ask for commit votes, and with voting power of the others at most
    total minus quorum, take any two ledger infos of rounds above 0 that carry a verified
    quorum of signatures, those of the nodes being authentic: in a run of the system of replicas in which all that the nodes have signed is
    in the logs, the blocks that they commit are on one chain of certified blocks, and if
    their rounds are equal they are the same block. *)
Theorem nodes_agree `{HashOrder} `{StateComputer C} `{PersistentLivenessStorage L} `{ConsensusNetwork W}
    `{!ProposerElection P} `{!PayloadManager M} `{!CallsBack M} `{KVStorageLaws Store} `{ConsensusCrypto}
    `{CryptoHash BlockData} `{CryptoHash LedgerInfo} `{!CollisionFree LedgerInfo} `{!CollisionFree VoteData}
    (get_round_duration : N -> N) (V : N -> ValidatorVerifier) (honest : gset N) (e : N)
    (recovers : Genuine -> L -> Prop) `{!StorageKeeps L V e recovers} (nodes : gmap N (Node C L W P M Store))
    (lis1 lis2 : LedgerInfoWithSignatures) :
  fault_bound V honest -> nodes_reachable get_round_duration V honest e recovers nodes ->
  EpochState.verify (mkEpochState e (V e)) lis1 = Ok tt -> authentic_li V honest nodes lis1 ->
  EpochState.verify (mkEpochState e (V e)) lis2 = Ok tt -> authentic_li V honest nodes lis2 ->
  LedgerInfo.round (lis_ledger_info lis1) <> 0 -> LedgerInfo.round (lis_ledger_info lis2) <> 0 ->
  (LedgerInfo.round (lis_ledger_info lis1) = LedgerInfo.round (lis_ledger_info lis2) ->
   LedgerInfo.consensus_block_id (lis_ledger_info lis1) = LedgerInfo.consensus_block_id (lis_ledger_info lis2)) /\
  exists g b1 b2, system_reachable V honest g /\ (forall a li, signed_by nodes a li -> signed_ledger_info g a li) /\
    same_block b1 (li_commit_info (lis_ledger_info lis1)) /\ same_block b2 (li_commit_info (lis_ledger_info lis2)) /\
    (extends V honest g b1 b2 \/ extends V honest g b2 b1).
Proof.
  intros Hb Hr Hv1 Ha1 Hv2 Ha2 Hr1 Hr2. apply reachable_simulated in Hr as [g Hsim]; [|done].
  pose proof (system_reachable_ok V honest g Hb (proj1 Hsim)) as Hok.
  destruct (verified_commit V honest g e lis1) as (vd1 & Hc1 & He1 & Hn1 & Hs1); [done..|by eapply authentic_unforged|done|].
  destruct (verified_commit V honest g e lis2) as (vd2 & Hc2 & He2 & Hn2 & Hs2); [done..|by eapply authentic_unforged|done|].
  split.
  - intros Heq. destruct Hs1 as (_ & Hr1' & Hi1), Hs2 as (_ & Hr2' & Hi2). unfold LedgerInfo.consensus_block_id, LedgerInfo.round in *.
    rewrite <-Hi1, <-Hi2. f_equal. apply (two_chains_same_round V honest g); first [done|congruence].
  - exists g, (vd_parent vd1), (vd_parent vd2). split_and!; [apply Hsim|by intros a li; eapply signed_logged|done..|].
    destruct (N.le_ge_cases (bi_round (vd_parent vd1)) (bi_round (vd_parent vd2))); [left|right];
      apply two_chains_ordered; first [done|congruence|lia].
Qed.

(** The votes of rounds 2 and 3 commit the blocks of rounds 1 and 2. *)
Lemma nodes_agree_witness :
  exists g b1 b2, system_reachable Net.V Net.honest g /\
    same_block b1 (li_commit_info (lis_ledger_info (NodeExample.committed 2))) /\
    same_block b2 (li_commit_info (lis_ledger_info (NodeExample.committed 3))) /\
    (extends Net.V Net.honest g b1 b2 \/ extends Net.V Net.honest g b2 b1).
Proof.
  destruct (nodes_agree NodeExample.duration Net.V Net.honest 1 NodeExample.recovers NodeExample.final
    (NodeExample.committed 2) (NodeExample.committed 3)) as [_ (g & b1 & b2 & Hg & _ & H1 & H2 & He)].
  - exact Net.fault_bound4.
  - exact NodeExample.final_nodes_reachable.
  - vm_compute. reflexivity.
  - apply NodeExample.authentic_lib_sound. vm_compute. reflexivity.
  - vm_compute. reflexivity.
  - apply NodeExample.authentic_lib_sound. vm_compute. reflexivity.
  - vm_compute. discriminate.
  - vm_compute. discriminate.
  - exists g, b1, b2. split; [exact Hg|]. split; [exact H1|]. split; [exact H2|exact He].
Defined.
End RoundManagerProps.
